(* ===== verification/_CoqProject ===== *)
-Q . S2P
Prelude.v
Bpf.v
User.v
Seccomp.v
SeccompInstall.v
SeccompCkpt.v
FileLock.v
UserNs.v
Creds.v
FsAccess.v
Path.v
PathSound.v
PathLexical.v
PathCorrect.v
Counts.v
FdTable.v
FdRefs.v
FdWorld.v
FdMap.v
Fcntl.v
EventFd.v
Ipc.v
Waits.v
SysvSem.v
SysvSemWorld.v
MsgQueue.v
MsgWorld.v
Zpool.v
KLog.v
Rounding.v
Float80.v
Float80Sound.v
Float80Arith.v
Float80Fast.v
Float80Cmp.v
Float80Conv.v
Float80Ieee.v
Float80Scale.v
Float80Rem.v
Float80Root.v
Float80Log.v
Fpu.v
FpuSound.v
FpuState.v
Pids.v
Groups.v
Procs.v
Ctty.v
ProcWorld.v
ProcLinks.v
ProcSound.v
ProcLeave.v
ProcTty.v
ProcEnter.v
ProcStep.v
ProcClaims.v
ProcRaces.v
PidNums.v
PidSeen.v
PidViews.v
PidClaims.v
Futex.v
FutexSound.v
FutexSteps.v
FutexWorld.v
FutexSafe.v
FutexTrace.v
FutexClaims.v
FutexRobust.v
