(* ===== verification/Prelude.v ===== *)
(** * Verification of iSH-AOK's kernel

    iSH-AOK runs Linux programs on iOS: an instruction emulator under a Linux
    kernel written in C, whose system calls are in kernel/ and fs/, with shared
    utilities in util/.  This library models the parts of that kernel that carry
    its own logic and its security decisions, and the emulated floating-point
    unit (emu/), as executable functions translated from the sources, and proves
    what makes them correct.  Paths below are relative to src/.

    ** How the sources are modelled

    A w-bit C integer is a [Z] with its wrap-around written out ([u16], [u32],
    [u64], [s16], [s32], [s64] below).  A function that changes state takes the
    state and answers the new one; a failing call answers the negative errno the
    code answers.  What the code leaves undefined (a copy out of bounds, a
    pointer to freed memory, a shift too far) is an explicit outcome, [None] or
    [Fault], and theorems show it does not happen.  A call that sleeps is split
    where it sleeps: its lock is held on each side, so the model takes the two
    parts as steps.  Code outside these files (malloc, the clock, the other
    halves of [struct task]) is an argument; where a theorem needs something of
    it, that is a hypothesis, and the theorem has a witness with a concrete
    value.  Memory shared by threads is explicit: a heap of filters, a table of
    namespaces, sets of semaphores at addresses.

    ** Parts, files and correspondence

    - Prelude.v (this file): integers, error numbers, blocks of bytes, tactics
      and hint databases, signal_restart_or_eintr and its nohand form
      (kernel/signal.h).
    - Bpf.v: the filter language of seccomp, kernel/seccomp.c up to bpf_run.
      [bpf_check] is bpf_check with both passes, [bpf_step]/[bpf_run] the
      interpreter.
    - User.v: kernel/user.c and the address rules of kernel/abi.h.  The class
      [GuestMemory] is what every other component sees of guest memory, and
      [GuestMemoryOk] its laws; the page table of this file implements both.
    - Seccomp.v, SeccompInstall.v, SeccompCkpt.v: the rest of kernel/seccomp.c.
      The heap of filters with reference counts, [run_filters], the system call
      entry [seccomp_syscall_enter], [set_mode_filter] with TSYNC, the seccomp
      and prctl calls, and the checkpoint export and import.  Uses Bpf.v and the
      memory interface.
    - FileLock.v: fs/lock.c with the structures of fs/inode.h: record locks,
      open-file-description locks, flock, deadlock detection.
    - UserNs.v: user namespaces in kernel/getset.c and kernel/user_ns.h: id
      maps, [ns_capable], writing uid_map, gid_map and setgroups.
    - Creds.v: the set*id, group and capability calls of kernel/getset.c, on
      UserNs.v.
    - FsAccess.v: access_check and setattr_check of kernel/fs.c, on Creds.v.
    - Path.v: fs/path.c, with mount_find and mount_list_insert (fs/mount.c),
      find_mount_and_trim_path (fs/generic.c) and mount_staging_point_len
      (kernel/fs.h).  [path_normalize_at] is __path_normalize, one turn of its
      loop [walk_turn]; file systems are arguments.  Uses FsAccess.v.
      PathSound.v describes the walks as moves between directories,
      PathLexical.v the walks without links, and PathCorrect.v has the theorems
      about path_normalize.
    - FdTable.v: fs/fd.c up to close_range, with inode_get and inode_release of
      fs/inode.c: open files, descriptor tables and inodes at addresses, with
      their reference counts.  Fcntl.v: sys_fcntl_common, on FdTable.v,
      FileLock.v and guest memory.  Counts.v: sums over maps and occurrences in
      lists.  FdRefs.v: every operation keeps the counts exact.  FdWorld.v:
      threads that share tables, their calls split where the table's lock is
      left.  FdMap.v: the table as a map, and the theorems.
    - EventFd.v: kernel/eventfd.c, on FdTable.v.
    - Ipc.v: what the System V calls share, the access checks of kernel/ipc.c,
      on UserNs.v.  Waits.v: objects at addresses and the calls asleep on them,
      generically: what keeps an invariant between each object and its sleepers.
    - SysvSem.v, SysvSemWorld.v: kernel/sysvsem.c.  SysvSem.v has the calls;
      SysvSemWorld.v interleaves them with sleeping processes as a step relation.
    - MsgQueue.v, MsgWorld.v: kernel/sysvmsg.c, in the same way; the steps carry
      what was sent and received.
    - Zpool.v: kernel/zpool.c, the pool of compressed pages.
    - KLog.v: util/fifo.c and kernel/log.c: the ring buffer, printk, the readers
      of the log and syslog(2).
    - Rounding.v: what correct rounding is, on integers counted in units of
      2^-U with U = 2^17, which divides every number of the format: [rounds_to]
      for the four modes, and [delivers], a result with its flags.
    - Float80.v: emu/float80.c's representation, its rounding path
      [u128_normalize_round], the four operations and the comparisons;
      Float80Sound.v proves the rounding path, Float80Arith.v the operations,
      Float80Cmp.v the comparisons.  Float80Fast.v: the fast paths.
      Float80Conv.v: integers and FRNDINT's rounding.  Float80Ieee.v: floats
      and doubles.  Float80Scale.v, Float80Rem.v, Float80Root.v and
      Float80Log.v: scaling, remainders, the square root with its integer root
      found through host doubles, the logarithms.  The thread-local rounding
      mode, precision and flags of the source are the record [fenv], passed
      through every operation.
    - Fpu.v: emu/fpu.c, with the x87 fields of emu/cpu.h and the FXSAVE area of
      emu/fxsave.h, on float80: the register stack, one definition per helper.
      The C library's sin, cos, tan, atan2 and exp2 are a parameter.  An
      assertion that fails or a conversion the language leaves undefined is
      [None].  FpuSound.v: every helper keeps the state well formed.
      FpuState.v: what the helpers do.
    - Pids.v: the pid table and pid namespaces, kernel/task.c and
      kernel/pid_ns.h.  Groups.v: kernel/group.c, process groups and sessions.
      Procs.v: what clone (kernel/fork.c), construct_task (kernel/init.c), exit
      and wait (kernel/exit.c) and execve (kernel/exec.c) do to the table and to
      the thread groups, and whom a group signal reaches (kernel/signal.c).
      Ctty.v: controlling terminals, in fs/tty.c and kernel/exit.c.  A slot's
      lists of groups and sessions are lists of addresses; tasks, thread groups,
      namespaces and terminals are objects at addresses, and following a pointer
      to nothing is [None].
    - ProcWorld.v: the above as a state machine, one event for each stretch of
      code that runs under pids_lock, with the stages a clone goes through.
      ProcLinks.v: the invariant of lists, table and half-made tasks.
      ProcSound.v, ProcLeave.v, ProcEnter.v and ProcTty.v: what each operation
      leaves of it, and of the terminals' invariant.  ProcStep.v: every event
      keeps both.  ProcClaims.v: what that means, stated without the lists.
      ProcRaces.v: runs that end where they should not.
    - PidNums.v: the two tables of a pid namespace, and how pid_ns_number_task,
      pid_ns_unnumber and pid_ns_new keep them.  PidSeen.v: the operations that
      leave the numbers of what stays.  PidViews.v: every event keeps the
      tables, and the numbers of each task those of its namespace.  PidClaims.v:
      what that means for pid_ns_shown, pid_ns_global and the lookups.
    - Futex.v: kernel/futex.c: the hash table of futexes, their queues, waits and
      wakes, requeues, locks that know their owner, and robust lists.  A sleeping
      call's [futex_wait] is an object at an address; a failed assertion is
      [None].  FutexWorld.v: the calls as a state machine, an event for each
      stretch under futex_lock.  FutexSound.v: the invariant of references, table
      and queues.  FutexSteps.v and FutexSafe.v: what each operation leaves of
      it.  FutexTrace.v: every event keeps it.  FutexClaims.v and FutexRobust.v:
      what is promised, and wakes that are lost.

    ** What the theorems show

    - Filters (Bpf.v): an accepted program runs to an answer in as many steps as
      it has instructions, without a fault, whatever the initial scratch memory.
    - seccomp: the most restrictive filter decides; a call goes ahead only if
      every filter lets it; installing keeps reference counts exact and changes
      nothing when it fails; no sequence of calls relaxes a thread's
      confinement; saving and restoring rebuilds chains and their sharing.
    - Guest memory: page-wise copies are byte-wise copies; a write stores a
      prefix and nothing else; a readable path is read whole.
    - Locks: placing a lock is exactly an update of the map from owner and byte
      to lock type, refused exactly on conflict; nobody who could proceed is
      left asleep; the waits-for graph stays acyclic; ranges are computed as with
      unbounded integers; conversions round-trip; flock excludes.
    - Namespaces and credentials: written id maps are bijections into the
      parent's ids; capabilities reach only down the tree; maps and a denied
      setgroups are final; capability sets keep their inclusions; a process that
      gave up its privilege never regains it; failed calls change nothing.
    - Files: without a capability, no sequence of changes gives a file away or
      leaves a set-group-id bit on a foreign group.
    - Paths: a resolution ends; what it answers is normalized, fits the buffer,
      was reached through directories the caller may search, and never lies
      outside the root it was confined to; without links it is the lexical
      resolution; it stays inside its buffers if no searchable path and no link
      fills them; a path is on the deepest mount above it.
    - Descriptors: over every interleaving of the calls of threads that share
      tables, counts of files and tables are exact and nothing freed is used;
      each call changes the map from descriptors to files exactly as it
      promises; closing drops exactly the locks it should; fcntl always answers
      or sleeps and refuses closed and O_PATH descriptors without effect; lock
      descriptions survive the three guest layouts.
    - Event counters: nothing written is lost, no wakeup is lost, poll agrees.
    - Semaphores: semop is atomic and means its operations in sequence; over
      every interleaving, no set is freed under a sleeper, no wakeup is lost and
      the counts are the numbers of sleepers; SEM_UNDO restores exactly.
    - Message queues: msgrcv takes the message its msgtyp names; over every
      interleaving the messages of a type are received in the order sent, none
      lost or made up, the counters are exact, no queue is freed under a sleeper
      and no wakeup is lost.
    - Page pool: it is a finite map from handles to byte strings with exact
      statistics; no handle whatever leads outside an entry.
    - Log: the ring is a bounded queue; readers see the stream of all bytes
      logged, at their absolute positions; lines are whole and numbered; printing
      adds exactly the completed lines.
    - Floating point: sums, differences, products, quotients, square roots,
      scalings, conversions to integers and stores as float or double are the
      exact result rounded once, in every mode and precision, with the flags of
      that rounding; remainders are exact; comparisons decide the order of the
      values and know NaNs; values of 64 bits and below come back from wider
      formats unchanged; the fast paths answer what the general ones do.
    - The x87 unit: any sequence of helpers runs through and keeps the state
      well formed; the fast paths are invisible; condition codes tell the order;
      saving and restoring brings the state back.
    - Processes: over every interleaving of clone, setpgid, setsid, execve, exit,
      wait and the terminal calls, four races aside ([ProcStep.calm]), nothing
      follows a missing task, group, slot or terminal; the lists of groups and
      sessions hold exactly the processes that name them; a group signal reaches
      exactly the members that can take it; the orphan test says what POSIX
      says; a terminal is had by one session, whose leader is alive; the search
      for a pid ends exactly when one is free.
    - Pid namespaces: over the same runs, numbers and the pids in use are one to
      one in each namespace; one more race aside ([PidViews.steady]), a task is
      found by exactly the number shown for it, in its namespace and those above
      it and nowhere else.
    - Futexes: over every interleaving no assertion fails and nothing freed is
      used, counts are exact and nothing leaks; a wake takes the first waiters
      that match, in order; a wake during a restart is not lost; an unlock hands
      the lock to who waited longest; a robust list is handled entry by entry.

    A few theorems record behaviour that differs from what a comment or a manual
    says: [UserNs.write_map_wraps], [UserNs.write_map_fills_hole],
    [SysvSem.undo_adjustment_wraps], [SysvSemWorld.semctl_skips_permission],
    [MsgQueue.long_min_receives_nothing], [Zpool.freed_handle_still_loads],
    [KLog.line_seek_skips_whole_line], [KLog.fifo_last_consumes_front],
    [PathCorrect.deep_lookup_overruns], [PathCorrect.long_link_overruns],
    [FdMap.dup_races_with_close], [FdMap.limit_cut_to_32_bits],
    [FdMap.exec_closes_for_sharer], [Fcntl.legacy_offset_not_signed],
    [Fcntl.lock_outlives_process], [Float80Ieee.store_misses_underflow],
    [Float80Root.isqrt_signed_overflow], [Float80Log.log2p1_leaks_rounded_up],
    [FpuState.denormal_operand_lost], [FpuState.rndint_snan_ignored],
    [FpuState.fnsave_forgets_tags], [ProcRaces.setsid_splits_group],
    [ProcRaces.fork_misses_setpgid], [ProcRaces.thread_names_group],
    [ProcRaces.threads_child_refused], [ProcRaces.failed_clone_relinked],
    [ProcRaces.never_ran_unlinks_live], [ProcRaces.orphan_tests_disagree],
    [PidClaims.never_ran_unnumbers_other], [FutexRobust.wake_lost_to_signal],
    [FutexRobust.parked_misses_wake_op] and [FutexRobust.robust_mark_lost].

    ** Bounds and fuel

    Loops that are not structural take fuel, and the lemmas about them show the
    fuel used is enough: [bpf_run] has one step per instruction, since jumps only
    go forward; walks of filter chains have one per address below the head's,
    since a filter's predecessor is older; copies of guest memory one per byte;
    walks up the namespace tree one per table index; the log's loops one per
    byte; a walk of a path as many as the text it has left is long, and three,
    with 40 links as in the source.  The deadlock walk keeps the source's own bound.
    The two loops of the integer root have 2^64 turns of fuel, counted in binary
    so that it costs nothing to provide; the proof shows a handful are used.  The
    remainder's loop runs over the difference of the exponents, the logarithm's
    series over the source's own 199 turns.  Walks up the pid namespaces have 33
    turns, one more than the levels there can be ([PidNums.pid_ns_in_ups]); the search for a pid one per
    number below the limit, and [ProcClaims.pid_search_ends] shows that when
    those are not enough none are.  Counters that the
    source keeps in 32 or 64 bits are bounded by hypotheses where wrapping would
    need more objects than memory holds: fewer than 2^32 processes asleep on
    semaphores or queues, 2^32 references to open files, 2^32 calls
    asleep on futexes or parked for a restart, 2^63 bytes of queued messages, 2^31 slabs, 2^62 bytes logged.

    ** Not modelled

    The emulator but for its x87 unit, and the compiled code (emu/, jit/); how
    close the logarithms come to the true ones; the MXCSR and FXSAVE wrappers of
    emu/fpu.c, which reach the host's floating-point environment; the file systems, sockets
    and devices, virtual memory, signals but for whom they are sent to, what of
    a process's life does not touch the pid table (memory, accounting, wait's
    choice of a child, ptrace), checkpoints other than seccomp's, the application (app/) and vendored code; in the files above,
    locks as such (each call is taken under its lock), reference counts of
    namespaces, and the text of proc files.

    ** Further work

    The line discipline of terminals; signal masks and queues; POSIX message
    queues on Waits.v; epoll on the descriptor table. *)

From stdpp Require Export base numbers list gmap strings.
From Stdlib Require Export ZArith Lia Bool.
From Stdlib Require Import Zdiv.

#[global] Open Scope Z_scope.

(** ** Notation for C integer expressions *)

Declare Scope c_scope.
Notation "a .& b" := (Z.land a b) (at level 40, left associativity) : c_scope.
Notation "a .| b" := (Z.lor a b) (at level 50, left associativity) : c_scope.
Notation "a .^ b" := (Z.lxor a b) (at level 50, left associativity) : c_scope.
#[global] Open Scope c_scope.

(** ** Machine-width integers

    A [w]-bit unsigned C integer is a [Z] in [0, 2^w); arithmetic on it is
    [Z] arithmetic followed by [wrap w].  A signed one is in [-2^(w-1), 2^(w-1)), and
    [swrap w] is the two's-complement conversion. *)

Definition wrap (w x : Z) : Z := x mod 2 ^ w.
Definition swrap (w x : Z) : Z :=
  let y := x mod 2 ^ w in if y <? 2 ^ (w - 1) then y else y - 2 ^ w.

Definition u16 (x : Z) : Z := wrap 16 x.
Definition u32 (x : Z) : Z := wrap 32 x.
Definition u64 (x : Z) : Z := wrap 64 x.
Definition s16 (x : Z) : Z := swrap 16 x.
Definition s32 (x : Z) : Z := swrap 32 x.
Definition s64 (x : Z) : Z := swrap 64 x.

Definition in_u (w x : Z) : Prop := 0 <= x < 2 ^ w.
Definition in_s (w x : Z) : Prop := - 2 ^ (w - 1) <= x < 2 ^ (w - 1).

(** [if (flags & bit)]. *)
Definition has_flag (flags bit : Z) : bool := negb (flags .& bit =? 0).

(** The little-endian number a sequence of bytes is. *)
Fixpoint le_num (bs : list Z) : Z :=
  match bs with [] => 0 | b :: bs => b + 256 * le_num bs end.

(** Its inverse: the [n] low bytes of a number. *)
Fixpoint le_bytes (n : nat) (x : Z) : list Z :=
  match n with O => [] | S n => x mod 256 :: le_bytes n (x / 256) end.

(** [n] bytes of [bs] from offset [off]. *)
Definition field (off n : nat) (bs : list Z) : list Z := take n (drop off bs).

(** memcpy out of and into a block, at an offset. *)
Definition get_bytes (m : list Z) (off n : Z) : list Z := take (Z.to_nat n) (drop (Z.to_nat off) m).
Definition put_bytes (m : list Z) (off : Z) (bs : list Z) : list Z := list_inserts (Z.to_nat off) bs m.

(** ** Error numbers (kernel/errno.h) *)

Definition _EPERM := -1.
Definition _ENOENT := -2.
Definition _ESRCH := -3.
Definition _EINTR := -4.
Definition _EIO := -5.
Definition _E2BIG := -7.
Definition _EBADF := -9.
Definition _EAGAIN := -11.
Definition _ENOMEM := -12.
Definition _EACCES := -13.
Definition _EFAULT := -14.
Definition _EEXIST := -17.
Definition _EXDEV := -18.
Definition _ENOTDIR := -20.
Definition _EISDIR := -21.
Definition _EINVAL := -22.
Definition _EMFILE := -24.
Definition _ENOTTY := -25.
Definition _EFBIG := -27.
Definition _ESPIPE := -29.
Definition _ERANGE := -34.
Definition _EDEADLK := -35.
Definition _ENAMETOOLONG := -36.
Definition _ENOSYS := -38.
Definition _ELOOP := -40.
Definition _ENOMSG := -42.
Definition _EIDRM := -43.
Definition _EOVERFLOW := -75.
Definition _EOPNOTSUPP := -95.
Definition _ETIMEDOUT := -110.

(** What a call interrupted by a signal answers, [restart] being
    signal_should_restart_syscall() (kernel/signal.h). *)
Definition _ERESTART := -85.
Definition signal_restart_or_eintr (restart : bool) (res : Z) : Z :=
  if (res =? _EINTR) && restart then _ERESTART else res.

(** The form for waits a job-control stop resumes and a handler ends, [resume]
    being signal_should_restart_syscall_nohand(). *)
Definition _ERESTART_NOHAND := -512.
Definition signal_restart_or_eintr_nohand (resume : bool) (res : Z) : Z :=
  if (res =? _EINTR) && resume then _ERESTART_NOHAND else res.

(** ** Tactics *)

(** Case analysis on the innermost [match]/[if] of the goal or a hypothesis,
    remembering the equation. *)
Ltac case_on_match :=
  match goal with
  | |- context [match ?x with _ => _ end] =>
      lazymatch x with context [match _ with _ => _ end] => fail | _ => destruct x eqn:? end
  end.
Ltac case_on_match_in H :=
  match type of H with
  | context [match ?x with _ => _ end] =>
      lazymatch x with context [match _ with _ => _ end] => fail | _ => destruct x eqn:? end
  end.

(** Turn boolean comparisons of [Z] in the context into propositions. *)
Ltac to_prop :=
  repeat match goal with
  | H : andb _ _ = true |- _ => apply andb_true_iff in H; destruct H
  | H : orb _ _ = false |- _ => apply orb_false_iff in H; destruct H
  | H : negb _ = true |- _ => apply negb_true_iff in H
  | H : negb _ = false |- _ => apply negb_false_iff in H
  | H : (_ =? _) = true |- _ => apply Z.eqb_eq in H
  | H : (_ =? _) = false |- _ => apply Z.eqb_neq in H
  | H : (_ <? _) = true |- _ => apply Z.ltb_lt in H
  | H : (_ <? _) = false |- _ => apply Z.ltb_ge in H
  | H : (_ <=? _) = true |- _ => apply Z.leb_le in H
  | H : (_ <=? _) = false |- _ => apply Z.leb_gt in H
  | H : (_ >? _) = true |- _ => rewrite Z.gtb_ltb in H; apply Z.ltb_lt in H
  | H : (_ >? _) = false |- _ => rewrite Z.gtb_ltb in H; apply Z.ltb_ge in H
  | H : (_ >=? _) = true |- _ => rewrite Z.geb_leb in H; apply Z.leb_le in H
  | H : (_ >=? _) = false |- _ => rewrite Z.geb_leb in H; apply Z.leb_gt in H
  end.

(** ** Shared lemmas *)

Create HintDb cint.

Lemma wrap_range w x : 0 <= w -> in_u w (wrap w x).
Proof. intros Hw. apply Z.mod_pos_bound, Z.pow_pos_nonneg; lia. Qed.

Lemma wrap_small w x : in_u w x -> wrap w x = x.
Proof. apply Z.mod_small. Qed.

Lemma u16_small x : 0 <= x < 2 ^ 16 -> u16 x = x.
Proof. apply Z.mod_small. Qed.
Lemma u32_small x : 0 <= x < 2 ^ 32 -> u32 x = x.
Proof. apply Z.mod_small. Qed.
Lemma u64_small x : 0 <= x < 2 ^ 64 -> u64 x = x.
Proof. apply Z.mod_small. Qed.

Lemma swrap_range w x : 0 < w -> in_s w (swrap w x).
Proof.
  intros Hw. unfold swrap, in_s.
  pose proof (Z.mod_pos_bound x (2 ^ w)) as Hm.
  assert (0 < 2 ^ (w - 1)) by (apply Z.pow_pos_nonneg; lia).
  assert (2 ^ w = 2 * 2 ^ (w - 1)) as E
    by (rewrite <- Z.pow_succ_r by lia; f_equal; lia).
  destruct (Z.ltb_spec (x mod 2 ^ w) (2 ^ (w - 1))); lia.
Qed.

Lemma swrap_small w x : 0 < w -> in_s w x -> swrap w x = x.
Proof.
  unfold swrap, in_s. intros Hw Hx.
  assert (0 < 2 ^ (w - 1)) by (apply Z.pow_pos_nonneg; lia).
  assert (2 ^ w = 2 * 2 ^ (w - 1)) as E
    by (rewrite <- Z.pow_succ_r by lia; f_equal; lia).
  destruct (Z.ltb_spec (x mod 2 ^ w) (2 ^ (w - 1))) as [Hlt | Hge].
  - destruct (decide (0 <= x)) as [Hp | Hn]; [apply Z.mod_small; lia |].
    replace x with ((x + 2 ^ w) + (-1) * 2 ^ w) in Hlt by lia.
    rewrite Z.mod_add in Hlt by lia. rewrite Z.mod_small in Hlt by lia. lia.
  - destruct (decide (0 <= x)) as [Hp | Hn].
    + rewrite Z.mod_small in Hge by lia. lia.
    + replace x with ((x + 2 ^ w) + (-1) * 2 ^ w) at 1 by lia.
      rewrite Z.mod_add by lia. rewrite Z.mod_small by lia. lia.
Qed.

Lemma land_bounds w a b : 0 <= w -> in_u w a -> 0 <= b -> in_u w (a .& b).
Proof.
  unfold in_u. intros Hw Ha Hb. split; [apply Z.land_nonneg; lia |].
  destruct (decide (a .& b = 0)) as [-> | Hn]; [apply Z.pow_pos_nonneg; lia |].
  assert (0 <= a .& b) by (apply Z.land_nonneg; lia).
  apply Z.log2_lt_pow2; [lia |].
  pose proof (Z.log2_land a b) as Hl.
  assert (a <> 0) by (intros ->; rewrite Z.land_0_l in Hn; lia).
  assert (Z.log2 a < w) by (apply Z.log2_lt_pow2; lia). lia.
Qed.

Lemma has_flag_testbit x n : 0 <= n -> has_flag x (Z.shiftl 1 n) = Z.testbit x n.
Proof.
  intros Hn. unfold has_flag. rewrite Z.shiftl_1_l.
  destruct (Z.testbit x n) eqn:E.
  - apply negb_true_iff, Z.eqb_neq. intros H0.
    assert (Z.testbit (x .& 2 ^ n) n = true) as Ht
      by (rewrite Z.land_spec, E, Z.pow2_bits_true; done).
    rewrite H0, Z.bits_0 in Ht. done.
  - apply negb_false_iff, Z.eqb_eq. apply Z.bits_inj'. intros m Hm.
    rewrite Z.land_spec, Z.bits_0, Z.pow2_bits_eqb by lia.
    destruct (Z.eqb_spec n m) as [-> | ?]; [by rewrite E | by rewrite andb_false_r].
Qed.

#[export] Hint Resolve wrap_range swrap_range land_bounds : cint.

Lemma le_num_bound bs : Forall (in_u 8) bs -> in_u (8 * Z.of_nat (length bs)) (le_num bs).
Proof.
  unfold in_u. induction 1 as [| b bs Hb _ IH]; simpl; [lia |].
  replace (8 * Z.of_nat (S (length bs))) with (8 + 8 * Z.of_nat (length bs)) by lia.
  rewrite Z.pow_add_r by lia. change (2 ^ 8) with 256 in *. lia.
Qed.

(** A number read from a [n]-byte field is below [2^w] when [8 n <= w]. *)
Lemma field_bound off n w bs :
  Forall (in_u 8) bs -> 8 * Z.of_nat n <= w -> in_u w (le_num (field off n bs)).
Proof.
  intros Hb Hw. unfold field.
  assert (Forall (in_u 8) (take n (drop off bs))) as Hf by (apply Forall_take, Forall_drop, Hb).
  apply le_num_bound in Hf. unfold in_u in *. split; [lia |].
  eapply Z.lt_le_trans; [apply Hf |]. apply Z.pow_le_mono_r; [lia |].
  rewrite length_take. lia.
Qed.

(** A state transformer iterated a bounded number of times stays inside any
    set it preserves. *)
Lemma iter_invariant {A} (f : A -> A) (P : A -> Prop) (n : nat) (a : A) :
  (forall x, P x -> P (f x)) -> P a -> P (Nat.iter n f a).
Proof. intros Hf Ha. induction n; simpl; auto. Qed.

(** Bits below a multiple of [2 ^ n] are added to it by an or. *)
Lemma lor_disjoint x y n : 0 <= n -> 0 <= y < 2 ^ n -> Z.lor (x * 2 ^ n) y = x * 2 ^ n + y.
Proof.
  intros Hn Hy. rewrite <- Z.shiftl_mul_pow2 by done. rewrite <- Z.lxor_lor, <- Z.add_nocarry_lxor; [done | |];
  (apply Z.bits_inj'; intros m Hm; rewrite Z.land_spec, Z.bits_0; destruct (decide (m < n)); [by rewrite Z.shiftl_spec_low |];
   destruct (decide (y = 0)) as [-> | ?]; [rewrite Z.bits_0; apply andb_false_r |];
   rewrite (Z.bits_above_log2 y); [apply andb_false_r | lia | apply Z.lt_le_trans with n; [apply Z.log2_lt_pow2; lia | lia]]).
Qed.

(** ** Bytes of a block *)

Lemma get_bytes_lookup m off n k : 0 <= off -> 0 <= n ->
  get_bytes m off n !! k = if decide (Z.of_nat k < n) then m !! (Z.to_nat off + k)%nat else None.
Proof.
  intros Ho Hn. unfold get_bytes. case_decide.
  - rewrite lookup_take_lt by lia. by rewrite lookup_drop.
  - apply lookup_take_ge. lia.
Qed.

Lemma put_bytes_length m off bs : length (put_bytes m off bs) = length m.
Proof. apply length_inserts. Qed.

Lemma get_put_same m off bs n : 0 <= off -> n = Z.of_nat (length bs) -> off + n <= Z.of_nat (length m) -> get_bytes (put_bytes m off bs) off n = bs.
Proof.
  intros Ho -> Hl. apply list_eq. intros k. rewrite get_bytes_lookup by lia. case_decide.
  - unfold put_bytes. rewrite list_lookup_inserts by lia. f_equal. lia.
  - symmetry. apply lookup_ge_None_2. lia.
Qed.

Lemma get_put_other m off bs off' n : 0 <= off -> 0 <= off' -> 0 <= n ->
  off' + n <= off \/ off + Z.of_nat (length bs) <= off' -> get_bytes (put_bytes m off bs) off' n = get_bytes m off' n.
Proof.
  intros Ho Ho' Hn Hd. apply list_eq. intros k. rewrite !get_bytes_lookup by lia. case_decide; [| done].
  unfold put_bytes. destruct Hd; [rewrite list_lookup_inserts_lt by lia | rewrite list_lookup_inserts_ge by lia]; done.
Qed.
