(* ===== verification/Bpf.v ===== *)
(** * Classic BPF as seccomp runs it (kernel/seccomp.c, lines 53-271)

    The instruction format, the validator [bpf_check] (both of its passes) and
    the interpreter [bpf_run].  An access the C code leaves undefined (an
    instruction fetch, data word or scratch word out of range, a division by
    zero, a shift by 32 or more) is the outcome [Fault]; the theorems show that
    a program the validator accepts never has it, returns within as many steps
    as it has instructions, and never depends on the initial scratch memory. *)

From S2P Require Import Prelude.

Definition BPF_MAXINSNS_ := 4096.
Definition BPF_MEMWORDS_ := 16.
Definition SECCOMP_DATA_SIZE_ := 64.

(** [struct sock_filter_]. *)
Record sock_filter := mk_insn { sf_code : Z; sf_jt : Z; sf_jf : Z; sf_k : Z }.

#[export] Instance sock_filter_eq_dec : EqDecision sock_filter.
Proof. solve_decision. Defined.

(** The ranges its members have by their C types. *)
Definition insn_wf (i : sock_filter) : Prop :=
  in_u 16 (sf_code i) /\ in_u 8 (sf_jt i) /\ in_u 8 (sf_jf i) /\ in_u 32 (sf_k i).

(** The opcode enumeration, and the number each enumerator has. *)
Inductive opcode :=
| LD_W_ABS | LD_W_LEN | LDX_W_LEN | LD_IMM | LDX_IMM | LD_MEM | LDX_MEM
| ST | STX | TAX | TXA
| ADD_K | ADD_X | SUB_K | SUB_X | MUL_K | MUL_X | DIV_K | DIV_X
| OR_K | OR_X | AND_K | AND_X | LSH_K | LSH_X | RSH_K | RSH_X
| NEG | XOR_K | XOR_X
| JA | JEQ_K | JEQ_X | JGT_K | JGT_X | JGE_K | JGE_X | JSET_K | JSET_X
| RET_K | RET_A.

#[export] Instance opcode_eq_dec : EqDecision opcode.
Proof. solve_decision. Defined.

Definition opcode_numbers : list (Z * opcode) :=
  [ (0x20, LD_W_ABS); (0x80, LD_W_LEN); (0x81, LDX_W_LEN);
    (0x00, LD_IMM); (0x01, LDX_IMM); (0x60, LD_MEM); (0x61, LDX_MEM);
    (0x02, ST); (0x03, STX); (0x07, TAX); (0x87, TXA);
    (0x04, ADD_K); (0x0c, ADD_X); (0x14, SUB_K); (0x1c, SUB_X);
    (0x24, MUL_K); (0x2c, MUL_X); (0x34, DIV_K); (0x3c, DIV_X);
    (0x44, OR_K); (0x4c, OR_X); (0x54, AND_K); (0x5c, AND_X);
    (0x64, LSH_K); (0x6c, LSH_X); (0x74, RSH_K); (0x7c, RSH_X);
    (0x84, NEG); (0xa4, XOR_K); (0xac, XOR_X);
    (0x05, JA); (0x15, JEQ_K); (0x1d, JEQ_X); (0x25, JGT_K); (0x2d, JGT_X);
    (0x35, JGE_K); (0x3d, JGE_X); (0x45, JSET_K); (0x4d, JSET_X);
    (0x06, RET_K); (0x16, RET_A) ].

(** The enumerator a [switch (code)] label with this number names. *)
Definition opcode_of (code : Z) : option opcode :=
  match find (fun p : Z * opcode => fst p =? code) opcode_numbers with
  | Some p => Some (snd p)
  | None => None
  end.

(** ** The validator *)

Definition bpf_code_allowed (code : Z) : bool :=
  match opcode_of code with
  | Some (LD_W_ABS | LD_W_LEN | LDX_W_LEN | LD_IMM | LDX_IMM | LD_MEM | LDX_MEM
         | ST | STX | TAX | TXA
         | ADD_K | ADD_X | SUB_K | SUB_X | MUL_K | MUL_X | DIV_K | DIV_X
         | OR_K | OR_X | AND_K | AND_X | LSH_K | LSH_X | RSH_K | RSH_X
         | NEG | XOR_K | XOR_X
         | JA | JEQ_K | JEQ_X | JGT_K | JGT_X | JGE_K | JGE_X | JSET_K | JSET_X
         | RET_K | RET_A) => true
  | None => false
  end.

Definition bpf_is_cond_jump (code : Z) : bool :=
  match opcode_of code with
  | Some (JEQ_K | JEQ_X | JGT_K | JGT_X | JGE_K | JGE_X | JSET_K | JSET_X) => true
  | _ => false
  end.

(** The body of the first loop: [true] when instruction [pc] of a program of
    [len] passes, [false] for [return _EINVAL]. *)
Definition bpf_check_insn (len pc : Z) (i : sock_filter) : bool :=
  if negb (bpf_code_allowed (sf_code i)) then false else
  match opcode_of (sf_code i) with
  | Some DIV_K => negb (sf_k i =? 0)
  | Some (LSH_K | RSH_K) => negb (sf_k i >=? 32)
  | Some (LD_MEM | LDX_MEM | ST | STX) => negb (sf_k i >=? BPF_MEMWORDS_)
  | Some JA => negb (sf_k i >=? u32 (len - pc - 1))
  | Some LD_W_ABS =>
      negb ((sf_k i >=? SECCOMP_DATA_SIZE_) || negb (sf_k i .& 3 =? 0))
  | _ =>
      negb (bpf_is_cond_jump (sf_code i) &&
            ((u32 (pc + sf_jt i + 1) >=? len) || (u32 (pc + sf_jf i + 1) >=? len)))
  end.

Fixpoint bpf_check_insns (len pc : Z) (f : list sock_filter) : bool :=
  match f with
  | [] => true
  | i :: rest => bpf_check_insn len pc i && bpf_check_insns len (pc + 1) rest
  end.

Definition is_ret (i : sock_filter) : bool :=
  match opcode_of (sf_code i) with Some (RET_K | RET_A) => true | _ => false end.

(** The second loop (check_load_and_stores): [valid] is the set of scratch
    words written on every path so far, [valid_in] what each later instruction
    may rely on.  [false] is the [err = _EINVAL; break]. *)
Fixpoint bpf_check_loads (pc : nat) (valid : Z) (valid_in : list Z) (f : list sock_filter) : bool :=
  match f with
  | [] => true
  | i :: rest =>
      let valid := valid .& default 0 (valid_in !! pc) in
      match opcode_of (sf_code i) with
      | Some (ST | STX) =>
          bpf_check_loads (S pc) (u16 (valid .| Z.shiftl 1 (sf_k i))) valid_in rest
      | Some (LD_MEM | LDX_MEM) =>
          if negb (has_flag valid (Z.shiftl 1 (sf_k i))) then false
          else bpf_check_loads (S pc) valid valid_in rest
      | Some JA =>
          bpf_check_loads (S pc) 0xffff (alter (fun v => v .& valid) (pc + 1 + Z.to_nat (sf_k i))%nat valid_in) rest
      | _ =>
          if bpf_is_cond_jump (sf_code i) then
            let v1 := alter (fun v => v .& valid) (pc + 1 + Z.to_nat (sf_jt i))%nat valid_in in
            let v2 := alter (fun v => v .& valid) (pc + 1 + Z.to_nat (sf_jf i))%nat v1 in
            bpf_check_loads (S pc) 0xffff v2 rest
          else bpf_check_loads (S pc) valid valid_in rest
      end
  end.

(** [bpf_check].  Both callers have checked [len != 0] before, so [f[len - 1]]
    exists; [alloc_ok] is whether the [malloc] of [valid_in] succeeds. *)
Definition bpf_check (alloc_ok : bool) (f : list sock_filter) : Z :=
  let len := Z.of_nat (length f) in
  if negb (bpf_check_insns len 0 f) then _EINVAL else
  match last f with
  | Some i => if negb (is_ret i) then _EINVAL else
      if negb alloc_ok then _ENOMEM else
      if bpf_check_loads 0 0 (replicate (length f) 0xffff) f then 0 else _EINVAL
  | None => _EINVAL
  end.

(** ** The interpreter *)

Record bpf_state := mk_bpf { st_A : Z; st_X : Z; st_M : list Z; st_pc : Z }.

Inductive bpf_outcome :=
| Next (s : bpf_state)
| Return (v : Z)
| Fault.

Definition SECCOMP_RET_KILL_PROCESS_ := 0x80000000.

(** One iteration of the interpreter's loop. *)
Definition bpf_step (f : list sock_filter) (data : list Z) (s : bpf_state) : bpf_outcome :=
  match f !! Z.to_nat (st_pc s) with
  | None => Fault
  | Some i =>
      let pc := u32 (st_pc s + 1) in
      let k := sf_k i in let A := st_A s in let X := st_X s in let M := st_M s in
      let setA a := Next (mk_bpf a X M pc) in
      let setX x := Next (mk_bpf A x M pc) in
      let store v := if k <? BPF_MEMWORDS_ then Next (mk_bpf A X (<[Z.to_nat k := v]> M) pc) else Fault in
      let jump (b : bool) := Next (mk_bpf A X M (u32 (pc + (if b then sf_jt i else sf_jf i)))) in
      match opcode_of (sf_code i) with
      | Some LD_W_ABS => match data !! Z.to_nat (k / 4) with Some v => setA v | None => Fault end
      | Some LD_W_LEN => setA SECCOMP_DATA_SIZE_
      | Some LDX_W_LEN => setX SECCOMP_DATA_SIZE_
      | Some LD_IMM => setA k
      | Some LDX_IMM => setX k
      | Some LD_MEM => match M !! Z.to_nat k with Some v => setA v | None => Fault end
      | Some LDX_MEM => match M !! Z.to_nat k with Some v => setX v | None => Fault end
      | Some ST => store A
      | Some STX => store X
      | Some TAX => setX A
      | Some TXA => setA X
      | Some ADD_K => setA (u32 (A + k))
      | Some ADD_X => setA (u32 (A + X))
      | Some SUB_K => setA (u32 (A - k))
      | Some SUB_X => setA (u32 (A - X))
      | Some MUL_K => setA (u32 (A * k))
      | Some MUL_X => setA (u32 (A * X))
      | Some DIV_K => if k =? 0 then Fault else setA (A / k)
      | Some DIV_X => if X =? 0 then Return 0 else setA (A / X)
      | Some OR_K => setA (A .| k)
      | Some OR_X => setA (A .| X)
      | Some AND_K => setA (A .& k)
      | Some AND_X => setA (A .& X)
      | Some LSH_K => if k >=? 32 then Fault else setA (u32 (Z.shiftl A k))
      | Some LSH_X => setA (u32 (Z.shiftl A (X .& 31)))
      | Some RSH_K => if k >=? 32 then Fault else setA (Z.shiftr A k)
      | Some RSH_X => setA (Z.shiftr A (X .& 31))
      | Some NEG => setA (u32 (0 - A))
      | Some XOR_K => setA (A .^ k)
      | Some XOR_X => setA (A .^ X)
      | Some JA => Next (mk_bpf A X M (u32 (pc + k)))
      | Some JEQ_K => jump (A =? k)
      | Some JEQ_X => jump (A =? X)
      | Some JGT_K => jump (A >? k)
      | Some JGT_X => jump (A >? X)
      | Some JGE_K => jump (A >=? k)
      | Some JGE_X => jump (A >=? X)
      | Some JSET_K => jump (has_flag A k)
      | Some JSET_X => jump (has_flag A X)
      | Some RET_K => Return k
      | Some RET_A => Return A
      | None => Return SECCOMP_RET_KILL_PROCESS_
      end
  end.

(** The loop [for (;;)], cut off after [fuel] iterations: [None] is a fault or
    a program still running. *)
Fixpoint bpf_run_from (fuel : nat) (f : list sock_filter) (data : list Z) (s : bpf_state) : option Z :=
  match fuel with
  | O => None
  | S fuel =>
      match bpf_step f data s with
      | Next s' => bpf_run_from fuel f data s'
      | Return v => Some v
      | Fault => None
      end
  end.

Definition bpf_init (M : list Z) : bpf_state := mk_bpf 0 0 M 0.

(** [bpf_run]: registers and scratch memory start at zero. *)
Definition bpf_run (f : list sock_filter) (data : list Z) : option Z :=
  bpf_run_from (length f) f data (bpf_init (replicate 16 0)).

(** ** Control flow and the accepted programs *)

(** Where execution may go after instruction [i] at [pc]. *)
Definition succs (i : sock_filter) (pc : nat) : list nat :=
  match opcode_of (sf_code i) with
  | Some (RET_K | RET_A) | None => []
  | Some JA => [(pc + 1 + Z.to_nat (sf_k i))%nat]
  | Some (JEQ_K | JEQ_X | JGT_K | JGT_X | JGE_K | JGE_X | JSET_K | JSET_X) =>
      [(pc + 1 + Z.to_nat (sf_jt i))%nat; (pc + 1 + Z.to_nat (sf_jf i))%nat]
  | Some _ => [(pc + 1)%nat]
  end.

(** What [len <= BPF_MAXINSNS_], the member types and an accepting
    [bpf_check] say of a program. *)
Record checked (f : list sock_filter) : Prop := mk_checked {
  ck_len : (0 < length f <= Z.to_nat BPF_MAXINSNS_)%nat;
  ck_wf : Forall insn_wf f;
  ck_ok : bpf_check true f = 0 }.

(** Scratch word [n] is in the set [m]. *)
Definition mask_sub (a b : Z) : Prop := forall n, 0 <= n -> Z.testbit a n = true -> Z.testbit b n = true.

(** The words known written after [i], if [v] are before it. *)
Definition mask_out (i : sock_filter) (v : Z) : Z :=
  match opcode_of (sf_code i) with
  | Some (ST | STX) => u16 (v .| Z.shiftl 1 (sf_k i))
  | _ => v
  end.

(** The five ways an instruction matters to control and data flow. *)
Inductive kind := KRet | KStore | KLoad | KJa | KCond | KOther.

Definition kind_of (i : sock_filter) : kind :=
  match opcode_of (sf_code i) with
  | Some (RET_K | RET_A) | None => KRet
  | Some (ST | STX) => KStore
  | Some (LD_MEM | LDX_MEM) => KLoad
  | Some JA => KJa
  | Some (JEQ_K | JEQ_X | JGT_K | JGT_X | JGE_K | JGE_X | JSET_K | JSET_X) => KCond
  | Some _ => KOther
  end.

(** [V] assigns to every instruction a set of scratch words written on every
    path into it, and loads only read words of that set. *)
Definition flow_ok (V : nat -> Z) (pc : nat) (i : sock_filter) : Prop :=
  (kind_of i = KLoad -> Z.testbit (V pc) (sf_k i) = true) /\
  forall j, j ∈ succs i pc -> mask_sub (V j) (mask_out i (V pc)).

(** Two scratch memories agree on the words of [m]. *)
Definition agree (m : Z) (M M' : list Z) : Prop :=
  length M = length M' /\ forall n, Z.testbit m (Z.of_nat n) = true -> M !! n = M' !! n.

(** *** The first pass *)

Lemma bpf_check_insns_lookup f len pc n i :
  bpf_check_insns len pc f = true -> f !! n = Some i ->
  bpf_check_insn len (pc + Z.of_nat n) i = true.
Proof.
  revert pc n. induction f as [| a f IH]; intros pc n H Hn; [done |].
  simpl in H. to_prop. destruct n as [| n]; simplify_eq/=.
  - by replace (pc + Z.of_nat 0) with pc by lia.
  - replace (pc + Z.of_nat (S n)) with (pc + 1 + Z.of_nat n) by lia. eauto.
Qed.

Lemma bpf_check_inv alloc f :
  bpf_check alloc f = 0 ->
  bpf_check_insns (Z.of_nat (length f)) 0 f = true /\
  (exists i, last f = Some i /\ is_ret i = true) /\
  bpf_check_loads 0 0 (replicate (length f) 0xffff) f = true.
Proof.
  unfold bpf_check. intros H.
  repeat case_on_match_in H; try done. to_prop. naive_solver.
Qed.

Lemma checked_insn f n i :
  checked f -> f !! n = Some i ->
  insn_wf i /\ bpf_check_insn (Z.of_nat (length f)) (Z.of_nat n) i = true /\
  (S n < length f \/ is_ret i = true)%nat.
Proof.
  intros [Hl Hw Hc] Hn. destruct (bpf_check_inv _ _ Hc) as (H1 & (j & Hj & Hr) & _).
  split; [eapply Forall_lookup_1; eauto |].
  split; [replace (Z.of_nat n) with (0 + Z.of_nat n) by lia; eapply bpf_check_insns_lookup; eauto |].
  pose proof (lookup_lt_Some _ _ _ Hn).
  destruct (decide (S n < length f)%nat) as [? | Hge]; [by left | right].
  rewrite last_lookup in Hj. replace (pred (length f)) with n in Hj by lia. congruence.
Qed.

Lemma bpf_code_allowed_spec code : bpf_code_allowed code = true -> exists o, opcode_of code = Some o.
Proof. unfold bpf_code_allowed. destruct (opcode_of code); [eauto | done]. Qed.

Lemma checked_succs f n i :
  checked f -> f !! n = Some i ->
  forall j, j ∈ succs i n -> (n < j < length f)%nat.
Proof.
  intros Hck Hn. pose proof (checked_insn f n i Hck Hn) as (Hw & Hi & Hlast).
  pose proof (ck_len f Hck) as Hlen. pose proof (lookup_lt_Some _ _ _ Hn) as Hlt.
  unfold BPF_MAXINSNS_ in Hlen. destruct Hw as (_ & Ht & Hf & Hk). unfold in_u in *.
  unfold bpf_check_insn, bpf_is_cond_jump, is_ret, succs in *.
  intros j Hj. case_on_match_in Hi; [done |].
  destruct (opcode_of (sf_code i)) as [o |]; [| set_solver].
  destruct o; simpl in *; to_prop; unfold u32, wrap in *;
    rewrite ?Z.mod_small in * by lia; rewrite ?list_elem_of_singleton in Hj;
    try (subst j; lia); set_unfold; try (destruct Hj as [-> | [-> | []]]); lia.
Qed.

(** *** One step of a checked program *)

Ltac u32_small := unfold u32; rewrite !wrap_small by (unfold in_u; lia).

Lemma bpf_step_spec f data s i :
  checked f -> length data = 16%nat -> length (st_M s) = 16%nat ->
  0 <= st_pc s -> f !! Z.to_nat (st_pc s) = Some i ->
  match bpf_step f data s with
  | Next s' => Z.to_nat (st_pc s') ∈ succs i (Z.to_nat (st_pc s)) /\
               0 <= st_pc s' /\ length (st_M s') = 16%nat
  | Return _ => True
  | Fault => False
  end.
Proof.
  intros Hck Hd HM Hpc Hi. pose proof (checked_insn f _ i Hck Hi) as (Hw & Hc & _).
  pose proof (lookup_lt_Some _ _ _ Hi) as Hlt.
  pose proof (ck_len f Hck) as Hlen. unfold BPF_MAXINSNS_ in Hlen.
  destruct Hw as (_ & Ht & Hf & Hk). unfold in_u in Ht, Hf, Hk.
  assert (forall n, (n < 16)%nat -> exists v, st_M s !! n = Some v) as HMl
    by (intros n Hn; apply lookup_lt_is_Some; lia).
  assert (forall n, (n < 16)%nat -> exists v, data !! n = Some v) as Hdl
    by (intros n Hn; apply lookup_lt_is_Some; lia).
  unfold bpf_step, bpf_check_insn, succs in *. rewrite Hi.
  case_on_match_in Hc; [done |].
  destruct (opcode_of (sf_code i)) as [o |]; [| done].
  unfold bpf_is_cond_jump, BPF_MEMWORDS_, SECCOMP_DATA_SIZE_ in *.
  destruct o; simpl in *; to_prop;
    try (unfold u32, wrap in Hc; rewrite Z.mod_small in Hc by lia);
    try (rewrite (proj2 (Z.ltb_lt _ _)) by lia; simpl);
    try (rewrite Z.geb_leb, (proj2 (Z.leb_gt _ _)) by lia; simpl);
    try (rewrite (proj2 (Z.eqb_neq _ _)) by lia; simpl);
    try (destruct (Hdl (Z.to_nat (sf_k i / 4))) as [v ->];
         [apply Nat2Z.inj_lt; rewrite Z2Nat.id by (apply Z.div_pos; lia);
          apply Z.div_lt_upper_bound; lia | simpl]);
    try (destruct (HMl (Z.to_nat (sf_k i))) as [v ->]; [lia | simpl]);
    repeat match goal with |- context [if ?b then _ else _] => destruct b end;
    try exact I; unfold u32; rewrite ?wrap_small by (unfold in_u; rewrite ?wrap_small; unfold in_u; lia);
    rewrite ?length_insert; set_unfold; repeat split; try lia.
Qed.

(** *** Termination and safety *)

Lemma bpf_run_from_total f data fuel s :
  checked f -> length data = 16%nat -> length (st_M s) = 16%nat ->
  0 <= st_pc s -> (Z.to_nat (st_pc s) < length f)%nat ->
  (length f - Z.to_nat (st_pc s) <= fuel)%nat ->
  exists v, bpf_run_from fuel f data s = Some v.
Proof.
  intros Hck Hd. revert s. induction fuel as [| fuel IH]; intros s HM Hpc Hlt Hfuel; [lia |].
  simpl. destruct (lookup_lt_is_Some_2 f _ Hlt) as [i Hi].
  pose proof (bpf_step_spec f data s i Hck Hd HM Hpc Hi) as Hs.
  destruct (bpf_step f data s) as [s' | v |]; [| eauto | done].
  destruct Hs as (Hsucc & Hpc' & HM').
  pose proof (checked_succs f _ i Hck Hi _ Hsucc).
  apply IH; auto; lia.
Qed.

(** *** The second pass *)

Lemma mask_sub_refl a : mask_sub a a.
Proof. by intros n. Qed.

Lemma mask_sub_land_l a b : mask_sub (a .& b) a.
Proof. intros n Hn. rewrite Z.land_spec. by destruct (Z.testbit a n). Qed.

Lemma mask_sub_land_r a b : mask_sub (a .& b) b.
Proof. intros n Hn. rewrite Z.land_spec. by destruct (Z.testbit a n). Qed.

Lemma mask_sub_trans a b c : mask_sub a b -> mask_sub b c -> mask_sub a c.
Proof. unfold mask_sub. eauto. Qed.

#[export] Hint Resolve mask_sub_refl mask_sub_land_l mask_sub_land_r : cint.

(** [a] is below what [valid_in] records for every instruction from [pc] on. *)
Definition below (V : nat -> Z) (vin : list Z) (pc : nat) : Prop :=
  forall j v, (pc <= j)%nat -> vin !! j = Some v -> mask_sub (V j) v.

Lemma below_alter V vin m t pc :
  below V (alter (fun v => v .& m) t vin) pc ->
  below V vin pc /\ ((pc <= t < length vin)%nat -> mask_sub (V t) m).
Proof.
  intros H. split.
  - intros j v Hj Hv. destruct (decide (t = j)) as [-> | Hne].
    + apply (mask_sub_trans _ (v .& m)); [| auto with cint].
      apply (H j); [done |]. rewrite list_lookup_alter_eq, Hv. done.
    + apply (H j); [done |]. by rewrite list_lookup_alter_ne.
  - intros [Hle Hlt]. destruct (lookup_lt_is_Some_2 vin t Hlt) as [v Hv].
    apply (mask_sub_trans _ (v .& m)); [| auto with cint].
    apply (H t); [done |]. rewrite list_lookup_alter_eq, Hv. done.
Qed.

Lemma flow_ok_ext V V' n i :
  flow_ok V' n i -> (forall j, j = n \/ j ∈ succs i n -> V j = V' j) -> flow_ok V n i.
Proof.
  intros [Hl Hs] Hext. split.
  - rewrite (Hext n) by auto. done.
  - intros j Hj. rewrite (Hext n), (Hext j) by auto. auto.
Qed.

(** Extend an assignment for the rest of the program by its first instruction. *)
Lemma flow_cons i g pc vin v V' :
  (forall n i', (i :: g) !! n = Some i' -> forall j, j ∈ succs i' (pc + n) -> (pc + n < j < length vin)%nat) ->
  mask_sub v (default 0 (vin !! pc)) ->
  below V' vin (S pc) -> (forall n i', g !! n = Some i' -> flow_ok V' (S pc + n) i') ->
  (kind_of i = KLoad -> Z.testbit v (sf_k i) = true) ->
  (forall j, j ∈ succs i pc -> mask_sub (V' j) (mask_out i v)) ->
  exists V, V pc = v /\ below V vin pc /\
    forall n i', (i :: g) !! n = Some i' -> flow_ok V (pc + n) i'.
Proof.
  intros Hrange Hv Hb Hf Hload Hsucc.
  exists (fun j => if decide (j = pc) then v else V' j).
  split; [by rewrite decide_True |]. split.
  - intros j w Hj Hw. destruct (decide (j = pc)) as [-> | Hne].
    + by rewrite Hw in Hv.
    + apply (Hb j w); [lia | done].
  - intros [| n] i' Hi'; simplify_eq/=.
    + rewrite Nat.add_0_r. split; [by rewrite decide_True |].
      intros j Hj. rewrite (decide_True (P := pc = pc)) by done.
      pose proof (Hrange 0%nat i' eq_refl j) as Hr. rewrite Nat.add_0_r in Hr.
      rewrite decide_False by (specialize (Hr Hj); lia). auto.
    + replace (pc + S n)%nat with (S pc + n)%nat by lia.
      apply (flow_ok_ext _ V'); [by apply Hf |].
      intros j Hj. rewrite decide_False; [done |].
      pose proof (Hrange (S n) i' Hi' j) as Hr.
      destruct Hj as [-> | Hj]; [lia |].
      replace (pc + S n)%nat with (S pc + n)%nat in Hr by lia. specialize (Hr Hj). lia.
Qed.

Definition loads_step (pc : nat) (valid : Z) (vin : list Z) (i : sock_filter) : option (Z * list Z) :=
  let tgt (d : Z) (l : list Z) := alter (fun v => v .& valid) (pc + 1 + Z.to_nat d)%nat l in
  match kind_of i with
  | KStore => Some (u16 (valid .| Z.shiftl 1 (sf_k i)), vin)
  | KLoad => if has_flag valid (Z.shiftl 1 (sf_k i)) then Some (valid, vin) else None
  | KJa => Some (0xffff, tgt (sf_k i) vin)
  | KCond => Some (0xffff, tgt (sf_jf i) (tgt (sf_jt i) vin))
  | KRet | KOther => Some (valid, vin)
  end.

Lemma check_loads_cons pc valid vin i g :
  bpf_check_loads pc valid vin (i :: g) =
  match loads_step pc (valid .& default 0 (vin !! pc)) vin i with
  | Some (v', vin') => bpf_check_loads (S pc) v' vin' g
  | None => false
  end.
Proof.
  simpl. unfold loads_step, kind_of, bpf_is_cond_jump.
  destruct (opcode_of (sf_code i)) as [o |]; [destruct o |]; try reflexivity;
    by destruct (has_flag _ _).
Qed.

Lemma succs_kind i pc :
  succs i pc = match kind_of i with
  | KRet => []
  | KJa => [(pc + 1 + Z.to_nat (sf_k i))%nat]
  | KCond => [(pc + 1 + Z.to_nat (sf_jt i))%nat; (pc + 1 + Z.to_nat (sf_jf i))%nat]
  | _ => [(pc + 1)%nat]
  end.
Proof. unfold succs, kind_of. by destruct (opcode_of (sf_code i)) as [[] |]. Qed.

Lemma mask_out_kind i v :
  mask_out i v = if kind_of i is KStore then u16 (v .| Z.shiftl 1 (sf_k i)) else v.
Proof. unfold mask_out, kind_of. by destruct (opcode_of (sf_code i)) as [[] |]. Qed.

(** What the next state of the second pass says of the instruction it passed. *)
Lemma loads_step_sound pc v vin i v' vin' V' :
  loads_step pc v vin i = Some (v', vin') -> 0 <= sf_k i ->
  (forall j, j ∈ succs i pc -> (pc < j < length vin)%nat) ->
  below V' vin' (S pc) -> ((S pc < length vin)%nat -> mask_sub (V' (S pc)) v') ->
  below V' vin (S pc) /\ (kind_of i = KLoad -> Z.testbit v (sf_k i) = true) /\
  (forall j, j ∈ succs i pc -> mask_sub (V' j) (mask_out i v)) /\ length vin' = length vin.
Proof.
  intros Hs Hk Hr Hb Hv. unfold loads_step in Hs. rewrite succs_kind in *. rewrite mask_out_kind.
  assert (forall j, j ∈ [(pc + 1)%nat] -> (pc < j < length vin)%nat -> mask_sub (V' j) v') as Hfall.
  { intros j ->%list_elem_of_singleton Hj. replace (pc + 1)%nat with (S pc) in * by lia. apply Hv; lia. }
  destruct (kind_of i) eqn:Hkind; simplify_eq;
    try (case_on_match_in Hs; [simplify_eq | done]);
    try (split; [done |]; split; [by rewrite <- ?has_flag_testbit |]; split; [| done];
         first [by intros j ?%elem_of_nil | by intros j Hj; auto]).
  - apply below_alter in Hb as [Hb Ht]. split; [done |]. split; [done |].
    split; [| by rewrite length_alter].
    intros j Hj. specialize (Hr j Hj). apply list_elem_of_singleton in Hj as ->. apply Ht. lia.
  - apply below_alter in Hb as [Hb Ht]. apply below_alter in Hb as [Hb Hf].
    rewrite length_alter in Ht. split; [done |]. split; [done |].
    split; [| by rewrite !length_alter].
    intros j Hj. specialize (Hr j Hj).
    apply elem_of_cons in Hj as [-> | ->%list_elem_of_singleton]; [apply Hf | apply Ht]; lia.
Qed.

Lemma loads_step_length pc v vin i v' vin' :
  loads_step pc v vin i = Some (v', vin') -> length vin' = length vin.
Proof.
  unfold loads_step. intros Hs. repeat case_on_match_in Hs; simplify_eq; by rewrite ?length_alter.
Qed.

(** An accepting second pass yields a flow assignment for the program. *)
Lemma check_loads_flow g pc valid vin :
  (forall n i, g !! n = Some i -> forall j, j ∈ succs i (pc + n) -> (pc + n < j < length vin)%nat) ->
  Forall insn_wf g -> (pc + length g)%nat = length vin ->
  bpf_check_loads pc valid vin g = true ->
  exists V, ((pc < length vin)%nat -> mask_sub (V pc) valid) /\ below V vin pc /\
    forall n i, g !! n = Some i -> flow_ok V (pc + n) i.
Proof.
  revert pc valid vin. induction g as [| i g IH]; intros pc valid vin Hrange Hwf Hlen Hc.
  { simpl in Hlen. exists (fun _ => 0). split; [lia |]. split; [| done].
    intros j v Hj Hv. apply lookup_lt_Some in Hv. lia. }
  inversion_clear Hwf as [| ? ? (_ & _ & _ & [Hk _]) Hwg]. rewrite check_loads_cons in Hc.
  set (v := valid .& default 0 (vin !! pc)) in *.
  destruct (loads_step pc v vin i) as [[v' vin'] |] eqn:Hs; [| done].
  pose proof (loads_step_length _ _ _ _ _ _ Hs) as Hl.
  destruct (IH (S pc) v' vin') as (V' & HV & Hb & Hf); [| done | simpl in Hlen; lia | done |].
  { intros n i' Hi' j Hj. rewrite Hl.
    replace (S pc + n)%nat with (pc + S n)%nat in * by lia. eapply Hrange; eauto. }
  rewrite Hl in HV.
  destruct (loads_step_sound pc v vin i v' vin' V') as (Hb' & Hload & Hsucc & _); auto.
  { intros j Hj. pose proof (Hrange 0%nat i eq_refl j) as Hr. rewrite Nat.add_0_r in Hr. auto. }
  destruct (flow_cons i g pc vin v V') as (V & HVpc & HbV & HfV); auto; [by apply mask_sub_land_r |].
  exists V. rewrite HVpc. split; [intros _; apply mask_sub_land_l | done].
Qed.

Lemma checked_flow f :
  checked f -> exists V, mask_sub (V 0%nat) 0 /\ forall n i, f !! n = Some i -> flow_ok V n i.
Proof.
  intros Hck. pose proof (ck_len f Hck) as Hl.
  destruct (bpf_check_inv _ _ (ck_ok f Hck)) as (_ & _ & Hload).
  destruct (check_loads_flow f 0 0 (replicate (length f) 0xffff)) as (V & HV & _ & Hf);
    [| apply ck_wf, Hck | by rewrite length_replicate | done |].
  - intros n i Hi j Hj. rewrite length_replicate. eapply checked_succs; eauto.
  - rewrite length_replicate in HV. exists V. split; [apply HV; lia | done].
Qed.

(** *** Independence from the initial scratch memory *)

Lemma agree_mono m m' M M' : mask_sub m' m -> agree m M M' -> agree m' M M'.
Proof. intros Hs [Hl Ha]. split; [done |]. intros n Hn. apply Ha, Hs; [lia | done]. Qed.

Lemma agree_store m M M' k v :
  0 <= k -> agree m M M' ->
  agree (u16 (m .| Z.shiftl 1 k)) (<[Z.to_nat k := v]> M) (<[Z.to_nat k := v]> M').
Proof.
  intros Hk [Hl Ha]. split; [by rewrite !length_insert |]. intros n Hn.
  destruct (decide (Z.to_nat k = n)) as [<- | Hne].
  - destruct (decide (Z.to_nat k < length M)%nat).
    + rewrite !list_lookup_insert_eq by lia. done.
    + rewrite !list_insert_ge by lia.
      by rewrite !lookup_ge_None_2 by lia.
  - rewrite !list_lookup_insert_ne by done. apply Ha.
    unfold u16, wrap in Hn. rewrite <- Z.land_ones, Z.land_spec, Z.lor_spec in Hn by lia.
    rewrite Z.shiftl_1_l, Z.pow2_bits_eqb in Hn by lia.
    rewrite (proj2 (Z.eqb_neq k (Z.of_nat n))) in Hn by lia.
    by destruct (Z.testbit m (Z.of_nat n)).
Qed.

(** Two outcomes that differ at most in scratch words outside [m]. *)
Definition outcome_agree (m : Z) (o o' : bpf_outcome) : Prop :=
  match o, o' with
  | Next s, Next s' => st_A s = st_A s' /\ st_X s = st_X s' /\ st_pc s = st_pc s' /\ agree m (st_M s) (st_M s')
  | Return v, Return v' => v = v'
  | Fault, Fault => True
  | _, _ => False
  end.

Lemma bpf_step_agree f data A X M M' pc i m :
  f !! Z.to_nat pc = Some i -> insn_wf i -> agree m M M' ->
  (kind_of i = KLoad -> Z.testbit m (sf_k i) = true) ->
  outcome_agree (mask_out i m) (bpf_step f data (mk_bpf A X M pc)) (bpf_step f data (mk_bpf A X M' pc)).
Proof.
  intros Hi (_ & _ & _ & [Hk _]) Ha Hload. unfold bpf_step, mask_out, kind_of in *. simpl. rewrite Hi.
  assert (Z.testbit m (sf_k i) = true -> M !! Z.to_nat (sf_k i) = M' !! Z.to_nat (sf_k i)) as HM.
  { intros Ht. destruct Ha as [_ Ha]. apply Ha. by rewrite Z2Nat.id. }
  destruct (opcode_of (sf_code i)) as [o |]; [| done].
  destruct o; simpl; rewrite <- ?HM by auto;
    repeat match goal with
    | |- outcome_agree _ (if ?b then _ else _) _ => destruct b
    | |- outcome_agree _ (match ?x with _ => _ end) _ => destruct x
    end; simpl; auto using agree_store.
Qed.

Lemma bpf_run_from_agree f data V fuel A X M M' pc :
  Forall insn_wf f -> (forall n i, f !! n = Some i -> flow_ok V n i) ->
  checked f -> length data = 16%nat -> length M = 16%nat ->
  0 <= pc -> (Z.to_nat pc < length f)%nat -> agree (V (Z.to_nat pc)) M M' ->
  bpf_run_from fuel f data (mk_bpf A X M pc) = bpf_run_from fuel f data (mk_bpf A X M' pc).
Proof.
  intros Hwf Hflow Hck Hd. revert A X M M' pc.
  induction fuel as [| fuel IH]; intros A X M M' pc HM Hpc Hlt Ha; [done |].
  destruct (lookup_lt_is_Some_2 f _ Hlt) as [i Hi].
  destruct (Hflow _ _ Hi) as [Hload Hsucc].
  pose proof (bpf_step_agree f data A X M M' pc i _ Hi (Forall_lookup_1 _ _ _ _ Hwf Hi) Ha Hload) as Hag.
  pose proof (bpf_step_spec f data (mk_bpf A X M pc) i Hck Hd HM Hpc Hi) as Hsp.
  simpl. destruct (bpf_step f data (mk_bpf A X M pc)) as [s | v |],
    (bpf_step f data (mk_bpf A X M' pc)) as [s' | v' |]; simpl in *; try done; [| congruence].
  destruct s as [A1 X1 M1 pc1], s' as [A2 X2 M2 pc2]. simpl in *.
  destruct Hag as (-> & -> & -> & Ha'), Hsp as (Hj & Hpc' & HM').
  pose proof (checked_succs f _ i Hck Hi _ Hj).
  apply IH; auto; [lia |]. eapply agree_mono; eauto.
Qed.

(** ** Properties *)

(** C1: a program [bpf_check] accepts, with no more than BPF_MAXINSNS
    instructions, run over the 16 words of a seccomp_data, never reaches an
    undefined access, and returns after at most as many steps as it has
    instructions. *)
Theorem bpf_check_sound f data :
  checked f -> length data = 16%nat -> exists v, bpf_run f data = Some v.
Proof.
  intros Hck Hd. pose proof (ck_len f Hck).
  apply bpf_run_from_total; simpl; auto; lia.
Qed.

(** Its answer does not depend on what the scratch words held at the
    start: the second pass of [bpf_check] refuses every program that may read
    a word before writing it. *)
Theorem bpf_scratch_independent f data M :
  checked f -> length data = 16%nat -> length M = 16%nat ->
  bpf_run_from (length f) f data (bpf_init M) = bpf_run f data.
Proof.
  intros Hck Hd HM. destruct (checked_flow f Hck) as (V & HV & Hflow).
  pose proof (ck_len f Hck).
  apply (bpf_run_from_agree f data V); auto; [apply ck_wf, Hck | lia | simpl; lia |].
  apply (agree_mono 0); [done |]. split; [done |]. intros n. by rewrite Z.bits_0.
Qed.

(** ** Witnesses *)

(** A filter as sandboxes write them: it keeps the architecture in scratch word
    3, lets one architecture through and answers EPERM for system call 59. *)
Definition demo_filter : list sock_filter :=
  [ mk_insn 0x20 0 0 4; mk_insn 0x02 0 0 3; mk_insn 0x20 0 0 0; mk_insn 0x15 0 1 59;
    mk_insn 0x06 0 0 0x50001; mk_insn 0x60 0 0 3; mk_insn 0x15 1 0 0xc000003e;
    mk_insn 0x06 0 0 0; mk_insn 0x06 0 0 0x7fff0000 ].
Definition demo_data : list Z := [59; 0xc000003e] ++ replicate 14 0.

Lemma demo_filter_checked : checked demo_filter.
Proof.
  split; [unfold BPF_MAXINSNS_; cbn [length demo_filter]; lia | | vm_compute; reflexivity].
  repeat (apply Forall_cons_2; [unfold insn_wf, in_u; cbn [sf_code sf_jt sf_jf sf_k]; lia |]).
  apply Forall_nil_2.
Qed.

Lemma bpf_check_sound_witness : exists v, bpf_run demo_filter demo_data = Some v.
Proof. apply (bpf_check_sound demo_filter demo_data); [exact demo_filter_checked | reflexivity]. Defined.

Lemma bpf_scratch_independent_witness :
  bpf_run_from 9 demo_filter demo_data (bpf_init (replicate 16 77)) = bpf_run demo_filter demo_data.
Proof.
  apply (bpf_scratch_independent demo_filter demo_data (replicate 16 77));
    [exact demo_filter_checked | reflexivity | reflexivity].
Defined.

Example demo_filter_denies : bpf_run demo_filter demo_data = Some 0x50001.
Proof. vm_compute. reflexivity. Qed.

(** A program that may read word 3 before writing it is refused. *)
Example demo_unwritten_refused :
  bpf_check true [mk_insn 0x60 0 0 3; mk_insn 0x16 0 0 0] = _EINVAL.
Proof. vm_compute. reflexivity. Qed.
