(* ===== verification/User.v ===== *)
(** * Guest memory access from system calls (kernel/user.c, kernel/abi.h)

    [user_read], [user_write] and the string reader copy between the kernel and
    the guest a page at a time.  The address space is a page table from page
    numbers to pages; resolving a page (emu/memory.c's [mem_ptr_may_fault]) is
    its lookup with the access rights the page has, and a guarded copy of a page
    that lies past the end of a mapped file fails ([pg_guard_ok] is false).

    The theorems: the page-wise copies are the byte-wise ones ([byte_at]), what
    is written is read back, nothing else changes even when a write fails half
    way, and a string read stops at the first NUL.  The other components see
    guest memory through the class [GuestMemory], which the page table
    implements. *)

From S2P Require Import Prelude.

(** ** Guest ABIs *)

Inductive guest_abi := GUEST_ABI_I386 | GUEST_ABI_AMD64 | GUEST_ABI_ARM64 | GUEST_ABI_RISCV64 | GUEST_ABI_PPC64.

#[export] Instance guest_abi_eq_dec : EqDecision guest_abi.
Proof. solve_decision. Defined.

Definition guest_abi_is_64bit (abi : guest_abi) : bool :=
  match abi with GUEST_ABI_I386 => false | _ => true end.

Definition guest_abi_user_addr_max (abi : guest_abi) : Z :=
  match abi with
  | GUEST_ABI_AMD64 => Z.shiftl 1 47
  | GUEST_ABI_ARM64 => Z.shiftl 1 48
  | GUEST_ABI_RISCV64 => Z.shiftl 1 38
  | GUEST_ABI_PPC64 => Z.shiftl 1 47
  | GUEST_ABI_I386 => Z.shiftl 1 32
  end.

Definition guest_abi_addr_valid (abi : guest_abi) (addr : Z) : bool :=
  addr <? guest_abi_user_addr_max abi.

Definition guest_abi_range_valid (abi : guest_abi) (addr size : Z) : bool :=
  let max := guest_abi_user_addr_max abi in
  if addr >=? max then false else
  if size =? 0 then true else
  size <=? max - addr.

(** ** The address space *)

Definition PAGE_BITS := 12.
Definition PAGE_SIZE := 4096.
Definition PAGE (addr : Z) : Z := Z.shiftr addr PAGE_BITS.
Definition PGOFFSET (addr : Z) : Z := addr .& (PAGE_SIZE - 1).

Record page := mk_page {
  pg_data : list Z;      (* PAGE_SIZE bytes *)
  pg_read : bool;        (* resolves for MEM_READ *)
  pg_write : bool;       (* resolves for MEM_WRITE *)
  pg_guard_ok : bool }.  (* the (guarded) copy does not fault *)

Record mem := mk_mem { mem_pages : gmap Z page; mem_page_limit : Z }.

Inductive access := MEM_READ | MEM_WRITE.

(** The page an access at [addr] resolves to. *)
Definition mem_ptr_may_fault (m : mem) (addr : Z) (type : access) : option page :=
  match mem_pages m !! PAGE addr with
  | Some pg => if (match type with MEM_READ => pg_read pg | MEM_WRITE => pg_write pg end) then Some pg else None
  | None => None
  end.

Definition user_range_valid_mem (abi : guest_abi) (m : mem) (addr count : Z) : bool :=
  if negb (guest_abi_range_valid abi addr count) then false else
  if count =? 0 then true else
  let last := u64 (addr + count - 1) in
  PAGE last <? mem_page_limit m.

(** [user_copy_from_page]: [n] bytes of the page from [addr] on. *)
Definition user_copy_from_page (pg : page) (addr n : Z) : option (list Z) :=
  if pg_guard_ok pg
  then Some (take (Z.to_nat n) (drop (Z.to_nat (PGOFFSET addr)) (pg_data pg)))
  else None.

(** [user_copy_to_page]: the page with [bytes] at [addr]. *)
Definition user_copy_to_page (pg : page) (addr : Z) (bytes : list Z) : option page :=
  if pg_guard_ok pg
  then Some (mk_page (list_inserts (Z.to_nat (PGOFFSET addr)) bytes (pg_data pg))
               (pg_read pg) (pg_write pg) (pg_guard_ok pg))
  else None.

(** [chunk_end]: the end of [p]'s page, or of the request. *)
Definition chunk_end (p end_ : Z) : Z :=
  let e := Z.shiftl (PAGE p + 1) PAGE_BITS in if e >? end_ then end_ else e.

(** The loop of [__user_read_task_mem]: the bytes from [p] to [end_]. *)
Fixpoint user_read_loop (fuel : nat) (m : mem) (p end_ : Z) : option (list Z) :=
  if negb (p <? end_) then Some [] else
  match fuel with
  | O => None
  | S fuel =>
      let ce := chunk_end p end_ in
      match mem_ptr_may_fault m p MEM_READ with
      | None => None
      | Some pg =>
          match user_copy_from_page pg p (ce - p) with
          | None => None
          | Some bytes => match user_read_loop fuel m ce end_ with
                          | Some rest => Some (bytes ++ rest)
                          | None => None
                          end
          end
      end
  end.

(** [__user_read_task_mem]: [None] is its failure return 1. *)
Definition user_read_task_mem (abi : guest_abi) (m : mem) (addr count : Z) : option (list Z) :=
  if negb (user_range_valid_mem abi m addr count) then None else
  user_read_loop (Z.to_nat count) m addr (addr + count).

(** The loop of [__user_write_task_mem]: what the pages become, and whether the
    whole buffer was written.  Chunks written before a fault stay written. *)
Fixpoint user_write_loop (fuel : nat) (m : mem) (p end_ : Z) (buf : list Z) : mem * bool :=
  if negb (p <? end_) then (m, true) else
  match fuel with
  | O => (m, false)
  | S fuel =>
      let ce := chunk_end p end_ in
      match mem_ptr_may_fault m p MEM_WRITE with
      | None => (m, false)
      | Some pg =>
          let n := Z.to_nat (ce - p) in
          match user_copy_to_page pg p (take n buf) with
          | None => (m, false)
          | Some pg' =>
              user_write_loop fuel (mk_mem (<[PAGE p := pg']> (mem_pages m)) (mem_page_limit m))
                ce end_ (drop n buf)
          end
      end
  end.

Definition user_write_task_mem (abi : guest_abi) (m : mem) (addr : Z) (buf : list Z) : mem * bool :=
  let count := Z.of_nat (length buf) in
  if negb (user_range_valid_mem abi m addr count) then (m, false) else
  user_write_loop (Z.to_nat count) m addr (addr + count) buf.

(** [user_string_copy_run]: up to and including the first NUL. *)
Fixpoint user_string_copy_run (src : list Z) : list Z :=
  match src with
  | [] => []
  | c :: rest => if c =? 0 then [c] else c :: user_string_copy_run rest
  end.

Inductive cstring_result :=
| Copied (s : list Z)   (* 0: the NUL was copied *)
| StrFault              (* 1 *)
| TooLong.              (* 2: max bytes held no NUL *)

(** [user_read_cstring] from [addr + i] on, [buf] being the [i] bytes so far. *)
Fixpoint user_read_cstring (fuel : nat) (abi : guest_abi) (m : mem) (addr max i : Z) (buf : list Z) : cstring_result :=
  if negb (i <? max) then TooLong else
  match fuel with
  | O => StrFault
  | S fuel =>
      let p := u64 (addr + i) in
      let page_end := Z.shiftl (PAGE p + 1) PAGE_BITS in
      let chunk := if page_end - p >? max - i then max - i else page_end - p in
      if negb (user_range_valid_mem abi m p chunk) then StrFault else
      match mem_ptr_may_fault m p MEM_READ with
      | None => StrFault
      | Some pg =>
          match user_copy_from_page pg p chunk with
          | None => StrFault
          | Some bytes =>
              let copied := user_string_copy_run bytes in
              let i := i + Z.of_nat (length copied) in
              let buf := buf ++ copied in
              if default 1 (last buf) =? 0 then Copied buf
              else user_read_cstring fuel abi m addr max i buf
          end
      end
  end.


(** [user_read_path]: the error number, or the path. *)
Definition user_read_path (abi : guest_abi) (m : mem) (addr max : Z) : Z + list Z :=
  if addr =? 0 then inl _EFAULT else
  if max =? 0 then inl _EFAULT else
  if negb (guest_abi_addr_valid abi addr) then inl _EFAULT else
  match user_read_cstring (Z.to_nat max) abi m addr max 0 [] with
  | StrFault => inl _EFAULT
  | TooLong => inl _ENAMETOOLONG
  | Copied s => inr s
  end.

(** ** The byte-wise specification *)

Definition byte_at (m : mem) (a : Z) : option Z :=
  match mem_pages m !! PAGE a with
  | Some pg => if pg_read pg && pg_guard_ok pg then pg_data pg !! Z.to_nat (PGOFFSET a) else None
  | None => None
  end.

(** The byte at [a] whatever the page's rights: what memory holds. *)
Definition raw_byte (m : mem) (a : Z) : option Z :=
  match mem_pages m !! PAGE a with
  | Some pg => pg_data pg !! Z.to_nat (PGOFFSET a)
  | None => None
  end.

(** Every page has PAGE_SIZE bytes, and they are bytes. *)
Definition mem_wf (m : mem) : Prop :=
  forall n pg, mem_pages m !! n = Some pg ->
    length (pg_data pg) = Z.to_nat PAGE_SIZE /\ Forall (in_u 8) (pg_data pg).

(** ** Properties of pages and chunks *)

Lemma page_offset a : 0 <= a -> a = PAGE a * PAGE_SIZE + PGOFFSET a /\ 0 <= PGOFFSET a < PAGE_SIZE /\ 0 <= PAGE a.
Proof.
  intros Ha. unfold PAGE, PGOFFSET, PAGE_BITS, PAGE_SIZE. change (4096 - 1) with (Z.ones 12).
  rewrite Z.land_ones, Z.shiftr_div_pow2 by lia. change (2 ^ 12) with 4096.
  pose proof (Z.div_mod a 4096). pose proof (Z.mod_pos_bound a 4096).
  pose proof (Z.div_pos a 4096). lia.
Qed.

Lemma page_offset_eq n o : 0 <= o < PAGE_SIZE -> 0 <= n ->
  PAGE (n * PAGE_SIZE + o) = n /\ PGOFFSET (n * PAGE_SIZE + o) = o.
Proof.
  intros Ho Hn. destruct (page_offset (n * PAGE_SIZE + o)) as (E & Hr & Hp); unfold PAGE_SIZE in *; lia.
Qed.

Lemma chunk_end_spec p end_ : 0 <= p < end_ ->
  p < chunk_end p end_ <= end_ /\ chunk_end p end_ <= (PAGE p + 1) * PAGE_SIZE /\
  PGOFFSET p + (chunk_end p end_ - p) <= PAGE_SIZE.
Proof.
  intros Hp. destruct (page_offset p) as (E & Hr & Hn); [lia |].
  unfold chunk_end, PAGE_BITS. rewrite Z.shiftl_mul_pow2 by lia. change (2 ^ 12) with PAGE_SIZE.
  destruct (Z.gtb_spec ((PAGE p + 1) * PAGE_SIZE) end_); lia.
Qed.

(** Addresses in one chunk share the page. *)
Lemma chunk_page p k : 0 <= p -> 0 <= k -> PGOFFSET p + k < PAGE_SIZE ->
  PAGE (p + k) = PAGE p /\ PGOFFSET (p + k) = PGOFFSET p + k.
Proof.
  intros Hp Hk Hlt. destruct (page_offset p) as (E & Hr & Hn); [lia |].
  replace (p + k) with (PAGE p * PAGE_SIZE + (PGOFFSET p + k)) by lia.
  apply page_offset_eq; lia.
Qed.

Lemma mapM_app {A B} (f : A -> option B) l k :
  mapM f (l ++ k) = match mapM f l, mapM f k with Some a, Some b => Some (a ++ b) | _, _ => None end.
Proof.
  induction l as [| x l IH]; simpl; [by destruct (mapM f k) |].
  destruct (f x); simpl; [| done]. rewrite IH. by destruct (mapM f l), (mapM f k).
Qed.

Lemma seqZ_split p q e : p <= q <= e -> seqZ p (e - p) = seqZ p (q - p) ++ seqZ q (e - q).
Proof. intros H. replace (e - p) with ((q - p) + (e - q)) by lia. rewrite seqZ_app by lia. do 2 f_equal. lia. Qed.

(** One chunk of a read is the byte-wise read of its addresses. *)
Lemma read_chunk m p n :
  mem_wf m -> 0 <= p -> 0 < n -> PGOFFSET p + n <= PAGE_SIZE ->
  mapM (byte_at m) (seqZ p n) =
  match mem_ptr_may_fault m p MEM_READ with
  | Some pg => user_copy_from_page pg p n
  | None => None
  end.
Proof.
  intros Hwf Hp Hn Hfit. destruct (page_offset p) as (_ & Hr & _); [lia |].
  unfold mem_ptr_may_fault, user_copy_from_page.
  assert (forall k, 0 <= k < n -> byte_at m (p + k) =
    match mem_pages m !! PAGE p with
    | Some pg => if pg_read pg && pg_guard_ok pg then pg_data pg !! Z.to_nat (PGOFFSET p + k) else None
    | None => None end) as Hb.
  { intros k Hk. unfold byte_at. destruct (chunk_page p k) as [-> ->]; [lia .. | done]. }
  assert ((forall k, 0 <= k < n -> byte_at m (p + k) = None) -> mapM (byte_at m) (seqZ p n) = None) as Hnone.
  { intros H. apply mapM_None. rewrite seqZ_cons by lia. constructor.
    rewrite <- (H 0) by lia. f_equal. lia. }
  destruct (mem_pages m !! PAGE p) as [pg |] eqn:Epg.
  2:{ by apply Hnone. }
  destruct (pg_read pg) eqn:Er; [| by apply Hnone].
  destruct (pg_guard_ok pg) eqn:Eg; [| by apply Hnone].
  apply mapM_Some. apply Forall2_same_length_lookup. destruct (Hwf _ _ Epg) as [Hl _]. unfold PAGE_SIZE in *.
  split; [rewrite length_seqZ, length_take, length_drop; lia |].
  intros i x y Hx Hy. apply lookup_seqZ in Hx as [-> Hi].
  rewrite Hb by lia. apply lookup_take_Some in Hy as [Hy _]. rewrite lookup_drop in Hy.
  simpl. rewrite <- Hy. f_equal. lia.
Qed.

Lemma user_read_loop_spec fuel m p end_ :
  mem_wf m -> 0 <= p -> (Z.to_nat (end_ - p) <= fuel)%nat ->
  user_read_loop fuel m p end_ = mapM (byte_at m) (seqZ p (end_ - p)).
Proof.
  intros Hwf. revert p. induction fuel as [| fuel IH]; intros p Hp Hfuel; simpl;
    destruct (Z.ltb_spec p end_) as [Hlt | Hge]; simpl;
    try (rewrite seqZ_nil by lia; done); [lia |].
  destruct (chunk_end_spec p end_) as (Hce & _ & Hfit); [lia |].
  rewrite (seqZ_split p (chunk_end p end_)) by lia. rewrite mapM_app.
  rewrite read_chunk by (try done; lia). rewrite IH by lia.
  destruct (mem_ptr_may_fault m p MEM_READ); [| done].
  destruct (user_copy_from_page _ _ _); [| done].
  by destruct (mapM _ _).
Qed.

(** *** Writes *)

(** The rights of every page, and which pages there are, without their bytes. *)
Definition page_rights (pg : page) : bool * bool * bool := (pg_read pg, pg_write pg, pg_guard_ok pg).
Definition same_rights (m m' : mem) : Prop :=
  forall n, page_rights <$> mem_pages m' !! n = page_rights <$> mem_pages m !! n.

Lemma same_rights_trans a b c : same_rights a b -> same_rights b c -> same_rights a c.
Proof. intros H1 H2 n. by rewrite H2. Qed.

(** Memory after the bytes of [buf] up to address [q] were stored at [p]. *)
Definition written (m m' : mem) (p q : Z) (buf : list Z) : Prop :=
  forall a, 0 <= a ->
    raw_byte m' a = if decide (p <= a < q) then buf !! Z.to_nat (a - p) else raw_byte m a.

Lemma write_chunk m p n pg pg' buf :
  mem_wf m -> Forall (in_u 8) buf -> 0 <= p -> 0 < n -> PGOFFSET p + n <= PAGE_SIZE -> Z.to_nat n = length buf ->
  mem_pages m !! PAGE p = Some pg -> user_copy_to_page pg p buf = Some pg' ->
  let m' := mk_mem (<[PAGE p := pg']> (mem_pages m)) (mem_page_limit m) in
  mem_wf m' /\ same_rights m m' /\ written m m' p (p + n) buf.
Proof.
  intros Hwf Hby Hp Hn Hfit Hlen Hpg Hc m'. unfold user_copy_to_page in Hc.
  destruct (pg_guard_ok pg) eqn:Eg; simplify_eq. destruct (Hwf _ _ Hpg) as [Hl Hdb].
  destruct (page_offset p) as (Ep & Hr & Hpp); [lia |].
  split; [| split].
  - intros k q Hk. simpl in Hk. apply lookup_insert_Some in Hk as [[_ <-] | [_ Hk]]; [| eauto].
    simpl. split; [by rewrite length_inserts |]. by apply Forall_inserts.
  - intros k. simpl. rewrite lookup_insert. case_decide; [subst k; rewrite Hpg; simpl | done].
    unfold page_rights. simpl. by rewrite Eg.
  - intros a Ha. unfold raw_byte. simpl. rewrite lookup_insert.
    destruct (page_offset a) as (Ea & Hra & Hpa); [lia |].
    destruct (decide (PAGE p = PAGE a)) as [Heq | Hne].
    + rewrite <- Heq, Hpg. simpl. rewrite Heq in Ep. unfold PAGE_SIZE in *.
      case_decide as Hin.
      * rewrite list_lookup_inserts by lia. f_equal. lia.
      * destruct (decide (a < p)); [apply list_lookup_inserts_lt | apply list_lookup_inserts_ge]; lia.
    + rewrite decide_False; [done |]. intros Hin. apply Hne. unfold PAGE_SIZE in *. nia.
Qed.

Lemma user_write_loop_spec fuel m p end_ buf m' ok :
  mem_wf m -> Forall (in_u 8) buf -> 0 <= p <= end_ -> (Z.to_nat (end_ - p) <= fuel)%nat -> length buf = Z.to_nat (end_ - p) ->
  user_write_loop fuel m p end_ buf = (m', ok) ->
  exists q, p <= q <= end_ /\ (ok = true <-> q = end_) /\
    mem_wf m' /\ same_rights m m' /\ written m m' p q buf.
Proof.
  revert m p buf. induction fuel as [| fuel IH]; intros m p buf Hwf Hby Hp Hfuel Hlen Hw; simpl in Hw.
  all: destruct (Z.ltb_spec p end_) as [Hlt | Hge]; simpl in Hw; simplify_eq.
  all: try (exists p; split; [lia |]; split; [split; [lia | done] |]; split; [done |]; split; [done |];
            intros a Ha; rewrite decide_False by lia; done).
  { lia. }
  destruct (chunk_end_spec p end_) as (Hce & _ & Hfit); [lia |].
  assert (exists q, p <= q <= end_ /\ (false = true <-> q = end_) /\
    mem_wf m /\ same_rights m m /\ written m m p q buf) as Hstop.
  { exists p. split; [lia |]. split; [split; [done | lia] |]. split; [done |]. split; [done |].
    intros a Ha. by rewrite decide_False by lia. }
  destruct (mem_ptr_may_fault m p MEM_WRITE) as [pg |] eqn:Eptr; [| by simplify_eq].
  destruct (user_copy_to_page pg p _) as [pg' |] eqn:Ecp; [| by simplify_eq].
  set (n := Z.to_nat (chunk_end p end_ - p)) in *.
  assert (mem_pages m !! PAGE p = Some pg) as Hpg.
  { unfold mem_ptr_may_fault in Eptr. destruct (mem_pages m !! PAGE p); [| done].
    by destruct (pg_write _); simplify_eq. }
  destruct (write_chunk m p (chunk_end p end_ - p) pg pg' (take n buf)) as (Hwf' & Hsr & Hwr);
    [done | by apply Forall_take | lia | lia | lia | rewrite length_take; lia | done | done |].
  apply IH in Hw as (q & Hq & Hok & Hwf2 & Hsr2 & Hwr2); [| done | by apply Forall_drop | lia | lia | rewrite length_drop; lia].
  exists q. split; [lia |]. split; [done |]. split; [done |].
  split; [by eapply same_rights_trans |].
  intros a Ha. rewrite Hwr2, Hwr by done.
  destruct (decide (p <= a < q)) as [Hin | Hout];
    destruct (decide (chunk_end p end_ <= a < q)) as [Hin2 | Hout2]; try lia.
  - rewrite lookup_drop. f_equal. lia.
  - rewrite decide_True by lia. by rewrite lookup_take_lt by lia.
  - by rewrite decide_False by lia.
Qed.

Lemma byte_at_rights m m' a : same_rights m m' -> is_Some (byte_at m a) -> raw_byte m' a = byte_at m' a.
Proof.
  intros Hs [b Hb]. unfold byte_at, raw_byte, same_rights in *. specialize (Hs (PAGE a)).
  destruct (mem_pages m !! PAGE a) as [pg |]; [| done].
  destruct (mem_pages m' !! PAGE a) as [pg' |]; [| done].
  unfold page_rights in Hs. simpl in Hs. simplify_eq.
  destruct pg as [d r w g], pg' as [d' r' w' g']. simpl in *. subst. by destruct r, g.
Qed.

(** *** Strings *)

(** [s] is a C string: its only NUL is its last byte. *)
Definition is_cstring (s : list Z) : Prop := exists t, s = t ++ [0] /\ Forall (fun c => c <> 0) t.

Lemma copy_run_nonzero bytes : Forall (fun c => c <> 0) bytes -> user_string_copy_run bytes = bytes.
Proof. induction 1 as [| c l Hc _ IH]; simpl; [done |]. rewrite (proj2 (Z.eqb_neq _ _) Hc). by f_equal. Qed.

Lemma copy_run_nul t rest : Forall (fun c => c <> 0) t -> user_string_copy_run (t ++ 0 :: rest) = t ++ [0].
Proof.
  induction 1 as [| c l Hc _ IH]; simpl; [done |]. rewrite (proj2 (Z.eqb_neq _ _) Hc). by f_equal.
Qed.

Lemma user_range_valid_mono abi m a n k :
  0 <= a -> 0 < k <= n -> user_range_valid_mem abi m a n = true -> user_range_valid_mem abi m a k = true.
Proof.
  intros Ha Hk. unfold user_range_valid_mem, guest_abi_range_valid.
  assert (0 < guest_abi_user_addr_max abi <= 2 ^ 48) as Hmax by (by destruct abi).
  destruct (Z.geb_spec a (guest_abi_user_addr_max abi)); [done |].
  rewrite !(proj2 (Z.eqb_neq _ _)) by lia.
  destruct (Z.leb_spec n (guest_abi_user_addr_max abi - a)); [| done].
  rewrite (proj2 (Z.leb_le k _)) by lia. simpl. unfold u64. rewrite !wrap_small by (unfold in_u; lia).
  intros Hl. apply Z.ltb_lt in Hl. apply Z.ltb_lt. unfold PAGE in *.
  rewrite !Z.shiftr_div_pow2 in * by (unfold PAGE_BITS; lia).
  pose proof (Z.div_le_mono (a + k - 1) (a + n - 1) (2 ^ PAGE_BITS)). unfold PAGE_BITS in *. lia.
Qed.

(** The address and its whole page are valid together: the limits are page
    aligned. *)
Lemma user_range_valid_page abi m a k :
  0 <= a -> 0 < k -> PGOFFSET a + k <= PAGE_SIZE ->
  user_range_valid_mem abi m a 1 = true -> user_range_valid_mem abi m a k = true.
Proof.
  intros Ha Hk Hfit. unfold user_range_valid_mem, guest_abi_range_valid.
  destruct (page_offset a) as (Ea & Hr & Hn); [done |].
  assert (exists q, guest_abi_user_addr_max abi = q * PAGE_SIZE /\ q <= 2 ^ 36) as (q & Hq & Hq').
  { exists (guest_abi_user_addr_max abi / PAGE_SIZE). by destruct abi. }
  rewrite Hq. unfold PAGE_SIZE in *.
  destruct (Z.geb_spec a (q * 4096)); [done |].
  change (1 =? 0) with false. cbv beta iota.
  rewrite (proj2 (Z.eqb_neq k 0)) by lia.
  rewrite (proj2 (Z.leb_le k _)) by nia.
  destruct (Z.leb_spec 1 (q * 4096 - a)); [| done]. simpl. unfold u64.
  rewrite !wrap_small by (unfold in_u; lia).
  replace (a + k - 1) with (a + (k - 1)) by lia.
  destruct (chunk_page a (k - 1)) as [-> _]; [lia | lia | unfold PAGE_SIZE; lia |].
  by replace (a + 1 - 1) with a by lia.
Qed.

(** Two lists that agree wherever both have an element are prefixes of one
    another. *)
Lemma agree_prefix {A} (l k : list A) :
  (forall j x y, l !! j = Some x -> k !! j = Some y -> x = y) ->
  (exists r, l = k ++ r) \/ (exists r, k = l ++ r /\ r <> []).
Proof.
  revert k. induction l as [| x l IH]; intros k H.
  - destruct k as [| y k]; [left; by exists [] | right; by exists (y :: k)].
  - destruct k as [| y k]; [left; by exists (x :: l) |].
    rewrite (H 0%nat x y eq_refl eq_refl) in *.
    destruct (IH k) as [[r ->] | (r & -> & Hr)].
    + intros j a b Ha Hb. by apply (H (S j) a b).
    + left. by exists r.
    + right. by exists r.
Qed.

(** One chunk of a string read: a resolvable page whose bytes are those that
    [byte_at] gives. *)
Lemma cstring_chunk m p n c :
  mem_wf m -> 0 <= p -> 0 < n -> PGOFFSET p + n <= PAGE_SIZE -> byte_at m p = Some c ->
  exists pg bytes, mem_ptr_may_fault m p MEM_READ = Some pg /\ user_copy_from_page pg p n = Some bytes /\
    length bytes = Z.to_nat n /\
    forall k b, bytes !! k = Some b -> byte_at m (p + Z.of_nat k) = Some b.
Proof.
  intros Hwf Hp Hn Hfit Hc. pose proof (read_chunk m p n Hwf Hp Hn Hfit) as Hrc.
  unfold mem_ptr_may_fault, user_copy_from_page in *. unfold byte_at at 1 in Hc.
  destruct (mem_pages m !! PAGE p) as [pg |]; [| done].
  destruct (pg_read pg); [| done]. destruct (pg_guard_ok pg) eqn:Eg; [| done].
  eexists pg, _. split; [done |]. rewrite Eg in *. split; [done |].
  pose proof (length_mapM _ _ _ Hrc) as Hlen. rewrite length_seqZ in Hlen. split; [done |].
  intros k b Hb. apply mapM_Some, Forall2_same_length_lookup in Hrc as [_ Hrc].
  apply (Hrc k); [| done]. apply lookup_seqZ_lt. apply lookup_lt_Some in Hb. lia.
Qed.

(** Reading on from the middle of a string whose bytes are all readable: [buf]
    was read, [t] and the NUL are left. *)
Lemma read_cstring_loop fuel abi m addr max buf t :
  mem_wf m -> 0 <= addr -> addr + max < 2 ^ 64 -> Forall (fun c => c <> 0) t ->
  Z.of_nat (length buf + length t) < max -> (length t < fuel)%nat ->
  (forall j c, (t ++ [0]) !! j = Some c ->
     let a := addr + Z.of_nat (length buf + j) in
     byte_at m a = Some c /\ user_range_valid_mem abi m a 1 = true) ->
  user_read_cstring fuel abi m addr max (Z.of_nat (length buf)) buf = Copied (buf ++ t ++ [0]).
Proof.
  intros Hwf Ha Hwrap. revert buf t.
  induction fuel as [| fuel IH]; intros buf t Ht Hmax Hfuel Hb; [lia |]. simpl.
  rewrite (proj2 (Z.ltb_lt _ _)) by lia. simpl. unfold u64. rewrite wrap_small by (unfold in_u; lia).
  set (p := addr + Z.of_nat (length buf)). destruct (page_offset p) as (Ep & Hr & Hn); [lia |].
  replace (Z.shiftl (PAGE p + 1) PAGE_BITS - p) with (PAGE_SIZE - PGOFFSET p)
    by (unfold PAGE_BITS; rewrite Z.shiftl_mul_pow2 by lia; change (2 ^ 12) with PAGE_SIZE; lia).
  set (chunk := if _ >? _ then _ else _).
  assert (0 < chunk /\ PGOFFSET p + chunk <= PAGE_SIZE) as [Hc0 Hfit].
  { unfold chunk. destruct (Z.gtb_spec (PAGE_SIZE - PGOFFSET p) (max - Z.of_nat (length buf))); lia. }
  destruct (lookup_lt_is_Some_2 (t ++ [0]) 0) as [c Hc]; [rewrite length_app; simpl; lia |].
  destruct (Hb 0%nat c Hc) as [Hbc Hval]. rewrite Nat.add_0_r in *. fold p in Hbc, Hval.
  rewrite (user_range_valid_page abi m p chunk) by (try done; lia). simpl.
  destruct (cstring_chunk m p chunk c) as (pg & bytes & -> & -> & Hlen & Hbytes); [done | lia .. | done |].
  destruct (agree_prefix bytes (t ++ [0])) as [[rest ->] | (rest & Hrest & Hne)].
  - intros j x y Hx Hy. apply Hbytes in Hx. destruct (Hb j y Hy) as [Hy' _].
    replace (addr + Z.of_nat (length buf + j)) with (p + Z.of_nat j) in Hy' by lia. congruence.
  - rewrite <- app_assoc. simpl. rewrite copy_run_nul by done. by rewrite app_assoc, last_snoc.
  - destruct (exists_last Hne) as (rest' & z & ->). rewrite app_assoc in Hrest.
    apply app_inj_tail in Hrest as [-> <-]. apply Forall_app in Ht as [Hnz Ht].
    rewrite copy_run_nonzero by done.
    destruct (exists_last (l := bytes)) as (b' & z & Eb); [intros ->; simpl in *; lia |].
    assert (z <> 0) as Hz by (rewrite Eb in Hnz; apply Forall_app in Hnz as [_ Hnz]; by inversion Hnz).
    assert (last (buf ++ bytes) = Some z) as -> by (rewrite Eb, app_assoc; apply last_snoc).
    simpl. rewrite (proj2 (Z.eqb_neq _ _) Hz).
    replace (Z.of_nat (length buf) + Z.of_nat (length bytes)) with (Z.of_nat (length (buf ++ bytes)))
      by (rewrite length_app; lia).
    rewrite (IH (buf ++ bytes) rest').
    + by rewrite <- !app_assoc.
    + done.
    + rewrite !length_app in *. lia.
    + rewrite !length_app in *. lia.
    + intros j d Hd. rewrite length_app, <- Nat.add_assoc. apply Hb.
      rewrite <- app_assoc, lookup_app_r by lia. by replace (length bytes + j - length bytes)%nat with j by lia.
Qed.

(** ** The interface other components use *)

(** Guest memory as the system calls see it: a read answers all its bytes or
    faults, and a write that succeeds is what a later read finds. *)
Class GuestMemory (M : Type) := {
  user_read : M -> Z -> Z -> option (list Z);
  user_write : M -> Z -> list Z -> M * bool }.

Class GuestMemoryOk (M : Type) `{GuestMemory M} := {
  gm_ok : M -> Prop;
  user_read_bytes : forall m a n bs, gm_ok m -> 0 <= a -> 0 <= n ->
    user_read m a n = Some bs -> length bs = Z.to_nat n /\ Forall (in_u 8) bs;
  user_write_ok : forall m a bs m' ok, gm_ok m -> Forall (in_u 8) bs -> 0 <= a -> user_write m a bs = (m', ok) -> gm_ok m';
  user_read_write : forall m a bs m', gm_ok m -> Forall (in_u 8) bs -> 0 <= a -> user_write m a bs = (m', true) ->
    is_Some (user_read m a (Z.of_nat (length bs))) -> user_read m' a (Z.of_nat (length bs)) = Some bs }.

#[export] Instance paged_memory : GuestMemory (guest_abi * mem) := {
  user_read am a n := user_read_task_mem (fst am) (snd am) a n;
  user_write am a bs := let '(m', ok) := user_write_task_mem (fst am) (snd am) a bs in ((fst am, m'), ok) }.

Lemma read_task_mem_bytes abi m a n :
  mem_wf m -> 0 <= a -> 0 <= n -> user_range_valid_mem abi m a n = true ->
  user_read_task_mem abi m a n = mapM (byte_at m) (seqZ a n).
Proof.
  intros Hwf Ha Hn Hv. unfold user_read_task_mem. rewrite Hv. simpl.
  rewrite user_read_loop_spec by (try done; lia). do 2 f_equal. lia.
Qed.

Lemma mapM_byte_range m l bs : mem_wf m -> mapM (byte_at m) l = Some bs -> Forall (in_u 8) bs.
Proof.
  intros Hwf Hm. apply mapM_Some in Hm. induction Hm as [| a b l bs Hb _ IH]; constructor; [| done].
  unfold byte_at in Hb. destruct (mem_pages m !! PAGE a) as [pg |] eqn:Epg; [| done].
  destruct (pg_read pg && pg_guard_ok pg); [| done].
  destruct (Hwf _ _ Epg) as [_ Hall]. by eapply Forall_lookup_1.
Qed.

Lemma write_task_mem_spec abi m a buf m' ok :
  mem_wf m -> Forall (in_u 8) buf -> 0 <= a -> user_write_task_mem abi m a buf = (m', ok) ->
  exists q, a <= q <= a + Z.of_nat (length buf) /\
    (ok = true -> q = a + Z.of_nat (length buf)) /\
    mem_wf m' /\ same_rights m m' /\ written m m' a q buf.
Proof.
  intros Hwf Hby Ha. unfold user_write_task_mem. destruct (user_range_valid_mem _ _ _ _); simpl; intros Hw.
  - apply user_write_loop_spec in Hw as (q & Hq & Hok & Hrest); [| done | done | lia .. ].
    exists q. split; [done |]. split; [apply Hok | done].
  - simplify_eq. exists a. split; [lia |]. split; [done |]. split; [done |]. split; [done |].
    intros x Hx. by rewrite decide_False by lia.
Qed.

Lemma write_task_mem_limit abi m a buf m' ok :
  user_write_task_mem abi m a buf = (m', ok) -> mem_page_limit m' = mem_page_limit m.
Proof.
  unfold user_write_task_mem. destruct (user_range_valid_mem _ _ _ _); simpl; [| by intros; simplify_eq].
  generalize (Z.to_nat (Z.of_nat (length buf))) as fuel, (a + Z.of_nat (length buf)) as e.
  intros fuel e. revert m a buf. induction fuel as [| fuel IH]; intros m a buf Hw; simpl in Hw.
  - by case_on_match_in Hw; simplify_eq.
  - repeat case_on_match_in Hw; simplify_eq; try done. by apply IH in Hw.
Qed.

#[export, refine] Instance paged_memory_ok : GuestMemoryOk (guest_abi * mem) := {
  gm_ok am := mem_wf (snd am) }.
Proof.
  - intros [abi m] a n bs Hwf Ha Hn Hr. simpl in *. destruct (user_range_valid_mem abi m a n) eqn:Hv.
    + rewrite read_task_mem_bytes in Hr by done. pose proof (length_mapM _ _ _ Hr) as Hl.
      rewrite length_seqZ in Hl. split; [done |]. eapply mapM_byte_range; eauto.
    + unfold user_read_task_mem in Hr. by rewrite Hv in Hr.
  - intros [abi m] a bs m' ok Hwf Hby Ha Hw. simpl in *.
    destruct (user_write_task_mem abi m a bs) as [m1 ok1] eqn:E. simplify_eq.
    by destruct (write_task_mem_spec _ _ _ _ _ _ Hwf Hby Ha E) as (q & _ & _ & Hwf' & _).
  - intros [abi m] a bs m' Hwf Hby Ha Hw [old Hold]. simpl in *.
    destruct (user_write_task_mem abi m a bs) as [m1 ok1] eqn:E. simplify_eq. simpl.
    destruct (write_task_mem_spec _ _ _ _ _ _ Hwf Hby Ha E) as (q & _ & Hok & Hwf' & Hsr & Hwr).
    rewrite (Hok eq_refl) in Hwr.
    destruct (user_range_valid_mem abi m a (Z.of_nat (length bs))) eqn:Hv;
      [| unfold user_read_task_mem in Hold; by rewrite Hv in Hold].
    rewrite read_task_mem_bytes in Hold by (try done; lia).
    rewrite read_task_mem_bytes; [| done | done | lia |].
    2:{ unfold user_range_valid_mem in *. by rewrite (write_task_mem_limit _ _ _ _ _ _ E). }
    apply mapM_Some, Forall2_same_length_lookup. split; [by rewrite length_seqZ, Nat2Z.id |].
    intros i x y Hx Hy. pose proof Hx as [-> Hi]%lookup_seqZ.
    rewrite <- (byte_at_rights m m1); [| done |].
    + rewrite Hwr by lia. rewrite decide_True by lia. rewrite <- Hy. f_equal. lia.
    + apply mapM_Some, Forall2_same_length_lookup in Hold as [Hl Hold].
      destruct (lookup_lt_is_Some_2 old i) as [z Hz];
        [apply lookup_lt_Some in Hy; rewrite length_seqZ in Hl; lia |].
      exists z. by apply (Hold i).
Defined.

(** ** Properties *)

(** Reading guest memory page by page is reading it byte by byte: for a
    range the ABI and the address space allow, the copy answers exactly the
    bytes at its addresses, and faults exactly when some byte of it is not
    mapped readable. *)
Theorem user_read_bytewise abi m addr count :
  mem_wf m -> 0 <= addr -> 0 <= count -> user_range_valid_mem abi m addr count = true ->
  user_read_task_mem abi m addr count = mapM (byte_at m) (seqZ addr count).
Proof. apply read_task_mem_bytes. Qed.

(** A write stores a prefix of the buffer, ending at some address [q], and
    changes no other byte and no page's rights; it stores all of it when it
    succeeds. *)
Theorem user_write_prefix abi m addr buf m' ok :
  mem_wf m -> Forall (in_u 8) buf -> 0 <= addr -> user_write_task_mem abi m addr buf = (m', ok) ->
  exists q, addr <= q <= addr + Z.of_nat (length buf) /\
    (ok = true -> q = addr + Z.of_nat (length buf)) /\
    mem_wf m' /\ same_rights m m' /\ written m m' addr q buf.
Proof. apply write_task_mem_spec. Qed.

(** A path whose bytes up to its NUL are all readable and that fits in
    [max] is read whole, whatever lies after the NUL, an unmapped page
    included. *)
Theorem user_read_path_complete abi m addr max t :
  mem_wf m -> 0 < addr -> addr + max < 2 ^ 64 -> guest_abi_addr_valid abi addr = true ->
  Forall (fun c => c <> 0) t -> Z.of_nat (length t) < max ->
  (forall j c, (t ++ [0]) !! j = Some c ->
     byte_at m (addr + Z.of_nat j) = Some c /\ user_range_valid_mem abi m (addr + Z.of_nat j) 1 = true) ->
  user_read_path abi m addr max = inr (t ++ [0]).
Proof.
  intros Hwf Ha Hwrap Hv Ht Hmax Hb. unfold user_read_path.
  rewrite !(proj2 (Z.eqb_neq _ 0)) by lia. rewrite Hv. simpl.
  pose proof (read_cstring_loop (Z.to_nat max) abi m addr max [] t) as Hloop.
  simpl in Hloop. change (Z.of_nat 0) with 0 in Hloop.
  by rewrite Hloop by (try done; lia).
Qed.

(** ** Witnesses *)

Definition demo_page : page := mk_page (list_inserts 4 [47; 97; 0] (replicate 4096 7)) true true true.
Definition demo_mem : mem := mk_mem {[ 5 := demo_page ]} 1048576.

Lemma demo_mem_wf : mem_wf demo_mem.
Proof.
  intros n pg H. cbn [mem_pages demo_mem] in H. apply lookup_singleton_Some in H as [_ <-].
  split; [by vm_compute |]. apply Forall_inserts; [apply Forall_replicate; unfold in_u; lia |].
  repeat constructor; lia.
Qed.

Lemma user_read_bytewise_witness :
  user_read_task_mem GUEST_ABI_I386 demo_mem 20484 3 = mapM (byte_at demo_mem) (seqZ 20484 3).
Proof.
  apply (user_read_bytewise GUEST_ABI_I386 demo_mem 20484 3);
    [exact demo_mem_wf | lia | lia | vm_compute; reflexivity].
Defined.

Lemma user_write_prefix_witness :
  exists q, 24570 <= q <= 24570 + 8 /\
    (false = true -> q = 24570 + 8) /\
    mem_wf (fst (user_write_task_mem GUEST_ABI_I386 demo_mem 24570 [1; 2; 3; 4; 5; 6; 7; 8])) /\
    same_rights demo_mem (fst (user_write_task_mem GUEST_ABI_I386 demo_mem 24570 [1; 2; 3; 4; 5; 6; 7; 8])) /\
    written demo_mem (fst (user_write_task_mem GUEST_ABI_I386 demo_mem 24570 [1; 2; 3; 4; 5; 6; 7; 8]))
      24570 q [1; 2; 3; 4; 5; 6; 7; 8].
Proof.
  apply (user_write_prefix GUEST_ABI_I386 demo_mem 24570 [1; 2; 3; 4; 5; 6; 7; 8] _ false);
    [exact demo_mem_wf | repeat constructor; lia | lia | vm_compute; reflexivity].
Defined.

Lemma user_read_path_complete_witness :
  user_read_path GUEST_ABI_I386 demo_mem 20484 4096 = inr [47; 97; 0].
Proof.
  apply (user_read_path_complete GUEST_ABI_I386 demo_mem 20484 4096 [47; 97]);
    [exact demo_mem_wf | lia | lia | reflexivity | repeat constructor; lia | simpl; lia |].
  intros [| [| [| j]]] c Hc; simplify_eq/=; split; vm_compute; reflexivity.
Defined.
