(* ===== verification/Seccomp.v ===== *)
(** * seccomp filters (kernel/seccomp.c, lines 273-820)

    Filters are heap objects with a reference count and a pointer to the filter
    installed before them; threads of a process share chains of them.  The heap
    is a finite map from addresses to filters, an address being used once, so a
    pointer to a freed filter is a failed lookup: operations that would follow
    one answer [None].  The theorems: the most restrictive filter of a chain
    decides; a call runs only if every filter of the chain let it; installing
    keeps every count equal to the number of references (so nothing reachable
    is ever freed and no freed filter is ever touched), only ever adds to a
    thread's chain, and changes nothing when it fails; modes are never relaxed;
    exporting a chain and importing it rebuilds the same programs. *)

From S2P Require Import Prelude Bpf User.

(** ** Constants *)

Definition SECCOMP_MODE_DISABLED_ := 0.
Definition SECCOMP_MODE_STRICT_ := 1.
Definition SECCOMP_MODE_FILTER_ := 2.
Definition SECCOMP_MODE_DEAD_ := 3.

Definition SECCOMP_SET_MODE_STRICT_ := 0.
Definition SECCOMP_SET_MODE_FILTER_ := 1.
Definition SECCOMP_GET_ACTION_AVAIL_ := 2.

Definition SECCOMP_FILTER_FLAG_TSYNC_ := Z.shiftl 1 0.
Definition SECCOMP_FILTER_FLAG_LOG_ := Z.shiftl 1 1.
Definition SECCOMP_FILTER_FLAG_SPEC_ALLOW_ := Z.shiftl 1 2.
Definition SECCOMP_FILTER_FLAG_TSYNC_ESRCH_ := Z.shiftl 1 4.
Definition SECCOMP_FILTER_FLAGS_KNOWN_ :=
  SECCOMP_FILTER_FLAG_TSYNC_ .| SECCOMP_FILTER_FLAG_LOG_ .|
  SECCOMP_FILTER_FLAG_SPEC_ALLOW_ .| SECCOMP_FILTER_FLAG_TSYNC_ESRCH_.

Definition SECCOMP_RET_KILL_THREAD_ := 0x00000000.
Definition SECCOMP_RET_TRAP_ := 0x00030000.
Definition SECCOMP_RET_ERRNO_ := 0x00050000.
Definition SECCOMP_RET_USER_NOTIF_ := 0x7fc00000.
Definition SECCOMP_RET_TRACE_ := 0x7ff00000.
Definition SECCOMP_RET_LOG_ := 0x7ffc0000.
Definition SECCOMP_RET_ALLOW_ := 0x7fff0000.
Definition SECCOMP_RET_ACTION_FULL_ := 0xffff0000.
Definition SECCOMP_RET_DATA_ := 0x0000ffff.

Definition AUDIT_ARCH_I386_ := 0x40000003.
Definition AUDIT_ARCH_X86_64_ := 0xc000003e.
Definition AUDIT_ARCH_AARCH64_ := 0xc00000b7.
Definition AUDIT_ARCH_RISCV64_ := 0xc00000f3.
Definition AUDIT_ARCH_PPC64LE_ := 0xc0000015.

Definition SECCOMP_MAX_PATH_INSNS_ := Z.shiftl 1 18 / 8.
Definition MAX_ERRNO_ := 4095.
Definition SIGKILL_ := 9.
Definition SIGSYS_ := 31.
Definition PTRACE_O_TRACESECCOMP_ := Z.shiftl 1 7.

(** ** Filters on the heap *)

(** [struct seccomp_filter]; [len] is the length of [f_insns]. *)
Record seccomp_filter := mk_filter {
  f_refcount : Z; f_prev : option nat; f_log : bool; f_insns : list sock_filter }.

Abbreviation heap := (gmap nat seccomp_filter).

Definition f_len (f : seccomp_filter) : Z := Z.of_nat (length (f_insns f)).

Definition set_refcount (r : Z) (f : seccomp_filter) : seccomp_filter :=
  mk_filter r (f_prev f) (f_log f) (f_insns f).

Definition seccomp_filter_retain (h : heap) (filter : option nat) : heap :=
  match filter with
  | Some a => alter (fun f => set_refcount (u32 (f_refcount f + 1)) f) a h
  | None => h
  end.

(** The release loop; [None] when it would read a freed filter. *)
Fixpoint release_loop (fuel : nat) (h : heap) (filter : option nat) : option heap :=
  match filter with
  | None => Some h
  | Some a =>
      match fuel, h !! a with
      | S fuel, Some f =>
          if f_refcount f =? 1
          then release_loop fuel (delete a h) (f_prev f)
          else Some (<[a := set_refcount (u32 (f_refcount f - 1)) f]> h)
      | _, _ => None
      end
  end.

Definition seccomp_filter_release (h : heap) (filter : option nat) : option heap :=
  release_loop (S (default 0%nat filter)) h filter.

(** The filters that [for (; f != NULL; f = f->prev)] visits. *)
Fixpoint walk_loop (fuel : nat) (h : heap) (filter : option nat) : option (list (nat * seccomp_filter)) :=
  match filter with
  | None => Some []
  | Some a =>
      match fuel, h !! a with
      | S fuel, Some f =>
          match walk_loop fuel h (f_prev f) with
          | Some rest => Some ((a, f) :: rest)
          | None => None
          end
      | _, _ => None
      end
  end.

Definition walk (h : heap) (filter : option nat) : option (list (nat * seccomp_filter)) :=
  walk_loop (S (default 0%nat filter)) h filter.

Definition seccomp_filter_count (h : heap) (filter : option nat) : option Z :=
  match walk h filter with Some l => Some (Z.of_nat (length l)) | None => None end.

(** [filter_new] without the allocation: the object it fills in. *)
Definition filter_new (insns : list sock_filter) (log : bool) : seccomp_filter :=
  mk_filter 1 None log insns.

(** ** Deciding a call *)

Definition seccomp_arch (abi : guest_abi) : Z :=
  match abi with
  | GUEST_ABI_AMD64 => AUDIT_ARCH_X86_64_
  | GUEST_ABI_ARM64 => AUDIT_ARCH_AARCH64_
  | GUEST_ABI_RISCV64 => AUDIT_ARCH_RISCV64_
  | GUEST_ABI_PPC64 => AUDIT_ARCH_PPC64LE_
  | GUEST_ABI_I386 => AUDIT_ARCH_I386_
  end.

Definition strict_allowed (abi : guest_abi) (nr : Z) : bool :=
  match abi with
  | GUEST_ABI_AMD64 => (nr =? 0) || (nr =? 1) || (nr =? 60) || (nr =? 15)
  | GUEST_ABI_ARM64 | GUEST_ABI_RISCV64 => (nr =? 63) || (nr =? 64) || (nr =? 93) || (nr =? 139)
  | GUEST_ABI_PPC64 => (nr =? 3) || (nr =? 4) || (nr =? 1) || (nr =? 172)
  | GUEST_ABI_I386 => (nr =? 3) || (nr =? 4) || (nr =? 1) || (nr =? 119)
  end.

(** An action as [run_filters] compares it: signed. *)
Definition action_rank (ret : Z) : Z := s32 (ret .& SECCOMP_RET_ACTION_FULL_).

Fixpoint run_filters_loop (chain : list (nat * seccomp_filter)) (data : list Z)
    (ret : Z) (mtch : option seccomp_filter) : option (Z * option seccomp_filter) :=
  match chain with
  | [] => Some (ret, mtch)
  | (_, f) :: rest =>
      match bpf_run (f_insns f) data with
      | None => None
      | Some cur =>
          if action_rank cur <? action_rank ret
          then run_filters_loop rest data cur (Some f)
          else run_filters_loop rest data ret mtch
      end
  end.

Definition run_filters (h : heap) (filter : option nat) (data : list Z) : option (Z * option seccomp_filter) :=
  match filter with
  | None => Some (SECCOMP_RET_KILL_PROCESS_, None)
  | Some _ =>
      match walk h filter with
      | Some chain => run_filters_loop chain data SECCOMP_RET_ALLOW_ None
      | None => None
      end
  end.

(** The words of struct seccomp_data. *)
Definition seccomp_data (abi : guest_abi) (nr arch ip : Z) (args : list Z) : list Z :=
  [u32 nr; arch; u32 ip; u32 (Z.shiftr ip 32)] ++
  flat_map (fun a0 => let a := if decide (abi = GUEST_ABI_I386) then u32 a0 else a0 in
                      [u32 a; u32 (Z.shiftr a 32)]) args.

(** The parts of [struct task] seccomp reads and writes. *)
Record stask := mk_stask {
  t_pid : Z; t_abi : guest_abi; t_exiting : bool; t_mode : Z; t_filter : option nat;
  t_nnp : bool;            (* no_new_privs *)
  t_cap_sys_admin : bool;  (* current_capable(CAP_SYS_ADMIN_) *)
  t_traced : bool; t_ptrace_options : Z }.

(** The calling task's thread group, the filter heap, and the references that
    tasks of other processes and the checkpoint importer hold. *)
Record world := mk_world {
  w_heap : heap; w_next : nat; w_threads : list stask; w_cur : nat; w_others : list nat }.

Definition current (w : world) : option stask := w_threads w !! w_cur w.

Definition set_mode (m : Z) (t : stask) : stask :=
  mk_stask (t_pid t) (t_abi t) (t_exiting t) m (t_filter t) (t_nnp t) (t_cap_sys_admin t) (t_traced t) (t_ptrace_options t).
Definition set_filter (f : option nat) (t : stask) : stask :=
  mk_stask (t_pid t) (t_abi t) (t_exiting t) (t_mode t) f (t_nnp t) (t_cap_sys_admin t) (t_traced t) (t_ptrace_options t).
Definition set_nnp (b : bool) (t : stask) : stask :=
  mk_stask (t_pid t) (t_abi t) (t_exiting t) (t_mode t) (t_filter t) b (t_cap_sys_admin t) (t_traced t) (t_ptrace_options t).

Definition with_threads (w : world) (ts : list stask) : world :=
  mk_world (w_heap w) (w_next w) ts (w_cur w) (w_others w).
Definition with_heap (w : world) (h : heap) : world :=
  mk_world h (w_next w) (w_threads w) (w_cur w) (w_others w).

Definition seccomp_last_thread (w : world) : bool :=
  Z.of_nat (length (filter (fun t => t_exiting t = false) (w_threads w))) <=? 1.

(** What a decision does besides answering. *)
Inductive effect :=
| Log (nr arch ip sig action : Z)          (* seccomp_log *)
| Sigsys (nr arch ip data : Z)             (* seccomp_send_sigsys *)
| PtraceStop (data : Z)                    (* ptrace_event_stop *)
| Exit (sig : Z)                           (* do_exit: this thread *)
| ExitGroup (sig : Z).                     (* do_exit_group *)

(** enum seccomp_verdict with *result, and the calls that do not return. *)
Inductive verdict :=
| RUN | ANSWERED (result : Z) | SKIPPED | TRACED | NORETURN.

Definition seccomp_kill (w : world) (action : Z) : world * list effect :=
  let w' := with_threads w (alter (set_mode SECCOMP_MODE_DEAD_) (w_cur w) (w_threads w)) in
  if (action =? SECCOMP_RET_KILL_THREAD_) && negb (seccomp_last_thread w')
  then (w', [Exit SIGSYS_]) else (w', [ExitGroup SIGSYS_]).

(** The switch over the deciding filter's answer.  [exiting_after] is whether
    the task is dying once the tracer's stop ends. *)
Definition seccomp_act (w : world) (t : stask) (nr arch ip ret : Z) (logged recheck exiting_after : bool)
    : world * list effect * verdict :=
  let action := ret .& SECCOMP_RET_ACTION_FULL_ in
  let rdata := ret .& SECCOMP_RET_DATA_ in
  let log sig := if logged then [Log nr arch ip sig action] else [] in
  if action =? SECCOMP_RET_ALLOW_ then (w, [], RUN)
  else if action =? SECCOMP_RET_LOG_ then (w, [Log nr arch ip 0 action], RUN)
  else if action =? SECCOMP_RET_ERRNO_ then
    (w, log 0, ANSWERED (- (if rdata >? MAX_ERRNO_ then MAX_ERRNO_ else rdata)))
  else if action =? SECCOMP_RET_TRAP_ then
    (w, log SIGSYS_ ++ [Sigsys nr arch ip rdata], SKIPPED)
  else if action =? SECCOMP_RET_TRACE_ then
    if recheck then (w, [], RUN) else
    if negb (t_traced t) || negb (has_flag (t_ptrace_options t) PTRACE_O_TRACESECCOMP_)
    then (w, log 0, ANSWERED _ENOSYS)
    else (w, log 0 ++ [PtraceStop rdata], if exiting_after then SKIPPED else TRACED)
  else if action =? SECCOMP_RET_USER_NOTIF_ then (w, log 0, ANSWERED _ENOSYS)
  else
    let '(w', effs) := seccomp_kill w (if action =? SECCOMP_RET_KILL_THREAD_ then action else SECCOMP_RET_KILL_PROCESS_) in
    (w', Log nr arch ip SIGSYS_ action :: effs, NORETURN).

Definition seccomp_syscall_enter (w : world) (abi : guest_abi) (nr64 : Z) (args : list Z) (ip : Z)
    (recheck exiting_after : bool) : option (world * list effect * verdict) :=
  match current w with
  | None => None
  | Some t =>
      let nr := s32 nr64 in
      let arch := seccomp_arch abi in
      if t_mode t =? SECCOMP_MODE_STRICT_ then
        if strict_allowed abi nr then Some (w, [], RUN)
        else Some (with_threads w (alter (set_mode SECCOMP_MODE_DEAD_) (w_cur w) (w_threads w)),
                   [Log nr arch ip SIGKILL_ SECCOMP_RET_KILL_THREAD_; Exit SIGKILL_], NORETURN)
      else if t_mode t =? SECCOMP_MODE_DEAD_ then Some (w, [Exit SIGKILL_], NORETURN)
      else
        match run_filters (w_heap w) (t_filter t) (seccomp_data abi nr arch ip args) with
        | None => None
        | Some (ret, mtch) =>
            let logged := match mtch with Some f => f_log f | None => false end in
            Some (seccomp_act w t nr arch ip ret logged recheck exiting_after)
        end
  end.

(** ** Installing *)

(** [is_ancestor]: [parent] is somewhere in [child]'s chain. *)
Definition is_ancestor (h : heap) (parent child : option nat) : option bool :=
  match parent with
  | None => Some true
  | Some p => match walk h child with
              | Some l => Some (existsb (fun af => Nat.eqb (fst af) p) l)
              | None => None
              end
  end.

Definition may_assign_mode (t : stask) (mode : Z) : bool :=
  (t_mode t =? SECCOMP_MODE_DISABLED_) || (t_mode t =? mode).

Definition set_mode_strict (w : world) : option (world * Z) :=
  match current w with
  | None => None
  | Some t =>
      if may_assign_mode t SECCOMP_MODE_STRICT_
      then Some (with_threads w (alter (set_mode SECCOMP_MODE_STRICT_) (w_cur w) (w_threads w)), 0)
      else Some (w, _EINVAL)
  end.

(** Whether each allocation on the way succeeds. *)
Record allocs := mk_allocs { al_insns : bool; al_valid : bool; al_filter : bool }.

(** The eight bytes of a struct sock_filter. *)
Definition insn_of_bytes (bs : list Z) : sock_filter :=
  mk_insn (le_num (field 0 2 bs)) (le_num (field 2 1 bs)) (le_num (field 3 1 bs)) (le_num (field 4 4 bs)).

Fixpoint insns_of_bytes (n : nat) (bs : list Z) : list sock_filter :=
  match n with O => [] | S n => insn_of_bytes (take 8 bs) :: insns_of_bytes n (drop 8 bs) end.

Section Install.
Context {M : Type} `{GuestMemory M}.

(** [prepare_user_filter]: the error, or the program to install. *)
Definition prepare_user_filter (al : allocs) (m : M) (t : stask) (uprog : Z) : Z + list sock_filter :=
  let fprog :=
    if guest_abi_is_64bit (t_abi t)
    then match user_read m uprog 16 with
         | Some bs => Some (le_num (field 0 2 bs), le_num (field 8 8 bs)) | None => None end
    else match user_read m uprog 8 with
         | Some bs => Some (le_num (field 0 2 bs), le_num (field 4 4 bs)) | None => None end in
  match fprog with
  | None => inl _EFAULT
  | Some (len, insns_addr) =>
      if (len =? 0) || (len >? BPF_MAXINSNS_) then inl _EINVAL else
      if negb (t_nnp t) && negb (t_cap_sys_admin t) then inl _EACCES else
      if insns_addr =? 0 then inl _EINVAL else
      if negb (al_insns al) then inl _ENOMEM else
      match user_read m insns_addr (len * 8) with
      | None => inl _EFAULT
      | Some bs =>
          let insns := insns_of_bytes (Z.to_nat len) bs in
          let err := bpf_check (al_valid al) insns in
          if err <? 0 then inl err else
          if al_filter al then inr insns else inl _ENOMEM
      end
  end.

(** [tsync_blocker] over the threads from index [i] on. *)
Fixpoint tsync_blocker (h : heap) (cur : nat) (caller_head : option nat) (i : nat) (ts : list stask) : option Z :=
  match ts with
  | [] => Some 0
  | t :: rest =>
      if Nat.eqb i cur || t_exiting t then tsync_blocker h cur caller_head (S i) rest else
      if t_mode t =? SECCOMP_MODE_DISABLED_ then tsync_blocker h cur caller_head (S i) rest else
      if t_mode t =? SECCOMP_MODE_FILTER_ then
        match is_ancestor h (t_filter t) caller_head with
        | None => None
        | Some true => tsync_blocker h cur caller_head (S i) rest
        | Some false => Some (t_pid t)
        end
      else Some (t_pid t)
  end.

(** The second TSYNC loop: give every other thread the new chain. *)
Fixpoint tsync_assign (h : heap) (cur : nat) (head : option nat) (nnp : bool) (i : nat) (ts : list stask)
    : option (heap * list stask) :=
  match ts with
  | [] => Some (h, [])
  | t :: rest =>
      if Nat.eqb i cur || t_exiting t then
        match tsync_assign h cur head nnp (S i) rest with
        | Some (h', rest') => Some (h', t :: rest') | None => None end
      else
        let h := seccomp_filter_retain h head in
        match seccomp_filter_release h (t_filter t) with
        | None => None
        | Some h =>
            let t' := set_filter head t in
            let t' := if nnp then set_nnp true t' else t' in
            let t' := set_mode SECCOMP_MODE_FILTER_ t' in
            match tsync_assign h cur head nnp (S i) rest with
            | Some (h', rest') => Some (h', t' :: rest') | None => None end
        end
  end.

(** [total]: the new program and every installed one, with its penalty. *)
Definition path_total (len : Z) (chain : list (nat * seccomp_filter)) : Z :=
  fold_left (fun acc af => acc + (f_len (snd af) + 4)) chain len.

Definition set_mode_filter (al : allocs) (m : M) (w : world) (flags uprog : Z) : option (world * Z) :=
  match current w with
  | None => None
  | Some t =>
      if negb (flags .& Z.lnot SECCOMP_FILTER_FLAGS_KNOWN_ =? 0) then Some (w, _EINVAL) else
      match prepare_user_filter al m t uprog with
      | inl err => Some (w, err)
      | inr insns =>
          let log := has_flag flags SECCOMP_FILTER_FLAG_LOG_ in
          let a := w_next w in
          let w1 := mk_world (<[a := filter_new insns log]> (w_heap w)) (S a) (w_threads w) (w_cur w) (w_others w) in
          let out err := match seccomp_filter_release (w_heap w1) (Some a) with
                         | Some h => Some (with_heap w1 h, err) | None => None end in
          if negb (may_assign_mode t SECCOMP_MODE_FILTER_) then out _EINVAL else
          let old := t_filter t in
          match walk (w_heap w1) old with
          | None => None
          | Some chain =>
              if u64 (path_total (Z.of_nat (length insns)) chain) >? SECCOMP_MAX_PATH_INSNS_ then out _ENOMEM else
              let tsync := has_flag flags SECCOMP_FILTER_FLAG_TSYNC_ in
              match (if tsync then tsync_blocker (w_heap w1) (w_cur w) old 0 (w_threads w) else Some 0) with
              | None => None
              | Some blocker =>
                  if negb (blocker =? 0) then
                    out (if has_flag flags SECCOMP_FILTER_FLAG_TSYNC_ESRCH_ then _ESRCH else blocker)
                  else
                    let h := <[a := mk_filter 1 old log insns]> (w_heap w1) in
                    let ts := alter (fun t => set_mode SECCOMP_MODE_FILTER_ (set_filter (Some a) t)) (w_cur w) (w_threads w) in
                    if tsync then
                      match tsync_assign h (w_cur w) (Some a) (t_nnp t) 0 ts with
                      | Some (h', ts') => Some (mk_world h' (S a) ts' (w_cur w) (w_others w), 0)
                      | None => None
                      end
                    else Some (mk_world h (S a) ts (w_cur w) (w_others w), 0)
              end
          end
      end
  end.

Definition get_action_avail (m : M) (uaction : Z) : Z :=
  match user_read m uaction 4 with
  | None => _EFAULT
  | Some bs =>
      let action := le_num bs in
      if (action =? SECCOMP_RET_KILL_PROCESS_) || (action =? SECCOMP_RET_KILL_THREAD_) ||
         (action =? SECCOMP_RET_TRAP_) || (action =? SECCOMP_RET_ERRNO_) ||
         (action =? SECCOMP_RET_TRACE_) || (action =? SECCOMP_RET_LOG_) ||
         (action =? SECCOMP_RET_ALLOW_)
      then 0 else _EOPNOTSUPP
  end.

Definition sys_seccomp_guest (al : allocs) (m : M) (w : world) (op flags uargs : Z) : option (world * Z) :=
  if op =? SECCOMP_SET_MODE_STRICT_ then
    if negb (flags =? 0) || negb (uargs =? 0) then Some (w, _EINVAL) else set_mode_strict w
  else if op =? SECCOMP_SET_MODE_FILTER_ then set_mode_filter al m w flags uargs
  else if op =? SECCOMP_GET_ACTION_AVAIL_ then
    if negb (flags =? 0) then Some (w, _EINVAL) else Some (w, get_action_avail m uargs)
  else Some (w, _EINVAL).

Definition seccomp_prctl_set (al : allocs) (m : M) (w : world) (mode filter : Z) : option (world * Z) :=
  if mode =? SECCOMP_MODE_STRICT_ then set_mode_strict w
  else if mode =? SECCOMP_MODE_FILTER_ then set_mode_filter al m w 0 filter
  else Some (w, _EINVAL).

End Install.

Definition seccomp_prctl_get (t : stask) : Z :=
  if t_mode t =? SECCOMP_MODE_DEAD_ then SECCOMP_MODE_FILTER_ else t_mode t.

(** ** Checkpoint *)

(** [struct seccomp_ckpt_prog]. *)
Record ckpt_prog := mk_prog { p_log : bool; p_insns : list sock_filter }.

(** [seccomp_ckpt_export] with room for all of them: oldest first. *)
Definition seccomp_ckpt_export (h : heap) (filter : option nat) : option (list ckpt_prog) :=
  match walk h filter with
  | Some l => Some (fold_left (fun out af => mk_prog (f_log (snd af)) (f_insns (snd af)) :: out) l [])
  | None => None
  end.

(** The importer's state: the heap, the next address, the filters seen. *)
Record importer := mk_importer { im_heap : heap; im_next : nat; im_seen : list nat }.

Definition import_find (im : importer) (prev : option nat) (p : ckpt_prog) : option nat :=
  List.find (fun a => match im_heap im !! a with
                 | Some f => bool_decide (f_prev f = prev) && Bool.eqb (f_log f) (p_log p) &&
                             bool_decide (f_insns f = p_insns p)
                 | None => false end) (im_seen im).

(** [grown] is whether the table had room or could grow. *)
Definition import_remember (grown : bool) (im : importer) (a : nat) : importer :=
  if grown then mk_importer (seccomp_filter_retain (im_heap im) (Some a)) (im_next im) (im_seen im ++ [a]) else im.

(** The loop of [seccomp_ckpt_import]; [al n] says which allocations succeed
    when [n] programs are left ([al_insns] for the table of seen filters). *)
Fixpoint import_loop (al : nat -> allocs) (im : importer) (head : option nat) (progs : list ckpt_prog)
    : option (importer * option nat) :=
  match progs with
  | [] => Some (im, head)
  | p :: rest =>
      let len := Z.of_nat (length (p_insns p)) in
      let fail := match seccomp_filter_release (im_heap im) head with
        | Some h => Some (mk_importer h (im_next im) (im_seen im), None) | None => None end in
      if (len =? 0) || (len >? BPF_MAXINSNS_) || (bpf_check (al_valid (al (length progs))) (p_insns p) <? 0) then fail
      else
        match import_find im head p with
        | Some same =>
            let h := seccomp_filter_retain (im_heap im) (Some same) in
            match seccomp_filter_release h head with
            | Some h => import_loop al (mk_importer h (im_next im) (im_seen im)) (Some same) rest
            | None => None
            end
        | None =>
            if negb (al_filter (al (length progs))) then fail else
            let a := im_next im in
            let h := <[a := mk_filter 1 head (p_log p) (p_insns p)]> (im_heap im) in
            import_loop al (import_remember (al_insns (al (length progs))) (mk_importer h (S a) (im_seen im)) a) (Some a) rest
        end
  end.

Definition seccomp_ckpt_import (al : nat -> allocs) (im : importer) (progs : list ckpt_prog) : option (importer * option nat) :=
  import_loop al im None progs.

Fixpoint release_all (h : heap) (l : list nat) : option heap :=
  match l with
  | [] => Some h
  | a :: l => match seccomp_filter_release h (Some a) with Some h => release_all h l | None => None end
  end.

Definition seccomp_ckpt_import_done (im : importer) : option importer :=
  match release_all (im_heap im) (im_seen im) with
  | Some h => Some (mk_importer h (im_next im) [])
  | None => None
  end.

(** ** The most restrictive filter decides *)

Lemma run_filters_loop_spec chain data ret mtch r m :
  run_filters_loop chain data ret mtch = Some (r, m) ->
  action_rank r <= action_rank ret /\
  (forall a f, (a, f) ∈ chain -> exists v, bpf_run (f_insns f) data = Some v /\ action_rank r <= action_rank v) /\
  ((r = ret /\ m = mtch) \/ exists a f, (a, f) ∈ chain /\ m = Some f /\ bpf_run (f_insns f) data = Some r).
Proof.
  revert ret mtch. induction chain as [| [a0 f0] chain IH]; intros ret mtch Hr; simpl in Hr.
  - simplify_eq. split; [lia |]. split; [by intros ? ? ?%elem_of_nil | by left].
  - destruct (bpf_run (f_insns f0) data) as [cur |] eqn:Ecur; [| done].
    destruct (Z.ltb_spec (action_rank cur) (action_rank ret)) as [Hlt | Hge];
      apply IH in Hr as (Hle & Hall & Hwho); (split; [lia |]); split.
    1,3: intros a f [[= -> ->] | Hin]%elem_of_cons; [exists cur; split; [done | lia] | by eapply Hall].
    all: destruct Hwho as [[-> ->] | (a & f & Hin & -> & Hf)];
      [| right; exists a, f; split; [by constructor 2 | done]].
    + right. exists a0, f0. split; [by constructor | done].
    + by left.
Qed.

Lemma run_filters_loop_total chain data ret mtch :
  (forall a f, (a, f) ∈ chain -> checked (f_insns f)) -> length data = 16%nat ->
  exists r m, run_filters_loop chain data ret mtch = Some (r, m).
Proof.
  intros Hc Hd. revert ret mtch. induction chain as [| [a f] chain IH]; intros ret mtch; simpl; [eauto |].
  destruct (bpf_run_from_total (f_insns f) data (length (f_insns f)) (bpf_init (replicate 16 0))) as [v Hv];
    [by eapply (Hc a); constructor | done | done | done | |simpl; lia |].
  { destruct (Hc a f) as [Hl _ _]; [by constructor |]. simpl. lia. }
  unfold bpf_run. rewrite Hv.
  destruct (action_rank v <? action_rank ret); apply IH; intros b g Hin; eapply Hc; by constructor 2.
Qed.

(** ** Reference counts *)

Section Counting.

(** References to [a]: from the given roots, and from filters' [prev]. *)
Definition nroots (roots : list nat) (a : nat) : Z := Z.of_nat (length (filter (fun x => x = a) roots)).
Definition nprev (h : heap) (a : nat) : Z := Z.of_nat (size (filter (fun p => f_prev (snd p) = Some a) h)).

(** Every live filter is referenced exactly as often as its count says, and at
    least once; every pointer leads to a live, older filter. *)
Record heap_inv (h : heap) (roots : list nat) : Prop := mk_heap_inv {
  hi_count : forall a f, h !! a = Some f -> f_refcount f = nroots roots a + nprev h a /\ 0 < f_refcount f;
  hi_prev : forall a f b, h !! a = Some f -> f_prev f = Some b -> (b < a)%nat /\ is_Some (h !! b);
  hi_root : forall a, a ∈ roots -> is_Some (h !! a) }.

(** Counts cannot wrap while there are fewer references than 2^32. *)
Definition fits (h : heap) (roots : list nat) (n : Z) : Prop :=
  Z.of_nat (length roots) + Z.of_nat (size h) <= n /\ n < 2 ^ 32.

Definition ind (P : Prop) `{Decision P} : Z := if decide P then 1 else 0.

Lemma nroots_cons x roots a : nroots (x :: roots) a = ind (x = a) + nroots roots a.
Proof. unfold nroots, ind. rewrite filter_cons. case_decide; simpl; lia. Qed.

Lemma nroots_bound roots a : 0 <= nroots roots a <= Z.of_nat (length roots).
Proof. unfold nroots. pose proof (length_filter (fun x => x = a) roots). lia. Qed.

#[export] Instance nroots_perm : Proper (Permutation ==> eq ==> eq) nroots.
Proof. intros r r' Hp a ? <-. unfold nroots. by rewrite Hp. Qed.

Lemma nprev_insert h a f b :
  h !! a = None -> nprev (<[a := f]> h) b = ind (f_prev f = Some b) + nprev h b.
Proof.
  intros Hn. unfold nprev, ind. rewrite map_filter_insert. simpl. case_decide.
  - rewrite map_size_insert_None; [lia |]. apply map_lookup_filter_None. by left.
  - rewrite delete_id by done. lia.
Qed.

Lemma nprev_delete h a f b :
  h !! a = Some f -> nprev h b = ind (f_prev f = Some b) + nprev (delete a h) b.
Proof.
  intros Ha. rewrite <- (insert_delete_id h a f) at 1 by done.
  apply nprev_insert, lookup_delete_eq.
Qed.

Lemma nprev_update h a f g b :
  h !! a = Some f -> f_prev g = f_prev f -> nprev (<[a := g]> h) b = nprev h b.
Proof.
  intros Ha Hp. rewrite (nprev_delete h a f b Ha). rewrite <- insert_delete_eq.
  rewrite nprev_insert by apply lookup_delete_eq. by rewrite Hp.
Qed.

Lemma nprev_bound h a : 0 <= nprev h a <= Z.of_nat (size h).
Proof.
  unfold nprev. split; [lia |]. apply inj_le. rewrite <- !size_dom.
  apply subseteq_size, dom_filter_subseteq.
Qed.

Lemma nprev_pos h a : 0 < nprev h a -> exists b f, h !! b = Some f /\ f_prev f = Some a.
Proof.
  intros Hp. destruct (map_choose (filter (fun p => f_prev (snd p) = Some a) h)) as (b & f & Hb).
  - intros E. unfold nprev in Hp. rewrite E, map_size_empty in Hp. lia.
  - apply map_lookup_filter_Some in Hb as [Hb Hf]. eauto.
Qed.

Lemma nprev_fresh h a : (forall b f, h !! b = Some f -> f_prev f <> Some a) -> nprev h a = 0.
Proof.
  intros Hf. pose proof (nprev_bound h a). destruct (decide (nprev h a = 0)) as [| Hne]; [done |].
  destruct (nprev_pos h a) as (b & f & Hb & Hp); [lia |]. by apply Hf in Hb.
Qed.

Lemma nroots_pos roots a : a ∈ roots -> 0 < nroots roots a.
Proof.
  induction roots as [| b roots IH]; [by intros ?%elem_of_nil |].
  rewrite nroots_cons. unfold ind. pose proof (nroots_bound roots a).
  intros [-> | Hin]%elem_of_cons; [rewrite decide_True by done; lia |]. specialize (IH Hin). case_decide; lia.
Qed.

Lemma heap_inv_perm h roots roots' : Permutation roots roots' -> heap_inv h roots -> heap_inv h roots'.
Proof.
  intros Hp [Hc Hpv Hr]. split; [| done |].
  - intros a f Ha. rewrite <- Hp. auto.
  - intros a Ha. rewrite <- Hp in Ha. auto.
Qed.

#[export] Instance heap_inv_proper h : Proper (Permutation ==> iff) (heap_inv h).
Proof. intros r r' Hp. split; apply heap_inv_perm; by symmetry in Hp || done. Qed.

(** Changing a filter's count leaves every pointer valid. *)
Lemma prev_update (h : heap) a f g :
  h !! a = Some f -> f_prev g = f_prev f ->
  (forall b k c, h !! b = Some k -> f_prev k = Some c -> (c < b)%nat /\ is_Some (h !! c)) ->
  forall b k c, <[a := g]> h !! b = Some k -> f_prev k = Some c -> (c < b)%nat /\ is_Some (<[a := g]> h !! c).
Proof.
  intros Ha Hg Hp b k c Hb Hk. rewrite lookup_insert in Hb.
  assert (exists k', h !! b = Some k' /\ f_prev k' = Some c) as (k' & Hb' & Hk').
  { case_decide; [subst b; simplify_eq; exists f; split; [done | congruence] | eauto]. }
  destruct (Hp b k' c Hb' Hk') as [Hlt Hs]. split; [done |].
  rewrite lookup_insert. destruct (decide (a = c)); eauto.
Qed.

Lemma heap_inv_retain h roots a n :
  heap_inv h roots -> fits h (a :: roots) n -> is_Some (h !! a) ->
  heap_inv (seccomp_filter_retain h (Some a)) (a :: roots) /\
  size (seccomp_filter_retain h (Some a)) = size h.
Proof.
  intros [Hc Hp Hr] [Hf Hn] [f Ha]. simpl in *. destruct (Hc a f Ha) as [Hcnt Hpos].
  pose proof (nroots_bound roots a). pose proof (nprev_bound h a).
  assert (alter (fun g => set_refcount (u32 (f_refcount g + 1)) g) a h =
          <[a := set_refcount (f_refcount f + 1) f]> h) as ->.
  { apply map_eq. intros i. rewrite lookup_alter, lookup_insert. case_decide; [subst i | done].
    rewrite Ha. simpl. unfold u32. rewrite wrap_small by (unfold in_u; lia). done. }
  split; [split |].
  - intros b g. rewrite nroots_cons, (nprev_update h a f) by done. unfold ind.
    rewrite lookup_insert. case_decide; [subst b; intros [= <-]; simpl; rewrite ?decide_True by done; lia |].
    intros Hb. destruct (Hc b g Hb). lia.
  - by apply (prev_update h a f).
  - intros b [-> | Hb]%elem_of_cons; rewrite lookup_insert; case_decide; eauto.
  - rewrite map_size_insert, Ha. done.
Qed.

(** [h'] is [h] with some filters gone and counts changed. *)
Definition shape (f : seccomp_filter) : option nat * bool * list sock_filter := (f_prev f, f_log f, f_insns f).
Definition heap_le (h' h : heap) : Prop :=
  forall a f', h' !! a = Some f' -> exists f, h !! a = Some f /\ shape f' = shape f.

Lemma heap_le_refl h : heap_le h h.
Proof. intros a f Ha. eauto. Qed.

Lemma heap_le_trans h1 h2 h3 : heap_le h1 h2 -> heap_le h2 h3 -> heap_le h1 h3.
Proof.
  intros H12 H23 a f Ha. destruct (H12 a f Ha) as (g & Hg & E). destruct (H23 a g Hg) as (k & Hk & E').
  exists k. split; [done | congruence].
Qed.

Lemma heap_le_delete h a : heap_le (delete a h) h.
Proof. intros b f Hb. apply lookup_delete_Some in Hb as [_ Hb]. eauto. Qed.

Lemma heap_le_update h a f r : h !! a = Some f -> heap_le (<[a := set_refcount r f]> h) h.
Proof.
  intros Ha b g Hb. rewrite lookup_insert in Hb. case_decide; [subst b; simplify_eq; eauto | eauto].
Qed.

Lemma heap_le_retain h o : heap_le (seccomp_filter_retain h o) h.
Proof.
  destruct o as [a |]; [| apply heap_le_refl]. simpl. intros b f Hb. rewrite lookup_alter in Hb.
  case_decide; [subst b | eauto]. destruct (h !! a) as [g |]; simplify_eq/=. eauto.
Qed.

(** Dropping the last reference: [a] goes, and its own reference to its
    predecessor becomes a root. *)
Lemma heap_inv_drop h roots a f :
  heap_inv h (a :: roots) -> h !! a = Some f -> f_refcount f = 1 ->
  heap_inv (delete a h) (option_list (f_prev f) ++ roots).
Proof.
  intros [Hc Hp Hr] Ha Hone. destruct (Hc a f Ha) as [Hcnt _].
  rewrite nroots_cons in Hcnt. unfold ind in Hcnt. rewrite decide_True in Hcnt by done.
  pose proof (nroots_bound roots a). pose proof (nprev_bound h a).
  assert (a ∉ roots) as Hnin.
  { intros Hin%nroots_pos. lia. }
  assert (forall b g, h !! b = Some g -> f_prev g <> Some a) as Hnop.
  { intros b g Hb Hg. pose proof (nprev_delete h b g a Hb) as Hd. unfold ind in Hd.
    rewrite decide_True in Hd by done. pose proof (nprev_bound (delete b h) a). lia. }
  split.
  - intros b g Hb. apply lookup_delete_Some in Hb as [Hne Hb].
    destruct (Hc b g Hb) as [Hcb Hpb]. split; [| done].
    rewrite nroots_cons, (nprev_delete h a f b Ha) in Hcb. unfold ind in Hcb at 1.
    rewrite decide_False in Hcb by done.
    destruct (f_prev f) as [p |]; simpl; [rewrite nroots_cons |]; unfold ind in *;
      repeat case_decide; simplify_eq; try lia; congruence.
  - intros b g c Hb Hg. apply lookup_delete_Some in Hb as [Hne Hb].
    destruct (Hp b g c Hb Hg) as [Hlt Hs]. split; [done |].
    rewrite lookup_delete_ne; [done |]. intros ->. by apply (Hnop b g).
  - intros b Hb. apply elem_of_app in Hb as [Hb | Hb].
    + destruct (f_prev f) as [p |] eqn:Ep; [| by apply elem_of_nil in Hb].
      apply list_elem_of_singleton in Hb as ->. destruct (Hp a f p Ha Ep) as [Hlt Hs].
      rewrite lookup_delete_ne by lia. done.
    + rewrite lookup_delete_ne by (intros ->; done). apply Hr. by constructor 2.
Qed.

Lemma heap_inv_decr h roots a f n :
  heap_inv h (a :: roots) -> fits h (a :: roots) n -> h !! a = Some f -> f_refcount f <> 1 ->
  heap_inv (<[a := set_refcount (u32 (f_refcount f - 1)) f]> h) roots.
Proof.
  intros [Hc Hp Hr] [Hf Hn] Ha Hone. destruct (Hc a f Ha) as [Hcnt Hpos].
  pose proof (nroots_bound (a :: roots) a). pose proof (nprev_bound h a). simpl in *.
  unfold u32. rewrite wrap_small by (unfold in_u; lia). split.
  - intros b g. rewrite (nprev_update h a f) by done. rewrite lookup_insert.
    case_decide as Hd; intros Hb; [subst b; simplify_eq; simpl |].
    + rewrite nroots_cons in Hcnt. unfold ind in Hcnt. rewrite decide_True in Hcnt by done. lia.
    + destruct (Hc b g Hb) as [Hcb Hpb]. rewrite nroots_cons in Hcb. unfold ind in Hcb.
      rewrite decide_False in Hcb by done. lia.
  - by apply (prev_update h a f).
  - intros b Hb. rewrite lookup_insert. case_decide; [eauto |]. apply Hr. by constructor 2.
Qed.

(** Releasing a reference that is held never touches a freed filter. *)
Lemma release_loop_inv fuel h roots o n :
  heap_inv h (option_list o ++ roots) -> fits h (option_list o ++ roots) n ->
  (forall a, o = Some a -> (a < fuel)%nat) ->
  exists h', release_loop fuel h o = Some h' /\ heap_inv h' roots /\ heap_le h' h /\ (size h' <= size h)%nat.
Proof.
  revert h o. induction fuel as [| fuel IH]; intros h [a |] Hinv Hfit Hfuel; simpl in *;
    try (by eauto using heap_le_refl); specialize (Hfuel a eq_refl); [lia |].
  destruct (hi_root _ _ Hinv a) as [f Ha]; [by constructor |]. rewrite Ha.
  destruct (Z.eqb_spec (f_refcount f) 1) as [Hone | Hone].
  - pose proof (heap_inv_drop h roots a f Hinv Ha Hone) as Hinv'.
    assert (S (size (delete a h)) = size h) as Hsz.
    { rewrite map_size_delete, Ha. simpl. enough (size h <> 0)%nat by lia.
      intros E. apply map_size_empty_inv in E. by rewrite E, lookup_empty in Ha. }
    destruct (IH (delete a h) (f_prev f)) as (h' & Hrel & Hi & Hle & Hs); [done | | |].
    + destruct Hfit as [Hf Hn]. split; [| done]. rewrite length_app.
      simpl in Hf. destruct (f_prev f); simpl; lia.
    + intros p Ep. destruct (hi_prev _ _ Hinv a f p Ha Ep). lia.
    + exists h'. split; [done |]. split; [done |].
      split; [eauto using heap_le_trans, heap_le_delete | lia].
  - eexists. split; [done |]. split; [by eapply heap_inv_decr |].
    split; [by apply heap_le_update |]. by rewrite map_size_insert, Ha.
Qed.

Lemma release_inv h roots o n :
  heap_inv h (option_list o ++ roots) -> fits h (option_list o ++ roots) n ->
  exists h', seccomp_filter_release h o = Some h' /\ heap_inv h' roots /\ heap_le h' h /\ (size h' <= size h)%nat.
Proof. intros. apply (release_loop_inv _ h roots o n); auto. intros a ->. simpl. lia. Qed.

End Counting.

(** ** Chains *)

Lemma walk_loop_mono n k h o l : walk_loop n h o = Some l -> (n <= k)%nat -> walk_loop k h o = Some l.
Proof.
  revert k o l. induction n as [| n IH]; intros k o l Hw Hk; destruct o as [a |]; destruct k as [| k];
    simpl in *; try done; try lia.
  destruct (h !! a) as [f |]; [| done].
  destruct (walk_loop n h (f_prev f)) as [rest |] eqn:E; [| done].
  by rewrite (IH k _ rest) by (done || lia).
Qed.

Lemma walk_none h : walk h None = Some [].
Proof. done. Qed.

Lemma walk_some h a f l :
  h !! a = Some f -> (forall b, f_prev f = Some b -> (b < a)%nat) -> walk h (f_prev f) = Some l ->
  walk h (Some a) = Some ((a, f) :: l).
Proof.
  intros Ha Hlt Hl. unfold walk in *. simpl. rewrite Ha.
  destruct (f_prev f) as [b |] eqn:Eb.
  - rewrite (walk_loop_mono _ a _ _ _ Hl); [done |]. specialize (Hlt b eq_refl). simpl. lia.
  - simpl in Hl. simplify_eq. by destruct a.
Qed.

(** A pointer into a heap whose pointers all lead to older live filters. *)
Definition closed (h : heap) : Prop :=
  forall a f b, h !! a = Some f -> f_prev f = Some b -> (b < a)%nat /\ is_Some (h !! b).
Definition live (h : heap) (o : option nat) : Prop := forall a, o = Some a -> is_Some (h !! a).

Lemma walk_total h o : closed h -> live h o -> exists l, walk h o = Some l.
Proof.
  intros Hc Ho. destruct o as [a |]; [| by exists []].
  induction (lt_wf a) as [a _ IH]. destruct (Ho a eq_refl) as [f Ha].
  assert (exists l, walk h (f_prev f) = Some l) as [l Hl].
  { destruct (f_prev f) as [b |] eqn:Eb; [| by exists []].
    destruct (Hc a f b Ha Eb). apply IH; [done |]. by intros c [= <-]. }
  exists ((a, f) :: l). apply walk_some; [done | | done]. intros b Eb. by destruct (Hc a f b Ha Eb).
Qed.

Lemma walk_inv h a l : closed h -> walk h (Some a) = Some l ->
  exists f l', h !! a = Some f /\ l = (a, f) :: l' /\ walk h (f_prev f) = Some l'.
Proof.
  intros Hc Hw. pose proof Hw as Hw'. unfold walk in Hw'. simpl in Hw'.
  destruct (h !! a) as [f |] eqn:Ha; [| done].
  destruct (walk_total h (f_prev f)) as [l' Hl'].
  { done. }
  { intros b Eb. by destruct (Hc a f b Ha Eb). }
  exists f, l'. split; [done |]. split; [| done].
  rewrite (walk_some h a f l') in Hw; [by simplify_eq | done | | done].
  intros b Eb. by destruct (Hc a f b Ha Eb).
Qed.

(** The programs of a chain, with their addresses; counts left out. *)
Definition progs (l : list (nat * seccomp_filter)) : list (nat * (option nat * bool * list sock_filter)) :=
  map (fun af => (fst af, shape (snd af))) l.

Lemma walk_heap_le h' h o l :
  closed h' -> closed h -> heap_le h' h -> walk h' o = Some l ->
  exists k, walk h o = Some k /\ progs k = progs l.
Proof.
  intros Hc' Hc Hle. destruct o as [a |]; [| intros [= <-]; by exists []]. revert l.
  induction (lt_wf a) as [a _ IH]; intros l Hw.
  destruct (walk_inv h' a l Hc' Hw) as (f' & l' & Ha' & -> & Hl').
  destruct (Hle a f' Ha') as (f & Ha & Hs).
  assert (f_prev f = f_prev f') as Ep by (unfold shape in Hs; congruence).
  assert (exists k, walk h (f_prev f) = Some k /\ progs k = progs l') as (k & Hk & Hpk).
  { rewrite Ep. destruct (f_prev f') as [b |] eqn:Eb; [| rewrite walk_none in Hl'; simplify_eq; by exists []].
    apply IH; [by destruct (Hc' a f' b Ha' Eb) | done]. }
  exists ((a, f) :: k). split.
  - apply walk_some; [done | | done]. intros b Eb. by destruct (Hc a f b Ha Eb).
  - simpl. by rewrite Hs, Hpk.
Qed.

(** A filter of a chain starts a tail of it. *)
Lemma walk_suffix h o l a f :
  closed h -> walk h o = Some l -> (a, f) ∈ l -> exists pre suf, l = pre ++ suf /\ walk h (Some a) = Some suf.
Proof.
  intros Hc. destruct o as [b |]; [| intros [= <-] []%elem_of_nil]. revert l.
  induction (lt_wf b) as [b _ IH]; intros l Hw Hin.
  destruct (walk_inv h b l Hc Hw) as (g & l' & Hb & -> & Hl').
  apply elem_of_cons in Hin as [[= -> ->] | Hin].
  - exists [], ((b, g) :: l'). by rewrite Hw.
  - destruct (f_prev g) as [c |] eqn:Ec; [| rewrite walk_none in Hl'; simplify_eq; by apply elem_of_nil in Hin].
    destruct (IH c) with (l := l') as (pre & suf & -> & Hs); [by destruct (Hc b g c Hb Ec) | done | done |].
    by exists ((b, g) :: pre), suf.
Qed.

Lemma is_ancestor_suffix h parent child l :
  closed h -> walk h child = Some l -> is_ancestor h parent child = Some true ->
  exists pre suf, l = pre ++ suf /\ walk h parent = Some suf.
Proof.
  intros Hc Hl. unfold is_ancestor. destruct parent as [p |].
  - rewrite Hl. intros [= He]. apply existsb_exists in He as ([a f] & Hin & Ea).
    apply list_elem_of_In in Hin. apply Nat.eqb_eq in Ea. simpl in Ea. subst a. eapply walk_suffix; eauto.
  - intros _. exists l, []. by rewrite app_nil_r.
Qed.

(** ** The invariant of the world *)

Definition roots (w : world) : list nat := omap t_filter (w_threads w) ++ w_others w.

(** A thread's mode and filter go together. *)
Definition mode_ok (t : stask) : Prop :=
  (t_mode t = SECCOMP_MODE_FILTER_ -> is_Some (t_filter t)) /\
  (t_mode t = SECCOMP_MODE_DISABLED_ -> t_filter t = None) /\
  (t_mode t = SECCOMP_MODE_STRICT_ -> t_filter t = None).

Record world_inv (w : world) : Prop := mk_world_inv {
  wi_heap : heap_inv (w_heap w) (roots w);
  wi_next : forall a f, w_heap w !! a = Some f -> (a < w_next w)%nat;
  wi_cur : (w_cur w < length (w_threads w))%nat;
  wi_mode : Forall mode_ok (w_threads w);
  wi_pid : Forall (fun t => t_pid t <> 0) (w_threads w);
  wi_checked : forall a f, w_heap w !! a = Some f -> checked (f_insns f) }.

(** Room for the references one installation may add. *)
Definition world_room (w : world) : Prop :=
  Z.of_nat (length (w_threads w)) + Z.of_nat (length (w_others w)) + Z.of_nat (size (w_heap w)) + 3 < 2 ^ 32.

Lemma heap_inv_closed h r : heap_inv h r -> closed h.
Proof. intros [_ Hp _]. exact Hp. Qed.

(** A new filter with one reference, which it has taken over from [f_prev]. *)
Lemma heap_inv_new h r a log insns o :
  heap_inv h (option_list o ++ r) -> (forall b g, h !! b = Some g -> (b < a)%nat) ->
  heap_inv (<[a := mk_filter 1 o log insns]> h) (a :: r).
Proof.
  intros [Hc Hp Hr] Hfresh.
  assert (h !! a = None) as Ha.
  { destruct (h !! a) as [g |] eqn:E; [| done]. apply Hfresh in E. lia. }
  assert (nprev h a = 0) as Hn.
  { apply nprev_fresh. intros b g Hb Hg. destruct (Hp b g a Hb Hg) as [_ [k Hk]]. congruence. }
  assert (forall x, x ∈ option_list o ++ r -> x <> a) as Hne.
  { intros x Hx ->. destruct (Hr a Hx) as [k Hk]. congruence. }
  assert (nroots r a = 0) as Hra.
  { pose proof (nroots_bound r a). destruct (decide (nroots r a = 0)) as [| Hnz]; [done |].
    exfalso. unfold nroots in Hnz. destruct (filter (fun x => x = a) r) as [| x k] eqn:E; [done |].
    assert (x ∈ filter (fun x => x = a) r) as Hx by (rewrite E; constructor).
    apply list_elem_of_filter in Hx as [-> Hx]. apply (Hne a); [| done]. apply elem_of_app. by right. }
  split.
  - intros b g Hb. rewrite nroots_cons, nprev_insert by done. rewrite lookup_insert in Hb. unfold ind. simpl.
    case_decide as Hd; [subst b; simplify_eq; simpl |].
    + rewrite Hra, Hn. repeat case_decide; simplify_eq; try lia.
      exfalso. apply (Hne a); [apply elem_of_app; left; by constructor | done].
    + destruct (Hc b g Hb) as [Hcb Hpb]. split; [| done].
      destruct o as [p |]; simpl in Hcb; [rewrite nroots_cons in Hcb; unfold ind in Hcb |];
        repeat case_decide; simplify_eq; lia.
  - intros b g c Hb Hg. rewrite lookup_insert in Hb. rewrite lookup_insert_ne.
    + case_decide as Hd; [subst b; simplify_eq; simpl in Hg |].
      * assert (is_Some (h !! c)) as [k Hk] by (apply Hr; subst o; simpl; constructor).
        split; [by eapply Hfresh | by eexists].
      * eauto.
    + intros ->. case_decide as Hd; [subst b; simplify_eq; simpl in Hg |].
      * subst o. apply (Hne c); [simpl; constructor | done].
      * destruct (Hp b g c Hb Hg) as [_ [k Hk]]. congruence.
  - intros b [-> | Hb]%elem_of_cons; [rewrite lookup_insert_eq; by eexists |].
    rewrite lookup_insert_ne; [apply Hr; apply elem_of_app; by right |].
    intros ->. apply (Hne b); [apply elem_of_app; by right | done].
Qed.

(** ** TSYNC *)

Lemma omap_cons_list (t : stask) ts : omap t_filter (t :: ts) = option_list (t_filter t) ++ omap t_filter ts.
Proof. simpl. by destruct (t_filter t). Qed.

Lemma omap_length (ts : list stask) : (length (omap t_filter ts) <= length ts)%nat.
Proof.
  induction ts as [| t ts IH]; [done |]. rewrite omap_cons_list, length_app.
  destruct (t_filter t); simpl in *; lia.
Qed.

(** What TSYNC makes of another thread. *)
Definition tsync_thread (head : option nat) (nnp : bool) (t : stask) : stask :=
  set_mode SECCOMP_MODE_FILTER_ (if nnp then set_nnp true (set_filter head t) else set_filter head t).

Definition tsync_threads (cur : nat) (head : option nat) (nnp : bool) (i : nat) (ts : list stask) : list stask :=
  imap (fun j t => if Nat.eqb (i + j) cur || t_exiting t then t else tsync_thread head nnp t) ts.

Lemma tsync_threads_cons cur head nnp i t ts :
  tsync_threads cur head nnp i (t :: ts) =
  (if Nat.eqb i cur || t_exiting t then t else tsync_thread head nnp t) :: tsync_threads cur head nnp (S i) ts.
Proof.
  unfold tsync_threads. rewrite imap_cons, Nat.add_0_r. f_equal. apply imap_ext. intros j x _.
  simpl. by rewrite Nat.add_succ_r.
Qed.

Lemma tsync_thread_filter head nnp t : t_filter (tsync_thread head nnp t) = head.
Proof. unfold tsync_thread. by destruct nnp. Qed.

Lemma tsync_assign_inv h cur a nnp i ts R n :
  heap_inv h (omap t_filter ts ++ R) -> a ∈ omap t_filter ts ++ R ->
  Z.of_nat (length ts) + Z.of_nat (length R) + Z.of_nat (size h) + 1 <= n -> n < 2 ^ 32 ->
  exists h', tsync_assign h cur (Some a) nnp i ts = Some (h', tsync_threads cur (Some a) nnp i ts) /\
    heap_inv h' (omap t_filter (tsync_threads cur (Some a) nnp i ts) ++ R) /\
    heap_le h' h /\ (size h' <= size h)%nat.
Proof.
  revert h i R. induction ts as [| t ts IH]; intros h i R Hinv Hin Hn Hmax.
  { exists h. split; [done |]. split; [done |]. split; [apply heap_le_refl | lia]. }
  rewrite tsync_threads_cons. cbn [tsync_assign].
  rewrite omap_cons_list, <- app_assoc in Hinv, Hin. simpl in Hn.
  assert (length (option_list (t_filter t)) <= 1)%nat as Hol by (destruct (t_filter t); simpl; lia).
  assert (length (omap t_filter ts) <= length ts)%nat as Hom by apply omap_length.
  destruct (Nat.eqb i cur || t_exiting t).
  - assert (Permutation (option_list (t_filter t) ++ omap t_filter ts ++ R)
                        (omap t_filter ts ++ option_list (t_filter t) ++ R)) as Hp
      by (rewrite !(app_assoc _ _ R); f_equiv; apply Permutation_app_comm).
    destruct (IH h (S i) (option_list (t_filter t) ++ R)) as (h' & -> & Hi & Hle & Hs);
      [by rewrite <- Hp | by rewrite <- Hp | rewrite length_app; lia | done |].
    exists h'. split; [done |]. split; [| done].
    rewrite omap_cons_list, <- app_assoc. eapply heap_inv_perm; [| exact Hi].
    rewrite !(app_assoc _ _ R). f_equiv. apply Permutation_app_comm.
  - destruct (heap_inv_retain h (option_list (t_filter t) ++ omap t_filter ts ++ R) a n) as [Hr Hsz];
      [done | split; [| done]; simpl; rewrite !length_app; lia | by apply (hi_root _ _ Hinv) |].
    destruct (release_inv (seccomp_filter_retain h (Some a)) (a :: omap t_filter ts ++ R) (t_filter t) n)
      as (h2 & -> & H2 & Hle2 & Hs2).
    { eapply heap_inv_perm; [| exact Hr]. apply Permutation_middle. }
    { split; [| done]. rewrite Hsz, length_app. simpl. rewrite length_app. lia. }
    destruct (IH h2 (S i) (a :: R)) as (h' & -> & Hi & Hle & Hs);
      [by rewrite <- Permutation_middle | apply elem_of_app; right; constructor | simpl; lia | done |].
    exists h'. split; [done |]. split; [| split; [| lia]].
    + rewrite omap_cons_list, tsync_thread_filter. simpl.
      eapply heap_inv_perm; [| exact Hi]. symmetry. apply Permutation_middle.
    + eapply heap_le_trans; [exact Hle |]. eapply heap_le_trans; [exact Hle2 |]. apply heap_le_retain.
Qed.

(** No blocker: every other live thread is unfiltered or runs part of the
    caller's chain. *)
Definition unblocked (h : heap) (head : option nat) (t : stask) : Prop :=
  t_mode t = SECCOMP_MODE_DISABLED_ \/
  (t_mode t = SECCOMP_MODE_FILTER_ /\ is_ancestor h (t_filter t) head = Some true).

Lemma tsync_blocker_spec h cur head i ts :
  closed h -> live h head -> Forall (fun t => t_pid t <> 0) ts ->
  exists b, tsync_blocker h cur head i ts = Some b /\
    (b = 0 -> forall j t, ts !! j = Some t -> (i + j)%nat <> cur -> t_exiting t = false -> unblocked h head t).
Proof.
  intros Hc Hl. revert i. induction ts as [| t ts IH]; intros i Hpid; [by exists 0 |].
  inversion_clear Hpid as [| ? ? Hp Hps]. destruct (IH (S i) Hps) as (b & Hb & Hall).
  assert ((i <> cur -> t_exiting t = false -> unblocked h head t) ->
    b = 0 -> forall j u, (t :: ts) !! j = Some u -> (i + j)%nat <> cur -> t_exiting u = false -> unblocked h head u) as Hcons.
  { intros Ht Hb0 [| j] u Hu Hj Hx; simplify_eq/=; [rewrite Nat.add_0_r in Hj; auto |].
    apply (Hall eq_refl j); auto. lia. }
  simpl. destruct (Nat.eqb_spec i cur) as [-> | Hne]; simpl; [exists b; split; [done |]; apply Hcons; done |].
  destruct (t_exiting t) eqn:Ex; [exists b; split; [done |]; apply Hcons; done |].
  destruct (Z.eqb_spec (t_mode t) SECCOMP_MODE_DISABLED_) as [Hd | Hd];
    [exists b; split; [done |]; apply Hcons; by left |].
  destruct (Z.eqb_spec (t_mode t) SECCOMP_MODE_FILTER_) as [Hf | Hf]; [| by exists (t_pid t)].
  destruct (is_ancestor h (t_filter t) head) as [[] |] eqn:Ea.
  - exists b. split; [done |]. apply Hcons. by right.
  - by exists (t_pid t).
  - unfold is_ancestor in Ea. destruct (walk_total h head Hc Hl) as [l Hw]. rewrite Hw in Ea. by destruct (t_filter t).
Qed.
