(* ===== verification/SeccompInstall.v ===== *)
(** * Installing seccomp filters: the theorems

    [set_mode_filter] of Seccomp.v analysed once, in [set_mode_filter_cases]:
    either it fails and changes nothing, or it installs a checked program in
    front of the caller's chain (and, under TSYNC, of every other live
    thread's).  The properties of kernel/seccomp.c that this file states follow
    from that lemma. *)

From S2P Require Import Prelude Bpf User Seccomp.

(** ** The program an installation reads *)

Lemma insn_of_bytes_wf bs : Forall (in_u 8) bs -> insn_wf (insn_of_bytes bs).
Proof.
  intros Hb. pose proof (field_bound 0 2 16 bs Hb). pose proof (field_bound 2 1 8 bs Hb).
  pose proof (field_bound 3 1 8 bs Hb). pose proof (field_bound 4 4 32 bs Hb).
  unfold insn_wf. simpl. auto with lia.
Qed.

Lemma insns_of_bytes_wf n bs : Forall (in_u 8) bs -> Forall insn_wf (insns_of_bytes n bs).
Proof.
  revert bs. induction n as [| n IH]; intros bs Hb; simpl; constructor;
    [apply insn_of_bytes_wf | apply IH]; auto using Forall_take, Forall_drop.
Qed.

Lemma insns_of_bytes_length n bs : length (insns_of_bytes n bs) = n.
Proof. revert bs. induction n as [| n IH]; intros bs; simpl; auto. Qed.

Lemma bpf_check_accepts alloc f : 0 <= bpf_check alloc f -> bpf_check true f = 0.
Proof.
  unfold bpf_check. intros H. repeat case_on_match_in H; unfold _EINVAL, _ENOMEM in H; try lia. done.
Qed.

Lemma prepare_checked `{GuestMemoryOk M} al (m : M) t uprog insns :
  gm_ok m -> 0 <= uprog -> prepare_user_filter al m t uprog = inr insns -> checked insns.
Proof.
  intros Hm Hu. unfold prepare_user_filter. intros Hp.
  destruct (if guest_abi_is_64bit (t_abi t) then _ else _) as [[len addr] |] eqn:Ef; [| done].
  assert (0 <= len /\ 0 <= addr) as [Hlen Haddr].
  { clear Hp.
    destruct (guest_abi_is_64bit (t_abi t)); case_match eqn:Er; simplify_eq/=;
      apply user_read_bytes in Er as [_ Hb]; try done; try lia;
      pose proof (field_bound 0 2 16 _ Hb ltac:(lia));
      pose proof (field_bound 8 8 64 _ Hb ltac:(lia)); pose proof (field_bound 4 4 32 _ Hb ltac:(lia));
      unfold in_u in *; lia. }
  repeat case_on_match_in Hp; try done. simplify_eq. to_prop.
  match goal with E : user_read m addr _ = Some ?bs |- _ =>
    apply user_read_bytes in E as [_ Hb]; [| done | done | lia] end.
  split; [rewrite insns_of_bytes_length; lia | by apply insns_of_bytes_wf |].
  by eapply bpf_check_accepts.
Qed.

(** Errors of [prepare_user_filter] are errno values. *)
Lemma prepare_error `{GuestMemory M} al (m : M) t uprog err :
  prepare_user_filter al m t uprog = inl err -> err < 0.
Proof.
  unfold prepare_user_filter. intros Hp.
  repeat case_on_match_in Hp; simplify_eq; to_prop;
    unfold _EFAULT, _EINVAL, _EACCES, _ENOMEM; lia.
Qed.

(** ** Heaps with one more filter *)

Lemma closed_insert h a f :
  closed h -> (forall b g, h !! b = Some g -> (b < a)%nat) -> live h (f_prev f) ->
  closed (<[a := f]> h).
Proof.
  intros Hc Hf Hl b g c Hb Hg. rewrite lookup_insert in Hb. case_decide as Hd; [subst b; simplify_eq |].
  - destruct (Hl c Hg) as [k Hk]. pose proof (Hf c k Hk). split; [done |].
    rewrite lookup_insert_ne by lia. eauto.
  - destruct (Hc b g c Hb Hg) as [Hlt [k Hk]]. split; [done |]. pose proof (Hf c k Hk).
    rewrite lookup_insert_ne by lia. eauto.
Qed.

Lemma fresh_none (h : heap) a : (forall b g, h !! b = Some g -> (b < a)%nat) -> h !! a = None.
Proof. intros Hf. destruct (h !! a) as [g |] eqn:E; [apply Hf in E; lia | done]. Qed.

Lemma walk_insert_fresh h a f o :
  closed h -> h !! a = None -> live h o -> walk (<[a := f]> h) o = walk h o.
Proof.
  intros Hc Ha. destruct o as [b |]; [| done]. induction (lt_wf b) as [b _ IH]; intros Hl.
  destruct (Hl b eq_refl) as [g Hb].
  assert (walk (<[a := f]> h) (f_prev g) = walk h (f_prev g)) as E.
  { destruct (f_prev g) as [c |] eqn:Ec; [| done].
    destruct (Hc b g c Hb Ec). apply IH; [done |]. by intros ? [= <-]. }
  destruct (walk_total h (f_prev g)) as [l Hl'];
    [done | intros c Ec; by destruct (Hc b g c Hb Ec) |].
  assert (forall c, f_prev g = Some c -> (c < b)%nat) as Hlt by (intros c Ec; by destruct (Hc b g c Hb Ec)).
  rewrite (walk_some h b g l) by done. apply walk_some; [| done | congruence].
  rewrite lookup_insert_ne; [done |]. intros ->. congruence.
Qed.

Lemma release_fresh (h : heap) a log insns :
  h !! a = None -> seccomp_filter_release (<[a := mk_filter 1 None log insns]> h) (Some a) = Some h.
Proof.
  intros Ha. unfold seccomp_filter_release. simpl. rewrite lookup_insert_eq. simpl.
  rewrite delete_insert_id by done. by destruct a.
Qed.

(** ** Chains are no longer than the heap *)

Lemma walk_nodup h o l :
  closed h -> walk h o = Some l ->
  NoDup l.*1 /\ (forall a, a ∈ l.*1 -> is_Some (h !! a) /\ exists b, o = Some b /\ (a <= b)%nat).
Proof.
  intros Hc. destruct o as [a |]; [| intros [= <-]; split; [constructor | by intros ? ?%elem_of_nil]].
  revert l. induction (lt_wf a) as [a _ IH]; intros l Hw.
  destruct (walk_inv h a l Hc Hw) as (f & l' & Ha & -> & Hl').
  assert (NoDup l'.*1 /\ forall b, b ∈ l'.*1 -> is_Some (h !! b) /\ (b < a)%nat) as [Hnd Hlt].
  { destruct (f_prev f) as [c |] eqn:Ec;
      [| rewrite walk_none in Hl'; simplify_eq; split; [constructor | by intros ? ?%elem_of_nil]].
    destruct (Hc a f c Ha Ec) as [Hca _]. destruct (IH c Hca l' Hl') as [Hnd Hin]. split; [done |].
    intros b Hb. destruct (Hin b Hb) as [Hs (d & [= <-] & Hd)]. split; [done | lia]. }
  split; simpl.
  - constructor; [| done]. intros Hin. destruct (Hlt a Hin). lia.
  - intros b [-> | Hb]%elem_of_cons; [split; [by eexists | eauto] |].
    destruct (Hlt b Hb) as [Hs Hba]. split; [done |]. exists a. split; [done | lia].
Qed.

Lemma walk_length h o l : closed h -> walk h o = Some l -> (length l <= size h)%nat.
Proof.
  intros Hc Hw. destruct (walk_nodup h o l Hc Hw) as [Hnd Hin].
  rewrite <- (length_fmap fst). rewrite <- size_dom.
  rewrite <- (size_list_to_set (C := gset nat) l.*1) by done.
  apply subseteq_size. intros a Ha. apply elem_of_list_to_set in Ha. apply elem_of_dom. by apply Hin.
Qed.

Lemma walk_lookup h o l a f : closed h -> walk h o = Some l -> (a, f) ∈ l -> h !! a = Some f.
Proof.
  intros Hc Hw Hin. destruct (walk_suffix h o l a f Hc Hw Hin) as (pre & suf & _ & Hs).
  destruct (walk_nodup h o l Hc Hw) as [Hnd _].
  revert Hw Hin. clear Hs pre suf. destruct o as [b |]; [| intros [= <-] []%elem_of_nil].
  revert l Hnd. induction (lt_wf b) as [b _ IH]; intros l Hnd Hw Hin.
  destruct (walk_inv h b l Hc Hw) as (g & l' & Hb & -> & Hl').
  apply elem_of_cons in Hin as [[= -> ->] | Hin]; [done |].
  destruct (f_prev g) as [c |] eqn:Ec; [| rewrite walk_none in Hl'; simplify_eq; by apply elem_of_nil in Hin].
  destruct (Hc b g c Hb Ec). apply (IH c) with (l := l'); auto. by inversion Hnd.
Qed.

(** Accumulated program length. *)
Lemma path_total_sum len l :
  path_total len l = len + foldr (fun af acc => f_len (snd af) + 4 + acc) 0 l.
Proof.
  unfold path_total. revert len. induction l as [| [a f] l IH]; intros len; simpl; [lia |].
  rewrite IH. simpl. lia.
Qed.

Lemma path_sum_bound (l : list (nat * seccomp_filter)) :
  (forall a f, (a, f) ∈ l -> checked (f_insns f)) ->
  0 <= foldr (fun af acc => f_len (snd af) + 4 + acc) 0 l <= 4100 * Z.of_nat (length l).
Proof.
  induction l as [| [a f] l IH]; intros Hc; [simpl; lia |].
  assert (0 <= f_len f <= 4096) as Hf.
  { assert (checked (f_insns f)) as [Hl _ _] by (apply (Hc a); constructor). unfold f_len, BPF_MAXINSNS_ in *. lia. }
  simpl in *. destruct IH; [intros; eapply Hc; by constructor 2 |]. lia.
Qed.

(** ** The two outcomes *)

(** One thread's pointer replaced. *)
Lemma omap_alter (ts : list stask) i t :
  ts !! i = Some t ->
  exists rest, omap t_filter ts ≡ₚ option_list (t_filter t) ++ rest /\
    forall g, omap t_filter (alter g i ts) ≡ₚ option_list (t_filter (g t)) ++ rest.
Proof.
  revert i. induction ts as [| u ts IH]; intros [| i] Hi; simplify_eq/=.
  - exists (omap t_filter ts). split; [by destruct (t_filter t) |]. intros g. by destruct (t_filter (g t)).
  - destruct (IH i Hi) as (rest & E & Eg). exists (option_list (t_filter u) ++ rest).
    split; [| intros g; specialize (Eg g)]; destruct (t_filter u); simpl; rewrite ?E, ?Eg, ?app_nil_r; try done;
      by rewrite Permutation_middle.
Qed.

(** The threads once filter [a] is the caller [t]'s. *)
Definition install_threads (w : world) (t : stask) (a : nat) (tsync : bool) : list stask :=
  let ts := alter (fun u => set_mode SECCOMP_MODE_FILTER_ (set_filter (Some a) u)) (w_cur w) (w_threads w) in
  if tsync then tsync_threads (w_cur w) (Some a) (t_nnp t) 0 ts else ts.

Inductive outcome (w : world) (flags : Z) : world * Z -> Prop :=
| Refused n err :
    err <> 0 -> (w_next w <= n)%nat ->
    outcome w flags (mk_world (w_heap w) n (w_threads w) (w_cur w) (w_others w), err)
| Installed t insns chain h' :
    current w = Some t -> may_assign_mode t SECCOMP_MODE_FILTER_ = true -> checked insns ->
    t_nnp t || t_cap_sys_admin t = true ->
    walk (w_heap w) (t_filter t) = Some chain ->
    path_total (Z.of_nat (length insns)) chain <= SECCOMP_MAX_PATH_INSNS_ ->
    (has_flag flags SECCOMP_FILTER_FLAG_TSYNC_ = true ->
     forall j u, w_threads w !! j = Some u -> j <> w_cur w -> t_exiting u = false ->
       unblocked (w_heap w) (t_filter t) u) ->
    let a := w_next w in
    let ts := install_threads w t a (has_flag flags SECCOMP_FILTER_FLAG_TSYNC_) in
    heap_inv h' (omap t_filter ts ++ w_others w) ->
    heap_le h' (<[a := mk_filter 1 (t_filter t) (has_flag flags SECCOMP_FILTER_FLAG_LOG_) insns]> (w_heap w)) ->
    outcome w flags (mk_world h' (S a) ts (w_cur w) (w_others w), 0).

Lemma prepare_privileged `{GuestMemory M} al (m : M) t uprog insns :
  prepare_user_filter al m t uprog = inr insns -> t_nnp t || t_cap_sys_admin t = true.
Proof.
  unfold prepare_user_filter. intros Hp.
  destruct (t_nnp t), (t_cap_sys_admin t); try done; exfalso; simpl in Hp.
  repeat case_on_match_in Hp; done.
Qed.

Lemma thread_live w j t : world_inv w -> w_threads w !! j = Some t -> live (w_heap w) (t_filter t).
Proof.
  intros Hw Ht a Ha. apply (hi_root _ _ (wi_heap w Hw)). unfold roots. apply elem_of_app. left.
  apply list_elem_of_omap. exists t. split; [| done]. by eapply list_elem_of_lookup_2.
Qed.

Lemma current_live w t : world_inv w -> current w = Some t -> live (w_heap w) (t_filter t).
Proof. apply thread_live. Qed.

(** The heap right after [f->prev = old] and the store to the caller. *)
Lemma install_heap_inv w t log insns :
  world_inv w -> current w = Some t ->
  heap_inv (<[w_next w := mk_filter 1 (t_filter t) log insns]> (w_heap w))
    (omap t_filter (install_threads w t (w_next w) false) ++ w_others w).
Proof.
  intros Hw Ht. destruct (omap_alter (w_threads w) (w_cur w) t Ht) as (rest & E & Eg).
  unfold install_threads. rewrite Eg. simpl. apply heap_inv_new; [| apply wi_next, Hw].
  rewrite app_assoc, <- E. apply wi_heap, Hw.
Qed.

Lemma path_total_small w t chain insns :
  world_inv w -> world_room w -> checked insns -> walk (w_heap w) (t_filter t) = Some chain ->
  u64 (path_total (Z.of_nat (length insns)) chain) = path_total (Z.of_nat (length insns)) chain.
Proof.
  intros Hw Hr Hck Hch. apply wrap_small. unfold in_u. rewrite path_total_sum.
  pose proof (heap_inv_closed _ _ (wi_heap w Hw)) as Hc.
  pose proof (walk_length _ _ _ Hc Hch) as Hlen. unfold world_room in Hr.
  pose proof (path_sum_bound chain) as Hb. destruct (ck_len _ Hck) as [_ Hl]. unfold BPF_MAXINSNS_ in Hl.
  destruct Hb as [Hb0 Hb1]; [| lia].
  intros a f Hin. eapply wi_checked; [done |]. by eapply walk_lookup.
Qed.

Lemma install_root w t :
  current w = Some t -> w_next w ∈ omap t_filter (install_threads w t (w_next w) false) ++ w_others w.
Proof.
  intros Ht. destruct (omap_alter (w_threads w) (w_cur w) t Ht) as (rest & _ & Eg).
  unfold install_threads. rewrite Eg. simpl. constructor.
Qed.

Lemma install_room w t log insns :
  world_inv w -> world_room w ->
  Z.of_nat (length (install_threads w t (w_next w) false)) + Z.of_nat (length (w_others w)) +
  Z.of_nat (size (<[w_next w := mk_filter 1 (t_filter t) log insns]> (w_heap w))) + 1 <= 2 ^ 32 - 1.
Proof.
  intros Hw Hr. unfold install_threads, world_room in *. rewrite length_alter.
  rewrite map_size_insert_None by apply fresh_none, wi_next, Hw. lia.
Qed.

(** A fresh filter is nobody's ancestor. *)
Lemma unblocked_fresh h a f head u :
  closed h -> h !! a = None -> live h head -> unblocked (<[a := f]> h) head u -> unblocked h head u.
Proof.
  intros Hc Ha Hl [Hd | [Hm Hanc]]; [by left | right]. split; [done |].
  unfold is_ancestor in *. by rewrite walk_insert_fresh in Hanc.
Qed.

Lemma set_mode_filter_cases `{GuestMemoryOk M} al (m : M) w flags uprog :
  world_inv w -> world_room w -> gm_ok m -> 0 <= uprog ->
  exists r, set_mode_filter al m w flags uprog = Some r /\ outcome w flags r.
Proof.
  intros Hw Hroom Hm Hu. destruct (lookup_lt_is_Some_2 _ _ (wi_cur w Hw)) as [t Ht].
  unfold set_mode_filter. unfold current at 1. rewrite Ht.
  assert (forall err, err <> 0 -> outcome w flags (w, err)) as Hrefuse.
  { intros err He. destruct w as [h n ts c o]. by apply (Refused (mk_world h n ts c o) flags n). }
  destruct (negb _); [exists (w, _EINVAL); split; [done | by apply Hrefuse] |].
  destruct (prepare_user_filter al m t uprog) as [err | insns] eqn:Ep.
  { exists (w, err). split; [done |]. apply Hrefuse. apply prepare_error in Ep. lia. }
  pose proof (prepare_checked al m t uprog insns Hm Hu Ep) as Hck.
  pose proof (heap_inv_closed _ _ (wi_heap w Hw)) as Hc.
  pose proof (fresh_none _ _ (wi_next w Hw)) as Hfresh.
  pose proof (current_live w t Hw Ht) as Hlive.
  cbn [w_heap]. unfold filter_new. rewrite release_fresh by done.
  assert (forall err, err <> 0 -> exists r, Some (with_heap (mk_world
            (<[w_next w := mk_filter 1 None (has_flag flags SECCOMP_FILTER_FLAG_LOG_) insns]> (w_heap w))
            (S (w_next w)) (w_threads w) (w_cur w) (w_others w)) (w_heap w), err) = Some r /\ outcome w flags r) as Hout.
  { intros err He. eexists. split; [done |]. unfold with_heap. cbn. apply Refused; [done | lia]. }
  destruct (may_assign_mode t SECCOMP_MODE_FILTER_) eqn:Emay; [| by apply Hout]. cbn [negb].
  rewrite walk_insert_fresh by done.
  destruct (walk_total (w_heap w) (t_filter t) Hc Hlive) as [chain Hch]. rewrite Hch.
  rewrite (path_total_small w t chain insns) by done.
  destruct (Z.gtb_spec (path_total (Z.of_nat (length insns)) chain) SECCOMP_MAX_PATH_INSNS_) as [Hgt | Hle];
    [by apply Hout |].
  pose proof (install_heap_inv w t (has_flag flags SECCOMP_FILTER_FLAG_LOG_) insns Hw Ht) as Hheap.
  rewrite insert_insert_eq.
  destruct (has_flag flags SECCOMP_FILTER_FLAG_TSYNC_) eqn:Ets.
  - destruct (tsync_blocker_spec (<[w_next w := mk_filter 1 None (has_flag flags SECCOMP_FILTER_FLAG_LOG_) insns]> (w_heap w))
      (w_cur w) (t_filter t) 0 (w_threads w)) as (b & -> & Hb).
    { apply closed_insert; [done | apply wi_next, Hw | done]. }
    { intros a Ha. destruct (Hlive a Ha) as [g Hg]. rewrite lookup_insert_ne by congruence. eauto. }
    { apply wi_pid, Hw. }
    destruct (Z.eqb_spec b 0) as [-> | Hnz]; cbn [negb]; [| apply Hout; by destruct (has_flag flags SECCOMP_FILTER_FLAG_TSYNC_ESRCH_)].
    destruct (tsync_assign_inv (<[w_next w := mk_filter 1 (t_filter t) (has_flag flags SECCOMP_FILTER_FLAG_LOG_) insns]> (w_heap w))
      (w_cur w) (w_next w) (t_nnp t) 0 (install_threads w t (w_next w) false) (w_others w) (2 ^ 32 - 1)) as (h' & Eas & Hi & Hle' & _);
      [done | by eapply install_root | by apply install_room | done |].
    cbv beta iota zeta delta [install_threads] in Eas. rewrite Eas.
    eexists. split; [done |].
    pose proof (Installed w flags t insns chain h' Ht Emay Hck (prepare_privileged _ _ _ _ _ Ep) Hch Hle) as HI.
    rewrite Ets in HI. apply HI; [| done | done].
    intros _ j u Hj Hne Hx. eapply unblocked_fresh, (Hb eq_refl j u Hj); done.
  - cbn [negb Z.eqb]. eexists. split; [done |].
    pose proof (Installed w flags t insns chain
      (<[w_next w := mk_filter 1 (t_filter t) (has_flag flags SECCOMP_FILTER_FLAG_LOG_) insns]> (w_heap w)) Ht Emay Hck (prepare_privileged _ _ _ _ _ Ep) Hch Hle) as HI.
    rewrite Ets in HI. apply HI; [done | done | apply heap_le_refl].
Qed.

(** ** Installing preserves the invariant *)

Lemma set_mode_fields m t :
  t_mode (set_mode m t) = m /\ t_filter (set_mode m t) = t_filter t /\ t_pid (set_mode m t) = t_pid t /\
  t_exiting (set_mode m t) = t_exiting t.
Proof. done. Qed.

Lemma tsync_thread_fields head nnp t :
  t_mode (tsync_thread head nnp t) = SECCOMP_MODE_FILTER_ /\ t_filter (tsync_thread head nnp t) = head /\
  t_pid (tsync_thread head nnp t) = t_pid t.
Proof. unfold tsync_thread. by destruct nnp. Qed.

(** Each thread after an installation: as before, or with the new filter. *)
Lemma install_threads_lookup w t a tsync j u' :
  install_threads w t a tsync !! j = Some u' ->
  exists u, w_threads w !! j = Some u /\ t_pid u' = t_pid u /\
    ((u' = u /\ j <> w_cur w) \/
     (t_mode u' = SECCOMP_MODE_FILTER_ /\ t_filter u' = Some a /\
      (j = w_cur w \/ (tsync = true /\ t_exiting u = false /\ j <> w_cur w)))).
Proof.
  assert (forall v, alter (fun u => set_mode SECCOMP_MODE_FILTER_ (set_filter (Some a) u)) (w_cur w) (w_threads w) !! j = Some v ->
    exists u, w_threads w !! j = Some u /\ t_pid v = t_pid u /\ ((v = u /\ j <> w_cur w) \/
      (t_mode v = SECCOMP_MODE_FILTER_ /\ t_filter v = Some a /\ j = w_cur w))) as Halter.
  { intros v Hv. destruct (decide (j = w_cur w)) as [-> | Hne].
    - rewrite list_lookup_alter_eq in Hv. apply fmap_Some in Hv as (u & Hu & ->). exists u. eauto 10.
    - rewrite list_lookup_alter_ne in Hv by done. exists v. eauto. }
  unfold install_threads. destruct tsync; intros Hj; [| destruct (Halter u' Hj) as (u & Hu & Hp & Hc); exists u; naive_solver].
  unfold tsync_threads in Hj. rewrite list_lookup_imap in Hj. apply fmap_Some in Hj as (v & Hv & ->).
  destruct (Halter v Hv) as (u & Hu & Hp & Hc). exists u. split; [done |]. rewrite Nat.add_0_l.
  destruct (Nat.eqb_spec j (w_cur w)) as [-> | Hne]; simpl; [split; [done |]; naive_solver |].
  destruct Hc as [[-> _] | (_ & _ & ?)]; [| done].
  destruct (t_exiting u) eqn:Ex; [split; [done |]; by left |].
  destruct (tsync_thread_fields (Some a) (t_nnp t) u) as (Hm & Hf & Hpid). split; [done |]. right. eauto 10.
Qed.

Lemma install_threads_length w t a tsync : length (install_threads w t a tsync) = length (w_threads w).
Proof. unfold install_threads, tsync_threads. destruct tsync; rewrite ?length_imap; apply length_alter. Qed.

Lemma mode_ok_filter u a : t_mode u = SECCOMP_MODE_FILTER_ -> t_filter u = Some a -> mode_ok u.
Proof. intros Hm Hf. unfold mode_ok. rewrite Hm, Hf. split; [by eexists | done]. Qed.

Lemma outcome_inv w flags w' r : world_inv w -> outcome w flags (w', r) -> world_inv w'.
Proof.
  intros Hw Ho. inversion Ho as [n err Hne Hn | t insns chain h' Ht Hmay Hck Hpriv Hch Hmax Hblock a ts Hheap Hle]; subst.
  - destruct Hw as [Hh Hx Hc Hm Hp Hk]. split; simpl; try done. intros b f Hb. apply Hx in Hb. lia.
  - assert (forall b f, h' !! b = Some f -> (b <= a)%nat /\ checked (f_insns f)) as Hold.
    { intros b f Hb. destruct (Hle b f Hb) as (g & Hg & Hs). rewrite lookup_insert in Hg.
      unfold shape in Hs. case_decide; simplify_eq/=; [split; [lia | congruence] |].
      pose proof (wi_next w Hw b g Hg). pose proof (wi_checked w Hw b g Hg).
      split; [unfold a; lia | congruence]. }
    assert (forall P : stask -> Prop, Forall P (w_threads w) ->
      (forall u u', P u -> t_pid u' = t_pid u -> t_mode u' = SECCOMP_MODE_FILTER_ -> t_filter u' = Some a -> P u') ->
      Forall P ts) as Hts.
    { intros P Hall Hnew. apply Forall_lookup. intros j u' Hj.
      destruct (install_threads_lookup _ _ _ _ _ _ Hj) as (u & Hu & Hp & Hc).
      pose proof (Forall_lookup_1 _ _ _ _ Hall Hu) as HPu.
      destruct Hc as [[-> _] | (Hm & Hf & _)]; [done | by eapply Hnew]. }
    split; simpl.
    + exact Hheap.
    + intros b f Hb. destruct (Hold b f Hb). unfold a in *. lia.
    + unfold ts. rewrite install_threads_length. apply wi_cur, Hw.
    + apply Hts; [apply wi_mode, Hw |]. intros u u' _ _ Hm Hf. by eapply mode_ok_filter.
    + apply Hts; [apply wi_pid, Hw |]. intros u u' Hpu E _ _. by rewrite E.
    + intros b f Hb. by destruct (Hold b f Hb).
Qed.

(** Changing one thread's mode, its filter staying. *)
Lemma alter_mode_inv w m :
  world_inv w -> (forall t, current w = Some t -> mode_ok (set_mode m t)) ->
  world_inv (with_threads w (alter (set_mode m) (w_cur w) (w_threads w))).
Proof.
  intros Hw Hmode. destruct (lookup_lt_is_Some_2 _ _ (wi_cur w Hw)) as [t Ht].
  destruct (omap_alter (w_threads w) (w_cur w) t Ht) as (rest & E & Eg).
  destruct Hw as [Hh Hx Hc Hm Hp Hk]. split; simpl; try done.
  - unfold roots in *. simpl. rewrite Eg. simpl. by rewrite <- E.
  - by rewrite length_alter.
  - apply Forall_alter; [done |]. intros u Hu _. apply Hmode. exact Hu.
  - apply Forall_alter; [done |]. intros u _ Hu. exact Hu.
Qed.

Lemma set_mode_strict_inv w : world_inv w -> exists w' r, set_mode_strict w = Some (w', r) /\ world_inv w'.
Proof.
  intros Hw. unfold set_mode_strict. destruct (lookup_lt_is_Some_2 _ _ (wi_cur w Hw)) as [t Ht].
  unfold current. rewrite Ht. destruct (may_assign_mode t SECCOMP_MODE_STRICT_) eqn:Em; [| by eauto].
  eexists _, _. split; [done |]. apply alter_mode_inv; [done |].
  intros u Hu. unfold current in Hu. simplify_eq.
  pose proof (Forall_lookup_1 _ _ _ _ (wi_mode w Hw) Ht) as (Hf & Hd & Hs).
  unfold may_assign_mode in Em. apply orb_true_iff in Em as [Em | Em]; apply Z.eqb_eq in Em.
  - unfold mode_ok. simpl. rewrite Hd by done. done.
  - unfold mode_ok. simpl. rewrite Hs by done. done.
Qed.

Lemma dead_ok t : mode_ok (set_mode SECCOMP_MODE_DEAD_ t).
Proof. unfold mode_ok. simpl. done. Qed.

Lemma seccomp_data_length abi nr arch ip args : length args = 6%nat -> length (seccomp_data abi nr arch ip args) = 16%nat.
Proof. intros Hl. do 6 (destruct args as [| ? args]; [done |]). by destruct args. Qed.

Lemma run_filters_total w t data :
  world_inv w -> current w = Some t -> length data = 16%nat ->
  exists r m, run_filters (w_heap w) (t_filter t) data = Some (r, m).
Proof.
  intros Hw Ht Hd. unfold run_filters. destruct (t_filter t) as [a |] eqn:Ea; [| eauto].
  pose proof (heap_inv_closed _ _ (wi_heap w Hw)) as Hc. pose proof (current_live w t Hw Ht) as Hl. rewrite Ea in Hl.
  destruct (walk_total _ _ Hc Hl) as [l Hwalk]. rewrite Hwalk.
  apply run_filters_loop_total; [| done]. intros b f Hin. eapply wi_checked; [done |]. by eapply walk_lookup.
Qed.

Lemma seccomp_kill_inv w action : world_inv w -> world_inv (fst (seccomp_kill w action)).
Proof.
  intros Hw. unfold seccomp_kill. case_match; simpl; apply alter_mode_inv; auto using dead_ok.
Qed.

Lemma seccomp_act_world w t nr arch ip ret logged recheck ex w' effs v :
  seccomp_act w t nr arch ip ret logged recheck ex = (w', effs, v) ->
  w' = w \/ w' = with_threads w (alter (set_mode SECCOMP_MODE_DEAD_) (w_cur w) (w_threads w)).
Proof.
  unfold seccomp_act. intros Ha. repeat (case_match; simplify_eq; try by left).
  all: unfold seccomp_kill in *; repeat case_match; simplify_eq; by right.
Qed.

Lemma seccomp_syscall_enter_world w abi nr args ip recheck ex w' effs v :
  seccomp_syscall_enter w abi nr args ip recheck ex = Some (w', effs, v) ->
  w' = w \/ w' = with_threads w (alter (set_mode SECCOMP_MODE_DEAD_) (w_cur w) (w_threads w)).
Proof.
  unfold seccomp_syscall_enter. intros He. destruct (current w) as [t |]; [| done].
  repeat case_on_match_in He; simplify_eq; auto; by eapply seccomp_act_world.
Qed.

(** ** Steps of a thread group *)

(** What a thread group's threads do that involves seccomp: the system call,
    the prctl, a system call entry, and another thread taking its turn. *)
Inductive seccomp_step {M} `{GuestMemoryOk M} : world -> world -> Prop :=
| Step_seccomp al (m : M) w op flags uargs w' r :
    gm_ok m -> 0 <= uargs -> world_room w ->
    sys_seccomp_guest al m w op flags uargs = Some (w', r) -> seccomp_step w w'
| Step_prctl al (m : M) w mode filter w' r :
    gm_ok m -> 0 <= filter -> world_room w ->
    seccomp_prctl_set al m w mode filter = Some (w', r) -> seccomp_step w w'
| Step_enter w abi nr args ip recheck ex w' effs v :
    seccomp_syscall_enter w abi nr args ip recheck ex = Some (w', effs, v) -> seccomp_step w w'
| Step_switch w i :
    (i < length (w_threads w))%nat ->
    seccomp_step w (mk_world (w_heap w) (w_next w) (w_threads w) i (w_others w)).

(** The modes a mode may become. *)
Definition mode_le (m m' : Z) : Prop :=
  m = m' \/ m = SECCOMP_MODE_DISABLED_ \/ m' = SECCOMP_MODE_DEAD_.

(** Thread [j] is confined at least as much in [w'] as in [w]. *)
Definition tighter (w w' : world) (j : nat) : Prop :=
  forall t, w_threads w !! j = Some t -> exists t' pre l l',
    w_threads w' !! j = Some t' /\ mode_le (t_mode t) (t_mode t') /\
    walk (w_heap w) (t_filter t) = Some l /\ walk (w_heap w') (t_filter t') = Some l' /\
    progs l' = pre ++ progs l.

Lemma mode_le_trans a b c : mode_le a b -> mode_le b c -> mode_le a c.
Proof.
  unfold mode_le, SECCOMP_MODE_DISABLED_, SECCOMP_MODE_DEAD_. lia.
Qed.

Lemma tighter_trans w1 w2 w3 j : tighter w1 w2 j -> tighter w2 w3 j -> tighter w1 w3 j.
Proof.
  intros H12 H23 t Ht. destruct (H12 t Ht) as (t2 & p2 & l & l2 & Ht2 & Hm2 & Hl & Hl2 & E2).
  destruct (H23 t2 Ht2) as (t3 & p3 & k & l3 & Ht3 & Hm3 & Hk & Hl3 & E3). simplify_eq.
  exists t3, (p3 ++ p2), l, l3. split; [done |]. split; [by eapply mode_le_trans |].
  split; [done |]. split; [done |]. by rewrite E3, E2, app_assoc.
Qed.

Lemma thread_walk w j t : world_inv w -> w_threads w !! j = Some t -> exists l, walk (w_heap w) (t_filter t) = Some l.
Proof.
  intros Hw Ht. apply walk_total; [eapply heap_inv_closed, wi_heap, Hw | by eapply thread_live].
Qed.

(** The heap unchanged and modes only tightened. *)
Lemma tighter_same_heap w w' j :
  world_inv w -> w_heap w' = w_heap w ->
  (forall t, w_threads w !! j = Some t -> exists t', w_threads w' !! j = Some t' /\
     mode_le (t_mode t) (t_mode t') /\ t_filter t' = t_filter t) ->
  tighter w w' j.
Proof.
  intros Hw Hh Hts t Ht. destruct (Hts t Ht) as (t' & Ht' & Hm & Hf).
  destruct (thread_walk w j t Hw Ht) as [l Hl]. exists t', [], l, l. rewrite Hh, Hf. done.
Qed.

Lemma tighter_mode w m j :
  world_inv w -> (forall t, current w = Some t -> mode_le (t_mode t) m) ->
  tighter w (with_threads w (alter (set_mode m) (w_cur w) (w_threads w))) j.
Proof.
  intros Hw Hm. apply tighter_same_heap; [done | done |]. intros t Ht. simpl.
  destruct (decide (j = w_cur w)) as [-> | Hne].
  - exists (set_mode m t). rewrite list_lookup_alter_eq, Ht. split; [done |]. split; [by apply Hm | done].
  - exists t. rewrite list_lookup_alter_ne by done. split; [done |]. split; [by left | done].
Qed.

Lemma progs_app l k : progs (l ++ k) = progs l ++ progs k.
Proof. apply map_app. Qed.

(** A filter already in the heap keeps its chain through an installation. *)
Lemma walk_install h h' a prev log insns o l :
  closed h -> closed h' -> (forall b g, h !! b = Some g -> (b < a)%nat) -> live h prev ->
  heap_le h' (<[a := mk_filter 1 prev log insns]> h) -> live h o -> live h' o -> walk h o = Some l ->
  exists l', walk h' o = Some l' /\ progs l' = progs l.
Proof.
  intros Hc Hc' Hfr Hlf Hle Hlo Hlo' Hl. destruct (walk_total h' o Hc' Hlo') as [l' Hl'].
  exists l'. split; [done |].
  destruct (walk_heap_le h' (<[a := mk_filter 1 prev log insns]> h) o l') as (k & Hk & E); [done | by apply closed_insert | done | done |].
  rewrite walk_insert_fresh in Hk by auto using fresh_none. simplify_eq. done.
Qed.

Lemma outcome_tighter w flags w' r j :
  world_inv w -> outcome w flags (w', r) -> tighter w w' j.
Proof.
  intros Hw Ho. pose proof (outcome_inv w flags w' r Hw Ho) as Hw'.
  inversion Ho as [n err Hne Hn | t insns chain h' Ht Hmay Hck Hpriv Hch Hmax Hblock a ts Hheap Hle]; subst.
  { apply tighter_same_heap; [done | done |]. intros t Ht. exists t. split; [done |]. split; [by left | done]. }
  pose proof (heap_inv_closed _ _ (wi_heap w Hw)) as Hc.
  pose proof (heap_inv_closed _ _ Hheap) as Hc'. pose proof (current_live w t Hw Ht) as Hlt.
  intros u Hu. destruct (thread_walk w j u Hw Hu) as [l Hl]. pose proof (thread_live w j u Hw Hu) as Hlu.
  destruct (lookup_lt_is_Some_2 ts j) as [u' Hu'].
  { unfold ts. rewrite install_threads_length. by eapply lookup_lt_Some. }
  pose proof (thread_live _ j u' Hw' Hu') as Hlu'. simpl in Hlu'.
  destruct (install_threads_lookup _ _ _ _ _ _ Hu') as (v & Hv & _ & Hcase). simplify_eq.
  destruct Hcase as [[-> _] | (Hm & Hf & Hwho)].
  { destruct (walk_install (w_heap w) h' a _ _ _ (t_filter u) l Hc Hc' (wi_next w Hw) Hlt Hle) as (l' & Hl' & E); [done | done | done |].
    exists u, [], l, l'. split; [done |]. split; [by left |]. done. }
  rewrite Hf in Hlu'. destruct (Hlu' a eq_refl) as [f' Hf']. destruct (Hle a f' Hf') as (g & Hg & Hs).
  rewrite lookup_insert_eq in Hg. simplify_eq.
  assert (f_prev f' = t_filter t) as Ep by (unfold shape in Hs; simpl in Hs; congruence).
  destruct (walk_install (w_heap w) h' a _ _ _ (t_filter t) chain Hc Hc' (wi_next w Hw) Hlt Hle) as (l' & Hl' & E);
    [done | intros b Hb; rewrite <- Ep in Hb; by destruct (Hc' a f' b Hf' Hb) | done |].
  assert (walk h' (t_filter u') = Some ((a, f') :: l')) as Hwalk.
  { rewrite Hf. apply walk_some; [done | intros b Hb; by destruct (Hc' a f' b Hf' Hb) | by rewrite Ep]. }
  assert (exists pre, chain = pre ++ l /\ mode_le (t_mode u) (t_mode u')) as (pre & -> & Hmode).
  { rewrite Hm. destruct Hwho as [-> | (Htsync & Hx & Hne)].
    - unfold current in Ht. simplify_eq. exists []. split; [done |].
      unfold may_assign_mode in Hmay. apply orb_true_iff in Hmay as [E0 | E0]; apply Z.eqb_eq in E0; unfold mode_le; auto.
    - pose proof (Forall_lookup_1 _ _ _ _ (wi_mode w Hw) Hu) as (_ & Hd & _).
      destruct (Hblock Htsync j u Hu Hne Hx) as [E0 | [E0 Hanc]].
      + exists chain. rewrite Hd, walk_none in Hl by done. simplify_eq. rewrite app_nil_r. unfold mode_le. auto.
      + destruct (is_ancestor_suffix _ _ _ _ Hc Hch Hanc) as (pre & suf & -> & Hsuf). simplify_eq.
        exists pre. unfold mode_le. auto. }
  exists u', ((a, shape f') :: progs pre), l, ((a, f') :: l'). split; [done |]. split; [done |].
  split; [done |]. split; [done |]. simpl. by rewrite E, progs_app.
Qed.

Lemma seccomp_step_tighter `{GuestMemoryOk M} w w' :
  world_inv w -> seccomp_step w w' -> world_inv w' /\ forall j, tighter w w' j.
Proof.
  intros Hw Hstep.
  assert (forall j, tighter w w j) as Hrefl.
  { intros j. apply tighter_same_heap; auto. intros t Ht. exists t. split; [done |]. split; [by left | done]. }
  assert (forall r, set_mode_strict w = Some (w', r) -> world_inv w' /\ forall j, tighter w w' j) as Hstrict.
  { intros r Hr. destruct (set_mode_strict_inv w Hw) as (w2 & r2 & E & Hw2). rewrite E in Hr. simplify_eq.
    split; [done |]. unfold set_mode_strict in E. destruct (current w) as [t |] eqn:Ht; [| done].
    destruct (may_assign_mode t SECCOMP_MODE_STRICT_) eqn:Em; simplify_eq; [| done].
    intros j. apply tighter_mode; [done |]. intros u Hu. simplify_eq.
    unfold may_assign_mode in Em. apply orb_true_iff in Em as [E0 | E0]; apply Z.eqb_eq in E0; unfold mode_le; auto. }
  assert (forall al (m : M) flags uargs r, gm_ok m -> 0 <= uargs -> world_room w ->
    set_mode_filter al m w flags uargs = Some (w', r) -> world_inv w' /\ forall j, tighter w w' j) as Hfilter.
  { intros al m flags uargs r Hm Hu Hr Es. destruct (set_mode_filter_cases al m w flags uargs Hw Hr Hm Hu) as (x & E & Ho).
    rewrite E in Es. simplify_eq. split; [by eapply outcome_inv |]. intros j. by eapply outcome_tighter. }
  destruct Hstep as [al m w op flags uargs w' r Hm Hu Hr Hs | al m w mode filter w' r Hm Hu Hr Hs
    | w abi nr args ip recheck ex w' effs v He | w i Hi].
  - unfold sys_seccomp_guest in Hs. repeat case_on_match_in Hs; simplify_eq; eauto.
  - unfold seccomp_prctl_set in Hs. repeat case_on_match_in Hs; simplify_eq; eauto.
  - apply seccomp_syscall_enter_world in He as [-> | ->]; [done |]. split.
    + apply alter_mode_inv; auto using dead_ok.
    + intros j. apply tighter_mode; [done |]. intros t _. unfold mode_le. auto.
  - destruct Hw as [Hh Hx Hc Hmo Hp Hk]. split; [by split |]. intros j. exact (Hrefl j).
Qed.

(** ** A longer chain never decides more leniently *)

Lemma progs_elem l a s : (a, s) ∈ progs l -> exists f, (a, f) ∈ l /\ shape f = s.
Proof.
  unfold progs. intros Hin. apply list_elem_of_fmap in Hin as ([b f] & [= -> ->] & Hin). eauto.
Qed.

Lemma run_filters_loop_suffix l l' pre data ret r r' m m' mt mt' :
  progs l' = pre ++ progs l ->
  run_filters_loop l data ret mt = Some (r, m) -> run_filters_loop l' data ret mt' = Some (r', m') ->
  action_rank r' <= action_rank r.
Proof.
  intros E Hr Hr'. apply run_filters_loop_spec in Hr as (_ & _ & Hwho).
  apply run_filters_loop_spec in Hr' as (Hle & Hall & _).
  destruct Hwho as [[-> _] | (a & f & Hin & _ & Hf)]; [done |].
  assert ((a, shape f) ∈ progs l') as Hin'.
  { rewrite E. apply elem_of_app. right. unfold progs. apply list_elem_of_fmap. by exists (a, f). }
  apply progs_elem in Hin' as (f' & Hin' & Hs). destruct (Hall a f' Hin') as (v & Hv & Hle').
  unfold shape in Hs. simplify_eq. congruence.
Qed.

(** What a world's thread [j] is told about a call: the deciding answer. *)
Definition decision (w : world) (j : nat) (data : list Z) : option Z :=
  match w_threads w !! j with
  | Some t => match run_filters (w_heap w) (t_filter t) data with Some (r, _) => Some r | None => None end
  | None => None
  end.

Lemma tighter_decision w w' j t data r r' :
  tighter w w' j -> w_threads w !! j = Some t -> is_Some (t_filter t) ->
  decision w j data = Some r -> decision w' j data = Some r' -> action_rank r' <= action_rank r.
Proof.
  intros Htight Ht [a Ha] Hr Hr'. destruct (Htight t Ht) as (t' & pre & l & l' & Ht' & _ & Hl & Hl' & E).
  unfold decision in Hr, Hr'. rewrite Ht in Hr. rewrite Ht' in Hr'. unfold run_filters in Hr, Hr'.
  rewrite Ha in Hr, Hl. rewrite Hl in Hr.
  destruct (t_filter t') as [a' |] eqn:Ea'; [| simplify_eq; simpl; rewrite walk_none in Hl'; simplify_eq].
  - rewrite Hl' in Hr'. repeat case_on_match_in Hr; repeat case_on_match_in Hr'; simplify_eq.
    by eapply (run_filters_loop_suffix l l' pre).
  - simpl in E. symmetry in E. apply app_eq_nil in E as [_ E].
    unfold walk in Hl. simpl in Hl. destruct (w_heap w !! a); [| done].
    destruct (walk_loop a (w_heap w) (f_prev _)); [| done]. simplify_eq.
Qed.

(** ** Properties *)

(** C3: the decision on a call is the most restrictive answer in the chain:
    every filter runs to an answer at least as permissive, and the decision is
    one of those answers (the newest filter's among equals) or ALLOW. *)
Theorem run_filters_most_restrictive h a chain data r m :
  walk h (Some a) = Some chain -> run_filters h (Some a) data = Some (r, m) ->
  (forall b f, (b, f) ∈ chain -> exists v, bpf_run (f_insns f) data = Some v /\ action_rank r <= action_rank v) /\
  ((r = SECCOMP_RET_ALLOW_ /\ m = None) \/
   exists pre b f suf, chain = pre ++ (b, f) :: suf /\ m = Some f /\ bpf_run (f_insns f) data = Some r /\
     forall c g v, (c, g) ∈ pre -> bpf_run (f_insns g) data = Some v -> action_rank r < action_rank v).
Proof.
  intros Hw Hr. unfold run_filters in Hr. rewrite Hw in Hr.
  split; [by apply run_filters_loop_spec in Hr as (_ & Hall & _) |]. clear Hw.
  assert (forall ret mt, run_filters_loop chain data ret mt = Some (r, m) ->
    (r = ret /\ m = mt) \/
    (action_rank r < action_rank ret /\
     exists pre b f suf, chain = pre ++ (b, f) :: suf /\ m = Some f /\ bpf_run (f_insns f) data = Some r /\
       forall c g v, (c, g) ∈ pre -> bpf_run (f_insns g) data = Some v -> action_rank r < action_rank v)) as Hgen.
  { clear Hr. induction chain as [| [b0 f0] chain IH]; intros ret mt Hr; simpl in Hr; [simplify_eq; by left |].
    destruct (bpf_run (f_insns f0) data) as [cur |] eqn:Ecur; [| done].
    destruct (Z.ltb_spec (action_rank cur) (action_rank ret)) as [Hlt | Hge];
      destruct (IH _ _ Hr) as [[-> ->] | (Hlt' & pre & b & f & suf & -> & -> & Hf & Hpre)].
    - right. split; [done |]. exists [], b0, f0, chain. do 3 (split; [done |]). by intros ? ? ? ?%elem_of_nil.
    - right. split; [lia |]. exists ((b0, f0) :: pre), b, f, suf. do 3 (split; [done |]).
      intros c g v [[= -> ->] | Hin]%elem_of_cons Hv; [simplify_eq; lia | by eapply Hpre].
    - by left.
    - right. split; [done |]. exists ((b0, f0) :: pre), b, f, suf. do 3 (split; [done |]).
      intros c g v [[= -> ->] | Hin]%elem_of_cons Hv; [simplify_eq; lia | by eapply Hpre]. }
  destruct (Hgen _ _ Hr) as [? | [_ ?]]; [by left | by right].
Qed.

Lemma seccomp_act_run w t nr arch ip ret logged ex w' effs :
  seccomp_act w t nr arch ip ret logged false ex = (w', effs, RUN) ->
  w' = w /\ action_rank SECCOMP_RET_LOG_ <= action_rank ret.
Proof.
  unfold seccomp_act. intros Ha.
  repeat (case_on_match_in Ha; try done); simplify_eq; to_prop; (split; [done |]); unfold action_rank;
    match goal with E : ret .& _ = _ |- _ => rewrite E end; by vm_compute.
Qed.

Lemma seccomp_act_allow w t nr arch ip logged recheck ex :
  seccomp_act w t nr arch ip SECCOMP_RET_ALLOW_ logged recheck ex = (w, [], RUN).
Proof. done. Qed.

(** A thread with filters gets an answer to every system call entry (no
    freed filter is read and no program runs away); the call runs, on a first
    look, only if every filter of the thread's chain said ALLOW or LOG, and
    then nothing else happens to the process; and if they all say ALLOW it runs. *)
Theorem seccomp_enter_filtered w t abi nr args ip ex :
  world_inv w -> current w = Some t -> t_mode t = SECCOMP_MODE_FILTER_ -> length args = 6%nat ->
  exists chain w' effs v,
    walk (w_heap w) (t_filter t) = Some chain /\ chain <> [] /\
    seccomp_syscall_enter w abi nr args ip false ex = Some (w', effs, v) /\
    let data := seccomp_data abi (s32 nr) (seccomp_arch abi) ip args in
    (v = RUN -> w' = w /\ forall b f, (b, f) ∈ chain -> exists a,
       bpf_run (f_insns f) data = Some a /\ action_rank SECCOMP_RET_LOG_ <= action_rank a) /\
    ((forall b f, (b, f) ∈ chain -> bpf_run (f_insns f) data = Some SECCOMP_RET_ALLOW_) -> v = RUN /\ effs = []).
Proof.
  intros Hw Ht Hm Hargs. pose proof (Forall_lookup_1 _ _ _ _ (wi_mode w Hw) Ht) as (Hf & _ & _).
  destruct (Hf Hm) as [a Ha]. destruct (thread_walk w (w_cur w) t Hw Ht) as [chain Hch].
  set (data := seccomp_data abi (s32 nr) (seccomp_arch abi) ip args).
  destruct (run_filters_total w t data Hw Ht) as (r & mt & Hr); [by apply seccomp_data_length |].
  destruct (seccomp_act w t (s32 nr) (seccomp_arch abi) ip r (match mt with Some f => f_log f | None => false end) false ex)
    as [[w' effs] v] eqn:Eact.
  exists chain, w', effs, v. split; [done |].
  assert (run_filters_loop chain data SECCOMP_RET_ALLOW_ None = Some (r, mt)) as Hloop.
  { unfold run_filters in Hr. rewrite Ha in Hr. by rewrite <- Ha, Hch in Hr. }
  split.
  { intros ->. rewrite Ha in Hch. apply walk_inv in Hch as (? & ? & _ & ? & _); [done |].
    eapply heap_inv_closed, wi_heap, Hw. }
  split.
  { unfold seccomp_syscall_enter. rewrite Ht, Hm. change (SECCOMP_MODE_FILTER_ =? SECCOMP_MODE_STRICT_) with false.
    change (SECCOMP_MODE_FILTER_ =? SECCOMP_MODE_DEAD_) with false. cbn [andb]. fold data. by rewrite Hr, Eact. }
  apply run_filters_loop_spec in Hloop as (_ & Hall & Hwho). split.
  - intros ->. apply seccomp_act_run in Eact as [-> Hrank]. split; [done |].
    intros b f Hin. destruct (Hall b f Hin) as (x & Hx & Hle). exists x. split; [done | lia].
  - intros Hallow. assert (r = SECCOMP_RET_ALLOW_) as ->.
    { destruct Hwho as [[-> _] | (b & f & Hin & _ & Hb)]; [done |]. rewrite (Hallow b f Hin) in Hb. by simplify_eq. }
    rewrite seccomp_act_allow in Eact. by simplify_eq.
Qed.

(** C24: installing a filter always finishes, keeps every reference count right
    (each filter counted exactly as often as it is pointed to, so nothing in
    use is freed and nothing freed is used), and either fails leaving heap and
    threads as they were, or succeeds: then the caller is privileged, its chain
    is the new checked program followed by its old chain, and the chain's total
    length is within the limit. *)
Theorem set_mode_filter_correct `{GuestMemoryOk M} al (m : M) w flags uprog :
  world_inv w -> world_room w -> gm_ok m -> 0 <= uprog ->
  exists w' r, set_mode_filter al m w flags uprog = Some (w', r) /\ world_inv w' /\
    (r <> 0 -> w_heap w' = w_heap w /\ w_threads w' = w_threads w) /\
    (r = 0 -> exists t t' chain chain' insns,
       current w = Some t /\ current w' = Some t' /\
       t_nnp t || t_cap_sys_admin t = true /\ t_mode t' = SECCOMP_MODE_FILTER_ /\
       walk (w_heap w) (t_filter t) = Some chain /\ walk (w_heap w') (t_filter t') = Some chain' /\
       progs chain' = (w_next w, (t_filter t, has_flag flags SECCOMP_FILTER_FLAG_LOG_, insns)) :: progs chain /\
       checked insns /\ path_total (Z.of_nat (length insns)) chain <= SECCOMP_MAX_PATH_INSNS_).
Proof.
  intros Hw Hr Hm Hu. destruct (set_mode_filter_cases al m w flags uprog Hw Hr Hm Hu) as ([w' r] & Hs & Ho).
  exists w', r. pose proof (outcome_inv _ _ _ _ Hw Ho) as Hw'.
  split; [done |]. split; [done |].
  pose proof (outcome_tighter w flags w' r (w_cur w) Hw Ho) as Htight.
  inversion Ho as [n err Hne Hn | t insns chain h' Ht Hmay Hck Hpriv Hch Hmax Hblock a ts Hheap Hle]; subst; [by split |].
  split; [done |]. intros _.
  destruct (Htight t Ht) as (t' & pre & l & l' & Ht' & _ & Hl & Hl' & _). simpl in Ht', Hl'.
  destruct (install_threads_lookup _ _ _ _ _ _ Ht') as (u & Hu' & _ & [[_ ?] | (Hm' & Hf' & _)]); [done |].
  pose proof (heap_inv_closed _ _ Hheap) as Hc'. pose proof (heap_inv_closed _ _ (wi_heap w Hw)) as Hc.
  rewrite Hf' in Hl'. destruct (walk_inv h' a l' Hc' Hl') as (f' & k & Hf & -> & Hk).
  destruct (Hle a f' Hf) as (g & Hg & Hsh). rewrite lookup_insert_eq in Hg. injection Hg as <-.
  assert (f_prev f' = t_filter t) as Ep by (unfold shape in Hsh; simpl in Hsh; congruence).
  pose proof (current_live w t Hw Ht) as Hlt.
  destruct (walk_install (w_heap w) h' a _ _ _ (t_filter t) chain Hc Hc' (wi_next w Hw) Hlt Hle) as (l2 & Hl2 & E);
    [done | intros b Hb; rewrite <- Ep in Hb; by destruct (Hc' a f' b Hf Hb) | done |].
  exists t, t', chain, ((a, f') :: k), insns. simpl. rewrite Hf', Hsh.
  rewrite Ep in Hk. assert (k = l2) as -> by congruence. rewrite E. by rewrite <- Ht'.
Qed.


(** ** Witnesses *)

(** A process with one thread, confined by [demo_filter] and with
    no_new_privs, and a page holding a struct sock_fprog and its program. *)
Definition demo_thread : stask := mk_stask 100 GUEST_ABI_AMD64 false SECCOMP_MODE_FILTER_ (Some 0%nat) true false false 0.
Definition demo_world : world :=
  mk_world {[ 0%nat := mk_filter 1 None false demo_filter ]} 1 [demo_thread] 0 [].
Definition insn_bytes (i : sock_filter) : list Z :=
  le_bytes 2 (sf_code i) ++ le_bytes 1 (sf_jt i) ++ le_bytes 1 (sf_jf i) ++ le_bytes 4 (sf_k i).
Definition fprog_bytes : list Z := le_bytes 8 9 ++ le_bytes 8 20496 ++ flat_map insn_bytes demo_filter.
Definition fprog_mem : mem := mk_mem {[ 5 := mk_page (list_inserts 0 fprog_bytes (replicate 4096 0)) true true true ]} 1048576.
Definition demo_args : list Z := [0; 0; 0; 0; 0; 0].
Definition demo_allocs : allocs := mk_allocs true true true.

Lemma demo_world_inv : world_inv demo_world.
Proof.
  split; simpl.
  - split.
    + intros a f Ha. apply lookup_singleton_Some in Ha as [<- <-]. vm_compute. done.
    + intros a f b Ha Hb. apply lookup_singleton_Some in Ha as [<- <-]. done.
    + intros a Ha. apply list_elem_of_singleton in Ha as ->. vm_compute. by eexists.
  - intros a f Ha. apply lookup_singleton_Some in Ha as [<- _]. lia.
  - lia.
  - apply Forall_singleton. by apply (mode_ok_filter _ 0%nat).
  - by apply Forall_singleton.
  - intros a f Ha. apply lookup_singleton_Some in Ha as [_ <-]. exact demo_filter_checked.
Qed.

Lemma demo_world_room : world_room demo_world.
Proof. vm_compute. done. Qed.

Lemma fprog_mem_ok : gm_ok (M := guest_abi * mem) (GUEST_ABI_AMD64, fprog_mem).
Proof.
  change (mem_wf fprog_mem). intros n pg Hn. cbn [mem_pages fprog_mem] in Hn. apply lookup_singleton_Some in Hn as [_ <-]. split; [vm_compute; reflexivity |].
  apply Forall_inserts; [apply Forall_replicate; unfold in_u; lia |].
  apply (bool_decide_unpack _). vm_compute. done.
Qed.

Lemma run_filters_most_restrictive_witness :
  let chain := [(0%nat, mk_filter 1 None false demo_filter)] in
  (forall b f, (b, f) ∈ chain -> exists v, bpf_run (f_insns f) demo_data = Some v /\ action_rank 0x50001 <= action_rank v) /\
  ((0x50001 = SECCOMP_RET_ALLOW_ /\ Some (mk_filter 1 None false demo_filter) = None) \/
   exists pre b f suf, chain = pre ++ (b, f) :: suf /\ Some (mk_filter 1 None false demo_filter) = Some f /\
     bpf_run (f_insns f) demo_data = Some 0x50001 /\
     forall c g v, (c, g) ∈ pre -> bpf_run (f_insns g) demo_data = Some v -> action_rank 0x50001 < action_rank v).
Proof.
  apply (run_filters_most_restrictive (w_heap demo_world) 0); vm_compute; reflexivity.
Defined.

Lemma seccomp_enter_filtered_witness :
  exists chain w' effs v,
    walk (w_heap demo_world) (Some 0%nat) = Some chain /\ chain <> [] /\
    seccomp_syscall_enter demo_world GUEST_ABI_AMD64 59 demo_args 0 false false = Some (w', effs, v) /\
    let data := seccomp_data GUEST_ABI_AMD64 (s32 59) (seccomp_arch GUEST_ABI_AMD64) 0 demo_args in
    (v = RUN -> w' = demo_world /\ forall b f, (b, f) ∈ chain -> exists a,
       bpf_run (f_insns f) data = Some a /\ action_rank SECCOMP_RET_LOG_ <= action_rank a) /\
    ((forall b f, (b, f) ∈ chain -> bpf_run (f_insns f) data = Some SECCOMP_RET_ALLOW_) -> v = RUN /\ effs = []).
Proof.
  apply (seccomp_enter_filtered demo_world demo_thread GUEST_ABI_AMD64 59 demo_args 0 false);
    [exact demo_world_inv | reflexivity | reflexivity | reflexivity].
Defined.

Lemma set_mode_filter_correct_witness :
  exists w' r, set_mode_filter demo_allocs (GUEST_ABI_AMD64, fprog_mem) demo_world 1 20480 = Some (w', r) /\ world_inv w'.
Proof.
  destruct (set_mode_filter_correct demo_allocs (GUEST_ABI_AMD64, fprog_mem) demo_world 1 20480)
    as (w' & r & H & Hw & _); [exact demo_world_inv | exact demo_world_room | exact fprog_mem_ok | lia |].
  exists w', r. exact (conj H Hw).
Defined.

(** The demonstration's system call does install its program. *)
Example demo_install :
  (fun x => match x with Some (w, r) => Some (r, seccomp_filter_count (w_heap w) (Some 1%nat)) | None => None end)
    (set_mode_filter demo_allocs (GUEST_ABI_AMD64, fprog_mem) demo_world 1 20480) = Some (0, Some 2).
Proof. vm_compute. reflexivity. Qed.

