(* ===== verification/SeccompCkpt.v ===== *)
(** * Saving and restoring filter chains

    The checkpoint functions of kernel/seccomp.c (lines 733-820): what
    [seccomp_ckpt_import] rebuilds from what [seccomp_ckpt_export] saved is a
    chain of the same programs, it keeps every reference count right, and
    chains that were shared are shared again. *)

From S2P Require Import Prelude Bpf User Seccomp SeccompInstall.

Definition prog_of (x : nat * (option nat * bool * list sock_filter)) : ckpt_prog :=
  mk_prog (snd (fst (snd x))) (snd (snd x)).

Lemma export_walk h o l : walk h o = Some l -> seccomp_ckpt_export h o = Some (rev (map prog_of (progs l))).
Proof.
  intros Hw. unfold seccomp_ckpt_export. rewrite Hw. f_equal.
  assert (forall acc, fold_left (fun out af => mk_prog (f_log (snd af)) (f_insns (snd af)) :: out) l acc =
    rev (map prog_of (progs l)) ++ acc) as E.
  { clear Hw. induction l as [| [a f] l IH]; intros acc; simpl; [done |].
    rewrite IH, <- app_assoc. done. }
  by rewrite E, app_nil_r.
Qed.

(** What the restore can import again. *)
Definition prog_ok (p : ckpt_prog) : Prop :=
  0 < Z.of_nat (length (p_insns p)) <= BPF_MAXINSNS_ /\ bpf_check true (p_insns p) = 0.

Definition allocs_ok (al : nat -> allocs) : Prop := forall n, al n = mk_allocs true true true.

(** The importer between two programs: [R] are references held elsewhere. *)
Record importer_inv (im : importer) (head : option nat) (R : list nat) : Prop := mk_importer_inv {
  ii_heap : heap_inv (im_heap im) (option_list head ++ im_seen im ++ R);
  ii_next : forall a f, im_heap im !! a = Some f -> (a < im_next im)%nat }.

Definition importer_room (im : importer) (R : list nat) (n : nat) : Prop :=
  Z.of_nat (length (im_seen im)) + Z.of_nat (length R) + Z.of_nat (size (im_heap im)) + 2 * Z.of_nat n + 2 < 2 ^ 32.

(** Later states of an importer: what was seen is seen, at the same place, and
    is the same filter. *)
Definition ext (im im' : importer) : Prop :=
  exists more, im_seen im' = im_seen im ++ more /\
    forall a, a ∈ im_seen im -> option_map shape (im_heap im' !! a) = option_map shape (im_heap im !! a).

Lemma ext_refl im : ext im im.
Proof. exists []. rewrite app_nil_r. done. Qed.

Lemma ext_trans a b c : ext a b -> ext b c -> ext a c.
Proof.
  intros (m & Em & Hm) (k & Ek & Hk). exists (m ++ k). rewrite Ek, Em, app_assoc. split; [done |].
  intros x Hx. rewrite Hk, Hm; [done | done |]. rewrite Em. apply elem_of_app. by left.
Qed.

(** [import_find] looks at shapes only, and earlier entries win. *)
Definition find_pred (prev : option nat) (p : ckpt_prog) (s : option (option nat * bool * list sock_filter)) : bool :=
  match s with
  | Some (pv, log, insns) => bool_decide (pv = prev) && Bool.eqb log (p_log p) && bool_decide (insns = p_insns p)
  | None => false
  end.

Lemma import_find_shape im prev p :
  import_find im prev p = List.find (fun a => find_pred prev p (option_map shape (im_heap im !! a))) (im_seen im).
Proof.
  unfold import_find. induction (im_seen im) as [| a l IH]; [done |]. simpl. rewrite IH.
  by destruct (im_heap im !! a).
Qed.

Lemma find_app_some {A} (P : A -> bool) l k x : List.find P l = Some x -> List.find P (l ++ k) = Some x.
Proof. induction l as [| a l IH]; [done |]. simpl. by destruct (P a). Qed.

Lemma find_app_none {A} (P : A -> bool) l k : List.find P l = None -> List.find P (l ++ k) = List.find P k.
Proof. induction l as [| a l IH]; [done |]. simpl. by destruct (P a). Qed.

Lemma find_ext {A} (P Q : A -> bool) l : (forall x, x ∈ l -> P x = Q x) -> List.find P l = List.find Q l.
Proof.
  induction l as [| a l IH]; intros HPQ; [done |]. simpl. rewrite (HPQ a) by constructor.
  rewrite IH; [done |]. intros x Hx. apply HPQ. by constructor 2.
Qed.

Lemma import_find_ext im im' prev p a :
  ext im im' -> import_find im prev p = Some a -> import_find im' prev p = Some a.
Proof.
  intros (more & E & Hs). rewrite !import_find_shape, E. intros Hf. apply find_app_some.
  rewrite <- Hf. apply find_ext. intros x Hx. by rewrite Hs.
Qed.

Lemma import_find_some im prev p a :
  import_find im prev p = Some a ->
  a ∈ im_seen im /\ exists f, im_heap im !! a = Some f /\ shape f = (prev, p_log p, p_insns p).
Proof.
  rewrite import_find_shape. intros Hf. apply List.find_some in Hf as [Hin Hp].
  split; [by apply list_elem_of_In |]. destruct (im_heap im !! a) as [f |]; [| done]. exists f. split; [done |].
  unfold find_pred in Hp. simpl in Hp. to_prop.
  rewrite !bool_decide_eq_true in *. match goal with E : Bool.eqb _ _ = true |- _ => apply Bool.eqb_prop in E end.
  unfold shape. congruence.
Qed.

(** One program done: [im1] and its new head [a]. *)
Record imported (im : importer) (head : option nat) (R : list nat) (p : ckpt_prog) (n : nat)
    (im1 : importer) (a : nat) : Prop := mk_imported {
  id_inv : importer_inv im1 (Some a) R;
  id_room : importer_room im1 R n;
  id_ext : ext im im1;
  id_shape : option_map shape (im_heap im1 !! a) = Some (head, p_log p, p_insns p);
  id_found : import_find im1 head p = Some a;
  id_old : heap_le (im_heap im1) (im_heap im) \/
           heap_le (im_heap im1) (<[im_next im := mk_filter 1 head (p_log p) (p_insns p)]> (im_heap im)) }.

Lemma head_length (head : option nat) : (length (option_list head) <= 1)%nat.
Proof. destruct head; simpl; lia. Qed.

(** A program already rebuilt on the same predecessor. *)
Lemma import_same im head R p n same :
  importer_inv im head R -> importer_room im R (S n) -> import_find im head p = Some same ->
  exists h2, seccomp_filter_release (seccomp_filter_retain (im_heap im) (Some same)) head = Some h2 /\
    imported im head R p n (mk_importer h2 (im_next im) (im_seen im)) same.
Proof.
  intros [Hheap Hnext] Hroom Ef. unfold importer_room in Hroom. pose proof (head_length head) as Hh1.
  destruct (import_find_some _ _ _ _ Ef) as [Hseen (f & Hf & Hs)].
  destruct (heap_inv_retain (im_heap im) (option_list head ++ im_seen im ++ R) same (2 ^ 32 - 1)) as [Hr Hsz];
    [done | split; [simpl; rewrite !length_app; lia | lia] | by eexists |].
  destruct (release_inv (seccomp_filter_retain (im_heap im) (Some same)) (same :: im_seen im ++ R) head (2 ^ 32 - 1))
    as (h2 & Erel & H2 & Hle2 & Hsz2).
  { by rewrite <- Permutation_middle. }
  { split; [| lia]. rewrite Hsz, length_app. simpl. rewrite length_app. lia. }
  assert (heap_le h2 (im_heap im)) as Hle by (eapply heap_le_trans; [done | apply heap_le_retain]).
  assert (forall b, b ∈ same :: im_seen im ++ R -> option_map shape (h2 !! b) = option_map shape (im_heap im !! b)) as Hkeep.
  { intros b Hb. destruct (hi_root _ _ H2 b Hb) as [g Hg]. destruct (Hle b g Hg) as (k & Hk & Ek).
    rewrite Hg, Hk. simpl. by rewrite Ek. }
  assert (ext im (mk_importer h2 (im_next im) (im_seen im))) as Hext.
  { exists []. simpl. rewrite app_nil_r. split; [done |]. intros b Hb. apply Hkeep.
    constructor 2. apply elem_of_app. by left. }
  exists h2. split; [done |]. split; simpl; [split; simpl; [done |] | | done | | by eapply import_find_ext | by left].
  - intros b g Hg. destruct (Hle b g Hg) as (k & Hk & _). by eapply Hnext.
  - unfold importer_room. simpl. lia.
  - rewrite Hkeep by constructor. rewrite Hf. simpl. by rewrite Hs.
Qed.

(** A program not seen on this predecessor: a new filter, remembered. *)
Lemma import_new im head R p n :
  importer_inv im head R -> importer_room im R (S n) -> import_find im head p = None ->
  imported im head R p n
    (import_remember true (mk_importer (<[im_next im := mk_filter 1 head (p_log p) (p_insns p)]> (im_heap im))
       (S (im_next im)) (im_seen im)) (im_next im)) (im_next im).
Proof.
  intros [Hheap Hnext] Hroom Ef. unfold importer_room in Hroom. pose proof (head_length head) as Hh1.
  set (h1 := <[im_next im := mk_filter 1 head (p_log p) (p_insns p)]> (im_heap im)).
  pose proof (fresh_none _ _ Hnext) as Hfresh.
  assert (heap_inv h1 (im_next im :: im_seen im ++ R)) as H1 by (by apply heap_inv_new).
  assert (size h1 = S (size (im_heap im))) as Hsz1 by (unfold h1; by rewrite map_size_insert_None).
  destruct (heap_inv_retain h1 (im_next im :: im_seen im ++ R) (im_next im) (2 ^ 32 - 1)) as [Hr Hsz];
    [done | split; [simpl; rewrite !length_app; lia | lia] | unfold h1; rewrite lookup_insert_eq; by eexists |].
  unfold import_remember. cbn [im_heap im_next im_seen].
  set (h2 := seccomp_filter_retain h1 (Some (im_next im))) in *.
  assert (option_map shape (h2 !! im_next im) = Some (head, p_log p, p_insns p)) as Hnew.
  { unfold h2, h1. simpl. rewrite lookup_alter_eq, lookup_insert_eq. done. }
  assert (ext im (mk_importer h2 (S (im_next im)) (im_seen im ++ [im_next im]))) as Hext.
  { exists [im_next im]. simpl. split; [done |]. intros b Hb.
    destruct (hi_root _ _ Hheap b) as [k Hk]; [rewrite !elem_of_app; auto |].
    assert (b <> im_next im) by (intros ->; congruence). unfold h2. simpl.
    rewrite lookup_alter_ne by done. unfold h1. by rewrite lookup_insert_ne. }
  split; simpl; [split; simpl | | done | done | | right; apply heap_le_retain].
  - eapply heap_inv_perm; [| exact Hr]. rewrite <- app_assoc. simpl. by rewrite Permutation_middle.
  - intros b k Hk. destruct (heap_le_retain _ _ _ _ Hk) as (k' & Hk' & _). unfold h1 in Hk'.
    rewrite lookup_insert in Hk'. case_decide; [lia |]. apply Hnext in Hk'. lia.
  - unfold importer_room. simpl. fold h2. rewrite length_app, Hsz. simpl. lia.
  - rewrite import_find_shape. destruct Hext as (more & E & Hs). simpl in E, Hs. cbn [im_seen im_heap].
    rewrite find_app_none.
    + cbn [List.find]. rewrite Hnew. simpl. rewrite !bool_decide_eq_true_2 by done. by rewrite Bool.eqb_reflx.
    + rewrite <- Ef, import_find_shape. apply find_ext. intros x Hx. by rewrite Hs.
Qed.

Lemma import_step im head R p n al rest :
  importer_inv im head R -> importer_room im R (S n) -> prog_ok p -> allocs_ok al ->
  exists im1 a, import_loop al im head (p :: rest) = import_loop al im1 (Some a) rest /\
    imported im head R p n im1 a /\ (is_Some (import_find im head p) -> im_next im1 = im_next im).
Proof.
  intros Hinv Hroom [Hlen Hck] Hal. cbn [import_loop length]. rewrite (Hal (S (length rest))). simpl al_valid.
  rewrite Hck. destruct (Z.eqb_spec (Z.of_nat (length (p_insns p))) 0); [lia |].
  destruct (Z.gtb_spec (Z.of_nat (length (p_insns p))) BPF_MAXINSNS_); [lia |].
  cbn [orb Z.ltb Z.compare al_filter al_insns negb]. destruct (import_find im head p) as [same |] eqn:Ef.
  - destruct (import_same im head R p n same Hinv Hroom Ef) as (h2 & -> & Hd). eauto.
  - eexists _, _. split; [done |]. split; [by eapply import_new | by intros []].
Qed.

(** The chain a finished step leaves. *)
Lemma imported_export im head R p n im1 a done :
  importer_inv im head R -> imported im head R p n im1 a -> seccomp_ckpt_export (im_heap im) head = Some done ->
  seccomp_ckpt_export (im_heap im1) (Some a) = Some (done ++ [p]).
Proof.
  intros [Hheap Hnext] [[Hinv1 Hnext1] _ _ Hsh _ Hold] Hdone.
  pose proof (heap_inv_closed _ _ Hheap) as Hc. pose proof (heap_inv_closed _ _ Hinv1) as Hc1.
  assert (live (im_heap im) head) as Hl by (intros b ->; apply (hi_root _ _ Hheap); constructor).
  destruct (im_heap im1 !! a) as [f |] eqn:Ha; [| done]. unfold shape in Hsh. simpl in Hsh. injection Hsh as Hp Hlog Hins.
  assert (live (im_heap im1) head) as Hl1 by (intros b ->; by destruct (Hc1 a f b Ha Hp)).
  destruct (walk_total _ _ Hc Hl) as [l Hw]. destruct (walk_total _ _ Hc1 Hl1) as [l1 Hw1].
  assert (progs l1 = progs l) as E.
  { destruct Hold as [Hle | Hle].
    - destruct (walk_heap_le _ _ _ _ Hc1 Hc Hle Hw1) as (k & Hk & Ek). congruence.
    - destruct (walk_install _ _ _ _ _ _ head l Hc Hc1 Hnext Hl Hle Hl Hl1 Hw) as (k & Hk & Ek). congruence. }
  rewrite (export_walk _ _ ((a, f) :: l1)).
  - rewrite (export_walk _ _ l Hw) in Hdone. injection Hdone as <-. simpl. rewrite E. do 2 f_equal.
    unfold prog_of. simpl. rewrite Hlog, Hins. by destruct p.
  - apply walk_some; [done | intros b Hb; by destruct (Hc1 a f b Ha Hb) | by rewrite Hp].
Qed.

Lemma import_loop_spec al R ps im head done :
  importer_inv im head R -> importer_room im R (length ps) -> Forall prog_ok ps -> allocs_ok al ->
  seccomp_ckpt_export (im_heap im) head = Some done ->
  exists im' head', import_loop al im head ps = Some (im', head') /\
    importer_inv im' head' R /\ ext im im' /\ seccomp_ckpt_export (im_heap im') head' = Some (done ++ ps).
Proof.
  revert im head done. induction ps as [| p ps IH]; intros im head done Hinv Hroom Hps Hal Hd.
  { exists im, head. rewrite app_nil_r. auto using ext_refl. }
  inversion_clear Hps as [| ? ? Hp Hps'].
  destruct (import_step im head R p (length ps) al ps Hinv Hroom Hp Hal) as (im1 & a & -> & Hi & _).
  pose proof (imported_export _ _ _ _ _ _ _ _ Hinv Hi Hd) as Hd1.
  destruct Hi as [Hinv1 Hroom1 Hext _ _ _].
  destruct (IH im1 (Some a) (done ++ [p]) Hinv1 Hroom1 Hps' Hal Hd1) as (im' & head' & E & Hinv' & Hext' & Hd').
  exists im', head'. rewrite <- app_assoc in Hd'. eauto using ext_trans.
Qed.

Lemma export_total im head R : importer_inv im head R -> exists ps, seccomp_ckpt_export (im_heap im) head = Some ps.
Proof.
  intros [Hheap _]. destruct (walk_total (im_heap im) head) as [l Hl].
  - by eapply heap_inv_closed.
  - intros b ->. apply (hi_root _ _ Hheap). constructor.
  - exists (rev (map prog_of (progs l))). by apply export_walk.
Qed.

(** Importing the same programs later finds the filters made the first time. *)
Lemma import_loop_again al R R2 ps im head im' head' im2 :
  importer_inv im head R -> importer_room im R (length ps) -> Forall prog_ok ps -> allocs_ok al ->
  import_loop al im head ps = Some (im', head') ->
  ext im' im2 -> importer_inv im2 head R2 -> importer_room im2 R2 (length ps) ->
  exists im3, import_loop al im2 head ps = Some (im3, head') /\ im_next im3 = im_next im2.
Proof.
  revert im head im2. induction ps as [| p ps IH]; intros im head im2 Hinv Hroom Hps Hal Hrun Hext Hinv2 Hroom2.
  { simpl in *. simplify_eq. eauto. }
  inversion_clear Hps as [| ? ? Hp Hps'].
  destruct (import_step im head R p (length ps) al ps Hinv Hroom Hp Hal) as (im1 & a & E1 & Hi & _).
  rewrite E1 in Hrun. destruct Hi as [Hinv1 Hroom1 _ _ Hfound _].
  destruct (export_total im1 (Some a) R Hinv1) as [ps1 Hps1].
  destruct (import_loop_spec al R ps im1 (Some a) ps1 Hinv1 Hroom1 Hps' Hal Hps1) as (? & ? & E & _ & Hext1 & _).
  simplify_eq.
  assert (import_find im2 head p = Some a) as Hf2 by (eapply import_find_ext; [by eapply ext_trans | done]).
  destruct (import_step im2 head R2 p (length ps) al ps Hinv2 Hroom2 Hp Hal) as (im3 & a3 & E3 & Hi3 & Hn3).
  destruct Hi3 as [Hinv3 Hroom3 Hext3 _ Hfound3 _].
  assert (a3 = a) as -> by (pose proof (import_find_ext _ _ _ _ _ Hext3 Hf2); congruence).
  destruct (IH im1 (Some a) im3 Hinv1 Hroom1 Hps' Hal Hrun) as (im4 & E4 & Hn4);
    [by eapply ext_trans | done | done |].
  exists im4. rewrite E3, E4, Hn4, Hn3 by (by eexists). done.
Qed.

(** Letting go of the table of seen filters. *)
Lemma release_all_inv h seen R n :
  heap_inv h (seen ++ R) -> fits h (seen ++ R) n ->
  exists h', release_all h seen = Some h' /\ heap_inv h' R /\ heap_le h' h.
Proof.
  revert h. induction seen as [| a seen IH]; intros h Hinv Hfit; simpl; [eauto using heap_le_refl |].
  destruct (release_inv h (seen ++ R) (Some a) n Hinv Hfit) as (h1 & -> & H1 & Hle1 & Hs1).
  destruct (IH h1 H1) as (h' & E & H' & Hle').
  { destruct Hfit as [Hf Hn]. split; [| done]. simpl in Hf. lia. }
  exists h'. eauto using heap_le_trans.
Qed.

Lemma export_heap_le h' h o ps :
  closed h' -> closed h -> live h' o -> heap_le h' h -> seccomp_ckpt_export h o = Some ps ->
  seccomp_ckpt_export h' o = Some ps.
Proof.
  intros Hc' Hc Hl Hle Hps. destruct (walk_total h' o Hc' Hl) as [l Hw].
  destruct (walk_heap_le h' h o l Hc' Hc Hle Hw) as (k & Hk & E).
  rewrite (export_walk _ _ _ Hw). rewrite (export_walk _ _ _ Hk) in Hps. congruence.
Qed.

Lemma chain_prog_ok w l : world_inv w -> (forall a f, (a, f) ∈ l -> w_heap w !! a = Some f) ->
  Forall prog_ok (rev (map prog_of (progs l))).
Proof.
  intros Hw Hl. apply Forall_rev. unfold progs. rewrite map_map. apply Forall_map, Forall_forall.
  intros [a f] Hin. pose proof (wi_checked w Hw a f (Hl a f Hin)) as [Hlen _ Hok].
  unfold prog_ok. simpl. unfold BPF_MAXINSNS_ in *. split; [lia | done].
Qed.

(** ** Properties *)

(** C37: saving a thread's filters and restoring them, at any point of a restore
    where memory does not run out, rebuilds a chain of the same programs, in
    the same order and with the same log flags; reference counts are right
    after every import and after the restore lets go of its table, and the
    chain is still there then. *)
Theorem seccomp_ckpt_roundtrip w j t al im R :
  world_inv w -> w_threads w !! j = Some t -> allocs_ok al -> importer_inv im None R ->
  (forall ps, seccomp_ckpt_export (w_heap w) (t_filter t) = Some ps -> importer_room im R (length ps)) ->
  exists ps im' head,
    seccomp_ckpt_export (w_heap w) (t_filter t) = Some ps /\
    seccomp_ckpt_import al im ps = Some (im', head) /\ importer_inv im' head R /\
    seccomp_ckpt_export (im_heap im') head = Some ps /\
    (importer_room im' R 0 -> exists im'', seccomp_ckpt_import_done im' = Some im'' /\
       heap_inv (im_heap im'') (option_list head ++ R) /\ seccomp_ckpt_export (im_heap im'') head = Some ps).
Proof.
  intros Hw Ht Hal Hinv Hroom. destruct (thread_walk w j t Hw Ht) as [l Hl].
  pose proof (heap_inv_closed _ _ (wi_heap w Hw)) as Hc.
  exists (rev (map prog_of (progs l))). pose proof (export_walk _ _ _ Hl) as Hps.
  assert (Forall prog_ok (rev (map prog_of (progs l)))) as Hok.
  { eapply chain_prog_ok; [done |]. intros a f Hin. by eapply walk_lookup. }
  destruct (import_loop_spec al R _ im None [] Hinv (Hroom _ Hps) Hok Hal) as (im' & head & E & Hinv' & _ & Hex); [done |].
  exists im', head. split; [done |]. split; [done |]. split; [done |]. split; [done |].
  intros Hroom'. unfold importer_room in Hroom'. destruct Hinv' as [Hheap Hnext].
  pose proof (head_length head).
  assert (heap_inv (im_heap im') (im_seen im' ++ option_list head ++ R)) as Hheap'.
  { eapply heap_inv_perm; [| exact Hheap]. rewrite !app_assoc. f_equiv. apply Permutation_app_comm. }
  destruct (release_all_inv _ _ _ (2 ^ 32 - 1) Hheap') as (h' & Er & Hh' & Hle).
  { split; [rewrite !length_app; lia | lia]. }
  exists (mk_importer h' (im_next im') []). unfold seccomp_ckpt_import_done. rewrite Er.
  split; [done |]. split; [done |]. apply (export_heap_le h' (im_heap im')); auto.
  - by eapply heap_inv_closed.
  - by eapply heap_inv_closed.
  - intros b ->. apply (hi_root _ _ Hh'). constructor.
Qed.

(** Tasks that shared a chain when they were saved share one again: after a
    chain has been imported, importing the same programs (whatever else was
    imported in between) gives the same filter and makes none. *)
Theorem seccomp_ckpt_shares al im R ps im' head im2 R2 :
  allocs_ok al -> Forall prog_ok ps -> importer_inv im None R -> importer_room im R (length ps) ->
  seccomp_ckpt_import al im ps = Some (im', head) ->
  ext im' im2 -> importer_inv im2 None R2 -> importer_room im2 R2 (length ps) ->
  exists im3, seccomp_ckpt_import al im2 ps = Some (im3, head) /\ im_next im3 = im_next im2.
Proof. intros Hal Hps Hinv Hroom Hrun Hext Hinv2 Hroom2. exact (import_loop_again al R R2 ps im None im' head im2 Hinv Hroom Hps Hal Hrun Hext Hinv2 Hroom2). Qed.

(** ** Witnesses *)

Definition demo_importer : importer := mk_importer ∅ 0 [].
Definition demo_progs : list ckpt_prog := [mk_prog false demo_filter].

Lemma demo_importer_inv : importer_inv demo_importer None [].
Proof.
  split; simpl; [split |]; try (intros a f Ha; rewrite lookup_empty in Ha; done).
  - intros a f b Ha. by rewrite lookup_empty in Ha.
  - by intros a Ha%elem_of_nil.
Qed.

Lemma demo_progs_ok : Forall prog_ok demo_progs.
Proof. apply Forall_singleton. split; [vm_compute; split; congruence | vm_compute; reflexivity]. Qed.

Lemma seccomp_ckpt_roundtrip_witness :
  exists ps im' head,
    seccomp_ckpt_export (w_heap demo_world) (Some 0%nat) = Some ps /\
    seccomp_ckpt_import (fun _ => demo_allocs) demo_importer ps = Some (im', head) /\
    seccomp_ckpt_export (im_heap im') head = Some ps.
Proof.
  destruct (seccomp_ckpt_roundtrip demo_world 0 demo_thread (fun _ => demo_allocs) demo_importer [])
    as (ps & im' & head & H1 & H2 & _ & H3 & _);
    [exact demo_world_inv | reflexivity | intros n; reflexivity | exact demo_importer_inv | |].
  - intros ps E. vm_compute in E. injection E as <-. vm_compute. reflexivity.
  - exists ps, im', head. exact (conj H1 (conj H2 H3)).
Defined.

Definition demo_importer' : importer :=
  mk_importer {[ 0%nat := mk_filter 1 None false demo_filter ]} 1 [0%nat].

Lemma seccomp_ckpt_shares_witness :
  exists im3, seccomp_ckpt_import (fun _ => demo_allocs) demo_importer' demo_progs = Some (im3, Some 0%nat) /\
    im_next im3 = 1%nat.
Proof.
  apply (seccomp_ckpt_shares (fun _ => demo_allocs) demo_importer [] demo_progs
    (mk_importer {[ 0%nat := mk_filter 2 None false demo_filter ]} 1 [0%nat]) (Some 0%nat) demo_importer' []);
    [intros n; reflexivity | exact demo_progs_ok | exact demo_importer_inv | vm_compute; reflexivity
    | vm_compute; reflexivity | | | vm_compute; reflexivity].
  - exists []. split; [reflexivity |]. intros a Ha. apply list_elem_of_singleton in Ha as ->. vm_compute. reflexivity.
  - pose proof demo_world_inv as [Hh _ _ _ _ _]. split; [exact Hh |].
    intros a f Ha. cbn in Ha. apply lookup_singleton_Some in Ha as [<- _]. simpl. lia.
Defined.
