(* ===== verification/FileLock.v ===== *)
(** * POSIX record locks, OFD locks and flock (fs/lock.c)

    An inode keeps two lists of locks: byte-range locks, grouped by owner, and
    whole-file flock locks.  The operations are translated list walk by list
    walk; what sleeps or wakes is a value (whether waiters were notified, that a
    call must wait).  The abstract state is the map from owner and byte to the
    type of lock held, and [file_lock_acquire] implements exactly an update of
    that map; the waits-for graph stays acyclic as long as the detection's walk
    bound is not exceeded; lock ranges are computed without overflow. *)

From Stdlib Require Import ZifyBool.
From S2P Require Import Prelude.

Definition F_RDLCK_ := 0.
Definition F_WRLCK_ := 1.
Definition F_UNLCK_ := 2.
Definition LOCK_SH_ := 1.
Definition LOCK_EX_ := 2.
Definition LOCK_NB_ := 4.
Definition LOCK_UN_ := 8.
Definition LSEEK_SET := 0.
Definition LSEEK_CUR := 1.
Definition LSEEK_END := 2.
Definition O_ACCMODE_ := 3.
Definition O_RDONLY_ := 0.
Definition O_WRONLY_ := Z.shiftl 1 0.
Definition OFF_T_MAX := 2 ^ 63 - 1.

(** [struct file_lock] without its list links. *)
Record file_lock := mk_lock {
  l_start : Z; l_end : Z; l_type : Z; l_pid : Z; l_comm : list Z; l_owner : Z }.

#[export] Instance file_lock_eq_dec : EqDecision file_lock.
Proof. solve_decision. Defined.

Definition set_start (s : Z) (l : file_lock) := mk_lock s (l_end l) (l_type l) (l_pid l) (l_comm l) (l_owner l).
Definition set_end (e : Z) (l : file_lock) := mk_lock (l_start l) e (l_type l) (l_pid l) (l_comm l) (l_owner l).

(** ** Byte-range locks *)

Definition file_locks_overlap (a b : file_lock) : bool :=
  (l_end a >=? l_start b) && (l_end b >=? l_start a).

Definition file_locks_conflict (a b : file_lock) : bool :=
  if l_owner a =? l_owner b then false else
  if negb (file_locks_overlap a b) then false else
  (l_type a =? F_WRLCK_) || (l_type b =? F_WRLCK_).

Definition file_locks_adjacent (a b : file_lock) : bool :=
  (l_end a =? s64 (l_start b - 1)) || (l_end b =? s64 (l_start a - 1)).

Definition flock_locks_conflict (a b : file_lock) : bool :=
  if l_owner a =? l_owner b then false else
  (l_type a =? F_WRLCK_) || (l_type b =? F_WRLCK_).

Definition file_lock_test (posix_locks : list file_lock) (request : file_lock) : option file_lock :=
  List.find (fun lock => file_locks_conflict lock request) posix_locks.

(** What the second loop does with one of the request's owner's locks: the
    request (extended by a merge), what is left of the lock, and whether
    waiters were notified. *)
Definition acquire_one (request lock : file_lock) : file_lock * list file_lock * bool :=
  if l_type request =? l_type lock then
    if negb (file_locks_overlap lock request) && negb (file_locks_adjacent request lock)
    then (request, [lock], false)
    else
      let request := if l_start lock <? l_start request then set_start (l_start lock) request else request in
      let request := if l_end lock >? l_end request then set_end (l_end lock) request else request in
      (request, [], false)
  else if negb (file_locks_overlap lock request) then (request, [lock], false)
  else if (l_start request >? l_start lock) && (l_end request <? l_end lock) then
    (request, [set_end (s64 (l_start request - 1)) lock; set_start (s64 (l_end request + 1)) lock], true)
  else if (l_start request <=? l_start lock) && (l_end request >=? l_end lock) then (request, [], true)
  else if l_start lock <? l_start request then (request, [set_end (s64 (l_start request - 1)) lock], true)
  else if l_end lock >? l_end request then (request, [set_start (s64 (l_end request + 1)) lock], true)
  else (request, [lock], true).

(** The second loop: the final request, the list up to where the loop stopped
    and from there on. *)
Fixpoint acquire_walk (found_our_locks : bool) (request : file_lock) (locks : list file_lock)
    : file_lock * list file_lock * list file_lock * bool :=
  match locks with
  | [] => (request, [], [], false)
  | lock :: rest =>
      if negb (l_owner lock =? l_owner request) then
        if found_our_locks then (request, [], lock :: rest, false)
        else let '(r, before, from, n) := acquire_walk false request rest in (r, lock :: before, from, n)
      else
        let '(r1, keep, n1) := acquire_one request lock in
        let '(r2, before, from, n2) := acquire_walk true r1 rest in
        (r2, keep ++ before, from, n1 || n2)
  end.

(** The new list, the error, and whether posix_unlock was notified. *)
Definition file_lock_acquire (posix_locks : list file_lock) (request : file_lock) : list file_lock * Z * bool :=
  if negb (l_type request =? F_UNLCK_) && existsb (fun lock => file_locks_conflict lock request) posix_locks
  then (posix_locks, _EAGAIN, false)
  else
    let '(r, before, from, n) := acquire_walk false request posix_locks in
    if negb (l_type request =? F_UNLCK_) then (before ++ r :: from, 0, n) else (before ++ from, 0, n).

(** ** Deadlock detection *)

Record lock_waiter := mk_waiter { lw_owner : Z; lw_blocked_on : Z }.

Definition NULL := 0.

(** The first waiter of an owner, as the inner loop finds it. *)
Definition blocked_on (waiters : list lock_waiter) (cur : Z) : Z :=
  match List.find (fun w => lw_owner w =? cur) waiters with Some w => lw_blocked_on w | None => NULL end.

Fixpoint deadlock_walk (depth : nat) (waiters : list lock_waiter) (self cur : Z) : bool :=
  match depth with
  | O => false
  | S depth => if cur =? NULL then false else
               if cur =? self then true else deadlock_walk depth waiters self (blocked_on waiters cur)
  end.

Definition posix_lock_would_deadlock (waiters : list lock_waiter) (self blocker : Z) : bool :=
  if (self =? NULL) || (blocker =? NULL) || (self =? blocker) then false
  else deadlock_walk 1024 waiters self blocker.

Definition posix_lock_waiter_add (waiters : list lock_waiter) (self blocker : Z) : list lock_waiter :=
  mk_waiter self blocker :: waiters.

(** A waiter is removed by its address: its position in the list. *)
Definition posix_lock_waiter_remove (waiters : list lock_waiter) (i : nat) : list lock_waiter :=
  list_delete i waiters.

(** ** fcntl *)

(** [struct flock_]. *)
Record flock := mk_flock { fl_type : Z; fl_whence : Z; fl_start : Z; fl_len : Z; fl_pid : Z; fl_comm : list Z }.

(** What the file's operations answer: [fd->ops->lseek(fd, 0, LSEEK_CUR)] and
    [fstat]'s size or error, each [None] where there is no such operation; and
    who is calling. *)
Record caller := mk_caller {
  c_lseek : option Z; c_fstat : option (Z + Z); c_fd : Z; c_files : Z; c_tgid : Z; c_pid : Z; c_comm : list Z }.

Definition flock_offset (c : caller) (whence : Z) : Z + Z :=
  if whence =? LSEEK_SET then inr 0
  else if whence =? LSEEK_CUR then
    match c_lseek c with
    | None => inl _ESPIPE
    | Some offset => if offset <? 0 then inl offset else inr offset
    end
  else if whence =? LSEEK_END then
    match c_fstat c with
    | None => inl _ESPIPE
    | Some (inl err) => inl err
    | Some (inr size) => inr (s64 size)
    end
  else inl _EINVAL.

(** The range checks, on 64-bit signed integers. *)
Definition flock_range (offset start0 len : Z) : Z + (Z * Z) :=
  if start0 >? s64 (OFF_T_MAX - offset) then inl _EOVERFLOW else
  let start := s64 (offset + start0) in
  if start <? 0 then inl _EINVAL else
  if len >? 0 then
    if s64 (len - 1) >? s64 (OFF_T_MAX - start) then inl _EOVERFLOW
    else inr (start, s64 (start + len - 1))
  else if len <? 0 then
    if s64 (start + len) <? 0 then inl _EINVAL else inr (s64 (start + len), s64 (start - 1))
  else inr (start, OFF_T_MAX).

Definition file_lock_from_flock (c : caller) (f : flock) (ofd : bool) : Z + file_lock :=
  match flock_offset c (fl_whence f) with
  | inl err => inl err
  | inr offset =>
      match flock_range offset (fl_start f) (fl_len f) with
      | inl err => inl err
      | inr (start, end_) =>
          let comm := take 16 (c_comm c) in
          inr (if ofd then mk_lock start end_ (fl_type f) (-1) comm (c_fd c)
               else mk_lock start end_ (fl_type f) (c_tgid c) comm (c_files c))
      end
  end.

(** [pid_shown] is current_pid_shown. *)
Definition flock_from_file_lock (pid_shown : Z -> Z) (lock : file_lock) : flock :=
  mk_flock (l_type lock) LSEEK_SET (l_start lock)
    (if negb (l_end lock =? OFF_T_MAX) then s64 (s64 (l_end lock - l_start lock) + 1) else 0)
    (pid_shown (l_pid lock)) (l_comm lock).

Definition set_fl_type (t : Z) (f : flock) : flock :=
  mk_flock t (fl_whence f) (fl_start f) (fl_len f) (fl_pid f) (fl_comm f).

(** [inode] is [None] for a file without one. *)
Definition fcntl_getlk (pid_shown : Z -> Z) (c : caller) (inode : option (list file_lock)) (f : flock) (ofd : bool)
    : flock * Z :=
  if negb (fl_type f =? F_RDLCK_) && negb (fl_type f =? F_WRLCK_) then (f, _EINVAL) else
  match inode with
  | None => (set_fl_type F_UNLCK_ f, 0)
  | Some posix_locks =>
      match file_lock_from_flock c f ofd with
      | inl err => (f, err)
      | inr request =>
          match file_lock_test posix_locks request with
          | Some lock => (flock_from_file_lock pid_shown lock, 0)
          | None => (set_fl_type F_UNLCK_ f, 0)
          end
      end
  end.

(** Everything before the first attempt: an early answer, or the request. *)
Definition setlk_begin (c : caller) (fd_flags : Z) (inode : option (list file_lock)) (f : flock) (ofd : bool) : Z + file_lock :=
  if negb (fl_type f =? F_RDLCK_) && negb (fl_type f =? F_WRLCK_) && negb (fl_type f =? F_UNLCK_) then inl _EINVAL else
  let fd_mode := fd_flags .& O_ACCMODE_ in
  if (fl_type f =? F_RDLCK_) && (fd_mode =? O_WRONLY_) then inl _EBADF else
  if (fl_type f =? F_WRLCK_) && (fd_mode =? O_RDONLY_) then inl _EBADF else
  match inode with
  | None => inl 0
  | Some _ => file_lock_from_flock c f ofd
  end.

(** One turn of the loop: it ended with an error code, or the caller is asleep
    on posix_unlock with its waiter at the head of the list. *)
Inductive round := Finished (err : Z) | Asleep.

Definition setlk_round (posix_locks : list file_lock) (waiters : list lock_waiter) (request : file_lock) (blocking : bool)
    : list file_lock * list lock_waiter * bool * round :=
  let '(locks', err, n) := file_lock_acquire posix_locks request in
  if negb (err =? _EAGAIN) then (locks', waiters, n, Finished err) else
  if negb blocking then (locks', waiters, n, Finished err) else
  let blocker_owner := match file_lock_test posix_locks request with Some b => l_owner b | None => NULL end in
  if posix_lock_would_deadlock waiters (l_owner request) blocker_owner
  then (locks', waiters, n, Finished _EDEADLK)
  else (locks', posix_lock_waiter_add waiters (l_owner request) blocker_owner, n, Asleep).

(** ** flock *)

(** [LOCK_SH] etc.: an early error, or the locks left, whether waiters were
    notified, and the request to place ([None] for LOCK_UN). *)
Definition flock_begin (c : caller) (inode : option (list file_lock)) (operation : Z)
    : Z + (list file_lock * bool * option file_lock) :=
  let op := operation .& (LOCK_SH_ .| LOCK_EX_ .| LOCK_UN_) in
  if negb (op =? LOCK_SH_) && negb (op =? LOCK_EX_) && negb (op =? LOCK_UN_) then inl _EINVAL else
  match inode with
  | None => inl _EBADF
  | Some flock_locks =>
      let left := List.filter (fun lock => negb (l_owner lock =? c_fd c)) flock_locks in
      let removed := existsb (fun lock => l_owner lock =? c_fd c) flock_locks in
      if op =? LOCK_UN_ then inr (left, removed, None)
      else inr (left, removed, Some (mk_lock 0 OFF_T_MAX (if op =? LOCK_EX_ then F_WRLCK_ else F_RDLCK_) (c_pid c) (take 16 (c_comm c)) (c_fd c)))
  end.

Definition flock_round (flock_locks : list file_lock) (request : file_lock) (operation : Z) : list file_lock * round :=
  if existsb (fun lock => flock_locks_conflict lock request) flock_locks
  then if has_flag operation LOCK_NB_ then (flock_locks, Finished _EAGAIN) else (flock_locks, Asleep)
  else (flock_locks ++ [request], Finished 0).

(** ** Closing *)

Definition file_lock_remove_owned_by (posix_locks : list file_lock) (owner : Z) : list file_lock * bool :=
  (List.filter (fun lock => negb (l_owner lock =? owner)) posix_locks,
   existsb (fun lock => l_owner lock =? owner) posix_locks).

Definition flock_remove_owned_by (flock_locks : list file_lock) (fd : Z) : list file_lock * bool :=
  (List.filter (fun lock => negb (l_owner lock =? fd)) flock_locks,
   existsb (fun lock => l_owner lock =? fd) flock_locks).

(** ** Specification *)

(** Byte [b] is in a lock's range. *)
Definition covers (l : file_lock) (b : Z) : Prop := l_start l <= b <= l_end l.

#[export] Instance covers_dec l b : Decision (covers l b).
Proof. unfold covers. apply _. Defined.

(** The abstract state: the type of lock an owner holds on a byte. *)
Definition held (ls : list file_lock) (o b : Z) : option Z :=
  match List.find (fun l => (l_owner l =? o) && bool_decide (covers l b)) ls with
  | Some l => Some (l_type l)
  | None => None
  end.

Definition range_ok (l : file_lock) : Prop := 0 <= l_start l <= l_end l /\ l_end l <= OFF_T_MAX.
Definition lock_ok (l : file_lock) : Prop := range_ok l /\ (l_type l = F_RDLCK_ \/ l_type l = F_WRLCK_).
Definition request_ok (r : file_lock) : Prop :=
  range_ok r /\ (l_type r = F_RDLCK_ \/ l_type r = F_WRLCK_ \/ l_type r = F_UNLCK_).

Definition disjoint_locks (a b : file_lock) : Prop := forall x, covers a x -> covers b x -> False.

(** Locks of one owner are disjoint; locks of two owners do not conflict. *)
Definition compatible (a b : file_lock) : Prop :=
  if decide (l_owner a = l_owner b) then disjoint_locks a b else file_locks_conflict a b = false.

(** The owner's locks are next to each other. *)
Definition grouped_for (o : Z) (ls : list file_lock) : Prop :=
  exists pre mine post, ls = pre ++ mine ++ post /\
    Forall (fun l => l_owner l <> o) pre /\ Forall (fun l => l_owner l = o) mine /\ Forall (fun l => l_owner l <> o) post.

Record locks_inv (ls : list file_lock) : Prop := mk_locks_inv {
  li_ok : Forall lock_ok ls;
  li_compat : ForallOrdPairs compatible ls;
  li_grouped : forall o, grouped_for o ls }.

(** *** Ranges *)

Lemma overlap_spec a b : range_ok a -> range_ok b ->
  file_locks_overlap a b = true <-> exists x, covers a x /\ covers b x.
Proof.
  unfold range_ok, covers. intros [Ha _] [Hb _]. unfold file_locks_overlap.
  rewrite andb_true_iff, !Z.geb_leb, !Z.leb_le. split.
  - intros [H1 H2]. exists (Z.max (l_start a) (l_start b)). lia.
  - intros (x & H1 & H2). lia.
Qed.

Lemma overlap_sym a b : file_locks_overlap a b = file_locks_overlap b a.
Proof. unfold file_locks_overlap. apply andb_comm. Qed.

Lemma conflict_spec a b : range_ok a -> range_ok b ->
  file_locks_conflict a b = true <->
  l_owner a <> l_owner b /\ (exists x, covers a x /\ covers b x) /\ (l_type a = F_WRLCK_ \/ l_type b = F_WRLCK_).
Proof.
  intros Ha Hb. rewrite <- (overlap_spec a b Ha Hb). unfold file_locks_conflict.
  destruct (Z.eqb_spec (l_owner a) (l_owner b)); [naive_solver |].
  destruct (file_locks_overlap a b); simpl; [| naive_solver].
  rewrite orb_true_iff, !Z.eqb_eq. naive_solver.
Qed.

Lemma s64_small x : - 2 ^ 63 <= x < 2 ^ 63 -> s64 x = x.
Proof. intros H. apply swrap_small; [lia |]. unfold in_s. lia. Qed.

(** *** One of the owner's locks *)

(** The request only grows, by the lock; what is left of the lock is the part
    outside the request. *)
Record one_spec (r l r' : file_lock) (keep : list file_lock) (n : bool) : Prop := mk_one {
  o_range : range_ok r';
  o_same : l_type r' = l_type r /\ l_owner r' = l_owner r;
  o_grow : forall b, covers r b -> covers r' b;
  o_by : forall b, covers r' b -> covers r b \/ (covers l b /\ l_type l = l_type r);
  o_keep : Forall (fun k => range_ok k /\ l_type k = l_type l /\ l_owner k = l_owner l) keep;
  o_left : forall b, (exists k, k ∈ keep /\ covers k b) <-> covers l b /\ ~ covers r' b;
  o_disj : ForallOrdPairs disjoint_locks keep;
  o_quiet : n = false -> forall b, covers l b -> covers r' b -> l_type l = l_type r }.

Lemma exists_single (k : file_lock) (P : file_lock -> Prop) : (exists x, x ∈ [k] /\ P x) <-> P k.
Proof.
  split; [intros (x & Hx & HP) | intros HP; exists k; split; [constructor | done]].
  by apply list_elem_of_singleton in Hx as ->.
Qed.

Lemma exists_nil (P : file_lock -> Prop) : (exists x, x ∈ [] /\ P x) <-> False.
Proof. split; [intros (x & Hx & _); by apply elem_of_nil in Hx | done]. Qed.

Lemma exists_pair (j k : file_lock) (P : file_lock -> Prop) : (exists x, x ∈ [j; k] /\ P x) <-> P j \/ P k.
Proof.
  split.
  - intros (x & Hx & HP). apply elem_of_cons in Hx as [-> | Hx]; [by left | right].
    by apply list_elem_of_singleton in Hx as ->.
  - intros [HP | HP]; [exists j | exists k]; (split; [| done]); [constructor | constructor 2; constructor].
Qed.

Lemma acquire_one_spec r l r' keep n :
  range_ok r -> range_ok l -> acquire_one r l = (r', keep, n) -> one_spec r l r' keep n.
Proof.
  unfold acquire_one. intros Hr Hl H. pose proof Hr as [Hr1 Hr2]. pose proof Hl as [Hl1 Hl2].
  unfold OFF_T_MAX in *.
  assert (s64 (l_start r - 1) = l_start r - 1) as Es by (apply s64_small; lia).
  assert (s64 (l_start l - 1) = l_start l - 1) as Es' by (apply s64_small; lia).
  repeat case_on_match_in H; simplify_eq; unfold file_locks_overlap, file_locks_adjacent in *; rewrite ?Es, ?Es' in *.
  all: try (assert (s64 (l_end r' + 1) = l_end r' + 1) as Ee by (apply s64_small; lia); rewrite ?Ee in * ).
  all: split; unfold range_ok, disjoint_locks, covers, OFF_T_MAX; cbn [l_start l_end l_type l_owner set_start set_end] in *.
  all: try (intros; lia).
  all: try (intros b; rewrite ?exists_single, ?exists_nil, ?exists_pair; cbn [l_start l_end l_type l_owner set_start set_end]; lia).
  all: repeat (apply Forall_cons_2 || apply Forall_nil_2 || apply FOP_cons || apply FOP_nil);
    cbn [l_start l_end l_type l_owner set_start set_end]; try lia; intros; lia.
Qed.

(** *** All of the owner's locks *)

Fixpoint acquire_group (r : file_lock) (mine : list file_lock) : file_lock * list file_lock * bool :=
  match mine with
  | [] => (r, [], false)
  | l :: rest => let '(r1, keep, n1) := acquire_one r l in
                 let '(r2, kept, n2) := acquire_group r1 rest in (r2, keep ++ kept, n1 || n2)
  end.

(** Type [t] is held on byte [b] by one of the locks. *)
Definition on (ls : list file_lock) (t b : Z) : Prop := exists l, l ∈ ls /\ l_type l = t /\ covers l b.

Lemma on_nil t b : on [] t b <-> False.
Proof. split; [intros (l & Hl & _); by apply elem_of_nil in Hl | done]. Qed.

Lemma on_app ls ks t b : on (ls ++ ks) t b <-> on ls t b \/ on ks t b.
Proof. unfold on. setoid_rewrite elem_of_app. naive_solver. Qed.

Lemma on_cons l ls t b : on (l :: ls) t b <-> (l_type l = t /\ covers l b) \/ on ls t b.
Proof. unfold on. setoid_rewrite elem_of_cons. naive_solver. Qed.

Record group_spec (r : file_lock) (mine : list file_lock) (r' : file_lock) (kept : list file_lock) (n : bool) : Prop := mk_group {
  g_range : range_ok r';
  g_same : l_type r' = l_type r /\ l_owner r' = l_owner r;
  g_grow : forall b, covers r b -> covers r' b;
  g_by : forall b, covers r' b -> covers r b \/ on mine (l_type r) b;
  g_kept : Forall (fun k => range_ok k /\ l_owner k = l_owner r) kept;
  g_left : forall t b, on kept t b <-> on mine t b /\ ~ covers r' b;
  g_disj : ForallOrdPairs disjoint_locks kept;
  g_quiet : n = false -> forall t b, on mine t b -> covers r' b -> t = l_type r }.

Lemma one_left_on r l r' keep n t b :
  one_spec r l r' keep n -> on keep t b <-> l_type l = t /\ covers l b /\ ~ covers r' b.
Proof.
  intros [_ _ _ _ Hk Hleft _ _]. rewrite Forall_forall in Hk. unfold on. split.
  - intros (k & Hin & <- & Hc). destruct (Hk k Hin) as (_ & -> & _). split; [done |]. apply Hleft. eauto.
  - intros [<- Hb]. apply Hleft in Hb as (k & Hin & Hc). exists k. destruct (Hk k Hin) as (_ & -> & _). eauto.
Qed.

Lemma fop_app {A} (R : A -> A -> Prop) l k :
  ForallOrdPairs R (l ++ k) <-> ForallOrdPairs R l /\ ForallOrdPairs R k /\ forall x y, x ∈ l -> y ∈ k -> R x y.
Proof.
  induction l as [| a l IH]; simpl.
  - split; [intros H; split; [constructor |]; split; [done |]; by intros ? ? ?%elem_of_nil | by intros (_ & ? & _)].
  - split.
    + inversion_clear 1 as [| ? ? Ha Hl]. apply IH in Hl as (Hl & Hk & Hx). apply Forall_app in Ha as [Ha Ha'].
      rewrite Forall_forall in Ha'. split; [by constructor |]. split; [done |].
      intros x y [-> | Hx']%elem_of_cons Hy; eauto.
    + intros (Hl & Hk & Hx). inversion_clear Hl as [| ? ? Ha Hl']. constructor.
      * apply Forall_app. split; [done |]. apply Forall_forall. intros y Hy. apply Hx; [constructor | done].
      * apply IH. split; [done |]. split; [done |]. intros x y Hx' Hy. apply Hx; [by constructor 2 | done].
Qed.

Lemma acquire_group_spec r mine r' kept n :
  range_ok r -> Forall (fun l => range_ok l /\ l_owner l = l_owner r) mine -> ForallOrdPairs disjoint_locks mine ->
  acquire_group r mine = (r', kept, n) -> group_spec r mine r' kept n.
Proof.
  revert r kept n. induction mine as [| l mine IH]; intros r kept n Hr Hm Hd Hrun; simpl in Hrun.
  { simplify_eq. split; auto; try apply FOP_nil; try (intros; exfalso; by eapply on_nil).
    intros t b. rewrite on_nil. tauto. }
  destruct (acquire_one r l) as [[r1 keep] n1] eqn:E1. destruct (acquire_group r1 mine) as [[r2 kept2] n2] eqn:E2. simplify_eq.
  inversion_clear Hm as [| ? ? [Hl Ho] Hm']. inversion_clear Hd as [| ? ? Hdl Hd'].
  pose proof (acquire_one_spec _ _ _ _ _ Hr Hl E1) as H1.
  pose proof (fun t b => one_left_on _ _ _ _ _ t b H1) as Hone.
  destruct H1 as [Hr1 [Ht1 Ho1] Hg1 Hby1 Hk1 Hleft1 Hdj1 Hq1].
  destruct (IH r1 kept2 n2 Hr1) as [Hr2 [Ht2 Ho2] Hg2 Hby2 Hk2 Hleft2 Hdj2 Hq2]; [by rewrite Ho1 | done | done |].
  assert (forall b, covers l b -> covers r' b -> covers r1 b) as Hext.
  { intros b Hb Hb'. destruct (Hby2 b Hb') as [? | (k & Hk & _ & Hkb)]; [done |].
    rewrite Forall_forall in Hdl. exfalso. by eapply (Hdl k Hk). }
  split; [done | by rewrite Ht2, Ho2 | auto | | | | |].
  - intros b Hb. rewrite on_cons. destruct (Hby2 b Hb) as [Hb1 | Hb1]; [| rewrite Ht1 in Hb1; auto].
    destruct (Hby1 b Hb1) as [? | [? ?]]; auto.
  - apply Forall_app. split; [| by rewrite <- Ho1].
    eapply Forall_impl; [exact Hk1 |]. simpl. intros k (? & _ & ->). done.
  - intros t b. rewrite on_app, on_cons, Hone, Hleft2. specialize (Hg2 b). specialize (Hext b). naive_solver.
  - apply fop_app. split; [done |]. split; [done |]. intros x1 y Hx Hy b Hxb Hyb.
    assert (covers l b) as Hlb by (apply Hleft1; eauto).
    assert (on mine (l_type y) b) as (k & Hk & _ & Hkb) by (apply Hleft2; exists y; eauto).
    rewrite Forall_forall in Hdl. by eapply (Hdl k Hk).
  - intros [Hn1 Hn2]%orb_false_iff t b Hon Hb. apply on_cons in Hon as [[<- Hlb] | Hon].
    + eapply (Hq1 Hn1 b); auto.
    + rewrite <- Ht1. by eapply (Hq2 Hn2).
Qed.

(** The walk over a grouped list is the walk over the owner's group. *)
Lemma acquire_walk_stop r mine post :
  Forall (fun l => l_owner l = l_owner r) mine -> Forall (fun l => l_owner l <> l_owner r) post ->
  acquire_walk true r (mine ++ post) =
  (let '(r', kept, n) := acquire_group r mine in (r', kept, post, n)).
Proof.
  revert r. induction mine as [| l mine IH]; intros r Hm Hp; simpl.
  - destruct post as [| q post]; [done |]. inversion_clear Hp as [| ? ? Hq _]. simpl.
    apply Z.eqb_neq in Hq. by rewrite Hq.
  - inversion_clear Hm as [| ? ? Hl Hm']. rewrite Hl, Z.eqb_refl. simpl.
    destruct (acquire_one r l) as [[r1 keep] n1] eqn:E1.
    assert (l_owner r1 = l_owner r) as Ho.
    { unfold acquire_one in E1. repeat case_on_match_in E1; simplify_eq; done. }
    rewrite IH by (by rewrite Ho). destruct (acquire_group r1 mine) as [[r2 kept] n2]. done.
Qed.

Lemma acquire_walk_grouped r pre mine post :
  Forall (fun l => l_owner l <> l_owner r) pre -> Forall (fun l => l_owner l = l_owner r) mine ->
  Forall (fun l => l_owner l <> l_owner r) post -> mine <> [] ->
  acquire_walk false r (pre ++ mine ++ post) =
  (let '(r', kept, n) := acquire_group r mine in (r', pre ++ kept, post, n)).
Proof.
  intros Hpre Hm Hp Hne. induction Hpre as [| q pre Hq Hpre IH]; simpl.
  - destruct mine as [| l mine]; [done |]. inversion_clear Hm as [| ? ? Hl Hm']. simpl. rewrite Hl, Z.eqb_refl. simpl.
    destruct (acquire_one r l) as [[r1 keep] n1] eqn:E1.
    assert (l_owner r1 = l_owner r) as Ho.
    { unfold acquire_one in E1. repeat case_on_match_in E1; simplify_eq; done. }
    rewrite acquire_walk_stop by (by rewrite Ho). destruct (acquire_group r1 mine) as [[r2 kept] n2]. done.
  - apply Z.eqb_neq in Hq. rewrite Hq. simpl. rewrite IH.
    destruct (acquire_group r mine) as [[r' kept] n]. done.
Qed.

Lemma acquire_walk_absent r pre :
  Forall (fun l => l_owner l <> l_owner r) pre -> acquire_walk false r pre = (r, pre, [], false).
Proof.
  induction 1 as [| q pre Hq _ IH]; simpl; [done |]. apply Z.eqb_neq in Hq. rewrite Hq. simpl. by rewrite IH.
Qed.

(** *** The whole list *)

Lemma conflict_sym a b : file_locks_conflict a b = file_locks_conflict b a.
Proof.
  unfold file_locks_conflict. rewrite (Z.eqb_sym (l_owner b)), (overlap_sym b), (orb_comm (l_type b =? F_WRLCK_)). done.
Qed.

Lemma compatible_sym a b : compatible a b -> compatible b a.
Proof.
  unfold compatible, disjoint_locks. rewrite conflict_sym. intros H. repeat case_decide; simplify_eq; try done; try congruence.
  intros x Hb Ha. eauto.
Qed.

Definition owned (ls : list file_lock) (o t b : Z) : Prop :=
  exists l, l ∈ ls /\ l_owner l = o /\ l_type l = t /\ covers l b.

Lemma held_owned ls o b t :
  ForallOrdPairs compatible ls -> held ls o b = Some t <-> owned ls o t b.
Proof.
  intros Hc. unfold held. destruct (List.find _ ls) as [l |] eqn:Ef.
  - apply List.find_some in Ef as [Hin Hl]. apply andb_true_iff in Hl as [Ho Hb].
    apply Z.eqb_eq in Ho. apply bool_decide_eq_true in Hb. split.
    + intros [= <-]. exists l. split; [by apply list_elem_of_In | done].
    + intros (l2 & Hin2 & Ho2 & <- & Hb2). apply list_elem_of_In in Hin2.
      destruct (ForallOrdPairs_In Hc l l2 Hin Hin2) as [-> | [Hr | Hr]]; [done | |];
        unfold compatible in Hr; rewrite decide_True in Hr by congruence; exfalso; by eapply Hr.
  - split; [done |]. intros (l & Hin & Ho & _ & Hb). apply list_elem_of_In in Hin.
    pose proof (List.find_none _ _ Ef l Hin) as Hn. simpl in Hn.
    rewrite Ho, Z.eqb_refl, bool_decide_eq_true_2 in Hn by done. done.
Qed.

Lemma held_none ls o b :
  ForallOrdPairs compatible ls -> held ls o b = None <-> forall t, ~ owned ls o t b.
Proof.
  intros Hc. split.
  - intros Hn t Ho. apply held_owned in Ho; [congruence | done].
  - intros Hn. destruct (held ls o b) as [t |] eqn:E; [| done]. apply held_owned in E; [| done]. by destruct (Hn t).
Qed.

(** What an unrefused [file_lock_acquire] makes of the list. *)
Record spliced (ls : list file_lock) (r : file_lock) (ls' : list file_lock) (n : bool) : Prop := mk_spliced {
  sp_parts : exists pre mine post r' kept,
    ls = pre ++ mine ++ post /\ (mine = [] -> post = []) /\
    Forall (fun l => l_owner l <> l_owner r) pre /\ Forall (fun l => l_owner l = l_owner r) mine /\
    Forall (fun l => l_owner l <> l_owner r) post /\ group_spec r mine r' kept n /\
    ls' = pre ++ (kept ++ (if l_type r =? F_UNLCK_ then [] else [r'])) ++ post }.

Lemma own_disjoint mine o :
  Forall (fun l => l_owner l = o) mine -> ForallOrdPairs compatible mine -> ForallOrdPairs disjoint_locks mine.
Proof.
  intros Hm. induction 1 as [| l mine Hl Hc IH]; constructor.
  - inversion_clear Hm as [| ? ? Ho Hm']. rewrite Forall_forall in *. intros k Hk. specialize (Hl k Hk).
    unfold compatible in Hl. rewrite decide_True in Hl; [done |]. by rewrite Ho, (Hm' k Hk).
  - apply IH. by inversion Hm.
Qed.

Lemma acquire_spliced ls r :
  locks_inv ls -> range_ok r ->
  (let '(r', before, from, n) := acquire_walk false r ls in
   spliced ls r (if negb (l_type r =? F_UNLCK_) then before ++ r' :: from else before ++ from) n).
Proof.
  intros [Hok Hc Hg] Hr. destruct (Hg (l_owner r)) as (pre & mine & post & -> & Hpre & Hm & Hpost).
  destruct (decide (mine = [])) as [-> | Hne].
  - simpl in *. rewrite acquire_walk_absent by (by apply Forall_app). split.
    exists (pre ++ post), [], [], r, []. rewrite !app_nil_r. split; [done |]. split; [done |].
    split; [by apply Forall_app |]. split; [constructor |]. split; [constructor |].
    split; [apply (acquire_group_spec r []); [done | constructor | constructor | done] |].
    simpl. destruct (l_type r =? F_UNLCK_); simpl; by rewrite ?app_nil_r.
  - rewrite acquire_walk_grouped by done. destruct (acquire_group r mine) as [[r' kept] n] eqn:E.
    split. exists pre, mine, post, r', kept. do 5 (split; [done |]). split.
    + apply acquire_group_spec; [done | | | done].
      * apply Forall_app in Hok as [_ [Hok _]%Forall_app]. rewrite Forall_forall in *. intros l Hl. split; [by apply Hok | auto].
      * apply fop_app in Hc as (_ & Hc & _). apply fop_app in Hc as (Hc & _ & _). by eapply own_disjoint.
    + destruct (l_type r =? F_UNLCK_); simpl; [by rewrite app_nil_r, <- app_assoc | by rewrite <- !app_assoc].
Qed.

(** Each byte of a lock put into the list was its owner's with the same type
    before, or is in the request. *)
Lemma new_from r mine r' kept n k x :
  group_spec r mine r' kept n -> k ∈ kept ++ (if l_type r =? F_UNLCK_ then [] else [r']) -> covers k x ->
  (exists l, l ∈ mine /\ l_type l = l_type k /\ covers l x) \/
  (l_type k = l_type r /\ covers r x /\ l_type r <> F_UNLCK_).
Proof.
  intros [_ [Ht _] _ Hby _ Hleft _ _] Hk Hx. apply elem_of_app in Hk as [Hk | Hk].
  - left. assert (on kept (l_type k) x) as Hon by (exists k; eauto).
    apply Hleft in Hon as [(l & ? & ? & ?) _]. eauto.
  - destruct (Z.eqb_spec (l_type r) F_UNLCK_) as [| Hu]; [by apply elem_of_nil in Hk |].
    apply list_elem_of_singleton in Hk as ->. rewrite Ht.
    destruct (Hby x Hx) as [? | (l & ? & ? & ?)]; [by right | left; eauto].
Qed.

Lemma new_ok r mine r' kept n :
  request_ok r -> Forall lock_ok mine -> group_spec r mine r' kept n ->
  Forall (fun k => lock_ok k /\ l_owner k = l_owner r) (kept ++ (if l_type r =? F_UNLCK_ then [] else [r'])).
Proof.
  intros [_ Hty] Hm [Hr' [Ht Ho] _ _ Hk Hleft _ _]. apply Forall_app. split.
  - rewrite Forall_forall in *. intros k Hin. destruct (Hk k Hin) as [Hrk Hok]. split; [split; [done |] | done].
    assert (on kept (l_type k) (l_start k)) as Hon by (exists k; unfold covers; destruct Hrk; eauto with lia).
    apply Hleft in Hon as [(l & Hl & <- & _) _]. by destruct (Hm l Hl).
  - destruct (Z.eqb_spec (l_type r) F_UNLCK_) as [| Hu]; constructor; [| constructor].
    split; [split; [done |] | done]. rewrite Ht. naive_solver.
Qed.

Lemma new_compatible r mine r' kept n k q :
  request_ok r -> Forall lock_ok mine -> Forall (fun l => l_owner l = l_owner r) mine -> group_spec r mine r' kept n ->
  lock_ok q -> l_owner q <> l_owner r -> Forall (fun l => compatible l q) mine ->
  (l_type r <> F_UNLCK_ -> file_locks_conflict q r = false) ->
  k ∈ kept ++ (if l_type r =? F_UNLCK_ then [] else [r']) -> compatible k q.
Proof.
  intros Hr Hm Ho Hg Hq Hne Hc Hnc Hk. pose proof (new_ok _ _ _ _ _ Hr Hm Hg) as Hnew. rewrite Forall_forall in *.
  destruct (Hnew k Hk) as [[Hkr _] Hko]. unfold compatible. rewrite decide_False by congruence.
  apply not_true_iff_false. rewrite conflict_spec by (done || apply Hq).
  intros (_ & (x & Hx & Hqx) & Hw).
  destruct (new_from _ _ _ _ _ k x Hg Hk Hx) as [(l & Hl & Hlt & Hlx) | (Hkt & Hrx & Hu)].
  - specialize (Hc l Hl). unfold compatible in Hc. rewrite decide_False in Hc by (rewrite Ho by done; congruence).
    apply not_true_iff_false in Hc. apply Hc. apply conflict_spec; [apply Hm, Hl | apply Hq |].
    split; [rewrite Ho by done; congruence |]. split; [eauto |]. by rewrite Hlt.
  - specialize (Hnc Hu). apply not_true_iff_false in Hnc. apply Hnc. apply conflict_spec; [apply Hq | apply Hr |].
    split; [done |]. split; [eauto |]. rewrite <- Hkt. tauto.
Qed.

(** Another owner's group survives a change inside ours. *)
Lemma grouped_splice o o' pre mine post new :
  o' <> o -> Forall (fun l => l_owner l = o) mine -> Forall (fun l => l_owner l = o) new -> (mine = [] -> post = []) ->
  grouped_for o' (pre ++ mine ++ post) -> grouped_for o' (pre ++ new ++ post).
Proof.
  intros Hne Hmine Hnew Hempty (p & m & q & E & Hp & Hm & Hq).
  assert (forall l, Forall (fun k : file_lock => l_owner k = o) l -> Forall (fun k => l_owner k <> o') l) as Hours.
  { intros l Hl. eapply Forall_impl; [exact Hl |]. simpl. intros; congruence. }
  assert (forall x, x ∈ mine -> x ∈ m -> False) as Hmm.
  { intros x H1 H2. rewrite Forall_forall in Hmine, Hm. apply Hne. rewrite <- (Hm x H2). by apply Hmine. }
  apply app_eq_inv in E as [(k & -> & E) | (k & -> & E)].
  - apply app_eq_inv in E as [(k2 & -> & E) | (k2 & -> & E)].
    + assert (k2 = []) as ->.
      { destruct k2 as [| x k2]; [done |]. exfalso. destruct mine as [| y mine].
        - rewrite Hempty in E by done. simplify_eq.
        - simpl in E. injection E as -> _. apply (Hmm x); [constructor | apply elem_of_app; right; constructor]. }
      simpl in E. rewrite app_nil_r in Hm. exists p, k, (new ++ post). rewrite <- app_assoc.
      rewrite <- E, Forall_app in Hq. split; [done |]. split; [done |]. split; [done |]. apply Forall_app. naive_solver.
    + exists p, m, (k2 ++ new ++ post). rewrite <- !app_assoc.
      rewrite E, !Forall_app in Hq. destruct Hq as (Hk2 & _ & Hpost). split; [done |].
      split; [done |]. split; [done |]. rewrite !Forall_app. auto.
  - apply app_eq_inv in E as [(k2 & -> & E) | (k2 & -> & E)].
    + destruct m as [| x m].
      * exists (pre ++ new ++ post), [], []. rewrite app_nil_r. split; [done |]. split; [| split; constructor].
        simpl in E. rewrite !Forall_app in *. rewrite E, Forall_app in Hq. naive_solver.
      * assert (k2 = []) as ->.
        { destruct k2 as [| y k2]; [done |]. simpl in E. injection E as -> _. exfalso.
          apply (Hmm y); [apply elem_of_app; right; constructor | constructor]. }
        simpl in E. rewrite app_nil_r in *. exists (pre ++ new), (x :: m), q. rewrite <- app_assoc. simpl. rewrite E.
        rewrite Forall_app in *. naive_solver.
    + exists (pre ++ new ++ k2), m, q. rewrite <- !app_assoc. rewrite !Forall_app in *. naive_solver.
Qed.

Lemma spliced_inv ls r ls' n :
  locks_inv ls -> request_ok r ->
  (l_type r <> F_UNLCK_ -> forall q, q ∈ ls -> file_locks_conflict q r = false) ->
  spliced ls r ls' n -> locks_inv ls'.
Proof.
  intros [Hok Hc Hgr] Hr Hnc [(pre & mine & post & r' & kept & -> & Hempty & Hpre & Hm & Hpost & Hg & ->)].
  apply Forall_app in Hok as [Hokpre [Hokm Hokpost]%Forall_app].
  apply fop_app in Hc as (Hcpre & Hc & Hcx). apply fop_app in Hc as (Hcm & Hcpost & Hcmp).
  pose proof (new_ok _ _ _ _ _ Hr Hokm Hg) as Hnew.
  assert (forall k q, q ∈ pre ++ post -> k ∈ kept ++ (if l_type r =? F_UNLCK_ then [] else [r']) -> compatible k q) as Hcompat.
  { intros k q Hq Hk. assert (l_owner q <> l_owner r /\ lock_ok q /\ Forall (fun l => compatible l q) mine) as (Hqo & Hqok & Hqc).
    { pose proof (proj1 (Forall_forall _ _) Hpre) as Fpre. pose proof (proj1 (Forall_forall _ _) Hokpre) as Fokpre.
      pose proof (proj1 (Forall_forall _ _) Hpost) as Fpost. pose proof (proj1 (Forall_forall _ _) Hokpost) as Fokpost.
      apply elem_of_app in Hq as [Hq | Hq]; (split; [by auto |]); (split; [by auto |]).
      - apply Forall_forall. intros l Hl. apply compatible_sym, Hcx; [done | apply elem_of_app; by left].
      - apply Forall_forall. intros l Hl. by apply Hcmp. }
    apply (new_compatible r mine r' kept n k q); try done. intros Hu. apply Hnc; [done |]. rewrite !elem_of_app. apply elem_of_app in Hq. tauto. }
  split.
  - rewrite !Forall_app. split; [done |]. split; [| done]. rewrite <- Forall_app.
    eapply Forall_impl; [exact Hnew |]. by intros ? [? _].
  - apply fop_app. split; [done |]. split.
    + apply fop_app. split; [| split; [done |]].
      * apply fop_app. destruct Hg as [Hr' [Ht Ho] _ _ Hk Hleft Hdj _].
        assert (forall a b, l_owner a = l_owner r -> l_owner b = l_owner r -> disjoint_locks a b -> compatible a b) as Hown.
        { intros a b Ha Hb Hd. unfold compatible. by rewrite decide_True by congruence. }
        rewrite Forall_forall in Hk. split; [| split].
        -- clear -Hdj Hk Hown. induction Hdj as [| a l Ha Hl IH]; constructor.
           ++ rewrite Forall_forall in *. intros b Hb. apply Hown; [| | by apply Ha]; apply Hk; [constructor | by constructor 2].
           ++ apply IH. intros x Hx. apply Hk. by constructor 2.
        -- destruct (l_type r =? F_UNLCK_); repeat constructor.
        -- intros x y Hx Hy. destruct (l_type r =? F_UNLCK_); [by apply elem_of_nil in Hy |].
           apply list_elem_of_singleton in Hy as ->. apply Hown; [by apply Hk | done |]. intros b Hxb Hrb.
           assert (on kept (l_type x) b) as Hon by (exists x; eauto). apply Hleft in Hon. tauto.
      * intros x y Hx Hy. apply Hcompat; [apply elem_of_app; by right | done].
    + intros x y Hx Hy. apply elem_of_app in Hy as [Hy | Hy].
      * apply compatible_sym, Hcompat; [apply elem_of_app; by left | done].
      * apply Hcx; [done | apply elem_of_app; by right].
  - assert (Forall (fun k => l_owner k = l_owner r) (kept ++ (if l_type r =? F_UNLCK_ then [] else [r']))) as Hown
      by (eapply Forall_impl; [exact Hnew |]; by intros ? [_ ?]).
    intros o. destruct (decide (o = l_owner r)) as [-> | Hne]; [by eexists pre, _, post |].
    by apply (grouped_splice (l_owner r) o pre mine post).
Qed.

(** The abstract effect of placing a request. *)
Definition held_after (ls : list file_lock) (r : file_lock) (o b : Z) : option Z :=
  if decide (o = l_owner r /\ covers r b)
  then (if l_type r =? F_UNLCK_ then None else Some (l_type r))
  else held ls o b.

Lemma owned_unique ls o t t' b : ForallOrdPairs compatible ls -> owned ls o t b -> owned ls o t' b -> t = t'.
Proof. intros Hc H1 H2. apply (held_owned ls o b t Hc) in H1. apply (held_owned ls o b t' Hc) in H2. congruence. Qed.

Lemma owned_app ls ks o t b : owned (ls ++ ks) o t b <-> owned ls o t b \/ owned ks o t b.
Proof. unfold owned. setoid_rewrite elem_of_app. naive_solver. Qed.

Lemma owned_other ls o t b : Forall (fun l => l_owner l <> o) ls -> owned ls o t b <-> False.
Proof.
  intros Hl. rewrite Forall_forall in Hl. split; [| done]. intros (l & Hin & Ho & _). by apply (Hl l).
Qed.

Lemma owned_mine ls o t b : Forall (fun l => l_owner l = o) ls -> owned ls o t b <-> on ls t b.
Proof. intros Hl. rewrite Forall_forall in Hl. unfold owned, on. naive_solver. Qed.

Lemma spliced_held ls r ls' n o b :
  locks_inv ls -> locks_inv ls' -> spliced ls r ls' n -> held ls' o b = held_after ls r o b.
Proof.
  intros [Hok Hc _] [_ Hc' _] [(pre & mine & post & r' & kept & -> & _ & Hpre & Hm & Hpost & Hg & ->)].
  apply option_eq. intros t. rewrite (held_owned _ o b t Hc'). unfold held_after.
  assert (Forall (fun k => l_owner k = l_owner r) (kept ++ (if l_type r =? F_UNLCK_ then [] else [r']))) as Hnew.
  { destruct Hg as [_ [_ Ho] _ _ Hk _ _ _]. apply Forall_app. split; [by eapply Forall_impl; [exact Hk |]; intros ? [_ ?] |].
    destruct (l_type r =? F_UNLCK_); by repeat constructor. }
  destruct (decide (o = l_owner r)) as [-> | Hne].
  - rewrite (owned_app pre), (owned_app _ post), !(owned_other pre), !(owned_other post), (owned_mine _ _ _ _ Hnew), on_app by done.
    assert (forall t', owned (pre ++ mine ++ post) (l_owner r) t' b <-> on mine t' b) as Hmine.
    { intros t'. rewrite !owned_app, (owned_other pre), (owned_other post), (owned_mine mine) by done. tauto. }
    pose proof (held_owned _ (l_owner r) b t Hc) as Hold. rewrite Hmine in Hold.
    assert (forall t', on mine t' b -> on mine t b -> t' = t) as Huniq.
    { intros t' H1 H2. apply Hmine in H1, H2. exact (owned_unique _ _ _ _ b Hc H1 H2). }
    assert (on mine (l_type r) b -> l_type r <> F_UNLCK_) as Hunl.
    { intros (l & Hl & <- & _). apply Forall_app in Hok as [_ [Hok _]%Forall_app].
      rewrite Forall_forall in Hok. destruct (Hok l Hl) as [_ [-> | ->]]; done. }
    destruct Hg as [_ [Ht _] Hgrow Hby _ Hleft _ _]. rewrite Hleft.
    assert (on (if l_type r =? F_UNLCK_ then [] else [r']) t b <-> l_type r <> F_UNLCK_ /\ t = l_type r /\ covers r' b) as ->.
    { destruct (Z.eqb_spec (l_type r) F_UNLCK_); [rewrite on_nil; tauto |]. rewrite on_cons, on_nil, Ht. naive_solver. }
    specialize (Hgrow b). specialize (Hby b). destruct (decide (covers r b)) as [Hrb | Hrb].
    + rewrite decide_True by done. destruct (Z.eqb_spec (l_type r) F_UNLCK_); naive_solver.
    + rewrite decide_False by tauto. rewrite Hold.
      destruct (decide (covers r' b)) as [Hb' | Hb']; [| naive_solver].
      destruct (Hby Hb') as [? | Hon]; [done |]. split; [naive_solver |]. intros Ho. right. left. right.
      split; [by apply Hunl |]. split; [symmetry; apply Huniq; naive_solver | done].
  - rewrite decide_False by tauto. rewrite (held_owned _ o b t Hc), !owned_app.
    rewrite <- owned_app, !(owned_other (kept ++ _)), !(owned_other mine); [done | |];
      eapply Forall_impl; try eassumption; simpl; intros; congruence.
Qed.

(** With no notification, nobody's lock got weaker. *)
Lemma spliced_quiet ls r ls' o b t :
  locks_inv ls -> locks_inv ls' -> spliced ls r ls' false -> held ls o b = Some t -> held ls' o b = Some t.
Proof.
  intros Hi Hi' Hs Hh. rewrite (spliced_held ls r ls' false o b) by done. unfold held_after.
  destruct (decide (o = l_owner r /\ covers r b)) as [[-> Hb] |]; [| done].
  destruct Hs as [(pre & mine & post & r' & kept & -> & _ & Hpre & Hm & Hpost & Hg & _)].
  apply held_owned in Hh; [| apply li_compat, Hi].
  rewrite !owned_app, (owned_other pre), (owned_other post), (owned_mine mine) in Hh by done.
  destruct Hh as [[] | [Hon | []]].
  assert (t = l_type r) as -> by (eapply (g_quiet _ _ _ _ _ Hg eq_refl t b Hon), (g_grow _ _ _ _ _ Hg), Hb).
  destruct Hon as (l & Hl & Ht & _). pose proof (li_ok _ Hi) as Hok. apply Forall_app in Hok as [_ [Hok _]%Forall_app].
  rewrite Forall_forall in Hok. destruct (Hok l Hl) as [_ [E | E]]; rewrite Ht in E; rewrite E; done.
Qed.

Lemma acquire_cases ls r :
  locks_inv ls -> request_ok r ->
  (exists q, q ∈ ls /\ file_locks_conflict q r = true /\ l_type r <> F_UNLCK_ /\ file_lock_acquire ls r = (ls, _EAGAIN, false)) \/
  (exists ls' n, file_lock_acquire ls r = (ls', 0, n) /\ spliced ls r ls' n /\
     (l_type r <> F_UNLCK_ -> forall q, q ∈ ls -> file_locks_conflict q r = false)).
Proof.
  intros Hi Hr. unfold file_lock_acquire.
  destruct (negb (l_type r =? F_UNLCK_) && existsb (fun lock => file_locks_conflict lock r) ls) eqn:E.
  - apply andb_true_iff in E as [Hu He]. apply existsb_exists in He as (q & Hq & Hc).
    left. exists q. apply list_elem_of_In in Hq. to_prop. done.
  - right. pose proof (acquire_spliced ls r Hi (proj1 Hr)) as Hs.
    destruct (acquire_walk false r ls) as [[[r' before] from] n].
    exists (if negb (l_type r =? F_UNLCK_) then before ++ r' :: from else before ++ from), n.
    split; [by destruct (negb (l_type r =? F_UNLCK_)) |]. split; [done |].
    intros Hu q Hq. apply andb_false_iff in E as [E | E]; to_prop; [done |].
    apply not_true_iff_false. intros Hc. apply not_true_iff_false in E. apply E. apply existsb_exists.
    exists q. split; [by apply list_elem_of_In | done].
Qed.

(** A conflict, seen from the abstract state. *)
Definition conflicts (ls : list file_lock) (r : file_lock) (o b : Z) : Prop :=
  o <> l_owner r /\ covers r b /\ exists t, held ls o b = Some t /\ (t = F_WRLCK_ \/ l_type r = F_WRLCK_).

Lemma conflicts_spec ls r :
  locks_inv ls -> range_ok r ->
  (exists o b, conflicts ls r o b) <-> exists q, q ∈ ls /\ file_locks_conflict q r = true.
Proof.
  intros [Hok Hc _] Hr. rewrite Forall_forall in Hok. split.
  - intros (o & b & Ho & Hb & t & Ht & Hw). apply held_owned in Ht as (q & Hq & <- & <- & Hqb); [| done].
    exists q. split; [done |]. apply conflict_spec; [apply Hok, Hq | done |]. eauto.
  - intros (q & Hq & Hcf). apply conflict_spec in Hcf as (Ho & (x & Hqx & Hx) & Hw); [| apply Hok, Hq | done].
    exists (l_owner q), x. split; [done |]. split; [done |]. exists (l_type q). split; [| done].
    apply held_owned; [done |]. exists q. eauto.
Qed.

(** *** Waiting *)

(** Who waits for whom. *)
Definition waits_for (ws : list lock_waiter) (x y : Z) : Prop := mk_waiter x y ∈ ws.
Definition acyclic (ws : list lock_waiter) : Prop := forall x, ~ tc (waits_for ws) x x.

Record waiters_ok (ws : list lock_waiter) : Prop := mk_waiters_ok {
  wo_null : Forall (fun w => lw_owner w <> NULL /\ lw_blocked_on w <> NULL) ws;
  wo_once : NoDup (map lw_owner ws) }.

Lemma blocked_on_some ws x y :
  waiters_ok ws -> waits_for ws x y <-> blocked_on ws x = y /\ y <> NULL.
Proof.
  intros [Hn Hu]. unfold blocked_on, waits_for. induction ws as [| [o p] ws IH]; simpl.
  { rewrite elem_of_nil. naive_solver. }
  apply Forall_cons in Hn as [[Ho Hp] Hn]. simpl in *. apply NoDup_cons in Hu as [Hni Hu].
  rewrite elem_of_cons. destruct (Z.eqb_spec o x) as [-> | Hne].
  - split.
    + intros [[= ->] | Hin]; [done |]. exfalso. apply Hni. apply list_elem_of_fmap. by exists (mk_waiter x y).
    + intros [<- _]. by left.
  - rewrite <- IH by done. split; [intros [[= -> ->] | ?]; done | by right].
Qed.

Lemma blocked_on_null ws : waiters_ok ws -> blocked_on ws NULL = NULL.
Proof.
  intros [Hn _]. unfold blocked_on. destruct (List.find _ ws) as [w |] eqn:E; [| done].
  apply List.find_some in E as [Hin Hw]. apply list_elem_of_In in Hin. apply Z.eqb_eq in Hw.
  rewrite Forall_forall in Hn. by destruct (Hn w Hin).
Qed.

Lemma iter_shift {A} (f : A -> A) n x : Nat.iter n f (f x) = f (Nat.iter n f x).
Proof. induction n as [| n IH]; simpl; congruence. Qed.

Lemma iter_add {A} (f : A -> A) n m x : Nat.iter (n + m) f x = Nat.iter n f (Nat.iter m f x).
Proof. induction n as [| n IH]; simpl; congruence. Qed.

Lemma iter_null ws i : waiters_ok ws -> Nat.iter i (blocked_on ws) NULL = NULL.
Proof. intros Hw. induction i as [| i IH]; simpl; [done |]. rewrite IH. by apply blocked_on_null. Qed.

(** The walk finds the caller if it is at most [depth - 1] hops away. *)
Lemma deadlock_walk_spec depth ws self cur :
  waiters_ok ws -> self <> NULL ->
  deadlock_walk depth ws self cur = true <-> exists n, (n < depth)%nat /\ Nat.iter n (blocked_on ws) cur = self.
Proof.
  intros Hw Hs. revert cur. induction depth as [| depth IH]; intros cur; simpl.
  { split; [done |]. intros (n & Hn & _). lia. }
  destruct (Z.eqb_spec cur NULL) as [-> | Hc].
  { split; [done |]. intros (n & _ & E). rewrite iter_null in E by done. congruence. }
  destruct (Z.eqb_spec cur self) as [-> | Hne].
  { split; [| done]. intros _. exists 0%nat. split; [lia | done]. }
  rewrite IH. split.
  - intros (n & Hn & E). exists (S n). split; [lia |]. simpl. by rewrite <- iter_shift.
  - intros ([| n] & Hn & E); [done |]. exists n. split; [lia |]. by rewrite iter_shift.
Qed.

Lemma tc_iter ws x y : waiters_ok ws -> tc (waits_for ws) x y -> exists n, Nat.iter (S n) (blocked_on ws) x = y /\ y <> NULL.
Proof.
  intros Hw. induction 1 as [x y H1 | x y z H1 _ (n & E & Hz)]; apply blocked_on_some in H1 as [H1 Hy]; try done.
  - by exists 0%nat.
  - exists (S n). split; [| done]. rewrite <- E, <- H1. simpl. by rewrite iter_shift.
Qed.

Lemma iter_tc ws n x y :
  waiters_ok ws -> y <> NULL -> Nat.iter (S n) (blocked_on ws) x = y -> tc (waits_for ws) x y.
Proof.
  intros Hw Hy. revert x. induction n as [| n IH]; intros x E.
  - apply tc_once. by apply blocked_on_some.
  - simpl in E. rewrite <- iter_shift in E. eapply tc_l; [| by apply (IH (blocked_on ws x))].
    apply blocked_on_some; [done |]. split; [done |]. intros E0. rewrite E0 in E. simpl in E.
    rewrite iter_null in E by done. rewrite blocked_on_null in E by done. congruence.
Qed.

(** A chain of waiters to [y] has no more hops than there are waiters. *)
Lemma chain_short ws k x y :
  waiters_ok ws -> acyclic ws -> y <> NULL -> Nat.iter k (blocked_on ws) x = y -> (k <= length ws)%nat.
Proof.
  intros Hw Hac Hy E.
  assert (forall i, (i < k)%nat -> Nat.iter (S i) (blocked_on ws) x <> NULL) as Hnn.
  { intros i Hi E0. replace k with ((k - S i) + S i)%nat in E by lia. rewrite iter_add, E0, iter_null in E by done. congruence. }
  enough (length (map (fun i => Nat.iter i (blocked_on ws) x) (seq 0 k)) <= length (map lw_owner ws))%nat as Hlen
    by (by rewrite !length_map, length_seq in Hlen).
  apply NoDup_incl_length.
  - apply NoDup_ListNoDup. apply NoDup_fmap_2_strong; [| apply NoDup_ListNoDup, seq_NoDup].
    assert (forall i j, (i < j)%nat -> (j < k)%nat -> Nat.iter i (blocked_on ws) x = Nat.iter j (blocked_on ws) x -> False) as Hlt.
    { intros i j Hij Hj Eij. set (z := Nat.iter j (blocked_on ws) x) in *.
      apply (Hac z). apply (iter_tc ws (j - i - 1)); [done | |].
      - unfold z. destruct j as [| j]; [lia |]. apply Hnn. lia.
      - rewrite <- Eij. rewrite <- iter_add. unfold z. by replace (S (j - i - 1) + i)%nat with j by lia. }
    intros i j Hi%list_elem_of_In%in_seq Hj%list_elem_of_In%in_seq Eij. simpl in Eij.
    destruct (Nat.lt_trichotomy i j) as [? | [? | ?]]; [exfalso; eapply (Hlt i j); auto; lia | done | exfalso; eapply (Hlt j i); auto; lia].
  - intros z Hz. apply in_map_iff in Hz as (i & <- & Hi%in_seq).
    pose proof (Hnn i ltac:(lia)) as Hne. simpl in Hne.
    assert (waits_for ws (Nat.iter i (blocked_on ws) x) (blocked_on ws (Nat.iter i (blocked_on ws) x))) as Hin
      by (by apply blocked_on_some).
    apply list_elem_of_In, (in_map lw_owner) in Hin. done.
Qed.

(** Adding one waiter changes one edge. *)
Lemma blocked_on_add ws self b x :
  blocked_on (posix_lock_waiter_add ws self b) x = if self =? x then b else blocked_on ws x.
Proof. unfold blocked_on, posix_lock_waiter_add. simpl. by destruct (self =? x). Qed.

Lemma add_reach ws self b n x :
  Nat.iter n (blocked_on (posix_lock_waiter_add ws self b)) x = self ->
  exists k, (k <= n)%nat /\ Nat.iter k (blocked_on ws) x = self.
Proof.
  revert x. induction n as [| n IH]; intros x E; [by exists 0%nat |].
  destruct (Z.eqb_spec self x) as [-> | Hne]; [exists 0%nat; split; [lia | done] |].
  simpl in E. rewrite <- iter_shift, blocked_on_add in E. rewrite (proj2 (Z.eqb_neq _ _) Hne) in E.
  destruct (IH _ E) as (k & Hk & Ek). exists (S k). split; [lia |]. simpl. by rewrite <- iter_shift.
Qed.

Lemma add_same ws self b n x :
  (exists i, (i < n)%nat /\ Nat.iter i (blocked_on (posix_lock_waiter_add ws self b)) x = self) \/
  Nat.iter n (blocked_on (posix_lock_waiter_add ws self b)) x = Nat.iter n (blocked_on ws) x.
Proof.
  induction n as [| n [(i & Hi & E) | E]]; [by right | left; exists i; split; [lia | done] |].
  destruct (Z.eqb_spec self (Nat.iter n (blocked_on ws) x)) as [E0 | Hne].
  - left. exists n. split; [lia | congruence].
  - right. simpl. rewrite E, blocked_on_add. by rewrite (proj2 (Z.eqb_neq _ _) Hne).
Qed.

Lemma add_acyclic ws self b :
  waiters_ok ws -> waiters_ok (posix_lock_waiter_add ws self b) -> acyclic ws -> (length ws < 1024)%nat ->
  self <> NULL -> deadlock_walk 1024 ws self b = false -> acyclic (posix_lock_waiter_add ws self b).
Proof.
  intros Hw Hw' Hac Hlen Hs Hwalk x Hcyc. apply tc_iter in Hcyc as (n & E & Hx); [| done].
  set (f' := blocked_on (posix_lock_waiter_add ws self b)) in *.
  destruct (add_same ws self b (S n) x) as [(i & Hi & Ei) | Esame].
  - fold f' in Ei. assert (Nat.iter (S n) f' self = self) as Eself.
    { rewrite <- Ei, <- iter_add, Nat.add_comm, iter_add, E. done. }
    simpl in Eself. rewrite <- iter_shift in Eself. unfold f' at 2 in Eself. rewrite blocked_on_add, Z.eqb_refl in Eself.
    apply add_reach in Eself as (k & _ & Ek). pose proof (chain_short ws k b self Hw Hac Hs Ek) as Hk.
    apply not_true_iff_false in Hwalk. apply Hwalk. apply deadlock_walk_spec; [done | done |].
    exists k. split; [| done]. change 1024%nat with (Z.to_nat 1024) in *. lia.
  - fold f' in Esame. apply (Hac x). apply (iter_tc ws n); [done | done | congruence].
Qed.

(** ** Properties *)

(** C4: placing a request is, byte by byte and owner by owner, exactly the
    update of who holds what: it is refused with EAGAIN, changing nothing,
    precisely when another owner holds a byte of its range incompatibly, and
    otherwise the owner holds the range with the requested type (or not at all,
    for F_UNLCK) and every other byte and owner is untouched.  The list keeps
    its shape: valid ranges, one owner's locks disjoint and next to each other,
    no two owners in conflict. *)
Theorem file_lock_acquire_refines ls r :
  locks_inv ls -> request_ok r ->
  exists ls' err n, file_lock_acquire ls r = (ls', err, n) /\ locks_inv ls' /\
    ((err = _EAGAIN /\ ls' = ls /\ l_type r <> F_UNLCK_ /\ exists o b, conflicts ls r o b) \/
     (err = 0 /\ (l_type r <> F_UNLCK_ -> ~ exists o b, conflicts ls r o b) /\
      forall o b, held ls' o b = held_after ls r o b)).
Proof.
  intros Hi Hr. destruct (acquire_cases ls r Hi Hr) as [(q & Hq & Hc & Hu & ->) | (ls' & n & -> & Hs & Hnc)].
  - exists ls, _EAGAIN, false. split; [done |]. split; [done |]. left. do 3 (split; [done |]).
    apply conflicts_spec; [done | apply Hr |]. eauto.
  - pose proof (spliced_inv ls r ls' n Hi Hr Hnc Hs) as Hi'. exists ls', 0, n. split; [done |]. split; [done |].
    right. split; [done |]. split.
    + intros Hu. rewrite conflicts_spec by (done || apply Hr). intros (q & Hq & Hc). rewrite Hnc in Hc; done.
    + intros o b. by apply (spliced_held ls r ls' n).
Qed.

(** No wakeup is lost: if placing a request did not notify the sleepers,
    every byte anyone held is still held, with the same type, so no sleeping
    request can have become possible. *)
Theorem file_lock_acquire_notifies ls r ls' :
  locks_inv ls -> request_ok r -> file_lock_acquire ls r = (ls', 0, false) ->
  forall o b t, held ls o b = Some t -> held ls' o b = Some t.
Proof.
  intros Hi Hr E o b t. destruct (acquire_cases ls r Hi Hr) as [(q & _ & _ & _ & E') | (ls2 & n & E' & Hs & Hnc)].
  - rewrite E' in E. simplify_eq.
  - rewrite E' in E. simplify_eq. eapply spliced_quiet; [done | by eapply spliced_inv | done].
Qed.


(** The range a flock names, over unbounded integers. *)
Definition flock_range_spec (offset start len : Z) : Z + (Z * Z) :=
  let s := offset + start in
  if s >? OFF_T_MAX then inl _EOVERFLOW else if s <? 0 then inl _EINVAL else
  if len =? 0 then inr (s, OFF_T_MAX)
  else if len >? 0 then (if s + len - 1 >? OFF_T_MAX then inl _EOVERFLOW else inr (s, s + len - 1))
  else if s + len <? 0 then inl _EINVAL else inr (s + len, s - 1).

(** The range checks are exact: on 64-bit arithmetic they compute what
    unbounded integers would, nothing overflows on the way, and a range they
    accept is a valid one. *)
Theorem flock_range_exact offset start len :
  0 <= offset <= OFF_T_MAX -> in_s 64 start -> in_s 64 len ->
  flock_range offset start len = flock_range_spec offset start len /\
  forall s e, flock_range offset start len = inr (s, e) -> 0 <= s <= e /\ e <= OFF_T_MAX.
Proof.
  unfold in_s. intros Ho Hs Hl. unfold OFF_T_MAX in *.
  assert (flock_range offset start len = flock_range_spec offset start len) as E.
  { unfold flock_range, flock_range_spec, OFF_T_MAX. rewrite (s64_small (2 ^ 63 - 1 - offset)) by lia.
    destruct (Z.gtb_spec start (2 ^ 63 - 1 - offset)); destruct (Z.gtb_spec (offset + start) (2 ^ 63 - 1)); try lia; [done |].
    rewrite (s64_small (offset + start)) by lia.
    destruct (Z.ltb_spec (offset + start) 0); [done |].
    rewrite (s64_small (2 ^ 63 - 1 - (offset + start))) by lia.
    destruct (Z.eqb_spec len 0); destruct (Z.gtb_spec len 0); destruct (Z.ltb_spec len 0); try lia; [done | |].
    - rewrite (s64_small (len - 1)) by lia.
      destruct (Z.gtb_spec (len - 1) (2 ^ 63 - 1 - (offset + start)));
        destruct (Z.gtb_spec (offset + start + len - 1) (2 ^ 63 - 1)); try lia; [done |].
      by rewrite s64_small by lia.
    - rewrite (s64_small (offset + start + len)), (s64_small (offset + start - 1)) by lia. done. }
  split; [done |]. rewrite E. intros s e Hr. unfold flock_range_spec, OFF_T_MAX in Hr.
  repeat case_on_match_in Hr; simplify_eq; lia.
Qed.

(** What F_GETLK reports of a lock names that lock's range: turned back into
    a request it is the same bytes and type. *)
Theorem flock_roundtrip c pid_shown l :
  lock_ok l ->
  exists l', file_lock_from_flock c (flock_from_file_lock pid_shown l) false = inr l' /\
    l_start l' = l_start l /\ l_end l' = l_end l /\ l_type l' = l_type l.
Proof.
  intros [[Hr1 Hr2] _]. unfold file_lock_from_flock, flock_from_file_lock. cbn [fl_whence fl_start fl_len fl_type].
  unfold flock_offset. rewrite Z.eqb_refl. unfold flock_range, OFF_T_MAX in *.
  rewrite (s64_small (2 ^ 63 - 1 - 0)) by lia. rewrite (s64_small (0 + l_start l)) by lia.
  destruct (Z.gtb_spec (l_start l) (2 ^ 63 - 1 - 0)); [lia |].
  destruct (Z.ltb_spec (0 + l_start l) 0); [lia |].
  destruct (Z.eqb_spec (l_end l) (2 ^ 63 - 1)) as [E | E]; cbn [negb].
  - change (0 >? 0) with false. change (0 <? 0) with false. eexists. split; [done |]. cbn. rewrite E. lia.
  - rewrite (s64_small (l_end l - l_start l)), (s64_small (l_end l - l_start l + 1)) by lia.
    destruct (Z.gtb_spec (l_end l - l_start l + 1) 0); [| lia].
    rewrite (s64_small (l_end l - l_start l + 1 - 1)), (s64_small (2 ^ 63 - 1 - (0 + l_start l))) by lia.
    destruct (Z.gtb_spec (l_end l - l_start l + 1 - 1) (2 ^ 63 - 1 - (0 + l_start l))); [lia |].
    rewrite s64_small by lia. eexists. split; [done |]. cbn. lia.
Qed.

Lemma filter_owner ls o l : l ∈ List.filter (fun lock => negb (l_owner lock =? o)) ls <-> l ∈ ls /\ l_owner l <> o.
Proof.
  rewrite !list_elem_of_In, filter_In, negb_true_iff, Z.eqb_neq. done.
Qed.

Lemma fop_filter (R : file_lock -> file_lock -> Prop) P ls : ForallOrdPairs R ls -> ForallOrdPairs R (List.filter P ls).
Proof.
  induction 1 as [| l ls Hl Hls IH]; simpl; [constructor |]. destruct (P l); [| done]. constructor; [| done].
  rewrite Forall_forall in *. intros k Hk. apply Hl. apply list_elem_of_In, filter_In in Hk as [Hk _].
  by apply list_elem_of_In.
Qed.

Lemma forall_filter (Q : file_lock -> Prop) P ls : Forall Q ls -> Forall Q (List.filter P ls).
Proof.
  rewrite !Forall_forall. intros H l Hl. apply H. apply list_elem_of_In, filter_In in Hl as [Hl _]. by apply list_elem_of_In.
Qed.

(** Closing a file drops exactly the closing owner's locks on it, keeps the
    list's shape, and tells the sleepers if there was any. *)
Theorem remove_owned_by_correct ls owner ls' removed :
  locks_inv ls -> file_lock_remove_owned_by ls owner = (ls', removed) ->
  locks_inv ls' /\ (forall o b, held ls' o b = if decide (o = owner) then None else held ls o b) /\
  (removed = false -> ls' = ls).
Proof.
  intros [Hok Hc Hg] E. unfold file_lock_remove_owned_by in E. simplify_eq.
  assert (ForallOrdPairs compatible (List.filter (fun lock => negb (l_owner lock =? owner)) ls)) as Hc' by (by apply fop_filter).
  split; [split; [by apply forall_filter | done |] |].
  { intros o. destruct (Hg o) as (pre & mine & post & -> & Hpre & Hm & Hpost). rewrite !List.filter_app.
    eexists _, _, _. split; [done |]. split; [by apply forall_filter |]. split; by apply forall_filter. }
  split.
  - intros o b. apply option_eq. intros t. rewrite held_owned by done. unfold owned. setoid_rewrite filter_owner.
    case_decide as Hd; [naive_solver |]. rewrite held_owned by done. unfold owned. naive_solver.
  - intros Hrem. induction ls as [| l ls IH]; [done |]. simpl in *. apply orb_false_iff in Hrem as [Hl Hrem].
    rewrite Hl. simpl. f_equal.
    clear -Hrem. induction ls as [| l ls IH]; [done |]. simpl in *. apply orb_false_iff in Hrem as [-> Hrem]. simpl. by rewrite IH.
Qed.

(** F_GETLK agrees with F_SETLK: it reports no lock in the way exactly when
    placing the same request would succeed at that moment. *)
Theorem fcntl_getlk_agrees pid_shown c ls f ofd r f' err :
  locks_inv ls -> file_lock_from_flock c f ofd = inr r -> request_ok r ->
  fcntl_getlk pid_shown c (Some ls) f ofd = (f', err) -> (fl_type f = F_RDLCK_ \/ fl_type f = F_WRLCK_) ->
  err = 0 /\ (fl_type f' = F_UNLCK_ <-> snd (fst (file_lock_acquire ls r)) = 0).
Proof.
  intros Hi Er Hr Eg Hty. unfold fcntl_getlk in Eg. rewrite Er in Eg.
  assert (negb (fl_type f =? F_RDLCK_) && negb (fl_type f =? F_WRLCK_) = false) as E0.
  { destruct Hty as [-> | ->]; reflexivity. }
  assert (l_type r = fl_type f) as Et.
  { unfold file_lock_from_flock in Er. repeat case_on_match_in Er; simplify_eq; done. }
  rewrite E0 in Eg.
  destruct (acquire_cases ls r Hi Hr) as [(q & Hq & Hc & Hu & ->) | (ls2 & n2 & -> & _ & Hnc)].
  - unfold file_lock_test in Eg. destruct (List.find _ ls) as [l |] eqn:Ef.
    + simplify_eq. split; [done |]. cbn. apply List.find_some in Ef as [Hl _]. apply list_elem_of_In in Hl.
      pose proof (li_ok _ Hi) as Hok. rewrite Forall_forall in Hok. destruct (Hok l Hl) as [_ [-> | ->]]; done.
    + apply list_elem_of_In in Hq. pose proof (List.find_none _ _ Ef q Hq) as Hn. simpl in Hn. congruence.
  - unfold file_lock_test in Eg. destruct (List.find _ ls) as [l |] eqn:Ef; [| simplify_eq; done].
    exfalso. apply List.find_some in Ef as [Hl Hlc]. apply list_elem_of_In in Hl.
    rewrite Hnc in Hlc; [done | | done]. rewrite Et. destruct Hty as [-> | ->]; done.
Qed.

(** flock locks of two open files never conflict. *)
Definition flocks_inv (ls : list file_lock) : Prop := ForallOrdPairs (fun a b => flock_locks_conflict a b = false) ls.

(** Flock: at no point do two open files hold conflicting locks on one
    file; a granted request is in the list as asked and a refused one leaves
    the other files' locks alone. *)
Theorem flock_exclusive c ls operation left removed r ls' res :
  flocks_inv ls -> flock_begin c (Some ls) operation = inr (left, removed, Some r) ->
  flock_round left r operation = (ls', res) ->
  flocks_inv left /\ flocks_inv ls' /\
  (forall l, l_owner l <> c_fd c -> l ∈ ls' <-> l ∈ ls) /\
  (res = Finished 0 -> r ∈ ls' /\ l_owner r = c_fd c) /\ (res <> Finished 0 -> ls' = left).
Proof.
  intros Hi Eb Er. unfold flock_begin in Eb. cbv zeta in Eb. destruct (negb _ && _ && _); [done |].
  destruct (_ =? LOCK_UN_); [done |]. injection Eb as <- <- <-.
  assert (flocks_inv (List.filter (fun lock => negb (l_owner lock =? c_fd c)) ls)) as Hleft by (by apply fop_filter).
  split; [done |]. unfold flock_round in Er.
  assert (forall l, l_owner l <> c_fd c -> l ∈ List.filter (fun lock => negb (l_owner lock =? c_fd c)) ls <-> l ∈ ls) as Hkeep.
  { intros l Hl. rewrite filter_owner. tauto. }
  destruct (existsb _ _) eqn:Ex; [destruct (has_flag operation LOCK_NB_); simplify_eq; done |]. simplify_eq.
  split; [| split; [| split; [| done]]].
  - apply fop_app. split; [done |]. split; [repeat constructor |]. intros x y Hx Hy.
    apply list_elem_of_singleton in Hy as ->. apply not_true_iff_false. intros Hc. apply not_true_iff_false in Ex.
    apply Ex, existsb_exists. exists x. split; [by apply list_elem_of_In | done].
  - intros l Hl. rewrite elem_of_app, list_elem_of_singleton, Hkeep by done. split; [| by left].
    intros [? | ->]; [done |]. done.
  - intros _. split; [apply elem_of_app; right; constructor | done].
Qed.

(** ** Witnesses *)

(** Owner 7 reads bytes 0-99 and writes 100-199; owner 8 reads 50-60. *)
Definition demo_locks : list file_lock :=
  [mk_lock 0 99 F_RDLCK_ 1 [] 7; mk_lock 100 199 F_WRLCK_ 1 [] 7; mk_lock 50 60 F_RDLCK_ 2 [] 8].
(** Owner 7 unlocks the middle: one lock is split and another cut. *)
Definition demo_request : file_lock := mk_lock 70 120 F_UNLCK_ 1 [] 7.

Lemma demo_locks_inv : locks_inv demo_locks.
Proof.
  split.
  - repeat (apply Forall_cons_2; [unfold lock_ok, range_ok, OFF_T_MAX; cbn; (split; [lia |]); unfold F_RDLCK_, F_WRLCK_; lia |]).
    apply Forall_nil_2.
  - repeat (apply FOP_cons || apply FOP_nil); repeat (apply Forall_cons_2 || apply Forall_nil_2);
      try reflexivity. intros x Hx Hy. unfold covers in *. cbn in *. lia.
  - intros o. destruct (decide (o = 7)) as [-> |]; [| destruct (decide (o = 8)) as [-> |]].
    + exists [], [mk_lock 0 99 F_RDLCK_ 1 [] 7; mk_lock 100 199 F_WRLCK_ 1 [] 7], [mk_lock 50 60 F_RDLCK_ 2 [] 8].
      split; [done |]. repeat constructor; done.
    + exists [mk_lock 0 99 F_RDLCK_ 1 [] 7; mk_lock 100 199 F_WRLCK_ 1 [] 7], [mk_lock 50 60 F_RDLCK_ 2 [] 8], [].
      split; [done |]. repeat constructor; done.
    + exists demo_locks, [], []. split; [done |]. repeat constructor; cbn; done.
Qed.

Lemma demo_request_ok : request_ok demo_request.
Proof. unfold request_ok, range_ok, OFF_T_MAX. cbn. split; [lia |]. auto. Qed.

Lemma file_lock_acquire_refines_witness :
  exists ls' err n, file_lock_acquire demo_locks demo_request = (ls', err, n) /\ locks_inv ls' /\
    ((err = _EAGAIN /\ ls' = demo_locks /\ l_type demo_request <> F_UNLCK_ /\ exists o b, conflicts demo_locks demo_request o b) \/
     (err = 0 /\ (l_type demo_request <> F_UNLCK_ -> ~ exists o b, conflicts demo_locks demo_request o b) /\
      forall o b, held ls' o b = held_after demo_locks demo_request o b)).
Proof. apply (file_lock_acquire_refines demo_locks demo_request); [exact demo_locks_inv | exact demo_request_ok]. Defined.

Example demo_acquire :
  file_lock_acquire demo_locks demo_request =
  ([mk_lock 0 69 F_RDLCK_ 1 [] 7; mk_lock 121 199 F_WRLCK_ 1 [] 7; mk_lock 50 60 F_RDLCK_ 2 [] 8], 0, true).
Proof. vm_compute. reflexivity. Qed.

(** Owner 8 extends its read lock: nothing is weakened, nobody is notified. *)
Definition demo_extend : file_lock := mk_lock 61 80 F_RDLCK_ 2 [] 8.

Lemma file_lock_acquire_notifies_witness :
  held [mk_lock 0 99 F_RDLCK_ 1 [] 7; mk_lock 100 199 F_WRLCK_ 1 [] 7; mk_lock 50 80 F_RDLCK_ 2 [] 8] 8 55 = Some F_RDLCK_.
Proof.
  apply (file_lock_acquire_notifies demo_locks demo_extend _ demo_locks_inv);
    [unfold request_ok, range_ok, OFF_T_MAX; cbn; split; [lia | auto] | vm_compute; reflexivity | vm_compute; reflexivity].
Defined.


Lemma flock_range_exact_witness :
  flock_range 100 (-50) (-20) = flock_range_spec 100 (-50) (-20) /\
  forall s e, flock_range 100 (-50) (-20) = inr (s, e) -> 0 <= s <= e /\ e <= OFF_T_MAX.
Proof. apply (flock_range_exact 100 (-50) (-20)); unfold OFF_T_MAX, in_s; lia. Defined.

Definition demo_caller : caller := mk_caller (Some 0) None 21 22 1 1 [].

Lemma flock_roundtrip_witness :
  exists l', file_lock_from_flock demo_caller (flock_from_file_lock (fun p => p) (mk_lock 5 OFF_T_MAX F_WRLCK_ 1 [] 7)) false = inr l' /\
    l_start l' = 5 /\ l_end l' = OFF_T_MAX /\ l_type l' = F_WRLCK_.
Proof.
  apply (flock_roundtrip demo_caller (fun p => p) (mk_lock 5 OFF_T_MAX F_WRLCK_ 1 [] 7)).
  split; [unfold range_ok, OFF_T_MAX; cbn; lia | by right].
Defined.

Lemma remove_owned_by_correct_witness :
  locks_inv [mk_lock 50 60 F_RDLCK_ 2 [] 8] /\
  (forall o b, held [mk_lock 50 60 F_RDLCK_ 2 [] 8] o b = if decide (o = 7) then None else held demo_locks o b) /\
  (true = false -> [mk_lock 50 60 F_RDLCK_ 2 [] 8] = demo_locks).
Proof. apply (remove_owned_by_correct demo_locks 7 _ true); [exact demo_locks_inv | vm_compute; reflexivity]. Defined.

Lemma fcntl_getlk_agrees_witness :
  0 = 0 /\ (fl_type (mk_flock F_WRLCK_ LSEEK_SET 100 100 1 []) = F_UNLCK_ <->
            snd (fst (file_lock_acquire demo_locks (mk_lock 150 159 F_RDLCK_ 1 [] 22))) = 0).
Proof.
  apply (fcntl_getlk_agrees (fun p => p) demo_caller demo_locks (mk_flock F_RDLCK_ LSEEK_SET 150 10 0 []) false
    (mk_lock 150 159 F_RDLCK_ 1 [] 22) (mk_flock F_WRLCK_ LSEEK_SET 100 100 1 []) 0);
    [exact demo_locks_inv | vm_compute; reflexivity | | vm_compute; reflexivity | by left].
  unfold request_ok, range_ok, OFF_T_MAX. cbn. split; [lia | auto].
Defined.

Lemma flock_exclusive_witness :
  let r := mk_lock 0 OFF_T_MAX F_RDLCK_ 1 [] 21 in let other := mk_lock 0 OFF_T_MAX F_RDLCK_ 3 [] 30 in
  flocks_inv [other] /\ flocks_inv [other; r] /\
  (forall l, l_owner l <> 21 -> l ∈ [other; r] <-> l ∈ [other]) /\
  (Finished 0 = Finished 0 -> r ∈ [other; r] /\ l_owner r = 21) /\ (Finished 0 <> Finished 0 -> [other; r] = [other]).
Proof.
  apply (flock_exclusive demo_caller [mk_lock 0 OFF_T_MAX F_RDLCK_ 3 [] 30] LOCK_SH_ _ false);
    [repeat constructor | vm_compute; reflexivity | vm_compute; reflexivity].
Defined.
