(* ===== verification/UserNs.v ===== *)
(** * User namespaces (kernel/getset.c lines 47-175 and 234-394, kernel/user_ns.h)

    Namespaces form a tree under the initial one; each maps its ids to kernel
    ids through two lists of extents written once.  A pointer to a namespace is
    an [option nat] into a table, [None] being the initial namespace.  The
    theorems: a written map is a bijection between the ids it names and kernel
    ids, all of them ids of the parent; capabilities reach down the tree only
    and the search for them terminates; setgroups, once denied, stays denied. *)

From Stdlib Require Import ZifyBool.
From S2P Require Import Prelude.

Definition USER_NS_OVERFLOW_ID := 65534.
Definition USER_NS_INVALID_ID := u32 (-1).
Definition USER_NS_MAX_LEVEL := 32.
Definition USER_NS_MAP_EXTENTS := 340.
Definition CAP_SETGID_ := 6.
Definition CAP_SETUID_ := 7.
Definition CAP_SYS_PTRACE_ := 19.
Definition CAP_SYS_ADMIN_ := 21.
Definition _ENOSPC := -28.

Record id_extent := mk_extent { ie_first : Z; ie_lower : Z; ie_count : Z }.
Record id_map := mk_map { im_set : bool; im_extents : list id_extent }.

(** [struct user_namespace], its lock and reference count left out. *)
Record user_namespace := mk_ns {
  un_parent : option nat; un_level : Z; un_owner : Z; un_group : Z;
  un_uid_map : id_map; un_gid_map : id_map; un_setgroups_denied : bool }.

Abbreviation ns_table := (gmap nat user_namespace).

(** The parts of the calling task the checks read. *)
Record ctask := mk_ctask { ct_ns : option nat; ct_euid : Z; ct_egid : Z; ct_cap_effective : list Z }.

(** ** Id maps *)

Fixpoint extents_down (l : list id_extent) (id : Z) : Z :=
  match l with
  | [] => USER_NS_INVALID_ID
  | e :: rest =>
      if (id >=? ie_first e) && (u32 (id - ie_first e) <? ie_count e)
      then u32 (ie_lower e + u32 (id - ie_first e)) else extents_down rest id
  end.

Definition id_map_down (map : id_map) (id : Z) : Z :=
  if (id =? USER_NS_INVALID_ID) || negb (im_set map) then USER_NS_INVALID_ID
  else extents_down (im_extents map) id.

Fixpoint extents_up (l : list id_extent) (kid : Z) : Z :=
  match l with
  | [] => USER_NS_INVALID_ID
  | e :: rest =>
      if (kid >=? ie_lower e) && (u32 (kid - ie_lower e) <? ie_count e)
      then u32 (ie_first e + u32 (kid - ie_lower e)) else extents_up rest kid
  end.

Definition id_map_up (map : id_map) (kid : Z) : Z :=
  if (kid =? USER_NS_INVALID_ID) || negb (im_set map) then USER_NS_INVALID_ID
  else extents_up (im_extents map) kid.

(** The map of a namespace, [gid] choosing between the two. *)
Definition ns_map (gid : bool) (ns : user_namespace) : id_map := if gid then un_gid_map ns else un_uid_map ns.

(** user_ns_make_kuid / user_ns_make_kgid and user_ns_from_kuid / ..kgid.  A
    pointer to no namespace of the table has no ids. *)
Definition user_ns_make_kid (gid : bool) (t : ns_table) (ns : option nat) (id : Z) : Z :=
  match ns with
  | None => id
  | Some a => match t !! a with Some n => id_map_down (ns_map gid n) id | None => USER_NS_INVALID_ID end
  end.

Definition user_ns_from_kid (gid : bool) (t : ns_table) (ns : option nat) (kid : Z) : Z :=
  match ns with
  | None => kid
  | Some a => match t !! a with Some n => id_map_up (ns_map gid n) kid | None => USER_NS_INVALID_ID end
  end.

Definition user_ns_from_kid_munged (gid : bool) (t : ns_table) (ns : option nat) (kid : Z) : Z :=
  let id := user_ns_from_kid gid t ns kid in if id =? USER_NS_INVALID_ID then USER_NS_OVERFLOW_ID else id.

(** ** Capabilities *)

Definition current_has_cap (c : ctask) (cap : Z) : bool :=
  if cap >=? 64 then false
  else negb (nth (Z.to_nat (cap / 32)) (ct_cap_effective c) 0 .& u32 (Z.shiftl 1 (cap mod 32)) =? 0).

Definition superuser (c : ctask) : bool := (ct_euid c =? 0) && bool_decide (ct_ns c = None).

Definition current_capable (c : ctask) (cap : Z) : bool :=
  superuser c || (bool_decide (ct_ns c = None) && current_has_cap c cap).

(** The walk up from a namespace; [None] when it leaves the table or runs past
    [fuel] namespaces. *)
Fixpoint user_ns_in_loop (fuel : nat) (t : ns_table) (ns ancestor : option nat) : option bool :=
  if decide (ns = ancestor) then Some true else
  match ns with
  | None => Some false
  | Some a =>
      match fuel, t !! a with
      | S fuel, Some n => user_ns_in_loop fuel t (un_parent n) ancestor
      | _, _ => None
      end
  end.

Definition user_ns_in (t : ns_table) (ns ancestor : option nat) : option bool :=
  user_ns_in_loop (S (Z.to_nat USER_NS_MAX_LEVEL)) t ns ancestor.

Fixpoint ns_capable_loop (fuel : nat) (t : ns_table) (c : ctask) (my_level : Z) (ns : option nat) (cap : Z) : option bool :=
  if decide (ns = ct_ns c)
  then Some (if bool_decide (ct_ns c = None) then current_capable c cap else current_has_cap c cap) else
  match ns with
  | None => Some false
  | Some a =>
      match fuel, t !! a with
      | S fuel, Some n =>
          if un_level n <=? my_level then Some false else
          if bool_decide (un_parent n = ct_ns c) && (un_owner n =? ct_euid c) then Some true
          else ns_capable_loop fuel t c my_level (un_parent n) cap
      | _, _ => None
      end
  end.

Definition ns_level (t : ns_table) (ns : option nat) : option Z :=
  match ns with None => Some 0 | Some a => match t !! a with Some n => Some (un_level n) | None => None end end.

Definition ns_capable (t : ns_table) (c : ctask) (target : option nat) (cap : Z) : option bool :=
  if cap >=? 64 then Some false else
  match ns_level t (ct_ns c) with
  | Some my_level => ns_capable_loop (S (Z.to_nat USER_NS_MAX_LEVEL)) t c my_level target cap
  | None => None
  end.

Definition capable_wrt_ids (t : ns_table) (c : ctask) (kuid kgid cap : Z) : option bool :=
  match ct_ns c with
  | None => Some (current_capable c cap)
  | Some _ =>
      if negb (user_ns_from_kid false t (ct_ns c) kuid =? USER_NS_INVALID_ID) &&
         negb (user_ns_from_kid true t (ct_ns c) kgid =? USER_NS_INVALID_ID)
      then ns_capable t c (ct_ns c) cap else Some false
  end.

(** ** Making and configuring namespaces *)

(** [user_ns_new]: an error, or the new namespace.  [chrooted] is
    current_chrooted(), [alloc_ok] the calloc. *)
Definition user_ns_new (t : ns_table) (c : ctask) (chrooted alloc_ok : bool) : Z + user_namespace :=
  match ns_level t (ct_ns c) with
  | None => inl _EPERM
  | Some level =>
      if bool_decide (ct_ns c <> None) && (level >=? USER_NS_MAX_LEVEL) then inl _ENOSPC else
      if chrooted then inl _EPERM else
      if (user_ns_from_kid false t (ct_ns c) (ct_euid c) =? USER_NS_INVALID_ID) ||
         (user_ns_from_kid true t (ct_ns c) (ct_egid c) =? USER_NS_INVALID_ID) then inl _EPERM else
      if negb alloc_ok then inl _ENOMEM else
      inr (mk_ns (ct_ns c) (level + 1) (ct_euid c) (ct_egid c) (mk_map false []) (mk_map false [])
             (match ct_ns c with Some a => match t !! a with Some n => un_setgroups_denied n | None => false end | None => false end))
  end.

Definition user_ns_may_setgroups (t : ns_table) (ns : option nat) : bool :=
  match ns with
  | None => true
  | Some a => match t !! a with Some n => im_set (un_gid_map n) && negb (un_setgroups_denied n) | None => false end
  end.

(** *** Reading a map's text *)

Definition is_space (c : Z) : bool := (c =? 32) || ((9 <=? c) && (c <=? 13)).
Definition is_digit (c : Z) : bool := (48 <=? c) && (c <=? 57).

Fixpoint skip_space (s : list Z) : list Z :=
  match s with c :: rest => if is_space c then skip_space rest else s | [] => [] end.

(** The digits of a %llu and what follows them. *)
Fixpoint digits (s : list Z) (acc : Z) (seen : bool) : option (Z * list Z) :=
  match s with
  | c :: rest => if is_digit c then digits rest (acc * 10 + (c - 48)) true else if seen then Some (acc, s) else None
  | [] => if seen then Some (acc, []) else None
  end.

(** %llu: blanks, a sign, digits; too large a number reads as the largest. *)
Definition scan_ull (s : list Z) : option (Z * list Z) :=
  let s := skip_space s in
  let '(neg, s) := match s with
    | 43 :: rest => (false, rest)
    | 45 :: rest => (true, rest)
    | _ => (false, s) end in
  match digits s 0 false with
  | None => None
  | Some (v, rest) =>
      let v := if v >? 2 ^ 64 - 1 then 2 ^ 64 - 1 else if neg then u64 (- v) else v in Some (v, rest)
  end.

(** [sscanf(line, " %llu %llu %llu %c", ...) == 3]. *)
Definition scan_line (s : list Z) : option (Z * Z * Z) :=
  match scan_ull s with
  | None => None
  | Some (first, s) =>
      match scan_ull s with
      | None => None
      | Some (lower, s) =>
          match scan_ull s with
          | None => None
          | Some (count, s) => match skip_space s with [] => Some (first, lower, count) | _ => None end
          end
      end
  end.

(** The text up to a NUL, cut at newlines, empty pieces skipped. *)
Fixpoint split_lines (s : list Z) (cur : list Z) : list (list Z) :=
  match s with
  | [] => match cur with [] => [] | _ => [rev cur] end
  | c :: rest =>
      if c =? 0 then match cur with [] => [] | _ => [rev cur] end
      else if c =? 10 then match cur with [] => split_lines rest [] | _ => rev cur :: split_lines rest [] end
      else split_lines rest (c :: cur)
  end.

Definition extent_clashes (first lower count : Z) (e : id_extent) : bool :=
  ((first <? ie_first e + ie_count e) && (ie_first e <? first + count)) ||
  ((lower <? ie_lower e + ie_count e) && (ie_lower e <? lower + count)).

Fixpoint parse_map (lines : list (list Z)) (parsed : list id_extent) : option (list id_extent) :=
  match lines with
  | [] => Some parsed
  | line :: rest =>
      match scan_line line with
      | None => None
      | Some (first, lower, count) =>
          if (count =? 0) || (first >? 0xfffffffe) || (lower >? 0xfffffffe) ||
             (u64 (first + count) >? 0xffffffff) || (u64 (lower + count) >? 0xffffffff) then None
          else if Z.of_nat (length parsed) =? USER_NS_MAP_EXTENTS then None
          else if existsb (extent_clashes first lower count) parsed then None
          else parse_map rest (parsed ++ [mk_extent (u32 first) (u32 lower) (u32 count)])
      end
  end.

(** The lower ids resolved through the parent. *)
Fixpoint resolve_map (gid : bool) (t : ns_table) (parent : option nat) (l : list id_extent) : option (list id_extent) :=
  match l with
  | [] => Some []
  | e :: rest =>
      let lo := user_ns_make_kid gid t parent (ie_lower e) in
      let hi := user_ns_make_kid gid t parent (u32 (u32 (ie_lower e + ie_count e) - 1)) in
      if (lo =? USER_NS_INVALID_ID) || (hi =? USER_NS_INVALID_ID) || negb (u32 (hi - lo) =? u32 (ie_count e - 1)) then None
      else match resolve_map gid t parent rest with
           | Some rest' => Some (mk_extent (ie_first e) lo (ie_count e) :: rest') | None => None end
  end.

Definition set_map (gid : bool) (m : id_map) (n : user_namespace) : user_namespace :=
  if gid then mk_ns (un_parent n) (un_level n) (un_owner n) (un_group n) (un_uid_map n) m (un_setgroups_denied n)
  else mk_ns (un_parent n) (un_level n) (un_owner n) (un_group n) m (un_gid_map n) (un_setgroups_denied n).

(** What needs no privilege: the creator mapping its own id alone. *)
Definition own_id (gid : bool) (t : ns_table) (c : ctask) (n : user_namespace) (parsed : list id_extent) : bool :=
  match parsed with
  | [e] =>
      if (ie_count e =? 1) && (un_owner n =? ct_euid c) then
        let lower := user_ns_make_kid gid t (un_parent n) (ie_lower e) in
        if gid then un_setgroups_denied n && (lower =? ct_egid c) else lower =? ct_euid c
      else false
  | _ => false
  end.

(** [alloc_ok] is the strndup; [None] only if the walk for a capability is. *)
Definition user_ns_write_map (t : ns_table) (c : ctask) (ns : option nat) (gid : bool) (text : list Z) (alloc_ok : bool)
    : option (ns_table * Z) :=
  match ns with
  | None => Some (t, _EPERM)
  | Some a =>
      match t !! a with
      | None => None
      | Some n =>
          if negb (bool_decide (ct_ns c = ns)) && negb (bool_decide (ct_ns c = un_parent n)) then Some (t, _EPERM) else
          if Z.of_nat (length text) >=? 4096 then Some (t, _EINVAL) else
          match ns_capable t c ns CAP_SYS_ADMIN_ with
          | None => None
          | Some false => Some (t, _EPERM)
          | Some true =>
              if negb alloc_ok then Some (t, _ENOMEM) else
              match parse_map (split_lines text []) [] with
              | None | Some [] => Some (t, _EINVAL)
              | Some parsed =>
                  if im_set (ns_map gid n) then Some (t, _EPERM) else
                  match (if own_id gid t c n parsed then Some true
                         else ns_capable t c (un_parent n) (if gid then CAP_SETGID_ else CAP_SETUID_)) with
                  | None => None
                  | Some false => Some (t, _EPERM)
                  | Some true =>
                      match resolve_map gid t (un_parent n) parsed with
                      | None => Some (t, _EPERM)
                      | Some ext => Some (<[a := set_map gid (mk_map true ext) n]> t, 0)
                      end
                  end
              end
          end
      end
  end.

(** "allow" and "deny", trailing blanks and newlines cut. *)
Fixpoint strip_end (s : list Z) : list Z :=
  match s with
  | [] => []
  | c :: rest => match strip_end rest with [] => if (c =? 10) || (c =? 32) then [] else [c] | r => c :: r end
  end.

Definition set_denied (n : user_namespace) : user_namespace :=
  mk_ns (un_parent n) (un_level n) (un_owner n) (un_group n) (un_uid_map n) (un_gid_map n) true.

Definition user_ns_write_setgroups (t : ns_table) (c : ctask) (ns : option nat) (text : list Z) : option (ns_table * Z) :=
  let s := strip_end text in
  let allow := if decide (s = [97; 108; 108; 111; 119]) then Some true
               else if decide (s = [100; 101; 110; 121]) then Some false else None in
  match allow with
  | None => Some (t, _EINVAL)
  | Some allow =>
      match ns_capable t c ns CAP_SYS_ADMIN_ with
      | None => None
      | Some false => Some (t, _EPERM)
      | Some true =>
          match ns with
          | None => Some (t, if allow then 0 else _EPERM)
          | Some a =>
              match t !! a with
              | None => None
              | Some n =>
                  if allow then Some (t, if un_setgroups_denied n then _EPERM else 0)
                  else if im_set (un_gid_map n) && negb (un_setgroups_denied n) then Some (t, _EPERM)
                  else Some (<[a := set_denied n]> t, 0)
              end
          end
      end
  end.

(** ** Well-formed maps *)

Definition ext_ok (e : id_extent) : Prop :=
  0 <= ie_first e /\ 0 < ie_count e /\ 0 <= ie_lower e /\
  ie_first e + ie_count e <= 0xffffffff /\ ie_lower e + ie_count e <= 0xffffffff.

Definition apart (s s' n n' : Z) : Prop := s + n <= s' \/ s' + n' <= s.

Definition ext_disjoint (e f : id_extent) : Prop :=
  apart (ie_first e) (ie_first f) (ie_count e) (ie_count f) /\
  apart (ie_lower e) (ie_lower f) (ie_count e) (ie_count f).

Definition extents_ok (l : list id_extent) : Prop := Forall ext_ok l /\ ForallOrdPairs ext_disjoint l.

Lemma invalid_id : USER_NS_INVALID_ID = 0xffffffff.
Proof. reflexivity. Qed.

Lemma ext_down_step e id :
  ext_ok e -> 0 <= id <= 0xffffffff ->
  ((id >=? ie_first e) && (u32 (id - ie_first e) <? ie_count e) = true <-> ie_first e <= id < ie_first e + ie_count e) /\
  (ie_first e <= id < ie_first e + ie_count e -> u32 (ie_lower e + u32 (id - ie_first e)) = ie_lower e + (id - ie_first e)).
Proof.
  intros (H1 & H2 & H3 & H4 & H5) Hid. split.
  - rewrite andb_true_iff, Z.geb_leb, Z.leb_le, Z.ltb_lt. split.
    + intros [Ha Hb]. rewrite u32_small in Hb by lia. lia.
    + intros Ha. rewrite u32_small by lia. lia.
  - intros Ha. rewrite (u32_small (id - ie_first e)) by lia. apply u32_small. lia.
Qed.

Lemma ext_up_step e kid :
  ext_ok e -> 0 <= kid <= 0xffffffff ->
  ((kid >=? ie_lower e) && (u32 (kid - ie_lower e) <? ie_count e) = true <-> ie_lower e <= kid < ie_lower e + ie_count e) /\
  (ie_lower e <= kid < ie_lower e + ie_count e -> u32 (ie_first e + u32 (kid - ie_lower e)) = ie_first e + (kid - ie_lower e)).
Proof.
  intros (H1 & H2 & H3 & H4 & H5) Hid.
  apply (ext_down_step (mk_extent (ie_lower e) (ie_first e) (ie_count e))); [unfold ext_ok; cbn; lia | done].
Qed.

(** [e] takes [id] to [kid]. *)
Definition takes (e : id_extent) (id kid : Z) : Prop :=
  ie_first e <= id < ie_first e + ie_count e /\ kid = ie_lower e + (id - ie_first e).

Lemma extents_down_spec l id kid :
  extents_ok l -> 0 <= id <= 0xffffffff -> kid <> USER_NS_INVALID_ID ->
  extents_down l id = kid <-> exists e, e ∈ l /\ takes e id kid.
Proof.
  intros [Hok Hd] Hid Hk. induction l as [| e l IH]; simpl.
  { split; [congruence | intros (e & He & _); by apply elem_of_nil in He]. }
  apply Forall_cons in Hok as [He Hok]. inversion_clear Hd as [| ? ? Hde Hd'].
  destruct (ext_down_step e id He Hid) as [Hin Hval].
  destruct ((id >=? ie_first e) && (u32 (id - ie_first e) <? ie_count e)) eqn:E.
  - pose proof (proj1 Hin eq_refl) as Hr. rewrite Hval by done. split.
    + intros <-. exists e. split; [constructor | done].
    + intros (f & Hf & [Hfr ->]). apply elem_of_cons in Hf as [-> | Hf]; [done |].
      rewrite Forall_forall in Hde. destruct (Hde f Hf) as [Ha _]. unfold apart in Ha. lia.
  - rewrite IH by done. split; [intros (f & Hf & Ht); exists f; split; [by constructor 2 | done] |].
    intros (f & Hf & Ht). apply elem_of_cons in Hf as [-> | Hf]; [| by eauto].
    destruct Ht as [Hr _]. apply Hin in Hr. done.
Qed.

Lemma extents_up_spec l id kid :
  extents_ok l -> 0 <= kid <= 0xffffffff -> id <> USER_NS_INVALID_ID ->
  extents_up l kid = id <-> exists e, e ∈ l /\ takes e id kid.
Proof.
  intros [Hok Hd] Hid Hk. induction l as [| e l IH]; simpl.
  { split; [congruence | intros (e & He & _); by apply elem_of_nil in He]. }
  apply Forall_cons in Hok as [He Hok]. inversion_clear Hd as [| ? ? Hde Hd'].
  destruct (ext_up_step e kid He Hid) as [Hin Hval].
  destruct ((kid >=? ie_lower e) && (u32 (kid - ie_lower e) <? ie_count e)) eqn:E.
  - pose proof (proj1 Hin eq_refl) as Hr. rewrite Hval by done. split.
    + intros <-. exists e. split; [constructor |]. unfold takes. lia.
    + intros (f & Hf & [Hfr Hfk]). apply elem_of_cons in Hf as [-> | Hf]; [lia |].
      rewrite Forall_forall in Hde. destruct (Hde f Hf) as [_ Ha]. unfold apart in Ha. lia.
  - rewrite IH by done. split; [intros (f & Hf & Ht); exists f; split; [by constructor 2 | done] |].
    intros (f & Hf & Ht). apply elem_of_cons in Hf as [-> | Hf]; [| by eauto].
    destruct Ht as [Hr Hkid]. assert (ie_lower e <= kid < ie_lower e + ie_count e) as Hr2 by lia. apply Hin in Hr2. done.
Qed.

Lemma id_map_down_takes l id kid :
  extents_ok l -> 0 <= id <= 0xffffffff -> kid <> 0xffffffff -> id_map_down (mk_map true l) id = kid ->
  exists e, e ∈ l /\ takes e id kid.
Proof.
  intros Hok Hid Hk. unfold id_map_down. cbn [im_set im_extents negb]. rewrite orb_false_r, invalid_id.
  destruct (Z.eqb_spec id 0xffffffff); [congruence |]. apply extents_down_spec; by rewrite ?invalid_id.
Qed.

Lemma id_map_down_of l id kid :
  extents_ok l -> 0 <= id < 0xffffffff -> kid <> 0xffffffff -> (exists e, e ∈ l /\ takes e id kid) ->
  id_map_down (mk_map true l) id = kid.
Proof.
  intros Hok Hid Hk He. unfold id_map_down. cbn [im_set im_extents negb]. rewrite orb_false_r, invalid_id.
  destruct (Z.eqb_spec id 0xffffffff); [lia |]. apply extents_down_spec; rewrite ?invalid_id; auto; lia.
Qed.

Lemma id_map_up_takes l id kid :
  extents_ok l -> 0 <= kid < 0xffffffff -> id <> 0xffffffff -> (exists e, e ∈ l /\ takes e id kid) ->
  id_map_up (mk_map true l) kid = id.
Proof.
  intros Hok Hk Hid He. unfold id_map_up. cbn [im_set im_extents negb]. rewrite orb_false_r, invalid_id.
  destruct (Z.eqb_spec kid 0xffffffff); [lia |]. apply extents_up_spec; rewrite ?invalid_id; auto; lia.
Qed.

Lemma id_map_up_of l id kid :
  extents_ok l -> 0 <= kid <= 0xffffffff -> id <> 0xffffffff -> id_map_up (mk_map true l) kid = id ->
  exists e, e ∈ l /\ takes e id kid.
Proof.
  intros Hok Hk Hid. unfold id_map_up. cbn [im_set im_extents negb]. rewrite orb_false_r, invalid_id.
  destruct (Z.eqb_spec kid 0xffffffff); [congruence |]. apply extents_up_spec; by rewrite ?invalid_id.
Qed.

(** *** Parsing *)

(** The numbers on every line are below 2^32. *)
Definition small_counts (lines : list (list Z)) : Prop :=
  Forall (fun line => forall f lo n, scan_line line = Some (f, lo, n) -> n <= 0xffffffff) lines.

Lemma scan_ull_nonneg s v rest : scan_ull s = Some (v, rest) -> 0 <= v.
Proof.
  assert (forall s acc seen v rest, 0 <= acc -> digits s acc seen = Some (v, rest) -> 0 <= v) as Hd.
  { clear. induction s as [| c s IH]; intros acc seen v rest Hacc H; simpl in H; [destruct seen; simplify_eq; done |].
    destruct (is_digit c) eqn:E; [| destruct seen; simplify_eq; done].
    eapply IH; [| exact H]. unfold is_digit in E. lia. }
  unfold scan_ull. destruct (match skip_space s with 43 :: _ => _ | _ => _ end) as [neg r].
  destruct (digits r 0 false) as [[w r'] |] eqn:E; [| done]. intros [= <- _].
  apply Hd in E; [| lia]. destruct (w >? 2 ^ 64 - 1); [lia |]. destruct neg; [| done].
  apply (wrap_range 64 (- w)). lia.
Qed.

Lemma scan_line_nonneg line f lo n : scan_line line = Some (f, lo, n) -> 0 <= f /\ 0 <= lo /\ 0 <= n.
Proof.
  unfold scan_line. intros H. repeat case_on_match_in H; simplify_eq; eauto 10 using scan_ull_nonneg.
Qed.

Lemma parse_map_ok lines parsed l :
  small_counts lines -> extents_ok parsed -> parse_map lines parsed = Some l -> extents_ok l.
Proof.
  revert parsed. induction lines as [| line lines IH]; intros parsed Hs Hp H; simpl in H; [by simplify_eq |].
  apply Forall_cons in Hs as [Hline Hs]. destruct (scan_line line) as [[[f lo] n] |] eqn:El; [| done].
  specialize (Hline _ _ _ eq_refl). apply scan_line_nonneg in El as (Hf & Hlo & Hn).
  destruct (_ || _) eqn:Ec in H; [done |]. destruct (_ =? USER_NS_MAP_EXTENTS) in H; [done |].
  destruct (existsb _ _) eqn:Ex in H; [done |]. apply orb_false_iff in Ec as [Ec E5]. apply orb_false_iff in Ec as [Ec E4].
  assert (u64 (f + n) = f + n) as Ef by (apply wrap_small; unfold in_u; lia).
  assert (u64 (lo + n) = lo + n) as Elo by (apply wrap_small; unfold in_u; lia). rewrite Ef in E4. rewrite Elo in E5.
  apply (IH _ Hs) in H; [done |]. rewrite !u32_small by lia. destruct Hp as [Hok Hd]. split.
  - apply Forall_app. split; [done |]. apply Forall_singleton. unfold ext_ok. cbn. lia.
  - clear IH H. induction Hd as [| e l' He Hd IHd]; simpl; [repeat constructor |].
    simpl in Ex. apply orb_false_iff in Ex as [Ee Ex]. apply Forall_cons in Hok as [He' Hok]. constructor.
    + apply Forall_app. split; [done |]. apply Forall_singleton.
      unfold extent_clashes in Ee. unfold ext_disjoint, apart. cbn. lia.
    + by apply IHd.
Qed.

(** *** Resolving through the parent *)

(** A parent whose ids are one range (the initial namespace among them). *)
Definition simple_parent (gid : bool) (t : ns_table) (parent : option nat) : Prop :=
  parent = None \/
  exists a n e, parent = Some a /\ t !! a = Some n /\ ns_map gid n = mk_map true [e] /\ ext_ok e.

(** Such a parent shifts its ids by a constant, and maps a range if it maps
    both ends. *)
Lemma simple_parent_shift gid t parent :
  simple_parent gid t parent ->
  exists d, (forall id, 0 <= id <= 0xffffffff -> user_ns_make_kid gid t parent id <> USER_NS_INVALID_ID ->
               user_ns_make_kid gid t parent id = id + d /\ 0 <= id + d < 0xffffffff) /\
    (forall lo hi k, 0 <= lo <= hi -> hi <= 0xffffffff ->
       user_ns_make_kid gid t parent lo <> USER_NS_INVALID_ID -> user_ns_make_kid gid t parent hi <> USER_NS_INVALID_ID ->
       lo + d <= k <= hi + d -> user_ns_from_kid gid t parent k <> USER_NS_INVALID_ID).
Proof.
  rewrite invalid_id. intros [-> | (a & n & e & -> & Ha & Hm & He)].
  - exists 0. simpl. split; [intros id Hid Hn; lia | intros; lia].
  - assert (extents_ok [e]) as Hok by (split; [by apply Forall_singleton | repeat constructor]).
    exists (ie_lower e - ie_first e). simpl. rewrite Ha, Hm.
    assert (forall id, 0 <= id <= 0xffffffff -> id_map_down (mk_map true [e]) id <> 0xffffffff ->
      takes e id (id_map_down (mk_map true [e]) id)) as Hdown.
    { intros id Hid Hn. destruct (id_map_down_takes [e] id _ Hok Hid Hn eq_refl) as (f & Hf & Ht).
      by apply list_elem_of_singleton in Hf as ->. }
    destruct He as (H1 & H2 & H3 & H4 & H5). split.
    + intros id Hid Hn. destruct (Hdown id Hid Hn) as [Hr ->]. lia.
    + intros lo hi k Hlo Hhi Hnlo Hnhi Hk. destruct (Hdown lo ltac:(lia) Hnlo) as [Hr1 _].
      destruct (Hdown hi ltac:(lia) Hnhi) as [Hr2 _].
      rewrite (id_map_up_takes [e] (k - (ie_lower e - ie_first e)) k); [lia | done | lia | lia |].
      exists e. split; [constructor |]. unfold takes. lia.
Qed.

Lemma resolve_map_ok gid t parent l l' :
  simple_parent gid t parent -> extents_ok l -> resolve_map gid t parent l = Some l' ->
  extents_ok l' /\ Forall (fun e => forall k, ie_lower e <= k < ie_lower e + ie_count e ->
                            user_ns_from_kid gid t parent k <> USER_NS_INVALID_ID) l'.
Proof.
  intros Hsp. destruct (simple_parent_shift gid t parent Hsp) as (d & Hshift & Hwhole).
  assert (forall l l', Forall ext_ok l -> resolve_map gid t parent l = Some l' ->
    l' = map (fun e => mk_extent (ie_first e) (ie_lower e + d) (ie_count e)) l /\ Forall ext_ok l' /\
    Forall (fun e => forall k, ie_lower e <= k < ie_lower e + ie_count e ->
      user_ns_from_kid gid t parent k <> USER_NS_INVALID_ID) l') as Hgen.
  { clear l l'. induction l as [| e l IH]; intros l' Hok H; simpl in H; [simplify_eq; repeat constructor |].
    apply Forall_cons in Hok as [(H1 & H2 & H3 & H4 & H5) Hok].
    rewrite (u32_small (ie_lower e + ie_count e)), (u32_small (ie_lower e + ie_count e - 1)), (u32_small (ie_count e - 1)) in H by lia.
    set (lo := user_ns_make_kid gid t parent (ie_lower e)) in *.
    set (hi := user_ns_make_kid gid t parent (ie_lower e + ie_count e - 1)) in *.
    destruct (Z.eqb_spec lo USER_NS_INVALID_ID) as [| Hlo]; [done |].
    destruct (Z.eqb_spec hi USER_NS_INVALID_ID) as [| Hhi]; [done |]. cbn [orb] in H.
    destruct (negb _); [done |]. destruct (resolve_map gid t parent l) as [r |] eqn:Er; [| done]. simplify_eq.
    destruct (IH r Hok eq_refl) as (-> & Hok' & Hw'). destruct (Hshift (ie_lower e) ltac:(lia) Hlo) as [Elo Hblo].
    destruct (Hshift (ie_lower e + ie_count e - 1) ltac:(lia) Hhi) as [Ehi Hbhi]. fold lo in Elo. rewrite Elo. split; [done |]. split.
    - constructor; [| done]. unfold ext_ok. cbn. lia.
    - constructor; [| done]. cbn. intros k Hk. apply (Hwhole (ie_lower e) (ie_lower e + ie_count e - 1) k); try done; lia. }
  intros [Hok Hd] H. destruct (Hgen l l' Hok H) as (-> & Hok' & Hw). split; [| done]. split; [done |].
  clear -Hd. induction Hd as [| e l He Hd IH]; simpl; constructor; [| done].
  apply Forall_map. eapply Forall_impl; [exact He |]. intros f [Ha Hb]. unfold ext_disjoint, apart in *. cbn. lia.
Qed.

(** ** The tree *)

Definition tree_ok (t : ns_table) : Prop :=
  forall a n, t !! a = Some n -> 1 <= un_level n <= USER_NS_MAX_LEVEL /\ ns_level t (un_parent n) = Some (un_level n - 1).

Lemma ns_capable_loop_spec fuel t c my_level ns cap lv :
  tree_ok t -> ns_level t ns = Some lv -> lv <= Z.of_nat fuel ->
  exists b, ns_capable_loop fuel t c my_level ns cap = Some b /\
    (b = true -> user_ns_in_loop fuel t ns (ct_ns c) = Some true).
Proof.
  intros Ht. revert ns lv. induction fuel as [| fuel IH]; intros ns lv Hlv Hf; simpl;
    destruct (decide (ns = ct_ns c)) as [-> | Hne]; try (by eexists);
    destruct ns as [a |]; try (by exists false); simpl in Hlv; destruct (t !! a) as [n |] eqn:Ha; simplify_eq;
    destruct (Ht a n Ha) as [Hl Hp]; [lia |].
  destruct (un_level n <=? my_level); [by exists false |].
  destruct (bool_decide (un_parent n = ct_ns c) && (un_owner n =? ct_euid c)) eqn:E.
  - apply andb_true_iff in E as [E _]. apply bool_decide_eq_true in E. exists true. split; [done |]. intros _.
    rewrite E. destruct fuel; simpl; by rewrite decide_True.
  - apply (IH (un_parent n) (un_level n - 1)); [done | lia].
Qed.

(** ** Properties *)

(** C22: writing a namespace's id map, with counts that fit 32 bits and a parent
    whose own ids are one range, gives a bijection: an id the namespace names
    goes to a kernel id that reads back as that id, and back; and every kernel
    id it reaches is one the parent maps too. *)
Theorem user_ns_write_map_bijective t c a n gid text alloc t' :
  t !! a = Some n -> small_counts (split_lines text []) -> simple_parent gid t (un_parent n) ->
  user_ns_write_map t c (Some a) gid text alloc = Some (t', 0) ->
  exists n', t' !! a = Some n' /\ (forall b, b <> a -> t' !! b = t !! b) /\
    (forall id, 0 <= id <= 0xffffffff -> user_ns_make_kid gid t' (Some a) id <> USER_NS_INVALID_ID ->
       user_ns_from_kid gid t' (Some a) (user_ns_make_kid gid t' (Some a) id) = id /\
       user_ns_from_kid gid t (un_parent n) (user_ns_make_kid gid t' (Some a) id) <> USER_NS_INVALID_ID) /\
    (forall kid, 0 <= kid <= 0xffffffff -> user_ns_from_kid gid t' (Some a) kid <> USER_NS_INVALID_ID ->
       user_ns_make_kid gid t' (Some a) (user_ns_from_kid gid t' (Some a) kid) = kid).
Proof.
  intros Ha Hs Hp H. unfold user_ns_write_map in H. rewrite Ha in H.
  destruct (negb _ && negb _); [done |]. destruct (_ >=? 4096); [done |].
  destruct (ns_capable t c (Some a) CAP_SYS_ADMIN_) as [[] |]; [| done | done]. destruct (negb alloc); [done |].
  destruct (parse_map (split_lines text []) []) as [parsed |] eqn:Epar; [| done].
  assert (extents_ok parsed) as Hparsed by (eapply parse_map_ok; [done | split; constructor | done]).
  destruct parsed as [| p0 parsed0]; [done |]. set (parsed := p0 :: parsed0) in *.
  destruct (im_set (ns_map gid n)); [done |].
  destruct (if own_id gid t c n parsed then _ else _) as [[] |]; [| done | done].
  destruct (resolve_map gid t (un_parent n) parsed) as [l |] eqn:Er; [| done]. simplify_eq.
  destruct (resolve_map_ok gid t (un_parent n) parsed l Hp Hparsed Er) as [Hok Hcont].
  exists (set_map gid (mk_map true l) n). split; [apply lookup_insert_eq |].
  split; [intros b Hb; by rewrite lookup_insert_ne |]. simpl. rewrite lookup_insert_eq.
  assert (ns_map gid (set_map gid (mk_map true l) n) = mk_map true l) as -> by (by destruct gid).
  rewrite invalid_id. pose proof Hok as [Hall _]. rewrite Forall_forall in Hcont, Hall. split.
  - intros id Hid Hn. destruct (id_map_down_takes l id _ Hok Hid Hn eq_refl) as (e & He & Ht).
    set (kid := id_map_down (mk_map true l) id) in *. destruct (Hall e He) as (H1 & H2 & H3 & H4 & H5).
    destruct Ht as [Hr Ek]. split.
    + apply id_map_up_takes; [done | lia | lia |]. by exists e.
    + apply (Hcont e He). lia.
  - intros kid Hk Hn. destruct (id_map_up_of l _ kid Hok Hk Hn eq_refl) as (e & He & Ht).
    destruct (Hall e He) as (H1 & H2 & H3 & H4 & H5). destruct Ht as [Hr Ek].
    apply id_map_down_of; [done | lia | lia |]. by exists e.
Qed.

(** The search for a capability over a namespace always ends, and finds one
    only in the caller's own namespace or one made inside it: a capability
    held in a namespace is worth nothing over its parent or its siblings. *)
Theorem ns_capable_confined t c target cap my_level lv :
  tree_ok t -> ns_level t (ct_ns c) = Some my_level -> ns_level t target = Some lv ->
  exists b, ns_capable t c target cap = Some b /\ (b = true -> user_ns_in t target (ct_ns c) = Some true).
Proof.
  intros Ht Hmy Hlv. unfold ns_capable, user_ns_in. rewrite Hmy. destruct (cap >=? 64); [by exists false |].
  apply (ns_capable_loop_spec _ t c my_level target cap lv); [done | done |].
  destruct target as [a |]; simpl in Hlv; [| simplify_eq; lia].
  destruct (t !! a) as [n |] eqn:Ea; [| done]. simplify_eq. destruct (Ht a n Ea). unfold USER_NS_MAX_LEVEL in *. lia.
Qed.

(** The writes that /proc/<pid>/{uid_map,gid_map,setgroups} offer. *)
Inductive ns_write : ns_table -> ns_table -> Prop :=
| Write_map t c ns gid text alloc t' r : user_ns_write_map t c ns gid text alloc = Some (t', r) -> ns_write t t'
| Write_setgroups t c ns text t' r : user_ns_write_setgroups t c ns text = Some (t', r) -> ns_write t t'.

Lemma write_map_shape t c ns gid text alloc t' r :
  user_ns_write_map t c ns gid text alloc = Some (t', r) ->
  t' = t \/ exists a n l, ns = Some a /\ t !! a = Some n /\ im_set (ns_map gid n) = false /\
                          t' = <[a := set_map gid (mk_map true l) n]> t.
Proof.
  intros H. unfold user_ns_write_map in H.
  repeat case_on_match_in H; simplify_eq; auto; right; eexists _, _, _; eauto.
Qed.

Lemma write_setgroups_shape t c ns text t' r :
  user_ns_write_setgroups t c ns text = Some (t', r) ->
  t' = t \/ exists a n, ns = Some a /\ t !! a = Some n /\ t' = <[a := set_denied n]> t /\
                        (im_set (un_gid_map n) && negb (un_setgroups_denied n) = false).
Proof.
  intros H. unfold user_ns_write_setgroups in H.
  repeat case_on_match_in H; simplify_eq; auto; right; eexists _, _; eauto.
Qed.

(** What a namespace has settled for good. *)
Definition settled (n n' : user_namespace) : Prop :=
  (un_setgroups_denied n = true -> un_setgroups_denied n' = true) /\
  (im_set (un_gid_map n) = true -> un_gid_map n' = un_gid_map n /\ un_setgroups_denied n' = un_setgroups_denied n) /\
  (im_set (un_uid_map n) = true -> un_uid_map n' = un_uid_map n) /\
  un_parent n' = un_parent n /\ un_level n' = un_level n /\ un_owner n' = un_owner n.

Lemma settled_refl n : settled n n.
Proof. unfold settled. auto 10. Qed.

Lemma settled_trans n1 n2 n3 : settled n1 n2 -> settled n2 n3 -> settled n1 n3.
Proof.
  intros (A1 & A2 & A3 & A4 & A5 & A6) (B1 & B2 & B3 & B4 & B5 & B6). unfold settled.
  split; [auto |]. split.
  - intros Hs. destruct (A2 Hs) as [E1 E2]. destruct B2 as [E3 E4]; [by rewrite E1 |]. split; congruence.
  - split; [| split; [congruence | split; congruence]]. intros Hs. rewrite B3; [auto | by rewrite A3].
Qed.

Lemma ns_write_settled t t' a n : ns_write t t' -> t !! a = Some n -> exists n', t' !! a = Some n' /\ settled n n'.
Proof.
  intros Hw Ha. destruct Hw as [t c ns gid text alloc t' r H | t c ns text t' r H].
  - apply write_map_shape in H as [-> | (b & m & l & _ & Hb & Hset & ->)]; [eauto using settled_refl |].
    rewrite lookup_insert. case_decide; [subst b; simplify_eq | eauto using settled_refl].
    eexists. split; [done |]. unfold settled. destruct gid; simpl in *;
      (split; [auto |]); (split; [intros; congruence || auto |]); (split; [intros; congruence || auto |]); auto.
  - apply write_setgroups_shape in H as [-> | (b & m & _ & Hb & -> & Hset)]; [eauto using settled_refl |].
    rewrite lookup_insert. case_decide; [subst b; simplify_eq | eauto using settled_refl].
    eexists. split; [done |]. unfold settled. simpl. split; [done |]. split; [| auto].
    intros Hs. rewrite Hs in Hset. simpl in Hset. apply negb_false_iff in Hset. done.
Qed.

(** What the proc files settle stays settled, through any sequence of
    writes by anyone: a map is written once, denying setgroups is for good, and
    once the group map is written whether setgroups is allowed never changes. *)
Theorem ns_writes_final t t' a n :
  rtc ns_write t t' -> t !! a = Some n -> exists n', t' !! a = Some n' /\ settled n n' /\
    (im_set (un_gid_map n) = true -> user_ns_may_setgroups t' (Some a) = user_ns_may_setgroups t (Some a)).
Proof.
  intros Hw Ha. enough (exists n', t' !! a = Some n' /\ settled n n') as (n' & Hn' & Hs).
  { exists n'. split; [done |]. split; [done |]. intros Hset. unfold user_ns_may_setgroups. rewrite Ha, Hn'.
    destruct Hs as (_ & Hg & _). destruct (Hg Hset) as [-> ->]. done. }
  revert n Ha. induction Hw as [t | t1 t2 t3 Hstep _ IH]; intros n Ha; [eauto using settled_refl |].
  destruct (ns_write_settled t1 t2 a n Hstep Ha) as (n2 & Hn2 & Hs).
  destruct (IH n2 Hn2) as (n3 & Hn3 & Hs3). eauto using settled_trans.
Qed.

(** ** Two maps that should be refused

    The count of a line is read as 64 bits and added to the other two columns
    before it is cut to 32: with the largest 64-bit number the sums wrap past
    the checks, and the range kept is nearly all of the ids there are. *)

(** A namespace (1) whose ids are the kernel's 100000 to 165535, and a child (2)
    of it; the writer is root in the first. *)
Definition box : user_namespace :=
  mk_ns None 1 1000 1000 (mk_map true [mk_extent 0 100000 65536]) (mk_map true [mk_extent 0 100000 65536]) false.
Definition inner : user_namespace := mk_ns (Some 1%nat) 2 100000 100000 (mk_map false []) (mk_map false []) false.
Definition box_table : ns_table := {[ 1%nat := box; 2%nat := inner ]}.
Definition box_root : ctask := mk_ctask (Some 1%nat) 100000 100000 [0xffffffff; 0x1ff].

(** "1 2 18446744073709551615" *)
Definition wrapping_text : list Z :=
  [49; 32; 50; 32; 49; 56; 52; 52; 54; 55; 52; 52; 48; 55; 51; 55; 48; 57; 53; 53; 49; 54; 49; 53].

(** Root of the box gives the child an id that is the machine's kernel id 0,
    which the box itself does not have. *)
Theorem write_map_wraps :
  exists t', user_ns_write_map box_table box_root (Some 2%nat) false wrapping_text true = Some (t', 0) /\
    user_ns_make_kid false t' (Some 2%nat) (2 ^ 32 - 100001) = 0 /\
    user_ns_from_kid false box_table (Some 1%nat) 0 = USER_NS_INVALID_ID.
Proof. eexists. split; [vm_compute; reflexivity |]. split; vm_compute; reflexivity. Qed.

(** Only the ends of a range are resolved through the parent: a hole in the
    parent's map (here ids 10 to 19 of the box, kernel ids 110 to 119) is
    filled in the child. *)
Definition holed_box : user_namespace :=
  mk_ns None 1 1000 1000 (mk_map true [mk_extent 0 100 10; mk_extent 20 120 10]) (mk_map true [mk_extent 0 100 30]) false.
Definition holed_table : ns_table := {[ 1%nat := holed_box; 2%nat := inner ]}.
Definition holed_root : ctask := mk_ctask (Some 1%nat) 100 100 [0xffffffff; 0x1ff].

(** "0 0 30" *)
Theorem write_map_fills_hole :
  exists t', user_ns_write_map holed_table holed_root (Some 2%nat) false [48; 32; 48; 32; 51; 48] true = Some (t', 0) /\
    user_ns_make_kid false t' (Some 2%nat) 15 = 115 /\
    user_ns_from_kid false holed_table (Some 1%nat) 115 = USER_NS_INVALID_ID.
Proof. eexists. split; [vm_compute; reflexivity |]. split; vm_compute; reflexivity. Qed.

(** ** Witnesses *)

(** "0 0 1000" written for the child of the box. *)
Definition box_text : list Z := [48; 32; 48; 32; 49; 48; 48; 48; 10].

Lemma user_ns_write_map_bijective_witness :
  exists t', user_ns_write_map box_table box_root (Some 2%nat) false box_text true = Some (t', 0) /\
    user_ns_from_kid false t' (Some 2%nat) (user_ns_make_kid false t' (Some 2%nat) 5) = 5.
Proof.
  eexists. split; [vm_compute; reflexivity |].
  edestruct (user_ns_write_map_bijective box_table box_root 2 inner false box_text true) as (n' & _ & _ & Hid & _);
    [vm_compute; reflexivity | | | vm_compute; reflexivity |].
  - assert (split_lines box_text [] = [take 8 box_text]) as E by (vm_compute; reflexivity).
    assert (scan_line (take 8 box_text) = Some (0, 0, 1000)) as E' by (vm_compute; reflexivity).
    unfold small_counts. rewrite E. apply Forall_singleton. intros f lo n H. rewrite E' in H. injection H. lia.
  - right. exists 1%nat, box, (mk_extent 0 100000 65536). do 3 (split; [vm_compute; reflexivity |]). unfold ext_ok. cbn. lia.
  - apply Hid; [lia | vm_compute; discriminate].
Defined.

Lemma box_tree_ok : tree_ok box_table.
Proof.
  intros a n Ha. unfold box_table in Ha. rewrite lookup_insert in Ha. case_decide; simplify_eq; [split; [vm_compute; split; congruence | vm_compute; reflexivity] |].
  apply lookup_singleton_Some in Ha as [<- <-]. split; [vm_compute; split; congruence | vm_compute; reflexivity].
Qed.

Lemma ns_capable_confined_witness :
  exists b, ns_capable box_table box_root None CAP_SYS_ADMIN_ = Some b /\
    (b = true -> user_ns_in box_table None (Some 1%nat) = Some true).
Proof.
  apply (ns_capable_confined box_table box_root None CAP_SYS_ADMIN_ 1 0);
    [exact box_tree_ok | vm_compute; reflexivity | reflexivity].
Defined.

Lemma ns_writes_final_witness :
  exists n', box_table !! 1%nat = Some n' /\ settled box n' /\
    (im_set (un_gid_map box) = true -> user_ns_may_setgroups box_table (Some 1%nat) = user_ns_may_setgroups box_table (Some 1%nat)).
Proof.
  apply (ns_writes_final box_table box_table 1 box); [| vm_compute; reflexivity].
  apply rtc_once. apply (Write_setgroups box_table box_root (Some 1%nat) [100; 101; 110; 121] box_table _EPERM).
  vm_compute. reflexivity.
Defined.
