(* ===== verification/Creds.v ===== *)
(** * Credentials (kernel/getset.c)

    A task's ids, groups and capability sets, and the system calls that change
    them, one function each from the whole handler: the result and the new
    credentials.  The theorems: capability sets keep their inclusions; a call
    that fails changes nothing; a process that has given up its privilege
    cannot get it back by any sequence of these calls; what makes a process
    unreadable to its user is never forgotten. *)

From Stdlib Require Import ZifyBool.
From S2P Require Import Prelude User UserNs.

Definition LINUX_CAPABILITY_VERSION_1_ := 0x19980330.
Definition LINUX_CAPABILITY_VERSION_2_ := 0x20071026.
Definition LINUX_CAPABILITY_VERSION_3_ := 0x20080522.
Definition CAP_LAST_CAP_ := 40.
Definition CAP_FULL_LOW_ := 0xffffffff.
Definition CAP_FULL_HIGH_ := Z.shiftl 1 (CAP_LAST_CAP_ - 31) - 1.
Definition MAX_GROUPS := 65536.
Definition PTRACE_MODE_ATTACH_ := 0x02.
Definition PTRACE_MODE_FSCREDS_ := 0x04.

(** [dword_t cap[2]]. *)
Record caps := mk_caps { cap0 : Z; cap1 : Z }.
Definition no_caps := mk_caps 0 0.
Definition cap_or (a b : caps) : caps := mk_caps (cap0 a .| cap0 b) (cap1 a .| cap1 b).
Definition cap_and (a b : caps) : caps := mk_caps (cap0 a .& cap0 b) (cap1 a .& cap1 b).

(** The fields of [struct task] these calls use; [undumpable] and
    [personality] are the thread group's. *)
Record cred := mk_cred {
  uid : Z; euid : Z; suid : Z; fsuid : Z; gid : Z; egid : Z; sgid : Z; fsgid : Z;
  groups : list Z;
  cap_effective : caps; cap_permitted : caps; cap_inheritable : caps; cap_ambient : caps; cap_bounding : caps;
  keepcaps : bool; user_ns : option nat; exec_gen : Z; pdeath_signal : Z; undumpable : bool }.

Definition to_ctask (c : cred) : ctask :=
  mk_ctask (user_ns c) (euid c) (egid c) [cap0 (cap_effective c); cap1 (cap_effective c)].

Definition set_uids (r e s f : Z) (c : cred) : cred :=
  mk_cred r e s f (gid c) (egid c) (sgid c) (fsgid c) (groups c) (cap_effective c) (cap_permitted c)
    (cap_inheritable c) (cap_ambient c) (cap_bounding c) (keepcaps c) (user_ns c) (exec_gen c) (pdeath_signal c) (undumpable c).
Definition set_gids (r e s f : Z) (c : cred) : cred :=
  mk_cred (uid c) (euid c) (suid c) (fsuid c) r e s f (groups c) (cap_effective c) (cap_permitted c)
    (cap_inheritable c) (cap_ambient c) (cap_bounding c) (keepcaps c) (user_ns c) (exec_gen c) (pdeath_signal c) (undumpable c).
Definition set_groups (g : list Z) (c : cred) : cred :=
  mk_cred (uid c) (euid c) (suid c) (fsuid c) (gid c) (egid c) (sgid c) (fsgid c) g (cap_effective c) (cap_permitted c)
    (cap_inheritable c) (cap_ambient c) (cap_bounding c) (keepcaps c) (user_ns c) (exec_gen c) (pdeath_signal c) (undumpable c).
Definition set_caps (e p i a : caps) (c : cred) : cred :=
  mk_cred (uid c) (euid c) (suid c) (fsuid c) (gid c) (egid c) (sgid c) (fsgid c) (groups c) e p i a
    (cap_bounding c) (keepcaps c) (user_ns c) (exec_gen c) (pdeath_signal c) (undumpable c).
Definition set_secret (c : cred) : cred :=
  mk_cred (uid c) (euid c) (suid c) (fsuid c) (gid c) (egid c) (sgid c) (fsgid c) (groups c) (cap_effective c) (cap_permitted c)
    (cap_inheritable c) (cap_ambient c) (cap_bounding c) (keepcaps c) (user_ns c) (exec_gen c) 0 true.

(** ** Shared pieces *)

Definition cap_data_count (version : Z) : Z :=
  if version =? LINUX_CAPABILITY_VERSION_1_ then 1
  else if (version =? LINUX_CAPABILITY_VERSION_2_) || (version =? LINUX_CAPABILITY_VERSION_3_) then 2 else -1.

Definition word_subset (a b : Z) : bool := a .& Z.lnot b =? 0.

Definition cap_words_subset (subset superset : caps) (count : Z) : bool :=
  word_subset (cap0 subset) (cap0 superset) && ((count <=? 1) || word_subset (cap1 subset) (cap1 superset)).

Definition user_ns_enter (ns : option nat) (c : cred) : cred :=
  let full := mk_caps CAP_FULL_LOW_ CAP_FULL_HIGH_ in
  mk_cred (uid c) (euid c) (suid c) (fsuid c) (gid c) (egid c) (sgid c) (fsgid c) (groups c)
    full full no_caps no_caps full false ns (u32 (exec_gen c + 1)) (pdeath_signal c) (undumpable c).

(** [old] is the task as [cred_change_begin] saw it. *)
Definition cred_change_commit (old c : cred) : cred :=
  if negb (euid c =? euid old) || negb (egid c =? egid old) || negb (fsuid c =? fsuid old) || negb (fsgid c =? fsgid old) ||
     negb (word_subset (cap0 (cap_permitted c)) (cap0 (cap_permitted old))) ||
     negb (word_subset (cap1 (cap_permitted c)) (cap1 (cap_permitted old)))
  then set_secret c else c.

Definition NO_ID := u32 (-1).

Section Calls.
Context (t : ns_table).

Definition current_can (cap : Z) (c : cred) : bool :=
  match ns_capable t (to_ctask c) (user_ns c) cap with Some b => b | None => false end.
Definition current_can_setuids := current_can CAP_SETUID_.
Definition current_can_setgids := current_can CAP_SETGID_.

(** arg_kuid and arg_kgid: the kernel id, or EINVAL. *)
Definition arg_kid (g : bool) (c : cred) (id : Z) : option Z :=
  if id =? NO_ID then Some id else
  let k := user_ns_make_kid g t (user_ns c) id in
  if k =? USER_NS_INVALID_ID then None else Some k.

Definition task_root_kuid (c : cred) : Z := user_ns_make_kid false t (user_ns c) 0.

Definition cap_emulate_setxuid (old c : cred) : cred :=
  let root := task_root_kuid c in
  let old_any_root := (uid old =? root) || (euid old =? root) || (suid old =? root) in
  let new_any_root := (uid c =? root) || (euid c =? root) || (suid c =? root) in
  if old_any_root && negb new_any_root then
    set_caps (cap_ambient c) (if keepcaps c then cap_or (cap_permitted c) (cap_ambient c) else cap_ambient c)
      (cap_inheritable c) (cap_ambient c) c
  else if (euid old =? root) && negb (euid c =? root) then
    set_caps (cap_ambient c) (cap_permitted c) (cap_inheritable c) (cap_ambient c) c
  else if negb (euid old =? root) && (euid c =? root) then
    set_caps (cap_permitted c) (cap_permitted c) (cap_inheritable c) (cap_ambient c) c
  else c.

(** What the set*uid calls do after changing the ids. *)
Definition finish_uids (old c : cred) : cred := cred_change_commit old (cap_emulate_setxuid old c).

Definition sys_setuid (id : Z) (c : cred) : cred * Z :=
  if id =? NO_ID then (c, _EINVAL) else
  match arg_kid false c id with
  | None => (c, _EINVAL)
  | Some k =>
      if current_can_setuids c then (finish_uids c (set_uids k k k k c), 0)
      else if negb (k =? uid c) && negb (k =? suid c) then (c, _EPERM)
      else (finish_uids c (set_uids (uid c) k (suid c) k c), 0)
  end.

Definition keep (id old : Z) : Z := if id =? NO_ID then old else id.

(** An id an unprivileged task may take. *)
Definition may_take (id a b d : Z) : bool := (id =? NO_ID) || (id =? a) || (id =? b) || (id =? d).

Definition setresuid_kernel (r e s : Z) (c : cred) : cred * Z :=
  if negb (current_can_setuids c) &&
     negb (may_take r (uid c) (euid c) (suid c) && may_take e (uid c) (euid c) (suid c) && may_take s (uid c) (euid c) (suid c))
  then (c, _EPERM)
  else (finish_uids c (set_uids (keep r (uid c)) (keep e (euid c)) (keep s (suid c)) (keep e (fsuid c)) c), 0).

Definition sys_setresuid (r e s : Z) (c : cred) : cred * Z :=
  match arg_kid false c r, arg_kid false c e, arg_kid false c s with
  | Some r, Some e, Some s => setresuid_kernel r e s c
  | _, _, _ => (c, _EINVAL)
  end.

Definition sys_setreuid (r e : Z) (c : cred) : cred * Z :=
  match arg_kid false c r, arg_kid false c e with
  | Some r, Some e =>
      let new_euid := if e =? NO_ID then euid c else e in
      let s := if negb (r =? NO_ID) || negb (new_euid =? uid c) then new_euid else NO_ID in
      setresuid_kernel r e s c
  | _, _ => (c, _EINVAL)
  end.

Definition sys_setfsuid (id : Z) (c : cred) : cred * Z :=
  let old := user_ns_from_kid_munged false t (user_ns c) (fsuid c) in
  if id =? NO_ID then (c, old) else
  match arg_kid false c id with
  | None => (c, old)
  | Some k =>
      if current_can_setuids c || (k =? uid c) || (k =? euid c) || (k =? suid c)
      then (cred_change_commit c (set_uids (uid c) (euid c) (suid c) k c), old) else (c, old)
  end.

Definition sys_setgid (id : Z) (c : cred) : cred * Z :=
  if id =? NO_ID then (c, _EINVAL) else
  match arg_kid true c id with
  | None => (c, _EINVAL)
  | Some k =>
      if current_can_setgids c then (cred_change_commit c (set_gids k k k k c), 0)
      else if negb (k =? gid c) && negb (k =? sgid c) then (c, _EPERM)
      else (cred_change_commit c (set_gids (gid c) k (sgid c) k c), 0)
  end.

Definition setresgid_kernel (r e s : Z) (c : cred) : cred * Z :=
  if negb (current_can_setgids c) &&
     negb (may_take r (gid c) (egid c) (sgid c) && may_take e (gid c) (egid c) (sgid c) && may_take s (gid c) (egid c) (sgid c))
  then (c, _EPERM)
  else (cred_change_commit c (set_gids (keep r (gid c)) (keep e (egid c)) (keep s (sgid c)) (keep e (fsgid c)) c), 0).

Definition sys_setresgid (r e s : Z) (c : cred) : cred * Z :=
  match arg_kid true c r, arg_kid true c e, arg_kid true c s with
  | Some r, Some e, Some s => setresgid_kernel r e s c
  | _, _, _ => (c, _EINVAL)
  end.

Definition sys_setregid (r e : Z) (c : cred) : cred * Z :=
  match arg_kid true c r, arg_kid true c e with
  | Some r, Some e =>
      let new_egid := if e =? NO_ID then egid c else e in
      let s := if negb (r =? NO_ID) || negb (new_egid =? gid c) then new_egid else NO_ID in
      setresgid_kernel r e s c
  | _, _ => (c, _EINVAL)
  end.

Definition sys_setfsgid (id : Z) (c : cred) : cred * Z :=
  let old := user_ns_from_kid_munged true t (user_ns c) (fsgid c) in
  if id =? NO_ID then (c, old) else
  match arg_kid true c id with
  | None => (c, old)
  | Some k =>
      if current_can_setgids c || (k =? gid c) || (k =? egid c) || (k =? sgid c)
      then (cred_change_commit c (set_gids (gid c) (egid c) (sgid c) k c), old) else (c, old)
  end.

Definition sys_getuid32 (c : cred) : Z := user_ns_from_kid_munged false t (user_ns c) (uid c).
Definition sys_getuid (c : cred) : Z := sys_getuid32 c .& 0xffff.
Definition sys_geteuid32 (c : cred) : Z := user_ns_from_kid_munged false t (user_ns c) (euid c).
Definition sys_geteuid (c : cred) : Z := sys_geteuid32 c .& 0xffff.
Definition sys_getgid32 (c : cred) : Z := user_ns_from_kid_munged true t (user_ns c) (gid c).
Definition sys_getgid (c : cred) : Z := sys_getgid32 c .& 0xffff.
Definition sys_getegid32 (c : cred) : Z := user_ns_from_kid_munged true t (user_ns c) (egid c).
Definition sys_getegid (c : cred) : Z := sys_getegid32 c .& 0xffff.

Section Memory.
Context {M : Type} `{GuestMemory M}.

(** The writes of getresuid and getresgid stop at the first that faults. *)
Definition put_id (m : M) (addr id : Z) : M * bool := user_write m addr (le_bytes 4 id).

Definition put_three (m : M) (a1 i1 a2 i2 a3 i3 : Z) : M * Z :=
  let '(m, ok) := put_id m a1 i1 in if negb ok then (m, _EFAULT) else
  let '(m, ok) := put_id m a2 i2 in if negb ok then (m, _EFAULT) else
  let '(m, ok) := put_id m a3 i3 in if negb ok then (m, _EFAULT) else (m, 0).

Definition sys_getresuid_guest (m : M) (c : cred) (ra ea sa : Z) : M * Z :=
  let shown := user_ns_from_kid_munged false t (user_ns c) in
  put_three m ra (shown (uid c)) ea (shown (euid c)) sa (shown (suid c)).

Definition sys_getresgid_guest (m : M) (c : cred) (ra ea sa : Z) : M * Z :=
  let shown := user_ns_from_kid_munged true t (user_ns c) in
  put_three m ra (shown (gid c)) ea (shown (egid c)) sa (shown (sgid c)).

Fixpoint put_groups (m : M) (list_ : Z) (gs : list Z) : M * bool :=
  match gs with
  | [] => (m, true)
  | g :: gs => let '(m, ok) := user_write m list_ (le_bytes 4 g) in
               if ok then put_groups m (u64 (list_ + 4)) gs else (m, false)
  end.

Definition sys_getgroups_guest (m : M) (c : cred) (size list_ : Z) : M * Z :=
  let n := Z.of_nat (length (groups c)) in
  if size =? 0 then (m, n) else
  if size <? n then (m, _EINVAL) else
  let '(m, ok) := match user_ns c with
    | None => user_write m list_ (flat_map (le_bytes 4) (groups c))
    | Some _ => put_groups m list_ (map (user_ns_from_kid_munged true t (user_ns c)) (groups c)) end in
  if ok then (m, n) else (m, _EFAULT).

(** The ids of a list of dwords. *)
Fixpoint dwords (n : nat) (bs : list Z) : list Z :=
  match n with O => [] | S n => le_num (take 4 bs) :: dwords n (drop 4 bs) end.

Definition sys_setgroups_guest (alloc_ok : bool) (m : M) (size list_ : Z) (c : cred) : cred * Z :=
  if negb (current_can_setgids c) || negb (user_ns_may_setgroups t (user_ns c)) then (c, _EPERM) else
  if size >? MAX_GROUPS then (c, _EINVAL) else
  match (if size =? 0 then inr [] else
         if negb alloc_ok then inl _ENOMEM else
         match user_read m list_ (size * 4) with None => inl _EFAULT | Some bs => inr (dwords (Z.to_nat size) bs) end) with
  | inl err => (c, err)
  | inr gs =>
      let ks := map (user_ns_make_kid true t (user_ns c)) gs in
      if existsb (fun k => k =? USER_NS_INVALID_ID) ks then (c, _EINVAL) else (set_groups ks c, 0)
  end.

(** [pid_is_caller]: current_pid_global(pid) is the caller's tid or tgid. *)
Context (pid_is_caller : Z -> bool).

Definition sys_capget_guest (m : M) (c : cred) (header_addr data_addr : Z) : M * Z :=
  match user_read m header_addr 8 with
  | None => (m, _EFAULT)
  | Some hdr =>
      let version := le_num (field 0 4 hdr) in
      let pid := le_num (field 4 4 hdr) in
      let count := cap_data_count version in
      if count <? 0 then
        let '(m, ok) := user_write m header_addr (le_bytes 4 LINUX_CAPABILITY_VERSION_3_ ++ field 4 4 hdr) in
        if ok then (m, _EINVAL) else (m, _EFAULT)
      else if negb (pid =? 0) && negb (pid_is_caller pid) then (m, _EPERM)
      else
        let row (w : caps -> Z) := le_bytes 4 (w (cap_effective c)) ++ le_bytes 4 (w (cap_permitted c)) ++ le_bytes 4 (w (cap_inheritable c)) in
        let data := row cap0 ++ (if count >? 1 then row cap1 else []) in
        let '(m, ok) := user_write m data_addr data in
        if ok then (m, 0) else (m, _EFAULT)
  end.

Definition sys_capset_guest (m : M) (header_addr data_addr : Z) (c : cred) : cred * Z :=
  match user_read m header_addr 8 with
  | None => (c, _EFAULT)
  | Some hdr =>
      let pid := le_num (field 4 4 hdr) in
      let count := cap_data_count (le_num (field 0 4 hdr)) in
      if count <? 0 then (c, _EINVAL) else
      if negb (pid =? 0) && negb (pid_is_caller pid) then (c, _EPERM) else
      match user_read m data_addr (12 * count) with
      | None => (c, _EFAULT)
      | Some data =>
          let word off := le_num (field off 4 data) in
          let high off := if count >? 1 then word (12 + off)%nat else 0 in
          let eff := mk_caps (word 0%nat) (high 0%nat) in
          let perm := mk_caps (word 4%nat) (high 4%nat) in
          let inh := mk_caps (word 8%nat) (high 8%nat) in
          if negb (superuser (to_ctask c)) &&
             negb (cap_words_subset perm (cap_permitted c) count &&
                   cap_words_subset inh (cap_or (cap_inheritable c) (cap_permitted c)) count &&
                   cap_words_subset eff perm count && cap_words_subset eff (cap_permitted c) count) then (c, _EPERM) else
          if negb (cap_words_subset eff perm count) then (c, _EPERM) else
          if negb (cap_words_subset inh (cap_or (cap_inheritable c) (cap_bounding c)) count) then (c, _EPERM) else
          (cred_change_commit c (set_caps eff perm inh (cap_and (cap_ambient c) (cap_and perm inh)) c), 0)
      end
  end.

End Memory.
End Calls.

(** [same_group]: the target is a thread of the caller's process. *)
Definition task_ptrace_may_access (c target : cred) (same_group : bool) (mode : Z) : bool :=
  if same_group then true else
  if current_capable (to_ctask c) CAP_SYS_PTRACE_ then true else
  let u := if has_flag mode PTRACE_MODE_FSCREDS_ then fsuid c else uid c in
  let g := if has_flag mode PTRACE_MODE_FSCREDS_ then fsgid c else gid c in
  if negb (u =? uid target) || negb (u =? euid target) || negb (u =? suid target) ||
     negb (g =? gid target) || negb (g =? egid target) || negb (g =? sgid target) then false
  else negb (undumpable target).

(** The previous personality and the new one. *)
Definition sys_personality (previous persona : Z) : Z * Z :=
  if persona =? 0xffffffff then (previous, previous) else (persona, previous).

(** ** One call *)

Inductive call {M : Type} :=
| Setuid (id : Z) | Setreuid (r e : Z) | Setresuid (r e s : Z) | Setfsuid (id : Z)
| Setgid (id : Z) | Setregid (r e : Z) | Setresgid (r e s : Z) | Setfsgid (id : Z)
| Setgroups (alloc_ok : bool) (m : M) (size list_ : Z)
| Capset (pid_is_caller : Z -> bool) (m : M) (header_addr data_addr : Z).

Definition run_call `{GuestMemory M} (t : ns_table) (k : call (M := M)) (c : cred) : cred * Z :=
  match k with
  | Setuid id => sys_setuid t id c
  | Setreuid r e => sys_setreuid t r e c
  | Setresuid r e s => sys_setresuid t r e s c
  | Setfsuid id => sys_setfsuid t id c
  | Setgid id => sys_setgid t id c
  | Setregid r e => sys_setregid t r e c
  | Setresgid r e s => sys_setresgid t r e s c
  | Setfsgid id => sys_setfsgid t id c
  | Setgroups al m size l => sys_setgroups_guest t al m size l c
  | Capset p m h d => sys_capset_guest p m h d c
  end.

(** ** Subsets *)

Lemma word_subset_bits a b : word_subset a b = true <-> forall n, Z.testbit a n = true -> Z.testbit b n = true.
Proof.
  unfold word_subset. rewrite Z.eqb_eq. split.
  - intros E n Ha. destruct (Z.testbit b n) eqn:Hb; [done |]. destruct (decide (0 <= n)) as [Hn | Hn];
      [| rewrite Z.testbit_neg_r in Ha by lia; done].
    assert (Z.testbit (a .& Z.lnot b) n = true) as Ht by (rewrite Z.land_spec, Z.lnot_spec, Ha, Hb by lia; done).
    by rewrite E, Z.bits_0 in Ht.
  - intros Hab. apply Z.bits_inj_0. intros n. rewrite Z.land_spec. destruct (Z.testbit a n) eqn:Ha; [| done].
    destruct (decide (0 <= n)) as [Hn | Hn]; [| rewrite Z.testbit_neg_r in Ha by lia; done].
    rewrite Z.lnot_spec, (Hab n Ha) by lia. done.
Qed.

Definition caps_sub (a b : caps) : Prop :=
  word_subset (cap0 a) (cap0 b) = true /\ word_subset (cap1 a) (cap1 b) = true.

Lemma caps_sub_refl a : caps_sub a a.
Proof. split; by apply word_subset_bits. Qed.

Lemma caps_sub_trans a b d : caps_sub a b -> caps_sub b d -> caps_sub a d.
Proof. unfold caps_sub. rewrite !word_subset_bits. naive_solver. Qed.

Lemma caps_sub_or_l a b : caps_sub a (cap_or a b).
Proof. split; apply word_subset_bits; intros n Ha; simpl; by rewrite Z.lor_spec, Ha. Qed.

Lemma caps_sub_or_r a b : caps_sub b (cap_or a b).
Proof. split; apply word_subset_bits; intros n Ha; simpl; by rewrite Z.lor_spec, Ha, orb_true_r. Qed.

Lemma caps_sub_or a b d : caps_sub a d -> caps_sub b d -> caps_sub (cap_or a b) d.
Proof.
  unfold caps_sub. rewrite !word_subset_bits. intros [A0 A1] [B0 B1].
  split; intros n; simpl; rewrite Z.lor_spec, orb_true_iff; naive_solver.
Qed.

Lemma caps_sub_and_r a b : caps_sub (cap_and a b) b.
Proof. split; apply word_subset_bits; intros n; simpl; rewrite Z.land_spec, andb_true_iff; tauto. Qed.

Lemma caps_sub_and_l a b : caps_sub (cap_and a b) a.
Proof. split; apply word_subset_bits; intros n; simpl; rewrite Z.land_spec, andb_true_iff; tauto. Qed.

#[export] Hint Resolve caps_sub_refl caps_sub_or_l caps_sub_or_r caps_sub_and_l caps_sub_and_r : cint.

(** The checked words are all there are. *)
Lemma cap_words_subset_sub a b count :
  cap_words_subset a b count = true -> (count <= 1 -> cap1 a = 0) -> caps_sub a b.
Proof.
  unfold cap_words_subset. intros [H0 H1]%andb_true_iff Hc. split; [done |].
  apply orb_true_iff in H1 as [H1 | H1]; [| done]. rewrite Hc by lia. apply word_subset_bits.
  intros n. by rewrite Z.bits_0.
Qed.

(** The inclusions of Linux's capability sets. *)
Record caps_ok (c : cred) : Prop := mk_caps_ok {
  co_eff : caps_sub (cap_effective c) (cap_permitted c);
  co_amb_perm : caps_sub (cap_ambient c) (cap_permitted c);
  co_amb_inh : caps_sub (cap_ambient c) (cap_inheritable c) }.

(** ** What each piece changes *)

Lemma commit_fields old c :
  let c' := cred_change_commit old c in
  uid c' = uid c /\ euid c' = euid c /\ suid c' = suid c /\ fsuid c' = fsuid c /\ gid c' = gid c /\ egid c' = egid c /\
  sgid c' = sgid c /\ fsgid c' = fsgid c /\ groups c' = groups c /\ cap_effective c' = cap_effective c /\
  cap_permitted c' = cap_permitted c /\ cap_inheritable c' = cap_inheritable c /\ cap_ambient c' = cap_ambient c /\
  user_ns c' = user_ns c /\ keepcaps c' = keepcaps c /\ (undumpable c = true -> undumpable c' = true).
Proof. unfold cred_change_commit. case_match; simpl; auto 20. Qed.

Lemma emulate_ids t old c :
  let c' := cap_emulate_setxuid t old c in
  uid c' = uid c /\ euid c' = euid c /\ suid c' = suid c /\ fsuid c' = fsuid c /\ gid c' = gid c /\ egid c' = egid c /\
  sgid c' = sgid c /\ fsgid c' = fsgid c /\ groups c' = groups c /\ user_ns c' = user_ns c /\ keepcaps c' = keepcaps c /\
  undumpable c' = undumpable c.
Proof. unfold cap_emulate_setxuid. repeat case_match; simpl; auto 20. Qed.

Lemma emulate_caps_ok t old c : caps_ok c -> caps_ok (cap_emulate_setxuid t old c).
Proof.
  intros [He Hap Hai]. unfold cap_emulate_setxuid.
  repeat case_match; try done; split; simpl; auto with cint.
Qed.

Lemma commit_caps_ok old c : caps_ok c -> caps_ok (cred_change_commit old c).
Proof.
  intros [He Hap Hai]. destruct (commit_fields old c) as (_ & _ & _ & _ & _ & _ & _ & _ & _ & E1 & E2 & E3 & E4 & _).
  split; congruence.
Qed.

(** What a change of ids that never touches root does to the sets: nothing. *)
Lemma emulate_no_root t old c :
  let root := task_root_kuid t c in
  uid old <> root -> euid old <> root -> suid old <> root -> euid c <> root ->
  cap_emulate_setxuid t old c = c.
Proof.
  cbv zeta. intros H1 H2 H3 H4. unfold cap_emulate_setxuid. cbv zeta.
  apply Z.eqb_neq in H1, H2, H3, H4. rewrite H1, H2, H3, H4. done.
Qed.

(** ** The shapes a call's effect has *)

Definition one_of (x a b d : Z) : Prop := x = a \/ x = b \/ x = d.

Inductive effect (t : ns_table) (c : cred) : cred -> Prop :=
| E_same : effect t c c
| E_uids r e s f :
    (current_can_setuids t c = false ->
     one_of r (uid c) (euid c) (suid c) /\ one_of e (uid c) (euid c) (suid c) /\ one_of s (uid c) (euid c) (suid c) /\
     (one_of f (uid c) (euid c) (suid c) \/ f = fsuid c)) ->
    effect t c (finish_uids t c (set_uids r e s f c))
| E_fsuid f :
    (current_can_setuids t c = false -> one_of f (uid c) (euid c) (suid c)) ->
    effect t c (cred_change_commit c (set_uids (uid c) (euid c) (suid c) f c))
| E_gids r e s f :
    (current_can_setgids t c = false ->
     one_of r (gid c) (egid c) (sgid c) /\ one_of e (gid c) (egid c) (sgid c) /\ one_of s (gid c) (egid c) (sgid c)) ->
    effect t c (cred_change_commit c (set_gids r e s f c))
| E_groups ks : current_can_setgids t c = true -> effect t c (set_groups ks c)
| E_caps eff perm inh :
    caps_sub eff perm -> (superuser (to_ctask c) = false -> caps_sub perm (cap_permitted c)) ->
    effect t c (cred_change_commit c (set_caps eff perm inh (cap_and (cap_ambient c) (cap_and perm inh)) c)).

Lemma may_take_keep id old a b d : may_take id a b d = true -> one_of old a b d -> one_of (keep id old) a b d.
Proof. unfold may_take, keep, one_of. intros H Ho. destruct (id =? NO_ID) eqn:E; [done |]. lia. Qed.

Lemma setresuid_effect t r e s c : effect t c (fst (setresuid_kernel t r e s c)).
Proof.
  unfold setresuid_kernel. destruct (negb _ && negb _) eqn:E; simpl; [constructor |].
  apply E_uids. intros Hn. rewrite Hn in E. simpl in E. apply negb_false_iff in E. to_prop.
  assert (one_of (uid c) (uid c) (euid c) (suid c) /\ one_of (euid c) (uid c) (euid c) (suid c) /\
    one_of (suid c) (uid c) (euid c) (suid c)) as (Hu & He & Hs) by (unfold one_of; auto 10).
  split; [by apply may_take_keep |]. split; [by apply may_take_keep |]. split; [by apply may_take_keep |].
  unfold keep. destruct (e =? NO_ID) eqn:Ee; [by right |]. left.
  match goal with H : may_take e _ _ _ = true |- _ => unfold may_take in H; rewrite Ee in H end. unfold one_of. lia.
Qed.

Lemma setresgid_effect t r e s c : effect t c (fst (setresgid_kernel t r e s c)).
Proof.
  unfold setresgid_kernel. destruct (negb _ && negb _) eqn:E; simpl; [constructor |].
  apply E_gids. intros Hn. rewrite Hn in E. simpl in E. apply negb_false_iff in E. to_prop.
  assert (one_of (gid c) (gid c) (egid c) (sgid c) /\ one_of (egid c) (gid c) (egid c) (sgid c) /\
    one_of (sgid c) (gid c) (egid c) (sgid c)) as (Hu & He & Hs) by (unfold one_of; auto 10).
  split; [by apply may_take_keep |]. split; by apply may_take_keep.
Qed.

Lemma setuid_effect t id c : effect t c (fst (sys_setuid t id c)).
Proof.
  unfold sys_setuid. destruct (id =? NO_ID); [constructor |]. destruct (arg_kid t false c id) as [k |]; [| constructor].
  destruct (current_can_setuids t c) eqn:E; [simpl; apply E_uids; congruence |].
  destruct (negb _ && negb _) eqn:E2; [constructor |]. simpl. apply E_uids. intros _. unfold one_of. lia.
Qed.

Lemma setgid_effect t id c : effect t c (fst (sys_setgid t id c)).
Proof.
  unfold sys_setgid. destruct (id =? NO_ID); [constructor |]. destruct (arg_kid t true c id) as [k |]; [| constructor].
  destruct (current_can_setgids t c) eqn:E; [simpl; apply E_gids; congruence |].
  destruct (negb _ && negb _) eqn:E2; [constructor |]. simpl. apply E_gids. intros _. unfold one_of. lia.
Qed.

Lemma setfsuid_effect t id c : effect t c (fst (sys_setfsuid t id c)).
Proof.
  unfold sys_setfsuid. destruct (id =? NO_ID); [constructor |]. destruct (arg_kid t false c id) as [k |]; [| constructor].
  destruct (_ || _ || _ || _) eqn:E; [| constructor]. simpl. apply E_fsuid. intros Hn. rewrite Hn in E. unfold one_of. lia.
Qed.

Lemma setfsgid_effect t id c : effect t c (fst (sys_setfsgid t id c)).
Proof.
  unfold sys_setfsgid. destruct (id =? NO_ID); [constructor |]. destruct (arg_kid t true c id) as [k |]; [| constructor].
  destruct (_ || _ || _ || _) eqn:E; [| constructor]. simpl. apply E_gids. intros _. unfold one_of. auto 10.
Qed.

Lemma capset_effect `{GuestMemory M} t p (m : M) h d c : effect t c (fst (sys_capset_guest p m h d c)).
Proof.
  unfold sys_capset_guest. destruct (user_read m h 8) as [hdr |]; [| constructor].
  set (count := cap_data_count (le_num (field 0 4 hdr))). destruct (count <? 0); [constructor |].
  destruct (negb _ && negb _); [constructor |]. destruct (user_read m d (12 * count)) as [data |]; [| constructor].
  cbv zeta. set (eff := mk_caps (le_num (field 0 4 data)) _). set (perm := mk_caps (le_num (field 4 4 data)) _).
  set (inh := mk_caps (le_num (field 8 4 data)) _).
  assert (count <= 1 -> cap1 eff = 0 /\ cap1 perm = 0) as Hhigh
    by (intros Hc; unfold eff, perm; simpl; destruct (Z.gtb_spec count 1); [lia | done]).
  destruct (negb (superuser (to_ctask c)) && _) eqn:E1; [constructor |].
  destruct (cap_words_subset eff perm count) eqn:E2; [| constructor].
  destruct (cap_words_subset inh (cap_or (cap_inheritable c) (cap_bounding c)) count) eqn:E3; [| constructor]. simpl fst. apply E_caps.
  - eapply cap_words_subset_sub; [exact E2 |]. naive_solver.
  - intros Hs. rewrite Hs in E1. simpl in E1. apply negb_false_iff in E1. to_prop.
    eapply cap_words_subset_sub; [eassumption |]. naive_solver.
Qed.

Lemma run_call_effect `{GuestMemory M} t (k : call (M := M)) c : effect t c (fst (run_call t k c)).
Proof.
  destruct k; simpl; auto using setuid_effect, setgid_effect, setfsuid_effect, setfsgid_effect, capset_effect.
  - unfold sys_setreuid. repeat case_match; auto using setresuid_effect; constructor.
  - unfold sys_setresuid. repeat case_match; auto using setresuid_effect; constructor.
  - unfold sys_setregid. repeat case_match; auto using setresgid_effect; constructor.
  - unfold sys_setresgid. repeat case_match; auto using setresgid_effect; constructor.
  - unfold sys_setgroups_guest. destruct (negb (current_can_setgids t c) || _) eqn:E; [constructor |].
    apply orb_false_iff in E as [E _]. apply negb_false_iff in E.
    repeat case_match; try constructor; done.
Qed.

(** ** Privilege *)

Lemma own_capable t c cap :
  current_can t cap c = true -> superuser (to_ctask c) = true \/ current_has_cap (to_ctask c) cap = true.
Proof.
  unfold current_can, ns_capable. destruct (cap >=? 64); [done |].
  destruct (ns_level t (ct_ns (to_ctask c))) as [lv |]; [| done].
  simpl. rewrite decide_True by done. unfold current_capable. simpl.
  case_bool_decide; simpl; [| by right]. rewrite orb_true_iff. auto.
Qed.

(** A capability below 32 is a bit of the first word. *)
Lemma has_cap_bit c cap :
  0 <= cap < 32 -> current_has_cap (to_ctask c) cap = Z.testbit (cap0 (cap_effective c)) cap.
Proof.
  intros Hc. unfold current_has_cap. destruct (Z.geb_spec cap 64); [lia |].
  rewrite Z.div_small, Z.mod_small by lia. simpl.
  replace (u32 (Z.shiftl 1 cap)) with (Z.shiftl 1 cap).
  - apply has_flag_testbit. lia.
  - symmetry. apply wrap_small. unfold in_u. rewrite Z.shiftl_1_l. split; [apply Z.pow_nonneg; lia |].
    apply Z.pow_lt_mono_r; lia.
Qed.

Definition lacks (cap : Z) (p : caps) : Prop := Z.testbit (cap0 p) cap = false.

Lemma lacks_sub cap a b : caps_sub a b -> lacks cap b -> lacks cap a.
Proof.
  intros [H0 _] Hb. unfold lacks in *. destruct (Z.testbit (cap0 a) cap) eqn:Ha; [| done].
  apply (proj1 (word_subset_bits _ _) H0) in Ha. congruence.
Qed.

(** No root id, and the capability is not even permitted: it cannot be used. *)
Lemma unprivileged_cannot t c cap :
  0 <= cap < 32 -> caps_ok c -> euid c <> task_root_kuid t c -> lacks cap (cap_permitted c) -> current_can t cap c = false.
Proof.
  intros Hc Hok Hr Hl. destruct (current_can t cap c) eqn:E; [| done]. apply own_capable in E as [E | E].
  - unfold superuser in E. simpl in E. to_prop. case_bool_decide as Hn; [| done].
    unfold task_root_kuid in Hr. rewrite Hn in Hr. simpl in Hr. congruence.
  - rewrite has_cap_bit in E by done. pose proof (lacks_sub cap _ _ (co_eff _ Hok) Hl) as Hl'. unfold lacks in Hl'. congruence.
Qed.

(** What an unprivileged process [c] started as [c0] can have become. *)
Record within (t : ns_table) (c0 c : cred) : Prop := mk_within {
  wn_caps : caps_ok c;
  wn_ns : user_ns c = user_ns c0;
  wn_uid : one_of (uid c) (uid c0) (euid c0) (suid c0);
  wn_euid : one_of (euid c) (uid c0) (euid c0) (suid c0);
  wn_suid : one_of (suid c) (uid c0) (euid c0) (suid c0);
  wn_fsuid : one_of (fsuid c) (uid c0) (euid c0) (suid c0) \/ fsuid c = fsuid c0;
  wn_perm : caps_sub (cap_permitted c) (cap_permitted c0);
  wn_groups : lacks CAP_SETGID_ (cap_permitted c0) -> groups c = groups c0 /\
    one_of (gid c) (gid c0) (egid c0) (sgid c0) /\ one_of (egid c) (gid c0) (egid c0) (sgid c0) /\
    one_of (sgid c) (gid c0) (egid c0) (sgid c0) }.

Lemma one_of_trans x a b d a' b' d' :
  one_of x a b d -> one_of a a' b' d' -> one_of b a' b' d' -> one_of d a' b' d' -> one_of x a' b' d'.
Proof. unfold one_of. naive_solver. Qed.

Lemma effect_caps_ok t c c' : caps_ok c -> effect t c c' -> caps_ok c'.
Proof.
  intros Hok He. destruct He; auto using commit_caps_ok.
  - unfold finish_uids. apply commit_caps_ok, emulate_caps_ok. destruct Hok. by split.
  - apply commit_caps_ok. destruct Hok. by split.
  - apply commit_caps_ok. destruct Hok. by split.
  - destruct Hok. by split.
  - apply commit_caps_ok. split; simpl; [done | |];
      (eapply caps_sub_trans; [apply caps_sub_and_r |]); auto with cint.
Qed.

Lemma effect_ns t c c' : effect t c c' -> user_ns c' = user_ns c.
Proof.
  intros He. destruct He; auto.
  - unfold finish_uids. destruct (commit_fields c (cap_emulate_setxuid t c (set_uids r e s f c))) as (_ & _ & _ & _ & _ & _ & _ & _ & _ & _ & _ & _ & _ & -> & _).
    by destruct (emulate_ids t c (set_uids r e s f c)) as (_ & _ & _ & _ & _ & _ & _ & _ & _ & -> & _).
  - by destruct (commit_fields c (set_uids (uid c) (euid c) (suid c) f c)) as (_ & _ & _ & _ & _ & _ & _ & _ & _ & _ & _ & _ & _ & -> & _).
  - by destruct (commit_fields c (set_gids r e s f c)) as (_ & _ & _ & _ & _ & _ & _ & _ & _ & _ & _ & _ & _ & -> & _).
  - by destruct (commit_fields c (set_caps eff perm inh (cap_and (cap_ambient c) (cap_and perm inh)) c)) as (_ & _ & _ & _ & _ & _ & _ & _ & _ & _ & _ & _ & _ & -> & _).
Qed.

Lemma commit_within t c0 old c : within t c0 c -> within t c0 (cred_change_commit old c).
Proof.
  intros [W1 W2 W3 W4 W5 W6 W7 W8].
  destruct (commit_fields old c) as (E1 & E2 & E3 & E4 & E5 & E6 & E7 & E8 & E9 & E10 & E11 & E12 & E13 & E14 & _).
  split; rewrite ?E1, ?E2, ?E3, ?E4, ?E5, ?E6, ?E7, ?E9, ?E11, ?E14; auto using commit_caps_ok.
Qed.

(** A step of an unprivileged process stays within what it was. *)
Lemma effect_within t c0 c c' :
  let root := task_root_kuid t c0 in
  uid c0 <> root -> euid c0 <> root -> suid c0 <> root -> lacks CAP_SETUID_ (cap_permitted c0) ->
  within t c0 c -> effect t c c' -> within t c0 c'.
Proof.
  intros root R1 R2 R3 Hl Hw He. pose proof Hw as [W1 W2 W3 W4 W5 W6 W7 W8].
  assert (task_root_kuid t c = root) as Er by (unfold root, task_root_kuid; by rewrite W2).
  assert (forall x, one_of x (uid c0) (euid c0) (suid c0) -> x <> root) as Hnr by (unfold one_of; naive_solver).
  assert (current_can_setuids t c = false) as Hcan.
  { apply unprivileged_cannot; [unfold CAP_SETUID_; lia | done | rewrite Er; auto | by eapply lacks_sub]. }
  assert (lacks CAP_SETGID_ (cap_permitted c0) -> current_can_setgids t c = false) as Hcang.
  { intros Hg. apply unprivileged_cannot; [unfold CAP_SETGID_; lia | done | rewrite Er; auto | by eapply lacks_sub]. }
  assert (superuser (to_ctask c) = false) as Hsu.
  { destruct (superuser (to_ctask c)) eqn:E; [| done]. unfold superuser in E. simpl in E. to_prop. case_bool_decide as Hn; [| done].
    exfalso. apply (Hnr (euid c)); [done |]. rewrite <- Er. unfold task_root_kuid. by rewrite Hn. }
  pose proof (effect_caps_ok t c c' W1 He) as Hok'.
  destruct He as [| r e s f Hid | f Hid | r e s f Hid | ks Hg | eff perm inh Hsub Hperm]; [done | | | | |].
  - destruct (Hid Hcan) as (Hr & Hee & Hs & Hf). apply commit_within.
    assert (one_of e (uid c0) (euid c0) (suid c0)) as He0 by (by eapply one_of_trans).
    rewrite emulate_no_root; simpl.
    + split; simpl; auto; try (by eapply one_of_trans); [destruct W1; by split |].
      destruct Hf as [Hf | ->]; [left; by eapply one_of_trans | done].
    + unfold task_root_kuid in *. simpl. rewrite Er. auto.
    + unfold task_root_kuid in *. simpl. rewrite Er. auto.
    + unfold task_root_kuid in *. simpl. rewrite Er. auto.
    + unfold task_root_kuid in *. simpl. rewrite Er. auto.
  - apply commit_within. split; simpl; auto; [destruct W1; by split |]. left. eapply one_of_trans; eauto.
  - apply commit_within. split; simpl; auto; [destruct W1; by split |]. intros Hg. destruct (W8 Hg) as (Hgr & A & B & D).
    destruct (Hid (Hcang Hg)) as (Hr & Hee & Hs). split; [done |]. split; [by eapply one_of_trans |].
    split; by eapply one_of_trans.
  - split; simpl; auto. intros Hl'. rewrite Hcang in Hg; done.
  - destruct (commit_fields c (set_caps eff perm inh (cap_and (cap_ambient c) (cap_and perm inh)) c))
      as (E1 & E2 & E3 & E4 & E5 & E6 & E7 & E8 & E9 & E10 & E11 & E12 & E13 & E14 & _). simpl in *.
    split; rewrite ?E1, ?E2, ?E3, ?E4, ?E5, ?E6, ?E7, ?E9, ?E11, ?E14; auto.
    eapply caps_sub_trans; [by apply Hperm | done].
Qed.

(** Everything undumpable stays so. *)
Lemma effect_undumpable t c c' : undumpable c = true -> effect t c c' -> undumpable c' = true.
Proof.
  intros Hu He. destruct He; auto.
  all: try (unfold finish_uids).
  all: match goal with |- undumpable (cred_change_commit ?o ?n) = true =>
    destruct (commit_fields o n) as (_ & _ & _ & _ & _ & _ & _ & _ & _ & _ & _ & _ & _ & _ & _ & Hmono) end; apply Hmono.
  all: try done. by destruct (emulate_ids t c (set_uids r e s f c)) as (_ & _ & _ & _ & _ & _ & _ & _ & _ & _ & _ & ->).
Qed.

(** The change Linux's commit_creds looks for. *)
Definition changed (c c' : cred) : Prop :=
  euid c' <> euid c \/ egid c' <> egid c \/ fsuid c' <> fsuid c \/ fsgid c' <> fsgid c \/
  ~ caps_sub (cap_permitted c') (cap_permitted c).

Lemma commit_changed c n : changed c (cred_change_commit c n) -> undumpable (cred_change_commit c n) = true /\ pdeath_signal (cred_change_commit c n) = 0.
Proof.
  unfold cred_change_commit. destruct (negb (euid n =? euid c) || _ || _ || _ || _ || _) eqn:E; [done |].
  intros Hch. exfalso. repeat rewrite orb_false_iff in E. rewrite !negb_false_iff, !Z.eqb_eq in E.
  unfold changed, caps_sub in Hch. naive_solver.
Qed.

Lemma effect_changed t c c' : effect t c c' -> changed c c' -> undumpable c' = true /\ pdeath_signal c' = 0.
Proof.
  intros He Hch. destruct He as [| r e s f Hid | f Hid | r e s f Hid | ks Hg | eff perm inh Hsub Hperm];
    try (by apply commit_changed).
  - exfalso. destruct Hch as [H | [H | [H | [H | H]]]]; try done. apply H. apply caps_sub_refl.
  - exfalso. destruct Hch as [H | [H | [H | [H | H]]]]; try done. apply H. apply caps_sub_refl.
Qed.

(** Calls of one thread, one after the other. *)
Definition step `{GuestMemory M} (t : ns_table) (c c' : cred) : Prop := exists k : call (M := M), c' = fst (run_call t k c).

Lemma steps_within `{GuestMemory M} t c0 c :
  caps_ok c0 -> uid c0 <> task_root_kuid t c0 -> euid c0 <> task_root_kuid t c0 -> suid c0 <> task_root_kuid t c0 ->
  lacks CAP_SETUID_ (cap_permitted c0) -> rtc (step (M := M) t) c0 c -> within t c0 c.
Proof.
  intros Hok R1 R2 R3 Hl Hsteps.
  assert (within t c0 c0) as H0 by (split; auto; unfold one_of; auto 10; apply caps_sub_refl).
  enough (forall c1, within t c0 c1 -> rtc (step (M := M) t) c1 c -> within t c0 c) as Hgen by (by eapply Hgen).
  clear Hsteps. intros c1 Hw Hs. induction Hs as [| c1 c2 c3 [k ->] _ IH]; [done |].
  apply IH. eapply effect_within; eauto. apply run_call_effect.
Qed.

Lemma caps_sub_none a : caps_sub a no_caps -> a = no_caps.
Proof.
  unfold caps_sub, word_subset. simpl. rewrite !Z.land_m1_r, !Z.eqb_eq. intros [H0 H1]. destruct a. simpl in *. by subst.
Qed.

(** ** Properties *)

(** Every credential call keeps the capability sets' inclusions: effective
    and ambient within permitted, ambient within inheritable.  So does entering
    a user namespace. *)
Theorem cred_calls_caps_ok `{GuestMemory M} t (k : call (M := M)) ns c :
  caps_ok c -> caps_ok (fst (run_call t k c)) /\ caps_ok (user_ns_enter ns c).
Proof.
  intros Hok. split; [by eapply effect_caps_ok, run_call_effect |].
  split; simpl; split; apply word_subset_bits; intros n; simpl; rewrite ?Z.bits_0; done.
Qed.


(** Dropping root with setuid is for good: after a privileged setuid(id) to
    an id that is not root, with no ambient capabilities and PR_SET_KEEPCAPS
    off, no sequence of credential calls gets any other uid or any capability. *)
Theorem setuid_drop_permanent `{GuestMemory M} t id c c1 c2 :
  caps_ok c -> (uid c = task_root_kuid t c \/ euid c = task_root_kuid t c \/ suid c = task_root_kuid t c) ->
  current_can_setuids t c = true -> keepcaps c = false -> cap_ambient c = no_caps ->
  sys_setuid t id c = (c1, 0) -> euid c1 <> task_root_kuid t c -> rtc (step (M := M) t) c1 c2 ->
  uid c2 = euid c1 /\ euid c2 = euid c1 /\ suid c2 = euid c1 /\ fsuid c2 = euid c1 /\
  cap_permitted c2 = no_caps /\ cap_effective c2 = no_caps.
Proof.
  intros Hok Hroot Hcan Hkeep Hamb E Hnr Hsteps. unfold sys_setuid in E. destruct (id =? NO_ID); [done |].
  destruct (arg_kid t false c id) as [k |]; [| done]. rewrite Hcan in E. injection E as <-.
  set (c1 := finish_uids t c (set_uids k k k k c)) in *.
  destruct (commit_fields c (cap_emulate_setxuid t c (set_uids k k k k c)))
    as (E1 & E2 & E3 & E4 & _ & _ & _ & _ & _ & _ & Ep & _ & _ & En & _).
  fold (finish_uids t c (set_uids k k k k c)) in E1, E2, E3, E4, Ep, En. fold c1 in E1, E2, E3, E4, Ep, En.
  destruct (emulate_ids t c (set_uids k k k k c)) as (F1 & F2 & F3 & F4 & _ & _ & _ & _ & _ & Fn & _).
  rewrite F1 in E1. rewrite F2 in E2. rewrite F3 in E3. rewrite F4 in E4. rewrite Fn in En. simpl in *.
  assert (task_root_kuid t c1 = task_root_kuid t c) as Er by (unfold task_root_kuid; by rewrite En).
  assert (cap_permitted c1 = no_caps) as Hp.
  { rewrite Ep. unfold cap_emulate_setxuid. cbv zeta. unfold task_root_kuid at 1 2 3 4 5 6. simpl.
    fold (task_root_kuid t c). rewrite E2 in Hnr. apply Z.eqb_neq in Hnr. rewrite Hnr. simpl.
    replace ((uid c =? task_root_kuid t c) || (euid c =? task_root_kuid t c) || (suid c =? task_root_kuid t c)) with true
      by (symmetry; rewrite !orb_true_iff, !Z.eqb_eq; tauto).
    simpl. by rewrite Hkeep. }
  assert (caps_ok c1) as Hok1 by (apply commit_caps_ok, emulate_caps_ok; destruct Hok; by split).
  destruct (steps_within (M := M) t c1 c2) as [W1 _ W3 W4 W5 W6 W7 _];
    [done | congruence | congruence | congruence | unfold lacks; by rewrite Hp | done |].
  rewrite Hp in W7. apply caps_sub_none in W7. pose proof (co_eff _ W1) as Heff. rewrite W7 in Heff. apply caps_sub_none in Heff.
  unfold one_of in *. rewrite E1, E2, E3, E4 in *. repeat split; try done; naive_solver.
Qed.

(** A process whose effective or filesystem ids a call changed, or whose
    permitted capabilities it raised, is from then on closed to its user:
    whatever credential calls follow, only a process with CAP_SYS_PTRACE (or
    another thread of it) may inspect it; and its parent-death signal is
    forgotten. *)
Theorem changed_creds_closed `{GuestMemory M} t (k : call (M := M)) c c1 c2 observer mode :
  c1 = fst (run_call t k c) -> changed c c1 -> rtc (step (M := M) t) c1 c2 ->
  pdeath_signal c1 = 0 /\
  (task_ptrace_may_access observer c2 false mode = true -> current_capable (to_ctask observer) CAP_SYS_PTRACE_ = true).
Proof.
  intros -> Hch Hsteps. destruct (effect_changed t c _ (run_call_effect t k c) Hch) as [Hu Hpd]. split; [done |].
  assert (undumpable c2 = true) as Hu2.
  { clear Hpd Hch. induction Hsteps as [| c1 c3 c4 [k' ->] _ IH]; [done |]. apply IH.
    eapply effect_undumpable; [exact Hu | apply run_call_effect]. }
  unfold task_ptrace_may_access. rewrite Hu2. destruct (current_capable _ _); [done |]. by case_match.
Qed.

(** Setreuid makes the drop permanent as setreuid(2) says: when the real id
    is set, or the effective id becomes something other than the old real id,
    the saved id becomes the new effective id; and computing the saved id never
    refuses a call the other two arguments are allowed. *)
Theorem setreuid_saved t r e c kr ke c' res :
  euid c <> NO_ID -> arg_kid t false c r = Some kr -> arg_kid t false c e = Some ke -> sys_setreuid t r e c = (c', res) ->
  (res = 0 <-> current_can_setuids t c = true \/
     (may_take kr (uid c) (euid c) (suid c) = true /\ may_take ke (uid c) (euid c) (suid c) = true)) /\
  (res = 0 -> uid c' = keep kr (uid c) /\ euid c' = keep ke (euid c) /\
     suid c' = if decide (kr <> NO_ID \/ keep ke (euid c) <> uid c) then keep ke (euid c) else suid c) /\
  (res <> 0 -> c' = c /\ res = _EPERM).
Proof.
  intros Hne Er Ee H. unfold sys_setreuid in H. rewrite Er, Ee in H. fold (keep ke (euid c)) in H.
  set (s := if negb (kr =? NO_ID) || negb (keep ke (euid c) =? uid c) then keep ke (euid c) else NO_ID) in *.
  assert (may_take ke (uid c) (euid c) (suid c) = true -> may_take s (uid c) (euid c) (suid c) = true) as Hs.
  { unfold s, may_take, keep. intros Hk. destruct (negb _ || negb _); [| by rewrite Z.eqb_refl].
    destruct (ke =? NO_ID) eqn:E; [rewrite !Z.eqb_refl, !orb_true_r; done |]. by rewrite E. }
  assert (keep s (suid c) = if decide (kr <> NO_ID \/ keep ke (euid c) <> uid c) then keep ke (euid c) else suid c) as Hsaved.
  { assert (keep ke (euid c) <> NO_ID) as Hk by (unfold keep; destruct (Z.eqb_spec ke NO_ID); done).
    unfold s, keep at 1. case_decide as Hd.
    - replace (negb (kr =? NO_ID) || negb (keep ke (euid c) =? uid c)) with true by lia. by apply Z.eqb_neq in Hk as ->.
    - replace (negb (kr =? NO_ID) || negb (keep ke (euid c) =? uid c)) with false by lia. by rewrite Z.eqb_refl. }
  unfold setresuid_kernel in H.
  destruct (current_can_setuids t c) eqn:Ec; cbn [negb andb] in H.
  2: destruct (may_take kr (uid c) (euid c) (suid c)) eqn:E1; cbn [andb negb] in H;
     [| injection H as <- <-; unfold _EPERM; naive_solver].
  2: destruct (may_take ke (uid c) (euid c) (suid c)) eqn:E2; cbn [andb negb] in H;
     [rewrite Hs in H by done; cbn [negb] in H | injection H as <- <-; unfold _EPERM; naive_solver].
  all: injection H as <- <-; (split; [naive_solver |]); (split; [| done]); intros _;
    destruct (commit_fields c (cap_emulate_setxuid t c (set_uids (keep kr (uid c)) (keep ke (euid c)) (keep s (suid c)) (keep ke (fsuid c)) c)))
      as (C1 & C2 & C3 & _);
    destruct (emulate_ids t c (set_uids (keep kr (uid c)) (keep ke (euid c)) (keep s (suid c)) (keep ke (fsuid c)) c))
      as (F1 & F2 & F3 & _); unfold finish_uids; rewrite C1, C2, C3, F1, F2, F3; simpl;
    (split; [done |]); (split; [done | exact Hsaved]).
Qed.

(** A call that fails changes nothing. *)
Theorem failed_call_unchanged `{GuestMemory M} t (k : call (M := M)) c :
  0 <= fsuid c -> 0 <= fsgid c -> snd (run_call t k c) < 0 -> fst (run_call t k c) = c.
Proof.
  intros Hf Hg.
  assert (forall g kid, 0 <= kid -> 0 <= user_ns_from_kid_munged g t (user_ns c) kid) as Hshown.
  { intros g kid Hk. unfold user_ns_from_kid_munged. destruct (_ =? USER_NS_INVALID_ID); [done |].
    unfold user_ns_from_kid. destruct (user_ns c) as [a |]; [| done]. destruct (t !! a) as [n |]; [| done].
    unfold id_map_up. destruct (_ || _); [done |].
    induction (im_extents (ns_map g n)) as [| e l IH]; simpl; [done |]. case_match; [| done].
    apply (wrap_range 32). lia. }
  destruct k; simpl; unfold sys_setuid, sys_setreuid, sys_setresuid, setresuid_kernel, sys_setgid, sys_setregid,
    sys_setresgid, setresgid_kernel, sys_setgroups_guest, sys_capset_guest, sys_setfsuid, sys_setfsgid.
  4, 8: specialize (Hshown false (fsuid c) Hf) as H1; specialize (Hshown true (fsgid c) Hg) as H2;
    repeat case_match; simpl; try done; intros; lia.
  all: repeat case_match; simpl; try done; intros; lia.
Qed.

(** ** Witnesses *)

(** A login daemon: root in the initial namespace, full capabilities. *)
Definition demo_full : caps := mk_caps CAP_FULL_LOW_ CAP_FULL_HIGH_.
Definition demo_root : cred :=
  mk_cred 0 0 0 0 0 0 0 0 [0] demo_full demo_full no_caps no_caps demo_full false None 0 9 false.
Definition demo_user : cred := fst (sys_setuid ∅ 1000 demo_root).
Abbreviation demo_call := (call (M := guest_abi * mem)).

Lemma demo_root_caps : caps_ok demo_root.
Proof. split; split; reflexivity. Qed.

Lemma demo_user_caps : caps_ok demo_user.
Proof. split; split; vm_compute; reflexivity. Qed.

Lemma cred_calls_caps_ok_witness :
  caps_ok (fst (run_call ∅ (Setuid 1000 : demo_call) demo_root)) /\ caps_ok (user_ns_enter (Some 1%nat) demo_root).
Proof. apply (cred_calls_caps_ok ∅ (Setuid 1000 : demo_call) (Some 1%nat) demo_root). exact demo_root_caps. Defined.

Lemma demo_refused : rtc (step (M := guest_abi * mem) ∅) demo_user (fst (run_call ∅ (Setresuid 0 0 0 : demo_call) demo_user)).
Proof. apply rtc_once. by eexists (Setresuid 0 0 0). Qed.


Lemma setuid_drop_permanent_witness :
  let c2 := fst (run_call ∅ (Setresuid 0 0 0 : demo_call) demo_user) in
  uid c2 = euid demo_user /\ euid c2 = euid demo_user /\ suid c2 = euid demo_user /\ fsuid c2 = euid demo_user /\
  cap_permitted c2 = no_caps /\ cap_effective c2 = no_caps.
Proof.
  apply (setuid_drop_permanent (M := guest_abi * mem) ∅ 1000 demo_root demo_user);
    [exact demo_root_caps | left; reflexivity | reflexivity | reflexivity | reflexivity | reflexivity
    | vm_compute; discriminate | exact demo_refused].
Defined.

Lemma changed_creds_closed_witness :
  pdeath_signal demo_user = 0 /\
  (task_ptrace_may_access demo_user demo_user false PTRACE_MODE_ATTACH_ = true ->
   current_capable (to_ctask demo_user) CAP_SYS_PTRACE_ = true).
Proof.
  apply (changed_creds_closed ∅ (Setuid 1000 : demo_call) demo_root demo_user demo_user demo_user PTRACE_MODE_ATTACH_);
    [reflexivity | left; vm_compute; discriminate | apply rtc_refl].
Defined.

Lemma setreuid_saved_witness :
  (0 = 0 <-> current_can_setuids ∅ demo_root = true \/
     (may_take 1000 0 0 0 = true /\ may_take 1000 0 0 0 = true)) /\
  (0 = 0 -> uid (fst (sys_setreuid ∅ 1000 1000 demo_root)) = 1000 /\ euid (fst (sys_setreuid ∅ 1000 1000 demo_root)) = 1000 /\
     suid (fst (sys_setreuid ∅ 1000 1000 demo_root)) = if decide (1000 <> NO_ID \/ 1000 <> 0) then 1000 else 0) /\
  (0 <> 0 -> fst (sys_setreuid ∅ 1000 1000 demo_root) = demo_root /\ 0 = _EPERM).
Proof.
  apply (setreuid_saved ∅ 1000 1000 demo_root 1000 1000 _ 0); [discriminate | reflexivity | reflexivity | reflexivity].
Defined.

Lemma failed_call_unchanged_witness :
  fst (run_call ∅ (Setresuid 0 0 0 : demo_call) demo_user) = demo_user.
Proof. apply (failed_call_unchanged ∅ (Setresuid 0 0 0 : demo_call) demo_user); [vm_compute; discriminate | vm_compute; discriminate | vm_compute; reflexivity]. Defined.
