(* ===== verification/FsAccess.v ===== *)
(** * Permission to use and to change a file (kernel/fs.c)

    access_check decides every use of a file or directory from its owner, group
    and mode, and setattr_check who may change those.  On Creds.v and UserNs.v.
    The theorem is about sequences of changes: without a capability a process
    cannot give a file away, touch one it does not own, or leave a set-group-id
    bit on a group it is not in. *)

From Stdlib Require Import ZifyBool.
From S2P Require Import Prelude User UserNs Creds.

Definition AC_R := 4.
Definition AC_W := 2.
Definition AC_X := 1.
Definition S_ISGID := 1024.
Definition CAP_CHOWN_ := 0.
Definition CAP_DAC_OVERRIDE_ := 1.
Definition CAP_FOWNER_ := 3.
Definition CAP_FSETID_ := 4.

(** What the checks use of [struct statbuf]. *)
Record statbuf := mk_stat { st_mode : Z; st_uid : Z; st_gid : Z }.

Definition S_ISDIR (mode : Z) : bool := mode .& 0xF000 =? 0x4000.

(** [struct attr]: a change of one attribute. *)
Inductive attr := attr_uid (u : Z) | attr_gid (g : Z) | attr_mode (m : Z) | attr_size (s : Z).

Section Access.
Context (t : ns_table).

Definition current_in_group (c : cred) (g : Z) : bool := (fsgid c =? g) || existsb (fun x => x =? g) (groups c).

Definition capable_wrt_inode (c : cred) (st : statbuf) (cap : Z) : bool :=
  match capable_wrt_ids t (to_ctask c) (st_uid st) (st_gid st) cap with Some b => b | None => false end.

Definition access_check (c : cred) (st : statbuf) (check : Z) : Z :=
  let override :=
    match user_ns c with
    | None => fsuid c =? 0
    | Some _ => (fsuid c =? task_root_kuid t c) && capable_wrt_inode c st CAP_DAC_OVERRIDE_
    end in
  if override then
    if has_flag check AC_X && negb (S_ISDIR (st_mode st)) && negb (has_flag (st_mode st) 73) then _EACCES else 0
  else if check =? 0 then 0 else
  let check := if fsuid c =? st_uid st then Z.shiftl check 6
               else if current_in_group c (st_gid st) then Z.shiftl check 3 else check in
  if negb (st_mode st .& check =? check) then _EACCES else 0.

(** The answer, and the change as it will be made. *)
Definition setattr_check (c : cred) (st : statbuf) (a : attr) : Z * attr :=
  match a with
  | attr_mode m =>
      if negb (fsuid c =? st_uid st) && negb (capable_wrt_inode c st CAP_FOWNER_) then (_EPERM, a) else
      if has_flag m S_ISGID && negb (current_in_group c (st_gid st)) && negb (capable_wrt_inode c st CAP_FSETID_)
      then (0, attr_mode (m .& Z.lnot S_ISGID)) else (0, a)
  | attr_uid u =>
      if u =? NO_ID then (0, a) else
      if capable_wrt_inode c st CAP_CHOWN_ then (0, a) else
      if u =? st_uid st then (if fsuid c =? st_uid st then 0 else _EPERM, a) else (_EPERM, a)
  | attr_gid g =>
      if g =? NO_ID then (0, a) else
      if capable_wrt_inode c st CAP_CHOWN_ then (0, a) else
      if negb (fsuid c =? st_uid st) then (_EPERM, a) else
      if (g =? st_gid st) || current_in_group c g then (0, a) else (_EPERM, a)
  | attr_size _ => (access_check c st AC_W, a)
  end.

(** ** Sequences of changes *)

(** What a file system's setattr makes of a change: the attribute named, and
    nothing else of these three. *)
Definition attr_applied (a : attr) (st st' : statbuf) : Prop :=
  match a with
  | attr_uid u => st' = mk_stat (st_mode st) u (st_gid st)
  | attr_gid g => st' = mk_stat (st_mode st) (st_uid st) g
  | attr_mode m => exists kind, kind .& S_ISGID = 0 /\ st' = mk_stat (kind .| m) (st_uid st) (st_gid st)
  | attr_size _ => st' = st
  end.

(** chown's -1 is answered before setattr_check (sys_fchownat_common). *)
Definition names_an_id (a : attr) : Prop := match a with attr_uid x | attr_gid x => x <> NO_ID | _ => True end.

Inductive setattr_step (c : cred) : statbuf -> statbuf -> Prop :=
| Setattr st a a' st' : names_an_id a -> setattr_check c st a = (0, a') -> attr_applied a' st st' -> setattr_step c st st'.

(** No capability over any file. *)
Definition no_file_caps (c : cred) : Prop :=
  forall st cap, cap ∈ [CAP_CHOWN_; CAP_FOWNER_; CAP_FSETID_] -> capable_wrt_inode c st cap = false.

Definition setgid (st : statbuf) : Prop := has_flag (st_mode st) S_ISGID = true.

Lemma setgid_cleared kind m : kind .& S_ISGID = 0 -> has_flag (kind .| m) S_ISGID = has_flag m S_ISGID.
Proof. intros Hk. unfold has_flag. rewrite Z.land_lor_distr_l, Hk, Z.lor_0_l. done. Qed.

Lemma setgid_dropped m : has_flag (m .& Z.lnot S_ISGID) S_ISGID = false.
Proof. unfold has_flag. rewrite <- Z.land_assoc. change (Z.lnot S_ISGID .& S_ISGID) with 0. by rewrite Z.land_0_r. Qed.

(** What one change keeps of where the file started, [st0]. *)
Definition confined (c : cred) (st0 st : statbuf) : Prop :=
  st_uid st = st_uid st0 /\ (fsuid c <> st_uid st0 -> st_mode st = st_mode st0 /\ st_gid st = st_gid st0) /\
  (st_gid st = st_gid st0 \/ current_in_group c (st_gid st) = true) /\
  (setgid st -> current_in_group c (st_gid st) = true \/ (setgid st0 /\ st_gid st = st_gid st0)).

Lemma setattr_step_confined c st0 st st' : no_file_caps c -> confined c st0 st -> setattr_step c st st' -> confined c st0 st'.
Proof.
  intros Hc (Hu & Hn & Hg & Hs) Hst. destruct Hst as [st a a' st' Hid Hck Hap].
  pose proof (Hc st CAP_CHOWN_ ltac:(set_solver)) as C1. pose proof (Hc st CAP_FOWNER_ ltac:(set_solver)) as C2.
  pose proof (Hc st CAP_FSETID_ ltac:(set_solver)) as C3. unfold setattr_check in Hck. destruct a as [u | g | m | s]; simpl in Hid.
  - destruct (Z.eqb_spec u NO_ID); [done |]. rewrite C1 in Hck. destruct (Z.eqb_spec u (st_uid st)) as [-> |]; [| done].
    destruct (Z.eqb_spec (fsuid c) (st_uid st)); [| done]. simplify_eq. simpl in Hap. subst st'. done.
  - destruct (Z.eqb_spec g NO_ID); [done |]. rewrite C1 in Hck. destruct (Z.eqb_spec (fsuid c) (st_uid st)) as [Eo |]; [| done].
    cbn [negb] in Hck. destruct (Z.eqb_spec g (st_gid st)) as [-> | Hne]; simpl in Hck.
    + simplify_eq. simpl in Hap. subst st'. done.
    + destruct (current_in_group c g) eqn:Eg; [| done]. simplify_eq. simpl in Hap. subst st'. split; [done |].
      split; [intros Hno; simpl in *; congruence |]. split; [by right | by left].
  - destruct (Z.eqb_spec (fsuid c) (st_uid st)) as [Eo |]; [| rewrite C2 in Hck; done]. cbn [negb andb] in Hck. rewrite C3 in Hck.
    destruct (has_flag m S_ISGID) eqn:Em; [destruct (current_in_group c (st_gid st)) eqn:Eg |]; cbn [negb andb] in Hck; simplify_eq;
      destruct Hap as (kind & Hk & ->); (split; [exact Hu |]); (split; [intros Hno; simpl in *; congruence |]); (split; [simpl; rewrite ?Eg; exact Hg |]);
      unfold setgid; simpl; rewrite setgid_cleared by done; rewrite ?setgid_dropped, ?Em; by auto.
  - simplify_eq. simpl in Hap. by subst st'.
Qed.

(** C38: without capabilities, no sequence of chmod, chown and chgrp that the
    kernel allows gives a file away, changes a file of another user, moves it to
    a group the process is not in, or makes it set-group-id to such a group. *)
Theorem setattr_confined c st st' :
  no_file_caps c -> rtc (setattr_step c) st st' -> confined c st st'.
Proof.
  intros Hc Hrun. assert (confined c st st) as H0 by (unfold confined; naive_solver).
  revert H0. generalize st at 1 3 as st0. intros st0. induction Hrun as [| st1 st2 st3 Hst _ IH]; intros Hi; [done |].
  apply IH. by eapply setattr_step_confined.
Qed.

End Access.

(** ** Witness *)

Definition plain_cred : cred :=
  mk_cred 1000 1000 1000 1000 100 100 100 100 [101] no_caps no_caps no_caps no_caps no_caps false None 0 0 false.

Lemma plain_no_file_caps : no_file_caps ∅ plain_cred.
Proof. intros st cap Hcap. by repeat (apply elem_of_cons in Hcap as [-> | Hcap]; [reflexivity |]); apply not_elem_of_nil in Hcap. Qed.

(** Its own file in a group of its own, made set-group-id: the bit goes. *)
Lemma setattr_confined_witness :
  confined plain_cred (mk_stat 33188 1000 42) (mk_stat 33261 1000 42).
Proof.
  apply (setattr_confined ∅ plain_cred); [exact plain_no_file_caps |]. apply rtc_once.
  apply (Setattr ∅ plain_cred _ (attr_mode 1517) (attr_mode 493)); [exact I | vm_compute; reflexivity |].
  exists 32768. split; [reflexivity | vm_compute; reflexivity].
Defined.
