(* ===== verification/Path.v ===== *)
(** * Path resolution (fs/path.c, and what it uses of fs/mount.c, fs/generic.c and kernel/fs.h)

    [path_normalize_at] is __path_normalize: it walks a path from a directory,
    writing the result into a buffer of MAX_PATH bytes, follows symbolic links
    by walking again, and answers the error a component calls for.
    [path_normalize] is the function the system calls use, which chooses where
    to start.  A string is the list of its bytes before the terminating zero.
    File systems are arguments: what readlink and stat answer for a path.
    PathSound.v has the theorems. *)

From Stdlib Require Import ZifyBool Ascii String.
From S2P Require Import Prelude User UserNs Creds FsAccess.

Definition MAX_PATH := 4096.
Definition MAX_NAME := 256.
Definition MAX_SYMLINKS := 40.
Definition SLASH := 47.
Definition DOT := 46.

Definition N_SYMLINK_FOLLOW := 1.
Definition N_SYMLINK_NOFOLLOW := 2.
Definition N_PARENT_DIR_WRITE := 4.
Definition N_REALROOT := 8.
Definition N_CREATE_EEXIST_FIRST := 16.
Definition N_NO_SYMLINKS := 32.
Definition N_REMOVE_ENOENT_FIRST := 64.
Definition N_SLASH_NOT_A_DIR := 128.
Definition N_SLASH_EISDIR := 256.
Definition N_PARENT_ONLY := 512.
Definition N_SLASH_UNLINK := 1024.
Definition N_DETACHED_OK := 2048.
Definition N_IN_ROOT := 4096.
Definition N_NO_MAGICLINKS := 8192.
Definition N_BENEATH := 16384.
Definition N_NO_XDEV := 32768.

(** The bytes of a literal. *)
Definition bytes (s : string) : list Z := map (fun c => Z.of_nat (nat_of_ascii c)) (list_ascii_of_string s).

Definition len (s : list Z) : Z := Z.of_nat (List.length s).
Definition str_eqb (a b : list Z) : bool := bool_decide (a = b).
(** [strncmp(s, pre, strlen(pre)) == 0] *)
Definition starts_with (pre s : list Z) : bool := str_eqb (take (List.length pre) s) pre.
(** A C string in a buffer ends at its first zero. *)
Fixpoint cstr (s : list Z) : list Z := match s with [] => [] | c :: s => if c =? 0 then [] else c :: cstr s end.
Fixpoint skip_slashes (p : list Z) : list Z := match p with c :: p' => if c =? SLASH then skip_slashes p' else p | [] => [] end.

(** ** Small functions on paths *)

(** The first component of a path, and what follows it. *)
Fixpoint name_of (p : list Z) : list Z := match p with [] => [] | c :: p => if c =? SLASH then [] else c :: name_of p end.
Fixpoint after_name (p : list Z) : list Z := match p with [] => [] | c :: p' => if c =? SLASH then p else after_name p' end.

(** Its loop, with a bound on its turns. *)
Fixpoint path_is_normalized_loop (fuel : nat) (path : list Z) : bool :=
  match fuel, path with
  | _, [] => true
  | O, _ => false
  | S fuel, c :: path =>
      if negb (c =? SLASH) then false else
      if match path with c :: _ => c =? SLASH | [] => false end then false else
      path_is_normalized_loop fuel (after_name path)
  end.
Definition path_is_normalized (path : list Z) : bool := path_is_normalized_loop (List.length path) path.

(** The component copied and the rest; an error; or the end of the path. *)
Inductive next_component := Component (c rest : list Z) | NameTooLong | EndOfPath | NotAtSlash.
Definition path_next_component (path : list Z) : next_component :=
  match path with
  | [] => EndOfPath
  | c :: p =>
      if negb (c =? SLASH) then NotAtSlash else
      if len (name_of p) >=? MAX_NAME then NameTooLong else Component (name_of p) (after_name p)
  end.

Definition path_final_dot (path : list Z) : Z :=
  let stripped := reverse (skip_slashes (reverse path)) in
  let body := match path, stripped with _ :: _, [] => take 1 path | _, _ => stripped end in
  let last := reverse (name_of (reverse body)) in
  if str_eqb last [DOT] then 1 else if str_eqb last [DOT; DOT] then 2 else 0.

Definition path_trailing_slash (path : list Z) : bool := match last path with Some c => c =? SLASH | None => false end.

(** ** Mounts *)

Definition MOUNT_STAGING_DIR : list Z := Eval vm_compute in bytes "/.ish-fsmount".

(** The length of the staging point [path] starts with, or 0. *)
Definition mount_staging_point_len (path : list Z) : Z :=
  let dir_len := len MOUNT_STAGING_DIR in
  if (len path <=? dir_len + 1) || negb (starts_with (MOUNT_STAGING_DIR ++ [SLASH]) path) then 0 else
  let name := name_of (drop (Z.to_nat (dir_len + 1)) path) in
  if 0 <? len name then dir_len + 1 + len name else 0.

(** A mounted file system: whether it is procfs, and its operations.  readlink
    is given the room in the buffer and answers an error or the bytes it wrote. *)
Record filesystem := mk_fs {
  fs_is_procfs : bool;
  fs_readlink : option (list Z -> Z -> Z + list Z);
  fs_stat : list Z -> Z + statbuf }.

(** [mt_bind]: for a bind, the origin's file system and [bind_prefix]. *)
Record mount := mk_mount { mt_point : list Z; mt_id : Z; mt_fs : filesystem; mt_bind : option (filesystem * list Z) }.

Definition on_mount (path : list Z) (m : mount) : bool :=
  starts_with (mt_point m) path && match drop (List.length (mt_point m)) path with c :: _ => c =? SLASH | [] => true end.

Definition mount_find (mounts : list mount) (path : list Z) : option mount := List.find (on_mount path) mounts.

Definition mount_list_insert (mounts : list mount) (m : mount) : list mount :=
  let longer := fun x => negb (len (mt_point x) <=? len (mt_point m)) in
  let fix go l := match l with [] => [m] | x :: l' => if longer x then x :: go l' else m :: l end in go mounts.

Definition find_mount_and_trim_path (mounts : list mount) (path : list Z) : option (filesystem * list Z) :=
  match mount_find mounts path with
  | None => None
  | Some m =>
      let path := drop (List.length (mt_point m)) path in
      match mt_bind m with
      | None => Some (mt_fs m, path)
      | Some (origin, prefix) => if len (prefix ++ path) >=? MAX_PATH then None else Some (origin, prefix ++ path)
      end
  end.

Definition MOUNT_ID_HIDDEN := 1.
Definition mount_id (m : mount) : Z := if mt_id m >? 0 then mt_id m else MOUNT_ID_HIDDEN.

Definition path_prefix_mount_id (mounts : list mount) (path : list Z) : Z :=
  if len path >=? MAX_PATH then -1 else
  match mount_find mounts path with None => -1 | Some m => mount_id m end.

(** ** __path_normalize *)

(** How a walk ends: with the path in the buffer, with an error, or in one of
    the states the source leaves undefined: an access outside a buffer, or an
    assertion that does not hold. *)
Inductive walk := Path (out : list Z) | Err (e : Z) | Fault | OutOfFuel.

(** The loop's variables: what is left of [path], the byte before it ([None]
    before the first), [out] up to [o], and [n]. *)
Record wstate := mk_ws { w_p : list Z; w_prev : option Z; w_out : list Z; w_n : Z }.

(** One turn: another one, the end, or __path_normalize again for a link. *)
Inductive turn := Next (s : wstate) | Stop (r : walk) | Follow (at_path : option (list Z)) (path : list Z) (flags : Z).

(** p after "while (*p == '/') p++", and the byte before it. *)
Definition skip (p : list Z) (prev : option Z) : list Z * option Z :=
  (skip_slashes p, match p with c :: _ => if c =? SLASH then Some SLASH else prev | [] => prev end).

(** "while (*p != '/' && *p != '\0' && --n > 0) *o++ = *p++". *)
Fixpoint copy_name (p : list Z) (prev : option Z) (out : list Z) (n : Z) : wstate :=
  match p with
  | [] => mk_ws [] prev out n
  | c :: p' =>
      if c =? SLASH then mk_ws p prev out n else
      if n - 1 >? 0 then copy_name p' (Some c) (out ++ [c]) (n - 1) else mk_ws p prev out (n - 1)
  end.

(** "do { o--; n++; } while (*o != '/')": [None] below the buffer. *)
Definition pop_name (out : list Z) : option (list Z) :=
  match after_name (reverse out) with [] => None | _ :: rest => Some (reverse rest) end.

Definition is_slash (c : option Z) : bool := match c with Some c => c =? SLASH | None => false end.
Definition ends_name (p : list Z) : bool := match p with [] => true | c :: _ => c =? SLASH end.

Definition UNREACHABLE : list Z := Eval vm_compute in bytes "(unreachable)".

Section Walk.
Context (t : ns_table) (c : cred) (mounts : list mount).

Section Walking.
Context (root_path : option (list Z)).

(** The process's root, when it is not the real one. *)
Definition root : list Z := match root_path with Some r => if str_eqb r [SLASH] then [] else r | None => [] end.

(** `..` *)
Definition walk_dotdot (flags : Z) (s : wstate) (rest : list Z) : turn :=
  let out := w_out s in
  let at_root := (negb (len root =? 0) && (len out =? len root) && str_eqb out root) in
  let staging := mount_staging_point_len out in
  let at_root := at_root || (negb (staging =? 0) && (staging =? len out)) in
  let '(p, prev) := skip rest (Some DOT) in
  if has_flag flags N_BENEATH && (at_root || (len out =? 0)) then Stop (Err _EXDEV) else
  if negb (len out =? 0) && negb at_root then
    match pop_name out with
    | None => Stop Fault
    | Some out' =>
        if has_flag flags N_NO_XDEV && negb (path_is_normalized out && path_is_normalized out') then Stop Fault else
        if has_flag flags N_NO_XDEV && negb (path_prefix_mount_id mounts out' =? path_prefix_mount_id mounts out) then Stop (Err _EXDEV) else
        Next (mk_ws p prev out' (w_n s + (len out - len out')))
    end
  else Next (mk_ws p prev out (w_n s)).

(** A component read as the link [text]; [parent] is [out] before it. *)
Definition walk_link (flags levels : Z) (s : wstate) (parent : list Z) (magic : bool) (trimmed text : list Z) : turn :=
  let room := MAX_PATH - (len parent + 1) in
  if has_flag flags N_NO_SYMLINKS then Stop (Err _ELOOP) else
  let jumps := magic && match trimmed with a :: d :: _ => (a =? SLASH) && (48 <=? d) && (d <=? 57) | _ => false end in
  if jumps && has_flag flags N_NO_MAGICLINKS then Stop (Err _ELOOP) else
  if jumps && has_flag flags (N_IN_ROOT .| N_BENEATH .| N_NO_XDEV) then Stop (Err _EXDEV) else
  if levels >=? MAX_SYMLINKS then Stop (Err _ELOOP) else
  if len text >=? room then Stop Fault else
  let text := cstr text in
  let jump_real_root := magic && starts_with UNREACHABLE text && is_slash (text !! List.length UNREACHABLE) in
  let text := if jump_real_root then drop (List.length UNREACHABLE) text else text in
  let absolute := is_slash (head text) in
  if absolute && negb jump_real_root && has_flag flags N_BENEATH then Stop (Err _EXDEV) else
  if absolute && negb jump_real_root && has_flag flags N_NO_XDEV && negb (path_is_normalized parent && path_is_normalized root) then Stop Fault else
  if absolute && negb jump_real_root && has_flag flags N_NO_XDEV &&
     negb (path_prefix_mount_id mounts parent =? path_prefix_mount_id mounts root) then Stop (Err _EXDEV) else
  let out := if absolute then text else parent ++ SLASH :: text in
  let expanded :=
    match w_p s with
    | _ :: _ => if len out + 1 + len (w_p s) >=? MAX_PATH then None else Some (out ++ SLASH :: w_p s)
    | [] => if is_slash (w_prev s) then if len out + 1 >=? MAX_PATH then None else Some (out ++ [SLASH]) else Some out
    end in
  match expanded with
  | None => Stop (Err _ENAMETOOLONG)
  | Some expanded =>
      let in_staging := negb (mount_staging_point_len parent =? 0) in
      let next_flags := (flags .& Z.lnot N_DETACHED_OK) .| (if magic || (negb absolute && in_staging) then N_DETACHED_OK else 0) in
      if has_flag flags N_NO_XDEV && negb absolute then
        Follow (Some parent) (drop (List.length parent + 1) expanded) next_flags
      else Follow (if absolute && negb jump_real_root then root_path else None) expanded next_flags
  end.

(** The lookup of the component [s] has just copied. *)
Definition walk_lookup (flags levels : Z) (s : wstate) (parent : list Z) : turn :=
  let out := w_out s in
  if len out >=? MAX_PATH then Stop Fault else
  if negb (path_is_normalized out) then Stop Fault else
  match find_mount_and_trim_path mounts out with
  | None => Stop (Err _ENOENT)
  | Some (fs, trimmed) =>
      if negb (path_is_normalized trimmed) then Stop Fault else
      let res := match fs_readlink fs with Some f => f trimmed (MAX_PATH - (len parent + 1)) | None => inl _EINVAL end in
      match res with
      | inr text => walk_link flags levels s parent (fs_is_procfs fs) trimmed text
      | inl _ =>
          match w_prev s with
          | None => Stop Fault
          | Some prev =>
              if negb (prev =? SLASH) then Next s else
              match fs_stat fs trimmed with
              | inr st =>
                  if negb (S_ISDIR (st_mode st)) then Stop (Err _ENOTDIR) else
                  match w_p s with
                  | [] => Next s
                  | _ :: _ => if access_check t c st AC_X <? 0 then Stop (Err (access_check t c st AC_X)) else Next s
                  end
              | inl err => match w_p s with [] => Next s | _ :: _ => Stop (Err err) end
              end
          end
      end
  end.

(** A component that is neither `.` nor `..`. *)
Definition walk_name (flags levels : Z) (s : wstate) : turn :=
  let parent := w_out s in
  let s1 := copy_name (w_p s) (w_prev s) (parent ++ [SLASH]) (w_n s - 1) in
  let '(p, prev) := skip (w_p s1) (w_prev s1) in
  let s2 := mk_ws p prev (w_out s1) (w_n s1) in
  let out := w_out s2 in
  let nonempty := match p with [] => false | _ => true end in
  if len out >? MAX_PATH then Stop Fault else
  if w_n s2 =? 0 then Stop (Err _ENAMETOOLONG) else
  let on_dir := (len parent =? 0) && str_eqb out MOUNT_STAGING_DIR in
  let in_dir := (len parent =? len MOUNT_STAGING_DIR) && starts_with (MOUNT_STAGING_DIR ++ [SLASH]) out in
  if on_dir && has_flag flags N_DETACHED_OK && nonempty then Next s2 else
  if negb on_dir && in_dir && negb (has_flag flags N_DETACHED_OK) then Stop (Err _ENOENT) else
  if has_flag flags N_NO_XDEV && negb ((path_is_normalized out || (len out >=? MAX_PATH)) && path_is_normalized parent) then Stop Fault else
  if has_flag flags N_NO_XDEV && negb (path_prefix_mount_id mounts out =? path_prefix_mount_id mounts parent) then Stop (Err _EXDEV) else
  if negb nonempty && is_slash prev && has_flag flags N_SLASH_EISDIR then Stop (Err _EISDIR) else
  if has_flag flags N_SYMLINK_FOLLOW || nonempty || (is_slash prev && negb (has_flag flags N_PARENT_ONLY))
  then walk_lookup flags levels s2 parent
  else Next s2.

(** One turn of the loop, [w_p s] not empty. *)
Definition walk_turn (flags levels : Z) (s : wstate) : turn :=
  match w_p s with
  | a :: rest =>
      if (a =? DOT) && ends_name rest then let '(p, prev) := skip rest (Some DOT) in Next (mk_ws p prev (w_out s) (w_n s)) else
      match rest with
      | b :: rest' => if (a =? DOT) && (b =? DOT) && ends_name rest' then walk_dotdot flags s rest' else walk_name flags levels s
      | [] => walk_name flags levels s
      end
  | [] => walk_name flags levels s
  end.

Fixpoint walk_loop (fuel : nat) (flags levels : Z) (s : wstate) : turn :=
  match w_p s with
  | [] => Stop (if (len (w_out s) >=? MAX_PATH) || negb (path_is_normalized (w_out s)) then Fault else Path (w_out s))
  | _ :: _ =>
      match fuel with
      | O => Stop OutOfFuel
      | S fuel => match walk_turn flags levels s with Next s => walk_loop fuel flags levels s | r => r end
      end
  end.

(** The start of the walk. *)
Definition walk_start (at_path : option (list Z)) (path : list Z) : wstate :=
  let out := match at_path with Some a => if str_eqb a [SLASH] then [] else a | None => [] end in
  let '(p, prev) := skip path None in mk_ws p prev out (MAX_PATH - 1 - len out).

Definition flags_ok (flags : Z) : bool :=
  (if has_flag flags N_SYMLINK_FOLLOW then negb (has_flag flags N_SYMLINK_NOFOLLOW) else has_flag flags N_SYMLINK_NOFOLLOW) &&
  negb (has_flag flags N_PARENT_ONLY && has_flag flags N_SYMLINK_FOLLOW).

(** __path_normalize at [levels = MAX_SYMLINKS - links]. *)
Fixpoint path_normalize_at (links : nat) (at_path : option (list Z)) (path : list Z) (flags : Z) : walk :=
  if negb (flags_ok flags) then Fault else
  match path with
  | [] => Err _ENOENT
  | _ :: _ =>
      let s := walk_start at_path path in
      if len (w_out s) >=? MAX_PATH then Fault else
      match walk_loop (List.length (w_p s) + 3) flags (MAX_SYMLINKS - Z.of_nat links) s with
      | Stop r => r
      | Next _ => OutOfFuel
      | Follow at_path path flags => match links with S links => path_normalize_at links at_path path flags | O => OutOfFuel end
      end
  end.

End Walking.

(** ** path_normalize *)

(** What path_normalize uses of a [struct fd]: what generic_getpath and fstat
    answer for it. *)
Record dirfd := mk_dirfd { fd_path : Z + list Z; fd_stat : option statbuf }.

(** The [at] argument, and the process's root and working directory. *)
Inductive at_arg := AtNull | AtPwd | AtFd (d : dirfd).
Record fs_info := mk_fs_info { fi_root : option dirfd; fi_pwd : option dirfd }.

Definition path_target_lstat (normalized : list Z) : option statbuf :=
  match find_mount_and_trim_path mounts normalized with
  | None => None
  | Some (fs, path) => match fs_stat fs path with inr st => Some st | inl _ => None end
  end.
Definition path_target_exists (normalized : list Z) : bool := bool_decide (is_Some (path_target_lstat normalized)).

(** The directory a walk starts from: its path, or why it may not be used. *)
Definition start_dir (d : dirfd) (check_dir descends : bool) : Z + list Z :=
  match fd_path d with
  | inl err => inl err
  | inr at_path =>
      if negb (path_is_normalized at_path) then inl _ENOTDIR else
      match (if check_dir then fd_stat d else None) with
      | None => inr at_path
      | Some st =>
          if negb (S_ISDIR (st_mode st)) then inl _ENOTDIR else
          let perm_err := if descends then access_check t c st AC_X else 0 in
          if perm_err <? 0 then inl perm_err else inr at_path
      end
  end.

(** The parent of a normalized path that is not empty. *)
Definition parent_of (out : list Z) : list Z := match pop_name out with Some parent => parent | None => [] end.

(** What is decided once the walk has arrived at [out]. *)
Definition path_arrived (path out : list Z) (flags : Z) : walk :=
  if has_flag flags N_SLASH_NOT_A_DIR && path_trailing_slash path && negb (path_target_exists out) then Err _ENOENT else
  if has_flag flags N_SLASH_UNLINK && path_trailing_slash path then
    match path_target_lstat out with
    | None => Err _ENOENT
    | Some st => Err (if S_ISDIR (st_mode st) then _EISDIR else _ENOTDIR)
    end
  else if has_flag flags N_PARENT_DIR_WRITE then
    if negb (len out =? 0) && (mount_staging_point_len out =? len out) then Path out else
    if len out =? 0 then Path out else
    match find_mount_and_trim_path mounts (parent_of out) with
    | None => Err _ENOENT
    | Some (fs, parent) =>
        match fs_stat fs parent with
        | inl err => Err err
        | inr st =>
            let access_err := access_check t c st (AC_W .| AC_X) in
            if access_err <? 0 then
              if has_flag flags N_CREATE_EEXIST_FIRST && path_target_exists out then Path out else
              if has_flag flags N_REMOVE_ENOENT_FIRST && negb (path_target_exists out) then Err _ENOENT else
              Err access_err
            else Path out
        end
    end
  else Path out.

Definition path_normalize (fi : fs_info) (at_ : at_arg) (path : list Z) (flags : Z) : walk :=
  match at_, path with
  | AtNull, _ => Err _EBADF
  | _, [] => Err _ENOENT
  | _, first :: _ =>
      let root := if has_flag flags N_REALROOT then None else fi_root fi in
      let absolute := first =? SLASH in
      if has_flag flags N_BENEATH && absolute then Err _EXDEV else
      let in_root := has_flag flags (N_IN_ROOT .| N_BENEATH) in
      let dir := match at_ with AtFd d => Some d | _ => fi_pwd fi end in
      let at_dir := if in_root then dir else if absolute then root else dir in
      let root := if in_root then dir else root in
      let descends := match skip_slashes path with [] => false | _ => true end in
      match (match at_dir with None => inr None
             | Some d => match start_dir d (negb absolute || in_root) descends with inl e => inl e | inr p => inr (Some p) end end) with
      | inl err => Err err
      | inr at_path =>
          match (match root with None => inr None | Some d => match fd_path d with inl e => inl e | inr p => inr (Some p) end end) with
          | inl err => Err err
          | inr root_path =>
              if match root_path with Some r => negb (path_is_normalized r) | None => false end then Fault else
              match path_normalize_at root_path (Z.to_nat MAX_SYMLINKS) at_path path flags with
              | Path out => path_arrived path out flags
              | r => r
              end
          end
      end
  end.

Definition path_parent_walk (fi : fs_info) (at_ : at_arg) (path_raw : list Z) : walk :=
  path_normalize fi at_ path_raw (N_SYMLINK_NOFOLLOW .| N_PARENT_ONLY).

(** The kind of thing the final component names, or an error. *)
Definition path_lookup_final (fi : fs_info) (at_ : at_arg) (path_raw : list Z) : walk + statbuf :=
  match path_normalize fi at_ path_raw (N_SYMLINK_NOFOLLOW .| N_PARENT_ONLY) with
  | Path path => match path_target_lstat path with None => inl (Err _ENOENT) | Some st => inr st end
  | r => inl r
  end.

End Walk.
