(* ===== verification/PathSound.v ===== *)
(** * What path resolution guarantees (fs/path.c)

    A walk is described by the components it stands on and the text it has left
    ([moved]), and a link it follows by where the next walk starts ([follows]);
    the theorems about __path_normalize and path_normalize are inductions over
    these ([normalize_ind]): results are normalized and bounded, a walk ends, it
    never leaves the root, and it only passes directories the caller may search.
    PathLexical.v has the walks without links, PathCorrect.v the theorems about
    path_normalize. *)

From Stdlib Require Import ZifyBool.
From S2P Require Import Prelude User UserNs Creds FsAccess Path.

(** ** Names and rendered paths *)

(** What a directory entry is called, other than itself and its parent. *)
Record name_ok (x : list Z) : Prop := mk_name_ok {
  no_nonempty : x <> []; no_slash : SLASH ∉ x; no_dot : x <> [DOT]; no_dotdot : x <> [DOT; DOT] }.

Definition render (cs : list (list Z)) : list Z := flat_map (fun x => SLASH :: x) cs.

Lemma render_app a b : render (a ++ b) = render a ++ render b.
Proof. apply flat_map_app. Qed.
Lemma render_one x : render [x] = SLASH :: x.
Proof. simpl. by rewrite app_nil_r. Qed.

Lemma name_of_no_slash x : SLASH ∉ name_of x.
Proof.
  induction x as [| a x IH]; simpl; [apply not_elem_of_nil |]. destruct (Z.eqb_spec a SLASH); [apply not_elem_of_nil |].
  apply not_elem_of_cons. done.
Qed.

Lemma name_after p : p = name_of p ++ after_name p.
Proof. induction p as [| a p IH]; simpl; [done |]. destruct (Z.eqb_spec a SLASH); simpl; by f_equal. Qed.

Lemma after_name_head p : after_name p = [] \/ exists q, after_name p = SLASH :: q.
Proof. induction p as [| a p IH]; simpl; [by left |]. destruct (Z.eqb_spec a SLASH) as [-> |]; [right; by eexists | done]. Qed.

Lemma name_of_app x q : SLASH ∉ x -> name_of (x ++ q) = x ++ name_of q /\ after_name (x ++ q) = after_name q.
Proof.
  induction x as [| a x IH]; intros Hx; simpl; [done |]. apply not_elem_of_cons in Hx as [Ha Hx].
  destruct (Z.eqb_spec a SLASH); [congruence |]. destruct (IH Hx) as [-> ->]. done.
Qed.

Lemma name_of_slash x q : SLASH ∉ x -> (q = [] \/ exists q', q = SLASH :: q') -> name_of (x ++ q) = x /\ after_name (x ++ q) = q.
Proof.
  intros Hx Hq. destruct (name_of_app x q Hx) as [-> ->]. destruct Hq as [-> | [q' ->]]; simpl; by rewrite ?app_nil_r.
Qed.

Definition no_lead (p : list Z) : Prop := match p with a :: _ => a <> SLASH | [] => True end.

Lemma skip_no_lead p : no_lead (skip_slashes p).
Proof. induction p as [| a p IH]; simpl; [done |]. destruct (Z.eqb_spec a SLASH); done. Qed.
Lemma skip_slashes_length p : (List.length (skip_slashes p) <= List.length p)%nat.
Proof. induction p as [| a p IH]; simpl; [done |]. destruct (Z.eqb_spec a SLASH); simpl; lia. Qed.
Lemma skip_slashes_id p : no_lead p -> skip_slashes p = p.
Proof. destruct p as [| a p]; simpl; [done |]. intros Ha. by destruct (Z.eqb_spec a SLASH). Qed.

(** What is left after the first name and the slashes behind it. *)
Definition rest (p : list Z) : list Z := skip_slashes (after_name p).

Lemma rest_shorter p : p <> [] -> no_lead p -> (List.length (rest p) < List.length p)%nat /\ name_of p <> [].
Proof.
  intros Hp Hl. assert (name_of p <> []) as Hn by (destruct p as [| a p]; [done |]; simpl in *; by destruct (Z.eqb_spec a SLASH)).
  split; [| done]. pose proof (skip_slashes_length (after_name p)). pose proof (f_equal List.length (name_after p)) as E. rewrite length_app in E.
  destruct (name_of p); [done |]. simpl in E. unfold rest. lia.
Qed.

(** ** Normalized paths *)

Lemma normalized_render_loop fuel cs :
  (List.length (render cs) <= fuel)%nat -> Forall (fun x => x <> [] /\ SLASH ∉ x) cs -> path_is_normalized_loop fuel (render cs) = true.
Proof.
  intros Hf Hcs. revert fuel Hf. induction Hcs as [| x cs [Hx Hs] Hcs IH]; intros fuel Hf; [by destruct fuel |].
  simpl in Hf. destruct fuel as [| fuel]; [lia |]. cbn [render flat_map app path_is_normalized_loop]. fold (render cs). rewrite Z.eqb_refl. cbn [negb].
  destruct x as [| a x]; [done |]. simpl app at 1. apply not_elem_of_cons in Hs as [Ha Hs]. destruct (Z.eqb_spec a SLASH); [congruence |].
  assert (after_name ((a :: x) ++ render cs) = render cs) as E.
  { apply name_of_slash; [by apply not_elem_of_cons |]. destruct cs; [by left | right; by eexists]. }
  rewrite E. apply IH. rewrite length_app in Hf. simpl in Hf. lia.
Qed.

Lemma normalized_render cs : Forall name_ok cs -> path_is_normalized (render cs) = true.
Proof. intros Hcs. apply normalized_render_loop; [done |]. eapply Forall_impl; [exact Hcs |]. by intros x [? ? _ _]. Qed.

Lemma pop_render cs x : SLASH ∉ x -> pop_name (render (cs ++ [x])) = Some (render cs).
Proof.
  intros Hx. unfold pop_name. rewrite render_app, render_one, reverse_app, reverse_cons, <- app_assoc.
  assert (SLASH ∉ reverse x) as Hr by (by rewrite elem_of_reverse).
  destruct (name_of_app (reverse x) ([SLASH] ++ reverse (render cs)) Hr) as [_ ->]. simpl. by rewrite reverse_involutive.
Qed.

Lemma len_app a b : len (a ++ b) = len a + len b.
Proof. unfold len. rewrite length_app. lia. Qed.
Lemma len_nonneg a : 0 <= len a.
Proof. unfold len. lia. Qed.
Lemma len_cons x a : len (x :: a) = 1 + len a.
Proof. unfold len. simpl. lia. Qed.
Lemma len_zero a : (len a =? 0) = bool_decide (a = []).
Proof. unfold len. destruct a; simpl; [done |]. lia. Qed.

(** ** Copying a name *)

Lemma copy_whole p prev out n :
  len (name_of p) < n -> exists prev',
    copy_name p prev out n = mk_ws (after_name p) prev' (out ++ name_of p) (n - len (name_of p)) /\ (name_of p = [] -> prev' = prev) /\
    (name_of p <> [] -> exists a, prev' = Some a /\ a <> SLASH).
Proof.
  revert prev out n. induction p as [| a p IH]; intros prev out n Hn; simpl in *.
  - exists prev. rewrite app_nil_r, Z.sub_0_r. done.
  - destruct (Z.eqb_spec a SLASH) as [-> | Ha]; [exists prev; rewrite app_nil_r, Z.sub_0_r; done |]. rewrite len_cons in *.
    pose proof (len_nonneg (name_of p)). destruct (Z.gtb_spec (n - 1) 0); [| lia].
    destruct (IH (Some a) (out ++ [a]) (n - 1) ltac:(lia)) as (prev' & -> & H1 & H2). exists prev'.
    split; [rewrite <- app_assoc; simpl; f_equal; lia |]. split; [done |]. intros _.
    destruct (decide (name_of p = [])) as [E | E]; [exists a; split; [by apply H1 | done] | by apply H2].
Qed.

Lemma copy_part p prev out n :
  1 <= n <= len (name_of p) -> w_n (copy_name p prev out n) = 0 /\ len (w_out (copy_name p prev out n)) = len out + n - 1.
Proof.
  revert prev out n. induction p as [| a p IH]; intros prev out n Hn; simpl in *; [unfold len in Hn; simpl in Hn; lia |].
  destruct (Z.eqb_spec a SLASH) as [-> | Ha]; [unfold len in Hn; simpl in Hn; lia |]. rewrite len_cons in Hn.
  destruct (Z.gtb_spec (n - 1) 0); simpl; [| lia]. destruct (IH (Some a) (out ++ [a]) (n - 1) ltac:(lia)) as [-> ->].
  rewrite len_app. unfold len at 2. simpl. lia.
Qed.

Lemma copy_none p prev out n : n <= 0 -> name_of p <> [] -> copy_name p prev out n = mk_ws p prev out (n - 1).
Proof.
  intros Hn Hp. destruct p as [| a p]; [done |]. simpl in *. destruct (Z.eqb_spec a SLASH); [done |]. destruct (Z.gtb_spec (n - 1) 0); [lia | done].
Qed.

Lemma skip_after p prev :
  skip (after_name p) prev = (rest p, match after_name p with [] => prev | _ => Some SLASH end).
Proof. unfold skip, rest. destruct (after_name_head p) as [-> | [q ->]]; done. Qed.

(** ** The moves of a walk *)

Lemma ends_name_spec q : ends_name q = true -> name_of q = [] /\ after_name q = q.
Proof. destruct q as [| a q]; simpl; [done |]. by intros ->. Qed.
Lemma ends_name_false q : ends_name q = false -> name_of q <> [].
Proof. destruct q as [| a q]; simpl; [done |]. by intros ->. Qed.

Definition jump_text (text : list Z) : bool := starts_with UNREACHABLE (cstr text) && is_slash (cstr text !! List.length UNREACHABLE).

Section Moves.
Context (t : ns_table) (c : cred) (mounts : list mount) (root_path : option (list Z)).

(** A directory the caller may search. *)
Definition searchable (d : list Z) : Prop :=
  exists fs tr st, find_mount_and_trim_path mounts d = Some (fs, tr) /\ fs_stat fs tr = inr st /\
    S_ISDIR (st_mode st) = true /\ 0 <= access_check t c st AC_X.

(** The path reads as a link, on such a file system; [room] is what the buffer had. *)
Definition link_at (d : list Z) (fs : filesystem) (room : Z) (text : list Z) : Prop :=
  exists tr f, find_mount_and_trim_path mounts d = Some (fs, tr) /\ fs_readlink fs = Some f /\ f tr room = inr text.

(** From the components [fst] with [snd] left of the path. *)
Inductive moved : list (list Z) * list Z -> list (list Z) * list Z -> Prop :=
| Mv_dot cs p : name_of p = [DOT] -> moved (cs, p) (cs, rest p)
| Mv_up cs x p : name_of p = [DOT; DOT] -> (root root_path = [] \/ render (cs ++ [x]) <> root root_path) -> moved (cs ++ [x], p) (cs, rest p)
| Mv_stay cs p : name_of p = [DOT; DOT] ->
    (cs = [] \/ render cs = root root_path \/ mount_staging_point_len (render cs) = len (render cs)) -> moved (cs, p) (cs, rest p)
| Mv_name cs p : name_ok (name_of p) -> len (render (cs ++ [name_of p])) <= MAX_PATH - 2 ->
    (rest p <> [] -> searchable (render (cs ++ [name_of p])) \/ render (cs ++ [name_of p]) = MOUNT_STAGING_DIR) ->
    moved (cs, p) (cs ++ [name_of p], rest p).

(** Where a link is followed to. *)
Inductive follows (cs : list (list Z)) (p : list Z) : option (list Z) -> list Z -> Prop :=
| Fo_absolute fs room text path : link_at (render (cs ++ [name_of p])) fs room text -> name_ok (name_of p) -> follows cs p root_path path
| Fo_relative fs room text q : link_at (render (cs ++ [name_of p])) fs room text -> name_ok (name_of p) ->
    follows cs p None (render cs ++ SLASH :: q)
| Fo_on_mount fs room text path : link_at (render (cs ++ [name_of p])) fs room text -> name_ok (name_of p) -> follows cs p (Some (render cs)) path
| Fo_jump fs room text path : link_at (render (cs ++ [name_of p])) fs room text -> name_ok (name_of p) ->
    fs_is_procfs fs = true -> jump_text text = true -> follows cs p None path.

(** What leads to an undefined state. *)
Definition overrun (cs : list (list Z)) (p : list Z) : Prop :=
  MAX_PATH - 2 <= len (render cs) \/
  (exists fs text, link_at (render (cs ++ [name_of p])) fs (MAX_PATH - (len (render cs) + 1)) text /\ MAX_PATH - (len (render cs) + 1) <= len text) \/
  (exists fs tr, name_ok (name_of p) /\ find_mount_and_trim_path mounts (render (cs ++ [name_of p])) = Some (fs, tr) /\ path_is_normalized tr = false) \/
  path_is_normalized (root root_path) = false.

Definition turn_ok (cs : list (list Z)) (p : list Z) (flags levels : Z) (r : turn) : Prop :=
  match r with
  | Next s' =>
      (exists cs', moved (cs, p) (cs', w_p s') /\ w_out s' = render cs' /\ w_n s' = MAX_PATH - 1 - len (w_out s')) \/
      (w_p s' = p /\ len (w_out s') = MAX_PATH - 1 /\ w_n s' = -1 /\ name_ok (name_of p) /\ MAX_PATH - 2 <= len (render cs))
  | Stop r => r <> OutOfFuel /\ (forall out, r <> Path out) /\ (r = Fault -> overrun cs p)
  | Follow at' path' flags' => follows cs p at' path' /\ flags_ok flags' = flags_ok flags /\ levels < MAX_SYMLINKS
  end.

(** Case analysis on the first test of a turn. *)
Ltac turn_if H := match goal with |- turn_ok _ _ _ _ (if ?b then _ else _) => destruct b eqn:H end.

Lemma stop_err cs p flags levels e : turn_ok cs p flags levels (Stop (Err e)).
Proof. done. Qed.
Lemma stop_fault cs p flags levels : overrun cs p -> turn_ok cs p flags levels (Stop Fault).
Proof. done. Qed.

Lemma next_ok cs p flags levels cs' prev n : moved (cs, p) (cs', rest p) -> n = MAX_PATH - 1 - len (render cs') ->
  turn_ok cs p flags levels (Next (mk_ws (rest p) prev (render cs') n)).
Proof. intros Hm ->. left. by exists cs'. Qed.

Lemma flags_ok_next flags b : flags_ok ((flags .& Z.lnot N_DETACHED_OK) .| (if b : bool then N_DETACHED_OK else 0)) = flags_ok flags.
Proof.
  assert (forall m, m .& N_DETACHED_OK = 0 -> has_flag ((flags .& Z.lnot N_DETACHED_OK) .| (if b then N_DETACHED_OK else 0)) m = has_flag flags m) as H.
  { intros m Hm. unfold has_flag. do 2 f_equal. apply Z.bits_inj'. intros i Hi. rewrite !Z.land_spec, Z.lor_spec, Z.land_spec, Z.lnot_spec by done.
    pose proof (f_equal (fun z => Z.testbit z i) Hm) as Hb. cbv beta in Hb. rewrite Z.land_spec, Z.bits_0 in Hb.
    destruct (Z.testbit m i) eqn:Em; [| by rewrite !andb_false_r]. simpl in Hb.
    destruct b; rewrite ?Z.bits_0, Hb; by rewrite ?andb_true_r, ?orb_false_r. }
  unfold flags_ok. rewrite !H by reflexivity. done.
Qed.

Lemma dotdot_ok flags levels cs p s :
  name_of p = [DOT; DOT] -> Forall name_ok cs -> w_out s = render cs -> w_n s = MAX_PATH - 1 - len (render cs) ->
  turn_ok cs p flags levels (walk_dotdot mounts root_path flags s (after_name p)).
Proof.
  intros Hp Hcs Ho Hn. unfold walk_dotdot. rewrite skip_after, Ho. set (r := root root_path).
  set (at_root := negb (len r =? 0) && (len (render cs) =? len r) && str_eqb (render cs) r ||
    negb (mount_staging_point_len (render cs) =? 0) && (mount_staging_point_len (render cs) =? len (render cs))).
  destruct (_ && (at_root || _)); [apply stop_err |].
  rewrite len_zero. case_bool_decide as E0; [assert (cs = []) as -> by (destruct cs; done); cbn [negb andb]; apply next_ok; [apply Mv_stay; by auto | done] |].
  destruct at_root eqn:Er; cbn [negb andb].
  - apply next_ok; [| done]. apply Mv_stay; [done |]. right. unfold at_root in Er. apply orb_true_iff in Er as [Er | Er].
    + apply andb_true_iff in Er as [_ Er]. left. by apply bool_decide_eq_true in Er.
    + right. apply andb_true_iff in Er as [_ Er]. by apply Z.eqb_eq.
  - destruct cs as [| x cs0 _] using rev_ind; [done |]. apply Forall_app in Hcs as [Hcs Hx]. apply Forall_cons in Hx as [Hx _].
    rewrite pop_render by apply Hx. rewrite (normalized_render cs0), (normalized_render (cs0 ++ [x])) by (try apply Forall_app; auto).
    cbn [andb negb]. rewrite andb_false_r. case_match; [apply stop_err |]. apply next_ok.
    + apply Mv_up; [done |]. destruct (decide (root root_path = [])) as [| Hr]; [by left | right]. intros E.
      unfold at_root in Er. fold r in E, Hr. rewrite E in Er. rewrite len_zero, bool_decide_eq_false_2, Z.eqb_refl in Er by done.
      unfold str_eqb in Er. rewrite bool_decide_eq_true_2 in Er; done.
    + rewrite Hn. lia.
Qed.

Lemma link_ok flags levels cs p s fs trimmed text :
  Forall name_ok cs -> name_ok (name_of p) -> link_at (render (cs ++ [name_of p])) fs (MAX_PATH - (len (render cs) + 1)) text ->
  turn_ok cs p flags levels (walk_link mounts root_path flags levels s (render cs) (fs_is_procfs fs) trimmed text).
Proof.
  intros Hcs Hx Hl. unfold walk_link. destruct (has_flag flags N_NO_SYMLINKS); [apply stop_err |].
  set (jumps := fs_is_procfs fs && match trimmed with a :: d :: _ => _ | _ => _ end). cbv zeta.
  destruct (jumps && has_flag flags N_NO_MAGICLINKS); [apply stop_err |]. destruct (jumps && has_flag flags _); [apply stop_err |].
  destruct (Z.geb_spec levels MAX_SYMLINKS) as [| Hlev]; [apply stop_err |].
  destruct (Z.geb_spec (len text) (MAX_PATH - (len (render cs) + 1))) as [Hfull |]; [apply stop_fault; right; left; by exists fs, text |].
  set (jump := fs_is_procfs fs && _ && _ : bool). set (text' := if jump then _ else _). set (abs := is_slash (head text')).
  assert (jump = true -> fs_is_procfs fs = true /\ jump_text text = true) as Hjump.
  { unfold jump, jump_text. intros Hj. apply andb_true_iff in Hj as [Hj ?]. apply andb_true_iff in Hj as [? ?]. split; [done |]. by apply andb_true_iff. }
  case_match; [apply stop_err |].
  destruct (abs && negb jump && has_flag flags N_NO_XDEV && negb (path_is_normalized (render cs) && path_is_normalized (root root_path))) eqn:En.
  { apply stop_fault. right; right; right. rewrite (normalized_render cs Hcs) in En. by destruct (path_is_normalized (root root_path)); rewrite ?andb_false_r in En. }
  case_match; [apply stop_err |]. set (out := if abs then text' else _).
  set (expanded := match w_p s with [] => _ | _ :: _ => _ end). destruct expanded as [ex |] eqn:Ee; [| apply stop_err].
  assert (abs = false -> exists q, ex = render cs ++ SLASH :: q) as Hrel.
  { intros Ha. unfold expanded, out in Ee. rewrite Ha in Ee. clear -Ee. repeat case_match; simplify_eq/=; try (rewrite <- app_assoc; simpl); by eexists. }
  assert (forall b at' path', follows cs p at' path' -> turn_ok cs p flags levels
            (Follow at' path' ((flags .& Z.lnot N_DETACHED_OK) .| (if b : bool then N_DETACHED_OK else 0)))) as Hfo.
  { intros b at' path' Hf. split; [done |]. split; [apply flags_ok_next | done]. }
  destruct abs eqn:Ea; cbn [negb andb].
  - rewrite andb_false_r. apply Hfo. destruct jump eqn:Ej; cbn [negb].
    + destruct (Hjump eq_refl). by apply (Fo_jump cs p fs (MAX_PATH - (len (render cs) + 1)) text).
    + by apply (Fo_absolute cs p fs (MAX_PATH - (len (render cs) + 1)) text).
  - destruct (Hrel eq_refl) as [q ->]. rewrite andb_true_r. destruct (has_flag flags N_NO_XDEV); apply Hfo.
    + by apply (Fo_on_mount cs p fs (MAX_PATH - (len (render cs) + 1)) text).
    + by apply (Fo_relative cs p fs (MAX_PATH - (len (render cs) + 1)) text).
Qed.

Lemma lookup_ok flags levels cs p s :
  Forall name_ok cs -> name_ok (name_of p) -> w_p s = rest p -> w_out s = render (cs ++ [name_of p]) ->
  len (w_out s) <= MAX_PATH - 2 -> w_n s = MAX_PATH - 1 - len (w_out s) -> (exists a, w_prev s = Some a /\ (rest p <> [] -> a = SLASH)) ->
  turn_ok cs p flags levels (walk_lookup t c mounts root_path flags levels s (render cs)).
Proof.
  intros Hcs Hx Hp Ho Hlen Hn (a & Ha & Hsl). unfold walk_lookup. destruct (Z.geb_spec (len (w_out s)) MAX_PATH); [lia |].
  rewrite Ho, (normalized_render (cs ++ [name_of p])) by (by apply Forall_app; auto). cbn [negb].
  destruct (find_mount_and_trim_path mounts (render (cs ++ [name_of p]))) as [[fs tr] |] eqn:Ef; [| apply stop_err].
  destruct (path_is_normalized tr) eqn:Et; cbn [negb]; [| apply stop_fault; right; right; left; by exists fs, tr].
  destruct (match fs_readlink fs with Some _ => _ | None => _ end) as [e | text] eqn:Er.
  2: { apply link_ok; [done | done |]. destruct (fs_readlink fs) as [f |] eqn:Efs; [| done]. by exists tr, f. }
  assert (rest p = [] \/ searchable (render (cs ++ [name_of p])) -> turn_ok cs p flags levels (Next s)) as Hnext.
  { intros Hs. left. exists (cs ++ [name_of p]). rewrite Hp. split; [| by rewrite <- Ho].
    apply Mv_name; [done | by rewrite <- Ho |]. destruct Hs as [-> |]; [done | by left]. }
  rewrite Ha, Hp. destruct (Z.eqb_spec a SLASH) as [-> | Hna]; cbn [negb].
  - destruct (fs_stat fs tr) as [err | st] eqn:Es; [destruct (rest p); [apply Hnext; by left | apply stop_err] |].
    destruct (S_ISDIR (st_mode st)) eqn:Ed; cbn [negb]; [| apply stop_err].
    destruct (rest p) eqn:Erp; [apply Hnext; by left |]. destruct (Z.ltb_spec (access_check t c st AC_X) 0); [apply stop_err |].
    apply Hnext. right. by exists fs, tr, st.
  - apply Hnext. left. destruct (decide (rest p = [])) as [| Hr]; [done |]. by destruct (Hna (Hsl Hr)).
Qed.

(** With the buffer full, nothing is followed. *)
Lemma weird_lookup flags levels cs p s :
  w_p s <> [] -> MAX_PATH - 1 <= len (w_out s) -> MAX_PATH - 2 <= len (render cs) ->
  (len (w_out s) < MAX_PATH -> turn_ok cs p flags levels (Next s)) ->
  turn_ok cs p flags levels (walk_lookup t c mounts root_path flags levels s (render cs)).
Proof.
  intros Hp Hlen Hge Hnext. assert (overrun cs p) as Hov by (by left). unfold walk_lookup.
  destruct (Z.geb_spec (len (w_out s)) MAX_PATH); [by apply stop_fault |]. turn_if Hn; [by apply stop_fault |].
  destruct (find_mount_and_trim_path mounts (w_out s)) as [[fs tr] |]; [| apply stop_err]. turn_if Ht; [by apply stop_fault |].
  destruct (match fs_readlink fs with Some _ => _ | None => _ end) as [e | text].
  - destruct (w_prev s) as [a |]; [| by apply stop_fault]. turn_if Ha; [by apply Hnext |].
    destruct (fs_stat fs tr) as [err | st]; [destruct (w_p s); [by apply Hnext | apply stop_err] |]. turn_if Hd; [apply stop_err |].
    destruct (w_p s); [by apply Hnext |]. turn_if Hx; [apply stop_err | by apply Hnext].
  - unfold walk_link. set (jumps := fs_is_procfs fs && match tr with a :: d :: _ => _ | _ => _ end). cbv zeta.
    do 4 (let H := fresh in turn_if H; [apply stop_err |]). destruct (Z.geb_spec (len text) (MAX_PATH - (len (render cs) + 1))) as [| Hfit]; [by apply stop_fault |].
    assert (text = []) as ->. { destruct text as [| b text]; [done |]. rewrite len_cons in Hfit. pose proof (len_nonneg text). unfold MAX_PATH in *. lia. }
    cbn [cstr head is_slash andb]. replace (starts_with UNREACHABLE []) with false by reflexivity. rewrite andb_false_r. cbn [andb head is_slash].
    destruct (w_p s) as [| a q] eqn:Ep; [done |]. rewrite len_app, !len_cons. pose proof (len_nonneg q).
    destruct (Z.geb_spec (len (render cs) + (1 + len []) + 1 + (1 + len q)) MAX_PATH) as [| Hx]; [apply stop_err |].
    exfalso. unfold MAX_PATH in *. change (len []) with 0 in Hx. lia.
Qed.

Lemma name_turn_ok flags levels cs p s :
  Forall name_ok cs -> name_ok (name_of p) -> w_p s = p -> w_out s = render cs -> w_n s = MAX_PATH - 1 - len (render cs) -> len (render cs) <= MAX_PATH - 1 ->
  turn_ok cs p flags levels (walk_name t c mounts root_path flags levels s).
Proof.
  intros Hcs Hx Hp Ho Hn Hlen. unfold walk_name. rewrite Hp, Ho, Hn. pose proof (no_nonempty _ Hx) as Hne.
  set (n := MAX_PATH - 1 - len (render cs) - 1). destruct (Z.lt_ge_cases (len (name_of p)) n) as [Hfit | Hbig].
  - destruct (copy_whole p (w_prev s) (render cs ++ [SLASH]) n Hfit) as (prev & -> & _ & Hprev). destruct (Hprev Hne) as (a & -> & Ha).
    cbn [w_p w_prev w_out w_n]. rewrite skip_after. cbv beta iota zeta. cbn [w_out w_n].
    assert ((render cs ++ [SLASH]) ++ name_of p = render (cs ++ [name_of p])) as -> by (rewrite render_app, render_one, <- app_assoc; done).
    assert (len (render (cs ++ [name_of p])) = len (render cs) + 1 + len (name_of p)) as Hl by (rewrite render_app, render_one, len_app, len_cons; lia).
    pose proof (len_nonneg (name_of p)). unfold n, MAX_PATH in *.
    destruct (Z.gtb_spec (len (render (cs ++ [name_of p]))) 4096); [lia |]. destruct (Z.eqb_spec (4096 - 1 - len (render cs) - 1 - len (name_of p)) 0); [lia |].
    set (prev2 := match after_name p with [] => Some a | _ => Some SLASH end). set (ne := match rest p with [] => false | _ => true end).
    assert ((if ne then false else true) = true -> rest p = []) as Hne0 by (unfold ne; by destruct (rest p)).
    assert (forall b, rest p = [] \/ b = true -> (b = true -> render (cs ++ [name_of p]) = MOUNT_STAGING_DIR) ->
      turn_ok cs p flags levels (Next (mk_ws (rest p) prev2 (render (cs ++ [name_of p])) (4096 - 1 - len (render cs) - 1 - len (name_of p))))) as Hnext.
    { intros b Hb1 Hb2. apply next_ok; [| unfold MAX_PATH; lia]. apply Mv_name; [done | unfold MAX_PATH; lia |]. intros Hr.
      destruct Hb1 as [| ->]; [done | right; by apply Hb2]. }
    turn_if Hst.
    { apply (Hnext true); [by right |]. intros _. apply andb_true_iff in Hst as [Hst _]. apply andb_true_iff in Hst as [Hst _].
      apply andb_true_iff in Hst as [_ Hst]. by apply bool_decide_eq_true in Hst. }
    turn_if Hin; [apply stop_err |].
    rewrite (normalized_render cs Hcs), (normalized_render (cs ++ [name_of p])) by (apply Forall_app; auto). cbn [orb andb negb]. rewrite andb_false_r.
    turn_if Hx1; [apply stop_err |]. turn_if Hx2; [apply stop_err |]. turn_if Hlook.
    + apply lookup_ok; [done | done | done | done | unfold MAX_PATH; simpl; lia | unfold MAX_PATH; simpl; lia |].
      unfold prev2, rest. destruct (after_name p) as [| b q]; [by exists a | by exists SLASH].
    + apply (Hnext false); [left | done]. apply orb_false_iff in Hlook as [Hlook _]. apply orb_false_iff in Hlook as [_ Hlook].
      unfold ne in Hlook. by destruct (rest p).
  - destruct (Z.le_gt_cases 1 n) as [Hpos | Hneg].
    + destruct (copy_part p (w_prev s) (render cs ++ [SLASH]) n ltac:(lia)) as [E1 E2]. rewrite len_app in E2. change (len [SLASH]) with 1 in E2.
      destruct (copy_name p (w_prev s) (render cs ++ [SLASH]) n) as [p1 prev1 out1 n1]. cbn [w_n w_out w_p w_prev] in *. subst n1.
      unfold skip. cbn [w_n w_out]. unfold n in *. destruct (Z.gtb_spec (len out1) MAX_PATH); [unfold MAX_PATH in *; lia |]. apply stop_err.
    + rewrite copy_none by (try done; lia). cbn [w_p w_prev w_out w_n]. assert (overrun cs p) as Hov by (left; unfold n in *; lia).
      assert (no_lead p) as Hlead by (destruct p as [| a p]; [done |]; simpl in Hne |- *; by destruct (Z.eqb_spec a SLASH)).
      unfold skip. rewrite (skip_slashes_id p Hlead). cbv beta iota zeta. cbn [w_out w_n]. set (o1 := render cs ++ [SLASH]).
      assert (len o1 = len (render cs) + 1) as Hl1 by (unfold o1; rewrite len_app; done).
      assert (forall prev, len o1 < MAX_PATH -> turn_ok cs p flags levels (Next (mk_ws p prev o1 (n - 1)))) as Hweird.
      { intros prev Hlt. right. cbn [w_p w_out w_n]. unfold n in *. split; [done |]. split; [lia |]. split; [lia |]. split; [done | lia]. }
      destruct p as [| a0 p0] eqn:Epp; [done |]. rewrite <- Epp in *. assert (MAX_PATH - 2 <= len (render cs)) as Hge by (unfold n in *; lia).
      destruct (Z.gtb_spec (len o1) MAX_PATH); [apply stop_fault; exact Hov |]. turn_if Hn0; [apply stop_err |].
      turn_if Hst; [exfalso; clear -Hst Hge; unfold MAX_PATH in *; destruct (Z.eqb_spec (len (render cs)) 0); [lia | done] |].
      turn_if Hin; [apply stop_err |]. turn_if Hf; [apply stop_fault; exact Hov |]. turn_if Hx1; [apply stop_err |]. turn_if Hx2; [apply stop_err |].
      rewrite orb_true_r. cbn [orb]. apply weird_lookup; [by rewrite Epp | cbn [w_out]; lia | done | by apply Hweird].
Qed.

Lemma turn_good flags levels cs p s :
  Forall name_ok cs -> p <> [] -> no_lead p -> w_p s = p -> w_out s = render cs -> w_n s = MAX_PATH - 1 - len (render cs) ->
  len (render cs) <= MAX_PATH - 1 -> turn_ok cs p flags levels (walk_turn t c mounts root_path flags levels s).
Proof.
  intros Hcs Hp Hl Ep Ho Hn Hlen. destruct (rest_shorter p Hp Hl) as [_ Hne]. pose proof (name_of_no_slash p) as Hns.
  unfold walk_turn. rewrite Ep. destruct p as [| a q]; [done |]. simpl in Hl.
  assert (name_of (a :: q) = a :: name_of q /\ after_name (a :: q) = after_name q) as [En Ea] by (simpl; by destruct (Z.eqb_spec a SLASH)).
  destruct ((a =? DOT) && ends_name q) eqn:E1.
  { apply andb_true_iff in E1 as [E1 E2]. apply Z.eqb_eq in E1 as ->. destruct (ends_name_spec q E2) as [E3 E4].
    rewrite <- E4, <- Ea, skip_after, Ho. rewrite E3 in En. rewrite Ea, E4. apply next_ok; [by apply Mv_dot | done]. }
  assert (name_of (a :: q) <> [DOT]) as Hnd.
  { rewrite En. intros [= -> Eq]. rewrite Z.eqb_refl in E1. simpl in E1. by apply ends_name_false in E1. }
  assert (name_of (a :: q) <> [DOT; DOT] -> turn_ok cs (a :: q) flags levels (walk_name t c mounts root_path flags levels s)) as Hname.
  { intros Hndd. apply name_turn_ok; [done | by split | done | done | done | done]. }
  destruct q as [| b q']; [apply Hname; by rewrite En |].
  destruct ((a =? DOT) && (b =? DOT) && ends_name q') eqn:E2.
  - apply andb_true_iff in E2 as [E2 E3]. apply andb_true_iff in E2 as [E4 E5]. apply Z.eqb_eq in E4 as ->. apply Z.eqb_eq in E5 as ->.
    destruct (ends_name_spec q' E3) as [E6 E7]. assert (after_name (DOT :: DOT :: q') = q') as Eq by (simpl; done). rewrite <- Eq at 2.
    apply dotdot_ok; [by simpl; rewrite E6 | done | done | done].
  - apply Hname. rewrite En. intros [= -> Eq]. simpl in Eq. destruct (Z.eqb_spec b SLASH); [done |]. simplify_eq.
    rewrite !Z.eqb_refl in E2. simpl in E2. by apply ends_name_false in E2.
Qed.

(** The turn after the buffer was filled without taking a byte of the path. *)
Lemma turn_weird flags levels s :
  name_ok (name_of (w_p s)) -> len (w_out s) = MAX_PATH - 1 -> w_n s = -1 ->
  exists r, walk_turn t c mounts root_path flags levels s = Stop r /\ r <> OutOfFuel /\ forall out, r <> Path out.
Proof.
  intros Hx Ho Hn. assert (walk_turn t c mounts root_path flags levels s = walk_name t c mounts root_path flags levels s) as ->.
  { unfold walk_turn. destruct (w_p s) as [| a q] eqn:Ep; [done |]. destruct Hx as [H1 H2 H3 H4]. simpl in H1, H3, H4.
    destruct (Z.eqb_spec a SLASH) as [| Ha]; [done |]. destruct (Z.eqb_spec a DOT) as [-> |]; [| by destruct q]. cbn [andb].
    destruct (ends_name q) eqn:E1; [apply ends_name_spec in E1 as [E1 _]; by rewrite E1 in H3 |]. destruct q as [| b q']; [done |].
    destruct (Z.eqb_spec b DOT) as [-> |]; [| done]. simpl. destruct (ends_name q') eqn:E2; [| done].
    apply ends_name_spec in E2 as [E2 _]. simpl in H4. by rewrite E2 in H4. }
  unfold walk_name. rewrite Hn, copy_none by (try apply Hx; lia). cbn [w_p w_prev w_out w_n].
  assert (no_lead (w_p s)) as Hl by (destruct Hx as [H1 _ _ _]; destruct (w_p s) as [| a p]; [done |]; simpl in *; by destruct (Z.eqb_spec a SLASH)).
  unfold skip. rewrite (skip_slashes_id _ Hl). cbv beta iota zeta. cbn [w_out w_n]. set (o1 := w_out s ++ [SLASH]).
  assert (len o1 = MAX_PATH) as Hl1 by (unfold o1; rewrite len_app, Ho; done). unfold walk_lookup. cbn [w_out]. rewrite Hl1, Ho.
  destruct (w_p s) as [| a p] eqn:Ep; [by destruct Hx |]. rewrite !orb_true_r. cbn [orb].
  assert (forall r, (r = Fault \/ exists e, r = Err e) -> exists r', Stop r = Stop r' /\ r' <> OutOfFuel /\ forall out, r' <> Path out) as Hr.
  { intros r [-> | [e ->]]; eexists; (split; [reflexivity | done]). }
  change (MAX_PATH >? MAX_PATH) with false. change (MAX_PATH >=? MAX_PATH) with true. cbv iota. change (-1 - 1 - 1 =? 0) with false. change (MAX_PATH - 1 =? 0) with false. cbn [andb negb].
  repeat match goal with |- context [if ?b then _ else _] => destruct b end; apply Hr; by eauto.
Qed.

Definition walk_good (cs : list (list Z)) (p : list Z) : Prop := Forall name_ok cs /\ no_lead p /\ len (render cs) <= MAX_PATH - 1.

Lemma moved_good cs p cs' p' : moved (cs, p) (cs', p') -> walk_good cs p -> walk_good cs' p'.
Proof.
  intros Hm (Hcs & Hl & Hlen). inversion Hm; subst; (split; [| split; [apply skip_no_lead |]]); try done.
  - by apply Forall_app in Hcs as [? _].
  - rewrite render_app, len_app in Hlen. pose proof (len_nonneg (render [x])). lia.
  - by apply Forall_app; auto.
  - lia.
Qed.

Lemma moves_good a b : rtc moved a b -> walk_good a.1 a.2 -> walk_good b.1 b.2.
Proof. induction 1 as [| [cs1 p1] [cs2 p2] b Hm _ IH]; intros Hg; [done |]. apply IH. by apply (moved_good cs1 p1). Qed.

Lemma moved_nonempty cs p b : moved (cs, p) b -> p <> [].
Proof.
  remember (cs, p) as a eqn:Ea. intros Hm ->. destruct Hm; simplify_eq; try done.
  match goal with Hx : name_ok _ |- _ => by destruct (no_nonempty _ Hx) end.
Qed.

Lemma moved_shorter cs p cs' p' : moved (cs, p) (cs', p') -> p <> [] -> no_lead p -> (List.length p' < List.length p)%nat.
Proof. intros Hm Hp Hl. destruct (rest_shorter p Hp Hl) as [Hlt _]. by inversion Hm; subst. Qed.

(** How the loop ends. *)
Definition loop_ok (cs : list (list Z)) (p : list Z) (flags levels : Z) (r : turn) : Prop :=
  match r with
  | Next _ | Stop OutOfFuel => False
  | Stop (Path out) => exists cs', rtc moved (cs, p) (cs', []) /\ out = render cs'
  | Stop Fault => exists cs' p', rtc moved (cs, p) (cs', p') /\ p' <> [] /\ overrun cs' p'
  | Stop (Err _) => True
  | Follow at' path' flags' =>
      exists cs' p', rtc moved (cs, p) (cs', p') /\ follows cs' p' at' path' /\ flags_ok flags' = flags_ok flags /\ levels < MAX_SYMLINKS
  end.

Lemma loop_step cs p cs' p' flags levels r : moved (cs, p) (cs', p') -> loop_ok cs' p' flags levels r -> loop_ok cs p flags levels r.
Proof.
  intros Hm. destruct r as [| [out | e | |] | at' path' fl']; simpl; try done.
  - intros (cs2 & Hr & ->). exists cs2. split; [by eapply rtc_l | done].
  - intros (cs2 & p2 & Hr & Ho). exists cs2, p2. split; [by eapply rtc_l | done].
  - intros (cs2 & p2 & Hr & Ho). exists cs2, p2. split; [by eapply rtc_l | done].
Qed.

Lemma walk_loop_ok fuel flags levels cs s :
  walk_good cs (w_p s) -> w_out s = render cs -> w_n s = MAX_PATH - 1 - len (render cs) -> (List.length (w_p s) + 2 <= fuel)%nat ->
  loop_ok cs (w_p s) flags levels (walk_loop t c mounts root_path fuel flags levels s).
Proof.
  revert cs s. induction fuel as [| fuel IH]; intros cs s (Hcs & Hl & Hlen) Ho Hn Hf; [lia |]. cbn [walk_loop].
  destruct (w_p s) as [| a q] eqn:Ep.
  { rewrite Ho, (normalized_render cs Hcs). destruct (Z.geb_spec (len (render cs)) MAX_PATH); [lia |]. by exists cs. }
  rewrite <- Ep in *. assert (w_p s <> []) as Hp by (by rewrite Ep).
  pose proof (turn_good flags levels cs (w_p s) s Hcs Hp Hl eq_refl Ho Hn Hlen) as Ht.
  destruct (walk_turn t c mounts root_path flags levels s) as [s' | r | at' path' fl']; simpl in Ht.
  - destruct Ht as [(cs' & Hm & Ho' & Hn') | (Ep' & Hl' & Hn' & Hx & Hge)].
    + apply (loop_step cs (w_p s) cs' (w_p s')); [done |]. apply IH; [by apply (moved_good cs (w_p s)) | done | by rewrite Hn', Ho' |].
      pose proof (moved_shorter _ _ _ _ Hm Hp Hl). lia.
    + rewrite Ep in Hf. simpl in Hf. destruct fuel as [| fuel]; [lia |]. cbn [walk_loop]. rewrite Ep', Ep.
      destruct (turn_weird flags levels s') as (r & -> & Hr1 & Hr2); [by rewrite Ep' | done | done |].
      destruct r as [out | | |]; [by destruct (Hr2 out) | done | | done]. exists cs, (a :: q). split; [done |]. split; [done | by left].
  - destruct Ht as (H1 & H2 & H3). destruct r as [out | | |]; [by destruct (H2 out) | done | | done]. exists cs, (w_p s). split; [done |]. auto.
  - exists cs, (w_p s). by split.
Qed.
End Moves.

(** ** Whole resolutions *)

(** The components a walk given [at_path] starts on. *)
Definition starts_at (at_path : option (list Z)) (ac : list (list Z)) : Prop :=
  match at_path with Some a => if str_eqb a [SLASH] then [] else a | None => [] end = render ac /\
  Forall name_ok ac /\ len (render ac) <= MAX_PATH - 1.

Lemma render_not_slash cs : Forall name_ok cs -> str_eqb (render cs) [SLASH] = false.
Proof.
  intros Hcs. apply bool_decide_eq_false_2. destruct Hcs as [| x cs [Hx _ _ _] _]; simpl; [done |].
  destruct x as [| a x]; [done |]. simpl. intros [= E]. 
Qed.

Lemma starts_render cs : Forall name_ok cs -> len (render cs) <= MAX_PATH - 1 -> starts_at (Some (render cs)) cs.
Proof. intros Hcs Hl. unfold starts_at. by rewrite (render_not_slash cs Hcs). Qed.

Lemma starts_nil : starts_at None [].
Proof. split; [done |]. split; [constructor |]. unfold MAX_PATH, len. simpl. lia. Qed.

Section Resolve.
Context (t : ns_table) (c : cred) (mounts : list mount) (root_path : option (list Z)) (rc : list (list Z)).
Context (Hroot : starts_at root_path rc).

Lemma root_is : root root_path = render rc.
Proof using Hroot. apply Hroot. Qed.

Lemma one_walk flags levels at_path path ac :
  starts_at at_path ac ->
  let s := walk_start at_path path in
  w_out s = render ac /\ walk_good ac (skip_slashes path) /\
  loop_ok t c mounts root_path ac (skip_slashes path) flags levels (walk_loop t c mounts root_path (List.length (w_p s) + 3) flags levels s).
Proof.
  intros (Ea & Hac & Hlen). assert (walk_good ac (skip_slashes path)) as Hg by (split; [done | split; [apply skip_no_lead | done]]).
  unfold walk_start, skip. rewrite Ea. split; [done |]. split; [done |]. set (s := mk_ws _ _ _ _).
  apply (walk_loop_ok t c mounts root_path _ flags levels ac s); [done | done | done | lia].
Qed.

(** An invariant [Q] of the starts of walks and [R] of the states they pass. *)
Lemma normalize_ind (Q : option (list Z) -> list Z -> Prop) (R : list (list Z) -> list Z -> Prop) :
  (forall at_path path, Q at_path path -> exists ac, starts_at at_path ac /\ R ac (skip_slashes path)) ->
  (forall cs p cs' p', R cs p -> moved t c mounts root_path (cs, p) (cs', p') -> p <> [] -> R cs' p') ->
  (forall cs p at' path', walk_good cs p -> R cs p -> p <> [] -> follows mounts root_path cs p at' path' -> Q at' path') ->
  forall links at_path path flags, Q at_path path -> (links <= Z.to_nat MAX_SYMLINKS)%nat ->
  match path_normalize_at t c mounts root_path links at_path path flags with
  | Path out => exists cs, out = render cs /\ walk_good cs [] /\ R cs []
  | Err _ => True
  | Fault => flags_ok flags = false \/ exists cs p, walk_good cs p /\ R cs p /\ p <> [] /\ overrun mounts root_path cs p
  | OutOfFuel => False
  end.
Proof.
  intros HQ HR HF. assert (forall a b, rtc (moved t c mounts root_path) a b -> R a.1 a.2 -> R b.1 b.2) as HRs.
  { induction 1 as [| [cs1 p1] [cs2 p2] b Hm _ IH]; intros Hr; [done |]. apply IH. apply (HR cs1 p1); [done | done |].
    by eapply moved_nonempty. }
  assert (forall cs p at' path', follows mounts root_path cs p at' path' -> p <> []) as Hfp
    by (intros cs p at' path' Hf ->; destruct Hf as [? ? ? ? _ [Hx _ _ _] | ? ? ? ? _ [Hx _ _ _] | ? ? ? ? _ [Hx _ _ _] | ? ? ? ? _ [Hx _ _ _]]; done).
  assert (forall cs p at' path' ac path, rtc (moved t c mounts root_path) (ac, path) (cs, p) -> walk_good ac path -> R ac path ->
            follows mounts root_path cs p at' path' -> Q at' path') as Hnext.
  { intros cs p at' path' ac path Hm Hg Hr Hf. apply (HF cs p); [by apply (moves_good _ _ _ _ _ _ Hm) | by apply (HRs _ _ Hm) | by eapply Hfp | done]. }
  induction links as [| links IH]; intros at_path path flags Hq Hl; cbn [path_normalize_at];
    (destruct (flags_ok flags) eqn:Efl; cbn [negb]; [| by left]); (destruct path as [| a q] eqn:Epath; [done |]); rewrite <- Epath in *;
    destruct (HQ _ _ Hq) as (ac & Hst & Hr); pose proof (fun lev => one_walk flags lev at_path path ac Hst) as Hone;
    destruct (Hone 0) as (Eo & Hg & _).
  all: cbv zeta; rewrite Eo; (destruct (Z.geb_spec (len (render ac)) MAX_PATH); [destruct Hg as (_ & _ & ?); lia |]).
  - destruct (Hone (MAX_SYMLINKS - Z.of_nat 0)) as (_ & _ & Hloop).
    destruct (walk_loop _ _ _ _ _ _ _ _) as [s' | [out | e | |] | at' path' fl']; simpl in Hloop; try done.
    + destruct Hloop as (cs & Hm & ->). exists cs. split; [done |]. split; [by apply (moves_good _ _ _ _ _ _ Hm) | by apply (HRs _ _ Hm)].
    + destruct Hloop as (cs & p & Hm & Hp & Ho). right. exists cs, p. split; [by apply (moves_good _ _ _ _ _ _ Hm) |]. split; [by apply (HRs _ _ Hm) | done].
    + destruct Hloop as (cs & p & Hm & Hf & Efl' & Hlev). unfold MAX_SYMLINKS in Hlev. simpl in Hlev. lia.
  - destruct (Hone (MAX_SYMLINKS - Z.of_nat (S links))) as (_ & _ & Hloop).
    destruct (walk_loop _ _ _ _ _ _ _ _) as [s' | [out | e | |] | at' path' fl']; simpl in Hloop; try done.
    + destruct Hloop as (cs & Hm & ->). exists cs. split; [done |]. split; [by apply (moves_good _ _ _ _ _ _ Hm) | by apply (HRs _ _ Hm)].
    + destruct Hloop as (cs & p & Hm & Hp & Ho). right. exists cs, p. split; [by apply (moves_good _ _ _ _ _ _ Hm) |]. split; [by apply (HRs _ _ Hm) | done].
    + destruct Hloop as (cs & p & Hm & Hf & Efl' & Hlev). specialize (IH at' path' fl' (Hnext _ _ _ _ _ _ Hm Hg Hr Hf) ltac:(lia)).
      destruct (path_normalize_at t c mounts root_path links at' path' fl'); rewrite ?Efl', ?Efl in IH; done.
Qed.

(** *** Confinement *)

(** The root and what is above it are directories, not links. *)
Definition root_no_links : Prop := forall pre x fs room text, (pre ++ [x]) `prefix_of` rc -> ~ link_at mounts (render (pre ++ [x])) fs room text.
(** No procfs link leads to a file outside the root. *)
Definition no_jumps : Prop := forall d fs room text, link_at mounts d fs room text -> fs_is_procfs fs = true -> jump_text text = false.

(** The path left begins with these names. *)
Fixpoint spells (ms : list (list Z)) (p : list Z) : Prop :=
  match ms with [] => True | x :: ms => name_of p = x /\ spells ms (rest p) end.

Lemma spells_render cs q : Forall name_ok cs -> (q = [] \/ exists q', q = SLASH :: q') -> spells cs (skip_slashes (render cs ++ q)).
Proof.
  intros Hcs Hq. induction Hcs as [| x cs [Hne Hns _ _] Hcs IH]; [done |]. cbn [render flat_map app]. fold (render cs).
  cbn [skip_slashes]. rewrite Z.eqb_refl. rewrite <- app_assoc.
  assert (skip_slashes (x ++ render cs ++ q) = x ++ render cs ++ q) as ->.
  { apply skip_slashes_id. destruct x as [| a x]; [done |]. simpl. apply not_elem_of_cons in Hns as [Hns _]. congruence. }
  assert (render cs ++ q = [] \/ exists q', render cs ++ q = SLASH :: q') as Hq' by (destruct cs; [done | right; simpl; by eexists]).
  destruct (name_of_slash x (render cs ++ q) Hns Hq') as [En Ea]. simpl. split; [done |]. unfold rest. by rewrite Ea.
Qed.

(** Below the root, or on the way down to it with the rest of it ahead. *)
Definition inside (cs : list (list Z)) (p : list Z) : Prop :=
  rc `prefix_of` cs \/ exists ms, rc = cs ++ ms /\ ms <> [] /\ spells ms p.

Lemma inside_moved cs p cs' p' : inside cs p -> moved t c mounts root_path (cs, p) (cs', p') -> inside cs' p'.
Proof using Hroot.
  pose proof (proj1 (proj2 Hroot)) as Hrc. intros [Hin | (ms & Erc & Hms & Hsp)] Hm.
  - left. inversion Hm; subst; try done.
    + destruct Hin as [k Hk]. destruct k as [| z k _] using rev_ind; [| rewrite app_assoc in Hk; apply app_inj_tail in Hk as [-> _]; by eexists].
      exfalso. rewrite app_nil_r in Hk.
      match goal with Ho : root _ = [] \/ _ |- _ => destruct Ho as [E | E]; rewrite root_is in E; [| by rewrite Hk in E] end.
      rewrite <- Hk, render_app, render_one in E. by destruct (render cs').
    + by apply prefix_app_r.
  - destruct ms as [| x ms]; [done |]. destruct Hsp as [Ex Hsp]. assert (name_ok x) as Hx by (rewrite Erc in Hrc; apply Forall_app in Hrc as [_ Hrc]; by apply Forall_cons in Hrc as [? _]).
    destruct Hx as [_ _ Hd Hdd]. inversion Hm; subst; try congruence. destruct ms as [| y ms].
    + left. rewrite <- Erc. done.
    + right. exists (y :: ms). split; [by rewrite Erc, <- app_assoc |]. done.
Qed.

Lemma inside_follows cs p at' path' :
  root_no_links -> no_jumps -> walk_good cs p -> inside cs p -> follows mounts root_path cs p at' path' ->
  exists ac, starts_at at' ac /\ inside ac (skip_slashes path').
Proof using Hroot.
  intros Hnl Hnj (Hcs & _ & Hlen) Hin Hf. pose proof (proj1 (proj2 Hroot)) as Hrc.
  assert (rc `prefix_of` cs) as Hpre.
  { destruct Hin as [| (ms & Erc & Hms & Hsp)]; [done |]. destruct ms as [| x ms]; [done |]. destruct Hsp as [Ex _]. exfalso.
    assert ((cs ++ [name_of p]) `prefix_of` rc) as Hp by (rewrite Erc, Ex; exists ms; by rewrite <- app_assoc).
    destruct Hf; eapply Hnl; eauto. }
  destruct Hf as [fs room text path' Hl _ | fs room text q Hl _ | fs room text path' Hl _ | fs room text path' Hl _ Hpf Hj].
  - exists rc. split; [done | by left].
  - exists []. split; [apply starts_nil |]. destruct (decide (rc = [])) as [E | E]; [left; rewrite E; apply prefix_nil |]. right.
    exists rc. split; [done |]. split; [done |]. destruct Hpre as [more ->]. rewrite render_app, <- app_assoc.
    apply spells_render; [done |]. right. destruct more; simpl; by eexists.
  - exists cs. split; [by apply starts_render | by left].
  - by rewrite (Hnj _ _ _ _ Hl Hpf) in Hj.
Qed.

(** *** Search permission *)

(** Why a directory may be passed: it is above a start, or was checked, or is
    where detached mounts are kept. *)
Definition passable (ac pre : list (list Z)) : Prop :=
  pre `prefix_of` ac \/ pre `prefix_of` rc \/ searchable t c mounts (render pre) \/ render pre = MOUNT_STAGING_DIR.

Definition passed (ac cs : list (list Z)) (p : list Z) : Prop :=
  (forall pre, pre `prefix_of` cs -> pre <> cs -> passable ac pre) /\ (p <> [] -> passable ac cs).

Lemma passed_moved ac cs p cs' p' : passed ac cs p -> moved t c mounts root_path (cs, p) (cs', p') -> p <> [] -> passed ac cs' p'.
Proof.
  intros [H1 H2] Hm Hp. specialize (H2 Hp). inversion Hm; subst; try done.
  - split.
    + intros pre Hpre Hne. apply H1; [by apply prefix_app_r |]. intros ->. apply prefix_length in Hpre. rewrite length_app in Hpre. simpl in Hpre. lia.
    + intros _. apply H1; [by apply prefix_app_r |]. intros E. apply (f_equal List.length) in E. rewrite length_app in E. simpl in E. lia.
  - split.
    + intros pre Hpre Hne. destruct Hpre as [k Hk]. destruct k as [| z k _] using rev_ind; [by rewrite app_nil_r in Hk |].
      rewrite app_assoc in Hk. apply app_inj_tail in Hk as [-> _]. destruct (decide (pre = pre ++ k)) as [E | E]; [by rewrite <- E in H2 |].
      apply H1; [by apply prefix_app_r | done].
    + intros Hr. right. right. auto.
Qed.

Lemma passed_follows ac cs p at' path' :
  walk_good cs p -> passed ac cs p -> p <> [] -> follows mounts root_path cs p at' path' ->
  exists ac', starts_at at' ac' /\ passed ac ac' (skip_slashes path').
Proof using Hroot.
  intros (Hcs & _ & Hlen) [H1 H2] Hp Hf. specialize (H2 Hp). assert (passed ac [] (skip_slashes path')) as Hnil.
  { split; [intros pre Hpre Hne; by apply prefix_nil_inv in Hpre | intros _; left; apply prefix_nil]. }
  destruct Hf.
  - exists rc. split; [done |]. split; [intros pre Hpre _ | intros _]; right; by left.
  - exists []. split; [apply starts_nil | done].
  - exists cs. split; [by apply starts_render |]. split; [done | by intros _].
  - exists []. split; [apply starts_nil | done].
Qed.
End Resolve.

(** ** Staying inside the buffer *)

Section Bounds.
Context (t : ns_table) (c : cred) (mounts : list mount).

(** The file systems have no searchable directory whose path leaves less than
    two bytes of the buffer, and no link that fills it from the path of its
    directory on. *)
Definition short_names : Prop := forall d, searchable t c mounts d -> len d < MAX_PATH - 2.
Definition links_fit : Prop := forall cs x fs text,
  let room := MAX_PATH - (len (render cs) + 1) in link_at mounts (render (cs ++ [x])) fs room text -> len text < room.
(** The sources of binds are directories of the file system they alias. *)
Definition binds_ok : Prop :=
  forall m origin prefix, m ∈ mounts -> mt_bind m = Some (origin, prefix) -> exists bs, prefix = render bs /\ Forall name_ok bs.

Lemma render_suffix cs k :
  Forall name_ok cs -> match drop k (render cs) with a :: _ => a = SLASH | [] => True end ->
  exists cs', drop k (render cs) = render cs' /\ Forall name_ok cs'.
Proof.
  intros Hcs. revert k. induction Hcs as [| x cs Hx Hcs IH]; intros k; [change (render []) with (@nil Z); rewrite drop_nil; by exists [] |].
  destruct k as [| k]; [intros _; exists (x :: cs); split; [done | by constructor] |]. cbn [render flat_map app drop]. fold (render cs).
  destruct (Nat.le_gt_cases (List.length x) k) as [Hle | Hgt].
  - rewrite drop_app_ge by done. apply IH.
  - rewrite drop_app_le by lia. destruct (drop k x) as [| a y] eqn:Ed; [apply (f_equal List.length) in Ed; rewrite length_drop in Ed; simpl in Ed; lia |].
    simpl. intros ->. destruct (no_slash _ Hx). rewrite <- (take_drop k x), Ed. apply elem_of_app. right. left.
Qed.

Lemma trim_normalized cs fs tr :
  binds_ok -> Forall name_ok cs -> find_mount_and_trim_path mounts (render cs) = Some (fs, tr) -> path_is_normalized tr = true.
Proof.
  intros Hb Hcs Hf. unfold find_mount_and_trim_path in Hf. destruct (mount_find mounts (render cs)) as [m |] eqn:Em; [| done].
  apply List.find_some in Em as [Hin Hon]. apply andb_true_iff in Hon as [_ Hon].
  destruct (render_suffix cs (List.length (mt_point m)) Hcs) as (cs' & E & Hcs').
  { destruct (drop _ (render cs)); [done | by apply Z.eqb_eq]. }
  rewrite E in Hf. destruct (mt_bind m) as [[origin prefix] |] eqn:Eb; [| simplify_eq; by apply normalized_render].
  destruct (Hb m origin prefix) as (bs & -> & Hbs); [by apply list_elem_of_In | done |].
  destruct (_ >=? _); [done |]. simplify_eq. rewrite <- render_app. apply normalized_render. by apply Forall_app.
Qed.

Lemma short_moved root_path cs p cs' p' :
  short_names -> len (render cs) < MAX_PATH - 2 -> moved t c mounts root_path (cs, p) (cs', p') -> p' <> [] -> len (render cs') < MAX_PATH - 2.
Proof.
  intros Hs Hl Hm Hp. inversion Hm; subst; try done.
  - rewrite render_app, len_app in Hl. match goal with Hl : _ + len (render [?x]) < _ |- _ => pose proof (len_nonneg (render [x])) end. lia.
  - match goal with Hd : _ -> searchable _ _ _ _ \/ _ |- _ => destruct (Hd Hp) as [H | ->] end; [by apply Hs | reflexivity].
Qed.
End Bounds.
