(* ===== verification/PathLexical.v ===== *)
(** * Path resolution without links (fs/path.c)

    Where no component is a link, the walk of __path_normalize is the lexical
    resolution of the path's names: `.` stays, `..` goes up but not above the
    root, every other name goes down. *)

From Stdlib Require Import ZifyBool.
From S2P Require Import Prelude User UserNs Creds FsAccess Path PathSound.

(** ** The names of a path *)

Fixpoint split_on (cur p : list Z) : list (list Z) :=
  match p with [] => [cur] | a :: p => if a =? SLASH then cur :: split_on [] p else split_on (cur ++ [a]) p end.
(** The names a path spells. *)
Definition names (p : list Z) : list (list Z) := filter (fun x => x <> []) (split_on [] p).

(** The lexical meaning of one more name, with root [rc]. *)
Definition lex_step (rc cs : list (list Z)) (x : list Z) : list (list Z) :=
  if decide (x = [DOT]) then cs
  else if decide (x = [DOT; DOT]) then (if decide (cs = rc) then cs else removelast cs)
  else cs ++ [x].

Lemma split_name cur p : split_on cur p = (cur ++ name_of p) :: match after_name p with [] => [] | _ :: q => split_on [] q end.
Proof.
  revert cur. induction p as [| a p IH]; intros cur; simpl; [by rewrite app_nil_r |].
  destruct (Z.eqb_spec a SLASH); [by rewrite app_nil_r |]. rewrite IH, <- app_assoc. done.
Qed.

Lemma names_skip p : names (skip_slashes p) = names p.
Proof. induction p as [| a p IH]; simpl; [done |]. destruct (Z.eqb_spec a SLASH) as [-> |]; [| done]. rewrite IH. done. Qed.

Lemma names_step p : p <> [] -> no_lead p -> names p = name_of p :: names (rest p).
Proof.
  intros Hp Hl. destruct (rest_shorter p Hp Hl) as [_ Hne]. unfold names at 1. rewrite split_name. simpl app.
  rewrite filter_cons_True by done. f_equal. unfold rest. destruct (after_name_head p) as [-> | [q ->]]; [done |].
  simpl. by rewrite names_skip.
Qed.

Lemma names_nil : names [] = [].
Proof. done. Qed.

Definition STAGING_NAME : list Z := drop 1 MOUNT_STAGING_DIR.

Lemma no_staging cs : Forall name_ok cs -> STAGING_NAME ∉ cs ->
  starts_with (MOUNT_STAGING_DIR ++ [SLASH]) (render cs) = false /\ mount_staging_point_len (render cs) = 0 /\ render cs <> MOUNT_STAGING_DIR.
Proof.
  intros Hcs Hs. assert (forall q, (q = [] \/ exists q', q = SLASH :: q') -> render cs <> MOUNT_STAGING_DIR ++ q) as Hne.
  { intros q Hq E. destruct Hcs as [| x cs [_ Hx _ _] Hcs]; [by destruct q |]. apply Hs. apply elem_of_cons. left.
    assert (x ++ render cs = STAGING_NAME ++ q) as E' by exact (f_equal (drop 1) E).
    assert (SLASH ∉ STAGING_NAME) as Hns by (by apply (bool_decide_unpack _); vm_compute).
    assert (render cs = [] \/ exists q', render cs = SLASH :: q') as Hr by (destruct cs; [by left | right; simpl; by eexists]).
    destruct (name_of_slash x (render cs) Hx Hr) as [E1 _]. destruct (name_of_slash STAGING_NAME q Hns Hq) as [E2 _].
    rewrite E', E2 in E1. done. }
  assert (starts_with (MOUNT_STAGING_DIR ++ [SLASH]) (render cs) = false) as Hsw.
  { apply bool_decide_eq_false_2. intros E. apply (Hne (SLASH :: drop (List.length (MOUNT_STAGING_DIR ++ [SLASH])) (render cs))); [right; by eexists |].
    rewrite <- (take_drop (List.length (MOUNT_STAGING_DIR ++ [SLASH])) (render cs)) at 1. by rewrite E, <- app_assoc. }
  split; [done |]. split; [unfold mount_staging_point_len; by rewrite Hsw, orb_true_r |]. intros E. apply (Hne []); [by left | by rewrite app_nil_r].
Qed.

Lemma names_render cs : Forall name_ok cs -> names (render cs) = cs.
Proof.
  induction 1 as [| x cs [Hne Hns _ _] Hcs IH]; [done |]. cbn [render flat_map app]. fold (render cs).
  assert (names (SLASH :: x ++ render cs) = names (x ++ render cs)) as -> by done.
  assert (render cs = [] \/ exists q', render cs = SLASH :: q') as Hr by (destruct cs; [by left | right; simpl; by eexists]).
  destruct (name_of_slash x (render cs) Hns Hr) as [En Ea]. destruct x as [| a x]; [done |]. apply not_elem_of_cons in Hns as [Ha Hns].
  rewrite names_step by (simpl; congruence). rewrite En. unfold rest. by rewrite Ea, names_skip, IH.
Qed.

Lemma render_inj cs cs' : Forall name_ok cs -> Forall name_ok cs' -> render cs = render cs' -> cs = cs'.
Proof. intros H H' E. by rewrite <- (names_render cs H), E, names_render. Qed.

Lemma rest_length p : rest p <> [] -> len (name_of p) + 1 + len (rest p) <= len p.
Proof.
  intros Hr. pose proof (f_equal len (name_after p)) as E. rewrite len_app in E. unfold rest in *.
  destruct (after_name_head p) as [Ea | [q Ea]]; rewrite Ea in *; [done |]. rewrite len_cons in E. simpl in *. rewrite ?Z.eqb_refl in *.
  pose proof (skip_slashes_length q). unfold len in *. lia.
Qed.

Section Plain.
Context (t : ns_table) (c : cred) (mounts : list mount) (root_path : option (list Z)) (rc : list (list Z)).
Context (Hroot : starts_at root_path rc).

(** It does not read as a link. *)
Definition no_link (cs : list (list Z)) : Prop :=
  exists fs tr, find_mount_and_trim_path mounts (render cs) = Some (fs, tr) /\ path_is_normalized tr = true /\
    (forall f room, fs_readlink fs = Some f -> exists e, f tr room = inl e).

(** The names of [p], from [cs], lead over directories the caller may search
    to something that is not a link, and to a directory if a slash follows. *)
Definition plain_way (cs : list (list Z)) (p : list Z) : Prop :=
  forall ns x more, names p = ns ++ x :: more -> name_ok x ->
    let at_ := fold_left (lex_step rc) (ns ++ [x]) cs in
    no_link at_ /\ (more <> [] \/ path_trailing_slash p = true -> searchable t c mounts (render at_)).

Lemma plain_name flags levels cs p s :
  no_link (cs ++ [name_of p]) -> (after_name p <> [] -> searchable t c mounts (render (cs ++ [name_of p]))) ->
  (flags = N_SYMLINK_FOLLOW \/ flags = N_SYMLINK_NOFOLLOW) -> Forall name_ok cs -> name_ok (name_of p) ->
  STAGING_NAME ∉ cs -> name_of p <> STAGING_NAME -> w_p s = p -> w_out s = render cs -> w_n s = MAX_PATH - 1 - len (render cs) ->
  len (render cs) + 1 + len (name_of p) <= MAX_PATH - 2 ->
  exists prev, walk_name t c mounts root_path flags levels s =
    Next (mk_ws (rest p) prev (render (cs ++ [name_of p])) (MAX_PATH - 1 - len (render (cs ++ [name_of p])))).
Proof.
  intros (fs & tr & Ef & Et & Er) Hse Hfl Hcs Hx Hst Hsn Hp Ho Hn Hfit. unfold walk_name. rewrite Hp, Ho, Hn.
  set (n := MAX_PATH - 1 - len (render cs) - 1).
  destruct (copy_whole p (w_prev s) (render cs ++ [SLASH]) n ltac:(unfold n; lia)) as (prev & -> & _ & Hprev).
  destruct (Hprev (no_nonempty _ Hx)) as (a & -> & Ha). cbn [w_p w_prev w_out w_n]. rewrite skip_after. cbv beta iota zeta. cbn [w_out w_n].
  assert ((render cs ++ [SLASH]) ++ name_of p = render (cs ++ [name_of p])) as -> by (rewrite render_app, render_one, <- app_assoc; done).
  assert (len (render (cs ++ [name_of p])) = len (render cs) + 1 + len (name_of p)) as Hl by (rewrite render_app, render_one, len_app, len_cons; lia).
  assert (Forall name_ok (cs ++ [name_of p])) as Hall by (by apply Forall_app; auto).
  destruct (no_staging (cs ++ [name_of p]) Hall) as (S1 & S2 & S3).
  { intros Hin. apply elem_of_app in Hin as [Hin | Hin]; [done |]. apply list_elem_of_singleton in Hin. congruence. }
  assert (n - len (name_of p) = MAX_PATH - 1 - len (render (cs ++ [name_of p]))) as -> by (unfold n; lia).
  destruct (Z.gtb_spec (len (render (cs ++ [name_of p]))) MAX_PATH); [lia |].
  destruct (Z.eqb_spec (MAX_PATH - 1 - len (render (cs ++ [name_of p]))) 0); [lia |].
  unfold str_eqb. rewrite (bool_decide_eq_false_2 (render (cs ++ [name_of p]) = MOUNT_STAGING_DIR)) by done. rewrite S1, !andb_false_r. cbn [andb].
  assert (forall m, m = N_NO_XDEV \/ m = N_SLASH_EISDIR \/ m = N_PARENT_ONLY -> has_flag flags m = false) as Hno.
  { intros m [-> | [-> | ->]]; destruct Hfl as [-> | ->]; reflexivity. }
  rewrite (Hno N_NO_XDEV), (Hno N_SLASH_EISDIR), (Hno N_PARENT_ONLY) by auto. rewrite !andb_false_r. cbn [andb negb].
  set (prev2 := match after_name p with [] => Some a | _ :: _ => Some SLASH end).
  destruct (has_flag flags N_SYMLINK_FOLLOW || _ || _); [| by eexists].
  unfold walk_lookup. cbn [w_out w_p w_prev].
  destruct (Z.geb_spec (len (render (cs ++ [name_of p]))) MAX_PATH); [lia |]. rewrite (normalized_render _ Hall), Ef, Et. cbn [negb].
  assert (exists e, match fs_readlink fs with Some f => f tr (MAX_PATH - (len (render cs) + 1)) | None => inl _EINVAL end = inl e) as [e ->].
  { destruct (fs_readlink fs) as [f |] eqn:Efs; [by apply Er | by eexists]. }
  unfold prev2. destruct (after_name p) as [| b q]; [rewrite (proj2 (Z.eqb_neq _ _) Ha); by eexists |]. rewrite Z.eqb_refl. cbn [negb].
  destruct (Hse ltac:(done)) as (fs' & tr' & st & Ef' & Es & Ed & Eac). rewrite Ef in Ef'. injection Ef' as <- <-.
  rewrite Es, Ed. cbn [negb]. destruct (Z.ltb_spec (access_check t c st AC_X) 0); [lia |]. destruct (rest p); by eexists.
Qed.

Lemma lex_ok cs x : Forall name_ok cs -> x <> [] -> SLASH ∉ x -> Forall name_ok (lex_step rc cs x).
Proof.
  intros Hcs Hne Hns. unfold lex_step. destruct (decide (x = [DOT])); [done |]. destruct (decide (x = [DOT; DOT])).
  - destruct (decide (cs = rc)); [done |]. destruct cs as [| y cs _] using rev_ind; [constructor |]. rewrite removelast_last. by apply Forall_app in Hcs as [? _].
  - apply Forall_app. split; [done |]. by repeat constructor.
Qed.

(** A turn, by the name it reads. *)
Lemma turn_cases flags levels p s :
  p <> [] -> no_lead p -> w_p s = p ->
  walk_turn t c mounts root_path flags levels s =
    if decide (name_of p = [DOT]) then let '(q, prev) := skip (after_name p) (Some DOT) in Next (mk_ws q prev (w_out s) (w_n s))
    else if decide (name_of p = [DOT; DOT]) then walk_dotdot mounts root_path flags s (after_name p)
    else walk_name t c mounts root_path flags levels s.
Proof.
  intros Hp Hl Ep. unfold walk_turn. rewrite Ep. destruct p as [| a q]; [done |]. simpl in Hl. cbn [name_of after_name].
  destruct (Z.eqb_spec a SLASH); [done |]. destruct (Z.eqb_spec a DOT) as [-> | Ha]; cycle 1.
  { cbn [andb]. do 2 (rewrite decide_False by congruence). by destruct q. }
  cbn [andb]. destruct (ends_name q) eqn:E1; [apply ends_name_spec in E1 as [-> ->]; done |]. apply ends_name_false in E1.
  rewrite decide_False by congruence. destruct q as [| b q']; [done |]. cbn [name_of after_name] in *. destruct (Z.eqb_spec b SLASH); [done |].
  destruct (Z.eqb_spec b DOT) as [-> | Hb]; [| by rewrite decide_False by congruence]. cbn [andb].
  destruct (ends_name q') eqn:E2; [apply ends_name_spec in E2 as [-> ->]; done |]. apply ends_name_false in E2. by rewrite decide_False by congruence.
Qed.

Lemma plain_dotdot flags cs p s :
  (flags = N_SYMLINK_FOLLOW \/ flags = N_SYMLINK_NOFOLLOW) -> Forall name_ok cs -> STAGING_NAME ∉ cs ->
  w_out s = render cs -> w_n s = MAX_PATH - 1 - len (render cs) ->
  let cs' := if decide (cs = rc) then cs else removelast cs in
  exists prev, walk_dotdot mounts root_path flags s (after_name p) = Next (mk_ws (rest p) prev (render cs') (MAX_PATH - 1 - len (render cs'))).
Proof using Hroot.
  intros Hfl Hcs Hst Ho Hn. unfold walk_dotdot. rewrite skip_after, Ho, Hn. rewrite (root_is _ _ Hroot).
  destruct (no_staging cs Hcs Hst) as (_ & -> & _). cbn [negb Z.eqb andb]. rewrite !orb_false_r.
  assert (has_flag flags N_BENEATH = false) as -> by (destruct Hfl as [-> | ->]; reflexivity).
  assert (has_flag flags N_NO_XDEV = false) as -> by (destruct Hfl as [-> | ->]; reflexivity). cbn [andb]. rewrite !len_zero. unfold str_eqb.
  destruct (decide (cs = rc)) as [E | E].
  - rewrite E, Z.eqb_refl, (bool_decide_eq_true_2 (render rc = render rc)) by done. case_bool_decide; by eexists.
  - rewrite (bool_decide_eq_false_2 (render cs = render rc)), andb_false_r by (intros E'; apply E; by apply render_inj; [| apply Hroot |]).
    destruct cs as [| x cs0 _] using rev_ind; [by eexists |]. rewrite removelast_last. apply Forall_app in Hcs as [_ Hx]. apply Forall_cons in Hx as [Hx _].
    rewrite (bool_decide_eq_false_2 (render (cs0 ++ [x]) = [])) by (rewrite render_app, render_one; by destruct (render cs0)). cbn [negb andb].
    rewrite pop_render by apply Hx. eexists. do 2 f_equal. lia.
Qed.

Lemma plain_down cs x : x <> [DOT] -> x <> [DOT; DOT] -> fold_left (lex_step rc) ([] ++ [x]) cs = cs ++ [x].
Proof. intros. simpl. unfold lex_step. by rewrite !decide_False. Qed.

Lemma slash_more p : after_name p <> [] -> names (rest p) <> [] \/ path_trailing_slash p = true.
Proof.
  intros Ha. destruct (decide (rest p = [])) as [E | E]; [right | left].
  - assert (forall q, skip_slashes q = [] -> q <> [] -> last q = Some SLASH) as Hall.
    { induction q as [| b q IH]; simpl; [done |]. destruct (Z.eqb_spec b SLASH) as [-> |]; [| done]. intros Hq _. destruct q as [| d q]; [done | by apply IH]. }
    unfold path_trailing_slash. rewrite (name_after p), last_app, (Hall (after_name p)) by done. done.
  - rewrite names_step; [done | done | apply skip_no_lead].
Qed.

Lemma plain_turn flags levels cs p s :
  plain_way cs p -> (flags = N_SYMLINK_FOLLOW \/ flags = N_SYMLINK_NOFOLLOW) -> Forall name_ok cs -> p <> [] -> no_lead p ->
  STAGING_NAME ∉ cs -> name_of p <> STAGING_NAME -> w_p s = p -> w_out s = render cs -> w_n s = MAX_PATH - 1 - len (render cs) ->
  len (render cs) + 1 + len p <= MAX_PATH - 2 ->
  let cs' := lex_step rc cs (name_of p) in
  exists prev, walk_turn t c mounts root_path flags levels s = Next (mk_ws (rest p) prev (render cs') (MAX_PATH - 1 - len (render cs'))).
Proof using Hroot.
  intros Hpl Hfl Hcs Hp Hl Hst Hsn Ep Ho Hn Hfit cs'. destruct (rest_shorter p Hp Hl) as [_ Hne].
  pose proof (name_of_no_slash p) as Hns. pose proof (f_equal len (name_after p)) as Elen. rewrite len_app in Elen. pose proof (len_nonneg (after_name p)).
  rewrite (turn_cases flags levels p s Hp Hl Ep). unfold cs', lex_step. destruct (decide (name_of p = [DOT])) as [Ed | Ed].
  { rewrite skip_after, Ho, Hn. by eexists. }
  destruct (decide (name_of p = [DOT; DOT])) as [Edd | Edd]; [by apply plain_dotdot |].
  destruct (Hpl [] (name_of p) (names (rest p))) as [Hnl Hse]; [by apply names_step | done |]. rewrite plain_down in Hnl, Hse by done.
  apply plain_name; try done; [| lia]. intros Ha. apply Hse. by apply slash_more.
Qed.
(** What is left keeps the way plain. *)
Lemma last_skip q : skip_slashes q <> [] -> last (skip_slashes q) = last q.
Proof. induction q as [| b q IH]; simpl; [done |]. destruct (Z.eqb_spec b SLASH); [| done]. intros Hq. rewrite IH by done. by destruct q. Qed.

Lemma trailing_rest p : rest p <> [] -> path_trailing_slash (rest p) = path_trailing_slash p.
Proof.
  intros Hr. unfold path_trailing_slash. rewrite (name_after p) at 2. unfold rest in *.
  rewrite last_skip, last_app by done. destruct (after_name p) as [| b q] eqn:E; [done |]. by destruct (last (b :: q)) eqn:El; [| apply last_None in El].
Qed.

Lemma plain_rest cs p : p <> [] -> no_lead p -> plain_way cs p -> plain_way (lex_step rc cs (name_of p)) (rest p).
Proof.
  intros Hp Hl Hpl ns x more En Hx. specialize (Hpl (name_of p :: ns) x more). rewrite names_step, En in Hpl by done.
  specialize (Hpl eq_refl Hx). simpl in Hpl. destruct Hpl as [H1 H2]. split; [done |]. intros [Hm | Ht]; [by apply H2; left |].
  apply H2. right. rewrite <- trailing_rest; [done |]. intros E. rewrite E in Ht. done.
Qed.

Lemma lex_length cs x : len (render (lex_step rc cs x)) <= len (render cs) + 1 + len x.
Proof.
  unfold lex_step. pose proof (len_nonneg x). destruct (decide (x = [DOT])); [lia |]. destruct (decide (x = [DOT; DOT])).
  - destruct (decide (cs = rc)); [lia |]. destruct cs as [| y cs _] using rev_ind; [simpl; lia |]. rewrite removelast_last, render_app, len_app.
    pose proof (len_nonneg (render [y])). lia.
  - rewrite render_app, render_one, len_app, len_cons. lia.
Qed.

Lemma lex_no_staging cs x : STAGING_NAME ∉ cs -> x <> STAGING_NAME -> STAGING_NAME ∉ lex_step rc cs x.
Proof.
  intros Hcs Hx. unfold lex_step. destruct (decide (x = [DOT])); [done |]. destruct (decide (x = [DOT; DOT])).
  - destruct (decide (cs = rc)); [done |]. destruct cs as [| y cs _] using rev_ind; [done |]. rewrite removelast_last.
    intros Hin. apply Hcs. apply elem_of_app. by left.
  - intros Hin. apply elem_of_app in Hin as [Hin | Hin]; [done |]. apply list_elem_of_singleton in Hin. congruence.
Qed.

Lemma plain_loop fuel flags levels cs s :
  plain_way cs (w_p s) -> (flags = N_SYMLINK_FOLLOW \/ flags = N_SYMLINK_NOFOLLOW) -> Forall name_ok cs -> no_lead (w_p s) ->
  STAGING_NAME ∉ cs -> STAGING_NAME ∉ names (w_p s) -> w_out s = render cs -> w_n s = MAX_PATH - 1 - len (render cs) ->
  len (render cs) <= MAX_PATH - 2 -> (w_p s <> [] -> len (render cs) + 1 + len (w_p s) <= MAX_PATH - 2) -> (List.length (w_p s) < fuel)%nat ->
  walk_loop t c mounts root_path fuel flags levels s = Stop (Path (render (fold_left (lex_step rc) (names (w_p s)) cs))).
Proof using Hroot.
  revert cs s. induction fuel as [| fuel IH]; intros cs s Hpl Hfl Hcs Hl Hst Hsn Ho Hn Hlen Hfit Hf; [lia |]. cbn [walk_loop].
  destruct (w_p s) as [| a q] eqn:Ep.
  { rewrite Ho, (normalized_render cs Hcs). destruct (Z.geb_spec (len (render cs)) MAX_PATH); [lia |]. done. }
  set (p := a :: q) in *. assert (p <> []) as Hp by done. specialize (Hfit Hp). destruct (rest_shorter p Hp Hl) as [Hlt Hne].
  rewrite (names_step p Hp Hl) in *. apply not_elem_of_cons in Hsn as [Hx Hsn].
  destruct (plain_turn flags levels cs p s) as [prev ->]; try done. cbn [fold_left].
  pose proof (lex_length cs (name_of p)). pose proof (f_equal len (name_after p)) as El. rewrite len_app in El. pose proof (len_nonneg (after_name p)).
  apply IH; cbn [w_p w_out w_n]; try done.
  - by apply plain_rest.
  - apply lex_ok; [done | done | apply name_of_no_slash].
  - apply skip_no_lead.
  - by apply lex_no_staging.
  - lia.
  - intros Hr. pose proof (rest_length p Hr). lia.
  - simpl in Hf, Hlt. unfold p in *. simpl in *. lia.
Qed.

Lemma plain_normalize links flags at_path path ac :
  starts_at at_path ac -> plain_way ac path -> (flags = N_SYMLINK_FOLLOW \/ flags = N_SYMLINK_NOFOLLOW) -> path <> [] ->
  STAGING_NAME ∉ ac -> STAGING_NAME ∉ names path -> len (render ac) + 1 + len path <= MAX_PATH - 2 ->
  path_normalize_at t c mounts root_path links at_path path flags = Path (render (fold_left (lex_step rc) (names path) ac)).
Proof using Hroot.
  intros (Ea & Hac & _) Hpl Hfl Hp Hst Hsn Hfit. assert (flags_ok flags = true) as Hok by (destruct Hfl as [-> | ->]; reflexivity).
  pose proof (len_nonneg path). assert (len (skip_slashes path) <= len path) as Hsk by (pose proof (skip_slashes_length path); unfold len; lia).
  assert (walk_loop t c mounts root_path (List.length (w_p (walk_start at_path path)) + 3) flags (MAX_SYMLINKS - Z.of_nat links) (walk_start at_path path)
    = Stop (Path (render (fold_left (lex_step rc) (names path) ac)))) as E.
  { rewrite <- (names_skip path). unfold walk_start, skip. rewrite Ea. apply plain_loop; cbn [w_p w_out w_n]; try done; try lia.
    - intros ns x more En Hx. rewrite names_skip in En. destruct (Hpl ns x more En Hx) as [H1 H2]. split; [done |]. intros [Hm | Ht]; [by apply H2; left |].
      apply H2. right. rewrite <- Ht. symmetry. unfold path_trailing_slash. rewrite last_skip; [done |].
      intros E. rewrite E in Ht. done.
    - apply skip_no_lead.
    - by rewrite names_skip. }
  assert (len (w_out (walk_start at_path path)) < MAX_PATH) as Hw by (unfold walk_start, skip; rewrite Ea; cbn [w_out]; lia).
  destruct links; cbn [path_normalize_at]; rewrite Hok; (destruct path; [done |]); cbv zeta;
    (destruct (Z.geb_spec (len (w_out (walk_start at_path (z :: path)))) MAX_PATH); [lia |]); by rewrite E.
Qed.
End Plain.
