(* ===== verification/PathCorrect.v ===== *)
(** * Theorems about path_normalize (fs/path.c)

    [path_normalize] chooses a root and a start for the walk of
    __path_normalize and checks the start; the theorems here carry what
    PathSound.v and PathLexical.v prove about the walk to it. *)

From Stdlib Require Import ZifyBool Sorted.
From S2P Require Import Prelude User UserNs Creds FsAccess Path PathSound PathLexical.

(** ** The root and the start of a resolution *)

(** Whether the directory argument is also the root: RESOLVE_IN_ROOT, RESOLVE_BENEATH. *)
Definition scoped (flags : Z) : bool := has_flag flags (N_IN_ROOT .| N_BENEATH).
Definition arg_dir (fi : fs_info) (at_ : at_arg) : option dirfd := match at_ with AtFd d => Some d | _ => fi_pwd fi end.
Definition root_dir (fi : fs_info) (at_ : at_arg) (flags : Z) : option dirfd :=
  if scoped flags then arg_dir fi at_ else if has_flag flags N_REALROOT then None else fi_root fi.
Definition first_dir (fi : fs_info) (at_ : at_arg) (path : list Z) (flags : Z) : option dirfd :=
  if negb (scoped flags) && is_slash (head path) then root_dir fi at_ flags else arg_dir fi at_.

(** The directory has these components. *)
Definition dir_names (d : option dirfd) (cs : list (list Z)) : Prop :=
  match d with None => cs = [] | Some d => exists p, fd_path d = inr p /\ starts_at (Some p) cs end.

Lemma arrived_cases t c mounts path out flags : (exists e, path_arrived t c mounts path out flags = Err e) \/ path_arrived t c mounts path out flags = Path out.
Proof. unfold path_arrived. repeat case_match; eauto. Qed.

Lemma starts_normalized p cs : starts_at (Some p) cs -> path_is_normalized p = true.
Proof.
  intros (E & Hcs & _). unfold str_eqb in E. case_bool_decide as Hp; [by rewrite Hp |]. rewrite E. by apply normalized_render.
Qed.

(** The function with its choices named. *)
Lemma normalize_eq t c mounts fi at_ first q flags :
  at_ <> AtNull ->
  path_normalize t c mounts fi at_ (first :: q) flags =
    if has_flag flags N_BENEATH && (first =? SLASH) then Err _EXDEV else
    match (match first_dir fi at_ (first :: q) flags with None => inr None
           | Some d => match start_dir t c d (negb (first =? SLASH) || scoped flags) (match skip_slashes (first :: q) with [] => false | _ => true end)
                       with inl e => inl e | inr p => inr (Some p) end end) with
    | inl err => Err err
    | inr at_path =>
        match (match root_dir fi at_ flags with None => inr None | Some d => match fd_path d with inl e => inl e | inr p => inr (Some p) end end) with
        | inl err => Err err
        | inr root_path =>
            if match root_path with Some r => negb (path_is_normalized r) | None => false end then Fault else
            match path_normalize_at t c mounts root_path (Z.to_nat MAX_SYMLINKS) at_path (first :: q) flags with
            | Path out => path_arrived t c mounts (first :: q) out flags
            | r => r
            end
        end
    end.
Proof.
  intros Hat. unfold path_normalize, first_dir, root_dir, arg_dir. cbn [head is_slash].
  change (has_flag flags (N_IN_ROOT .| N_BENEATH)) with (scoped flags).
  destruct at_; [done | |]; destruct (has_flag flags N_BENEATH && (first =? SLASH)); try done; destruct (scoped flags), (first =? SLASH); reflexivity.
Qed.

Lemma dir_names_ok d cs : dir_names d cs -> Forall name_ok cs /\ len (render cs) <= MAX_PATH - 1.
Proof. destruct d as [d |]; simpl; [intros (p & _ & _ & H); done | intros ->; apply starts_nil]. Qed.

Lemma start_dir_ok t c d check_dir descends p st :
  start_dir t c d check_dir descends = inr p -> fd_stat d = Some st -> check_dir = true ->
  S_ISDIR (st_mode st) = true /\ (descends = true -> 0 <= access_check t c st AC_X).
Proof.
  unfold start_dir. intros E Est ->. rewrite Est in E. destruct (fd_path d); [done |]. destruct (negb _); [done |].
  destruct (S_ISDIR (st_mode st)); [| done]. split; [done |]. intros ->. destruct (Z.ltb_spec (access_check t c st AC_X) 0); [done | lia].
Qed.

Section Correct.
Context (t : ns_table) (c : cred) (mounts : list mount) (fi : fs_info) (at_ : at_arg) (path : list Z) (flags : Z).
Context (rc ac : list (list Z)).
Context (Hroot : dir_names (root_dir fi at_ flags) rc) (Hfirst : dir_names (first_dir fi at_ path flags) ac).

Lemma root_chosen : exists root_path,
  match root_dir fi at_ flags with None => inr None | Some d => match fd_path d with inl e => inl e | inr p => inr (Some p) end end = inr root_path /\
  starts_at root_path rc /\ match root_path with Some r => negb (path_is_normalized r) | None => false end = false.
Proof using Hroot.
  destruct (root_dir fi at_ flags) as [d |]; cbn [dir_names] in Hroot.
  - destruct Hroot as (p & -> & Hst). exists (Some p). split; [done |]. split; [done |]. by rewrite (starts_normalized p rc).
  - exists None. rewrite Hroot. split; [done |]. split; [apply starts_nil | done].
Qed.

(** A usable start is used. *)
Lemma normalize_walks :
  at_ <> AtNull -> path <> [] -> has_flag flags N_BENEATH = false ->
  (forall d st, first_dir fi at_ path flags = Some d -> fd_stat d = Some st -> S_ISDIR (st_mode st) = true /\ 0 <= access_check t c st AC_X) ->
  exists root_path at_path, starts_at root_path rc /\ starts_at at_path ac /\
    path_normalize t c mounts fi at_ path flags =
      match path_normalize_at t c mounts root_path (Z.to_nat MAX_SYMLINKS) at_path path flags with
      | Path out => path_arrived t c mounts path out flags | r => r end.
Proof using Hroot Hfirst.
  intros Hat Hne Hb Hst. destruct path as [| first q]; [done |]. rewrite normalize_eq, Hb by done. cbn [andb].
  destruct root_chosen as (root_path & -> & Hr & ->). destruct (first_dir fi at_ (first :: q) flags) as [d |] eqn:Ed; cbn [dir_names] in Hfirst.
  - destruct Hfirst as (p & Ep & Hp). exists root_path, (Some p). split; [done |]. split; [done |].
    assert (start_dir t c d (negb (first =? SLASH) || scoped flags) (match skip_slashes (first :: q) with [] => false | _ => true end) = inr p) as ->; [| done].
    unfold start_dir. rewrite Ep, (starts_normalized p ac Hp). cbn [negb]. destruct (_ || scoped flags); [| done].
    destruct (fd_stat d) as [st |] eqn:Es; [| done]. destruct (Hst d st eq_refl Es) as [-> Hx]. cbn [negb].
    destruct (match skip_slashes _ with [] => false | _ => true end); [| done]. by destruct (Z.ltb_spec (access_check t c st AC_X) 0); [lia |].
  - exists root_path, None. rewrite Hfirst. split; [done |]. split; [apply starts_nil | done].
Qed.

(** It answers an error, or what the walk from [ac] under [rc] answers. *)
Lemma normalize_cases :
  (exists e, path_normalize t c mounts fi at_ path flags = Err e) \/
  exists root_path at_path, starts_at root_path rc /\ starts_at at_path ac /\ path <> [] /\
    path_normalize t c mounts fi at_ path flags =
      match path_normalize_at t c mounts root_path (Z.to_nat MAX_SYMLINKS) at_path path flags with
      | Path out => path_arrived t c mounts path out flags | r => r end.
Proof using Hroot Hfirst.
  assert (at_ = AtNull \/ at_ <> AtNull) as [E | Hat] by (destruct at_; auto); [rewrite E; left; by eexists |]. destruct path as [| first q] eqn:Ep.
  { left. exists _ENOENT. by destruct at_. }
  rewrite normalize_eq by done. destruct (_ && (first =? SLASH)); [left; by eexists |].
  destruct (first_dir fi at_ (first :: q) flags) as [d |] eqn:Ed; cbn [dir_names] in Hfirst.
  - destruct Hfirst as (p & Ed' & Hst). destruct (start_dir t c d _ _) as [e | p'] eqn:Es; [left; by eexists |].
    assert (p' = p) as -> by (unfold start_dir in Es; rewrite Ed' in Es; repeat case_match; by simplify_eq).
    destruct root_chosen as (root_path & -> & Hr & ->). right. exists root_path, (Some p). done.
  - destruct root_chosen as (root_path & -> & Hr & ->). right. exists root_path, None. rewrite Hfirst. split; [done |]. split; [apply starts_nil | done].
Qed.

(** An invariant of the states the walks pass. *)
Lemma normalize_all (R : list (list Z) -> list Z -> Prop) :
  (forall root_path, starts_at root_path rc ->
     (forall cs p cs' p', R cs p -> moved t c mounts root_path (cs, p) (cs', p') -> p <> [] -> R cs' p') /\
     (forall cs p at' path', walk_good cs p -> R cs p -> p <> [] -> follows mounts root_path cs p at' path' ->
        exists ac', starts_at at' ac' /\ R ac' (skip_slashes path'))) ->
  R ac (skip_slashes path) ->
  match path_normalize t c mounts fi at_ path flags with
  | Path out => exists cs, out = render cs /\ walk_good cs [] /\ R cs []
  | Err _ => True
  | Fault => flags_ok flags = false \/
      exists root_path cs p, starts_at root_path rc /\ walk_good cs p /\ R cs p /\ p <> [] /\ overrun mounts root_path cs p
  | OutOfFuel => False
  end.
Proof using Hroot Hfirst.
  intros HR Hac. destruct normalize_cases as [[e ->] | (root_path & at_path & Hr & Hat & Hne & ->)]; [done |].
  destruct (HR root_path Hr) as [Hmove Hfol].
  pose proof (normalize_ind t c mounts root_path (fun a p => exists ac', starts_at a ac' /\ R ac' (skip_slashes p)) R (fun a p H => H)
    Hmove Hfol (Z.to_nat MAX_SYMLINKS) at_path path flags ltac:(by exists ac) ltac:(lia)) as H.
  destruct (path_normalize_at _ _ _ _ _ _ _ _) as [out | e | |]; [| done | | done].
  - destruct (arrived_cases t c mounts path out flags) as [[e ->] | ->]; done.
  - destruct H as [H | (cs & p & H)]; [by left | right; by exists root_path, cs, p].
Qed.
End Correct.

(** ** Theorems *)

Section Theorems.
Context (t : ns_table) (c : cred) (mounts : list mount) (fi : fs_info) (at_ : at_arg) (path : list Z) (flags : Z) (rc ac : list (list Z)).


Lemma passed_all (Hroot : dir_names (root_dir fi at_ flags) rc) (Hfirst : dir_names (first_dir fi at_ path flags) ac) :
  match path_normalize t c mounts fi at_ path flags with
  | Path out => exists cs, out = render cs /\ walk_good cs [] /\ passed t c mounts rc ac cs []
  | Err _ => True
  | Fault => flags_ok flags = false \/ exists root_path cs p, starts_at root_path rc /\ walk_good cs p /\ passed t c mounts rc ac cs p /\ p <> [] /\
      overrun mounts root_path cs p
  | OutOfFuel => False
  end.
Proof using All.
  apply (normalize_all t c mounts fi at_ path flags rc ac); [done | done | |].
  - intros root_path Hr. split; [intros cs p cs' p' Hi Hm Hp; by eapply passed_moved |]. intros cs p at' path' Hg Hi Hp Hf. by eapply passed_follows.
  - split; [intros pre Hpre _ | intros _]; by left.
Qed.

(** What path_normalize answers is a path of names, none of them `.`, `..`
    or empty, that fits its buffer; every directory above its last name is one
    the caller may search, is on the way to the root or the start, or is the
    directory of detached mounts; and a start given by a descriptor is a
    directory, which the caller may search if anything is looked up in it. *)
Theorem path_searched (Hroot : dir_names (root_dir fi at_ flags) rc) (Hfirst : dir_names (first_dir fi at_ path flags) ac) (out : list Z) :
  path_normalize t c mounts fi at_ path flags = Path out ->
  (exists cs, out = render cs /\ Forall name_ok cs /\ len out < MAX_PATH /\
     forall pre, pre `prefix_of` cs -> pre <> cs -> passable t c mounts rc ac pre) /\
  (forall d st, first_dir fi at_ path flags = Some d -> fd_stat d = Some st -> is_slash (head path) = false \/ scoped flags = true ->
     S_ISDIR (st_mode st) = true /\ (skip_slashes path <> [] -> 0 <= access_check t c st AC_X)).
Proof using All.
  intros E. split.
  - pose proof (passed_all Hroot Hfirst) as H. rewrite E in H. destruct H as (cs & -> & (Hcs & _ & Hl) & Hp & _). exists cs. split; [done |]. split; [done |]. split; [lia | done].
  - intros d st Ed Est Hrel. assert (at_ <> AtNull) as Hat by (by intros ->). destruct path as [| first q]; [by destruct at_ |].
    rewrite normalize_eq, Ed in E by done. cbn [head is_slash] in Hrel. destruct (_ && (first =? SLASH)); [done |].
    destruct (start_dir t c d _ _) as [e | p] eqn:Es; [done |]. apply start_dir_ok with (st := st) in Es as [Hd Hx]; [| done | by destruct Hrel as [-> | ->]; rewrite ?orb_true_r].
    split; [done |]. intros Hne. apply Hx. by destruct (skip_slashes (first :: q)).
Qed.


(** C35: no access outside a buffer and no failed assertion, whatever the path,
    if no searchable directory has a path that leaves less than two bytes of the
    buffer, no link's text fills it from the path of its directory on, and binds
    are of directories. *)
Theorem path_in_buffer (Hroot : dir_names (root_dir fi at_ flags) rc) (Hfirst : dir_names (first_dir fi at_ path flags) ac)
  (Hflags : flags_ok flags = true) (Hrl : len (render rc) < MAX_PATH - 2) (Hal : len (render ac) < MAX_PATH - 2)
  (Hshort : short_names t c mounts) (Hfit : links_fit mounts) (Hbinds : binds_ok mounts) :
  path_normalize t c mounts fi at_ path flags <> Fault.
Proof using All.
  intros E. pose proof (normalize_all t c mounts fi at_ path flags rc ac Hroot Hfirst (fun cs p => p <> [] -> len (render cs) < MAX_PATH - 2)) as H. rewrite E in H.
  destruct H as [H | (root_path & cs & p & Hr & (Hcs & _) & HR & Hp & Ho)].
  - intros root_path Hr. split.
    + intros cs p cs' p' HR Hm Hp Hp'. specialize (HR Hp). by apply (short_moved t c mounts root_path cs p cs' p').
    + intros cs p at' path' (Hcs & _ & Hl) HR Hp Hf. specialize (HR Hp). destruct Hf; [exists rc | exists [] | exists cs | exists []];
        (split; [try apply starts_nil; try apply starts_render; done |]); intros _; try done; reflexivity.
  - done.
  - congruence.
  - specialize (HR Hp). destruct Ho as [Ho | [(fs & text & Hl & Ho) | [(fs & tr & Hx & Hf & Ho) | Ho]]].
    + lia.
    + pose proof (Hfit _ _ _ _ Hl) as Hlt. simpl in Hlt. lia.
    + rewrite (trim_normalized mounts (cs ++ [name_of p]) fs tr) in Ho; [done | done | | done]. by apply Forall_app; auto.
    + rewrite (root_is root_path rc Hr), normalized_render in Ho by apply Hr. done.
Qed.

(** C33: where no name of the path is a link and every one it passes is a
    directory the caller may search, path_normalize resolves it lexically:
    `.` stays, `..` drops the last name unless the walk stands at the root,
    every other name is added. *)
Theorem path_lexical (Hroot : dir_names (root_dir fi at_ flags) rc) (Hfirst : dir_names (first_dir fi at_ path flags) ac)
  (Hat : at_ <> AtNull) (Hflags : flags = N_SYMLINK_FOLLOW \/ flags = N_SYMLINK_NOFOLLOW) (Hne : path <> [])
  (Hstart : forall d st, first_dir fi at_ path flags = Some d -> fd_stat d = Some st -> S_ISDIR (st_mode st) = true /\ 0 <= access_check t c st AC_X)
  (Hplain : plain_way t c mounts rc ac path) (Hst : STAGING_NAME ∉ ac ++ names path) (Hlen : len (render ac) + 1 + len path <= MAX_PATH - 2) :
  path_normalize t c mounts fi at_ path flags = Path (render (fold_left (lex_step rc) (names path) ac)).
Proof using All.
  destruct (normalize_walks t c mounts fi at_ path flags rc ac Hroot Hfirst Hat Hne) as (root_path & at_path & Hr & Ha & ->).
  { by destruct Hflags as [-> | ->]. }
  { done. }
  apply not_elem_of_app in Hst as [Hs1 Hs2]. rewrite (plain_normalize t c mounts root_path rc Hr _ _ _ _ ac) by done.
  by destruct Hflags as [-> | ->].
Qed.
End Theorems.

(** ** The mount a path is on *)

(** Longest points first. *)
Definition longest_first : list mount -> Prop := StronglySorted (fun a b => len (mt_point b) <= len (mt_point a)).

Lemma insert_cons x l m :
  mount_list_insert (x :: l) m = if len (mt_point x) <=? len (mt_point m) then m :: x :: l else x :: mount_list_insert l m.
Proof. unfold mount_list_insert. simpl. by destruct (_ <=? _). Qed.

Lemma elem_insert l m y : y ∈ mount_list_insert l m -> y = m \/ y ∈ l.
Proof.
  induction l as [| x l IH]; [simpl; rewrite list_elem_of_singleton; auto |]. rewrite insert_cons. destruct (_ <=? _); rewrite !elem_of_cons; [tauto |].
  intros [-> | H]; [auto |]. destruct (IH H); auto.
Qed.

Lemma insert_sorted l m : longest_first l -> longest_first (mount_list_insert l m).
Proof.
  induction 1 as [| x l Hs IH Hx]; [repeat constructor |]. rewrite insert_cons. destruct (Z.leb_spec (len (mt_point x)) (len (mt_point m))).
  - constructor; [by constructor |]. constructor; [done |]. eapply Forall_impl; [exact Hx |]. simpl. lia.
  - constructor; [done |]. apply Forall_forall. intros y Hy. apply elem_insert in Hy as [-> | Hy]; [lia |]. by eapply Forall_forall in Hx.
Qed.

Lemma find_insert l m path : longest_first l ->
  mount_find (mount_list_insert l m) path =
    match mount_find l path with
    | Some x => if on_mount path m && (len (mt_point x) <=? len (mt_point m)) then Some m else Some x
    | None => if on_mount path m then Some m else None
    end.
Proof.
  unfold mount_find. induction 1 as [| x l Hs IH Hx]; [simpl; by destruct (on_mount path m) |]. rewrite insert_cons.
  destruct (Z.leb_spec (len (mt_point x)) (len (mt_point m))); cbn [List.find]; destruct (on_mount path x) eqn:Ex.
  - destruct (on_mount path m); [| done]. by destruct (Z.leb_spec (len (mt_point x)) (len (mt_point m))); [| lia].
  - destruct (on_mount path m); [| by destruct (List.find (on_mount path) l)]. destruct (List.find (on_mount path) l) as [y |] eqn:Ey; [| done].
    apply List.find_some in Ey as [Hin _]. eapply List.Forall_forall in Hx; [| exact Hin]. destruct (Z.leb_spec (len (mt_point y)) (len (mt_point m))); [done | lia].
  - destruct (Z.leb_spec (len (mt_point x)) (len (mt_point m))); [lia |]. by rewrite andb_false_r.
  - apply IH.
Qed.

Lemma mounts_sorted ms : longest_first (fold_left mount_list_insert ms []).
Proof.
  assert (forall l, longest_first l -> longest_first (fold_left mount_list_insert ms l)) as H; [| apply H; constructor].
  induction ms as [| m ms IH]; intros l Hl; [done |]. by apply IH, insert_sorted.
Qed.

(** After any sequence of mounts, a path is on the deepest one whose point
    is the path or a directory above it, and of several at the same point on
    the last one mounted; it is on none only if there is no such point. *)
Theorem mount_find_deepest (ms : list mount) (path : list Z) :
  match mount_find (fold_left mount_list_insert ms []) path with
  | Some m => exists before after, ms = before ++ m :: after /\ on_mount path m = true /\
      (forall m', m' ∈ before -> on_mount path m' = true -> len (mt_point m') <= len (mt_point m)) /\
      (forall m', m' ∈ after -> on_mount path m' = true -> len (mt_point m') < len (mt_point m))
  | None => forall m, m ∈ ms -> on_mount path m = false
  end.
Proof.
  induction ms as [| m ms IH] using rev_ind; [intros m Hm; by apply not_elem_of_nil in Hm |]. rewrite fold_left_app. simpl.
  rewrite find_insert by apply mounts_sorted. destruct (mount_find (fold_left mount_list_insert ms []) path) as [x |].
  - destruct IH as (before & after & -> & Hx & Hb & Ha). destruct (on_mount path m) eqn:Em; cbn [andb].
    + destruct (Z.leb_spec (len (mt_point x)) (len (mt_point m))) as [Hle | Hgt].
      * exists (before ++ x :: after), []. split; [done |]. split; [done |]. split; [| intros m' Hm'; by apply not_elem_of_nil in Hm'].
        intros m' Hm' Ho. apply elem_of_app in Hm' as [Hm' | Hm']; [specialize (Hb _ Hm' Ho); lia |].
        apply elem_of_cons in Hm' as [-> | Hm']; [done |]. specialize (Ha _ Hm' Ho). lia.
      * exists before, (after ++ [m]). split; [by rewrite <- app_assoc |]. split; [done |]. split; [done |].
        intros m' Hm' Ho. apply elem_of_app in Hm' as [Hm' | Hm']; [by apply Ha |]. apply list_elem_of_singleton in Hm' as ->. done.
    + exists before, (after ++ [m]). split; [by rewrite <- app_assoc |]. split; [done |]. split; [done |].
      intros m' Hm' Ho. apply elem_of_app in Hm' as [Hm' | Hm']; [by apply Ha |]. apply list_elem_of_singleton in Hm' as ->. congruence.
  - destruct (on_mount path m) eqn:Em.
    + exists ms, []. split; [done |]. split; [done |]. split; [| intros m' Hm'; by apply not_elem_of_nil in Hm'].
      intros m' Hm' Ho. by rewrite IH in Ho.
    + intros m' Hm'. apply elem_of_app in Hm' as [Hm' | Hm']; [by apply IH |]. by apply list_elem_of_singleton in Hm' as ->.
Qed.

(** ** Examples *)

Definition nm : string -> list Z := bytes.

(** Directories everyone may search, and one link, in /jail. *)
Definition jail_fs : filesystem :=
  mk_fs false (Some (fun p room => if str_eqb p (nm "/jail/up") then inr (take (Z.to_nat room) (nm "/../..//etc")) else inl _EINVAL))
    (fun p => if len p <? 100 then inr (mk_stat 16877 0 0) else inl _ENOENT).
Definition jail_mounts : list mount := [mk_mount [] 1 jail_fs None].
(** A process whose root is /jail, working in /jail/home. *)
Definition jailed : fs_info := mk_fs_info (Some (mk_dirfd (inr (nm "/jail")) None)) (Some (mk_dirfd (inr (nm "/jail/home")) (Some (mk_stat 16877 0 0)))).

Ltac concrete := apply (bool_decide_unpack _); vm_compute; exact I.
Ltac concrete_names := repeat apply Forall_cons_2; try apply Forall_nil_2; split; concrete.

Lemma jail_names d s cs : fd_path d = inr s -> s = render cs -> Forall name_ok cs -> len s < MAX_PATH - 1 -> dir_names (Some d) cs.
Proof. intros Ed -> Hcs Hl. exists (render cs). split; [done |]. apply starts_render; [done | lia]. Qed.

Lemma jail_root : dir_names (root_dir jailed AtPwd N_SYMLINK_FOLLOW) [nm "jail"].
Proof. eapply jail_names; [reflexivity | reflexivity | concrete_names | reflexivity]. Qed.
Lemma jail_home path : is_slash (head path) = false -> dir_names (first_dir jailed AtPwd path N_SYMLINK_FOLLOW) [nm "jail"; nm "home"].
Proof.
  intros Hp. unfold first_dir. rewrite Hp, andb_false_r. eapply jail_names; [reflexivity | reflexivity | concrete_names | reflexivity].
Qed.

Lemma jail_find d fs tr : find_mount_and_trim_path jail_mounts d = Some (fs, tr) -> fs = jail_fs /\ tr = d.
Proof.
  unfold find_mount_and_trim_path, mount_find. simpl. destruct (on_mount d _); [| done]. simpl. rewrite drop_0. intros E. by simplify_eq.
Qed.
Lemma jail_link d fs room text : link_at jail_mounts d fs room text -> fs = jail_fs /\ d = nm "/jail/up" /\ text = take (Z.to_nat room) (nm "/../..//etc").
Proof.
  intros (tr & f & Hf & Hr & E). apply jail_find in Hf as [-> ->]. injection Hr as <-. unfold str_eqb in E. case_bool_decide; [| done]. by injection E as <-.
Qed.

Lemma jail_no_links : root_no_links jail_mounts [nm "jail"].
Proof.
  intros pre x fs room text Hp Hl. apply jail_link in Hl as (_ & E & _). apply prefix_length in Hp as Hlen. rewrite length_app in Hlen. simpl in Hlen.
  destruct pre; [| simpl in Hlen; lia]. destruct Hp as [k Hk]. injection Hk as <- <-. by vm_compute in E.
Qed.
Lemma jail_no_jumps : no_jumps jail_mounts.
Proof. intros d fs room text Hl Hp. by apply jail_link in Hl as (-> & _). Qed.

(** home/../../up/../x from /jail/home, through the link to /../..//etc. *)
Definition jail_path : list Z := Eval vm_compute in bytes "../../up/../x".

Lemma path_searched_witness : exists cs, nm "/jail/x" = render cs /\ Forall name_ok cs /\ len (nm "/jail/x") < MAX_PATH /\
  forall pre, pre `prefix_of` cs -> pre <> cs -> passable ∅ plain_cred jail_mounts [nm "jail"] [nm "jail"; nm "home"] pre.
Proof.
  apply (path_searched ∅ plain_cred jail_mounts jailed AtPwd jail_path N_SYMLINK_FOLLOW [nm "jail"] [nm "jail"; nm "home"]).
  - exact jail_root.
  - by apply jail_home.
  - vm_compute. reflexivity.
Defined.


Lemma jail_short : short_names ∅ plain_cred jail_mounts.
Proof.
  intros d (fs & tr & st & Hf & Hs & _). apply jail_find in Hf as [-> ->]. simpl in Hs. destruct (Z.ltb_spec (len d) 100); [unfold MAX_PATH; lia | done].
Qed.
Lemma jail_fit : links_fit jail_mounts.
Proof.
  intros cs x fs text room Hl. apply jail_link in Hl as (_ & E & ->). rewrite render_app in E. apply (f_equal len) in E. rewrite len_app in E.
  pose proof (len_nonneg (render [x])). change (len (nm "/jail/up")) with 8 in E. unfold room, len in *. rewrite length_take. unfold MAX_PATH.
  change (List.length (nm "/../..//etc")) with 11%nat. lia.
Qed.
Lemma jail_binds : binds_ok jail_mounts.
Proof. intros m origin prefix Hm Hb. apply list_elem_of_singleton in Hm. by rewrite Hm in Hb. Qed.

Lemma path_in_buffer_witness : path_normalize ∅ plain_cred jail_mounts jailed AtPwd jail_path N_SYMLINK_FOLLOW <> Fault.
Proof.
  apply (path_in_buffer ∅ plain_cred jail_mounts jailed AtPwd jail_path N_SYMLINK_FOLLOW [nm "jail"] [nm "jail"; nm "home"]); try reflexivity.
  - exact jail_root.
  - by apply jail_home.
  - exact jail_short.
  - exact jail_fit.
  - exact jail_binds.
Defined.

Lemma jail_plain cs : Forall name_ok cs -> render cs <> nm "/jail/up" -> len (render cs) < 100 ->
  no_link jail_mounts cs /\ searchable ∅ plain_cred jail_mounts (render cs).
Proof.
  intros Hcs Hup Hl. assert (find_mount_and_trim_path jail_mounts (render cs) = Some (jail_fs, render cs)) as Hf.
  { unfold find_mount_and_trim_path, mount_find. simpl. assert (on_mount (render cs) (mk_mount [] 1 jail_fs None) = true) as -> by (by destruct cs). simpl. by rewrite drop_0. }
  split.
  - exists jail_fs, (render cs). split; [done |]. split; [by apply normalized_render |]. intros f room [= <-]. exists _EINVAL.
    unfold str_eqb. by rewrite bool_decide_eq_false_2.
  - exists jail_fs, (render cs), (mk_stat 16877 0 0). split; [done |]. split; [| done]. simpl. by destruct (Z.ltb_spec (len (render cs)) 100); [| lia].
Qed.

Definition plain_path : list Z := Eval vm_compute in bytes "../etc/./x".
Lemma jail_way : plain_way ∅ plain_cred jail_mounts [nm "jail"] [nm "jail"; nm "home"] plain_path.
Proof.
  intros ns x more E Hx. assert (names plain_path = [nm ".."; nm "etc"; nm "."; nm "x"]) as En by (vm_compute; reflexivity). rewrite En in E.
  destruct ns as [| n1 [| n2 [| n3 [| n4 ns]]]]; [| | | | by destruct ns]; injection E as <- E; simplify_eq.
  - by destruct (no_dotdot _ Hx).
  - split; [| intros _]; (apply jail_plain; [concrete_names | concrete | reflexivity]).
  - by destruct (no_dot _ Hx).
  - split; [| intros _]; (apply jail_plain; [concrete_names | concrete | reflexivity]).
Qed.

Lemma path_lexical_witness : path_normalize ∅ plain_cred jail_mounts jailed AtPwd plain_path N_SYMLINK_FOLLOW = Path (nm "/jail/etc/x").
Proof.
  rewrite (path_lexical ∅ plain_cred jail_mounts jailed AtPwd plain_path N_SYMLINK_FOLLOW [nm "jail"] [nm "jail"; nm "home"]).
  - vm_compute. reflexivity.
  - exact jail_root.
  - by apply jail_home.
  - done.
  - by left.
  - done.
  - intros d st [= <-] [= <-]. by split; vm_compute.
  - exact jail_way.
  - concrete.
  - vm_compute. discriminate.
Defined.

(** ** Where the buffers are overrun *)

(** A tree in memory: directories of any depth, and a long link at /l. *)
Definition deep_fs (target : list Z) : filesystem :=
  mk_fs false (Some (fun p room => if str_eqb p (nm "/l") then inr (take (Z.to_nat room) target) else inl _EINVAL)) (fun _ => inr (mk_stat 16877 0 0)).
Definition deep_mounts (target : list Z) : list mount := [mk_mount [] 1 (deep_fs target) None].
(** A working directory with a path of 4094 bytes: 23 names of 177 bytes. *)
Definition deep_dir : list Z := Eval vm_compute in flat_map (fun _ => SLASH :: repeat 97 177) (seq 0 23).

(** From a directory whose path has 4094 bytes, which path_normalize itself
    accepts, looking up any name leaves the buffer: the name does not fit, its
    first byte takes n from 0 to -1, and n == 0 does not see it. *)
Example deep_lookup_overruns :
  path_normalize ∅ plain_cred (deep_mounts []) (mk_fs_info None None) AtPwd deep_dir N_SYMLINK_FOLLOW = Path deep_dir /\
  path_normalize ∅ plain_cred (deep_mounts []) (mk_fs_info None (Some (mk_dirfd (inr deep_dir) None))) AtPwd (nm "x") N_SYMLINK_NOFOLLOW = Fault.
Proof. split; vm_compute; reflexivity. Qed.

(** A link in the root to a target of 4095 bytes: what readlink answers fills
    the buffer, and the byte that terminates it is written behind it. *)
Example long_link_overruns :
  path_normalize ∅ plain_cred (deep_mounts (repeat 97 4095)) (mk_fs_info None None) AtPwd (nm "l") N_SYMLINK_FOLLOW = Fault.
Proof. vm_compute. reflexivity. Qed.
