(* ===== verification/Counts.v ===== *)
(** * Counting references

    Sums over finite maps and occurrences in lists: what reference counts are
    compared with. *)

From S2P Require Import Prelude.

Section Sums.
Context {A : Type}.
Implicit Types (f : A -> nat) (m : gmap Z A).

Definition msum f m : nat := map_fold (fun _ x n => (f x + n)%nat) 0%nat m.

Lemma msum_empty f : msum f ∅ = 0%nat.
Proof. apply map_fold_empty. Qed.

Lemma msum_fresh f m i x : m !! i = None -> msum f (<[i := x]> m) = (f x + msum f m)%nat.
Proof. intros Hi. unfold msum. rewrite map_fold_insert_L; [done | intros; lia | done]. Qed.

Lemma msum_delete f m i x : m !! i = Some x -> msum f m = (f x + msum f (delete i m))%nat.
Proof. intros Hi. rewrite <- (insert_delete_id m i x Hi) at 1. apply msum_fresh. by rewrite lookup_delete_eq. Qed.

Lemma msum_update f m i x y : m !! i = Some x -> (msum f (<[i := y]> m) + f x = msum f m + f y)%nat.
Proof.
  intros Hi. rewrite (msum_delete f m i x Hi), (msum_delete f (<[i := y]> m) i y) by apply lookup_insert_eq.
  rewrite delete_insert_eq. lia.
Qed.

Lemma msum_same f m i x y : m !! i = Some x -> f y = f x -> msum f (<[i := y]> m) = msum f m.
Proof. intros Hi E. pose proof (msum_update f m i x y Hi). lia. Qed.

Lemma msum_at f m i x : m !! i = Some x -> (f x <= msum f m)%nat.
Proof. intros Hi. rewrite (msum_delete f m i x Hi). lia. Qed.

Lemma msum_pos f m : (0 < msum f m)%nat -> exists i x, m !! i = Some x /\ (0 < f x)%nat.
Proof.
  induction m as [| i x m Hi IH] using map_ind; [rewrite msum_empty; lia |]. rewrite msum_fresh by done. intros Hp.
  destruct (decide (0 < f x)%nat) as [Hx | Hx]; [exists i, x; by rewrite lookup_insert_eq |].
  destruct (IH ltac:(lia)) as (j & y & Hj & Hy). exists j, y. split; [| done]. rewrite lookup_insert_ne; [done | congruence].
Qed.

Lemma msum_zero f m i x : msum f m = 0%nat -> m !! i = Some x -> f x = 0%nat.
Proof. intros H Hi. pose proof (msum_at f m i x Hi). lia. Qed.

Lemma msum_le f g m : (forall i x, m !! i = Some x -> (f x <= g x)%nat) -> (msum f m <= msum g m)%nat.
Proof.
  induction m as [| i x m Hi IH] using map_ind; intros H; [by rewrite !msum_empty |]. rewrite !msum_fresh by done.
  pose proof (H i x (lookup_insert_eq _ _ _)). enough (msum f m <= msum g m)%nat by lia. apply IH. intros j y Hj. apply (H j).
  rewrite lookup_insert_ne; [done | congruence].
Qed.
End Sums.

(** How often [a] is in a list. *)
Section Occurrences.
Context {A : Type} `{EqDecision A}.

Definition occ (a : A) (l : list A) : nat := length (filter (fun x => x = a) l).

Lemma occ_cons a x l : occ a (x :: l) = ((if decide (x = a) then 1 else 0) + occ a l)%nat.
Proof. unfold occ. rewrite filter_cons. by destruct (decide (x = a)). Qed.
Lemma occ_app a l1 l2 : occ a (l1 ++ l2) = (occ a l1 + occ a l2)%nat.
Proof. unfold occ. by rewrite filter_app, length_app. Qed.
Lemma occ_self a l : occ a (a :: l) = S (occ a l).
Proof. rewrite occ_cons. by destruct (decide (a = a)). Qed.
Lemma occ_elem a l : (0 < occ a l)%nat <-> a ∈ l.
Proof.
  induction l as [| x l IH]; [unfold occ; simpl; split; [lia | intros H; by apply not_elem_of_nil in H] |].
  rewrite occ_cons, elem_of_cons. destruct (decide (x = a)); [split; [auto | lia] |]. simpl. rewrite IH. naive_solver.
Qed.
Lemma occ_le a l : (occ a l <= length l)%nat.
Proof. apply length_filter. Qed.
Lemma occ_replicate a b n : a <> b -> occ a (replicate n b) = 0%nat.
Proof. intros Hne. induction n; simpl; [done |]. rewrite occ_cons. destruct (decide (b = a)); [congruence | done]. Qed.

Lemma occ_insert a l i x y : l !! i = Some x ->
  (occ a (<[i := y]> l) + (if decide (x = a) then 1 else 0) = occ a l + (if decide (y = a) then 1 else 0))%nat.
Proof.
  revert i. induction l as [| z l IH]; intros [| i] Hi; simpl in *; [done | done | simplify_eq; rewrite !occ_cons; lia |].
  rewrite !occ_cons. specialize (IH i Hi). lia.
Qed.

#[export] Instance occ_perm a : Proper ((≡ₚ) ==> eq) (occ a).
Proof. intros l l' E. unfold occ. by rewrite E. Qed.
End Occurrences.
