(* ===== verification/FdTable.v ===== *)
(** * Open files and descriptor tables (fs/fd.c, and inode_get, inode_release of fs/inode.c)

    Open file descriptions, the tables of descriptors that point to them and the
    inodes whose record locks they use are objects at addresses, with the
    reference counts the code keeps.  A use of an address that is not there is a
    use after free: the operations answer [None] then, and for a failed assertion.
    Each operation is translated with its calls; those that leave the table's
    lock in the middle come in the parts the lock makes ([FdWorld] runs them
    interleaved).  The record locks are FileLock.v's. *)

From Stdlib Require Import ZifyBool.
From S2P Require Import Prelude User FileLock.

Definition O_CREAT_ := Z.shiftl 1 6.
Definition O_EXCL_ := Z.shiftl 1 7.
Definition O_NOCTTY_ := Z.shiftl 1 8.
Definition O_TRUNC_ := Z.shiftl 1 9.
Definition O_APPEND_ := Z.shiftl 1 10.
Definition O_NONBLOCK_ := Z.shiftl 1 11.
Definition O_DIRECTORY_ := Z.shiftl 1 16.
Definition O_NOFOLLOW_ := Z.shiftl 1 17.
Definition O_CLOEXEC_ := Z.shiftl 1 19.
Definition O_PATH_ := Z.shiftl 1 21.
Definition CLOSE_RANGE_UNSHARE_ := Z.shiftl 1 1.
Definition CLOSE_RANGE_CLOEXEC_ := Z.shiftl 1 2.

(** ** Objects *)

(** [struct fd], with open_creds ([None] when not known) and [fd->owner]. *)
Record fdesc := mk_fd { f_refcount : Z; f_flags : Z; f_inode : option Z; f_creds : option (list Z); f_owner : Z }.
(** [struct fdtable]; size is the length of both. *)
Record fdtable := mk_table { t_refcount : Z; t_files : list (option Z); t_cloexec : list bool }.
(** [struct inode_data]. *)
Record inode := mk_inode { i_refcount : Z; i_posix : list file_lock; i_flock : list file_lock }.

(** [w_closed]: the files whose close operations have run. *)
Record world := mk_w { w_fds : gmap Z fdesc; w_tables : gmap Z fdtable; w_inodes : gmap Z inode; w_closed : list Z }.

(** What the rest of the system answers: rlimit(RLIMIT_NOFILE), whether malloc
    succeeds, and the file's own operations where it has them. *)
Record env := mk_env {
  e_limit : Z; e_mem : bool;
  e_getflags : Z -> option Z; e_setflags : Z -> option Z; e_close : Z -> option Z; e_fs_close : Z -> option Z }.

Definition set_f_refcount (r : Z) (d : fdesc) := mk_fd r (f_flags d) (f_inode d) (f_creds d) (f_owner d).
Definition set_f_flags (x : Z) (d : fdesc) := mk_fd (f_refcount d) x (f_inode d) (f_creds d) (f_owner d).
Definition set_f_owner (x : Z) (d : fdesc) := mk_fd (f_refcount d) (f_flags d) (f_inode d) (f_creds d) x.
Definition set_t_refcount (r : Z) (t : fdtable) := mk_table r (t_files t) (t_cloexec t).
Definition put_fd (a : Z) (d : fdesc) (w : world) := mk_w (<[a := d]> (w_fds w)) (w_tables w) (w_inodes w) (w_closed w).
Definition put_table (p : Z) (t : fdtable) (w : world) := mk_w (w_fds w) (<[p := t]> (w_tables w)) (w_inodes w) (w_closed w).
Definition put_inode (i : Z) (x : inode) (w : world) := mk_w (w_fds w) (w_tables w) (<[i := x]> (w_inodes w)) (w_closed w).

(** ** Inodes *)

Definition inode_get (w : world) (i : Z) : world :=
  match w_inodes w !! i with
  | Some x => put_inode i (mk_inode (u32 (i_refcount x + 1)) (i_posix x) (i_flock x)) w
  | None => put_inode i (mk_inode 1 [] []) w
  end.

Definition inode_release (w : world) (i : Z) : option world :=
  x ← w_inodes w !! i;
  let r := u32 (i_refcount x - 1) in
  Some (if r =? 0 then mk_w (w_fds w) (w_tables w) (delete i (w_inodes w)) (w_closed w)
        else put_inode i (mk_inode r (i_posix x) (i_flock x)) w).

(** [file_lock_remove_owned_by] and [flock_remove_owned_by] of a file with an inode. *)
Definition drop_posix (w : world) (i owner : Z) : option world :=
  x ← w_inodes w !! i; Some (put_inode i (mk_inode (i_refcount x) (fst (file_lock_remove_owned_by (i_posix x) owner)) (i_flock x)) w).
Definition drop_flock (w : world) (i fd : Z) : option world :=
  x ← w_inodes w !! i; Some (put_inode i (mk_inode (i_refcount x) (i_posix x) (fst (flock_remove_owned_by (i_flock x) fd))) w).

(** ** Open files *)

(** What the calling task is: tgid, exec_gen and its eight ids, [None] off a task. *)
Definition fd_open_creds_stamp (current : option (list Z)) (d : fdesc) : fdesc :=
  mk_fd (f_refcount d) (f_flags d) (f_inode d) current (f_owner d).
Definition fd_open_creds_match (current : option (list Z)) (d : fdesc) : bool :=
  match f_creds d, current with Some a, Some b => bool_decide (a = b) | _, _ => false end.

(** [pwrite_append] of the descriptor's operations. *)
Inductive pwrite_append := FD_PWRITE_APPEND_DEFAULT | FD_PWRITE_APPEND_FORCE | FD_PWRITE_APPEND_NEVER.
Definition fd_pwrite_appends (p : pwrite_append) (d : fdesc) : bool :=
  match p with FD_PWRITE_APPEND_FORCE => true | FD_PWRITE_APPEND_NEVER => false | FD_PWRITE_APPEND_DEFAULT => has_flag (f_flags d) O_APPEND_ end.

(** A new file at the fresh address [a]. *)
Definition fd_create (w : world) (current : option (list Z)) (a : Z) : world := put_fd a (fd_open_creds_stamp current (mk_fd 1 0 None None 0)) w.

Definition fd_retain (w : world) (a : Z) : option world :=
  d ← w_fds w !! a; Some (put_fd a (set_f_refcount (u32 (f_refcount d + 1)) d) w).

Definition fd_retain_if_live (w : world) (a : Z) : option (bool * world) :=
  d ← w_fds w !! a;
  if f_refcount d =? 0 then Some (false, w) else Some (true, put_fd a (set_f_refcount (u32 (f_refcount d + 1)) d) w).

Definition close_answer (e : env) (a : Z) : Z :=
  let err := match e_close e a with Some r => r | None => 0 end in
  match e_fs_close e a with Some r => if r <? 0 then r else err | None => err end.

Definition fd_close (e : env) (w : world) (a : Z) : option (Z * world) :=
  d ← w_fds w !! a;
  let r := u32 (f_refcount d - 1) in
  if negb (r =? 0) then Some (0, put_fd a (set_f_refcount r d) w) else
  w ← match f_inode d with Some i => w ← drop_flock w i a; drop_posix w i a | None => Some w end;
  let err := close_answer e a in
  w ← match f_inode d with Some i => inode_release w i | None => Some w end;
  Some (err, mk_w (delete a (w_fds w)) (w_tables w) (w_inodes w) (a :: w_closed w)).

Definition fd_getflags (e : env) (a : Z) (d : fdesc) : Z :=
  if has_flag (f_flags d) O_PATH_ then f_flags d .& (O_PATH_ .| O_DIRECTORY_ .| O_NOFOLLOW_) else
  let flags := match e_getflags e a with Some x => x | None => s32 (f_flags d) end in
  if flags <? 0 then flags else flags .& Z.lnot (O_CREAT_ .| O_EXCL_ .| O_NOCTTY_ .| O_TRUNC_ .| O_CLOEXEC_).

Definition FD_ALLOWED_FLAGS := O_APPEND_ .| O_NONBLOCK_.
Definition fd_setflags (e : env) (a : Z) (d : fdesc) (flags : Z) : fdesc * Z :=
  match e_setflags e a with
  | Some r => (d, r)
  | None => (set_f_flags ((f_flags d .& Z.lnot FD_ALLOWED_FLAGS) .| (flags .& FD_ALLOWED_FLAGS)) d, 0)
  end.

(** ** Tables *)

Definition t_size (t : fdtable) : Z := Z.of_nat (length (t_files t)).

(** [assert(size > table->size)] fails as [None]. *)
Definition fdtable_resize (e : env) (t : fdtable) (size : Z) : option (Z * fdtable) :=
  if negb (size >? t_size t) then None else
  if negb (e_mem e) then Some (_ENOMEM, t) else
  let more := Z.to_nat (size - t_size t) in
  Some (0, mk_table (t_refcount t) (t_files t ++ replicate more None) (t_cloexec t ++ replicate more false)).

Definition fdtable_new (e : env) (size : Z) : option (Z + fdtable) :=
  if negb (e_mem e) then Some (inl _ENOMEM) else
  '(err, t) ← fdtable_resize e (mk_table 1 [] []) size;
  Some (if err <? 0 then inl err else inr t).

(** The copy made by fork, at the fresh address [p']. *)
Fixpoint retain_all (w : world) (files : list (option Z)) : option world :=
  match files with
  | [] => Some w
  | None :: files => retain_all w files
  | Some a :: files => w ← fd_retain w a; retain_all w files
  end.

Definition fdtable_copy (e : env) (w : world) (p p' : Z) : option (Z * world) :=
  t ← w_tables w !! p;
  new ← fdtable_new e (t_size t);
  match new with
  | inl err => Some (err, w)
  | inr t' =>
      w ← retain_all w (t_files t);
      Some (0, put_table p' (mk_table (t_refcount t') (t_files t) (t_cloexec t)) w)
  end.

Definition fdtable_expand (e : env) (t : fdtable) (max : Z) : option (Z * fdtable) :=
  let size := u32 (max + 1) in
  if size >? e_limit e then Some (_EMFILE, t) else
  if t_size t >=? size then Some (0, t) else fdtable_resize e t (max + 1).

Definition fdtable_get (t : fdtable) (f : Z) : option Z :=
  if (f <? 0) || (f >=? t_size t) then None else t_files t !! Z.to_nat f ≫= id.

(** table->files[f] = x, and the bit of f. *)
Definition set_slot (t : fdtable) (f : Z) (x : option Z) (bit : bool) : fdtable :=
  mk_table (t_refcount t) (<[Z.to_nat f := x]> (t_files t)) (<[Z.to_nat f := bit]> (t_cloexec t)).
Definition set_bit (t : fdtable) (f : Z) (bit : bool) : fdtable :=
  mk_table (t_refcount t) (t_files t) (<[Z.to_nat f := bit]> (t_cloexec t)).
Definition bit_of (t : fdtable) (f : Z) : bool := default false (t_cloexec t !! Z.to_nat f).

Definition f_get (w : world) (p f : Z) : option (option Z) := t ← w_tables w !! p; Some (fdtable_get t f).

Definition f_get_retain (w : world) (p f : Z) : option (option Z * world) :=
  t ← w_tables w !! p;
  match fdtable_get t f with
  | None => Some (None, w)
  | Some a => w ← fd_retain w a; Some (Some a, w)
  end.

(** "for (f = start; (unsigned) f < size; f++) if (table->files[f] == NULL) break", in [n] turns. *)
Fixpoint free_slot (files : list (option Z)) (f size : Z) (n : nat) : Z :=
  match n with
  | O => f
  | S n => if f >=? size then f else match files !! Z.to_nat f with Some None => f | _ => free_slot files (f + 1) size n end
  end.

Definition f_has_room (e : env) (t : fdtable) : bool :=
  let limit := u32 (e_limit e) in
  let size := if limit <? t_size t then limit else t_size t in
  (size <? limit) || existsb (fun x => match x with None => true | Some _ => false end) (take (Z.to_nat size) (t_files t)).

Definition f_install_start (e : env) (w : world) (p a start : Z) : option (Z * world) :=
  if start <? 0 then None else
  t ← w_tables w !! p;
  let size := if u32 (e_limit e) >? t_size t then t_size t else u32 (e_limit e) in
  let f := free_slot (t_files t) start size (Z.to_nat (size - start)) in
  '(f, t) ← (if f >=? size then '(err, t) ← fdtable_expand e t f; Some (if err <? 0 then err else f, t) else Some (f, t));
  if f >=? 0 then Some (f, put_table p (set_slot t f (Some a) false) w)
  else '(_, w) ← fd_close e (put_table p t w) a; Some (f, w).

Definition f_install (e : env) (w : world) (p a flags : Z) : option (Z * world) :=
  '(f, w) ← f_install_start e w p a 0;
  if f <? 0 then Some (f, w) else
  t ← w_tables w !! p;
  let w := if has_flag flags O_CLOEXEC_ then put_table p (set_bit t f true) w else w in
  if has_flag flags O_NONBLOCK_ then
    d ← w_fds w !! a; Some (f, put_fd a (fst (fd_setflags e a d O_NONBLOCK_)) w)
  else Some (f, w).

(** The file taken out of the table, still referenced. *)
Definition fdtable_detach (t : fdtable) (f : Z) : option Z * fdtable :=
  match fdtable_get t f with None => (None, t) | Some a => (Some a, set_slot t f None false) end.

Definition fdtable_finish_close (e : env) (w : world) (a owner : Z) : option (Z * world) :=
  d ← w_fds w !! a;
  w ← match f_inode d with Some i => drop_posix w i owner | None => Some w end;
  fd_close e w a.

Definition fdtable_close (e : env) (w : world) (p f : Z) : option (Z * world) :=
  t ← w_tables w !! p;
  match fdtable_detach t f with
  | (None, _) => Some (_EBADF, w)
  | (Some a, t) => fdtable_finish_close e (put_table p t w) a p
  end.

(** The answer, and the file that was there and is still to be closed. *)
Definition fdtable_install_at (e : env) (w : world) (p f a : Z) (cloexec : bool) : option (Z * option Z * world) :=
  if f <? 0 then '(_, w) ← fd_close e w a; Some (_EBADF, None, w) else
  t ← w_tables w !! p;
  '(err, t) ← fdtable_expand e t f;
  if err <? 0 then '(_, w) ← fd_close e (put_table p t w) a; Some (err, None, w) else
  let '(replaced, t) := fdtable_detach t f in
  Some (0, replaced, put_table p (set_slot t f (Some a) cloexec) w).

(** The slots closed from [f] on, [n] of them. *)
Fixpoint close_slots (e : env) (w : world) (p f : Z) (n : nat) (which : fdtable -> Z -> bool) : option world :=
  match n with
  | O => Some w
  | S n =>
      t ← w_tables w !! p;
      w ← (if which t f then '(_, w) ← fdtable_close e w p f; Some w else Some w);
      close_slots e w p (f + 1) n which
  end.

Definition fdtable_release (e : env) (w : world) (p : Z) : option world :=
  t ← w_tables w !! p;
  let w := put_table p (set_t_refcount (u32 (t_refcount t - 1)) t) w in
  if negb (t_refcount t =? 1) then Some w else
  w ← close_slots e w p 0 (length (t_files t)) (fun _ _ => true);
  Some (mk_w (w_fds w) (delete p (w_tables w)) (w_inodes w) (w_closed w)).

Definition fdtable_retain (w : world) (p : Z) : option world :=
  t ← w_tables w !! p; Some (put_table p (set_t_refcount (u32 (t_refcount t + 1)) t) w).

Definition fdtable_do_cloexec (e : env) (w : world) (p : Z) : option world :=
  t ← w_tables w !! p; close_slots e w p 0 (length (t_files t)) bit_of.

(** The task's table afterwards; [p'] is the fresh address of the copy. *)
Definition fdtable_unshare_current (e : env) (w : world) (p p' : Z) : option (Z * Z * world) :=
  t ← w_tables w !! p;
  if t_refcount t =? 1 then Some (0, p, w) else
  '(err, w) ← fdtable_copy e w p p';
  if err <? 0 then Some (err, p, w) else
  w ← fdtable_release e w p; Some (0, p', w).

(** ** System calls *)

(** Up to the unlock: the file to close. *)
Definition f_close_detach (w : world) (p f : Z) : option (option Z * world) :=
  t ← w_tables w !! p;
  let '(a, t) := fdtable_detach t f in Some (a, put_table p t w).

Definition f_close (e : env) (w : world) (p f : Z) : option (Z * world) :=
  '(a, w) ← f_close_detach w p f;
  match a with None => Some (_EBADF, w) | Some a => fdtable_finish_close e w a p end.

(** After f_get found [a]. *)
Definition dup_install (e : env) (w : world) (p a : Z) : option (Z * world) := w ← fd_retain w a; f_install e w p a 0.
Definition sys_dup (e : env) (w : world) (p f : Z) : option (Z * world) :=
  a ← f_get w p f;
  match a with None => Some (_EBADF, w) | Some a => dup_install e w p a end.

(** Up to the unlock: the answer, and the file replaced. *)
Definition dup3_locked (e : env) (w : world) (p f new_f flags : Z) : option (Z * option Z * world) :=
  if negb (flags .& Z.lnot O_CLOEXEC_ =? 0) then Some (_EINVAL, None, w) else
  if new_f <? 0 then Some (_EBADF, None, w) else
  if f =? new_f then Some (_EINVAL, None, w) else
  t ← w_tables w !! p;
  match fdtable_get t f with
  | None => Some (_EBADF, None, w)
  | Some a =>
      '(err, t) ← fdtable_expand e t new_f;
      if err <? 0 then Some (err, None, put_table p t w) else
      w ← fd_retain w a;
      let '(replaced, t) := fdtable_detach t new_f in
      Some (new_f, replaced, put_table p (set_slot t new_f (Some a) (has_flag flags O_CLOEXEC_)) w)
  end.

Definition sys_dup3 (e : env) (w : world) (p f new_f flags : Z) : option (Z * world) :=
  '(ret, replaced, w) ← dup3_locked e w p f new_f flags;
  match replaced with None => Some (ret, w) | Some a => '(_, w) ← fdtable_finish_close e w a p; Some (ret, w) end.

Definition sys_dup2 (e : env) (w : world) (p f new_f : Z) : option (Z * world) :=
  if new_f <? 0 then Some (_EBADF, w) else
  if f =? new_f then a ← f_get w p f; Some (match a with None => _EBADF | Some _ => new_f end, w)
  else sys_dup3 e w p f new_f 0.

(** The loop of close_range up to the next file to close, which [Some] says. *)
Fixpoint range_scan (w : world) (p f end_ : Z) (cloexec : bool) (n : nat) : option (option (Z * Z) * world) :=
  match n with
  | O => Some (None, w)
  | S n =>
      if f >? end_ then Some (None, w) else
      t ← w_tables w !! p;
      match t_files t !! Z.to_nat f with
      | None => None
      | Some None => range_scan w p (f + 1) end_ cloexec n
      | Some (Some _) =>
          if cloexec then range_scan (put_table p (set_bit t f true) w) p (f + 1) end_ cloexec n else
          match fdtable_detach t f with
          | (None, _) => None
          | (Some a, t) => Some (Some (a, f), put_table p t w)
          end
      end
  end.

(** Up to the first unlock: the answer and the table, or the file to close,
    where it was, and the last descriptor. *)
Definition close_range_begin (e : env) (w : world) (p p' first last flags : Z) : option (Z * Z * option (Z * Z * Z) * world) :=
  if negb (flags .& Z.lnot (CLOSE_RANGE_UNSHARE_ .| CLOSE_RANGE_CLOEXEC_) =? 0) then Some (_EINVAL, p, None, w) else
  if last <? first then Some (_EINVAL, p, None, w) else
  '(err, p, w) ← (if has_flag flags CLOSE_RANGE_UNSHARE_ then fdtable_unshare_current e w p p' else Some (0, p, w));
  if err <? 0 then Some (err, p, None, w) else
  t ← w_tables w !! p;
  if (t_size t =? 0) || (first >=? t_size t) then Some (0, p, None, w) else
  let end_ := if last >=? t_size t then t_size t - 1 else last in
  '(found, w) ← range_scan w p first end_ (has_flag flags CLOSE_RANGE_CLOEXEC_) (Z.to_nat (end_ - first + 1));
  Some (0, p, match found with Some (a, f) => Some (a, f, end_) | None => None end, w).

(** After a file has been closed and the lock taken again. *)
Definition close_range_next (w : world) (p f end_ : Z) : option (option (Z * Z * Z) * world) :=
  t ← w_tables w !! p;
  if t_size t =? 0 then Some (None, w) else
  let end_ := if end_ >=? t_size t then t_size t - 1 else end_ in
  '(found, w) ← range_scan w p (f + 1) end_ false (Z.to_nat (end_ - f));
  Some (match found with Some (a, f) => Some (a, f, end_) | None => None end, w).

Fixpoint close_range_rest (e : env) (w : world) (p : Z) (found : option (Z * Z * Z)) (n : nat) : option world :=
  match found, n with
  | None, _ => Some w
  | Some _, O => None
  | Some (a, f, end_), S n =>
      '(_, w) ← fdtable_finish_close e w a p;
      '(found, w) ← close_range_next w p f end_;
      close_range_rest e w p found n
  end.

(** The answer and the task's table. *)
Definition sys_close_range (e : env) (w : world) (p p' first last flags : Z) : option (Z * Z * world) :=
  '(ret, p, found, w) ← close_range_begin e w p p' first last flags;
  let n := match found with Some (_, f, end_) => Z.to_nat (end_ - f + 1) | None => O end in
  w ← close_range_rest e w p found n; Some (ret, p, w).
