(* ===== verification/FdRefs.v ===== *)
(** * Reference counts of open files (fs/fd.c)

    [wf w held]: every open file's count is the number of descriptors that point
    to it, over all tables, plus the references calls in progress hold ([held]);
    what is pointed to is there; inodes count the files on them.  Each operation
    of FdTable.v is shown not to fail and to keep this. *)

From Stdlib Require Import ZifyBool.
From S2P Require Import Prelude User FileLock Counts FdTable.

Definition slots (a : Z) (t : fdtable) : nat := occ (Some a) (t_files t).
Definition refs (w : world) (held : list Z) (a : Z) : nat := (msum (slots a) (w_tables w) + occ a held)%nat.
Definition users (w : world) (i : Z) : nat := msum (fun d => if decide (f_inode d = Some i) then 1 else 0)%nat (w_fds w).

(** Fewer references and files than a 32-bit count holds. *)
Definition full (t : fdtable) : nat := (length (t_files t) - occ None (t_files t))%nat.
Definition total (w : world) (held : list Z) : nat := (msum full (w_tables w) + length held)%nat.
Definition few (w : world) (held : list Z) : Prop :=
  Z.of_nat (total w held) < 2 ^ 32 /\ Z.of_nat (msum (fun _ => 1%nat) (w_fds w)) < 2 ^ 32.

Record wf (w : world) (held : list Z) : Prop := mk_wf {
  wf_fd : forall a, match w_fds w !! a with
                    | Some d => f_refcount d = Z.of_nat (refs w held a) /\ (0 < refs w held a)%nat
                    | None => refs w held a = 0%nat
                    end;
  wf_inode : forall i, match w_inodes w !! i with
                       | Some x => i_refcount x = Z.of_nat (users w i) /\ (0 < users w i)%nat
                       | None => users w i = 0%nat
                       end;
  wf_table : forall p t, w_tables w !! p = Some t -> length (t_cloexec t) = length (t_files t);
  wf_few : few w held }.

Lemma slots_full a t : (slots a t <= full t)%nat.
Proof.
  unfold slots, full. induction (t_files t) as [| x l IH]; [done |]. rewrite !occ_cons. simpl length. pose proof (occ_le None l).
  destruct (decide (x = Some a)) as [-> |]; [rewrite decide_False by done; lia |]. destruct (decide (x = None)); lia.
Qed.
Lemma refs_total w held a : (refs w held a <= total w held)%nat.
Proof.
  unfold refs, total. assert (msum (slots a) (w_tables w) <= msum full (w_tables w))%nat by (apply msum_le; intros; apply slots_full).
  pose proof (occ_le a held). lia.
Qed.
Lemma users_files w i : (users w i <= msum (fun _ => 1%nat) (w_fds w))%nat.
Proof. apply msum_le. intros j d _. destruct (decide (f_inode d = Some i)); lia. Qed.

#[export] Instance wf_perm w : Proper ((≡ₚ) ==> iff) (wf w).
Proof.
  assert (forall h h', h ≡ₚ h' -> wf w h -> wf w h') as H; [| intros h h' E; split; apply H; done].
  intros h h' E [H1 H2 H3 H4]. split; [| done | done | unfold few, total in *; by rewrite <- E].
  intros a. specialize (H1 a). unfold refs in *. assert (occ a h' = occ a h) as -> by (by rewrite E). done.
Qed.

Lemma wf_here w held a d : wf w held -> w_fds w !! a = Some d -> f_refcount d = Z.of_nat (refs w held a) /\ (0 < refs w held a)%nat.
Proof. intros [H _ _ _] E. specialize (H a). by rewrite E in H. Qed.
Lemma wf_live w held a : wf w held -> (0 < refs w held a)%nat -> exists d, w_fds w !! a = Some d.
Proof. intros [H _ _ _] Hp. specialize (H a). destruct (w_fds w !! a) as [d |]; [by exists d | lia]. Qed.
Lemma wf_user w held a d i : wf w held -> w_fds w !! a = Some d -> f_inode d = Some i -> exists x, w_inodes w !! i = Some x.
Proof.
  intros [_ H _ _] Ed Ei. specialize (H i). unfold users in H.
  pose proof (msum_at (fun d => if decide (f_inode d = Some i) then 1 else 0)%nat (w_fds w) a d Ed) as Hp. simpl in Hp. rewrite decide_True in Hp by done.
  destruct (w_inodes w !! i) as [x |]; [by exists x | lia].
Qed.

(** ** Changing a file's count *)

(** Files, but not their number or inodes, and references change. *)
Lemma wf_put_fd w held held' a d d' :
  wf w held -> few w held' -> w_fds w !! a = Some d -> f_inode d' = f_inode d -> f_refcount d' = Z.of_nat (refs w held' a) -> (0 < refs w held' a)%nat ->
  (forall b, b <> a -> occ b held' = occ b held) -> wf (put_fd a d' w) held'.
Proof.
  intros [H1 H2 H3 _] Hfew Ea Ei Er Hp Hb. split; [| | done |].
  - intros b. unfold put_fd, refs. simpl. destruct (decide (b = a)) as [-> | Hne]; [by rewrite lookup_insert_eq |].
    rewrite lookup_insert_ne, (Hb b Hne) by congruence. apply H1.
  - intros i. specialize (H2 i). assert (users (put_fd a d' w) i = users w i) as E; [| by rewrite E].
    unfold users, put_fd. simpl. apply (msum_same _ _ _ d); [done | by rewrite Ei].
  - unfold few, total, put_fd in *. simpl. by rewrite (msum_same _ _ _ d).
Qed.

(** What an operation on files leaves alone. *)
Definition tables_kept (w w' : world) : Prop := w_tables w' = w_tables w.
Definition files_kept (w w' : world) : Prop := msum (fun _ => 1%nat) (w_fds w') = msum (fun _ => 1%nat) (w_fds w).

Lemma retain_ok w held a : wf w held -> (0 < refs w held a)%nat -> few w (a :: held) ->
  exists w', fd_retain w a = Some w' /\ wf w' (a :: held) /\ tables_kept w w' /\ files_kept w w'.
Proof.
  intros Hwf Hp Hfew. destruct (wf_live w held a Hwf Hp) as [d Ed]. destruct (wf_here _ _ _ _ Hwf Ed) as [Er _].
  unfold fd_retain. rewrite Ed. simpl. eexists. split; [done |]. split; [| split; [done | by apply (msum_same _ _ _ d)]].
  assert (refs w (a :: held) a = S (refs w held a)) as Es by (unfold refs; rewrite occ_self; lia).
  apply (wf_put_fd w held _ a d); [done | done | done | done | | lia |].
  - simpl. rewrite Er, Es, u32_small; [lia |]. pose proof (refs_total w (a :: held) a). destruct Hfew. lia.
  - intros b Hb. rewrite occ_cons. destruct (decide (a = b)); [congruence | done].
Qed.

(** ** Closing *)

(** Only the locks of inodes change. *)
Definition same_inodes (w w' : world) : Prop :=
  w_fds w' = w_fds w /\ w_tables w' = w_tables w /\ w_closed w' = w_closed w /\
  forall i, i_refcount <$> w_inodes w' !! i = i_refcount <$> w_inodes w !! i.

Lemma same_inodes_wf w w' held : same_inodes w w' -> wf w held -> wf w' held.
Proof.
  intros (E1 & E2 & _ & E3) [H1 H2 H3 H4]. split; unfold few, total, refs, users in *; rewrite ?E1, ?E2; try done.
  intros i. specialize (H2 i). specialize (E3 i). destruct (w_inodes w' !! i), (w_inodes w !! i); simpl in E3; simplify_eq; [congruence | done].
Qed.

Lemma put_inode_same w i x x' : w_inodes w !! i = Some x -> i_refcount x' = i_refcount x -> same_inodes w (put_inode i x' w).
Proof.
  intros Hi Er. split; [done |]. split; [done |]. split; [done |]. intros j. unfold put_inode. simpl.
  destruct (decide (j = i)) as [-> | Hne]; [rewrite lookup_insert_eq, Hi; simpl; by f_equal | by rewrite lookup_insert_ne by congruence].
Qed.

Lemma same_inodes_trans w1 w2 w3 : same_inodes w1 w2 -> same_inodes w2 w3 -> same_inodes w1 w3.
Proof.
  intros (A1 & A2 & A3 & A4) (B1 & B2 & B3 & B4). split; [congruence |]. split; [congruence |]. split; [congruence |]. intros i. by rewrite B4, A4.
Qed.

Lemma drop_posix_ok w i x owner : w_inodes w !! i = Some x -> exists w', drop_posix w i owner = Some w' /\ same_inodes w w'.
Proof. intros Ex. unfold drop_posix. rewrite Ex. simpl. eexists. split; [done |]. by apply (put_inode_same w i x). Qed.
Lemma drop_flock_ok w i x owner : w_inodes w !! i = Some x -> exists w', drop_flock w i owner = Some w' /\ same_inodes w w'.
Proof. intros Ex. unfold drop_flock. rewrite Ex. simpl. eexists. split; [done |]. by apply (put_inode_same w i x). Qed.

(** The last reference goes: the file and its use of the inode. *)
Lemma wf_delete_fd w held a d : wf w (a :: held) -> w_fds w !! a = Some d -> refs w held a = 0%nat ->
  exists w', match f_inode d with Some i => inode_release w i | None => Some w end = Some w' /\ tables_kept w w' /\ w_fds w' = w_fds w /\
    wf (mk_w (delete a (w_fds w')) (w_tables w') (w_inodes w') (a :: w_closed w')) held.
Proof.
  intros Hwf Ed Hz. pose proof Hwf as [H1 H2 H3 [Hf1 Hf2]].
  set (us := fun i => msum (fun d => if decide (f_inode d = Some i) then 1 else 0)%nat (delete a (w_fds w))).
  assert (forall i, users w i = ((if decide (f_inode d = Some i) then 1 else 0) + us i)%nat) as Hu by (intros i; unfold us, users; by rewrite (msum_delete _ _ a d Ed)).
  assert (forall ins, (forall i, match ins !! i with Some x => i_refcount x = Z.of_nat (us i) /\ (0 < us i)%nat | None => us i = 0%nat end) ->
            wf (mk_w (delete a (w_fds w)) (w_tables w) ins (a :: w_closed w)) held) as Hmk.
  { intros ins Hins. split; [| exact Hins | exact H3 |].
    - intros b. unfold refs. simpl. destruct (decide (b = a)) as [-> | Hne]; [rewrite lookup_delete_eq; exact Hz |].
      rewrite lookup_delete_ne by congruence. specialize (H1 b). unfold refs in H1. rewrite occ_cons in H1. by destruct (decide (a = b)).
    - unfold few, total in *. simpl in *. rewrite (msum_delete _ _ a d Ed) in Hf2. split; lia. }
  destruct (f_inode d) as [i |] eqn:Ei.
  - destruct (wf_user w _ a d i Hwf Ed Ei) as [x Ex]. pose proof (H2 i) as Hi. rewrite Ex, Hu, decide_True in Hi by done. destruct Hi as [Er _].
    assert (u32 (i_refcount x - 1) = Z.of_nat (us i)) as Hr.
    { pose proof (users_files w i). rewrite Hu, decide_True in * by done. rewrite Er, u32_small by lia. lia. }
    assert (forall j, j <> i -> match w_inodes w !! j with Some x => i_refcount x = Z.of_nat (us j) /\ (0 < us j)%nat | None => us j = 0%nat end) as Hne.
    { intros j Hj. specialize (H2 j). rewrite Hu, decide_False in H2 by congruence. exact H2. }
    unfold inode_release. rewrite Ex. cbn [mbind option_bind]. eexists. split; [done |]. rewrite Hr. destruct (Z.eqb_spec (Z.of_nat (us i)) 0) as [Hz0 | Hz0].
    + split; [done |]. split; [done |]. apply Hmk. intros j. simpl. destruct (decide (j = i)) as [-> | Hj]; [rewrite lookup_delete_eq; lia |].
      rewrite lookup_delete_ne by congruence. by apply Hne.
    + split; [done |]. split; [done |]. apply Hmk. intros j. simpl. destruct (decide (j = i)) as [-> | Hj]; [rewrite lookup_insert_eq; simpl; lia |].
      rewrite lookup_insert_ne by congruence. by apply Hne.
  - exists w. split; [done |]. split; [done |]. split; [done |]. apply Hmk. intros i. specialize (H2 i). by rewrite Hu, decide_False in H2.
Qed.

Lemma close_ok e w held a : wf w (a :: held) -> exists r w', fd_close e w a = Some (r, w') /\ wf w' held /\ tables_kept w w'.
Proof.
  intros Hwf. assert (refs w (a :: held) a = S (refs w held a)) as Es by (unfold refs; rewrite occ_self; lia).
  destruct (wf_live w (a :: held) a Hwf ltac:(lia)) as [d Ed]. destruct (wf_here _ _ _ _ Hwf Ed) as [Er _].
  assert (Z.of_nat (total w (a :: held)) < 2 ^ 32) as Hfew by apply Hwf. pose proof (refs_total w (a :: held) a).
  unfold fd_close. rewrite Ed. cbn [mbind option_bind]. assert (u32 (f_refcount d - 1) = Z.of_nat (refs w held a)) as -> by (rewrite Er, u32_small by lia; lia).
  destruct (Z.eqb_spec (Z.of_nat (refs w held a)) 0) as [Hz | Hz]; cbn [negb].
  - assert (exists w1, match f_inode d with Some i => w ← drop_flock w i a; drop_posix w i a | None => Some w end = Some w1 /\ same_inodes w w1) as (w1 & -> & Hs).
    { destruct (f_inode d) as [i |] eqn:Ei; [| by exists w]. destruct (wf_user w _ a d i Hwf Ed Ei) as [x Ex].
      destruct (drop_flock_ok w i x a Ex) as (w1 & -> & Hs). cbn [mbind option_bind].
      destruct (wf_user w1 (a :: held) a d i) as [x1 Ex1]; [by apply (same_inodes_wf w) | by rewrite (proj1 Hs) | done |].
      destruct (drop_posix_ok w1 i x1 a Ex1) as (w2 & -> & Hs2). exists w2. split; [done |]. by eapply same_inodes_trans. }
    cbn [mbind option_bind]. destruct (wf_delete_fd w1 held a d) as (w2 & -> & Ht & Hfd & Hwf2); [by apply (same_inodes_wf w) | by rewrite (proj1 Hs) | |].
    + unfold refs in *. rewrite (proj1 (proj2 Hs)). lia.
    + cbn [mbind option_bind]. eexists _, _. split; [done |]. split; [done |]. unfold tables_kept in *. simpl. rewrite Ht. apply Hs.
  - eexists _, _. split; [done |]. split; [| done]. apply (wf_put_fd w (a :: held) held a d); [done | | done | done | done | lia |].
    + pose proof Hwf as [_ _ _ [? ?]]. split; [| done]. unfold total in *. simpl in *. lia.
    + intros b Hb. rewrite occ_cons. by destruct (decide (a = b)).
Qed.

Lemma finish_close_ok e w held a owner : wf w (a :: held) -> exists r w', fdtable_finish_close e w a owner = Some (r, w') /\ wf w' held /\ tables_kept w w'.
Proof.
  intros Hwf. destruct (wf_live w (a :: held) a Hwf) as [d Ed]; [unfold refs; rewrite occ_self; lia |].
  unfold fdtable_finish_close. rewrite Ed. cbn [mbind option_bind]. destruct (f_inode d) as [i |] eqn:Ei; [| by apply close_ok].
  destruct (wf_user w _ a d i Hwf Ed Ei) as [x Ex]. destruct (drop_posix_ok w i x owner Ex) as (w1 & -> & Hs). cbn [mbind option_bind].
  destruct (close_ok e w1 held a) as (r & w2 & -> & Hwf2 & Ht); [by apply (same_inodes_wf w) |]. exists r, w2. split; [done |]. split; [done |].
  unfold tables_kept in *. rewrite Ht. apply Hs.
Qed.

(** ** Tables *)

Lemma wf_put_table w held held' p t t' :
  wf w held -> w_tables w !! p = Some t -> length (t_cloexec t') = length (t_files t') ->
  (forall b, slots b t' + occ b held' = slots b t + occ b held)%nat -> (full t' + length held' <= full t + length held)%nat ->
  wf (put_table p t' w) held'.
Proof.
  intros [H1 H2 H3 [Hf1 Hf2]] Ep Hl Hs Hfull. split; [| done | |].
  - intros a. assert (refs (put_table p t' w) held' a = refs w held a) as E; [| rewrite E; apply H1].
    unfold refs, put_table. simpl. pose proof (msum_update (slots a) (w_tables w) p t t' Ep). specialize (Hs a). lia.
  - intros q u. unfold put_table. simpl. destruct (decide (q = p)) as [-> | Hne]; [rewrite lookup_insert_eq; by intros [= <-] |].
    rewrite lookup_insert_ne by congruence. apply H3.
  - unfold few, total, put_table in *. simpl. split; [| done]. pose proof (msum_update full (w_tables w) p t t' Ep). lia.
Qed.

(** A table that is only longer. *)
Definition longer (t t' : fdtable) : Prop :=
  exists n, t' = mk_table (t_refcount t) (t_files t ++ replicate n None) (t_cloexec t ++ replicate n false).

Lemma longer_refl t : longer t t.
Proof. exists 0%nat. simpl. rewrite !app_nil_r. by destruct t. Qed.

Lemma longer_slots t t' : longer t t' -> (forall b, slots b t' = slots b t) /\ full t' = full t.
Proof.
  intros [n ->]. unfold slots, full. simpl. split; [intros b; rewrite occ_app, occ_replicate by done; lia |].
  rewrite length_app, length_replicate, occ_app. assert (occ None (replicate n (@None Z)) = n) as ->; [| pose proof (occ_le None (t_files t)); lia].
  induction n; simpl; [done |]. rewrite occ_self. by f_equal.
Qed.

Lemma wf_longer w held p t t' : wf w held -> w_tables w !! p = Some t -> longer t t' -> wf (put_table p t' w) held.
Proof.
  intros Hwf Ep Hl. destruct (longer_slots t t' Hl) as [Hs Hf]. pose proof (wf_table _ _ Hwf p t Ep) as Hlen. apply (wf_put_table w held held p t); [done | done | | |].
  - destruct Hl as [n ->]. simpl. rewrite !length_app, !length_replicate. lia.
  - intros b. by rewrite Hs.
  - lia.
Qed.

(** What expanding does: the table as it was, or one with the descriptor in it. *)
Lemma expand_ok e t max : 0 <= max < 2 ^ 31 -> exists err t', fdtable_expand e t max = Some (err, t') /\ longer t t' /\
  (err < 0 -> t' = t /\ (err = _EMFILE /\ e_limit e <= max \/ err = _ENOMEM /\ e_mem e = false)) /\ (0 <= err -> err = 0 /\ max < t_size t' /\ max < e_limit e).
Proof.
  intros Hm. unfold fdtable_expand. rewrite u32_small by lia. destruct (Z.gtb_spec (max + 1) (e_limit e)).
  { eexists _, _. split; [done |]. split; [apply longer_refl |]. unfold _EMFILE. split; [| lia]. split; [done | left; lia]. }
  destruct (Z.geb_spec (t_size t) (max + 1)).
  { eexists _, _. split; [done |]. split; [apply longer_refl |]. split; lia. }
  unfold fdtable_resize. destruct (Z.gtb_spec (max + 1) (t_size t)); [| lia]. cbn [negb]. destruct (e_mem e) eqn:Em; cbn [negb].
  - eexists _, _. split; [done |]. split; [by eexists |]. split; [lia |]. intros _. split; [done |]. unfold t_size in *. simpl. rewrite length_app, length_replicate. lia.
  - eexists _, _. split; [done |]. split; [apply longer_refl |]. unfold _ENOMEM. split; [| lia]. split; [done | right; lia].
Qed.

Lemma get_lookup t f a : fdtable_get t f = Some a <-> 0 <= f /\ t_files t !! Z.to_nat f = Some (Some a).
Proof.
  unfold fdtable_get, t_size. destruct (Z.ltb_spec f 0); [simpl; split; [done | lia] |]. cbn [orb].
  destruct (Z.geb_spec f (Z.of_nat (length (t_files t)))).
  - split; [done |]. intros [_ H1]. apply lookup_lt_Some in H1. lia.
  - destruct (t_files t !! Z.to_nat f) as [x |] eqn:E; simpl; [| split; [done | naive_solver]]. destruct x; naive_solver.
Qed.

Lemma get_refs w held p t f a : w_tables w !! p = Some t -> fdtable_get t f = Some a -> (0 < refs w held a)%nat.
Proof.
  intros Ep Hg. apply get_lookup in Hg as [_ Hg]. unfold refs. pose proof (msum_at (slots a) (w_tables w) p t Ep).
  assert (0 < slots a t)%nat by (apply occ_elem; by eapply list_elem_of_lookup_2). lia.
Qed.

Lemma wf_set_bit w held p t f b : wf w held -> w_tables w !! p = Some t -> wf (put_table p (set_bit t f b) w) held.
Proof.
  intros Hwf Ep. pose proof (wf_table _ _ Hwf p t Ep). apply (wf_put_table w held held p t); [done | done | | done | done].
  simpl. by rewrite length_insert.
Qed.

(** The slot [f] from [x] to [y]. *)
Lemma wf_set_slot w held held' p t f x y b :
  wf w held -> w_tables w !! p = Some t -> 0 <= f -> t_files t !! Z.to_nat f = Some x ->
  (forall a, occ a (match y with Some c => [c] | None => [] end ++ held') = occ a (match x with Some c => [c] | None => [] end ++ held)) ->
  length (match y with Some c => [c] | None => [] end ++ held') = length (match x with Some c => [c] | None => [] end ++ held) ->
  wf (put_table p (set_slot t f y b) w) held'.
Proof.
  intros Hwf Ep Hf Hx Hocc Hlen. pose proof (wf_table _ _ Hwf p t Ep). apply (wf_put_table w held held' p t); [done | done | | |].
  - simpl. by rewrite !length_insert.
  - intros a. unfold slots, set_slot. simpl. pose proof (occ_insert (Some a) (t_files t) (Z.to_nat f) x y Hx) as E. specialize (Hocc a).
    rewrite !occ_app in Hocc.
    assert (forall z, occ a (match z with Some c => [c] | None => [] end) = (if decide (z = Some a) then 1 else 0)%nat) as Hz.
    { intros [c |]; [| done]. rewrite occ_cons. unfold occ at 1. simpl. destruct (decide (c = a)), (decide (Some c = Some a)); try congruence; done. }
    rewrite !Hz in Hocc. lia.
  - unfold full, set_slot. simpl. rewrite length_insert. pose proof (occ_insert None (t_files t) (Z.to_nat f) x y Hx) as E.
    pose proof (occ_le None (t_files t)). pose proof (occ_le None (<[Z.to_nat f := y]> (t_files t))) as Hle. rewrite length_insert in Hle.
    rewrite !length_app in Hlen. destruct x, y; simpl in *; lia.
Qed.

Lemma wf_detach w held p t f a t' :
  wf w held -> w_tables w !! p = Some t -> fdtable_detach t f = (Some a, t') -> wf (put_table p t' w) (a :: held).
Proof.
  intros Hwf Ep Hd. unfold fdtable_detach in Hd. destruct (fdtable_get t f) as [a' |] eqn:Eg; [| done]. injection Hd as -> <-.
  apply get_lookup in Eg as [Hf Hx]. by apply (wf_set_slot w held (a :: held) p t f (Some a)).
Qed.

Lemma wf_fill w held p t f a b :
  wf w (a :: held) -> w_tables w !! p = Some t -> 0 <= f -> t_files t !! Z.to_nat f = Some None -> wf (put_table p (set_slot t f (Some a) b) w) held.
Proof. intros Hwf Ep Hf Hx. by apply (wf_set_slot w (a :: held) held p t f None). Qed.

(** ** Installing a file *)

Lemma free_slot_spec files f size n :
  0 <= f -> size <= Z.of_nat (length files) -> Z.of_nat n = Z.max 0 (size - f) ->
  let g := free_slot files f size n in
  f <= g /\ (forall k, f <= k < g -> k < size -> exists a, files !! Z.to_nat k = Some (Some a)) /\
  (g < size -> files !! Z.to_nat g = Some None) /\ (size <= g -> g = Z.max f size).
Proof.
  revert f. induction n as [| n IH]; intros f Hf Hs Hn g; subst g; simpl; [split; [lia |]; split; [lia | lia] |].
  destruct (Z.geb_spec f size); [lia |]. destruct (files !! Z.to_nat f) as [[a |] |] eqn:E.
  - destruct (IH (f + 1) ltac:(lia) Hs ltac:(lia)) as (H1 & H2 & H3 & H4). split; [lia |]. split; [| split; [done | lia]].
    intros k Hk Hks. destruct (decide (k = f)) as [-> | Hne]; [by exists a | apply H2; lia].
  - split; [lia |]. split; [lia |]. split; [done | lia].
  - apply lookup_ge_None in E. lia.
Qed.

(** What a successful or failed installation is: the lowest free descriptor, or
    none below the limit, or no memory. *)
Inductive installed (e : env) (t : fdtable) (a start : Z) : Z -> fdtable -> Prop :=
| Inst f t' : longer t t' -> start <= f < e_limit e -> t_files t' !! Z.to_nat f = Some None ->
    (forall k, start <= k < f -> exists b, fdtable_get t k = Some b) -> installed e t a start f (set_slot t' f (Some a) false)
| Inst_full : (forall k, start <= k < e_limit e -> exists b, fdtable_get t k = Some b) -> installed e t a start _EMFILE t
| Inst_nomem : e_mem e = false -> installed e t a start _ENOMEM t.

Lemma longer_lookup t t' k x : longer t t' -> t_files t !! k = Some x -> t_files t' !! k = Some x.
Proof. intros [n ->] H. simpl. by apply lookup_app_l_Some. Qed.

Lemma install_ok e w held p t a start :
  wf w (a :: held) -> w_tables w !! p = Some t -> 0 <= start < 2 ^ 31 -> 0 <= e_limit e < 2 ^ 31 ->
  exists f w' t', f_install_start e w p a start = Some (f, w') /\ wf w' held /\ installed e t a start f t' /\
    w_tables w' = <[p := t']> (w_tables w) /\ (0 <= f -> w_fds w' = w_fds w).
Proof.
  intros Hwf Ep Hst Hlim. unfold f_install_start. destruct (Z.ltb_spec start 0); [lia |]. rewrite Ep. cbn [mbind option_bind].
  rewrite (u32_small (e_limit e)) by lia. set (size := if e_limit e >? t_size t then t_size t else e_limit e).
  assert (size = Z.min (e_limit e) (t_size t)) as Hsize by (unfold size; destruct (Z.gtb_spec (e_limit e) (t_size t)); lia).
  destruct (free_slot_spec (t_files t) start size (Z.to_nat (size - start))) as (H1 & H2 & H3 & H4); [lia | unfold t_size in *; lia | lia |].
  set (f := free_slot _ _ _ _) in *. assert (forall k, start <= k < f -> k < size -> exists b, fdtable_get t k = Some b) as Hocc.
  { intros k Hk Hks. destruct (H2 k Hk Hks) as [b Hb]. exists b. apply get_lookup. split; [lia | done]. }
  destruct (Z.geb_spec f size) as [Hge | Hlt].
  - destruct (expand_ok e t f ltac:(rewrite (H4 Hge); lia)) as (err & t' & -> & Hlong & Herr & Hok). cbn [mbind option_bind].
    destruct (Z.ltb_spec err 0) as [Hneg | Hpos].
    + destruct (Herr Hneg) as [-> Hwhy]. destruct (Z.geb_spec err 0); [lia |].
      assert (put_table p t w = w) as -> by (unfold put_table; rewrite insert_id by done; by destruct w).
      destruct (close_ok e w held a Hwf) as (r & w' & -> & Hwf' & Ht). cbn [mbind option_bind]. exists err, w', t. split; [done |]. split; [done |].
      split; [| split; [rewrite Ht; by rewrite insert_id | lia]].
      destruct Hwhy as [[-> Hl] | [-> Hl]]; [apply Inst_full; intros k Hk; apply Hocc; rewrite (H4 Hge) in *; lia |].
      by apply Inst_nomem.
    + destruct (Hok Hpos) as (-> & Hsz & Hfl). destruct (Z.geb_spec f 0); [| lia].
      assert (t_files t' !! Z.to_nat f = Some None) as Hnone.
      { rewrite (H4 Hge) in *. destruct Hlong as [n ->]. unfold t_size in *. simpl in *. rewrite length_app, length_replicate in Hsz.
        rewrite lookup_app_r by lia. apply lookup_replicate_2. lia. }
      exists f, (put_table p (set_slot t' f (Some a) false) w), (set_slot t' f (Some a) false). split; [done |]. split; [| split; [| done]].
      * assert (put_table p (set_slot t' f (Some a) false) w = put_table p (set_slot t' f (Some a) false) (put_table p t' w)) as -> by (unfold put_table; simpl; by rewrite insert_insert_eq).
        apply wf_fill; [by apply (wf_longer w _ p t) | apply lookup_insert_eq | lia | done].
      * apply Inst; [done | lia | done |]. intros k Hk. apply Hocc; [lia |]. rewrite (H4 Hge) in *. lia.
  - cbn [mbind option_bind]. destruct (Z.geb_spec f 0); [| lia]. exists f, (put_table p (set_slot t f (Some a) false) w), (set_slot t f (Some a) false).
    split; [done |]. split; [apply wf_fill; auto; lia |]. split; [| done]. apply Inst; [apply longer_refl | lia | auto |]. intros k Hk. apply Hocc; lia.
Qed.

(** ** Whole operations *)

(** A change of flags. *)
Lemma wf_flags w held a d d' : wf w held -> w_fds w !! a = Some d -> f_inode d' = f_inode d -> f_refcount d' = f_refcount d -> wf (put_fd a d' w) held.
Proof.
  intros Hwf Ed Ei Er. destruct (wf_here _ _ _ _ Hwf Ed) as [H1 H2]. apply (wf_put_fd w held held a d); try done; [apply Hwf | congruence].
Qed.

Lemma setflags_same e a d flags : f_inode (fst (fd_setflags e a d flags)) = f_inode d /\ f_refcount (fst (fd_setflags e a d flags)) = f_refcount d.
Proof. unfold fd_setflags. by destruct (e_setflags e a). Qed.

Lemma f_install_ok e w held p t a flags :
  wf w (a :: held) -> w_tables w !! p = Some t -> 0 <= e_limit e < 2 ^ 31 ->
  exists f w' t', f_install e w p a flags = Some (f, w') /\ wf w' held /\ installed e t a 0 f t' /\
    w_tables w' = <[p := if (0 <=? f) && has_flag flags O_CLOEXEC_ then set_bit t' f true else t']> (w_tables w).
Proof.
  intros Hwf Ep Hlim. destruct (install_ok e w held p t a 0 Hwf Ep ltac:(lia) Hlim) as (f & w' & t' & E & Hwf' & Hi & Ht & Hfds).
  unfold f_install. rewrite E. cbn [mbind option_bind]. exists f. destruct (Z.ltb_spec f 0).
  - exists w', t'. destruct (Z.leb_spec 0 f); [lia |]. done.
  - rewrite Ht, lookup_insert_eq. cbn [mbind option_bind]. destruct (Z.leb_spec 0 f); [| lia]. cbn [andb].
    set (w2 := if has_flag flags O_CLOEXEC_ then put_table p (set_bit t' f true) w' else w').
    assert (wf w2 held /\ w_fds w2 = w_fds w' /\ w_tables w2 = <[p := if has_flag flags O_CLOEXEC_ then set_bit t' f true else t']> (w_tables w)) as (Hwf2 & Hf2 & Ht2).
    { unfold w2. destruct (has_flag flags O_CLOEXEC_); [| done]. split; [apply wf_set_bit; [done | by rewrite Ht, lookup_insert_eq] |].
      split; [done |]. simpl. by rewrite Ht, insert_insert_eq. }
    destruct (has_flag flags O_NONBLOCK_); [| by exists w2, t'].
    destruct (wf_live w (a :: held) a Hwf) as [d Ed]; [unfold refs; rewrite occ_self; lia |].
    rewrite Hf2, Hfds, Ed by done. cbn [mbind option_bind]. eexists _, t'. split; [done |]. split; [| done].
    destruct (setflags_same e a d O_NONBLOCK_). apply (wf_flags w2 held a d); [done | by rewrite Hf2, Hfds | done | done].
Qed.

Lemma few_cons w held a : Z.of_nat (total w held) + 1 < 2 ^ 32 -> wf w held -> few w (a :: held).
Proof. intros H [_ _ _ [_ H2]]. split; [| done]. unfold total in *. simpl. lia. Qed.

Lemma dup_ok e w held p t f a : wf w held -> w_tables w !! p = Some t -> fdtable_get t f = Some a -> 0 <= e_limit e < 2 ^ 31 ->
  Z.of_nat (total w held) + 1 < 2 ^ 32 -> exists f' w' t', dup_install e w p a = Some (f', w') /\ wf w' held /\ installed e t a 0 f' t' /\ w_tables w' = <[p := t']> (w_tables w).
Proof.
  intros Hwf Ep Hg Hlim Hfew. destruct (retain_ok w held a Hwf (get_refs _ _ _ _ _ _ Ep Hg) (few_cons _ _ _ Hfew Hwf)) as (w1 & E & Hwf1 & Ht & _).
  unfold dup_install. rewrite E. cbn [mbind option_bind]. destruct (f_install_ok e w1 held p t a 0) as (f' & w' & t' & -> & Hwf' & Hi & Ht'); [done | by rewrite Ht | done |].
  rewrite andb_false_r in Ht'. exists f', w', t'. rewrite <- Ht. done.
Qed.

(** A slot in a longer table. *)
Lemma longer_get t t' f : longer t t' -> fdtable_get t' f = fdtable_get t f.
Proof.
  intros Hl. destruct (fdtable_get t f) as [a |] eqn:E.
  - apply get_lookup in E as [Hf E]. apply get_lookup. split; [done | by apply (longer_lookup t)].
  - destruct (fdtable_get t' f) as [a |] eqn:E'; [| done]. apply get_lookup in E' as [Hf E']. destruct Hl as [n ->]. simpl in E'.
    apply lookup_app_Some in E' as [E' | [_ E']]; [| by apply lookup_replicate_1 in E' as [? _]].
    assert (fdtable_get t f = Some a) by (by apply get_lookup). congruence.
Qed.

(** The slot after a detach is free. *)
Lemma detach_slot t f o t' : 0 <= f < t_size t -> fdtable_detach t f = (o, t') -> t_files t' !! Z.to_nat f = Some None /\ o = fdtable_get t f.
Proof.
  intros Hf Hd. unfold fdtable_detach in Hd. unfold t_size in Hf. destruct (lookup_lt_is_Some_2 (t_files t) (Z.to_nat f) ltac:(lia)) as [x Hx].
  destruct (fdtable_get t f) as [a |] eqn:Eg; injection Hd as <- <-.
  - split; [| done]. simpl. apply list_lookup_insert_eq. by eapply lookup_lt_Some.
  - split; [| done]. destruct x as [a |]; [| done]. assert (fdtable_get t f = Some a) by (apply get_lookup; split; [lia | done]). congruence.
Qed.

(** Taking out whatever is at [f]. *)
Lemma wf_detach_opt w held p t f o t' :
  wf w held -> w_tables w !! p = Some t -> fdtable_detach t f = (o, t') -> wf (put_table p t' w) (option_list o ++ held).
Proof.
  intros Hwf Ep Hd. destruct o as [a |]; [by apply (wf_detach w held p t f) |]. simpl.
  assert (t' = t) as ->. { unfold fdtable_detach in Hd. destruct (fdtable_get t f); congruence. }
  assert (put_table p t w = w) as -> by (unfold put_table; rewrite insert_id by done; by destruct w). done.
Qed.

Lemma set_slot_twice t f x b y c : set_slot (set_slot t f x b) f y c = set_slot t f y c.
Proof. unfold set_slot. simpl. by rewrite !list_insert_insert_eq. Qed.

(** What dup3 does to the table: nothing, or the new slot; and what was there. *)
Inductive duped (e : env) (t : fdtable) (f new_f flags : Z) : Z -> option Z -> fdtable -> Prop :=
| Duped a t1 : fdtable_get t f = Some a -> f <> new_f -> 0 <= new_f < e_limit e -> longer t t1 -> new_f < t_size t1 ->
    duped e t f new_f flags new_f (fdtable_get t new_f) (set_slot t1 new_f (Some a) (has_flag flags O_CLOEXEC_))
| Duped_not r : r < 0 -> (flags .& Z.lnot O_CLOEXEC_ <> 0 \/ new_f < 0 \/ f = new_f \/ fdtable_get t f = None \/ e_limit e <= new_f \/ e_mem e = false) ->
    duped e t f new_f flags r None t.

Lemma dup3_ok e w held p t f new_f flags :
  wf w held -> w_tables w !! p = Some t -> 0 <= e_limit e < 2 ^ 31 -> new_f < 2 ^ 31 -> Z.of_nat (total w held) + 1 < 2 ^ 32 ->
  exists r o w' t', dup3_locked e w p f new_f flags = Some (r, o, w') /\ wf w' (option_list o ++ held) /\
    w_tables w' = <[p := t']> (w_tables w) /\ duped e t f new_f flags r o t'.
Proof.
  intros Hwf Ep Hlim Hnew Hfew. assert (put_table p t w = w) as Hid by (unfold put_table; rewrite insert_id by done; by destruct w).
  assert (forall r, r < 0 -> (flags .& Z.lnot O_CLOEXEC_ <> 0 \/ new_f < 0 \/ f = new_f \/ fdtable_get t f = None \/ e_limit e <= new_f \/ e_mem e = false) ->
    exists r0 o w' t', Some (r, None, w) = Some (r0, o, w') /\ wf w' (option_list o ++ held) /\
    w_tables w' = <[p := t']> (w_tables w) /\ duped e t f new_f flags r0 o t') as Hfail.
  { intros r Hr Hwhy. exists r, None, w, t. split; [done |]. split; [done |]. split; [by rewrite insert_id | by apply Duped_not]. }
  unfold dup3_locked. destruct (Z.eqb_spec (flags .& Z.lnot O_CLOEXEC_) 0); cbn [negb]; [| apply Hfail; by auto]. destruct (Z.ltb_spec new_f 0); [apply Hfail; by auto |].
  destruct (Z.eqb_spec f new_f); [apply Hfail; by auto |]. rewrite Ep. cbn [mbind option_bind]. destruct (fdtable_get t f) as [a |] eqn:Eg; [| apply Hfail; by auto].
  destruct (expand_ok e t new_f ltac:(lia)) as (err & t1 & -> & Hl & Herr & Hok). cbn [mbind option_bind]. destruct (Z.ltb_spec err 0) as [Hneg | Hpos].
  { destruct (Herr Hneg) as [-> Hwhy]. rewrite Hid. apply Hfail; [done |]. destruct Hwhy as [[_ ?] | [_ ?]]; auto 10. }
  destruct (Hok Hpos) as (_ & Hsz & Hfl). destruct (retain_ok w held a Hwf (get_refs _ _ _ _ _ _ Ep Eg) (few_cons _ _ _ Hfew Hwf)) as (w1 & -> & Hwf1 & Ht & _).
  cbn [mbind option_bind]. destruct (fdtable_detach t1 new_f) as [o t2] eqn:Ed. destruct (detach_slot t1 new_f o t2 ltac:(lia) Ed) as [Hnone Ho].
  assert (w_tables w1 !! p = Some t) as Ep1 by (by rewrite Ht). set (t3 := set_slot t2 new_f (Some a) (has_flag flags O_CLOEXEC_)).
  exists new_f, o, (put_table p t3 w1), t3. split; [done |]. split; [| split; [unfold put_table; simpl; by rewrite Ht |]].
  - set (w2 := put_table p t2 (put_table p t1 w1)). assert (put_table p t3 w1 = put_table p t3 w2) as -> by (unfold w2, put_table; simpl; by rewrite !insert_insert_eq).
    apply wf_fill; [| apply lookup_insert_eq | lia | done]. rewrite (Permutation_middle (option_list o) held a).
    apply (wf_detach_opt (put_table p t1 w1) (a :: held) p t1 new_f); [by apply (wf_longer w1 _ p t) | apply lookup_insert_eq | done].
  - assert (t3 = set_slot t1 new_f (Some a) (has_flag flags O_CLOEXEC_)) as ->.
    { unfold t3, fdtable_detach in *. destruct (fdtable_get t1 new_f); injection Ed as _ <-; [by rewrite set_slot_twice | done]. }
    rewrite Ho, (longer_get t t1) by done. by apply Duped.
Qed.

(** ** Copying a table *)

Lemma retain_all_ok w held files :
  wf w held -> (forall a, Some a ∈ files -> (0 < refs w held a)%nat) -> Z.of_nat (total w held + length (omap id files)) < 2 ^ 32 ->
  exists w', retain_all w files = Some w' /\ wf w' (omap id files ++ held) /\ tables_kept w w'.
Proof.
  revert w held. induction files as [| [a |] files IH]; intros w held Hwf Hr Hfew; simpl in *.
  - by exists w.
  - change (list_omap (option Z) Z id files) with (omap id files) in *. destruct (retain_ok w held a Hwf) as (w1 & -> & Hwf1 & Ht & _); [apply Hr; left | apply few_cons; [lia | done] |]. cbn [mbind option_bind].
    assert (total w1 (a :: held) = S (total w held)) as Htot by (unfold total; rewrite Ht; simpl; lia).
    destruct (IH w1 (a :: held) Hwf1) as (w2 & -> & Hwf2 & Ht2).
    + intros b Hb. specialize (Hr b ltac:(by right)). unfold refs in *. rewrite Ht, occ_cons. lia.
    + rewrite Htot. simpl in Hfew. lia.
    + exists w2. split; [done |]. split; [by rewrite (Permutation_middle (omap id files) held a) |]. unfold tables_kept in *. congruence.
  - apply IH; [done | | done]. intros a Ha. apply Hr. by right.
Qed.

Lemma omap_slots a t : occ a (omap id (t_files t)) = slots a t.
Proof.
  unfold slots. induction (t_files t) as [| [b |] l IH]; simpl; [done | |]; rewrite ?occ_cons; [| done].
  change (list_omap (option Z) Z id l) with (omap id l). rewrite IH. destruct (decide (b = a)), (decide (Some b = Some a)); congruence.
Qed.
Lemma omap_full t : length (omap id (t_files t)) = full t.
Proof.
  unfold full. induction (t_files t) as [| [b |] l IH]; [done | |]; rewrite occ_cons; pose proof (occ_le None l).
  - change (length (omap id (Some b :: l))) with (S (length (omap id l))). simpl length at 2. rewrite decide_False by done. lia.
  - change (length (omap id (None :: l))) with (length (omap id l)). simpl length at 2. rewrite decide_True by done. lia.
Qed.

Lemma wf_new_table w held p t :
  wf w (omap id (t_files t) ++ held) -> w_tables w !! p = None -> length (t_cloexec t) = length (t_files t) -> wf (put_table p t w) held.
Proof.
  intros [H1 H2 H3 [Hf1 Hf2]] Hp Hl. split; [| done | |].
  - intros a. specialize (H1 a). unfold refs, put_table in *. simpl. rewrite msum_fresh by done. rewrite occ_app, omap_slots in H1.
    replace (slots a t + msum (slots a) (w_tables w) + occ a held)%nat with (msum (slots a) (w_tables w) + (slots a t + occ a held))%nat by lia. done.
  - intros q u. unfold put_table. simpl. destruct (decide (q = p)) as [-> | Hne]; [rewrite lookup_insert_eq; by intros [= <-] |].
    rewrite lookup_insert_ne by congruence. apply H3.
  - unfold few, total, put_table in *. simpl. rewrite msum_fresh by done. rewrite length_app, omap_full in Hf1. split; [lia | done].
Qed.

Lemma copy_ok e w held p p' t :
  wf w held -> w_tables w !! p = Some t -> w_tables w !! p' = None -> 0 < t_size t -> Z.of_nat (total w held + full t) < 2 ^ 32 ->
  exists r w', fdtable_copy e w p p' = Some (r, w') /\ wf w' held /\
    ((r < 0 /\ w' = w) \/ (r = 0 /\ w_tables w' = <[p' := mk_table 1 (t_files t) (t_cloexec t)]> (w_tables w))).
Proof.
  intros Hwf Ep Hp' Hsz Hfew. unfold fdtable_copy. rewrite Ep. cbn [mbind option_bind]. unfold fdtable_new, fdtable_resize.
  destruct (e_mem e); cbn [negb mbind option_bind]; [| eexists _, w; split; [done |]; split; [done | by left]].
  destruct (Z.gtb_spec (t_size t) (t_size (mk_table 1 [] []))); [| unfold t_size at 2 in H; simpl in *; lia]. cbn [negb mbind option_bind Z.ltb Z.compare t_refcount].
  destruct (retain_all_ok w held (t_files t) Hwf) as (w1 & -> & Hwf1 & Ht).
  - intros a Ha. unfold refs. pose proof (msum_at (slots a) (w_tables w) p t Ep). assert (0 < slots a t)%nat by (by apply occ_elem). lia.
  - by rewrite omap_full.
  - cbn [mbind option_bind]. eexists _, _. split; [done |]. split; [| right; split; [done | by rewrite <- Ht]].
    apply wf_new_table; [done | by rewrite Ht | exact (wf_table _ _ Hwf p t Ep)].
Qed.

(** ** What a table says of a descriptor *)

Definition view (t : fdtable) (k : Z) : option (Z * bool) := match fdtable_get t k with Some a => Some (a, bit_of t k) | None => None end.

Lemma get_set_slot t f x b k : 0 <= f < t_size t -> fdtable_get (set_slot t f x b) k = if k =? f then x else fdtable_get t k.
Proof.
  intros Hf. unfold t_size in Hf. unfold fdtable_get, t_size. simpl. rewrite length_insert. destruct (Z.eqb_spec k f) as [-> | Hne].
  - destruct (Z.ltb_spec f 0); [lia |]. destruct (Z.geb_spec f (Z.of_nat (length (t_files t)))); [lia |]. simpl.
    rewrite list_lookup_insert_eq by lia. done.
  - destruct (Z.ltb_spec k 0); [done |]. destruct (Z.geb_spec k (Z.of_nat (length (t_files t)))); [done |]. simpl.
    rewrite list_lookup_insert_ne by lia. done.
Qed.

Lemma bit_set_slot t f x b k : 0 <= f < t_size t -> length (t_cloexec t) = length (t_files t) -> 0 <= k ->
  bit_of (set_slot t f x b) k = if k =? f then b else bit_of t k.
Proof.
  intros Hf Hl Hk. unfold t_size in Hf. unfold bit_of. simpl. destruct (Z.eqb_spec k f) as [-> | Hne].
  - rewrite list_lookup_insert_eq by lia. done.
  - rewrite list_lookup_insert_ne by lia. done.
Qed.

Lemma get_range t k a : fdtable_get t k = Some a -> 0 <= k < t_size t.
Proof. intros H. apply get_lookup in H as [Hk H]. apply lookup_lt_Some in H. unfold t_size. lia. Qed.

Lemma view_set_slot t f x b k : 0 <= f < t_size t -> length (t_cloexec t) = length (t_files t) ->
  view (set_slot t f x b) k = if k =? f then match x with Some a => Some (a, b) | None => None end else view t k.
Proof.
  intros Hf Hl. unfold view. rewrite get_set_slot by done. destruct (Z.eqb_spec k f) as [-> | Hne].
  - destruct x as [a |]; [| done]. rewrite bit_set_slot by (done || lia). by rewrite Z.eqb_refl.
  - destruct (fdtable_get t k) as [a |] eqn:E; [| done]. apply get_range in E. rewrite bit_set_slot by (done || lia).
    by destruct (Z.eqb_spec k f).
Qed.

Lemma view_longer t t' k : longer t t' -> length (t_cloexec t) = length (t_files t) -> view t' k = view t k.
Proof.
  intros Hl Hlen. unfold view. rewrite (longer_get t t') by done. destruct (fdtable_get t k) as [a |] eqn:E; [| done].
  do 2 f_equal. apply get_range in E. destruct Hl as [n ->]. unfold bit_of. simpl. unfold t_size in E. by rewrite lookup_app_l by lia.
Qed.

(** ** Closing several *)

(** A table with some slots emptied. *)
Record emptied (t : fdtable) (gone : Z -> bool) (t' : fdtable) : Prop := mk_emptied {
  em_count : t_refcount t' = t_refcount t; em_size : length (t_files t') = length (t_files t);
  em_view : forall k, view t' k = if gone k then None else view t k }.

Lemma fdtable_close_ok e w held p t f : wf w held -> w_tables w !! p = Some t ->
  exists r w' t', fdtable_close e w p f = Some (r, w') /\ wf w' held /\ w_tables w' = <[p := t']> (w_tables w) /\
    emptied t (fun k => k =? f) t' /\ (forall k, 0 <= k -> k <> f -> bit_of t' k = bit_of t k).
Proof.
  intros Hwf Ep. pose proof (wf_table _ _ Hwf p t Ep) as Hlen. unfold fdtable_close. rewrite Ep. cbn [mbind option_bind]. unfold fdtable_detach.
  destruct (fdtable_get t f) as [a |] eqn:Eg.
  - pose proof (get_range _ _ _ Eg) as Hf. destruct (finish_close_ok e (put_table p (set_slot t f None false) w) held a p) as (r & w' & -> & Hwf' & Ht).
    { apply (wf_detach w held p t f); [done | done |]. unfold fdtable_detach. by rewrite Eg. }
    exists r, w', (set_slot t f None false). split; [done |]. split; [done |]. split; [by rewrite Ht |]. split.
    + split; [done | simpl; apply length_insert |]. intros k. rewrite view_set_slot by done. by destruct (k =? f).
    + intros k Hk Hne. rewrite bit_set_slot by (done || lia). by destruct (Z.eqb_spec k f).
  - exists _EBADF, w, t. split; [done |]. split; [done |]. split; [by rewrite insert_id |]. split; [| done]. split; [done | done |].
    intros k. destruct (Z.eqb_spec k f) as [-> |]; [| done]. unfold view. by rewrite Eg.
Qed.

Lemma close_slots_ok e held p which (Hwhich : forall t t' k, bit_of t' k = bit_of t k -> which t' k = which t k) n :
  forall w t f, wf w held -> w_tables w !! p = Some t -> 0 <= f ->
  exists w' t', close_slots e w p f n which = Some w' /\ wf w' held /\ w_tables w' = <[p := t']> (w_tables w) /\
    emptied t (fun k => (f <=? k) && (k <? f + Z.of_nat n) && which t k) t'.
Proof.
  induction n as [| n IH]; intros w t f Hwf Ep Hf; cbn [close_slots].
  - exists w, t. split; [done |]. split; [done |]. split; [by rewrite insert_id |]. split; [done | done |]. intros k.
    destruct (Z.leb_spec f k), (Z.ltb_spec k (f + Z.of_nat 0)); done || lia.
  - rewrite Ep. cbn [mbind option_bind]. destruct (which t f) eqn:Ew.
    + destruct (fdtable_close_ok e w held p t f Hwf Ep) as (r & w1 & t1 & -> & Hwf1 & Ht1 & [C1 S1 V1] & B1). cbn [mbind option_bind].
      destruct (IH w1 t1 (f + 1) Hwf1) as (w2 & t2 & -> & Hwf2 & Ht2 & [C2 S2 V2]); [by rewrite Ht1, lookup_insert_eq | lia |].
      exists w2, t2. split; [done |]. split; [done |]. split; [by rewrite Ht2, Ht1, insert_insert_eq |]. split; [congruence | congruence |].
      intros k. rewrite V2, V1. destruct (Z.eqb_spec k f) as [-> | Hne].
      * rewrite Ew. destruct (Z.leb_spec (f + 1) f), (Z.leb_spec f f), (Z.ltb_spec f (f + Z.of_nat (S n))); done || lia.
      * destruct (Z.leb_spec (f + 1) k), (Z.leb_spec f k), (Z.ltb_spec k (f + 1 + Z.of_nat n)), (Z.ltb_spec k (f + Z.of_nat (S n))); try lia; try done.
        simpl. rewrite (Hwhich t t1 k); [done |]. apply B1; lia.
    + cbn [mbind option_bind]. destruct (IH w t (f + 1) Hwf Ep ltac:(lia)) as (w2 & t2 & -> & Hwf2 & Ht2 & [C2 S2 V2]).
      exists w2, t2. split; [done |]. split; [done |]. split; [done |]. split; [done | done |]. intros k. rewrite V2. destruct (decide (k = f)) as [-> | Hne].
      * rewrite Ew, !andb_false_r. destruct (Z.leb_spec (f + 1) f); [lia | done].
      * destruct (Z.leb_spec (f + 1) k), (Z.leb_spec f k), (Z.ltb_spec k (f + 1 + Z.of_nat n)), (Z.ltb_spec k (f + Z.of_nat (S n))); try lia; done.
Qed.

(** A table with nothing in it has no references. *)
Lemma view_none_slots t : (forall k, view t k = None) -> (forall a, slots a t = 0%nat) /\ full t = 0%nat.
Proof.
  intros Hv. assert (forall a, slots a t = 0%nat) as Hs.
  { intros a. destruct (slots a t) eqn:E; [done |]. exfalso. assert (Some a ∈ t_files t) as Hin by (apply occ_elem; unfold slots in E; lia).
    apply list_elem_of_lookup_1 in Hin as [k Hk]. specialize (Hv (Z.of_nat k)). unfold view in Hv.
    assert (fdtable_get t (Z.of_nat k) = Some a) as Hg by (apply get_lookup; split; [lia | by rewrite Nat2Z.id]). by rewrite Hg in Hv. }
  split; [done |]. unfold full. assert (length (t_files t) <= occ None (t_files t))%nat; [| lia].
  assert (forall l : list (option Z), (forall a, Some a ∉ l) -> occ None l = length l) as Hl.
  { induction l as [| [a |] l IH]; intros Ha; [done | exfalso; apply (Ha a); left |]. rewrite occ_self. simpl. f_equal. apply IH. intros a Hin. apply (Ha a). by right. }
  rewrite Hl; [done |]. intros a Hin. apply occ_elem in Hin. specialize (Hs a). unfold slots in Hs. lia.
Qed.

Lemma wf_drop_table w held p t : wf w held -> w_tables w !! p = Some t -> (forall k, view t k = None) ->
  wf (mk_w (w_fds w) (delete p (w_tables w)) (w_inodes w) (w_closed w)) held.
Proof.
  intros [H1 H2 H3 [Hf1 Hf2]] Ep Hv. destruct (view_none_slots t Hv) as [Hs Hfull]. split; [| done | |].
  - intros a. specialize (H1 a). unfold refs in *. simpl. rewrite (msum_delete _ _ p t Ep), Hs in H1. done.
  - intros q u Hq. simpl in Hq. apply lookup_delete_Some in Hq as [_ Hq]. by apply (H3 q).
  - unfold few, total in *. simpl. rewrite (msum_delete _ _ p t Ep), Hfull in Hf1. split; [lia | done].
Qed.

Lemma wf_count w held p t r : wf w held -> w_tables w !! p = Some t -> wf (put_table p (set_t_refcount r t) w) held.
Proof. intros Hwf Ep. pose proof (wf_table _ _ Hwf p t Ep). by apply (wf_put_table w held held p t). Qed.

Lemma release_ok e w held p t : wf w held -> w_tables w !! p = Some t ->
  exists w', fdtable_release e w p = Some w' /\ wf w' held /\
    w_tables w' = if t_refcount t =? 1 then delete p (w_tables w) else <[p := set_t_refcount (u32 (t_refcount t - 1)) t]> (w_tables w).
Proof.
  intros Hwf Ep. unfold fdtable_release. rewrite Ep. cbn [mbind option_bind]. set (t1 := set_t_refcount (u32 (t_refcount t - 1)) t).
  assert (wf (put_table p t1 w) held) as Hwf1 by (by apply wf_count). destruct (t_refcount t =? 1); cbn [negb]; [| by eexists].
  destruct (close_slots_ok e held p (fun _ _ => true) ltac:(done) (length (t_files t)) (put_table p t1 w) t1 0 Hwf1) as (w2 & t2 & -> & Hwf2 & Ht2 & [_ Hs Hv]);
    [apply lookup_insert_eq | lia |].
  cbn [mbind option_bind]. eexists. split; [done |]. split.
  - apply (wf_drop_table w2 held p t2 Hwf2); [by rewrite Ht2, lookup_insert_eq |]. intros k. rewrite Hv, andb_true_r.
    destruct (Z.leb_spec 0 k), (Z.ltb_spec k (0 + Z.of_nat (length (t_files t)))); try done; simpl; unfold view;
      destruct (fdtable_get t1 k) eqn:Eg; try done; apply get_range in Eg; unfold t_size, t1 in Eg; simpl in Eg; lia.
  - simpl. rewrite Ht2. simpl. by rewrite !delete_insert_eq.
Qed.

Lemma cloexec_ok e w held p t : wf w held -> w_tables w !! p = Some t ->
  exists w' t', fdtable_do_cloexec e w p = Some w' /\ wf w' held /\ w_tables w' = <[p := t']> (w_tables w) /\ emptied t (bit_of t) t'.
Proof.
  intros Hwf Ep. unfold fdtable_do_cloexec. rewrite Ep. cbn [mbind option_bind].
  destruct (close_slots_ok e held p bit_of ltac:(done) (length (t_files t)) w t 0 Hwf Ep ltac:(lia)) as (w' & t' & -> & Hwf' & Ht' & [H1 H2 H3]).
  exists w', t'. split; [done |]. split; [done |]. split; [done |]. split; [done | done |]. intros k. rewrite H3.
  destruct (bit_of t k); [| by rewrite andb_false_r]. rewrite andb_true_r. destruct (Z.leb_spec 0 k), (Z.ltb_spec k (0 + Z.of_nat (length (t_files t)))); try done;
    simpl; unfold view; destruct (fdtable_get t k) eqn:Eg; try done; apply get_range in Eg; unfold t_size in Eg; lia.
Qed.

Lemma unshare_ok e w held p p' t :
  wf w held -> w_tables w !! p = Some t -> w_tables w !! p' = None -> 0 < t_size t -> Z.of_nat (total w held + full t) < 2 ^ 32 ->
  exists r q w', fdtable_unshare_current e w p p' = Some (r, q, w') /\ wf w' held /\
    ((q = p /\ w' = w /\ (r < 0 \/ r = 0 /\ t_refcount t = 1)) \/
     (q = p' /\ r = 0 /\ t_refcount t <> 1 /\
      w_tables w' = <[p := set_t_refcount (u32 (t_refcount t - 1)) t]> (<[p' := mk_table 1 (t_files t) (t_cloexec t)]> (w_tables w)))).
Proof.
  intros Hwf Ep Hp' Hsz Hfew. assert (p <> p') as Hne by congruence. unfold fdtable_unshare_current. rewrite Ep. cbn [mbind option_bind].
  destruct (Z.eqb_spec (t_refcount t) 1) as [E1 | E1]; [eexists _, _, _; split; [done |]; split; [done |]; left; auto |].
  destruct (copy_ok e w held p p' t Hwf Ep Hp' Hsz Hfew) as (r & w1 & -> & Hwf1 & [[Hr ->] | [-> Ht1]]); cbn [mbind option_bind].
  { destruct (Z.ltb_spec r 0); [| lia]. eexists _, _, _. split; [done |]. split; [done |]. left. auto. }
  destruct (Z.ltb_spec 0 0); [lia |]. destruct (release_ok e w1 held p t Hwf1) as (w2 & -> & Hwf2 & Ht2); [by rewrite Ht1, lookup_insert_ne |].
  cbn [mbind option_bind]. eexists _, _, _. split; [done |]. split; [done |]. right. split; [done |]. split; [done |]. split; [done |].
  rewrite Ht2, Ht1. by destruct (Z.eqb_spec (t_refcount t) 1).
Qed.

(** ** close_range *)

Lemma view_set_bit t f b k : length (t_cloexec t) = length (t_files t) -> 0 <= f < t_size t ->
  view (set_bit t f b) k = if k =? f then match fdtable_get t f with Some a => Some (a, b) | None => None end else view t k.
Proof.
  intros Hl Hf. unfold view. assert (fdtable_get (set_bit t f b) k = fdtable_get t k) as -> by done. destruct (Z.eqb_spec k f) as [-> | Hne].
  - destruct (fdtable_get t f) as [a |]; [| done]. unfold bit_of. simpl. unfold t_size in Hf. by rewrite list_lookup_insert_eq by lia.
  - destruct (fdtable_get t k) as [a |] eqn:E; [| done]. unfold bit_of. simpl. apply get_range in E. by rewrite list_lookup_insert_ne by lia.
Qed.

(** Every file from [f] to [end_] marked close-on-exec; or the first one out. *)
Inductive scanned (t : fdtable) (f end_ : Z) : bool -> option (Z * Z) -> fdtable -> Prop :=
| Sc_marked t' : t_refcount t' = t_refcount t -> length (t_files t') = length (t_files t) ->
    (forall k, view t' k = match view t k with Some (a, b) => Some (a, b || ((f <=? k) && (k <=? end_))) | None => None end) ->
    scanned t f end_ true None t'
| Sc_none : (forall k, f <= k <= end_ -> view t k = None) -> scanned t f end_ false None t
| Sc_out a g t' : f <= g <= end_ -> (forall k, f <= k < g -> view t k = None) -> fdtable_get t g = Some a -> emptied t (fun k => k =? g) t' ->
    scanned t f end_ false (Some (a, g)) t'.

Lemma range_scan_ok p end_ held cloexec n : forall w t f,
  wf w held -> w_tables w !! p = Some t -> 0 <= f -> end_ < t_size t -> Z.of_nat n = Z.max 0 (end_ - f + 1) ->
  exists found w' t', range_scan w p f end_ cloexec n = Some (found, w') /\ wf w' (option_list (fst <$> found) ++ held) /\
    w_tables w' = <[p := t']> (w_tables w) /\ scanned t f end_ cloexec found t'.
Proof.
  induction n as [| n IH]; intros w t f Hwf Ep Hf He Hn; cbn [range_scan].
  - exists None, w, t. split; [done |]. split; [done |]. split; [by rewrite insert_id |]. destruct cloexec; [| apply Sc_none; lia].
    apply Sc_marked; [done | done |]. intros k. destruct (view t k) as [[a b] |]; [| done]. do 2 f_equal.
    destruct (Z.leb_spec f k), (Z.leb_spec k end_); try lia; by rewrite orb_false_r.
  - destruct (Z.gtb_spec f end_); [lia |]. rewrite Ep. cbn [mbind option_bind]. pose proof (wf_table _ _ Hwf p t Ep) as Hlen.
    destruct (lookup_lt_is_Some_2 (t_files t) (Z.to_nat f) ltac:(unfold t_size in *; lia)) as [x Hx]. rewrite Hx.
    assert (fdtable_get t f = x) as Hg. { unfold fdtable_get, t_size in *. destruct (Z.ltb_spec f 0), (Z.geb_spec f (Z.of_nat (length (t_files t)))); try lia. simpl. by rewrite Hx. }
    destruct x as [a |].
    + destruct cloexec.
      * destruct (IH (put_table p (set_bit t f true) w) (set_bit t f true) (f + 1)) as (found & w' & t' & -> & Hwf' & Ht' & Hsc);
          [by apply wf_set_bit | apply lookup_insert_eq | lia | done | lia |].
        exists found, w', t'. split; [done |]. split; [done |]. split; [rewrite Ht'; simpl; by rewrite insert_insert_eq |].
        inversion Hsc as [t'' H1 H2 H3 | |]; subst. apply Sc_marked; [done | done |]. intros k. rewrite H3, view_set_bit by (done || lia).
        destruct (Z.eqb_spec k f) as [-> | Hne].
        -- rewrite Hg. unfold view. rewrite Hg. simpl. destruct (Z.leb_spec f f), (Z.leb_spec f end_); try lia. by rewrite orb_true_r.
        -- destruct (view t k) as [[a' b] |]; [| done]. do 2 f_equal. destruct (Z.leb_spec (f + 1) k), (Z.leb_spec f k); try lia; done.
      * unfold fdtable_detach. rewrite Hg. exists (Some (a, f)), (put_table p (set_slot t f None false) w), (set_slot t f None false). split; [done |]. split.
        { apply (wf_detach w held p t f); [done | done |]. unfold fdtable_detach. by rewrite Hg. }
        split; [done |]. apply Sc_out; [lia | lia | done |]. split; [done | simpl; apply length_insert |]. intros k.
        rewrite view_set_slot by (done || lia). by destruct (k =? f).
    + destruct (IH w t (f + 1) Hwf Ep ltac:(lia) He ltac:(lia)) as (found & w' & t' & -> & Hwf' & Ht' & Hsc). exists found, w', t'.
      split; [done |]. split; [done |]. split; [done |]. assert (view t f = None) as Hv by (unfold view; by rewrite Hg).
      inversion Hsc as [t'' H1 H2 H3 | H1 | a g t'' H1 H2 H3 H4]; subst.
      * apply Sc_marked; [done | done |]. intros k. rewrite H3. destruct (decide (k = f)) as [-> | Hne]; [by rewrite Hv |].
        destruct (view t k) as [[a' b] |]; [| done]. do 2 f_equal. destruct (Z.leb_spec (f + 1) k), (Z.leb_spec f k); try lia; done.
      * apply Sc_none. intros k Hk. destruct (decide (k = f)) as [-> | Hne]; [done | apply H1; lia].
      * apply Sc_out; [lia | | done | done]. intros k Hk. destruct (decide (k = f)) as [-> | Hne]; [done | apply H2; lia].
Qed.

(** The rest of close_range, with the file that was at [f] in hand. *)
Lemma range_rest_ok e p end_ held n : forall w t a f,
  wf w (a :: held) -> w_tables w !! p = Some t -> 0 <= f <= end_ -> end_ < t_size t -> end_ - f + 1 <= Z.of_nat n ->
  exists w' t', close_range_rest e w p (Some (a, f, end_)) n = Some w' /\ wf w' held /\ w_tables w' = <[p := t']> (w_tables w) /\
    emptied t (fun k => (f <? k) && (k <=? end_)) t'.
Proof.
  induction n as [| n IH]; intros w t a f Hwf Ep Hf He Hn; [lia |]. cbn [close_range_rest].
  destruct (finish_close_ok e w held a p Hwf) as (r & w1 & -> & Hwf1 & Ht1). cbn [mbind option_bind]. assert (w_tables w1 !! p = Some t) as Ep1 by (by rewrite Ht1).
  unfold close_range_next. rewrite Ep1. cbn [mbind option_bind]. destruct (Z.eqb_spec (t_size t) 0); [lia |]. destruct (Z.geb_spec end_ (t_size t)); [lia |].
  destruct (range_scan_ok p end_ held false (Z.to_nat (end_ - f)) w1 t (f + 1) Hwf1 Ep1) as (found & w2 & t2 & -> & Hwf2 & Ht2 & Hsc); [lia | lia | lia |].
  cbn [mbind option_bind]. rewrite Ht1 in Ht2. inversion Hsc as [| H1 | b g t'' Hg H1 H2 H3]; subst.
  - assert (close_range_rest e w2 p None n = Some w2) as -> by (by destruct n). exists w2, t2. split; [done |]. split; [done |]. split; [done |]. split; [done | done |].
    intros k. destruct (Z.ltb_spec f k), (Z.leb_spec k end_); try done. simpl. apply H1. lia.
  - destruct H3 as [C2 S2 V2]. cbn [option_list fmap option_fmap option_map fst app] in Hwf2.
    destruct (IH w2 t2 b g Hwf2) as (w3 & t3 & -> & Hwf3 & Ht3 & [C3 S3 V3]); [by rewrite Ht2, lookup_insert_eq | lia | unfold t_size in *; lia | lia |].
    exists w3, t3. split; [done |]. split; [done |]. split; [by rewrite Ht3, Ht2, insert_insert_eq |]. split; [congruence | congruence |].
    intros k. rewrite V3, V2. destruct (Z.ltb_spec g k), (Z.ltb_spec f k), (Z.leb_spec k end_), (Z.eqb_spec k g); try lia; try done; simpl.
    apply H1. lia.
Qed.
