(* ===== verification/FdWorld.v ===== *)
(** * Descriptor calls of many threads (fs/fd.c)

    Threads share tables, and each call takes and leaves the table's lock as the
    code does: between its parts the calls of other threads run.  [run] is one
    such part; the theorem is that over every interleaving nothing freed is used
    and every count is exact.  What close, exec, fork, dup and close_range do to
    the descriptors of a table is proved for each of them. *)

From Stdlib Require Import ZifyBool.
From S2P Require Import Prelude User FileLock Counts FdTable FdRefs.

(** ** Threads *)

(** What a thread is in the middle of: a file to close, close_range with a file
    to close or about to look on, and a call that holds the file at [f]. *)
Inductive pending := Closing (a : Z) | Ranging (a f end_ : Z) | Rescan (f end_ : Z) | Using (a f : Z).
Definition pending_ref (k : option pending) : list Z :=
  match k with Some (Closing a) | Some (Ranging a _ _) | Some (Using a _) => [a] | _ => [] end.

(** Each thread's table and what it is in the middle of. *)
Record state := mk_state { s_w : world; s_tasks : gmap Z (Z * option pending) }.

(** One part of a call.  Opening stands for every call that makes a file, with
    or without an inode, and installs it. *)
Inductive call :=
| COpen (a : Z) (ino : option Z) (flags : Z)
| CClose (f : Z) | CFinish
| CDup (f : Z) | CDup2 (f new_f : Z) | CDup3 (f new_f flags : Z)
| CRange (first last flags p' : Z) | CRescan
| CFork (tid' : Z) (clone_files : bool) (p' : Z) | CExit | CExec | CUnshare (p' : Z)
| CGet (f : Z) | CPut | CDupfd (start : Z) (cloexec : bool) | CSetfd (bit : bool) | CSetfl (flags : Z).

(** A new file with its inode. *)
Definition open_file (w : world) (a : Z) (ino : option Z) (flags : Z) : world :=
  let w := fd_create w None a in
  match ino with
  | None => put_fd a (mk_fd 1 flags None None 0) w
  | Some i => put_fd a (mk_fd 1 flags (Some i) None 0) (inode_get w i)
  end.

Definition set_task (s : state) (tid p : Z) (k : option pending) (w : world) : state := mk_state w (<[tid := (p, k)]> (s_tasks s)).

Definition run_idle (e : env) (tid p : Z) (c : call) (s : state) : option state :=
  let w := s_w s in
  match c with
  | COpen a ino flags => '(_, w) ← f_install e (open_file w a ino flags) p a flags; Some (set_task s tid p None w)
  | CClose f => '(a, w) ← f_close_detach w p f; Some (set_task s tid p (Closing <$> a) w)
  | CDup f => '(_, w) ← sys_dup e w p f; Some (set_task s tid p None w)
  | CDup2 f new_f =>
      if new_f <? 0 then Some s else
      if f =? new_f then _ ← f_get w p f; Some s else
      '(_, replaced, w) ← dup3_locked e w p f new_f 0; Some (set_task s tid p (Closing <$> replaced) w)
  | CDup3 f new_f flags => '(_, replaced, w) ← dup3_locked e w p f new_f flags; Some (set_task s tid p (Closing <$> replaced) w)
  | CRange first last flags p' =>
      '(_, q, found, w) ← close_range_begin e w p p' first last flags;
      Some (set_task s tid q ((fun '(a, f, end_) => Ranging a f end_) <$> found) w)
  | CFork tid' true _ => w ← fdtable_retain w p; Some (set_task (mk_state w (s_tasks s)) tid' p None w)
  | CFork tid' false p' => '(err, w) ← fdtable_copy e w p p'; Some (if err <? 0 then mk_state w (s_tasks s) else set_task s tid' p' None w)
  | CExit => w ← fdtable_release e w p; Some (mk_state w (delete tid (s_tasks s)))
  | CExec => w ← fdtable_do_cloexec e w p; Some (set_task s tid p None w)
  | CUnshare p' => '(_, q, w) ← fdtable_unshare_current e w p p'; Some (set_task s tid q None w)
  | CGet f => '(a, w) ← f_get_retain w p f; Some (set_task s tid p (match a with Some a => Some (Using a f) | None => None end) w)
  | _ => None
  end.

Definition run_pending (e : env) (tid p : Z) (k : pending) (c : call) (s : state) : option state :=
  let w := s_w s in
  match k, c with
  | Closing a, CFinish => '(_, w) ← fdtable_finish_close e w a p; Some (set_task s tid p None w)
  | Ranging a f end_, CFinish => '(_, w) ← fdtable_finish_close e w a p; Some (set_task s tid p (Some (Rescan f end_)) w)
  | Rescan f end_, CRescan => '(found, w) ← close_range_next w p f end_; Some (set_task s tid p ((fun '(a, f, end_) => Ranging a f end_) <$> found) w)
  | Using a _, CPut => '(_, w) ← fd_close e w a; Some (set_task s tid p None w)
  | Using a f, CDupfd start cloexec =>
      if u64 start >=? e_limit e then Some s else
      w ← fd_retain w a;
      '(new_f, w) ← f_install_start e w p a start;
      if (new_f >=? 0) && cloexec then t ← w_tables w !! p; Some (set_task s tid p (Some k) (put_table p (set_bit t new_f true) w))
      else Some (set_task s tid p (Some k) w)
  | Using a f, CSetfd bit => t ← w_tables w !! p; Some (set_task s tid p (Some k) (put_table p (set_bit t f bit) w))
  | Using a f, CSetfl flags => d ← w_fds w !! a; Some (set_task s tid p (Some k) (put_fd a (fst (fd_setflags e a d flags)) w))
  | _, _ => None
  end.

Definition run (e : env) (tid : Z) (c : call) (s : state) : option state :=
  '(p, k) ← s_tasks s !! tid;
  match k with None => run_idle e tid p c s | Some k => run_pending e tid p k c s end.

(** ** When a part may run *)

Definition enabled (k : option pending) (c : call) : bool :=
  match k, c with
  | None, (CFinish | CRescan | CPut | CDupfd _ _ | CSetfd _ | CSetfl _) => false
  | None, _ => true
  | Some (Closing _ | Ranging _ _ _), CFinish => true
  | Some (Rescan _ _), CRescan => true
  | Some (Using _ _), (CPut | CDupfd _ _ | CSetfd _ | CSetfl _) => true
  | _, _ => false
  end.

(** malloc answers addresses not in use, new threads have new numbers, and
    descriptor arguments are 32-bit. *)
Definition fresh (c : call) (s : state) : Prop :=
  match c with
  | COpen a _ _ => w_fds (s_w s) !! a = None
  | CRange first last _ p' => 0 <= first < 2 ^ 32 /\ 0 <= last < 2 ^ 32 /\ w_tables (s_w s) !! p' = None
  | CUnshare p' => w_tables (s_w s) !! p' = None
  | CFork tid' _ p' => s_tasks s !! tid' = None /\ w_tables (s_w s) !! p' = None
  | CDup2 _ new_f | CDup3 _ new_f _ => new_f < 2 ^ 31
  | CDupfd start _ => 0 <= start < 2 ^ 64
  | _ => True
  end.

Definition held (tasks : gmap Z (Z * option pending)) : list Z := mjoin ((fun x => pending_ref x.2.2) <$> map_to_list tasks).
Definition on_table (p : Z) (tasks : gmap Z (Z * option pending)) : nat := msum (fun x => if decide (x.1 = p) then 1 else 0)%nat tasks.

(** Room for one more file, thread and copy of a table in 32-bit counts, and a
    limit on descriptors that is a descriptor. *)
Record ready (e : env) (tid : Z) (c : call) (s : state) : Prop := mk_ready {
  rd_task : exists p k, s_tasks s !! tid = Some (p, k) /\ enabled k c = true;
  rd_fresh : fresh c s;
  rd_limit : 0 <= e_limit e < 2 ^ 31;
  rd_room : forall p t, w_tables (s_w s) !! p = Some t -> Z.of_nat (total (s_w s) (held (s_tasks s)) + full t) + 1 < 2 ^ 32;
  rd_files : Z.of_nat (msum (fun _ => 1%nat) (w_fds (s_w s))) + 1 < 2 ^ 32;
  rd_tasks : Z.of_nat (msum (fun _ => 1%nat) (s_tasks s)) + 1 < 2 ^ 32 }.

(** The first process: one table of three empty descriptors. *)
Definition first_state (tid p : Z) : state :=
  mk_state (mk_w ∅ {[p := mk_table 1 (replicate 3 None) (replicate 3 false)]} ∅ []) {[tid := (p, None)]}.

Inductive reach : state -> Prop :=
| Reach_first tid p : reach (first_state tid p)
| Reach_step s e tid c s' : reach s -> ready e tid c s -> run e tid c s = Some s' -> reach s'.

(** ** The invariant *)

Record inv (s : state) : Prop := mk_inv {
  inv_wf : wf (s_w s) (held (s_tasks s));
  inv_tables : forall p t, w_tables (s_w s) !! p = Some t -> t_refcount t = Z.of_nat (on_table p (s_tasks s)) /\ (0 < on_table p (s_tasks s))%nat /\ 0 < t_size t;
  inv_task : forall tid p k, s_tasks s !! tid = Some (p, k) -> is_Some (w_tables (s_w s) !! p);
  inv_scan : forall tid p k, s_tasks s !! tid = Some (p, k) -> match k with Some (Ranging _ f _) | Some (Rescan f _) => 0 <= f | _ => True end }.

(** A thread's reference among all of them. *)
Lemma held_insert tasks tid x : tasks !! tid = None -> held (<[tid := x]> tasks) ≡ₚ pending_ref x.2 ++ held tasks.
Proof. intros H. unfold held. by rewrite map_to_list_insert by done. Qed.
Lemma held_task tasks tid p k : tasks !! tid = Some (p, k) -> held tasks ≡ₚ pending_ref k ++ held (delete tid tasks).
Proof. intros H. rewrite <- (insert_delete_id tasks tid (p, k) H) at 1. rewrite held_insert; [done | apply lookup_delete_eq]. Qed.
Lemma held_set tasks tid p k : held (<[tid := (p, k)]> tasks) ≡ₚ pending_ref k ++ held (delete tid tasks).
Proof. rewrite <- insert_delete_eq. rewrite held_insert; [done | apply lookup_delete_eq]. Qed.

(** *** Parts that change one table *)

Lemma on_table_same tasks tid p k k' q : tasks !! tid = Some (p, k) -> on_table q (<[tid := (p, k')]> tasks) = on_table q tasks.
Proof. intros H. unfold on_table. by apply (msum_same _ _ _ (p, k)). Qed.

Definition scan_ok (k : option pending) : Prop := match k with Some (Ranging _ f _) | Some (Rescan f _) => 0 <= f | _ => True end.

Lemma inv_set s tid p k k' w' t t' :
  inv s -> s_tasks s !! tid = Some (p, k) -> w_tables (s_w s) !! p = Some t -> wf w' (pending_ref k' ++ held (delete tid (s_tasks s))) ->
  w_tables w' = <[p := t']> (w_tables (s_w s)) -> t_refcount t' = t_refcount t -> t_size t <= t_size t' -> scan_ok k' ->
  inv (set_task s tid p k' w').
Proof.
  intros [I1 I2 I3 I4] Et Ep Hwf Ht Hr Hs Hk. unfold set_task. split; simpl.
  - by rewrite held_set.
  - intros q u. rewrite Ht, (on_table_same _ _ _ k) by done. destruct (decide (q = p)) as [-> | Hne].
    + rewrite lookup_insert_eq. intros [= <-]. destruct (I2 p t Ep) as (H1 & H2 & H3). split; [congruence |]. split; [done | lia].
    + rewrite lookup_insert_ne by congruence. apply I2.
  - intros tid' q k''. rewrite Ht. destruct (decide (tid' = tid)) as [-> | Hne].
    + rewrite lookup_insert_eq. intros [= <- <-]. rewrite lookup_insert_eq. by eexists.
    + rewrite lookup_insert_ne by congruence. intros H. apply lookup_insert_is_Some. destruct (decide (p = q)); [by left | right]. split; [done | by apply (I3 tid' q k'')].
  - intros tid' q k''. destruct (decide (tid' = tid)) as [-> | Hne]; [rewrite lookup_insert_eq; by intros [= <- <-] |].
    rewrite lookup_insert_ne by congruence. apply I4.
Qed.

(** The same with the table as it was. *)
Lemma inv_table_same s tid p k k' w' t :
  inv s -> s_tasks s !! tid = Some (p, k) -> w_tables (s_w s) !! p = Some t -> wf w' (pending_ref k' ++ held (delete tid (s_tasks s))) ->
  w_tables w' = w_tables (s_w s) -> scan_ok k' -> inv (set_task s tid p k' w').
Proof. intros Hi Et Ep Hwf Ht Hk. apply (inv_set s tid p k k' w' t t); try done. by rewrite Ht, insert_id. Qed.

Lemma longer_size t t' : longer t t' -> t_size t <= t_size t' /\ t_refcount t' = t_refcount t.
Proof. intros [n ->]. unfold t_size. simpl. rewrite length_app. lia. Qed.
Lemma set_slot_size t f x b : t_size (set_slot t f x b) = t_size t.
Proof. unfold t_size. simpl. by rewrite length_insert. Qed.

Lemma installed_size e t a start f t' : installed e t a start f t' -> t_size t <= t_size t' /\ t_refcount t' = t_refcount t.
Proof. intros [g u Hl _ _ _ | _ | _]; [| done | done]. rewrite set_slot_size. exact (longer_size t u Hl). Qed.
Lemma duped_size e t f g flags r o t' : duped e t f g flags r o t' -> t_size t <= t_size t' /\ t_refcount t' = t_refcount t.
Proof. intros [a u _ _ _ Hl _ | ? _ _]; [| done]. rewrite set_slot_size. exact (longer_size t u Hl). Qed.
Lemma emptied_size t gone t' : emptied t gone t' -> t_size t <= t_size t' /\ t_refcount t' = t_refcount t.
Proof. intros [H1 H2 _]. unfold t_size. rewrite H2. by split. Qed.
Lemma scanned_size t f end_ c o t' : scanned t f end_ c o t' -> t_size t <= t_size t' /\ t_refcount t' = t_refcount t.
Proof. intros [u H1 H2 _ | _ | a g u _ _ _ He]; [unfold t_size; rewrite H2; by split | done | exact (emptied_size _ _ _ He)]. Qed.

(** A new file. *)
Lemma open_ok w held a ino flags : wf w held -> w_fds w !! a = None -> Z.of_nat (total w held) + 1 < 2 ^ 32 ->
  Z.of_nat (msum (fun _ => 1%nat) (w_fds w)) + 1 < 2 ^ 32 -> wf (open_file w a ino flags) (a :: held) /\ w_tables (open_file w a ino flags) = w_tables w.
Proof.
  intros Hwf Ea Hroom Hfiles. pose proof Hwf as [H1 H2 H3 [Hf1 Hf2]]. pose proof (H1 a) as Ha. rewrite Ea in Ha.
  set (d := mk_fd 1 flags ino None 0).
  assert (w_fds (open_file w a ino flags) = <[a := d]> (w_fds w) /\ w_tables (open_file w a ino flags) = w_tables w) as [Ef Et].
  { unfold open_file, inode_get, d. destruct ino as [i |]; simpl; [case_match; simpl |]; by rewrite insert_insert_eq. }
  assert (forall i, users (open_file w a ino flags) i = ((if decide (ino = Some i) then 1 else 0) + users w i)%nat) as Hu
    by (intros i; unfold users; by rewrite Ef, msum_fresh).
  split; [| done]. split.
  - intros b. unfold refs. rewrite Ef, Et, occ_cons. destruct (decide (b = a)) as [-> | Hne].
    + rewrite lookup_insert_eq, decide_True by done. unfold refs in Ha. simpl. lia.
    + rewrite lookup_insert_ne, decide_False by congruence. apply H1.
  - intros i. rewrite Hu. specialize (H2 i). pose proof (users_files w i). destruct (decide (ino = Some i)) as [-> | Hne].
    + unfold open_file, inode_get. simpl. destruct (w_inodes w !! i) as [x |]; simpl; rewrite lookup_insert_eq; simpl; [rewrite u32_small by lia; lia | lia].
    + assert (w_inodes (open_file w a ino flags) !! i = w_inodes w !! i) as ->; [| done].
      unfold open_file, inode_get. destruct ino as [j |]; [| done]. simpl. destruct (w_inodes w !! j); simpl; by rewrite lookup_insert_ne by congruence.
  - rewrite Et. apply H3.
  - unfold few, total in *. rewrite Et, Ef, msum_fresh by done. simpl. lia.
Qed.

(** *** Threads that come, go and change tables *)

Lemma on_table_fresh tasks tid p k q : tasks !! tid = None -> on_table q (<[tid := (p, k)]> tasks) = ((if decide (p = q) then 1 else 0) + on_table q tasks)%nat.
Proof. intros H. unfold on_table. by rewrite msum_fresh. Qed.
Lemma on_table_delete tasks tid p k q : tasks !! tid = Some (p, k) -> on_table q tasks = ((if decide (p = q) then 1 else 0) + on_table q (delete tid tasks))%nat.
Proof. intros H. unfold on_table. by rewrite (msum_delete _ _ tid (p, k) H). Qed.
Lemma on_table_le tasks q : (on_table q tasks <= msum (fun _ => 1%nat) tasks)%nat.
Proof. apply msum_le. intros i x _. destruct (decide (x.1 = q)); lia. Qed.

(** No thread is on a table that is not there. *)
Lemma no_task_on s q : inv s -> w_tables (s_w s) !! q = None -> on_table q (s_tasks s) = 0%nat.
Proof.
  intros Hi Hq. destruct (on_table q (s_tasks s)) eqn:E; [done |]. exfalso.
  destruct (msum_pos (fun x => if decide (x.1 = q) then 1 else 0)%nat (s_tasks s)) as (tid & [p k] & Ht & Hp); [unfold on_table in E; lia |].
  simpl in Hp. destruct (decide (p = q)) as [-> |]; [| lia]. destruct (inv_task _ Hi tid q k Ht). congruence.
Qed.

(** A thread added to [p], whose count and table become [t']. *)
Lemma inv_add s tid' p w' t' :
  inv s -> s_tasks s !! tid' = None -> wf w' (held (s_tasks s)) -> w_tables w' = <[p := t']> (w_tables (s_w s)) ->
  t_refcount t' = Z.of_nat (S (on_table p (s_tasks s))) -> 0 < t_size t' -> inv (mk_state w' (<[tid' := (p, None)]> (s_tasks s))).
Proof.
  intros [I1 I2 I3 I4] Hnew Hwf Ht Hr Hs. split; simpl.
  - by rewrite held_insert.
  - intros q u. rewrite Ht, on_table_fresh by done. destruct (decide (p = q)) as [-> | Hne].
    + rewrite lookup_insert_eq. intros [= <-]. split; [by rewrite Hr | lia].
    + rewrite lookup_insert_ne by done. apply I2.
  - intros tid q k. rewrite Ht. destruct (decide (tid' = tid)) as [-> | Hne].
    + rewrite lookup_insert_eq. intros [= <- <-]. rewrite lookup_insert_eq. by eexists.
    + rewrite lookup_insert_ne by done. intros H. apply lookup_insert_is_Some. destruct (decide (p = q)); [by left | right]. split; [done | by apply (I3 tid q k)].
  - intros tid q k. destruct (decide (tid' = tid)) as [-> | Hne]; [rewrite lookup_insert_eq; by intros [= <- <-] |].
    rewrite lookup_insert_ne by done. apply I4.
Qed.

(** A thread taken off [p], whose count goes down, or which goes away with the last one. *)
Lemma inv_remove s tid p t w' :
  inv s -> s_tasks s !! tid = Some (p, None) -> w_tables (s_w s) !! p = Some t -> wf w' (held (delete tid (s_tasks s))) ->
  Z.of_nat (msum (fun _ => 1%nat) (s_tasks s)) < 2 ^ 32 ->
  w_tables w' = (if t_refcount t =? 1 then delete p (w_tables (s_w s)) else <[p := set_t_refcount (u32 (t_refcount t - 1)) t]> (w_tables (s_w s))) ->
  inv (mk_state w' (delete tid (s_tasks s))).
Proof.
  intros [I1 I2 I3 I4] Et Ep Hwf Hb Ht. destruct (I2 p t Ep) as (Hr & Hpos & Hsz). pose proof (on_table_le (s_tasks s) p) as Hle.
  pose proof (on_table_delete _ _ _ _ p Et) as Hd. rewrite decide_True in Hd by done. split; simpl.
  - done.
  - intros q u Hq. pose proof (on_table_delete _ _ _ _ q Et) as Hdq. destruct (decide (p = q)) as [<- | Hne].
    + rewrite Ht in Hq. destruct (Z.eqb_spec (t_refcount t) 1); [by rewrite lookup_delete_eq in Hq |]. rewrite lookup_insert_eq in Hq. injection Hq as <-.
      simpl. rewrite u32_small by lia. split; [lia |]. split; [lia | done].
    + assert (w_tables (s_w s) !! q = Some u) as Hq'. { rewrite Ht in Hq. destruct (t_refcount t =? 1); [by rewrite lookup_delete_ne in Hq | by rewrite lookup_insert_ne in Hq]. }
      simpl in Hdq. rewrite <- Hdq. by apply I2.
  - intros tid' q k H. apply lookup_delete_Some in H as [Hne H]. rewrite Ht. destruct (Z.eqb_spec (t_refcount t) 1) as [E1 | E1].
    + destruct (decide (p = q)) as [<- | Hpq]; [| rewrite lookup_delete_ne by done; by apply (I3 tid' q k)]. exfalso.
      assert (delete tid (s_tasks s) !! tid' = Some (p, k)) as H' by (by rewrite lookup_delete_ne).
      pose proof (msum_at (fun x => if decide (x.1 = p) then 1 else 0)%nat _ tid' (p, k) H') as Hm. simpl in Hm. rewrite decide_True in Hm by done.
      unfold on_table in *. lia.
    + apply lookup_insert_is_Some. destruct (decide (p = q)); [by left | right]. split; [done | by apply (I3 tid' q k)].
  - intros tid' q k H. apply lookup_delete_Some in H as [_ H]. by apply (I4 tid' q k).
Qed.

(** A thread moved to its own copy. *)
Lemma inv_move s tid p p' t w' k' :
  inv s -> s_tasks s !! tid = Some (p, None) -> w_tables (s_w s) !! p = Some t -> w_tables (s_w s) !! p' = None ->
  wf w' (pending_ref k' ++ held (delete tid (s_tasks s))) -> scan_ok k' -> Z.of_nat (msum (fun _ => 1%nat) (s_tasks s)) < 2 ^ 32 -> t_refcount t <> 1 ->
  (exists t', w_tables w' = <[p' := t']> (<[p := set_t_refcount (u32 (t_refcount t - 1)) t]> (w_tables (s_w s))) /\ t_refcount t' = 1 /\ 0 < t_size t') ->
  inv (set_task s tid p' k' w').
Proof.
  intros Hi Et Ep Hp' Hwf Hk Hb Hr1 (t' & Ht & Hr' & Hs'). pose proof Hi as [I1 I2 I3 I4]. destruct (I2 p t Ep) as (Hr & Hpos & Hsz).
  pose proof (on_table_le (s_tasks s) p) as Hle. assert (p <> p') as Hne by congruence. pose proof (no_task_on s p' Hi Hp') as H0.
  assert (forall q, on_table q (<[tid := (p', k')]> (s_tasks s)) = ((if decide (p' = q) then 1 else 0) + on_table q (delete tid (s_tasks s)))%nat) as Hn
    by (intros q; rewrite <- insert_delete_eq; apply on_table_fresh, lookup_delete_eq).
  pose proof (fun q => on_table_delete _ _ _ _ q Et) as Hd. unfold set_task. split; simpl.
  - by rewrite held_set.
  - intros q u. rewrite Hn, Ht. specialize (Hd q). destruct (decide (p' = q)) as [<- | Hne1].
    + rewrite lookup_insert_eq. intros [= <-]. rewrite decide_False in Hd by done. split; [lia |]. split; [lia | done].
    + rewrite lookup_insert_ne by done. destruct (decide (p = q)) as [<- | Hne2].
      * rewrite lookup_insert_eq. intros [= <-]. simpl. rewrite u32_small by lia. split; [lia |]. split; [lia | done].
      * rewrite lookup_insert_ne by done. intros Hq. simpl in Hd. rewrite <- Hd. by apply I2.
  - intros tid' q k. rewrite Ht. destruct (decide (tid = tid')) as [<- | Hne1].
    + rewrite lookup_insert_eq. intros [= <- <-]. rewrite lookup_insert_eq. by eexists.
    + rewrite lookup_insert_ne by done. intros H. apply lookup_insert_is_Some. destruct (decide (p' = q)); [by left | right]. split; [done |].
      apply lookup_insert_is_Some. destruct (decide (p = q)); [by left | right]. split; [done | by apply (I3 tid' q k)].
  - intros tid' q k. destruct (decide (tid = tid')) as [<- | Hne1]; [rewrite lookup_insert_eq; by intros [= <- <-] |].
    rewrite lookup_insert_ne by done. apply I4.
Qed.

(** *** Every part keeps it *)

Section Parts.
Context (e : env) (tid p : Z) (c : call) (s : state) (k : option pending) (t : fdtable).
Context (Hi : inv s) (Hrd : ready e tid c s) (Et : s_tasks s !! tid = Some (p, k)) (Ep : w_tables (s_w s) !! p = Some t).

Let h0 := held (delete tid (s_tasks s)).

Lemma part_wf : wf (s_w s) (pending_ref k ++ h0).
Proof using Hi Et. apply (wf_perm (s_w s) _ _ (held_task (s_tasks s) tid p k Et)), Hi. Qed.

Lemma part_room : Z.of_nat (total (s_w s) (pending_ref k ++ h0) + full t) + 1 < 2 ^ 32.
Proof using Hrd Et Ep.
  pose proof (rd_room _ _ _ _ Hrd p t Ep) as H. unfold total in *. rewrite (held_task (s_tasks s) tid p k Et) in H. done.
Qed.

Lemma part_size : 0 < t_size t.
Proof using Hi Ep. apply (inv_tables _ Hi p t Ep). Qed.

Lemma part_tasks : Z.of_nat (msum (fun _ => 1%nat) (s_tasks s)) + 1 < 2 ^ 32.
Proof using Hrd. apply Hrd. Qed.

(** Parts that leave the thread on its table. *)
Lemma part_done k' w' t' : wf w' (pending_ref k' ++ h0) -> w_tables w' = <[p := t']> (w_tables (s_w s)) ->
  t_size t <= t_size t' /\ t_refcount t' = t_refcount t -> scan_ok k' -> exists s', Some (set_task s tid p k' w') = Some s' /\ inv s'.
Proof using Hi Et Ep. intros Hwf Ht [H1 H2] Hk. eexists. split; [done |]. by apply (inv_set s tid p k k' w' t t'). Qed.
Lemma part_kept k' w' : wf w' (pending_ref k' ++ h0) -> w_tables w' = w_tables (s_w s) -> scan_ok k' ->
  exists s', Some (set_task s tid p k' w') = Some s' /\ inv s'.
Proof using Hi Et Ep. intros Hwf Ht Hk. eexists. split; [done |]. by apply (inv_table_same s tid p k k' w' t). Qed.
Lemma part_nothing : exists s', Some s = Some s' /\ inv s'.
Proof using Hi. by exists s. Qed.
End Parts.

Section Idle.
Context (e : env) (tid p : Z) (c : call) (s : state) (t : fdtable).
Context (Hi : inv s) (Hrd : ready e tid c s) (Et : s_tasks s !! tid = Some (p, None)) (Ep : w_tables (s_w s) !! p = Some t).
Let h0 := held (delete tid (s_tasks s)).
Let Hwf : wf (s_w s) h0 := part_wf tid p s None Hi Et.
Let Hroom : Z.of_nat (total (s_w s) h0 + full t) + 1 < 2 ^ 32 := part_room e tid p c s None t Hrd Et Ep.

Lemma open_part a ino flags : c = COpen a ino flags -> exists s', run_idle e tid p c s = Some s' /\ inv s'.
Proof using All.
  intros ->. simpl. destruct (open_ok (s_w s) h0 a ino flags Hwf) as [Hwf1 Ht1]; [apply Hrd | lia | apply Hrd |].
  destruct (f_install_ok e (open_file (s_w s) a ino flags) h0 p t a flags Hwf1) as (f & w' & t' & -> & Hwf' & Hinst & Ht'); [by rewrite Ht1 | apply Hrd |].
  cbn [mbind option_bind]. eapply part_done; [done | done | done | exact Hwf' | by rewrite Ht', Ht1 | | done].
  destruct (installed_size _ _ _ _ _ _ Hinst). by destruct (_ && _).
Qed.

Lemma close_part f : c = CClose f -> exists s', run_idle e tid p c s = Some s' /\ inv s'.
Proof using All.
  intros ->. simpl. unfold f_close_detach. rewrite Ep. cbn [mbind option_bind]. destruct (fdtable_detach t f) as [o t'] eqn:Ed. cbn [mbind option_bind].
  pose proof (wf_detach_opt (s_w s) h0 p t f o t' Hwf Ep Ed) as Hwf'. eapply part_done; [done | done | done | | done | | by destruct o].
  - by destruct o.
  - unfold fdtable_detach in Ed. destruct (fdtable_get t f); injection Ed as _ <-; [rewrite set_slot_size |]; done.
Qed.

Lemma dup_part f : c = CDup f -> exists s', run_idle e tid p c s = Some s' /\ inv s'.
Proof using All.
  intros ->. simpl. unfold sys_dup, f_get. rewrite Ep. cbn [mbind option_bind]. destruct (fdtable_get t f) as [a |] eqn:Eg.
  - destruct (dup_ok e (s_w s) h0 p t f a Hwf Ep Eg) as (f' & w' & t' & -> & Hwf' & Hinst & Ht'); [apply Hrd | lia |]. cbn [mbind option_bind].
    eapply part_done; [done | done | done | exact Hwf' | done | by eapply installed_size | done].
  - cbn [mbind option_bind]. eapply part_kept; done.
Qed.

Lemma dup3_part f new_f flags : new_f < 2 ^ 31 ->
  exists s', ('(_, replaced, w) ← dup3_locked e (s_w s) p f new_f flags; Some (set_task s tid p (Closing <$> replaced) w)) = Some s' /\ inv s'.
Proof using All.
  intros Hnew. destruct (dup3_ok e (s_w s) h0 p t f new_f flags Hwf Ep) as (r & o & w' & t' & -> & Hwf' & Ht' & Hd); [apply Hrd | done | lia |].
  cbn [mbind option_bind]. eapply part_done; [done | done | done | by destruct o | done | by eapply duped_size | by destruct o].
Qed.

Lemma range_part first last flags p' : c = CRange first last flags p' -> exists s', run_idle e tid p c s = Some s' /\ inv s'.
Proof using All.
  intros ->. pose proof (rd_fresh _ _ _ _ Hrd) as (Hfi & Hla & Hp'). simpl. unfold close_range_begin.
  destruct (negb _); [cbn [mbind option_bind]; eapply part_kept; done |]. destruct (Z.ltb_spec last first); [cbn [mbind option_bind]; eapply part_kept; done |].
  set (un := if has_flag flags CLOSE_RANGE_UNSHARE_ then _ else _).
  assert (exists r q w1 t1, un = Some (r, q, w1) /\ wf w1 h0 /\ w_tables w1 !! q = Some t1 /\ (r < 0 -> q = p /\ w1 = s_w s) /\
            (forall k' w' t', wf w' (pending_ref k' ++ h0) -> w_tables w' = <[q := t']> (w_tables w1) -> t_size t1 <= t_size t' /\ t_refcount t' = t_refcount t1 ->
               scan_ok k' -> inv (set_task s tid q k' w'))) as (r & q & w1 & t1 & -> & Hwf1 & Eq & Hneg & Hset).
  { assert (forall k' w' t', wf w' (pending_ref k' ++ h0) -> w_tables w' = <[p := t']> (w_tables (s_w s)) -> t_size t <= t_size t' /\ t_refcount t' = t_refcount t ->
               scan_ok k' -> inv (set_task s tid p k' w')) as Hsame by (intros k' w' t' H1 H2 [H3 H4] H5; by apply (inv_set s tid p None k' w' t t')).
    unfold un. destruct (has_flag flags CLOSE_RANGE_UNSHARE_); [| by exists 0, p, (s_w s), t].
    destruct (unshare_ok e (s_w s) h0 p p' t Hwf Ep Hp' (part_size p s t Hi Ep) ltac:(lia)) as (r & q & w1 & -> & Hwf1 & [(-> & -> & Hr) | (-> & -> & Hr1 & Ht1)]).
    - exists r, p, (s_w s), t. done.
    - exists 0, p', w1, (mk_table 1 (t_files t) (t_cloexec t)). assert (p <> p') as Hne by congruence.
      split; [done |]. split; [done |]. split; [by rewrite Ht1, lookup_insert_ne, lookup_insert_eq by done |]. split; [lia |].
      intros k' w' t' Hw Ht' [Hs1 Hs2] Hk. apply (inv_move s tid p p' t w' k'); try done; [pose proof (part_tasks e tid _ s Hrd); lia |].
      exists t'. split; [by rewrite Ht', Ht1, (insert_insert_ne _ p p') , insert_insert_eq by done |]. split; [done |].
      pose proof (part_size p s t Hi Ep). unfold t_size in *. simpl in *. lia. }
  cbn [mbind option_bind]. destruct (Z.ltb_spec r 0) as [Hr | Hr]; cbn [mbind option_bind].
  { destruct (Hneg Hr) as [-> ->]. eapply part_kept; done. }
  rewrite Eq. cbn [mbind option_bind]. destruct (_ || _) eqn:Eb.
  { cbn [mbind option_bind]. eexists. split; [done |]. apply (Hset None w1 t1); [done | by rewrite insert_id | done | done]. }
  apply orb_false_iff in Eb as [_ Eb]. destruct (Z.geb_spec first (t_size t1)) as [| Hlt]; [done |].
  set (end_ := if last >=? t_size t1 then t_size t1 - 1 else last). assert (first <= end_ < t_size t1) as Hend by (unfold end_; destruct (Z.geb_spec last (t_size t1)); lia).
  destruct (range_scan_ok q end_ h0 (has_flag flags CLOSE_RANGE_CLOEXEC_) (Z.to_nat (end_ - first + 1)) w1 t1 first Hwf1 Eq) as (found & w2 & t2 & -> & Hwf2 & Ht2 & Hsc); [lia | lia | lia |].
  cbn [mbind option_bind]. eexists. split; [done |]. apply (Hset _ w2 t2); [by destruct found as [[a f] |] | done | by eapply scanned_size |].
  inversion Hsc; subst; simpl; try done; lia.
Qed.

Lemma fork_part tid' share p' : c = CFork tid' share p' -> exists s', run_idle e tid p c s = Some s' /\ inv s'.
Proof using All.
  intros ->. pose proof (rd_fresh _ _ _ _ Hrd) as (Hnew & Hp'). assert (wf (s_w s) (held (s_tasks s))) as Hwf0 by apply Hi.
  destruct (inv_tables _ Hi p t Ep) as (Hr & Hpos & Hsz). pose proof (on_table_le (s_tasks s) p). pose proof (part_tasks e tid _ s Hrd).
  simpl. destruct share.
  - unfold fdtable_retain. rewrite Ep. cbn [mbind option_bind]. eexists. split; [done |]. apply (inv_add s tid' p _ (set_t_refcount (u32 (t_refcount t + 1)) t)); try done.
    + by apply wf_count.
    + simpl. rewrite u32_small by lia. lia.
  - destruct (copy_ok e (s_w s) (held (s_tasks s)) p p' t Hwf0 Ep Hp' Hsz) as (r & w1 & -> & Hwf1 & Hc); [pose proof (rd_room _ _ _ _ Hrd p t Ep); lia |].
    cbn [mbind option_bind]. destruct Hc as [[Hneg ->] | [-> Ht1]]; [destruct (Z.ltb_spec r 0); [| lia]; exists s; split; [by destruct s | done] |].
    destruct (Z.ltb_spec 0 0); [lia |]. eexists. split; [done |]. apply (inv_add s tid' p' w1 (mk_table 1 (t_files t) (t_cloexec t))); try done.
    simpl. by rewrite (no_task_on s p' Hi Hp').
Qed.

Lemma exit_part : c = CExit -> exists s', run_idle e tid p c s = Some s' /\ inv s'.
Proof using All.
  intros ->. simpl. destruct (release_ok e (s_w s) h0 p t Hwf Ep) as (w' & -> & Hwf' & Ht'). cbn [mbind option_bind]. eexists. split; [done |].
  apply (inv_remove s tid p t); try done. pose proof (part_tasks e tid _ s Hrd). lia.
Qed.

Lemma unshare_part p' : c = CUnshare p' -> exists s', run_idle e tid p c s = Some s' /\ inv s'.
Proof using All.
  intros ->. pose proof (rd_fresh _ _ _ _ Hrd) as Hp'. simpl in Hp'. simpl. pose proof (part_size p s t Hi Ep) as Hsz. assert (p <> p') as Hne by congruence.
  destruct (unshare_ok e (s_w s) h0 p p' t Hwf Ep Hp' Hsz ltac:(lia)) as (r & q & w1 & -> & Hwf1 & [(-> & -> & _) | (-> & -> & Hr1 & Ht1)]); cbn [mbind option_bind].
  - eapply part_kept; done.
  - eexists. split; [done |]. apply (inv_move s tid p p' t w1 None); try done; [pose proof (part_tasks e tid _ s Hrd); lia |].
    exists (mk_table 1 (t_files t) (t_cloexec t)). split; [by rewrite Ht1, (insert_insert_ne _ p p') by done |]. done.
Qed.

Lemma exec_part : c = CExec -> exists s', run_idle e tid p c s = Some s' /\ inv s'.
Proof using All.
  intros ->. simpl. destruct (cloexec_ok e (s_w s) h0 p t Hwf Ep) as (w' & t' & -> & Hwf' & Ht' & Hem). cbn [mbind option_bind].
  eapply part_done; [done | done | done | done | done | by eapply emptied_size | done].
Qed.

Lemma get_part f : c = CGet f -> exists s', run_idle e tid p c s = Some s' /\ inv s'.
Proof using All.
  intros ->. simpl. unfold f_get_retain. rewrite Ep. cbn [mbind option_bind]. destruct (fdtable_get t f) as [a |] eqn:Eg.
  - destruct (retain_ok (s_w s) h0 a Hwf (get_refs _ _ _ _ _ _ Ep Eg)) as (w' & -> & Hwf' & Ht' & _); [apply few_cons; [lia | done] |].
    cbn [mbind option_bind]. eapply part_kept; done.
  - cbn [mbind option_bind]. eapply part_kept; done.
Qed.

End Idle.

Lemma idle_part e tid p c s t :
  inv s -> ready e tid c s -> s_tasks s !! tid = Some (p, None) -> w_tables (s_w s) !! p = Some t -> exists s', run_idle e tid p c s = Some s' /\ inv s'.
Proof.
  intros Hi Hrd Et Ep. destruct (rd_task _ _ _ _ Hrd) as (p0 & k0 & E & He). rewrite Et in E. injection E as <- <-. pose proof (rd_fresh _ _ _ _ Hrd) as Hnew.
  destruct c as [a ino flags | f | | f | f new_f | f new_f flags | first last flags p' | | tid' share p' | | | p' | f | | | |]; try done.
  - by eapply open_part.
  - by eapply close_part.
  - by eapply dup_part.
  - simpl in Hnew. simpl. destruct (new_f <? 0); [by exists s |]. destruct (f =? new_f); [unfold f_get; rewrite Ep; by exists s |]. by eapply dup3_part.
  - by eapply dup3_part.
  - by eapply range_part.
  - by eapply fork_part.
  - by eapply exit_part.
  - by eapply exec_part.
  - by eapply unshare_part.
  - by eapply get_part.
Qed.

Lemma pending_part e tid p k c s t :
  inv s -> ready e tid c s -> s_tasks s !! tid = Some (p, Some k) -> w_tables (s_w s) !! p = Some t -> exists s', run_pending e tid p k c s = Some s' /\ inv s'.
Proof.
  intros Hi Hrd Et Ep. destruct (rd_task _ _ _ _ Hrd) as (p0 & k0 & E & He). rewrite Et in E. injection E as <- <-. pose proof (rd_fresh _ _ _ _ Hrd) as Hnew.
  pose proof (part_wf tid p s (Some k) Hi Et) as Hwf. pose proof (part_room e tid p c s (Some k) t Hrd Et Ep) as Hroom. set (h0 := held (delete tid (s_tasks s))) in *.
  pose proof (inv_scan _ Hi tid p (Some k) Et) as Hscan. pose proof (rd_limit _ _ _ _ Hrd) as Hlim.
  destruct k as [a | a f end_ | f end_ | a f], c; try done; simpl in Hwf, Hroom, Hscan |- *.
  - destruct (finish_close_ok e (s_w s) h0 a p Hwf) as (r & w' & -> & Hwf' & Ht'). cbn [mbind option_bind]. by eapply part_kept.
  - destruct (finish_close_ok e (s_w s) h0 a p Hwf) as (r & w' & -> & Hwf' & Ht'). cbn [mbind option_bind]. by eapply part_kept.
  - unfold close_range_next. rewrite Ep. cbn [mbind option_bind]. destruct (t_size t =? 0); [cbn [mbind option_bind]; by eapply part_kept |].
    set (e' := if end_ >=? t_size t then t_size t - 1 else end_). assert (e' < t_size t) as He' by (unfold e'; destruct (Z.geb_spec end_ (t_size t)); lia).
    destruct (range_scan_ok p e' h0 false (Z.to_nat (e' - f)) (s_w s) t (f + 1) Hwf Ep) as (found & w2 & t2 & -> & Hwf2 & Ht2 & Hsc); [lia | lia | lia |].
    cbn [mbind option_bind]. eapply part_done; [done | done | done | by destruct found as [[b g] |] | done | by eapply scanned_size |].
    inversion Hsc; subst; simpl; try done; lia.
  - destruct (close_ok e (s_w s) h0 a Hwf) as (r & w' & -> & Hwf' & Ht'). cbn [mbind option_bind]. by eapply part_kept.
  - simpl in Hnew. rewrite u64_small by lia. destruct (Z.geb_spec start (e_limit e)); [by exists s |].
    destruct (retain_ok (s_w s) (a :: h0) a Hwf) as (w1 & -> & Hwf1 & Ht1 & _); [unfold refs; rewrite occ_self; lia | apply few_cons; [lia | done] |]. cbn [mbind option_bind].
    destruct (install_ok e w1 (a :: h0) p t a start Hwf1) as (f' & w2 & t2 & -> & Hwf2 & Hinst & Ht2 & _); [by rewrite Ht1 | lia | done |]. cbn [mbind option_bind].
    rewrite Ht1 in Ht2. pose proof (installed_size _ _ _ _ _ _ Hinst) as Hsz2. destruct (_ && cloexec); [| by eapply part_done]. rewrite Ht2, lookup_insert_eq. cbn [mbind option_bind].
    eapply part_done; [done | done | done | apply wf_set_bit; [done | by rewrite Ht2, lookup_insert_eq] | simpl; by rewrite Ht2, insert_insert_eq | done | done].
  - rewrite Ep. cbn [mbind option_bind]. eapply part_done; [done | done | done | by apply wf_set_bit | done | done | done].
  - destruct (wf_live (s_w s) (a :: h0) a Hwf) as [d Ed]; [unfold refs; rewrite occ_self; lia |]. rewrite Ed. cbn [mbind option_bind].
    destruct (setflags_same e a d flags). eapply part_kept; [done | done | done | by apply (wf_flags (s_w s) (a :: h0) a d) | done | done].
Qed.

Lemma run_ok e tid c s : inv s -> ready e tid c s -> exists s', run e tid c s = Some s' /\ inv s'.
Proof.
  intros Hi Hrd. destruct (rd_task _ _ _ _ Hrd) as (p & k & Et & _). destruct (inv_task _ Hi tid p k Et) as [t Ep].
  unfold run. rewrite Et. cbn [mbind option_bind]. destruct k as [k |]; [by eapply pending_part | by eapply idle_part].
Qed.

Lemma first_inv tid p : inv (first_state tid p).
Proof.
  assert (held {[tid := (p, None)]} = []) as Hh by (unfold held; rewrite map_to_list_singleton; done).
  assert (forall q t, ({[p := mk_table 1 (replicate 3 None) (replicate 3 false)]} : gmap Z fdtable) !! q = Some t -> q = p /\ t = mk_table 1 (replicate 3 None) (replicate 3 false)) as Hq.
  { intros q t H. by apply lookup_singleton_Some in H as [-> <-]. }
  split; simpl; rewrite ?Hh.
  - assert (forall f, msum f ({[p := mk_table 1 (replicate 3 None) (replicate 3 false)]} : gmap Z fdtable) = f (mk_table 1 (replicate 3 None) (replicate 3 false))) as Hm.
    { intros f. rewrite <- insert_empty, msum_fresh, msum_empty by apply lookup_empty. lia. }
    split; simpl.
    + intros a. rewrite lookup_empty. unfold refs. simpl. by rewrite Hm.
    + intros i. rewrite lookup_empty. unfold users. simpl. apply msum_empty.
    + intros q t H. by apply Hq in H as [-> ->].
    + unfold few, total. simpl. rewrite Hm, msum_empty. done.
  - intros q t H. apply Hq in H as [-> ->]. unfold on_table. rewrite <- insert_empty, msum_fresh, msum_empty by apply lookup_empty. simpl.
    rewrite decide_True by done. split; [done |]. split; [lia | reflexivity].
  - intros tid' q k H. apply lookup_singleton_Some in H as [_ [= <- <-]]. rewrite lookup_singleton_eq. by eexists.
  - intros tid' q k H. by apply lookup_singleton_Some in H as [_ [= <- <-]].
Qed.

Lemma reach_inv s : reach s -> inv s.
Proof.
  induction 1 as [tid p | s e tid c s' _ IH Hrd Hrun]; [apply first_inv |]. destruct (run_ok e tid c s IH Hrd) as (s2 & E & Hi). rewrite Hrun in E. by injection E as ->.
Qed.
