(* ===== verification/FdMap.v ===== *)
(** * The descriptor table as a map, and the theorems about descriptors (fs/fd.c)

    A process sees its table as a map from descriptors to files with a
    close-on-exec mark.  [promised] says what each call does to that map;
    [fd_calls_refine] that the code of FdTable.v does it.  [fd_counts_exact] is
    the theorem about interleaved calls.  The last part runs the places where
    the code has no lock or counts in too few bits. *)

From Stdlib Require Import ZifyBool.
From S2P Require Import Prelude User FileLock Counts FdTable FdRefs FdWorld.

(** ** What the calls promise *)

Definition fdmap := Z -> option (Z * bool).
Definition upd (M : fdmap) (f : Z) (x : option (Z * bool)) : fdmap := fun k => if k =? f then x else M k.

Inductive dcall := DInstall (a flags : Z) | DClose (f : Z) | DDup (f : Z) | DDup2 (f new_f : Z) | DDup3 (f new_f flags : Z) | DExec | DRange (first last : Z) (cloexec : bool).

Definition call_table (e : env) (w : world) (p : Z) (c : dcall) : option (Z * world) :=
  match c with
  | DInstall a flags => f_install e w p a flags
  | DClose f => f_close e w p f
  | DDup f => sys_dup e w p f
  | DDup2 f new_f => sys_dup2 e w p f new_f
  | DDup3 f new_f flags => sys_dup3 e w p f new_f flags
  | DExec => w ← fdtable_do_cloexec e w p; Some (0, w)
  | DRange first last cloexec => '(r, _, w) ← sys_close_range e w p p first last (if cloexec then CLOSE_RANGE_CLOEXEC_ else 0); Some (r, w)
  end.

(** A file put at the lowest free descriptor. *)
Inductive lowest (e : env) (M : fdmap) (a : Z) (cloexec : bool) : Z -> fdmap -> Prop :=
| Lo f M' : 0 <= f < e_limit e -> M f = None -> (forall k, 0 <= k < f -> M k <> None) -> (forall k, M' k = upd M f (Some (a, cloexec)) k) ->
    lowest e M a cloexec f M'
| Lo_full M' : (forall k, 0 <= k < e_limit e -> M k <> None) -> (forall k, M' k = M k) -> lowest e M a cloexec _EMFILE M'
| Lo_nomem M' : e_mem e = false -> (forall k, M' k = M k) -> lowest e M a cloexec _ENOMEM M'.

(** A file put at a given descriptor. *)
Inductive placed (e : env) (M : fdmap) (f new_f flags : Z) : Z -> fdmap -> Prop :=
| Pl a b M' : M f = Some (a, b) -> f <> new_f -> 0 <= new_f < e_limit e -> (forall k, M' k = upd M new_f (Some (a, has_flag flags O_CLOEXEC_)) k) ->
    placed e M f new_f flags new_f M'
| Pl_not r M' : r < 0 -> (flags .& Z.lnot O_CLOEXEC_ <> 0 \/ new_f < 0 \/ f = new_f \/ M f = None \/ e_limit e <= new_f \/ e_mem e = false) ->
    (forall k, M' k = M k) -> placed e M f new_f flags r M'.

Inductive promised (e : env) (M : fdmap) : dcall -> Z -> fdmap -> Prop :=
| P_install a flags r M' : lowest e M a (has_flag flags O_CLOEXEC_) r M' -> promised e M (DInstall a flags) r M'
| P_close f r M' : M f <> None -> (forall k, M' k = upd M f None k) -> promised e M (DClose f) r M'
| P_close_bad f M' : M f = None -> (forall k, M' k = M k) -> promised e M (DClose f) _EBADF M'
| P_dup f a b r M' : M f = Some (a, b) -> lowest e M a false r M' -> promised e M (DDup f) r M'
| P_dup_bad f M' : M f = None -> (forall k, M' k = M k) -> promised e M (DDup f) _EBADF M'
| P_dup2_same f M' : 0 <= f -> M f <> None -> (forall k, M' k = M k) -> promised e M (DDup2 f f) f M'
| P_dup2_bad f new_f M' : new_f < 0 \/ f = new_f /\ M f = None -> (forall k, M' k = M k) -> promised e M (DDup2 f new_f) _EBADF M'
| P_dup2 f new_f r M' : f <> new_f -> placed e M f new_f 0 r M' -> promised e M (DDup2 f new_f) r M'
| P_dup3 f new_f flags r M' : placed e M f new_f flags r M' -> promised e M (DDup3 f new_f flags) r M'
| P_exec M' : (forall k, M' k = match M k with Some (_, true) => None | x => x end) -> promised e M DExec 0 M'
| P_range first last cloexec M' : first <= last ->
    (forall k, M' k = if (first <=? k) && (k <=? last) then match M k with Some (a, _) => if cloexec : bool then Some (a, true) else None | None => None end else M k) ->
    promised e M (DRange first last cloexec) 0 M'
| P_range_bad first last cloexec M' : last < first -> (forall k, M' k = M k) -> promised e M (DRange first last cloexec) _EINVAL M'.

(** ** Each call keeps its promise *)

Lemma view_get t k : view t k = None <-> fdtable_get t k = None.
Proof. unfold view. destruct (fdtable_get t k); naive_solver. Qed.

Lemma installed_lowest e t a start f t' b :
  installed e t a 0 f t' -> length (t_cloexec t) = length (t_files t) -> start = 0 -> 0 <= e_limit e ->
  lowest e (view t) a b f (view (if (0 <=? f) && b then set_bit t' f true else t')).
Proof.
  intros Hin Hlen -> Hlim. destruct Hin as [f t' Hl Hf Hnone Hlow | Hfull | Hmem].
  - destruct (Z.leb_spec 0 f); [| lia]. cbn [andb]. pose proof (lookup_lt_Some _ _ _ Hnone) as Hsz.
    assert (length (t_cloexec t') = length (t_files t')) as Hlen' by (destruct Hl as [n ->]; simpl; rewrite !length_app, !length_replicate; lia).
    assert (0 <= f < t_size t') as Hf' by (unfold t_size; lia). apply Lo; [lia | | |].
    + rewrite <- (view_longer t t') by done. apply view_get. unfold fdtable_get. destruct (_ || _); [done |]. by rewrite Hnone.
    + intros k Hk. destruct (Hlow k Hk) as [c Hc]. rewrite view_get. congruence.
    + intros k. unfold upd. destruct b.
      * rewrite view_set_bit; [| simpl; by rewrite !length_insert | by rewrite set_slot_size]. rewrite get_set_slot, Z.eqb_refl by done.
        rewrite view_set_slot by done. rewrite (view_longer t t') by done. by destruct (k =? f).
      * rewrite view_set_slot, (view_longer t t') by done. done.
  - assert ((0 <=? _EMFILE) = false) as -> by done. apply Lo_full; [| done]. intros k Hk. destruct (Hfull k Hk) as [c Hc]. rewrite view_get. congruence.
  - assert ((0 <=? _ENOMEM) = false) as -> by done. by apply Lo_nomem.
Qed.

Lemma duped_placed e t f new_f flags r o t' :
  duped e t f new_f flags r o t' -> length (t_cloexec t) = length (t_files t) -> placed e (view t) f new_f flags r (view t').
Proof.
  intros [a t1 Hg Hne Hn Hl Hsz | r' Hr Hwhy] Hlen.
  - assert (length (t_cloexec t1) = length (t_files t1)) as Hlen' by (destruct Hl as [n ->]; simpl; rewrite !length_app, !length_replicate; lia).
    apply (Pl e (view t) f new_f flags a (bit_of t f)); [unfold view; by rewrite Hg | done | done |].
    intros k. rewrite view_set_slot by (done || lia). unfold upd. by rewrite (view_longer t t1) by done.
  - apply Pl_not; [done | | done]. by rewrite view_get.
Qed.

Section Refines.
Context (e : env) (w : world) (held : list Z) (p : Z) (t : fdtable).
Context (Hwf : wf w held) (Ep : w_tables w !! p = Some t) (Hlim : 0 <= e_limit e < 2 ^ 31) (Hfew : Z.of_nat (total w held) + 1 < 2 ^ 32).

Let Hlen : length (t_cloexec t) = length (t_files t) := wf_table _ _ Hwf p t Ep.

(** Done: the answer, the map, and the references that are left. *)
Definition kept_promise (c : dcall) (left : list Z) : Prop :=
  exists r w' t', call_table e w p c = Some (r, w') /\ wf w' left /\ w_tables w' = <[p := t']> (w_tables w) /\ promised e (view t) c r (view t').

Lemma close_kept f : kept_promise (DClose f) held.
Proof using All.
  unfold kept_promise. simpl. unfold f_close, f_close_detach. rewrite Ep. cbn [mbind option_bind]. destruct (fdtable_detach t f) as [o t'] eqn:Ed. cbn [mbind option_bind].
  pose proof (wf_detach_opt w held p t f o t' Hwf Ep Ed) as Hwf1. unfold fdtable_detach in Ed. destruct (fdtable_get t f) as [a |] eqn:Eg; injection Ed as <- <-.
  - pose proof (get_range _ _ _ Eg). destruct (finish_close_ok e (put_table p (set_slot t f None false) w) held a p Hwf1) as (r & w' & -> & Hwf' & Ht').
    exists r, w', (set_slot t f None false). split; [done |]. split; [done |]. split; [by rewrite Ht' |]. apply P_close; [rewrite view_get; congruence |].
    intros k. by rewrite view_set_slot.
  - exists _EBADF, (put_table p t w), t. split; [done |]. split; [done |]. split; [done |]. apply P_close_bad; [by apply view_get | done].
Qed.

Lemma dup_kept f : kept_promise (DDup f) held.
Proof using All.
  unfold kept_promise. simpl. unfold sys_dup, f_get. rewrite Ep. cbn [mbind option_bind]. destruct (fdtable_get t f) as [a |] eqn:Eg.
  - destruct (dup_ok e w held p t f a Hwf Ep Eg Hlim Hfew) as (r & w' & t' & -> & Hwf' & Hin & Ht'). exists r, w', t'. split; [done |]. split; [done |]. split; [done |].
    apply (P_dup e (view t) f a (bit_of t f)); [unfold view; by rewrite Eg |]. pose proof (installed_lowest e t a 0 r t' false Hin Hlen eq_refl ltac:(lia)) as H.
    by rewrite andb_false_r in H.
  - exists _EBADF, w, t. split; [done |]. split; [done |]. split; [by rewrite insert_id |]. apply P_dup_bad; [by apply view_get | done].
Qed.

Lemma dup3_kept f new_f flags : new_f < 2 ^ 31 -> exists r w' t', sys_dup3 e w p f new_f flags = Some (r, w') /\ wf w' held /\
  w_tables w' = <[p := t']> (w_tables w) /\ placed e (view t) f new_f flags r (view t').
Proof using All.
  intros Hn. unfold sys_dup3. destruct (dup3_ok e w held p t f new_f flags Hwf Ep Hlim Hn Hfew) as (r & o & w1 & t1 & -> & Hwf1 & Ht1 & Hd). cbn [mbind option_bind].
  pose proof (duped_placed _ _ _ _ _ _ _ _ Hd Hlen). destruct o as [a |]; [| by exists r, w1, t1].
  destruct (finish_close_ok e w1 held a p Hwf1) as (r2 & w2 & -> & Hwf2 & Ht2). cbn [mbind option_bind]. exists r, w2, t1. split; [done |]. split; [done |]. by rewrite Ht2.
Qed.

Lemma exec_kept : kept_promise DExec held.
Proof using All.
  unfold kept_promise. simpl. destruct (cloexec_ok e w held p t Hwf Ep) as (w' & t' & -> & Hwf' & Ht' & [_ _ Hv]). cbn [mbind option_bind].
  exists 0, w', t'. split; [done |]. split; [done |]. split; [done |]. apply P_exec. intros k. rewrite Hv. unfold view.
  destruct (bit_of t k); by destruct (fdtable_get t k).
Qed.

Lemma range_kept first last cloexec : 0 <= first -> kept_promise (DRange first last cloexec) held.
Proof using All.
  intros Hfi. unfold kept_promise. simpl. unfold sys_close_range, close_range_begin. set (flags := if cloexec then CLOSE_RANGE_CLOEXEC_ else 0).
  assert ((flags .& Z.lnot (CLOSE_RANGE_UNSHARE_ .| CLOSE_RANGE_CLOEXEC_) =? 0) = true /\ has_flag flags CLOSE_RANGE_UNSHARE_ = false /\ has_flag flags CLOSE_RANGE_CLOEXEC_ = cloexec)
    as (-> & -> & ->) by (unfold flags; by destruct cloexec). cbn [negb].
  assert (forall k, t_size t <= k -> view t k = None) as Hout. { intros k Hk. apply view_get. destruct (fdtable_get t k) as [a |] eqn:Eg; [apply get_range in Eg; lia | done]. }
  destruct (Z.ltb_spec last first).
  { exists _EINVAL, w, t. split; [done |]. split; [done |]. split; [by rewrite insert_id | by apply P_range_bad]. }
  cbn [mbind option_bind Z.ltb Z.compare]. rewrite Ep. cbn [mbind option_bind]. destruct ((t_size t =? 0) || (first >=? t_size t)) eqn:Eb.
  { exists 0, w, t. split; [done |]. split; [done |]. split; [by rewrite insert_id |]. apply P_range; [done |]. intros k.
    destruct (Z.leb_spec first k); [| done]. destruct (Z.leb_spec k last); [| done]. simpl. rewrite Hout; [done |].
    apply orb_true_iff in Eb as [Eb | Eb]; [apply Z.eqb_eq in Eb; lia |]. destruct (Z.geb_spec first (t_size t)); [lia | done]. }
  apply orb_false_iff in Eb as [_ Eb]. destruct (Z.geb_spec first (t_size t)) as [| Hlt]; [done |].
  set (end_ := if last >=? t_size t then t_size t - 1 else last).
  assert (first <= end_ < t_size t /\ forall k, first <= k -> view t k <> None -> (k <=? last) = (k <=? end_)) as [Hend Hcl].
  { unfold end_. destruct (Z.geb_spec last (t_size t)); (split; [lia |]); intros k Hk Hv; [| done].
    destruct (Z.leb_spec k last), (Z.leb_spec k (t_size t - 1)); try lia; exfalso; apply Hv, Hout; lia. }
  destruct (range_scan_ok p end_ held cloexec (Z.to_nat (end_ - first + 1)) w t first Hwf Ep) as (found & w1 & t1 & -> & Hwf1 & Ht1 & Hsc); [lia | lia | lia |].
  cbn [mbind option_bind]. inversion Hsc as [t'' C1 S1 V1 E1 E2 E3 | V1 E1 E2 E3 | a g t'' Hg V1 Eg [C1 S1 V2] E1 E2 E3]; subst t1 found cloexec; cbn [mbind option_bind].
  - exists 0, w1, t''. split; [done |]. split; [done |]. split; [done |]. apply P_range; [done |]. intros k. rewrite V1. specialize (Hcl k).
    destruct (view t k) as [[a b] |]; [| by destruct (_ && _)]. destruct (Z.leb_spec first k); [| by rewrite orb_false_r]. rewrite (Hcl ltac:(done) ltac:(done)). simpl.
    destruct (k <=? end_); [by rewrite orb_true_r | by rewrite orb_false_r].
  - exists 0, w1, t. split; [done |]. split; [done |]. split; [done |]. apply P_range; [done |]. intros k. specialize (Hcl k).
    destruct (view t k) as [[a b] |] eqn:Ev; [| by destruct (_ && _)]. destruct (Z.leb_spec first k); [| done]. rewrite (Hcl ltac:(done) ltac:(done)). simpl.
    destruct (Z.leb_spec k end_); [| done]. by rewrite V1 in Ev by lia.
  - destruct (range_rest_ok e p end_ held (Z.to_nat (end_ - g + 1)) w1 t'' a g Hwf1) as (w2 & t2 & -> & Hwf2 & Ht2 & [C2 S2 V3]); [by rewrite Ht1, lookup_insert_eq | lia | unfold t_size in *; lia | lia |].
    cbn [mbind option_bind]. exists 0, w2, t2. split; [done |]. split; [done |]. split; [by rewrite Ht2, Ht1, insert_insert_eq |]. apply P_range; [done |].
    intros k. rewrite V3, V2. specialize (Hcl k). destruct (view t k) as [[a' b] |] eqn:Ev; [| by destruct (_ && _), (_ && _), (k =? g)].
    destruct (Z.leb_spec first k); [| destruct (Z.ltb_spec g k), (Z.eqb_spec k g); try lia; done]. rewrite (Hcl ltac:(done) ltac:(done)). simpl.
    destruct (Z.leb_spec k end_), (Z.ltb_spec g k), (Z.eqb_spec k g); try lia; try done. by rewrite V1 in Ev by lia.
Qed.
End Refines.

(** ** Theorems *)

(** C26: each call on descriptors does to the map of a table what it promises:
    the lowest free descriptor is used, closing, dup2, dup3, exec and
    close_range change exactly the descriptors they name, and a failed call
    changes none; no other table changes, and all counts stay exact. *)
Theorem fd_calls_refine e w held p t c :
  wf w (match c with DInstall a _ => a :: held | _ => held end) -> w_tables w !! p = Some t -> 0 <= e_limit e < 2 ^ 31 ->
  Z.of_nat (total w held) + 1 < 2 ^ 32 -> match c with DDup2 _ n | DDup3 _ n _ => n < 2 ^ 31 | DRange first _ _ => 0 <= first | _ => True end ->
  exists r w' t', call_table e w p c = Some (r, w') /\ wf w' held /\ w_tables w' = <[p := t']> (w_tables w) /\ promised e (view t) c r (view t').
Proof.
  intros Hwf Ep Hlim Hfew Harg. destruct c as [a flags | f | f | f new_f | f new_f flags | | first last cloexec].
  - destruct (f_install_ok e w held p t a flags Hwf Ep Hlim) as (r & w' & t' & E & Hwf' & Hin & Ht'). eexists _, _, _. split; [exact E |]. split; [done |].
    split; [exact Ht' |]. apply P_install. apply (installed_lowest e t a 0); [done | exact (wf_table _ _ Hwf p t Ep) | done | lia].
  - by apply close_kept.
  - by apply dup_kept.
  - simpl. unfold sys_dup2. assert (w_tables w = <[p := t]> (w_tables w)) as Hid by (by rewrite insert_id). destruct (Z.ltb_spec new_f 0).
    { exists _EBADF, w, t. split; [done |]. split; [done |]. split; [done |]. by apply P_dup2_bad; [left |]. }
    destruct (Z.eqb_spec f new_f) as [<- | Hne].
    + unfold f_get. rewrite Ep. cbn [mbind option_bind]. eexists _, w, t. split; [done |]. split; [done |]. split; [done |]. destruct (fdtable_get t f) eqn:Eg.
      * apply P_dup2_same; [done | rewrite view_get; congruence | done].
      * apply P_dup2_bad; [right; split; [done | by apply view_get] | done].
    + destruct (dup3_kept e w held p t Hwf Ep Hlim Hfew f new_f 0 Harg) as (r & w' & t' & H1 & H2 & H3 & H4). exists r, w', t'. split; [done |]. split; [done |].
      split; [done |]. by apply P_dup2.
  - destruct (dup3_kept e w held p t Hwf Ep Hlim Hfew f new_f flags Harg) as (r & w' & t' & H1 & H2 & H3 & H4). exists r, w', t'. split; [done |]. split; [done |].
    split; [done |]. by apply P_dup3.
  - by apply exec_kept.
  - by apply range_kept.
Qed.


(** What closing takes away from an inode's locks. *)
Definition without (o : Z) (ls : list file_lock) : list file_lock := List.filter (fun l => negb (l_owner l =? o)) ls.

(** Closing a descriptor drops every record lock its process has on the
    file, whichever descriptor placed it; closing the last reference to an open
    file also drops its flock and open-file-description locks; no other lock of
    any file is touched, and the inode goes with its last file. *)
Theorem close_drops_locks e w a owner r w' d i x :
  fdtable_finish_close e w a owner = Some (r, w') -> w_fds w !! a = Some d -> f_inode d = Some i -> w_inodes w !! i = Some x ->
  let last := u32 (f_refcount d - 1) =? 0 in
  (forall j, j <> i -> w_inodes w' !! j = w_inodes w !! j) /\
  (w_inodes w' !! i = if last && (u32 (i_refcount x - 1) =? 0) then None
    else Some (mk_inode (if last then u32 (i_refcount x - 1) else i_refcount x)
                 (if last then without a (without owner (i_posix x)) else without owner (i_posix x))
                 (if last then without a (i_flock x) else i_flock x))) /\
  (w_fds w' !! a = if last then None else Some (set_f_refcount (u32 (f_refcount d - 1)) d)).
Proof.
  intros E Ed Ei Ex last. unfold fdtable_finish_close in E. rewrite Ed in E. cbn [mbind option_bind] in E. rewrite Ei in E.
  unfold drop_posix at 1 in E. rewrite Ex in E. cbn [mbind option_bind] in E. unfold fd_close in E. simpl in E. rewrite Ed in E. cbn [mbind option_bind] in E.
  fold last in E. destruct last; cbn [negb] in E.
  - rewrite Ei in E. unfold drop_flock, drop_posix, inode_release in E. simpl in E. do 3 (rewrite lookup_insert_eq in E; simpl in E).
    injection E as _ <-. destruct (u32 (i_refcount x - 1) =? 0); simpl.
    + split; [intros j Hj; by rewrite lookup_delete_ne, !lookup_insert_ne by congruence |]. split; [apply lookup_delete_eq | apply lookup_delete_eq].
    + split; [intros j Hj; by rewrite !lookup_insert_ne by congruence |]. split; [apply lookup_insert_eq | apply lookup_delete_eq].
  - injection E as _ <-. simpl. split; [intros j Hj; by rewrite lookup_insert_ne by congruence |]. split; [apply lookup_insert_eq | apply lookup_insert_eq].
Qed.

(** ** Runs *)

#[export] Instance fresh_dec c s : Decision (fresh c s).
Proof. destruct c; simpl; apply _. Defined.

Definition readyb (e : env) (tid : Z) (c : call) (s : state) : bool :=
  match s_tasks s !! tid with Some (_, k) => enabled k c | None => false end && bool_decide (fresh c s) &&
  (0 <=? e_limit e) && (e_limit e <? 2 ^ 31) &&
  bool_decide (map_Forall (fun _ t => Z.of_nat (total (s_w s) (held (s_tasks s)) + full t) + 1 < 2 ^ 32) (w_tables (s_w s))) &&
  (Z.of_nat (msum (fun _ => 1%nat) (w_fds (s_w s))) + 1 <? 2 ^ 32) && (Z.of_nat (msum (fun _ => 1%nat) (s_tasks s)) + 1 <? 2 ^ 32).

Lemma readyb_ready e tid c s : readyb e tid c s = true -> ready e tid c s.
Proof.
  unfold readyb. intros H. repeat (apply andb_true_iff in H as [H ?]). destruct (s_tasks s !! tid) as [[p k] |] eqn:E; [| done]. split; try lia.
  - by exists p, k.
  - match goal with H : bool_decide (fresh _ _) = true |- _ => exact (bool_decide_eq_true_1 _ H) end.
  - match goal with H : bool_decide (map_Forall _ _) = true |- _ => apply bool_decide_eq_true in H; exact H end.
Qed.

Fixpoint run_all (e : env) (cs : list (Z * call)) (s : state) : option state :=
  match cs with
  | [] => Some s
  | (tid, c) :: cs => if readyb e tid c s then s ← run e tid c s; run_all e cs s else None
  end.

Lemma run_all_reach e cs s s' : reach s -> run_all e cs s = Some s' -> reach s'.
Proof.
  revert s. induction cs as [| [tid c] cs IH]; intros s Hr E; simpl in E; [by injection E as <- |]. destruct (readyb e tid c s) eqn:Erd; [| done].
  destruct (run e tid c s) as [s1 |] eqn:E1; [| done]. apply (IH s1); [| done]. apply (Reach_step s e tid c); [done | by apply readyb_ready | done].
Qed.

Definition quiet (limit : Z) : env := mk_env limit true (fun _ => None) (fun _ => None) (fun _ => None) (fun _ => None).

(** One thread closes a file while another, on the same table, opens one at the
    same descriptor and forks. *)
Definition demo_calls : list (Z * call) :=
  [(1, COpen 500 (Some 7) 0); (1, CFork 2 true 999); (1, CClose 0); (2, COpen 501 (Some 7) O_CLOEXEC_); (1, CFinish); (2, CDup 0);
   (2, CFork 3 false 101); (3, CGet 0)].
Definition demo_state : state := default (first_state 1 100) (run_all (quiet 64) demo_calls (first_state 1 100)).

Lemma demo_reach : reach demo_state.
Proof.
  destruct (run_all (quiet 64) demo_calls (first_state 1 100)) as [s |] eqn:E; [| by vm_compute in E].
  unfold demo_state. rewrite E. apply (run_all_reach (quiet 64) demo_calls (first_state 1 100)); [apply Reach_first | done].
Qed.


Lemma fd_calls_refine_witness :
  exists r w' t', call_table (quiet 64) (s_w demo_state) 100 (DDup3 0 5 O_CLOEXEC_) = Some (r, w') /\ wf w' (held (s_tasks demo_state)) /\
    w_tables w' = <[100 := t']> (w_tables (s_w demo_state)) /\
    promised (quiet 64) (view (mk_table 2 [Some 501; Some 501; None] [true; false; false])) (DDup3 0 5 O_CLOEXEC_) r (view t').
Proof.
  apply (fd_calls_refine (quiet 64) (s_w demo_state) (held (s_tasks demo_state)) 100 (mk_table 2 [Some 501; Some 501; None] [true; false; false]) (DDup3 0 5 O_CLOEXEC_)).
  - exact (inv_wf _ (reach_inv _ demo_reach)).
  - vm_compute. reflexivity.
  - vm_compute. split; [discriminate | reflexivity].
  - vm_compute. reflexivity.
  - reflexivity.
Defined.

(** Three processes' locks and a flock on inode 7; the file at 500 is closed by the process with table 100. *)
Definition locked_world : world :=
  mk_w {[500 := mk_fd 1 2 (Some 7) None 0; 501 := mk_fd 1 2 (Some 7) None 0]} ∅
    {[7 := mk_inode 2 [mk_lock 0 9 F_RDLCK_ 1 [] 100; mk_lock 0 9 F_RDLCK_ 1 [] 101; mk_lock 0 9 F_RDLCK_ (-1) [] 500] [mk_lock 0 9 F_RDLCK_ 1 [] 500]]} [].
Lemma close_drops_locks_witness : exists r w', fdtable_finish_close (quiet 64) locked_world 500 100 = Some (r, w') /\
  w_inodes w' !! 7 = Some (mk_inode 1 [mk_lock 0 9 F_RDLCK_ 1 [] 101] []).
Proof.
  destruct (fdtable_finish_close (quiet 64) locked_world 500 100) as [[r w'] |] eqn:E; [| by vm_compute in E].
  exists r, w'. split; [reflexivity |].
  destruct (close_drops_locks (quiet 64) locked_world 500 100 r w' (mk_fd 1 2 (Some 7) None 0) 7
    (mk_inode 2 [mk_lock 0 9 F_RDLCK_ 1 [] 100; mk_lock 0 9 F_RDLCK_ 1 [] 101; mk_lock 0 9 F_RDLCK_ (-1) [] 500] [mk_lock 0 9 F_RDLCK_ 1 [] 500])) as (_ & -> & _);
    [exact E | vm_compute; reflexivity | reflexivity | vm_compute; reflexivity | vm_compute; reflexivity].
Defined.

(** ** Where counts and locks are not enough *)

(** dup finds the file without taking a reference; a close by another thread
    frees it before dup counts itself in. *)
Example dup_races_with_close :
  exists w w', f_install (quiet 64) (open_file (s_w (first_state 1 100)) 500 None 0) 100 500 0 = Some (0, w) /\
    f_get w 100 0 = Some (Some 500) /\ f_close (quiet 64) w 100 0 = Some (0, w') /\ dup_install (quiet 64) w' 100 500 = None.
Proof. eexists _, _. split; [vm_compute; reflexivity |]. split; [vm_compute; reflexivity |]. split; [vm_compute; reflexivity |]. vm_compute. reflexivity. Qed.

(** With RLIMIT_NOFILE at 2^32 its 32 low bits are 0, nothing is searched, and a
    new file goes over the one at descriptor 0, which stays counted and unreachable. *)
Example limit_cut_to_32_bits :
  exists w w', f_install (quiet (2 ^ 32)) (open_file (s_w (first_state 1 100)) 500 None 0) 100 500 0 = Some (0, w) /\
    f_install (quiet (2 ^ 32)) (open_file w 501 None 0) 100 501 0 = Some (0, w') /\
    (view <$> w_tables w' !! 100) ≫= (fun v => v 0) = Some (501, false) /\ f_refcount <$> w_fds w' !! 500 = Some 1.
Proof. eexists _, _. split; [vm_compute; reflexivity |]. split; [vm_compute; reflexivity |]. split; vm_compute; reflexivity. Qed.

(** exec by a process that shares its table with another closes the other's
    close-on-exec descriptors too. *)
Example exec_closes_for_sharer :
  exists s, run_all (quiet 64) [(1, COpen 500 None O_CLOEXEC_); (1, CFork 2 true 999); (2, CExec)] (first_state 1 100) = Some s /\
    fst <$> s_tasks s !! 1 = Some 100 /\ (view <$> w_tables (s_w s) !! 100) ≫= (fun v => v 0) = None.
Proof. eexists. split; [vm_compute; reflexivity |]. split; vm_compute; reflexivity. Qed.
