(* ===== verification/Fcntl.v ===== *)
(** * fcntl (sys_fcntl_common of fs/fd.c)

    Every command, on the tables of FdTable.v, the record locks of FileLock.v and
    guest memory.  The call holds a reference to the file between f_get_retain
    and the final fd_close; a command that sleeps for a lock is split there.
    Process numbers, and the seals of memory files (kernel/memfd.c), are
    arguments. *)

From Stdlib Require Import ZifyBool.
From S2P Require Import Prelude User FileLock Counts FdTable FdRefs.

Definition F_DUPFD_ := 0.
Definition F_GETFD_ := 1.
Definition F_SETFD_ := 2.
Definition F_GETFL_ := 3.
Definition F_SETFL_ := 4.
Definition F_GETLK_ := 5.
Definition F_SETLK_ := 6.
Definition F_SETLKW_ := 7.
Definition F_SETOWN_ := 8.
Definition F_GETOWN_ := 9.
Definition F_GETLK64_ := 12.
Definition F_SETLK64_ := 13.
Definition F_SETLKW64_ := 14.
Definition F_SETOWN_EX_ := 15.
Definition F_GETOWN_EX_ := 16.
Definition F_OFD_GETLK_ := 36.
Definition F_OFD_SETLK_ := 37.
Definition F_OFD_SETLKW_ := 38.
Definition F_DUPFD_CLOEXEC_ := 1030.
Definition F_ADD_SEALS_ := 1033.
Definition F_GET_SEALS_ := 1034.
Definition F_OWNER_TID_ := 0.
Definition F_OWNER_PID_ := 1.
Definition F_OWNER_PGRP_ := 2.

(** ** The layouts of struct flock in guest memory *)

Inductive layout := Flock32 | Flock | Flock_amd64.
Definition flock_size (l : layout) : Z := match l with Flock32 => 16 | Flock => 24 | Flock_amd64 => 28 end.

Definition flock_decode (l : layout) (bs : list Z) : flock :=
  let num off n := le_num (field off n bs) in
  match l with
  | Flock32 => mk_flock (num 0 2)%nat (num 2 2)%nat (num 4 4)%nat (num 8 4)%nat (s32 (num 12 4)%nat) []
  | Flock => mk_flock (num 0 2)%nat (num 2 2)%nat (s64 (num 4 8)%nat) (s64 (num 12 8)%nat) (s32 (num 20 4)%nat) []
  | Flock_amd64 => mk_flock (num 0 2)%nat (num 2 2)%nat (s64 (num 8 8)%nat) (s64 (num 16 8)%nat) (s32 (num 24 4)%nat) []
  end.

(** [old] is what was read: its padding goes back. *)
Definition flock_encode (l : layout) (old : list Z) (f : flock) : list Z :=
  let head := le_bytes 2 (fl_type f) ++ le_bytes 2 (fl_whence f) in
  match l with
  | Flock32 => head ++ le_bytes 4 (fl_start f) ++ le_bytes 4 (fl_len f) ++ le_bytes 4 (fl_pid f)
  | Flock => head ++ le_bytes 8 (fl_start f) ++ le_bytes 8 (fl_len f) ++ le_bytes 4 (fl_pid f)
  | Flock_amd64 => head ++ field 4 4 old ++ le_bytes 8 (fl_start f) ++ le_bytes 8 (fl_len f) ++ le_bytes 4 (fl_pid f)
  end.

Section Fcntl.
Context {M : Type} `{GuestMemory M}.

(** Who is calling: what its files answer, as FileLock.v asks ([c_fd] and
    [c_files] are set by the call), pids of its namespace, the seals. *)
Record fctx := mk_fctx {
  x_caller : caller; x_pid_shown : Z -> Z; x_pid_global : Z -> Z; x_pid_live : Z -> bool; x_pgrp_live : Z -> bool;
  x_add_seals : Z -> Z -> Z; x_get_seals : Z -> Z }.

Definition caller_on (x : fctx) (p a : Z) : caller :=
  let c := x_caller x in mk_caller (c_lseek c) (c_fstat c) a p (c_tgid c) (c_pid c) (c_comm c).

Definition fd_setown (x : fctx) (d : fdesc) (who : Z) : fdesc * Z :=
  if who =? 0 then (set_f_owner 0 d, 0) else
  if negb (if who >? 0 then x_pid_live x who else x_pgrp_live x (- who)) then (d, _ESRCH) else
  (set_f_owner (if who >? 0 then x_pid_global x who else - x_pid_global x (- who)) d, 0).

Definition owner_shown (x : fctx) (d : fdesc) : Z :=
  if f_owner d >=? 0 then x_pid_shown x (f_owner d) else - x_pid_shown x (- f_owner d).

(** Between the two references: done, or asleep for a lock. *)
Inductive fcntl_out := FDone (ret : Z) (m : M) (w : world) (ws : list lock_waiter) | FAsleep (request : file_lock) (w : world) (ws : list lock_waiter).

(** The record locks of the file, and a new list of them. *)
Definition locks_of (w : world) (d : fdesc) : option (option (list file_lock)) :=
  match f_inode d with None => Some None | Some i => x ← w_inodes w !! i; Some (Some (i_posix x)) end.
Definition put_locks (w : world) (d : fdesc) (ls : list file_lock) : option world :=
  match f_inode d with
  | None => Some w
  | Some i => x ← w_inodes w !! i; Some (put_inode i (mk_inode (i_refcount x) ls (i_flock x)) w)
  end.

(** One turn of fcntl_setlk's loop. *)
Definition setlk_turn (w : world) (ws : list lock_waiter) (d : fdesc) (m : M) (request : file_lock) (blocking : bool) : option fcntl_out :=
  ls ← locks_of w d;
  match ls with
  | None => None
  | Some ls =>
      let '(ls', ws', _, res) := setlk_round ls ws request blocking in
      w ← put_locks w d ls';
      Some (match res with Finished err => FDone err m w ws' | Asleep => FAsleep request w ws' end)
  end.

Definition fcntl_lock (e : env) (x : fctx) (w : world) (ws : list lock_waiter) (m : M) (p a : Z) (d : fdesc) (l : layout) (arg : Z)
    (get blocking ofd : bool) : option fcntl_out :=
  match user_read m arg (flock_size l) with
  | None => Some (FDone _EFAULT m w ws)
  | Some bs =>
      let f := flock_decode l bs in
      ls ← locks_of w d;
      if get then
        let '(f', ret) := fcntl_getlk (x_pid_shown x) (caller_on x p a) ls f ofd in
        if ret <? 0 then Some (FDone ret m w ws) else
        let '(m, ok) := user_write m arg (flock_encode l bs f') in
        Some (FDone (if ok : bool then ret else _EFAULT) m w ws)
      else
        match setlk_begin (caller_on x p a) (fd_getflags e a d) ls f ofd with
        | inl ret => Some (FDone ret m w ws)
        | inr request => setlk_turn w ws d m request blocking
        end
  end.

Definition fcntl_command (e : env) (x : fctx) (w : world) (ws : list lock_waiter) (m : M) (p f a cmd arg : Z) (guest64_locks : bool) : option fcntl_out :=
  d ← w_fds w !! a;
  let done ret w := Some (FDone ret m w ws) in
  let lock := fcntl_lock e x w ws m p a d in
  let native := if guest64_locks then Flock_amd64 else Flock in
  if (cmd =? F_DUPFD_) || (cmd =? F_DUPFD_CLOEXEC_) then
    if u64 arg >=? e_limit e then done _EINVAL w else
    w ← fd_retain w a;
    '(new_f, w) ← f_install_start e w p a (s32 arg);
    if (new_f >=? 0) && (cmd =? F_DUPFD_CLOEXEC_) then t ← w_tables w !! p; done new_f (put_table p (set_bit t new_f true) w) else done new_f w
  else if cmd =? F_GETFD_ then t ← w_tables w !! p; done (if bit_of t f then 1 else 0) w
  else if cmd =? F_SETFD_ then t ← w_tables w !! p; done 0 (put_table p (set_bit t f (has_flag arg 1)) w)
  else if cmd =? F_GETFL_ then done (fd_getflags e a d) w
  else if cmd =? F_SETFL_ then let '(d, ret) := fd_setflags e a d arg in done ret (put_fd a d w)
  else if cmd =? F_GETOWN_ then done (owner_shown x d) w
  else if cmd =? F_SETOWN_ then let '(d, ret) := fd_setown x d (s32 arg) in done ret (put_fd a d w)
  else if cmd =? F_GETOWN_EX_ then
    let who := owner_shown x d in
    let '(type, pid) := if who <? 0 then (F_OWNER_PGRP_, - who) else (if who >? 0 then F_OWNER_PID_ else F_OWNER_TID_, who) in
    let '(m, ok) := user_write m arg (le_bytes 4 type ++ le_bytes 4 pid) in Some (FDone (if ok : bool then 0 else _EFAULT) m w ws)
  else if cmd =? F_SETOWN_EX_ then
    match user_read m arg 8 with
    | None => done _EFAULT w
    | Some bs =>
        let type := s32 (le_num (field 0 4 bs)) in
        let pid := s32 (le_num (field 4 4 bs)) in
        if (type =? F_OWNER_TID_) || (type =? F_OWNER_PID_) then let '(d, ret) := fd_setown x d pid in done ret (put_fd a d w)
        else if type =? F_OWNER_PGRP_ then let '(d, ret) := fd_setown x d (s32 (- pid)) in done ret (put_fd a d w)
        else done _EINVAL w
    end
  else if cmd =? F_GETLK_ then lock (if guest64_locks then Flock_amd64 else Flock32) arg true false false
  else if cmd =? F_GETLK64_ then lock Flock arg true false false
  else if (cmd =? F_SETLK_) || (cmd =? F_SETLKW_) then lock (if guest64_locks then Flock_amd64 else Flock32) arg false (cmd =? F_SETLKW_) false
  else if (cmd =? F_SETLK64_) || (cmd =? F_SETLKW64_) then lock Flock arg false (cmd =? F_SETLKW64_) false
  else if cmd =? F_OFD_GETLK_ then lock native arg true false true
  else if (cmd =? F_OFD_SETLK_) || (cmd =? F_OFD_SETLKW_) then lock native arg false (cmd =? F_OFD_SETLKW_) true
  else if cmd =? F_ADD_SEALS_ then done (x_add_seals x a arg) w
  else if cmd =? F_GET_SEALS_ then done (x_get_seals x a) w
  else done _EINVAL w.

(** What an O_PATH descriptor may be asked. *)
Definition path_command (cmd : Z) : bool := existsb (Z.eqb cmd) [F_DUPFD_; F_DUPFD_CLOEXEC_; F_GETFD_; F_SETFD_; F_GETFL_].

(** The call up to its end or to a sleep, in which it keeps the reference to the file. *)
Definition sys_fcntl_common (e : env) (x : fctx) (w : world) (ws : list lock_waiter) (m : M) (p f cmd arg : Z) (guest64_locks : bool) : option fcntl_out :=
  '(a, w) ← f_get_retain w p f;
  match a with
  | None => Some (FDone _EBADF m w ws)
  | Some a =>
      d ← w_fds w !! a;
      if has_flag (f_flags d) O_PATH_ && negb (path_command cmd) then '(_, w) ← fd_close e w a; Some (FDone _EBADF m w ws) else
      out ← fcntl_command e x w ws m p f a cmd arg guest64_locks;
      match out with
      | FDone ret m w ws => '(_, w) ← fd_close e w a; Some (FDone ret m w ws)
      | FAsleep request w ws => Some (FAsleep request w ws)
      end
  end.

Definition sys_fcntl32 (e : env) (x : fctx) (w : world) (ws : list lock_waiter) (m : M) (p f cmd arg : Z) : option fcntl_out :=
  if existsb (Z.eqb cmd) [F_GETLK64_; F_SETLK64_; F_SETLKW64_; F_OFD_GETLK_; F_OFD_SETLK_; F_OFD_SETLKW_] then Some (FDone _EINVAL m w ws)
  else sys_fcntl_common e x w ws m p f cmd arg false.

End Fcntl.
Arguments fcntl_out : clear implicits.

(** ** Every command keeps the counts *)

Lemma put_locks_ok w held a d ls : wf w held -> w_fds w !! a = Some d -> exists w', put_locks w d ls = Some w' /\ same_inodes w w'.
Proof.
  intros Hwf Ed. unfold put_locks. destruct (f_inode d) as [i |] eqn:Ei; [| by exists w]. destruct (wf_user w held a d i Hwf Ed Ei) as [x Ex]. rewrite Ex.
  cbn [mbind option_bind]. eexists. split; [done |]. by apply (put_inode_same w i x).
Qed.
Lemma locks_of_ok w held a d : wf w held -> w_fds w !! a = Some d -> exists ls, locks_of w d = Some ls /\ (ls = None <-> f_inode d = None).
Proof.
  intros Hwf Ed. unfold locks_of. destruct (f_inode d) as [i |] eqn:Ei; [| by exists None]. destruct (wf_user w held a d i Hwf Ed Ei) as [x Ex]. rewrite Ex.
  cbn [mbind option_bind]. by eexists.
Qed.

Section Keeps.
Context {M : Type} `{GuestMemory M}.
Context (e : env) (x : fctx) (w : world) (ws : list lock_waiter) (m : M) (p f : Z) (held : list Z).

(** The outcome of a command that holds [a]. *)
Definition holds (a : Z) (out : fcntl_out M) : Prop :=
  match out with FDone _ _ w' _ | FAsleep _ w' _ => wf w' (a :: held) /\ dom (w_tables w') = dom (w_tables w) end.

Lemma lock_keeps a d l arg get blocking ofd :
  wf w (a :: held) -> w_fds w !! a = Some d -> exists out, fcntl_lock e x w ws m p a d l arg get blocking ofd = Some out /\ holds a out.
Proof.
  intros Hwf Ed. unfold fcntl_lock. destruct (user_read m arg (flock_size l)) as [bs |]; [| eexists; split; [done |]; done].
  destruct (locks_of_ok w _ a d Hwf Ed) as (ls & El & Hno). rewrite El. cbn [mbind option_bind]. destruct get.
  - destruct (fcntl_getlk _ _ _ _ _) as [f' ret]. destruct (ret <? 0); [eexists; split; done |]. destruct (user_write _ _ _) as [m' ok]. eexists. split; done.
  - destruct (setlk_begin _ _ _ _ _) as [ret | request] eqn:Eb; [eexists; split; done |]. unfold setlk_turn. rewrite El. cbn [mbind option_bind].
    destruct ls as [ls |].
    + destruct (setlk_round ls ws request blocking) as [[[ls' ws'] n] res]. destruct (put_locks_ok w _ a d ls' Hwf Ed) as (w' & -> & Hs). cbn [mbind option_bind].
      eexists. split; [done |]. assert (wf w' (a :: held) /\ dom (w_tables w') = dom (w_tables w)) as Hk by (split; [by apply (same_inodes_wf w) | by rewrite (proj1 (proj2 Hs))]).
      by destruct res.
    + exfalso. unfold setlk_begin in Eb. repeat case_match; done.
Qed.

Lemma owner_keeps a d who d' ret : wf w (a :: held) -> w_fds w !! a = Some d -> fd_setown x d who = (d', ret) -> wf (put_fd a d' w) (a :: held).
Proof.
  intros Hwf Ed E. apply (wf_flags w (a :: held) a d); [done | done | |]; unfold fd_setown in E; repeat case_match; by simplify_eq.
Qed.

Lemma dupfd_keeps a t arg cloexec :
  wf w (a :: held) -> w_tables w !! p = Some t -> 0 <= arg < 2 ^ 64 -> 0 <= e_limit e < 2 ^ 31 -> Z.of_nat (total w (a :: held)) + 1 < 2 ^ 32 -> u64 arg < e_limit e ->
  exists out, (w1 ← fd_retain w a; '(new_f, w1) ← f_install_start e w1 p a (s32 arg);
    if (new_f >=? 0) && cloexec then t ← w_tables w1 !! p; Some (FDone new_f m (put_table p (set_bit t new_f true) w1) ws) else Some (FDone new_f m w1 ws)) = Some out /\ holds a out.
Proof.
  intros Hwf Ep Ha Hlim Hfew Hlt. rewrite u64_small in Hlt by lia. assert (s32 arg = arg) as -> by (apply swrap_small; unfold in_s; lia).
  destruct (retain_ok w (a :: held) a Hwf) as (w1 & -> & Hwf1 & Ht1 & _); [unfold refs; rewrite occ_self; lia | by apply few_cons |]. cbn [mbind option_bind].
  destruct (install_ok e w1 (a :: held) p t a arg Hwf1) as (new_f & w2 & t2 & -> & Hwf2 & _ & Ht2 & _); [by rewrite Ht1 | lia | done |]. cbn [mbind option_bind].
  rewrite Ht1 in Ht2. assert (dom (w_tables w2) = dom (w_tables w)) as Hd. { rewrite Ht2, dom_insert_L. apply elem_of_dom_2 in Ep. set_solver. }
  destruct (_ && cloexec); [| eexists; split; [done |]; done]. rewrite Ht2, lookup_insert_eq. cbn [mbind option_bind]. eexists. split; [done |]. split.
  - apply wf_set_bit; [done | by rewrite Ht2, lookup_insert_eq].
  - simpl. rewrite dom_insert_L, Hd. apply elem_of_dom_2 in Ep. set_solver.
Qed.

Lemma command_keeps a t cmd arg guest64 :
  wf w (a :: held) -> w_tables w !! p = Some t -> 0 <= arg < 2 ^ 64 -> 0 <= e_limit e < 2 ^ 31 -> Z.of_nat (total w (a :: held)) + 1 < 2 ^ 32 ->
  exists out, fcntl_command e x w ws m p f a cmd arg guest64 = Some out /\ holds a out.
Proof.
  intros Hwf Ep Ha Hlim Hfew. destruct (wf_live w (a :: held) a Hwf) as [d Ed]; [unfold refs; rewrite occ_self; lia |].
  assert (forall ret, exists out, Some (FDone ret m w ws) = Some out /\ holds a out) as Hsame by (intros ret; eexists; split; done).
  assert (forall b, dom (w_tables (put_table p (set_bit t f b) w)) = dom (w_tables w)) as Hdom. { intros b. simpl. rewrite dom_insert_L. apply elem_of_dom_2 in Ep. set_solver. }
  assert (forall d' ret, wf (put_fd a d' w) (a :: held) -> exists out, Some (FDone ret m (put_fd a d' w) ws) = Some out /\ holds a out) as Hput by (intros d' ret Hw; eexists; split; done).
  unfold fcntl_command. rewrite Ed. cbn [mbind option_bind]. destruct (_ || _).
  { destruct (Z.geb_spec (u64 arg) (e_limit e)); [apply Hsame |]. by apply (dupfd_keeps a t). }
  destruct (cmd =? F_GETFD_); [rewrite Ep; apply Hsame |]. destruct (cmd =? F_SETFD_).
  { rewrite Ep. cbn [mbind option_bind]. eexists. split; [done |]. split; [by apply wf_set_bit | apply Hdom]. }
  destruct (cmd =? F_GETFL_); [apply Hsame |]. destruct (cmd =? F_SETFL_).
  { destruct (fd_setflags e a d arg) as [d' ret] eqn:E. apply Hput. destruct (setflags_same e a d arg). rewrite E in *. by apply (wf_flags w (a :: held) a d). }
  destruct (cmd =? F_GETOWN_); [apply Hsame |]. destruct (cmd =? F_SETOWN_).
  { destruct (fd_setown x d (s32 arg)) as [d' ret] eqn:E. apply Hput. by eapply owner_keeps. }
  destruct (cmd =? F_GETOWN_EX_). { destruct (if _ <? 0 then _ else _) as [type pid]. destruct (user_write _ _ _) as [m' ok]. eexists. split; done. }
  destruct (cmd =? F_SETOWN_EX_).
  { destruct (user_read m arg 8) as [bs |]; [| apply Hsame]. cbv zeta. destruct (_ || _); [| destruct (_ =? F_OWNER_PGRP_); [| apply Hsame]].
    - destruct (fd_setown x d (s32 (le_num (field 4 4 bs)))) as [d' ret] eqn:E. apply Hput. by eapply owner_keeps.
    - destruct (fd_setown x d (s32 (- s32 (le_num (field 4 4 bs))))) as [d' ret] eqn:E. apply Hput. by eapply owner_keeps. }
  repeat match goal with |- context [if ?b then _ else _] => destruct b; [by apply lock_keeps || apply Hsame |] end. apply Hsame.
Qed.
End Keeps.

(** Taking a reference and giving it back changes nothing. *)
Lemma retain_close e w held a d : wf w held -> w_fds w !! a = Some d -> few w (a :: held) ->
  exists w1, fd_retain w a = Some w1 /\ w_fds w1 !! a = Some (set_f_refcount (u32 (f_refcount d + 1)) d) /\ fd_close e w1 a = Some (0, w).
Proof.
  intros Hwf Ed Hfew. destruct (wf_here _ _ _ _ Hwf Ed) as [Er Hp]. pose proof (refs_total w (a :: held) a) as Hle. destruct Hfew as [Hfew _].
  assert (refs w (a :: held) a = S (refs w held a)) as Es by (unfold refs; rewrite occ_self; lia).
  unfold fd_retain. rewrite Ed. cbn [mbind option_bind]. eexists. split; [done |]. split; [apply lookup_insert_eq |]. unfold fd_close, put_fd. simpl.
  rewrite lookup_insert_eq. cbn [mbind option_bind f_refcount set_f_refcount]. rewrite (u32_small (f_refcount d + 1)) by lia.
  replace (f_refcount d + 1 - 1) with (f_refcount d) by lia. rewrite u32_small by lia. destruct (Z.eqb_spec (f_refcount d) 0); [lia |]. cbn [negb].
  rewrite insert_insert_eq. assert (set_f_refcount (f_refcount d) (set_f_refcount (f_refcount d + 1) d) = d) as -> by (by destruct d).
  rewrite insert_id by done. by destruct w.
Qed.


(** Numbers of [n] bytes. *)
Lemma le_num_bytes n x : le_num (le_bytes n x) = x mod 256 ^ Z.of_nat n.
Proof.
  revert x. induction n as [| n IH]; intros x; [simpl; by rewrite Z.mod_1_r |]. cbn [le_bytes le_num]. rewrite IH.
  rewrite Nat2Z.inj_succ, Z.pow_succ_r by lia. rewrite Z.rem_mul_r by lia. lia.
Qed.
(** What fits the fields of a layout. *)
Definition fits (l : layout) (f : flock) : Prop :=
  in_u 16 (fl_type f) /\ in_u 16 (fl_whence f) /\ in_s 32 (fl_pid f) /\ fl_comm f = [] /\
  match l with Flock32 => in_u 32 (fl_start f) /\ in_u 32 (fl_len f) | _ => in_s 64 (fl_start f) /\ in_s 64 (fl_len f) end.

Lemma le_num_u n x : in_u (8 * Z.of_nat n) x -> le_num (le_bytes n x) = x.
Proof. intros Hx. rewrite le_num_bytes. apply Z.mod_small. unfold in_u in Hx. by rewrite Z.pow_mul_r in Hx by lia. Qed.
Lemma le_num_s n x : (0 < n)%nat -> in_s (8 * Z.of_nat n) x -> swrap (8 * Z.of_nat n) (le_num (le_bytes n x)) = x.
Proof.
  intros Hn Hx. rewrite le_num_bytes. replace (256 ^ Z.of_nat n) with (2 ^ (8 * Z.of_nat n)) by (by rewrite Z.pow_mul_r by lia).
  transitivity (swrap (8 * Z.of_nat n) x); [unfold swrap; by rewrite Z.mod_mod by lia | apply swrap_small; [lia | done]].
Qed.

(** A lock description written to guest memory in any of the three layouts
    is read back as it was, padding kept. *)
Theorem flock_layout_roundtrip l old f : fits l f -> length old = Z.to_nat (flock_size l) ->
  flock_decode l (flock_encode l old f) = f /\ length (flock_encode l old f) = Z.to_nat (flock_size l).
Proof.
  intros (Ht & Hw & Hp & Hc & Hsl) Hold. pose proof (le_num_u 2 _ Ht) as E1. pose proof (le_num_u 2 _ Hw) as E2. pose proof (le_num_s 4 _ ltac:(lia) Hp) as E3.
  destruct f as [type whence start len_ pid comm]. simpl in Hc, Hsl, E1, E2, E3. subst comm. destruct l.
  - destruct Hsl as [Hs Hl]. split; [| done]. pose proof (le_num_u 4 _ Hs) as E4. pose proof (le_num_u 4 _ Hl) as E5.
    transitivity (mk_flock (le_num (le_bytes 2 type)) (le_num (le_bytes 2 whence)) (le_num (le_bytes 4 start)) (le_num (le_bytes 4 len_)) (s32 (le_num (le_bytes 4 pid))) []);
      [reflexivity | by f_equal].
  - destruct Hsl as [Hs Hl]. split; [| done]. pose proof (le_num_s 8 _ ltac:(lia) Hs) as E4. pose proof (le_num_s 8 _ ltac:(lia) Hl) as E5.
    transitivity (mk_flock (le_num (le_bytes 2 type)) (le_num (le_bytes 2 whence)) (s64 (le_num (le_bytes 8 start))) (s64 (le_num (le_bytes 8 len_))) (s32 (le_num (le_bytes 4 pid))) []);
      [reflexivity | by f_equal].
  - destruct Hsl as [Hs Hl]. pose proof (le_num_s 8 _ ltac:(lia) Hs) as E4. pose proof (le_num_s 8 _ ltac:(lia) Hl) as E5.
    unfold flock_encode. assert (length (field 4 4 old) = 4%nat) as Hpad by (unfold field; rewrite length_take, length_drop, Hold; done).
    destruct (field 4 4 old) as [| a [| b [| c [| d [|]]]]]; try done. split; [| done].
    transitivity (mk_flock (le_num (le_bytes 2 type)) (le_num (le_bytes 2 whence)) (s64 (le_num (le_bytes 8 start))) (s64 (le_num (le_bytes 8 len_))) (s32 (le_num (le_bytes 4 pid))) []);
      [reflexivity | by f_equal].
Qed.

(** ** Examples *)

(** Memory that holds one block of bytes, at every address. *)
#[export] Instance block_memory : GuestMemory (list Z) := { user_read m a n := Some (take (Z.to_nat n) m); user_write m a bs := (m, true) }.

Definition nobody : fctx :=
  mk_fctx (mk_caller (Some 0) None 0 0 1 1 []) (fun p => p) (fun p => p) (fun _ => true) (fun _ => true) (fun _ _ => 0) (fun _ => 0).
Definition quiet_env : env := mk_env 64 true (fun _ => None) (fun _ => None) (fun _ => None) (fun _ => None).

(** Files 500 and 501 on inode 7, in the tables 100 and 101 of two processes. *)
Definition two_processes : world :=
  mk_w {[500 := mk_fd 1 2 (Some 7) None 0; 501 := mk_fd 1 2 (Some 7) None 0]}
       {[100 := mk_table 1 [Some 500] [false]; 101 := mk_table 1 [Some 501] [false]]} {[7 := mk_inode 2 [] []]} [].

Lemma two_processes_wf : wf two_processes [].
Proof.
  assert (forall (f : fdtable -> nat) t1 t2, msum f ({[100 := t1; 101 := t2]} : gmap Z fdtable) = (f t1 + f t2)%nat) as Hm.
  { intros f t1 t2. rewrite <- (insert_empty (M := gmap Z)), msum_fresh, msum_fresh, msum_empty by done. lia. }
  assert (forall (f : fdesc -> nat) d1 d2, msum f ({[500 := d1; 501 := d2]} : gmap Z fdesc) = (f d1 + f d2)%nat) as Hn.
  { intros f d1 d2. rewrite <- (insert_empty (M := gmap Z)), msum_fresh, msum_fresh, msum_empty by done. lia. }
  split.
  - intros a. unfold refs, two_processes, slots. simpl w_tables. simpl w_fds. rewrite Hm. unfold occ at 3. simpl filter. cbn [t_files]. rewrite !occ_cons.
    destruct (decide (a = 500)) as [-> | H1]; [vm_compute; split; [reflexivity | lia] |]. destruct (decide (a = 501)) as [-> | H2]; [vm_compute; split; [reflexivity | lia] |].
    rewrite lookup_insert_ne, lookup_singleton_ne by congruence. rewrite !decide_False by congruence. done.
  - intros i. unfold users, two_processes. simpl w_fds. simpl w_inodes. rewrite Hn. cbn [f_inode]. destruct (decide (i = 7)) as [-> | Hi]; [vm_compute; split; [reflexivity | lia] |].
    rewrite lookup_singleton_ne by congruence. rewrite !decide_False by congruence. done.
  - intros p t. unfold two_processes. simpl w_tables. intros H. apply lookup_insert_Some in H as [[_ <-] | [_ H]]; [done |].
    by apply lookup_singleton_Some in H as [_ <-].
  - unfold few, total, two_processes. simpl w_tables. simpl w_fds. rewrite Hm, Hn. done.
Qed.

(** A write lock on the whole file, in the layout of F_SETLK64. *)
Definition write_lock : list Z := flock_encode Flock [] (mk_flock F_WRLCK_ LSEEK_SET 0 0 0 []).


Lemma flock_layout_roundtrip_witness :
  flock_decode Flock_amd64 (flock_encode Flock_amd64 (replicate 28 170) (mk_flock F_WRLCK_ LSEEK_END (-5) 3 42 [])) = mk_flock F_WRLCK_ LSEEK_END (-5) 3 42 [].
Proof. apply (flock_layout_roundtrip Flock_amd64); [| reflexivity]. unfold fits, in_u, in_s. cbn [fl_type fl_whence fl_pid fl_comm fl_start fl_len].
  repeat (split; [first [reflexivity | split; [discriminate | reflexivity]] |]). split; [discriminate | reflexivity]. Defined.

(** The legacy 32-bit layout has signed offsets, but they are widened as unsigned:
    five bytes before the end become four gigabytes after it. *)
Example legacy_offset_not_signed : fl_start (flock_decode Flock32 (le_bytes 2 F_WRLCK_ ++ le_bytes 2 LSEEK_END ++ le_bytes 4 (-5) ++ replicate 8 0)) = 4294967291.
Proof. vm_compute. reflexivity. Qed.

(** While F_SETLK is between its reference and its lock, another thread closes
    the descriptor; the lock is placed for a table that has no descriptor of the
    file left.  Nothing removes it: the process is gone, and the other process
    cannot lock the file. *)
Definition setlk_after_close : option (Z * bool) :=
  '(_, w) ← f_get_retain two_processes 100 0;
  '(_, w) ← f_close quiet_env w 100 0;
  out ← fcntl_command quiet_env nobody w [] write_lock 100 0 500 F_SETLK64_ 4096 false;
  match out with
  | FDone 0 _ w _ =>
      '(_, w) ← fd_close quiet_env w 500;
      w ← fdtable_release quiet_env w 100;
      out ← sys_fcntl_common quiet_env nobody w [] write_lock 101 0 F_SETLK64_ 4096 false;
      match out with FDone ret _ w _ => Some (ret, bool_decide (is_Some (w_tables w !! 100))) | _ => None end
  | _ => None
  end.
Example lock_outlives_process : setlk_after_close = Some (_EAGAIN, false).
Proof. vm_compute. reflexivity. Qed.
