(* ===== verification/EventFd.v ===== *)
(** * Event counters (kernel/eventfd.c)

    A counter that read takes from and write adds to, each sleeping when it
    cannot.  The calls are split where they sleep; the steps interleave them. *)

From Stdlib Require Import ZifyBool.
From S2P Require Import Prelude User FileLock FdTable.

Definition UINT64_MAX := 2 ^ 64 - 1.
Definition EFD_SEMAPHORE_ := 1.
Definition POLL_READ := 1.
Definition POLL_WRITE := 4.

(** [fd->eventfd]. *)
Record eventfd := mk_ev { ev_val : Z; ev_semaphore : bool }.

(** A new counter, in a file made at the fresh address [a] and installed in the
    caller's table [p]. *)
Definition sys_eventfd2 (e : env) (w : world) (current : option (list Z)) (p a initval flags : Z) : option (Z * option eventfd * world) :=
  if negb (flags .& Z.lnot (O_CLOEXEC_ .| O_NONBLOCK_ .| EFD_SEMAPHORE_) =? 0) then Some (_EINVAL, None, w) else
  if negb (e_mem e) then Some (_ENOMEM, None, w) else
  '(f, w) ← f_install e (fd_create w current a) p a (flags .& Z.lnot EFD_SEMAPHORE_);
  Some (f, Some (mk_ev (u32 initval) (has_flag flags EFD_SEMAPHORE_)), w).
Definition sys_eventfd (e : env) (w : world) (current : option (list Z)) (p a initval : Z) : option (Z * option eventfd * world) :=
  sys_eventfd2 e w current p a initval 0.

(** A turn under the lock: the answer with the number read, or a sleep. *)
Inductive ev_turn := EvDone (ret : Z) (value : Z) (ev : eventfd) | EvAgain | EvSleep.

Definition eventfd_read_turn (ev : eventfd) (nonblock : bool) : ev_turn :=
  if ev_val ev =? 0 then if nonblock then EvAgain else EvSleep else
  if ev_semaphore ev then EvDone 8 1 (mk_ev (u64 (ev_val ev - 1)) true) else EvDone 8 (ev_val ev) (mk_ev 0 false).

Definition eventfd_write_turn (ev : eventfd) (nonblock : bool) (increment : Z) : ev_turn :=
  if ev_val ev >=? u64 (UINT64_MAX - increment) then if nonblock then EvAgain else EvSleep else
  EvDone 8 increment (mk_ev (u64 (ev_val ev + increment)) (ev_semaphore ev)).

(** Before the lock: an error, or what to do. *)
Definition eventfd_read_begin (bufsize : Z) : option Z := if bufsize <? 8 then Some _EINVAL else None.
Definition eventfd_write_begin (bufsize increment : Z) : option Z :=
  if bufsize <? 8 then Some _EINVAL else if increment =? UINT64_MAX then Some _EINVAL else None.

Definition eventfd_poll (ev : eventfd) : Z :=
  (if ev_val ev >? 0 then POLL_READ else 0) .| (if ev_val ev <? UINT64_MAX - 1 then POLL_WRITE else 0).

Definition eventfd_ckpt_new (val : Z) (semaphore : bool) : eventfd := mk_ev val semaphore.

(** ** Interleavings *)

Inductive eop := ERead | EWrite (increment : Z).
Definition turn (ev : eventfd) (nonblock : bool) (o : eop) : ev_turn :=
  match o with ERead => eventfd_read_turn ev nonblock | EWrite n => eventfd_write_turn ev nonblock n end.

(** The counter, the calls asleep with whether they have been notified, and what
    has been written and read so far. *)
Record evs := mk_evs { es_ev : eventfd; es_asleep : list (eop * bool); es_written : Z; es_read : Z }.

Definition notify_all (l : list (eop * bool)) : list (eop * bool) := map (fun '(o, _) => (o, true)) l.

(** A turn that is done changes the counter and notifies. *)
Definition after (s : evs) (asleep : list (eop * bool)) (o : eop) (value : Z) (ev : eventfd) : evs :=
  match o with
  | ERead => mk_evs ev (notify_all asleep) (es_written s) (es_read s + value)
  | EWrite _ => mk_evs ev (notify_all asleep) (es_written s + value) (es_read s)
  end.

Definition op_ok (o : eop) : Prop := match o with ERead => True | EWrite n => 0 <= n < UINT64_MAX end.

Inductive ev_step : evs -> evs -> Prop :=
| Ev_call s o nonblock ret v ev : op_ok o -> turn (es_ev s) nonblock o = EvDone ret v ev -> ev_step s (after s (es_asleep s) o v ev)
| Ev_sleep s o : op_ok o -> turn (es_ev s) false o = EvSleep -> ev_step s (mk_evs (es_ev s) ((o, false) :: es_asleep s) (es_written s) (es_read s))
| Ev_wake s l1 o n l2 ret v ev : es_asleep s = l1 ++ (o, n) :: l2 -> turn (es_ev s) false o = EvDone ret v ev -> ev_step s (after s (l1 ++ l2) o v ev)
| Ev_again s l1 o n l2 : es_asleep s = l1 ++ (o, n) :: l2 -> turn (es_ev s) false o = EvSleep ->
    ev_step s (mk_evs (es_ev s) (l1 ++ (o, false) :: l2) (es_written s) (es_read s))
| Ev_interrupt s l1 o n l2 : es_asleep s = l1 ++ (o, n) :: l2 -> ev_step s (mk_evs (es_ev s) (l1 ++ l2) (es_written s) (es_read s)).

Definition ev_start (ev : eventfd) : evs := mk_evs ev [] 0 0.

(** ** Proofs *)

Record ev_inv (initval : Z) (s : evs) : Prop := mk_ev_inv {
  ei_range : 0 <= ev_val (es_ev s) < UINT64_MAX;
  ei_sum : initval + es_written s = es_read s + ev_val (es_ev s);
  ei_ops : Forall (fun x => op_ok x.1) (es_asleep s);
  ei_wait : forall o, (o, false) ∈ es_asleep s -> turn (es_ev s) false o = EvSleep }.

Lemma turn_ok ev nonblock o ret v ev' : 0 <= ev_val ev < UINT64_MAX -> op_ok o -> turn ev nonblock o = EvDone ret v ev' ->
  0 <= ev_val ev' < UINT64_MAX /\ 0 <= v /\ ev_semaphore ev' = ev_semaphore ev /\ ev_val ev' = match o with ERead => ev_val ev - v | EWrite _ => ev_val ev + v end.
Proof.
  unfold UINT64_MAX. intros Hv Ho E. destruct o as [| n]; simpl in E.
  - unfold eventfd_read_turn in E. destruct (Z.eqb_spec (ev_val ev) 0); [by destruct nonblock |]. destruct (ev_semaphore ev) eqn:Es; injection E as <- <- <-; simpl; [| lia].
    rewrite u64_small by lia. lia.
  - unfold eventfd_write_turn, UINT64_MAX in E. simpl in Ho. unfold UINT64_MAX in Ho. rewrite (u64_small (2 ^ 64 - 1 - n)) in E by lia.
    destruct (Z.geb_spec (ev_val ev) (2 ^ 64 - 1 - n)); [by destruct nonblock |]. injection E as <- <- <-. simpl. rewrite u64_small by lia. lia.
Qed.

Lemma notify_all_elem l o : (o, false) ∉ notify_all l.
Proof. intros Hin. apply list_elem_of_fmap in Hin as ([o' b] & E & _). congruence. Qed.
Lemma notify_all_ops l : Forall (fun x => op_ok x.1) l -> Forall (fun x => op_ok x.1) (notify_all l).
Proof. intros Hl. apply Forall_map. eapply Forall_impl; [exact Hl |]. by intros [o b]. Qed.

Lemma after_inv i s asleep o v ev ret nonblock :
  ev_inv i s -> Forall (fun x => op_ok x.1) asleep -> op_ok o -> turn (es_ev s) nonblock o = EvDone ret v ev -> ev_inv i (after s asleep o v ev).
Proof.
  intros [H1 H2 H3 H4] Hl Ho E. destruct (turn_ok _ _ _ _ _ _ H1 Ho E) as (Hr & Hv & _ & Hval).
  destruct o; split; simpl; try done; try lia; try (by apply notify_all_ops); intros o' Hin; by apply notify_all_elem in Hin.
Qed.

Lemma ev_step_inv i s s' : ev_inv i s -> ev_step s s' -> ev_inv i s'.
Proof.
  intros Hi Hs. pose proof Hi as [H1 H2 H3 H4]. destruct Hs as [s o nb ret v ev Ho E | s o Ho E | s l1 o n l2 ret v ev El E | s l1 o n l2 El E | s l1 o n l2 El].
  - by eapply after_inv.
  - split; simpl; try done; [by constructor |]. intros o' Hin. apply elem_of_cons in Hin as [[= ->] | Hin]; auto.
  - rewrite El in H3. apply Forall_app in H3 as [Ha Hb]. apply Forall_cons in Hb as [Ho Hb]. eapply after_inv; [done | by apply Forall_app | exact Ho | done].
  - rewrite El in H3, H4. apply Forall_app in H3 as [Ha Hb]. apply Forall_cons in Hb as [Ho Hb]. split; simpl; try done.
    + apply Forall_app. split; [done | by constructor].
    + intros o' Hin. apply elem_of_app in Hin as [Hin | Hin]; [apply H4; apply elem_of_app; by left |].
      apply elem_of_cons in Hin as [[= ->] | Hin]; [done |]. apply H4. apply elem_of_app. right. apply elem_of_cons. by right.
  - rewrite El in H3, H4. apply Forall_app in H3 as [Ha Hb]. apply Forall_cons in Hb as [Ho Hb]. split; simpl; try done; [by apply Forall_app |].
    intros o' Hin. apply H4. apply elem_of_app in Hin as [Hin | Hin]; apply elem_of_app; [by left | right; apply elem_of_cons; by right].
Qed.

(** C40: over every interleaving of reads and writes of an event counter, what
    was there at first plus what was written is what was read plus what is
    there, the counter stays below 2^64 - 1, a call asleep that nobody has
    notified could not proceed, and poll reports exactly when a read, and a
    write of 1, would not sleep. *)
Theorem eventfd_conserves ev s : 0 <= ev_val ev < UINT64_MAX -> rtc ev_step (ev_start ev) s ->
  ev_val ev + es_written s = es_read s + ev_val (es_ev s) /\ 0 <= ev_val (es_ev s) < UINT64_MAX /\
  (forall o, (o, false) ∈ es_asleep s -> turn (es_ev s) false o = EvSleep) /\
  (has_flag (eventfd_poll (es_ev s)) POLL_READ = true <-> turn (es_ev s) false ERead <> EvSleep) /\
  (has_flag (eventfd_poll (es_ev s)) POLL_WRITE = true <-> turn (es_ev s) false (EWrite 1) <> EvSleep).
Proof.
  intros Hv Hr. assert (ev_inv (ev_val ev) s) as [H1 H2 H3 H4].
  { assert (ev_inv (ev_val ev) (ev_start ev)) as H0 by (split; simpl; try done; [lia | intros o Hin; by apply not_elem_of_nil in Hin]).
    clear Hv. induction Hr as [| s1 s2 s3 Hs _ IH]; [done |]. apply IH. by eapply ev_step_inv. }
  split; [done |]. split; [done |]. split; [done |]. simpl. unfold eventfd_read_turn, eventfd_write_turn, eventfd_poll, UINT64_MAX in *.
  rewrite (u64_small (2 ^ 64 - 1 - 1)) by lia.
  destruct (Z.gtb_spec (ev_val (es_ev s)) 0), (Z.ltb_spec (ev_val (es_ev s)) (2 ^ 64 - 1 - 1)), (Z.eqb_spec (ev_val (es_ev s)) 0), (Z.geb_spec (ev_val (es_ev s)) (2 ^ 64 - 1 - 1)); try lia;
    split; split; intros; try done; by destruct (ev_semaphore (es_ev s)).
Qed.

(** A reader sleeps, a writer adds 3 and wakes it. *)
Lemma eventfd_conserves_witness :
  let s := mk_evs (mk_ev 0 false) [] 3 3 in ev_val (mk_ev 0 false) + es_written s = es_read s + ev_val (es_ev s).
Proof.
  apply (eventfd_conserves (mk_ev 0 false) (mk_evs (mk_ev 0 false) [] 3 3)); [split; [discriminate | reflexivity] |].
  eapply rtc_l; [apply (Ev_sleep _ ERead); [exact I | reflexivity] |].
  eapply rtc_l; [eapply (Ev_call _ (EWrite 3) true); [split; [discriminate | reflexivity] | vm_compute; reflexivity] |].
  eapply rtc_l; [eapply (Ev_wake _ [] ERead true []); [reflexivity | vm_compute; reflexivity] |]. apply rtc_refl.
Defined.
