(* ===== verification/Ipc.v ===== *)
(** * What the System V IPC calls share (kernel/ipc.c lines 50-78, kernel/sysvipc.h)

    The commands and flags, the caller, and the two permission checks: over the
    bits of an object's mode, and of its owner or creator.  CAP_SYS_ADMIN over
    the user namespace the IPC namespace was made in passes both. *)

From S2P Require Import Prelude UserNs.

Definition IPC_PRIVATE_ := 0.
Definition IPC_CREAT_ := 512.
Definition IPC_EXCL_ := 1024.
Definition IPC_NOWAIT_ := 2048.
Definition IPC_RMID_ := 0.
Definition IPC_SET_ := 1.
Definition IPC_STAT_ := 2.
Definition IPC_INFO_ := 3.
Definition IPC_64_ := 0x100.

(** The caller: its credentials, process id and thread group, and the time. *)
Record scaller := mk_scaller { sc_task : ctask; sc_tgid : Z; sc_group : Z; sc_now : Z }.

(** ** Access *)

(** ns_capable(ipc_ns_current()->user_ns, CAP_SYS_ADMIN_). *)
Definition ipc_capable (t : ns_table) (uns : option nat) (c : scaller) : bool :=
  match ns_capable t (sc_task c) uns CAP_SYS_ADMIN_ with Some b => b | None => false end.

Definition ipc_access_ok (t : ns_table) (uns : option nat) (c : scaller) (uid gid cuid cgid mode want : Z) : bool :=
  if ipc_capable t uns c then true else
  let e := ct_euid (sc_task c) in
  let g := ct_egid (sc_task c) in
  let granted :=
    if (e =? uid) || (e =? cuid) then Z.shiftr mode 6 .& 7
    else if (g =? gid) || (g =? cgid) then Z.shiftr mode 3 .& 7
    else mode .& 7 in
  granted .& want =? want.

Definition ipc_owner_ok (t : ns_table) (uns : option nat) (c : scaller) (uid cuid : Z) : bool :=
  ipc_capable t uns c || (ct_euid (sc_task c) =? uid) || (ct_euid (sc_task c) =? cuid).
