(* ===== verification/Waits.v ===== *)
(** * Objects at addresses and the calls asleep on them

    What the System V objects have in common: objects of some type at distinct
    addresses, some marked removed, and calls asleep on them, each knowing its
    object's address.  [waits_ok] lifts an invariant [ok] between one object and
    the sleepers on it to all of them, together with: every sleeper's object is
    there, and a removed object is there only for its sleepers.  The lemmas say
    what it takes to replace an object, to take one out and to add one. *)

From Stdlib Require Import ZifyBool.
From S2P Require Import Prelude.

Section Waits.
Context {O X : Type} (optr : O -> nat) (removed : O -> bool) (xptr : X -> nat) (ok : O -> list X -> Prop).

Definition put_obj (os : list O) (o : O) : list O := map (fun x => if Nat.eqb (optr x) (optr o) then o else x) os.
Definition drop_obj (os : list O) (o : O) : list O := List.filter (fun x => negb (Nat.eqb (optr x) (optr o))) os.

(** The sleepers on the object at an address. *)
Definition on (p : nat) (xs : list X) : list X := filter (fun x => xptr x = p) xs.

Record waits_ok (os : list O) (next : nat) (xs : list X) : Prop := mk_waits_ok {
  wa_ptr : NoDup (map optr os);
  wa_lt : forall o, o ∈ os -> (optr o < next)%nat;
  wa_obj : forall o, o ∈ os -> ok o (on (optr o) xs) /\ (removed o = true -> on (optr o) xs <> []);
  wa_here : forall x, x ∈ xs -> exists o, o ∈ os /\ optr o = xptr x;
  wa_few : Z.of_nat (length xs) < 2 ^ 32 }.

Lemma put_obj_elem os o x : x ∈ put_obj os o -> x = o \/ (x ∈ os /\ optr x <> optr o).
Proof using. intros Hx. apply list_elem_of_fmap in Hx as (y & -> & Hy). destruct (Nat.eqb_spec (optr y) (optr o)); [by left | by right]. Qed.

Lemma put_obj_ptrs os o : map optr (put_obj os o) = map optr os.
Proof using. unfold put_obj. rewrite map_map. apply map_ext_in. intros x _. by destruct (Nat.eqb_spec (optr x) (optr o)). Qed.

Lemma put_obj_has os o o0 : o0 ∈ os -> optr o0 = optr o -> o ∈ put_obj os o.
Proof using. intros Ho E. apply list_elem_of_fmap. exists o0. split; [| done]. by rewrite E, Nat.eqb_refl. Qed.

Lemma put_obj_keeps os o x : x ∈ os -> optr x <> optr o -> x ∈ put_obj os o.
Proof using. intros Hx Hne. apply list_elem_of_fmap. exists x. split; [| done]. by destruct (Nat.eqb_spec (optr x) (optr o)). Qed.

Lemma drop_obj_elem os o x : x ∈ drop_obj os o <-> x ∈ os /\ optr x <> optr o.
Proof using. clear removed ok xptr X. unfold drop_obj. rewrite !list_elem_of_In, List.filter_In. destruct (Nat.eqb_spec (optr x) (optr o)); naive_solver. Qed.

Lemma on_elem p xs x : x ∈ on p xs <-> xptr x = p /\ x ∈ xs.
Proof. unfold on. by rewrite list_elem_of_filter. Qed.
Lemma on_length p xs : (length (on p xs) <= length xs)%nat.
Proof. apply length_filter. Qed.
Lemma on_sl_app p l1 l2 : on p (l1 ++ l2) = on p l1 ++ on p l2.
Proof. apply filter_app. Qed.
Lemma on_cons_self x l : on (xptr x) (x :: l) = x :: on (xptr x) l.
Proof. unfold on. by rewrite filter_cons_True. Qed.
Lemma on_cons_ne p x l : xptr x <> p -> on p (x :: l) = on p l.
Proof. intros Hne. unfold on. by rewrite filter_cons_False. Qed.

(** The sleepers elsewhere are the same. *)
Definition same_elsewhere (p : nat) (xs xs' : list X) : Prop := forall q, q <> p -> on q xs' = on q xs.

Lemma same_elsewhere_trans p xs1 xs2 xs3 : same_elsewhere p xs1 xs2 -> same_elsewhere p xs2 xs3 -> same_elsewhere p xs1 xs3.
Proof. intros H1 H2 q Hq. by rewrite H2, H1. Qed.

Lemma elsewhere_without l1 x l2 : same_elsewhere (xptr x) (l1 ++ x :: l2) (l1 ++ l2).
Proof. intros q Hq. by rewrite !on_sl_app, on_cons_ne. Qed.

Lemma waits_put os next xs o o' xs' :
  waits_ok os next xs -> o ∈ os -> optr o' = optr o -> same_elsewhere (optr o) xs xs' ->
  ok o' (on (optr o) xs') -> (removed o' = true -> on (optr o) xs' <> []) -> Z.of_nat (length xs') < 2 ^ 32 ->
  waits_ok (put_obj os o') next xs'.
Proof.
  intros [H1 H2 H3 H4 H5] Hs Ep Hel Hok Hrm Hlen. split; [by rewrite put_obj_ptrs | | | | done].
  - intros x Hx. apply put_obj_elem in Hx as [-> | [Hx _]]; [rewrite Ep |]; by apply H2.
  - intros x Hx. apply put_obj_elem in Hx as [-> | [Hx Hne]]; [by rewrite Ep |].
    rewrite Ep in Hne. rewrite Hel by done. by apply H3.
  - intros x Hx. destruct (decide (xptr x = optr o)) as [E | E].
    + exists o'. split; [by apply put_obj_has with o | congruence].
    + assert (x ∈ xs) as Hx'. { apply (on_elem (xptr x) xs x). rewrite <- (Hel (xptr x)) by done. by apply on_elem. }
      destruct (H4 x Hx') as (y & Hy & Ey). exists y. split; [| done]. apply put_obj_keeps; [done | congruence].
Qed.

Lemma waits_drop os next xs o o' xs' :
  waits_ok os next xs -> optr o' = optr o -> same_elsewhere (optr o) xs xs' -> on (optr o) xs' = [] ->
  Z.of_nat (length xs') < 2 ^ 32 -> waits_ok (drop_obj os o') next xs'.
Proof.
  intros [H1 H2 H3 H4 H5] Ep Hel Hno Hlen. split; [| | | | done].
  - eapply sublist_NoDup; [exact H1 |]. apply (fmap_sublist optr). unfold drop_obj. clear.
    induction os as [| x l IH]; simpl; [constructor |]. case_match; by constructor.
  - intros x Hx. apply drop_obj_elem in Hx as [Hx _]. by apply H2.
  - intros x Hx. apply drop_obj_elem in Hx as [Hx Hne]. rewrite Ep in Hne. rewrite Hel by done. by apply H3.
  - intros x Hx. destruct (decide (xptr x = optr o)) as [E | E].
    + exfalso. assert (x ∈ on (optr o) xs') as Hx' by (by apply on_elem). rewrite Hno in Hx'. by apply not_elem_of_nil in Hx'.
    + assert (x ∈ xs) as Hx'. { apply (on_elem (xptr x) xs x). rewrite <- (Hel (xptr x)) by done. by apply on_elem. }
      destruct (H4 x Hx') as (y & Hy & Ey). exists y. split; [| done]. apply drop_obj_elem. split; [done | congruence].
Qed.

(** A new object, at the next address. *)
Lemma waits_new os next xs o :
  waits_ok os next xs -> optr o = next -> removed o = false -> ok o [] -> waits_ok (os ++ [o]) (S next) xs.
Proof.
  intros [H1 H2 H3 H4 H5] Eo Hr Hok.
  assert (on next xs = []) as Hno.
  { destruct (on next xs) as [| x l] eqn:E; [done |]. exfalso. assert (x ∈ on next xs) as Hx by (rewrite E; left).
    apply on_elem in Hx as [Ex Hx]. destruct (H4 x Hx) as (y & Hy & Ey). specialize (H2 y Hy). lia. }
  split; [| | | | done].
  - rewrite map_app. apply NoDup_app. split; [done |]. split; [| apply NoDup_singleton]. simpl.
    intros p Hp Hp'. apply list_elem_of_singleton in Hp'. apply list_elem_of_fmap in Hp as (y & Ey & Hy). specialize (H2 y Hy). lia.
  - intros y Hy. apply elem_of_app in Hy as [Hy | Hy]; [specialize (H2 y Hy); lia |]. apply list_elem_of_singleton in Hy as ->. lia.
  - intros y Hy. apply elem_of_app in Hy as [Hy | Hy]; [by apply H3 |]. apply list_elem_of_singleton in Hy as ->.
    rewrite Eo, Hno. split; [done | congruence].
  - intros x Hx. destruct (H4 x Hx) as (y & Hy & Ey). exists y. split; [by apply elem_of_app; left | done].
Qed.

Lemma waits_empty next : waits_ok [] next [].
Proof. split; simpl; [apply NoDup_nil_2 | | | | lia]; intros x Hx; by apply not_elem_of_nil in Hx. Qed.

(** Taking every object out. *)
Lemma drop_many l os x : x ∈ fold_left (fun os o => drop_obj os o) l os -> x ∈ os /\ optr x ∉ map optr l.
Proof using.
  revert os. induction l as [| o l IH]; intros os; simpl; [intros Hx; split; [done | apply not_elem_of_nil] |].
  intros Hx. apply IH in Hx as [Hx Hni]. apply drop_obj_elem in Hx as [Hx Hne]. split; [done |]. by apply not_elem_of_cons.
Qed.

Lemma drop_all os : fold_left (fun os o => drop_obj os o) os os = [].
Proof using.
  destruct (fold_left _ os os) as [| x l] eqn:E; [done |]. destruct (drop_many os os x) as [Hx Hni]; [rewrite E; left |].
  exfalso. apply Hni, list_elem_of_fmap. by exists x.
Qed.

(** ** Notification *)

Context (wake : X -> X) (wake_ptr : forall x, xptr (wake x) = xptr x).

(** The sleepers [sel] selects are woken. *)
Definition notify (sel : X -> bool) (xs : list X) : list X := map (fun x => if sel x then wake x else x) xs.

Lemma notify_length sel xs : length (notify sel xs) = length xs.
Proof. apply length_map. Qed.

Lemma on_notify sel p xs : on p (notify sel xs) = notify sel (on p xs).
Proof using wake_ptr.
  unfold on, notify. induction xs as [| x xs IH]; [done |]. simpl. rewrite !filter_cons, IH.
  assert (xptr (if sel x then wake x else x) = xptr x) as -> by (by destruct (sel x)). by destruct (decide (xptr x = p)).
Qed.

Lemma notify_none sel xs : (forall x, x ∈ xs -> sel x = false) -> notify sel xs = xs.
Proof.
  intros Hs. unfold notify. induction xs as [| x xs IH]; [done |]. simpl. rewrite (Hs x) by left.
  f_equal. apply IH. intros y Hy. apply Hs. by right.
Qed.

(** A notification of the sleepers on one object. *)
Lemma notify_elsewhere sel p xs : (forall x, sel x = true -> xptr x = p) -> same_elsewhere p xs (notify sel xs).
Proof using wake_ptr.
  intros Hs q Hq. rewrite on_notify. apply notify_none. intros x Hx. apply on_elem in Hx as [Ex _].
  destruct (sel x) eqn:E; [| done]. specialize (Hs x E). congruence.
Qed.

(** One object changed in place, with a notification of its sleepers. *)
Lemma waits_change os next xs o o' sel :
  waits_ok os next xs -> o ∈ os -> optr o' = optr o -> (removed o' = true -> on (optr o) xs <> []) ->
  (forall x, sel x = true -> xptr x = optr o) -> ok o' (notify sel (on (optr o) xs)) ->
  waits_ok (put_obj os o') next (notify sel xs).
Proof using wake_ptr.
  intros Hw Hs Ep Hr Hsel Hok. eapply waits_put; [exact Hw | exact Hs | done | by apply notify_elsewhere | by rewrite on_notify | |].
  - intros Hr'. rewrite on_notify. specialize (Hr Hr'). by destruct (on (optr o) xs).
  - rewrite notify_length. apply (wa_few _ _ _ Hw).
Qed.

(** The same with one of the sleepers gone. *)
Lemma waits_leave os next l1 x l2 o o' sel :
  waits_ok os next (l1 ++ x :: l2) -> o ∈ os -> optr o = xptr x -> optr o' = optr o ->
  (removed o' = true -> on (optr o) (l1 ++ l2) <> []) -> (forall y, sel y = true -> xptr y = optr o) ->
  ok o' (notify sel (on (optr o) (l1 ++ l2))) ->
  waits_ok (put_obj os o') next (notify sel (l1 ++ l2)).
Proof using wake_ptr.
  intros Hw Hs Ex Ep Hr Hsel Hok. eapply waits_put; [exact Hw | exact Hs | done | | by rewrite on_notify | |].
  - eapply same_elsewhere_trans; [rewrite Ex; apply elsewhere_without | by apply notify_elsewhere].
  - intros Hr'. rewrite on_notify. specialize (Hr Hr'). by destruct (on (optr o) (l1 ++ l2)).
  - rewrite notify_length. pose proof (wa_few _ _ _ Hw) as Hf. rewrite !length_app in *. simpl in Hf. lia.
Qed.

Lemma waits_leave_drop os next l1 x l2 o o' :
  waits_ok os next (l1 ++ x :: l2) -> optr o = xptr x -> optr o' = optr o -> on (optr o) (l1 ++ l2) = [] ->
  waits_ok (drop_obj os o') next (l1 ++ l2).
Proof.
  intros Hw Ex Ep Hno. eapply waits_drop; [exact Hw | exact Ep | rewrite Ex; apply elsewhere_without | done |].
  pose proof (wa_few _ _ _ Hw) as Hf. rewrite !length_app in *. simpl in Hf. lia.
Qed.

(** A sleeper joins, or takes another's place. *)
Lemma waits_join os next xs o o' x :
  waits_ok os next xs -> o ∈ os -> optr o = xptr x -> optr o' = optr o -> removed o' = false ->
  ok o' (on (optr o) xs ++ [x]) -> Z.of_nat (length xs) + 1 < 2 ^ 32 -> waits_ok (put_obj os o') next (xs ++ [x]).
Proof.
  intros Hw Hs Ex Ep Hr Hok Hlen. eapply waits_put; [exact Hw | exact Hs | done | | | congruence |].
  - intros q Hq. rewrite on_sl_app, on_cons_ne by congruence. by rewrite app_nil_r.
  - rewrite on_sl_app. rewrite Ex, on_cons_self, <- Ex. done.
  - rewrite length_app. simpl. lia.
Qed.

Lemma waits_rejoin os next l1 x y l2 o o' :
  waits_ok os next (l1 ++ x :: l2) -> o ∈ os -> optr o = xptr x -> xptr y = xptr x -> optr o' = optr o -> removed o' = false ->
  ok o' (on (optr o) l1 ++ y :: on (optr o) l2) -> waits_ok (put_obj os o') next (l1 ++ y :: l2).
Proof.
  intros Hw Hs Ex Ey Ep Hr Hok. eapply waits_put; [exact Hw | exact Hs | done | | | congruence |].
  - intros q Hq. rewrite !on_sl_app, !on_cons_ne by congruence. done.
  - rewrite on_sl_app, Ex, <- Ey, on_cons_self, Ey, <- Ex. done.
  - pose proof (wa_few _ _ _ Hw) as Hf. rewrite !length_app in *. simpl in *. lia.
Qed.

(** The sleepers on a leaving sleeper's object, it apart. *)
Lemma waits_split os next l1 x l2 o :
  waits_ok os next (l1 ++ x :: l2) -> o ∈ os -> optr o = xptr x ->
  ok o (on (optr o) l1 ++ x :: on (optr o) l2) /\ Z.of_nat (length (on (optr o) (l1 ++ l2))) + 1 < 2 ^ 32.
Proof.
  intros Hw Hs Ex. destruct (wa_obj _ _ _ Hw o Hs) as [Hok _]. rewrite on_sl_app, Ex, on_cons_self, <- Ex in Hok. split; [done |].
  pose proof (wa_few _ _ _ Hw) as Hf. pose proof (on_length (optr o) (l1 ++ l2)). rewrite !length_app in *. simpl in Hf. lia.
Qed.

End Waits.

Arguments on {X} xptr p xs.
Arguments put_obj {O} optr os o.
Arguments drop_obj {O} optr os o.
Arguments notify {X} wake sel xs.
