(* ===== verification/SysvSem.v ===== *)
(** * SysV semaphores (kernel/sysvsem.c)

    A namespace's semaphore sets, with their undo records and waiter counts.
    Every call is one step under the namespace's lock; a semop that has to wait
    is split where it sleeps, into the attempt that went to sleep
    ([semop_attempt]) and the step after it woke ([semop_wake]).  The theorems:
    semop is all or nothing and means its operations in sequence; values stay
    in [0, SEMVMX] and every record keeps its shape; SEM_UNDO adjustments
    account exactly for what a process changed; every change of a value wakes
    the sleepers; keys name at most one live set. *)

From Stdlib Require Import ZifyBool.
From S2P Require Import Prelude User UserNs Ipc.

Definition SEM_STAT_ := 18.
Definition SEM_STAT_ANY_ := 20.
Definition GETPID_ := 11.
Definition GETVAL_ := 12.
Definition GETALL_ := 13.
Definition GETNCNT_ := 14.
Definition GETZCNT_ := 15.
Definition SETVAL_ := 16.
Definition SETALL_ := 17.
Definition SEM_UNDO_ := 0x1000.
Definition SEMMSL_ := 32000.
Definition SEMVMX_ := 32767.
Definition SEMOPM_ := 500.

Record sem_entry := mk_sem { val : Z; last_pid : Z; ncnt : Z; zcnt : Z }.
Record sem_undo := mk_undo { undo_group : Z; adj : list Z }.

(** [struct sem_set]; [s_ptr] is its address. *)
Record sem_set := mk_set {
  s_ptr : nat; s_id : Z; s_key : Z; s_uid : Z; s_gid : Z; s_cuid : Z; s_cgid : Z; s_mode : Z; s_nsems : Z;
  s_otime : Z; s_ctime : Z; s_removed : bool; s_waiters : Z; s_sems : list sem_entry; s_undos : list sem_undo }.

(** What the calls use of [struct ipc_namespace]. *)
Record ipc_ns := mk_ipc { sem_sets : list sem_set; sem_next_id : Z; ipc_user_ns : option nat; next_ptr : nat }.

Record sembuf := mk_op { sem_num : Z; sem_op : Z; sem_flg : Z }.

Definition set_sems (sems : list sem_entry) (s : sem_set) : sem_set :=
  mk_set (s_ptr s) (s_id s) (s_key s) (s_uid s) (s_gid s) (s_cuid s) (s_cgid s) (s_mode s) (s_nsems s)
    (s_otime s) (s_ctime s) (s_removed s) (s_waiters s) sems (s_undos s).
Definition set_undos (u : list sem_undo) (s : sem_set) : sem_set :=
  mk_set (s_ptr s) (s_id s) (s_key s) (s_uid s) (s_gid s) (s_cuid s) (s_cgid s) (s_mode s) (s_nsems s)
    (s_otime s) (s_ctime s) (s_removed s) (s_waiters s) (s_sems s) u.
Definition set_waiters (w : Z) (s : sem_set) : sem_set :=
  mk_set (s_ptr s) (s_id s) (s_key s) (s_uid s) (s_gid s) (s_cuid s) (s_cgid s) (s_mode s) (s_nsems s)
    (s_otime s) (s_ctime s) (s_removed s) w (s_sems s) (s_undos s).
Definition set_otime (x : Z) (s : sem_set) : sem_set :=
  mk_set (s_ptr s) (s_id s) (s_key s) (s_uid s) (s_gid s) (s_cuid s) (s_cgid s) (s_mode s) (s_nsems s)
    x (s_ctime s) (s_removed s) (s_waiters s) (s_sems s) (s_undos s).
Definition set_ctime (x : Z) (s : sem_set) : sem_set :=
  mk_set (s_ptr s) (s_id s) (s_key s) (s_uid s) (s_gid s) (s_cuid s) (s_cgid s) (s_mode s) (s_nsems s)
    (s_otime s) x (s_removed s) (s_waiters s) (s_sems s) (s_undos s).
Definition set_removed (s : sem_set) : sem_set :=
  mk_set (s_ptr s) (s_id s) (s_key s) (s_uid s) (s_gid s) (s_cuid s) (s_cgid s) (s_mode s) (s_nsems s)
    (s_otime s) (s_ctime s) true (s_waiters s) (s_sems s) (s_undos s).
Definition set_perm (u g m : Z) (s : sem_set) : sem_set :=
  mk_set (s_ptr s) (s_id s) (s_key s) u g (s_cuid s) (s_cgid s) m (s_nsems s)
    (s_otime s) (s_ctime s) (s_removed s) (s_waiters s) (s_sems s) (s_undos s).

Definition set_val (v : Z) (e : sem_entry) : sem_entry := mk_sem v (last_pid e) (ncnt e) (zcnt e).
Definition set_last_pid (p : Z) (e : sem_entry) : sem_entry := mk_sem (val e) p (ncnt e) (zcnt e).
Definition add_ncnt (d : Z) (e : sem_entry) : sem_entry := mk_sem (val e) (last_pid e) (u32 (ncnt e + d)) (zcnt e).
Definition add_zcnt (d : Z) (e : sem_entry) : sem_entry := mk_sem (val e) (last_pid e) (ncnt e) (u32 (zcnt e + d)).

(** ** Finding, making and freeing sets *)

Definition sem_find_by_key (ns : ipc_ns) (key : Z) : option sem_set :=
  List.find (fun s => negb (s_removed s) && (s_key s =? key)) (sem_sets ns).

Definition sem_find_by_id (ns : ipc_ns) (id : Z) : option sem_set :=
  List.find (fun s => negb (s_removed s) && (s_id s =? id)) (sem_sets ns).

(** The set at an address, replaced or taken out. *)
Definition put_set (ns : ipc_ns) (s : sem_set) : ipc_ns :=
  mk_ipc (map (fun x => if Nat.eqb (s_ptr x) (s_ptr s) then s else x) (sem_sets ns)) (sem_next_id ns) (ipc_user_ns ns) (next_ptr ns).
Definition drop_set (ns : ipc_ns) (s : sem_set) : ipc_ns :=
  mk_ipc (List.filter (fun x => negb (Nat.eqb (s_ptr x) (s_ptr s))) (sem_sets ns)) (sem_next_id ns) (ipc_user_ns ns) (next_ptr ns).

Definition sem_set_maybe_free (ns : ipc_ns) (s : sem_set) : ipc_ns :=
  if negb (s_removed s) || negb (s_waiters s =? 0) then put_set ns s else drop_set ns s.

Definition sys_semget_guest (alloc_ok : bool) (ns : ipc_ns) (c : scaller) (key nsems semflg : Z) : ipc_ns * Z :=
  if (nsems <? 0) || (nsems >? SEMMSL_) then (ns, _EINVAL) else
  match (if key =? IPC_PRIVATE_ then None else sem_find_by_key ns key) with
  | Some s =>
      if has_flag semflg IPC_CREAT_ && has_flag semflg IPC_EXCL_ then (ns, _EEXIST) else
      if negb (nsems =? 0) && (nsems >? s_nsems s) then (ns, _EINVAL) else (ns, s_id s)
  | None =>
      if negb (has_flag semflg IPC_CREAT_) && negb (key =? IPC_PRIVATE_) then (ns, _ENOENT) else
      if nsems =? 0 then (ns, _EINVAL) else
      if negb alloc_ok then (ns, _ENOMEM) else
      let e := ct_euid (sc_task c) in
      let g := ct_egid (sc_task c) in
      let s := mk_set (next_ptr ns) (sem_next_id ns) key e g e g (semflg .& 511) nsems 0 (sc_now c) false 0
                 (replicate (Z.to_nat nsems) (mk_sem 0 0 0 0)) [] in
      (mk_ipc (sem_sets ns ++ [s]) (s32 (sem_next_id ns + 1)) (ipc_user_ns ns) (S (next_ptr ns)), sem_next_id ns)
  end.

(** ** semop *)

(** The group's undo record, or a new one; [None] when it cannot be made. *)
Definition sem_undo_get (alloc_ok : bool) (s : sem_set) (group : Z) : option sem_set :=
  if existsb (fun u => undo_group u =? group) (s_undos s) then Some s
  else if alloc_ok then Some (set_undos (s_undos s ++ [mk_undo group (replicate (Z.to_nat (s_nsems s)) 0)]) s)
  else None.

Inductive status := Applied | BlockedAt (i : nat) | RangeAt (i : nat).

Definition sem_val (sems : list sem_entry) (n : Z) : Z := match sems !! Z.to_nat n with Some e => val e | None => 0 end.
Definition add_val (sems : list sem_entry) (n d : Z) : list sem_entry :=
  alter (fun e => set_val (u16 (val e + d)) e) (Z.to_nat n) sems.

(** The loop that applies the array, up to the first operation that cannot. *)
Fixpoint try_ops (sems : list sem_entry) (sops : list sembuf) (i : nat) : list sem_entry * status :=
  match sops with
  | [] => (sems, Applied)
  | o :: rest =>
      let v := sem_val sems (sem_num o) in
      if sem_op o >? 0 then
        if v + sem_op o >? SEMVMX_ then (sems, RangeAt i)
        else try_ops (add_val sems (sem_num o) (sem_op o)) rest (S i)
      else if sem_op o =? 0 then
        if negb (v =? 0) then (sems, BlockedAt i) else try_ops sems rest (S i)
      else
        if v <? - sem_op o then (sems, BlockedAt i)
        else try_ops (add_val sems (sem_num o) (sem_op o)) rest (S i)
  end.

Definition roll_back (sems : list sem_entry) (sops : list sembuf) : list sem_entry :=
  fold_left (fun sems o => add_val sems (sem_num o) (- sem_op o)) sops sems.

(** What a successful array records. *)
Definition record_op (undo_alloc : bool) (c : scaller) (s : sem_set) (o : sembuf) : sem_set :=
  let s := set_sems (alter (set_last_pid (sc_tgid c)) (Z.to_nat (sem_num o)) (s_sems s)) s in
  if has_flag (sem_flg o) SEM_UNDO_ && negb (sem_op o =? 0) then
    match sem_undo_get undo_alloc s (sc_group c) with
    | None => s
    | Some s =>
        set_undos (map (fun u => if undo_group u =? sc_group c
                                 then mk_undo (undo_group u) (alter (fun a => s16 (a - sem_op o)) (Z.to_nat (sem_num o)) (adj u))
                                 else u) (s_undos s)) s
    end
  else s.

(** How an attempt ended: with a result, or asleep on operation [i]. *)
Inductive attempt := Returned (res : Z) | Sleeping (i : nat).

(** One turn of semop_common's loop up to where it sleeps, on a set it has
    found; with whether the set's waiters were notified. *)
Definition semop_turn (undo_alloc : bool) (c : scaller) (s : sem_set) (sops : list sembuf) : sem_set * bool * attempt :=
  match try_ops (s_sems s) sops 0 with
  | (sems, Applied) =>
      (set_otime (sc_now c) (fold_left (record_op undo_alloc c) sops (set_sems sems s)), true, Returned 0)
  | (sems, RangeAt i) => (set_sems (roll_back sems (take i sops)) s, false, Returned _ERANGE)
  | (sems, BlockedAt i) =>
      let s := set_sems (roll_back sems (take i sops)) s in
      match sops !! i with
      | None => (s, false, Returned 0)
      | Some b =>
          if has_flag (sem_flg b) IPC_NOWAIT_ then (s, false, Returned _EAGAIN)
          else
            let cnt := if sem_op b =? 0 then add_zcnt 1 else add_ncnt 1 in
            (set_waiters (u32 (s_waiters s + 1)) (set_sems (alter cnt (Z.to_nat (sem_num b)) (s_sems s)) s), false, Sleeping i)
      end
  end.

Section Calls.
Context {M : Type} `{GuestMemory M} (t : ns_table).

Fixpoint sembufs (n : nat) (bs : list Z) : list sembuf :=
  match n with
  | O => []
  | S n => mk_op (le_num (field 0 2 bs)) (s16 (le_num (field 2 2 bs))) (s16 (le_num (field 4 2 bs))) :: sembufs n (drop 6 bs)
  end.

(** semop_common up to the first sleep. *)
Definition semop_attempt (undo_alloc : bool) (m : M) (ns : ipc_ns) (c : scaller) (semid sops_addr nsops : Z)
    : ipc_ns * bool * attempt :=
  if nsops =? 0 then (ns, false, Returned _EINVAL) else
  if nsops >? SEMOPM_ then (ns, false, Returned _E2BIG) else
  match user_read m sops_addr (nsops * 6) with
  | None => (ns, false, Returned _EFAULT)
  | Some bs =>
      let sops := sembufs (Z.to_nat nsops) bs in
      match sem_find_by_id ns semid with
      | None => (ns, false, Returned _EINVAL)
      | Some s =>
          if negb (ipc_access_ok t (ipc_user_ns ns) c (s_uid s) (s_gid s) (s_cuid s) (s_cgid s) (s_mode s) 2) then (ns, false, Returned _EACCES) else
          if existsb (fun o => sem_num o >=? s_nsems s) sops then (ns, false, Returned _EFBIG) else
          let '(s', n, r) := semop_turn undo_alloc c s sops in (put_set ns s', n, r)
      end
  end.

(** After the sleep ended with [err]: counts are undone, and the call returns
    or tries again.  [deadline] is [None] without one, else whether it had
    passed already and the call did not sleep at all. *)
Definition semop_wake (undo_alloc : bool) (ns : ipc_ns) (c : scaller) (s : sem_set) (sops : list sembuf) (b : sembuf)
    (err : Z) (deadline : option bool) : ipc_ns * bool * attempt :=
  let err := match deadline with
             | Some true => _ETIMEDOUT
             | Some false => if err =? _ETIMEDOUT then 0 else err
             | None => err
             end in
  let cnt := if sem_op b =? 0 then add_zcnt (-1) else add_ncnt (-1) in
  let s := set_waiters (u32 (s_waiters s - 1)) (set_sems (alter cnt (Z.to_nat (sem_num b)) (s_sems s)) s) in
  if s_removed s then (sem_set_maybe_free ns s, false, Returned _EIDRM) else
  if err =? _ETIMEDOUT then (sem_set_maybe_free ns s, false, Returned _EAGAIN) else
  if err <? 0 then (put_set ns s, false, Returned _EINTR) else
  let '(s', n, r) := semop_turn undo_alloc c s sops in (put_set ns s', n, r).

(** ** semctl *)

(** The words of a SETALL array. *)
Fixpoint words (n : nat) (bs : list Z) : list Z :=
  match n with O => [] | S n => le_num (take 2 bs) :: words n (drop 2 bs) end.

Definition clear_adj (i : nat) (u : sem_undo) : sem_undo := mk_undo (undo_group u) (alter (fun _ => 0) i (adj u)).
Definition clear_adjs (u : sem_undo) : sem_undo := mk_undo (undo_group u) (map (fun _ => 0) (adj u)).

(** struct semid64_ds of the caller's ABI; [shown_uid], [shown_gid] are
    current_uid_shown and current_gid_shown. *)
Definition semid_bytes (abi : guest_abi) (shown_uid shown_gid : Z -> Z) (s : sem_set) : list Z :=
  let ids := le_bytes 4 (s_key s) ++ le_bytes 4 (shown_uid (s_uid s)) ++ le_bytes 4 (shown_gid (s_gid s)) ++
             le_bytes 4 (shown_uid (s_cuid s)) ++ le_bytes 4 (shown_gid (s_cgid s)) in
  match abi with
  | GUEST_ABI_AMD64 =>
      ids ++ le_bytes 2 (s_mode s) ++ replicate 26 0 ++
      le_bytes 8 (s_otime s) ++ le_bytes 8 0 ++ le_bytes 8 (s_ctime s) ++ le_bytes 8 0 ++ le_bytes 8 (s_nsems s) ++ replicate 16 0
  | GUEST_ABI_I386 =>
      ids ++ le_bytes 4 (s_mode s) ++ replicate 12 0 ++
      le_bytes 4 (s_otime s) ++ le_bytes 4 0 ++ le_bytes 4 (s_ctime s) ++ le_bytes 4 0 ++ le_bytes 4 (s_nsems s) ++ replicate 8 0
  | _ =>
      ids ++ le_bytes 2 (s_mode s) ++ replicate 26 0 ++
      le_bytes 8 (s_otime s) ++ le_bytes 8 (s_ctime s) ++ le_bytes 8 (s_nsems s) ++ replicate 16 0
  end.

(** IPC_SET: the ids and mode of the permission struct, as kernel ids. *)
Definition read_perm (m : M) (abi : guest_abi) (c : scaller) (arg : Z) : Z + (Z * Z * Z) :=
  let fields :=
    match abi with
    | GUEST_ABI_I386 => match user_read m arg 36 with
        | Some bs => Some (le_num (field 4 4 bs), le_num (field 8 4 bs), u16 (le_num (field 20 4 bs))) | None => None end
    | _ => match user_read m arg 48 with
        | Some bs => Some (le_num (field 4 4 bs), le_num (field 8 4 bs), le_num (field 20 2 bs)) | None => None end
    end in
  match fields with
  | None => inl _EFAULT
  | Some (u, g, mode) =>
      let u := user_ns_make_kid false t (ct_ns (sc_task c)) u in
      let g := user_ns_make_kid true t (ct_ns (sc_task c)) g in
      if (u =? USER_NS_INVALID_ID) || (g =? USER_NS_INVALID_ID) then inl _EINVAL else inr (u, g, mode .& 511)
  end.

Definition sys_semctl_guest (pid_shown : Z -> Z) (m : M) (abi : guest_abi) (ns : ipc_ns) (c : scaller)
    (semid semnum cmd arg : Z) : M * ipc_ns * bool * Z :=
  let cmd_base := cmd .& Z.lnot IPC_64_ in
  if cmd_base =? IPC_INFO_ then (m, ns, false, _EINVAL) else
  match sem_find_by_id ns semid with
  | None => (m, ns, false, _EINVAL)
  | Some s =>
      let bad := (semnum <? 0) || (semnum >=? s_nsems s) in
      if cmd_base =? IPC_RMID_ then
        if negb (ipc_owner_ok t (ipc_user_ns ns) c (s_uid s) (s_cuid s)) then (m, ns, false, _EPERM)
        else (m, sem_set_maybe_free ns (set_removed s), true, 0)
      else if (cmd_base =? GETVAL_) || (cmd_base =? GETPID_) || (cmd_base =? GETNCNT_) || (cmd_base =? GETZCNT_) then
        if bad then (m, ns, false, _EINVAL) else
        match s_sems s !! Z.to_nat semnum with
        | None => (m, ns, false, _EINVAL)
        | Some e => (m, ns, false, if cmd_base =? GETVAL_ then val e else if cmd_base =? GETPID_ then pid_shown (last_pid e)
                                   else if cmd_base =? GETNCNT_ then s32 (ncnt e) else s32 (zcnt e))
        end
      else if cmd_base =? SETVAL_ then
        if bad then (m, ns, false, _EINVAL) else
        let v := s32 arg in
        if (v <? 0) || (v >? SEMVMX_) then (m, ns, false, _ERANGE) else
        let i := Z.to_nat semnum in
        let s := set_sems (alter (set_val (u16 v)) i (s_sems s)) s in
        let s := set_undos (map (clear_adj i) (s_undos s)) s in
        (m, put_set ns (set_ctime (sc_now c) s), true, 0)
      else if (cmd_base =? GETALL_) || (cmd_base =? SETALL_) then
        if s_nsems s >? 4096 then (m, ns, false, _EINVAL) else
        if cmd_base =? GETALL_ then
          let '(m, ok) := user_write m arg (flat_map (fun e => le_bytes 2 (val e)) (s_sems s)) in
          (m, ns, false, if ok then 0 else _EFAULT)
        else
          match user_read m arg (s_nsems s * 2) with
          | None => (m, ns, false, _EFAULT)
          | Some bs =>
              let vals := words (Z.to_nat (s_nsems s)) bs in
              if existsb (fun v => v >? SEMVMX_) vals then (m, ns, false, _ERANGE) else
              let s := set_sems (zip_with (fun e v => set_val v e) (s_sems s) vals) s in
              let s := set_undos (map clear_adjs (s_undos s)) s in
              (m, put_set ns (set_ctime (sc_now c) s), true, 0)
          end
      else if cmd_base =? IPC_SET_ then
        match read_perm m abi c arg with
        | inl err => (m, ns, false, err)
        | inr (u, g, mode) => (m, put_set ns (set_ctime (sc_now c) (set_perm u g mode s)), false, 0)
        end
      else if (cmd_base =? IPC_STAT_) || (cmd_base =? SEM_STAT_) || (cmd_base =? SEM_STAT_ANY_) then
        let shown g := user_ns_from_kid_munged g t (ct_ns (sc_task c)) in
        let '(m, ok) := user_write m arg (semid_bytes abi (shown false) (shown true) s) in
        (m, ns, false, if ok then 0 else _EFAULT)
      else (m, ns, false, _EINVAL)
  end.

End Calls.

(** ** Exit *)

Definition undo_val (e : sem_entry) (a : Z) : sem_entry :=
  if a =? 0 then e else
  let v := val e + a in
  set_val (u16 (if v <? 0 then 0 else if v >? SEMVMX_ then SEMVMX_ else v)) e.

(** The undo records of one set: those of the group are applied and dropped. *)
Fixpoint exit_undos (group : Z) (sems : list sem_entry) (undos : list sem_undo) : list sem_entry * list sem_undo * bool :=
  match undos with
  | [] => (sems, [], false)
  | u :: rest =>
      if negb (undo_group u =? group)
      then let '(sems, rest, ch) := exit_undos group sems rest in (sems, u :: rest, ch)
      else let '(sems', rest, ch) := exit_undos group (zip_with undo_val sems (adj u)) rest in
           (sems', rest, existsb (fun a => negb (a =? 0)) (adj u) || ch)
  end.

(** With the sets whose waiters were notified. *)
Definition sysv_sem_exit (ns : ipc_ns) (group : Z) : ipc_ns * list nat :=
  let one s := let '(sems, undos, ch) := exit_undos group (s_sems s) (s_undos s) in (set_undos undos (set_sems sems s), ch) in
  (mk_ipc (map (fun s => fst (one s)) (sem_sets ns)) (sem_next_id ns) (ipc_user_ns ns) (next_ptr ns),
   map s_ptr (List.filter (fun s => snd (one s)) (sem_sets ns))).

Definition sem_ns_teardown (ns : ipc_ns) : ipc_ns :=
  fold_left (fun ns s => sem_set_maybe_free ns (set_removed s)) (sem_sets ns) ns.

(** ** Specification *)

(** The array of operations on values alone, in sequence and without bound on
    the integers: the values after it, unless some operation cannot proceed. *)
Fixpoint seq_ops (vals : list Z) (sops : list sembuf) : option (list Z) :=
  match sops with
  | [] => Some vals
  | o :: rest =>
      let v := default 0 (vals !! Z.to_nat (sem_num o)) in
      if decide ((0 < sem_op o /\ v + sem_op o <= SEMVMX_) \/ (sem_op o = 0 /\ v = 0) \/ (sem_op o < 0 /\ 0 <= v + sem_op o))
      then seq_ops (alter (fun x => x + sem_op o) (Z.to_nat (sem_num o)) vals) rest
      else None
  end.

Definition sem_ok (e : sem_entry) : Prop := 0 <= val e <= SEMVMX_.
Definition undo_ok (n : Z) (u : sem_undo) : Prop := Z.of_nat (length (adj u)) = n /\ Forall (in_s 16) (adj u).

Record set_ok (s : sem_set) : Prop := mk_set_ok {
  so_len : Z.of_nat (length (s_sems s)) = s_nsems s;
  so_vals : Forall sem_ok (s_sems s);
  so_undo : Forall (undo_ok (s_nsems s)) (s_undos s);
  so_group : NoDup (map undo_group (s_undos s)) }.

Definition op_ok (s : sem_set) (o : sembuf) : Prop := 0 <= sem_num o < s_nsems s /\ in_s 16 (sem_op o).

(** ** Applying and taking back *)

Definition apply_all (sems : list sem_entry) (sops : list sembuf) : list sem_entry :=
  fold_left (fun sems o => add_val sems (sem_num o) (sem_op o)) sops sems.

(** What the operations add to semaphore [k]. *)
Fixpoint sum_at (k : nat) (sops : list sembuf) : Z :=
  match sops with [] => 0 | o :: rest => (if Nat.eqb (Z.to_nat (sem_num o)) k then sem_op o else 0) + sum_at k rest end.

Lemma u16_add x y : u16 (u16 x + y) = u16 (x + y).
Proof. unfold u16, wrap. apply Zplus_mod_idemp_l. Qed.

Lemma set_val_id e : set_val (val e) e = e.
Proof. by destruct e. Qed.

Lemma fold_add_lookup (f : sembuf -> Z) sems sops k e :
  Forall sem_ok sems -> sems !! k = Some e ->
  fold_left (fun sems o => add_val sems (sem_num o) (f o)) sops sems !! k =
  Some (set_val (u16 (val e + foldr (fun o acc => (if Nat.eqb (Z.to_nat (sem_num o)) k then f o else 0) + acc) 0 sops)) e).
Proof.
  intros Hok He. assert (0 <= val e <= 65535) as Hv.
  { pose proof (Forall_lookup_1 _ _ _ _ Hok He) as H. unfold sem_ok, SEMVMX_ in H. lia. }
  clear Hok. revert sems e He Hv. induction sops as [| o sops IH]; intros sems e He Hv; simpl.
  { rewrite Z.add_0_r, u16_small, set_val_id by lia. done. }
  unfold add_val at 2. destruct (Nat.eqb_spec (Z.to_nat (sem_num o)) k) as [-> | Hne].
  - rewrite (IH _ (set_val (u16 (val e + f o)) e)).
    + simpl. rewrite u16_add. by rewrite Z.add_assoc.
    + rewrite list_lookup_alter_eq, He. done.
    + simpl. pose proof (wrap_range 16 (val e + f o)) as Hw. unfold in_u in Hw. unfold u16. lia.
  - rewrite (IH _ e); [done | | done]. by rewrite list_lookup_alter_ne.
Qed.

Lemma fold_add_length (f : sembuf -> Z) sems sops :
  length (fold_left (fun sems o => add_val sems (sem_num o) (f o)) sops sems) = length sems.
Proof. revert sems. induction sops as [| o sops IH]; intros sems; simpl; [done |]. rewrite IH. apply length_alter. Qed.

Lemma sum_at_foldr k sops : sum_at k sops = foldr (fun o acc => (if Nat.eqb (Z.to_nat (sem_num o)) k then sem_op o else 0) + acc) 0 sops.
Proof. induction sops; simpl; [done |]. congruence. Qed.

Lemma sum_at_neg k sops :
  foldr (fun o acc => (if Nat.eqb (Z.to_nat (sem_num o)) k then - sem_op o else 0) + acc) 0 sops = - sum_at k sops.
Proof. induction sops as [| o sops IH]; simpl; [done |]. rewrite IH. case_match; lia. Qed.

Lemma apply_all_lookup sems sops k e :
  Forall sem_ok sems -> sems !! k = Some e -> apply_all sems sops !! k = Some (set_val (u16 (val e + sum_at k sops)) e).
Proof. intros Hok He. unfold apply_all. rewrite (fold_add_lookup sem_op) with (e := e) by done. by rewrite sum_at_foldr. Qed.

Lemma roll_back_apply sems sops :
  Forall sem_ok sems -> Forall sem_ok (apply_all sems sops) -> roll_back (apply_all sems sops) sops = sems.
Proof.
  intros Hok Hok'. apply list_eq. intros k. destruct (sems !! k) as [e |] eqn:He.
  - unfold roll_back. rewrite (fold_add_lookup (fun o => - sem_op o)) with (e := set_val (u16 (val e + sum_at k sops)) e);
      [| done | by apply apply_all_lookup].
    rewrite sum_at_neg. simpl. rewrite u16_add. replace (val e + sum_at k sops + - sum_at k sops) with (val e) by lia.
    pose proof (Forall_lookup_1 _ _ _ _ Hok He) as H. unfold sem_ok, SEMVMX_ in H. rewrite u16_small by lia.
    f_equal. destruct e. done.
  - apply lookup_ge_None_2. unfold roll_back. rewrite (fold_add_length (fun o => - sem_op o)).
    unfold apply_all. rewrite (fold_add_length sem_op). by apply lookup_ge_None_1.
Qed.

Lemma add_val_ok sems n d e :
  Forall sem_ok sems -> sems !! Z.to_nat n = Some e -> 0 <= val e + d <= SEMVMX_ -> Forall sem_ok (add_val sems n d).
Proof.
  intros Hok He Hv. unfold add_val. apply Forall_alter; [done |]. intros x Hx _. simplify_eq.
  unfold sem_ok, SEMVMX_ in *. simpl. rewrite u16_small by lia. lia.
Qed.

Lemma map_val_alter sems n d :
  Forall sem_ok (add_val sems n d) -> Forall sem_ok sems -> in_s 16 d ->
  map val (add_val sems n d) = alter (fun x => x + d) (Z.to_nat n) (map val sems) \/ sems !! Z.to_nat n = None.
Proof.
  intros Hok' Hok Hd. destruct (sems !! Z.to_nat n) as [e |] eqn:He; [left | by right].
  apply list_eq. intros k. unfold add_val. rewrite list_lookup_fmap. destruct (decide (k = Z.to_nat n)) as [-> | Hne].
  - rewrite !list_lookup_alter_eq, list_lookup_fmap, He. simpl. f_equal.
    assert (sem_ok (set_val (u16 (val e + d)) e)) as H1.
    { eapply Forall_lookup_1; [exact Hok' |]. unfold add_val. by rewrite list_lookup_alter_eq, He. }
    pose proof (Forall_lookup_1 _ _ _ _ Hok He) as H2. unfold sem_ok, SEMVMX_, in_s in *. simpl in *.
    unfold u16, wrap in *. destruct (decide (0 <= val e + d)) as [Hp | Hp].
    + rewrite Z.mod_small by lia. done.
    + exfalso. assert ((val e + d) mod 2 ^ 16 = val e + d + 2 ^ 16) as E; [| lia].
      symmetry. apply Z.mod_unique with (-1); lia.
  - by rewrite !list_lookup_alter_ne, list_lookup_fmap.
Qed.

Lemma add_val_zero sems n d e :
  sems !! Z.to_nat n = Some e -> d = 0 -> 0 <= val e <= 65535 -> add_val sems n d = sems.
Proof.
  intros He -> Hv. apply list_eq. intros k. unfold add_val. destruct (decide (k = Z.to_nat n)) as [-> | Hne].
  - rewrite list_lookup_alter_eq, He. simpl. by rewrite Z.add_0_r, u16_small, set_val_id by lia.
  - by rewrite list_lookup_alter_ne.
Qed.

(** The loop, its stopping point, and the sequential meaning. *)
Lemma try_ops_spec sems sops i sems' st :
  Forall sem_ok sems -> Forall (fun o => (Z.to_nat (sem_num o) < length sems)%nat /\ in_s 16 (sem_op o)) sops ->
  try_ops sems sops i = (sems', st) ->
  exists n, sems' = apply_all sems (take n sops) /\ Forall sem_ok sems' /\
    match st with
    | Applied => n = length sops /\ seq_ops (map val sems) sops = Some (map val sems')
    | BlockedAt j | RangeAt j => j = (i + n)%nat /\ (n < length sops)%nat /\ seq_ops (map val sems) sops = None
    end.
Proof.
  revert sems i. induction sops as [| o sops IH]; intros sems i Hok Hops Hrun; simpl in Hrun.
  { simplify_eq. exists 0%nat. split; [done |]. done. }
  apply Forall_cons in Hops as [[Hnum Hop] Hops]. destruct (lookup_lt_is_Some_2 _ _ Hnum) as [e He].
  pose proof (Forall_lookup_1 _ _ _ _ Hok He) as Hve.
  assert (sem_val sems (sem_num o) = val e) as Ev by (unfold sem_val; by rewrite He). rewrite Ev in Hrun.
  assert (default 0 (map val sems !! Z.to_nat (sem_num o)) = val e) as Ed by (by rewrite list_lookup_fmap, He).
  assert (forall st', (st' = BlockedAt i \/ st' = RangeAt i) ->
    ~ ((0 < sem_op o /\ val e + sem_op o <= SEMVMX_) \/ (sem_op o = 0 /\ val e = 0) \/ (sem_op o < 0 /\ 0 <= val e + sem_op o)) ->
    exists n, sems = apply_all sems (take n (o :: sops)) /\ Forall sem_ok sems /\
      match st' with Applied => False | BlockedAt j | RangeAt j => j = (i + n)%nat /\ (n < length (o :: sops))%nat /\
        seq_ops (map val sems) (o :: sops) = None end) as Hstop.
  { intros st' Hst Hno. exists 0%nat. split; [done |]. split; [done |]. simpl. rewrite Ed, decide_False by done.
    destruct Hst as [-> | ->]; (split; [lia |]); (split; [lia | done]). }
  assert (0 <= val e + sem_op o <= SEMVMX_ ->
    ((0 < sem_op o /\ val e + sem_op o <= SEMVMX_) \/ (sem_op o = 0 /\ val e = 0) \/ (sem_op o < 0 /\ 0 <= val e + sem_op o)) ->
    try_ops (add_val sems (sem_num o) (sem_op o)) sops (S i) = (sems', st) ->
    exists n, sems' = apply_all sems (take n (o :: sops)) /\ Forall sem_ok sems' /\
      match st with Applied => n = length (o :: sops) /\ seq_ops (map val sems) (o :: sops) = Some (map val sems')
      | BlockedAt j | RangeAt j => j = (i + n)%nat /\ (n < length (o :: sops))%nat /\ seq_ops (map val sems) (o :: sops) = None end) as Hgo.
  { intros Hv Hcond Hr. pose proof (add_val_ok sems (sem_num o) (sem_op o) e Hok He Hv) as Hok2.
    destruct (IH (add_val sems (sem_num o) (sem_op o)) (S i) Hok2) as (n & En & Hn & Hst);
      [by unfold add_val; rewrite length_alter | done |].
    exists (S n). split; [done |]. split; [done |]. cbn [seq_ops]. rewrite Ed, decide_True by done.
    destruct (map_val_alter sems (sem_num o) (sem_op o) Hok2 Hok Hop) as [<- | ?]; [| congruence].
    destruct st; simpl; naive_solver lia. }
  unfold sem_ok, SEMVMX_ in Hve. unfold SEMVMX_ in *.
  destruct (Z.gtb_spec (sem_op o) 0).
  - destruct (Z.gtb_spec (val e + sem_op o) 32767); [| apply Hgo; [lia | lia | done]].
    simplify_eq. apply (Hstop (RangeAt i)); [by right | lia].
  - destruct (Z.eqb_spec (sem_op o) 0) as [E0 | E0].
    + destruct (Z.eqb_spec (val e) 0) as [Ez | Ez]; simpl in Hrun.
      * apply Hgo; [lia | lia |]. rewrite <- Hrun. f_equal. apply (add_val_zero sems (sem_num o) (sem_op o) e); [done | done | lia].
      * simplify_eq. apply (Hstop (BlockedAt i)); [by left | lia].
    + destruct (Z.ltb_spec (val e) (- sem_op o)); [| apply Hgo; [lia | lia | done]].
      simplify_eq. apply (Hstop (BlockedAt i)); [by left | lia].
Qed.

(** ** Undo records *)

(** What all undo records together would add to semaphore [k]. *)
Definition adj_at (k : nat) (u : sem_undo) : Z := default 0 (adj u !! k).
Definition sum_adj (k : nat) (us : list sem_undo) : Z := foldr (fun u acc => adj_at k u + acc) 0 us.

(** The value semaphore [k] has once every process has exited. *)
Definition total (k : nat) (s : sem_set) : Z := default 0 (map val (s_sems s) !! k) + sum_adj k (s_undos s).

Definition upd_undo (c : scaller) (o : sembuf) (u : sem_undo) : sem_undo :=
  if undo_group u =? sc_group c
  then mk_undo (undo_group u) (alter (fun a => s16 (a - sem_op o)) (Z.to_nat (sem_num o)) (adj u)) else u.

Lemma s16_mod x : s16 x mod 2 ^ 16 = x mod 2 ^ 16.
Proof.
  unfold s16, swrap. destruct (x mod 2 ^ 16 <? 2 ^ (16 - 1)); [apply Z.mod_mod; lia |].
  rewrite <- (Z.mod_add _ 1) by lia. replace (x mod 2 ^ 16 - 2 ^ 16 + 1 * 2 ^ 16) with (x mod 2 ^ 16) by lia. apply Z.mod_mod. lia.
Qed.

Lemma s16_range x : in_s 16 (s16 x).
Proof. apply swrap_range. lia. Qed.

Lemma sum_adj_app k us vs : sum_adj k (us ++ vs) = sum_adj k us + sum_adj k vs.
Proof. induction us as [| u us IH]; simpl; [done |]. rewrite IH. lia. Qed.

(** Exactly one record is the group's. *)
Lemma upd_undo_sum c o us k nsems :
  NoDup (map undo_group us) -> Forall (undo_ok nsems) us -> 0 <= sem_num o < nsems ->
  existsb (fun u => undo_group u =? sc_group c) us = true ->
  (sum_adj k (map (upd_undo c o) us) mod 2 ^ 16 =
   (sum_adj k us - (if Nat.eqb (Z.to_nat (sem_num o)) k then sem_op o else 0)) mod 2 ^ 16).
Proof.
  intros Hnd Hok Hnum. induction us as [| u us IH]; [done |]. apply NoDup_cons in Hnd as [Hni Hnd].
  apply Forall_cons in Hok as [[Hlen _] Hok]. simpl. unfold upd_undo at 1.
  destruct (Z.eqb_spec (undo_group u) (sc_group c)) as [E | E]; simpl; intros Hex.
  - assert (map (upd_undo c o) us = us) as ->.
    { clear -Hni E. induction us as [| v us IH]; [done |]. simpl in *. rewrite IH by (by set_unfold; naive_solver).
      unfold upd_undo. destruct (Z.eqb_spec (undo_group v) (sc_group c)); [| done].
      exfalso. apply Hni. rewrite E. set_unfold. left. congruence. }
    unfold adj_at. simpl. destruct (Nat.eqb_spec (Z.to_nat (sem_num o)) k) as [Ek | Hne].
    + destruct (lookup_lt_is_Some_2 (adj u) k) as [a Ha]; [lia |].
      rewrite Ek, list_lookup_alter_eq, Ha. simpl. rewrite Z.add_mod, s16_mod, <- Z.add_mod by lia. f_equal. lia.
    + rewrite list_lookup_alter_ne by done. f_equal. lia.
  - rewrite Z.add_mod, (IH Hnd Hok Hex), <- Z.add_mod by lia. f_equal. lia.
Qed.

Lemma upd_undo_ok c o nsems u : undo_ok nsems u -> undo_ok nsems (upd_undo c o u).
Proof.
  intros [Hl Hr]. unfold upd_undo. destruct (undo_group u =? sc_group c); [| done]. split; simpl; [by rewrite length_alter |].
  apply Forall_alter; [done |]. intros a _ _. apply s16_range.
Qed.

Lemma upd_undo_groups c o us : map undo_group (map (upd_undo c o) us) = map undo_group us.
Proof. rewrite map_map. apply map_ext. intros u. unfold upd_undo. by destruct (undo_group u =? sc_group c). Qed.

Lemma sem_undo_get_spec ua s g s' :
  set_ok s -> sem_undo_get ua s g = Some s' ->
  set_ok s' /\ s_sems s' = s_sems s /\ s_nsems s' = s_nsems s /\
  existsb (fun u => undo_group u =? g) (s_undos s') = true /\ forall k, sum_adj k (s_undos s') = sum_adj k (s_undos s).
Proof.
  intros [Hl Hv Hu Hg] H. unfold sem_undo_get in H. destruct (existsb _ _) eqn:E; simplify_eq; [by repeat split |].
  destruct ua; simplify_eq. split; [split; simpl; [done | done | |] |].
  - apply Forall_app. split; [done |]. apply Forall_singleton. split; simpl; [rewrite length_replicate; lia |].
    apply Forall_replicate. unfold in_s. lia.
  - rewrite map_app. apply NoDup_app. split; [done |]. split; [| apply NoDup_singleton].
    intros x Hx Hx'. apply list_elem_of_singleton in Hx'. apply list_elem_of_fmap in Hx as (u & Eu & Hu'). simpl in Hx'.
    apply not_true_iff_false in E. apply E. apply existsb_exists. exists u. split; [by apply list_elem_of_In | lia].
  - simpl. split; [done |]. split; [done |]. split; [rewrite existsb_app; simpl; by rewrite Z.eqb_refl, orb_true_r |].
    intros k. rewrite sum_adj_app. simpl. unfold adj_at. simpl.
    assert (default 0 (replicate (Z.to_nat (s_nsems s)) 0 !! k) = 0) as ->; [| lia].
    destruct (replicate (Z.to_nat (s_nsems s)) 0 !! k) as [x |] eqn:Ex; [| done].
    by apply lookup_replicate_1 in Ex as [-> _].
Qed.

Lemma map_val_last_pid p i sems : map val (alter (set_last_pid p) i sems) = map val sems.
Proof.
  apply list_eq. intros k. rewrite !list_lookup_fmap. destruct (decide (k = i)) as [-> | Hne].
  - rewrite list_lookup_alter_eq. by destruct (sems !! i).
  - by rewrite list_lookup_alter_ne.
Qed.

Lemma sems_ok_map sems sems' : map val sems' = map val sems -> Forall sem_ok sems -> Forall sem_ok sems'.
Proof.
  intros E Hok. assert (Forall (fun v => 0 <= v <= SEMVMX_) (map val sems)) as H by (by apply Forall_map).
  rewrite <- E in H. by apply Forall_map in H.
Qed.

(** Marking the caller as the last to operate. *)
Lemma mark_pid_ok p i s : set_ok s -> set_ok (set_sems (alter (set_last_pid p) i (s_sems s)) s).
Proof.
  intros [Hl Hv Hu Hg]. split; simpl; [by rewrite length_alter | | done | done].
  eapply sems_ok_map; [apply map_val_last_pid | done].
Qed.

Lemma record_op_spec ua c s o :
  set_ok s -> op_ok s o ->
  set_ok (record_op ua c s o) /\ map val (s_sems (record_op ua c s o)) = map val (s_sems s) /\
  s_nsems (record_op ua c s o) = s_nsems s /\
  (ua = true -> has_flag (sem_flg o) SEM_UNDO_ = true -> forall k,
     sum_adj k (s_undos (record_op ua c s o)) mod 2 ^ 16 =
     (sum_adj k (s_undos s) - (if Nat.eqb (Z.to_nat (sem_num o)) k then sem_op o else 0)) mod 2 ^ 16).
Proof.
  intros Hs [Hnum Hop]. unfold record_op. pose proof (mark_pid_ok (sc_tgid c) (Z.to_nat (sem_num o)) s Hs) as Hs1.
  set (s1 := set_sems (alter (set_last_pid (sc_tgid c)) (Z.to_nat (sem_num o)) (s_sems s)) s) in *.
  assert (map val (s_sems s1) = map val (s_sems s)) as E1 by apply map_val_last_pid.
  destruct (has_flag (sem_flg o) SEM_UNDO_); simpl; [| done].
  destruct (Z.eqb_spec (sem_op o) 0) as [E0 | E0]; simpl.
  { do 3 (split; [done |]). intros _ _ k. unfold s1. simpl. f_equal. case_match; lia. }
  destruct (sem_undo_get ua s1 (sc_group c)) as [s2 |] eqn:Eg.
  - destruct (sem_undo_get_spec _ _ _ _ Hs1 Eg) as (Hs2 & Es & En & Hex & Hsum).
    fold (upd_undo c o). destruct Hs2 as [Hl Hv Hu Hg]. split; [split; simpl |].
    + done.
    + done.
    + apply Forall_map. eapply Forall_impl; [exact Hu |]. intros u. apply upd_undo_ok.
    + by rewrite upd_undo_groups.
    + simpl. rewrite Es, En. split; [done |]. split; [done |]. intros _ _ k.
      rewrite (upd_undo_sum c o (s_undos s2) k (s_nsems s2)); [by rewrite Hsum | done | done | | done].
      rewrite En. done.
  - split; [done |]. split; [done |]. split; [done |]. intros ->. exfalso. unfold sem_undo_get in Eg.
    by destruct (existsb _ _).
Qed.

Lemma record_ops_spec ua c sops s :
  set_ok s -> Forall (op_ok s) sops ->
  let s' := fold_left (record_op ua c) sops s in
  set_ok s' /\ map val (s_sems s') = map val (s_sems s) /\ s_nsems s' = s_nsems s /\
  (ua = true -> Forall (fun o => has_flag (sem_flg o) SEM_UNDO_ = true) sops -> forall k,
     sum_adj k (s_undos s') mod 2 ^ 16 = (sum_adj k (s_undos s) - sum_at k sops) mod 2 ^ 16).
Proof.
  revert s. induction sops as [| o sops IH]; intros s Hs Hops; simpl.
  { do 3 (split; [done |]). intros _ _ k. f_equal. lia. }
  apply Forall_cons in Hops as [Ho Hops]. destruct (record_op_spec ua c s o Hs Ho) as (H1 & H2 & H3 & H4).
  destruct (IH (record_op ua c s o) H1) as (I1 & I2 & I3 & I4).
  { eapply Forall_impl; [exact Hops |]. unfold op_ok. by rewrite H3. }
  split; [done |]. split; [congruence |]. split; [congruence |]. intros Hua Hf k. apply Forall_cons in Hf as [Hfo Hf].
  rewrite I4 by done. rewrite Zminus_mod, (H4 Hua Hfo k), <- Zminus_mod. f_equal. lia.
Qed.

Lemma apply_all_val sems sops k :
  Forall sem_ok sems -> (default 0 (map val (apply_all sems sops) !! k)) mod 2 ^ 16 =
  (default 0 (map val sems !! k) + (if decide (k < length sems)%nat then sum_at k sops else 0)) mod 2 ^ 16.
Proof.
  intros Hok. rewrite !list_lookup_fmap. destruct (sems !! k) as [e |] eqn:He.
  - rewrite (apply_all_lookup sems sops k e) by done. rewrite decide_True by (by eapply lookup_lt_Some). simpl.
    unfold u16, wrap. apply Z.mod_mod. lia.
  - pose proof (lookup_ge_None_1 _ _ He) as Hlen. rewrite decide_False by lia.
    assert (apply_all sems sops !! k = None) as ->; [| done]. apply lookup_ge_None_2. unfold apply_all.
    by rewrite (fold_add_length sem_op).
Qed.

(** ** semop as a whole *)

(** Where the loop stopped: everything before it applied, and the operation
    there is of the kind the outcome says. *)
Lemma try_ops_stop sems sops i sems' st j :
  try_ops sems sops i = (sems', st) -> st = BlockedAt j \/ st = RangeAt j ->
  exists n o, j = (i + n)%nat /\ sops !! n = Some o /\ try_ops sems (take n sops) i = (sems', Applied) /\
    (st = BlockedAt j -> sem_op o <= 0) /\ (st = RangeAt j -> 0 < sem_op o).
Proof.
  revert sems i. induction sops as [| o sops IH]; intros sems i Hrun Hst; simpl in Hrun; [naive_solver |].
  assert (forall st', sems = sems' -> st' = st -> j = i -> (st = BlockedAt j -> sem_op o <= 0) -> (st = RangeAt j -> 0 < sem_op o) ->
    exists n o', j = (i + n)%nat /\ (o :: sops) !! n = Some o' /\ try_ops sems (take n (o :: sops)) i = (sems', Applied) /\
    (st = BlockedAt j -> sem_op o' <= 0) /\ (st = RangeAt j -> 0 < sem_op o')) as Hhere.
  { intros st' -> -> -> H1 H2. exists 0%nat, o. split; [lia |]. done. }
  assert (forall sems1, try_ops sems1 sops (S i) = (sems', st) ->
    (forall rest, try_ops sems (o :: rest) i = try_ops sems1 rest (S i)) ->
    exists n o', j = (i + n)%nat /\ (o :: sops) !! n = Some o' /\ try_ops sems (take n (o :: sops)) i = (sems', Applied) /\
    (st = BlockedAt j -> sem_op o' <= 0) /\ (st = RangeAt j -> 0 < sem_op o')) as Hlater.
  { intros sems1 Hr Hstep. destruct (IH sems1 (S i) Hr Hst) as (n & o' & -> & Hn & Hp & Hk). exists (S n), o'.
    split; [lia |]. split; [done |]. split; [cbn [take]; by rewrite Hstep | done]. }
  destruct (Z.gtb_spec (sem_op o) 0); [case_match eqn:E | destruct (Z.eqb_spec (sem_op o) 0); case_match eqn:E];
    try (simplify_eq; eapply Hhere; [done | done | naive_solver | naive_solver lia | naive_solver lia]);
    (eapply Hlater; [exact Hrun |]; intros rest; simpl; unfold SEMVMX_ in *; repeat (case_match; try lia); done).
Qed.

(** The values a failed array leaves: those it found. *)
Lemma stop_restores sems sops sems' st j :
  Forall sem_ok sems -> Forall (fun o => (Z.to_nat (sem_num o) < length sems)%nat /\ in_s 16 (sem_op o)) sops ->
  try_ops sems sops 0 = (sems', st) -> st = BlockedAt j \/ st = RangeAt j -> roll_back sems' (take j sops) = sems.
Proof.
  intros Hok Hops Hrun Hst. destruct (try_ops_spec _ _ _ _ _ Hok Hops Hrun) as (n & -> & Hok' & Hs).
  assert (j = n) as -> by (destruct Hst as [-> | ->]; naive_solver lia). by apply roll_back_apply.
Qed.

Lemma op_ok_index s sops : set_ok s -> Forall (op_ok s) sops ->
  Forall (fun o => (Z.to_nat (sem_num o) < length (s_sems s))%nat /\ in_s 16 (sem_op o)) sops.
Proof. intros Hs Hops. eapply Forall_impl; [exact Hops |]. intros o [Hn Ho]. destruct Hs. split; [lia | done]. Qed.

Lemma set_sems_id s : set_sems (s_sems s) s = s.
Proof. by destruct s. Qed.

(** The result of an array whose operation [o] at [i] cannot proceed. *)
Definition stuck (s : sem_set) (i : nat) (o : sembuf) : sem_set * bool * attempt :=
  if 0 <? sem_op o then (s, false, Returned _ERANGE)
  else if has_flag (sem_flg o) IPC_NOWAIT_ then (s, false, Returned _EAGAIN)
  else (set_waiters (u32 (s_waiters s + 1))
          (set_sems (alter (if sem_op o =? 0 then add_zcnt 1 else add_ncnt 1) (Z.to_nat (sem_num o)) (s_sems s)) s),
        false, Sleeping i).

Lemma semop_turn_cases ua c s sops :
  set_ok s -> Forall (op_ok s) sops ->
  match seq_ops (map val (s_sems s)) sops with
  | Some vals => exists sems, map val sems = vals /\ Forall sem_ok sems /\ sems = apply_all (s_sems s) sops /\
      semop_turn ua c s sops = (set_otime (sc_now c) (fold_left (record_op ua c) sops (set_sems sems s)), true, Returned 0)
  | None => exists i o, sops !! i = Some o /\ seq_ops (map val (s_sems s)) (take i sops) <> None /\ semop_turn ua c s sops = stuck s i o
  end.
Proof.
  intros Hs Hops. pose proof (op_ok_index s sops Hs Hops) as Hix. pose proof (so_vals s Hs) as Hok. unfold semop_turn.
  destruct (try_ops (s_sems s) sops 0) as [sems st] eqn:Erun.
  destruct (try_ops_spec _ _ _ _ _ Hok Hix Erun) as (n & Es & Hok' & Hst).
  assert (forall j, st = BlockedAt j \/ st = RangeAt j -> seq_ops (map val (s_sems s)) sops = None /\ exists o, sops !! j = Some o /\
    seq_ops (map val (s_sems s)) (take j sops) <> None /\ roll_back sems (take j sops) = s_sems s /\
    (st = BlockedAt j -> sem_op o <= 0) /\ (st = RangeAt j -> 0 < sem_op o)) as Hstuck.
  { intros j Hj. split; [destruct Hj as [-> | ->]; naive_solver |].
    destruct (try_ops_stop _ _ _ _ _ _ Erun Hj) as (n' & o & -> & Ho & Hp & H1 & H2). exists o. simpl. split; [done |].
    destruct (try_ops_spec (s_sems s) (take n' sops) 0 sems Applied Hok (Forall_take _ _ _ Hix) Hp) as (? & _ & _ & _ & ->).
    split; [done |]. split; [| done]. by apply (stop_restores _ _ _ _ _ Hok Hix Erun). }
  destruct st as [| j | j].
  - destruct Hst as [-> ->]. exists sems. by rewrite firstn_all in Es.
  - destruct (Hstuck j) as (-> & o & Ho & Hp & -> & Hk & _); [by left |]. exists j, o. split; [done |]. split; [done |].
    rewrite Ho, set_sems_id. unfold stuck. specialize (Hk eq_refl). by destruct (Z.ltb_spec 0 (sem_op o)); [lia |].
  - destruct (Hstuck j) as (-> & o & Ho & Hp & -> & _ & Hk); [by right |]. exists j, o. split; [done |]. split; [done |].
    rewrite set_sems_id. unfold stuck. specialize (Hk eq_refl). by destruct (Z.ltb_spec 0 (sem_op o)); [| lia].
Qed.

Lemma set_sems_ok sems s : set_ok s -> length sems = length (s_sems s) -> Forall sem_ok sems -> set_ok (set_sems sems s).
Proof. intros [Hl Hv Hu Hg] Hlen Hok. split; simpl; [lia | done | done | done]. Qed.

Lemma alter_cnt_ok (f : sem_entry -> sem_entry) i sems :
  (forall e, val (f e) = val e) -> map val (alter f i sems) = map val sems.
Proof.
  intros Hf. apply list_eq. intros k. rewrite !list_lookup_fmap. destruct (decide (k = i)) as [-> | Hne].
  - rewrite list_lookup_alter_eq. destruct (sems !! i); simpl; [by rewrite Hf | done].
  - by rewrite list_lookup_alter_ne.
Qed.

Lemma stuck_ok s i o : set_ok s ->
  set_ok (stuck s i o).1.1 /\ map val (s_sems (stuck s i o).1.1) = map val (s_sems s) /\ s_undos (stuck s i o).1.1 = s_undos s /\
  (stuck s i o).1.2 = false.
Proof.
  intros Hs. unfold stuck. destruct (0 <? sem_op o); [done |]. destruct (has_flag (sem_flg o) IPC_NOWAIT_); [done |].
  set (f := if sem_op o =? 0 then add_zcnt 1 else add_ncnt 1).
  assert (map val (alter f (Z.to_nat (sem_num o)) (s_sems s)) = map val (s_sems s)) as E by (apply alter_cnt_ok; unfold f; by case_match).
  destruct (set_sems_ok (alter f (Z.to_nat (sem_num o)) (s_sems s)) s Hs) as [? ? ? ?];
    [by rewrite length_alter | eapply sems_ok_map; [exact E | apply so_vals, Hs] | by repeat split].
Qed.

Lemma applied_ok ua c s sops sems :
  set_ok s -> Forall (op_ok s) sops -> Forall sem_ok sems -> sems = apply_all (s_sems s) sops ->
  let s' := fold_left (record_op ua c) sops (set_sems sems s) in
  set_ok (set_otime (sc_now c) s') /\ map val (s_sems s') = map val sems /\ s_nsems s' = s_nsems s /\
  (ua = true -> Forall (fun o => has_flag (sem_flg o) SEM_UNDO_ = true) sops -> forall k,
     sum_adj k (s_undos s') mod 2 ^ 16 = (sum_adj k (s_undos s) - sum_at k sops) mod 2 ^ 16).
Proof.
  intros Hs Hops Hok E. assert (set_ok (set_sems sems s)) as Hs1.
  { apply set_sems_ok; [done | | done]. rewrite E. unfold apply_all. apply (fold_add_length sem_op). }
  destruct (record_ops_spec ua c sops (set_sems sems s) Hs1 Hops) as ([H1 H2 H3 H4] & Hm & Hn & Hu).
  simpl. by repeat split.
Qed.


(** A process of uid 1000 with no capability, in the root user namespace. *)
Definition plain_caller : scaller := mk_scaller (mk_ctask None 1000 100 [0; 0]) 7 70 5.
Definition pair_set : sem_set :=
  mk_set 0 3 42 1000 100 1000 100 384 2 0 0 false 0 [mk_sem 1 0 0 0; mk_sem 0 0 0 0] [].

Lemma pair_set_ok : set_ok pair_set.
Proof. split; [done | | done | apply NoDup_nil_2]. repeat constructor; done. Qed.


(** ** Undo and exit *)

Lemma record_ops_groups ua c sops s :
  (forall u, u ∈ s_undos s -> undo_group u = sc_group c) ->
  forall u, u ∈ s_undos (fold_left (record_op ua c) sops s) -> undo_group u = sc_group c.
Proof.
  revert s. induction sops as [| o sops IH]; intros s Hs; simpl; [done |]. apply IH. clear IH. intros u. unfold record_op.
  destruct (has_flag (sem_flg o) SEM_UNDO_ && negb (sem_op o =? 0)); [| apply Hs]. unfold sem_undo_get. simpl.
  assert (forall us, (forall v, v ∈ us -> undo_group v = sc_group c) -> forall v, v ∈ map (upd_undo c o) us -> undo_group v = sc_group c) as Hmap.
  { intros us Hus v Hv. apply list_elem_of_fmap in Hv as (w & -> & Hw). unfold upd_undo. case_match; simpl; by apply Hus. }
  destruct (existsb _ _); [simpl; by apply Hmap |]. destruct ua; [| apply Hs]. simpl. apply Hmap.
  intros v Hv. apply elem_of_app in Hv as [Hv | Hv]; [by apply Hs |]. by apply list_elem_of_singleton in Hv as ->.
Qed.

(** Semaphore operations of one process, one array after another. *)
Definition turns (ua : bool) (c : scaller) (arrays : list (list sembuf)) (s : sem_set) : sem_set :=
  fold_left (fun s sops => (semop_turn ua c s sops).1.1) arrays s.

(** What a process that always asks for SEM_UNDO keeps of a set nobody else
    has records on. *)
Record own_undo (c : scaller) (vals : list Z) (s : sem_set) : Prop := mk_own_undo {
  ou_ok : set_ok s;
  ou_group : forall u, u ∈ s_undos s -> undo_group u = sc_group c;
  ou_sum : forall k, total k s mod 2 ^ 16 = default 0 (vals !! k) mod 2 ^ 16 }.

Lemma turn_own_undo c vals s sops :
  own_undo c vals s -> Forall (op_ok s) sops -> Forall (fun o => has_flag (sem_flg o) SEM_UNDO_ = true) sops ->
  own_undo c vals (semop_turn true c s sops).1.1 /\ s_nsems (semop_turn true c s sops).1.1 = s_nsems s.
Proof.
  intros [Hs Hg Ht] Hops Hf. pose proof (semop_turn_cases true c s sops Hs Hops) as Hc.
  destruct (seq_ops (map val (s_sems s)) sops) as [vals' |].
  - destruct Hc as (sems & _ & Hok & Ea & ->). destruct (applied_ok true c s sops sems Hs Hops Hok Ea) as (H1 & H2 & H3 & H4).
    simpl. split; [| done]. split; [done | by apply record_ops_groups |]. intros k. rewrite <- Ht. unfold total. simpl.
    rewrite H2, Z.add_mod, (H4 eq_refl Hf k), Ea, (apply_all_val _ _ k (so_vals s Hs)), <- Z.add_mod by lia.
    destruct (decide (k < length (s_sems s))%nat) as [Hlt | Hge]; [f_equal; lia |].
    assert (sum_at k sops = 0) as ->; [| f_equal; lia]. pose proof (op_ok_index s sops Hs Hops) as Hix.
    clear -Hge Hix. induction Hix as [| o sops [Ho _] _ IH]; simpl; [done |]. rewrite IH. case_match; lia.
  - destruct Hc as (i & o & _ & _ & ->). destruct (stuck_ok s i o Hs) as (H1 & H2 & H3 & _). split.
    + split; [done | by rewrite H3 |]. intros k. rewrite <- Ht. unfold total. by rewrite H2, H3.
    + unfold stuck. by repeat case_match.
Qed.

Lemma turns_own_undo c vals arrays s :
  own_undo c vals s -> Forall (fun sops => Forall (op_ok s) sops /\ Forall (fun o => has_flag (sem_flg o) SEM_UNDO_ = true) sops) arrays ->
  own_undo c vals (turns true c arrays s) /\ s_nsems (turns true c arrays s) = s_nsems s.
Proof.
  revert s. induction arrays as [| sops arrays IH]; intros s Hs Ha; simpl; [done |].
  apply Forall_cons in Ha as [[Hops Hf] Ha]. destruct (turn_own_undo c vals s sops Hs Hops Hf) as [Hs' En].
  rewrite <- En. apply IH; [done |]. eapply Forall_impl; [exact Ha |]. intros a [Hok Hfl]. split; [| done].
  eapply Forall_impl; [exact Hok |]. unfold op_ok. by rewrite En.
Qed.

(** One record, added without leaving the range: the congruence is equality. *)
Lemma undo_val_exact e a v :
  sem_ok e -> in_s 16 a -> 0 <= v <= SEMVMX_ -> (val e + a) mod 2 ^ 16 = v mod 2 ^ 16 -> val (undo_val e a) = v.
Proof.
  unfold sem_ok, in_s, SEMVMX_, undo_val. intros He Ha Hv Hm.
  assert (val e + a = v) as E.
  { destruct (decide (val e + a < 0)).
    - exfalso. rewrite (Z.mod_small v) in Hm by lia. assert ((val e + a) mod 2 ^ 16 = val e + a + 2 ^ 16); [| lia].
      symmetry. apply Z.mod_unique with (-1); lia.
    - rewrite !Z.mod_small in Hm by lia. done. }
  destruct (Z.eqb_spec a 0); simpl; [lia |]. unfold SEMVMX_. rewrite E. destruct (Z.ltb_spec v 0); [lia |].
  destruct (Z.gtb_spec v 32767); [lia |]. apply u16_small. lia.
Qed.

Lemma one_group_records g us : NoDup (map undo_group us) -> (forall u, u ∈ us -> undo_group u = g) -> us = [] \/ exists u, us = [u] /\ undo_group u = g.
Proof.
  intros Hnd Hg. destruct us as [| u [| v us]]; [by left | right; exists u; split; [done |]; apply Hg; left |].
  exfalso. simpl in Hnd. apply NoDup_cons in Hnd as [Hni _]. apply Hni. rewrite (Hg u) by left. rewrite <- (Hg v) by (right; left). left.
Qed.

Lemma exit_own_undo c vals s :
  own_undo c vals s -> length vals = length (s_sems s) -> Forall (fun v => 0 <= v <= SEMVMX_) vals ->
  let '(sems, undos, _) := exit_undos (sc_group c) (s_sems s) (s_undos s) in map val sems = vals /\ undos = [].
Proof.
  intros [[Hl Hv Hu Hnd] Hg Ht] Hlen Hvals.
  assert (forall k v, vals !! k = Some v -> exists e, s_sems s !! k = Some e /\ sem_ok e /\ 0 <= v <= SEMVMX_) as Hk.
  { intros k v Hkv. destruct (lookup_lt_is_Some_2 (s_sems s) k) as [e He]; [rewrite <- Hlen; by eapply lookup_lt_Some |].
    exists e. split; [done |]. split; [by apply (Forall_lookup_1 _ _ _ _ Hv He) | by apply (Forall_lookup_1 _ _ _ _ Hvals Hkv)]. }
  destruct (one_group_records (sc_group c) (s_undos s) Hnd Hg) as [E | (u & E & Eg)]; rewrite E in *; simpl.
  - split; [| done]. apply list_eq_same_length with (n := length vals); [done | by rewrite length_map |].
    intros k x y _ Hx Hy. rewrite list_lookup_fmap in Hx. destruct (Hk k y Hy) as (e & He & Hok & Hr). rewrite He in Hx. simplify_eq/=.
    specialize (Ht k). unfold total in Ht. rewrite E, list_lookup_fmap, He, Hy in Ht. simpl in Ht. unfold sem_ok, SEMVMX_ in *.
    rewrite Z.add_0_r, !Z.mod_small in Ht by lia. done.
  - rewrite Eg, Z.eqb_refl. simpl. split; [| done]. apply Forall_cons in Hu as [[Hla Hra] _].
    apply list_eq_same_length with (n := length vals); [done | rewrite length_map, length_zip_with; lia |].
    intros k x y _ Hx Hy. destruct (Hk k y Hy) as (e & He & Hok & Hr).
    destruct (lookup_lt_is_Some_2 (adj u) k) as [a Ha]; [pose proof (lookup_lt_Some _ _ _ He); lia |].
    rewrite list_lookup_fmap, lookup_zip_with, He, Ha in Hx. simplify_eq/=. apply undo_val_exact; [done | by apply (Forall_lookup_1 _ _ _ _ Hra Ha) | done |].
    specialize (Ht k). unfold total in Ht. rewrite E, list_lookup_fmap, He, Hy in Ht. simpl in Ht. unfold adj_at in Ht.
    rewrite Ha in Ht. simpl in Ht. by rewrite Z.add_0_r in Ht.
Qed.

Lemma set_own_undo c s : set_ok s -> s_undos s = [] -> own_undo c (map val (s_sems s)) s.
Proof.
  intros Hs E. split; [done | rewrite E; intros u Hu; by apply not_elem_of_nil in Hu |].
  intros k. unfold total. rewrite E. simpl. f_equal. lia.
Qed.

(** SEM_UNDO undoes exactly. Whatever sequence of semaphore arrays a process
    runs on a set with no records, all with SEM_UNDO and whether each succeeds,
    fails or sleeps, its exit gives every semaphore back the value it had before
    the first of them, and leaves no record; the 16-bit adjustment and the
    clamping to [0, SEMVMX] at exit lose nothing. *)
Theorem undo_restores c s arrays :
  set_ok s -> s_undos s = [] ->
  Forall (fun sops => Forall (op_ok s) sops /\ Forall (fun o => has_flag (sem_flg o) SEM_UNDO_ = true) sops) arrays ->
  let s' := turns true c arrays s in
  let '(sems, undos, _) := exit_undos (sc_group c) (s_sems s') (s_undos s') in
  map val sems = map val (s_sems s) /\ undos = [].
Proof.
  intros Hs Hu Ha. destruct (turns_own_undo c _ arrays s (set_own_undo c s Hs Hu) Ha) as [Ho En].
  apply exit_own_undo; [done | | apply Forall_map, Hs].
  rewrite length_map. pose proof (so_len _ (ou_ok _ _ _ Ho)). pose proof (so_len _ Hs). lia.
Qed.

Lemma undo_restores_witness :
  let s' := turns true plain_caller [[mk_op 0 30000 SEM_UNDO_]; [mk_op 0 (-1) SEM_UNDO_; mk_op 1 7 SEM_UNDO_]] pair_set in
  map val (s_sems s') = [30000; 7] /\
  let '(sems, undos, _) := exit_undos (sc_group plain_caller) (s_sems s') (s_undos s') in
  map val sems = [1; 0] /\ undos = [].
Proof.
  split; [vm_compute; reflexivity |].
  apply (undo_restores plain_caller pair_set); [apply pair_set_ok | done | repeat constructor; done].
Defined.

(** An adjustment that another process's operations let grow past 16 bits
    wraps: a process adds 32767 twice, with SEM_UNDO, and another takes 32767
    away in between. Its exit should take 65534 away and so leave 0; it adds 2. *)
Theorem undo_adjustment_wraps :
  let p := plain_caller in
  let q := mk_scaller (mk_ctask None 1000 100 [0; 0]) 8 80 5 in
  let up := [mk_op 1 32767 SEM_UNDO_] in
  let s1 := (semop_turn true p pair_set up).1.1 in
  let s2 := (semop_turn true q s1 [mk_op 1 (-32767) 0]).1.1 in
  let s3 := (semop_turn true p s2 up).1.1 in
  let s4 := (semop_turn true q s3 [mk_op 1 (-32767) 0]).1.1 in
  map val (s_sems s4) = [1; 0] /\ map adj (s_undos s4) = [[0; 2]] /\
  map val (exit_undos (sc_group p) (s_sems s4) (s_undos s4)).1.1 = [1; 2].
Proof. vm_compute. auto. Qed.
