(* ===== verification/SysvSemWorld.v ===== *)
(** * Semaphore sets and the processes asleep on them (kernel/sysvsem.c)

    The calls of SysvSem.v interleaved: a world is a namespace and the semops
    asleep in it, and a step is one call up to its return or its sleep, or one
    sleeper waking, for any reason.  Two properties of every reachable world
    concern the sleepers: the set a semop sleeps on is never freed under it,
    and a sleeper no notification has reached since it went to sleep could not
    proceed (no lost wakeup).  The counts GETNCNT and GETZCNT report are the
    numbers of sleepers. *)

From Stdlib Require Import ZifyBool.
From S2P Require Import Prelude User UserNs Ipc Waits SysvSem.

(** A semop between wait_for_blocked and its return: the set's address, the
    array and the operation it waits for, and whether the set has been notified
    since. *)
Record sleeper := mk_sleeper {
  sl_ptr : nat; sl_caller : scaller; sl_ops : list sembuf; sl_at : sembuf; sl_woken : bool }.

Record world := mk_world { w_ns : ipc_ns; w_sl : list sleeper }.

Definition woken (x : sleeper) : sleeper := mk_sleeper (sl_ptr x) (sl_caller x) (sl_ops x) (sl_at x) true.

(** notify() on the sets at these addresses: it wakes every sleeper. *)
Definition notify_sets (L : list nat) : list sleeper -> list sleeper :=
  notify woken (fun x => existsb (Nat.eqb (sl_ptr x)) L).

Definition found (ns : ipc_ns) (semid : Z) : list nat :=
  match sem_find_by_id ns semid with Some s => [s_ptr s] | None => [] end.

#[local] Notation slept := (on sl_ptr).

Section Steps.
Context {M : Type} `{GuestMemoryOk M} (t : ns_table).

Inductive sem_step : world -> world -> Prop :=
| St_get ao ns sl c key nsems flg :
    sem_step (mk_world ns sl) (mk_world (sys_semget_guest ao ns c key nsems flg).1 sl)
| St_try ua (m : M) ns sl c semid addr nsops ns' n res :
    gm_ok m -> 0 <= addr -> 0 <= nsops ->
    semop_attempt t ua m ns c semid addr nsops = (ns', n, Returned res) ->
    sem_step (mk_world ns sl) (mk_world ns' (notify_sets (if n then found ns semid else []) sl))
| St_sleep ua (m : M) ns sl c semid addr nsops bs s b ns' n i :
    gm_ok m -> 0 <= addr -> 0 <= nsops ->
    semop_attempt t ua m ns c semid addr nsops = (ns', n, Sleeping i) ->
    user_read m addr (nsops * 6) = Some bs -> sem_find_by_id ns semid = Some s ->
    sembufs (Z.to_nat nsops) bs !! i = Some b ->
    Z.of_nat (length sl) + 1 < 2 ^ 32 ->
    sem_step (mk_world ns sl) (mk_world ns' (sl ++ [mk_sleeper (s_ptr s) c (sembufs (Z.to_nat nsops) bs) b false]))
| St_wake ua ns l1 x l2 s err dl ns' n res :
    s ∈ sem_sets ns -> s_ptr s = sl_ptr x ->
    semop_wake ua ns (sl_caller x) s (sl_ops x) (sl_at x) err dl = (ns', n, Returned res) ->
    sem_step (mk_world ns (l1 ++ x :: l2)) (mk_world ns' (notify_sets (if n then [s_ptr s] else []) (l1 ++ l2)))
| St_again ua ns l1 x l2 s b err dl ns' n i :
    s ∈ sem_sets ns -> s_ptr s = sl_ptr x ->
    semop_wake ua ns (sl_caller x) s (sl_ops x) (sl_at x) err dl = (ns', n, Sleeping i) ->
    sl_ops x !! i = Some b ->
    sem_step (mk_world ns (l1 ++ x :: l2)) (mk_world ns' (l1 ++ mk_sleeper (sl_ptr x) (sl_caller x) (sl_ops x) b false :: l2))
| St_ctl pid_shown (m : M) abi ns sl c semid semnum cmd arg m' ns' n res :
    gm_ok m -> 0 <= arg ->
    sys_semctl_guest t pid_shown m abi ns c semid semnum cmd arg = (m', ns', n, res) ->
    sem_step (mk_world ns sl) (mk_world ns' (notify_sets (if n then found ns semid else []) sl))
| St_exit ns sl g :
    sem_step (mk_world ns sl) (mk_world (sysv_sem_exit ns g).1 (notify_sets (sysv_sem_exit ns g).2 sl))
| St_teardown ns :
    sem_step (mk_world ns []) (mk_world (sem_ns_teardown ns) []).

(** ** Invariant *)

(** One sleeper against its set. *)
Definition sleeper_ok (s : sem_set) (x : sleeper) : Prop :=
  Forall (op_ok s) (sl_ops x) /\ sl_at x ∈ sl_ops x /\
  (sl_woken x = false -> s_removed s = false /\ seq_ops (map val (s_sems s)) (sl_ops x) = None).

(** Sleepers waiting for semaphore [k] to grow, or to be zero. *)
Definition waits_n (k : nat) (x : sleeper) : Prop := Z.to_nat (sem_num (sl_at x)) = k /\ sem_op (sl_at x) <> 0.
Definition waits_z (k : nat) (x : sleeper) : Prop := Z.to_nat (sem_num (sl_at x)) = k /\ sem_op (sl_at x) = 0.

(** A set and the sleepers on it. *)
Record set_sl_ok (s : sem_set) (xs : list sleeper) : Prop := mk_set_sl_ok {
  ss_ok : set_ok s;
  ss_sl : Forall (sleeper_ok s) xs;
  ss_waiters : s_waiters s = Z.of_nat (length xs);
  ss_counts : forall k e, s_sems s !! k = Some e ->
    ncnt e = Z.of_nat (length (filter (waits_n k) xs)) /\ zcnt e = Z.of_nat (length (filter (waits_z k) xs)) }.

Definition world_ok (w : world) : Prop :=
  waits_ok s_ptr s_removed sl_ptr set_sl_ok (sem_sets (w_ns w)) (next_ptr (w_ns w)) (w_sl w).

(** ** A set and its sleepers *)

#[local] Instance set_sl_ok_perm s : Proper (Permutation ==> iff) (set_sl_ok s).
Proof.
  assert (forall xs ys, xs ≡ₚ ys -> set_sl_ok s xs -> set_sl_ok s ys) as Himp.
  { intros xs ys Hp [H1 H2 H3 H4]. split; [done | by rewrite <- Hp | by rewrite <- Hp |].
    intros k e He. destruct (H4 k e He) as [-> ->]. by rewrite Hp. }
  intros xs ys Hp. split; apply Himp; [done | by symmetry].
Qed.

Definition cnts (e : sem_entry) : Z * Z := (ncnt e, zcnt e).

(** What an operation that puts nobody to sleep leaves alone. *)
Definition same_counts (s s' : sem_set) : Prop :=
  s_ptr s' = s_ptr s /\ s_nsems s' = s_nsems s /\ s_waiters s' = s_waiters s /\ map cnts (s_sems s') = map cnts (s_sems s).

Lemma same_counts_refl s : same_counts s s.
Proof. done. Qed.

Lemma same_counts_trans s1 s2 s3 : same_counts s1 s2 -> same_counts s2 s3 -> same_counts s1 s3.
Proof. unfold same_counts. naive_solver congruence. Qed.

Lemma cnts_transfer sems sems' k e :
  map cnts sems' = map cnts sems -> sems' !! k = Some e -> exists e0, sems !! k = Some e0 /\ ncnt e = ncnt e0 /\ zcnt e = zcnt e0.
Proof.
  intros E He. pose proof (f_equal (fun l => l !! k) E) as H1. simpl in H1.
  rewrite !list_lookup_fmap, He in H1. destruct (sems !! k) as [e0 |]; simplify_eq/=. exists e0. naive_solver.
Qed.

Lemma waits_woken k xs :
  filter (waits_n k) (map woken xs) = map woken (filter (waits_n k) xs) /\
  filter (waits_z k) (map woken xs) = map woken (filter (waits_z k) xs).
Proof.
  split; (induction xs as [| x xs IH]; [done |]; simpl; rewrite !filter_cons, IH; by repeat case_decide).
Qed.

(** After a change that notifies, or one that changes no value. *)
Lemma same_counts_notified s s' xs :
  same_counts s s' -> set_ok s' -> set_sl_ok s xs -> set_sl_ok s' (map woken xs).
Proof.
  intros (Hp & Hn & Hw & Hc) Hok [H1 H2 H3 H4]. split; [done | | by rewrite length_map; congruence |].
  - apply Forall_map. eapply Forall_impl; [exact H2 |]. intros x (Ha & Hb & _). split; [| done].
    eapply Forall_impl; [exact Ha |]. unfold op_ok. by rewrite Hn.
  - intros k e He. destruct (cnts_transfer _ _ _ _ Hc He) as (e0 & He0 & -> & ->).
    destruct (waits_woken k xs) as [-> ->]. rewrite !length_map. by apply H4.
Qed.

Lemma same_counts_quiet s s' xs :
  same_counts s s' -> set_ok s' -> s_removed s' = s_removed s -> map val (s_sems s') = map val (s_sems s) ->
  set_sl_ok s xs -> set_sl_ok s' xs.
Proof.
  intros (Hp & Hn & Hw & Hc) Hok Hr Hv [H1 H2 H3 H4]. split; [done | | congruence |].
  - eapply Forall_impl; [exact H2 |]. intros x (Ha & Hb & Hx). split; [| by rewrite Hr, Hv].
    eapply Forall_impl; [exact Ha |]. unfold op_ok. by rewrite Hn.
  - intros k e He. destruct (cnts_transfer _ _ _ _ Hc He) as (e0 & He0 & -> & ->). by apply H4.
Qed.

(** A sleeper joins, or leaves. *)
Definition count_in (d : Z) (b : sembuf) (s : sem_set) : sem_set :=
  set_waiters (u32 (s_waiters s + d))
    (set_sems (alter (if sem_op b =? 0 then add_zcnt d else add_ncnt d) (Z.to_nat (sem_num b)) (s_sems s)) s).

Lemma count_in_vals d b s : map val (s_sems (count_in d b s)) = map val (s_sems s).
Proof. apply alter_cnt_ok. intros e. by case_match. Qed.

Lemma count_in_ok d b s : set_ok s -> set_ok (count_in d b s).
Proof.
  intros Hs. pose proof (count_in_vals d b s) as E. simpl in E.
  destruct (set_sems_ok _ s Hs (eq_trans (length_alter _ _ _) eq_refl) (sems_ok_map _ _ E (so_vals s Hs))) as [? ? ? ?]. by split.
Qed.

Lemma sleeper_ok_transfer s s' x :
  s_nsems s' = s_nsems s -> s_removed s' = s_removed s -> map val (s_sems s') = map val (s_sems s) -> sleeper_ok s x -> sleeper_ok s' x.
Proof.
  intros Hn Hr Hv (Ha & Hb & Hx). split; [| by rewrite Hr, Hv]. eapply Forall_impl; [exact Ha |]. unfold op_ok. by rewrite Hn.
Qed.

Lemma count_in_lookup d x s k e :
  s_sems (count_in d (sl_at x) s) !! k = Some e -> exists e0, s_sems s !! k = Some e0 /\
    ncnt e = (if decide (waits_n k x) then u32 (ncnt e0 + d) else ncnt e0) /\
    zcnt e = (if decide (waits_z k x) then u32 (zcnt e0 + d) else zcnt e0).
Proof.
  unfold waits_n, waits_z. set (b := sl_at x). simpl. intros He. destruct (decide (k = Z.to_nat (sem_num b))) as [-> | Hne].
  - rewrite list_lookup_alter_eq in He. destruct (s_sems s !! Z.to_nat (sem_num b)) as [e0 |]; simplify_eq/=. exists e0. split; [done |].
    destruct (Z.eqb_spec (sem_op b) 0); simpl; repeat case_decide; naive_solver.
  - rewrite list_lookup_alter_ne in He by done. exists e. split; [done |]. repeat case_decide; naive_solver.
Qed.

Lemma filter_cons_length (P : sleeper -> Prop) `{forall x, Decision (P x)} x xs :
  Z.of_nat (length (filter P (x :: xs))) = (if decide (P x) then 1 else 0) + Z.of_nat (length (filter P xs)).
Proof. rewrite filter_cons. case_decide; simpl length; lia. Qed.

Lemma sleeper_joins s xs x :
  set_sl_ok s xs -> sleeper_ok s x -> Z.of_nat (length xs) + 1 < 2 ^ 32 -> set_sl_ok (count_in 1 (sl_at x) s) (x :: xs).
Proof.
  intros [H1 H2 H3 H4] Hx Hlen. split.
  - by apply count_in_ok.
  - apply Forall_cons. split; [by apply (sleeper_ok_transfer s); [..| apply count_in_vals |] |].
    eapply Forall_impl; [exact H2 |]. intros y. apply sleeper_ok_transfer; [done | done | apply count_in_vals].
  - simpl. rewrite H3, u32_small; lia.
  - intros k e He. destruct (count_in_lookup _ _ _ _ _ He) as (e0 & He0 & -> & ->). destruct (H4 k e0 He0) as [-> ->].
    rewrite !filter_cons_length. pose proof (length_filter (waits_n k) xs). pose proof (length_filter (waits_z k) xs).
    split; case_decide; try rewrite u32_small; lia.
Qed.

Lemma sleeper_leaves s xs x :
  set_sl_ok s (x :: xs) -> Z.of_nat (length (x :: xs)) < 2 ^ 32 -> set_sl_ok (count_in (-1) (sl_at x) s) xs.
Proof.
  intros [H1 H2 H3 H4] Hlen. apply Forall_cons in H2 as [_ H2]. simpl in *. split.
  - by apply count_in_ok.
  - eapply Forall_impl; [exact H2 |]. intros y. apply sleeper_ok_transfer; [done | done | apply count_in_vals].
  - simpl. rewrite H3, u32_small; lia.
  - intros k e He. destruct (count_in_lookup _ _ _ _ _ He) as (e0 & He0 & -> & ->). destruct (H4 k e0 He0) as [-> ->].
    rewrite !filter_cons_length. pose proof (length_filter (waits_n k) xs). pose proof (length_filter (waits_z k) xs).
    split; case_decide; try rewrite u32_small; lia.
Qed.

(** ** One turn of semop *)

Lemma map_cnts_alter (f : sem_entry -> sem_entry) i sems :
  (forall e, cnts (f e) = cnts e) -> map cnts (alter f i sems) = map cnts sems.
Proof.
  intros Hf. apply list_eq. intros k. rewrite !list_lookup_fmap. destruct (decide (k = i)) as [-> | Hne].
  - rewrite list_lookup_alter_eq. destruct (sems !! i); simpl; [by rewrite Hf | done].
  - by rewrite list_lookup_alter_ne.
Qed.

Lemma record_op_counts ua c s o : same_counts s (record_op ua c s o) /\ s_removed (record_op ua c s o) = s_removed s.
Proof.
  unfold record_op, sem_undo_get, same_counts.
  repeat (case_match; simplify_eq/=); simpl; repeat split; by apply map_cnts_alter.
Qed.

Lemma record_ops_counts ua c sops s :
  same_counts s (fold_left (record_op ua c) sops s) /\ s_removed (fold_left (record_op ua c) sops s) = s_removed s.
Proof.
  revert s. induction sops as [| o sops IH]; intros s; simpl; [done |].
  destruct (record_op_counts ua c s o) as [H1 H2]. destruct (IH (record_op ua c s o)) as [H3 H4].
  split; [by eapply same_counts_trans | congruence].
Qed.

Lemma apply_all_cnts sems sops : map cnts (apply_all sems sops) = map cnts sems.
Proof.
  unfold apply_all. revert sems. induction sops as [| o sops IH]; intros sems; simpl; [done |].
  rewrite IH. by apply map_cnts_alter.
Qed.

Lemma turn_sl ua c s sops xs s' n r :
  set_sl_ok s xs -> s_removed s = false -> Forall (op_ok s) sops ->
  semop_turn ua c s sops = (s', n, r) ->
  s_ptr s' = s_ptr s /\ s_removed s' = false /\
  match r with
  | Returned _ => set_sl_ok s' (if n then map woken xs else xs)
  | Sleeping i => forall b p, Z.of_nat (length xs) + 1 < 2 ^ 32 -> sops !! i = Some b -> set_sl_ok s' (mk_sleeper p c sops b false :: xs)
  end.
Proof.
  intros Hsl Hr Hops Hrun. pose proof (ss_ok _ _ Hsl) as Hs. pose proof (semop_turn_cases ua c s sops Hs Hops) as Hc.
  destruct (seq_ops (map val (s_sems s)) sops) as [vals |] eqn:Eq.
  - destruct Hc as (sems & _ & Hok & Ea & Et). rewrite Et in Hrun. simplify_eq.
    destruct (applied_ok ua c s sops _ Hs Hops Hok eq_refl) as (H1 & _ & _ & _).
    destruct (record_ops_counts ua c sops (set_sems (apply_all (s_sems s) sops) s)) as [(Ep & En & Ew & Ec) Erm].
    simpl in *. split; [done |]. split; [by rewrite Erm |]. apply same_counts_notified with s; [| done | done].
    unfold same_counts. simpl. rewrite Ep, En, Ew, Ec, apply_all_cnts. done.
  - destruct Hc as (i & o & Ho & _ & Et). rewrite Et in Hrun. unfold stuck in Hrun.
    destruct (0 <? sem_op o); [by simplify_eq |]. destruct (has_flag (sem_flg o) IPC_NOWAIT_); [by simplify_eq |].
    simplify_eq. split; [done |]. split; [done |]. intros b p Hlen Hb. rewrite Ho in Hb. injection Hb as <-.
    apply (sleeper_joins s xs (mk_sleeper p c sops o false)); [done | | done]. split; [done |]. split; [| done].
    by apply list_elem_of_lookup_2 in Ho.
Qed.

(** ** Replacing one set in a world *)

Lemma woken_ptr x : sl_ptr (woken x) = sl_ptr x.
Proof. done. Qed.

Lemma notify_all xs : notify woken (fun _ => true) xs = map woken xs.
Proof. done. Qed.

(** What a notification of some sets does to the sleepers on one of them. *)
Lemma slept_notified p L sl : slept p (notify_sets L sl) = if existsb (Nat.eqb p) L then map woken (slept p sl) else slept p sl.
Proof.
  unfold notify_sets. rewrite (on_notify _ _ woken_ptr). unfold notify.
  destruct (existsb (Nat.eqb p) L) eqn:E.
  - apply map_ext_in. intros x Hx. apply list_elem_of_In, on_elem in Hx as [-> _]. by rewrite E.
  - apply notify_none. intros x Hx. apply on_elem in Hx as [-> _]. done.
Qed.

Lemma slept_notified_self p (n : bool) sl :
  slept p (notify_sets (if n then [p] else []) sl) = if n then map woken (slept p sl) else slept p sl.
Proof. rewrite slept_notified. destruct n; simpl; [| done]. by rewrite Nat.eqb_refl. Qed.

Lemma notify_nobody sl : notify_sets [] sl = sl.
Proof. by apply notify_none. Qed.

Lemma notified_here p (n : bool) x : existsb (Nat.eqb (sl_ptr x)) (if n then [p] else []) = true -> sl_ptr x = p.
Proof. destruct n; simpl; [| done]. rewrite orb_false_r. by intros E%Nat.eqb_eq. Qed.

Lemma find_id_in ns id s : sem_find_by_id ns id = Some s -> s ∈ sem_sets ns /\ s_removed s = false.
Proof.
  intros Hf. apply List.find_some in Hf as [Hin Hb]. split; [by apply list_elem_of_In |].
  apply andb_true_iff in Hb as [Hb _]. by apply negb_true_iff.
Qed.

(** A set that is not removed, changed in place with the notification the
    change calls for. *)
Lemma world_change ns sl s s' (n : bool) :
  world_ok (mk_world ns sl) -> s ∈ sem_sets ns -> s_ptr s' = s_ptr s -> (s_removed s' = true -> slept (s_ptr s) sl <> []) ->
  set_sl_ok s' (if n then map woken (slept (s_ptr s) sl) else slept (s_ptr s) sl) ->
  world_ok (mk_world (put_set ns s') (notify_sets (if n then [s_ptr s] else []) sl)).
Proof.
  intros Hw Hs Ep Hr Hok. eapply (waits_change _ _ _ _ _ woken_ptr); [exact Hw | exact Hs | done | done | by intros x; apply notified_here |].
  rewrite <- (on_notify _ _ woken_ptr). change (notify woken _ sl) with (notify_sets (if n then [s_ptr s] else []) sl).
  by rewrite slept_notified_self.
Qed.

(** ** The steps *)

Lemma sembufs_ok n bs : Forall (in_u 8) bs -> Forall (fun o => 0 <= sem_num o /\ in_s 16 (sem_op o)) (sembufs n bs).
Proof.
  revert bs. induction n as [| n IH]; intros bs Hb; simpl; [constructor |]. constructor; [| apply IH, Forall_drop, Hb]. simpl. split.
  - pose proof (field_bound 0 2 16 bs Hb ltac:(lia)) as Hf. unfold in_u in Hf. lia.
  - apply s16_range.
Qed.

Lemma attempt_turn ua (m : M) ns c semid addr nsops ns' n r :
  gm_ok m -> 0 <= addr -> 0 <= nsops -> semop_attempt t ua m ns c semid addr nsops = (ns', n, r) ->
  (ns' = ns /\ n = false /\ exists res, r = Returned res /\ res <> 0) \/
  exists bs s s', user_read m addr (nsops * 6) = Some bs /\ sem_find_by_id ns semid = Some s /\
    Forall (op_ok s) (sembufs (Z.to_nat nsops) bs) /\
    semop_turn ua c s (sembufs (Z.to_nat nsops) bs) = (s', n, r) /\ ns' = put_set ns s'.
Proof.
  intros Hm Ha Hn Hrun. unfold semop_attempt in Hrun.
  repeat (case_match; [simplify_eq; left; split; [done |]; split; [done |]; eexists; split; [done |]; done |]).
  destruct (user_read m addr (nsops * 6)) as [bs |] eqn:Er; [| simplify_eq; left; split; [done |]; split; [done |]; by eexists].
  destruct (sem_find_by_id ns semid) as [s |]; [| simplify_eq; left; split; [done |]; split; [done |]; by eexists].
  repeat (case_match; [simplify_eq; left; split; [done |]; split; [done |]; eexists; split; [done |]; done |]).
  destruct (semop_turn ua c s (sembufs (Z.to_nat nsops) bs)) as [[s' n'] r'] eqn:Et. simplify_eq. right. exists bs, s, s'.
  do 2 (split; [done |]). split; [| done]. destruct (user_read_bytes m addr (nsops * 6) bs Hm Ha ltac:(lia) Er) as [_ Hb].
  pose proof (sembufs_ok (Z.to_nat nsops) bs Hb) as Hops. apply Forall_forall. intros o Ho.
  rewrite Forall_forall in Hops. destruct (Hops o Ho) as [Ho1 Ho2]. split; [| done]. split; [done |].
  assert (~ (sem_num o >=? s_nsems s) = true); [| lia]. intros Hge.
  assert (existsb (fun o => sem_num o >=? s_nsems s) (sembufs (Z.to_nat nsops) bs) = true); [| congruence].
  apply existsb_exists. exists o. split; [by apply list_elem_of_In | done].
Qed.

Lemma new_set_ok s : s_sems s = replicate (Z.to_nat (s_nsems s)) (mk_sem 0 0 0 0) -> s_undos s = [] -> s_waiters s = 0 -> 0 <= s_nsems s -> set_sl_ok s [].
Proof.
  intros Es Eu Ew Hn. split; [split | constructor | done |].
  - rewrite Es, length_replicate. lia.
  - rewrite Es. apply Forall_replicate. unfold sem_ok, SEMVMX_. simpl. lia.
  - rewrite Eu. constructor.
  - rewrite Eu. apply NoDup_nil_2.
  - intros k e He. rewrite Es in He. by apply lookup_replicate_1 in He as [-> _].
Qed.

Lemma step_get ao ns sl c key nsems flg :
  world_ok (mk_world ns sl) -> world_ok (mk_world (sys_semget_guest ao ns c key nsems flg).1 sl).
Proof.
  intros Hw. unfold sys_semget_guest. destruct ((nsems <? 0) || (nsems >? SEMMSL_)) eqn:En; [done |].
  destruct (if key =? IPC_PRIVATE_ then None else sem_find_by_key ns key) as [s |]; [by repeat case_match |].
  repeat (case_match; [done |]). apply waits_new; [exact Hw | done | done |]. apply new_set_ok; simpl; [done | done | done | lia].
Qed.

Lemma step_try ua (m : M) ns sl c semid addr nsops ns' n res :
  world_ok (mk_world ns sl) -> gm_ok m -> 0 <= addr -> 0 <= nsops ->
  semop_attempt t ua m ns c semid addr nsops = (ns', n, Returned res) ->
  world_ok (mk_world ns' (notify_sets (if n then found ns semid else []) sl)).
Proof.
  intros Hw Hm Ha Hn Hrun. destruct (attempt_turn _ _ _ _ _ _ _ _ _ _ Hm Ha Hn Hrun) as [(-> & -> & _) | (bs & s & s' & _ & Hf & Hops & Ht & ->)].
  { by rewrite notify_nobody. }
  destruct (find_id_in _ _ _ Hf) as [Hs Hr]. destruct (wa_obj _ _ _ _ _ _ _ Hw s Hs) as [Hok _].
  destruct (turn_sl _ _ _ _ _ _ _ _ Hok Hr Hops Ht) as (Ep & Er & Hok').
  unfold found. rewrite Hf. by apply world_change; [done | done | done | congruence |].
Qed.

Lemma step_sleep ua (m : M) ns sl c semid addr nsops bs s b ns' n i :
  world_ok (mk_world ns sl) -> gm_ok m -> 0 <= addr -> 0 <= nsops ->
  semop_attempt t ua m ns c semid addr nsops = (ns', n, Sleeping i) ->
  user_read m addr (nsops * 6) = Some bs -> sem_find_by_id ns semid = Some s -> sembufs (Z.to_nat nsops) bs !! i = Some b ->
  Z.of_nat (length sl) + 1 < 2 ^ 32 ->
  world_ok (mk_world ns' (sl ++ [mk_sleeper (s_ptr s) c (sembufs (Z.to_nat nsops) bs) b false])).
Proof.
  intros Hw Hm Ha Hn Hrun Hu Hf Hb Hlen.
  destruct (attempt_turn _ _ _ _ _ _ _ _ _ _ Hm Ha Hn Hrun) as [(_ & _ & res & ? & _) | (bs' & s0 & s' & Hu' & Hf' & Hops & Ht & ->)]; [done |].
  simplify_eq. destruct (find_id_in _ _ _ Hf) as [Hs Hr]. destruct (wa_obj _ _ _ _ _ _ _ Hw s Hs) as [Hok _]. pose proof (on_length sl_ptr (s_ptr s) sl).
  destruct (turn_sl _ _ _ _ _ _ _ _ Hok Hr Hops Ht) as (Ep & Er & Hok').
  eapply waits_join; [exact Hw | exact Hs | done | done | done | | done].
  rewrite <- Permutation_cons_append. apply Hok'; [simpl in *; lia | done].
Qed.

(** The world with a sleeper taken out and its set given another content. *)
Lemma world_leave ns l1 x l2 s s' (n : bool) :
  world_ok (mk_world ns (l1 ++ x :: l2)) -> s ∈ sem_sets ns -> s_ptr s = sl_ptr x -> s_ptr s' = s_ptr s ->
  (s_removed s' = true -> slept (s_ptr s) (l1 ++ l2) <> []) ->
  set_sl_ok s' (if n then map woken (slept (s_ptr s) (l1 ++ l2)) else slept (s_ptr s) (l1 ++ l2)) ->
  world_ok (mk_world (put_set ns s') (notify_sets (if n then [s_ptr s] else []) (l1 ++ l2))).
Proof.
  intros Hw Hs Ex Ep Hr Hok.
  eapply (waits_leave _ _ _ _ _ woken_ptr); [exact Hw | exact Hs | exact Ex | done | done | by intros y; apply notified_here |].
  rewrite <- (on_notify _ _ woken_ptr). change (notify woken _ (l1 ++ l2)) with (notify_sets (if n then [s_ptr s] else []) (l1 ++ l2)).
  by rewrite slept_notified_self.
Qed.

Lemma leaving ns l1 x l2 s :
  world_ok (mk_world ns (l1 ++ x :: l2)) -> s ∈ sem_sets ns -> s_ptr s = sl_ptr x ->
  set_sl_ok (count_in (-1) (sl_at x) s) (slept (s_ptr s) (l1 ++ l2)) /\
  Forall (op_ok (count_in (-1) (sl_at x) s)) (sl_ops x) /\ Z.of_nat (length (slept (s_ptr s) (l1 ++ l2))) + 1 < 2 ^ 32.
Proof.
  intros Hw Hs Ex. destruct (waits_split _ _ _ _ _ _ _ _ _ _ Hw Hs Ex) as [Hok Hlen]. rewrite <- Permutation_middle, <- on_sl_app in Hok.
  split; [| split; [| done]].
  - apply sleeper_leaves; [done |]. simpl in *. lia.
  - pose proof (ss_sl _ _ Hok) as Hsl. by apply Forall_cons in Hsl as [[Hops _] _].
Qed.

Lemma semop_wake_eq ua ns c s sops b err dl : exists err',
  semop_wake ua ns c s sops b err dl =
  let s1 := count_in (-1) b s in
  if s_removed s1 then (sem_set_maybe_free ns s1, false, Returned _EIDRM) else
  if err' =? _ETIMEDOUT then (sem_set_maybe_free ns s1, false, Returned _EAGAIN) else
  if err' <? 0 then (put_set ns s1, false, Returned _EINTR) else
  let '(s', n, r) := semop_turn ua c s1 sops in (put_set ns s', n, r).
Proof. eexists. reflexivity. Qed.

Lemma step_wake ua ns l1 x l2 s err dl ns' n res :
  world_ok (mk_world ns (l1 ++ x :: l2)) -> s ∈ sem_sets ns -> s_ptr s = sl_ptr x ->
  semop_wake ua ns (sl_caller x) s (sl_ops x) (sl_at x) err dl = (ns', n, Returned res) ->
  world_ok (mk_world ns' (notify_sets (if n then [s_ptr s] else []) (l1 ++ l2))).
Proof.
  intros Hw Hs Ex Hrun. destruct (leaving _ _ _ _ _ Hw Hs Ex) as (Hok & Hops & Hlen).
  destruct (semop_wake_eq ua ns (sl_caller x) s (sl_ops x) (sl_at x) err dl) as [err' Ew]. rewrite Ew in Hrun. cbv zeta in Hrun.
  set (s1 := count_in (-1) (sl_at x) s) in *. destruct (s_removed s1) eqn:Er.
  - unfold sem_set_maybe_free in Hrun. rewrite Er in Hrun. cbn [negb orb] in Hrun.
    destruct (Z.eqb_spec (s_waiters s1) 0) as [E0 | E0]; cbn [negb] in Hrun; simplify_eq.
    + rewrite notify_nobody. assert (slept (s_ptr s) (l1 ++ l2) = []) as Hno by (apply nil_length_inv; pose proof (ss_waiters _ _ Hok); lia).
      eapply waits_leave_drop; [exact Hw | exact Ex | done | done].
    + apply (world_leave ns l1 x l2 s s1 false); [done | done | done | done | | done]. intros _ E.
      pose proof (ss_waiters _ _ Hok) as Hww. rewrite E in Hww. done.
  - assert (world_ok (mk_world (put_set ns s1) (notify_sets [] (l1 ++ l2)))) as Hput
      by (apply (world_leave ns l1 x l2 s s1 false); [done | done | done | done | congruence | done]).
    unfold sem_set_maybe_free in Hrun. rewrite Er in Hrun. cbn [negb orb] in Hrun.
    case_match; [by simplify_eq |]. case_match; [by simplify_eq |].
    destruct (semop_turn ua (sl_caller x) s1 (sl_ops x)) as [[s' n'] r] eqn:Et. simplify_eq.
    destruct (turn_sl _ _ _ _ _ _ _ _ Hok Er Hops Et) as (Ep & Er' & Hok').
    apply (world_leave ns l1 x l2 s s' n); [done | done | done | done | congruence | done].
Qed.

Lemma step_again ua ns l1 x l2 s b err dl ns' n i :
  world_ok (mk_world ns (l1 ++ x :: l2)) -> s ∈ sem_sets ns -> s_ptr s = sl_ptr x ->
  semop_wake ua ns (sl_caller x) s (sl_ops x) (sl_at x) err dl = (ns', n, Sleeping i) -> sl_ops x !! i = Some b ->
  world_ok (mk_world ns' (l1 ++ mk_sleeper (sl_ptr x) (sl_caller x) (sl_ops x) b false :: l2)).
Proof.
  intros Hw Hs Ex Hrun Hb. destruct (leaving _ _ _ _ _ Hw Hs Ex) as (Hok & Hops & Hlen).
  destruct (semop_wake_eq ua ns (sl_caller x) s (sl_ops x) (sl_at x) err dl) as [err' Ew]. rewrite Ew in Hrun. cbv zeta in Hrun.
  set (s1 := count_in (-1) (sl_at x) s) in *. destruct (s_removed s1) eqn:Er; [done |].
  case_match; [done |]. case_match; [done |].
  destruct (semop_turn ua (sl_caller x) s1 (sl_ops x)) as [[s' n'] r] eqn:Et. simplify_eq.
  destruct (turn_sl _ _ _ _ _ _ _ _ Hok Er Hops Et) as (Ep & Er' & Hok'). 
  eapply waits_rejoin; [exact Hw | exact Hs | exact Ex | done | done | done |].
  rewrite <- Permutation_middle, <- on_sl_app. by apply Hok'.
Qed.

(** ** semctl *)

Lemma undo_clear_ok (f : sem_undo -> sem_undo) s nsems :
  (forall u, undo_group (f u) = undo_group u) -> (forall u, undo_ok nsems u -> undo_ok nsems (f u)) ->
  Forall (undo_ok nsems) (s_undos s) -> NoDup (map undo_group (s_undos s)) ->
  Forall (undo_ok nsems) (map f (s_undos s)) /\ NoDup (map undo_group (map f (s_undos s))).
Proof.
  intros Hg Ho Hu Hn. split; [apply Forall_map; by eapply Forall_impl |].
  rewrite map_map. by rewrite (map_ext _ undo_group).
Qed.

Lemma zero_in_s16 : in_s 16 0.
Proof. unfold in_s. lia. Qed.

Lemma setval_ok i v now s :
  set_ok s -> 0 <= v <= SEMVMX_ ->
  set_ok (set_ctime now (set_undos (map (clear_adj i) (s_undos s)) (set_sems (alter (set_val (u16 v)) i (s_sems s)) s))).
Proof.
  intros [H1 H2 H3 H4] Hv. destruct (undo_clear_ok (clear_adj i) s (s_nsems s)) as [Hu Hn]; [done | | done | done |].
  { intros u [Ha Hb]. split; simpl; [by rewrite length_alter |]. apply Forall_alter; [done |]. intros. apply zero_in_s16. }
  split; simpl; [by rewrite length_alter | | done | done]. apply Forall_alter; [done |]. intros e _ _.
  unfold sem_ok, SEMVMX_ in *. simpl. rewrite u16_small; lia.
Qed.

Lemma setval_counts i v now s :
  same_counts s (set_ctime now (set_undos (map (clear_adj i) (s_undos s)) (set_sems (alter (set_val (u16 v)) i (s_sems s)) s))).
Proof. unfold same_counts. simpl. repeat split. by apply map_cnts_alter. Qed.

Lemma words_spec n bs : Forall (in_u 8) bs -> length (words n bs) = n /\ Forall (fun v => 0 <= v) (words n bs).
Proof.
  revert bs. induction n as [| n IH]; intros bs Hb; simpl; [done |]. destruct (IH (drop 2 bs)) as [-> Hw]; [by apply Forall_drop |].
  split; [done |]. constructor; [| done]. pose proof (le_num_bound (take 2 bs) ltac:(by apply Forall_take)) as Hl. unfold in_u in Hl. lia.
Qed.

Lemma setall_ok vals now s :
  set_ok s -> length vals = length (s_sems s) -> Forall (fun v => 0 <= v <= SEMVMX_) vals ->
  let s' := set_ctime now (set_undos (map clear_adjs (s_undos s)) (set_sems (zip_with (fun e v => set_val v e) (s_sems s) vals) s)) in
  set_ok s' /\ same_counts s s'.
Proof.
  intros [H1 H2 H3 H4] Hlen Hv. destruct (undo_clear_ok clear_adjs s (s_nsems s)) as [Hu Hn]; [done | | done | done |].
  { intros u [Ha Hb]. split; simpl; [by rewrite length_map |]. apply Forall_map. eapply Forall_impl; [exact Hb |]. intros. apply zero_in_s16. }
  split; [split; simpl; [rewrite length_zip_with; lia | | done | done] |].
  - apply Forall_lookup_2. intros k e He. rewrite lookup_zip_with in He. destruct (s_sems s !! k); simplify_eq/=.
    destruct (vals !! k) as [v |] eqn:Ev; simplify_eq/=. unfold sem_ok. simpl. by apply (Forall_lookup_1 _ _ _ _ Hv Ev).
  - unfold same_counts. simpl. do 3 (split; [done |]). apply list_eq. intros k. rewrite !list_lookup_fmap, lookup_zip_with.
    destruct (s_sems s !! k) as [e |] eqn:Ee; simpl; [| done].
    destruct (lookup_lt_is_Some_2 vals k) as [v Ev]; [rewrite Hlen; by eapply lookup_lt_Some |]. by rewrite Ev.
Qed.

Lemma rmid_step ns sl s : world_ok (mk_world ns sl) -> s ∈ sem_sets ns ->
  world_ok (mk_world (sem_set_maybe_free ns (set_removed s)) (notify_sets [s_ptr s] sl)).
Proof.
  intros Hw Hs. destruct (wa_obj _ _ _ _ _ _ _ Hw s Hs) as [Hok _]. simpl in Hok. pose proof (ss_waiters _ _ Hok) as Hww.
  unfold sem_set_maybe_free. change (s_removed (set_removed s)) with true. change (s_waiters (set_removed s)) with (s_waiters s). simpl negb.
  destruct (Z.eqb_spec (s_waiters s) 0) as [E | E]; simpl.
  - assert (slept (s_ptr s) sl = []) as Hno by (apply nil_length_inv; lia).
    eapply (waits_drop _ _ _ _ _ _ _ s); [exact Hw | done | | cbn [w_sl]; by rewrite (slept_notified_self _ true), Hno | cbn [w_sl]; unfold notify_sets; rewrite notify_length; apply (wa_few _ _ _ _ _ _ _ Hw)].
    apply (notify_elsewhere _ _ woken_ptr). intros x. apply (notified_here _ true).
  - apply (world_change ns sl s (set_removed s) true); [done | done | done | |].
    + intros _ E'. rewrite E' in Hww. done.
    + apply same_counts_notified with s; [done | | done]. destruct (ss_ok _ _ Hok). by split.
Qed.

(** A set found by its id, changed by a call that notifies. *)
Lemma ctl_change ns sl semid s s' :
  world_ok (mk_world ns sl) -> sem_find_by_id ns semid = Some s -> set_ok s' -> same_counts s s' -> s_removed s' = s_removed s ->
  world_ok (mk_world (put_set ns s') (notify_sets (found ns semid) sl)).
Proof.
  intros Hw Hf Hok Hc Hr. destruct (find_id_in _ _ _ Hf) as [Hs Hr0]. unfold found. rewrite Hf.
  apply (world_change ns sl s s' true); [done | done | apply Hc | congruence |].
  apply same_counts_notified with s; [done | done |]. by apply (wa_obj _ _ _ _ _ _ _ Hw s).
Qed.

Lemma step_ctl pid_shown (m : M) abi ns sl c semid semnum cmd arg m' ns' n res :
  world_ok (mk_world ns sl) -> gm_ok m -> 0 <= arg ->
  sys_semctl_guest t pid_shown m abi ns c semid semnum cmd arg = (m', ns', n, res) ->
  world_ok (mk_world ns' (notify_sets (if n then found ns semid else []) sl)).
Proof.
  intros Hw Hm Ha Hrun. unfold sys_semctl_guest in Hrun. cbv zeta in Hrun.
  assert (world_ok (mk_world ns (notify_sets [] sl))) as Hsame by (by rewrite notify_nobody).
  case_match; [by simplify_eq |]. destruct (sem_find_by_id ns semid) as [s |] eqn:Hf; [| by simplify_eq].
  destruct (find_id_in _ _ _ Hf) as [Hs Hr]. destruct (wa_obj _ _ _ _ _ _ _ Hw s Hs) as [Hok _]. pose proof (ss_ok _ _ Hok) as Hso.
  case_match. { case_match; simplify_eq; [done |]. unfold found. rewrite Hf. by apply rmid_step. }
  case_match. { repeat (case_match; simplify_eq; [done |]). by repeat case_match; simplify_eq. }
  case_match.
  { case_match; [by simplify_eq |]. destruct ((s32 arg <? 0) || (s32 arg >? SEMVMX_)) eqn:Ev; [by simplify_eq |]. simplify_eq.
    exact (ctl_change ns sl semid s _ Hw Hf (setval_ok (Z.to_nat semnum) (s32 arg) (sc_now c) s Hso ltac:(lia)) (setval_counts _ _ _ _) eq_refl). }
  case_match.
  { case_match; [by simplify_eq |]. case_match; [destruct (user_write _ _ _); by simplify_eq |].
    destruct (user_read m arg (s_nsems s * 2)) as [bs |] eqn:Er; [| by simplify_eq].
    destruct (existsb (fun v => v >? SEMVMX_) (words (Z.to_nat (s_nsems s)) bs)) eqn:Ev; [by simplify_eq |]. simplify_eq.
    pose proof (so_len s Hso) as Hl. destruct (user_read_bytes m' arg (s_nsems s * 2) bs Hm Ha ltac:(lia) Er) as [_ Hb].
    destruct (words_spec (Z.to_nat (s_nsems s)) bs Hb) as [Hwl Hwv].
    destruct (setall_ok (words (Z.to_nat (s_nsems s)) bs) (sc_now c) s Hso) as [H1' H2']; [lia | | exact (ctl_change ns sl semid s _ Hw Hf H1' H2' eq_refl)].
    apply Forall_forall. intros v Hv. rewrite Forall_forall in Hwv. specialize (Hwv v Hv). split; [done |].
    assert (~ (v >? SEMVMX_) = true); [| lia]. intros Hgt. apply not_true_iff_false in Ev. apply Ev, existsb_exists.
    exists v. split; [by apply list_elem_of_In | done]. }
  case_match.
  { destruct (read_perm t m abi c arg) as [| [[u g] mode]]; simplify_eq; [done |]. unfold found.
    apply (world_change ns sl s _ false); [done | done | done | simpl; congruence |].
    apply same_counts_quiet with s; [done | destruct Hso; by split | done | done | done]. }
  case_match; [destruct (user_write _ _ _) |]; by simplify_eq.
Qed.

(** ** Exit and teardown *)

Lemma undo_val_ok e a : sem_ok e -> sem_ok (undo_val e a).
Proof.
  unfold sem_ok, undo_val, SEMVMX_. intros He. case_match; [done |]. simpl.
  repeat case_match; simpl; rewrite u16_small; lia.
Qed.

Lemma undo_vals_ok sems adjs :
  length adjs = length sems -> Forall sem_ok sems ->
  let sems' := zip_with undo_val sems adjs in
  length sems' = length sems /\ Forall sem_ok sems' /\ map cnts sems' = map cnts sems /\
  (existsb (fun a => negb (a =? 0)) adjs = false -> sems' = sems).
Proof.
  revert adjs. induction sems as [| e sems IH]; intros [| a adjs] Hlen Hok; try done. apply Forall_cons in Hok as [He Hok].
  destruct (IH adjs) as (I1 & I2 & I3 & I4); [simpl in Hlen; lia | done |]. simpl. split; [lia |].
  split; [constructor; [by apply undo_val_ok | done] |]. split; [f_equal; [unfold undo_val; by case_match | done] |].
  intros Hz. apply orb_false_iff in Hz as [Hz1 Hz2]. apply negb_false_iff in Hz1. unfold undo_val. rewrite Hz1. f_equal. by apply I4.
Qed.

Lemma exit_undos_spec g nsems sems undos :
  Z.of_nat (length sems) = nsems -> Forall sem_ok sems -> Forall (undo_ok nsems) undos ->
  let '(sems', undos', ch) := exit_undos g sems undos in
  length sems' = length sems /\ Forall sem_ok sems' /\ map cnts sems' = map cnts sems /\
  sublist undos' undos /\ Forall (fun u => undo_group u <> g) undos' /\ (ch = false -> sems' = sems).
Proof.
  intros Hlen Hok Hu. revert sems Hlen Hok. induction Hu as [| u undos [Hul Hur] Hu IH]; intros sems Hlen Hok; simpl.
  { split; [done |]. split; [done |]. split; [done |]. split; [constructor |]. done. }
  destruct (Z.eqb_spec (undo_group u) g) as [Eg | Eg]; simpl.
  - destruct (undo_vals_ok sems (adj u)) as (V1 & V2 & V3 & V4); [lia | done |].
    specialize (IH (zip_with undo_val sems (adj u)) ltac:(lia) V2). destruct (exit_undos g _ undos) as [[sems' undos'] ch].
    destruct IH as (I1 & I2 & I3 & I4 & I5 & I6). split; [congruence |]. split; [done |]. split; [congruence |].
    split; [by constructor |]. split; [done |]. intros Hch. apply orb_false_iff in Hch as [Hc1 Hc2]. rewrite I6 by done. by apply V4.
  - specialize (IH sems Hlen Hok). destruct (exit_undos g sems undos) as [[sems' undos'] ch].
    destruct IH as (I1 & I2 & I3 & I4 & I5 & I6). do 3 (split; [done |]). split; [by constructor |]. split; [by constructor | done].
Qed.

Definition exit_set (g : Z) (s : sem_set) : sem_set * bool :=
  let '(sems, undos, ch) := exit_undos g (s_sems s) (s_undos s) in (set_undos undos (set_sems sems s), ch).

Lemma exit_set_spec g s :
  set_ok s -> let s' := fst (exit_set g s) in
  set_ok s' /\ same_counts s s' /\ s_removed s' = s_removed s /\ (snd (exit_set g s) = false -> map val (s_sems s') = map val (s_sems s)).
Proof.
  intros [Hl Hv Hu Hg]. unfold exit_set. pose proof (exit_undos_spec g (s_nsems s) (s_sems s) (s_undos s) Hl Hv Hu) as He.
  destruct (exit_undos g (s_sems s) (s_undos s)) as [[sems undos] ch]. destruct He as (E1 & E2 & E3 & E4 & _ & E6). simpl.
  split; [split; simpl; [lia | done | |] | split; [done | split; [done |]]].
  - apply Forall_forall. intros u Hu'. rewrite Forall_forall in Hu. apply Hu. eapply elem_of_submseteq; [exact Hu' | by apply sublist_submseteq].
  - eapply sublist_NoDup; [exact Hg |]. by apply (fmap_sublist undo_group).
  - intros Hch. by rewrite E6.
Qed.

Lemma exit_set_ptr g s : s_ptr (exit_set g s).1 = s_ptr s.
Proof. unfold exit_set. by destruct (exit_undos g (s_sems s) (s_undos s)) as [[? ?] ?]. Qed.

(** Among sets at distinct addresses, an address is listed for its own set. *)
Lemma ptr_listed (f : sem_set -> bool) sets s :
  NoDup (map s_ptr sets) -> s ∈ sets -> existsb (Nat.eqb (s_ptr s)) (map s_ptr (List.filter f sets)) = f s.
Proof.
  induction sets as [| x sets IH]; intros Hnd Hs; [by apply not_elem_of_nil in Hs |]. simpl in Hnd. apply NoDup_cons in Hnd as [Hni Hnd].
  assert (forall q, q ∈ map s_ptr (List.filter f sets) -> q ∈ map s_ptr sets) as Hsub.
  { intros q Hq. apply list_elem_of_fmap in Hq as (y & -> & Hy). apply list_elem_of_In, List.filter_In in Hy as [Hy _].
    apply list_elem_of_fmap. exists y. split; [done | by apply list_elem_of_In]. }
  apply elem_of_cons in Hs as [-> | Hs]; simpl.
  - destruct (f x) eqn:Ef; simpl; [by rewrite Nat.eqb_refl |]. apply not_true_iff_false. intros He.
    apply existsb_exists in He as (q & Hq & Eq). apply Nat.eqb_eq in Eq as <-. by apply Hni, Hsub, list_elem_of_In.
  - destruct (f x) eqn:Ef; simpl; [| by apply IH]. rewrite IH by done. destruct (Nat.eqb_spec (s_ptr s) (s_ptr x)) as [E | E]; [| done].
    exfalso. apply Hni. rewrite <- E. apply list_elem_of_fmap. by exists s.
Qed.

Lemma sysv_sem_exit_eq ns g :
  sysv_sem_exit ns g =
  (mk_ipc (map (fun s => fst (exit_set g s)) (sem_sets ns)) (sem_next_id ns) (ipc_user_ns ns) (next_ptr ns),
   map s_ptr (List.filter (fun s => snd (exit_set g s)) (sem_sets ns))).
Proof. reflexivity. Qed.

Lemma step_exit ns sl g :
  world_ok (mk_world ns sl) -> world_ok (mk_world (sysv_sem_exit ns g).1 (notify_sets (sysv_sem_exit ns g).2 sl)).
Proof.
  intros [W1 W2 W3 W4 W5]. rewrite sysv_sem_exit_eq. cbn [w_ns w_sl fst snd sem_sets next_ptr] in *.
  set (L := map s_ptr (List.filter (fun s => snd (exit_set g s)) (sem_sets ns))).
  split; cbn [w_ns w_sl fst snd sem_sets next_ptr].
  - rewrite map_map, (map_ext _ s_ptr); [done | apply exit_set_ptr].
  - intros s Hs. apply list_elem_of_fmap in Hs as (s0 & -> & Hs0). rewrite exit_set_ptr. by apply W2.
  - intros s Hs. apply list_elem_of_fmap in Hs as (s0 & -> & Hs0). rewrite exit_set_ptr, slept_notified.
    destruct (W3 s0 Hs0) as [Hok Hr]. destruct (exit_set_spec g s0 (ss_ok _ _ Hok)) as (E1 & E2 & E3 & E4).
    unfold L. rewrite (ptr_listed (fun s => snd (exit_set g s))) by done. destruct (exit_set g s0).2.
    + split; [by apply same_counts_notified with s0 |]. rewrite E3. intros Hr'. specialize (Hr Hr'). by destruct (slept (s_ptr s0) sl).
    + split; [apply same_counts_quiet with s0; by auto |]. rewrite E3. done.
  - intros x Hx. apply list_elem_of_fmap in Hx as (y & -> & Hy). destruct (W4 y Hy) as (s & Hs & Es). exists (exit_set g s).1.
    split; [apply list_elem_of_fmap; by exists s |]. rewrite exit_set_ptr, Es. by destruct (existsb (Nat.eqb (sl_ptr y)) L).
  - by unfold notify_sets; rewrite notify_length.
Qed.

Lemma teardown_fold l ns :
  (forall s, s ∈ l -> s_waiters s = 0) ->
  sem_sets (fold_left (fun ns s => sem_set_maybe_free ns (set_removed s)) l ns) = fold_left (drop_obj s_ptr) l (sem_sets ns).
Proof.
  revert ns. induction l as [| s l IH]; intros ns Hl; simpl; [done |]. rewrite IH by (intros x Hx; apply Hl; by right).
  f_equal. unfold sem_set_maybe_free. simpl. by rewrite (Hl s) by left.
Qed.

Lemma teardown_empties ns : world_ok (mk_world ns []) -> sem_sets (sem_ns_teardown ns) = [].
Proof.
  intros Hw. unfold sem_ns_teardown. rewrite teardown_fold; [apply drop_all |].
  intros s Hs. destruct (wa_obj _ _ _ _ _ _ _ Hw s Hs) as [Hok _]. by apply ss_waiters in Hok.
Qed.

Lemma step_ok w w' : sem_step w w' -> world_ok w -> world_ok w'.
Proof.
  intros Hst Hw. destruct Hst.
  - by apply step_get.
  - eapply step_try; [exact Hw | | | | eassumption]; assumption.
  - eapply step_sleep; [exact Hw | | | | eassumption | | | |]; assumption.
  - eapply step_wake; [exact Hw | | | eassumption]; assumption.
  - eapply step_again; [exact Hw | | | eassumption |]; assumption.
  - eapply step_ctl; [exact Hw | | | eassumption]; assumption.
  - by apply step_exit.
  - pose proof (teardown_empties ns Hw) as E. unfold world_ok. cbn [w_ns w_sl]. rewrite E. apply waits_empty.
Qed.

Lemma steps_ok w w' : rtc sem_step w w' -> world_ok w -> world_ok w'.
Proof. induction 1; eauto using step_ok. Qed.

Definition empty_world (uns : option nat) : world := mk_world (mk_ipc [] 1 uns 0) [].

Lemma empty_world_ok uns : world_ok (empty_world uns).
Proof. apply waits_empty. Qed.

(** ** Properties *)

(** No semop sleeps on freed memory. In every world reachable from an empty
    namespace, whatever calls, exits, removals and wakings happened in whatever
    order, the set a sleeper will touch when it wakes is still allocated, and
    the semaphore it counted itself on is one of its elements. *)
Theorem sleeper_set_alive uns w x :
  rtc sem_step (empty_world uns) w -> x ∈ w_sl w ->
  exists s, s ∈ sem_sets (w_ns w) /\ s_ptr s = sl_ptr x /\ is_Some (s_sems s !! Z.to_nat (sem_num (sl_at x))).
Proof.
  intros Hrun Hx. pose proof (steps_ok _ _ Hrun (empty_world_ok uns)) as Hw. destruct (wa_here _ _ _ _ _ _ _ Hw x Hx) as (s & Hs & Es).
  exists s. split; [done |]. split; [done |]. destruct (wa_obj _ _ _ _ _ _ _ Hw s Hs) as [[Hok Hsl _ _] _].
  rewrite Forall_forall in Hsl. destruct (Hsl x) as (Hops & Hat & _); [by apply on_elem |].
  rewrite Forall_forall in Hops. destruct (Hops _ Hat) as [Hnum _]. apply lookup_lt_is_Some_2. pose proof (so_len s Hok). lia.
Qed.

(** C6: no wakeup is lost. A semop that is asleep and whose set nobody has
    notified since it went to sleep could not proceed: the set is not removed,
    and its array does not apply to the values as they are now. So every call
    that makes some sleeper able to proceed, or removes its set, wakes it. *)
Theorem no_lost_wakeup uns w x :
  rtc sem_step (empty_world uns) w -> x ∈ w_sl w -> sl_woken x = false ->
  exists s, s ∈ sem_sets (w_ns w) /\ s_ptr s = sl_ptr x /\ s_removed s = false /\ seq_ops (map val (s_sems s)) (sl_ops x) = None.
Proof.
  intros Hrun Hx Hn. pose proof (steps_ok _ _ Hrun (empty_world_ok uns)) as Hw. destruct (wa_here _ _ _ _ _ _ _ Hw x Hx) as (s & Hs & Es).
  exists s. split; [done |]. split; [done |]. destruct (wa_obj _ _ _ _ _ _ _ Hw s Hs) as [[_ Hsl _ _] _].
  rewrite Forall_forall in Hsl. destruct (Hsl x) as (_ & _ & Hx'); [by apply on_elem |]. by apply Hx'.
Qed.

(** Every reachable namespace is in order. Each set has as many semaphores
    as it says, every value is in [0, SEMVMX], each undo record has one 16-bit
    adjustment per semaphore and there is one per thread group; the waiter count
    and the counts GETNCNT and GETZCNT report are the numbers of sleepers; a
    removed set is kept only while somebody sleeps on it, and when nobody sleeps
    tearing the namespace down frees everything. *)
Theorem sem_namespace_ok uns w :
  rtc sem_step (empty_world uns) w ->
  (forall s, s ∈ sem_sets (w_ns w) ->
     set_ok s /\ s_waiters s = Z.of_nat (length (slept (s_ptr s) (w_sl w))) /\ (s_removed s = true -> 0 < s_waiters s) /\
     forall k e, s_sems s !! k = Some e ->
       ncnt e = Z.of_nat (length (filter (waits_n k) (slept (s_ptr s) (w_sl w)))) /\
       zcnt e = Z.of_nat (length (filter (waits_z k) (slept (s_ptr s) (w_sl w))))) /\
  (w_sl w = [] -> sem_sets (sem_ns_teardown (w_ns w)) = []).
Proof.
  intros Hrun. pose proof (steps_ok _ _ Hrun (empty_world_ok uns)) as Hw. split.
  - intros s Hs. destruct (wa_obj _ _ _ _ _ _ _ Hw s Hs) as [[Hok _ Hww Hc] Hr]. do 2 (split; [done |]). split; [| done].
    intros Hr'. specialize (Hr Hr'). rewrite Hww. destruct (slept (s_ptr s) (w_sl w)); [done | simpl; lia].
  - intros E. destruct w as [ns sl]. simpl in *. subst sl. by apply teardown_empties.
Qed.

End Steps.

(** ** Witnesses *)

(** A page with one operation: take one from semaphore 0. *)
Definition take_one : list Z := [0; 0; 255; 255; 0; 0].
Definition take_mem : guest_abi * mem :=
  (GUEST_ABI_AMD64, mk_mem {[ 5 := mk_page (list_inserts 0 take_one (replicate 4096 0)) true true true ]} 1048576).
Definition one_set_ns : ipc_ns := (sys_semget_guest true (mk_ipc [] 1 None 0) plain_caller 42 1 (IPC_CREAT_ + 384)).1.
Definition slept_ns : ipc_ns := (semop_attempt ∅ true take_mem one_set_ns plain_caller 1 20480 1).1.1.
Definition demo_sleeper : sleeper := mk_sleeper 0 plain_caller [mk_op 0 (-1) 0] (mk_op 0 (-1) 0) false.

Lemma take_mem_ok : gm_ok take_mem.
Proof.
  intros n pg H. cbn [mem_pages take_mem snd] in H. apply lookup_singleton_Some in H as [_ <-].
  split; [by vm_compute |]. apply Forall_inserts; [apply Forall_replicate; unfold in_u; lia |].
  repeat constructor; lia.
Qed.

Lemma demo_run : rtc (sem_step (M := guest_abi * mem) ∅) (empty_world None) (mk_world slept_ns [demo_sleeper]).
Proof.
  apply rtc_l with (mk_world one_set_ns []); [apply St_get |]. apply rtc_once.
  apply (St_sleep ∅ true take_mem one_set_ns [] plain_caller 1 20480 1 take_one
           (mk_set 0 1 42 1000 100 1000 100 384 1 0 5 false 0 [mk_sem 0 0 0 0] []) (mk_op 0 (-1) 0) slept_ns false 0);
    [exact take_mem_ok | lia | lia | vm_compute; reflexivity | vm_compute; reflexivity | vm_compute; reflexivity | vm_compute; reflexivity | simpl; lia].
Qed.

Lemma sleeper_set_alive_witness :
  exists s, s ∈ sem_sets slept_ns /\ s_ptr s = 0%nat /\ is_Some (s_sems s !! 0%nat).
Proof. apply (sleeper_set_alive (M := guest_abi * mem) ∅ None (mk_world slept_ns [demo_sleeper]) demo_sleeper demo_run). left. Defined.

Lemma no_lost_wakeup_witness :
  exists s, s ∈ sem_sets slept_ns /\ s_ptr s = 0%nat /\ s_removed s = false /\ seq_ops (map val (s_sems s)) [mk_op 0 (-1) 0] = None.
Proof.
  apply (no_lost_wakeup (M := guest_abi * mem) ∅ None (mk_world slept_ns [demo_sleeper]) demo_sleeper demo_run); [left | reflexivity].
Defined.

Lemma sem_namespace_ok_witness :
  exists s, s ∈ sem_sets slept_ns /\ set_ok s /\ s_waiters s = 1.
Proof.
  assert (sem_sets slept_ns = [mk_set 0 1 42 1000 100 1000 100 384 1 0 5 false 1 [mk_sem 0 0 1 0] []]) as E by (vm_compute; reflexivity).
  destruct (sem_namespace_ok (M := guest_abi * mem) ∅ None (mk_world slept_ns [demo_sleeper]) demo_run) as [H _].
  cbn [w_ns] in H. rewrite E in H. rewrite E. eexists. split; [left |]. destruct (H _ ltac:(left)) as (H1 & H2 & _). split; [exact H1 | exact H2].
Defined.

(** ** What the permission bits do not cover *)

(** A set of mode 0600 whose owner and creator is uid 1000, and a process of
    uid 2000 without capabilities: semop and IPC_RMID refuse it, and SETVAL,
    IPC_SET and GETVAL do what it asks; after its IPC_SET it is the owner. *)
Theorem semctl_skips_permission :
  let stranger := mk_scaller (mk_ctask None 2000 200 [0; 0]) 9 90 6 in
  let perm := (GUEST_ABI_AMD64, mk_mem {[ 5 := mk_page (list_inserts 4 (le_bytes 4 2000 ++ le_bytes 4 200) (replicate 4096 0)) true true true ]} 1048576) in
  let ctl c ns cmd arg := sys_semctl_guest ∅ (fun p => p) perm GUEST_ABI_AMD64 ns c 1 0 cmd arg in
  (semop_attempt ∅ true take_mem one_set_ns stranger 1 20480 1).2 = Returned _EACCES /\
  (ctl stranger one_set_ns IPC_RMID_ 0).2 = _EPERM /\
  (ctl stranger one_set_ns GETVAL_ 0).2 = 0 /\
  (ctl stranger one_set_ns SETVAL_ 9).2 = 0 /\
  map (fun s => map val (s_sems s)) (sem_sets (ctl stranger one_set_ns SETVAL_ 9).1.1.2) = [[9]] /\
  (ctl stranger one_set_ns IPC_SET_ 20480).2 = 0 /\
  map s_uid (sem_sets (ctl stranger one_set_ns IPC_SET_ 20480).1.1.2) = [2000] /\
  (ctl stranger (ctl stranger one_set_ns IPC_SET_ 20480).1.1.2 IPC_RMID_ 0).2 = 0.
Proof. vm_compute. repeat split. Qed.
