(* ===== verification/MsgQueue.v ===== *)
(** * System V message queues (kernel/sysvmsg.c)

    A namespace's message queues.  Every call is one step under the namespace's
    lock; a msgsnd or msgrcv that has to wait is split where it sleeps, into the
    turn that went to sleep and the one after it woke ([msgsnd_wake],
    [msgrcv_wake]).  The theorems of this file concern one queue: [msg_pick]
    finds the message msgrcv(2) describes, which is always the oldest of its
    type, and the counters of a queue are those of its messages.  MsgWorld.v
    interleaves the calls. *)

From Stdlib Require Import ZifyBool.
From S2P Require Import Prelude User UserNs Ipc Waits.

Definition MSG_STAT_ := 11.
Definition MSG_STAT_ANY_ := 13.
Definition MSG_NOERROR_ := 4096.
Definition MSG_EXCEPT_ := 8192.
Definition MSG_COPY_ := 16384.
Definition MSGMAX_ := 8192.
Definition MSGMNB_ := 16384.

Record msg_msg := mk_msg { m_type : Z; m_size : Z; m_data : list Z }.

(** [struct msg_queue]; [q_ptr] is its address. *)
Record msg_queue := mk_queue {
  q_ptr : nat; q_id : Z; q_key : Z; q_uid : Z; q_gid : Z; q_cuid : Z; q_cgid : Z; q_mode : Z;
  q_cbytes : Z; q_qnum : Z; q_qbytes : Z; q_lspid : Z; q_lrpid : Z; q_stime : Z; q_rtime : Z; q_ctime : Z;
  q_removed : bool; q_waiters : Z; q_messages : list msg_msg }.

(** What the calls use of [struct ipc_namespace]. *)
Record msg_ns := mk_mns { msg_queues : list msg_queue; msg_next_id : Z; msg_user_ns : option nat; msg_next_ptr : nat }.

Definition add_waiters (d : Z) (q : msg_queue) : msg_queue :=
  mk_queue (q_ptr q) (q_id q) (q_key q) (q_uid q) (q_gid q) (q_cuid q) (q_cgid q) (q_mode q) (q_cbytes q) (q_qnum q) (q_qbytes q)
    (q_lspid q) (q_lrpid q) (q_stime q) (q_rtime q) (q_ctime q) (q_removed q) (u32 (q_waiters q + d)) (q_messages q).
Definition remove_queue (q : msg_queue) : msg_queue :=
  mk_queue (q_ptr q) (q_id q) (q_key q) (q_uid q) (q_gid q) (q_cuid q) (q_cgid q) (q_mode q) (q_cbytes q) (q_qnum q) (q_qbytes q)
    (q_lspid q) (q_lrpid q) (q_stime q) (q_rtime q) (q_ctime q) true (q_waiters q) (q_messages q).
(** What IPC_SET sets. *)
Definition set_queue (u g mode qbytes now : Z) (q : msg_queue) : msg_queue :=
  mk_queue (q_ptr q) (q_id q) (q_key q) u g (q_cuid q) (q_cgid q) mode (q_cbytes q) (q_qnum q) qbytes
    (q_lspid q) (q_lrpid q) (q_stime q) (q_rtime q) now (q_removed q) (q_waiters q) (q_messages q).
(** A message at the tail, and its sender and time; a message taken out, and its receiver. *)
Definition enqueue (c : scaller) (msg : msg_msg) (q : msg_queue) : msg_queue :=
  mk_queue (q_ptr q) (q_id q) (q_key q) (q_uid q) (q_gid q) (q_cuid q) (q_cgid q) (q_mode q)
    (u64 (q_cbytes q + m_size msg)) (u64 (q_qnum q + 1)) (q_qbytes q)
    (sc_tgid c) (q_lrpid q) (sc_now c) (q_rtime q) (q_ctime q) (q_removed q) (q_waiters q) (q_messages q ++ [msg]).
Definition dequeue (c : scaller) (i : nat) (msg : msg_msg) (q : msg_queue) : msg_queue :=
  mk_queue (q_ptr q) (q_id q) (q_key q) (q_uid q) (q_gid q) (q_cuid q) (q_cgid q) (q_mode q)
    (u64 (q_cbytes q - m_size msg)) (u64 (q_qnum q - 1)) (q_qbytes q)
    (q_lspid q) (sc_tgid c) (q_stime q) (sc_now c) (q_ctime q) (q_removed q) (q_waiters q) (delete i (q_messages q)).

(** ** Finding, making and freeing queues *)

Definition msg_find_by_key (ns : msg_ns) (key : Z) : option msg_queue :=
  List.find (fun q => negb (q_removed q) && (q_key q =? key)) (msg_queues ns).

Definition msg_find_by_id (ns : msg_ns) (id : Z) : option msg_queue :=
  List.find (fun q => negb (q_removed q) && (q_id q =? id)) (msg_queues ns).

(** The queue at an address, written or taken out. *)
Definition put_queue (ns : msg_ns) (q : msg_queue) : msg_ns :=
  mk_mns (put_obj q_ptr (msg_queues ns) q) (msg_next_id ns) (msg_user_ns ns) (msg_next_ptr ns).
Definition drop_queue (ns : msg_ns) (q : msg_queue) : msg_ns :=
  mk_mns (drop_obj q_ptr (msg_queues ns) q) (msg_next_id ns) (msg_user_ns ns) (msg_next_ptr ns).

Definition msg_queue_maybe_free (ns : msg_ns) (q : msg_queue) : msg_ns :=
  if negb (q_removed q) || negb (q_waiters q =? 0) then put_queue ns q else drop_queue ns q.

Definition sys_msgget_guest (alloc_ok : bool) (ns : msg_ns) (c : scaller) (key msgflg : Z) : msg_ns * Z :=
  match (if key =? IPC_PRIVATE_ then None else msg_find_by_key ns key) with
  | Some q => if has_flag msgflg IPC_CREAT_ && has_flag msgflg IPC_EXCL_ then (ns, _EEXIST) else (ns, q_id q)
  | None =>
      if negb (has_flag msgflg IPC_CREAT_) && negb (key =? IPC_PRIVATE_) then (ns, _ENOENT) else
      if negb alloc_ok then (ns, _ENOMEM) else
      let e := ct_euid (sc_task c) in
      let g := ct_egid (sc_task c) in
      let q := mk_queue (msg_next_ptr ns) (msg_next_id ns) key e g e g (msgflg .& 511) 0 0 MSGMNB_ 0 0 0 0 (sc_now c) false 0 [] in
      (mk_mns (msg_queues ns ++ [q]) (s32 (msg_next_id ns + 1)) (msg_user_ns ns) (S (msg_next_ptr ns)), msg_next_id ns)
  end.

(** ** Choosing a message *)

(** msg_pick: the loop over the messages from position [i], [best] being the
    best one so far and its position.  [-msgtyp] is a 64-bit negation. *)
Fixpoint msg_pick_from (msgtyp : Z) (except : bool) (msgs : list msg_msg) (i : nat) (best : option (nat * msg_msg)) : option (nat * msg_msg) :=
  match msgs with
  | [] => best
  | msg :: rest =>
      if msgtyp =? 0 then Some (i, msg) else
      if msgtyp >? 0 then
        if except then if negb (m_type msg =? msgtyp) then Some (i, msg) else msg_pick_from msgtyp except rest (S i) best
        else if m_type msg =? msgtyp then Some (i, msg) else msg_pick_from msgtyp except rest (S i) best
      else
        let best := if (m_type msg <=? s64 (- msgtyp)) && match best with None => true | Some (_, b) => m_type msg <? m_type b end
                    then Some (i, msg) else best in
        msg_pick_from msgtyp except rest (S i) best
  end.

Definition msg_pick (q : msg_queue) (msgtyp msgflg : Z) : option (nat * msg_msg) :=
  msg_pick_from msgtyp (has_flag msgflg MSG_EXCEPT_) (q_messages q) 0 None.

(** ** Sending *)

(** How a turn of a call ended: with a result, or asleep. *)
Inductive outcome := Done (res : Z) | Asleep.

(** msgsnd's loop up to the sleep, then the rest of the call: with the message
    that was queued, if it was (then the receivers are notified). *)
Definition msgsnd_turn (c : scaller) (q : msg_queue) (msg : msg_msg) (msgflg : Z) : msg_queue * option msg_msg * outcome :=
  if u64 (q_cbytes q + m_size msg) >? q_qbytes q then
    if has_flag msgflg IPC_NOWAIT_ then (q, None, Done _EAGAIN) else (add_waiters 1 q, None, Asleep)
  else (enqueue c msg q, Some msg, Done 0).

(** After wait_for_blocked returned [err] to a sender. *)
Definition msgsnd_wake (resume : bool) (ns : msg_ns) (c : scaller) (q : msg_queue) (msg : msg_msg) (msgflg err : Z)
    : msg_ns * option msg_msg * outcome :=
  let q := add_waiters (-1) q in
  if q_removed q then (msg_queue_maybe_free ns q, None, Done _EIDRM) else
  if err <? 0 then (put_queue ns q, None, Done (signal_restart_or_eintr_nohand resume _EINTR)) else
  let '(q', put, r) := msgsnd_turn c q msg msgflg in (put_queue ns q', put, r).

(** ** Receiving *)

(** msgrcv's loop up to the sleep, then the rest of the call under the lock:
    with the message taken out, if one was (then the senders are notified). *)
Definition msgrcv_turn (c : scaller) (q : msg_queue) (msgsz msgtyp msgflg : Z) : msg_queue * option msg_msg * outcome :=
  match msg_pick q msgtyp msgflg with
  | None => if has_flag msgflg IPC_NOWAIT_ then (q, None, Done _ENOMSG) else (add_waiters 1 q, None, Asleep)
  | Some (i, msg) =>
      if (m_size msg >? msgsz) && negb (has_flag msgflg MSG_NOERROR_) then (q, None, Done _E2BIG)
      else (dequeue c i msg q, Some msg, Done 0)
  end.

Definition msgrcv_wake (resume : bool) (ns : msg_ns) (c : scaller) (q : msg_queue) (msgsz msgtyp msgflg err : Z)
    : msg_ns * option msg_msg * outcome :=
  let q := add_waiters (-1) q in
  if q_removed q then (msg_queue_maybe_free ns q, None, Done _EIDRM) else
  if err <? 0 then (put_queue ns q, None, Done (signal_restart_or_eintr_nohand resume _EINTR)) else
  let '(q', got, r) := msgrcv_turn c q msgsz msgtyp msgflg in (put_queue ns q', got, r).

Section Calls.
Context {M : Type} `{GuestMemory M} (t : ns_table).

Definition msg_read_from_guest (alloc_ok : bool) (m : M) (abi : guest_abi) (msgp msgsz : Z) : Z + msg_msg :=
  let long_size := if guest_abi_is_64bit abi then 8 else 4 in
  match user_read m msgp long_size with
  | None => inl _EFAULT
  | Some bs =>
      let type := if guest_abi_is_64bit abi then s64 (le_num bs) else s32 (le_num bs) in
      if negb alloc_ok then inl _ENOMEM else
      if msgsz >? 0 then
        match user_read m (u64 (msgp + long_size)) msgsz with
        | None => inl _EFAULT
        | Some data => inr (mk_msg type msgsz data)
        end
      else inr (mk_msg type msgsz [])
  end.

(** sys_msgsnd_guest up to its first sleep. *)
Definition msgsnd_attempt (alloc_ok : bool) (m : M) (abi : guest_abi) (ns : msg_ns) (c : scaller) (msqid msgp msgsz msgflg : Z)
    : msg_ns * option msg_msg * outcome :=
  if msgsz >? MSGMAX_ then (ns, None, Done _EINVAL) else
  match msg_read_from_guest alloc_ok m abi msgp msgsz with
  | inl err => (ns, None, Done err)
  | inr msg =>
      if m_type msg <? 1 then (ns, None, Done _EINVAL) else
      match msg_find_by_id ns msqid with
      | None => (ns, None, Done _EINVAL)
      | Some q =>
          if negb (ipc_access_ok t (msg_user_ns ns) c (q_uid q) (q_gid q) (q_cuid q) (q_cgid q) (q_mode q) 2) then (ns, None, Done _EACCES) else
          let '(q', put, r) := msgsnd_turn c q msg msgflg in (put_queue ns q', put, r)
      end
  end.

(** sys_msgrcv_guest up to its first sleep or its unlock. *)
Definition msgrcv_attempt (ns : msg_ns) (c : scaller) (msqid msgsz msgtyp msgflg : Z) : msg_ns * option msg_msg * outcome :=
  if has_flag msgflg MSG_COPY_ then (ns, None, Done _EINVAL) else
  match msg_find_by_id ns msqid with
  | None => (ns, None, Done _EINVAL)
  | Some q =>
      if negb (ipc_access_ok t (msg_user_ns ns) c (q_uid q) (q_gid q) (q_cuid q) (q_cgid q) (q_mode q) 4) then (ns, None, Done _EACCES) else
      let '(q', got, r) := msgrcv_turn c q msgsz msgtyp msgflg in (put_queue ns q', got, r)
  end.

(** The end of sys_msgrcv_guest, after the unlock: the message it took out is
    copied to the guest. *)
Definition msg_deliver (m : M) (abi : guest_abi) (msgp msgsz : Z) (msg : msg_msg) : M * Z :=
  let copy_size := if m_size msg >? msgsz then msgsz else m_size msg in
  let long_size := if guest_abi_is_64bit abi then 8 else 4 in
  let '(m1, ok) := user_write m msgp (le_bytes (Z.to_nat long_size) (m_type msg)) in
  if negb ok then (m1, _EFAULT) else
  if copy_size >? 0 then
    let '(m2, ok) := user_write m1 (u64 (msgp + long_size)) (take (Z.to_nat copy_size) (m_data msg)) in
    (m2, if ok then s32 copy_size else _EFAULT)
  else (m1, s32 copy_size).

(** ** msgctl *)

(** struct msqid64_ds of the caller's ABI. *)
Definition msqid_bytes (abi : guest_abi) (shown_uid shown_gid pid_shown : Z -> Z) (q : msg_queue) : list Z :=
  let ids := le_bytes 4 (q_key q) ++ le_bytes 4 (shown_uid (q_uid q)) ++ le_bytes 4 (shown_gid (q_gid q)) ++
             le_bytes 4 (shown_uid (q_cuid q)) ++ le_bytes 4 (shown_gid (q_cgid q)) in
  let pids := le_bytes 4 (pid_shown (q_lspid q)) ++ le_bytes 4 (pid_shown (q_lrpid q)) in
  if guest_abi_is_64bit abi then
    ids ++ le_bytes 2 (q_mode q) ++ replicate 26 0 ++
    le_bytes 8 (q_stime q) ++ le_bytes 8 (q_rtime q) ++ le_bytes 8 (q_ctime q) ++
    le_bytes 8 (q_cbytes q) ++ le_bytes 8 (q_qnum q) ++ le_bytes 8 (q_qbytes q) ++ pids ++ replicate 16 0
  else
    ids ++ le_bytes 4 (q_mode q) ++ replicate 12 0 ++
    le_bytes 4 (q_stime q) ++ le_bytes 4 0 ++ le_bytes 4 (q_rtime q) ++ le_bytes 4 0 ++ le_bytes 4 (q_ctime q) ++ le_bytes 4 0 ++
    le_bytes 4 (q_cbytes q) ++ le_bytes 4 (q_qnum q) ++ le_bytes 4 (q_qbytes q) ++ pids ++ replicate 8 0.

(** IPC_SET: the ids as kernel ids, the mode and the capacity. *)
Definition read_msqid (m : M) (abi : guest_abi) (c : scaller) (buf : Z) : Z + (Z * Z * Z * Z) :=
  let fields :=
    if guest_abi_is_64bit abi then
      match user_read m buf 120 with
      | Some bs => Some (le_num (field 4 4 bs), le_num (field 8 4 bs), le_num (field 20 2 bs), le_num (field 88 8 bs)) | None => None end
    else
      match user_read m buf 88 with
      | Some bs => Some (le_num (field 4 4 bs), le_num (field 8 4 bs), u16 (le_num (field 20 4 bs)), le_num (field 68 4 bs)) | None => None end in
  match fields with
  | None => inl _EFAULT
  | Some (u, g, mode, qbytes) =>
      let u := user_ns_make_kid false t (ct_ns (sc_task c)) u in
      let g := user_ns_make_kid true t (ct_ns (sc_task c)) g in
      if (u =? USER_NS_INVALID_ID) || (g =? USER_NS_INVALID_ID) then inl _EINVAL else inr (u, g, mode .& 511, qbytes)
  end.

(** Which condition variables a msgctl notifies. *)
Inductive wakes := NoWakes | WakeSenders | WakeAll.

Definition sys_msgctl_guest (pid_shown : Z -> Z) (m : M) (abi : guest_abi) (ns : msg_ns) (c : scaller) (msqid cmd buf : Z)
    : M * msg_ns * wakes * Z :=
  let cmd_base := cmd .& Z.lnot IPC_64_ in
  if cmd_base =? IPC_INFO_ then (m, ns, NoWakes, _EINVAL) else
  match msg_find_by_id ns msqid with
  | None => (m, ns, NoWakes, _EINVAL)
  | Some q =>
      if cmd_base =? IPC_RMID_ then
        if negb (ipc_owner_ok t (msg_user_ns ns) c (q_uid q) (q_cuid q)) then (m, ns, NoWakes, _EPERM)
        else (m, msg_queue_maybe_free ns (remove_queue q), WakeAll, 0)
      else if cmd_base =? IPC_SET_ then
        if negb (ipc_owner_ok t (msg_user_ns ns) c (q_uid q) (q_cuid q)) then (m, ns, NoWakes, _EPERM) else
        match read_msqid m abi c buf with
        | inl err => (m, ns, NoWakes, err)
        | inr (u, g, mode, qbytes) => (m, put_queue ns (set_queue u g mode qbytes (sc_now c) q), WakeSenders, 0)
        end
      else if (cmd_base =? IPC_STAT_) || (cmd_base =? MSG_STAT_) || (cmd_base =? MSG_STAT_ANY_) then
        let shown g := user_ns_from_kid_munged g t (ct_ns (sc_task c)) in
        let '(m, ok) := user_write m buf (msqid_bytes abi (shown false) (shown true) pid_shown q) in
        (m, ns, NoWakes, if ok then 0 else _EFAULT)
      else (m, ns, NoWakes, _EINVAL)
  end.

End Calls.

(** The namespace goes: every queue is removed. *)
Definition msg_ns_teardown (ns : msg_ns) : msg_ns :=
  fold_left (fun ns q => msg_queue_maybe_free ns (remove_queue q)) (msg_queues ns) ns.

(** ** What msgrcv(2) says of the message received *)

(** The messages a msgtyp lets in, and the order among them: by type for a
    negative msgtyp, then by age. *)
Definition eligible (msgtyp : Z) (except : bool) (m : msg_msg) : bool :=
  if msgtyp =? 0 then true else
  if msgtyp >? 0 then (if except then negb (m_type m =? msgtyp) else m_type m =? msgtyp) else
  m_type m <=? s64 (- msgtyp).

Definition rank (msgtyp : Z) (m : msg_msg) : Z := if msgtyp <? 0 then m_type m else 0.

(** Message [m] at [k] comes before every eligible message of [msgs]. *)
Definition comes_first (msgtyp : Z) (except : bool) (msgs : list msg_msg) (k : nat) (m : msg_msg) : Prop :=
  msgs !! k = Some m /\ eligible msgtyp except m = true /\
  forall j m', msgs !! j = Some m' -> eligible msgtyp except m' = true ->
    rank msgtyp m < rank msgtyp m' \/ (rank msgtyp m = rank msgtyp m' /\ (k <= j)%nat).

Definition none_eligible (msgtyp : Z) (except : bool) (msgs : list msg_msg) : Prop :=
  forall j m, msgs !! j = Some m -> eligible msgtyp except m = false.

Lemma pick_first msgtyp except msgs i :
  0 <= msgtyp ->
  match msg_pick_from msgtyp except msgs i None with
  | None => none_eligible msgtyp except msgs
  | Some (k, m) => exists j, k = (i + j)%nat /\ comes_first msgtyp except msgs j m
  end.
Proof.
  intros Ht. revert i. induction msgs as [| x msgs IH]; intros i; [by intros j m Hj |].
  assert (msg_pick_from msgtyp except (x :: msgs) i None =
          if eligible msgtyp except x then Some (i, x) else msg_pick_from msgtyp except msgs (S i) None) as ->.
  { simpl. unfold eligible. destruct (Z.eqb_spec msgtyp 0); [done |]. destruct (Z.gtb_spec msgtyp 0); [by destruct except | lia]. }
  destruct (eligible msgtyp except x) eqn:Ex.
  - exists 0%nat. split; [lia |]. split; [done |]. split; [done |]. intros j m' _ _. right. unfold rank.
    split; [destruct (Z.ltb_spec msgtyp 0); [lia | done] | lia].
  - specialize (IH (S i)). destruct (msg_pick_from msgtyp except msgs (S i) None) as [[k m] |].
    + destruct IH as (j & -> & H1 & H2 & H3). exists (S j). split; [lia |]. split; [done |]. split; [done |].
      intros [| j'] m' Hm' He; simpl in Hm'; [congruence |]. destruct (H3 j' m' Hm' He) as [|[? ?]]; [by left | right; split; [done | lia]].
    + intros [| j] m Hm; simplify_eq/=; [done | by apply (IH j)].
Qed.

Lemma pick_lowest msgtyp except msgs i best :
  msgtyp < 0 ->
  let r := msg_pick_from msgtyp except msgs i best in
  (r = best /\ forall j m, msgs !! j = Some m -> eligible msgtyp except m = true -> match best with Some (_, b) => m_type b <= m_type m | None => False end) \/
  exists k m, r = Some ((i + k)%nat, m) /\ comes_first msgtyp except msgs k m /\ match best with Some (_, b) => m_type m < m_type b | None => True end.
Proof.
  intros Ht. revert i best. induction msgs as [| x msgs IH]; intros i best r; [left; split; [done |]; by intros j m Hj |].
  assert (forall m, rank msgtyp m = m_type m) as Hrk by (intros m; unfold rank; destruct (Z.ltb_spec msgtyp 0); [done | lia]).
  set (better := eligible msgtyp except x && match best with None => true | Some (_, b) => m_type x <? m_type b end).
  assert (r = msg_pick_from msgtyp except msgs (S i) (if better then Some (i, x) else best)) as ->.
  { unfold r, better, eligible. simpl. destruct (Z.eqb_spec msgtyp 0); [lia |]. destruct (Z.gtb_spec msgtyp 0); [lia |]. done. }
  destruct (IH (S i) (if better then Some (i, x) else best)) as [[-> Hle] | (k & m & -> & (H1 & H2 & H3) & Hb)]; clear IH.
  - destruct better eqn:Eb; unfold better in Eb; [right; exists 0%nat, x | left].
    + apply andb_true_iff in Eb as [Ex Ebb]. split; [by rewrite Nat.add_0_r |]. split; [| destruct best as [[? b] |]; [lia | done]].
      split; [done |]. split; [done |]. intros [| j] m' Hm' He; simplify_eq/=; rewrite !Hrk; [right; split; [done | lia] |].
      specialize (Hle j m' Hm' He). simpl in Hle. lia.
    + split; [done |]. intros [| j] m' Hm' He; simplify_eq/=; [| by apply (Hle j)]. rewrite He in Eb. simpl in Eb. destruct best as [[? b] |]; [lia | done].
  - right. exists (S k), m. split; [f_equal; f_equal; lia |]. split.
    + split; [done |]. split; [done |]. intros [| j] m' Hm' He; simplify_eq/=.
      * unfold better in Hb. rewrite He in Hb. rewrite !Hrk. left. simpl in Hb. destruct best as [[? b] |]; simpl in Hb; [| done].
        destruct (Z.ltb_spec (m_type m') (m_type b)); simpl in Hb; lia.
      * destruct (H3 j m' Hm' He) as [| [? ?]]; [by left | right; split; [done | lia]].
    + destruct better eqn:Eb; unfold better in Eb; [| done]. destruct best as [[? b] |]; [| done]. simpl in *. lia.
Qed.

Lemma pick_cases q msgtyp msgflg :
  match msg_pick q msgtyp msgflg with
  | None => none_eligible msgtyp (has_flag msgflg MSG_EXCEPT_) (q_messages q)
  | Some (i, m) => comes_first msgtyp (has_flag msgflg MSG_EXCEPT_) (q_messages q) i m
  end.
Proof.
  unfold msg_pick. set (ex := has_flag msgflg MSG_EXCEPT_). destruct (Z.lt_ge_cases msgtyp 0) as [Ht | Ht].
  - destruct (pick_lowest msgtyp ex (q_messages q) 0 None Ht) as [[-> Hn] | (k & m & -> & Hc & _)]; [| done].
    intros j m Hm. apply not_true_iff_false. intros He. by apply (Hn j m).
  - pose proof (pick_first msgtyp ex (q_messages q) 0 Ht) as Hp. destruct (msg_pick_from _ _ _ _ _) as [[k m] |]; [| done].
    by destruct Hp as (j & -> & Hc).
Qed.

(** Eligibility and rank look at the type only, so the message picked is the
    oldest of its type. *)
Lemma pick_oldest q msgtyp msgflg i m :
  msg_pick q msgtyp msgflg = Some (i, m) ->
  q_messages q !! i = Some m /\ forall j m', q_messages q !! j = Some m' -> m_type m' = m_type m -> (i <= j)%nat.
Proof.
  intros Hp. pose proof (pick_cases q msgtyp msgflg) as Hc. rewrite Hp in Hc. destruct Hc as (H1 & H2 & H3). split; [done |].
  intros j m' Hm' Et. destruct (H3 j m' Hm') as [Hr | [_ Hr]]; [| | done].
  - by unfold eligible in *; rewrite Et.
  - unfold rank in Hr. rewrite Et in Hr. lia.
Qed.

(** Fewer messages, still none. *)
Lemma pick_none_delete q q' msgtyp msgflg i :
  q_messages q' = delete i (q_messages q) -> msg_pick q msgtyp msgflg = None -> msg_pick q' msgtyp msgflg = None.
Proof.
  intros E Hn. pose proof (pick_cases q msgtyp msgflg) as Hc. rewrite Hn in Hc. pose proof (pick_cases q' msgtyp msgflg) as Hc'.
  destruct (msg_pick q' msgtyp msgflg) as [[k m] |]; [| done]. destruct Hc' as (H1 & H2 & _). rewrite E in H1.
  rewrite list_lookup_delete in H1. case_decide; by rewrite (Hc _ _ H1) in H2.
Qed.

(** ** What a queue holds *)

Definition sum_of (f : msg_msg -> Z) (msgs : list msg_msg) : Z := foldr (fun m n => f m + n) 0 msgs.

(** The bytes malloc gave a message: the header and the data. *)
Definition msg_footprint (m : msg_msg) : Z := 32 + m_size m.

Record msg_ok (m : msg_msg) : Prop := mk_msg_ok {
  mo_type : 1 <= m_type m < 2 ^ 63;
  mo_size : 0 <= m_size m <= MSGMAX_;
  mo_data : Z.of_nat (length (m_data m)) = m_size m }.

(** The counters are those of the messages, which fit in memory. *)
Record queue_ok (q : msg_queue) : Prop := mk_queue_ok {
  qo_msgs : Forall msg_ok (q_messages q);
  qo_cbytes : q_cbytes q = sum_of m_size (q_messages q);
  qo_qnum : q_qnum q = Z.of_nat (length (q_messages q));
  qo_fits : sum_of msg_footprint (q_messages q) < 2 ^ 63 }.

Lemma sum_of_app f l1 l2 : sum_of f (l1 ++ l2) = sum_of f l1 + sum_of f l2.
Proof. unfold sum_of. induction l1; simpl; lia. Qed.

Lemma sum_of_delete f msgs i m : msgs !! i = Some m -> sum_of f msgs = f m + sum_of f (delete i msgs).
Proof.
  intros Hm. rewrite <- (take_drop_middle msgs i m Hm) at 1. rewrite delete_take_drop, !sum_of_app. unfold sum_of at 2. simpl.
  fold (sum_of f (drop (S i) msgs)). lia.
Qed.

Lemma footprint_bounds msgs :
  Forall msg_ok msgs ->
  sum_of msg_footprint msgs = 32 * Z.of_nat (length msgs) + sum_of m_size msgs /\ 0 <= sum_of m_size msgs.
Proof. induction 1 as [| m msgs [? ? ?] _ IH]; simpl; [lia |]. unfold msg_footprint at 1. lia. Qed.

Lemma enqueue_ok c msg q :
  queue_ok q -> msg_ok msg -> sum_of msg_footprint (q_messages (enqueue c msg q)) < 2 ^ 63 ->
  queue_ok (enqueue c msg q) /\ q_cbytes (enqueue c msg q) = q_cbytes q + m_size msg.
Proof.
  intros [H1 H2 H3 H4] Hm Hf. simpl in Hf. assert (Forall msg_ok (q_messages q ++ [msg])) as Hall by (by apply Forall_app; auto).
  destruct (footprint_bounds _ Hall) as [Hb1 Hb2]. destruct (footprint_bounds _ H1) as [Hb3 Hb4]. destruct Hm as [_ Hs _].
  rewrite sum_of_app in *. simpl in *. rewrite length_app in *. simpl in *. unfold MSGMAX_ in Hs.
  split; [split; simpl; [done | | |] |]; rewrite ?sum_of_app, ?length_app; simpl; try rewrite u64_small; lia.
Qed.

Lemma dequeue_ok c i msg q :
  queue_ok q -> q_messages q !! i = Some msg -> queue_ok (dequeue c i msg q).
Proof.
  intros [H1 H2 H3 H4] Hi. assert (msg_ok msg) as [_ Hs _] by (by eapply Forall_lookup_1).
  assert (Forall msg_ok (delete i (q_messages q))) as Hd by (by apply Forall_delete).
  destruct (footprint_bounds _ H1) as [Hb1 Hb2]. destruct (footprint_bounds _ Hd) as [Hb3 Hb4].
  pose proof (sum_of_delete m_size _ _ _ Hi) as Es. pose proof (sum_of_delete msg_footprint _ _ _ Hi) as Ef.
  pose proof (length_delete _ i ltac:(by eexists)) as El. pose proof (lookup_lt_Some _ _ _ Hi) as Hlt. unfold msg_footprint at 2 in Ef.
  split; simpl; [done | | |]; try rewrite u64_small; lia.
Qed.

Lemma filter_none (P : msg_msg -> Prop) `{forall x, Decision (P x)} l : (forall x, x ∈ l -> ~ P x) -> filter P l = [].
Proof.
  induction l as [| x l IH]; intros Hl; [done |]. rewrite filter_cons_False by (apply Hl; left). apply IH. intros y Hy. apply Hl. by right.
Qed.

(** Taking out the oldest message of its type, seen type by type. *)
Lemma delete_oldest msgs i m T :
  msgs !! i = Some m -> (forall j m', msgs !! j = Some m' -> m_type m' = m_type m -> (i <= j)%nat) ->
  filter (fun x => m_type x = T) msgs =
  filter (fun x => m_type x = T) [m] ++ filter (fun x => m_type x = T) (delete i msgs).
Proof.
  intros Hi Hold. rewrite <- (take_drop_middle msgs i m Hi) at 1. rewrite delete_take_drop, !filter_app.
  destruct (decide (m_type m = T)) as [<- | Hne].
  - assert (filter (fun x => m_type x = m_type m) (take i msgs) = []) as ->.
    { apply filter_none. intros x Hx Et. apply list_elem_of_lookup in Hx as [j Hx]. apply lookup_take_Some in Hx as [Hx Hlt]. specialize (Hold j x Hx Et). lia. }
    by rewrite !filter_cons_True, filter_nil.
  - by rewrite !filter_cons_False, filter_nil.
Qed.

Section Read.
Context {M : Type} `{GuestMemoryOk M}.

Lemma read_guest_ok alloc (m : M) abi msgp msgsz msg :
  gm_ok m -> 0 <= msgp -> 0 <= msgsz <= MSGMAX_ -> msg_read_from_guest alloc m abi msgp msgsz = inr msg -> 1 <= m_type msg -> msg_ok msg.
Proof.
  intros Hm Hp Hs Hr Ht. unfold msg_read_from_guest in Hr. destruct (user_read m msgp _) as [bs |]; [| done].
  destruct alloc; [| done]. cbn [negb] in Hr.
  assert (forall x, 1 <= (if guest_abi_is_64bit abi then s64 x else s32 x) ->
            1 <= (if guest_abi_is_64bit abi then s64 x else s32 x) < 2 ^ 63) as Hty.
  { intros x Hx. split; [done |]. destruct (guest_abi_is_64bit abi).
    - by destruct (swrap_range 64 x ltac:(lia)).
    - destruct (swrap_range 32 x ltac:(lia)) as [_ Hlt]. eapply Z.lt_trans; [exact Hlt | done]. }
  destruct (Z.gtb_spec msgsz 0).
  - destruct (user_read m (u64 _) msgsz) as [data |] eqn:Ed; simplify_eq. simpl in Ht.
    assert (0 <= u64 (msgp + (if guest_abi_is_64bit abi then 8 else 4))) as Hu by (apply wrap_range; lia).
    destruct (user_read_bytes m _ msgsz data Hm Hu ltac:(lia) Ed) as [Hl _].
    split; simpl; [by apply Hty | done | lia].
  - simplify_eq. simpl in *. split; simpl; [by apply Hty | done | lia].
Qed.
End Read.

(** ** Properties *)

(** Msgrcv answers by what it finds. On a queue whose counters are right,
    the message taken out is the one msgrcv(2) names: the first, the first of
    (or not of) the type asked for, or for a negative msgtyp the oldest of the
    lowest type up to |msgtyp|; it fits the buffer or MSG_NOERROR was given, and
    exactly it leaves the list and the counters. ENOMSG and the sleep happen
    only when no message is eligible, by IPC_NOWAIT, and E2BIG only when the
    message chosen is too long; none of them changes the messages. *)
Theorem msgrcv_selects c q msgsz msgtyp msgflg :
  queue_ok q ->
  let ex := has_flag msgflg MSG_EXCEPT_ in
  match msgrcv_turn c q msgsz msgtyp msgflg with
  | (q', Some m, Done r) =>
      r = 0 /\ (m_size m <= msgsz \/ has_flag msgflg MSG_NOERROR_ = true) /\
      exists i, comes_first msgtyp ex (q_messages q) i m /\ q_messages q' = delete i (q_messages q) /\
        q_cbytes q' = q_cbytes q - m_size m /\ q_qnum q' = q_qnum q - 1 /\ queue_ok q'
  | (q', None, Done r) =>
      q' = q /\ ((r = _ENOMSG /\ has_flag msgflg IPC_NOWAIT_ = true /\ none_eligible msgtyp ex (q_messages q)) \/
                 (r = _E2BIG /\ has_flag msgflg MSG_NOERROR_ = false /\ exists i m, comes_first msgtyp ex (q_messages q) i m /\ msgsz < m_size m))
  | (q', None, Asleep) =>
      has_flag msgflg IPC_NOWAIT_ = false /\ none_eligible msgtyp ex (q_messages q) /\ q_messages q' = q_messages q /\ queue_ok q'
  | (_, Some _, Asleep) => False
  end.
Proof.
  intros Hq ex. unfold msgrcv_turn. pose proof (pick_cases q msgtyp msgflg) as Hc. destruct (msg_pick q msgtyp msgflg) as [[i m] |].
  - destruct (Z.gtb_spec (m_size m) msgsz) as [Hlt | Hle]; [destruct (has_flag msgflg MSG_NOERROR_) eqn:En |]; cbn [negb andb].
    2: { split; [done |]. right. do 2 (split; [done |]). eauto. }
    all: (split; [done |]; split; [by auto |]; exists i; split; [done |]; split; [done |]); pose proof (dequeue_ok c i m q Hq (proj1 Hc)) as Hd;
      destruct Hd as [D1 D2 D3 D4]; pose proof (sum_of_delete m_size _ _ _ (proj1 Hc)) as Es; pose proof (lookup_lt_Some _ _ _ (proj1 Hc)) as Hl;
      pose proof (length_delete (q_messages q) i ltac:(by eexists; apply Hc)) as El;
      pose proof (qo_cbytes q Hq); pose proof (qo_qnum q Hq); rewrite D2, D3; simpl; split; [lia | split; [lia | by split]].
  - destruct (has_flag msgflg IPC_NOWAIT_) eqn:En; [by auto |]. do 2 (split; [done |]). split; [done |]. by destruct Hq; split.
Qed.

(** The lowest msgtyp selects nothing. [-msgtyp] of the lowest 64-bit
    number is that number again, no message type is at most it, and a msgrcv
    with it sleeps whatever the queue holds. *)
Theorem long_min_receives_nothing q msgflg :
  queue_ok q -> msg_pick q (- 2 ^ 63) msgflg = None.
Proof.
  intros Hq. pose proof (pick_cases q (- 2 ^ 63) msgflg) as Hc. destruct (msg_pick q (- 2 ^ 63) msgflg) as [[i m] |]; [| done].
  destruct Hc as (H1 & H2 & _). destruct (Forall_lookup_1 _ _ _ _ (qo_msgs q Hq) H1) as [Ht _ _].
  assert (s64 (- - 2 ^ 63) = - 2 ^ 63) as E by (vm_compute; reflexivity). unfold eligible in H2. rewrite E in H2.
  replace (- 2 ^ 63 =? 0) with false in H2 by done. replace (- 2 ^ 63 >? 0) with false in H2 by done. lia.
Qed.

(** ** Witnesses *)

Definition msg_caller : scaller := mk_scaller (mk_ctask None 1000 100 [0; 0]) 7 70 5.
Definition three_messages : msg_queue :=
  mk_queue 0 1 42 1000 100 1000 100 384 6 3 MSGMNB_ 7 0 5 0 5 false 0 [mk_msg 5 2 [1; 2]; mk_msg 3 4 [3; 4; 5; 6]; mk_msg 3 0 []].

Lemma three_messages_ok : queue_ok three_messages.
Proof. split; [| done | done | done]. repeat constructor; unfold MSGMAX_; simpl; lia. Qed.

Lemma msgrcv_selects_witness :
  exists q', msgrcv_turn msg_caller three_messages 16 (-4) 0 = (q', Some (mk_msg 3 4 [3; 4; 5; 6]), Done 0) /\
    q_messages q' = [mk_msg 5 2 [1; 2]; mk_msg 3 0 []] /\ queue_ok q'.
Proof.
  eexists. split; [vm_compute; reflexivity |]. split; [reflexivity |].
  pose proof (msgrcv_selects msg_caller three_messages 16 (-4) 0 three_messages_ok) as H. cbv zeta in H.
  assert (exists q', msgrcv_turn msg_caller three_messages 16 (-4) 0 = (q', Some (mk_msg 3 4 [3; 4; 5; 6]), Done 0)) as [q' E] by (eexists; vm_compute; reflexivity).
  pose proof E as E'. rewrite E in H. vm_compute in E'. injection E' as <-. destruct H as (_ & _ & i & _ & _ & _ & _ & H). exact H.
Defined.

Lemma long_min_receives_nothing_witness :
  msg_pick three_messages (- 2 ^ 63) 0 = None /\ msg_pick three_messages (- 2 ^ 63 + 1) 0 = Some (1%nat, mk_msg 3 4 [3; 4; 5; 6]).
Proof. split; [exact (long_min_receives_nothing three_messages 0 three_messages_ok) | vm_compute; reflexivity]. Defined.
