(* ===== verification/MsgWorld.v ===== *)
(** * Message queues, their senders and receivers (kernel/sysvmsg.c)

    The calls of MsgQueue.v interleaved: a world is a namespace and the calls
    asleep in it, and a step is one call up to its return or its sleep, or one
    sleeper waking, for any reason.  A step says which message entered or left
    which queue.  In every run the messages of one type are received in the
    order they were sent, none is lost or made up; no sleeper's queue is freed;
    and a sleeper no notification has reached since it slept could not proceed. *)

From Stdlib Require Import ZifyBool.
From S2P Require Import Prelude User UserNs Ipc Waits MsgQueue.

(** What a sleeping call will do. *)
Inductive mcall := Sending (msg : msg_msg) (msgflg : Z) | Receiving (msgsz msgtyp msgflg : Z).

Record msleeper := mk_msl { ml_ptr : nat; ml_caller : scaller; ml_call : mcall; ml_woken : bool }.
Record mworld := mk_mworld { mw_ns : msg_ns; mw_sl : list msleeper }.

Definition mwoken (x : msleeper) : msleeper := mk_msl (ml_ptr x) (ml_caller x) (ml_call x) true.

(** A message entered the queue at an address, or left it. *)
Inductive event := Sent (p : nat) (m : msg_msg) | Got (p : nat) (m : msg_msg).

Definition ev_ptr (e : event) : nat := match e with Sent p _ | Got p _ => p end.

Definition sent_to (p : nat) (o : option msg_msg) : list event := match o with Some m => [Sent p m] | None => [] end.
Definition got_from (p : nat) (o : option msg_msg) : list event := match o with Some m => [Got p m] | None => [] end.

Definition is_sending (k : mcall) : bool := match k with Sending _ _ => true | Receiving _ _ _ => false end.

(** notify(&queue->rcv_cond) after a message entered, notify(&queue->snd_cond)
    after one left. *)
Definition hears (es : list event) (x : msleeper) : bool :=
  existsb (fun e => Nat.eqb (ml_ptr x) (ev_ptr e) && match e with Sent _ _ => negb (is_sending (ml_call x)) | Got _ _ => is_sending (ml_call x) end) es.

(** What a msgctl on the queue at [p] notifies. *)
Definition ctl_hears (w : wakes) (p : nat) (x : msleeper) : bool :=
  Nat.eqb (ml_ptr x) p && match w with NoWakes => false | WakeSenders => is_sending (ml_call x) | WakeAll => true end.

(** The rest of a sleeping call once it woke with [err], on its queue. *)
Definition msg_wake (resume : bool) (ns : msg_ns) (q : msg_queue) (x : msleeper) (err : Z) : msg_ns * list event * outcome :=
  match ml_call x with
  | Sending msg flg => let '(ns', put, r) := msgsnd_wake resume ns (ml_caller x) q msg flg err in (ns', sent_to (q_ptr q) put, r)
  | Receiving sz typ flg => let '(ns', got, r) := msgrcv_wake resume ns (ml_caller x) q sz typ flg err in (ns', got_from (q_ptr q) got, r)
  end.

(** The queue a call names: its address, when there is one. *)
Definition named (ns : msg_ns) (msqid : Z) : nat := match msg_find_by_id ns msqid with Some q => q_ptr q | None => 0%nat end.

(** The messages of each queue are allocated at the same time. *)
Definition fits (ns : msg_ns) : Prop := forall q, q ∈ msg_queues ns -> sum_of msg_footprint (q_messages q) < 2 ^ 63.

#[local] Notation mslept := (on ml_ptr).

Section Steps.
Context {M : Type} `{GuestMemoryOk M} (t : ns_table).

Inductive msg_step : mworld -> list event -> mworld -> Prop :=
| Ms_get ao ns sl c key flg :
    msg_step (mk_mworld ns sl) [] (mk_mworld (sys_msgget_guest ao ns c key flg).1 sl)
| Ms_send ao (m : M) abi ns sl c msqid msgp msgsz flg ns' put res :
    gm_ok m -> 0 <= msgp -> 0 <= msgsz -> fits ns' ->
    msgsnd_attempt t ao m abi ns c msqid msgp msgsz flg = (ns', put, Done res) ->
    let es := sent_to (named ns msqid) put in
    msg_step (mk_mworld ns sl) es (mk_mworld ns' (notify mwoken (hears es) sl))
| Ms_send_sleep ao (m : M) abi ns sl c msqid msgp msgsz flg msg ns' :
    gm_ok m -> 0 <= msgp -> 0 <= msgsz -> Z.of_nat (length sl) + 1 < 2 ^ 32 ->
    msgsnd_attempt t ao m abi ns c msqid msgp msgsz flg = (ns', None, Asleep) ->
    msg_read_from_guest ao m abi msgp msgsz = inr msg ->
    msg_step (mk_mworld ns sl) [] (mk_mworld ns' (sl ++ [mk_msl (named ns msqid) c (Sending msg flg) false]))
| Ms_recv ns sl c msqid msgsz typ flg ns' got res :
    msgrcv_attempt t ns c msqid msgsz typ flg = (ns', got, Done res) ->
    let es := got_from (named ns msqid) got in
    msg_step (mk_mworld ns sl) es (mk_mworld ns' (notify mwoken (hears es) sl))
| Ms_recv_sleep ns sl c msqid msgsz typ flg ns' :
    Z.of_nat (length sl) + 1 < 2 ^ 32 ->
    msgrcv_attempt t ns c msqid msgsz typ flg = (ns', None, Asleep) ->
    msg_step (mk_mworld ns sl) [] (mk_mworld ns' (sl ++ [mk_msl (named ns msqid) c (Receiving msgsz typ flg) false]))
| Ms_wake resume ns l1 x l2 q err ns' es res :
    q ∈ msg_queues ns -> q_ptr q = ml_ptr x -> fits ns' ->
    msg_wake resume ns q x err = (ns', es, Done res) ->
    msg_step (mk_mworld ns (l1 ++ x :: l2)) es (mk_mworld ns' (notify mwoken (hears es) (l1 ++ l2)))
| Ms_again resume ns l1 x l2 q err ns' es :
    q ∈ msg_queues ns -> q_ptr q = ml_ptr x ->
    msg_wake resume ns q x err = (ns', es, Asleep) ->
    msg_step (mk_mworld ns (l1 ++ x :: l2)) es (mk_mworld ns' (l1 ++ mk_msl (ml_ptr x) (ml_caller x) (ml_call x) false :: l2))
| Ms_ctl pid_shown (m : M) abi ns sl c msqid cmd buf m' ns' w res :
    sys_msgctl_guest t pid_shown m abi ns c msqid cmd buf = (m', ns', w, res) ->
    msg_step (mk_mworld ns sl) [] (mk_mworld ns' (notify mwoken (ctl_hears w (named ns msqid)) sl))
| Ms_teardown ns :
    msg_step (mk_mworld ns []) [] (mk_mworld (msg_ns_teardown ns) []).

(** A run and what it sent and received. *)
Inductive msg_run : mworld -> list event -> mworld -> Prop :=
| Run_nil w : msg_run w [] w
| Run_step w1 tr w2 es w3 : msg_run w1 tr w2 -> msg_step w2 es w3 -> msg_run w1 (tr ++ es) w3.

(** ** A queue and its sleepers *)

(** A sleeper nobody notified cannot proceed. *)
Definition stuck (q : msg_queue) (k : mcall) : Prop :=
  match k with
  | Sending msg _ => q_qbytes q < q_cbytes q + m_size msg
  | Receiving _ typ flg => msg_pick q typ flg = None
  end.

Definition call_ok (k : mcall) : Prop := match k with Sending msg _ => msg_ok msg | Receiving _ _ _ => True end.

Definition msleeper_ok (q : msg_queue) (x : msleeper) : Prop :=
  ml_ptr x = q_ptr q /\ call_ok (ml_call x) /\ (ml_woken x = false -> q_removed q = false /\ stuck q (ml_call x)).

Record mq_ok (q : msg_queue) (xs : list msleeper) : Prop := mk_mq_ok {
  mq_queue : queue_ok q;
  mq_sl : Forall (msleeper_ok q) xs;
  mq_waiters : q_waiters q = Z.of_nat (length xs) }.

Definition mworld_ok (w : mworld) : Prop :=
  waits_ok q_ptr q_removed ml_ptr mq_ok (msg_queues (mw_ns w)) (msg_next_ptr (mw_ns w)) (mw_sl w).

#[local] Instance mq_ok_perm q : Proper (Permutation ==> iff) (mq_ok q).
Proof.
  assert (forall xs ys, xs ≡ₚ ys -> mq_ok q xs -> mq_ok q ys) as Himp
    by (intros xs ys Hp [H1 H2 H3]; split; [done | by rewrite <- Hp | by rewrite <- Hp]).
  intros xs ys Hp. split; apply Himp; [done | by symmetry].
Qed.

Lemma mwoken_ptr x : ml_ptr (mwoken x) = ml_ptr x.
Proof. done. Qed.

(** A change of the queue that notifies [sel]: those it leaves alone stay stuck. *)
Lemma mq_changed q q' sel xs :
  mq_ok q xs -> queue_ok q' -> q_ptr q' = q_ptr q -> q_waiters q' = q_waiters q ->
  (forall x, x ∈ xs -> msleeper_ok q x -> sel x = false -> ml_woken x = false -> q_removed q' = false /\ stuck q' (ml_call x)) ->
  mq_ok q' (notify mwoken sel xs).
Proof.
  intros [H1 H2 H3] Hq Ep Ew Hs. split; [done | | rewrite notify_length; congruence].
  apply Forall_forall. intros x Hx. apply list_elem_of_fmap in Hx as (y & -> & Hy). rewrite Forall_forall in H2.
  pose proof (H2 y Hy) as Hok. destruct Hok as (Ey & Hc & _). destruct (sel y) eqn:E.
  - split; [by rewrite Ep |]. done.
  - split; [by rewrite Ep |]. split; [done |]. by apply Hs; auto.
Qed.

Lemma add_waiters_ok d q : queue_ok q -> queue_ok (add_waiters d q).
Proof. intros [? ? ? ?]. by split. Qed.

Lemma waiter_joins q xs x :
  mq_ok q xs -> msleeper_ok q x -> Z.of_nat (length xs) + 1 < 2 ^ 32 -> mq_ok (add_waiters 1 q) (x :: xs).
Proof.
  intros [H1 H2 H3] Hx Hlen. split; [by apply add_waiters_ok | by constructor | simpl; rewrite H3, u32_small; lia].
Qed.

Lemma waiter_leaves q xs x :
  mq_ok q (x :: xs) -> Z.of_nat (length xs) + 1 < 2 ^ 32 -> mq_ok (add_waiters (-1) q) xs /\ call_ok (ml_call x).
Proof.
  intros [H1 H2 H3] Hlen. apply Forall_cons in H2 as [(_ & Hc & _) H2]. split; [| done].
  split; [by apply add_waiters_ok | done | simpl in *; rewrite H3, u32_small; lia].
Qed.

Lemma cbytes_bounds q : queue_ok q -> 0 <= q_cbytes q < 2 ^ 63.
Proof. intros [H1 H2 H3 H4]. destruct (footprint_bounds _ H1). lia. Qed.

(** What a turn leaves, whichever call it is of. *)
Definition turn_left (q q' : msg_queue) (es : list event) (r : outcome) (c : scaller) (k : mcall) (xs : list msleeper) : Prop :=
  q_ptr q' = q_ptr q /\ q_removed q' = false /\
  match r with
  | Done _ => mq_ok q' (notify mwoken (hears es) xs)
  | Asleep => es = [] /\ (Z.of_nat (length xs) + 1 < 2 ^ 32 -> mq_ok q' (mk_msl (q_ptr q) c k false :: xs))
  end.

Lemma hears_nothing xs : notify mwoken (hears []) xs = xs.
Proof. by apply notify_none. Qed.

Lemma snd_turn c q msg flg xs q' put r :
  mq_ok q xs -> q_removed q = false -> msg_ok msg -> (put <> None -> sum_of msg_footprint (q_messages q') < 2 ^ 63) ->
  msgsnd_turn c q msg flg = (q', put, r) -> turn_left q q' (sent_to (q_ptr q) put) r c (Sending msg flg) xs.
Proof.
  intros Hok Hr Hm Hfit Ht. unfold msgsnd_turn in Ht. pose proof (cbytes_bounds q (mq_queue _ _ Hok)) as Hcb.
  pose proof (mo_size _ Hm) as Hs. unfold MSGMAX_ in Hs. rewrite u64_small in Ht by lia.
  destruct (Z.gtb_spec (q_cbytes q + m_size msg) (q_qbytes q)) as [Hgt | Hle].
  - destruct (has_flag flg IPC_NOWAIT_); simplify_eq; (split; [done |]; split; [done |]); [by rewrite hears_nothing |].
    split; [done |]. intros Hlen. apply waiter_joins; [done | | done]. split; [done |]. split; [done |]. intros _. split; [done | simpl; lia].
  - simplify_eq. split; [done |]. split; [done |].
    destruct (enqueue_ok c msg q (mq_queue _ _ Hok) Hm (Hfit ltac:(done))) as [Hq' Hc']. apply mq_changed with q; [done | done | done | done |].
    intros x Hx (Ex & _ & Hst) Hsel Hw. destruct (Hst Hw) as [_ Hst']. split; [done |].
    destruct (ml_call x) as [msg' flg' | sz typ flg'] eqn:Ek; simpl in *; [rewrite Hc'; lia |].
    unfold hears in Hsel. simpl in Hsel. rewrite Ex, Nat.eqb_refl, Ek in Hsel. done.
Qed.

Lemma rcv_turn c q sz typ flg xs q' got r :
  mq_ok q xs -> q_removed q = false ->
  msgrcv_turn c q sz typ flg = (q', got, r) -> turn_left q q' (got_from (q_ptr q) got) r c (Receiving sz typ flg) xs.
Proof.
  intros Hok Hr Ht. unfold msgrcv_turn in Ht. destruct (msg_pick q typ flg) as [[i m] |] eqn:Ep.
  - destruct (_ && _); simplify_eq; (split; [done |]; split; [done |]); [by rewrite hears_nothing |].
    destruct (pick_oldest _ _ _ _ _ Ep) as [Hi _]. apply mq_changed with q; [done | by apply dequeue_ok; [apply Hok |] | done | done |].
    intros x Hx (Ex & _ & Hst) Hsel Hw. destruct (Hst Hw) as [_ Hst']. split; [done |].
    destruct (ml_call x) as [msg' flg' | sz' typ' flg'] eqn:Ek; simpl.
    + unfold hears in Hsel. simpl in Hsel. rewrite Ex, Nat.eqb_refl, Ek in Hsel. done.
    + by apply pick_none_delete with q i.
  - destruct (has_flag flg IPC_NOWAIT_); simplify_eq; (split; [done |]; split; [done |]); [by rewrite hears_nothing |].
    split; [done |]. intros Hlen. by apply waiter_joins.
Qed.

(** One turn of a call of either kind. *)
Inductive turned (c : scaller) (q : msg_queue) : mcall -> msg_queue -> list event -> outcome -> Prop :=
| Turned_snd msg flg q' put r : msgsnd_turn c q msg flg = (q', put, r) -> turned c q (Sending msg flg) q' (sent_to (q_ptr q) put) r
| Turned_rcv sz typ flg q' got r : msgrcv_turn c q sz typ flg = (q', got, r) -> turned c q (Receiving sz typ flg) q' (got_from (q_ptr q) got) r.

Lemma turned_left c q k q' es r xs :
  turned c q k q' es r -> mq_ok q xs -> q_removed q = false -> call_ok k ->
  (es <> [] -> is_sending k = true -> sum_of msg_footprint (q_messages q') < 2 ^ 63) -> turn_left q q' es r c k xs.
Proof.
  intros [msg flg q1 put r1 Ht | sz typ flg q1 got r1 Ht] Hok Hr Hc Hf; [| by apply rcv_turn].
  apply snd_turn; [done | done | done | | done]. destruct put; simpl in Hf; [intros _; by apply Hf | done].
Qed.

Lemma turned_here c q k q' es r : turned c q k q' es r -> Forall (fun e => ev_ptr e = q_ptr q) es.
Proof. intros [? ? ? [] ? ? | ? ? ? ? [] ? ?]; by repeat constructor. Qed.

Lemma turned_ptr c q k q' es r : turned c q k q' es r -> q_ptr q' = q_ptr q.
Proof. intros Ht. destruct Ht; unfold msgsnd_turn, msgrcv_turn in *; repeat case_match; by simplify_eq. Qed.

Lemma turned_asleep c q k q' es : turned c q k q' es Asleep -> es = [].
Proof. intros Ht. inversion Ht; subst; unfold msgsnd_turn, msgrcv_turn in *; repeat case_match; by simplify_eq. Qed.

Lemma hears_here p es x : Forall (fun e => ev_ptr e = p) es -> hears es x = true -> ml_ptr x = p.
Proof.
  intros Hes Hh. apply existsb_exists in Hh as (e & He & Hb). apply andb_true_iff in Hb as [Hb _]. apply Nat.eqb_eq in Hb.
  rewrite Forall_forall in Hes. rewrite Hb. apply Hes. by apply list_elem_of_In.
Qed.

(** ** What enters and leaves, type by type *)

Definition sent_msgs (p : nat) (tr : list event) : list msg_msg :=
  omap (fun e => match e with Sent p' m => if Nat.eqb p' p then Some m else None | Got _ _ => None end) tr.
Definition got_msgs (p : nat) (tr : list event) : list msg_msg :=
  omap (fun e => match e with Got p' m => if Nat.eqb p' p then Some m else None | Sent _ _ => None end) tr.
Definition typed (T : Z) : list msg_msg -> list msg_msg := filter (fun m => m_type m = T).

(** The messages of a type before the events and those sent are those received and those after. *)
Definition evolves (p : nat) (es : list event) (ms ms' : list msg_msg) : Prop :=
  forall T, typed T ms ++ typed T (sent_msgs p es) = typed T (got_msgs p es) ++ typed T ms'.

Lemma evolves_quiet p es ms : Forall (fun e => ev_ptr e <> p) es -> evolves p es ms ms.
Proof.
  intros He T. assert (sent_msgs p es = [] /\ got_msgs p es = []) as [-> ->].
  { unfold sent_msgs, got_msgs. induction He as [| e es He _ [IH1 IH2]]; [done |]. simpl.
    destruct e as [p' m | p' m]; simpl in *; destruct (Nat.eqb_spec p' p); done. }
  by rewrite app_nil_r.
Qed.

Lemma turned_evolves c q k q' es r : turned c q k q' es r -> evolves (q_ptr q) es (q_messages q) (q_messages q').
Proof.
  assert (forall p ms, evolves p [] ms ms) as Hq by (intros; apply evolves_quiet; constructor).
  intros [msg flg q1 put r1 Ht | sz typ flg q1 got r1 Ht].
  - unfold msgsnd_turn in Ht. repeat case_match; simplify_eq/=; [done | done |]. intros T. unfold sent_msgs, got_msgs, typed. simpl.
    by rewrite Nat.eqb_refl, filter_app.
  - unfold msgrcv_turn in Ht. destruct (msg_pick q typ flg) as [[i m] |] eqn:Ep; [| case_match; by simplify_eq/=].
    case_match; simplify_eq/=; [done |]. destruct (pick_oldest _ _ _ _ _ Ep) as [Hi Hold]. intros T. unfold sent_msgs, got_msgs, typed. simpl.
    rewrite Nat.eqb_refl, app_nil_r. by apply delete_oldest.
Qed.

(** How the events of a step account for the change of every queue. *)
Record traced (ns : msg_ns) (es : list event) (ns' : msg_ns) : Prop := mk_traced {
  tr_old : Forall (fun e => (ev_ptr e < msg_next_ptr ns)%nat) es;
  tr_next : (msg_next_ptr ns <= msg_next_ptr ns')%nat;
  tr_queue : forall q', q' ∈ msg_queues ns' ->
    (exists q, q ∈ msg_queues ns /\ q_ptr q = q_ptr q' /\ evolves (q_ptr q) es (q_messages q) (q_messages q')) \/
    ((msg_next_ptr ns <= q_ptr q')%nat /\ q_messages q' = []) }.

Lemma traced_same ns : traced ns [] ns.
Proof. split; [constructor | done |]. intros q Hq. left. exists q. split; [done |]. split; [done |]. apply evolves_quiet. constructor. Qed.

Lemma traced_put ns sl es q q' :
  mworld_ok (mk_mworld ns sl) -> q ∈ msg_queues ns -> q_ptr q' = q_ptr q -> Forall (fun e => ev_ptr e = q_ptr q) es ->
  evolves (q_ptr q) es (q_messages q) (q_messages q') -> traced ns es (put_queue ns q').
Proof.
  intros Hw Hq Ep Hes Hev. split; [| done |].
  - eapply Forall_impl; [exact Hes |]. simpl. intros e ->. by apply (wa_lt _ _ _ _ _ _ _ Hw).
  - intros x Hx. left. apply put_obj_elem in Hx as [-> | [Hx Hne]].
    + exists q. by rewrite Ep.
    + exists x. split; [done |]. split; [done |]. apply evolves_quiet. eapply Forall_impl; [exact Hes |]. simpl. congruence.
Qed.

Lemma traced_drop ns q : traced ns [] (drop_queue ns q).
Proof.
  split; [constructor | done |]. intros x Hx. apply drop_obj_elem in Hx as [Hx _]. left. exists x. do 2 (split; [done |]).
  apply evolves_quiet. constructor.
Qed.

(** ** The calls *)

Lemma msg_find_in ns id q : msg_find_by_id ns id = Some q -> q ∈ msg_queues ns /\ q_removed q = false.
Proof.
  intros Hf. apply List.find_some in Hf as [Hin Hb]. split; [by apply list_elem_of_In |].
  apply andb_true_iff in Hb as [Hb _]. by apply negb_true_iff.
Qed.

(** A call up to its return or sleep: it fails and changes nothing, or it is a
    turn on the queue it names. *)
Definition called (ns : msg_ns) (msqid : Z) (c : scaller) (k : mcall) (ns' : msg_ns) (es : list event) (r : outcome) : Prop :=
  (ns' = ns /\ es = [] /\ exists e, r = Done e) \/
  exists q q', msg_find_by_id ns msqid = Some q /\ call_ok k /\ turned c q k q' es r /\ ns' = put_queue ns q'.

Lemma snd_called ao (m : M) abi ns c msqid msgp msgsz flg ns' put r :
  gm_ok m -> 0 <= msgp -> 0 <= msgsz -> msgsnd_attempt t ao m abi ns c msqid msgp msgsz flg = (ns', put, r) ->
  (ns' = ns /\ put = None /\ exists e, r = Done e) \/
  exists msg, msg_read_from_guest ao m abi msgp msgsz = inr msg /\ called ns msqid c (Sending msg flg) ns' (sent_to (named ns msqid) put) r.
Proof.
  intros Hm Hp Hs Hrun. unfold msgsnd_attempt in Hrun. destruct (Z.gtb_spec msgsz MSGMAX_); [simplify_eq; left; by eauto |].
  destruct (msg_read_from_guest ao m abi msgp msgsz) as [e | msg] eqn:Er; [simplify_eq; left; by eauto |].
  destruct (Z.ltb_spec (m_type msg) 1); [simplify_eq; left; by eauto |].
  destruct (msg_find_by_id ns msqid) as [q |] eqn:Hf; [| simplify_eq; left; by eauto].
  destruct (negb _); [simplify_eq; left; by eauto |]. destruct (msgsnd_turn c q msg flg) as [[q' put'] r'] eqn:Et. simplify_eq.
  right. exists msg. split; [done |]. right. exists q, q'. split; [done |].
  split; [by apply (read_guest_ok ao m abi msgp msgsz) |]. split; [| done]. unfold named. rewrite Hf. by constructor.
Qed.

Lemma rcv_called ns c msqid msgsz typ flg ns' got r :
  msgrcv_attempt t ns c msqid msgsz typ flg = (ns', got, r) ->
  called ns msqid c (Receiving msgsz typ flg) ns' (got_from (named ns msqid) got) r.
Proof.
  intros Hrun. unfold msgrcv_attempt in Hrun. destruct (has_flag flg MSG_COPY_); [simplify_eq; left; by eauto |].
  destruct (msg_find_by_id ns msqid) as [q |] eqn:Hf; [| simplify_eq; left; by eauto].
  destruct (negb _); [simplify_eq; left; by eauto |]. destruct (msgrcv_turn c q msgsz typ flg) as [[q' got'] r'] eqn:Et. simplify_eq.
  right. exists q, q'. split; [done |]. split; [done |]. split; [| done]. unfold named. rewrite Hf. by constructor.
Qed.

Lemma step_call ns sl msqid c k ns' es e :
  mworld_ok (mk_mworld ns sl) -> called ns msqid c k ns' es (Done e) -> (is_sending k = true -> fits ns') ->
  mworld_ok (mk_mworld ns' (notify mwoken (hears es) sl)) /\ traced ns es ns'.
Proof.
  intros Hw [(-> & -> & _) | (q & q' & Hf & Hc & Ht & ->)] Hfit.
  { rewrite hears_nothing. split; [done | apply traced_same]. }
  destruct (msg_find_in _ _ _ Hf) as [Hq Hr]. destruct (wa_obj _ _ _ _ _ _ _ Hw q Hq) as [Hok _]. pose proof (turned_here _ _ _ _ _ _ Ht) as Hes.
  pose proof (turned_ptr _ _ _ _ _ _ Ht) as Ep. destruct (turned_left _ _ _ _ _ _ _ Ht Hok Hr Hc) as (_ & Er & Hok').
  { intros _ Hk. apply (Hfit Hk). by apply put_obj_has with q. }
  split; [| apply traced_put with sl q; [done | done | done | done | by eapply turned_evolves]].
  eapply (waits_change _ _ _ _ _ mwoken_ptr); [exact Hw | exact Hq | done | congruence | | done].
  intros x. by apply hears_here.
Qed.

Lemma step_call_sleep ns sl msqid c k ns' es :
  mworld_ok (mk_mworld ns sl) -> called ns msqid c k ns' es Asleep -> Z.of_nat (length sl) + 1 < 2 ^ 32 ->
  mworld_ok (mk_mworld ns' (sl ++ [mk_msl (named ns msqid) c k false])) /\ traced ns es ns' /\ es = [].
Proof.
  intros Hw [(_ & _ & e & ?) | (q & q' & Hf & Hc & Ht & ->)] Hlen; [done |].
  destruct (msg_find_in _ _ _ Hf) as [Hq Hr]. destruct (wa_obj _ _ _ _ _ _ _ Hw q Hq) as [Hok _]. pose proof (turned_here _ _ _ _ _ _ Ht) as Hes.
  pose proof (turned_asleep _ _ _ _ _ Ht) as E.
  destruct (turned_left _ _ _ _ _ _ _ Ht Hok Hr Hc) as (Ep & Er & _ & Hok'); [by intros ? |].
  split; [| split; [apply traced_put with sl q; [done | done | done | done | by eapply turned_evolves] | done]].
  pose proof (on_length ml_ptr (q_ptr q) sl). unfold named. rewrite Hf.
  eapply waits_join; [exact Hw | exact Hq | done | done | done | | done].
  rewrite <- Permutation_cons_append. apply Hok'. simpl. lia.
Qed.

(** ** Waking *)

Lemma woke resume ns q x err ns' es r :
  msg_wake resume ns q x err = (ns', es, r) ->
  let q1 := add_waiters (-1) q in
  (q_removed q = true /\ ns' = msg_queue_maybe_free ns q1 /\ es = [] /\ exists e, r = Done e) \/
  (q_removed q = false /\ ns' = put_queue ns q1 /\ es = [] /\ exists e, r = Done e) \/
  (q_removed q = false /\ exists q', turned (ml_caller x) q1 (ml_call x) q' es r /\ ns' = put_queue ns q').
Proof.
  intros Hrun q1. unfold msg_wake, msgsnd_wake, msgrcv_wake in Hrun. cbv zeta in Hrun.
  destruct (ml_call x) as [msg flg | sz typ flg]; change (q_removed (add_waiters (-1) q)) with (q_removed q) in Hrun;
    (destruct (q_removed q); [simplify_eq; left; by eauto |]); (destruct (err <? 0); [simplify_eq; right; left; by eauto |]); right; right;
    (split; [done |]).
  - destruct (msgsnd_turn (ml_caller x) (add_waiters (-1) q) msg flg) as [[q' put] r'] eqn:Et. simplify_eq. exists q'. split; [| done].
    by apply (Turned_snd _ (add_waiters (-1) q)).
  - destruct (msgrcv_turn (ml_caller x) (add_waiters (-1) q) sz typ flg) as [[q' got] r'] eqn:Et. simplify_eq. exists q'. split; [| done].
    by apply (Turned_rcv _ (add_waiters (-1) q)).
Qed.

Lemma waking ns l1 x l2 q :
  mworld_ok (mk_mworld ns (l1 ++ x :: l2)) -> q ∈ msg_queues ns -> q_ptr q = ml_ptr x ->
  mq_ok (add_waiters (-1) q) (mslept (q_ptr q) (l1 ++ l2)) /\ call_ok (ml_call x) /\ Z.of_nat (length (mslept (q_ptr q) (l1 ++ l2))) + 1 < 2 ^ 32.
Proof.
  intros Hw Hq Ex. destruct (waits_split _ _ _ _ _ _ _ _ _ _ Hw Hq Ex) as [Hok Hlen]. rewrite <- Permutation_middle, <- on_sl_app in Hok.
  by destruct (waiter_leaves _ _ _ Hok Hlen).
Qed.

Lemma step_msg_wake resume ns l1 x l2 q err ns' es e :
  mworld_ok (mk_mworld ns (l1 ++ x :: l2)) -> q ∈ msg_queues ns -> q_ptr q = ml_ptr x -> fits ns' ->
  msg_wake resume ns q x err = (ns', es, Done e) ->
  mworld_ok (mk_mworld ns' (notify mwoken (hears es) (l1 ++ l2))) /\ traced ns es ns'.
Proof.
  intros Hw Hq Ex Hfit Hrun. destruct (waking _ _ _ _ _ Hw Hq Ex) as (Hok & Hc & Hlen). set (q1 := add_waiters (-1) q) in *.
  assert (forall q', q_ptr q' = q_ptr q -> (q_removed q' = true -> mslept (q_ptr q) (l1 ++ l2) <> []) -> forall es,
            Forall (fun e => ev_ptr e = q_ptr q) es -> mq_ok q' (notify mwoken (hears es) (mslept (q_ptr q) (l1 ++ l2))) ->
            mworld_ok (mk_mworld (put_queue ns q') (notify mwoken (hears es) (l1 ++ l2)))) as Hput.
  { intros q' Ep Hr es' Hes Hok'. eapply (waits_leave _ _ _ _ _ mwoken_ptr); [exact Hw | exact Hq | exact Ex | done | done | | done].
    intros y. by apply hears_here. }
  assert (traced ns [] (put_queue ns q1)) as Htr by (apply traced_put with (l1 ++ x :: l2) q; [done | done | done | constructor | apply evolves_quiet; constructor]).
  destruct (woke _ _ _ _ _ _ _ _ Hrun) as [(Hr & -> & -> & _) | [(Hr & -> & -> & _) | (Hr & q' & Ht & ->)]].
  - rewrite hears_nothing. unfold msg_queue_maybe_free. fold q1. change (q_removed q1) with (q_removed q). rewrite Hr. cbn [negb orb].
    pose proof (mq_waiters _ _ Hok) as Hww. destruct (Z.eqb_spec (q_waiters q1) 0) as [E0 | E0]; cbn [negb].
    + split; [| apply traced_drop]. eapply waits_leave_drop; [exact Hw | exact Ex | done |]. apply nil_length_inv. lia.
    + split; [| done]. rewrite <- (hears_nothing (l1 ++ l2)). apply Hput; [done | | constructor | by rewrite hears_nothing].
      intros _ E. rewrite E in Hww. done.
  - split; [| done]. apply Hput; [done | | constructor | by rewrite hears_nothing]. simpl. congruence.
  - destruct (turned_left _ _ _ _ _ _ _ Ht Hok Hr Hc) as (Ep & Er & Hok').
    { intros _ _. apply Hfit. apply put_obj_has with q; [done |]. by rewrite (turned_ptr _ _ _ _ _ _ Ht). }
    pose proof (turned_here _ _ _ _ _ _ Ht) as Hes. split; [apply Hput; [done | congruence | done | done] |].
    apply traced_put with (l1 ++ x :: l2) q; [done | done | done | done | by apply (turned_evolves _ _ _ _ _ _ Ht)].
Qed.

Lemma step_msg_again resume ns l1 x l2 q err ns' es :
  mworld_ok (mk_mworld ns (l1 ++ x :: l2)) -> q ∈ msg_queues ns -> q_ptr q = ml_ptr x ->
  msg_wake resume ns q x err = (ns', es, Asleep) ->
  mworld_ok (mk_mworld ns' (l1 ++ mk_msl (ml_ptr x) (ml_caller x) (ml_call x) false :: l2)) /\ traced ns es ns'.
Proof.
  intros Hw Hq Ex Hrun. destruct (waking _ _ _ _ _ Hw Hq Ex) as (Hok & Hc & Hlen).
  destruct (woke _ _ _ _ _ _ _ _ Hrun) as [(_ & _ & _ & e & ?) | [(_ & _ & _ & e & ?) | (Hr & q' & Ht & ->)]]; [done | done |].
  pose proof (turned_asleep _ _ _ _ _ Ht) as E.
  destruct (turned_left _ _ _ _ _ _ _ Ht Hok Hr Hc) as (Ep & Er & _ & Hok'); [by intros ? |]. split.
  - eapply waits_rejoin; [exact Hw | exact Hq | exact Ex | done | done | done |].
    rewrite <- Permutation_middle, <- on_sl_app, <- Ex. by apply Hok'.
  - apply traced_put with (l1 ++ x :: l2) q; [done | done | done | by rewrite E | by apply (turned_evolves _ _ _ _ _ _ Ht)].
Qed.

(** ** msgget, msgctl and the end of the namespace *)

Lemma step_msgget ao ns sl c key flg :
  mworld_ok (mk_mworld ns sl) ->
  mworld_ok (mk_mworld (sys_msgget_guest ao ns c key flg).1 sl) /\ traced ns [] (sys_msgget_guest ao ns c key flg).1.
Proof.
  intros Hw. assert (mworld_ok (mk_mworld ns sl) /\ traced ns [] ns) as Hsame by (split; [done | apply traced_same]).
  unfold sys_msgget_guest. destruct (if key =? IPC_PRIVATE_ then None else msg_find_by_key ns key) as [q |]; [by case_match |].
  repeat (case_match; [done |]). cbn [fst]. split.
  - apply waits_new; [exact Hw | done | done |]. by repeat split; try constructor.
  - split; [constructor | simpl; lia |]. intros q' Hq'. apply elem_of_app in Hq' as [Hq' | Hq'].
    + left. exists q'. do 2 (split; [done |]). apply evolves_quiet. constructor.
    + right. apply list_elem_of_singleton in Hq' as ->. done.
Qed.

Lemma ctl_hears_here w p x : ctl_hears w p x = true -> ml_ptr x = p.
Proof. intros Hb. apply andb_true_iff in Hb as [Hb _]. by apply Nat.eqb_eq. Qed.

(** A named queue changed by msgctl without touching its messages. *)
Lemma ctl_put ns sl q q' w :
  mworld_ok (mk_mworld ns sl) -> q ∈ msg_queues ns -> q_ptr q' = q_ptr q -> q_messages q' = q_messages q ->
  (q_removed q' = true -> mslept (q_ptr q) sl <> []) ->
  mq_ok q' (notify mwoken (ctl_hears w (q_ptr q)) (mslept (q_ptr q) sl)) ->
  mworld_ok (mk_mworld (put_queue ns q') (notify mwoken (ctl_hears w (q_ptr q)) sl)) /\ traced ns [] (put_queue ns q').
Proof.
  intros Hw Hq Ep Em Hr Hok. split.
  - eapply (waits_change _ _ _ _ _ mwoken_ptr); [exact Hw | exact Hq | done | done | | done]. intros x. apply ctl_hears_here.
  - apply traced_put with sl q; [done | done | done | constructor | rewrite Em; apply evolves_quiet; constructor].
Qed.

Lemma step_rmid ns sl q :
  mworld_ok (mk_mworld ns sl) -> q ∈ msg_queues ns ->
  mworld_ok (mk_mworld (msg_queue_maybe_free ns (remove_queue q)) (notify mwoken (ctl_hears WakeAll (q_ptr q)) sl)) /\
  traced ns [] (msg_queue_maybe_free ns (remove_queue q)).
Proof.
  intros Hw Hq. destruct (wa_obj _ _ _ _ _ _ _ Hw q Hq) as [Hok _]. pose proof (mq_waiters _ _ Hok) as Hww. simpl in Hww.
  unfold msg_queue_maybe_free. change (q_waiters (remove_queue q)) with (q_waiters q). change (q_removed (remove_queue q)) with true. cbn [negb orb].
  destruct (Z.eqb_spec (q_waiters q) 0) as [E | E]; cbn [negb].
  - split; [| apply traced_drop]. assert (mslept (q_ptr q) sl = []) as Hno by (apply nil_length_inv; lia).
    eapply (waits_drop _ _ _ _ _ _ _ q); [exact Hw | done | | | cbn [mw_sl]; rewrite notify_length; apply (wa_few _ _ _ _ _ _ _ Hw)].
    + apply (notify_elsewhere _ _ mwoken_ptr). intros x. apply ctl_hears_here.
    + cbn [mw_sl]. by rewrite (on_notify _ _ mwoken_ptr), Hno.
  - apply ctl_put; [done | done | done | done | intros _ E'; by rewrite E' in Hww |].
    apply mq_changed with q; [done | by destruct (mq_queue _ _ Hok); split | done | done |].
    intros x Hx (Ex & _) Hsel _. exfalso. unfold ctl_hears in Hsel. by rewrite Ex, Nat.eqb_refl in Hsel.
Qed.

Lemma step_msgctl pid_shown (m : M) abi ns sl c msqid cmd buf m' ns' w res :
  mworld_ok (mk_mworld ns sl) -> sys_msgctl_guest t pid_shown m abi ns c msqid cmd buf = (m', ns', w, res) ->
  mworld_ok (mk_mworld ns' (notify mwoken (ctl_hears w (named ns msqid)) sl)) /\ traced ns [] ns'.
Proof.
  intros Hw Hrun. unfold sys_msgctl_guest in Hrun. cbv zeta in Hrun.
  assert (mworld_ok (mk_mworld ns (notify mwoken (ctl_hears NoWakes (named ns msqid)) sl)) /\ traced ns [] ns) as Hsame.
  { split; [| apply traced_same]. rewrite notify_none; [done |]. intros x _. apply andb_false_r. }
  destruct (_ =? IPC_INFO_); [by simplify_eq |]. destruct (msg_find_by_id ns msqid) as [q |] eqn:Hf; [| by simplify_eq].
  assert (named ns msqid = q_ptr q) as En by (unfold named; by rewrite Hf). rewrite En in *. destruct (msg_find_in _ _ _ Hf) as [Hq Hr]. destruct (wa_obj _ _ _ _ _ _ _ Hw q Hq) as [Hok _].
  case_match. { case_match; simplify_eq; [done |]. by apply step_rmid. }
  case_match. 2: { case_match; [destruct (user_write _ _ _) |]; by simplify_eq. }
  case_match; [by simplify_eq |]. destruct (read_msqid t m abi c buf) as [e | [[[u g] mode] qbytes]]; simplify_eq; [done |].
  apply ctl_put; [done | done | done | done | simpl; congruence |].
  apply mq_changed with q; [done | by destruct (mq_queue _ _ Hok); split | done | done |].
  intros x Hx (Ex & _ & Hst) Hsel Hwk. destruct (Hst Hwk) as [_ Hst']. split; [done |]. unfold ctl_hears in Hsel.
  rewrite Ex, Nat.eqb_refl in Hsel. by destruct (ml_call x).
Qed.

Lemma msg_teardown_fold l ns :
  (forall q, q ∈ l -> q_waiters q = 0) ->
  msg_queues (fold_left (fun ns q => msg_queue_maybe_free ns (remove_queue q)) l ns) = fold_left (drop_obj q_ptr) l (msg_queues ns) /\
  msg_next_ptr (fold_left (fun ns q => msg_queue_maybe_free ns (remove_queue q)) l ns) = msg_next_ptr ns.
Proof.
  revert ns. induction l as [| q l IH]; intros ns Hl; simpl; [done |].
  assert (msg_queue_maybe_free ns (remove_queue q) = drop_queue ns (remove_queue q)) as ->
    by (unfold msg_queue_maybe_free; simpl; by rewrite (Hl q) by left).
  destruct (IH (drop_queue ns (remove_queue q))) as [-> ->]; [intros x Hx; apply Hl; by right | done].
Qed.

Lemma msg_teardown_empties ns :
  mworld_ok (mk_mworld ns []) -> msg_queues (msg_ns_teardown ns) = [] /\ msg_next_ptr (msg_ns_teardown ns) = msg_next_ptr ns.
Proof.
  intros Hw. unfold msg_ns_teardown. destruct (msg_teardown_fold (msg_queues ns) ns) as [-> ->]; [| by rewrite drop_all].
  intros q Hq. destruct (wa_obj _ _ _ _ _ _ _ Hw q Hq) as [Hok _]. by apply mq_waiters in Hok.
Qed.

Lemma msg_step_ok w es w' : msg_step w es w' -> mworld_ok w -> mworld_ok w' /\ traced (mw_ns w) es (mw_ns w').
Proof.
  intros Hst Hw. destruct Hst as [| ? ? ? ? ? ? ? ? ? ? ? ? ? Hm Hp Hs Hfit Hrun | ? ? ? ? ? ? ? ? ? ? ? ? Hm Hp Hs Hlen Hrun Hrd
    | ? ? ? ? ? ? ? ? ? ? Hrun | ? ? ? ? ? ? ? ? Hlen Hrun | ? ? ? ? ? ? ? ? ? ? Hq Ex Hfit Hrun | ? ? ? ? ? ? ? ? ? Hq Ex Hrun
    | ? ? ? ? ? ? ? ? ? ? ? ? ? Hrun |]; cbn [mw_ns].
  - by apply step_msgget.
  - destruct (snd_called _ _ _ _ _ _ _ _ _ _ _ _ Hm Hp Hs Hrun) as [(-> & -> & _) | (msg & _ & Hc)].
    + unfold es. simpl. rewrite hears_nothing. split; [done | apply traced_same].
    + by eapply step_call.
  - destruct (snd_called _ _ _ _ _ _ _ _ _ _ _ _ Hm Hp Hs Hrun) as [(_ & _ & e & ?) | (msg' & Hrd' & Hc)]; [done |].
    rewrite Hrd in Hrd'. injection Hrd' as <-. destruct (step_call_sleep _ _ _ _ _ _ _ Hw Hc Hlen) as (I1 & I2 & _). split; [exact I1 | exact I2].
  - eapply step_call; [exact Hw | by apply rcv_called | done].
  - destruct (step_call_sleep _ _ _ _ _ _ _ Hw (rcv_called _ _ _ _ _ _ _ _ _ Hrun) Hlen) as (I1 & I2 & _). split; [exact I1 | exact I2].
  - by eapply step_msg_wake.
  - by eapply step_msg_again.
  - by eapply step_msgctl.
  - destruct (msg_teardown_empties ns Hw) as [E1 E2]. split.
    + unfold mworld_ok. cbn [mw_ns mw_sl]. rewrite E1. apply waits_empty.
    + split; [constructor | by rewrite E2 |]. rewrite E1. intros q' Hq'. by apply not_elem_of_nil in Hq'.
Qed.

(** ** Runs *)

(** struct ipc_namespace as ipc_ns_new makes it. *)
Definition empty_mworld (uns : option nat) : mworld := mk_mworld (mk_mns [] 1 uns 0) [].

Lemma empty_mworld_ok uns : mworld_ok (empty_mworld uns).
Proof. apply waits_empty. Qed.

(** What a run has sent to each queue that exists is what it received from it and what is in it. *)
Definition accounted (tr : list event) (w : mworld) : Prop :=
  Forall (fun e => (ev_ptr e < msg_next_ptr (mw_ns w))%nat) tr /\
  forall q, q ∈ msg_queues (mw_ns w) -> forall T,
    typed T (sent_msgs (q_ptr q) tr) = typed T (got_msgs (q_ptr q) tr) ++ typed T (q_messages q).

Lemma msgs_app p tr es : sent_msgs p (tr ++ es) = sent_msgs p tr ++ sent_msgs p es /\ got_msgs p (tr ++ es) = got_msgs p tr ++ got_msgs p es.
Proof. split; apply omap_app. Qed.

Lemma accounted_step tr w es w' : accounted tr w -> traced (mw_ns w) es (mw_ns w') -> accounted (tr ++ es) w'.
Proof.
  intros [Ha1 Ha2] [H1 H2 H3]. split.
  - apply Forall_app. split; eapply Forall_impl; [exact Ha1 | | exact H1 |]; simpl; lia.
  - intros q' Hq' T. destruct (msgs_app (q_ptr q') tr es) as [-> ->]. unfold typed. rewrite !filter_app.
    destruct (H3 q' Hq') as [(q & Hq & Ep & Hev) | [Hge Hm]].
    + rewrite <- Ep. specialize (Ha2 q Hq T). specialize (Hev T). unfold typed in *. rewrite Ha2, <- !app_assoc, Hev. done.
    + assert (Forall (fun e => ev_ptr e <> q_ptr q') (tr ++ es)) as Hno.
      { apply Forall_app. split; eapply Forall_impl; [exact Ha1 | | exact H1 |]; simpl; lia. }
      pose proof (evolves_quiet (q_ptr q') (tr ++ es) [] Hno T) as Hq. destruct (msgs_app (q_ptr q') tr es) as [E1 E2].
      rewrite E1, E2 in Hq. unfold typed in Hq. rewrite !filter_app, filter_nil, app_nil_r in Hq. rewrite Hm, filter_nil, app_nil_r. done.
Qed.

Lemma msg_run_ok w tr w' : msg_run w tr w' -> mworld_ok w -> accounted [] w -> mworld_ok w' /\ accounted tr w'.
Proof.
  induction 1 as [w | w1 tr w2 es w3 _ IH Hst]; intros Hw Ha; [done |]. destruct (IH Hw Ha) as [Hw2 Ha2].
  destruct (msg_step_ok _ _ _ Hst Hw2) as [Hw3 Htr]. split; [done | by apply accounted_step with w2].
Qed.

Lemma run_from_empty uns tr w : msg_run (empty_mworld uns) tr w -> mworld_ok w /\ accounted tr w.
Proof.
  intros Hrun. eapply msg_run_ok; [exact Hrun | apply empty_mworld_ok |]. split; [constructor |]. intros q Hq. by apply not_elem_of_nil in Hq.
Qed.

(** ** Properties *)

(** C7: messages of one type are received in the order they were sent, and
    none is lost, made up or duplicated. In every run from an empty namespace,
    whatever the calls, their msgtyp and flags, and however they were put to
    sleep and woken, the messages of a type sent to a queue are, in order, those
    received from it followed by those still in it. *)
Theorem msg_fifo_per_type uns tr w q T :
  msg_run (empty_mworld uns) tr w -> q ∈ msg_queues (mw_ns w) ->
  typed T (sent_msgs (q_ptr q) tr) = typed T (got_msgs (q_ptr q) tr) ++ typed T (q_messages q).
Proof. intros Hrun Hq. destruct (run_from_empty _ _ _ Hrun) as [_ [_ Ha]]. by apply Ha. Qed.

(** No wakeup is lost. A msgsnd or msgrcv that is asleep and that nobody
    has notified since it went to sleep could not proceed: its queue is not
    removed, and a sender's message does not fit the queue, or a receiver finds
    no message. *)
Theorem msg_no_lost_wakeup uns tr w x :
  msg_run (empty_mworld uns) tr w -> x ∈ mw_sl w -> ml_woken x = false ->
  exists q, q ∈ msg_queues (mw_ns w) /\ q_ptr q = ml_ptr x /\ q_removed q = false /\
    match ml_call x with
    | Sending msg _ => q_qbytes q < q_cbytes q + m_size msg
    | Receiving _ typ flg => msg_pick q typ flg = None
    end.
Proof.
  intros Hrun Hx Hn. destruct (run_from_empty _ _ _ Hrun) as [Hw _]. destruct (wa_here _ _ _ _ _ _ _ Hw x Hx) as (q & Hq & Eq).
  exists q. split; [done |]. split; [done |]. destruct (wa_obj _ _ _ _ _ _ _ Hw q Hq) as [[_ Hsl _] _].
  rewrite Forall_forall in Hsl. destruct (Hsl x) as (_ & _ & Hst); [by apply on_elem |]. by apply Hst.
Qed.

(** Every reachable namespace is in order. A queue's byte and message
    counts are those of its messages, each of a positive type and at most MSGMAX
    bytes; its waiter count is the number of calls asleep on it; the queue a
    call sleeps on is still allocated, and a removed queue is kept only for its
    sleepers; when nobody sleeps, tearing the namespace down frees everything. *)
Theorem msg_namespace_ok uns tr w :
  msg_run (empty_mworld uns) tr w ->
  (forall q, q ∈ msg_queues (mw_ns w) ->
     queue_ok q /\ q_waiters q = Z.of_nat (length (mslept (q_ptr q) (mw_sl w))) /\ (q_removed q = true -> 0 < q_waiters q)) /\
  (forall x, x ∈ mw_sl w -> exists q, q ∈ msg_queues (mw_ns w) /\ q_ptr q = ml_ptr x) /\
  (mw_sl w = [] -> msg_queues (msg_ns_teardown (mw_ns w)) = []).
Proof.
  intros Hrun. destruct (run_from_empty _ _ _ Hrun) as [Hw _]. split; [| split].
  - intros q Hq. destruct (wa_obj _ _ _ _ _ _ _ Hw q Hq) as [[Hok _ Hww] Hr]. do 2 (split; [done |]).
    intros Hr'. specialize (Hr Hr'). rewrite Hww. destruct (mslept (q_ptr q) (mw_sl w)); [done | simpl; lia].
  - apply (wa_here _ _ _ _ _ _ _ Hw).
  - intros E. destruct w as [ns sl]. simpl in *. subst sl. by apply msg_teardown_empties.
Qed.

End Steps.

(** ** Witnesses *)

(** A page holding a message of type 3 with one byte. *)
Definition msg_mem : guest_abi * mem :=
  (GUEST_ABI_AMD64, mk_mem {[ 5 := mk_page (list_inserts 0 [3; 0; 0; 0; 0; 0; 0; 0; 9] (replicate 4096 0)) true true true ]} 1048576).
Definition one_queue : msg_ns := (sys_msgget_guest true (mk_mns [] 1 None 0) msg_caller 42 (IPC_CREAT_ + 384)).1.
Definition a_receiver : msleeper := mk_msl 0 msg_caller (Receiving 16 3 0) false.
Definition receiving_ns : msg_ns := (msgrcv_attempt ∅ one_queue msg_caller 1 16 3 0).1.1.
Definition sent_ns : msg_ns := (msgsnd_attempt ∅ true msg_mem GUEST_ABI_AMD64 receiving_ns msg_caller 1 20480 1 0).1.1.
Definition nine : msg_msg := mk_msg 3 1 [9].

Lemma msg_mem_ok : gm_ok msg_mem.
Proof.
  intros n pg H. cbn [mem_pages msg_mem snd] in H. apply lookup_singleton_Some in H as [_ <-].
  split; [by vm_compute |]. apply Forall_inserts; [apply Forall_replicate; unfold in_u; lia |].
  repeat constructor; lia.
Qed.

Lemma receiving_run : msg_run (M := guest_abi * mem) ∅ (empty_mworld None) [] (mk_mworld receiving_ns [a_receiver]).
Proof.
  apply (Run_step ∅ _ [] (mk_mworld one_queue []) []); [apply (Run_step ∅ _ [] (empty_mworld None) []); [constructor | apply Ms_get] |].
  apply (Ms_recv_sleep ∅ one_queue [] msg_caller 1 16 3 0 receiving_ns); [simpl; lia | vm_compute; reflexivity].
Qed.

Lemma sent_run : msg_run (M := guest_abi * mem) ∅ (empty_mworld None) [Sent 0 nine] (mk_mworld sent_ns [mwoken a_receiver]).
Proof.
  apply (Run_step ∅ _ [] (mk_mworld receiving_ns [a_receiver]) [Sent 0 nine]); [exact receiving_run |].
  apply (Ms_send ∅ true msg_mem GUEST_ABI_AMD64 receiving_ns [a_receiver] msg_caller 1 20480 1 0 sent_ns (Some nine) 0);
    [exact msg_mem_ok | lia | lia | | vm_compute; reflexivity].
  intros q Hq. apply list_elem_of_singleton in Hq as ->. by vm_compute.
Qed.

Lemma msg_fifo_per_type_witness : exists q, q ∈ msg_queues sent_ns /\ q_messages q = [nine].
Proof.
  eexists. split; [left |]. pose proof (msg_fifo_per_type (M := guest_abi * mem) ∅ None _ _ _ 3 sent_run ltac:(left)) as E.
  vm_compute in E. exact (eq_sym E).
Defined.

Lemma msg_no_lost_wakeup_witness : exists q, q ∈ msg_queues receiving_ns /\ msg_pick q 3 0 = None.
Proof.
  destruct (msg_no_lost_wakeup (M := guest_abi * mem) ∅ None [] (mk_mworld receiving_ns [a_receiver]) a_receiver receiving_run) as (q & Hq & _ & _ & Hp);
    [left | reflexivity |]. exists q. split; [exact Hq | exact Hp].
Defined.

Lemma msg_namespace_ok_witness : exists q, q ∈ msg_queues sent_ns /\ queue_ok q /\ q_cbytes q = 1 /\ q_waiters q = 1.
Proof.
  destruct (msg_namespace_ok (M := guest_abi * mem) ∅ None _ _ sent_run) as [H _]. eexists. split; [left |].
  split; [apply H; left |]. vm_compute. split; reflexivity.
Defined.
