(* ===== verification/Zpool.v ===== *)
(** * The pool of compressed pages (kernel/zpool.c)

    A slab is a block of [object_max] bytes carved into equal entries; free
    entries are threaded into a list through their own first two bytes, and the
    slabs of a class that have a free entry into another through
    [next_partial].  A handle packs slab, entry and size into 64 bits.  The
    theorems: the pool implements a finite map from handles to byte strings,
    with exact statistics, and no handle whatever makes it touch memory outside
    a slab's entry. *)

From Stdlib Require Import ZifyBool.
From S2P Require Import Prelude.

Definition ZPOOL_GRANULE := 256.
Definition ZPOOL_OBJECT_MAX := 16384.
Definition ZPOOL_CLASSES := ZPOOL_OBJECT_MAX / ZPOOL_GRANULE.
Definition ZPOOL_HANDLE_NONE := 0.
Definition ZPOOL_NO_ENTRY := 0xFFFF.
Definition UINT32_MAX := 2 ^ 32 - 1.

Record zpool_stats := mk_stats {
  objects : Z; stored_bytes : Z; pool_bytes : Z; stores : Z; loads : Z; frees : Z; store_failures : Z; nslabs : Z }.

Record zpool_slab := mk_slab { smem : list Z; class_index : Z; entries : Z; used : Z; free_head : Z; next_partial : Z }.

(** [slab_count] is the length of [slabs]. *)
Record zpool := mk_pool {
  slabs : list zpool_slab; object_max : Z; classes : Z; slab_capacity : Z; partial : list Z; max_bytes : Z; stats : zpool_stats }.

Definition set_slabs (l : list zpool_slab) (p : zpool) : zpool :=
  mk_pool l (object_max p) (classes p) (slab_capacity p) (partial p) (max_bytes p) (stats p).
Definition set_partial (l : list Z) (p : zpool) : zpool :=
  mk_pool (slabs p) (object_max p) (classes p) (slab_capacity p) l (max_bytes p) (stats p).
Definition set_capacity (c : Z) (p : zpool) : zpool :=
  mk_pool (slabs p) (object_max p) (classes p) c (partial p) (max_bytes p) (stats p).
Definition set_stats (st : zpool_stats) (p : zpool) : zpool :=
  mk_pool (slabs p) (object_max p) (classes p) (slab_capacity p) (partial p) (max_bytes p) st.

Definition set_next (n : Z) (s : zpool_slab) : zpool_slab := mk_slab (smem s) (class_index s) (entries s) (used s) (free_head s) n.
Definition set_head (h u : Z) (s : zpool_slab) : zpool_slab := mk_slab (smem s) (class_index s) (entries s) u h (next_partial s).
Definition set_mem (m : list Z) (s : zpool_slab) : zpool_slab := mk_slab m (class_index s) (entries s) (used s) (free_head s) (next_partial s).

Definition class_entry_size (c : Z) : Z := (c + 1) * ZPOOL_GRANULE.

(** [entry_ptr] as an offset into the slab. *)
Definition entry_ptr (s : zpool_slab) (entry : Z) : Z := entry * class_entry_size (class_index s).

Definition zpool_create (alloc_ok : bool) (maxb objmax : Z) : option zpool :=
  if (objmax =? 0) || (objmax >? ZPOOL_OBJECT_MAX) || negb (objmax mod ZPOOL_GRANULE =? 0) then None else
  if negb alloc_ok then None else
  Some (mk_pool [] objmax (u16 (objmax / ZPOOL_GRANULE)) 0 (replicate (Z.to_nat ZPOOL_CLASSES) 0) maxb (mk_stats 0 0 0 0 0 0 0 0)).

(** What the allocator answers: realloc, and malloc with the block's contents. *)
Record zallocs := mk_zallocs { realloc_ok : bool; malloc_block : option (list Z) }.

(** The loop that threads the free list through entries [e], [e+1], ... *)
Fixpoint thread_free (n : nat) (s : zpool_slab) (e : Z) : zpool_slab :=
  match n with
  | O => s
  | S n => thread_free n (set_mem (put_bytes (smem s) (entry_ptr s e)
             (le_bytes 2 (u16 (if e + 1 =? entries s then ZPOOL_NO_ENTRY else e + 1)))) s) (e + 1)
  end.

(** Room for one more slab in the table. *)
Definition grow_table (al : zallocs) (p : zpool) : option zpool :=
  if Z.of_nat (length (slabs p)) =? slab_capacity p then
    if realloc_ok al then Some (set_capacity (if slab_capacity p =? 0 then 16 else u32 (slab_capacity p * 2)) p) else None
  else Some p.

Definition slab_new (al : zallocs) (p : zpool) (c : Z) : zpool * Z :=
  if negb (max_bytes p =? 0) && (u64 (pool_bytes (stats p) + object_max p) >? max_bytes p) then (p, UINT32_MAX) else
  match grow_table al p, malloc_block al with
  | None, _ => (p, UINT32_MAX)
  | Some p, None => (p, UINT32_MAX)
  | Some p, Some mem =>
      let idx := Z.of_nat (length (slabs p)) in
      let slab := mk_slab mem c (u16 (object_max p / class_entry_size c)) 0 0 (nth (Z.to_nat c) (partial p) 0) in
      let slab := thread_free (Z.to_nat (entries slab)) slab 0 in
      let st := stats p in
      (set_stats (mk_stats (objects st) (stored_bytes st) (u64 (pool_bytes st + object_max p)) (stores st) (loads st) (frees st)
                    (store_failures st) (u64 (nslabs st + 1)))
         (set_partial (<[Z.to_nat c := u32 (idx + 1)]> (partial p)) (set_slabs (slabs p ++ [slab]) p)), idx)
  end.

(** The loop of partial_remove from a slab on, [prev] being the slab whose
    [next_partial] the link is. *)
Fixpoint partial_unlink (fuel : nat) (sl : list zpool_slab) (prev idx : Z) : list zpool_slab :=
  match fuel with
  | O => sl
  | S fuel =>
      let link := match sl !! Z.to_nat prev with Some s => next_partial s | None => 0 end in
      if link =? 0 then sl else
      let cur := link - 1 in
      if cur =? idx then
        let nx := match sl !! Z.to_nat cur with Some s => next_partial s | None => 0 end in
        alter (set_next 0) (Z.to_nat cur) (alter (set_next nx) (Z.to_nat prev) sl)
      else partial_unlink fuel sl cur idx
  end.

Definition partial_remove (p : zpool) (idx : Z) : zpool :=
  match slabs p !! Z.to_nat idx with
  | None => p
  | Some slab =>
      let c := Z.to_nat (class_index slab) in
      let link := nth c (partial p) 0 in
      if link =? 0 then p else
      let cur := link - 1 in
      if cur =? idx then
        let nx := match slabs p !! Z.to_nat cur with Some s => next_partial s | None => 0 end in
        set_slabs (alter (set_next 0) (Z.to_nat cur) (slabs p)) (set_partial (<[c := nx]> (partial p)) p)
      else set_slabs (partial_unlink (length (slabs p)) (slabs p) cur idx) p
  end.

(** zpool_store once it has a slab with a free entry: take the entry, drop the
    slab from its list when it is the last, copy, count, and make the handle. *)
Definition store_at (p : zpool) (idx : Z) (data : list Z) : zpool * Z :=
  let size := Z.of_nat (length data) in
  match slabs p !! Z.to_nat idx with
  | None => (p, ZPOOL_HANDLE_NONE)
  | Some slab =>
      let entry := free_head slab in
      let next := le_num (get_bytes (smem slab) (entry_ptr slab entry) 2) in
      let p := set_slabs (alter (set_head next (u16 (used slab + 1))) (Z.to_nat idx) (slabs p)) p in
      let p := if next =? ZPOOL_NO_ENTRY then partial_remove p idx else p in
      let p := set_slabs (alter (fun s => set_mem (put_bytes (smem s) (entry_ptr s entry) data) s) (Z.to_nat idx) (slabs p)) p in
      let st := stats p in
      (set_stats (mk_stats (u64 (objects st + 1)) (u64 (stored_bytes st + size)) (pool_bytes st) (u64 (stores st + 1)) (loads st)
         (frees st) (store_failures st) (nslabs st)) p,
       u64 (Z.shiftl (u32 (idx + 1)) 24) .| u64 (Z.shiftl entry 14) .| size)
  end.

Definition store_fails (p : zpool) : zpool * Z :=
  let st := stats p in
  (set_stats (mk_stats (objects st) (stored_bytes st) (pool_bytes st) (stores st) (loads st) (frees st)
     (u64 (store_failures st + 1)) (nslabs st)) p, ZPOOL_HANDLE_NONE).

Definition zpool_store (al : zallocs) (p : zpool) (data : list Z) : zpool * Z :=
  let size := Z.of_nat (length data) in
  if (size =? 0) || (size >=? object_max p) then store_fails p else
  let c := u16 ((size + ZPOOL_GRANULE - 1) / ZPOOL_GRANULE - 1) in
  let head := nth (Z.to_nat c) (partial p) 0 in
  if negb (head =? 0) then store_at p (head - 1) data else
  let '(p, idx) := slab_new al p c in
  if idx =? UINT32_MAX then store_fails p else store_at p idx data.

(** Slab index, entry and size, when the handle passes the checks. *)
Definition handle_decode (p : zpool) (handle : Z) : option (Z * zpool_slab * Z * Z) :=
  if handle =? ZPOOL_HANDLE_NONE then None else
  let slab_id := Z.shiftr handle 24 in
  let entry := u16 (Z.shiftr handle 14 .& 0x3FF) in
  let size := handle .& 0x3FFF in
  if (slab_id =? 0) || (slab_id >? Z.of_nat (length (slabs p))) || (size =? 0) then None else
  match slabs p !! Z.to_nat (slab_id - 1) with
  | None => None
  | Some slab =>
      if entry >=? entries slab then None else
      if size >? class_entry_size (class_index slab) then None else Some (slab_id - 1, slab, entry, size)
  end.

(** The bytes copied out, when it answers true. *)
Definition zpool_load (p : zpool) (handle out_size : Z) : zpool * option (list Z) :=
  match handle_decode p handle with
  | None => (p, None)
  | Some (_, slab, entry, size) =>
      if out_size <? size then (p, None) else
      let st := stats p in
      (set_stats (mk_stats (objects st) (stored_bytes st) (pool_bytes st) (stores st) (u64 (loads st + 1)) (frees st)
         (store_failures st) (nslabs st)) p, Some (get_bytes (smem slab) (entry_ptr slab entry) size))
  end.

Definition zpool_free (p : zpool) (handle : Z) : zpool :=
  match handle_decode p handle with
  | None => p
  | Some (idx, slab, entry, size) =>
      let was_full := free_head slab =? ZPOOL_NO_ENTRY in
      let slab := set_mem (put_bytes (smem slab) (entry_ptr slab entry) (le_bytes 2 (free_head slab))) slab in
      let slab := set_head entry (u16 (used slab - 1)) slab in
      let c := Z.to_nat (class_index slab) in
      let slab := if was_full then set_next (nth c (partial p) 0) slab else slab in
      let p := set_slabs (<[Z.to_nat idx := slab]> (slabs p)) p in
      let p := if was_full then set_partial (<[c := u32 (u32 idx + 1)]> (partial p)) p else p in
      let st := stats p in
      set_stats (mk_stats (u64 (objects st - 1)) (u64 (stored_bytes st - size)) (pool_bytes st) (stores st) (loads st)
         (u64 (frees st + 1)) (store_failures st) (nslabs st)) p
  end.

Definition zpool_get_stats (p : option zpool) : zpool_stats :=
  match p with None => mk_stats 0 0 0 0 0 0 0 0 | Some p => stats p end.

(** ** Linked lists

    The nodes visited from [h] following [nxt] until [stop]. *)

Fixpoint chain (nxt : Z -> Z) (stop h : Z) (l : list Z) : Prop :=
  match l with [] => h = stop | e :: r => h = e /\ e <> stop /\ chain nxt stop (nxt e) r end.

Lemma chain_ext nxt nxt' stop h l : (forall e, e ∈ l -> nxt' e = nxt e) -> chain nxt stop h l -> chain nxt' stop h l.
Proof.
  revert h. induction l as [| e l IH]; intros h Hext Hc; [done |]. destruct Hc as (-> & Hne & Hc).
  split; [done |]. split; [done |]. rewrite Hext by left. apply IH; [| done]. intros f Hf. apply Hext. by right.
Qed.

Lemma chain_stop nxt stop l : chain nxt stop stop l -> l = [].
Proof. destruct l; [done |]. intros (-> & Hne & _). done. Qed.

Lemma chain_head nxt stop h l : chain nxt stop h l -> h <> stop -> exists r, l = h :: r /\ chain nxt stop (nxt h) r.
Proof. destruct l as [| e r]; simpl; [naive_solver |]. intros (-> & _ & Hc) _. by exists r. Qed.

(** ** Invariant *)

Definition next_free (s : zpool_slab) (e : Z) : Z := le_num (get_bytes (smem s) (entry_ptr s e) 2).

(** A slab, its free list and the objects in its other entries. *)
Record slab_ok (om : Z) (s : zpool_slab) (fr : list Z) (live : gmap Z (list Z)) : Prop := mk_slab_ok {
  sl_len : Z.of_nat (length (smem s)) = om;
  sl_class : 0 <= class_index s < om / ZPOOL_GRANULE;
  sl_entries : entries s = om / class_entry_size (class_index s);
  sl_chain : chain (next_free s) ZPOOL_NO_ENTRY (free_head s) fr;
  sl_nodup : NoDup fr;
  sl_free : forall e, e ∈ fr <-> 0 <= e < entries s /\ live !! e = None;
  sl_live : forall e d, live !! e = Some d -> 0 <= e < entries s /\ 0 < Z.of_nat (length d) < om /\
    Z.of_nat (length d) <= class_entry_size (class_index s) /\ get_bytes (smem s) (entry_ptr s e) (Z.of_nat (length d)) = d;
  sl_used : used s = Z.of_nat (size live) }.

Definition om_ok (om : Z) : Prop := 256 <= om <= 16384 /\ om mod 256 = 0.

(** The slab a link (index plus one) names. *)
Definition next_link (p : zpool) (v : Z) : Z := match slabs p !! Z.to_nat (v - 1) with Some s => next_partial s | None => 0 end.

(** A pool, its slabs' free lists and objects, and its lists of partial slabs. *)
Record pool_inv (p : zpool) (FR : nat -> list Z) (LV : nat -> gmap Z (list Z)) (PL : Z -> list Z) : Prop := mk_pool_inv {
  pi_om : om_ok (object_max p);
  pi_plen : length (partial p) = Z.to_nat ZPOOL_CLASSES;
  pi_count : Z.of_nat (length (slabs p)) <= 2 ^ 31;
  pi_slab : forall i s, slabs p !! i = Some s -> slab_ok (object_max p) s (FR i) (LV i);
  pi_out : forall i, (length (slabs p) <= i)%nat -> LV i = ∅;
  pi_chain : forall c, 0 <= c < ZPOOL_CLASSES -> chain (next_link p) 0 (nth (Z.to_nat c) (partial p) 0) (PL c);
  pi_pnodup : forall c, NoDup (PL c);
  pi_part : forall c v, 0 <= c < ZPOOL_CLASSES ->
    v ∈ PL c <-> exists i s, v = Z.of_nat i + 1 /\ slabs p !! i = Some s /\ class_index s = c /\ FR i <> [] }.

(** The handle of an object. *)
Definition handle_of (i : nat) (e : Z) (size : Z) : Z := (Z.of_nat i + 1) * 2 ^ 24 + e * 2 ^ 14 + size.

(** The finite map a pool stands for. *)
Definition abs (LV : nat -> gmap Z (list Z)) (M : gmap Z (list Z)) : Prop :=
  forall h d, M !! h = Some d <-> exists i e, LV i !! e = Some d /\ h = handle_of i e (Z.of_nat (length d)).

Definition total_size (M : gmap Z (list Z)) : Z := map_fold (fun _ d acc => Z.of_nat (length d) + acc) 0 M.

(** The pool holds exactly the objects of [M], and its statistics say so. *)
Definition pool_holds (p : zpool) (M : gmap Z (list Z)) : Prop :=
  exists FR LV PL, pool_inv p FR LV PL /\ abs LV M /\ objects (stats p) = u64 (Z.of_nat (size M)) /\
    stored_bytes (stats p) = u64 (total_size M) /\ pool_bytes (stats p) = u64 (object_max p * Z.of_nat (length (slabs p))).

(** ** Entries *)

Lemma slot_bounds om s e :
  om_ok om -> 0 <= class_index s < om / ZPOOL_GRANULE -> entries s = om / class_entry_size (class_index s) -> 0 <= e < entries s ->
  0 <= entry_ptr s e /\ entry_ptr s e + class_entry_size (class_index s) <= om /\ 256 <= class_entry_size (class_index s) /\ entries s <= 64.
Proof.
  intros [Hom Hmod] Hc Hen He. unfold entry_ptr, class_entry_size, ZPOOL_GRANULE in *.
  assert (0 < (class_index s + 1) * 256) by lia.
  pose proof (Z.mul_div_le om ((class_index s + 1) * 256) ltac:(lia)).
  assert (om / ((class_index s + 1) * 256) <= 64). { apply Z.div_le_upper_bound; [lia |]. nia. }
  rewrite <- Hen in *. nia.
Qed.

Lemma entry_bounds om s fr lv e : om_ok om -> slab_ok om s fr lv -> 0 <= e < entries s ->
  0 <= entry_ptr s e /\ entry_ptr s e + class_entry_size (class_index s) <= om /\ 256 <= class_entry_size (class_index s) /\ entries s <= 64.
Proof. intros Hom [? ? ? ? ? ? ? ?] He. by apply slot_bounds. Qed.

(** Distinct entries do not overlap. *)
Lemma entries_apart s e f : 0 <= e -> 0 <= f -> e <> f -> 0 <= class_index s ->
  entry_ptr s f + class_entry_size (class_index s) <= entry_ptr s e \/ entry_ptr s e + class_entry_size (class_index s) <= entry_ptr s f.
Proof. intros He Hf Hne Hc. unfold entry_ptr, class_entry_size, ZPOOL_GRANULE. nia. Qed.

Lemma slab_ok_next om s fr lv n : slab_ok om s fr lv -> slab_ok om (set_next n s) fr lv.
Proof. intros [? ? ? ? ? ? ? ?]. by split. Qed.

Lemma chain_next_free om s s' fr lv e bs h :
  om_ok om -> slab_ok om s fr lv -> 0 <= e -> Z.of_nat (length bs) <= class_entry_size (class_index s) ->
  smem s' = put_bytes (smem s) (entry_ptr s e) bs -> class_index s' = class_index s ->
  forall l, (forall f, f ∈ l -> 0 <= f < entries s /\ f <> e) -> chain (next_free s) ZPOOL_NO_ENTRY h l -> chain (next_free s') ZPOOL_NO_ENTRY h l.
Proof.
  intros Hom Hs He Hlen Em Ec l Hl. apply chain_ext. intros f Hf. destruct (Hl f Hf) as [Hfr Hne].
  destruct (entry_bounds om s fr lv f Hom Hs Hfr) as (B1 & B2 & B3 & _). pose proof (sl_class _ _ _ _ Hs).
  unfold next_free, entry_ptr. rewrite Em, Ec. fold (entry_ptr s f). f_equal. apply get_put_other; [unfold entry_ptr; nia | done | lia |].
  destruct (entries_apart s e f) as [H1 | H1]; [done | lia | done | lia | left | right]; lia.
Qed.

(** The other entries' bytes are not touched. *)
Lemma live_kept om s s' fr lv e bs f d :
  om_ok om -> slab_ok om s fr lv -> 0 <= e -> Z.of_nat (length bs) <= class_entry_size (class_index s) ->
  smem s' = put_bytes (smem s) (entry_ptr s e) bs -> class_index s' = class_index s -> lv !! f = Some d -> f <> e ->
  get_bytes (smem s') (entry_ptr s' f) (Z.of_nat (length d)) = d.
Proof.
  intros Hom Hs He Hlen Em Ec Hf Hne. destruct (sl_live _ _ _ _ Hs f d Hf) as (Hfr & Hd & Hd2 & Hg).
  destruct (entry_bounds om s fr lv f Hom Hs Hfr) as (B1 & B2 & B3 & _). pose proof (sl_class _ _ _ _ Hs).
  unfold entry_ptr. rewrite Em, Ec. fold (entry_ptr s f). rewrite get_put_other; [done | unfold entry_ptr; nia | done | lia |].
  destruct (entries_apart s e f) as [H1 | H1]; [done | lia | done | lia | left | right]; lia.
Qed.

Lemma live_count om s fr lv : om_ok om -> slab_ok om s fr lv -> Z.of_nat (size lv) <= 64.
Proof.
  intros Hom Hs. destruct (decide (lv = ∅)) as [-> | Hne]; [rewrite map_size_empty; lia |].
  apply map_choose in Hne as (e & d & He). destruct (sl_live _ _ _ _ Hs e d He) as (Hr & _).
  destruct (entry_bounds om s fr lv e Hom Hs Hr) as (_ & _ & _ & H64).
  assert (dom lv ⊆ (list_to_set (seqZ 0 (entries s)) : gset Z)) as Hsub.
  { intros f Hf. apply elem_of_dom in Hf as [x Hx]. destruct (sl_live _ _ _ _ Hs f x Hx) as (Hfr & _).
    apply elem_of_list_to_set, elem_of_seqZ. lia. }
  apply subseteq_size in Hsub. rewrite size_dom, size_list_to_set, length_seqZ in Hsub by apply NoDup_seqZ. lia.
Qed.

Lemma slab_take om s e fr lv data :
  om_ok om -> slab_ok om s (e :: fr) lv -> 0 < Z.of_nat (length data) < om -> Z.of_nat (length data) <= class_entry_size (class_index s) ->
  slab_ok om (set_mem (put_bytes (smem s) (entry_ptr s e) data) (set_head (next_free s e) (u16 (used s + 1)) s)) fr (<[e := data]> lv).
Proof.
  intros Hom Hs Hd Hd2. pose proof (live_count _ _ _ _ Hom Hs) as H64. pose proof Hs as [L C E CH ND FR LV U].
  apply NoDup_cons in ND as [Hni ND]. destruct (proj1 (FR e) ltac:(left)) as [Her Hen]. destruct CH as (Eh & Hns & CH).
  assert (forall f, f ∈ fr -> 0 <= f < entries s /\ f <> e) as Hfr.
  { intros f Hf. destruct (proj1 (FR f) ltac:(by right)) as [? ?]. split; [done |]. congruence. }
  destruct (entry_bounds om s _ lv e Hom Hs Her) as (B1 & B2 & B3 & _).
  split; cbn [smem class_index entries free_head used set_mem set_head]; [by rewrite put_bytes_length | done | done | | done | | |].
  - eapply (chain_next_free om s); [done | exact Hs | apply Her | exact Hd2 | done | done | exact Hfr | exact CH].
  - intros f. split.
    + intros Hf. destruct (Hfr f Hf) as [Hr Hne]. split; [done |]. rewrite lookup_insert_ne by done. apply FR. by right.
    + intros [Hr Hl]. destruct (decide (f = e)) as [-> | Hne]; [by rewrite lookup_insert in Hl; case_decide |].
      rewrite lookup_insert_ne in Hl by done. assert (f ∈ e :: fr) as Hin by (by apply FR). apply elem_of_cons in Hin. naive_solver.
  - intros f d Hf. destruct (decide (f = e)) as [-> | Hne].
    + rewrite lookup_insert in Hf. case_decide; [| done]. simplify_eq. do 3 (split; [done |]).
      apply (get_put_same (smem s) (entry_ptr s _) d); [done | done | lia].
    + rewrite lookup_insert_ne in Hf by done. destruct (LV f d Hf) as (Hr & Hl1 & Hl2 & _). do 3 (split; [done |]).
      eapply (live_kept om s); [done | exact Hs | apply Her | exact Hd2 | done | done | exact Hf | done].
  - rewrite map_size_insert_None by done. rewrite U. unfold u16. rewrite wrap_small by (unfold in_u; lia). lia.
Qed.

Lemma le_num_le_bytes2 x : 0 <= x < 65536 -> le_num (le_bytes 2 x) = x.
Proof. intros Hx. simpl. pose proof (Z.div_mod x 256 ltac:(lia)). assert (x / 256 < 256) by (apply Z.div_lt_upper_bound; lia).
  assert (0 <= x / 256) by (apply Z.div_pos; lia). rewrite (Z.mod_small (x / 256)) by lia. lia. Qed.

Lemma free_head_range om s fr lv : om_ok om -> slab_ok om s fr lv -> 0 <= free_head s < 65536.
Proof.
  intros Hom Hs. pose proof (sl_chain _ _ _ _ Hs) as Hc. destruct fr as [| e fr]; simpl in Hc; [rewrite Hc; unfold ZPOOL_NO_ENTRY; lia |].
  destruct Hc as (-> & _). destruct (proj1 (sl_free _ _ _ _ Hs e) ltac:(left)) as [He _].
  destruct (entry_bounds om s _ lv e Hom Hs He) as (_ & _ & _ & H64). lia.
Qed.

Lemma next_free_put s s' e bs :
  smem s' = put_bytes (smem s) (entry_ptr s e) bs -> class_index s' = class_index s -> length bs = 2%nat ->
  0 <= entry_ptr s e -> entry_ptr s e + 2 <= Z.of_nat (length (smem s)) -> next_free s' e = le_num bs.
Proof.
  intros Em Ec Hb H0 H1. unfold next_free, entry_ptr. rewrite Em, Ec. fold (entry_ptr s e). rewrite get_put_same; [done | done | lia | lia].
Qed.

Lemma slab_give om s e fr lv d :
  om_ok om -> slab_ok om s fr lv -> lv !! e = Some d ->
  slab_ok om (set_head e (u16 (used s - 1)) (set_mem (put_bytes (smem s) (entry_ptr s e) (le_bytes 2 (free_head s))) s)) (e :: fr) (delete e lv).
Proof.
  intros Hom Hs He. pose proof (live_count _ _ _ _ Hom Hs) as H64. pose proof (free_head_range _ _ _ _ Hom Hs) as Hfh.
  pose proof Hs as [L C E CH ND FR LV U]. destruct (LV e d He) as (Her & Hd & Hd2 & Hg).
  destruct (entry_bounds om s _ lv e Hom Hs Her) as (B1 & B2 & B3 & B4).
  assert (forall f, f ∈ fr -> 0 <= f < entries s /\ f <> e) as Hfr.
  { intros f Hf. destruct (proj1 (FR f) Hf) as [? ?]. split; [done |]. congruence. }
  split; cbn [smem class_index entries free_head used set_mem set_head]; [by rewrite put_bytes_length | done | done | | | | |].
  - split; [done |]. split; [unfold ZPOOL_NO_ENTRY; lia |]. rewrite (next_free_put s _ e (le_bytes 2 (free_head s))), le_num_le_bytes2; try done; try lia.
    eapply (chain_next_free om s _ fr lv e (le_bytes 2 (free_head s))); [done | exact Hs | apply Her | simpl; lia | done | done | exact Hfr | exact CH].
  - constructor; [| done]. intros Hin. by destruct (Hfr e Hin).
  - intros f. rewrite elem_of_cons. destruct (decide (f = e)) as [-> | Hne].
    + rewrite lookup_delete_eq. naive_solver.
    + rewrite lookup_delete_ne by done. rewrite FR. naive_solver.
  - intros f x Hf. apply lookup_delete_Some in Hf as [Hne Hf]. destruct (LV f x Hf) as (Hr & Hl1 & Hl2 & _). do 3 (split; [done |]).
    set (bs := le_bytes 2 (free_head s)).
    apply (live_kept om s (set_head e (u16 (used s - 1)) (set_mem (put_bytes (smem s) (entry_ptr s e) bs) s)) fr lv e bs f x);
      [done | done | lia | simpl; lia | done | done | done | done].
  - rewrite map_size_delete_Some by (by rewrite He). assert (size lv <> 0%nat) as Hnz.
    { intros H0. apply map_size_empty_inv in H0. rewrite H0 in He. done. }
    rewrite U. unfold u16. rewrite wrap_small by (unfold in_u; lia). lia.
Qed.

(** ** A new slab *)

Lemma thread_free_spec n s e om :
  om_ok om -> 0 <= class_index s < om / ZPOOL_GRANULE -> Z.of_nat (length (smem s)) = om -> entries s = om / class_entry_size (class_index s) ->
  0 <= e -> e + Z.of_nat n = entries s ->
  let s' := thread_free n s e in
  length (smem s') = length (smem s) /\ class_index s' = class_index s /\ entries s' = entries s /\ used s' = used s /\
  free_head s' = free_head s /\ next_partial s' = next_partial s /\
  (forall f, 0 <= f < e -> next_free s' f = next_free s f) /\
  (forall f, e <= f < entries s -> next_free s' f = if f + 1 =? entries s then ZPOOL_NO_ENTRY else f + 1).
Proof.
  intros Hom. revert s e. induction n as [| n IH]; intros s e Hc Hl Hen He Hn; cbn [thread_free]; [repeat split; lia |].
  set (bs := le_bytes 2 (u16 (if e + 1 =? entries s then ZPOOL_NO_ENTRY else e + 1))).
  set (s1 := set_mem (put_bytes (smem s) (entry_ptr s e) bs) s).
  destruct (IH s1 (e + 1)) as (I1 & I2 & I3 & I4 & I5 & I6 & I7 & I8); [done | by unfold s1; simpl; rewrite put_bytes_length | done | lia | simpl; lia |].
  destruct (slot_bounds om s e Hom Hc Hen ltac:(lia)) as (B1 & B2 & B3 & B4).
  split; [rewrite I1; apply put_bytes_length |]. do 5 (split; [done |]). split.
  - intros f Hf. rewrite I7 by lia. unfold next_free. f_equal. apply get_put_other; [done | unfold entry_ptr, class_entry_size, ZPOOL_GRANULE; simpl; nia | lia |].
    left. destruct (entries_apart s e f) as [Ha | Ha]; [done | lia | lia | lia | |]; change (entry_ptr s1 f) with (entry_ptr s f); [lia |].
    unfold entry_ptr in *. nia.
  - intros f Hf. destruct (decide (f = e)) as [-> | Hne]; [| apply I8; simpl; lia].
    rewrite I7 by lia. rewrite (next_free_put s s1 e bs); [| done | done | done | done | lia].
    unfold bs. rewrite le_num_le_bytes2; unfold u16; rewrite ?wrap_small; unfold in_u, ZPOOL_NO_ENTRY; case_match; lia.
Qed.

Lemma chain_seq (nxt : Z -> Z) n m :
  (forall f, m - Z.of_nat n <= f < m -> nxt f = if f + 1 =? m then ZPOOL_NO_ENTRY else f + 1) -> 0 < m < 65535 -> 0 <= m - Z.of_nat n ->
  chain nxt ZPOOL_NO_ENTRY (if Z.of_nat n =? 0 then ZPOOL_NO_ENTRY else m - Z.of_nat n) (seqZ (m - Z.of_nat n) (Z.of_nat n)).
Proof.
  induction n as [| n IH]; intros Hf Hm Hn; [done |]. rewrite seqZ_cons by lia.
  destruct (Z.eqb_spec (Z.of_nat (S n)) 0); [lia |]. split; [done |]. split; [unfold ZPOOL_NO_ENTRY; lia |]. rewrite Hf by lia.
  replace (Z.pred (Z.of_nat (S n))) with (Z.of_nat n) by lia. replace (Z.succ (m - Z.of_nat (S n))) with (m - Z.of_nat n) by lia.
  replace (if m - Z.of_nat (S n) + 1 =? m then ZPOOL_NO_ENTRY else m - Z.of_nat (S n) + 1)
    with (if Z.of_nat n =? 0 then ZPOOL_NO_ENTRY else m - Z.of_nat n)
    by (destruct (Z.eqb_spec (Z.of_nat n) 0), (Z.eqb_spec (m - Z.of_nat (S n) + 1) m); lia).
  apply IH; [| done | lia]. intros f Hff. apply Hf. lia.
Qed.

Lemma class_entries om c : om_ok om -> 0 <= c < om / ZPOOL_GRANULE -> 1 <= om / class_entry_size c <= 64.
Proof.
  intros [Hom Hmod] Hc. unfold class_entry_size, ZPOOL_GRANULE in *. pose proof (Z.div_mod om 256 ltac:(lia)).
  split; [apply Z.div_le_lower_bound; lia |]. apply Z.div_le_upper_bound; [lia |]. nia.
Qed.

Lemma fresh_slab_ok om mem c nx :
  om_ok om -> 0 <= c < om / ZPOOL_GRANULE -> Z.of_nat (length mem) = om ->
  let slab := mk_slab mem c (u16 (om / class_entry_size c)) 0 0 nx in
  let s := thread_free (Z.to_nat (entries slab)) slab 0 in
  slab_ok om s (seqZ 0 (om / class_entry_size c)) ∅ /\ class_index s = c /\ next_partial s = nx.
Proof.
  intros Hom Hc Hl. pose proof (class_entries om c Hom Hc) as He. cbv zeta.
  replace (u16 (om / class_entry_size c)) with (om / class_entry_size c) by (symmetry; apply wrap_small; unfold in_u; lia).
  set (slab := mk_slab mem c (om / class_entry_size c) 0 0 nx).
  destruct (thread_free_spec (Z.to_nat (entries slab)) slab 0 om Hom Hc Hl eq_refl ltac:(lia) ltac:(simpl; lia)) as (I1 & I2 & I3 & I4 & I5 & I6 & _ & I8).
  set (s := thread_free (Z.to_nat (entries slab)) slab 0) in *. split; [| done].
  split; [rewrite I1; exact Hl | by rewrite I2 | by rewrite I3, I2 | | apply NoDup_seqZ | | done | done].
  - rewrite I5. simpl free_head. pose proof (chain_seq (next_free s) (Z.to_nat (entries slab)) (entries slab)) as Hch.
    rewrite Z2Nat.id, Z.sub_diag in Hch by (simpl; lia). destruct (Z.eqb_spec (entries slab) 0); [simpl in *; lia |]. apply Hch; [exact I8 | simpl; lia | lia].
  - intros e. rewrite elem_of_seqZ, I3. simpl entries. rewrite lookup_empty. naive_solver lia.
Qed.

(** ** The pool *)

Definition upd {A} (f : nat -> A) (i : nat) (x : A) : nat -> A := fun j => if Nat.eqb j i then x else f j.
Definition updz {A} (f : Z -> A) (i : Z) (x : A) : Z -> A := fun j => if j =? i then x else f j.

Lemma upd_same {A} (f : nat -> A) i x : upd f i x i = x.
Proof. unfold upd. by rewrite Nat.eqb_refl. Qed.
Lemma upd_other {A} (f : nat -> A) i x j : j <> i -> upd f i x j = f j.
Proof. intros Hne. unfold upd. by destruct (Nat.eqb_spec j i). Qed.
Lemma updz_same {A} (f : Z -> A) i x : updz f i x i = x.
Proof. unfold updz. by rewrite Z.eqb_refl. Qed.
Lemma updz_other {A} (f : Z -> A) i x j : j <> i -> updz f i x j = f j.
Proof. intros Hne. unfold updz. by destruct (Z.eqb_spec j i). Qed.

Lemma class_bound om c : om_ok om -> 0 <= c < om / ZPOOL_GRANULE -> 0 <= c < ZPOOL_CLASSES.
Proof.
  intros [Hom _] Hc. unfold ZPOOL_CLASSES, ZPOOL_OBJECT_MAX, ZPOOL_GRANULE in *.
  assert (om / 256 <= 16384 / 256) by (apply Z.div_le_mono; lia). lia.
Qed.

(** One slab replaced, with its class's list of partial slabs. *)
Lemma pool_update p p' FR LV PL i s s' fr' lv' PL' :
  pool_inv p FR LV PL -> slabs p !! i = Some s -> object_max p' = object_max p -> length (partial p') = length (partial p) ->
  slabs p' = <[i := s']> (slabs p) -> class_index s' = class_index s -> slab_ok (object_max p) s' fr' lv' ->
  (forall c, 0 <= c -> c <> class_index s -> nth (Z.to_nat c) (partial p') 0 = nth (Z.to_nat c) (partial p) 0) ->
  chain (next_link p') 0 (nth (Z.to_nat (class_index s)) (partial p') 0) PL' -> NoDup PL' ->
  (Z.of_nat i + 1 ∈ PL' <-> fr' <> []) -> (forall v, v <> Z.of_nat i + 1 -> (v ∈ PL' <-> v ∈ PL (class_index s))) ->
  pool_inv p' (upd FR i fr') (upd LV i lv') (updz PL (class_index s) PL').
Proof.
  intros Hp Hi Eo El Es Ec Hok Hpart Hch Hnd Hself Hother.
  assert (i < length (slabs p))%nat as Hlt by (by eapply lookup_lt_Some).
  assert (forall j, slabs p' !! j = if decide (j = i) then Some s' else slabs p !! j) as Hlk.
  { intros j. rewrite Es. case_decide as Hd; [subst j; by apply list_lookup_insert_eq | by apply list_lookup_insert_ne]. }
  assert (forall v, v <> Z.of_nat i + 1 -> 0 < v -> next_link p' v = next_link p v) as Hnl.
  { intros v Hv Hv0. unfold next_link. rewrite Hlk, decide_False by lia. done. }
  assert (length (slabs p') = length (slabs p)) as Elen by (rewrite Es; apply length_insert).
  destruct Hp as [P1 P2 P3 P4 P5 P6 P7 P8]. split; [by rewrite Eo | congruence | lia | | | | |].
  - intros j x Hj. rewrite Hlk in Hj. rewrite Eo. case_decide as Hd; [simplify_eq; by rewrite !upd_same | rewrite !upd_other by done; by apply P4].
  - intros j Hj. rewrite upd_other by lia. apply P5. lia.
  - intros c Hc. destruct (decide (c = class_index s)) as [-> | Hne]; [by rewrite updz_same |]. rewrite updz_other, Hpart by lia.
    eapply chain_ext; [| by apply P6]. intros v Hv. apply P8 in Hv as (j & x & -> & Hj & Hcj & _); [| done]. apply Hnl; [| lia].
    intros E. assert (j = i) as -> by lia. congruence.
  - intros c. destruct (decide (c = class_index s)) as [-> | Hne]; [by rewrite updz_same | by rewrite updz_other].
  - intros c v Hc. assert (forall j, v = Z.of_nat j + 1 -> j <> i -> forall x, slabs p' !! j = Some x <-> slabs p !! j = Some x) as Hsame
      by (intros j _ Hne x; rewrite Hlk, decide_False by done; done).
    destruct (decide (v = Z.of_nat i + 1)) as [-> | Hv].
    + destruct (decide (c = class_index s)) as [-> | Hne].
      * rewrite updz_same, Hself. split.
        -- intros Hf. exists i, s'. rewrite Hlk, decide_True, upd_same by done. done.
        -- intros (j & x & Ej & _ & _ & Hf). assert (j = i) as -> by lia. by rewrite upd_same in Hf.
      * rewrite updz_other by done. rewrite P8 by done. split; intros (j & x & Ej & Hj & Hcj & _); assert (j = i) as -> by lia; exfalso;
          [congruence | rewrite Hlk, decide_True in Hj by done; congruence].
    + assert (v ∈ updz PL (class_index s) PL' c <-> v ∈ PL c) as ->.
      { destruct (decide (c = class_index s)) as [-> | Hne]; [rewrite updz_same; by apply Hother | by rewrite updz_other]. }
      rewrite P8 by done. split; intros (j & x & Ej & Hj & Hcj & Hf); exists j, x; assert (j <> i) as Hji by (intros ->; lia);
        rewrite upd_other in * by done; rewrite (Hsame j Ej Hji x) in *; done.
Qed.

(** ** Handles *)

Lemma handle_encode i e size :
  Z.of_nat i < 2 ^ 31 -> 0 <= e < 1024 -> 0 < size < 16384 ->
  u64 (Z.shiftl (u32 (Z.of_nat i + 1)) 24) .| u64 (Z.shiftl e 14) .| size = handle_of i e size.
Proof.
  intros Hi He Hs. assert (u32 (Z.of_nat i + 1) = Z.of_nat i + 1) as -> by (apply wrap_small; unfold in_u; lia).
  rewrite !Z.shiftl_mul_pow2 by lia. assert (u64 ((Z.of_nat i + 1) * 2 ^ 24) = (Z.of_nat i + 1) * 2 ^ 24) as -> by (apply wrap_small; unfold in_u; lia).
  assert (u64 (e * 2 ^ 14) = e * 2 ^ 14) as -> by (apply wrap_small; unfold in_u; lia).
  unfold handle_of. rewrite (lor_disjoint (Z.of_nat i + 1) (e * 2 ^ 14) 24) by lia.
  replace ((Z.of_nat i + 1) * 2 ^ 24 + e * 2 ^ 14) with (((Z.of_nat i + 1) * 2 ^ 10 + e) * 2 ^ 14) by lia.
  apply lor_disjoint; lia.
Qed.

Lemma handle_fields i e size : 0 <= e < 1024 -> 0 < size < 16384 ->
  Z.shiftr (handle_of i e size) 24 = Z.of_nat i + 1 /\ u16 (Z.shiftr (handle_of i e size) 14 .& 0x3FF) = e /\
  handle_of i e size .& 0x3FFF = size /\ handle_of i e size <> 0.
Proof.
  intros He Hs. unfold handle_of. rewrite !Z.shiftr_div_pow2 by lia.
  change 0x3FF with (Z.ones 10). change 0x3FFF with (Z.ones 14). rewrite !Z.land_ones by lia.
  split; [symmetry; apply Z.div_unique with (e * 2 ^ 14 + size); lia |]. split.
  - assert (((Z.of_nat i + 1) * 2 ^ 24 + e * 2 ^ 14 + size) / 2 ^ 14 = (Z.of_nat i + 1) * 2 ^ 10 + e) as ->
      by (symmetry; apply Z.div_unique with size; lia).
    assert (((Z.of_nat i + 1) * 2 ^ 10 + e) mod 2 ^ 10 = e) as -> by (symmetry; apply Z.mod_unique with (Z.of_nat i + 1); lia).
    apply wrap_small. unfold in_u. lia.
  - split; [symmetry; apply Z.mod_unique with ((Z.of_nat i + 1) * 2 ^ 10 + e); lia | lia].
Qed.

Lemma handle_inj i e n i' e' n' : 0 <= e < 1024 -> 0 < n < 16384 -> 0 <= e' < 1024 -> 0 < n' < 16384 ->
  handle_of i e n = handle_of i' e' n' -> i = i' /\ e = e' /\ n = n'.
Proof.
  intros He Hn He' Hn' E. destruct (handle_fields i e n He Hn) as (A1 & A2 & A3 & _). destruct (handle_fields i' e' n' He' Hn') as (B1 & B2 & B3 & _).
  rewrite E in *. split; [lia | split; congruence].
Qed.

(** Where a live object is. *)
Lemma live_range p FR LV PL i e d : pool_inv p FR LV PL -> LV i !! e = Some d ->
  exists s, slabs p !! i = Some s /\ 0 <= e < entries s /\ entries s <= 64 /\ 0 < Z.of_nat (length d) < 16384.
Proof.
  intros Hp He. destruct (slabs p !! i) as [s |] eqn:Hi.
  - exists s. pose proof (pi_slab _ _ _ _ Hp i s Hi) as Hs. destruct (sl_live _ _ _ _ Hs e d He) as (Hr & Hd & _).
    pose proof (pi_om _ _ _ _ Hp) as Hom. destruct (entry_bounds _ _ _ _ e Hom Hs Hr) as (_ & _ & _ & H64). destruct Hom. split; [done | lia].
  - apply lookup_ge_None_1 in Hi. rewrite (pi_out _ _ _ _ Hp i Hi) in He. done.
Qed.

Lemma abs_fresh p FR LV PL M i e n : pool_inv p FR LV PL -> abs LV M -> LV i !! e = None -> 0 <= e < 64 -> 0 < n < 16384 -> M !! handle_of i e n = None.
Proof.
  intros Hp Ha Hn He Hd. destruct (M !! handle_of i e n) as [x |] eqn:E; [| done]. apply Ha in E as (j & f & Hf & Eh).
  destruct (live_range _ _ _ _ _ _ _ Hp Hf) as (s & _ & Hfr & Hen & Hx). apply handle_inj in Eh as (-> & -> & _); [congruence | lia | lia | lia | lia].
Qed.

Lemma abs_insert p FR LV PL M i e d : pool_inv p FR LV PL -> abs LV M -> LV i !! e = None -> 0 <= e < 64 -> 0 < Z.of_nat (length d) < 16384 ->
  abs (upd LV i (<[e := d]> (LV i))) (<[handle_of i e (Z.of_nat (length d)) := d]> M).
Proof.
  intros Hp Ha Hn He Hd h x. split.
  - intros Hx. apply lookup_insert_Some in Hx as [[<- <-] | [Hne Hx]].
    + exists i, e. rewrite upd_same, lookup_insert. split; [by case_decide | done].
    + apply Ha in Hx as (j & f & Hf & ->). exists j, f. split; [| done]. destruct (decide (j = i)) as [-> | Hji]; [| by rewrite upd_other].
      rewrite upd_same, lookup_insert_ne; [done |]. intros ->. congruence.
  - intros (j & f & Hf & ->). destruct (decide (j = i)) as [-> | Hji].
    + rewrite upd_same in Hf. apply lookup_insert_Some in Hf as [[<- <-] | [Hne Hf]]; [rewrite lookup_insert; by case_decide |].
      rewrite lookup_insert_ne; [apply Ha; by exists i, f |]. intros Eh. destruct (live_range _ _ _ _ _ _ _ Hp Hf) as (s & _ & Hfr & Hen & Hx).
      apply handle_inj in Eh as (_ & -> & _); lia || done.
    + rewrite upd_other in Hf by done. rewrite lookup_insert_ne; [apply Ha; by exists j, f |]. intros Eh.
      destruct (live_range _ _ _ _ _ _ _ Hp Hf) as (s & _ & Hfr & Hen & Hx). apply handle_inj in Eh as (-> & _ & _); lia || done.
Qed.

Lemma abs_delete p FR LV PL M i e d : pool_inv p FR LV PL -> abs LV M -> LV i !! e = Some d ->
  abs (upd LV i (delete e (LV i))) (delete (handle_of i e (Z.of_nat (length d))) M).
Proof.
  intros Hp Ha He h x. destruct (live_range _ _ _ _ _ _ _ Hp He) as (s & _ & Her & Hen & Hd). split.
  - intros Hx. apply lookup_delete_Some in Hx as [Hne Hx]. apply Ha in Hx as (j & f & Hf & ->). exists j, f. split; [| done].
    destruct (decide (j = i)) as [-> | Hji]; [| by rewrite upd_other]. rewrite upd_same, lookup_delete_ne; [done |]. intros ->. by simplify_eq.
  - intros (j & f & Hf & ->). apply lookup_delete_Some. destruct (decide (j = i)) as [-> | Hji].
    + rewrite upd_same in Hf. apply lookup_delete_Some in Hf as [Hne Hf]. split; [| apply Ha; by exists i, f]. intros Eh.
      destruct (live_range _ _ _ _ _ _ _ Hp Hf) as (s' & _ & Hfr & Hen' & Hx). apply handle_inj in Eh as (_ & -> & _); lia || done.
    + rewrite upd_other in Hf by done. split; [| apply Ha; by exists j, f]. intros Eh.
      destruct (live_range _ _ _ _ _ _ _ Hp Hf) as (s' & _ & Hfr & Hen' & Hx). apply handle_inj in Eh as (-> & _ & _); lia || done.
Qed.

(** ** The operations keep the invariant *)

Lemma alter_as_insert {A} (f : A -> A) (i : nat) (l : list A) x : l !! i = Some x -> alter f i l = <[i := f x]> l.
Proof.
  intros Hx. apply list_eq. intros j. destruct (decide (j = i)) as [-> | Hne].
  - rewrite list_lookup_alter_eq, list_lookup_insert_eq by (by eapply lookup_lt_Some). by rewrite Hx.
  - by rewrite list_lookup_alter_ne, list_lookup_insert_ne.
Qed.

Lemma nth_insert_same (l : list Z) c (x : Z) : 0 <= c < Z.of_nat (length l) -> nth (Z.to_nat c) (<[Z.to_nat c := x]> l) 0 = x.
Proof. intros Hc. rewrite nth_lookup, list_lookup_insert_eq by lia. done. Qed.
Lemma nth_insert_other (l : list Z) c c' (x : Z) : 0 <= c -> 0 <= c' -> c' <> c -> nth (Z.to_nat c') (<[Z.to_nat c := x]> l) 0 = nth (Z.to_nat c') l 0.
Proof. intros Hc Hc' Hne. rewrite !nth_lookup, list_lookup_insert_ne by lia. done. Qed.

Lemma partial_len p FR LV PL : pool_inv p FR LV PL -> Z.of_nat (length (partial p)) = ZPOOL_CLASSES.
Proof. intros Hp. rewrite (pi_plen _ _ _ _ Hp). done. Qed.

(** What the head of a class's list is. *)
Lemma head_facts p FR LV PL i s :
  pool_inv p FR LV PL -> slabs p !! i = Some s -> nth (Z.to_nat (class_index s)) (partial p) 0 = Z.of_nat i + 1 ->
  exists rest e fr, PL (class_index s) = Z.of_nat i + 1 :: rest /\ chain (next_link p) 0 (next_partial s) rest /\ Z.of_nat i + 1 ∉ rest /\
    NoDup rest /\ slab_ok (object_max p) s (e :: fr) (LV i) /\ free_head s = e /\ chain (next_free s) ZPOOL_NO_ENTRY (next_free s e) fr /\
    LV i !! e = None /\ 0 <= e < 64 /\ 0 <= class_index s < ZPOOL_CLASSES.
Proof.
  intros Hp Hi Hhead. pose proof (pi_om _ _ _ _ Hp) as Hom. pose proof (pi_slab _ _ _ _ Hp i s Hi) as Hs.
  pose proof (class_bound _ _ Hom (sl_class _ _ _ _ Hs)) as Hc. pose proof (pi_chain _ _ _ _ Hp _ Hc) as Hch. rewrite Hhead in Hch.
  destruct (chain_head _ _ _ _ Hch ltac:(lia)) as (rest & EPL & Hrest).
  assert (next_link p (Z.of_nat i + 1) = next_partial s) as Enl
    by (unfold next_link; replace (Z.to_nat (Z.of_nat i + 1 - 1)) with i by lia; by rewrite Hi).
  rewrite Enl in Hrest. pose proof (pi_pnodup _ _ _ _ Hp (class_index s)) as Hnd. rewrite EPL in Hnd. apply NoDup_cons in Hnd as [Hni Hnd].
  assert (FR i <> []) as HFR.
  { destruct (proj1 (pi_part _ _ _ _ Hp (class_index s) (Z.of_nat i + 1) Hc)) as (j & x & Ej & _ & _ & Hf); [rewrite EPL; left |].
    by replace i with j by lia. }
  destruct (FR i) as [| e fr] eqn:Efr; [done |]. pose proof Hs as [_ _ _ Hfc _ Hfr _ _]. destruct Hfc as (Eh & _ & Hfc).
  destruct (proj1 (Hfr e) ltac:(left)) as [Her Hen]. destruct (entry_bounds _ _ _ _ e Hom Hs Her) as (_ & _ & _ & H64).
  exists rest, e, fr. do 8 (split; [done |]). split; [lia | done].
Qed.

(** The links of the other slabs of a list survive a change of slab [i]. *)
Lemma links_kept p p' FR LV PL i s' c h l :
  pool_inv p FR LV PL -> 0 <= c < ZPOOL_CLASSES -> slabs p' = <[i := s']> (slabs p) -> (forall v, v ∈ l -> v ∈ PL c) ->
  (forall s, slabs p !! i = Some s -> next_partial s' = next_partial s \/ Z.of_nat i + 1 ∉ l) ->
  chain (next_link p) 0 h l -> chain (next_link p') 0 h l.
Proof.
  intros Hp Hc Es Hl Hi. apply chain_ext. intros v Hv. unfold next_link. rewrite Es. pose proof (Hl v Hv) as Hv'.
  apply (pi_part _ _ _ _ Hp) in Hv' as (j & x & -> & Hj & _); [| done]. replace (Z.to_nat (Z.of_nat j + 1 - 1)) with j by lia.
  destruct (decide (j = i)) as [-> | Hne]; [| by rewrite list_lookup_insert_ne]. rewrite list_lookup_insert_eq by (by eapply lookup_lt_Some).
  rewrite Hj. by destruct (Hi x Hj).
Qed.

(** The slab at the head of its class's list gives its first free entry. *)
Lemma store_at_ok p FR LV PL i s data p' h :
  pool_inv p FR LV PL -> slabs p !! i = Some s -> nth (Z.to_nat (class_index s)) (partial p) 0 = Z.of_nat i + 1 ->
  0 < Z.of_nat (length data) < object_max p -> Z.of_nat (length data) <= class_entry_size (class_index s) -> Z.of_nat i < 2 ^ 31 ->
  store_at p (Z.of_nat i) data = (p', h) ->
  exists e fr PL', LV i !! e = None /\ 0 <= e < 64 /\ h = handle_of i e (Z.of_nat (length data)) /\
    pool_inv p' (upd FR i fr) (upd LV i (<[e := data]> (LV i))) PL' /\
    object_max p' = object_max p /\ length (slabs p') = length (slabs p) /\
    objects (stats p') = u64 (objects (stats p) + 1) /\ stored_bytes (stats p') = u64 (stored_bytes (stats p) + Z.of_nat (length data)) /\
    pool_bytes (stats p') = pool_bytes (stats p).
Proof.
  intros Hp Hi Hhead Hd Hd2 Hi31 Hrun. pose proof (pi_om _ _ _ _ Hp) as Hom. pose proof (lookup_lt_Some _ _ _ Hi) as Hlt.
  destruct (head_facts _ _ _ _ _ _ Hp Hi Hhead) as (rest & e & fr & EPL & Hrest & Hni & Hnd & Hs & Eh & Hfc & Hen & He64 & Hc).
  pose proof (slab_take _ _ _ _ _ _ Hom Hs Hd Hd2) as Hs'. unfold store_at in Hrun. rewrite Nat2Z.id, Hi, Eh in Hrun.
  fold (next_free s e) in Hrun. cbv zeta in Hrun. set (s1 := set_head (next_free s e) (u16 (used s + 1)) s) in *.
  destruct (Z.eqb_spec (next_free s e) ZPOOL_NO_ENTRY) as [Efull | Emore].
  - assert (fr = []) as -> by (rewrite Efull in Hfc; by apply chain_stop in Hfc). set (s2 := set_next 0 s1).
    unfold partial_remove in Hrun. cbn [slabs set_slabs partial] in Hrun.
    rewrite (alter_as_insert _ i (slabs p) s Hi), Nat2Z.id, list_lookup_insert_eq in Hrun by done.
    cbn [class_index set_head] in Hrun. rewrite Hhead in Hrun.
    destruct (Z.eqb_spec (Z.of_nat i + 1) 0); [lia |]. destruct (Z.eqb_spec (Z.of_nat i + 1 - 1) (Z.of_nat i)); [| lia].
    replace (Z.to_nat (Z.of_nat i + 1 - 1)) with i in Hrun by lia. rewrite list_lookup_insert_eq in Hrun by done.
    fold s1 in Hrun. cbn [slabs set_slabs set_partial partial] in Hrun.
    rewrite (alter_as_insert (set_next 0) i _ s1), list_insert_insert_eq in Hrun by (by apply list_lookup_insert_eq).
    rewrite (alter_as_insert _ i _ s2), list_insert_insert_eq in Hrun by (by apply list_lookup_insert_eq).
    injection Hrun as <- <-. exists e, [], (updz PL (class_index s) rest). rewrite handle_encode by (destruct Hom; lia).
    split; [done |]. split; [lia |]. split; [done |]. split; [| cbn; rewrite length_insert; done].
    eapply (pool_update p _ FR LV PL i s (set_mem (put_bytes (smem s2) (entry_ptr s2 e) data) s2));
      [exact Hp | exact Hi | done | cbn; apply length_insert | done | done | exact (slab_ok_next _ _ _ _ 0 Hs') | | | exact Hnd | done |].
    + intros c Hc0 Hne. cbn. apply nth_insert_other; lia.
    + cbn [partial set_stats set_slabs set_partial]. rewrite nth_insert_same by (rewrite (partial_len _ _ _ _ Hp); lia).
      eapply links_kept; [exact Hp | exact Hc | done | | intros x _; by right | exact Hrest]. intros v Hv. rewrite EPL. by right.
    + intros v Hv. rewrite EPL, elem_of_cons. naive_solver.
  - cbn [slabs set_slabs] in Hrun. rewrite (alter_as_insert _ i (slabs p) s Hi) in Hrun. fold s1 in Hrun.
    rewrite (alter_as_insert _ i _ s1), list_insert_insert_eq in Hrun by (by apply list_lookup_insert_eq).
    injection Hrun as <- <-. exists e, fr, (updz PL (class_index s) (PL (class_index s))). rewrite handle_encode by (destruct Hom; lia).
    split; [done |]. split; [lia |]. split; [done |]. split; [| cbn; rewrite length_insert; done].
    eapply (pool_update p _ FR LV PL i s); [exact Hp | exact Hi | done | done | done | done | exact Hs' | done | | apply (pi_pnodup _ _ _ _ Hp) | | done].
    + eapply links_kept; [exact Hp | exact Hc | done | done | | by apply (pi_chain _ _ _ _ Hp)]. intros x Hx. left. by simplify_eq.
    + split; [intros _ ->; done |]. intros _. rewrite EPL. left.
Qed.

Lemma inv_same p p' FR LV PL :
  slabs p' = slabs p -> object_max p' = object_max p -> partial p' = partial p -> pool_inv p FR LV PL -> pool_inv p' FR LV PL.
Proof.
  intros E1 E2 E3 [P1 P2 P3 P4 P5 P6 P7 P8].
  assert (forall v, next_link p' v = next_link p v) as E4 by (intros v; unfold next_link; by rewrite E1).
  split; [by rewrite E2 | by rewrite E3 | by rewrite E1 | by rewrite E1, E2 | by rewrite E1 | | done | by rewrite E1].
  intros c Hc. rewrite E3. eapply chain_ext; [| by apply P6]. done.
Qed.

(** What malloc gives is a block of the size asked for. *)
Definition block_ok (al : zallocs) (p : zpool) : Prop :=
  forall m, malloc_block al = Some m -> Z.of_nat (length m) = object_max p.

(** A slab appended at the head of its class's list. *)
Lemma slab_append p FR LV PL s fr c p' :
  pool_inv p FR LV PL -> Z.of_nat (length (slabs p)) < 2 ^ 31 -> 0 <= c < ZPOOL_CLASSES ->
  slab_ok (object_max p) s fr ∅ -> class_index s = c -> next_partial s = nth (Z.to_nat c) (partial p) 0 -> fr <> [] ->
  slabs p' = slabs p ++ [s] -> object_max p' = object_max p ->
  partial p' = <[Z.to_nat c := Z.of_nat (length (slabs p)) + 1]> (partial p) ->
  pool_inv p' (upd FR (length (slabs p)) fr) LV (updz PL c (Z.of_nat (length (slabs p)) + 1 :: PL c)).
Proof.
  intros Hp Hlen Hc Hs Ec En Hfr Es Eo Ep. set (n := length (slabs p)) in *. pose proof (partial_len _ _ _ _ Hp) as Hpl.
  assert (forall j x, slabs p' !! j = Some x <-> (j = n /\ x = s) \/ (j <> n /\ slabs p !! j = Some x)) as Hlk.
  { intros j x. rewrite Es. destruct (decide (j < n)%nat) as [Hj | Hj].
    - rewrite lookup_app_l by done. naive_solver lia.
    - destruct (decide (j = n)) as [-> | Hne].
      + rewrite lookup_app_r, Nat.sub_diag by done. simpl. naive_solver.
      + rewrite lookup_ge_None_2 by (rewrite length_app; simpl; fold n; lia). rewrite lookup_ge_None_2 by (fold n; lia). naive_solver. }
  assert (forall v, v <> Z.of_nat n + 1 -> 0 < v -> next_link p' v = next_link p v) as Hnl.
  { intros v Hv H0. unfold next_link. destruct (slabs p !! Z.to_nat (v - 1)) as [x |] eqn:Ex.
    - by rewrite (proj2 (Hlk _ x)) by (right; split; [lia | done]).
    - destruct (slabs p' !! Z.to_nat (v - 1)) as [x |] eqn:Ex'; [| done]. apply Hlk in Ex' as [[? _] | [_ ?]]; [lia | congruence]. }
  destruct Hp as [P1 P2 P3 P4 P5 P6 P7 P8].
  assert (forall c' v, 0 <= c' < ZPOOL_CLASSES -> v ∈ PL c' -> 0 < v < Z.of_nat n + 1) as Hold.
  { intros c' v Hc' Hv. apply P8 in Hv as (j & x & -> & Hj & _); [| done]. pose proof (lookup_lt_Some _ _ _ Hj). unfold n. lia. }
  split; [by rewrite Eo | rewrite Ep, length_insert; done | rewrite Es, length_app; simpl; fold n; lia | | | | |].
  - intros j x Hj. rewrite Eo. apply Hlk in Hj as [[-> ->] | [Hne Hj]]; [| rewrite upd_other by done; by apply P4].
    rewrite upd_same, P5 by done. done.
  - intros j Hj. apply P5. rewrite Es, length_app in Hj. simpl in Hj. fold n in Hj |- *. lia.
  - intros c' Hc'. rewrite Ep. destruct (decide (c' = c)) as [-> | Hne].
    + rewrite updz_same, nth_insert_same by lia. split; [done |]. split; [lia |].
      assert (next_link p' (Z.of_nat n + 1) = next_partial s) as ->.
      { unfold next_link. replace (Z.to_nat (Z.of_nat n + 1 - 1)) with n by lia. by rewrite (proj2 (Hlk n s)) by (by left). }
      rewrite En. eapply chain_ext; [| by apply P6]. intros v Hv. specialize (Hold c v Hc Hv). apply Hnl; lia.
    + rewrite updz_other, nth_insert_other by lia. eapply chain_ext; [| by apply P6]. intros v Hv. specialize (Hold c' v Hc' Hv). apply Hnl; lia.
  - intros c'. destruct (decide (c' = c)) as [-> | Hne]; [| by rewrite updz_other]. rewrite updz_same. constructor; [| done].
    intros Hin. specialize (Hold c _ Hc Hin). lia.
  - intros c' v Hc'. destruct (decide (v = Z.of_nat n + 1)) as [-> | Hv].
    + split.
      * intros Hin. destruct (decide (c' = c)) as [-> | Hne].
        -- exists n, s. rewrite upd_same. split; [done |]. split; [apply Hlk; by left |]. done.
        -- rewrite updz_other in Hin by done. specialize (Hold c' _ Hc' Hin). lia.
      * intros (j & x & Ej & Hj & Hcj & _). assert (j = n) as -> by lia. apply Hlk in Hj as [[_ ->] | [? _]]; [| done].
        rewrite <- Hcj, Ec, updz_same. left.
    + assert (v ∈ updz PL c (Z.of_nat n + 1 :: PL c) c' <-> v ∈ PL c') as ->.
      { destruct (decide (c' = c)) as [-> | Hne]; [rewrite updz_same, elem_of_cons; naive_solver | by rewrite updz_other]. }
      rewrite P8 by done. split; intros (j & x & Ej & Hj & Hcj & Hf); exists j, x; assert (j <> n) as Hjn by lia; rewrite upd_other in * by done;
        (split; [done |]); (split; [| done]); [apply Hlk; by right | apply Hlk in Hj; naive_solver].
Qed.

Lemma slab_new_ok al p FR LV PL c p' idx :
  pool_inv p FR LV PL -> Z.of_nat (length (slabs p)) < 2 ^ 31 -> 0 <= c < object_max p / ZPOOL_GRANULE -> block_ok al p ->
  slab_new al p c = (p', idx) ->
  object_max p' = object_max p /\ objects (stats p') = objects (stats p) /\ stored_bytes (stats p') = stored_bytes (stats p) /\
  ((idx = UINT32_MAX /\ slabs p' = slabs p /\ partial p' = partial p /\ stats p' = stats p) \/
   (idx = Z.of_nat (length (slabs p)) /\ pool_bytes (stats p') = u64 (pool_bytes (stats p) + object_max p) /\
    length (slabs p') = S (length (slabs p)) /\ (exists s, slabs p' !! length (slabs p) = Some s /\ class_index s = c) /\
    nth (Z.to_nat c) (partial p') 0 = idx + 1 /\
    exists FR' PL', pool_inv p' FR' LV PL')).
Proof.
  intros Hp Hlen Hc Hb Hrun. unfold slab_new in Hrun. pose proof (pi_om _ _ _ _ Hp) as Hom. pose proof (class_bound _ _ Hom Hc) as Hc64.
  destruct (negb (max_bytes p =? 0) && _); [simplify_eq; do 3 (split; [done |]); by left |].
  destruct (grow_table al p) as [p1 |] eqn:Eg; [| simplify_eq; do 3 (split; [done |]); by left].
  assert (slabs p1 = slabs p /\ object_max p1 = object_max p /\ partial p1 = partial p /\ stats p1 = stats p) as (E1 & E2 & E3 & E4)
    by (unfold grow_table in Eg; repeat case_match; by simplify_eq).
  destruct (malloc_block al) as [mem |] eqn:Em; [| simplify_eq; rewrite E2, E4; do 3 (split; [done |]); left; by rewrite E1, E3].
  rewrite E1, E2, E3, E4 in Hrun. destruct (fresh_slab_ok (object_max p) mem c (nth (Z.to_nat c) (partial p) 0) Hom Hc (Hb mem Em)) as (Hs & Hcs & Hns).
  cbv zeta in Hrun, Hs, Hcs, Hns. set (s := thread_free _ _ _) in *.
  assert (u32 (Z.of_nat (length (slabs p)) + 1) = Z.of_nat (length (slabs p)) + 1) as Eu by (apply wrap_small; unfold in_u; lia).
  rewrite Eu in Hrun. simplify_eq. cbn [object_max set_stats set_partial set_slabs stats objects stored_bytes slabs partial pool_bytes].
  split; [done |]. split; [done |]. split; [done |]. right. split; [done |]. split; [done |]. split; [rewrite length_app; simpl; lia |].
  split; [exists s; split; [| done]; rewrite lookup_app_r, Nat.sub_diag by done; done |].
  split; [apply nth_insert_same; rewrite (partial_len _ _ _ _ Hp); lia |].
  eexists _, _. eapply slab_append; [exact Hp | done | exact Hc64 | exact Hs | done | done | | done | done | done].
  pose proof (class_entries _ _ Hom Hc). rewrite seqZ_cons by lia. done.
Qed.

Lemma decode_live p FR LV PL i e d : pool_inv p FR LV PL -> LV i !! e = Some d ->
  exists s, slabs p !! i = Some s /\ slab_ok (object_max p) s (FR i) (LV i) /\
    handle_decode p (handle_of i e (Z.of_nat (length d))) = Some (Z.of_nat i, s, e, Z.of_nat (length d)).
Proof.
  intros Hp He. destruct (live_range _ _ _ _ _ _ _ Hp He) as (s & Hi & Her & Hen & Hd). pose proof (pi_slab _ _ _ _ Hp i s Hi) as Hs.
  destruct (sl_live _ _ _ _ Hs e d He) as (_ & _ & Hd2 & _). exists s. split; [done |]. split; [done |].
  destruct (handle_fields i e (Z.of_nat (length d)) ltac:(lia) Hd) as (E1 & E2 & E3 & E4). unfold handle_decode. rewrite E1, E2, E3.
  pose proof (lookup_lt_Some _ _ _ Hi) as Hlt. unfold ZPOOL_HANDLE_NONE.
  destruct (Z.eqb_spec (handle_of i e (Z.of_nat (length d))) 0); [done |].
  replace ((Z.of_nat i + 1 =? 0) || (Z.of_nat i + 1 >? Z.of_nat (length (slabs p))) || (Z.of_nat (length d) =? 0)) with false by lia.
  replace (Z.to_nat (Z.of_nat i + 1 - 1)) with i by lia. rewrite Hi.
  replace (e >=? entries s) with false by lia. replace (Z.of_nat (length d) >? class_entry_size (class_index s)) with false by lia.
  do 4 f_equal. lia.
Qed.

Lemma free_ok p FR LV PL i e d :
  pool_inv p FR LV PL -> LV i !! e = Some d ->
  let p' := zpool_free p (handle_of i e (Z.of_nat (length d))) in
  (exists PL', pool_inv p' (upd FR i (e :: FR i)) (upd LV i (delete e (LV i))) PL') /\
  object_max p' = object_max p /\ length (slabs p') = length (slabs p) /\
  objects (stats p') = u64 (objects (stats p) - 1) /\ stored_bytes (stats p') = u64 (stored_bytes (stats p) - Z.of_nat (length d)) /\
  pool_bytes (stats p') = pool_bytes (stats p).
Proof.
  intros Hp He. destruct (decode_live _ _ _ _ _ _ _ Hp He) as (s & Hi & Hs & Ed). pose proof (pi_om _ _ _ _ Hp) as Hom.
  pose proof (class_bound _ _ Hom (sl_class _ _ _ _ Hs)) as Hc. pose proof (slab_give _ _ _ _ _ _ Hom Hs He) as Hs'.
  pose proof (pi_pnodup _ _ _ _ Hp (class_index s)) as Hnd. pose proof (lookup_lt_Some _ _ _ Hi) as Hlt. pose proof (pi_count _ _ _ _ Hp) as Hcnt.
  assert (Z.of_nat i + 1 ∈ PL (class_index s) <-> FR i <> []) as Hmem.
  { rewrite (pi_part _ _ _ _ Hp) by done. split; [intros (j & x & Ej & _ & _ & Hf); by replace i with j by lia | intros Hf; by exists i, s]. }
  assert (free_head s = ZPOOL_NO_ENTRY <-> FR i = []) as Hfull.
  { pose proof (sl_chain _ _ _ _ Hs) as Hfc. split; intros Hx; rewrite Hx in Hfc; [by apply chain_stop in Hfc | done]. }
  unfold zpool_free. rewrite Ed. cbv zeta. rewrite Nat2Z.id. destruct (Z.eqb_spec (free_head s) ZPOOL_NO_ENTRY) as [Ef | Ef].
  - assert (u32 (u32 (Z.of_nat i) + 1) = Z.of_nat i + 1) as Eu by (unfold u32; rewrite (wrap_small 32 (Z.of_nat i)), wrap_small; unfold in_u; lia).
    rewrite Eu. split; [| cbn; rewrite length_insert; done]. exists (updz PL (class_index s) (Z.of_nat i + 1 :: PL (class_index s))).
    apply Hfull in Ef. rewrite Ef in *.
    eapply (pool_update p _ FR LV PL i s (set_next (nth (Z.to_nat (class_index s)) (partial p) 0) _));
      [exact Hp | exact Hi | done | cbn; apply length_insert | reflexivity | done | apply slab_ok_next, Hs' | | | constructor; [naive_solver | done] | |].
    + intros c Hc0 Hne. cbn. apply nth_insert_other; lia.
    + cbn [partial set_stats set_slabs set_partial class_index set_mem set_head]. rewrite nth_insert_same by (rewrite (partial_len _ _ _ _ Hp); lia).
      split; [done |]. split; [lia |]. unfold next_link at 2. cbn [slabs set_stats set_slabs set_partial].
      replace (Z.to_nat (Z.of_nat i + 1 - 1)) with i by lia. rewrite list_lookup_insert_eq by done. cbn [next_partial set_next].
      eapply links_kept; [exact Hp | exact Hc | done | done | | by apply (pi_chain _ _ _ _ Hp)]. intros x _. right. naive_solver.
    + split; [done |]. intros _. left.
    + intros v Hv. rewrite elem_of_cons. naive_solver.
  - split; [| cbn; rewrite length_insert; done]. exists (updz PL (class_index s) (PL (class_index s))).
    eapply (pool_update p _ FR LV PL i s); [exact Hp | exact Hi | done | done | reflexivity | done | exact Hs' | done | | done | | done].
    + eapply links_kept; [exact Hp | exact Hc | done | done | | by apply (pi_chain _ _ _ _ Hp)]. intros x Hx. left. by simplify_eq.
    + split; [done |]. intros _. apply Hmem. naive_solver.
Qed.

Lemma total_size_insert M h d : M !! h = None -> total_size (<[h := d]> M) = Z.of_nat (length d) + total_size M.
Proof. intros Hn. unfold total_size. rewrite map_fold_insert_L; [done | | done]. intros. lia. Qed.

Lemma total_size_delete M h d : M !! h = Some d -> total_size M = Z.of_nat (length d) + total_size (delete h M).
Proof. intros Hs. unfold total_size. rewrite (map_fold_delete_L _ _ h d M); [done | | done]. intros. lia. Qed.

Lemma u64_add x y : u64 (u64 x + y) = u64 (x + y).
Proof. unfold u64, wrap. apply Zplus_mod_idemp_l. Qed.

(** The pool of [p'] is the pool of [p], apart from other statistics. *)
Lemma holds_same p p' M :
  slabs p' = slabs p -> object_max p' = object_max p -> partial p' = partial p -> objects (stats p') = objects (stats p) ->
  stored_bytes (stats p') = stored_bytes (stats p) -> pool_bytes (stats p') = pool_bytes (stats p) -> pool_holds p M -> pool_holds p' M.
Proof.
  intros E1 E2 E3 E4 E5 E6 (FR & LV & PL & Hp & Ha & H1 & H2 & H3). exists FR, LV, PL. split; [by eapply inv_same |].
  rewrite E4, E5, E6, E1, E2. done.
Qed.

Lemma store_at_holds p M i s data p' h :
  pool_holds p M -> slabs p !! i = Some s -> nth (Z.to_nat (class_index s)) (partial p) 0 = Z.of_nat i + 1 ->
  0 < Z.of_nat (length data) < object_max p -> Z.of_nat (length data) <= class_entry_size (class_index s) -> Z.of_nat i < 2 ^ 31 ->
  store_at p (Z.of_nat i) data = (p', h) -> h <> ZPOOL_HANDLE_NONE /\ M !! h = None /\ pool_holds p' (<[h := data]> M).
Proof.
  intros (FR & LV & PL & Hp & Ha & H1 & H2 & H3) Hi Hhead Hd Hd2 Hi31 Hrun. pose proof (pi_om _ _ _ _ Hp) as Hom.
  destruct (store_at_ok _ _ _ _ _ _ _ _ _ Hp Hi Hhead Hd Hd2 Hi31 Hrun) as (e & fr & PL' & Hn & He & -> & Hp' & Eo & El & S1 & S2 & S3).
  assert (0 < Z.of_nat (length data) < 16384) as Hd3 by (destruct Hom; lia).
  pose proof (abs_fresh _ _ _ _ M i e (Z.of_nat (length data)) Hp Ha Hn He Hd3) as Hfresh.
  split; [by apply handle_fields; [lia |] |]. split; [done |]. eexists _, _, _. split; [exact Hp' |]. split; [by eapply abs_insert |].
  rewrite S1, S2, S3, H1, H2, H3, !u64_add, Eo, El, total_size_insert, map_size_insert_None by done.
  split; [f_equal; lia |]. split; [f_equal; lia | done].
Qed.

Lemma class_of_size om size : om_ok om -> 0 < size < om ->
  let c := u16 ((size + ZPOOL_GRANULE - 1) / ZPOOL_GRANULE - 1) in 0 <= c < om / ZPOOL_GRANULE /\ size <= class_entry_size c.
Proof.
  intros [Hom Hmod] Hs. unfold class_entry_size, ZPOOL_GRANULE in *. pose proof (Z.div_mod om 256 ltac:(lia)) as Edm.
  pose proof (Z.div_mod (size + 256 - 1) 256 ltac:(lia)) as Eq. pose proof (Z.mod_pos_bound (size + 256 - 1) 256 ltac:(lia)).
  assert (u16 ((size + 256 - 1) / 256 - 1) = (size + 256 - 1) / 256 - 1) as -> by (apply wrap_small; unfold in_u; lia). lia.
Qed.

Definition slab_denied (al : zallocs) (p : zpool) : Prop :=
  malloc_block al = None \/ realloc_ok al = false \/ (max_bytes p <> 0 /\ max_bytes p < u64 (pool_bytes (stats p) + object_max p)).

Lemma slab_new_denied al p c p' : Z.of_nat (length (slabs p)) < 2 ^ 31 -> slab_new al p c = (p', UINT32_MAX) -> slab_denied al p.
Proof.
  intros Hlen Hrun. unfold slab_new, grow_table, slab_denied, UINT32_MAX in *.
  destruct (negb (max_bytes p =? 0) && (u64 (pool_bytes (stats p) + object_max p) >? max_bytes p)) eqn:Ecap; [right; right; lia |].
  destruct (realloc_ok al); [| by right; left]. destruct (malloc_block al); [| by left].
  destruct (_ =? slab_capacity p); simplify_eq; simpl in *; lia.
Qed.

Lemma store_holds al p M data p' h :
  pool_holds p M -> Z.of_nat (length (slabs p)) < 2 ^ 31 -> block_ok al p -> zpool_store al p data = (p', h) ->
  (h = ZPOOL_HANDLE_NONE /\ pool_holds p' M /\ (data = [] \/ object_max p <= Z.of_nat (length data) \/ slab_denied al p)) \/
  (h <> ZPOOL_HANDLE_NONE /\ M !! h = None /\ pool_holds p' (<[h := data]> M)).
Proof.
  intros Hh Hlen Hb Hrun. pose proof Hh as (FR & LV & PL & Hp & Ha & H1 & H2 & H3). pose proof (pi_om _ _ _ _ Hp) as Hom.
  unfold zpool_store in Hrun. destruct ((Z.of_nat (length data) =? 0) || (Z.of_nat (length data) >=? object_max p)) eqn:Esz.
  { left. unfold store_fails in Hrun. simplify_eq. split; [done |]. split; [by apply (holds_same p) |].
    destruct data; [by left | right; left; simpl in *; lia]. }
  destruct (class_of_size (object_max p) (Z.of_nat (length data)) Hom ltac:(lia)) as [Hc Hfit]. cbv zeta in Hrun.
  set (c := u16 ((Z.of_nat (length data) + ZPOOL_GRANULE - 1) / ZPOOL_GRANULE - 1)) in *. pose proof (class_bound _ _ Hom Hc) as Hc64.
  destruct (Z.eqb_spec (nth (Z.to_nat c) (partial p) 0) 0) as [E0 | E0]; simpl in Hrun.
  - destruct (slab_new al p c) as [p1 idx] eqn:En. destruct (slab_new_ok _ _ _ _ _ _ _ _ Hp Hlen Hc Hb En) as (Eo & Es1 & Es2 & Hcase).
    destruct Hcase as [(-> & Esl & Ept & Est) | (-> & Epb & El & (s & Hs & Hcs) & Ehead & FR' & PL' & Hp')].
    + left. rewrite Z.eqb_refl in Hrun. unfold store_fails in Hrun. simplify_eq. split; [done |].
      split; [apply (holds_same p); by rewrite ?Est | right; right; by eapply slab_new_denied].
    + right. destruct (Z.eqb_spec (Z.of_nat (length (slabs p))) UINT32_MAX) as [Em | Em]; [unfold UINT32_MAX in Em; lia |].
      eapply (store_at_holds p1 M); [| exact Hs | by rewrite Hcs | rewrite Eo; lia | by rewrite Hcs | done | exact Hrun].
      exists FR', LV, PL'. split; [done |]. split; [done |]. rewrite Es1, Es2, Epb, Eo, El, H3, u64_add. split; [done |]. split; [done |]. f_equal. lia.
  - right. destruct (chain_head _ _ _ _ (pi_chain _ _ _ _ Hp c Hc64) E0) as (r & EPL & _).
    destruct (proj1 (pi_part _ _ _ _ Hp c (nth (Z.to_nat c) (partial p) 0) Hc64)) as (i & s & Ei & Hi & Hcs & _); [rewrite EPL; left |].
    rewrite Ei in Hrun. replace (Z.of_nat i + 1 - 1) with (Z.of_nat i) in Hrun by lia. pose proof (lookup_lt_Some _ _ _ Hi).
    eapply (store_at_holds p M); [exact Hh | exact Hi | by rewrite Hcs | lia | by rewrite Hcs | lia | exact Hrun].
Qed.

Lemma load_holds p M h d out :
  pool_holds p M -> M !! h = Some d -> Z.of_nat (length d) <= out ->
  let '(p', r) := zpool_load p h out in r = Some d /\ pool_holds p' M.
Proof.
  intros Hh Hd Hout. pose proof Hh as (FR & LV & PL & Hp & Ha & _). apply Ha in Hd as (i & e & He & ->).
  destruct (decode_live _ _ _ _ _ _ _ Hp He) as (s & Hi & Hs & Ed). unfold zpool_load. rewrite Ed.
  destruct (Z.ltb_spec out (Z.of_nat (length d))); [lia |]. split; [| by apply (holds_same p)].
  destruct (sl_live _ _ _ _ Hs e d He) as (_ & _ & _ & ->). done.
Qed.

Lemma free_holds p M h : pool_holds p M -> is_Some (M !! h) \/ h = ZPOOL_HANDLE_NONE -> pool_holds (zpool_free p h) (delete h M).
Proof.
  intros Hh Hl. pose proof Hh as (FR & LV & PL & Hp & Ha & H1 & H2 & H3). destruct (M !! h) as [d |] eqn:Hd.
  - pose proof Hd as Hd'. apply Ha in Hd' as (i & e & He & ->).
    destruct (free_ok _ _ _ _ _ _ _ Hp He) as ((PL' & Hp') & Eo & El & S1 & S2 & S3). eexists _, _, _. split; [exact Hp' |].
    split; [by eapply abs_delete |]. rewrite S1, S2, S3, H1, H2, H3, Eo, El. unfold Z.sub. rewrite !u64_add.
    rewrite map_size_delete_Some by (by rewrite Hd). rewrite (total_size_delete M _ d Hd).
    assert (size M <> 0%nat) as Hnz by (intros H0; apply map_size_empty_inv in H0; by rewrite H0 in Hd).
    split; [f_equal; lia |]. split; [f_equal; lia | done].
  - destruct Hl as [[x Hx] | ->]; [done |]. rewrite delete_id by done. done.
Qed.

Lemma nth_replicate0 n k : nth k (replicate n 0) 0 = 0.
Proof. revert k. induction n as [| n IH]; intros [| k]; simpl; done. Qed.

Lemma create_holds ok maxb om p : zpool_create ok maxb om = Some p -> 0 <= om -> pool_holds p ∅ /\ slabs p = [] /\ object_max p = om.
Proof.
  intros Hc Hom0. unfold zpool_create, ZPOOL_OBJECT_MAX, ZPOOL_GRANULE in Hc.
  destruct ((om =? 0) || (om >? 16384) || negb (om mod 256 =? 0)) eqn:E; [done |]. destruct ok; [| done]. cbn [negb] in Hc. injection Hc as <-.
  pose proof (Z.div_mod om 256 ltac:(lia)). assert (om_ok om) as Hom by (split; lia).
  split; [| done]. exists (fun _ => []), (fun _ => ∅), (fun _ => []). split.
  - split; cbn [slabs object_max partial length]; [done | done | lia | done | done | | intros; apply NoDup_nil_2 | intros c v Hc; split; [intros Hv; by apply not_elem_of_nil in Hv | naive_solver]].
    intros c Hc. exact (nth_replicate0 64 (Z.to_nat c)).
  - split; [intros h d; rewrite lookup_empty; split; [done |]; intros (i & e & He & _); by rewrite lookup_empty in He |].
    cbn. rewrite map_size_empty, Z.mul_0_r. unfold total_size. rewrite map_fold_empty. done.
Qed.

(** ** Properties *)


(** No handle reaches outside an entry. For every 64-bit value whatever, live,
    stale or made up, that the checks let through, the slab exists and the bytes
    a load copies and a free overwrites lie inside that entry of its block. *)
Theorem handle_decode_in_bounds p M h idx s e n :
  pool_holds p M -> 0 <= h < 2 ^ 64 -> handle_decode p h = Some (idx, s, e, n) ->
  slabs p !! Z.to_nat idx = Some s /\ 0 < n /\ 0 <= entry_ptr s e /\
  entry_ptr s e + Z.max n 2 <= entry_ptr s (e + 1) /\ entry_ptr s (e + 1) <= Z.of_nat (length (smem s)).
Proof.
  intros (FR & LV & PL & Hp & _) Hh Hd. unfold handle_decode in Hd. repeat (case_match; [done |]).
  destruct (slabs p !! Z.to_nat (Z.shiftr h 24 - 1)) as [s0 |] eqn:Hi; [| done]. repeat (case_match; [done |]). simplify_eq.
  pose proof (pi_slab _ _ _ _ Hp _ _ Hi) as Hs. pose proof (pi_om _ _ _ _ Hp) as Hom.
  assert (0 <= u16 (Z.shiftr h 14 .& 0x3FF)) as He0 by (apply (wrap_range 16); lia).
  assert (0 <= h .& 0x3FFF) as Hn0 by (apply Z.land_nonneg; lia).
  destruct (entry_bounds _ _ _ _ (u16 (Z.shiftr h 14 .& 0x3FF)) Hom Hs ltac:(lia)) as (B1 & B2 & B3 & _). pose proof (sl_len _ _ _ _ Hs).
  unfold entry_ptr in *. split; [done |]. lia.
Qed.

(** ** Witnesses *)

Definition small_pool : zpool := mk_pool [] 512 2 0 (replicate 64 0) 0 (mk_stats 0 0 0 0 0 0 0 0).
Definition small_allocs : zallocs := mk_zallocs true (Some (replicate 512 0)).

Lemma small_pool_holds : pool_holds small_pool ∅.
Proof. by apply (create_holds true 0 512 small_pool eq_refl). Qed.


Lemma handle_decode_in_bounds_witness :
  let p := (zpool_store small_allocs small_pool [1; 2; 3]).1 in
  exists s, handle_decode p (2 ^ 24 + 2 ^ 14 + 200) = Some (0, s, 1, 200) /\ entry_ptr s 1 + Z.max 200 2 <= entry_ptr s 2.
Proof.
  set (p := (zpool_store small_allocs small_pool [1; 2; 3]).1). cbv zeta.
  assert (exists s, handle_decode p (2 ^ 24 + 2 ^ 14 + 200) = Some (0, s, 1, 200)) as [s Es] by (eexists; vm_compute; reflexivity).
  exists s. split; [exact Es |]. apply (handle_decode_in_bounds p {[ 2 ^ 24 + 3 := [1; 2; 3] ]} (2 ^ 24 + 2 ^ 14 + 200) 0 s 1 200); [| lia | exact Es].
  destruct (store_holds small_allocs small_pool ∅ [1; 2; 3] p (2 ^ 24 + 3) small_pool_holds) as [(H & _) | (_ & _ & H)];
    [reflexivity | intros m Hm; injection Hm as <-; reflexivity | vm_compute; reflexivity | discriminate H | exact H].
Defined.

(** A handle is not known to be live: after its object is freed, it still loads,
    and what comes back starts with the free list's link. *)
Theorem freed_handle_still_loads :
  let '(p1, h) := zpool_store small_allocs small_pool [1; 2; 3] in
  (zpool_load (zpool_free p1 h) h 512).2 = Some [1; 0; 3].
Proof. vm_compute. reflexivity. Qed.
