(* ===== verification/KLog.v ===== *)
(** * The kernel log (util/fifo.c, kernel/log.c)

    A ring buffer of bytes, the log kept in it, and its readers: syslog(2),
    readers by absolute position, and readers by line.  Copies that would leave
    the buffer are [None].  The theorems: the ring is a bounded queue; every
    reader sees the stream of all bytes ever logged, each at its absolute
    position, as far as the ring still holds it; lines come whole and with the
    number of lines before them. *)

From Stdlib Require Import ZifyBool.
From S2P Require Import Prelude User.

Definition FIFO_OVERWRITE := 1.
Definition FIFO_PEEK := 1.
Definition FIFO_LAST := 2.
Definition _EPIPE := -32.

(** ** The ring *)

Record fifo := mk_fifo { buf : list Z; capacity : Z; fsize : Z; start : Z }.

(** memcpy with its bounds. *)
Definition memcpy_in (m : list Z) (off : Z) (bs : list Z) : option (list Z) :=
  if (0 <=? off) && (off + Z.of_nat (length bs) <=? Z.of_nat (length m)) then Some (put_bytes m off bs) else None.
Definition memcpy_out (m : list Z) (off n : Z) : option (list Z) :=
  if (0 <=? off) && (0 <=? n) && (off + n <=? Z.of_nat (length m)) then Some (get_bytes m off n) else None.

(** [block] is what malloc answers. *)
Definition fifo_init (block : list Z) (cap : Z) : fifo := mk_fifo block cap 0 0.

Definition fifo_capacity (f : fifo) : Z := capacity f.
Definition fifo_size (f : fifo) : Z := fsize f.
Definition fifo_remaining (f : fifo) : Z := u64 (capacity f - fsize f).

Definition clip (n limit : Z) : Z := if n >? limit then limit else n.

(** The two copies that read [n] bytes from offset [s] on, around the end. *)
Definition ring_get (f : fifo) (s n : Z) : option (list Z) :=
  let first := clip (u64 (capacity f - s)) n in
  match memcpy_out (buf f) s first, memcpy_out (buf f) 0 (u64 (n - first)) with
  | Some a, Some b => Some (a ++ b)
  | _, _ => None
  end.

Definition fifo_write (f : fifo) (data : list Z) (flags : Z) : option (fifo * Z) :=
  let size := Z.of_nat (length data) in
  let over := size >? fifo_remaining f in
  if over && negb (has_flag flags FIFO_OVERWRITE) then Some (f, 1) else
  let f := if over then
             let excess := u64 (size - fifo_remaining f) in
             mk_fifo (buf f) (capacity f) (u64 (fsize f - excess)) (u64 (start f + excess) mod capacity f)
           else f in
  let tail := u64 (start f + fsize f) mod capacity f in
  let first := clip (u64 (capacity f - tail)) size in
  match memcpy_in (buf f) tail (take (Z.to_nat first) data) with
  | None => None
  | Some b =>
      match memcpy_in b 0 (drop (Z.to_nat first) data) with
      | None => None
      | Some b => Some (mk_fifo b (capacity f) (u64 (fsize f + size)) (start f), 0)
      end
  end.

Definition fifo_read (f : fifo) (size flags : Z) : option (fifo * (Z + list Z)) :=
  if size >? fifo_size f then Some (f, inl 1) else
  let s := if has_flag flags FIFO_LAST then u64 (start f + u64 (fsize f - size)) mod capacity f else start f in
  match ring_get f s size with
  | None => None
  | Some bs =>
      Some (if has_flag flags FIFO_PEEK then f
            else mk_fifo (buf f) (capacity f) (u64 (fsize f - size)) (u64 (s + size) mod capacity f), inr bs)
  end.

Definition fifo_flush (f : fifo) : fifo := mk_fifo (buf f) (capacity f) 0 (start f).

(** ** The log *)

Record klog := mk_klog { ring : fifo; max_since_clear : Z; total_written : Z; total_lines : Z }.

Definition log_oldest_locked (l : klog) : Z := u64 (total_written l - fifo_size (ring l)).

(** [log_buf_append]; the notification it ends with wakes every reader. *)
Definition log_buf_append (l : klog) (msg : list Z) : option klog :=
  match fifo_write (ring l) msg FIFO_OVERWRITE with
  | None => None
  | Some (r, _) =>
      let since := u64 (max_since_clear l + Z.of_nat (length msg)) in
      Some (mk_klog r (clip since (fifo_capacity r)) (u64 (total_written l + Z.of_nat (length msg))) (total_lines l))
  end.

Definition LINE_MAX := 16384.

(** snprintf into a buffer of [n] bytes, without the terminator. *)
Definition truncate_to (n : Z) (s : list Z) : list Z := take (Z.to_nat (n - 1)) s.

(** [stamp] is the time as asctime_r gives it, empty when it fails. *)
Definition output_line (stamp : list Z) (l : klog) (line : list Z) : option klog :=
  if bool_decide (take 5 line = [73; 78; 70; 79; 58]) then Some l else
  let text := truncate_to LINE_MAX (match stamp with [] => line | _ => [91] ++ stamp ++ [93; 32] ++ line end) in
  match text with
  | [] => Some l
  | _ =>
      match log_buf_append l text with
      | None => None
      | Some l =>
          match log_buf_append l [10] with
          | None => None
          | Some l => Some (mk_klog (ring l) (max_since_clear l) (total_written l) (u64 (total_lines l + 1)))
          end
      end
  end.

(** The bytes before the first newline and those after it. *)
Fixpoint split_line (s : list Z) : option (list Z * list Z) :=
  match s with
  | [] => None
  | c :: s => if c =? 10 then Some ([], s) else match split_line s with Some (a, b) => Some (c :: a, b) | None => None end
  end.

(** The loop over the complete lines of the thread's buffer. *)
Fixpoint output_lines (fuel : nat) (stamp : list Z) (l : klog) (b : list Z) : option (klog * list Z) :=
  match fuel with
  | O => Some (l, b)
  | S fuel =>
      match split_line b with
      | None => Some (l, b)
      | Some (line, rest) => match output_line stamp l line with None => None | Some l => output_lines fuel stamp l rest end
      end
  end.

(** [msg] is the formatted text; [pending] what the thread's buffer held, and
    the answer what it holds after. *)
Definition ish_vprintk (stamp : list Z) (l : klog) (pending msg : list Z) : option (klog * list Z) :=
  let available := LINE_MAX - Z.of_nat (length pending) in
  let b := if available >? 0 then pending ++ truncate_to available msg else pending in
  match output_lines (S (length b)) stamp l b with
  | None => None
  | Some (l, rest) =>
      if Z.of_nat (length rest) >=? LINE_MAX - 1 then
        match output_line stamp l rest with None => None | Some l => Some (l, []) end
      else Some (l, rest)
  end.

(** ** Readers by position *)

Definition ish_log_read_bytes (l : klog) (offset len : Z) : option (list Z) :=
  let available := fifo_size (ring l) in
  if offset >=? available then Some [] else
  let len := clip len (u64 (available - offset)) in
  if len =? 0 then Some [] else ring_get (ring l) (u64 (start (ring l) + offset) mod capacity (ring l)) len.

(** The bytes, and the position after them. *)
Definition ish_log_read_at (l : klog) (pos len : Z) : option (Z * list Z) :=
  let oldest := log_oldest_locked l in
  let pos := if pos <? oldest then oldest else pos in
  if pos >=? total_written l then Some (pos, []) else
  let len := clip len (u64 (total_written l - pos)) in
  match ring_get (ring l) (u64 (start (ring l) + u64 (pos - oldest)) mod capacity (ring l)) len with
  | None => None
  | Some bs => Some (u64 (pos + len), bs)
  end.

(** ** Readers by line *)

Fixpoint memchr (s : list Z) (c : Z) : option Z :=
  match s with [] => None | x :: s => if x =? c then Some 0 else match memchr s c with Some k => Some (k + 1) | None => None end end.

Definition log_find_newline (l : klog) (from to : Z) : Z :=
  if from >=? to then to else
  let r := ring l in
  let off := u64 (from - log_oldest_locked l) in
  let len := u64 (to - from) in
  let s := u64 (start r + off) mod capacity r in
  let first := clip (u64 (capacity r - s)) len in
  match memchr (get_bytes (buf r) s first) 10 with
  | Some k => u64 (from + k)
  | None =>
      if len >? first then
        match memchr (get_bytes (buf r) 0 (u64 (len - first))) 10 with Some k => u64 (u64 (from + first) + k) | None => to end
      else to
  end.

Fixpoint log_count_lines (fuel : nat) (l : klog) (from to lines : Z) : Z :=
  match fuel with
  | O => lines
  | S fuel =>
      if from <? to then
        let at_ := log_find_newline l from to in
        if at_ =? to then lines else log_count_lines fuel l (u64 (at_ + 1)) to (u64 (lines + 1))
      else lines
  end.

Definition log_copy_out (l : klog) (from len : Z) : option (list Z) :=
  ring_get (ring l) (u64 (start (ring l) + u64 (from - log_oldest_locked l)) mod capacity (ring l)) len.

Definition ish_log_clear_pos (l : klog) : Z := u64 (total_written l - max_since_clear l).

(** Where seeking [pos] lands before it is held to the end: past the rest of a
    line whose beginning is gone. *)
Definition seek_from (l : klog) (pos : Z) : Z :=
  let oldest := log_oldest_locked l in
  if pos <=? oldest then
    if negb (oldest =? 0) then
      let nl := log_find_newline l oldest (total_written l) in
      if nl =? total_written l then total_written l else u64 (nl + 1)
    else oldest
  else pos.

(** The line's sequence number and position. *)
Definition ish_log_line_seek (l : klog) (pos : Z) : Z * Z :=
  let at_ := clip (seek_from l pos) (total_written l) in
  (u64 (total_lines l - log_count_lines (S (Z.to_nat (total_written l - at_))) l at_ (total_written l) 0), at_).

Inductive peeked := PeekLine (line : list Z) (next : Z) | PeekNone | PeekOverrun | PeekTooBig (needed : Z).

Definition ish_log_peek_line (l : klog) (pos bufsize : Z) : option peeked :=
  if pos <? log_oldest_locked l then Some PeekOverrun else
  if pos >=? total_written l then Some PeekNone else
  let nl := log_find_newline l pos (total_written l) in
  if nl =? total_written l then Some PeekNone else
  let len := u64 (nl - pos) in
  if len >? bufsize then Some (PeekTooBig len) else
  match log_copy_out l pos len with None => None | Some bs => Some (PeekLine bs (u64 (nl + 1))) end.

(** ** syslog(2) *)

Definition syslog_take (malloc_ok : bool) (l : klog) (len flags : Z) : option (klog * Z * list Z) :=
  let available := fifo_size (ring l) in
  let available := if has_flag flags FIFO_LAST && (available >? max_since_clear l) then max_since_clear l else available in
  let len := clip len available in
  if len =? 0 then Some (l, 0, []) else
  if negb malloc_ok then Some (l, _ENOMEM, []) else
  match fifo_read (ring l) len flags with
  | None => None
  | Some (_, inl _) => Some (l, _EIO, [])
  | Some (r, inr bs) => Some (mk_klog r (max_since_clear l) (total_written l) (total_lines l), len, bs)
  end.

Definition clear_log (l : klog) : klog := mk_klog (ring l) 0 (total_written l) (total_lines l).

(** The call's state, result and the bytes it owes the guest; or it waits. *)
Inductive sysout := Waits | Answers (res : Z) (copy : list Z).

Definition do_syslog (malloc_ok : bool) (l : klog) (type buf_addr len : Z) : option (klog * sysout) :=
  let answer x := match x with None => None | Some (l, res, bs) => Some (l, Answers res bs) end in
  if type =? 2 then
    if len <? 0 then Some (l, Answers _EINVAL []) else
    if buf_addr =? 0 then Some (l, Answers _EINVAL []) else
    if len =? 0 then Some (l, Answers 0 []) else
    if fifo_size (ring l) =? 0 then Some (l, Waits) else answer (syslog_take malloc_ok l len 0)
  else if (type =? 3) || (type =? 4) then
    if (buf_addr =? 0) || (len <? 0) then Some (l, Answers _EINVAL []) else
    if len =? 0 then Some (l, Answers 0 []) else
    match syslog_take malloc_ok l len (FIFO_LAST .| FIFO_PEEK) with
    | None => None
    | Some (l, res, bs) =>
        if res <? 0 then Some (l, Answers res bs)
        else Some (if type =? 4 then clear_log l else l, Answers res bs)
    end
  else if type =? 5 then Some (clear_log l, Answers 0 [])
  else if type =? 9 then Some (l, Answers (s32 (fifo_size (ring l))) [])
  else if type =? 10 then Some (l, Answers (s32 (fifo_capacity (ring l))) [])
  else if (type =? 0) || (type =? 1) || (type =? 6) || (type =? 7) || (type =? 8) then Some (l, Answers 0 [])
  else Some (l, Answers _EINVAL []).

Section Guest.
Context {M : Type} `{GuestMemory M}.

(** The whole call; [interrupted] is whether a signal ended its wait.  With no
    result it is still waiting. *)
Definition sys_syslog_guest (malloc_ok restart interrupted : bool) (m : M) (l : klog) (type buf_addr len : Z)
    : option (M * klog * option Z) :=
  match do_syslog malloc_ok l type buf_addr len with
  | None => None
  | Some (l, Waits) => Some (m, l, if interrupted then Some (signal_restart_or_eintr restart _EINTR) else None)
  | Some (l, Answers res []) => Some (m, l, Some (signal_restart_or_eintr restart res))
  | Some (l, Answers res bs) =>
      let '(m, ok) := user_write m buf_addr bs in
      Some (m, l, Some (signal_restart_or_eintr restart (if ok then res else _EFAULT)))
  end.

End Guest.

(** ** The ring as a queue *)

Record fifo_ok (f : fifo) : Prop := mk_fifo_ok {
  fo_cap : 0 < capacity f < 2 ^ 62;
  fo_len : Z.of_nat (length (buf f)) = capacity f;
  fo_size : 0 <= fsize f <= capacity f;
  fo_start : 0 <= start f < capacity f }.

(** The byte at a place of the ring, counting around it. *)
Definition cell (f : fifo) (i : Z) : Z := default 0 (buf f !! Z.to_nat (i mod capacity f)).

(** [n] bytes of the ring from [i] on. *)
Definition span (f : fifo) (i n : Z) : list Z := map (fun k => cell f (i + k)) (seqZ 0 n).

(** What the ring holds, oldest first. *)
Definition contents (f : fifo) : list Z := span f (start f) (fsize f).

Lemma span_length f i n : 0 <= n -> Z.of_nat (length (span f i n)) = n.
Proof. intros Hn. unfold span. rewrite length_map, length_seqZ. lia. Qed.

Lemma span_lookup f i n k : span f i n !! k = if decide (Z.of_nat k < n) then Some (cell f (i + Z.of_nat k)) else None.
Proof.
  unfold span. rewrite list_lookup_fmap. case_decide.
  - rewrite lookup_seqZ_lt by lia. done.
  - by rewrite lookup_seqZ_ge by lia.
Qed.

Lemma cell_mod f i j : i mod capacity f = j mod capacity f -> cell f i = cell f j.
Proof. unfold cell. by intros ->. Qed.

Lemma span_mod f i j n : i mod capacity f = j mod capacity f -> span f i n = span f j n.
Proof.
  intros E. apply list_eq. intros k. rewrite !span_lookup. case_decide; [| done]. f_equal. apply cell_mod.
  rewrite Zplus_mod, E, <- Zplus_mod. done.
Qed.

Lemma span_app f i n m : 0 <= n -> 0 <= m -> span f i (n + m) = span f i n ++ span f (i + n) m.
Proof.
  intros Hn Hm. unfold span. rewrite seqZ_app, map_app by lia. f_equal. simpl.
  apply list_eq. intros k. rewrite !list_lookup_fmap. destruct (decide (Z.of_nat k < m)).
  - rewrite !lookup_seqZ_lt by lia. simpl. do 2 f_equal. lia.
  - by rewrite !lookup_seqZ_ge by lia.
Qed.

Lemma span_take f i n m : 0 <= m <= n -> take (Z.to_nat m) (span f i n) = span f i m.
Proof.
  intros Hm. replace n with (m + (n - m)) by lia. rewrite span_app by lia. rewrite take_app_length'; [done |].
  pose proof (span_length f i m). lia.
Qed.

Lemma span_drop f i n m : 0 <= m <= n -> drop (Z.to_nat m) (span f i n) = span f (i + m) (n - m).
Proof.
  intros Hm. replace n with (m + (n - m)) at 1 by lia. rewrite span_app by lia. rewrite drop_app_length'; [done |].
  pose proof (span_length f i m). lia.
Qed.

Lemma get_bytes_span f s n : fifo_ok f -> 0 <= s -> 0 <= n -> s + n <= capacity f -> get_bytes (buf f) s n = span f s n.
Proof.
  intros [Hc Hl Hs Ht] Hs0 Hn Hsn. apply list_eq. intros k. rewrite get_bytes_lookup, span_lookup by lia. case_decide; [| done].
  unfold cell. rewrite Z.mod_small by lia. replace (Z.to_nat (s + Z.of_nat k)) with (Z.to_nat s + k)%nat by lia.
  destruct (lookup_lt_is_Some_2 (buf f) (Z.to_nat s + k)) as [x Hx]; [lia |]. by rewrite Hx.
Qed.

Lemma memcpy_out_span f s n : fifo_ok f -> 0 <= s -> 0 <= n -> s + n <= capacity f -> memcpy_out (buf f) s n = Some (span f s n).
Proof.
  intros Hf Hs Hn Hsn. unfold memcpy_out. pose proof (fo_len f Hf). rewrite get_bytes_span by done.
  destruct ((0 <=? s) && (0 <=? n) && (s + n <=? Z.of_nat (length (buf f)))) eqn:E; [done | lia].
Qed.

(** Both copies together are one span. *)
Lemma ring_get_span f s n : fifo_ok f -> 0 <= s < capacity f -> 0 <= n <= capacity f -> ring_get f s n = Some (span f s n).
Proof.
  intros Hf Hs Hn. pose proof (fo_cap f Hf). unfold ring_get, clip. rewrite !u64_small by lia.
  destruct (Z.gtb_spec (capacity f - s) n).
  - rewrite (u64_small (n - n)) by lia. rewrite !memcpy_out_span by (try done; lia). rewrite Z.sub_diag. change (span f 0 0) with (@nil Z). by rewrite app_nil_r.
  - rewrite (u64_small (n - _)) by lia. rewrite !memcpy_out_span by (try done; lia). f_equal. replace n with ((capacity f - s) + (n - (capacity f - s))) at 2 by lia.
    rewrite span_app by lia. f_equal. apply span_mod. replace (s + (capacity f - s)) with (0 + 1 * capacity f) by lia. by rewrite Z.mod_add by lia.
Qed.

(** Writing [data] from [tail] on, around the end, changes exactly its span. *)
Lemma wrap_write f tail data b1 b2 first :
  fifo_ok f -> 0 <= tail < capacity f -> Z.of_nat (length data) <= capacity f ->
  first = clip (u64 (capacity f - tail)) (Z.of_nat (length data)) ->
  memcpy_in (buf f) tail (take (Z.to_nat first) data) = Some b1 -> memcpy_in b1 0 (drop (Z.to_nat first) data) = Some b2 ->
  length b2 = length (buf f) /\
  forall i, 0 <= i < capacity f ->
    b2 !! Z.to_nat i = (if decide ((i - tail) mod capacity f < Z.of_nat (length data))
                        then data !! Z.to_nat ((i - tail) mod capacity f) else buf f !! Z.to_nat i).
Proof.
  intros [Hc Hl Hs Ht] Htl Hd -> H1 H2. unfold memcpy_in in *. rewrite u64_small in * by lia.
  destruct (_ && _) eqn:E1 in H1; [| done]. destruct (_ && _) eqn:E2 in H2; [| done]. simplify_eq.
  split; [by rewrite !put_bytes_length |]. intros i Hi. set (n := Z.of_nat (length data)) in *.
  set (first := clip (capacity f - tail) n) in *.
  assert (0 <= first <= n /\ (first = n \/ first = capacity f - tail) /\ first <= capacity f - tail) as (Hf1 & Hf2 & Hf3)
    by (unfold first, clip; destruct (Z.gtb_spec (capacity f - tail) n); lia).
  assert ((i - tail) mod capacity f = if decide (tail <= i) then i - tail else i - tail + capacity f) as Em.
  { case_decide; [apply Z.mod_small; lia |]. symmetry. apply Z.mod_unique with (-1); lia. }
  rewrite Em. unfold put_bytes. destruct (decide (i < n - first)) as [Hlow | Hhigh].
  - rewrite list_lookup_inserts by (rewrite ?length_inserts, ?length_drop; lia). rewrite lookup_drop.
    rewrite (decide_False (P := tail <= i)) by lia. rewrite decide_True by lia. f_equal. lia.
  - rewrite list_lookup_inserts_ge by (rewrite length_drop; lia). destruct (decide (tail <= i < tail + first)) as [Hin | Hout].
    + rewrite list_lookup_inserts by (rewrite ?length_take; lia). rewrite (decide_True (P := tail <= i)) by lia.
      rewrite decide_True by lia. rewrite lookup_take_lt by lia. f_equal. lia.
    + rewrite (decide_False (P := _ < n)) by (case_decide; lia).
      destruct (decide (i < tail)); [rewrite list_lookup_inserts_lt by lia | rewrite list_lookup_inserts_ge by (rewrite length_take; lia)]; done.
Qed.

Lemma mod_shift a b c : (a mod c - b) mod c = (a - b) mod c.
Proof. by rewrite Zminus_mod_idemp_l. Qed.

(** Appending what fits. *)
Lemma append_spec f data flags :
  fifo_ok f -> fsize f + Z.of_nat (length data) <= capacity f ->
  exists f', fifo_write f data flags = Some (f', 0) /\ fifo_ok f' /\ capacity f' = capacity f /\ contents f' = contents f ++ data /\
    fsize f' = fsize f + Z.of_nat (length data) /\ start f' = start f.
Proof.
  intros Hf Hfit. pose proof Hf as [Hc Hl Hs Ht]. unfold fifo_write, fifo_remaining. rewrite (u64_small (capacity f - fsize f)) by lia.
  destruct (Z.gtb_spec (Z.of_nat (length data)) (capacity f - fsize f)); [lia |]. cbn [andb].
  rewrite (u64_small (start f + fsize f)) by lia. set (tail := (start f + fsize f) mod capacity f).
  assert (0 <= tail < capacity f) as Htl by (apply Z.mod_pos_bound; lia).
  set (first := clip (u64 (capacity f - tail)) (Z.of_nat (length data))).
  assert (0 <= first <= Z.of_nat (length data) /\ first <= capacity f - tail) as [Hf1 Hf2]
    by (unfold first, clip; rewrite u64_small by lia; destruct (Z.gtb_spec (capacity f - tail) (Z.of_nat (length data))); lia).
  assert (exists b1, memcpy_in (buf f) tail (take (Z.to_nat first) data) = Some b1 /\ length b1 = length (buf f)) as (b1 & E1 & L1).
  { unfold memcpy_in. eexists. split; [| apply put_bytes_length]. rewrite length_take.
    destruct (_ && _) eqn:E; [reflexivity | lia]. }
  assert (exists b2, memcpy_in b1 0 (drop (Z.to_nat first) data) = Some b2) as (b2 & E2).
  { unfold memcpy_in. rewrite length_drop. destruct (_ && _) eqn:E; [by eexists |].
    unfold first, clip in *. rewrite u64_small in * by lia. destruct (Z.gtb_spec (capacity f - tail) (Z.of_nat (length data))); lia. }
  rewrite E1, E2. destruct (wrap_write f tail data b1 b2 first Hf Htl ltac:(lia) eq_refl E1 E2) as [Lb Hb]. rewrite u64_small by lia.
  eexists. split; [done |]. split; [split; simpl; lia |]. split; [done |]. split; [| done].
  unfold contents. cbn [start fsize]. apply list_eq. intros k. rewrite span_lookup. set (f' := mk_fifo b2 _ _ _).
  assert (Z.of_nat (length (span f (start f) (fsize f))) = fsize f) as Hlen by (apply span_length; lia).
  destruct (decide (Z.of_nat k < fsize f + Z.of_nat (length data))) as [Hk | Hk]; [| symmetry; apply lookup_ge_None_2; rewrite length_app; lia].
  assert (cell f' (start f + Z.of_nat k) = if decide (Z.of_nat k < fsize f) then cell f (start f + Z.of_nat k)
          else default 0 (data !! Z.to_nat (Z.of_nat k - fsize f))) as ->.
  { unfold cell at 1. cbn [buf capacity f']. rewrite Hb by (apply Z.mod_pos_bound; lia).
    unfold tail. rewrite mod_shift, Zminus_mod_idemp_r.
    replace (start f + Z.of_nat k - (start f + fsize f)) with (Z.of_nat k - fsize f) by lia. case_decide as Hx; case_decide as Hy.
    - exfalso. assert ((Z.of_nat k - fsize f) mod capacity f = Z.of_nat k - fsize f + capacity f); [| lia].
      symmetry. apply Z.mod_unique with (-1); lia.
    - rewrite Z.mod_small by lia. done.
    - done.
    - exfalso. rewrite Z.mod_small in Hx by lia. lia. }
  case_decide as Hx.
  - rewrite lookup_app_l by lia. rewrite span_lookup, decide_True by lia. done.
  - rewrite lookup_app_r by lia. replace (k - length (span f (start f) (fsize f)))%nat with (Z.to_nat (Z.of_nat k - fsize f)) by lia.
    destruct (lookup_lt_is_Some_2 data (Z.to_nat (Z.of_nat k - fsize f))) as [x Ex]; [lia |]. by rewrite Ex.
Qed.

(** The oldest [n] bytes dropped. *)
Definition forget (f : fifo) (n : Z) : fifo := mk_fifo (buf f) (capacity f) (u64 (fsize f - n)) (u64 (start f + n) mod capacity f).

Lemma forget_spec f n : fifo_ok f -> 0 <= n <= fsize f ->
  fifo_ok (forget f n) /\ fsize (forget f n) = fsize f - n /\ contents (forget f n) = drop (Z.to_nat n) (contents f).
Proof.
  intros [Hc Hl Hs Ht] Hn. unfold forget. rewrite !u64_small by lia.
  split; [split; simpl; [done | done | lia | apply Z.mod_pos_bound; lia] |]. split; [done |].
  unfold contents. cbn [start fsize]. rewrite span_drop by lia. apply (span_mod f). by rewrite Zmod_mod.
Qed.

Lemma overwrite_spec f data flags :
  fifo_ok f -> Z.of_nat (length data) <= capacity f < fsize f + Z.of_nat (length data) -> has_flag flags FIFO_OVERWRITE = true ->
  exists f', fifo_write f data flags = Some (f', 0) /\ fifo_ok f' /\ capacity f' = capacity f /\
    contents f' = drop (Z.to_nat (fsize f + Z.of_nat (length data) - capacity f)) (contents f ++ data) /\ fsize f' = capacity f.
Proof.
  intros Hf Hd Hfl. pose proof Hf as [Hc Hl Hs Ht]. set (n := fsize f + Z.of_nat (length data) - capacity f) in *.
  destruct (forget_spec f n Hf ltac:(lia)) as (Hf1 & Es & Ec).
  destruct (append_spec (forget f n) data flags Hf1 ltac:(rewrite Es; change (capacity (forget f n)) with (capacity f); lia)) as (f' & E & Hf' & Ecap & Econt & Esz & _).
  exists f'. split; [| split; [done | split; [done | split; [| lia]]]].
  - rewrite <- E. unfold fifo_write, fifo_remaining. rewrite Hfl, andb_false_r, (u64_small (capacity f - fsize f)) by lia.
    rewrite Es. change (capacity (forget f n)) with (capacity f). rewrite (u64_small (capacity f - (fsize f - n))) by lia.
    destruct (Z.gtb_spec (Z.of_nat (length data)) (capacity f - fsize f)); [| lia].
    destruct (Z.gtb_spec (Z.of_nat (length data)) (capacity f - (fsize f - n))); [lia |]. cbn [andb].
    rewrite (u64_small (Z.of_nat (length data) - (capacity f - fsize f))) by lia.
    replace (Z.of_nat (length data) - (capacity f - fsize f)) with n by lia. done.
  - rewrite Econt, Ec. symmetry. apply drop_app_le. pose proof (span_length f (start f) (fsize f)). unfold contents. lia.
Qed.

Lemma read_spec f n flags :
  fifo_ok f -> 0 <= n <= fsize f ->
  exists f', fifo_read f n flags = Some (f', inr (if has_flag flags FIFO_LAST then drop (Z.to_nat (fsize f - n)) (contents f) else take (Z.to_nat n) (contents f))) /\
    (has_flag flags FIFO_PEEK = true -> f' = f) /\ (has_flag flags FIFO_PEEK = false -> has_flag flags FIFO_LAST = false -> f' = forget f n).
Proof.
  intros Hf Hn. pose proof Hf as [Hc Hl Hs Ht]. unfold fifo_read, fifo_size. destruct (Z.gtb_spec n (fsize f)); [lia |].
  assert (exists s, (if has_flag flags FIFO_LAST then u64 (start f + u64 (fsize f - n)) mod capacity f else start f) = s /\ 0 <= s < capacity f /\
    span f s n = (if has_flag flags FIFO_LAST then drop (Z.to_nat (fsize f - n)) (contents f) else take (Z.to_nat n) (contents f)) /\
    (has_flag flags FIFO_LAST = false -> s = start f)) as (s & -> & Hs' & Esp & Est).
  { eexists. split; [done |]. unfold contents. destruct (has_flag flags FIFO_LAST).
    - rewrite (u64_small (fsize f - n)), u64_small by lia. split; [apply Z.mod_pos_bound; lia |]. split; [| done]. rewrite span_drop by lia.
      replace (fsize f - (fsize f - n)) with n by lia. apply span_mod. by rewrite Zmod_mod.
    - split; [done |]. split; [| done]. by rewrite span_take by lia. }
  rewrite ring_get_span by (try done; lia). rewrite Esp. eexists. split; [done |].
  split; [by intros -> |]. intros -> E. rewrite (Est E). done.
Qed.

(** The ring is a bounded queue of bytes. Writing what fits appends it;
    writing more is refused, or with FIFO_OVERWRITE drops as many of the oldest
    bytes as needed, for data that fits an empty ring; no copy leaves the
    buffer. Reading answers the oldest bytes, or the newest with FIFO_LAST, and
    removes the bytes read from the front unless it only peeks; asking for more
    than there is answers 1 and changes nothing. *)
Theorem fifo_refines_queue f :
  fifo_ok f ->
  (forall data flags, Z.of_nat (length data) <= capacity f \/ has_flag flags FIFO_OVERWRITE = false ->
     exists f' res, fifo_write f data flags = Some (f', res) /\ fifo_ok f' /\ capacity f' = capacity f /\
       if Z.of_nat (length (contents f ++ data)) <=? capacity f then res = 0 /\ contents f' = contents f ++ data
       else if has_flag flags FIFO_OVERWRITE
       then res = 0 /\ contents f' = drop (length (contents f ++ data) - Z.to_nat (capacity f)) (contents f ++ data)
       else res = 1 /\ f' = f) /\
  (forall n flags, 0 <= n ->
     exists f' r, fifo_read f n flags = Some (f', r) /\
       if Z.of_nat (length (contents f)) <? n then r = inl 1 /\ f' = f
       else r = inr (if has_flag flags FIFO_LAST then drop (length (contents f) - Z.to_nat n) (contents f) else take (Z.to_nat n) (contents f)) /\
            (has_flag flags FIFO_PEEK = true -> f' = f) /\
            (has_flag flags FIFO_PEEK = false -> has_flag flags FIFO_LAST = false -> fifo_ok f' /\ contents f' = drop (Z.to_nat n) (contents f))).
Proof.
  intros Hf. pose proof Hf as [Hc Hl Hs Ht]. assert (Z.of_nat (length (contents f)) = fsize f) as Elen by (apply span_length; lia). split.
  - intros data flags Hd. rewrite !length_app. destruct (Z.leb_spec (Z.of_nat (length (contents f) + length data)) (capacity f)) as [Hfit | Hover].
    + destruct (append_spec f data flags Hf ltac:(lia)) as (f' & E & Hf' & Ecap & Econt & _). exists f', 0. done.
    + destruct (has_flag flags FIFO_OVERWRITE) eqn:Efl.
      * destruct (overwrite_spec f data flags Hf ltac:(destruct Hd; [lia | congruence]) Efl) as (f' & E & Hf' & Ecap & Econt & _). exists f', 0.
        do 3 (split; [done |]). split; [done |]. rewrite Econt. f_equal. lia.
      * exists f, 1. split; [| done]. unfold fifo_write, fifo_remaining. rewrite u64_small, Efl by lia.
        by destruct (Z.gtb_spec (Z.of_nat (length data)) (capacity f - fsize f)); [| lia].
  - intros n flags Hn. rewrite Elen. destruct (Z.ltb_spec (fsize f) n) as [Hlt | Hge].
    + exists f, (inl 1). split; [| done]. unfold fifo_read, fifo_size. by destruct (Z.gtb_spec n (fsize f)); [| lia].
    + destruct (read_spec f n flags Hf ltac:(lia)) as (f' & E & Hp & Hr). exists f'. eexists. split; [done |].
      split; [case_match; [do 2 f_equal; lia | done] |]. split; [done |]. intros H1 H2. rewrite (Hr H1 H2).
      destruct (forget_spec f n Hf ltac:(lia)) as (F1 & _ & F3). done.
Qed.

(** ** The log as a stream *)

(** The log whose stream of bytes, all that was ever appended, is [S]. *)
Record log_holds (l : klog) (S : list Z) : Prop := mk_log_holds {
  lh_ring : fifo_ok (ring l);
  lh_cap : LINE_MAX <= capacity (ring l);
  lh_total : total_written l = Z.of_nat (length S);
  lh_few : Z.of_nat (length S) < 2 ^ 62;
  lh_size : fsize (ring l) <= Z.of_nat (length S);
  lh_contents : contents (ring l) = drop (Z.to_nat (Z.of_nat (length S) - fsize (ring l))) S;
  lh_clear : 0 <= max_since_clear l <= Z.of_nat (length S) }.

(** The absolute position of the oldest byte still there. *)
Definition oldest (l : klog) : Z := total_written l - fsize (ring l).

(** The stream between two positions. *)
Definition sub (S : list Z) (from to : Z) : list Z := take (Z.to_nat (to - from)) (drop (Z.to_nat from) S).

Lemma oldest_locked l S : log_holds l S -> log_oldest_locked l = oldest l /\ 0 <= oldest l <= total_written l.
Proof.
  intros [[? ? ? ?] ? Ht Hf Hs ? ?]. unfold log_oldest_locked, oldest, fifo_size. rewrite u64_small by lia. lia.
Qed.

Lemma sub_length S from to : 0 <= from <= to -> to <= Z.of_nat (length S) -> Z.of_nat (length (sub S from to)) = to - from.
Proof. intros Hft Ht. unfold sub. rewrite length_take, length_drop. lia. Qed.

(** Any part of the stream that is still there, as bytes of the ring. *)
Lemma window l S from to :
  log_holds l S -> oldest l <= from <= to -> to <= total_written l ->
  span (ring l) ((start (ring l) + (from - oldest l)) mod capacity (ring l)) (to - from) = sub S from to.
Proof.
  intros [[Hc Hl Hs Ht] ? Htot Hf Hsz Hcont ?] Hft Hto. unfold oldest in *.
  rewrite (span_mod _ _ (start (ring l) + (from - (total_written l - fsize (ring l))))) by (apply Zmod_mod).
  set (o := total_written l - fsize (ring l)) in *.
  assert (span (ring l) (start (ring l) + (from - o)) (to - from) = take (Z.to_nat (to - from)) (drop (Z.to_nat (from - o)) (contents (ring l)))) as ->.
  { unfold contents. rewrite span_drop by lia. by rewrite span_take by lia. }
  rewrite Hcont, drop_drop. unfold sub. do 2 f_equal. lia.
Qed.

Lemma ring_get_sub l S from to :
  log_holds l S -> oldest l <= from <= to -> to <= total_written l ->
  ring_get (ring l) (u64 (start (ring l) + u64 (from - oldest l)) mod capacity (ring l)) (to - from) = Some (sub S from to).
Proof.
  intros Hh Hft Hto. pose proof Hh as [[Hc Hl Hs Ht] ? Htot Hf Hsz Hcont ?].
  assert (oldest l <= from /\ from - oldest l <= fsize (ring l) /\ 0 <= oldest l) as (? & ? & ?) by (unfold oldest in *; lia).
  rewrite (u64_small (from - oldest l)), u64_small by (unfold oldest in *; lia).
  rewrite ring_get_span; [by rewrite (window l S) | apply (lh_ring _ _ Hh) | apply Z.mod_pos_bound; lia | unfold oldest in *; lia].
Qed.

Lemma append_holds l S msg :
  log_holds l S -> Z.of_nat (length msg) <= capacity (ring l) -> Z.of_nat (length (S ++ msg)) < 2 ^ 62 ->
  exists l', log_buf_append l msg = Some l' /\ log_holds l' (S ++ msg) /\ total_lines l' = total_lines l /\ capacity (ring l') = capacity (ring l).
Proof.
  intros Hh Hm Hf. pose proof Hh as [Hr Hcap Htot Hfew Hsz Hcont Hcl]. pose proof Hr as [Hc Hl Hs Ht]. rewrite length_app in Hf.
  assert (Z.of_nat (length (contents (ring l))) = fsize (ring l)) as Elen by (apply span_length; lia).
  assert (exists r, fifo_write (ring l) msg FIFO_OVERWRITE = Some (r, 0) /\ fifo_ok r /\ capacity r = capacity (ring l) /\
    fsize r <= Z.of_nat (length (S ++ msg)) /\ contents r = drop (Z.to_nat (Z.of_nat (length (S ++ msg)) - fsize r)) (S ++ msg)) as (r & E & Hr' & Ec & Es & Econt).
  { destruct (decide (fsize (ring l) + Z.of_nat (length msg) <= capacity (ring l))) as [Hfit | Hover].
    - destruct (append_spec (ring l) msg FIFO_OVERWRITE Hr Hfit) as (r & E & Hr' & Ec & Econt & Esz & _). exists r.
      rewrite Esz, length_app. do 3 (split; [done |]). split; [lia |]. rewrite Econt, Hcont, drop_app_le by lia. do 2 f_equal. lia.
    - destruct (overwrite_spec (ring l) msg FIFO_OVERWRITE Hr ltac:(lia) eq_refl) as (r & E & Hr' & Ec & Econt & Esz). exists r.
      rewrite Esz, length_app. do 3 (split; [done |]). split; [lia |]. rewrite Econt, Hcont.
      rewrite <- (drop_app_le S msg (Z.to_nat (Z.of_nat (length S) - fsize (ring l)))) by lia. rewrite drop_drop. f_equal. lia. }
  unfold log_buf_append. rewrite E. eexists. split; [done |]. unfold clip, fifo_capacity. rewrite !u64_small by lia.
  split; [| done]. split; cbn [ring total_written max_since_clear]; [done | by rewrite Ec | rewrite length_app; lia | rewrite length_app; lia | done | done |].
  rewrite length_app. destruct (Z.gtb_spec (max_since_clear l + Z.of_nat (length msg)) (capacity r)); lia.
Qed.

(** ** Reading by position *)

(** A reader by absolute position reads the stream. Whatever was logged before
    and however often the ring has wrapped, a read at a position answers the
    bytes of the stream from there on, as many as asked for and there are, and
    the position after them; from a position that has fallen out of the ring it
    resumes at the oldest byte still there. *)
Theorem log_read_at_stream l S pos len :
  log_holds l S -> 0 <= pos < 2 ^ 64 -> 0 <= len < 2 ^ 64 ->
  let p := Z.max pos (oldest l) in
  ish_log_read_at l pos len = Some (p + Z.of_nat (length (take (Z.to_nat len) (drop (Z.to_nat p) S))), take (Z.to_nat len) (drop (Z.to_nat p) S)).
Proof.
  intros Hh Hp Hlen. destruct (oldest_locked l S Hh) as [Eo Ho]. pose proof Hh as [_ _ Htot Hfew _ _ _]. unfold ish_log_read_at. rewrite Eo.
  replace (if pos <? oldest l then oldest l else pos) with (Z.max pos (oldest l)) by (destruct (Z.ltb_spec pos (oldest l)); lia).
  set (p := Z.max pos (oldest l)). destruct (Z.geb_spec p (total_written l)).
  - rewrite drop_ge by lia. rewrite take_nil. do 2 f_equal. simpl. lia.
  - rewrite (u64_small (total_written l - p)) by lia. set (n := clip len (total_written l - p)).
    assert (0 <= n <= total_written l - p /\ n <= len /\ (n = len \/ n = total_written l - p)) as (Hn1 & Hn2 & Hn3)
      by (unfold n, clip; destruct (Z.gtb_spec len (total_written l - p)); lia).
    pose proof (ring_get_sub l S p (p + n) Hh ltac:(lia) ltac:(lia)) as Hg. replace (p + n - p) with n in Hg by lia. rewrite Hg.
    assert (sub S p (p + n) = take (Z.to_nat len) (drop (Z.to_nat p) S)) as Esub.
    { unfold sub. replace (p + n - p) with n by lia. destruct Hn3 as [-> | ->]; [done |]. rewrite !take_ge; [done | |]; rewrite length_drop; lia. }
    rewrite <- Esub, (sub_length S) by lia. rewrite u64_small by lia. do 2 f_equal. lia.
Qed.

(** ** Lines *)

(** How many newlines. *)
Definition nls (s : list Z) : Z := Z.of_nat (length (filter (fun x => x = 10) s)).

Lemma nls_app s t : nls (s ++ t) = nls s + nls t.
Proof. unfold nls. rewrite filter_app, length_app. lia. Qed.

Lemma memchr_spec s c : match memchr s c with
  | Some k => exists a b, s = a ++ c :: b /\ k = Z.of_nat (length a) /\ c ∉ a
  | None => c ∉ s
  end.
Proof.
  induction s as [| x s IH]; simpl; [apply not_elem_of_nil |]. destruct (Z.eqb_spec x c) as [-> | Hne].
  - exists [], s. split; [done |]. split; [done | apply not_elem_of_nil].
  - destruct (memchr s c) as [k |].
    + destruct IH as (a & b & -> & -> & Hni). exists (x :: a), b. split; [done |]. split; [simpl; lia |]. rewrite not_elem_of_cons. naive_solver.
    + rewrite not_elem_of_cons. naive_solver.
Qed.

Lemma memchr_app s t c :
  memchr (s ++ t) c = match memchr s c with Some k => Some k | None => match memchr t c with Some k => Some (Z.of_nat (length s) + k) | None => None end end.
Proof.
  induction s as [| x s IH]; simpl; [by destruct (memchr t c) |]. destruct (x =? c); [done |]. rewrite IH.
  destruct (memchr s c); [done |]. destruct (memchr t c); [f_equal; lia | done].
Qed.

Lemma nls_none s : 10 ∉ s -> nls s = 0.
Proof.
  intros Hni. unfold nls. induction s as [| x s IH]; [done |]. rewrite not_elem_of_cons in Hni. destruct Hni as [Hx Hni].
  rewrite filter_cons_False by done. by apply IH.
Qed.

Lemma clip_le n m : 0 <= n -> 0 <= m -> 0 <= clip n m <= m /\ clip n m <= n /\ (clip n m = n \/ clip n m = m).
Proof. intros Hn Hm. unfold clip. destruct (Z.gtb_spec n m); lia. Qed.

(** The search over the ring's two pieces is a search of the stream. *)
Lemma find_newline_spec l S from to :
  log_holds l S -> oldest l <= from <= to -> to <= total_written l ->
  log_find_newline l from to = match memchr (sub S from to) 10 with Some k => from + k | None => to end.
Proof.
  intros Hh Hft Hto. destruct (oldest_locked l S Hh) as [Eo Ho]. pose proof Hh as [Hr _ Htot Hfew Hsz _ _]. pose proof Hr as [Hc Hl Hs Ht].
  unfold log_find_newline. rewrite Eo. destruct (Z.geb_spec from to) as [Hge | Hlt].
  { assert (from = to) as -> by lia. unfold sub. by rewrite Z.sub_diag. }
  assert (to - from <= fsize (ring l)) as Hw by (unfold oldest in *; lia).
  rewrite (u64_small (from - oldest l)), (u64_small (start (ring l) + _)), (u64_small (to - from)) by (unfold oldest in *; lia).
  rewrite <- (window l S from to Hh Hft Hto). set (s := (start (ring l) + (from - oldest l)) mod capacity (ring l)).
  assert (0 <= s < capacity (ring l)) as Hsr by (apply Z.mod_pos_bound; lia). rewrite (u64_small (capacity (ring l) - s)) by lia.
  destruct (clip_le (capacity (ring l) - s) (to - from) ltac:(lia) ltac:(lia)) as (C1 & C2 & C3).
  set (first := clip (capacity (ring l) - s) (to - from)) in *. rewrite (get_bytes_span (ring l) s first Hr) by lia.
  assert (span (ring l) s (to - from) = span (ring l) s first ++ span (ring l) (s + first) (to - from - first)) as ->
    by (rewrite <- span_app by lia; f_equal; lia).
  rewrite memchr_app.
  pose proof (memchr_spec (span (ring l) s first) 10) as M1. destruct (memchr (span (ring l) s first) 10) as [k |].
  - destruct M1 as (a & b & Ea & -> & _). pose proof (span_length (ring l) s first ltac:(lia)) as Hsl. rewrite Ea, length_app in Hsl. simpl in Hsl.
    apply u64_small. lia.
  - destruct (Z.gtb_spec (to - from) first) as [Hmore | Hall].
    + assert (first = capacity (ring l) - s) as Ef by lia. rewrite (u64_small (to - from - first)) by lia.
      rewrite (get_bytes_span (ring l) 0 _ Hr) by lia.
      assert (span (ring l) (s + first) (to - from - first) = span (ring l) 0 (to - from - first)) as ->.
      { apply span_mod. rewrite Ef. replace (s + (capacity (ring l) - s)) with (0 + 1 * capacity (ring l)) by lia. by rewrite Z.mod_add by lia. }
      pose proof (memchr_spec (span (ring l) 0 (to - from - first)) 10) as M2. destruct (memchr (span (ring l) 0 (to - from - first)) 10) as [k |]; [| done].
      destruct M2 as (a & b & Ea & -> & _). pose proof (span_length (ring l) 0 (to - from - first) ltac:(lia)) as Hsl. rewrite Ea, length_app in Hsl. simpl in Hsl.
      rewrite (u64_small (from + first)), u64_small by lia. pose proof (span_length (ring l) s first ltac:(lia)). lia.
    + replace (to - from - first) with 0 by lia. done.
Qed.

Lemma sub_split S from k to : 0 <= from -> 0 <= k -> from + k <= to -> to <= Z.of_nat (length S) -> sub S from to = sub S from (from + k) ++ sub S (from + k) to.
Proof.
  intros Hf Hk Hkt Hto. unfold sub. replace (Z.to_nat (from + k)) with (Z.to_nat from + Z.to_nat k)%nat by lia. rewrite <- drop_drop.
  replace (Z.to_nat (from + k - from)) with (Z.to_nat k) by lia. replace (Z.to_nat (to - from)) with (Z.to_nat k + Z.to_nat (to - (from + k)))%nat by lia.
  generalize (drop (Z.to_nat from) S). intros L. by rewrite take_take_drop.
Qed.

(** The counting loop, with fuel for the bytes between. *)
Lemma count_lines_spec fuel l S from to lines :
  log_holds l S -> oldest l <= from <= to -> to <= total_written l -> (Z.to_nat (to - from) < fuel)%nat -> 0 <= lines -> lines + (to - from) < 2 ^ 64 ->
  log_count_lines fuel l from to lines = lines + nls (sub S from to).
Proof.
  intros Hh. revert from lines. induction fuel as [| fuel IH]; intros from lines Hft Hto Hfuel Hl0 Hl; [lia |]. cbn [log_count_lines].
  destruct (oldest_locked l S Hh) as [_ Ho]. pose proof (lh_total l S Hh) as Htot. pose proof (lh_few l S Hh) as Hfew.
  destruct (Z.ltb_spec from to) as [Hlt | Hge].
  - rewrite (find_newline_spec l S from to Hh Hft Hto). pose proof (memchr_spec (sub S from to) 10) as Hm.
    pose proof (sub_length S from to ltac:(lia) ltac:(lia)) as Hsl. destruct (memchr (sub S from to) 10) as [k |].
    + destruct Hm as (a & b & Ea & -> & Hni). rewrite Ea, length_app in Hsl. simpl in Hsl.
      destruct (Z.eqb_spec (from + Z.of_nat (length a)) to); [lia |]. rewrite !u64_small by lia.
      rewrite IH by lia. rewrite Ea, nls_app, (nls_none a) by done.
      rewrite (sub_split S from (Z.of_nat (length a) + 1) to) in Ea by lia.
      assert (sub S (from + (Z.of_nat (length a) + 1)) to = b) as Eb.
      { apply (app_inj_2 (sub S from (from + (Z.of_nat (length a) + 1))) (a ++ [10])); [| by rewrite <- app_assoc].
        pose proof (sub_length S (from + (Z.of_nat (length a) + 1)) to ltac:(lia) ltac:(lia)). lia. }
      replace (from + Z.of_nat (length a) + 1) with (from + (Z.of_nat (length a) + 1)) by lia. rewrite Eb. unfold nls.
      rewrite filter_cons_True by done. simpl length. lia.
    + rewrite Z.eqb_refl. rewrite nls_none by done. lia.
  - assert (from = to) as -> by lia. unfold sub. rewrite Z.sub_diag. unfold nls. simpl. lia.
Qed.

(** ** The log as lines *)

Definition stream (L : list (list Z)) : list Z := flat_map (fun x => x ++ [10]) L.

(** The log to which exactly the lines [L] were ever written. *)
Record log_lines (l : klog) (L : list (list Z)) : Prop := mk_log_lines {
  ll_holds : log_holds l (stream L);
  ll_whole : Forall (fun x => 10 ∉ x) L;
  ll_count : total_lines l = Z.of_nat (length L) }.

Lemma stream_app L K : stream (L ++ K) = stream L ++ stream K.
Proof. apply flat_map_app. Qed.

Lemma stream_split L k : stream L = stream (take k L) ++ stream (drop k L).
Proof. by rewrite <- stream_app, take_drop. Qed.

Lemma nls_stream L : Forall (fun x => 10 ∉ x) L -> nls (stream L) = Z.of_nat (length L).
Proof.
  induction 1 as [| x L Hx _ IH]; [done |]. unfold stream in *. simpl. rewrite !nls_app, IH, nls_none by done. unfold nls. simpl. lia.
Qed.

Lemma stream_length L : (length L <= length (stream L))%nat.
Proof. induction L as [| x L IH]; simpl; [lia |]. unfold stream in *. rewrite !length_app. simpl. lia. Qed.

(** A position after a newline is where a line starts. *)
Lemma newline_boundary L a b : Forall (fun x => 10 ∉ x) L -> stream L = a ++ 10 :: b ->
  exists k, (k <= length L)%nat /\ a ++ [10] = stream (take k L) /\ b = stream (drop k L).
Proof.
  intros HL. revert a. induction HL as [| x L Hx _ IH]; intros a E; simpl in E; [by destruct a |].
  rewrite <- app_assoc in E. simpl in E. destruct (decide (length a <= length x)%nat) as [Hle | Hgt].
  - assert (a = x) as ->.
    { apply (f_equal (take (length x))) in E as E1. rewrite take_app_length in E1. destruct (decide (length a = length x)) as [Hq | Hq].
      - apply (app_inj_1 a x) in E as [-> _]; [done | done] || (symmetry in E; apply app_inj_1 in E as [-> _]; [done | lia]).
      - exfalso. apply Hx. rewrite E1. rewrite take_app_ge by lia. apply elem_of_app. right.
        destruct (length x - length a)%nat eqn:En; [lia |]. left. }
    apply app_inv_head in E. simplify_eq. exists 1%nat. simpl. split; [lia |]. rewrite ?take_0, ?drop_0. simpl. by rewrite app_nil_r.
  - apply (f_equal (drop (S (length x)))) in E as E1. apply (f_equal (take (S (length x)))) in E as E2.
    change (x ++ 10 :: stream L) with (x ++ [10] ++ stream L) in *. rewrite app_assoc in E1, E2.
    rewrite drop_app_length' in E1 by (rewrite length_app; simpl; lia). rewrite take_app_length' in E2 by (rewrite length_app; simpl; lia).
    rewrite drop_app_le in E1 by lia. rewrite take_app_le in E2 by lia.
    destruct (IH _ E1) as (k & Hk & Ek & Eb). exists (S k). split; [simpl; lia |]. split; [| done]. unfold stream in *. simpl. rewrite <- Ek, E2.
    by rewrite app_assoc, take_drop.
Qed.

Lemma sub_to_end l S pos : log_holds l S -> 0 <= pos -> sub S pos (total_written l) = drop (Z.to_nat pos) S.
Proof. intros Hh Hp. unfold sub. rewrite (lh_total _ _ Hh). apply take_ge. rewrite length_drop. lia. Qed.

Lemma drop_stream L k : drop (length (stream (take k L))) (stream L) = stream (drop k L).
Proof. rewrite (stream_split L k). apply drop_app_length. Qed.

(** At the start of line [k]. *)
Lemma line_at l L k : log_lines l L -> (k <= length L)%nat ->
  let pos := Z.of_nat (length (stream (take k L))) in
  0 <= pos <= total_written l /\ sub (stream L) pos (total_written l) = stream (drop k L) /\ nls (stream (drop k L)) = Z.of_nat (length L - k).
Proof.
  intros [Hh HL Hc] Hk. cbv zeta. rewrite (sub_to_end l) by (try done; lia). rewrite Nat2Z.id, drop_stream, nls_stream by (by apply Forall_drop).
  rewrite length_drop. split; [| done]. rewrite (lh_total _ _ Hh), (stream_split L k), length_app. lia.
Qed.

Lemma seek_result l L k : log_lines l L -> (k <= length L)%nat -> oldest l <= Z.of_nat (length (stream (take k L))) ->
  let at_ := Z.of_nat (length (stream (take k L))) in
  (u64 (total_lines l - log_count_lines (S (Z.to_nat (total_written l - at_))) l at_ (total_written l) 0), at_) = (Z.of_nat k, at_).
Proof.
  intros Hl Hk Ho. cbv zeta. destruct (line_at l L k Hl Hk) as (Hp & Hs & Hn). pose proof Hl as [Hh HL Hc]. pose proof (lh_few _ _ Hh). pose proof (lh_total _ _ Hh).
  rewrite (count_lines_spec _ l (stream L)) by (try done; lia). rewrite Hs, Hn, Hc. pose proof (stream_length L). f_equal. rewrite u64_small; lia.
Qed.

Lemma seek_at_line l L k : log_lines l L -> (k <= length L)%nat ->
  let pos := Z.of_nat (length (stream (take k L))) in oldest l < pos \/ (oldest l = 0 /\ pos = 0) -> ish_log_line_seek l pos = (Z.of_nat k, pos).
Proof.
  intros Hl Hk pos Hpos. destruct (oldest_locked l _ (ll_holds _ _ Hl)) as [Eo Ho]. destruct (line_at l L k Hl Hk) as (Hp & _ & _).
  assert (seek_from l pos = pos) as Es.
  { unfold seek_from. rewrite Eo. destruct (Z.leb_spec pos (oldest l)); [| done]. destruct (Z.eqb_spec (oldest l) 0); simpl; [unfold pos in *; lia | lia]. }
  unfold ish_log_line_seek. rewrite Es.
  unfold clip. fold pos in Hp. destruct (Z.gtb_spec pos (total_written l)); [lia |]. apply seek_result; [done | done |]. fold pos. lia.
Qed.

(** Sought at a place that has fallen out of the ring. *)
Lemma seek_resyncs l L pos : log_lines l L -> pos <= oldest l -> oldest l <> 0 ->
  exists k, (k <= length L)%nat /\ oldest l <= Z.of_nat (length (stream (take k L))) /\
    ish_log_line_seek l pos = (Z.of_nat k, Z.of_nat (length (stream (take k L)))).
Proof.
  intros Hl Hpos Hne. pose proof Hl as [Hh HL Hc]. destruct (oldest_locked l _ Hh) as [Eo Ho]. pose proof (lh_total _ _ Hh) as Htot. pose proof (lh_few _ _ Hh) as Hfew.
  assert (exists k, (k <= length L)%nat /\ oldest l <= Z.of_nat (length (stream (take k L))) /\ seek_from l pos = Z.of_nat (length (stream (take k L))))
    as (k & Hk & Hko & Ek).
  { unfold seek_from. rewrite Eo. destruct (Z.leb_spec pos (oldest l)); [| lia]. destruct (Z.eqb_spec (oldest l) 0); [done |]. cbn [negb].
    rewrite (find_newline_spec l (stream L)), (sub_to_end l) by (try done; lia). pose proof (memchr_spec (drop (Z.to_nat (oldest l)) (stream L)) 10) as Hm.
    destruct (memchr (drop (Z.to_nat (oldest l)) (stream L)) 10) as [j |]; cbv zeta.
    - destruct Hm as (a & b & Ed & -> & _). assert (stream L = (take (Z.to_nat (oldest l)) (stream L) ++ a) ++ 10 :: b) as ES
        by (rewrite <- app_assoc, <- Ed; by rewrite take_drop).
      destruct (newline_boundary L _ b HL ES) as (k & Hk & Ek & Eb). exists k. pose proof (f_equal (@length Z) Ek) as El.
      pose proof (f_equal (@length Z) ES) as El2. rewrite !length_app, length_take in El, El2. simpl in El, El2.
      split; [done |]. split; [lia |]. destruct (Z.eqb_spec (oldest l + Z.of_nat (length a)) (total_written l)); [lia |]. rewrite u64_small; lia.
    - exists (length L). rewrite Z.eqb_refl, firstn_all. split; [done |]. lia. }
  exists k. split; [done |]. split; [done |]. unfold ish_log_line_seek. rewrite Ek. destruct (line_at l L k Hl Hk) as (Hp & _ & _).
  unfold clip. destruct (Z.gtb_spec (Z.of_nat (length (stream (take k L)))) (total_written l)); [lia |]. by apply seek_result.
Qed.

Lemma memchr_line x s : 10 ∉ x -> memchr (x ++ 10 :: s) 10 = Some (Z.of_nat (length x)).
Proof.
  intros Hni. rewrite memchr_app. pose proof (memchr_spec x 10) as Hm. destruct (memchr x 10) as [k |].
  - destruct Hm as (a & b & -> & _). exfalso. apply Hni. apply elem_of_app. right. left.
  - simpl. f_equal. lia.
Qed.

Lemma peek_at_line l L k line bufsize : log_lines l L -> L !! k = Some line -> oldest l <= Z.of_nat (length (stream (take k L))) ->
  ish_log_peek_line l (Z.of_nat (length (stream (take k L)))) bufsize =
  Some (if Z.of_nat (length line) >? bufsize then PeekTooBig (Z.of_nat (length line)) else PeekLine line (Z.of_nat (length (stream (take (S k) L))))).
Proof.
  intros Hl Hk Ho. pose proof Hl as [Hh HL Hc]. pose proof (lookup_lt_Some _ _ _ Hk) as Hlt. destruct (line_at l L k Hl ltac:(lia)) as (Hp & Hs & _).
  destruct (oldest_locked l _ Hh) as [Eo Ho2]. pose proof (lh_few _ _ Hh). pose proof (lh_total _ _ Hh) as Htot. set (pos := Z.of_nat (length (stream (take k L)))) in *.
  pose proof (Forall_lookup_1 _ _ _ _ HL Hk) as Hni. simpl in Hni.
  assert (stream (drop k L) = line ++ 10 :: stream (drop (S k) L)) as Ed by (rewrite (drop_S L line k Hk); unfold stream; simpl; by rewrite <- app_assoc).
  pose proof (sub_length (stream L) pos (total_written l) ltac:(lia) ltac:(lia)) as Hlen. rewrite Hs, Ed, length_app in Hlen. simpl in Hlen.
  unfold ish_log_peek_line. rewrite Eo. destruct (Z.ltb_spec pos (oldest l)); [lia |]. destruct (Z.geb_spec pos (total_written l)); [lia |].
  rewrite (find_newline_spec l (stream L)) by (try done; lia). rewrite Hs, Ed, memchr_line by done.
  destruct (Z.eqb_spec (pos + Z.of_nat (length line)) (total_written l)); [lia |].
  replace (pos + Z.of_nat (length line) - pos) with (Z.of_nat (length line)) by lia. rewrite (u64_small (Z.of_nat (length line))) by lia.
  destruct (Z.of_nat (length line) >? bufsize); [done |]. unfold log_copy_out. rewrite Eo.
  pose proof (ring_get_sub l (stream L) pos (pos + Z.of_nat (length line)) Hh ltac:(lia) ltac:(lia)) as Hg.
  replace (pos + Z.of_nat (length line) - pos) with (Z.of_nat (length line)) in Hg by lia. rewrite Hg.
  assert (sub (stream L) pos (pos + Z.of_nat (length line)) = line) as ->.
  { unfold sub. replace (Z.to_nat (pos + Z.of_nat (length line) - pos)) with (length line) by lia. unfold pos. rewrite Nat2Z.id, drop_stream, Ed. apply take_app_length. }
  rewrite u64_small by lia. do 2 f_equal. rewrite (take_S_r L k line Hk), stream_app, length_app.
  assert (length (stream [line]) = S (length line)) by (unfold stream; simpl; rewrite app_nil_r, length_app; simpl; lia). unfold pos. lia.
Qed.

(** C23: a reader by line gets the lines, whole and numbered. At the start of the
    line with index k that is still in the ring, seeking answers k and stays
    there, and reading answers exactly that line and where the next one starts,
    or its length when the buffer is too small; past the last line there is
    nothing yet. Seeking a position that has fallen out of the ring moves to the
    start of a line still there and answers that line's own index. *)
Theorem log_line_reader l L :
  log_lines l L ->
  (forall k, (k <= length L)%nat -> let pos := Z.of_nat (length (stream (take k L))) in
     oldest l < pos \/ (oldest l = 0 /\ pos = 0) ->
     ish_log_line_seek l pos = (Z.of_nat k, pos) /\
     (forall line bufsize, L !! k = Some line ->
        ish_log_peek_line l pos bufsize =
        Some (if Z.of_nat (length line) >? bufsize then PeekTooBig (Z.of_nat (length line))
              else PeekLine line (Z.of_nat (length (stream (take (S k) L)))))) /\
     (k = length L -> forall bufsize, ish_log_peek_line l pos bufsize = Some PeekNone)) /\
  (forall pos, pos <= oldest l -> oldest l <> 0 ->
     exists k, (k <= length L)%nat /\ oldest l <= Z.of_nat (length (stream (take k L))) /\
       ish_log_line_seek l pos = (Z.of_nat k, Z.of_nat (length (stream (take k L))))).
Proof.
  intros Hl. split; [| intros pos; by apply seek_resyncs]. intros k Hk pos Hpos. pose proof Hl as [Hh HL Hc].
  destruct (oldest_locked l _ Hh) as [Eo Ho]. split; [by apply seek_at_line |]. split.
  - intros line bufsize Hline. apply peek_at_line; [done | done | lia].
  - intros -> bufsize. unfold ish_log_peek_line. rewrite Eo. unfold pos. rewrite firstn_all, <- (lh_total _ _ Hh).
    destruct (Z.ltb_spec (total_written l) (oldest l)); [lia |]. by destruct (Z.geb_spec (total_written l) (total_written l)); [| lia].
Qed.

(** ** Writing *)

(** The log line a printed line makes, if it makes one. *)
Definition line_text (stamp line : list Z) : list (list Z) :=
  if bool_decide (take 5 line = [73; 78; 70; 79; 58]) then [] else
  match truncate_to LINE_MAX (match stamp with [] => line | _ => [91] ++ stamp ++ [93; 32] ++ line end) with [] => [] | t => [t] end.

Lemma truncate_length n s : 0 < n -> Z.of_nat (length (truncate_to n s)) < n.
Proof. intros Hn. unfold truncate_to. rewrite length_take. lia. Qed.

Lemma line_text_ok stamp line : 10 ∉ stamp -> 10 ∉ line ->
  Forall (fun x => 10 ∉ x) (line_text stamp line) /\ (length (line_text stamp line) <= 1)%nat /\ Z.of_nat (length (stream (line_text stamp line))) <= LINE_MAX.
Proof.
  intros Hs Hl. unfold line_text. case_bool_decide; [by split; [constructor | split; [simpl; lia | done]] |].
  set (t := match stamp with [] => line | _ => [91] ++ stamp ++ [93; 32] ++ line end).
  assert (10 ∉ t) as Ht.
  { unfold t. destruct stamp as [| c stamp]; [done |]. rewrite !not_elem_of_app, !not_elem_of_cons. rewrite not_elem_of_cons in Hs.
    repeat split; try apply not_elem_of_nil; try lia; naive_solver. }
  pose proof (truncate_length LINE_MAX t ltac:(done)) as Hlen. assert (10 ∉ truncate_to LINE_MAX t) as Hnt.
  { intros Hin. apply Ht. unfold truncate_to in Hin. rewrite <- (take_drop (Z.to_nat (LINE_MAX - 1)) t). apply elem_of_app. by left. }
  destruct (truncate_to LINE_MAX t) as [| c u]; [by split; [constructor | split; [simpl; lia | done]] |].
  split; [by repeat constructor |]. split; [simpl; lia |]. unfold stream. simpl in *. rewrite app_nil_r, length_app. simpl. lia.
Qed.

Lemma output_line_ok stamp l L line :
  log_lines l L -> 10 ∉ stamp -> 10 ∉ line -> Z.of_nat (length (stream L)) + LINE_MAX < 2 ^ 62 ->
  exists l', output_line stamp l line = Some l' /\ log_lines l' (L ++ line_text stamp line).
Proof.
  intros Hl Hs Hline Hroom. pose proof Hl as [Hh HL Hc]. destruct (line_text_ok stamp line Hs Hline) as (T1 & T2 & T3).
  unfold output_line, line_text in *. case_bool_decide; [exists l; by rewrite app_nil_r |].
  destruct (truncate_to LINE_MAX _) as [| c u] eqn:Et; [exists l; by rewrite app_nil_r |]. set (t := c :: u) in *.
  assert (Z.of_nat (length t) + 1 <= LINE_MAX) as Hlen by (unfold stream in T3; simpl in T3; rewrite app_nil_r, length_app in T3; simpl in *; lia).
  pose proof (lh_cap _ _ Hh) as Hcap.
  destruct (append_holds l (stream L) t Hh) as (l1 & -> & Hh1 & E1 & C1); [lia | rewrite length_app; lia |].
  destruct (append_holds l1 (stream L ++ t) [10] Hh1) as (l2 & -> & Hh2 & E2 & C2); [rewrite C1; unfold LINE_MAX in *; simpl; lia | rewrite !length_app; change (length [10]) with 1%nat; lia |].
  eexists. split; [done |]. pose proof (stream_length L).
  assert (stream (L ++ [t]) = (stream L ++ t) ++ [10]) as ES by (rewrite stream_app, <- app_assoc; unfold stream; simpl; by rewrite app_nil_r).
  split.
  - rewrite ES. destruct Hh2. by split.
  - by apply Forall_app.
  - cbn [total_lines]. rewrite E2, E1, Hc, length_app. change (length [t]) with 1%nat. rewrite u64_small; lia.
Qed.

Lemma split_line_spec s : match split_line s with Some (a, b) => s = a ++ 10 :: b /\ 10 ∉ a | None => 10 ∉ s end.
Proof.
  induction s as [| x s IH]; simpl; [apply not_elem_of_nil |]. destruct (Z.eqb_spec x 10) as [-> | Hne]; [split; [done | apply not_elem_of_nil] |].
  destruct (split_line s) as [[a b] |].
  - destruct IH as [-> Hni]. split; [done |]. rewrite not_elem_of_cons. naive_solver.
  - rewrite not_elem_of_cons. naive_solver.
Qed.

(** The loop prints every complete line, with fuel for the bytes. *)
Lemma output_lines_ok fuel stamp l L b :
  log_lines l L -> 10 ∉ stamp -> (length b < fuel)%nat -> Z.of_nat (length (stream L)) + Z.of_nat (length b) * LINE_MAX < 2 ^ 62 ->
  exists l' ls rest, output_lines fuel stamp l b = Some (l', rest) /\ b = stream ls ++ rest /\ Forall (fun x => 10 ∉ x) ls /\ 10 ∉ rest /\
    log_lines l' (L ++ flat_map (line_text stamp) ls) /\
    Z.of_nat (length (stream (L ++ flat_map (line_text stamp) ls))) <= Z.of_nat (length (stream L)) + Z.of_nat (length b - length rest) * LINE_MAX.
Proof.
  revert l L b. induction fuel as [| fuel IH]; intros l L b Hl Hs Hf Hroom; [lia |]. cbn [output_lines]. pose proof (split_line_spec b) as Hb.
  destruct (split_line b) as [[line rest] |].
  - destruct Hb as [-> Hni]. rewrite length_app in Hf, Hroom. simpl in Hf, Hroom. unfold LINE_MAX in *.
    destruct (output_line_ok stamp l L line Hl Hs Hni) as (l1 & -> & Hl1); [unfold LINE_MAX; lia |].
    destruct (line_text_ok stamp line Hs Hni) as (_ & _ & Ht). unfold LINE_MAX in Ht.
    destruct (IH l1 (L ++ line_text stamp line) rest Hl1 Hs) as (l' & ls & r & E & Eb & HF & Hr & Hl' & Hlen);
      [lia | rewrite stream_app, length_app; lia |].
    exists l', (line :: ls), r. split; [done |]. split; [rewrite Eb; unfold stream; simpl; by rewrite <- !app_assoc |]. split; [by constructor |].
    split; [done |]. simpl. rewrite app_assoc. split; [done |]. etrans; [exact Hlen |]. rewrite !stream_app, !length_app in *. simpl.
    apply (f_equal (@length Z)) in Eb. rewrite length_app in Eb. lia.
  - exists l, [], b. split; [done |]. split; [done |]. split; [constructor |]. split; [done |]. simpl. rewrite app_nil_r. split; [done | lia].
Qed.

(** Printing puts whole lines in the log. Whatever text is printed, in
    whatever pieces, what a call adds to the log is one line for each line the
    thread's buffer now completes, in order, each with its newline; an unfinished
    line stays in the buffer, unless it fills it, when it is logged as a line of
    its own. The ring never copies out of bounds, and the readers' line count
    stays the number of lines. *)
Theorem printk_whole_lines stamp l L pending msg :
  log_lines l L -> 10 ∉ stamp -> Z.of_nat (length pending) < LINE_MAX -> Z.of_nat (length (stream L)) + 2 ^ 29 < 2 ^ 62 ->
  exists l' ls rest, pending ++ take (Z.to_nat (LINE_MAX - Z.of_nat (length pending) - 1)) msg = stream ls ++ rest /\
    Forall (fun x => 10 ∉ x) ls /\ 10 ∉ rest /\
    if Z.of_nat (length rest) >=? LINE_MAX - 1
    then ish_vprintk stamp l pending msg = Some (l', []) /\ log_lines l' (L ++ flat_map (line_text stamp) (ls ++ [rest]))
    else ish_vprintk stamp l pending msg = Some (l', rest) /\ log_lines l' (L ++ flat_map (line_text stamp) ls).
Proof.
  intros Hl Hs Hp Hroom. unfold ish_vprintk. destruct (Z.gtb_spec (LINE_MAX - Z.of_nat (length pending)) 0); [| lia]. unfold truncate_to.
  set (b := pending ++ take (Z.to_nat (LINE_MAX - Z.of_nat (length pending) - 1)) msg).
  assert (Z.of_nat (length b) <= LINE_MAX - 1) as Hb by (unfold b; rewrite length_app, length_take; lia). unfold LINE_MAX in Hb.
  destruct (output_lines_ok (S (length b)) stamp l L b Hl Hs) as (l1 & ls & rest & E & Eb & HF & Hr & Hl1 & Hlen); [lia | unfold LINE_MAX; lia |].
  rewrite E. unfold LINE_MAX in Hlen. destruct (Z.geb_spec (Z.of_nat (length rest)) (LINE_MAX - 1)) as [Hfull | Hmore].
  - destruct (output_line_ok stamp l1 _ rest Hl1 Hs Hr) as (l2 & E2 & Hl2); [unfold LINE_MAX in *; lia |].
    exists l2, ls, rest. do 3 (split; [done |]). destruct (Z.geb_spec (Z.of_nat (length rest)) (LINE_MAX - 1)); [| lia].
    rewrite E2. split; [done |]. rewrite flat_map_app. simpl. by rewrite app_nil_r, app_assoc.
  - exists l1, ls, rest. do 3 (split; [done |]). by destruct (Z.geb_spec (Z.of_nat (length rest)) (LINE_MAX - 1)); [lia |].
Qed.

(** ** syslog(2) *)

Lemma contents_drop l S : log_holds l S -> contents (ring l) = drop (Z.to_nat (oldest l)) S.
Proof. intros [? ? Ht ? ? Hc ?]. rewrite Hc. unfold oldest. by rewrite Ht. Qed.

(** Taking from the front. *)
Lemma take_front l S len : log_holds l S -> 0 < len -> 0 < fsize (ring l) ->
  exists l', syslog_take true l len 0 = Some (l', Z.min len (fsize (ring l)), take (Z.to_nat len) (drop (Z.to_nat (oldest l)) S)) /\
    log_holds l' S /\ oldest l' = oldest l + Z.min len (fsize (ring l)) /\ total_lines l' = total_lines l.
Proof.
  intros Hh Hlen Hne. pose proof Hh as [Hr Hcap Ht Hf Hs Hc Hm]. unfold syslog_take, fifo_size. change (has_flag 0 FIFO_LAST) with false. cbn [andb].
  set (n := clip len (fsize (ring l))). assert (n = Z.min len (fsize (ring l))) as En by (unfold n, clip; destruct (Z.gtb_spec len (fsize (ring l))); lia).
  destruct (Z.eqb_spec n 0); [lia |]. destruct (read_spec (ring l) n 0 Hr ltac:(lia)) as (r & E & _ & Hr'). cbn [negb].
  change (has_flag 0 FIFO_LAST) with false in E. cbv iota in E. rewrite E.
  rewrite (Hr' eq_refl eq_refl). destruct (forget_spec (ring l) n Hr ltac:(lia)) as (F1 & F2 & F3). rewrite <- En.
  exists (mk_klog (forget (ring l) n) (max_since_clear l) (total_written l) (total_lines l)). split; [| split; [| split; [| done]]].
  - rewrite <- (contents_drop l S Hh). assert (Z.of_nat (length (contents (ring l))) = fsize (ring l)) as El by (apply span_length; destruct Hr; lia).
    assert (take (Z.to_nat n) (contents (ring l)) = take (Z.to_nat len) (contents (ring l))) as ->; [| done].
    destruct (decide (len <= fsize (ring l))); [by replace n with len by lia |]. rewrite !take_ge; [done | lia | lia].
  - split; cbn [ring total_written max_since_clear]; [done | done | done | done | lia | | done]. rewrite F3, F2, Hc, drop_drop. f_equal. lia.
  - unfold oldest. cbn [ring total_written]. rewrite F2. lia.
Qed.

(** Looking at the newest bytes. *)
Lemma take_last l S len : log_holds l S -> 0 < len ->
  let n := Z.min len (Z.min (fsize (ring l)) (max_since_clear l)) in
  syslog_take true l len (FIFO_LAST .| FIFO_PEEK) = Some (l, n, drop (Z.to_nat (Z.of_nat (length S) - n)) S).
Proof.
  intros Hh Hlen n. pose proof Hh as [Hr Hcap Ht Hf Hs Hc Hm]. pose proof Hr as [? ? ? ?]. unfold syslog_take, fifo_size.
  change (has_flag (FIFO_LAST .| FIFO_PEEK) FIFO_LAST) with true. cbn [andb].
  assert (clip len (if fsize (ring l) >? max_since_clear l then max_since_clear l else fsize (ring l)) = n) as ->
    by (unfold n, clip; destruct (Z.gtb_spec (fsize (ring l)) (max_since_clear l)); case_match; lia).
  destruct (Z.eqb_spec n 0) as [-> |]; [rewrite drop_ge by lia; done |]. cbn [negb].
  destruct (read_spec (ring l) n (FIFO_LAST .| FIFO_PEEK) Hr ltac:(lia)) as (r & E & Hp & _). rewrite E, (Hp eq_refl).
  change (has_flag (FIFO_LAST .| FIFO_PEEK) FIFO_LAST) with true. cbv iota. rewrite Hc, drop_drop. destruct l. cbn. do 4 f_equal. cbn in *. lia.
Qed.

Lemma clear_holds l S : log_holds l S -> log_holds (clear_log l) S.
Proof. intros [? ? ? ? ? ? ?]. split; cbn; try done. lia. Qed.

(** Syslog reads the log. SYSLOG_ACTION_READ with a buffer and a length waits
    while nothing is unread, and then answers the oldest unread bytes of the
    stream, as many as fit, which are then read; READ_ALL and READ_CLEAR answer
    the newest bytes since the last clear that are still there, as many as fit,
    and read nothing; READ_CLEAR and CLEAR put the clear position at the end.
    No action changes the stream, its line count, or copies out of bounds. *)
Theorem syslog_reads_log l S type addr len :
  log_holds l S ->
  exists l' out, do_syslog true l type addr len = Some (l', out) /\ log_holds l' S /\ total_lines l' = total_lines l /\
    (type = 2 -> addr <> 0 -> 0 < len ->
       if fsize (ring l) =? 0 then l' = l /\ out = Waits
       else out = Answers (Z.min len (fsize (ring l))) (take (Z.to_nat len) (drop (Z.to_nat (oldest l)) S)) /\
            oldest l' = oldest l + Z.min len (fsize (ring l))) /\
    (type = 3 \/ type = 4 -> addr <> 0 -> 0 < len ->
       let n := Z.min len (Z.min (fsize (ring l)) (max_since_clear l)) in
       out = Answers n (drop (Z.to_nat (Z.of_nat (length S) - n)) S) /\ ring l' = ring l) /\
    (type = 5 \/ (type = 4 /\ addr <> 0 /\ 0 < len) -> ish_log_clear_pos l' = total_written l) /\
    (type <> 2 -> out <> Waits).
Proof.
  intros Hh. pose proof Hh as [Hr Hcap Ht Hf Hs Hc Hm]. pose proof Hr as [? ? ? ?].
  assert (ish_log_clear_pos (clear_log l) = total_written l) as Eclr by (unfold ish_log_clear_pos; cbn; rewrite u64_small; lia).
  unfold do_syslog. destruct (Z.eqb_spec type 2) as [-> | N2].
  - destruct (Z.ltb_spec len 0); [exists l; eexists; split; [done |]; naive_solver lia |].
    destruct (Z.eqb_spec addr 0); [exists l; eexists; split; [done |]; naive_solver lia |].
    destruct (Z.eqb_spec len 0); [exists l; eexists; split; [done |]; naive_solver lia |]. unfold fifo_size.
    destruct (Z.eqb_spec (fsize (ring l)) 0); [exists l; eexists; split; [done |]; naive_solver lia |].
    destruct (take_front l S len Hh ltac:(lia) ltac:(lia)) as (l' & -> & Hh' & Eo & El). exists l'. eexists. split; [done |]. naive_solver lia.
  - destruct ((type =? 3) || (type =? 4)) eqn:E34.
    + destruct ((addr =? 0) || (len <? 0)) eqn:Ea; [exists l; eexists; split; [done |]; naive_solver lia |].
      destruct (Z.eqb_spec len 0); [exists l; eexists; split; [done |]; naive_solver lia |]. rewrite (take_last l S len Hh) by lia.
      destruct (Z.ltb_spec (Z.min len (Z.min (fsize (ring l)) (max_since_clear l))) 0); [lia |].
      eexists _, _. split; [done |]. split; [destruct (type =? 4); [by apply clear_holds | done] |]. split; [by case_match |].
      split; [done |]. split; [by intros; case_match |]. split; [| done]. intros H4. destruct (Z.eqb_spec type 4); [done | lia].
    + destruct (Z.eqb_spec type 5) as [-> | N5]; [exists (clear_log l); eexists; split; [done |]; split; [by apply clear_holds | naive_solver lia] |].
      repeat (case_match; [exists l; eexists; split; [done |]; naive_solver lia |]). exists l. eexists. split; [done |]. naive_solver lia.
Qed.

(** ** Witnesses *)

Definition small_ring : fifo := mk_fifo [1; 2; 3; 4; 5] 5 3 3.

Lemma fifo_refines_queue_witness :
  exists f' res, fifo_write small_ring [7; 8; 9] FIFO_OVERWRITE = Some (f', res) /\ contents small_ring = [4; 5; 1] /\ contents f' = [5; 1; 7; 8; 9].
Proof.
  assert (fifo_ok small_ring) as Hok by (split; simpl; lia).
  destruct (proj1 (fifo_refines_queue small_ring Hok) [7; 8; 9] FIFO_OVERWRITE) as (f' & res & E & _ & _ & Hc); [left; simpl; lia |].
  exists f', res. split; [exact E |]. split; [reflexivity |]. exact (proj2 Hc).
Defined.

(** An empty log, and the log after printing one line. *)
Definition empty_log : klog := mk_klog (fifo_init (replicate 16384 0) 16384) 0 0 0.

Lemma empty_log_ok : log_lines empty_log [].
Proof.
  split; [| constructor | done]. split; cbn [ring total_written max_since_clear empty_log]; [| done | done | done | done | reflexivity | done].
  unfold fifo_init. split; cbn [capacity fsize start buf]; [lia | rewrite length_replicate; reflexivity | lia | lia].
Qed.

Lemma hi_log : exists l, output_line [] empty_log [104; 105] = Some l /\ log_lines l [[104; 105]] /\ oldest l = 0 /\ fsize (ring l) = 3.
Proof.
  destruct (output_line_ok [] empty_log [] [104; 105] empty_log_ok) as (l & E & Hl);
    [apply not_elem_of_nil | rewrite !not_elem_of_cons; split; [lia | split; [lia | apply not_elem_of_nil]] | done |].
  exists l. split; [done |]. split; [exact Hl |]. vm_compute in E. injection E as <-. split; reflexivity.
Qed.

Lemma log_read_at_stream_witness :
  exists l, output_line [] empty_log [104; 105] = Some l /\ ish_log_read_at l 1 10 = Some (3, [105; 10]).
Proof.
  destruct hi_log as (l & E & Hl & Ho & _). exists l. split; [exact E |].
  pose proof (log_read_at_stream l (stream [[104; 105]]) 1 10 (ll_holds _ _ Hl) ltac:(lia) ltac:(lia)) as H. rewrite Ho in H. exact H.
Defined.

Lemma log_line_reader_witness :
  exists l, output_line [] empty_log [104; 105] = Some l /\ ish_log_line_seek l 0 = (0, 0) /\ ish_log_peek_line l 0 80 = Some (PeekLine [104; 105] 3).
Proof.
  destruct hi_log as (l & E & Hl & Ho & _). exists l. split; [exact E |].
  destruct (proj1 (log_line_reader l [[104; 105]] Hl) 0%nat ltac:(simpl; lia)) as (H1 & H2 & _); [right; split; [exact Ho | reflexivity] |].
  split; [exact H1 | exact (H2 [104; 105] 80 eq_refl)].
Defined.

Lemma printk_whole_lines_witness :
  exists l' ls rest, [104] ++ [105; 10; 120] = stream ls ++ rest /\ Forall (fun x => 10 ∉ x) ls /\ 10 ∉ rest /\
    if Z.of_nat (length rest) >=? LINE_MAX - 1
    then ish_vprintk [] empty_log [104] [105; 10; 120] = Some (l', []) /\ log_lines l' (flat_map (line_text []) (ls ++ [rest]))
    else ish_vprintk [] empty_log [104] [105; 10; 120] = Some (l', rest) /\ log_lines l' (flat_map (line_text []) ls).
Proof.
  apply (printk_whole_lines [] empty_log [] [104] [105; 10; 120] empty_log_ok); [apply not_elem_of_nil | reflexivity | reflexivity].
Defined.

Lemma syslog_reads_log_witness :
  exists l, output_line [] empty_log [104; 105] = Some l /\ exists l', do_syslog true l 2 4096 2 = Some (l', Answers 2 [104; 105]).
Proof.
  destruct hi_log as (l & E & Hl & Ho & Hs). exists l. split; [exact E |].
  destruct (syslog_reads_log l (stream [[104; 105]]) 2 4096 2 (ll_holds _ _ Hl)) as (l' & out & Er & _ & _ & H2 & _). exists l'. rewrite Er.
  specialize (H2 eq_refl ltac:(lia) ltac:(lia)). rewrite Hs, Ho in H2. destruct H2 as [-> _]. reflexivity.
Defined.

(** ** Two divergences *)

(** Reading with FIFO_LAST and without FIFO_PEEK keeps none of the bytes it
    should: the two oldest were to stay, and the ring then holds two bytes that
    were never in it. *)
Theorem fifo_last_consumes_front :
  let f := mk_fifo [1; 2; 3; 0; 0; 0] 6 3 0 in
  contents f = [1; 2; 3] /\
  match fifo_read f 1 FIFO_LAST with Some (f', inr bs) => bs = [3] /\ contents f' = [0; 0] | _ => False end.
Proof. vm_compute. auto. Qed.

(** After syslog has read exactly the first of three lines, a reader by line
    that seeks the oldest position is given the third: the second, whole and in
    the ring, is skipped though nothing was overwritten. *)
Theorem line_seek_skips_whole_line :
  let l := mk_klog (mk_fifo [97; 10; 98; 10; 99; 10; 0; 0] 8 6 0) 6 6 3 in
  match do_syslog true l 2 4096 2 with
  | Some (l', Answers n bs) =>
      bs = [97; 10] /\ log_oldest_locked l' = 2 /\ ish_log_peek_line l' 2 8 = Some (PeekLine [98] 4) /\
      ish_log_line_seek l' (log_oldest_locked l') = (2, 4) /\ ish_log_peek_line l' 4 8 = Some (PeekLine [99] 6)
  | _ => False
  end.
Proof. vm_compute. auto. Qed.
