(* ===== verification/Rounding.v ===== *)
(** Correct rounding of a magnitude, as IEEE 754 words it.

    Nothing here is code of the repository apart from the enumeration of
    rounding modes: this is the yardstick the x87 arithmetic of Float80.v is
    measured with.  Magnitudes are counted in a unit so small that every
    number of the formats, and every midpoint of two of them, is an integer.
    The exact result of an operation need not be one (a quotient, a root), so
    it is given by its position among the integers, a [cut].  [rounds] says
    which number of a format the exact value rounds to; [rounds_at] is the way
    to it that an implementation takes: one quantum, a floor and what was cut
    off. *)

From S2P Require Import Prelude.

Inductive f80_rounding_mode := round_to_nearest | round_down | round_up | round_chop.

#[export] Instance f80_rounding_mode_eq_dec : EqDecision f80_rounding_mode.
Proof. solve_decision. Defined.

(** ** Exact values *)

(** [c n] compares the exact value with [n]. *)
Definition cut := Z -> comparison.

Class Cut (c : cut) : Prop := cut_mono n m : n < m -> c n <> Gt -> c m = Lt.

(** The values the operations have: a fraction, a root. *)
Definition rat (N D : Z) : cut := fun n => N ?= n * D.
Definition root (N : Z) : cut := fun n => if n <? 0 then Gt else N ?= n * n.

#[export] Instance rat_cut N D : 0 < D -> Cut (rat N D).
Proof.
  intros HD n m Hnm Hn. unfold rat in *. apply Z.compare_lt_iff. apply Z.compare_le_iff in Hn.
  eapply Z.le_lt_trans; [exact Hn |]. by apply Z.mul_lt_mono_pos_r.
Qed.

#[export] Instance rat_int_cut N : Cut (rat N 1).
Proof. by apply rat_cut. Qed.

#[export] Instance root_cut N : 0 <= N -> Cut (root N).
Proof.
  intros HN n m Hnm. unfold root. destruct (Z.ltb_spec n 0); [done |]. intros Hn.
  rewrite (proj2 (Z.ltb_ge m 0)) by lia. apply Z.compare_lt_iff. change (N <= n * n) in Hn.
  assert (n * n < m * m) by (apply Z.mul_lt_mono_nonneg; lia). lia.
Qed.

Section cuts.
Context (c : cut) {Hc : Cut c}.

Lemma cut_below n m : n < m -> c m <> Lt -> c n = Gt.
Proof using Hc. intros Hnm Hm. destruct (c n) eqn:E; [| | done]; by rewrite (Hc n m) in Hm by congruence. Qed.

Lemma cut_le n m : n <= m -> c n <> Gt -> c m <> Gt.
Proof using Hc. intros Hnm Hn. destruct (decide (n = m)) as [<- | ?]; [done |]. rewrite (Hc n m); [done | lia | done]. Qed.

Lemma cut_ge n m : n <= m -> c m <> Lt -> c n <> Lt.
Proof using Hc. intros Hnm Hn. destruct (decide (n = m)) as [<- | ?]; [done |]. rewrite (cut_below n m); [done | lia | done]. Qed.

Lemma cut_order n m : c n <> Lt -> c m <> Gt -> n <= m.
Proof using Hc. intros Hn Hm. destruct (decide (n <= m)) as [| H]; [done |]. exfalso. apply Hn, (Hc m n); [lia | done]. Qed.

Lemma cut_order_lt n m : c n <> Lt -> c m = Lt -> n < m.
Proof using Hc. intros Hn Hm. destruct (decide (n < m)) as [| H]; [done |]. exfalso. apply (cut_ge m n); [lia | done | done]. Qed.

End cuts.

(** ** Formats *)

(** [p] significant bits, the lowest worth at least [2^jmin]. *)
Definition format (p jmin x : Z) : Prop := exists k j, jmin <= j /\ 0 <= k < 2 ^ p /\ x = k * 2 ^ j.

Definition ulp (p jmin x : Z) : Z := 2 ^ Z.max jmin (Z.log2 x - p + 1).

(** ** Rounding *)

Inductive direction := Inward | Outward | Nearest.

Definition direct (m : f80_rounding_mode) (sign : bool) : direction :=
  match m with
  | round_to_nearest => Nearest
  | round_chop => Inward
  | round_down => if sign then Outward else Inward
  | round_up => if sign then Inward else Outward
  end.

(** [R] is what the exact magnitude [c] of a number with this sign rounds to:
    the largest number of the format not above it, the smallest not below it,
    or the one no other is nearer than, with an even last place where
    another is as near. *)
Definition rounds (m : f80_rounding_mode) (sign : bool) (p jmin : Z) (c : cut) (R : Z) : Prop :=
  format p jmin R /\
  match direct m sign with
  | Inward => c R <> Lt /\ forall y, format p jmin y -> c y <> Lt -> y <= R
  | Outward => c R <> Gt /\ forall y, format p jmin y -> c y <> Gt -> R <= y
  | Nearest => forall y, format p jmin y ->
      (y < R -> c ((y + R) / 2) <> Lt) /\ (R < y -> c ((y + R) / 2) <> Gt) /\
      (y <> R -> c ((y + R) / 2) = Eq -> Z.even (R / ulp p jmin R) = true)
  end.

(** ** The implementation's way: a quantum, a floor and the rest *)

Inductive location := Exact | Inexact (h : comparison).

Definition at_quantum (c : cut) (q k : Z) (l : location) : Prop :=
  c (k * q) <> Lt /\ c ((k + 1) * q) = Lt /\ l = match c (k * q) with Eq => Exact | _ => Inexact (c (k * q + q / 2)) end.

Definition goes_up (m : f80_rounding_mode) (sign : bool) (k : Z) (l : location) : bool :=
  match l with
  | Exact => false
  | Inexact h =>
      match direct m sign with
      | Inward => false
      | Outward => true
      | Nearest => match h with Lt => false | Gt => true | Eq => Z.odd k end
      end
  end.

Definition choose (m : f80_rounding_mode) (sign : bool) (k : Z) (l : location) : Z := if goes_up m sign k l then k + 1 else k.

Lemma pow2_pos n : 0 <= n -> 0 < 2 ^ n.
Proof. intros. apply Z.pow_pos_nonneg; lia. Qed.

Lemma pow2_split a b : 0 <= a <= b -> 2 ^ b = 2 ^ a * 2 ^ (b - a).
Proof. intros. rewrite <- Z.pow_add_r by lia. f_equal. lia. Qed.

Lemma pow2_succ a : 0 <= a -> 2 ^ (a + 1) = 2 * 2 ^ a.
Proof. intros. rewrite Z.add_1_r. by apply Z.pow_succ_r. Qed.

Lemma format_is_even p jmin : 1 <= jmin -> forall x, format p jmin x -> exists t, x = 2 * t.
Proof.
  intros Hjm x (k & j & Hj & _ & ->). exists (k * 2 ^ (j - 1)). rewrite <- (Z.sub_add 1 j) at 1. rewrite pow2_succ by lia. ring.
Qed.

Section grid.
Context (p jmin j k : Z).
Hypothesis Hp : 2 <= p.
Hypothesis Hjm : 1 <= jmin.
Hypothesis Hj : jmin <= j.
Hypothesis Hk : 0 <= k < 2 ^ p.
Hypothesis Hn : j = jmin \/ 2 ^ (p - 1) <= k.

Let q := 2 ^ j.
Lemma q_even : q = 2 * (q / 2).
Proof using All. unfold q. rewrite <- (Z.sub_add 1 j), pow2_succ by lia. rewrite Z.mul_comm, Z.div_mul by lia. lia. Qed.

Lemma q_pos : 0 < q.
Proof using All. apply pow2_pos. lia. Qed.

(** No number of the format lies strictly inside the quantum. *)
Lemma format_gap y : format p jmin y -> y <= k * q \/ (k + 1) * q <= y.
Proof using All.
  intros (k' & j' & Hj' & Hk' & ->). pose proof q_pos. destruct (decide (j <= j')) as [H1 | H1].
  - rewrite (pow2_split j j') by lia. fold q. set (t := k' * 2 ^ (j' - j)).
    replace (k' * (q * 2 ^ (j' - j))) with (t * q) by (unfold t; ring). destruct (decide (t <= k)); [left | right]; nia.
  - destruct Hn as [-> | Hn']; [lia |]. left. unfold q in *.
    assert (2 ^ j' * 2 <= 2 ^ j) by (rewrite (pow2_split j' j) by lia; pose proof (pow2_pos j'); assert (2 ^ 1 <= 2 ^ (j - j')) by (apply Z.pow_le_mono_r; lia); nia).
    assert (2 ^ p = 2 * 2 ^ (p - 1)) by (rewrite <- pow2_succ by lia; f_equal; lia). pose proof (pow2_pos j'). nia.
Qed.

Lemma format_even y : format p jmin y -> exists t, y = 2 * t.
Proof using All. by apply format_is_even. Qed.

Lemma format_low : format p jmin (k * q).
Proof using All. exists k, j. auto. Qed.

Lemma format_high : format p jmin ((k + 1) * q).
Proof using All.
  destruct (decide (k + 1 < 2 ^ p)) as [| H]; [exists (k + 1), j; split; [done |]; split; [lia | done] |].
  exists (2 ^ (p - 1)), (j + 1). assert (2 ^ p = 2 * 2 ^ (p - 1)) as E by (rewrite <- pow2_succ by lia; f_equal; lia).
  pose proof (pow2_pos (p - 1)). split; [lia |]. split; [lia |]. rewrite pow2_succ by lia. unfold q. replace (k + 1) with (2 ^ p) by lia. rewrite E. ring.
Qed.

Lemma ulp_at i : 0 < i < 2 ^ p -> j = jmin \/ 2 ^ (p - 1) <= i -> ulp p jmin (i * q) = q.
Proof using All.
  intros Hi Hi'. unfold ulp, q. f_equal. rewrite Z.log2_mul_pow2 by lia.
  assert (Z.log2 i < p) by (apply Z.log2_lt_pow2; lia).
  destruct Hi' as [-> | Hi']; [lia |]. assert (p - 1 <= Z.log2 i) by (apply Z.log2_le_pow2; lia). lia.
Qed.

Lemma low_even : k <> 0 -> (k * q) / ulp p jmin (k * q) = k.
Proof using All. intros H0. rewrite ulp_at by (try lia; destruct Hn; lia). apply Z.div_mul. pose proof q_pos. lia. Qed.

Lemma high_even : Z.odd k = true -> Z.even ((k + 1) * q / ulp p jmin ((k + 1) * q)) = true.
Proof using All.
  intros Ho. pose proof q_pos. destruct (decide (k + 1 < 2 ^ p)) as [H1 | H1].
  - rewrite ulp_at by (try lia; destruct Hn; lia). rewrite Z.div_mul by lia. rewrite Z.add_1_r, Z.even_succ. done.
  - replace (k + 1) with (2 ^ p) by lia. unfold ulp, q. rewrite Z.log2_mul_pow2, Z.log2_pow2 by (try apply pow2_pos; lia).
    replace (Z.max jmin (j + p - p + 1)) with (j + 1) by lia.
    replace (2 ^ p * 2 ^ j) with (2 ^ (p - 1) * 2 ^ (j + 1)) by (rewrite pow2_succ by lia; replace p with (p - 1 + 1) at 2 by lia; rewrite (pow2_succ (p - 1)) by lia; ring).
    rewrite Z.div_mul by (pose proof (pow2_pos (j + 1)); lia). replace (p - 1) with (p - 2 + 1) by lia. rewrite pow2_succ by lia. by rewrite Z.even_mul.
Qed.

Section quantum.
Context (m : f80_rounding_mode) (sign : bool) (c : cut) {Hc : Cut c} (l : location).
Hypothesis Hat : at_quantum c (2 ^ j) k l.

Lemma loc_cases (x : location) : x = Exact \/ exists h, x = Inexact h.
Proof. destruct x; eauto. Qed.

(** The value is strictly inside the quantum unless it is its lower end. *)
Lemma at_low : l <> Exact -> c (k * q) = Gt.
Proof using All. unfold q. destruct Hat as (H1 & _ & ->). by destruct (c (k * 2 ^ j)). Qed.

Lemma at_exact : l = Exact -> c (k * q) = Eq.
Proof using All. unfold q. destruct Hat as (H1 & _ & ->). by destruct (c (k * 2 ^ j)). Qed.

Lemma at_half h : l = Inexact h -> c (k * q + q / 2) = h.
Proof using All. unfold q. destruct Hat as (H1 & _ & ->). destruct (c (k * 2 ^ j)); intros E; congruence. Qed.

Lemma at_top : c ((k + 1) * q) = Lt.
Proof using All. apply Hat. Qed.

Lemma choose_cases : (choose m sign k l = k /\ goes_up m sign k l = false) \/ (choose m sign k l = k + 1 /\ goes_up m sign k l = true).
Proof. unfold choose. destruct (goes_up m sign k l); auto. Qed.

Lemma rounds_inward : direct m sign = Inward -> choose m sign k l = k /\ c (k * q) <> Lt /\ forall y, format p jmin y -> c y <> Lt -> y <= k * q.
Proof using All.
  intros E. unfold choose, goes_up. rewrite E. split; [by destruct l |]. split; [apply Hat |].
  intros y Hy Hcy. destruct (format_gap y Hy) as [| H]; [done |]. exfalso. pose proof (cut_order_lt c y _ Hcy at_top). lia.
Qed.

Lemma rounds_outward : direct m sign = Outward -> c (choose m sign k l * q) <> Gt /\ forall y, format p jmin y -> c y <> Gt -> choose m sign k l * q <= y.
Proof using All.
  intros E. unfold choose, goes_up. rewrite E. destruct (loc_cases l) as [El | [h El]]; rewrite El.
  - rewrite (at_exact El). split; [done |]. intros y _ Hy. apply (cut_order c); [| done]. by rewrite (at_exact El).
  - rewrite at_top. split; [done |]. intros y Hy Hcy. destruct (format_gap y Hy) as [H | H]; [exfalso | done].
    assert (c (k * q) = Gt) as E1 by (apply at_low; congruence). apply (cut_le c y (k * q)) in Hcy; [congruence | lia].
Qed.

Lemma mid_low : (k * q + (k + 1) * q) / 2 = k * q + q / 2.
Proof using All. pose proof q_even as E. replace (k * q + (k + 1) * q) with ((k * q + q / 2) * 2) by lia. apply Z.div_mul. lia. Qed.

Lemma rounds_nearest : direct m sign = Nearest -> forall y, format p jmin y ->
  let R := choose m sign k l * q in
  (y < R -> c ((y + R) / 2) <> Lt) /\ (R < y -> c ((y + R) / 2) <> Gt) /\ (y <> R -> c ((y + R) / 2) = Eq -> Z.even (R / ulp p jmin R) = true).
Proof using All.
  intros E y Hy R. pose proof q_pos as Hq. pose proof q_even as Hq2. pose proof mid_low as Hml. destruct (format_gap y Hy) as [Hlow | Hhigh]; unfold R; clear R.
  - (* y at or below the quantum *) destruct choose_cases as [[-> Hg] | [-> Hg]].
    + split; [| split]; [| lia |].
      * intros _. apply (cut_ge c _ (k * q)); [apply Z.div_le_upper_bound; lia | apply Hat].
      * intros Hne Heq. exfalso. assert ((y + k * q) / 2 < k * q) as Hm by (apply Z.div_lt_upper_bound; lia).
        assert (c (k * q) = Lt) as E1 by (apply (Hc ((y + k * q) / 2)); [done | congruence]). by apply (proj1 Hat).
    + assert (c (k * q + q / 2) <> Lt) as Hh.
      { unfold goes_up in Hg. rewrite E in Hg. destruct (loc_cases l) as [El | [h El]]; rewrite El in Hg; [done |]. rewrite (at_half h El). by destruct h. }
      split; [| split]; [| nia |].
      * intros _. apply (cut_ge c _ (k * q + q / 2)); [| done]. rewrite <- Hml. apply Z.div_le_mono; lia.
      * intros _ Heq. apply high_even. unfold goes_up in Hg. rewrite E in Hg. destruct (loc_cases l) as [El | [h El]]; rewrite El in Hg; [done |]. pose proof (at_half h El) as E2.
        destruct h; [done | done |]. exfalso. assert (k * q + q / 2 <= (y + (k + 1) * q) / 2) as Hm by (apply (cut_order c); [congruence | congruence]).
        assert ((y + (k + 1) * q) / 2 <= (k * q + (k + 1) * q) / 2) by (apply Z.div_le_mono; lia). assert ((y + (k + 1) * q) / 2 = k * q + q / 2) as E3 by lia. congruence.
  - (* y at or above it *) destruct choose_cases as [[-> Hg] | [-> Hg]].
    + assert (l = Exact \/ c (k * q + q / 2) <> Gt) as Hh.
      { unfold goes_up in Hg. rewrite E in Hg. destruct (loc_cases l) as [El | [h El]]; rewrite El in Hg; [by left | right]. rewrite (at_half h El). by destruct h. }
      assert (c (k * q + q / 2) <> Gt) as Hh'.
      { destruct Hh as [El | ?]; [| done]. apply (cut_le c (k * q)); [pose proof (Z.div_pos q 2); lia | by rewrite (at_exact El)]. }
      split; [| split]; [nia | |].
      * intros _. apply (cut_le c (k * q + q / 2)); [| done]. rewrite <- Hml. apply Z.div_le_mono; lia.
      * intros _ Heq. unfold goes_up in Hg. rewrite E in Hg. destruct (loc_cases l) as [El | [h El]]; rewrite El in Hg.
        -- exfalso. assert (c ((y + k * q) / 2) = Lt) as E1; [| congruence]. apply (Hc (k * q)); [| by rewrite (at_exact El)].
           apply Z.lt_le_trans with (k * q + q / 2); [lia |]. rewrite <- Hml. apply Z.div_le_mono; lia.
        -- assert (h = Eq) as ->.
           { pose proof (at_half h El) as E2. destruct h; [done | exfalso | done].
             assert (c ((y + k * q) / 2) = Lt) as E1; [| congruence]. destruct (decide ((y + k * q) / 2 = k * q + q / 2)) as [-> | Hd]; [done |].
             apply (Hc (k * q + q / 2)); [| congruence]. assert ((k * q + (k + 1) * q) / 2 <= (y + k * q) / 2) by (apply Z.div_le_mono; lia). lia. }
           destruct (decide (k = 0)) as [-> | Hk0]; [done |]. rewrite low_even by done. rewrite <- Z.negb_odd. by rewrite Hg.
    + split; [| split]; [lia | |].
      * intros _. apply (cut_le c ((k + 1) * q)); [apply Z.div_le_lower_bound; lia | by rewrite at_top].
      * intros Hne Heq. exfalso. destruct (format_even y Hy) as [t Et].
        assert ((k + 1) * q < (y + (k + 1) * q) / 2) as Hm by (apply Z.lt_le_trans with ((k + 1) * q + 1); [lia |]; apply Z.div_le_lower_bound; nia).
        pose proof (Hc _ _ Hm) as E1. rewrite at_top in E1. rewrite E1 in Heq; done.
Qed.

Lemma quantum_rounds : rounds m sign p jmin c (choose m sign k l * 2 ^ j).
Proof using All.
  fold q. split; [destruct choose_cases as [[-> _] | [-> _]]; [apply format_low | apply format_high] |].
  destruct (direct m sign) eqn:E.
  - destruct (rounds_inward E) as (-> & H1 & H2). auto.
  - apply (rounds_outward E).
  - apply (rounds_nearest E).
Qed.
End quantum.
End grid.

(** The chosen end of the quantum is the correct rounding. *)
Theorem rounds_at m sign p jmin c {Hc : Cut c} j k l : 2 <= p -> 1 <= jmin -> jmin <= j -> 0 <= k < 2 ^ p -> j = jmin \/ 2 ^ (p - 1) <= k ->
  at_quantum c (2 ^ j) k l -> rounds m sign p jmin c (choose m sign k l * 2 ^ j).
Proof. intros. by apply quantum_rounds. Qed.

(** ** There is one correct rounding *)

(** Every number of a format is a multiple of its last place. *)
Lemma format_ulp p jmin R : 2 <= p -> 1 <= jmin -> format p jmin R ->
  exists k j, R = k * 2 ^ j /\ ulp p jmin R = 2 ^ j /\ jmin <= j /\ 0 <= k < 2 ^ p /\ (j = jmin \/ 2 ^ (p - 1) <= k).
Proof.
  intros Hp Hjm (k0 & j0 & Hj0 & Hk0 & ->). destruct (decide (k0 = 0)) as [-> | Hnz].
  { exists 0, jmin. rewrite !Z.mul_0_l. unfold ulp. change (Z.log2 0) with 0. rewrite Z.max_l by lia. pose proof (pow2_pos p ltac:(lia)). lia. }
  set (L := Z.log2 k0). assert (0 <= L < p) as HL by (split; [apply Z.log2_nonneg | apply Z.log2_lt_pow2; lia]). destruct (Z.log2_spec k0 ltac:(lia)) as [H1 H2]. fold L in H1, H2. rewrite <- Z.add_1_r in H2.
  set (j := Z.max jmin (L + j0 - p + 1)). assert (jmin <= j <= j0) as Hj by lia. exists (k0 * 2 ^ (j0 - j)), j.
  assert (k0 * 2 ^ j0 = k0 * 2 ^ (j0 - j) * 2 ^ j) as E by (rewrite <- Z.mul_assoc, <- Z.pow_add_r by lia; do 2 f_equal; lia).
  pose proof (pow2_pos (j0 - j) ltac:(lia)) as Hq. split; [exact E |]. split; [unfold ulp; rewrite Z.log2_mul_pow2 by lia; fold L; f_equal; lia |]. split; [lia |]. split.
  - split; [nia |]. apply Z.lt_le_trans with (2 ^ (L + 1) * 2 ^ (j0 - j)); [apply Z.mul_lt_mono_pos_r; lia |]. rewrite <- Z.pow_add_r by lia. apply Z.pow_le_mono_r; lia.
  - destruct (decide (j = jmin)) as [-> | Hne]; [by left | right]. apply Z.le_trans with (2 ^ L * 2 ^ (j0 - j)); [| apply Z.mul_le_mono_nonneg_r; lia]. rewrite <- Z.pow_add_r by lia. apply Z.pow_le_mono_r; lia.
Qed.

Lemma nearest_unique p jmin c {Hc : Cut c} R R' : 2 <= p -> 1 <= jmin -> R < R' ->
  rounds round_to_nearest false p jmin c R -> rounds round_to_nearest false p jmin c R' -> False.
Proof.
  intros Hp Hjm Hlt [HF HR] [HF' HR']. simpl in HR, HR'. destruct (HR R' HF') as (_ & H1 & H2). destruct (HR' R HF) as (H1' & _ & H2').
  rewrite (Z.add_comm R' R) in *. specialize (H1 Hlt). specialize (H1' Hlt).
  assert (c ((R + R') / 2) = Eq) as Hmid by (by destruct (c ((R + R') / 2))). specialize (H2 ltac:(lia) Hmid). specialize (H2' ltac:(lia) Hmid).
  destruct (format_ulp p jmin R Hp Hjm HF) as (k & j & -> & Eu & Hj & Hk & Hn). rewrite Eu, Z.div_mul in H2 by (apply Z.pow_nonzero; lia).
  pose proof (pow2_pos j ltac:(lia)) as Hq. assert (2 ^ j = 2 * 2 ^ (j - 1)) as E2 by (rewrite <- pow2_succ by lia; f_equal; lia).
  assert (k + 1 < 2 ^ p) as Hk1.
  { apply Z.even_spec in H2 as [h Eh]. assert (2 ^ p = 2 * 2 ^ (p - 1)) by (rewrite <- pow2_succ by lia; f_equal; lia). lia. }
  destruct (format_gap p jmin j k Hp Hjm Hj Hk Hn R' HF') as [? | Hge]; [lia |]. destruct (decide (R' = (k + 1) * 2 ^ j)) as [-> | Hne].
  - rewrite (ulp_at p jmin j k Hp Hjm Hj Hk Hn (k + 1)) in H2' by lia. rewrite Z.div_mul, Z.add_1_r, Z.even_succ, <- Z.negb_even, H2 in H2' by lia. done.
  - assert (format p jmin ((k + 1) * 2 ^ j)) as Hy by (exists (k + 1), j; lia). destruct (HR _ Hy) as (_ & H3 & _). specialize (H3 ltac:(lia)).
    destruct (format_even p jmin j k Hp Hjm Hj Hk Hn R' HF') as [t Et].
    rewrite (Hc (((k + 1) * 2 ^ j + k * 2 ^ j) / 2) ((k * 2 ^ j + R') / 2)) in Hmid; [done | | done].
    apply Z.lt_le_trans with (((k + 1) * 2 ^ j + k * 2 ^ j) / 2 + 1); [lia |]. rewrite <- Z.div_add by lia. apply Z.div_le_mono; lia.
Qed.

Theorem rounds_unique m sign p jmin c {Hc : Cut c} R R' : 2 <= p -> 1 <= jmin -> rounds m sign p jmin c R -> rounds m sign p jmin c R' -> R = R'.
Proof.
  intros Hp Hjm HR HR'. destruct (direct m sign) eqn:E.
  - destruct HR as [HF H], HR' as [HF' H']. rewrite E in H, H'. apply Z.le_antisymm; [apply H' | apply H]; tauto.
  - destruct HR as [HF H], HR' as [HF' H']. rewrite E in H, H'. apply Z.le_antisymm; [apply H | apply H']; tauto.
  - assert (forall x, rounds m sign p jmin c x -> rounds round_to_nearest false p jmin c x) as Hto by (intros x [H1 H2]; rewrite E in H2; by split).
    apply Hto in HR, HR'. destruct (Z.lt_total R R') as [H | [H | H]]; [exfalso; by apply (nearest_unique p jmin c R R') | done | exfalso; by apply (nearest_unique p jmin c R' R)].
Qed.

(** A number of the format rounds to itself. *)
Lemma rounds_exact m sign p jmin c {Hc : Cut c} R R' : 1 <= jmin -> format p jmin R' -> c R' = Eq -> rounds m sign p jmin c R -> R = R'.
Proof.
  intros Hjm HF' E [HF H]. destruct (direct m sign).
  - apply Z.le_antisymm; [apply (cut_order c); [apply H | congruence] | apply H; [done | congruence]].
  - apply Z.le_antisymm; [apply H; [done | congruence] | apply (cut_order c); [congruence | apply H]].
  - pose proof (format_is_even p jmin Hjm) as Hev. destruct (Hev R HF) as [t ->], (Hev R' HF') as [t' ->]. destruct (H _ HF') as (H1 & H2 & _). replace ((2 * t' + 2 * t) / 2) with (t' + t) in * by (apply Z.div_unique with 0; lia).
    destruct (Z.lt_total t t') as [Hl | [-> | Hl]]; [| done |]; exfalso.
    + apply H2; [lia |]. apply (cut_below c _ (2 * t')); [lia | congruence].
    + apply H1; [lia |]. apply (Hc (2 * t')); [lia | congruence].
Qed.

(** Rounding does not go past a number of the format. *)
Lemma rounds_ge m sign p jmin c {Hc : Cut c} R y : 1 <= jmin -> format p jmin y -> c y <> Lt -> rounds m sign p jmin c R -> y <= R.
Proof.
  intros Hjm HF Hy [HR H]. destruct (direct m sign).
  - by apply H.
  - apply (cut_order c); [done | apply H].
  - destruct (decide (y <= R)) as [| Hlt]; [done |]. exfalso. destruct (H y HF) as (_ & H2 & _). apply H2; [lia |].
    pose proof (format_is_even p jmin Hjm) as Hev. destruct (Hev R HR) as [t ->], (Hev y HF) as [t' ->]. apply (cut_below c _ (2 * t')); [| done]. apply Z.div_lt_upper_bound; lia.
Qed.

(** The converse of [rounds_exact]. *)
Lemma rounds_self m sign p jmin c {Hc : Cut c} R : 1 <= jmin -> format p jmin R -> c R = Eq -> rounds m sign p jmin c R.
Proof.
  intros Hjm HF E. split; [done |]. pose proof (format_is_even p jmin Hjm) as Hev.
  destruct (direct m sign).
  - split; [congruence |]. intros y _ Hy. apply (cut_order c); congruence.
  - split; [congruence |]. intros y _ Hy. apply (cut_order c); congruence.
  - intros y Hy. destruct (Hev R HF) as [t ->], (Hev y Hy) as [t' ->]. replace ((2 * t' + 2 * t) / 2) with (t' + t) by (apply Z.div_unique with 0; lia). split; [| split].
    + intros Hlt. rewrite (cut_below c (t' + t) (2 * t)); [done | lia | congruence].
    + intros Hlt. rewrite (Hc (2 * t) (t' + t)); [done | lia | congruence].
    + intros Hne Heq. exfalso. destruct (Z.lt_total t' t) as [H | [-> | H]]; [| done |].
      * rewrite (cut_below c (t' + t) (2 * t)) in Heq; [done | lia | congruence].
      * rewrite (Hc (2 * t) (t' + t)) in Heq; [done | lia | congruence].
Qed.

(** Rounding looks at the exact value only through multiples of half the lowest
    place. *)
Lemma format_multiple p jmin x : 0 <= jmin -> format p jmin x -> exists t, x = t * 2 ^ jmin.
Proof. intros H (k & j & Hj & _ & ->). exists (k * 2 ^ (j - jmin)). rewrite <- Z.mul_assoc, <- Z.pow_add_r by lia. do 2 f_equal. lia. Qed.

Lemma rounds_agree m sign p jmin c c' R : 1 <= jmin -> (forall t, c (t * 2 ^ (jmin - 1)) = c' (t * 2 ^ (jmin - 1))) ->
  rounds m sign p jmin c R -> rounds m sign p jmin c' R.
Proof.
  intros Hj Hag [HF H]. assert (2 ^ jmin = 2 * 2 ^ (jmin - 1)) as E by (rewrite <- pow2_succ by lia; f_equal; lia).
  assert (forall y, format p jmin y -> c y = c' y) as Hy by (intros y (t & ->)%format_multiple; [| lia]; rewrite E, Z.mul_assoc; apply Hag).
  assert (forall y, format p jmin y -> c ((y + R) / 2) = c' ((y + R) / 2)) as Hm.
  { intros y (t & ->)%format_multiple; [| lia]. destruct (format_multiple p jmin R ltac:(lia) HF) as [u ->]. replace ((t * 2 ^ jmin + u * 2 ^ jmin) / 2) with ((t + u) * 2 ^ (jmin - 1)); [apply Hag |].
    apply Z.div_unique with 0; lia. }
  split; [done |]. destruct (direct m sign).
  - rewrite <- (Hy R HF). split; [apply H |]. intros y Hf. rewrite <- (Hy y Hf). by apply H.
  - rewrite <- (Hy R HF). split; [apply H |]. intros y Hf. rewrite <- (Hy y Hf). by apply H.
  - intros y Hf. rewrite <- (Hm y Hf). by apply H.
Qed.
