(* ===== verification/Float80.v ===== *)
(** The 80-bit floating point of the x87 (emu/float80.c, emu/float80.h): the
    representation, the rounding path every result goes through, and the
    arithmetic, conversions and comparisons built on it.

    The rounding mode, the precision and the flags are thread-local variables
    of the code; here they are a record that each operation takes and returns.
    An operation that runs into a failed [assert], or into a shift wider than
    its operand, returns [None]. *)

From S2P Require Import Prelude Rounding.

(** ** Representation *)

Record float80 := mk_f { signif : Z; exp : Z; sign : bool }.

#[export] Instance float80_eq_dec : EqDecision float80.
Proof. solve_decision. Defined.

Definition u128 (x : Z) : Z := wrap 128 x.
Definition u15 (x : Z) : Z := wrap 15 x.

Definition set_signif (f : float80) (x : Z) : float80 := mk_f (u64 x) (exp f) (sign f).
Definition set_exp (f : float80) (x : Z) : float80 := mk_f (signif f) (u15 x) (sign f).
Definition set_sign (f : float80) (x : bool) : float80 := mk_f (signif f) (exp f) x.

Definition BIAS80 := 0x3fff.
Definition EXP_MAX := 0x7ffe.
Definition EXP_MIN := 0x0001.
Definition EXP_SPECIAL := 0x7fff.
Definition EXP_DENORMAL := 0.
Definition bias (e : Z) : Z := e + BIAS80.
Definition unbias (e : Z) : Z := e - BIAS80.
Definition unbias_denormal (e : Z) : Z := if e =? EXP_DENORMAL then unbias EXP_MIN else unbias e.
Definition CURSED_BIT := Z.shiftl 1 63.
Definition QUIET_BIT := Z.shiftl 1 62.

Definition F80_NAN := mk_f 0xc000000000000000 0x7fff false.
Definition F80_INDEFINITE := mk_f 0xc000000000000000 0x7fff true.
Definition F80_INF := mk_f 0x8000000000000000 0x7fff false.
Definition F80_ZERO := mk_f 0 0 false.

Definition F80_EXC_INVALID := Z.shiftl 1 0.
Definition F80_EXC_DENORMAL := Z.shiftl 1 1.
Definition F80_EXC_DIVZERO := Z.shiftl 1 2.
Definition F80_EXC_OVERFLOW := Z.shiftl 1 3.
Definition F80_EXC_UNDERFLOW := Z.shiftl 1 4.

(** The thread-local state. *)
Record fenv := mk_env { rounding : f80_rounding_mode; precision : Z; inexact : bool; rounded_up : bool; exceptions : Z }.

Definition set_inexact (e : fenv) (b : bool) : fenv := mk_env (rounding e) (precision e) b (rounded_up e) (exceptions e).
Definition set_rounded_up (e : fenv) (b : bool) : fenv := mk_env (rounding e) (precision e) (inexact e) b (exceptions e).
Definition raise (e : fenv) (x : Z) : fenv := mk_env (rounding e) (precision e) (inexact e) (rounded_up e) (Z.lor (exceptions e) x).
Definition set_precision (e : fenv) (p : Z) : fenv := mk_env (rounding e) p (inexact e) (rounded_up e) (exceptions e).
Definition set_rounding (e : fenv) (m : f80_rounding_mode) : fenv := mk_env m (precision e) (inexact e) (rounded_up e) (exceptions e).

Definition mode_is (e : fenv) (m : f80_rounding_mode) : bool := bool_decide (rounding e = m).

(** ** Shifts that round *)

Definition round_away_from_zero (e : fenv) (sign : bool) : bool :=
  (mode_is e round_up && negb sign) || (mode_is e round_down && sign).

Definition u128_shift_right_round (i shift : Z) (sign : bool) (e : fenv) : Z * fenv :=
  if shift =? 0 then (i, e)
  else if shift >? 127 then
    let e := if negb (i =? 0) then set_inexact e true else e in
    if round_away_from_zero e sign && negb (i =? 0) then (1, set_rounded_up e true) else (0, e)
  else
    let guard := Z.land (Z.shiftr i (shift - 1)) 1 in
    let rest := Z.land i (u128 (Z.lnot (u128 (Z.shiftl (-1) (shift - 1))))) in
    let i := Z.shiftr i shift in
    if (guard =? 0) && (rest =? 0) then (i, e)
    else
      let e := set_inexact e true in
      if round_away_from_zero e sign then (u128 (i + 1), set_rounded_up e true)
      else if mode_is e round_to_nearest && negb (guard =? 0) then
        if negb (rest =? 0) then (u128 (i + 1), set_rounded_up e true)
        else if negb (Z.land i 1 =? 0) then (u128 (i + 1), set_rounded_up e true)
        else (i, e)
      else (i, e).

Definition u128_shift_right_sticky (i shift : Z) : Z :=
  if shift <=? 0 then i
  else if shift >? 127 then Z.b2z (negb (i =? 0))
  else Z.lor (Z.shiftr i shift) (Z.b2z (negb (Z.land i (Z.shiftl 1 shift - 1) =? 0))).

Definition f80_shift_left (f : float80) (shift : Z) : option float80 :=
  if (shift <? 0) || (shift >=? 64) then None
  else Some (set_exp (set_signif f (Z.shiftl (signif f) shift)) (exp f - shift)).

Definition f80_shift_right (f : float80) (shift : Z) (e : fenv) : float80 * fenv :=
  let '(s, e) := u128_shift_right_round (signif f) shift (sign f) e in
  (set_exp (set_signif f s) (exp f + shift), e).

(** ** Kinds of numbers *)

Definition f80_is_supported (f : float80) : bool :=
  if exp f =? EXP_DENORMAL then Z.shiftr (signif f) 63 =? 0 else Z.shiftr (signif f) 63 =? 1.

Definition f80_isnan (f : float80) : bool := (exp f =? EXP_SPECIAL) && negb (Z.land (signif f) (Z.shiftr (u64 (-1)) 1) =? 0).
Definition f80_isinf (f : float80) : bool := (exp f =? EXP_SPECIAL) && (Z.land (signif f) (Z.shiftr (u64 (-1)) 1) =? 0).
Definition f80_iszero (f : float80) : bool := (exp f =? EXP_DENORMAL) && (signif f =? 0).
Definition f80_isdenormal (f : float80) : bool := (exp f =? EXP_DENORMAL) && negb (signif f =? 0).
Definition f80_issnan (f : float80) : bool := f80_isnan f && (Z.land (signif f) QUIET_BIT =? 0).

Definition quieten (f : float80) : float80 := mk_f (Z.lor (signif f) QUIET_BIT) (exp f) (sign f).

(** __builtin_clzl of a nonzero 64-bit number. *)
Definition clz64 (x : Z) : Z := 63 - Z.log2 x.

Definition f80_normalize (f : float80) : option float80 :=
  if ((exp f =? EXP_DENORMAL) || (exp f =? EXP_SPECIAL)) && negb (f80_is_supported f) then None
  else if exp f =? EXP_DENORMAL then Some f
  else
    let shift := if negb (signif f =? 0) then clz64 (signif f) else 64 in
    if exp f - shift <? EXP_MIN then
      f ← f80_shift_left f (exp f - EXP_MIN);
      Some (set_exp f EXP_DENORMAL)
    else f80_shift_left f shift.

Definition u128_clz (x : Z) : Z :=
  if negb (Z.shiftr x 64 =? 0) then clz64 (u64 (Z.shiftr x 64))
  else if negb (x =? 0) then 64 + clz64 (u64 x)
  else 128.

Definition f80_precision_extra (e : fenv) : Z :=
  let extra := 64 - precision e in
  if (extra <? 0) || (extra >? 40) then 0 else extra.

(** ** The rounding path *)

Definition f80_overflow (sign : bool) (e : fenv) : float80 * fenv :=
  let '(f, e) :=
    if (mode_is e round_up && sign) || (mode_is e round_down && negb sign) || mode_is e round_chop then
      (mk_f (u64 (Z.shiftl (u64 (-1)) (f80_precision_extra e))) EXP_MAX false, set_rounded_up e false)
    else (F80_INF, set_rounded_up e true) in
  (set_sign f sign, set_inexact (raise e F80_EXC_OVERFLOW) true).

(** The first half of u128_normalize_round: the significand shifted into place,
    its exponent, and whether the result is tiny.  [None] is the overflow. *)
Definition place_signif (sg xp : Z) (sign : bool) (e : fenv) : option (Z * Z * bool) :=
  let extra := f80_precision_extra e in
  let shift := u128_clz sg in
  if xp - shift <? unbias EXP_MIN then
    let tiny :=
      if xp - shift =? unbias EXP_MIN - 1 then
        let '(r, _) := u128_shift_right_round (u128 (Z.shiftl sg shift)) (64 + extra) sign e in
        Z.shiftr r (64 - extra) =? 0
      else true in
    let sg' := if xp >? unbias EXP_MIN then u128 (Z.shiftl sg (xp - unbias EXP_MIN))
               else u128_shift_right_sticky sg (unbias EXP_MIN - xp) in
    Some (sg', unbias EXP_DENORMAL, tiny)
  else if xp - shift >? unbias EXP_MAX then None
  else Some (u128 (Z.shiftl sg shift), xp - shift, false).

(** The second half: round it, and pack the result. *)
Definition round_placed (sg xp : Z) (tiny : bool) (sign caller_inexact : bool) (e : fenv) : float80 * fenv :=
  let extra := f80_precision_extra e in
  let fexp := u15 (bias xp) in
  let '(sg, e) := u128_shift_right_round sg (64 + extra) sign e in
  let carry := negb (Z.shiftr sg (64 - extra) =? 0) in
  let sg := if carry then Z.shiftr sg 1 else sg in
  let fexp := if carry then u15 (fexp + 1) else fexp in
  if carry && (fexp >? EXP_MAX) then f80_overflow sign e
  else
    let sg := u128 (Z.shiftl sg extra) in
    let fexp := if (fexp =? EXP_DENORMAL) && negb (Z.shiftr sg 63 =? 0) then EXP_MIN else fexp in
    let f := mk_f (u64 sg) fexp sign in
    let e := if tiny && inexact e then raise e F80_EXC_UNDERFLOW else e in
    (f, set_inexact e (inexact e || caller_inexact)).

Definition u128_normalize_round (sg xp : Z) (sign : bool) (e : fenv) : float80 * fenv :=
  if sg =? 0 then (mk_f 0 0 sign, e)
  else
    let caller_inexact := inexact e in
    let e := set_inexact e false in
    match place_signif sg xp sign e with
    | None => f80_overflow sign e
    | Some (sg, xp, tiny) => round_placed sg xp tiny sign caller_inexact e
    end.

(** ** Arithmetic *)

Definition f80_neg (f : float80) : float80 := set_sign f (negb (sign f)).
Definition f80_abs (f : float80) : float80 := set_sign f false.

(** The macro [handle_nans]: what the function returns at once, if it does;
    otherwise neither operand is a NaN and nothing has changed. *)
Definition handle_nans (a b : float80) (e : fenv) : option (float80 * fenv) :=
  if negb (f80_is_supported a) || negb (f80_is_supported b) then Some (F80_NAN, raise e F80_EXC_INVALID)
  else
    let snan := f80_issnan a || f80_issnan b in
    let e := if snan then raise e F80_EXC_INVALID else e in
    let a := if snan && f80_isnan a then quieten a else a in
    let b := if snan && f80_isnan b then quieten b else b in
    if f80_isnan a && f80_isnan b && sign a && negb (sign b) then Some (b, e)
    else if f80_isnan a then Some (a, e)
    else if f80_isnan b then Some (b, e)
    else None.

(** The end of f80_add, [a] positive and with the larger exponent. *)
Definition add_aligned (flipped : bool) (a b : float80) (e : fenv) : option (float80 * fenv) :=
  let a_signif := Z.shiftl (signif a) 64 in
  let b_signif := u128_shift_right_sticky (Z.shiftl (signif b) 64) (unbias_denormal (exp a) - unbias_denormal (exp b)) in
  let xp := unbias_denormal (exp a) in
  let finish (sg xp : Z) (sg_sign : bool) :=
    let sg_sign := if flipped then negb sg_sign else sg_sign in
    let '(f, e) := u128_normalize_round sg xp sg_sign e in
    if f80_is_supported f then Some (f, e) else None in
  if negb (sign b) then
    if negb (f80_isinf a) && (a_signif + b_signif >=? 2 ^ 128) then
      finish (Z.lor (u128_shift_right_sticky (u128 (a_signif + b_signif)) 1) (Z.shiftl 1 127)) (xp + 1) (sign a)
    else finish (if f80_isinf a then a_signif else a_signif + b_signif) xp (sign a)
  else if f80_isinf a && f80_isinf b then Some (F80_NAN, raise e F80_EXC_INVALID)
  else
    let b_signif := if mode_is e round_chop && (b_signif =? 0) && negb (signif b =? 0) then 1 else b_signif in
    let b_signif := if f80_isinf a then 0 else b_signif in
    let '(sg, sg_sign) := if a_signif >=? b_signif then (a_signif - b_signif, sign a) else (b_signif - a_signif, true) in
    if (sg =? 0) && negb (a_signif =? 0) && mode_is e round_down then Some (mk_f 0 0 true, e)
    else if sg =? 0 then Some (F80_ZERO, e)
    else finish sg xp sg_sign.

(** Both operands finite, at least one of them nonzero. *)
Definition add_finite (a b : float80) (e : fenv) : option (float80 * fenv) :=
  let '(a, b) := if exp a <? exp b then (b, a) else (a, b) in
  let '(a, b, flipped) := if sign a then (f80_neg a, f80_neg b, true) else (a, b, false) in
  add_aligned flipped a b e.

Definition f80_add (a b : float80) (e : fenv) : option (float80 * fenv) :=
  match handle_nans a b e with
  | Some r => Some r
  | None =>
      if f80_isinf a || f80_isinf b then
        if f80_isinf a && f80_isinf b && negb (eqb (sign a) (sign b)) then Some (F80_NAN, raise e F80_EXC_INVALID)
        else Some (if f80_isinf a then a else b, e)
      else if f80_iszero a && f80_iszero b then
        Some (mk_f 0 0 (if eqb (sign a) (sign b) then sign a else mode_is e round_down), e)
      else add_finite a b e
  end.

Definition f80_sub (a b : float80) (e : fenv) : option (float80 * fenv) := f80_add a (f80_neg b) e.

Definition f80_mul (a b : float80) (e : fenv) : float80 * fenv :=
  match handle_nans a b e with
  | Some r => r
  | None =>
      if f80_isinf a || f80_isinf b then
        if f80_iszero a || f80_iszero b then (F80_NAN, raise e F80_EXC_INVALID)
        else (set_sign F80_INF (xorb (sign a) (sign b)), e)
      else
        let f_exp := unbias_denormal (exp a) + unbias_denormal (exp b) + 1 in
        let f_signif := signif a * signif b in
        let '(f, e) := u128_normalize_round f_signif f_exp (xorb (sign a) (sign b)) e in
        (set_sign f (xorb (sign a) (sign b)), e)
  end.

(** 128 bits of the quotient of two finite nonzero numbers and its exponent. *)
Definition div_finite (a b : float80) : Z * Z :=
  let la := clz64 (signif a) in
  let lb := clz64 (signif b) in
  let as_ := u64 (Z.shiftl (signif a) la) in
  let bs := u64 (Z.shiftl (signif b) lb) in
  let ea := unbias_denormal (exp a) - la in
  let eb := unbias_denormal (exp b) - lb in
  let n := Z.shiftl as_ 63 in
  let q_hi := n / bs in
  let r := n mod bs in
  let q_lo := Z.shiftl r 64 / bs in
  let r := Z.shiftl r 64 mod bs in
  let sg := Z.lor (u128 (Z.shiftl q_hi 64)) q_lo in
  (if negb (r =? 0) then Z.lor sg 1 else sg, ea - eb).

Definition f80_div (a b : float80) (e : fenv) : float80 * fenv :=
  match handle_nans a b e with
  | Some r => r
  | None =>
      let s := xorb (sign a) (sign b) in
      if f80_isinf a then
        if f80_isinf b then (F80_INDEFINITE, raise e F80_EXC_INVALID) else (set_sign F80_INF s, e)
      else if f80_isinf b then (set_sign F80_ZERO s, e)
      else if f80_iszero b then
        if f80_iszero a then (F80_INDEFINITE, raise e F80_EXC_INVALID) else (set_sign F80_INF s, raise e F80_EXC_DIVZERO)
      else if f80_iszero a then (set_sign F80_ZERO s, e)
      else
        let '(sg, xp) := div_finite a b in
        let '(f, e) := u128_normalize_round sg xp s e in
        (set_sign f s, e)
  end.

(** ** Comparison *)

Definition f80_uncomparable (a b : float80) : bool :=
  negb (f80_is_supported a) || negb (f80_is_supported b) || f80_isnan a || f80_isnan b.

Definition f80_lt (a b : float80) (e : fenv) : option (bool * fenv) :=
  if f80_uncomparable a b then Some (false, e)
  else if f80_isinf a && f80_isinf b && eqb (sign a) (sign b) then Some (false, e)
  else if f80_iszero a && f80_iszero b then Some (false, e)
  else
    '(diff, e) ← f80_sub a b e;
    Some (sign diff && negb (f80_iszero diff), e).

Definition f80_eq (a b : float80) : bool :=
  if f80_uncomparable a b then false
  else
    let a := if f80_iszero a then set_sign a false else a in
    let b := if f80_iszero b then set_sign b false else b in
    eqb (sign a) (sign b) && (exp a =? exp b) && (signif a =? signif b).

(** ** What a run of the code looks like *)

Definition default_env : fenv := mk_env round_to_nearest 64 false false 0.

Example three_halves : f80_div (mk_f (3 * 2 ^ 62) (bias 1) false) (mk_f (2 ^ 63) (bias 1) false) default_env = (mk_f (3 * 2 ^ 62) (bias 0) false, default_env).
Proof. reflexivity. Qed.

Example one_plus_tiny : f80_add (mk_f (2 ^ 63) (bias 0) false) (mk_f (2 ^ 63) (bias (-100)) false) default_env =
  Some (mk_f (2 ^ 63) (bias 0) false, set_inexact default_env true).
Proof. reflexivity. Qed.
