(* ===== verification/Float80Sound.v ===== *)
(** The rounding path of emu/float80.c rounds correctly.

    [u128_normalize_round_correct] is the theorem every arithmetic operation
    of Float80.v goes through.  The 128-bit significand it is given may be the
    exact value or may end in a sticky bit; [stands] says what it has to tell
    about the exact value. *)

From Stdlib Require Import ZifyBool.
From S2P Require Import Prelude Rounding Float80.

Arguments Z.mul : simpl never.
Arguments Z.add : simpl never.
Arguments Z.sub : simpl never.
Arguments Z.pow : simpl never.
Arguments Z.log2 : simpl never.

(** ** Units *)

(** Magnitudes are counted in units of [2^-U].  The smallest exponent that
    reaches the rounding path is that of [f80_scale], above [-2^17]. *)
Definition U : Z := 0x20000.

Definition mag (f : float80) : Z := signif f * 2 ^ (unbias_denormal (exp f) - 63 + U).

(** Where bit 0 of a 128-bit significand with this exponent lies. *)
Definition place (xp : Z) : Z := xp - 127 + U.

(** The lowest place of a number with [p] bits, and the smallest normal number. *)
Definition jmin (p : Z) : Z := 64 - p + (unbias EXP_MIN - 63 + U).
Definition min_normal : Z := 2 ^ (unbias EXP_MIN + U).
Definition max_finite (p : Z) : Z := (2 ^ p - 1) * 2 ^ (64 - p + (unbias EXP_MAX - 63 + U)).

Definition in_range (f : float80) : Prop := 0 <= signif f < 2 ^ 64 /\ 0 <= exp f < 2 ^ 15.
Definition finite (f : float80) : Prop := in_range f /\ f80_is_supported f = true /\ exp f <> EXP_SPECIAL.

(** The three widths of the control word. *)
Definition width (p : Z) : Prop := p = 24 \/ p = 53 \/ p = 64.

(** ** What an operation delivers *)

Definition is_lt (x : comparison) : bool := match x with Lt => true | _ => false end.
Definition is_eq (x : comparison) : bool := match x with Eq => true | _ => false end.

(** The flags after rounding: [x] compares the exact value with the result,
    [tiny] says the value is below the normal range. *)
Definition flagged (e : fenv) (x : comparison) (tiny : bool) : fenv :=
  mk_env (rounding e) (precision e) (inexact e || negb (is_eq x)) (rounded_up e || is_lt x)
    (if tiny && negb (is_eq x) then Z.lor (exceptions e) F80_EXC_UNDERFLOW else exceptions e).

Definition overflowed (s : bool) (e : fenv) : float80 * fenv :=
  let inward := match direct (rounding e) s with Inward => true | _ => false end in
  (if inward then mk_f ((2 ^ precision e - 1) * 2 ^ (64 - precision e)) EXP_MAX s else mk_f (2 ^ 63) EXP_SPECIAL s,
   mk_env (rounding e) (precision e) true (negb inward) (Z.lor (exceptions e) F80_EXC_OVERFLOW)).

(** The result of an operation whose exact value has magnitude [c] and sign
    [s]: the correct rounding [R], or the overflow when that is out of range.
    [T] is the rounding with one more binade below the normal range, which is
    how the x87 tells a tiny result. *)
Definition delivers (s : bool) (c : cut) (e : fenv) (r : float80 * fenv) : Prop :=
  let p := precision e in
  exists R T, rounds (rounding e) s p (jmin p) c R /\ rounds (rounding e) s p (jmin p - 1) c T /\
    if R <=? max_finite p then
      finite (fst r) /\ sign (fst r) = s /\ mag (fst r) = R /\ snd r = flagged e (c R) (T <? min_normal)
    else r = overflowed s e.

(** ** Shifts *)

(** At the places [i] and up, [S] at scale [2^E] compares as the exact value. *)
Definition stands (i : Z) (c : cut) (S E : Z) : Prop := forall t, c (t * 2 ^ (i + E)) = (S ?= t * 2 ^ i).

(** The floor of a fraction, its last bit set if anything was cut off. *)
Definition fold_sticky (N D : Z) : Z := Z.lor (N / D) (Z.b2z (negb (N mod D =? 0))).
Definition sticky (S d : Z) : Z := fold_sticky S (2 ^ d).

Lemma compare_scale a b q : 0 < q -> (a * q ?= b * q) = (a ?= b).
Proof. intros. symmetry. by apply Zmult_compare_compat_r, Z.lt_gt. Qed.

Lemma exact_stands c S E : 0 <= E -> (forall n, c n = (S * 2 ^ E ?= n)) -> stands 0 c S E.
Proof. intros HE Hc t. rewrite Hc, Z.add_0_l, Z.mul_1_r. apply compare_scale, pow2_pos. done. Qed.

Lemma stands_up i c S E z : 0 <= i -> 0 <= z -> stands i c S E -> stands (i + z) c (S * 2 ^ z) (E - z).
Proof.
  intros Hi Hz H t. replace (i + z + (E - z)) with (i + E) by lia. rewrite H, Z.pow_add_r by lia.
  rewrite Z.mul_assoc, compare_scale; [done | by apply pow2_pos].
Qed.

Lemma stands_coarse i i' c S E : 0 <= i <= i' -> 0 <= E -> stands i c S E -> stands i' c S E.
Proof.
  intros Hi HE H t. replace (t * 2 ^ (i' + E)) with (t * 2 ^ (i' - i) * 2 ^ (i + E)) by (rewrite <- Z.mul_assoc, <- Z.pow_add_r by lia; do 2 f_equal; lia).
  rewrite H. f_equal. rewrite <- Z.mul_assoc, <- Z.pow_add_r by lia. do 2 f_equal. lia.
Qed.

Lemma stands_down i c S E d : 0 <= i -> 0 <= d -> 0 <= E -> stands i c (S * 2 ^ d) E -> stands (Z.max 0 (i - d)) c S (E + d).
Proof.
  intros Hi Hd HE H t. apply (stands_coarse i (Z.max 0 (i - d) + d)) in H; [| lia | done].
  replace (Z.max 0 (i - d) + (E + d)) with (Z.max 0 (i - d) + d + E) by lia. rewrite H, Z.pow_add_r by lia.
  rewrite Z.mul_assoc, compare_scale; [done | by apply pow2_pos].
Qed.

Lemma lor_b2z x b : Z.lor x (Z.b2z b) = if b then x + Z.b2z (Z.even x) else x.
Proof.
  destruct b; simpl; [| apply Z.lor_0_r]. rewrite <- Z.negb_odd. destruct (Z.odd x) eqn:E; simpl.
  - rewrite Z.add_0_r. apply Z.bits_inj'. intros n Hn. rewrite Z.lor_spec. destruct (decide (n = 0)) as [-> | ?].
    + by rewrite Z.bit0_odd, E.
    + change 1 with (2 ^ 0). rewrite Z.pow2_bits_false by lia. apply orb_false_r.
  - rewrite Z.add_nocarry_lxor, Z.lxor_lor; [done | |];
    (apply Z.bits_inj'; intros n Hn; rewrite Z.land_spec, Z.bits_0; destruct (decide (n = 0)) as [-> | ?];
     [by rewrite Z.bit0_odd, E | change 1 with (2 ^ 0); rewrite Z.pow2_bits_false by lia; apply andb_false_r]).
Qed.

Lemma fold_sticky_val N D : fold_sticky N D = if N mod D =? 0 then N / D else N / D + Z.b2z (Z.even (N / D)).
Proof. unfold fold_sticky. rewrite lor_b2z. by destruct (N mod D =? 0). Qed.

(** Even multiples cannot tell the sticky number from what it stands for. *)
Lemma fold_sticky_compare N D t : 0 < D -> (N ?= 2 * t * D) = (fold_sticky N D ?= 2 * t).
Proof.
  intros Hq. rewrite fold_sticky_val. pose proof (Z.div_mod N D) as E. pose proof (Z.mod_pos_bound N D Hq) as Hr.
  set (k := N / D) in *. set (r := N mod D) in *. specialize (E ltac:(lia)).
  assert (Z.even k = true -> exists h, k = 2 * h) as He by (intros H1; apply Z.even_spec in H1; exact H1).
  assert (Z.even k = false -> exists h, k = 2 * h + 1) as Ho by (intros H1; rewrite <- Z.negb_odd in H1; apply negb_false_iff, Z.odd_spec in H1; exact H1).
  destruct (Z.eqb_spec r 0) as [Er | Er].
  - rewrite E, Er, Z.add_0_r, (Z.mul_comm D). by apply compare_scale.
  - destruct (Z.even k); simpl; [destruct (He eq_refl) as [h Eh] | destruct (Ho eq_refl) as [h Eh]];
    (destruct (decide (2 * t <= k)); [rewrite (proj2 (Z.compare_gt_iff _ _)); [symmetry; apply Z.compare_gt_iff; lia | nia] | rewrite (proj2 (Z.compare_lt_iff _ _)); [symmetry; apply Z.compare_lt_iff; lia | nia]]).
Qed.

Lemma sticky_val S d : sticky S d = if S mod 2 ^ d =? 0 then S / 2 ^ d else S / 2 ^ d + Z.b2z (Z.even (S / 2 ^ d)).
Proof. apply fold_sticky_val. Qed.

Lemma sticky_compare S d t : 0 <= d -> (S ?= 2 * t * 2 ^ d) = (sticky S d ?= 2 * t).
Proof. intros Hd. by apply fold_sticky_compare, pow2_pos. Qed.

Lemma stands_sticky i c S E d : 0 <= i -> 0 <= d -> 0 <= E -> stands i c S E -> stands (Z.max 1 (i - d)) c (sticky S d) (E + d).
Proof.
  intros Hi Hd HE H t. apply (stands_coarse i (Z.max 1 (i - d) + d)) in H; [| lia | done].
  replace (Z.max 1 (i - d) + (E + d)) with (Z.max 1 (i - d) + d + E) by lia. rewrite H, Z.pow_add_r by lia.
  replace (t * 2 ^ Z.max 1 (i - d)) with (2 * (t * 2 ^ (Z.max 1 (i - d) - 1))).
  2: { rewrite <- (Z.sub_add 1 (Z.max 1 (i - d))) at 2. rewrite pow2_succ by lia. ring. }
  rewrite <- sticky_compare by done. f_equal. rewrite <- (Z.sub_add 1 (Z.max 1 (i - d))) at 1. rewrite pow2_succ by lia. ring.
Qed.


Lemma land_low x n : 0 <= n -> Z.land x (2 ^ n - 1) = x mod 2 ^ n.
Proof. intros. rewrite <- Z.land_ones, Z.ones_equiv by done. f_equal. Qed.

Lemma sticky_code S d : 0 <= S < 2 ^ 128 -> 0 <= d -> u128_shift_right_sticky S d = sticky S d.
Proof.
  intros HS Hd. unfold u128_shift_right_sticky, sticky, fold_sticky. destruct (Z.leb_spec d 0).
  - replace d with 0 by lia. change (2 ^ 0) with 1. rewrite Z.div_1_r, Z.mod_1_r. simpl. by rewrite Z.lor_0_r.
  - destruct (Z.gtb_spec d 127).
    + assert (2 ^ 128 <= 2 ^ d) by (apply Z.pow_le_mono_r; lia). rewrite Z.div_small, Z.mod_small by lia. by rewrite Z.lor_0_l.
    + rewrite Z.shiftr_div_pow2, Z.shiftl_1_l, land_low by lia. done.
Qed.

(** What a right shift by [sh] leaves over. *)
Definition loc_of (S sh : Z) : location := if S mod 2 ^ sh =? 0 then Exact else Inexact (S mod 2 ^ sh ?= 2 ^ (sh - 1)).

Definition rounded_env (e : fenv) (s : bool) (k : Z) (l : location) : fenv :=
  mk_env (rounding e) (precision e) (inexact e || match l with Exact => false | _ => true end)
    (rounded_up e || goes_up (rounding e) s k l) (exceptions e).

Lemma away_direct e s : round_away_from_zero e s = match direct (rounding e) s with Outward => true | _ => false end.
Proof. unfold round_away_from_zero, mode_is, direct. by destruct (rounding e), s. Qed.

Lemma nearest_direct e s : mode_is e round_to_nearest = match direct (rounding e) s with Nearest => true | _ => false end.
Proof. unfold mode_is, direct. by destruct (rounding e), s. Qed.

Lemma mod_split S sh : 1 <= sh -> S mod 2 ^ sh = Z.land (Z.shiftr S (sh - 1)) 1 * 2 ^ (sh - 1) + S mod 2 ^ (sh - 1).
Proof.
  intros. change 1 with (2 ^ 1 - 1) at 2. rewrite land_low, Z.shiftr_div_pow2 by lia. rewrite <- (Z.sub_add 1 sh) at 1. rewrite Z.pow_add_r by lia.
  rewrite Z.rem_mul_r by (try apply Z.pow_nonzero; lia). ring.
Qed.

Lemma rest_code i sh : 1 <= sh <= 127 -> Z.land i (u128 (Z.lnot (u128 (Z.shiftl (-1) (sh - 1))))) = i mod 2 ^ (sh - 1).
Proof.
  intros. rewrite <- land_low by lia. f_equal. unfold u128, wrap. rewrite Z.shiftl_mul_pow2 by lia.
  assert (2 ^ (sh - 1) < 2 ^ 128) by (apply Z.pow_lt_mono_r; lia). pose proof (pow2_pos (sh - 1)).
  rewrite <- (Z.mod_add (-1 * 2 ^ (sh - 1)) 1) by done. rewrite (Z.mod_small (-1 * _ + _)) by lia. unfold Z.lnot.
  rewrite <- (Z.mod_add _ 1) by done. rewrite Z.mod_small by lia. lia.
Qed.

Lemma land_1 x : Z.land x 1 = Z.b2z (Z.odd x).
Proof. change 1 with (2 ^ 1 - 1). rewrite land_low by lia. change (2 ^ 1) with 2. rewrite Zmod_odd. by destruct (Z.odd x). Qed.

Lemma same_env e : mk_env (rounding e) (precision e) (inexact e) (rounded_up e) (exceptions e) = e.
Proof. by destruct e. Qed.

Lemma shift_round_code S sh s e : 0 <= S < 2 ^ 128 -> 1 <= sh -> (sh <= 127 \/ S < 2 ^ 127) ->
  u128_shift_right_round S sh s e =
  (choose (rounding e) s (S / 2 ^ sh) (loc_of S sh), rounded_env e s (S / 2 ^ sh) (loc_of S sh)).
Proof.
  intros HS Hsh Hbig. unfold u128_shift_right_round. rewrite (proj2 (Z.eqb_neq sh 0)) by lia. destruct (Z.gtb_spec sh 127) as [Hgt | Hle].
  - assert (2 ^ 128 <= 2 ^ sh) by (apply Z.pow_le_mono_r; lia). assert (2 ^ 127 <= 2 ^ (sh - 1)) by (apply Z.pow_le_mono_r; lia).
    unfold loc_of. rewrite Z.div_small, Z.mod_small by lia. rewrite away_direct, (proj2 (Z.compare_lt_iff S (2 ^ (sh - 1)))) by lia.
    unfold rounded_env, choose, goes_up. destruct (Z.eqb_spec S 0) as [-> | Hn]; simpl; rewrite ?orb_false_r, ?orb_true_r, ?andb_false_r, ?andb_true_r, ?same_env; [done |].
    destruct (direct (rounding e) s); simpl; by rewrite ?orb_false_r, ?orb_true_r.
  - rewrite rest_code by lia. rewrite (Z.shiftr_div_pow2 _ sh) by lia. pose proof (mod_split S sh Hsh) as Em. rewrite land_1 in *. set (g := Z.odd _) in *.
    pose proof (Z.mod_pos_bound S (2 ^ (sh - 1)) (pow2_pos (sh - 1) ltac:(lia))) as Hr. set (rest := S mod 2 ^ (sh - 1)) in *.
    assert (S / 2 ^ sh + 1 < 2 ^ 128) as Hk.
    { assert (2 ^ 1 <= 2 ^ sh) by (apply Z.pow_le_mono_r; lia). assert (S / 2 ^ sh < 2 ^ 127); [| lia]. apply Z.div_lt_upper_bound; [lia |]. nia. }
    assert (0 <= S / 2 ^ sh) by (apply Z.div_pos; [lia | apply pow2_pos; lia]).
    assert (u128 (S / 2 ^ sh + 1) = S / 2 ^ sh + 1) as -> by (apply Z.mod_small; lia).
    unfold loc_of. rewrite Em, away_direct, (nearest_direct _ s), land_1. cbn [set_inexact rounding]. unfold rounded_env, choose, goes_up.
    pose proof (pow2_pos (sh - 1) ltac:(lia)) as Hq. destruct g; cbn [Z.b2z].
    + rewrite Z.mul_1_l, (proj2 (Z.eqb_neq (2 ^ (sh - 1) + rest) 0)) by lia. cbn [andb negb Z.eqb].
      destruct (Z.eqb_spec rest 0) as [-> | Hne]; cbn [negb].
      * rewrite Z.add_0_r, Z.compare_refl. destruct (direct (rounding e) s); cbn; rewrite ?orb_false_r, ?orb_true_r; [done | done |]. by destruct (Z.odd (S / 2 ^ sh)); cbn; rewrite ?orb_true_r, ?orb_false_r.
      * rewrite (proj2 (Z.compare_gt_iff (2 ^ (sh - 1) + rest) (2 ^ (sh - 1)))) by lia. destruct (direct (rounding e) s); cbn; by rewrite ?orb_false_r, ?orb_true_r.
    + rewrite Z.mul_0_l, Z.add_0_l. destruct (Z.eqb_spec rest 0) as [-> | Hne]; cbn [andb negb]; [cbn; rewrite !orb_false_r; by destruct e |].
      rewrite (proj2 (Z.compare_lt_iff rest (2 ^ (sh - 1)))) by lia. destruct (direct (rounding e) s); cbn; by rewrite ?orb_false_r, ?orb_true_r.
Qed.

(** The shift finds the quantum of the exact value. *)
Lemma stands_at i c S E sh : 0 <= S -> 0 <= i <= sh - 1 -> 0 <= E -> stands i c S E -> at_quantum c (2 ^ (E + sh)) (S / 2 ^ sh) (loc_of S sh).
Proof.
  intros HS Hi HE H. pose proof (pow2_pos sh ltac:(lia)) as Hq. pose proof (Z.div_mod S (2 ^ sh) ltac:(lia)) as Ed. pose proof (Z.mod_pos_bound S (2 ^ sh) Hq) as Hm.
  assert (forall n, c (n * 2 ^ (E + sh)) = (S ?= n * 2 ^ sh)) as Hc.
  { intros n. pose proof (stands_coarse i sh c S E ltac:(lia) HE H n) as E1. by rewrite (Z.add_comm E sh). }
  assert (c (S / 2 ^ sh * 2 ^ (E + sh) + 2 ^ (E + sh) / 2) = (S mod 2 ^ sh ?= 2 ^ (sh - 1))) as Hh.
  { pose proof (stands_coarse i (sh - 1) c S E ltac:(lia) HE H (2 * (S / 2 ^ sh) + 1)) as E1.
    assert (2 ^ sh = 2 * 2 ^ (sh - 1)) as Es by (rewrite <- pow2_succ by lia; f_equal; lia).
    assert (2 ^ (E + sh) = 2 * 2 ^ (sh - 1 + E)) as Es' by (rewrite <- pow2_succ by lia; f_equal; lia).
    rewrite Es', (Z.mul_comm 2 (2 ^ (sh - 1 + E))), Z.div_mul by lia.
    replace (S / 2 ^ sh * (2 ^ (sh - 1 + E) * 2) + 2 ^ (sh - 1 + E)) with ((2 * (S / 2 ^ sh) + 1) * 2 ^ (sh - 1 + E)) by ring.
    rewrite E1. rewrite Ed at 1. rewrite Es at 1. rewrite <- (Z.add_compare_mono_l (2 * 2 ^ (sh - 1) * (S / 2 ^ sh)) (S mod 2 ^ sh)). f_equal. ring. }
  unfold at_quantum. rewrite Hh, !Hc. split; [intros Hlt; rewrite Z.compare_lt_iff in Hlt; lia |].
  split; [apply Z.compare_lt_iff; lia |]. unfold loc_of. destruct (Z.eqb_spec (S mod 2 ^ sh) 0) as [E0 | E0].
  - rewrite (proj2 (Z.compare_eq_iff _ _)); [done | lia].
  - rewrite (proj2 (Z.compare_gt_iff S (S / 2 ^ sh * 2 ^ sh))); [done | lia].
Qed.

Lemma stands_round i c S E sh s e : 0 <= S < 2 ^ 128 -> 0 <= i <= sh - 1 -> 0 <= E -> (sh <= 127 \/ S < 2 ^ 127) -> stands i c S E ->
  exists l, at_quantum c (2 ^ (E + sh)) (S / 2 ^ sh) l /\
    u128_shift_right_round S sh s e = (choose (rounding e) s (S / 2 ^ sh) l, rounded_env e s (S / 2 ^ sh) l).
Proof. intros HS Hi HE Hb H. exists (loc_of S sh). split; [eapply stands_at; eauto; lia | apply shift_round_code; lia]. Qed.

(** ** Placing the significand *)

Lemma clz_code x : 0 < x < 2 ^ 128 -> u128_clz x = 127 - Z.log2 x.
Proof.
  intros Hx. unfold u128_clz, clz64. rewrite Z.shiftr_div_pow2 by lia. destruct (Z.eqb_spec (x / 2 ^ 64) 0) as [E | E]; simpl.
  - apply Z.div_small_iff in E; [| done]. rewrite (proj2 (Z.eqb_neq x 0)) by lia. simpl. rewrite u64_small by lia. lia.
  - assert (0 <= x / 2 ^ 64) by (apply Z.div_pos; lia). rewrite u64_small by (split; [done | apply Z.div_lt_upper_bound; lia]).
    rewrite <- Z.shiftr_div_pow2, Z.log2_shiftr by lia.
    assert (64 <= Z.log2 x); [| lia]. apply Z.log2_le_pow2; [lia |]. destruct (decide (2 ^ 64 <= x)); [done |]. rewrite Z.div_small in E; lia.
Qed.

Lemma log2_bounds x n : 0 < x < 2 ^ n -> 0 <= Z.log2 x < n.
Proof.
  intros Hx. split; [apply Z.log2_nonneg |]. destruct (decide (0 <= n)); [apply Z.log2_lt_pow2; lia |]. rewrite Z.pow_neg_r in Hx; lia.
Qed.

Lemma left_justified x n : 0 < x < 2 ^ n -> 0 < n -> 2 ^ (n - 1) <= x * 2 ^ (n - 1 - Z.log2 x) < 2 ^ n.
Proof.
  intros Hx Hn. pose proof (log2_bounds x n Hx) as Hl. destruct (Z.log2_spec x) as [H1 H2]; [lia |]. rewrite Z.pow_succ_r in H2 by lia.
  pose proof (pow2_pos (n - 1 - Z.log2 x) ltac:(lia)). rewrite (pow2_split (n - 1 - Z.log2 x) (n - 1)) by lia.
  replace (2 ^ n) with (2 ^ (n - 1 - Z.log2 x) * (2 * 2 ^ Z.log2 x)) by (rewrite <- Z.pow_succ_r, <- Z.pow_add_r by lia; f_equal; lia).
  replace (n - 1 - (n - 1 - Z.log2 x)) with (Z.log2 x) by lia. nia.
Qed.

Lemma width_extra e : width (precision e) -> f80_precision_extra e = 64 - precision e.
Proof. unfold f80_precision_extra. by intros [-> | [-> | ->]]. Qed.

Lemma extra_inexact e b : f80_precision_extra (set_inexact e b) = f80_precision_extra e.
Proof. done. Qed.

Lemma width_bounds p : width p -> 24 <= p <= 64.
Proof. unfold width. lia. Qed.

Lemma choose_range m s k l : k <= choose m s k l <= k + 1.
Proof. unfold choose. destruct (goes_up m s k l); lia. Qed.

(** The flags the shift set are those of the result against the exact value. *)
Lemma at_flags c q k l m s : 0 < q -> at_quantum c q k l ->
  match l with Exact => false | _ => true end = negb (is_eq (c (choose m s k l * q))) /\ goes_up m s k l = is_lt (c (choose m s k l * q)).
Proof.
  intros Hq (H1 & H2 & ->). unfold choose. destruct (c (k * q)) eqn:E; [simpl; by rewrite E | done |].
  destruct (goes_up _ _ _ _); [by rewrite H2 | by rewrite E].
Qed.

Lemma rounded_flagged c q k l s e tiny b : 0 < q -> at_quantum c q k l ->
  let e' := rounded_env (set_inexact e false) s k l in
  set_inexact (if tiny && inexact e' then raise e' F80_EXC_UNDERFLOW else e') (b || inexact e) =
  set_inexact (flagged e (c (choose (rounding e) s k l * q)) tiny) (b || inexact e).
Proof.
  intros Hq Hat e'. destruct (at_flags c q k l (rounding e) s Hq Hat) as [F1 F2]. unfold e', rounded_env, flagged. simpl. rewrite F1, F2.
  by destruct tiny, (is_eq (c (choose (rounding e) s k l * q))).
Qed.

Lemma overflow_code s e : width (precision e) -> f80_overflow s (set_inexact e false) = overflowed s e /\
  forall k l, f80_overflow s (rounded_env (set_inexact e false) s k l) = overflowed s e.
Proof.
  destruct e as [m p x u y]. intros Hw. cbn [precision] in Hw. destruct Hw as [-> | [-> | ->]]; destruct m, s; split; intros; reflexivity.
Qed.

(** ** Packing *)

Lemma supported_normal f : in_range f -> exp f <> 0 -> f80_is_supported f = true <-> 2 ^ 63 <= signif f.
Proof.
  intros [Hs _] He. unfold f80_is_supported. rewrite (proj2 (Z.eqb_neq (exp f) EXP_DENORMAL)) by done. rewrite Z.shiftr_div_pow2 by lia.
  rewrite Z.eqb_eq. split; [intros E | intros]; [destruct (decide (2 ^ 63 <= signif f)); [done |]; rewrite Z.div_small in E; lia |].
  symmetry. apply Z.div_unique with (signif f - 2 ^ 63); lia.
Qed.

Lemma supported_denormal f : in_range f -> exp f = 0 -> f80_is_supported f = true <-> signif f < 2 ^ 63.
Proof.
  intros [Hs _] He. unfold f80_is_supported. rewrite (proj2 (Z.eqb_eq (exp f) EXP_DENORMAL)) by done. rewrite Z.shiftr_div_pow2 by lia.
  rewrite Z.eqb_eq, Z.div_small_iff by lia. lia.
Qed.

Lemma pack_signif p r : width p -> 0 <= r < 2 ^ p -> u64 (u128 (Z.shiftl r (64 - p))) = r * 2 ^ (64 - p) /\ 0 <= r * 2 ^ (64 - p) < 2 ^ 64.
Proof.
  intros Hw%width_bounds Hr. rewrite Z.shiftl_mul_pow2 by lia. pose proof (pow2_pos (64 - p) ltac:(lia)).
  assert (0 <= r * 2 ^ (64 - p) < 2 ^ 64) as Hb by (replace (2 ^ 64) with (2 ^ p * 2 ^ (64 - p)) by (rewrite <- Z.pow_add_r by lia; f_equal; lia); nia).
  split; [| done]. unfold u128, wrap. rewrite Z.mod_small by lia. by apply u64_small.
Qed.

Lemma pack_normal p r xp s : width p -> 2 ^ (p - 1) <= r < 2 ^ p -> unbias EXP_MIN <= xp <= unbias EXP_MAX ->
  let f := mk_f (u64 (u128 (Z.shiftl r (64 - p)))) (u15 (bias xp)) s in finite f /\ mag f = r * 2 ^ (64 - p + (xp - 63 + U)).
Proof.
  intros Hw Hr Hx f. pose proof (pow2_pos (p - 1)). pose proof (width_bounds p Hw). destruct (pack_signif p r Hw ltac:(lia)) as [E Hb].
  unfold unbias, EXP_MIN, EXP_MAX, BIAS80 in *. assert (u15 (bias xp) = xp + BIAS80) as Ex by (unfold u15, wrap, bias, BIAS80; apply Z.mod_small; lia).
  assert (in_range f) as Hf by (unfold in_range, f; simpl; rewrite E, Ex; unfold BIAS80; lia).
  assert (exp f = xp + BIAS80) as Ef by exact Ex. split.
  - split; [done |]. split; [apply (supported_normal f Hf); [rewrite Ef; unfold BIAS80; lia |] | rewrite Ef; unfold BIAS80, EXP_SPECIAL; lia].
    unfold f; simpl. rewrite E. replace (2 ^ 63) with (2 ^ (p - 1) * 2 ^ (64 - p)) by (rewrite <- Z.pow_add_r by lia; f_equal; lia). apply Z.mul_le_mono_nonneg_r; [apply Z.pow_nonneg; lia | lia].
  - unfold mag, unbias_denormal. rewrite Ef, (proj2 (Z.eqb_neq _ EXP_DENORMAL)) by (unfold BIAS80, EXP_DENORMAL; lia). unfold f; simpl. rewrite E.
    rewrite (Z.pow_add_r 2 (64 - p)) by (unfold U; lia). rewrite Z.mul_assoc. do 2 f_equal. unfold unbias. lia.
Qed.

Lemma pack_denormal p r s : width p -> 0 <= r < 2 ^ (p - 1) ->
  let f := mk_f (u64 (u128 (Z.shiftl r (64 - p)))) EXP_DENORMAL s in finite f /\ mag f = r * 2 ^ jmin p.
Proof.
  intros Hw Hr f. pose proof (width_bounds p Hw). assert (2 ^ p = 2 * 2 ^ (p - 1)) as E2 by (rewrite <- pow2_succ by lia; f_equal; lia).
  destruct (pack_signif p r Hw ltac:(lia)) as [E Hb]. assert (in_range f) as Hf by (unfold in_range, f, EXP_DENORMAL; simpl; rewrite E; lia). split.
  - split; [done |]. split; [apply (supported_denormal f Hf eq_refl) | done]. unfold f; simpl. rewrite E.
    replace (2 ^ 63) with (2 ^ (p - 1) * 2 ^ (64 - p)) by (rewrite <- Z.pow_add_r by lia; f_equal; lia). apply Z.mul_lt_mono_pos_r; [apply pow2_pos; lia | lia].
  - unfold mag, unbias_denormal, f, jmin. simpl. rewrite E, (Z.pow_add_r 2 (64 - p)) by (unfold U, unbias, EXP_MIN, BIAS80; lia). by rewrite Z.mul_assoc.
Qed.

(** ** The second half *)

Section path.
Context (c : cut) {Hc : Cut c} (s : bool) (e : fenv).
Hypothesis Hw : width (precision e).
Notation p := (precision e).
Notation e0 := (set_inexact e false).

Lemma extra0 : f80_precision_extra e0 = 64 - p.
Proof using Hw. rewrite extra_inexact. by apply width_extra. Qed.

(** The flags of a result that did not overflow. *)
Lemma tail_env k l q tiny : 0 < q -> at_quantum c q k l ->
  let e' := rounded_env e0 s k l in
  let e'' := if tiny && inexact e' then raise e' F80_EXC_UNDERFLOW else e' in
  set_inexact e'' (inexact e'' || inexact e) = flagged e (c (choose (rounding e) s k l * q)) tiny.
Proof using.
  intros Hq Hat. destruct (at_flags c q k l (rounding e) s Hq Hat) as [F1 F2]. unfold rounded_env, flagged. simpl. rewrite F1, F2.
  destruct tiny, (is_eq (c (choose (rounding e) s k l * q))); simpl; by rewrite ?orb_false_r, ?orb_true_r.
Qed.

Lemma carry_code r : 0 <= r <= 2 ^ p -> negb (Z.shiftr r (64 - (64 - p)) =? 0) = (r =? 2 ^ p).
Proof using Hw.
  intros Hr. pose proof (width_bounds p Hw). replace (64 - (64 - p)) with p by lia. rewrite Z.shiftr_div_pow2 by lia. pose proof (pow2_pos p ltac:(lia)).
  destruct (Z.eqb_spec r (2 ^ p)) as [-> | ?]; [by rewrite Z.div_same by lia | by rewrite Z.div_small by lia].
Qed.

(** Packing after a carry, or without one. *)
Definition packed (r : Z) (fexp : Z) : float80 :=
  let sg := u128 (Z.shiftl r (64 - p)) in
  mk_f (u64 sg) (if (fexp =? EXP_DENORMAL) && negb (Z.shiftr sg 63 =? 0) then EXP_MIN else fexp) s.

Lemma bias_code x : unbias EXP_MIN <= x <= unbias EXP_MAX + 1 -> u15 (bias x) = bias x /\ bias x <> EXP_DENORMAL.
Proof. unfold bias, unbias, EXP_MIN, EXP_MAX, EXP_DENORMAL, BIAS80. intros. split; [apply Z.mod_small; lia | lia]. Qed.

Lemma packed_normal r x : 2 ^ (p - 1) <= r < 2 ^ p -> unbias EXP_MIN <= x <= unbias EXP_MAX ->
  let j := 64 - p + (x - 63 + U) in
  finite (packed r (bias x)) /\ mag (packed r (bias x)) = r * 2 ^ j /\ r * 2 ^ j <= max_finite p.
Proof using Hw.
  intros Hr Hx j. destruct (bias_code x ltac:(lia)) as [Eb Hb]. destruct (pack_normal p r x s Hw Hr Hx) as [Hf Hm].
  unfold packed. rewrite (proj2 (Z.eqb_neq (bias x) EXP_DENORMAL)) by done. rewrite andb_false_l. rewrite Eb in Hf, Hm. split; [done |]. split; [done |].
  unfold max_finite, j. pose proof (width_bounds p Hw). pose proof (pow2_pos (p - 1) ltac:(lia)).
  apply Z.mul_le_mono_nonneg; [lia | lia | apply Z.pow_nonneg; lia | apply Z.pow_le_mono_r; lia].
Qed.

Lemma packed_carry x : unbias EXP_MIN <= x <= unbias EXP_MAX ->
  let j := 64 - p + (x - 63 + U) in
  u15 (u15 (bias x) + 1) = bias (x + 1) /\
  (if bias (x + 1) >? EXP_MAX then max_finite p < 2 ^ p * 2 ^ j
   else finite (packed (Z.shiftr (2 ^ p) 1) (bias (x + 1))) /\ mag (packed (Z.shiftr (2 ^ p) 1) (bias (x + 1))) = 2 ^ p * 2 ^ j /\ 2 ^ p * 2 ^ j <= max_finite p).
Proof using Hw.
  intros Hx j. destruct (bias_code x ltac:(lia)) as [Eb Hb]. destruct (bias_code (x + 1) ltac:(lia)) as [Eb' Hb']. pose proof (width_bounds p Hw). pose proof (pow2_pos (p - 1) ltac:(lia)).
  split; [rewrite Eb, <- Eb'; f_equal; unfold bias; lia |]. destruct (Z.gtb_spec (bias (x + 1)) EXP_MAX) as [Ho | Hno].
  - unfold max_finite, j. assert (x = unbias EXP_MAX) as -> by (unfold bias, unbias, EXP_MAX, BIAS80 in *; lia).
    apply Z.mul_lt_mono_pos_r; [apply pow2_pos; unfold U, unbias, EXP_MAX, BIAS80; lia | lia].
  - rewrite Z.shiftr_div_pow2 by lia. replace (2 ^ p / 2 ^ 1) with (2 ^ (p - 1)) by (rewrite Z.pow_sub_r by lia; done).
    destruct (packed_normal (2 ^ (p - 1)) (x + 1)) as (Hf & Hm & Hle); [split; [lia | apply Z.pow_lt_mono_r; lia] | unfold bias, unbias, EXP_MAX, BIAS80 in *; lia |].
    assert (2 ^ p * 2 ^ j = 2 ^ (p - 1) * 2 ^ (64 - p + (x + 1 - 63 + U))) as -> by (unfold j; rewrite <- !Z.pow_add_r by (unfold U, unbias, EXP_MIN, BIAS80 in *; lia); f_equal; lia). auto.
Qed.

Lemma min_normal_le r j : 2 ^ (p - 1) <= r -> jmin p <= j -> min_normal <= r * 2 ^ j.
Proof using Hw.
  intros Hr Hj. pose proof (width_bounds p Hw). unfold min_normal. replace (unbias EXP_MIN + U) with (p - 1 + jmin p) by (unfold jmin; lia).
  rewrite Z.pow_add_r by (unfold jmin, U, unbias, EXP_MIN, BIAS80; lia).
  apply Z.mul_le_mono_nonneg; [apply Z.pow_nonneg; lia | lia | apply Z.pow_nonneg; lia | apply Z.pow_le_mono_r; lia].
Qed.

Lemma div_range S a b d : 2 ^ a <= S < 2 ^ b -> 0 <= d <= a -> a <= b -> 2 ^ (a - d) <= S / 2 ^ d < 2 ^ (b - d).
Proof.
  intros HS Hd Hab. pose proof (pow2_pos d ltac:(lia)). rewrite (pow2_split d a), (pow2_split d b) in HS by lia.
  split; [apply Z.div_le_lower_bound | apply Z.div_lt_upper_bound]; lia.
Qed.

Lemma round_normal i S x : 2 ^ 127 <= S < 2 ^ 128 -> 0 <= i <= 63 -> stands i c S (place x) -> unbias EXP_MIN <= x <= unbias EXP_MAX ->
  delivers s c e (round_placed S x false s (inexact e) e0).
Proof using All.
  intros HS Hi Hst Hx. pose proof (width_bounds p Hw) as Hp. unfold round_placed. rewrite extra0.
  assert (0 <= place x) as HE by (unfold place, U, unbias, EXP_MIN, BIAS80 in *; lia).
  destruct (stands_round i c S (place x) (64 + (64 - p)) s e0) as (l & Hat & ->); [lia | lia | done | lia | done |].
  pose proof (div_range S 127 128 (64 + (64 - p)) ltac:(lia) ltac:(lia) ltac:(lia)) as Hk. replace (127 - _) with (p - 1) in Hk by lia. replace (128 - _) with p in Hk by lia.
  set (k := S / 2 ^ (64 + (64 - p))) in *. replace (place x + (64 + (64 - p))) with (64 - p + (x - 63 + U)) in Hat by (unfold place; lia). set (j := 64 - p + (x - 63 + U)) in *.
  assert (jmin p <= j) as Hj by (unfold j, jmin in *; lia). assert (1 <= jmin p - 1) as Hjm by (unfold jmin, unbias, EXP_MIN, BIAS80, U; lia).
  pose proof (pow2_pos (p - 1) ltac:(lia)) as Hpp. pose proof (rounds_at (rounding e) s p (jmin p) c j k l ltac:(lia) ltac:(lia) Hj ltac:(lia) ltac:(lia) Hat) as HR.
  pose proof (rounds_at (rounding e) s p (jmin p - 1) c j k l ltac:(lia) ltac:(lia) ltac:(lia) ltac:(lia) ltac:(lia) Hat) as HT.
  pose proof (tail_env k l (2 ^ j) false (pow2_pos j ltac:(lia)) Hat) as Ht. cbn [rounding set_inexact] in *.
  pose proof (choose_range (rounding e) s k l) as Hr. set (r := choose (rounding e) s k l) in *. exists (r * 2 ^ j), (r * 2 ^ j). split; [done |]. split; [done |].
  rewrite carry_code by lia. rewrite (proj2 (Z.ltb_ge (r * 2 ^ j) min_normal)) by (apply min_normal_le; lia).
  destruct (Z.eqb_spec r (2 ^ p)) as [Er | Er].
  - rewrite Er in *. destruct (packed_carry x Hx) as [-> Hcase]. fold j in Hcase. rewrite andb_true_l. destruct (bias (x + 1) >? EXP_MAX).
    + rewrite (proj2 (overflow_code s e Hw) k l). by rewrite (proj2 (Z.leb_gt _ _) Hcase).
    + destruct Hcase as (Hf & Hm & Hle). rewrite (proj2 (Z.leb_le _ _) Hle). split; [exact Hf |]. split; [done |]. split; [exact Hm | exact Ht].
  - rewrite andb_false_l. rewrite (proj1 (bias_code x ltac:(lia))). destruct (packed_normal r x ltac:(lia) Hx) as (Hf & Hm & Hle).
    fold j in Hm, Hle. rewrite (proj2 (Z.leb_le _ _) Hle). split; [exact Hf |]. split; [done |]. split; [exact Hm | exact Ht].
Qed.
Lemma packed_denormal r : 0 <= r <= 2 ^ (p - 1) ->
  finite (packed r EXP_DENORMAL) /\ mag (packed r EXP_DENORMAL) = r * 2 ^ jmin p /\ r * 2 ^ jmin p <= max_finite p.
Proof using Hw.
  intros Hr. pose proof (width_bounds p Hw) as Hp. assert (2 ^ p = 2 * 2 ^ (p - 1)) as E2 by (rewrite <- pow2_succ by lia; f_equal; lia). pose proof (pow2_pos (p - 1) ltac:(lia)).
  assert (0 <= jmin p) by (unfold jmin, U, unbias, EXP_MIN, BIAS80; lia).
  assert (r * 2 ^ jmin p <= max_finite p) as Hle.
  { unfold max_finite. apply Z.mul_le_mono_nonneg; [lia | lia | apply Z.pow_nonneg; lia | apply Z.pow_le_mono_r; [lia |]]. unfold jmin, unbias, EXP_MIN, EXP_MAX; lia. }
  destruct (pack_signif p r Hw ltac:(lia)) as [Es Hb]. assert (u128 (Z.shiftl r (64 - p)) = r * 2 ^ (64 - p)) as Eu.
  { rewrite Z.shiftl_mul_pow2 by lia. apply Z.mod_small. lia. }
  unfold packed. rewrite Eu, Z.eqb_refl, andb_true_l, Z.shiftr_div_pow2 by lia. destruct (decide (r = 2 ^ (p - 1))) as [Er | Hne].
  - assert (r * 2 ^ (64 - p) = 2 ^ 63) as E3 by (rewrite Er, <- Z.pow_add_r by lia; f_equal; lia).
    destruct (packed_normal r (unbias EXP_MIN)) as (Hf & Hm & _); [lia | unfold unbias, EXP_MIN, EXP_MAX; lia |].
    unfold packed in Hf, Hm. rewrite Eu in Hf, Hm. change (bias (unbias EXP_MIN) =? EXP_DENORMAL) with false in *. rewrite andb_false_l in *.
    replace (r * 2 ^ (64 - p) / 2 ^ 63 =? 0) with false by (rewrite E3; done). done.
  - destruct (pack_denormal p r s Hw ltac:(lia)) as [Hf Hm]. rewrite Eu in Hf, Hm. rewrite Z.div_small; [done |]. split; [lia |].
    replace (2 ^ 63) with (2 ^ (p - 1) * 2 ^ (64 - p)) by (rewrite <- Z.pow_add_r by lia; f_equal; lia). apply Z.mul_lt_mono_pos_r; [apply pow2_pos; lia | lia].
Qed.

Lemma round_denormal i S T : 0 <= S < 2 ^ 127 -> 0 <= i <= 62 -> stands i c S (place (unbias EXP_MIN)) ->
  rounds (rounding e) s p (jmin p - 1) c T ->
  delivers s c e (round_placed S (unbias EXP_DENORMAL) (T <? min_normal) s (inexact e) e0).
Proof using All.
  intros HS Hi Hst HT. pose proof (width_bounds p Hw) as Hp. unfold round_placed. rewrite extra0.
  destruct (stands_round i c S (place (unbias EXP_MIN)) (64 + (64 - p)) s e0) as (l & Hat & ->); [lia | lia | done | lia | done |].
  assert (0 <= S / 2 ^ (64 + (64 - p)) < 2 ^ (p - 1)) as Hk.
  { split; [apply Z.div_pos; [lia | apply pow2_pos; lia] |]. apply Z.div_lt_upper_bound; [apply pow2_pos; lia |]. rewrite <- Z.pow_add_r by lia. replace (64 + (64 - p) + (p - 1)) with 127 by lia. lia. }
  set (k := S / 2 ^ (64 + (64 - p))) in *. replace (place (unbias EXP_MIN) + (64 + (64 - p))) with (jmin p) in Hat by (unfold place, jmin; lia).
  assert (1 <= jmin p - 1) as Hjm by (unfold jmin, unbias, EXP_MIN, BIAS80, U; lia).
  assert (2 ^ p = 2 * 2 ^ (p - 1)) as E2 by (rewrite <- pow2_succ by lia; f_equal; lia).
  pose proof (rounds_at (rounding e) s p (jmin p) c (jmin p) k l ltac:(lia) ltac:(lia) ltac:(lia) ltac:(lia) ltac:(lia) Hat) as HR.
  pose proof (tail_env k l (2 ^ jmin p) (T <? min_normal) (pow2_pos (jmin p) ltac:(lia)) Hat) as Ht. cbn [rounding set_inexact] in *.
  pose proof (choose_range (rounding e) s k l) as Hr. set (r := choose (rounding e) s k l) in *. exists (r * 2 ^ jmin p), T. split; [done |]. split; [done |].
  rewrite carry_code by lia. rewrite (proj2 (Z.eqb_neq r (2 ^ p))) by lia. rewrite andb_false_l. change (u15 (bias (unbias EXP_DENORMAL))) with EXP_DENORMAL.
  destruct (packed_denormal r ltac:(lia)) as (Hf & Hm & Hle). rewrite (proj2 (Z.leb_le _ _) Hle). split; [exact Hf |]. split; [done |]. split; [exact Hm | exact Ht].
Qed.
(** ** The first half *)

Lemma at_quantum_fun q k l k' l' : 0 < q -> at_quantum c q k l -> at_quantum c q k' l' -> k = k' /\ l = l'.
Proof using Hc.
  intros Hq (H1 & H2 & H3) (H1' & H2' & H3'). assert (k = k') as <-; [| split; congruence].
  pose proof (cut_order_lt c _ _ H1 H2'). pose proof (cut_order_lt c _ _ H1' H2). nia.
Qed.

(** The significand of a number below the normal range, where it is placed. *)
Definition lowered (sg xp : Z) : Z :=
  if xp >? unbias EXP_MIN then u128 (Z.shiftl sg (xp - unbias EXP_MIN)) else u128_shift_right_sticky sg (unbias EXP_MIN - xp).

Lemma sticky_lt S d b : 0 <= S < 2 ^ b -> 1 <= d -> 1 < b -> 0 <= sticky S d < 2 ^ (b - 1).
Proof using.
  intros HS Hd Hb. pose proof (pow2_pos d ltac:(lia)). assert (0 <= S / 2 ^ d) by (apply Z.div_pos; lia).
  assert (2 ^ b = 2 * 2 ^ (b - 1)) as E1 by (rewrite <- pow2_succ by lia; f_equal; lia). assert (2 ^ (b - 1) = 2 * 2 ^ (b - 2)) as E2 by (rewrite <- pow2_succ by lia; f_equal; lia).
  assert (S / 2 ^ d < 2 ^ (b - 1)) by (apply Z.div_lt_upper_bound; [lia |]; assert (2 ^ 1 <= 2 ^ d) by (apply Z.pow_le_mono_r; lia); nia).
  rewrite sticky_val. destruct (S mod 2 ^ d =? 0); [lia |]. destruct (Z.even (S / 2 ^ d)) eqn:Ev; simpl; [| lia].
  apply Z.even_spec in Ev as [h Eh]. lia.
Qed.

Lemma lowered_stands i sg xp : 0 < sg < 2 ^ 128 -> 0 <= i <= 61 -> - 100000 <= xp <= 100000 ->
  let z := 127 - Z.log2 sg in stands i c (sg * 2 ^ z) (place (xp - z)) -> xp - z < unbias EXP_MIN ->
  0 <= lowered sg xp < 2 ^ 127 /\ stands (Z.max 1 i) c (lowered sg xp) (place (unbias EXP_MIN)).
Proof using.
  intros Hsg Hi Hxp z Hst Hlow. pose proof (log2_bounds sg 128 Hsg) as Hl. pose proof (left_justified sg 128 Hsg ltac:(lia)) as Hj. replace (128 - 1 - Z.log2 sg) with z in Hj by lia.
  assert (0 <= place (xp - z)) as HE by (unfold place, U; lia). assert (0 <= place (unbias EXP_MIN)) as HE' by done. assert (0 <= place xp) by (unfold place, U; lia). unfold lowered. destruct (Z.gtb_spec xp (unbias EXP_MIN)) as [Hgt | Hle].
  - set (a := xp - unbias EXP_MIN) in *. assert (sg * 2 ^ z = sg * 2 ^ a * 2 ^ (z - a)) as E by (rewrite <- Z.mul_assoc, <- Z.pow_add_r by lia; do 2 f_equal; lia).
    assert (0 <= sg * 2 ^ a < 2 ^ 127) as Hb.
    { pose proof (pow2_pos a ltac:(lia)). split; [nia |]. rewrite E in Hj. assert (2 ^ 1 <= 2 ^ (z - a)) by (apply Z.pow_le_mono_r; lia). nia. }
    rewrite Z.shiftl_mul_pow2 by lia. replace (u128 (sg * 2 ^ a)) with (sg * 2 ^ a) by (symmetry; apply Z.mod_small; lia). split; [done |].
    rewrite E in Hst. apply stands_down in Hst; [| lia | lia | done]. replace (place (xp - z) + (z - a)) with (place (unbias EXP_MIN)) in Hst by (unfold place, a; lia).
    apply (stands_coarse (Z.max 0 (i - (z - a)))); [lia | done | done].
  - rewrite sticky_code by lia. apply stands_down in Hst; [| lia | lia | done]. replace (place (xp - z) + z) with (place xp) in Hst by (unfold place; lia).
    apply (stands_sticky _ _ _ _ (unbias EXP_MIN - xp)) in Hst; [| lia | lia | done]. replace (place xp + (unbias EXP_MIN - xp)) with (place (unbias EXP_MIN)) in Hst by (unfold place; lia).
    split; [| apply (stands_coarse (Z.max 1 (Z.max 0 (i - z) - (unbias EXP_MIN - xp)))); [lia | done | done]].
    destruct (decide (xp = unbias EXP_MIN)) as [Ex | Hne].
    + rewrite Ex, Z.sub_diag. unfold sticky, fold_sticky. change (2 ^ 0) with 1. rewrite Z.div_1_r, Z.mod_1_r. simpl Z.b2z. rewrite Z.lor_0_r. split; [lia |]. apply Z.log2_lt_pow2; lia.
    + apply (sticky_lt sg (unbias EXP_MIN - xp) 128); lia.
Qed.

(** Tininess, as the code decides it. *)
Definition tiny_code (sg xp : Z) : bool :=
  let shift := u128_clz sg in
  if xp - shift =? unbias EXP_MIN - 1 then
    let '(r, _) := u128_shift_right_round (u128 (Z.shiftl sg shift)) (64 + f80_precision_extra e0) s e0 in Z.shiftr r (64 - f80_precision_extra e0) =? 0
  else true.

Lemma tiny_correct i sg xp : 0 < sg < 2 ^ 128 -> 0 <= i <= 61 -> - 100000 <= xp <= 100000 ->
  let z := 127 - Z.log2 sg in stands i c (sg * 2 ^ z) (place (xp - z)) -> xp - z < unbias EXP_MIN ->
  exists T, rounds (rounding e) s p (jmin p - 1) c T /\ tiny_code sg xp = (T <? min_normal).
Proof using All.
  intros Hsg Hi Hxp z Hst Hlow. pose proof (width_bounds p Hw) as Hp. destruct (lowered_stands i sg xp Hsg Hi Hxp Hst Hlow) as [Hb Hst'].
  assert (1 <= jmin p - 1) as Hjm by (unfold jmin, unbias, EXP_MIN, BIAS80, U; lia). pose proof (pow2_pos (jmin p - 1) ltac:(lia)) as Hq.
  assert (at_quantum c (2 ^ (jmin p - 1)) (lowered sg xp / 2 ^ (63 + (64 - p))) (loc_of (lowered sg xp) (63 + (64 - p)))) as Hat.
  { replace (jmin p - 1) with (place (unbias EXP_MIN) + (63 + (64 - p))) by (unfold place, jmin; lia). apply (stands_at (Z.max 1 i)); [lia | lia | done | done]. }
  set (k := lowered sg xp / 2 ^ (63 + (64 - p))) in *. set (l := loc_of _ _) in *.
  assert (0 <= k < 2 ^ p) as Hk.
  { unfold k. split; [apply Z.div_pos; [lia | apply pow2_pos; lia] |]. apply Z.div_lt_upper_bound; [apply pow2_pos; lia |]. rewrite <- Z.pow_add_r by lia. replace (63 + (64 - p) + p) with 127 by lia. lia. }
  exists (choose (rounding e) s k l * 2 ^ (jmin p - 1)). split; [apply rounds_at; auto; lia |].
  assert (min_normal = 2 ^ p * 2 ^ (jmin p - 1)) as -> by (unfold min_normal; rewrite <- Z.pow_add_r by lia; f_equal; unfold jmin; lia).
  pose proof (log2_bounds sg 128 Hsg) as Hl. pose proof (left_justified sg 128 Hsg ltac:(lia)) as Hj. replace (128 - 1 - Z.log2 sg) with z in Hj by lia.
  assert (0 <= place (xp - z)) as HE by (unfold place, U; lia). pose proof (choose_range (rounding e) s k l) as Hr.
  unfold tiny_code. rewrite clz_code by done. fold z. rewrite extra0. destruct (Z.eqb_spec (xp - z) (unbias EXP_MIN - 1)) as [Ex | Hne].
  - rewrite Z.shiftl_mul_pow2 by lia. replace (u128 (sg * 2 ^ z)) with (sg * 2 ^ z) by (symmetry; apply Z.mod_small; lia).
    destruct (stands_round i c (sg * 2 ^ z) (place (xp - z)) (64 + (64 - p)) s e0) as (l' & Hat' & ->); [lia | lia | done | lia | done |].
    replace (place (xp - z) + (64 + (64 - p))) with (jmin p - 1) in Hat' by (rewrite Ex; unfold place, jmin; lia).
    destruct (at_quantum_fun _ _ _ _ _ Hq Hat' Hat) as [-> ->]. cbn [rounding set_inexact]. pose proof (carry_code (choose (rounding e) s k l) ltac:(lia)) as Ec.
    apply (f_equal negb) in Ec. rewrite negb_involutive in Ec. rewrite Ec. destruct (Z.eqb_spec (choose (rounding e) s k l) (2 ^ p)) as [-> | ?]; symmetry; [apply Z.ltb_ge; lia | apply Z.ltb_lt; apply Z.mul_lt_mono_pos_r; lia].
  - symmetry. apply Z.ltb_lt. apply Z.mul_lt_mono_pos_r; [done |].
    assert (2 ^ p = 2 * 2 ^ (p - 1)) as E2 by (rewrite <- pow2_succ by lia; f_equal; lia). pose proof (pow2_pos (p - 1) ltac:(lia)).
    assert (c (2 ^ (128 - i) * 2 ^ (i + place (xp - z))) = Lt) as E1 by (rewrite Hst, <- Z.pow_add_r by lia; replace (128 - i + i) with 128 by lia; apply Z.compare_lt_iff; lia).
    rewrite <- Z.pow_add_r in E1 by lia. replace (128 - i + (i + place (xp - z))) with (128 + place (xp - z)) in E1 by lia.
    pose proof (cut_order_lt c _ _ (proj1 Hat) E1) as Hlt.
    assert (2 ^ (128 + place (xp - z)) <= 2 ^ (p - 1) * 2 ^ (jmin p - 1)) by (rewrite <- Z.pow_add_r by lia; apply Z.pow_le_mono_r; [lia |]; unfold place, jmin; lia).
    assert (k < 2 ^ (p - 1)); [| lia]. apply (Z.mul_lt_mono_pos_r (2 ^ (jmin p - 1))); lia.
Qed.

Lemma overflow_delivers i S x : 2 ^ 127 <= S < 2 ^ 128 -> 0 <= i <= 62 -> stands i c S (place x) -> unbias EXP_MAX < x ->
  delivers s c e (f80_overflow s e0).
Proof using All.
  intros HS Hi Hst Hx. pose proof (width_bounds p Hw) as Hp. rewrite (proj1 (overflow_code s e Hw)).
  assert (0 <= place x) as HE by (unfold place, U, unbias, EXP_MAX, BIAS80 in *; lia).
  pose proof (stands_at i c S (place x) (64 + (64 - p)) ltac:(lia) ltac:(lia) HE Hst) as Hat.
  pose proof (div_range S 127 128 (64 + (64 - p)) ltac:(lia) ltac:(lia) ltac:(lia)) as Hk. replace (127 - _) with (p - 1) in Hk by lia. replace (128 - _) with p in Hk by lia.
  set (k := S / 2 ^ (64 + (64 - p))) in *. set (l := loc_of _ _) in *. set (j := place x + (64 + (64 - p))) in *.
  assert (jmin p <= j) as Hj by (unfold j, jmin, place, unbias, EXP_MAX, EXP_MIN in *; lia). assert (1 <= jmin p - 1) as Hjm by (unfold jmin, unbias, EXP_MIN, BIAS80, U; lia).
  pose proof (pow2_pos (p - 1) ltac:(lia)) as Hpp. exists (choose (rounding e) s k l * 2 ^ j), (choose (rounding e) s k l * 2 ^ j).
  split; [apply rounds_at; auto; lia |]. split; [apply rounds_at; auto; lia |]. pose proof (choose_range (rounding e) s k l) as Hr.
  rewrite (proj2 (Z.leb_gt _ (max_finite p))); [done |]. apply Z.lt_le_trans with (2 ^ (p - 1) * 2 ^ j); [| apply Z.mul_le_mono_nonneg_r; [apply Z.pow_nonneg; lia | lia]].
  unfold max_finite. apply Z.lt_le_trans with (2 ^ p * 2 ^ (64 - p + (unbias EXP_MAX - 63 + U))); [apply Z.mul_lt_mono_pos_r; [apply pow2_pos; unfold U, unbias, EXP_MAX, BIAS80; lia | lia] |].
  rewrite <- !Z.pow_add_r by (unfold U, unbias, EXP_MAX, BIAS80 in *; lia). apply Z.pow_le_mono_r; [lia |]. unfold j, place. lia.
Qed.

(** Every result of the rounding path is the correct rounding of the exact value. *)
Theorem normalize_round_delivers i sg xp : 0 < sg < 2 ^ 128 -> 0 <= i <= 61 -> - 100000 <= xp <= 100000 ->
  let z := 127 - Z.log2 sg in stands i c (sg * 2 ^ z) (place (xp - z)) ->
  delivers s c e (u128_normalize_round sg xp s e).
Proof using All.
  intros Hsg Hi Hxp z Hst. pose proof (log2_bounds sg 128 Hsg) as Hl. pose proof (left_justified sg 128 Hsg ltac:(lia)) as Hj. replace (128 - 1 - Z.log2 sg) with z in Hj by lia.
  unfold u128_normalize_round, place_signif. rewrite (proj2 (Z.eqb_neq sg 0)) by lia. rewrite (clz_code sg) by done. fold z. destruct (Z.ltb_spec (xp - z) (unbias EXP_MIN)) as [Hlow | Hge].
  - destruct (tiny_correct i sg xp Hsg Hi Hxp Hst Hlow) as (T & HT & Et). destruct (lowered_stands i sg xp Hsg Hi Hxp Hst Hlow) as [Hb Hst'].
    unfold tiny_code in Et. rewrite clz_code in Et by done. fold z in Et. rewrite Et. fold (lowered sg xp). apply (round_denormal (Z.max 1 i)); [done | lia | done | done].
  - destruct (Z.gtb_spec (xp - z) (unbias EXP_MAX)) as [Ho | Hno]; [apply (overflow_delivers i (sg * 2 ^ z) (xp - z)); [done | lia | done | done] |].
    rewrite Z.shiftl_mul_pow2 by lia. replace (u128 (sg * 2 ^ z)) with (sg * 2 ^ z) by (symmetry; apply Z.mod_small; lia).
    apply (round_normal i); [done | lia | done | lia].
Qed.

(** In the normal range the half bit and a sticky bit are enough. *)
Lemma normal_delivers i sg xp : 2 ^ 127 <= sg < 2 ^ 128 -> 0 <= i <= 63 -> unbias EXP_MIN <= xp <= unbias EXP_MAX -> stands i c sg (place xp) ->
  delivers s c e (u128_normalize_round sg xp s e).
Proof using All.
  intros Hsg Hi Hxp Hst. unfold u128_normalize_round, place_signif. rewrite (proj2 (Z.eqb_neq sg 0)), (clz_code sg) by lia. replace (127 - Z.log2 sg) with 0 by (rewrite (Z.log2_unique sg 127); lia).
  rewrite Z.sub_0_r, (proj2 (Z.ltb_ge xp _)) by lia. replace (xp >? unbias EXP_MAX) with false by lia. rewrite Z.shiftl_0_r. replace (u128 sg) with sg by (symmetry; apply Z.mod_small; lia).
  by apply (round_normal i).
Qed.
End path.

(** An operation sees the exact value only through multiples of a quarter of
    the lowest place. *)
Lemma delivers_agree s c c' e r : width (precision e) -> (forall t, c (t * 2 ^ (jmin (precision e) - 2)) = c' (t * 2 ^ (jmin (precision e) - 2))) ->
  delivers s c e r -> delivers s c' e r.
Proof.
  intros Hw Hag (R & T & HR & HT & H). pose proof (width_bounds _ Hw). assert (3 <= jmin (precision e)) as Hj by (unfold jmin, unbias, EXP_MIN, BIAS80, U; lia). set (j := jmin (precision e)) in *.
  assert (forall i t, j - 2 <= i -> c (t * 2 ^ i) = c' (t * 2 ^ i)) as Hag' by (intros i t Hi; rewrite (pow2_split (j - 2) i), (Z.mul_comm (2 ^ (j - 2))), Z.mul_assoc by lia; apply Hag).
  exists R, T. split; [apply (rounds_agree _ _ _ _ c); [lia | intros t; apply Hag'; lia | done] |]. split; [apply (rounds_agree _ _ _ _ c); [lia | intros t; apply Hag'; lia | done] |].
  destruct (R <=? max_finite (precision e)); [| done]. destruct HR as [HF _]. apply format_multiple in HF as (t & ->); [| lia]. by rewrite <- (Hag' j t) by lia.
Qed.
