(* ===== verification/Float80Arith.v ===== *)
(** The arithmetic of emu/float80.c is correctly rounded.

    For finite operands, [f80_add] (and [f80_sub]), [f80_mul] and [f80_div]
    return the exact sum, product or quotient rounded once, in the current
    mode and precision, with the flags that go with it ([delivers]).  The
    operands that have no such result are at the end. *)

From Stdlib Require Import ZifyBool.
From S2P Require Import Prelude Rounding Float80 Float80Sound.

(** The signed value, in units. *)
Definition val (f : float80) : Z := if sign f then - mag f else mag f.

(** ** What the code knows about the exact value *)

Section entries.
Context (c : cut) {Hc : Cut c} (s : bool) (e : fenv).
Hypothesis Hw : width (precision e).

(** The significand is the exact value. *)
Lemma exact_delivers sg xp : 0 < sg < 2 ^ 128 -> - 100000 <= xp <= 100000 -> (forall n, c n = (sg * 2 ^ place xp ?= n)) ->
  delivers s c e (u128_normalize_round sg xp s e).
Proof using All.
  intros Hsg Hxp Hex. pose proof (log2_bounds sg 128 Hsg). apply (normalize_round_delivers c s e Hw 0); [done | lia | done |].
  apply exact_stands; [unfold place, U; lia |]. intros n. rewrite Hex, <- Z.mul_assoc, <- Z.pow_add_r by (unfold place, U; lia). do 3 f_equal. unfold place. lia.
Qed.

(** The significand has its leading bit near the top and may be sticky. *)
Lemma sticky_delivers i sg xp : 2 ^ 126 <= sg < 2 ^ 128 -> 0 <= i <= 60 -> - 100000 <= xp <= 100000 -> stands i c sg (place xp) ->
  delivers s c e (u128_normalize_round sg xp s e).
Proof using All.
  intros Hsg Hi Hxp Hst. pose proof (log2_bounds sg 128 ltac:(lia)). assert (126 <= Z.log2 sg) by (apply Z.log2_le_pow2; lia).
  apply (normalize_round_delivers c s e Hw (i + (127 - Z.log2 sg))); [lia | lia | done |].
  replace (place (xp - (127 - Z.log2 sg))) with (place xp - (127 - Z.log2 sg)) by (unfold place; lia). apply stands_up; [lia | lia | done].
Qed.

Lemma zero_rounds m p j : 0 <= p -> 1 <= j -> c 0 = Eq -> rounds m s p j c 0.
Proof using Hc.
  intros Hp Hj E. apply rounds_self; [done | done | | done]. exists 0, j. pose proof (pow2_pos p Hp). lia.
Qed.

Lemma zero_delivers : c 0 = Eq -> delivers s c e (mk_f 0 0 s, e).
Proof using All.
  intros E. pose proof (width_bounds _ Hw). assert (2 <= jmin (precision e)) by (unfold jmin, unbias, EXP_MIN, BIAS80, U; lia).
  exists 0, 0. split; [apply zero_rounds; auto; lia |]. split; [apply zero_rounds; auto; lia |].
  rewrite (proj2 (Z.leb_le 0 (max_finite (precision e)))).
  2: { unfold max_finite. pose proof (pow2_pos (precision e) ltac:(lia)). apply Z.mul_nonneg_nonneg; [lia | apply Z.pow_nonneg; lia]. }
  split; [by vm_compute |]. split; [done |]. split; [apply Z.mul_0_l |]. unfold flagged. rewrite E. cbn [is_eq is_lt negb snd]. rewrite andb_false_r, !orb_false_r. by destruct e.
Qed.

Lemma delivers_supported r : delivers s c e r -> f80_is_supported (fst r) = true.
Proof using Hw.
  intros (R & T & _ & _ & H). destruct (R <=? max_finite (precision e)); [apply H |]. subst r. unfold overflowed. simpl.
  destruct Hw as [-> | [-> | ->]]; by destruct (direct (rounding e) s).
Qed.

(** The two steps of a function that sets the sign again. *)
Lemma delivers_sign r : delivers s c e r -> delivers s c e (set_sign (fst r) s, snd r).
Proof using.
  intros (R & T & H1 & H2 & H). exists R, T. split; [done |]. split; [done |]. destruct (R <=? max_finite (precision e)).
  - destruct H as (Hf & Es & Hm & Hs). simpl. rewrite <- Es. by destruct (fst r).
  - subst r. unfold overflowed. simpl. by destruct (direct (rounding e) s).
Qed.
End entries.

(** ** Finite operands *)

Lemma finite_not_nan f : finite f -> f80_isnan f = false.
Proof. intros (_ & _ & H). unfold f80_isnan. by rewrite (proj2 (Z.eqb_neq _ _) H). Qed.
Lemma finite_not_inf f : finite f -> f80_isinf f = false.
Proof. intros (_ & _ & H). unfold f80_isinf. by rewrite (proj2 (Z.eqb_neq _ _) H). Qed.

Lemma finite_handle a b e : finite a -> finite b -> handle_nans a b e = None.
Proof.
  intros Ha Hb. unfold handle_nans, f80_issnan. rewrite (finite_not_nan a Ha), (finite_not_nan b Hb). rewrite (proj1 (proj2 Ha)), (proj1 (proj2 Hb)). simpl. by rewrite (finite_not_nan a Ha), (finite_not_nan b Hb).
Qed.

Lemma exp_bounds f : finite f -> unbias EXP_MIN <= unbias_denormal (exp f) <= unbias EXP_MAX.
Proof.
  intros ((_ & H) & _ & Hn). unfold unbias_denormal, unbias, EXP_MIN, EXP_MAX, EXP_DENORMAL, EXP_SPECIAL in *. destruct (Z.eqb_spec (exp f) 0); lia.
Qed.

Lemma iszero_mag f : finite f -> f80_iszero f = (mag f =? 0).
Proof.
  intros Hf. pose proof (exp_bounds f Hf) as He. destruct Hf as ((Hs & He') & Hsup & _). unfold f80_iszero, mag.
  assert (0 < 2 ^ (unbias_denormal (exp f) - 63 + U)) by (apply pow2_pos; unfold U, unbias, EXP_MIN, BIAS80 in *; lia).
  destruct (Z.eqb_spec (signif f) 0) as [E | E].
  - rewrite E, Z.mul_0_l, Z.eqb_refl, andb_true_r. unfold f80_is_supported in Hsup. rewrite E in Hsup. destruct (exp f =? EXP_DENORMAL); done.
  - rewrite andb_false_r. symmetry. apply Z.eqb_neq. nia.
Qed.

Lemma mag_nonneg f : finite f -> 0 <= mag f.
Proof. intros Hf. apply Z.mul_nonneg_nonneg; [apply Hf | apply Z.pow_nonneg; lia]. Qed.

Lemma place_nonneg xp : - 100000 <= xp -> 0 <= place xp.
Proof. unfold place, U. lia. Qed.

(** Where bit 0 of a finite number lies. *)
Definition low (f : float80) : Z := unbias_denormal (exp f) - 63 + U.

Lemma low_nonneg f : finite f -> 100000 <= low f.
Proof. intros H%exp_bounds. unfold low, U. unfold unbias, EXP_MIN, BIAS80 in H. lia. Qed.

Lemma exp_range f : finite f -> - 20000 <= unbias_denormal (exp f) <= 20000.
Proof. intros H%exp_bounds. unfold unbias, EXP_MIN, EXP_MAX, BIAS80 in H. lia. Qed.

Lemma U_nonneg : 0 <= U.
Proof. done. Qed.

(** ** A result is determined by what it delivers *)

Lemma low_signif f : finite f -> exp f <> 0 -> 2 ^ 63 <= signif f.
Proof. intros (Hr & Hs & _) He. by apply (supported_normal f Hr He). Qed.

Lemma mag_exp_lt f g : finite f -> finite g -> low f < low g -> mag f < mag g.
Proof.
  intros Hf Hg Hlt. pose proof (low_nonneg f Hf) as Lf. assert (exp g <> 0) as Hn.
  { intros E. pose proof (exp_bounds f Hf) as Hb. unfold low in Hlt. rewrite E in Hlt. unfold unbias_denormal at 2 in Hlt. simpl in Hlt. lia. }
  pose proof (low_signif g Hg Hn) as Hs. destruct Hf as (((_ & Hu) & _) & _). unfold mag. fold (low f) (low g).
  apply Z.lt_le_trans with (2 ^ 64 * 2 ^ low f); [apply Z.mul_lt_mono_pos_r; [apply pow2_pos; lia | done] |].
  apply Z.le_trans with (2 ^ 63 * 2 ^ low g); [rewrite <- !Z.pow_add_r by lia; apply Z.pow_le_mono_r; lia | apply Z.mul_le_mono_nonneg_r; [apply Z.pow_nonneg; lia | done]].
Qed.

Lemma mag_inj f g : finite f -> finite g -> mag f = mag g -> signif f = signif g /\ exp f = exp g.
Proof.
  intros Hf Hg E. destruct (Z.lt_total (low f) (low g)) as [H | [H | H]]; [pose proof (mag_exp_lt f g Hf Hg H); lia | | pose proof (mag_exp_lt g f Hg Hf H); lia].
  pose proof (low_nonneg f Hf) as Lf. unfold mag in E. fold (low f) (low g) in E. rewrite H in E. apply Z.mul_cancel_r in E; [| apply Z.pow_nonzero; lia]. split; [done |].
  unfold low, unbias_denormal in H. destruct (Z.eqb_spec (exp f) EXP_DENORMAL) as [Ef | Ef], (Z.eqb_spec (exp g) EXP_DENORMAL) as [Eg | Eg]; unfold unbias, EXP_MIN, EXP_DENORMAL in *; [lia | | | lia]; exfalso.
  - pose proof (low_signif g Hg Eg). destruct Hf as (Hr & Hs & _). apply (supported_denormal f Hr Ef) in Hs. lia.
  - pose proof (low_signif f Hf Ef). destruct Hg as (Hr & Hs & _). apply (supported_denormal g Hr Eg) in Hs. lia.
Qed.

Theorem delivers_unique c {Hc : Cut c} s e r r' : width (precision e) -> delivers s c e r -> delivers s c e r' -> r = r'.
Proof.
  intros Hw (R & T & H1 & H2 & H3) (R' & T' & H1' & H2' & H3'). pose proof (width_bounds _ Hw). assert (2 <= jmin (precision e)) by (unfold jmin, unbias, EXP_MIN, BIAS80, U; lia).
  assert (R = R') as <- by (apply (rounds_unique (rounding e) s (precision e) (jmin (precision e)) c R R'); [lia | lia | done | done]). assert (T = T') as <- by (apply (rounds_unique (rounding e) s (precision e) (jmin (precision e) - 1) c T T'); [lia | lia | done | done]).
  destruct (R <=? max_finite (precision e)); [| congruence]. destruct H3 as (Hf & Hs & Hm & He), H3' as (Hf' & Hs' & Hm' & He').
  destruct (mag_inj _ _ Hf Hf' ltac:(congruence)) as [E1 E2]. destruct r as [[] ?], r' as [[] ?]. simpl in *. congruence.
Qed.

(** ** Multiplication *)

Lemma mag_mul a b : finite a -> finite b ->
  mag a * mag b = signif a * signif b * 2 ^ place (unbias_denormal (exp a) + unbias_denormal (exp b) + 1) * 2 ^ U.
Proof.
  intros Ha Hb. pose proof (exp_range a Ha) as Xa. pose proof (exp_range b Hb) as Xb. pose proof (low_nonneg a Ha) as La. pose proof (low_nonneg b Hb) as Lb.
  set (xp := unbias_denormal (exp a) + unbias_denormal (exp b) + 1). pose proof (place_nonneg xp ltac:(unfold xp; lia)) as Hpl.
  unfold mag. fold (low a) (low b). replace (signif a * 2 ^ low a * (signif b * 2 ^ low b)) with (signif a * signif b * (2 ^ low a * 2 ^ low b)) by ring.
  rewrite <- (Z.mul_assoc _ _ (2 ^ U)), <- !Z.pow_add_r by (lia || apply U_nonneg). do 2 f_equal. unfold place, xp, low. lia.
Qed.

Lemma mul_delivers a b e : width (precision e) -> finite a -> finite b ->
  delivers (xorb (sign a) (sign b)) (rat (mag a * mag b) (2 ^ U)) e (f80_mul a b e).
Proof.
  intros Hw Ha Hb. unfold f80_mul. rewrite finite_handle, !finite_not_inf by done. rewrite orb_false_l.
  pose proof (exp_range a Ha) as Xa. pose proof (exp_range b Hb) as Xb. pose proof (mag_mul a b Ha Hb) as Em. destruct Ha as ((Sa & _) & _), Hb as ((Sb & _) & _).
  set (s := xorb (sign a) (sign b)). set (xp := unbias_denormal (exp a) + unbias_denormal (exp b) + 1) in *.
  assert (Cut (rat (mag a * mag b) (2 ^ U))) as Hc by apply rat_cut, pow2_pos, U_nonneg.
  assert (delivers s (rat (mag a * mag b) (2 ^ U)) e (u128_normalize_round (signif a * signif b) xp s e)) as H.
  2: { apply delivers_sign in H. by destruct (u128_normalize_round _ _ _ _). }
  destruct (decide (signif a * signif b = 0)) as [E0 | Hn].
  - rewrite E0. apply zero_delivers; [done | done |]. unfold rat. rewrite Em, E0, !Z.mul_0_l. done.
  - apply exact_delivers; [done | done | clear - Sa Sb Hn; nia | unfold xp; lia |].
    intros n. unfold rat. rewrite Em. apply compare_scale, pow2_pos, U_nonneg.
Qed.

(** ** Division *)

Lemma fold_sticky_within N D lo hi : 0 < D -> lo * D <= N < 2 * hi * D -> lo <= fold_sticky N D < 2 * hi.
Proof.
  intros HD HN. assert (lo <= N / D) by (apply Z.div_le_lower_bound; lia). assert (N / D < 2 * hi) by (apply Z.div_lt_upper_bound; lia).
  rewrite fold_sticky_val. destruct (N mod D =? 0); [lia |]. destruct (Z.even (N / D)) eqn:E; simpl; [apply Z.even_spec in E as [h E]; lia | lia].
Qed.

Lemma fold_sticky_range N D a b : 0 < D -> 2 ^ a * D <= N < 2 ^ b * D -> 0 < b -> 2 ^ a <= fold_sticky N D < 2 ^ b.
Proof. intros HD HN Hb. assert (2 ^ b = 2 * 2 ^ (b - 1)) as E by (rewrite <- pow2_succ by lia; f_equal; lia). rewrite E in *. by apply fold_sticky_within. Qed.

(** Two long divisions give one of twice the width. *)
Lemma long_division n bs : 0 <= n < 2 ^ 64 * bs -> 0 < bs <= 2 ^ 64 ->
  let r := n mod bs in
  let sg := Z.lor (u128 (Z.shiftl (n / bs) 64)) (Z.shiftl r 64 / bs) in
  (if negb (Z.shiftl r 64 mod bs =? 0) then Z.lor sg 1 else sg) = fold_sticky (n * 2 ^ 64) bs.
Proof.
  intros Hn Hb r sg. pose proof (Z.mod_pos_bound n bs ltac:(lia)) as Hr. pose proof (Z.div_mod n bs ltac:(lia)) as En.
  assert (0 <= n / bs < 2 ^ 64) as Hh by (split; [apply Z.div_pos; lia | apply Z.div_lt_upper_bound; lia]).
  assert (n * 2 ^ 64 = n / bs * 2 ^ 64 * bs + r * 2 ^ 64) as E1 by (unfold r; lia).
  assert (0 <= r * 2 ^ 64 / bs < 2 ^ 64) as Hl by (unfold r; split; [apply Z.div_pos; lia | apply Z.div_lt_upper_bound; lia]).
  assert (sg = n * 2 ^ 64 / bs) as Es.
  { unfold sg. rewrite !Z.shiftl_mul_pow2 by lia. replace (u128 (n / bs * 2 ^ 64)) with (n / bs * 2 ^ 64) by (symmetry; apply Z.mod_small; lia).
    rewrite E1, (Z.add_comm (n / bs * 2 ^ 64 * bs)), Z.div_add by lia.
    rewrite lor_disjoint by lia. lia. }
  assert (Z.shiftl r 64 mod bs = (n * 2 ^ 64) mod bs) as Er by (rewrite Z.shiftl_mul_pow2, E1, Z.add_comm, Z.mod_add by lia; done).
  unfold fold_sticky. rewrite Er, Es. by destruct (_ =? 0); simpl; [rewrite Z.lor_0_r |].
Qed.

(** The sticky quotient of two significands, shifted left by any amounts. *)
Lemma div_stands a b la lb : finite a -> finite b -> 0 < signif b -> 0 <= la <= 63 -> 0 <= lb <= 63 ->
  stands 1 (rat (mag a * 2 ^ U) (mag b)) (fold_sticky (signif a * 2 ^ la * 2 ^ 127) (signif b * 2 ^ lb)) (place (unbias_denormal (exp a) - la - (unbias_denormal (exp b) - lb))).
Proof.
  intros Ha Hb Sb Hla Hlb t. pose proof (exp_range a Ha) as Xa. pose proof (exp_range b Hb) as Xb. pose proof (low_nonneg a Ha) as La. pose proof (low_nonneg b Hb) as Lb. pose proof U_nonneg as HU.
  set (xp := unbias_denormal (exp a) - la - (unbias_denormal (exp b) - lb)). pose proof (place_nonneg xp ltac:(unfold xp; lia)) as Hpl. pose proof (pow2_pos lb ltac:(lia)).
  unfold rat. change (2 ^ 1) with 2. rewrite (Z.mul_comm t 2), <- (fold_sticky_compare (signif a * 2 ^ la * 2 ^ 127) (signif b * 2 ^ lb) t) by (apply Z.mul_pos_pos; lia).
  assert (mag a * 2 ^ U = signif a * 2 ^ la * 2 ^ 127 * 2 ^ (low a - la - 127 + U)) as ->.
  { unfold mag. fold (low a). rewrite <- !Z.mul_assoc, <- !Z.pow_add_r by lia. do 2 f_equal. lia. }
  assert (2 * 2 ^ place xp * mag b = 2 * (signif b * 2 ^ lb) * 2 ^ (low a - la - 127 + U)) as E.
  { unfold mag. fold (low b). replace (2 * 2 ^ place xp * (signif b * 2 ^ low b)) with (2 * signif b * (2 ^ place xp * 2 ^ low b)) by ring.
    replace (2 * (signif b * 2 ^ lb) * 2 ^ (low a - la - 127 + U)) with (2 * signif b * (2 ^ lb * 2 ^ (low a - la - 127 + U))) by ring.
    rewrite <- !Z.pow_add_r by lia. do 2 f_equal. unfold place, xp, low. lia. }
  assert (t * 2 ^ (1 + place xp) * mag b = 2 * t * (signif b * 2 ^ lb) * 2 ^ (low a - la - 127 + U)) as ->.
  { rewrite Z.pow_add_r by lia. change (2 ^ 1) with 2. transitivity (t * (2 * 2 ^ place xp * mag b)); [ring |]. rewrite E. ring. }
  apply compare_scale, pow2_pos. lia.
Qed.

Lemma div_delivers a b e : width (precision e) -> finite a -> finite b -> mag b <> 0 ->
  delivers (xorb (sign a) (sign b)) (rat (mag a * 2 ^ U) (mag b)) e (f80_div a b e).
Proof.
  intros Hw Ha Hb Hb0. unfold f80_div. rewrite finite_handle, !finite_not_inf by done. rewrite !iszero_mag by done. rewrite (proj2 (Z.eqb_neq (mag b) 0)) by done.
  pose proof (mag_nonneg b Hb) as Hb1. assert (Cut (rat (mag a * 2 ^ U) (mag b))) as Hc by (apply rat_cut; lia). set (s := xorb (sign a) (sign b)).
  destruct (Z.eqb_spec (mag a) 0) as [E0 | Hne].
  { apply zero_delivers; [done | done |]. unfold rat. rewrite E0, !Z.mul_0_l. done. }
  pose proof (exp_range a Ha) as Xa. pose proof (exp_range b Hb) as Xb. pose proof (low_nonneg a Ha) as La. pose proof (low_nonneg b Hb) as Lb.
  pose proof Ha as ((Sa & _) & _). pose proof Hb as ((Sb & _) & _).
  assert (0 < signif a < 2 ^ 64) as Sa' by (destruct (decide (signif a = 0)) as [E |]; [unfold mag in Hne; rewrite E, Z.mul_0_l in Hne; done | lia]).
  assert (0 < signif b < 2 ^ 64) as Sb' by (destruct (decide (signif b = 0)) as [E |]; [unfold mag in Hb0; rewrite E, Z.mul_0_l in Hb0; done | lia]).
  assert (delivers s (rat (mag a * 2 ^ U) (mag b)) e (u128_normalize_round (fst (div_finite a b)) (snd (div_finite a b)) s e)) as H.
  2: { destruct (div_finite a b). apply delivers_sign in H. simpl in H. by destruct (u128_normalize_round _ _ _ _). }
  unfold div_finite. cbn [fst snd]. unfold clz64. set (la := 63 - Z.log2 (signif a)). set (lb := 63 - Z.log2 (signif b)).
  pose proof (left_justified (signif a) 64 Sa' ltac:(lia)) as Ja. pose proof (left_justified (signif b) 64 Sb' ltac:(lia)) as Jb.
  replace (64 - 1 - Z.log2 (signif a)) with la in Ja by lia. replace (64 - 1 - Z.log2 (signif b)) with lb in Jb by lia. pose proof (log2_bounds _ _ Sa') as Ba. pose proof (log2_bounds _ _ Sb') as Bb.
  rewrite !(Z.shiftl_mul_pow2 (signif _)) by lia. rewrite !u64_small by lia. set (as_ := signif a * 2 ^ la) in *. set (bs := signif b * 2 ^ lb) in *. change (64 - 1) with 63 in *.
  rewrite (Z.shiftl_mul_pow2 as_) by lia. rewrite (long_division (as_ * 2 ^ 63) bs) by lia. rewrite <- Z.mul_assoc, <- Z.pow_add_r by lia. change (63 + 64) with 127.
  apply (sticky_delivers (rat (mag a * 2 ^ U) (mag b)) s e Hw 1); [apply fold_sticky_range; lia | lia | lia |]. apply div_stands; [done | done | lia | lia | lia].
Qed.

(** ** Addition *)

Lemma sticky_exact S d : 0 <= d -> S mod 2 ^ d = 0 -> sticky S d * 2 ^ d = S.
Proof. intros Hd E. rewrite sticky_val, E. simpl. pose proof (pow2_pos d Hd). pose proof (Z.div_mod S (2 ^ d)). lia. Qed.

Lemma sticky_bound S d : 0 <= S < 2 ^ 128 -> 0 <= d -> 0 <= sticky S d < 2 ^ 128.
Proof.
  intros HS Hd. destruct (decide (d = 0)) as [-> | ?]; [| pose proof (sticky_lt S d 128); lia].
  replace (sticky S 0) with S; [done |]. rewrite sticky_val. change (2 ^ 0) with 1. by rewrite Z.mod_1_r, Z.div_1_r.
Qed.

Lemma lor_top x : 0 <= x < 2 ^ 127 -> Z.lor x (Z.shiftl 1 127) = x + 2 ^ 127.
Proof.
  intros Hx. rewrite Z.shiftl_1_l, Z.lor_comm. rewrite <- (Z.mul_1_l (2 ^ 127)), lor_disjoint by lia. lia.
Qed.

Lemma carried_sticky S : 2 ^ 128 <= S < 2 ^ 129 -> Z.lor (u128_shift_right_sticky (u128 S) 1) (Z.shiftl 1 127) = sticky S 1 /\ 2 ^ 127 <= sticky S 1 < 2 ^ 128.
Proof.
  intros HS. assert (u128 S = S - 2 ^ 128) as -> by (unfold u128, wrap; symmetry; apply (Z.mod_unique_pos S (2 ^ 128) 1); lia).
  assert (sticky S 1 = sticky (S - 2 ^ 128) 1 + 2 ^ 127) as E.
  { rewrite !sticky_val. change (2 ^ 1) with 2. replace (S - 2 ^ 128) with (S + (- 2 ^ 127) * 2) by lia. rewrite Z.mod_add, Z.div_add by lia.
    rewrite Z.even_add. change (Z.even (- 2 ^ 127)) with true. destruct (S mod 2 =? 0); [lia |]. destruct (Z.even (S / 2)); cbn [eqb Z.b2z]; lia. }
  pose proof (sticky_lt (S - 2 ^ 128) 1 128 ltac:(lia) ltac:(lia) ltac:(lia)) as Hb. change (128 - 1) with 127 in Hb.
  rewrite sticky_code, lor_top by lia. lia.
Qed.

Section add.
Context (a b : float80).
Hypothesis Ha : finite a.
Hypothesis Hb : finite b.
Hypothesis Hexp : exp b <= exp a.

Notation d := (unbias_denormal (exp a) - unbias_denormal (exp b)).
Notation A := (signif a * 2 ^ 64).
Notation B := (sticky (signif b * 2 ^ 64) d).
Notation E := (place (unbias_denormal (exp a))).

Lemma d_nonneg : 0 <= d.
Proof using All.
  destruct Ha as ((_ & H1) & _), Hb as ((_ & H2) & _). unfold unbias_denormal, EXP_DENORMAL, EXP_MIN, unbias. destruct (Z.eqb_spec (exp a) 0), (Z.eqb_spec (exp b) 0); lia.
Qed.

Lemma E_nonneg : 50000 <= E - d.
Proof using All. pose proof (exp_range b Hb). unfold place, U. lia. Qed.

Lemma mag_a : mag a = A * 2 ^ E.
Proof using All. pose proof (low_nonneg a Ha). pose proof E_nonneg. pose proof d_nonneg. unfold mag. fold (low a). rewrite <- Z.mul_assoc, <- Z.pow_add_r by lia. do 2 f_equal. unfold low, place. lia. Qed.

Lemma mag_b : mag b * 2 ^ d = signif b * 2 ^ 64 * 2 ^ E.
Proof using All.
  pose proof (low_nonneg b Hb). pose proof E_nonneg. pose proof d_nonneg. unfold mag. fold (low b). rewrite <- !Z.mul_assoc, <- !Z.pow_add_r by lia. do 2 f_equal. unfold low, place. lia.
Qed.

Lemma AB_range : 0 <= A < 2 ^ 128 /\ 0 <= B < 2 ^ 128 /\ 0 <= signif b * 2 ^ 64 < 2 ^ 128.
Proof using All. destruct Ha as ((H1 & _) & _), Hb as ((H2 & _) & _). assert (0 <= signif b * 2 ^ 64 < 2 ^ 128) by lia. split; [lia |]. split; [apply sticky_bound; [done | apply d_nonneg] | done]. Qed.

(** Against the even multiples of the scale, the shifted operand compares as the operand. *)
Lemma b_compare t : (mag b ?= 2 * t * 2 ^ E) = (B ?= 2 * t).
Proof using All.
  pose proof d_nonneg as Hd. pose proof (pow2_pos d Hd) as Hq. pose proof E_nonneg. rewrite <- (compare_scale _ _ (2 ^ d)) by done. rewrite mag_b.
  replace (2 * t * 2 ^ E * 2 ^ d) with (2 * t * 2 ^ d * 2 ^ E) by ring. rewrite compare_scale by (apply pow2_pos; lia). by apply sticky_compare.
Qed.

Lemma sum_stands : stands 1 (rat (mag a + mag b) 1) (A + B) E.
Proof using All.
  intros t. unfold rat. pose proof E_nonneg. pose proof d_nonneg. rewrite Z.mul_1_r, Z.pow_add_r, mag_a by lia. change (2 ^ 1) with 2.
  pose proof (b_compare (t - signif a * 2 ^ 63)) as H1. rewrite <- (Z.add_compare_mono_l (A * 2 ^ E)) in H1. rewrite <- (Z.add_compare_mono_l A B) in H1.
  replace (A * 2 ^ E + 2 * (t - signif a * 2 ^ 63) * 2 ^ E) with (t * (2 * 2 ^ E)) in H1 by ring. rewrite H1. f_equal. ring.
Qed.

Lemma diff_stands : B <= A -> stands 1 (rat (mag a - mag b) 1) (A - B) E.
Proof using All.
  intros Hle t. unfold rat. pose proof E_nonneg. pose proof d_nonneg. rewrite Z.mul_1_r, Z.pow_add_r, mag_a by lia. change (2 ^ 1) with 2.
  pose proof (b_compare (signif a * 2 ^ 63 - t)) as H1. rewrite Z.compare_antisym, (Z.compare_antisym (2 * (signif a * 2 ^ 63 - t))) in H1. apply (f_equal CompOpp) in H1. rewrite !CompOpp_involutive in H1.
  rewrite <- (Z.add_compare_mono_l (t * (2 * 2 ^ E) - mag b)) in H1. rewrite <- (Z.add_compare_mono_l (2 * t - B) (2 * (signif a * 2 ^ 63 - t)) B) in H1.
  replace (t * (2 * 2 ^ E) - mag b + 2 * (signif a * 2 ^ 63 - t) * 2 ^ E) with (A * 2 ^ E - mag b) in H1 by ring. replace (t * (2 * 2 ^ E) - mag b + mag b) with (t * (2 * 2 ^ E)) in H1 by ring.
  rewrite H1. f_equal; ring.
Qed.

Lemma back_stands : stands 1 (rat (mag b - mag a) 1) (B - A) E.
Proof using All.
  intros t. unfold rat. pose proof E_nonneg. pose proof d_nonneg. rewrite Z.mul_1_r, Z.pow_add_r, mag_a by lia. change (2 ^ 1) with 2.
  pose proof (b_compare (t + signif a * 2 ^ 63)) as H1. rewrite <- (Z.add_compare_mono_l (- (A * 2 ^ E)) (mag b)) in H1. rewrite <- (Z.add_compare_mono_l (- A) B) in H1.
  replace (- (A * 2 ^ E) + 2 * (t + signif a * 2 ^ 63) * 2 ^ E) with (t * (2 * 2 ^ E)) in H1 by ring. replace (mag b - A * 2 ^ E) with (- (A * 2 ^ E) + mag b) by ring. rewrite H1. f_equal; ring.
Qed.

(** The comparison the code makes is that of the magnitudes. *)
Lemma order_code : (mag b ?= mag a) = (B ?= A).
Proof using All. rewrite mag_a. pose proof (b_compare (signif a * 2 ^ 63)) as H1. replace (2 * (signif a * 2 ^ 63)) with A in H1 by ring. exact H1. Qed.

(** Where nothing is shifted out the result is exact, elsewhere it is large. *)
Lemma shift_cases : (mag b = B * 2 ^ E) \/ (2 ^ 127 <= A /\ B < 2 ^ 64).
Proof using All.
  pose proof d_nonneg as Hd. pose proof E_nonneg. pose proof (pow2_pos d Hd) as Hq. destruct (decide (d <= 64)) as [Hs | Hs].
  - left. apply (Z.mul_cancel_r _ _ (2 ^ d)); [lia |]. rewrite mag_b. rewrite <- (sticky_exact (signif b * 2 ^ 64) d) at 1; [ring | done |].
    rewrite (pow2_split d 64) by lia. rewrite Z.mul_assoc, (Z.mul_comm (signif b)), <- Z.mul_assoc, Z.mul_comm. by apply Z.mod_mul, Z.neq_sym, Z.lt_neq.
  - right. assert (exp a <> 0) as Hn by (intros E0; rewrite E0 in Hs; pose proof (exp_bounds b Hb) as Hx; unfold unbias_denormal in Hs at 1; simpl in Hs; lia).
    destruct Ha as (Hr & Hsup & _). apply (supported_normal a Hr Hn) in Hsup. destruct Hb as ((H2 & _) & _). split; [lia |].
    pose proof (fold_sticky_val (signif b * 2 ^ 64) (2 ^ d)) as Ev. fold (sticky (signif b * 2 ^ 64) d) in Ev. rewrite Ev.
    assert (2 ^ 65 <= 2 ^ d) by (apply Z.pow_le_mono_r; lia). assert (signif b * 2 ^ 64 / 2 ^ d < 2 ^ 63) by (apply Z.div_lt_upper_bound; [done |]; nia).
    destruct (_ =? 0); [lia |]. destruct (Z.even _); simpl; lia.
Qed.

Lemma mag_zero f : finite f -> mag f = 0 <-> signif f = 0.
Proof using.
  intros Hf%low_nonneg. unfold mag. fold (low f). pose proof (pow2_pos (low f) ltac:(lia)). split; [| intros ->; lia]. intros H0. apply Z.mul_eq_0 in H0 as [? | ?]; [done | lia].
Qed.

Lemma B_zero : B = 0 <-> signif b = 0.
Proof using All.
  pose proof (b_compare 0) as H1. rewrite !Z.mul_0_r, Z.mul_0_l in H1. rewrite <- (mag_zero b Hb). split; intros H0; apply Z.compare_eq_iff; [rewrite H1 | rewrite <- H1]; by apply Z.compare_eq_iff.
Qed.

Lemma align_code : u128_shift_right_sticky (Z.shiftl (signif b) 64) d = B /\ Z.shiftl (signif a) 64 = A.
Proof using All. rewrite !Z.shiftl_mul_pow2 by lia. split; [| done]. apply sticky_code; [apply AB_range | apply d_nonneg]. Qed.

(** Rounding a significand that is exact, or whose leading bit is high. *)
Lemma finish_delivers s e v S : width (precision e) -> 0 < S < 2 ^ 128 -> (v = S * 2 ^ E \/ 2 ^ 126 <= S) -> stands 1 (rat v 1) S E ->
  delivers s (rat v 1) e (u128_normalize_round S (unbias_denormal (exp a)) s e).
Proof using Ha.
  intros Hw HS Hv Hst. pose proof (exp_range a Ha). assert (Cut (rat v 1)) as Hc by (apply rat_cut; lia).
  destruct Hv as [Hv | Hv]; [apply exact_delivers; [done | done | done | lia |] | apply (sticky_delivers _ s e Hw 1); [lia | lia | lia | done]].
  intros n. unfold rat. by rewrite Z.mul_1_r, Hv.
Qed.

Lemma sum_delivers s e : width (precision e) -> mag a + mag b <> 0 ->
  delivers s (rat (mag a + mag b) 1) e
    (if A + B >=? 2 ^ 128 then u128_normalize_round (Z.lor (u128_shift_right_sticky (u128 (A + B)) 1) (Z.shiftl 1 127)) (unbias_denormal (exp a) + 1) s e
     else u128_normalize_round (A + B) (unbias_denormal (exp a)) s e).
Proof using All.
  intros Hw Hv. destruct AB_range as (HA & HB & _). pose proof (exp_range a Ha). pose proof E_nonneg. pose proof d_nonneg. destruct (Z.geb_spec (A + B) (2 ^ 128)) as [Hge | Hlt].
  - destruct (carried_sticky (A + B) ltac:(lia)) as [-> Hr]. apply (sticky_delivers _ s e Hw 1); [lia | lia | lia |].
    pose proof (stands_sticky 1 _ (A + B) E 1 ltac:(lia) ltac:(lia) ltac:(lia) sum_stands) as Hst. replace (place (unbias_denormal (exp a) + 1)) with (E + 1) by (unfold place; lia). exact Hst.
  - apply finish_delivers; [done | | | apply sum_stands].
    + split; [| done]. destruct (decide (A + B = 0)) as [E0 |]; [| lia]. exfalso. apply Hv. rewrite (proj2 (mag_zero b Hb)) by (apply B_zero; lia). rewrite mag_a. replace A with 0 by lia. lia.
    + destruct shift_cases as [Hm | [Hm _]]; [left; rewrite mag_a, Hm; ring | right; lia].
Qed.

Lemma diff_delivers s e : width (precision e) -> mag a <> mag b ->
  delivers s (rat (Z.abs (mag a - mag b)) 1) e (u128_normalize_round (Z.abs (A - B)) (unbias_denormal (exp a)) s e).
Proof using All.
  intros Hw Hv. destruct AB_range as (HA & HB & _). pose proof order_code as Ho. destruct (Z.compare_spec B A) as [Heq | Hlt | Hgt].
  - exfalso. apply Hv. symmetry. by apply Z.compare_eq_iff.
  - rewrite Z.compare_lt_iff in Ho. rewrite !Z.abs_eq by lia. apply finish_delivers; [done | lia | | apply diff_stands; lia].
    destruct shift_cases as [Hm | [Hm HB']]; [left; rewrite mag_a, Hm; ring | right; lia].
  - rewrite Z.compare_gt_iff in Ho. rewrite !Z.abs_neq, !Z.opp_sub_distr, !(Z.add_comm (- _)), !Z.add_opp_r by lia.
    apply finish_delivers; [done | lia | | apply back_stands]. left. destruct shift_cases as [Hm | [Hm HB']]; [rewrite mag_a, Hm; ring | lia].
Qed.

Lemma supported_some c s e r : width (precision e) -> delivers s c e r -> (let '(f, e) := r in if f80_is_supported f then Some (f, e) else None) = Some r.
Proof using. intros Hw Hd. pose proof (delivers_supported c s e Hw r Hd) as H. destruct r as [f e']. simpl in H. by rewrite H. Qed.

Lemma aligned_correct flipped e : width (precision e) -> sign a = false -> ~ (mag a = 0 /\ mag b = 0) ->
  let v := mag a + val b in
  if v =? 0 then add_aligned flipped a b e = Some (mk_f 0 0 (mode_is e round_down), e)
  else exists r, add_aligned flipped a b e = Some r /\ delivers (xorb flipped (v <? 0)) (rat (Z.abs v) 1) e r.
Proof using All.
  intros Hw Hsa Hnz v. pose proof (mag_nonneg a Ha) as Ma. pose proof (mag_nonneg b Hb) as Mb. destruct align_code as [Eb Ea]. destruct AB_range as (HA & HB & _).
  unfold add_aligned. rewrite Eb, Ea, Hsa, (finite_not_inf a Ha). cbn [negb andb]. unfold v, val. destruct (sign b) eqn:Esb; cbn [negb].
  - assert ((if mode_is e round_chop && (B =? 0) && negb (signif b =? 0) then 1 else B) = B) as ->.
    { destruct (Z.eqb_spec B 0) as [E0 | ?]; [| by rewrite andb_false_r]. apply B_zero in E0. rewrite E0. by rewrite andb_false_r. }
    pose proof order_code as Ho. rewrite Z.add_opp_r. assert ((if A >=? B then (A - B, false) else (B - A, true)) = (Z.abs (A - B), A <? B)) as ->.
    { destruct (Z.geb_spec A B), (Z.ltb_spec A B); f_equal; lia. }
    destruct (Z.eqb_spec (mag a - mag b) 0) as [Ev | Ev].
    + assert (B = A) as E1 by (apply Z.compare_eq_iff; rewrite <- Ho; apply Z.compare_eq_iff; lia). rewrite E1, Z.sub_diag. cbn [Z.abs Z.eqb andb].
      rewrite (proj2 (Z.eqb_neq A 0)) by (intros E0; apply Hnz; assert (mag a = 0) by (rewrite mag_a, E0; lia); lia). by destruct (mode_is e round_down).
    + rewrite (proj2 (Z.eqb_neq (Z.abs (A - B)) 0)) by (intros E0; apply Ev; assert (mag b = mag a); [apply Z.compare_eq_iff; rewrite Ho; apply Z.compare_eq_iff; lia | lia]). cbn [andb].
      assert ((A <? B) = (mag a - mag b <? 0)) as ->.
      { destruct (Z.compare_spec B A) as [H1 | H1 | H1]; [rewrite Z.compare_eq_iff in Ho | rewrite Z.compare_lt_iff in Ho | rewrite Z.compare_gt_iff in Ho]; destruct (Z.ltb_spec A B), (Z.ltb_spec (mag a - mag b) 0); lia. }
      set (s := if flipped then _ else _). pose proof (diff_delivers s e Hw ltac:(lia)) as Hd. exists (u128_normalize_round (Z.abs (A - B)) (unbias_denormal (exp a)) s e).
      split; [by apply (supported_some _ _ _ _ Hw Hd) |]. replace (xorb flipped (mag a - mag b <? 0)) with s by (unfold s; by destruct flipped, (_ <? 0)). exact Hd.
  - rewrite (proj2 (Z.eqb_neq (mag a + mag b) 0)) by lia. rewrite (proj2 (Z.ltb_ge (mag a + mag b) 0)) by lia. rewrite Z.abs_eq by lia.
    set (s := if flipped then negb false else false). pose proof (sum_delivers s e Hw ltac:(lia)) as Hd. replace (xorb flipped false) with s by (by destruct flipped).
    destruct (A + B >=? 2 ^ 128); (eexists; split; [apply (supported_some _ _ _ _ Hw Hd) | exact Hd]).
Qed.

End add.

Lemma finite_neg f : finite f -> finite (f80_neg f).
Proof. intros (H1 & H2 & H3). by destruct f. Qed.

Lemma val_neg f : val (f80_neg f) = - val f.
Proof. destruct f as [x y []]; unfold val, mag; simpl; lia. Qed.

Lemma rat_abs_neg v : rat (Z.abs (- v)) 1 = rat (Z.abs v) 1.
Proof. by rewrite Z.abs_opp. Qed.

Lemma add_finite_ordered a b e : finite a -> finite b -> width (precision e) -> ~ (mag a = 0 /\ mag b = 0) -> exp b <= exp a ->
  let v := val a + val b in
  let r := let '(x, y, flipped) := if sign a then (f80_neg a, f80_neg b, true) else (a, b, false) in add_aligned flipped x y e in
  if v =? 0 then r = Some (mk_f 0 0 (mode_is e round_down), e) else exists r', r = Some r' /\ delivers (v <? 0) (rat (Z.abs v) 1) e r'.
Proof.
  intros Ha Hb Hw Hnz Hexp v r. unfold r, v. destruct (sign a) eqn:Es.
  - pose proof (aligned_correct (f80_neg a) (f80_neg b) (finite_neg a Ha) (finite_neg b Hb) Hexp true e Hw) as H. simpl in H. rewrite Es in H. specialize (H eq_refl Hnz).
    rewrite val_neg in H. change (mag (f80_neg a)) with (mag a) in H. replace (val a) with (- mag a) by (unfold val; by rewrite Es).
    replace (mag a + - val b) with (- (- mag a + val b)) in H by lia. set (w := - mag a + val b) in *.
    replace (- w =? 0) with (w =? 0) in H by lia. destruct (Z.eqb_spec w 0) as [? | Hn]; [done |]. rewrite rat_abs_neg in H. by replace (w <? 0) with (negb (- w <? 0)) by lia.
  - pose proof (aligned_correct a b Ha Hb Hexp false e Hw Es Hnz) as H. replace (val a) with (mag a) by (unfold val; by rewrite Es). cbv zeta in H. destruct (_ =? 0); [exact H |]. by rewrite xorb_false_l in H.
Qed.

Lemma add_delivers a b e : width (precision e) -> finite a -> finite b ->
  let v := val a + val b in
  if v =? 0 then f80_add a b e = Some (mk_f 0 0 (if f80_iszero a && f80_iszero b && eqb (sign a) (sign b) then sign a else mode_is e round_down), e)
  else exists r, f80_add a b e = Some r /\ delivers (v <? 0) (rat (Z.abs v) 1) e r.
Proof.
  intros Hw Ha Hb v. unfold f80_add. rewrite finite_handle, !finite_not_inf by done. rewrite orb_false_l. rewrite !iszero_mag by done.
  destruct (decide (mag a = 0 /\ mag b = 0)) as [[Ea Eb] | Hnz].
  { rewrite Ea, Eb. unfold v, val. rewrite Ea, Eb. rewrite Z.eqb_refl. cbn [andb]. destruct (sign a), (sign b); done. }
  assert ((mag a =? 0) && (mag b =? 0) = false) as -> by lia. rewrite andb_false_l. unfold add_finite. destruct (Z.ltb_spec (exp a) (exp b)) as [Hlt | Hge].
  - unfold v. rewrite Z.add_comm. apply (add_finite_ordered b a); [done | done | done | tauto | lia].
  - apply (add_finite_ordered a b); [done | done | done | done | lia].
Qed.

(** The difference is the sum with the second operand negated. *)
Lemma sub_delivers a b e : width (precision e) -> finite a -> finite b ->
  let v := val a - val b in
  if v =? 0 then f80_sub a b e = Some (mk_f 0 0 (if f80_iszero a && f80_iszero b && negb (eqb (sign a) (sign b)) then sign a else mode_is e round_down), e)
  else exists r, f80_sub a b e = Some r /\ delivers (v <? 0) (rat (Z.abs v) 1) e r.
Proof.
  intros Hw Ha Hb v. pose proof (add_delivers a (f80_neg b) e Hw Ha (finite_neg b Hb)) as H. rewrite val_neg, Z.add_opp_r in H. unfold f80_sub, v.
  replace (eqb (sign a) (sign (f80_neg b))) with (negb (eqb (sign a) (sign b))) in H by (destruct b as [x y []], a as [x' y' []]; done). exact H.
Qed.

(** C12: addition, subtraction, multiplication and division of finite numbers
    round the exact result once, in the current mode and to the current
    precision, and leave exactly the flags of that rounding: inexact, rounded
    up, overflow, and underflow for a tiny inexact result.  A sum that is zero
    has the sign of its operands if they agree, else that of the mode; the
    assertion in the code does not fail. *)
Theorem f80_arith_correct a b e : width (precision e) -> finite a -> finite b ->
  (let v := val a + val b in
   if v =? 0 then f80_add a b e = Some (mk_f 0 0 (if f80_iszero a && f80_iszero b && eqb (sign a) (sign b) then sign a else mode_is e round_down), e)
   else exists r, f80_add a b e = Some r /\ delivers (v <? 0) (rat (Z.abs v) 1) e r) /\
  (let v := val a - val b in
   if v =? 0 then f80_sub a b e = Some (mk_f 0 0 (if f80_iszero a && f80_iszero b && negb (eqb (sign a) (sign b)) then sign a else mode_is e round_down), e)
   else exists r, f80_sub a b e = Some r /\ delivers (v <? 0) (rat (Z.abs v) 1) e r) /\
  delivers (xorb (sign a) (sign b)) (rat (mag a * mag b) (2 ^ U)) e (f80_mul a b e) /\
  (mag b <> 0 -> delivers (xorb (sign a) (sign b)) (rat (mag a * 2 ^ U) (mag b)) e (f80_div a b e)).
Proof.
  intros Hw Ha Hb. split; [by apply add_delivers |]. split; [by apply sub_delivers |]. split; [by apply mul_delivers | by apply div_delivers].
Qed.

(** Two thirds of the smallest normal number, rounded up to 24 bits. *)
Lemma f80_arith_correct_witness :
  let a := mk_f (2 ^ 63) 1 false in let b := mk_f (3 * 2 ^ 62) (bias 0) false in
  let e := mk_env round_up 24 false false 0 in
  delivers false (rat (mag a * 2 ^ U) (mag b)) e (f80_div a b e) /\ f80_div a b e = (mk_f 0x5555560000000000 0 false, mk_env round_up 24 true true F80_EXC_UNDERFLOW).
Proof.
  intros a b e. split; [| vm_compute; reflexivity]. apply (f80_arith_correct a b e).
  - left. reflexivity.
  - vm_compute. intuition discriminate.
  - vm_compute. intuition discriminate.
  - unfold mag, b. apply Z.neq_mul_0. split; [discriminate | apply Z.pow_nonzero; [lia | vm_compute; discriminate]].
Defined.
