(* ===== verification/Float80Fast.v ===== *)
(** The fast paths of emu/float80.c: addition, multiplication and division of
    two normal numbers, rounded to nearest, when the result is normal too.

    [f80_fast_agrees] shows that wherever a fast path answers, it answers what
    the general code does, flags included.  The division goes through
    [f80_divlu], the schoolbook division of a two-word number by a one-word
    one with 64-bit operations only. *)

From Stdlib Require Import ZifyBool.
From S2P Require Import Prelude Rounding Float80 Float80Sound Float80Arith.

(** ** The code *)

Definition f80_fast_normal (f : float80) : bool :=
  (exp f >=? EXP_MIN) && (exp f <=? EXP_MAX) && negb (Z.shiftr (signif f) 63 =? 0).

(** The result, whether it is inexact, and whether it was rounded up. *)
Definition f80_fast_finish (s xp : Z) (sign : bool) (p : Z) : option (float80 * bool * bool) :=
  let shift := 128 - p in
  let kept := Z.shiftr s shift in
  let rem := Z.land s (Z.shiftl 1 shift - 1) in
  let half := Z.shiftl 1 (shift - 1) in
  let rounded_up := (rem >? half) || ((rem =? half) && negb (Z.land kept 1 =? 0)) in
  let kept := if rounded_up then u128 (kept + 1) else kept in
  let '(kept, xp) := if negb (Z.shiftr kept p =? 0) then (Z.shiftr kept 1, xp + 1) else (kept, xp) in
  if (xp <? unbias EXP_MIN) || (xp >? unbias EXP_MAX) then None
  else Some (mk_f (u64 (Z.shiftl kept (64 - p))) (u15 (bias xp)) sign, negb (rem =? 0), rounded_up).

(** The end of f80_add_fast, [a] the operand with the larger exponent. *)
Definition add_fast_aligned (a b : float80) (p : Z) : option (float80 * bool * bool) :=
  let d := exp a - exp b in
  if d >? 63 then None
  else
    let A := Z.shiftl (signif a) 64 in
    let B := Z.shiftr (Z.shiftl (signif b) 64) d in
    let xp := unbias (exp a) in
    if eqb (sign a) (sign b) then
      if A + B >=? 2 ^ 128 then
        let S := u128 (A + B) in
        f80_fast_finish (Z.lor (Z.lor (Z.shiftr S 1) (Z.land S 1)) (Z.shiftl 1 127)) (xp + 1) (sign a) p
      else f80_fast_finish (A + B) xp (sign a) p
    else
      let '(D, sg) := if A >=? B then (A - B, sign a) else (B - A, sign b) in
      if D =? 0 then Some (F80_ZERO, false, false)
      else
        let z := if Z.shiftr D 64 =? 0 then 64 + clz64 (u64 D) else clz64 (u64 (Z.shiftr D 64)) in
        f80_fast_finish (u128 (Z.shiftl D z)) (xp - z) sg p.

Definition f80_add_fast (a b : float80) (p : Z) : option (float80 * bool * bool) :=
  if negb (f80_fast_normal a) || negb (f80_fast_normal b) then None
  else
    let '(a, b) := if exp a <? exp b then (b, a) else (a, b) in
    add_fast_aligned a b p.

Definition f80_mul_fast (a b : float80) (p : Z) : option (float80 * bool * bool) :=
  if negb (f80_fast_normal a) || negb (f80_fast_normal b) then None
  else
    let P := signif a * signif b in
    let xp := unbias (exp a) + unbias (exp b) + 1 in
    let '(P, xp) := if Z.shiftr P 127 =? 0 then (u128 (Z.shiftl P 1), xp - 1) else (P, xp) in
    f80_fast_finish P xp (xorb (sign a) (sign b)) p.

(** The loop that corrects an estimated quotient digit; [None] when the fuel is out. *)
Fixpoint divlu_fix (fuel : nat) (q rhat vn1 vn0 un : Z) : option Z :=
  match fuel with
  | O => None
  | S fuel =>
      if (q >=? 2 ^ 32) || (u64 (q * vn0) >? u64 (u64 (2 ^ 32 * rhat) + un)) then
        let q := u64 (q - 1) in
        let rhat := u64 (rhat + vn1) in
        if rhat >=? 2 ^ 32 then Some q else divlu_fix fuel q rhat vn1 vn0 un
      else Some q
  end.

Definition f80_divlu (u1 u0 v : Z) : option (Z * Z) :=
  let vn1 := Z.shiftr v 32 in
  let vn0 := Z.land v 0xffffffff in
  let un1 := Z.shiftr u0 32 in
  let un0 := Z.land u0 0xffffffff in
  let q1 := u1 / vn1 in
  q1 ← divlu_fix 3 q1 (u64 (u1 - u64 (q1 * vn1))) vn1 vn0 un1;
  let un21 := u64 (u64 (u64 (u1 * 2 ^ 32) + un1) - u64 (q1 * v)) in
  let q0 := un21 / vn1 in
  q0 ← divlu_fix 3 q0 (u64 (un21 - u64 (q0 * vn1))) vn1 vn0 un0;
  Some (u64 (u64 (q1 * 2 ^ 32) + q0), u64 (u64 (u64 (un21 * 2 ^ 32) + un0) - u64 (q0 * v))).

Definition f80_div_fast (a b : float80) (p : Z) : option (float80 * bool * bool) :=
  if negb (f80_fast_normal a) || negb (f80_fast_normal b) then None
  else
    '(q_hi, r) ← f80_divlu (Z.shiftr (signif a) 1) (u64 (Z.shiftl (signif a) 63)) (signif b);
    '(q_lo, r2) ← f80_divlu r 0 (signif b);
    let q := Z.lor (u128 (Z.shiftl q_hi 64)) q_lo in
    let q := if negb (r2 =? 0) then Z.lor q 1 else q in
    let xp := unbias (exp a) - unbias (exp b) in
    let z := clz64 q_hi in
    f80_fast_finish (u128 (Z.shiftl q z)) (xp - z) (xorb (sign a) (sign b)) p.

(** ** Rounding to nearest *)

(** The environment after a fast path. *)
Definition after_fast (e : fenv) (ix up : bool) : fenv := mk_env (rounding e) (precision e) (inexact e || ix) (rounded_up e || up) (exceptions e).

Section finish.
Context (c : cut) {Hc : Cut c} (s : bool) (e : fenv).
Hypothesis Hw : width (precision e).
Hypothesis Hm : rounding e = round_to_nearest.
Notation p := (precision e).

Lemma fast_flags S : 0 <= S ->
  let rem := Z.land S (Z.shiftl 1 (128 - p) - 1) in
  (rem >? Z.shiftl 1 (128 - p - 1)) || ((rem =? Z.shiftl 1 (128 - p - 1)) && negb (Z.land (Z.shiftr S (128 - p)) 1 =? 0)) =
    goes_up (rounding e) s (S / 2 ^ (128 - p)) (loc_of S (128 - p)) /\
  negb (rem =? 0) = match loc_of S (128 - p) with Exact => false | _ => true end.
Proof using Hw Hm.
  intros HS rem. pose proof (width_bounds p Hw). unfold rem. rewrite !Z.shiftl_1_l, land_low, land_1, Z.shiftr_div_pow2 by lia. rewrite Hm. unfold loc_of, goes_up. simpl direct.
  pose proof (pow2_pos (128 - p - 1) ltac:(lia)). destruct (Z.eqb_spec (S mod 2 ^ (128 - p)) 0) as [-> | Hn]; [split; [lia | done] |]. split; [| done].
  destruct (Z.compare_spec (S mod 2 ^ (128 - p)) (2 ^ (128 - p - 1))); destruct (Z.odd (S / 2 ^ (128 - p))); cbn [Z.b2z Z.eqb negb]; lia.
Qed.

Lemma packed_plain r x : 0 <= r < 2 ^ p -> unbias EXP_MIN <= x <= unbias EXP_MAX ->
  packed s e r (bias x) = mk_f (u64 (Z.shiftl r (64 - p))) (u15 (bias x)) s.
Proof using Hw.
  intros Hr Hx. pose proof (width_bounds p Hw). unfold packed. destruct (bias_code x ltac:(lia)) as [Eb Hb]. rewrite (proj2 (Z.eqb_neq _ _) Hb), andb_false_l, Eb. do 2 f_equal.
  apply Z.mod_small. destruct (pack_signif p r Hw Hr). rewrite Z.shiftl_mul_pow2 by lia. lia.
Qed.

Lemma fast_pack S xp f ix up : 2 ^ 127 <= S < 2 ^ 128 -> f80_fast_finish S xp s p = Some (f, ix, up) ->
  let k := S / 2 ^ (128 - p) in let l := loc_of S (128 - p) in let r := choose (rounding e) s k l in
  ix = match l with Exact => false | _ => true end /\ up = goes_up (rounding e) s k l /\ 2 ^ (p - 1) <= k < 2 ^ p /\
  unbias EXP_MIN <= (if r =? 2 ^ p then xp + 1 else xp) <= unbias EXP_MAX /\
  finite f /\ sign f = s /\ mag f = r * 2 ^ (place xp + (128 - p)) /\ mag f <= max_finite p.
Proof using Hw Hm.
  intros HS Hf k l r. pose proof (width_bounds p Hw) as Hp. destruct (fast_flags S ltac:(lia)) as [F1 F2]. unfold f80_fast_finish in Hf. rewrite F1, F2 in Hf. clear F1 F2.
  pose proof (div_range S 127 128 (128 - p) HS ltac:(lia) ltac:(lia)) as Hk. replace (127 - (128 - p)) with (p - 1) in Hk by lia. replace (128 - (128 - p)) with p in Hk by lia.
  rewrite (Z.shiftr_div_pow2 S) in Hf by lia. fold k l in Hf, Hk. assert (2 ^ p <= 2 ^ 64) as Hp64 by (apply Z.pow_le_mono_r; lia). pose proof (pow2_pos (p - 1) ltac:(lia)) as Hpp.
  assert ((if goes_up (rounding e) s k l then u128 (k + 1) else k) = r) as Er.
  { unfold r, choose. destruct (goes_up _ _ _ _); [| done]. apply Z.mod_small. lia. }
  rewrite Er in Hf. pose proof (choose_range (rounding e) s k l) as Hr. fold r in Hr.
  pose proof (carry_code e Hw r ltac:(lia)) as Ec. replace (64 - (64 - p)) with p in Ec by lia. rewrite Ec in Hf.
  destruct (Z.eqb_spec r (2 ^ p)) as [E2 | E2].
  - rewrite E2 in *. destruct ((xp + 1 <? unbias EXP_MIN) || (xp + 1 >? unbias EXP_MAX)) eqn:Ex; [done |]. injection Hf as <- <- <-.
    assert (unbias EXP_MIN <= xp + 1 <= unbias EXP_MAX) as Hx by lia. rewrite Z.shiftr_div_pow2 by lia. replace (2 ^ p / 2 ^ 1) with (2 ^ (p - 1)) by (rewrite Z.pow_sub_r by lia; done).
    destruct (packed_normal s e Hw (2 ^ (p - 1)) (xp + 1)) as (Hf1 & Hf2 & Hf3); [split; [lia | apply Z.pow_lt_mono_r; lia] | done |].
    pose proof (packed_plain (2 ^ (p - 1)) (xp + 1) ltac:(split; [lia | apply Z.pow_lt_mono_r; lia]) Hx) as Ep.
    rewrite Ep in *. do 3 (split; [done || lia |]). split; [done |]. split; [done |]. split; [done |]. rewrite Hf2. split; [| done]. assert (0 <= place xp) by (apply place_nonneg; unfold unbias, EXP_MIN, BIAS80 in *; lia).
    rewrite <- !Z.pow_add_r by (unfold place in *; lia). f_equal. unfold place. lia.
  - destruct ((xp <? unbias EXP_MIN) || (xp >? unbias EXP_MAX)) eqn:Ex; [done |]. injection Hf as <- <- <-.
    assert (unbias EXP_MIN <= xp <= unbias EXP_MAX) as Hx by lia. destruct (packed_normal s e Hw r xp ltac:(lia) Hx) as (Hf1 & Hf2 & Hf3).
    pose proof (packed_plain r xp ltac:(lia) Hx) as Ep.
    rewrite Ep in *. do 3 (split; [done || lia |]). split; [done |]. split; [done |]. split; [done |]. rewrite Hf2. split; [| done]. do 2 f_equal. unfold place. lia.
Qed.
(** One binade below the normal range, rounding up to it is rounding up at the
    last place of the denormals too. *)
Lemma round_up_to_normal S : 2 ^ 127 <= S < 2 ^ 128 -> choose (rounding e) s (S / 2 ^ (128 - p)) (loc_of S (128 - p)) = 2 ^ p ->
  choose (rounding e) s (S / 2 ^ (129 - p)) (loc_of S (129 - p)) = 2 ^ (p - 1) /\ S / 2 ^ (129 - p) < 2 ^ p /\ 0 <= S / 2 ^ (129 - p).
Proof using Hw Hm.
  intros HS Hr. pose proof (width_bounds p Hw) as Hp. pose proof (div_range S 127 128 (128 - p) HS ltac:(lia) ltac:(lia)) as Hk. replace (127 - (128 - p)) with (p - 1) in Hk by lia. replace (128 - (128 - p)) with p in Hk by lia.
  assert (2 ^ p = 2 * 2 ^ (p - 1)) as E2 by (rewrite <- pow2_succ by lia; f_equal; lia). assert (2 ^ (p - 1) = 2 * 2 ^ (p - 2)) as E3 by (rewrite <- pow2_succ by lia; f_equal; lia). pose proof (pow2_pos (p - 2) ltac:(lia)).
  set (q := 2 ^ (128 - p)) in *. assert (2 ^ (129 - p) = 2 * q) as Eq by (unfold q; rewrite <- pow2_succ by lia; f_equal; lia). assert (0 < q) as Hq by (apply pow2_pos; lia).
  pose proof (Z.div_mod S q ltac:(lia)) as Ed. pose proof (Z.mod_pos_bound S q Hq) as Hrem. unfold choose in Hr. destruct (goes_up _ _ _ _) eqn:Hg; [| lia].
  assert (S mod q <> 0) as Hnz.
  { intros E0. unfold loc_of in Hg. fold q in Hg. rewrite E0 in Hg. done. }
  assert (S = 2 * q * (2 ^ (p - 1) - 1) + (q + S mod q)) as ES by nia. assert (S / 2 ^ (129 - p) = 2 ^ (p - 1) - 1) as Ek by (rewrite Eq; symmetry; apply Z.div_unique with (q + S mod q); lia).
  assert (S mod 2 ^ (129 - p) = q + S mod q) as Em by (rewrite Eq; symmetry; apply Z.mod_unique with (2 ^ (p - 1) - 1); lia).
  split; [| lia]. rewrite Ek. unfold choose, loc_of, goes_up. rewrite Em, Hm. simpl direct. replace (129 - p - 1) with (128 - p) by lia. fold q.
  rewrite (proj2 (Z.eqb_neq (q + S mod q) 0)) by lia. rewrite (proj2 (Z.compare_gt_iff (q + S mod q) q)) by lia. lia.
Qed.

Lemma fast_delivers i S xp f ix up : 2 ^ 127 <= S < 2 ^ 128 -> 0 <= i <= 60 -> - 100000 <= xp -> stands i c S (place xp) ->
  f80_fast_finish S xp s p = Some (f, ix, up) -> delivers s c e (f, after_fast e ix up).
Proof using All.
  intros HS Hi Hxp Hst Hf. pose proof (width_bounds p Hw) as Hp. pose proof (place_nonneg xp Hxp) as HE. destruct (fast_pack S xp f ix up HS Hf) as (-> & -> & Hk & Hx & Hfin & Hs & Hmag & Hle).
  pose proof (stands_at i c S (place xp) (128 - p) ltac:(lia) ltac:(lia) HE Hst) as Hat. set (k := S / 2 ^ (128 - p)) in *. set (l := loc_of S (128 - p)) in *. set (r := choose (rounding e) s k l) in *. set (j := place xp + (128 - p)) in *.
  pose proof (pow2_pos (p - 1) ltac:(lia)). assert (2 <= jmin p) as Hjm by (unfold jmin, U, unbias, EXP_MIN, BIAS80; lia).
  destruct (at_flags c (2 ^ j) k l (rounding e) s (pow2_pos j ltac:(lia)) Hat) as [F1 F2]. fold r in F1, F2.
  assert (jmin p - 1 <= j) as Hj by (destruct (r =? 2 ^ p); unfold j, jmin, place in *; lia).
  assert (rounds (rounding e) s p (jmin p - 1) c (r * 2 ^ j)) as HT by (apply rounds_at; auto; lia).
  assert (rounds (rounding e) s p (jmin p) c (r * 2 ^ j)) as HR.
  { destruct (decide (jmin p <= j)) as [Hj' | Hj']; [apply rounds_at; auto; lia |]. assert (r = 2 ^ p) as Er by (destruct (Z.eqb_spec r (2 ^ p)); [done | unfold j, jmin, place in *; lia]).
    destruct (round_up_to_normal S HS Er) as (Er' & H1 & H2). pose proof (stands_at i c S (place xp) (129 - p) ltac:(lia) ltac:(lia) HE Hst) as Hat'.
    replace (place xp + (129 - p)) with (jmin p) in Hat' by lia. pose proof (rounds_at (rounding e) s p (jmin p) c (jmin p) _ _ ltac:(lia) ltac:(lia) ltac:(lia) (conj H2 H1) ltac:(by left) Hat') as HR. rewrite Er' in HR.
    replace (r * 2 ^ j) with (2 ^ (p - 1) * 2 ^ jmin p); [done |]. rewrite Er, <- !Z.pow_add_r by lia. f_equal. lia. }
  exists (r * 2 ^ j), (r * 2 ^ j). split; [done |]. split; [done |]. rewrite <- Hmag, (proj2 (Z.leb_le _ _) Hle). cbn [fst snd]. do 3 (split; [done |]).
  rewrite (proj2 (Z.ltb_ge (mag f) min_normal)).
  - unfold after_fast, flagged. rewrite F1, F2, Hmag. by rewrite andb_false_l.
  - rewrite Hmag. destruct (decide (jmin p <= j)) as [Hj' | Hj']; [apply (min_normal_le e Hw); [unfold r; pose proof (choose_range (rounding e) s k l); lia | done] |].
    assert (r = 2 ^ p) as -> by (destruct (Z.eqb_spec r (2 ^ p)); [done | unfold j, jmin, place in *; lia]). unfold min_normal. rewrite <- Z.pow_add_r by lia. apply Z.pow_le_mono_r; [lia |]. unfold jmin in *. lia.
Qed.
End finish.

(** ** Schoolbook division *)

Section divlu.
Context (vn1 vn0 u1 un : Z).
Hypothesis Hv1 : 2 ^ 31 <= vn1 < 2 ^ 32.
Hypothesis Hv0 : 0 <= vn0 < 2 ^ 32.
Hypothesis Hun : 0 <= un < 2 ^ 32.
Notation v := (vn1 * 2 ^ 32 + vn0).
Notation N := (u1 * 2 ^ 32 + un).
Hypothesis Hu1 : 0 <= u1 < v.

Lemma digit_below : N / v < 2 ^ 32.
Proof using All. apply Z.div_lt_upper_bound; lia. Qed.

(** The estimate of a quotient digit never falls below it, is at most two too
    large, and the loop brings it down. *)
Lemma divlu_fix_correct fuel q rhat : rhat = u1 - q * vn1 -> 0 <= rhat < 2 ^ 32 -> N / v <= q <= 2 ^ 32 + 1 -> 2 ^ 32 <= rhat + Z.of_nat (pred fuel) * vn1 -> (0 < fuel)%nat ->
  divlu_fix fuel q rhat vn1 vn0 un = Some (N / v).
Proof using All.
  revert q rhat. induction fuel as [| fuel IH]; intros q rhat Er Hr Hq Hf H0; [lia |]. pose proof digit_below as Hd. pose proof (Z.div_mod N v ltac:(lia)) as Ed. pose proof (Z.mod_pos_bound N v ltac:(lia)) as Em.
  assert (0 <= N / v) as Hnn by (apply Z.div_pos; lia). cbn [divlu_fix].
  assert (0 <= q * vn0 <= (2 ^ 32 + 1) * (2 ^ 32 - 1)) as Hqv by (split; [apply Z.mul_nonneg_nonneg; lia | apply Z.mul_le_mono_nonneg; lia]).
  rewrite (u64_small (q * vn0)), (u64_small (2 ^ 32 * rhat)), (u64_small (2 ^ 32 * rhat + un)) by lia.
  destruct ((q >=? 2 ^ 32) || (q * vn0 >? 2 ^ 32 * rhat + un)) eqn:Ec.
  - assert (N / v <= q - 1) as Hq'.
    { apply orb_true_iff in Ec as [Ec | Ec]; [lia |]. rewrite Z.gtb_lt in Ec. assert (N < v * q) by lia. assert (N / v < q) by (apply Z.div_lt_upper_bound; lia). lia. }
    rewrite (u64_small (q - 1)), (u64_small (rhat + vn1)) by lia. destruct (Z.geb_spec (rhat + vn1) (2 ^ 32)) as [Hge | Hlt].
    + f_equal. apply Z.le_antisymm; [| done]. apply Z.div_le_lower_bound; [lia |].
      assert ((q - 1) * vn0 <= 2 ^ 32 * (2 ^ 32 - 1)) by (apply Z.mul_le_mono_nonneg; lia). lia.
    + apply IH; [lia | lia | lia | | destruct fuel; simpl in Hf; lia]. destruct fuel as [| fuel]; simpl pred in *; lia.
  - f_equal. apply orb_false_iff in Ec as [Ec1 Ec2]. apply Z.le_antisymm; [| lia]. apply Z.div_le_lower_bound; [lia |]. rewrite Z.gtb_ltb, Z.ltb_ge in Ec2. lia.
Qed.

Lemma divlu_digit : let q := u1 / vn1 in
  divlu_fix 3 q (u64 (u1 - u64 (q * vn1))) vn1 vn0 un = Some (N / v).
Proof using All.
  intros q. pose proof (Z.div_mod u1 vn1 ltac:(lia)) as Ed. pose proof (Z.mod_pos_bound u1 vn1 ltac:(lia)) as Em. fold q in Ed. assert (0 <= q) by (apply Z.div_pos; lia).
  assert (q <= 2 ^ 32 + 1) as Hq by (assert (q < 2 ^ 32 + 2) by (apply Z.div_lt_upper_bound; lia); lia).
  assert (0 <= q * vn1) by (apply Z.mul_nonneg_nonneg; lia). assert (0 <= q * vn0) by (apply Z.mul_nonneg_nonneg; lia).
  rewrite (u64_small (q * vn1)) by lia. rewrite u64_small by lia. apply divlu_fix_correct; [ring | lia | | simpl; lia | lia].
  split; [| done]. assert (N / v < q + 1); [| lia]. apply Z.div_lt_upper_bound; lia.
Qed.
End divlu.

Theorem f80_divlu_correct u1 u0 v : 2 ^ 63 <= v < 2 ^ 64 -> 0 <= u1 < v -> 0 <= u0 < 2 ^ 64 ->
  f80_divlu u1 u0 v = Some ((u1 * 2 ^ 64 + u0) / v, (u1 * 2 ^ 64 + u0) mod v).
Proof.
  intros Hv Hu1 Hu0. unfold f80_divlu. change 0xffffffff with (2 ^ 32 - 1). rewrite !land_low, !Z.shiftr_div_pow2 by lia.
  pose proof (Z.div_mod v (2 ^ 32) ltac:(lia)) as Ev. pose proof (Z.mod_pos_bound v (2 ^ 32) ltac:(lia)) as Hv0. pose proof (Z.div_mod u0 (2 ^ 32) ltac:(lia)) as Eu. pose proof (Z.mod_pos_bound u0 (2 ^ 32) ltac:(lia)) as Hl0.
  set (vn1 := v / 2 ^ 32) in *. set (vn0 := v mod 2 ^ 32) in *. set (un1 := u0 / 2 ^ 32) in *. set (un0 := u0 mod 2 ^ 32) in *.
  assert (v = vn1 * 2 ^ 32 + vn0) as Ev' by lia. assert (2 ^ 31 <= vn1 < 2 ^ 32) as Hv1 by lia. assert (0 <= un1 < 2 ^ 32) as Hl1 by lia.
  rewrite (divlu_digit vn1 vn0 u1 un1) by lia. rewrite <- Ev'. cbn [mbind option_bind]. set (N1 := u1 * 2 ^ 32 + un1). pose proof (Z.div_mod N1 v ltac:(lia)) as E1. pose proof (Z.mod_pos_bound N1 v ltac:(lia)) as R1.
  assert (0 <= N1 / v < 2 ^ 32) as Hq1 by (unfold N1; split; [apply Z.div_pos; lia | apply Z.div_lt_upper_bound; lia]).
  assert (u64 (u64 (u64 (u1 * 2 ^ 32) + un1) - u64 (N1 / v * v)) = N1 mod v) as ->.
  { unfold u64, wrap. rewrite Zplus_mod_idemp_l, <- Zminus_mod. fold N1. replace (N1 - N1 / v * v) with (N1 mod v) by lia. apply Z.mod_small. lia. }
  rewrite (divlu_digit vn1 vn0 (N1 mod v) un0) by lia. rewrite <- Ev'. cbn [mbind option_bind]. set (N2 := N1 mod v * 2 ^ 32 + un0). pose proof (Z.div_mod N2 v ltac:(lia)) as E2. pose proof (Z.mod_pos_bound N2 v ltac:(lia)) as R2.
  assert (0 <= N2 / v < 2 ^ 32) as Hq2 by (unfold N2; split; [apply Z.div_pos; lia | apply Z.div_lt_upper_bound; lia]).
  assert (u64 (u64 (u64 (N1 mod v * 2 ^ 32) + un0) - u64 (N2 / v * v)) = N2 mod v) as ->.
  { unfold u64, wrap. rewrite Zplus_mod_idemp_l, <- Zminus_mod. fold N2. replace (N2 - N2 / v * v) with (N2 mod v) by lia. apply Z.mod_small. lia. }
  rewrite (u64_small (N1 / v * 2 ^ 32)), (u64_small (N1 / v * 2 ^ 32 + N2 / v)) by lia.
  assert (u1 * 2 ^ 64 + u0 = v * (N1 / v * 2 ^ 32 + N2 / v) + N2 mod v) as E by (unfold N2 in *; unfold N1 in *; lia).
  f_equal. f_equal; [apply Z.div_unique with (N2 mod v); lia | apply Z.mod_unique with (N1 / v * 2 ^ 32 + N2 / v); lia].
Qed.

(** ** The three operations *)

Lemma fast_normal_finite f : in_range f -> f80_fast_normal f = true -> finite f /\ exp f <> 0 /\ 2 ^ 63 <= signif f < 2 ^ 64 /\ unbias_denormal (exp f) = unbias (exp f).
Proof.
  intros Hr Hn. unfold f80_fast_normal, EXP_MIN, EXP_MAX in Hn. rewrite Z.shiftr_div_pow2 in Hn by lia. pose proof Hr as ((H1 & H2) & _).
  assert (exp f <> 0 /\ exp f <> EXP_SPECIAL) as [He Hs] by (unfold EXP_SPECIAL; lia). assert (2 ^ 63 <= signif f) as H63 by (destruct (decide (2 ^ 63 <= signif f)); [done |]; rewrite Z.div_small in Hn; lia).
  split; [split; [done |]; split; [by apply supported_normal | done] |]. split; [done |]. split; [lia |]. unfold unbias_denormal. by rewrite (proj2 (Z.eqb_neq _ EXP_DENORMAL)).
Qed.

Section agree.
Context (e : fenv) (a b : float80).
Hypothesis Hw : width (precision e).
Hypothesis Hm : rounding e = round_to_nearest.
Hypothesis Ra : in_range a.
Hypothesis Rb : in_range b.
Notation p := (precision e).

Lemma mul_fast_agrees f ix up : f80_mul_fast a b p = Some (f, ix, up) -> f80_mul a b e = (f, after_fast e ix up).
Proof using All.
  unfold f80_mul_fast. destruct (f80_fast_normal a) eqn:Na; [| done]. destruct (f80_fast_normal b) eqn:Nb; [| done]. cbn [negb orb].
  destruct (fast_normal_finite a Ra Na) as (Fa & _ & Sa & Ua), (fast_normal_finite b Rb Nb) as (Fb & _ & Sb & Ub). rewrite <- Ua, <- Ub. intros Hf.
  assert (Cut (rat (mag a * mag b) (2 ^ U))) as Hc by apply rat_cut, pow2_pos, U_nonneg. eapply (delivers_unique _ _ e); [done | by apply mul_delivers |].
  pose proof (exp_range a Fa). pose proof (exp_range b Fb). pose proof (mag_mul a b Fa Fb) as Em. set (xp := unbias_denormal (exp a) + unbias_denormal (exp b) + 1) in *.
  assert (forall n, rat (mag a * mag b) (2 ^ U) n = (signif a * signif b * 2 ^ place xp ?= n)) as Hex by (intros n; unfold rat; rewrite Em; apply compare_scale, pow2_pos, U_nonneg).
  assert (2 ^ 126 <= signif a * signif b < 2 ^ 128) as HP by (split; [apply (Z.mul_le_mono_nonneg (2 ^ 63) _ (2 ^ 63)); lia | apply (Z.mul_lt_mono_nonneg _ (2 ^ 64) _ (2 ^ 64)); lia]).
  rewrite Z.shiftr_div_pow2 in Hf by lia. destruct (Z.eqb_spec (signif a * signif b / 2 ^ 127) 0) as [E0 | E0].
  - apply Z.div_small_iff in E0; [| lia]. rewrite Z.shiftl_mul_pow2 in Hf by lia. change (2 ^ 1) with 2 in Hf. unfold u128, wrap in Hf. rewrite Z.mod_small in Hf by lia.
    eapply (fast_delivers _ _ e Hw Hm 0); [| | | | exact Hf]; [lia | lia | unfold xp; lia |]. apply exact_stands; [apply place_nonneg; unfold xp; lia |]. intros n. rewrite Hex. f_equal.
    replace (place xp) with (1 + place (xp - 1)) by (unfold place; lia). rewrite Z.pow_add_r by (try apply place_nonneg; unfold xp; lia). change (2 ^ 1) with 2. ring.
  - eapply (fast_delivers _ _ e Hw Hm 0); [| | | | exact Hf]; [| lia | unfold xp; lia |].
    + split; [| lia]. destruct (decide (2 ^ 127 <= signif a * signif b)); [done |]. rewrite Z.div_small in E0; lia.
    + apply exact_stands; [apply place_nonneg; unfold xp; lia | done].
Qed.

Lemma div_fast_agrees f ix up : f80_div_fast a b p = Some (f, ix, up) -> f80_div a b e = (f, after_fast e ix up).
Proof using All.
  unfold f80_div_fast. destruct (f80_fast_normal a) eqn:Na; [| done]. destruct (f80_fast_normal b) eqn:Nb; [| done]. cbn [negb orb].
  destruct (fast_normal_finite a Ra Na) as (Fa & _ & Sa & Ua), (fast_normal_finite b Rb Nb) as (Fb & _ & Sb & Ub). rewrite <- Ua, <- Ub.
  assert (Z.shiftr (signif a) 1 * 2 ^ 64 + u64 (Z.shiftl (signif a) 63) = signif a * 2 ^ 63) as En.
  { rewrite Z.shiftr_div_pow2, Z.shiftl_mul_pow2 by lia. change (2 ^ 1) with 2. unfold u64, wrap. change (2 ^ 64) with (2 * 2 ^ 63) at 2. rewrite Zmult_mod_distr_r. pose proof (Z.div_mod (signif a) 2). lia. }
  rewrite f80_divlu_correct; [| lia | rewrite Z.shiftr_div_pow2 by lia; change (2 ^ 1) with 2; split; [apply Z.div_pos; lia | apply Z.div_lt_upper_bound; lia] | apply Z.mod_pos_bound; lia]. rewrite En. cbn [mbind option_bind].
  pose proof (Z.mod_pos_bound (signif a * 2 ^ 63) (signif b) ltac:(lia)) as Hr. rewrite f80_divlu_correct by lia. rewrite Z.add_0_r. cbn [mbind option_bind].
  pose proof (long_division (signif a * 2 ^ 63) (signif b) ltac:(lia) ltac:(lia)) as Hl. cbv zeta in Hl. rewrite !(Z.shiftl_mul_pow2 (_ mod _)) in Hl by lia. rewrite Hl. clear Hl.
  set (n := signif a * 2 ^ 63) in *. set (h := n / signif b). pose proof (Z.div_mod n (signif b) ltac:(lia)) as Ed. fold h in Ed.
  assert (2 ^ 62 <= h < 2 ^ 64) as Hh by (unfold h, n; split; [apply Z.div_le_lower_bound; lia | apply Z.div_lt_upper_bound; lia]).
  assert (62 <= Z.log2 h < 64) as Hlog by (split; [apply Z.log2_le_pow2; lia | apply Z.log2_lt_pow2; lia]). unfold clz64. set (z := 63 - Z.log2 h) in *.
  assert (2 ^ 63 <= h * 2 ^ z < 2 ^ 64) as Hz by (pose proof (left_justified h 64 ltac:(lia) ltac:(lia)) as Hj; by replace (64 - 1 - Z.log2 h) with z in Hj by (unfold z; lia)).
  assert (h * 2 ^ 64 <= fold_sticky (n * 2 ^ 64) (signif b) < 2 * ((h + 1) * 2 ^ 63)) as Hq by (apply fold_sticky_within; lia).
  assert (n * 2 ^ 64 = signif a * 2 ^ 0 * 2 ^ 127) as En2 by (unfold n; change (2 ^ 0) with 1; lia). set (q := fold_sticky (n * 2 ^ 64) (signif b)) in *.
  assert (2 ^ 127 <= q * 2 ^ z < 2 ^ 128) as HS by (assert (z = 0 \/ z = 1) as [E0 | E0] by lia; rewrite E0 in *; [change (2 ^ 0) with 1 in * | change (2 ^ 1) with 2 in *]; lia).
  rewrite Z.shiftl_mul_pow2 by lia. unfold u128, wrap. rewrite Z.mod_small by lia. intros Hf. pose proof (exp_range a Fa). pose proof (exp_range b Fb).
  assert (mag b <> 0) as Hb0 by (rewrite (mag_zero b Fb); lia). pose proof (mag_nonneg b Fb). assert (Cut (rat (mag a * 2 ^ U) (mag b))) as Hc by (apply rat_cut; lia).
  eapply (delivers_unique _ _ e); [done | by apply div_delivers |]. eapply (fast_delivers _ _ e Hw Hm (1 + z)); [exact HS | lia | | | exact Hf]; [lia |].
  pose proof (div_stands a b 0 0 Fa Fb ltac:(lia) ltac:(lia) ltac:(lia)) as Hst. rewrite <- En2, Z.mul_1_r, !Z.sub_0_r in Hst. fold q in Hst. apply (stands_up 1 _ _ _ z) in Hst; [| lia | lia].
  replace (place (unbias_denormal (exp a) - unbias_denormal (exp b) - z)) with (place (unbias_denormal (exp a) - unbias_denormal (exp b)) - z) by (unfold place; lia). exact Hst.
Qed.

(** A significand that is exact, shifted to the left edge. *)
Lemma exact_fast_delivers v D xp sg f ix up : 0 < D < 2 ^ 128 -> - 20000 <= xp <= 20000 -> v = D * 2 ^ place xp -> let z := 127 - Z.log2 D in
  f80_fast_finish (D * 2 ^ z) (xp - z) sg p = Some (f, ix, up) -> delivers sg (rat v 1) e (f, after_fast e ix up).
Proof using Hw Hm.
  intros HD Hxp Ev z Hfin. pose proof (log2_bounds D 128 HD). pose proof (left_justified D 128 HD ltac:(lia)) as Hj. replace (128 - 1 - Z.log2 D) with z in Hj by lia.
  eapply (fast_delivers _ _ e Hw Hm 0); [| | | | exact Hfin]; [done | lia | lia |]. apply exact_stands; [apply place_nonneg; lia |].
  intros n. unfold rat. rewrite Z.mul_1_r, Ev, <- Z.mul_assoc, <- Z.pow_add_r by (try apply place_nonneg; lia). do 3 f_equal. unfold place. lia.
Qed.

Section aligned.
Context (A B xp : Z) (f : float80) (ix up : bool).
Hypothesis HA : 2 ^ 127 <= A < 2 ^ 128.
Hypothesis HB : 0 <= B < 2 ^ 128.
Hypothesis Hxp : - 20000 <= xp <= 20000.

Lemma sum_fast_delivers sg :
  (if A + B >=? 2 ^ 128 then f80_fast_finish (Z.lor (Z.lor (Z.shiftr (u128 (A + B)) 1) (Z.land (u128 (A + B)) 1)) (Z.shiftl 1 127)) (xp + 1) sg p
   else f80_fast_finish (A + B) xp sg p) = Some (f, ix, up) -> delivers sg (rat ((A + B) * 2 ^ place xp) 1) e (f, after_fast e ix up).
Proof using Hw Hm HA HB Hxp.
  destruct (Z.geb_spec (A + B) (2 ^ 128)) as [Hge | Hlt]; intros Hf.
  - destruct (carried_sticky (A + B) ltac:(lia)) as [Ec Hr]. unfold u128_shift_right_sticky in Ec. cbn [Z.leb Z.gtb Z.compare Pos.compare Pos.compare_cont] in Ec. change (Z.shiftl 1 1 - 1) with 1 in Ec.
    rewrite land_1 in Ec, Hf. replace (negb (Z.b2z (Z.odd (u128 (A + B))) =? 0)) with (Z.odd (u128 (A + B))) in Ec by (by destruct (Z.odd _)). rewrite Ec in Hf.
    pose proof (place_nonneg xp ltac:(lia)) as HE. eapply (fast_delivers _ _ e Hw Hm 1); [exact Hr | lia | | | exact Hf]; [lia |].
    replace (place (xp + 1)) with (place xp + 1) by (unfold place; lia). apply (stands_sticky 1 _ (A + B) (place xp) 1); [lia | lia | done |].
    apply (stands_coarse 0); [lia | done |]. apply exact_stands; [done |]. intros n. unfold rat. by rewrite Z.mul_1_r.
  - apply (exact_fast_delivers _ (A + B) xp); [lia | done | done |].
    replace (Z.log2 (A + B)) with 127; [by rewrite Z.mul_1_r, Z.sub_0_r |]. symmetry. apply Z.log2_unique; [lia |]. change (Z.succ 127) with 128. lia.
Qed.

Lemma diff_fast_delivers sg D : 0 < D < 2 ^ 128 ->
  (let z := if Z.shiftr D 64 =? 0 then 64 + clz64 (u64 D) else clz64 (u64 (Z.shiftr D 64)) in f80_fast_finish (u128 (Z.shiftl D z)) (xp - z) sg p) = Some (f, ix, up) ->
  delivers sg (rat (D * 2 ^ place xp) 1) e (f, after_fast e ix up).
Proof using Hw Hm Hxp.
  intros HD Hf. pose proof (clz_code D HD) as Ez. unfold u128_clz in Ez. rewrite (proj2 (Z.eqb_neq D 0)) in Ez by lia. cbn [negb] in Ez. cbv zeta in Hf.
  replace (if Z.shiftr D 64 =? 0 then 64 + clz64 (u64 D) else clz64 (u64 (Z.shiftr D 64))) with (127 - Z.log2 D) in Hf by (rewrite <- Ez; by destruct (Z.shiftr D 64 =? 0)).
  pose proof (log2_bounds D 128 HD) as Hl. pose proof (left_justified D 128 HD ltac:(lia)) as Hj. change (128 - 1) with 127 in Hj.
  rewrite Z.shiftl_mul_pow2 in Hf by lia. unfold u128, wrap in Hf. rewrite Z.mod_small in Hf by lia. by apply (exact_fast_delivers _ D xp).
Qed.
End aligned.

(** What the aligned significands are. *)
Lemma aligned_mags x y : finite x -> finite y -> unbias_denormal (exp x) = unbias (exp x) -> unbias_denormal (exp y) = unbias (exp y) -> 0 <= exp x - exp y <= 63 ->
  let A := Z.shiftl (signif x) 64 in let B := Z.shiftr (Z.shiftl (signif y) 64) (exp x - exp y) in let E := place (unbias (exp x)) in
  mag x = A * 2 ^ E /\ mag y = B * 2 ^ E /\ A = signif x * 2 ^ 64 /\ 0 <= B < 2 ^ 128 /\ - 20000 <= unbias (exp x) <= 20000.
Proof using.
  intros Fx Fy Ux Uy Hd A B E. assert (exp y <= exp x) as Hexp by lia. pose proof (AB_range x y Fx Fy Hexp) as (HA & HB & HB'). pose proof (exp_range x Fx) as Xx. unfold E. rewrite <- Ux.
  assert (A = signif x * 2 ^ 64) as EA by (unfold A; apply Z.shiftl_mul_pow2; lia). assert (unbias_denormal (exp x) - unbias_denormal (exp y) = exp x - exp y) as Edd by (rewrite Ux, Uy; unfold unbias; lia).
  assert ((signif y * 2 ^ 64) mod 2 ^ (exp x - exp y) = 0) as Emod.
  { rewrite (pow2_split (exp x - exp y) 64) by lia. rewrite Z.mul_assoc, (Z.mul_comm (signif y)), <- Z.mul_assoc, Z.mul_comm. apply Z.mod_mul, Z.pow_nonzero; lia. }
  assert (B = sticky (signif y * 2 ^ 64) (exp x - exp y)) as EB by (unfold B; rewrite Z.shiftl_mul_pow2, Z.shiftr_div_pow2 by lia; by rewrite sticky_val, Emod).
  split; [rewrite EA; by apply (mag_a x y) |]. split; [| rewrite EB, <- Edd; auto].
  apply (Z.mul_cancel_r _ _ (2 ^ (exp x - exp y))); [apply Z.pow_nonzero; lia |]. rewrite <- Edd at 1. rewrite (mag_b x y), EB by done. rewrite <- (sticky_exact (signif y * 2 ^ 64) (exp x - exp y)) at 1; [ring | lia | done].
Qed.

(** The sum, the operand with the larger exponent first. *)
Lemma add_fast_aligned_delivers x y f ix up : finite x -> finite y -> 2 ^ 63 <= signif x -> unbias_denormal (exp x) = unbias (exp x) -> unbias_denormal (exp y) = unbias (exp y) -> exp y <= exp x ->
  add_fast_aligned x y p = Some (f, ix, up) ->
  let v := val x + val y in
  if v =? 0 then (f, after_fast e ix up) = (F80_ZERO, e) else delivers (v <? 0) (rat (Z.abs v) 1) e (f, after_fast e ix up).
Proof using Hw Hm.
  intros Fx Fy Sx Ux Uy Hexp Hf v. unfold add_fast_aligned in Hf. destruct (Z.gtb_spec (exp x - exp y) 63) as [| Hd]; [done |].
  destruct (aligned_mags x y Fx Fy Ux Uy ltac:(lia)) as (Mx & My & EA & HB & Hxp). destruct Fx as ((Ux' & _) & _). set (A := Z.shiftl (signif x) 64) in *. set (B := Z.shiftr _ _) in *. set (xp := unbias (exp x)) in *.
  assert (2 ^ 127 <= A < 2 ^ 128) as HA by lia. pose proof (pow2_pos (place xp) (place_nonneg xp ltac:(lia))) as Hq. clearbody A B xp. unfold v, val. destruct (eqb (sign x) (sign y)) eqn:Es.
  - apply eqb_prop in Es. rewrite <- Es in *. assert ((if sign x then - mag x else mag x) + (if sign x then - mag y else mag y) = if sign x then - ((A + B) * 2 ^ place xp) else (A + B) * 2 ^ place xp) as -> by (destruct (sign x); rewrite Mx, My; ring).
    assert (0 < (A + B) * 2 ^ place xp) as Hpos by (apply Z.mul_pos_pos; lia). pose proof (sum_fast_delivers A B xp f ix up HA HB Hxp (sign x) Hf) as Hs. set (w := (A + B) * 2 ^ place xp) in *.
    rewrite (proj2 (Z.eqb_neq (if sign x then - w else w) 0)) by (destruct (sign x); lia). replace ((if sign x then - w else w) <? 0) with (sign x) by (destruct (sign x); lia).
    by replace (Z.abs (if sign x then - w else w)) with w by (destruct (sign x); lia).
  - assert ((if sign x then - mag x else mag x) + (if sign y then - mag y else mag y) = if sign x then - ((A - B) * 2 ^ place xp) else (A - B) * 2 ^ place xp) as -> by (destruct (sign x), (sign y); try done; rewrite Mx, My; ring).
    assert ((if A >=? B then (A - B, sign x) else (B - A, sign y)) = (Z.abs (A - B), if A >=? B then sign x else sign y)) as Ed by (destruct (Z.geb_spec A B); f_equal; lia). rewrite Ed in Hf.
    destruct (Z.eqb_spec (Z.abs (A - B)) 0) as [E0 | E0].
    + injection Hf as <- <- <-. replace (A - B) with 0 by lia. rewrite Z.mul_0_l. change (- 0) with 0. replace (if sign x then 0 else 0) with 0 by (by destruct (sign x)). simpl. unfold after_fast. rewrite !orb_false_r. by destruct e.
    + assert (0 < Z.abs (A - B) < 2 ^ 128) as HD by lia. pose proof (diff_fast_delivers xp f ix up Hxp _ _ HD Hf) as Hs.
      assert (Z.abs ((A - B) * 2 ^ place xp) = Z.abs (A - B) * 2 ^ place xp) as Ew by (rewrite Z.abs_mul, (Z.abs_eq (2 ^ _)) by lia; done). assert (0 < Z.abs (A - B) * 2 ^ place xp) by (apply Z.mul_pos_pos; lia).
      set (w := (A - B) * 2 ^ place xp) in *. rewrite (proj2 (Z.eqb_neq (if sign x then - w else w) 0)) by (destruct (sign x); lia). replace (Z.abs (if sign x then - w else w)) with (Z.abs w) by (destruct (sign x); lia). rewrite Ew.
      replace ((if sign x then - w else w) <? 0) with (if A >=? B then sign x else sign y); [done |]. clear - Hq E0 Es.
      destruct (Z.geb_spec A B); symmetry; [assert (0 < w) by (apply Z.mul_pos_pos; lia) | assert (0 < - w) by (unfold w; rewrite <- Z.mul_opp_l; apply Z.mul_pos_pos; lia)]; destruct (sign x), (sign y); try done; lia.
Qed.

Lemma add_fast_agrees f ix up : f80_add_fast a b p = Some (f, ix, up) -> f80_add a b e = Some (f, after_fast e ix up).
Proof using All.
  unfold f80_add_fast. destruct (f80_fast_normal a) eqn:Na; [| done]. destruct (f80_fast_normal b) eqn:Nb; [| done]. cbn [negb orb].
  destruct (fast_normal_finite a Ra Na) as (Fa & _ & Sa & Ua), (fast_normal_finite b Rb Nb) as (Fb & _ & Sb & Ub). intros Hf.
  assert (let v := val a + val b in if v =? 0 then (f, after_fast e ix up) = (F80_ZERO, e) else delivers (v <? 0) (rat (Z.abs v) 1) e (f, after_fast e ix up)) as Hd.
  { destruct (Z.ltb_spec (exp a) (exp b)); [rewrite Z.add_comm |]; (eapply add_fast_aligned_delivers; [| | | | | | exact Hf]; (done || lia)). }
  pose proof (add_delivers a b e Hw Fa Fb) as Hg. cbv zeta in *. destruct (Z.eqb_spec (val a + val b) 0) as [Ev | Ev].
  - rewrite Hg, !iszero_mag by done. assert (mag a <> 0) by (rewrite (mag_zero a Fa); lia). rewrite (proj2 (Z.eqb_neq (mag a) 0)) by done. rewrite !andb_false_l. unfold mode_is. rewrite Hm. injection Hd as -> ->. done.
  - destruct Hg as (r & -> & Hr). f_equal. by apply (delivers_unique (rat (Z.abs (val a + val b)) 1) (val a + val b <? 0) e).
Qed.
End agree.

(** ** The fast paths are the general operations *)

Inductive arith := Add | Mul | Div.

Definition fast (o : arith) : float80 -> float80 -> Z -> option (float80 * bool * bool) :=
  match o with Add => f80_add_fast | Mul => f80_mul_fast | Div => f80_div_fast end.
Definition general (o : arith) (a b : float80) (e : fenv) : option (float80 * fenv) :=
  match o with Add => f80_add a b e | Mul => Some (f80_mul a b e) | Div => Some (f80_div a b e) end.

Lemma fast_general o a b e f ix up : in_range a -> in_range b -> width (precision e) -> rounding e = round_to_nearest ->
  fast o a b (precision e) = Some (f, ix, up) -> general o a b e = Some (f, after_fast e ix up).
Proof.
  intros Ra Rb Hw Hm. destruct o; simpl.
  - by apply add_fast_agrees.
  - intros H. by rewrite (mul_fast_agrees e a b Hw Hm Ra Rb f ix up H).
  - intros H. by rewrite (div_fast_agrees e a b Hw Hm Ra Rb f ix up H).
Qed.

(** C27: where a fast path answers, rounding to nearest, it gives the result of
    the general operation and the flags that operation would have left. *)
Theorem f80_fast_agrees o a b e f ix up : in_range a -> in_range b -> width (precision e) -> rounding e = round_to_nearest ->
  fast o a b (precision e) = Some (f, ix, up) -> general o a b e = Some (f, after_fast e ix up).
Proof.
  exact (fast_general o a b e f ix up).
Qed.

(** 1/3 rounded to 53 bits. *)
Lemma f80_fast_agrees_witness :
  general Div (mk_f (2 ^ 63) (bias 0) false) (mk_f (3 * 2 ^ 62) (bias 1) false) (mk_env round_to_nearest 53 false false 0) =
  Some (mk_f 0xaaaaaaaaaaaaa800 (bias (-2)) false, mk_env round_to_nearest 53 true false 0).
Proof.
  apply (f80_fast_agrees Div (mk_f (2 ^ 63) (bias 0) false) (mk_f (3 * 2 ^ 62) (bias 1) false) (mk_env round_to_nearest 53 false false 0) _ true false).
  - vm_compute. intuition discriminate.
  - vm_compute. intuition discriminate.
  - right. left. reflexivity.
  - reflexivity.
  - vm_compute. reflexivity.
Defined.

(** The difference of 1 and its predecessor has no bit in its high word, which
    the code counts the leading zeros of before it looks. *)
Theorem fast_clz_of_zero :
  let a := mk_f (2 ^ 63) (bias 0) false in let b := mk_f (2 ^ 64 - 1) (bias (-1)) true in
  f80_fast_normal a = true /\ f80_fast_normal b = true /\ exp a - exp b <= 63 /\
  Z.shiftr (Z.shiftl (signif a) 64 - Z.shiftr (Z.shiftl (signif b) 64) (exp a - exp b)) 64 = 0 /\
  f80_add_fast a b 64 = Some (mk_f (2 ^ 63) (bias (-64)) false, false, false).
Proof. vm_compute. repeat split; try reflexivity; discriminate. Qed.
