(* ===== verification/Float80Cmp.v ===== *)
(** Comparison (f80_lt, f80_eq, f80_uncomparable of emu/float80.c).

    The code compares by subtracting and looking at the sign.  At 64 bits of
    precision that is right ([f80_compare_correct]); under a narrower
    precision control two numbers near the bottom of the range may differ by
    less than the subtraction can express ([close_numbers_compare_greater]). *)

From Stdlib Require Import ZifyBool.
From S2P Require Import Prelude Rounding Float80 Float80Sound Float80Arith.

(** The value with the infinities as numbers beyond every finite one. *)
Definition big : Z := 2 ^ (2 * U).
Definition xval (f : float80) : Z := if f80_isinf f then (if sign f then - big else big) else val f.

(** A number the comparison is defined for. *)
Definition ordered (f : float80) : Prop := in_range f /\ f80_is_supported f = true /\ f80_isnan f = false.

Lemma ordered_cases f : ordered f -> finite f \/ (f80_isinf f = true /\ f80_iszero f = false).
Proof.
  intros (Hr & Hs & Hn). destruct (decide (exp f = EXP_SPECIAL)) as [E | E]; [right | left; by split].
  unfold f80_isnan, f80_isinf, f80_iszero in *. rewrite E in *. simpl in *. split; [| done]. by destruct (_ =? 0).
Qed.

Lemma big_pos : 0 < big.
Proof. apply pow2_pos. pose proof U_nonneg. lia. Qed.

Lemma mag_big f : finite f -> mag f < big.
Proof.
  intros Hf. pose proof (exp_range f Hf) as Hx. pose proof (low_nonneg f Hf) as Hl. destruct Hf as ((Hs & _) & _). unfold mag, big. fold (low f).
  apply Z.lt_le_trans with (2 ^ 64 * 2 ^ low f); [apply Z.mul_lt_mono_pos_r; [apply pow2_pos; lia | lia] |]. rewrite <- Z.pow_add_r by lia. apply Z.pow_le_mono_r; [lia |]. unfold low, U. lia.
Qed.

Lemma val_big f : finite f -> - big < val f < big.
Proof. intros Hf. pose proof (mag_big f Hf). pose proof (mag_nonneg f Hf). unfold val. destruct (sign f); lia. Qed.

Lemma xval_finite f : finite f -> xval f = val f.
Proof. intros Hf. unfold xval. by rewrite (finite_not_inf f Hf). Qed.

(** Every finite number is a multiple of the smallest denormal. *)
Lemma val_multiple f : finite f -> exists k, val f = k * 2 ^ jmin 64.
Proof.
  intros Hf. pose proof (exp_bounds f Hf) as He. pose proof (low_nonneg f Hf). assert (jmin 64 <= low f) as Hj by (unfold jmin, low; lia). assert (0 <= jmin 64) by (by vm_compute).
  assert (mag f = signif f * 2 ^ (low f - jmin 64) * 2 ^ jmin 64) as E by (unfold mag; fold (low f); rewrite <- Z.mul_assoc, <- Z.pow_add_r by lia; do 2 f_equal; lia).
  unfold val. destruct (sign f); [exists (- (signif f * 2 ^ (low f - jmin 64))) | exists (signif f * 2 ^ (low f - jmin 64))]; lia.
Qed.

Definition same_mode (e e' : fenv) : Prop := rounding e' = rounding e /\ precision e' = precision e.

Lemma delivers_mode s c e r : delivers s c e r -> same_mode e (snd r).
Proof. intros (R & T & _ & _ & H). destruct (R <=? max_finite (precision e)); [destruct H as (_ & _ & _ & ->) | subst r]; done. Qed.

(** A difference that is not zero is not rounded to zero. *)
Lemma nonzero_delivers s e v r : precision e = 64 -> 2 ^ jmin 64 <= v -> delivers s (rat v 1) e r -> sign (fst r) = s /\ f80_iszero (fst r) = false.
Proof.
  intros Hp Hv (R & T & HR & _ & H). rewrite Hp in *. assert (2 ^ jmin 64 <= R) as HRv.
  { apply (rounds_ge (rounding e) s 64 (jmin 64) (rat v 1)); [by vm_compute | exists 1, (jmin 64); lia | | done]. unfold rat. intros Hlt. rewrite Z.compare_lt_iff in Hlt. lia. }
  assert (0 < R) as HR0 by (pose proof (pow2_pos (jmin 64) ltac:(by vm_compute)); lia). destruct (R <=? max_finite 64).
  - destruct H as (Hf & Hs & Hm & _). split; [done |]. rewrite (iszero_mag _ Hf), Hm. apply Z.eqb_neq. lia.
  - subst r. unfold overflowed. simpl. by destruct (direct (rounding e) s).
Qed.

Lemma lt_finite a b e : precision e = 64 -> finite a -> finite b ->
  exists e', f80_lt a b e = Some (val a <? val b, e') /\ same_mode e e'.
Proof.
  intros Hp Ha Hb. unfold f80_lt, f80_uncomparable. rewrite (proj1 (proj2 Ha)), (proj1 (proj2 Hb)), !finite_not_nan, !finite_not_inf by done. cbn [negb orb andb].
  assert (width (precision e)) as Hw by (rewrite Hp; right; by right). rewrite !iszero_mag by done.
  destruct ((mag a =? 0) && (mag b =? 0)) eqn:Ez.
  { exists e. split; [| done]. do 2 f_equal. unfold val. destruct (sign a), (sign b); lia. }
  pose proof (sub_delivers a b e Hw Ha Hb) as H. cbv zeta in H. destruct (Z.eqb_spec (val a - val b) 0) as [Ev | Ev].
  - rewrite H. exists e. split; [| done]. cbn [mbind option_bind]. do 2 f_equal. cbn [sign]. change (f80_iszero (mk_f 0 0 _)) with true. rewrite andb_false_r. lia.
  - destruct H as (r & -> & Hd). destruct (val_multiple a Ha) as [ka Ea], (val_multiple b Hb) as [kb Eb].
    destruct (nonzero_delivers (val a - val b <? 0) e (Z.abs (val a - val b)) r Hp) as [Hs Hz]; [| done |].
    { rewrite Ea, Eb in *. rewrite <- Z.mul_sub_distr_r in *. pose proof (pow2_pos (jmin 64) ltac:(by vm_compute)). rewrite Z.abs_mul, (Z.abs_eq (2 ^ _)) by lia.
      assert (ka - kb <> 0) by (intros E0; rewrite E0 in Ev; lia). rewrite <- (Z.mul_1_l (2 ^ jmin 64)) at 1. apply Z.mul_le_mono_nonneg_r; lia. }
    exists (snd r). split; [| by apply (delivers_mode _ _ _ _ Hd)]. destruct r as [f e']. simpl in *. rewrite Hs, Hz. cbn [mbind option_bind]. do 2 f_equal. lia.
Qed.

Lemma ordered_neg f : ordered f -> ordered (f80_neg f) /\ f80_isinf (f80_neg f) = f80_isinf f /\ f80_iszero (f80_neg f) = f80_iszero f.
Proof. by destruct f. Qed.

Lemma ordered_handle a b e : ordered a -> ordered b -> handle_nans a b e = None.
Proof. intros (_ & Sa & Na) (_ & Sb & Nb). unfold handle_nans, f80_issnan. rewrite Sa, Sb, Na, Nb. simpl. by rewrite Na, Nb. Qed.

Lemma lt_infinite a b e : ordered a -> ordered b -> f80_isinf a || f80_isinf b = true -> f80_lt a b e = Some (xval a <? xval b, e).
Proof.
  intros Oa Ob Hi. destruct (ordered_neg b Ob) as (Ob' & Ib & Zb). pose proof big_pos as Hbig.
  unfold f80_lt, f80_sub, f80_add. rewrite (ordered_handle a (f80_neg b) e Oa Ob'), Ib, Hi.
  assert (f80_uncomparable a b = false) as -> by (unfold f80_uncomparable; destruct Oa as (_ & -> & ->), Ob as (_ & -> & ->); done).
  destruct (ordered_cases a Oa) as [Fa | [Ia Za]], (ordered_cases b Ob) as [Fb | [Ib' Zb']].
  - rewrite (finite_not_inf a Fa), (finite_not_inf b Fb) in Hi. discriminate Hi.
  - rewrite Ib', Zb', (finite_not_inf a Fa), (xval_finite a Fa), andb_false_r. cbn [andb mbind option_bind]. rewrite Zb, Zb'. pose proof (val_big a Fa) as Hv. unfold xval. rewrite Ib'. cbn [sign f80_neg set_sign]. clear - Hv. generalize dependent big. intros big' Hv.
    destruct (sign b); cbn [negb andb]; do 2 f_equal; lia.
  - rewrite Ia, Za, (finite_not_inf b Fb), (xval_finite b Fb). cbn [andb mbind option_bind]. rewrite Za. pose proof (val_big b Fb) as Hv. unfold xval. rewrite Ia. clear - Hv. generalize dependent big. intros big' Hv. destruct (sign a); cbn [negb andb]; do 2 f_equal; lia.
  - rewrite Ia, Ib', Za. cbn [andb sign f80_neg set_sign]. unfold xval. rewrite Ia, Ib'. clear - Za Hbig. generalize dependent big. intros big' Hbig.
    destruct (sign a) eqn:E, (sign b); cbn [eqb negb mbind option_bind]; rewrite ?Za, ?E; cbn [negb andb]; do 2 f_equal; lia.
Qed.

Lemma lt_ordered a b e : precision e = 64 -> ordered a -> ordered b -> exists e', f80_lt a b e = Some (xval a <? xval b, e') /\ same_mode e e'.
Proof.
  intros Hp Oa Ob. destruct (f80_isinf a || f80_isinf b) eqn:Ei; [exists e; split; [by apply lt_infinite | done] |].
  apply orb_false_iff in Ei as [Ia Ib]. destruct (ordered_cases a Oa) as [Fa | [? _]]; [| congruence]. destruct (ordered_cases b Ob) as [Fb | [? _]]; [| congruence]. rewrite !xval_finite by done. by apply lt_finite.
Qed.

Lemma finite_eq_parts a b : finite a -> finite b -> sign a = sign b -> (exp a =? exp b) && (signif a =? signif b) = (mag a =? mag b).
Proof.
  intros Fa Fb Es. destruct (Z.eqb_spec (mag a) (mag b)) as [E | E].
  - destruct (mag_inj a b Fa Fb E) as [-> ->]. by rewrite !Z.eqb_refl.
  - apply andb_false_iff. destruct (Z.eqb_spec (exp a) (exp b)) as [E1 | E1]; [right | by left]. apply Z.eqb_neq. intros E2. apply E. unfold mag. by rewrite E1, E2.
Qed.

Lemma inf_parts f : ordered f -> f80_isinf f = true -> exp f = EXP_SPECIAL /\ signif f = 2 ^ 63.
Proof.
  intros (Hr & Hs & _) Hi. unfold f80_isinf in Hi. apply andb_true_iff in Hi as [He Hl]. apply Z.eqb_eq in He. split; [done |].
  apply (supported_normal f Hr ltac:(rewrite He; done)) in Hs. change (Z.shiftr (u64 (-1)) 1) with (2 ^ 63 - 1) in Hl. rewrite land_low in Hl by lia. apply Z.eqb_eq in Hl.
  destruct Hr as ((_ & Hu) & _). pose proof (Z.div_mod (signif f) (2 ^ 63) ltac:(lia)) as Ed. rewrite Hl in Ed. assert (signif f / 2 ^ 63 = 1) as E1; [| lia].
  symmetry. apply Z.div_unique with 0; lia.
Qed.

(** The code compares zeros as positive. *)
Definition plus_zero (f : float80) : float80 := if f80_iszero f then set_sign f false else f.

Lemma plus_zero_finite f : finite f -> finite (plus_zero f) /\ val (plus_zero f) = val f /\ (mag (plus_zero f) = 0 -> sign (plus_zero f) = false).
Proof.
  intros Hf. unfold plus_zero. rewrite (iszero_mag f Hf). destruct (Z.eqb_spec (mag f) 0) as [E | E]; [| done]. split; [by destruct f |]. split; [| done].
  unfold val. change (mag (set_sign f false)) with (mag f). rewrite E. by destruct (sign f).
Qed.

Lemma finite_eq a b : finite a -> finite b -> (mag a = 0 -> sign a = false) -> (mag b = 0 -> sign b = false) ->
  eqb (sign a) (sign b) && (exp a =? exp b) && (signif a =? signif b) = (val a =? val b).
Proof.
  intros Fa Fb Za Zb. rewrite <- andb_assoc. pose proof (mag_nonneg a Fa). pose proof (mag_nonneg b Fb). destruct (eqb (sign a) (sign b)) eqn:Es.
  - apply eqb_prop in Es. rewrite (finite_eq_parts a b Fa Fb Es). unfold val. rewrite Es. destruct (sign b); lia.
  - simpl. unfold val. destruct (decide (mag a = 0)) as [E | E]; [rewrite (Za E) in * | ]; (destruct (decide (mag b = 0)) as [E' | E']; [rewrite (Zb E') in * |]); try destruct (sign a); try destruct (sign b); try done; lia.
Qed.

Lemma eq_correct a b : ordered a -> ordered b -> f80_eq a b = (xval a =? xval b).
Proof.
  intros Oa Ob. pose proof big_pos as Hbig. unfold f80_eq. assert (f80_uncomparable a b = false) as -> by (unfold f80_uncomparable; destruct Oa as (_ & -> & ->), Ob as (_ & -> & ->); done).
  fold (plus_zero a) (plus_zero b). cbv zeta.
  assert (forall f, exp (plus_zero f) = exp f) as Ep by (intros f; unfold plus_zero; by destruct (f80_iszero f)).
  destruct (ordered_cases a Oa) as [Fa | [Ia Za]], (ordered_cases b Ob) as [Fb | [Ib Zb]].
  - rewrite !xval_finite by done. destruct (plus_zero_finite a Fa) as (Fa' & <- & Za), (plus_zero_finite b Fb) as (Fb' & <- & Zb). by apply finite_eq.
  - rewrite (xval_finite a Fa), !Ep. pose proof (val_big a Fa). destruct (inf_parts b Ob Ib) as [E1 _]. destruct Fa as (_ & _ & Hs). unfold xval. rewrite Ib, E1, (proj2 (Z.eqb_neq _ _) Hs), andb_false_r. destruct (sign b); lia.
  - rewrite (xval_finite b Fb), !Ep. pose proof (val_big b Fb). destruct (inf_parts a Oa Ia) as [E1 _]. destruct Fb as (_ & _ & Hs). unfold xval. rewrite Ia, E1, (Z.eqb_sym EXP_SPECIAL), (proj2 (Z.eqb_neq _ _) Hs), andb_false_r. destruct (sign a); lia.
  - unfold plus_zero. rewrite Za, Zb. destruct (inf_parts a Oa Ia) as [E1 E2], (inf_parts b Ob Ib) as [E3 E4]. rewrite E1, E2, E3, E4, !Z.eqb_refl. unfold xval. rewrite Ia, Ib. destruct (sign a), (sign b); cbn [eqb andb]; lia.
Qed.

(** At 64 bits of precision the comparisons are those of the values, zeros
    of either sign being equal and infinities beyond every finite number; what
    is not a number is neither less than nor equal to anything.  The rounding
    mode and precision are left alone. *)
Theorem f80_compare_correct a b e : precision e = 64 -> in_range a -> in_range b ->
  if f80_uncomparable a b then f80_lt a b e = Some (false, e) /\ f80_eq a b = false
  else (exists e', f80_lt a b e = Some (xval a <? xval b, e') /\ same_mode e e') /\ f80_eq a b = (xval a =? xval b).
Proof.
  intros Hp Ra Rb. destruct (f80_uncomparable a b) eqn:Eu.
  - unfold f80_lt, f80_eq. by rewrite Eu.
  - unfold f80_uncomparable in Eu. rewrite !orb_false_iff, !negb_false_iff in Eu. destruct Eu as (((Sa & Sb) & Na) & Nb).
    assert (ordered a /\ ordered b) as [Oa Ob] by done. split; [by apply lt_ordered | by apply eq_correct].
Qed.

Lemma f80_compare_correct_witness :
  let a := mk_f 1 0 true in let b := mk_f 0 0 true in f80_uncomparable a b = false /\
  (exists e', f80_lt a b default_env = Some (xval a <? xval b, e') /\ same_mode default_env e') /\ f80_eq a b = (xval a =? xval b).
Proof.
  intros a b. split; [reflexivity |]. apply (f80_compare_correct a b default_env).
  - reflexivity.
  - vm_compute. intuition discriminate.
  - vm_compute. intuition discriminate.
Defined.

(** With precision control at 53 bits the smallest normal number and its
    successor are neither equal nor in order: the comparison instructions
    report "greater" for the smaller one. *)
Theorem close_numbers_compare_greater :
  let a := mk_f (2 ^ 63) 1 false in let b := mk_f (2 ^ 63 + 1) 1 false in let e := mk_env round_to_nearest 53 false false 0 in
  val a < val b /\ (exists e', f80_lt a b e = Some (false, e')) /\ f80_eq a b = false.
Proof.
  intros a b e. split; [| split; [eexists; vm_compute; reflexivity | reflexivity]].
  unfold val, mag, a, b. cbn [sign signif exp]. apply Z.mul_lt_mono_pos_r; [apply pow2_pos; by vm_compute | lia].
Qed.
