(* ===== verification/Float80Conv.v ===== *)
(** Conversions of emu/float80.c: to and from 64-bit integers, to and from the
    IEEE formats of 32 and 64 bits, and rounding to an integral value.

    A double or float is its bits, as the code takes them apart. *)

From Stdlib Require Import ZifyBool.
From S2P Require Import Prelude Rounding Float80 Float80Sound Float80Arith.

(** ** The code *)

Definition f80_from_int (i : Z) : option float80 :=
  let f := mk_f (u64 i) (u15 (bias 63)) false in
  let f := if i =? 0 then set_exp f 0 else f in
  let f := if i <? 0 then mk_f (u64 (- u64 i)) (exp f) true else f in
  f80_normalize f.

Definition INT64_MIN : Z := - 2 ^ 63.
Definition INT64_MAX : Z := 2 ^ 63 - 1.

Definition f80_to_int (f : float80) (e : fenv) : Z * fenv :=
  if negb (f80_is_supported f) || (exp f >? bias 63) then (INT64_MIN, raise e F80_EXC_INVALID)
  else
    let '(f, e) := f80_shift_right f (bias 63 - exp f) e in
    if signif f >? INT64_MAX + Z.b2z (sign f) then
      (INT64_MIN, set_rounded_up (set_inexact (raise e F80_EXC_INVALID) false) false)
    else (s64 (if negb (sign f) then signif f else u64 (- signif f)), e).

Definition EXP64_SPECIAL := 0x7ff.
Definition EXP64_DENORMAL := 0x000.
Definition SIGNIF64_MASK := Z.shiftl 1 52 - 1.

Definition f80_from_double (bits : Z) (e : fenv) : option (float80 * fenv) :=
  let sg := negb (Z.shiftr bits 63 =? 0) in
  let xp := Z.land (Z.shiftr bits 52) 0x7ff in
  let frac := Z.land bits SIGNIF64_MASK in
  let fexp :=
    if xp =? EXP64_SPECIAL then EXP_SPECIAL
    else if xp =? EXP64_DENORMAL then (if frac =? 0 then 0 else bias (1 - 0x3ff))
    else bias (xp - 0x3ff) in
  let fsig := u64 (Z.shiftl frac 11) in
  let fsig := if negb (xp =? EXP64_DENORMAL) then Z.lor fsig CURSED_BIT else fsig in
  let f := mk_f fsig (u15 fexp) sg in
  let e := if (xp =? EXP64_DENORMAL) && negb (frac =? 0) then raise e F80_EXC_DENORMAL else e in
  let '(f, e) := if f80_issnan f then (quieten f, raise e F80_EXC_INVALID) else (f, e) in
  f ← f80_normalize f;
  Some (f, e).

Definition f80_from_float (bits : Z) (e : fenv) : option (float80 * fenv) :=
  let sg := negb (Z.shiftr bits 31 =? 0) in
  let xp := Z.land (Z.shiftr bits 23) 0xff in
  let frac := Z.land bits 0x7fffff in
  let fexp :=
    if xp =? 0xff then EXP_SPECIAL
    else if xp =? 0 then (if frac =? 0 then 0 else bias (1 - 0x7f))
    else bias (xp - 0x7f) in
  let fsig := u64 (Z.shiftl frac 40) in
  let fsig := if negb (xp =? 0) then Z.lor fsig CURSED_BIT else fsig in
  let f := mk_f fsig (u15 fexp) sg in
  let e := if (xp =? 0) && negb (frac =? 0) then raise e F80_EXC_DENORMAL else e in
  let '(f, e) := if f80_issnan f then (quieten f, raise e F80_EXC_INVALID) else (f, e) in
  f ← f80_normalize f;
  Some (f, e).

(** The finite nonzero case of f80_to_ieee, without the sign bit. *)
Definition ieee_finite (f : float80) (frac_bits exp_bits : Z) (e : fenv) : Z * fenv :=
  let ieee_bias := Z.shiftl 1 (exp_bits - 1) - 1 in
  let exp_special := Z.shiftl 1 exp_bits - 1 in
  let frac_mask := Z.shiftl 1 frac_bits - 1 in
  let lz := clz64 (signif f) in
  let sg := u64 (Z.shiftl (signif f) lz) in
  let xp := unbias_denormal (exp f) - lz in
  let tiny := xp <? 1 - ieee_bias in
  let shift := if tiny then 63 - frac_bits + (1 - ieee_bias - xp) else 63 - frac_bits in
  let caller_inexact := inexact e in
  let '(r, e) := u128_shift_right_round sg shift (sign f) (set_inexact e false) in
  let r := u64 r in
  let '(bits, e) :=
    if tiny then
      (r, if inexact e && (r <? Z.shiftl 1 frac_bits) then raise e F80_EXC_UNDERFLOW else e)
    else
      let carry := negb (Z.shiftr r (frac_bits + 1) =? 0) in
      let r := if carry then Z.shiftr r 1 else r in
      let xp := if carry then xp + 1 else xp in
      if xp >? ieee_bias then
        let to_max := mode_is e round_chop || (mode_is e round_up && sign f) || (mode_is e round_down && negb (sign f)) in
        (if to_max then Z.lor (u64 (Z.shiftl (exp_special - 1) frac_bits)) frac_mask else u64 (Z.shiftl exp_special frac_bits),
         set_rounded_up (set_inexact (raise e F80_EXC_OVERFLOW) true) (negb to_max))
      else (Z.lor (u64 (Z.shiftl (u64 (xp + ieee_bias)) frac_bits)) (Z.land r frac_mask), e) in
  (bits, set_inexact e (inexact e || caller_inexact)).

Definition f80_to_ieee (f : float80) (frac_bits exp_bits : Z) (e : fenv) : Z * fenv :=
  let exp_special := Z.shiftl 1 exp_bits - 1 in
  let frac_mask := Z.shiftl 1 frac_bits - 1 in
  let quiet := Z.shiftl 1 (frac_bits - 1) in
  let sg := Z.shiftl (Z.b2z (sign f)) (frac_bits + exp_bits) in
  if negb (f80_is_supported f) then (Z.lor (u64 (Z.shiftl exp_special frac_bits)) quiet, raise e F80_EXC_INVALID)
  else if exp f =? EXP_SPECIAL then
    if f80_isinf f then (Z.lor sg (u64 (Z.shiftl exp_special frac_bits)), e)
    else
      (Z.lor (Z.lor (Z.lor sg (u64 (Z.shiftl exp_special frac_bits))) (Z.land (Z.shiftr (signif f) (63 - frac_bits)) frac_mask)) quiet,
       if f80_issnan f then raise e F80_EXC_INVALID else e)
  else if f80_iszero f then (sg, e)
  else
    let '(bits, e) := ieee_finite f frac_bits exp_bits e in
    (Z.lor sg bits, e).

Definition f80_to_double (f : float80) (e : fenv) : Z * fenv := f80_to_ieee f 52 11 e.
Definition f80_to_float (f : float80) (e : fenv) : Z * fenv := let '(bits, e) := f80_to_ieee f 23 8 e in (u32 bits, e).

Definition f80_round (f : float80) (e : fenv) : option (float80 * fenv) :=
  if negb (f80_is_supported f) then Some (F80_NAN, raise e F80_EXC_INVALID)
  else if f80_issnan f then Some (quieten f, raise e F80_EXC_INVALID)
  else
    let bits_to_clear := 63 - unbias (exp f) in
    if bits_to_clear <=? 0 then Some (f, e)
    else
      let '(f, e) := f80_shift_right f bits_to_clear e in
      if signif f =? 0 then Some (set_exp f EXP_DENORMAL, e)
      else
        f ← f80_normalize f;
        Some (f, e).

Example third_as_double : fst (f80_to_double (mk_f 0xaaaaaaaaaaaaaaab (bias (-2)) false) default_env) = 0x3fd5555555555555.
Proof. reflexivity. Qed.
Example half_rounds_to_even : f80_round (mk_f (2 ^ 63) (bias (-1)) true) default_env = Some (mk_f 0 0 true, set_inexact default_env true).
Proof. reflexivity. Qed.

(** ** Integers *)

Lemma normalize_value f : in_range f -> 1 <= exp f <= EXP_MAX -> signif f <> 0 ->
  exists g, f80_normalize f = Some g /\ finite g /\ sign g = sign f /\ mag g = mag f.
Proof.
  intros Hr He Hs. pose proof Hr as ((Hs0 & Hs1) & _). unfold f80_normalize, EXP_DENORMAL, EXP_SPECIAL, EXP_MAX in *.
  rewrite (proj2 (Z.eqb_neq (exp f) 0)), (proj2 (Z.eqb_neq (exp f) 0x7fff)), (proj2 (Z.eqb_neq (signif f) 0)) by lia. cbn [orb andb negb]. unfold clz64. pose proof (log2_bounds (signif f) 64 ltac:(lia)) as Hl.
  pose proof (left_justified (signif f) 64 ltac:(lia) ltac:(lia)) as Hj. change (64 - 1) with 63 in Hj. set (z := 63 - Z.log2 (signif f)) in *. unfold f80_shift_left, EXP_MIN.
  assert (forall sh x, 0 <= sh <= z -> 0 <= x < 2 ^ 15 -> unbias_denormal x = unbias (exp f) - sh -> let g := mk_f (signif f * 2 ^ sh) x (sign f) in in_range g /\ mag g = mag f) as Hg.
  { intros sh x Hsh Hx Hex g. pose proof (pow2_pos sh ltac:(lia)). assert (2 ^ sh <= 2 ^ z) by (apply Z.pow_le_mono_r; lia). split.
    - split; [simpl | done]. split; [nia |]. apply Z.le_lt_trans with (signif f * 2 ^ z); [apply Z.mul_le_mono_nonneg_l; lia | lia].
    - unfold mag, g. cbn [signif exp]. rewrite Hex. replace (unbias_denormal (exp f)) with (unbias (exp f)) by (unfold unbias_denormal, EXP_DENORMAL; by rewrite (proj2 (Z.eqb_neq (exp f) 0)) by lia).
      rewrite <- Z.mul_assoc, <- Z.pow_add_r by (unfold U, unbias, BIAS80; lia). do 2 f_equal. lia. }
  destruct (Z.ltb_spec (exp f - z) 1) as [Hlow | Hhigh].
  - rewrite (proj2 (orb_false_iff (exp f - 1 <? 0) _)) by lia. cbn [mbind option_bind]. unfold set_exp, set_signif. cbn [signif exp sign]. rewrite Z.shiftl_mul_pow2 by lia.
    destruct (Hg (exp f - 1) 0) as [G1 G2]; [lia | lia | unfold unbias_denormal, EXP_DENORMAL, EXP_MIN, unbias; cbn [Z.eqb]; lia |]. rewrite u64_small by apply G1. change (u15 0) with 0. eexists. split; [done |].
    split; [| done]. split; [done |]. split; [| done]. apply (supported_denormal _ G1); [done |]. cbn [signif].
    assert (2 * 2 ^ (exp f - 1) <= 2 ^ z) as H2 by (rewrite <- pow2_succ by lia; apply Z.pow_le_mono_r; lia).
    assert (signif f * (2 * 2 ^ (exp f - 1)) <= signif f * 2 ^ z) by (apply Z.mul_le_mono_nonneg_l; lia). lia.
  - rewrite (proj2 (orb_false_iff (z <? 0) _)) by lia. unfold set_exp, set_signif. cbn [signif exp sign]. rewrite Z.shiftl_mul_pow2 by lia.
    destruct (Hg z (exp f - z)) as [G1 G2]; [lia | lia | unfold unbias_denormal, EXP_DENORMAL, unbias; rewrite (proj2 (Z.eqb_neq (exp f - z) 0)) by lia; lia |]. rewrite u64_small by apply G1.
    replace (u15 (exp f - z)) with (exp f - z) by (symmetry; apply Z.mod_small; lia). eexists. split; [done |]. split; [| done]. split; [done |].
    split; [apply (supported_normal _ G1); cbn [exp signif]; lia | cbn [exp]; unfold EXP_SPECIAL; lia].
Qed.

Lemma from_int_value i : - 2 ^ 63 <= i < 2 ^ 63 -> exists f, f80_from_int i = Some f /\ finite f /\ val f = i * 2 ^ U.
Proof.
  intros Hi. unfold f80_from_int. change (u15 (bias 63)) with 0x403e. destruct (Z.eqb_spec i 0) as [-> | Hn].
  { eexists. split; [reflexivity |]. split; [by vm_compute |]. unfold val, mag. by rewrite !Z.mul_0_l. }
  cbn [exp]. set (f := if i <? 0 then _ else _). assert (f = mk_f (Z.abs i) 0x403e (i <? 0)) as Ef.
  { unfold f. destruct (Z.ltb_spec i 0); f_equal; [| rewrite u64_small; lia]. unfold u64, wrap. rewrite <- (Z.mod_add i 1), (Z.mod_small (i + _)) by lia.
    rewrite <- (Z.mod_add (- (i + 1 * 2 ^ 64)) 1), Z.mod_small by lia. lia. }
  destruct (normalize_value f) as (g & Hg & Fg & Sg & Mg); [rewrite Ef; unfold in_range; cbn [signif exp]; lia | rewrite Ef; cbn [exp]; unfold EXP_MAX; lia | rewrite Ef; cbn [signif]; lia |].
  exists g. split; [done |]. split; [done |]. unfold val. rewrite Sg, Mg, Ef. unfold mag. cbn [sign signif exp]. change (unbias_denormal 0x403e - 63 + U) with U. destruct (Z.ltb_spec i 0); lia.
Qed.

(** Cutting a number at the point. *)
Lemma int_shift f e : finite f -> exp f <= bias 63 ->
  exists k l, at_quantum (rat (mag f) 1) (2 ^ U) k l /\ 0 <= k < 2 ^ 64 /\ (exp f < bias 63 -> k < 2 ^ 63) /\
    u128_shift_right_round (signif f) (bias 63 - exp f) (sign f) e = (choose (rounding e) (sign f) k l, rounded_env e (sign f) k l).
Proof.
  intros Hf He. pose proof (low_nonneg f Hf) as Hl. pose proof Hf as ((Hs & _) & _). pose proof U_nonneg as HU.
  assert (stands 0 (rat (mag f) 1) (signif f) (low f)) as Hst by (apply exact_stands; [lia |]; intros n; unfold rat; by rewrite Z.mul_1_r).
  destruct (decide (exp f = bias 63)) as [E | Hne].
  - rewrite E, Z.sub_diag. exists (signif f), Exact. assert (low f = U) as El by (unfold low; rewrite E; done). split; [| split; [lia |]; split; [lia |]].
    + unfold at_quantum. pose proof (Hst (signif f)) as E1. pose proof (Hst (signif f + 1)) as E2. rewrite Z.add_0_l, El in E1, E2. change (2 ^ 0) with 1 in *. rewrite E1, E2, !Z.mul_1_r, Z.compare_refl.
      split; [done |]. split; [apply Z.compare_lt_iff; lia | done].
    + unfold u128_shift_right_round, rounded_env, choose. simpl. rewrite !orb_false_r. by destruct e.
  - set (sh := bias 63 - exp f) in *. assert (1 <= sh) by lia.
    destruct (stands_round 0 _ (signif f) (low f) sh (sign f) e ltac:(lia) ltac:(lia) ltac:(lia) ltac:(lia) Hst) as (l & Hat & ->). set (k := signif f / 2 ^ sh) in *.
    assert (0 <= k < 2 ^ 63) as Hk by (unfold k; split; [apply Z.div_pos; [lia | apply pow2_pos; lia] | apply Z.div_lt_upper_bound; [apply pow2_pos; lia |]; assert (2 ^ 1 <= 2 ^ sh) by (apply Z.pow_le_mono_r; lia); lia]).
    exists k, l. split; [| split; [lia | split; [lia | done]]]. destruct (decide (exp f = 0)) as [E0 | E0]; [| replace U with (low f + sh); [done |]; unfold low, sh, unbias_denormal, EXP_DENORMAL; rewrite (proj2 (Z.eqb_neq (exp f) 0)) by done; unfold bias, unbias; lia].
    (* a denormal is cut one place too high, which is all the same *)
    assert (k = 0) as Ek by (apply Z.div_small; split; [lia |]; apply Z.lt_le_trans with (2 ^ 64); [lia |]; apply Z.pow_le_mono_r; [lia | unfold sh, bias, BIAS80; lia]).
    assert (mag f < 2 ^ (U - 1)) as Hm.
    { unfold mag. fold (low f). apply Z.lt_le_trans with (2 ^ 64 * 2 ^ low f); [apply Z.mul_lt_mono_pos_r; [apply pow2_pos; lia | lia] |]. rewrite <- Z.pow_add_r by lia. apply Z.pow_le_mono_r; [lia |]. unfold low. rewrite E0. unfold unbias_denormal, EXP_DENORMAL, EXP_MIN, unbias, BIAS80. cbn [Z.eqb]. lia. }
    assert (2 ^ U = 2 * 2 ^ (U - 1)) as E2 by (rewrite <- pow2_succ by (unfold U; lia); f_equal; lia). pose proof (mag_nonneg f Hf). rewrite Ek in *.
    destruct Hat as (H1 & H2 & H3). assert (low f + sh = U + 1) as Els by (unfold low, sh; rewrite E0; unfold unbias_denormal, EXP_DENORMAL, EXP_MIN, unbias, bias, BIAS80; cbn [Z.eqb]; lia).
    rewrite Els, pow2_succ in H3 by apply U_nonneg. rewrite Z.mul_0_l, Z.add_0_l in *. rewrite (Z.mul_comm 2 (2 ^ U)), Z.div_mul in H3 by lia. unfold at_quantum. rewrite Z.mul_0_l, !Z.add_0_l, Z.mul_1_l.
    assert (rat (mag f) 1 (2 ^ U) = Lt) as C1 by (unfold rat; apply Z.compare_lt_iff; lia).
    assert (rat (mag f) 1 (2 ^ U / 2) = Lt) as C2 by (rewrite E2, (Z.mul_comm 2), Z.div_mul by lia; unfold rat; apply Z.compare_lt_iff; lia).
    rewrite C1 in *. rewrite C2. split; [exact H1 |]. split; [reflexivity | exact H3].
Qed.

(** The flags of a rounding to an integer. *)
Lemma rounded_env_flagged c q k l s e : 0 < q -> at_quantum c q k l -> rounded_env e s k l = flagged e (c (choose (rounding e) s k l * q)) false.
Proof. intros Hq Hat. destruct (at_flags c q k l (rounding e) s Hq Hat) as [F1 F2]. unfold rounded_env, flagged. by rewrite F1, F2. Qed.

Lemma int_rounds m s f k l : at_quantum (rat (mag f) 1) (2 ^ U) k l -> 0 <= k < 2 ^ 64 -> rounds m s 64 U (rat (mag f) 1) (choose m s k l * 2 ^ U).
Proof. intros Hat Hk. apply (rounds_at m s 64 U (rat (mag f) 1) U k l); [done | by vm_compute | done | exact Hk | by left | exact Hat]. Qed.

Lemma to_int_finite f e : finite f -> exp f <= bias 63 ->
  exists n, rounds (rounding e) (sign f) 64 U (rat (mag f) 1) (n * 2 ^ U) /\
    let i := if sign f then - n else n in
    f80_to_int f e = if (INT64_MIN <=? i) && (i <=? INT64_MAX) then (i, flagged e (rat (mag f) 1 (n * 2 ^ U)) false)
                     else (INT64_MIN, mk_env (rounding e) (precision e) false false (Z.lor (exceptions e) F80_EXC_INVALID)).
Proof.
  intros Hf He. destruct (int_shift f e Hf He) as (k & l & Hat & Hk & Hk' & Hsr). pose proof (rounded_env_flagged _ _ _ _ (sign f) e (pow2_pos U U_nonneg) Hat) as Hfl.
  exists (choose (rounding e) (sign f) k l). split; [by apply int_rounds |]. cbv zeta. rewrite <- Hfl. clear Hfl.
  unfold f80_to_int, f80_shift_right. rewrite (proj1 (proj2 Hf)). replace (exp f >? bias 63) with false by lia. cbn [negb orb]. rewrite Hsr.
  set (n := choose (rounding e) (sign f) k l). assert (0 <= n < 2 ^ 64) as Hn.
  { pose proof (choose_range (rounding e) (sign f) k l). fold n in H. destruct (decide (exp f = bias 63)) as [E |]; [| lia]. rewrite E, Z.sub_diag in Hsr. unfold u128_shift_right_round in Hsr. simpl in Hsr. injection Hsr as Hs _. fold n in Hs. rewrite <- Hs. apply Hf. }
  unfold set_exp, set_signif. cbn [signif sign]. rewrite (u64_small n) by done. unfold INT64_MAX, INT64_MIN. destruct (sign f); cbn [Z.b2z negb].
  - destruct (Z.gtb_spec n (2 ^ 63 - 1 + 1)); [rewrite (proj2 (andb_false_iff _ _)) by lia; done |]. rewrite (proj2 (andb_true_iff _ _)) by lia. f_equal.
    destruct (decide (n = 0)) as [-> |]; [reflexivity |]. unfold s64, swrap, u64, wrap. rewrite Zmod_mod. rewrite <- (Z.mod_add (- n) 1), Z.mod_small by lia. change (64 - 1) with 63. destruct (Z.ltb_spec (- n + 1 * 2 ^ 64) (2 ^ 63)); lia.
  - destruct (Z.gtb_spec n (2 ^ 63 - 1 + 0)); [rewrite (proj2 (andb_false_iff _ _)) by lia; done |]. rewrite (proj2 (andb_true_iff _ _)) by lia. f_equal. apply swrap_small; [lia |]. unfold in_s. simpl. lia.
Qed.

Lemma round_finite f e : finite f ->
  exists R r, rounds (rounding e) (sign f) 64 U (rat (mag f) 1) R /\ f80_round f e = Some r /\
    finite (fst r) /\ sign (fst r) = sign f /\ mag (fst r) = R /\ snd r = flagged e (rat (mag f) 1 R) false.
Proof.
  intros Hf. unfold f80_round. rewrite (proj1 (proj2 Hf)). unfold f80_issnan. rewrite (finite_not_nan f Hf). cbn [negb andb].
  replace (63 - unbias (exp f)) with (bias 63 - exp f) by (unfold bias, unbias; lia). pose proof (exp_bounds f Hf) as Hx. destruct (Z.leb_spec (bias 63 - exp f) 0) as [Hbig | Hsmall].
  - assert (rat (mag f) 1 (mag f) = Eq) as E by (unfold rat; rewrite Z.mul_1_r; apply Z.compare_refl). exists (mag f), (f, e). split; [| split; [done |]; split; [done |]; split; [done |]; split; [done |]; unfold flagged; rewrite E; cbn [is_eq is_lt negb snd]; rewrite !orb_false_r; by destruct e].
    apply (rounds_self (rounding e) (sign f) 64 U (rat (mag f) 1)); [by vm_compute | | done]. exists (signif f), (low f). split; [| split; [apply Hf | done]]. unfold low, unbias_denormal. destruct (Z.eqb_spec (exp f) EXP_DENORMAL) as [E0 | E0]; [rewrite E0 in Hbig; by vm_compute in Hbig |]. unfold bias, unbias in *. lia.
  - destruct (int_shift f e Hf ltac:(lia)) as (k & l & Hat & Hk & Hk' & Hsr). specialize (Hk' ltac:(lia)). unfold f80_shift_right. rewrite Hsr.
    pose proof (rounded_env_flagged _ _ _ _ (sign f) e (pow2_pos U U_nonneg) Hat) as Hfl. pose proof (int_rounds (rounding e) (sign f) f k l Hat Hk) as HR. pose proof (choose_range (rounding e) (sign f) k l) as Hr. set (n := choose (rounding e) (sign f) k l) in *.
    unfold set_exp, set_signif. cbn [signif exp sign]. rewrite (u64_small n) by lia. replace (exp f + (bias 63 - exp f)) with (bias 63) by lia. change (u15 (bias 63)) with 0x403e. destruct (Z.eqb_spec n 0) as [E0 | E0].
    + exists 0, (mk_f 0 0 (sign f), rounded_env e (sign f) k l). rewrite E0 in *. rewrite Z.mul_0_l in *. change (u15 EXP_DENORMAL) with 0. split; [done |]. split; [done |]. split; [by vm_compute |]. split; [done |]. split; [apply Z.mul_0_l | exact Hfl].
    + destruct (normalize_value (mk_f n 0x403e (sign f))) as (g & Hg & Fg & Sg & Mg); [unfold in_range; cbn [signif exp]; lia | cbn [exp]; unfold EXP_MAX; lia | done |]. rewrite Hg. cbn [mbind option_bind].
      exists (n * 2 ^ U), (g, rounded_env e (sign f) k l). split; [done |]. split; [done |]. split; [done |]. split; [done |]. split; [exact Mg | exact Hfl].
Qed.

Lemma big_mag f : finite f -> bias 63 < exp f -> 2 ^ 64 * 2 ^ U <= mag f.
Proof.
  intros Hf He. pose proof U_nonneg. assert (exp f <> 0) as Hn by (unfold bias, BIAS80 in He; lia). pose proof (low_signif f Hf Hn). unfold mag. fold (low f).
  assert (U + 1 <= low f) as Hl by (unfold low, unbias_denormal, EXP_DENORMAL; rewrite (proj2 (Z.eqb_neq (exp f) 0)) by done; unfold bias, unbias in *; lia).
  replace (2 ^ 64 * 2 ^ U) with (2 ^ 63 * 2 ^ (U + 1)) by (rewrite <- !Z.pow_add_r by lia; f_equal; lia). apply Z.mul_le_mono_nonneg; [lia | done | apply Z.pow_nonneg; lia | apply Z.pow_le_mono_r; lia].
Qed.

Lemma flagged_exact e tiny : flagged e Eq tiny = e.
Proof. unfold flagged. cbn [is_eq is_lt negb]. rewrite andb_false_r, !orb_false_r. by destruct e. Qed.

Lemma int_roundtrip i : - 2 ^ 63 <= i < 2 ^ 63 -> exists f, f80_from_int i = Some f /\ finite f /\ val f = i * 2 ^ U /\ forall e, f80_to_int f e = (i, e).
Proof.
  intros Hi. destruct (from_int_value i Hi) as (f & Hf & Ff & Vf). exists f. split; [done |]. split; [done |]. split; [done |]. intros e. pose proof (pow2_pos U U_nonneg) as HU.
  assert (mag f = Z.abs i * 2 ^ U) as Em.
  { pose proof (mag_nonneg f Ff). unfold val in Vf. rewrite <- (Z.abs_eq (2 ^ U)), <- Z.abs_mul, <- Vf by lia. destruct (sign f); lia. }
  assert (exp f <= bias 63) as He by (destruct (decide (exp f <= bias 63)); [done |]; exfalso; pose proof (big_mag f Ff ltac:(lia)) as Hb; rewrite Em in Hb; apply Z.mul_le_mono_pos_r in Hb; lia).
  destruct (to_int_finite f e Ff He) as (n & HR & ->). assert (rat (mag f) 1 (mag f) = Eq) as E1 by (unfold rat; rewrite Z.mul_1_r; apply Z.compare_refl).
  apply (rounds_exact _ _ _ _ _ _ (mag f)) in HR; [| by vm_compute | exists (Z.abs i), U; rewrite Em; lia | done].
  rewrite HR, E1, flagged_exact. assert (n = Z.abs i) as -> by (apply (Z.mul_cancel_r _ _ (2 ^ U)); lia). assert ((if sign f then - Z.abs i else Z.abs i) = i) as ->.
  { apply (Z.mul_cancel_r _ _ (2 ^ U)); [lia |]. rewrite <- Vf. unfold val. rewrite Em. destruct (sign f); lia. }
  rewrite (proj2 (andb_true_iff _ _)) by (unfold INT64_MIN, INT64_MAX; lia). done.
Qed.

(** Integers survive: a 64-bit integer converts to the number with its
    value and back without a flag; a number converts to the integer it rounds
    to in the current mode, or to the integer indefinite with the invalid flag
    alone when that does not fit or there is none; and rounding a finite number
    to an integral value does that, keeping its sign. *)
Theorem f80_int_correct :
  (forall i, - 2 ^ 63 <= i < 2 ^ 63 -> exists f, f80_from_int i = Some f /\ finite f /\ val f = i * 2 ^ U /\ forall e, f80_to_int f e = (i, e)) /\
  (forall f e, in_range f ->
     if f80_is_supported f && (exp f <=? bias 63) then
       exists n, rounds (rounding e) (sign f) 64 U (rat (mag f) 1) (n * 2 ^ U) /\
         let i := if sign f then - n else n in
         f80_to_int f e = if (INT64_MIN <=? i) && (i <=? INT64_MAX) then (i, flagged e (rat (mag f) 1 (n * 2 ^ U)) false)
                          else (INT64_MIN, mk_env (rounding e) (precision e) false false (Z.lor (exceptions e) F80_EXC_INVALID))
     else f80_to_int f e = (INT64_MIN, raise e F80_EXC_INVALID) /\ (finite f -> 2 ^ 64 * 2 ^ U <= mag f)) /\
  (forall f e, finite f -> exists R r, rounds (rounding e) (sign f) 64 U (rat (mag f) 1) R /\ f80_round f e = Some r /\
     finite (fst r) /\ sign (fst r) = sign f /\ mag (fst r) = R /\ snd r = flagged e (rat (mag f) 1 R) false).
Proof.
  split; [exact int_roundtrip |]. split; [| exact (fun f e => round_finite f e)]. intros f e Hr. destruct (f80_is_supported f) eqn:Es; cbn [andb].
  - destruct (Z.leb_spec (exp f) (bias 63)) as [Hle | Hgt]; [apply to_int_finite; [split; [done |]; split; [done |]; unfold EXP_SPECIAL, bias, BIAS80 in *; lia | done] |].
    split; [| intros Hf; by apply big_mag]. unfold f80_to_int. rewrite Es. by replace (exp f >? bias 63) with true by lia.
  - split; [| intros (_ & Hs & _); congruence]. unfold f80_to_int. by rewrite Es.
Qed.

Lemma f80_int_correct_witness : (exists f, f80_from_int (- 5) = Some f /\ finite f /\ val f = - 5 * 2 ^ U /\ forall e, f80_to_int f e = (- 5, e)) /\
  f80_to_int (mk_f (5 * 2 ^ 61) (bias 1) true) default_env = (- 2, set_inexact default_env true).
Proof. split; [apply (proj1 f80_int_correct); lia | reflexivity]. Defined.
