(* ===== verification/Float80Ieee.v ===== *)
(** Loading and storing the IEEE formats (f80_from_double, f80_from_float,
    f80_to_double and f80_to_float of emu/float80.c).

    [f80_ieee_store] shows that a store rounds correctly and [load_finite]
    that a load is exact, so that a double or float that is loaded and stored
    comes back ([f80_ieee_roundtrip]). *)

From Stdlib Require Import ZifyBool.
From S2P Require Import Prelude Rounding Float80 Float80Sound Float80Arith Float80Conv.

(** ** The formats *)

(** Fraction and exponent bits of a float and of a double. *)
Definition ieee_format (fb eb : Z) : Prop := (fb = 23 /\ eb = 8) \/ (fb = 52 /\ eb = 11).

Definition ieee_bias (eb : Z) : Z := 2 ^ (eb - 1) - 1.
Definition ieee_special (eb : Z) : Z := 2 ^ eb - 1.

Definition bits_frac (fb b : Z) : Z := b mod 2 ^ fb.
Definition bits_exp (fb eb b : Z) : Z := (b / 2 ^ fb) mod 2 ^ eb.
Definition bits_sign (fb eb b : Z) : bool := negb (b / 2 ^ (fb + eb) =? 0).

(** The lowest place, the smallest normal and the largest finite number. *)
Definition ieee_jmin (fb eb : Z) : Z := 1 - ieee_bias eb - fb + U.
Definition ieee_min (fb eb : Z) : Z := 2 ^ fb * 2 ^ ieee_jmin fb eb.
Definition ieee_max (fb eb : Z) : Z := (2 ^ (fb + 1) - 1) * 2 ^ (ieee_bias eb - fb + U).

(** The magnitude of a finite number. *)
Definition ieee_mag (fb eb b : Z) : Z :=
  let x := bits_exp fb eb b in
  (if x =? 0 then bits_frac fb b else 2 ^ fb + bits_frac fb b) * 2 ^ (Z.max x 1 - 1 + ieee_jmin fb eb).

Section formats.
Context (fb eb : Z).
Hypothesis Hfmt : ieee_format fb eb.

Lemma format_bounds : 23 <= fb <= 52 /\ 8 <= eb <= 11 /\ fb + eb <= 63 /\ 127 <= ieee_bias eb <= 1023 /\ ieee_special eb = 2 * ieee_bias eb + 1 /\ 2 ^ eb = 2 * ieee_bias eb + 2.
Proof using Hfmt. unfold ieee_bias, ieee_special. destruct Hfmt as [[-> ->] | [-> ->]]; vm_compute; intuition discriminate. Qed.

Lemma jmin_bound : 100000 <= ieee_jmin fb eb.
Proof using Hfmt. pose proof format_bounds. unfold ieee_jmin, U. lia. Qed.

(** Bits put together, and taken apart again. *)
Definition join (s : bool) (x fr : Z) : Z := Z.b2z s * 2 ^ (fb + eb) + (x * 2 ^ fb + fr).

Lemma join_parts s x fr : 0 <= x < 2 ^ eb -> 0 <= fr < 2 ^ fb ->
  bits_sign fb eb (join s x fr) = s /\ bits_exp fb eb (join s x fr) = x /\ bits_frac fb (join s x fr) = fr /\ 0 <= x * 2 ^ fb + fr < 2 ^ (fb + eb).
Proof using Hfmt.
  intros Hx Hfr. pose proof format_bounds as (Hf & He & _). pose proof (pow2_pos fb ltac:(lia)). pose proof (pow2_pos eb ltac:(lia)). assert (2 ^ (fb + eb) = 2 ^ fb * 2 ^ eb) as E by (apply Z.pow_add_r; lia).
  assert (0 <= x * 2 ^ fb + fr < 2 ^ (fb + eb)) as Hb by nia. unfold bits_sign, bits_exp, bits_frac, join.
  assert ((Z.b2z s * 2 ^ (fb + eb) + (x * 2 ^ fb + fr)) / 2 ^ fb = x + Z.b2z s * 2 ^ eb) as E1 by (rewrite E; symmetry; apply Z.div_unique with fr; lia).
  split; [| split; [| split; [| done]]].
  - rewrite Z.add_comm, Z.div_add, Z.div_small by lia. by destruct s.
  - rewrite E1, Z.mod_add, Z.mod_small by lia. done.
  - rewrite E. replace (Z.b2z s * (2 ^ fb * 2 ^ eb) + (x * 2 ^ fb + fr)) with (fr + (Z.b2z s * 2 ^ eb + x) * 2 ^ fb) by ring. rewrite Z.mod_add, Z.mod_small by lia. done.
Qed.

Lemma join_split b : 0 <= b < 2 ^ (fb + eb + 1) -> b = join (bits_sign fb eb b) (bits_exp fb eb b) (bits_frac fb b).
Proof using Hfmt.
  intros Hb. pose proof format_bounds as (Hf & He & _). pose proof (pow2_pos fb ltac:(lia)) as Pf. pose proof (pow2_pos eb ltac:(lia)) as Pe. unfold join, bits_sign, bits_exp, bits_frac.
  rewrite pow2_succ in Hb by lia. assert (2 ^ (fb + eb) = 2 ^ fb * 2 ^ eb) as E by (apply Z.pow_add_r; lia). rewrite E in *. rewrite <- Z.div_div by lia.
  pose proof (Z.div_mod b (2 ^ fb) ltac:(lia)). pose proof (Z.mod_pos_bound b (2 ^ fb) Pf). set (q := b / 2 ^ fb) in *. pose proof (Z.div_mod q (2 ^ eb) ltac:(lia)). pose proof (Z.mod_pos_bound q (2 ^ eb) Pe).
  assert (0 <= q / 2 ^ eb < 2) by (split; [apply Z.div_pos; [apply Z.div_pos; lia | lia] | apply Z.div_lt_upper_bound; [lia |]; apply Z.div_lt_upper_bound; lia]).
  assert (Z.b2z (negb (q / 2 ^ eb =? 0)) = q / 2 ^ eb) as -> by (destruct (Z.eqb_spec (q / 2 ^ eb) 0); simpl; lia). nia.
Qed.

Lemma ieee_mag_join s x fr : 0 <= x < 2 ^ eb -> 0 <= fr < 2 ^ fb -> ieee_mag fb eb (join s x fr) = (if x =? 0 then fr else 2 ^ fb + fr) * 2 ^ (Z.max x 1 - 1 + ieee_jmin fb eb).
Proof using Hfmt. intros Hx Hfr. destruct (join_parts s x fr Hx Hfr) as (_ & Ex & Ef & _). unfold ieee_mag. by rewrite Ex, Ef. Qed.

Lemma join_code s x : 0 <= x < 2 ^ (fb + eb) -> Z.lor (Z.shiftl (Z.b2z s) (fb + eb)) x = Z.b2z s * 2 ^ (fb + eb) + x.
Proof using Hfmt. intros Hx. pose proof format_bounds. rewrite Z.shiftl_mul_pow2 by lia. apply lor_disjoint; lia. Qed.

Lemma fields_code x fr : 0 <= x < 2 ^ eb -> 0 <= fr < 2 ^ fb -> Z.lor (u64 (Z.shiftl x fb)) fr = x * 2 ^ fb + fr.
Proof using Hfmt.
  intros Hx Hfr. destruct (join_parts false x fr Hx Hfr) as (_ & _ & _ & Hb). pose proof format_bounds. assert (2 ^ (fb + eb) <= 2 ^ 63) by (apply Z.pow_le_mono_r; lia).
  rewrite Z.shiftl_mul_pow2 by lia. rewrite u64_small by lia. apply lor_disjoint; lia.
Qed.
(** ** Stores *)

Definition ieee_overflowed (s : bool) (e : fenv) : Z * fenv :=
  let inward := match direct (rounding e) s with Inward => true | _ => false end in
  (if inward then join s (ieee_special eb - 1) (2 ^ fb - 1) else join s (ieee_special eb) 0,
   mk_env (rounding e) (precision e) true (negb inward) (Z.lor (exceptions e) F80_EXC_OVERFLOW)).

(** What a store of the exact magnitude [c] puts in memory and in the flags. *)
Definition stores (s : bool) (c : cut) (e : fenv) (r : Z * fenv) : Prop :=
  exists R, rounds (rounding e) s (fb + 1) (ieee_jmin fb eb) c R /\
    if R <=? ieee_max fb eb then
      (exists x fr, 0 <= x < ieee_special eb /\ 0 <= fr < 2 ^ fb /\ fst r = join s x fr) /\
      ieee_mag fb eb (fst r) = R /\ snd r = flagged e (c R) (R <? ieee_min fb eb)
    else r = ieee_overflowed s e.

Lemma constants_code : Z.shiftl 1 (eb - 1) - 1 = ieee_bias eb /\ Z.shiftl 1 eb - 1 = ieee_special eb /\ Z.shiftl 1 fb = 2 ^ fb.
Proof using Hfmt. pose proof format_bounds. rewrite !Z.shiftl_1_l. done. Qed.

(** A normal result of [fb + 1] bits and its exponent. *)
Lemma normal_fields s r x : 2 ^ fb <= r < 2 ^ (fb + 1) -> 1 - ieee_bias eb <= x <= ieee_bias eb ->
  let b := join s (x + ieee_bias eb) (r - 2 ^ fb) in
  ieee_mag fb eb b = r * 2 ^ (x - fb + U) /\ r * 2 ^ (x - fb + U) <= ieee_max fb eb /\ ieee_min fb eb <= r * 2 ^ (x - fb + U).
Proof using Hfmt.
  intros Hr Hx b. pose proof format_bounds as (Hf & He & _ & Hb & _ & E2). pose proof jmin_bound as Hj. rewrite pow2_succ in Hr by lia. assert (0 <= x - fb + U) as Hp by (unfold ieee_jmin in Hj; lia). split; [| split].
  - unfold b. rewrite ieee_mag_join by lia. rewrite (proj2 (Z.eqb_neq (x + ieee_bias eb) 0)) by lia. rewrite Z.max_l by lia. f_equal; [lia |]. f_equal. unfold ieee_jmin. lia.
  - unfold ieee_max. apply Z.mul_le_mono_nonneg; [lia | rewrite pow2_succ by lia; lia | apply Z.pow_nonneg; lia | apply Z.pow_le_mono_r; lia].
  - unfold ieee_min. apply Z.mul_le_mono_nonneg; [lia | lia | apply Z.pow_nonneg; lia | apply Z.pow_le_mono_r; [lia |]]. unfold ieee_jmin. lia.
Qed.

Section store.
Context (f : float80) (e : fenv).
Hypothesis Hf : finite f.
Hypothesis Hnz : signif f <> 0.
Notation c := (rat (mag f) 1).
Notation s := (sign f).
Notation e0 := (set_inexact e false).
Let lz := clz64 (signif f).
Let S := u64 (Z.shiftl (signif f) lz).
Let xp := unbias_denormal (exp f) - lz.

Lemma store_stands : 2 ^ 63 <= S < 2 ^ 64 /\ - 20000 <= xp <= 20000 /\ stands 0 c S (xp - 63 + U).
Proof using All.
  pose proof (low_nonneg f Hf) as Hl. pose proof (exp_bounds f Hf) as Hx. pose proof Hf as ((Hs & _) & _). pose proof (log2_bounds (signif f) 64 ltac:(lia)) as Hlog. pose proof (left_justified (signif f) 64 ltac:(lia) ltac:(lia)) as Hj.
  change (64 - 1) with 63 in Hj. fold (clz64 (signif f)) lz in Hj. assert (0 <= lz <= 63) as Hz by (unfold lz, clz64; lia). assert (S = signif f * 2 ^ lz) as ES by (unfold S; rewrite Z.shiftl_mul_pow2 by lia; apply u64_small; lia).
  split; [rewrite ES; lia |]. split; [unfold xp, unbias, EXP_MIN, EXP_MAX, BIAS80 in *; lia |]. rewrite ES. apply exact_stands; [unfold low in Hl; unfold xp; lia |]. intros n. unfold rat. rewrite Z.mul_1_r. unfold mag. fold (low f).
  rewrite <- Z.mul_assoc, <- Z.pow_add_r by (unfold low in Hl; unfold xp; lia). do 3 f_equal. unfold low, xp. lia.
Qed.

(** The end of the function: the environment it leaves. *)
Definition leave (r : Z * fenv) : Z * fenv := (fst r, set_inexact (snd r) (inexact (snd r) || inexact e)).

Lemma store_normal k l : let j := xp - fb + U in at_quantum c (2 ^ j) k l -> 2 ^ fb <= k < 2 ^ (fb + 1) -> 1 - ieee_bias eb <= xp ->
  let r := choose (rounding e) s k l in
  let carry := negb (Z.shiftr r (fb + 1) =? 0) in
  let r' := if carry then Z.shiftr r 1 else r in
  let xp' := if carry then xp + 1 else xp in
  stores s c e (let '(b, e') := leave (
    if xp' >? ieee_bias eb then
      let to_max := mode_is e round_chop || (mode_is e round_up && s) || (mode_is e round_down && negb s) in
      (if to_max then Z.lor (u64 (Z.shiftl (ieee_special eb - 1) fb)) (2 ^ fb - 1) else u64 (Z.shiftl (ieee_special eb) fb),
       set_rounded_up (set_inexact (raise (rounded_env e0 s k l) F80_EXC_OVERFLOW) true) (negb to_max))
    else (Z.lor (u64 (Z.shiftl (u64 (xp' + ieee_bias eb)) fb)) (Z.land r' (2 ^ fb - 1)), rounded_env e0 s k l)) in (Z.lor (Z.shiftl (Z.b2z s) (fb + eb)) b, e')).
Proof using All.
  intros j Hat Hk Hx r carry r' xp'. pose proof format_bounds as (Hfb & Heb & Hsum & Hbias & Hsp & E2). pose proof jmin_bound as Hjm. destruct store_stands as (_ & Hxp & _). pose proof (pow2_pos fb ltac:(lia)) as Pf. pose proof (pow2_pos eb ltac:(lia)) as Pe.
  assert (ieee_jmin fb eb <= j) as Hj by (unfold j, ieee_jmin; lia). pose proof (pow2_pos j ltac:(lia)) as Pj. pose proof (choose_range (rounding e) s k l) as Hr. fold r in Hr.
  exists (r * 2 ^ j). split; [apply (rounds_at (rounding e) s (fb + 1) (ieee_jmin fb eb) c j k l); [lia | lia | done | lia | right; replace (fb + 1 - 1) with fb by lia; lia | done] |].
  pose proof (pow2_succ fb ltac:(lia)) as E1. assert (carry = (r =? 2 ^ (fb + 1))) as Ec.
  { unfold carry. rewrite Z.shiftr_div_pow2 by lia. destruct (Z.eqb_spec r (2 ^ (fb + 1))) as [-> | ?]; [by rewrite Z.div_same by lia | by rewrite Z.div_small by lia]. }
  assert (2 ^ fb <= r' < 2 ^ (fb + 1) /\ r' * 2 ^ (xp' - fb + U) = r * 2 ^ j) as [Hr' Erj].
  { unfold r', xp'. rewrite Ec. destruct (Z.eqb_spec r (2 ^ (fb + 1))) as [E | E]; [| split; [lia | done]]. rewrite E, Z.shiftr_div_pow2, E1 by lia. change (2 ^ 1) with 2. rewrite (Z.mul_comm 2 (2 ^ fb)), Z.div_mul by lia. split; [lia |].
    replace (xp + 1 - fb + U) with (j + 1) by (unfold j; lia). rewrite pow2_succ by lia. ring. }
  assert (xp <= xp' <= xp + 1) as Hxp' by (unfold xp'; destruct carry; lia). destruct (Z.gtb_spec xp' (ieee_bias eb)) as [Hover | Hfit].
  - rewrite (proj2 (Z.leb_gt (r * 2 ^ j) (ieee_max fb eb))).
    2: { rewrite <- Erj. unfold ieee_max. apply Z.lt_le_trans with (2 ^ (fb + 1) * 2 ^ (ieee_bias eb - fb + U)); [apply Z.mul_lt_mono_pos_r; [apply pow2_pos; unfold ieee_jmin in Hjm; lia | lia] |].
         rewrite E1, (Z.mul_comm 2), <- Z.mul_assoc, <- pow2_succ by (unfold ieee_jmin in Hjm; lia). apply Z.mul_le_mono_nonneg; [lia | lia | apply Z.pow_nonneg; lia | apply Z.pow_le_mono_r; lia]. }
    unfold leave, ieee_overflowed. cbn [fst snd]. rewrite fields_code by lia. assert (u64 (Z.shiftl (ieee_special eb) fb) = ieee_special eb * 2 ^ fb + 0) as -> by (rewrite <- (fields_code (ieee_special eb) 0), Z.lor_0_r by lia; done).
    assert (mode_is e round_chop || (mode_is e round_up && s) || (mode_is e round_down && negb s) = match direct (rounding e) s with Inward => true | _ => false end) as -> by (unfold mode_is, direct; by destruct (rounding e), s).
    destruct (direct (rounding e) s); rewrite join_code by (apply (join_parts false); lia); f_equal.
  - destruct (normal_fields s r' xp' Hr' ltac:(lia)) as (Hm & Hle & Hmin). rewrite Erj in Hm, Hle, Hmin. rewrite (proj2 (Z.leb_le _ _) Hle), (proj2 (Z.ltb_ge _ _) Hmin).
    unfold leave. cbn [fst snd]. rewrite (u64_small (xp' + ieee_bias eb)) by lia. rewrite land_low by lia. assert (r' mod 2 ^ fb = r' - 2 ^ fb) as -> by (symmetry; apply Z.mod_unique with 1; lia).
    rewrite fields_code by lia. rewrite join_code by (apply (join_parts false); lia). split; [exists (xp' + ieee_bias eb), (r' - 2 ^ fb); split; [lia |]; split; [lia | done] |]. split; [exact Hm |].
    exact (tail_env c s e k l (2 ^ j) false Pj Hat).
Qed.
Lemma store_tiny k l : let j := ieee_jmin fb eb in at_quantum c (2 ^ j) k l -> 0 <= k < 2 ^ fb ->
  let r := choose (rounding e) s k l in
  stores s c e (let '(b, e') := leave (r, if inexact (rounded_env e0 s k l) && (r <? 2 ^ fb) then raise (rounded_env e0 s k l) F80_EXC_UNDERFLOW else rounded_env e0 s k l) in
    (Z.lor (Z.shiftl (Z.b2z s) (fb + eb)) b, e')).
Proof using All.
  intros j Hat Hk r. pose proof format_bounds as (Hfb & Heb & Hsum & Hbias & Hsp & E2). pose proof jmin_bound as Hjm. pose proof (pow2_pos fb ltac:(lia)) as Pf. pose proof (pow2_pos eb ltac:(lia)) as Pe. pose proof (pow2_pos j ltac:(unfold j; lia)) as Pj.
  pose proof (pow2_succ fb ltac:(lia)) as E1. pose proof (choose_range (rounding e) s k l) as Hr. fold r in Hr. exists (r * 2 ^ j). split; [apply (rounds_at (rounding e) s (fb + 1) j c j k l); [lia | unfold j; lia | lia | lia | by left | done] |].
  assert (r = (if r =? 2 ^ fb then 1 else 0) * 2 ^ fb + (if r =? 2 ^ fb then 0 else r)) as Er by (destruct (Z.eqb_spec r (2 ^ fb)); lia).
  set (x := if r =? 2 ^ fb then 1 else 0) in *. set (fr := if r =? 2 ^ fb then 0 else r) in *. assert (0 <= x < ieee_special eb /\ 0 <= fr < 2 ^ fb) as [Hx Hfr] by (unfold x, fr; destruct (Z.eqb_spec r (2 ^ fb)); lia).
  assert (ieee_mag fb eb (join s x fr) = r * 2 ^ j) as Hm.
  { rewrite ieee_mag_join by lia. unfold x, fr. destruct (Z.eqb_spec r (2 ^ fb)) as [-> | ?]; cbn [Z.eqb]; [rewrite Z.add_0_r |]; f_equal. }
  rewrite (proj2 (Z.leb_le (r * 2 ^ j) (ieee_max fb eb))).
  2: { unfold ieee_max. apply Z.mul_le_mono_nonneg; [lia | lia | apply Z.pow_nonneg; lia | apply Z.pow_le_mono_r; [lia |]]. unfold j, ieee_jmin. lia. }
  assert ((r * 2 ^ j <? ieee_min fb eb) = (r <? 2 ^ fb)) as ->.
  { unfold ieee_min. fold j. destruct (Z.ltb_spec r (2 ^ fb)); [apply Z.ltb_lt, Z.mul_lt_mono_pos_r; lia | apply Z.ltb_ge, Z.mul_le_mono_nonneg_r; lia]. }
  assert (Z.lor (Z.shiftl (Z.b2z s) (fb + eb)) r = join s x fr) as Ej by (rewrite Er, join_code by (apply (join_parts false); lia); done).
  unfold leave. cbn [fst snd]. rewrite Ej. split; [exists x, fr; done |]. split; [exact Hm |].
  pose proof (tail_env c s e k l (2 ^ j) (r <? 2 ^ fb) Pj Hat) as Ht. cbv zeta in Ht. fold r in Ht. rewrite <- Ht. by rewrite (andb_comm (r <? 2 ^ fb)).
Qed.

Lemma store_finite : stores s c e (let '(b, e') := ieee_finite f fb eb e in (Z.lor (Z.shiftl (Z.b2z s) (fb + eb)) b, e')).
Proof using All.
  pose proof format_bounds as (Hfb & Heb & Hsum & Hbias & Hsp & E2). pose proof jmin_bound as Hjm. destruct store_stands as (HS & Hxp & Hst). pose proof U_nonneg. unfold ieee_finite. destruct constants_code as (-> & -> & ->). fold lz. fold S xp.
  assert (0 <= xp - 63 + U) as Hlow by (unfold ieee_jmin in Hjm; unfold U in *; lia). destruct (Z.ltb_spec xp (1 - ieee_bias eb)) as [Htiny | Hnorm].
  - set (sh := 63 - fb + (1 - ieee_bias eb - xp)) in *. destruct (stands_round 0 c S (xp - 63 + U) sh s e0 ltac:(lia) ltac:(lia) Hlow ltac:(lia) Hst) as (l & Hat & ->).
    replace (xp - 63 + U + sh) with (ieee_jmin fb eb) in Hat by (unfold sh, ieee_jmin; lia). set (k := S / 2 ^ sh) in *.
    assert (0 <= k < 2 ^ fb) as Hk.
    { unfold k. split; [apply Z.div_pos; [lia | apply pow2_pos; lia] |]. apply Z.div_lt_upper_bound; [apply pow2_pos; lia |]. apply Z.lt_le_trans with (2 ^ 64); [lia |]. rewrite <- Z.pow_add_r by lia. apply Z.pow_le_mono_r; lia. }
    pose proof (choose_range (rounding e) s k l). assert (2 ^ fb < 2 ^ 64) by (apply Z.pow_lt_mono_r; lia). cbn [rounding set_inexact]. rewrite (u64_small (choose _ _ _ _)) by lia. by apply store_tiny.
  - destruct (stands_round 0 c S (xp - 63 + U) (63 - fb) s e0 ltac:(lia) ltac:(lia) Hlow ltac:(lia) Hst) as (l & Hat & ->).
    replace (xp - 63 + U + (63 - fb)) with (xp - fb + U) in Hat by lia. pose proof (div_range S 63 64 (63 - fb) HS ltac:(lia) ltac:(lia)) as Hk. replace (63 - (63 - fb)) with fb in Hk by lia. replace (64 - (63 - fb)) with (fb + 1) in Hk by lia.
    set (k := S / 2 ^ (63 - fb)) in *. pose proof (choose_range (rounding e) s k l). assert (2 ^ (fb + 1) < 2 ^ 64) by (apply Z.pow_lt_mono_r; lia). pose proof (pow2_pos fb ltac:(lia)). cbn [rounding set_inexact]. rewrite (u64_small (choose _ _ _ _)) by lia.
    pose proof (store_normal k l Hat Hk Hnorm) as Hs. cbv zeta in Hs |- *. unfold leave in Hs. unfold mode_is. cbn [rounded_env rounding set_inexact]. unfold mode_is in Hs. destruct (_ >? ieee_bias eb); exact Hs.
Qed.
End store.
(** ** Loads *)

(** f80_from_double and f80_from_float are this function at their formats. *)
Definition from_ieee (bits : Z) (e : fenv) : option (float80 * fenv) :=
  let sg := negb (Z.shiftr bits (fb + eb) =? 0) in
  let xp := Z.land (Z.shiftr bits fb) (ieee_special eb) in
  let frac := Z.land bits (2 ^ fb - 1) in
  let fexp :=
    if xp =? ieee_special eb then EXP_SPECIAL
    else if xp =? 0 then (if frac =? 0 then 0 else bias (1 - ieee_bias eb))
    else bias (xp - ieee_bias eb) in
  let fsig := u64 (Z.shiftl frac (63 - fb)) in
  let fsig := if negb (xp =? 0) then Z.lor fsig CURSED_BIT else fsig in
  let f := mk_f fsig (u15 fexp) sg in
  let e := if (xp =? 0) && negb (frac =? 0) then raise e F80_EXC_DENORMAL else e in
  let '(f, e) := if f80_issnan f then (quieten f, raise e F80_EXC_INVALID) else (f, e) in
  f ← f80_normalize f;
  Some (f, e).

(** The significand a fraction is widened to. *)
Definition widened (fr : Z) : Z := fr * 2 ^ (63 - fb).

Lemma widened_range fr : 0 <= fr < 2 ^ fb -> 0 <= widened fr < 2 ^ 63 /\ (fr < 2 ^ (fb - 1) <-> widened fr < 2 ^ 62).
Proof using Hfmt.
  intros Hfr. pose proof format_bounds as (Hf & _). unfold widened. pose proof (pow2_pos (63 - fb) ltac:(lia)) as Hp.
  assert (2 ^ 63 = 2 ^ fb * 2 ^ (63 - fb)) as E1 by (rewrite <- Z.pow_add_r by lia; f_equal; lia). assert (2 ^ 62 = 2 ^ (fb - 1) * 2 ^ (63 - fb)) as E2 by (rewrite <- Z.pow_add_r by lia; f_equal; lia).
  split; [rewrite E1; split; [lia | apply Z.mul_lt_mono_pos_r; lia] |]. rewrite E2. apply Z.mul_lt_mono_pos_r. lia.
Qed.

Lemma cursed_code y : 0 <= y < 2 ^ 63 -> Z.lor y CURSED_BIT = 2 ^ 63 + y.
Proof using. intros Hy. unfold CURSED_BIT. rewrite Z.shiftl_1_l, Z.lor_comm, <- (Z.mul_1_l (2 ^ 63)), lor_disjoint by lia. lia. Qed.

Lemma quieten_code y : 0 <= y < 2 ^ 62 -> Z.lor (2 ^ 63 + y) QUIET_BIT = 2 ^ 63 + (2 ^ 62 + y).
Proof using.
  intros Hy. unfold QUIET_BIT. rewrite Z.shiftl_1_l. replace (2 ^ 63 + y) with (2 * 2 ^ 62 + y) by lia. rewrite <- lor_disjoint by lia.
  rewrite <- Z.lor_assoc, (Z.lor_comm y), Z.lor_assoc. change (Z.lor (2 * 2 ^ 62) (2 ^ 62)) with (3 * 2 ^ 62). rewrite lor_disjoint by lia. lia.
Qed.

Lemma quiet_code y : 0 <= y < 2 ^ 63 -> (Z.land (2 ^ 63 + y) QUIET_BIT =? 0) = (y <? 2 ^ 62).
Proof using.
  intros Hy. pose proof (has_flag_testbit (2 ^ 63 + y) 62 ltac:(lia)) as H. unfold has_flag in H. apply (f_equal negb) in H. rewrite negb_involutive in H. unfold QUIET_BIT. rewrite H.
  rewrite Z.testbit_odd, Z.shiftr_div_pow2 by lia. replace (2 ^ 63 + y) with (y + 2 * 2 ^ 62) by lia. rewrite Z.div_add by lia. destruct (Z.ltb_spec y (2 ^ 62)); [by rewrite Z.div_small by lia |].
  replace (y / 2 ^ 62) with 1; [done |]. apply Z.div_unique with (y - 2 ^ 62); lia.
Qed.

Lemma special_kind y s : 0 <= y < 2 ^ 63 -> let f := mk_f (2 ^ 63 + y) EXP_SPECIAL s in
  f80_is_supported f = true /\ f80_isnan f = negb (y =? 0) /\ f80_isinf f = (y =? 0) /\ f80_issnan f = negb (y =? 0) && (y <? 2 ^ 62).
Proof using.
  intros Hy f. assert (in_range f) as Hr by (unfold in_range, f; cbn [signif exp]; unfold EXP_SPECIAL; lia).
  assert (Z.land (2 ^ 63 + y) (Z.shiftr (u64 (-1)) 1) = y) as El.
  { change (Z.shiftr (u64 (-1)) 1) with (2 ^ 63 - 1). rewrite land_low by lia. symmetry. apply Z.mod_unique with 1; lia. }
  assert (f80_isnan f = negb (y =? 0)) as En by (unfold f80_isnan, f; cbn [signif exp]; rewrite El; done). split; [apply (supported_normal f Hr); [done | cbn [f signif]; lia] |].
  split; [done |]. split; [unfold f80_isinf, f; cbn [signif exp]; by rewrite El |]. unfold f80_issnan. rewrite En. cbn [f signif]. by rewrite quiet_code.
Qed.

Lemma special_normalize y s : 0 <= y < 2 ^ 63 -> f80_normalize (mk_f (2 ^ 63 + y) EXP_SPECIAL s) = Some (mk_f (2 ^ 63 + y) EXP_SPECIAL s).
Proof using.
  intros Hy. destruct (special_kind y s Hy) as (Hs & _). unfold f80_normalize. rewrite Hs. cbn [exp signif]. rewrite andb_false_r. change (EXP_SPECIAL =? EXP_DENORMAL) with false. cbv iota.
  rewrite (proj2 (Z.eqb_neq (2 ^ 63 + y) 0)) by lia. cbn [negb]. assert (clz64 (2 ^ 63 + y) = 0) as -> by (unfold clz64; rewrite (Z.log2_unique (2 ^ 63 + y) 63); [done | lia | change (Z.succ 63) with 64; lia]).
  change (EXP_SPECIAL - 0 <? EXP_MIN) with false. cbv iota. unfold f80_shift_left. cbn [Z.ltb Z.geb Z.compare orb]. unfold set_exp, set_signif. cbn [signif exp sign]. rewrite Z.shiftl_0_r, u64_small by lia. done.
Qed.

Section load.
Context (b : Z) (e : fenv).
Hypothesis Hb : 0 <= b < 2 ^ (fb + eb + 1).
Notation x := (bits_exp fb eb b).
Notation fr := (bits_frac fb b).
Notation s := (bits_sign fb eb b).

Lemma parts_range : 0 <= x <= ieee_special eb /\ 0 <= fr < 2 ^ fb.
Proof using Hfmt. pose proof format_bounds. unfold bits_exp, bits_frac. pose proof (Z.mod_pos_bound (b / 2 ^ fb) (2 ^ eb) ltac:(lia)). pose proof (Z.mod_pos_bound b (2 ^ fb) (pow2_pos fb ltac:(lia))). lia. Qed.

Lemma load_code : from_ieee b e =
  let fexp := if x =? ieee_special eb then EXP_SPECIAL else if x =? 0 then (if fr =? 0 then 0 else bias (1 - ieee_bias eb)) else bias (x - ieee_bias eb) in
  let f := mk_f (if x =? 0 then widened fr else 2 ^ 63 + widened fr) (u15 fexp) s in
  let e := if (x =? 0) && negb (fr =? 0) then raise e F80_EXC_DENORMAL else e in
  let '(f, e) := if f80_issnan f then (quieten f, raise e F80_EXC_INVALID) else (f, e) in
  f ← f80_normalize f; Some (f, e).
Proof using All.
  pose proof format_bounds as (Hf & He & _). pose proof parts_range as [Hx Hfr]. destruct (widened_range fr Hfr) as [Hwd _]. unfold from_ieee, ieee_special. rewrite !land_low, !Z.shiftr_div_pow2, Z.shiftl_mul_pow2 by lia.
  fold (bits_frac fb b) (bits_exp fb eb b) (bits_sign fb eb b). fold (widened fr). rewrite u64_small by lia. rewrite cursed_code by lia. by destruct (x =? 0).
Qed.

Lemma load_finite : x <> ieee_special eb ->
  exists f, from_ieee b e = Some (f, if (x =? 0) && negb (fr =? 0) then raise e F80_EXC_DENORMAL else e) /\ finite f /\ sign f = s /\ mag f = ieee_mag fb eb b.
Proof using All.
  intros Hns. pose proof format_bounds as (Hf & He & _ & Hbias & Hsp & _). pose proof parts_range as [Hx Hfr]. destruct (widened_range fr Hfr) as [Hwd _]. pose proof (pow2_pos (63 - fb) ltac:(lia)) as Pw. pose proof (pow2_pos fb ltac:(lia)) as Pf. pose proof jmin_bound as Hjm.
  rewrite load_code. rewrite (proj2 (Z.eqb_neq x (ieee_special eb))) by done. set (e' := if (x =? 0) && negb (fr =? 0) then _ else _).
  assert (forall sg y, 0 < sg < 2 ^ 64 -> 1 - ieee_bias eb <= y <= ieee_bias eb -> sg * 2 ^ (y - 63 + U) = ieee_mag fb eb b ->
    exists f, (let '(f, e) := if f80_issnan (mk_f sg (u15 (bias y)) s) then (quieten (mk_f sg (u15 (bias y)) s), raise e' F80_EXC_INVALID) else (mk_f sg (u15 (bias y)) s, e') in f ← f80_normalize f; Some (f, e)) = Some (f, e') /\
      finite f /\ sign f = s /\ mag f = ieee_mag fb eb b) as Hcase.
  { intros sg y Hsg Hy Hm. assert (u15 (bias y) = bias y) as -> by (apply Z.mod_small; unfold bias, BIAS80; lia). assert (bias y <> EXP_SPECIAL /\ bias y <> EXP_DENORMAL) as [H1 H2] by (unfold bias, BIAS80, EXP_SPECIAL, EXP_DENORMAL; lia).
    unfold f80_issnan, f80_isnan. cbn [exp]. rewrite (proj2 (Z.eqb_neq _ _) H1). cbn [andb].
    destruct (normalize_value (mk_f sg (bias y) s)) as (g & Hg & Fg & Sg & Mg); [unfold in_range, bias, BIAS80; cbn [signif exp]; lia | unfold bias, BIAS80, EXP_MAX; cbn [exp]; lia | cbn [signif]; lia |].
    rewrite Hg. exists g. split; [done |]. split; [done |]. split; [done |]. rewrite Mg, <- Hm. unfold mag, unbias_denormal. cbn [signif exp]. rewrite (proj2 (Z.eqb_neq _ _) H2). do 2 f_equal. unfold bias, unbias. lia. }
  unfold ieee_mag in *. destruct (Z.eqb_spec x 0) as [E0 | E0].
  - destruct (Z.eqb_spec fr 0) as [Ef | Ef].
    + unfold widened. rewrite Ef, !Z.mul_0_l. exists (mk_f 0 0 s). split; [done |]. split; [by vm_compute |]. split; [done | apply Z.mul_0_l].
    + apply Hcase; [unfold widened in *; nia | lia |]. unfold widened. rewrite <- Z.mul_assoc, <- Z.pow_add_r by (unfold ieee_jmin in Hjm; lia). do 2 f_equal. rewrite E0. unfold ieee_jmin. lia.
  - apply Hcase; [lia | lia |]. rewrite Z.max_l by lia. replace (2 ^ 63 + widened fr) with ((2 ^ fb + fr) * 2 ^ (63 - fb)) by (unfold widened; rewrite Z.mul_add_distr_r, <- Z.pow_add_r by lia; do 2 f_equal; lia).
    rewrite <- Z.mul_assoc, <- Z.pow_add_r by (unfold ieee_jmin in Hjm; lia). do 2 f_equal. unfold ieee_jmin. lia.
Qed.

(** An infinity or NaN, a signalling one quieted. *)
Definition signalling : bool := (x =? ieee_special eb) && negb (fr =? 0) && (fr <? 2 ^ (fb - 1)).

Lemma load_special : x = ieee_special eb ->
  from_ieee b e = Some (mk_f (2 ^ 63 + widened (if signalling then 2 ^ (fb - 1) + fr else fr)) EXP_SPECIAL s, if signalling then raise e F80_EXC_INVALID else e).
Proof using All.
  intros Hsx. pose proof format_bounds as (Hf & He & _ & Hbias & Hsp & _). pose proof parts_range as [Hx Hfr]. destruct (widened_range fr Hfr) as [Hwd Hq]. rewrite load_code. rewrite (proj2 (Z.eqb_eq _ _) Hsx), (proj2 (Z.eqb_neq x 0)) by lia. cbn [andb]. change (u15 EXP_SPECIAL) with EXP_SPECIAL.
  destruct (special_kind (widened fr) s Hwd) as (_ & _ & _ & ->). unfold signalling. rewrite (proj2 (Z.eqb_eq _ _) Hsx). cbn [andb]. pose proof (pow2_pos (63 - fb) ltac:(lia)) as Pw.
  assert ((widened fr =? 0) = (fr =? 0)) as -> by (unfold widened; destruct (Z.eqb_spec fr 0) as [-> | ?]; [done | apply Z.eqb_neq; nia]). assert ((widened fr <? 2 ^ 62) = (fr <? 2 ^ (fb - 1))) as -> by lia.
  destruct (negb (fr =? 0) && (fr <? 2 ^ (fb - 1))) eqn:Eq.
  - unfold quieten. cbn [signif exp sign]. rewrite quieten_code by lia. assert (2 ^ 62 + widened fr = widened (2 ^ (fb - 1) + fr)) as -> by (unfold widened; rewrite Z.mul_add_distr_r, <- Z.pow_add_r by lia; do 2 f_equal; lia).
    rewrite special_normalize; [done |]. apply widened_range. assert (2 ^ fb = 2 * 2 ^ (fb - 1)) by (rewrite <- pow2_succ by lia; f_equal; lia). lia.
  - by rewrite special_normalize.
Qed.
End load.
(** ** Round trip *)

Lemma ieee_mag_lt s x fr s' x' fr' : 0 <= x < x' -> x' < 2 ^ eb -> 0 <= fr < 2 ^ fb -> 0 <= fr' < 2 ^ fb -> ieee_mag fb eb (join s x fr) < ieee_mag fb eb (join s' x' fr').
Proof using Hfmt.
  intros Hx Hx' Hfr Hfr'. pose proof format_bounds as (Hf & _). pose proof jmin_bound as Hj. rewrite !ieee_mag_join by lia. rewrite (proj2 (Z.eqb_neq x' 0)) by lia. rewrite (Z.max_l x' 1) by lia. pose proof (pow2_pos fb ltac:(lia)) as Pf.
  apply Z.lt_le_trans with (2 ^ fb * 2 ^ (x' - 1 + ieee_jmin fb eb)); [| apply Z.mul_le_mono_nonneg_r; [apply Z.pow_nonneg; lia | lia]]. destruct (Z.eqb_spec x 0) as [-> | Hn].
  - apply Z.lt_le_trans with (2 ^ fb * 2 ^ (Z.max 0 1 - 1 + ieee_jmin fb eb)); [apply Z.mul_lt_mono_pos_r; [apply pow2_pos; lia | lia] | apply Z.mul_le_mono_nonneg_l; [lia | apply Z.pow_le_mono_r; lia]].
  - rewrite Z.max_l by lia. apply Z.lt_le_trans with (2 ^ (fb + 1) * 2 ^ (x - 1 + ieee_jmin fb eb)); [apply Z.mul_lt_mono_pos_r; [apply pow2_pos; lia | rewrite pow2_succ by lia; lia] |]. rewrite <- !Z.pow_add_r by lia. apply Z.pow_le_mono_r; lia.
Qed.

Lemma ieee_mag_inj s x fr x' fr' : 0 <= x < 2 ^ eb -> 0 <= x' < 2 ^ eb -> 0 <= fr < 2 ^ fb -> 0 <= fr' < 2 ^ fb ->
  ieee_mag fb eb (join s x fr) = ieee_mag fb eb (join s x' fr') -> x = x' /\ fr = fr'.
Proof using Hfmt.
  intros Hx Hx' Hfr Hfr' E. assert (x = x') as <-.
  { destruct (Z.lt_total x x') as [H | [H | H]]; [| done |]; exfalso; [pose proof (ieee_mag_lt s x fr s x' fr') | pose proof (ieee_mag_lt s x' fr' s x fr)]; lia. }
  split; [done |]. pose proof jmin_bound. rewrite !ieee_mag_join in E by lia. apply Z.mul_cancel_r in E; [| apply Z.pow_nonzero; lia]. destruct (x =? 0); lia.
Qed.

(** A finite number of the format is one of the numbers rounding chooses from. *)
Lemma ieee_mag_format b : 0 <= b < 2 ^ (fb + eb + 1) -> bits_exp fb eb b <> ieee_special eb -> format (fb + 1) (ieee_jmin fb eb) (ieee_mag fb eb b) /\ ieee_mag fb eb b <= ieee_max fb eb.
Proof using Hfmt.
  intros Hb Hns. pose proof format_bounds as (Hf & _ & _ & Hbias & Hsp & _). pose proof (parts_range b) as [Hx Hfr]. pose proof jmin_bound as Hj. unfold ieee_mag. set (x := bits_exp fb eb b) in *. set (fr := bits_frac fb b) in *.
  assert (0 <= (if x =? 0 then fr else 2 ^ fb + fr) < 2 ^ (fb + 1)) as Hk by (rewrite pow2_succ by lia; destruct (x =? 0); lia). split.
  - exists (if x =? 0 then fr else 2 ^ fb + fr), (Z.max x 1 - 1 + ieee_jmin fb eb). split; [lia |]. done.
  - unfold ieee_max. apply Z.mul_le_mono_nonneg; [lia | lia | apply Z.pow_nonneg; lia | apply Z.pow_le_mono_r; [lia |]]. unfold ieee_jmin. lia.
Qed.

Lemma roundtrip_finite b f e : 0 <= b < 2 ^ (fb + eb + 1) -> bits_exp fb eb b <> ieee_special eb -> finite f -> sign f = bits_sign fb eb b -> mag f = ieee_mag fb eb b -> f80_to_ieee f fb eb e = (b, e).
Proof using Hfmt.
  intros Hb Hns Hf Hs Hm. pose proof (parts_range b) as [Hx Hfr]. pose proof format_bounds as (Hfb & Heb & _ & Hbias & Hsp & E2). destruct (ieee_mag_format b Hb Hns) as [HF Hmax]. pose proof jmin_bound as Hj.
  unfold f80_to_ieee. rewrite (proj1 (proj2 Hf)), (proj2 (Z.eqb_neq _ _) (proj2 (proj2 Hf))). cbn [negb]. rewrite (iszero_mag f Hf), Hm. pose proof (join_split b Hb) as Eb. destruct (Z.eqb_spec (ieee_mag fb eb b) 0) as [E0 | E0].
  - f_equal. rewrite Eb at 1. unfold join. rewrite Hs. assert (bits_exp fb eb b = 0 /\ bits_frac fb b = 0) as [-> ->]; [| rewrite Z.shiftl_mul_pow2; lia].
    unfold ieee_mag in E0. apply Z.mul_eq_0 in E0 as [E0 | E0]; [| exfalso; revert E0; apply Z.pow_nonzero; lia]. pose proof (pow2_pos fb ltac:(lia)). destruct (Z.eqb_spec (bits_exp fb eb b) 0); lia.
  - assert (signif f <> 0) as Hnz by (rewrite <- (mag_zero f Hf), Hm; done). destruct (store_finite f e Hf Hnz) as (R & HR & Hd). rewrite Hm in HR, Hd.
    assert (rat (ieee_mag fb eb b) 1 (ieee_mag fb eb b) = Eq) as E1 by (unfold rat; rewrite Z.mul_1_r; apply Z.compare_refl).
    apply (rounds_exact _ _ _ _ _ _ (ieee_mag fb eb b)) in HR; [| lia | done | done]. subst R. rewrite (proj2 (Z.leb_le _ _) Hmax), E1, flagged_exact in Hd. destruct (ieee_finite f fb eb e) as [bits e']. cbn [fst snd] in Hd.
    destruct Hd as ((x' & fr' & Hx' & Hfr' & Ej) & Em & ->). f_equal. rewrite Ej. rewrite Ej, Hs in Em. rewrite Eb in Em at 2. destruct (ieee_mag_inj (bits_sign fb eb b) x' fr' (bits_exp fb eb b) (bits_frac fb b)) as [-> ->]; [lia | lia | done | done | done |]. by rewrite Hs, <- Eb.
Qed.

Lemma store_special y s e : 0 <= y < 2 ^ fb -> (y = 0 \/ 2 ^ (fb - 1) <= y) -> f80_to_ieee (mk_f (2 ^ 63 + widened y) EXP_SPECIAL s) fb eb e = (join s (ieee_special eb) y, e).
Proof using Hfmt.
  intros Hy Hq. pose proof format_bounds as (Hf & He & Hsum & Hbias & Hsp & E2). destruct (widened_range y Hy) as [Hwd Hwq]. destruct (special_kind (widened y) s Hwd) as (K1 & K2 & K3 & K4). pose proof (pow2_pos (63 - fb) ltac:(lia)) as Pw.
  destruct constants_code as (_ & C2 & C3). unfold f80_to_ieee. rewrite K1, K3, K4, C2, C3. cbn [negb exp]. change (EXP_SPECIAL =? EXP_SPECIAL) with true. cbv iota.
  assert ((widened y =? 0) = (y =? 0)) as -> by (unfold widened; destruct (Z.eqb_spec y 0) as [-> | ?]; [done | apply Z.eqb_neq; nia]). destruct (Z.eqb_spec y 0) as [-> | Hn].
  - f_equal. unfold join. rewrite <- (fields_code (ieee_special eb) 0), Z.lor_0_r by lia. cbn [sign]. rewrite <- (Z.lor_0_r (u64 _)), fields_code by lia. apply join_code. apply (join_parts false); lia.
  - cbn [negb andb]. rewrite (proj2 (Z.ltb_ge (widened y) (2 ^ 62))) by lia. f_equal. cbn [sign signif]. rewrite Z.shiftr_div_pow2, land_low by lia.
    assert ((2 ^ 63 + widened y) / 2 ^ (63 - fb) = y + 1 * 2 ^ fb) as ->.
    { unfold widened. rewrite Z.div_add by lia. rewrite (Z.add_comm y). f_equal. replace (2 ^ 63) with (1 * 2 ^ fb * 2 ^ (63 - fb)) by (rewrite Z.mul_1_l, <- Z.pow_add_r by lia; f_equal; lia). apply Z.div_mul. lia. }
    rewrite Z.mod_add, Z.mod_small by lia. rewrite Z.shiftl_1_l, <- !Z.lor_assoc.
    assert (Z.lor y (2 ^ (fb - 1)) = y) as ->.
    { assert (2 ^ fb = 2 * 2 ^ (fb - 1)) as Ep by (rewrite <- pow2_succ by lia; f_equal; lia). replace y with (1 * 2 ^ (fb - 1) + (y - 2 ^ (fb - 1))) at 1 by lia. rewrite <- lor_disjoint by lia.
      rewrite Z.mul_1_l, <- Z.lor_assoc, (Z.lor_comm (y - _)), Z.lor_assoc, Z.lor_diag. rewrite <- (Z.mul_1_l (2 ^ (fb - 1))) at 1. rewrite lor_disjoint by lia. lia. }
    rewrite fields_code by lia. apply join_code. apply (join_parts false); lia.
Qed.

(** What comes back: the same bits, a signalling NaN quieted. *)
Definition quieted (b : Z) : Z := if signalling b then b + 2 ^ (fb - 1) else b.

Lemma ieee_roundtrip b e : 0 <= b < 2 ^ (fb + eb + 1) -> exists f e', from_ieee b e = Some (f, e') /\ f80_to_ieee f fb eb e' = (quieted b, e').
Proof using Hfmt.
  intros Hb. pose proof (parts_range b) as [Hx Hfr]. pose proof format_bounds as (Hfb & _ & _ & _ & Hsp & E2). destruct (decide (bits_exp fb eb b = ieee_special eb)) as [Es | Es].
  - eexists _, _. split; [by apply load_special |]. pose proof (join_split b Hb) as Eb. rewrite Es in Eb. assert (2 ^ fb = 2 * 2 ^ (fb - 1)) as Ep by (rewrite <- pow2_succ by lia; f_equal; lia). pose proof (pow2_pos (fb - 1) ltac:(lia)).
    unfold quieted. destruct (signalling b) eqn:Eg; unfold signalling in Eg; rewrite (proj2 (Z.eqb_eq _ _) Es) in Eg; cbn [andb] in Eg.
    + rewrite store_special by lia. f_equal. rewrite Eb at 3. unfold join. lia.
    + rewrite store_special by lia. by rewrite <- Eb.
  - destruct (load_finite b e Hb Es) as (f & Hf & Ff & Sf & Mf). exists f, (if (bits_exp fb eb b =? 0) && negb (bits_frac fb b =? 0) then raise e F80_EXC_DENORMAL else e). split; [done |]. rewrite roundtrip_finite with (b := b) by done.
    f_equal. unfold quieted, signalling. by rewrite (proj2 (Z.eqb_neq _ _) Es).
Qed.
End formats.

(** ** The code's functions *)

Lemma from_double_code b e : f80_from_double b e = from_ieee 52 11 b e.
Proof. reflexivity. Qed.
Lemma from_float_code b e : f80_from_float b e = from_ieee 23 8 b e.
Proof. reflexivity. Qed.

(** Storing a finite number as a float or double puts the number it rounds
    to in the current mode in memory, with the flags of that rounding; one that
    rounds beyond the format becomes an infinity or the largest finite number,
    as the mode says, with the overflow flag. *)
Theorem f80_ieee_store f fb eb e : ieee_format fb eb -> finite f -> mag f <> 0 -> stores fb eb (sign f) (rat (mag f) 1) e (f80_to_ieee f fb eb e).
Proof.
  intros Hfmt Hf Hnz. unfold f80_to_ieee. rewrite (proj1 (proj2 Hf)), (proj2 (Z.eqb_neq _ _) (proj2 (proj2 Hf))), (iszero_mag f Hf), (proj2 (Z.eqb_neq _ _) Hnz). cbn [negb].
  apply store_finite; [done | done |]. by rewrite <- (mag_zero f Hf).
Qed.

Lemma f80_ieee_store_witness :
  let f := mk_f 0xffffffffffffffff (bias 127) true in
  stores 23 8 true (rat (mag f) 1) default_env (f80_to_ieee f 23 8 default_env) /\
  f80_to_float f default_env = (0xff800000, mk_env round_to_nearest 64 true true F80_EXC_OVERFLOW).
Proof.
  intros f. split; [| reflexivity]. apply (f80_ieee_store f 23 8 default_env).
  - left. split; reflexivity.
  - vm_compute. intuition discriminate.
  - unfold mag, f. apply Z.neq_mul_0. split; [discriminate | apply Z.pow_nonzero; [lia | vm_compute; discriminate]].
Defined.

(** C28: a float or double that is loaded and stored again comes back bit for
    bit, whatever the mode and precision, save that a signalling NaN comes back
    quiet; the load of a finite number has exactly its value. *)
Theorem f80_ieee_roundtrip b e :
  (0 <= b < 2 ^ 64 -> exists f e', f80_from_double b e = Some (f, e') /\ f80_to_double f e' = (quieted 52 11 b, e') /\
     (bits_exp 52 11 b <> ieee_special 11 -> finite f /\ sign f = bits_sign 52 11 b /\ mag f = ieee_mag 52 11 b)) /\
  (0 <= b < 2 ^ 32 -> exists f e', f80_from_float b e = Some (f, e') /\ f80_to_float f e' = (quieted 23 8 b, e') /\
     (bits_exp 23 8 b <> ieee_special 8 -> finite f /\ sign f = bits_sign 23 8 b /\ mag f = ieee_mag 23 8 b)).
Proof.
  assert (ieee_format 52 11) as Fd by (right; done). assert (ieee_format 23 8) as Ff by (left; done). split; intros Hb.
  - destruct (ieee_roundtrip 52 11 Fd b e Hb) as (f & e' & H1 & H2). exists f, e'. rewrite from_double_code. split; [done |]. split; [exact H2 |]. intros Hn. destruct (load_finite 52 11 Fd b e Hb Hn) as (f' & H3 & H4). rewrite H1 in H3. by injection H3 as -> _.
  - destruct (ieee_roundtrip 23 8 Ff b e Hb) as (f & e' & H1 & H2). exists f, e'. rewrite from_float_code. split; [done |]. split.
    + unfold f80_to_float. rewrite H2. f_equal. apply u32_small. unfold quieted, signalling. pose proof (join_split 23 8 Ff b Hb) as Eb. destruct (parts_range 23 8 Ff b) as [Hx Hfr]. destruct (_ && _) eqn:Eg; [| lia]. to_prop.
      rewrite Eb. unfold join. change (23 - 1) with 22 in *. assert (0 <= Z.b2z (bits_sign 23 8 b) <= 1) by (destruct (bits_sign 23 8 b); simpl; lia). change (ieee_special 8) with 255 in *. lia.
    + intros Hn. destruct (load_finite 23 8 Ff b e Hb Hn) as (f' & H3 & H4). rewrite H1 in H3. by injection H3 as -> _.
Qed.

Lemma f80_ieee_roundtrip_witness : exists f e', f80_from_float 0x80000001 default_env = Some (f, e') /\ f80_to_float f e' = (quieted 23 8 0x80000001, e') /\
  (bits_exp 23 8 0x80000001 <> ieee_special 8 -> finite f /\ sign f = bits_sign 23 8 0x80000001 /\ mag f = ieee_mag 23 8 0x80000001).
Proof. apply (f80_ieee_roundtrip 0x80000001 default_env). lia. Defined.

(** 2^-126 - 2^-150 has 24 bits, so it is tiny and stays tiny when rounded to
    24 bits with an unbounded exponent; stored as a float it becomes 2^-126,
    inexact, but the store looks at the result and raises no underflow. *)
Example store_misses_underflow :
  f80_to_float (mk_f 0xffffff0000000000 (bias (-127)) false) default_env = (0x00800000, mk_env round_to_nearest 64 true true 0).
Proof. reflexivity. Qed.
