(* ===== verification/Float80Scale.v ===== *)
(** Scaling and taking apart (f80_scale, f80_fscale, f80_exponent and
    f80_xtract of emu/float80.c).

    [scale_delivers] is the statement for every [int] scale: the product with
    the power of two, rounded once to 64 bits; the clamp at 2^16 in the code
    does not show.  [xtract_finite] is the exact decomposition. *)

From Stdlib Require Import ZifyBool.
From S2P Require Import Prelude Rounding Float80 Float80Sound Float80Arith Float80Conv.

(** ** The code *)

Definition f80_exponent (x : float80) : Z :=
  if exp x =? EXP_DENORMAL then unbias EXP_MIN - clz64 (signif x) else unbias (exp x).

Definition f80_scale (x : float80) (scale : Z) (e : fenv) : float80 * fenv :=
  if negb (f80_is_supported x) || f80_isnan x then (F80_NAN, e)
  else if f80_isinf x || f80_iszero x then (x, e)
  else
    let scale := if scale >? 0x10000 then 0x10000 else scale in
    let scale := if scale <? - 0x10000 then - 0x10000 else scale in
    let saved := precision e in
    let '(r, e) := u128_normalize_round (Z.shiftl (signif x) 64) (unbias_denormal (exp x) + scale) (sign x) (set_precision e 64) in
    (r, set_precision e saved).

Definition f80_fscale (x y : float80) (e : fenv) : float80 * fenv :=
  match handle_nans x y e with
  | Some r => r
  | None =>
      let e := if f80_isdenormal x || f80_isdenormal y then raise e F80_EXC_DENORMAL else e in
      if f80_isinf y then
        if (if sign y then f80_isinf x else f80_iszero x) then (F80_INDEFINITE, raise e F80_EXC_INVALID)
        else if f80_iszero x || f80_isinf x then (x, e)
        else (set_sign (if sign y then F80_ZERO else F80_INF) (sign x), e)
      else
        let scale :=
          if exp y >=? bias 16 then 0x10000
          else if exp y <? bias 0 then 0
          else Z.shiftr (signif y) (63 - unbias (exp y)) in
        f80_scale x (if sign y then - scale else scale) e
  end.

(** The exponent and the significand. *)
Definition f80_xtract (x : float80) (e : fenv) : option (float80 * float80 * fenv) :=
  if negb (f80_is_supported x) then Some (F80_INDEFINITE, F80_INDEFINITE, raise e F80_EXC_INVALID)
  else if f80_isnan x then
    if f80_issnan x then Some (quieten x, quieten x, raise e F80_EXC_INVALID) else Some (x, x, e)
  else if f80_isinf x then Some (F80_INF, x, e)
  else if f80_iszero x then Some (set_sign F80_INF true, x, raise e F80_EXC_DIVZERO)
  else
    let e := if f80_isdenormal x then raise e F80_EXC_DENORMAL else e in
    xp ← f80_from_int (f80_exponent x);
    Some (xp, set_exp (set_signif x (Z.shiftl (signif x) (clz64 (signif x)))) (bias 0), e).

Example quarter_of_the_smallest : f80_scale (mk_f 3 0 false) (-1) default_env = (mk_f 2 0 false, mk_env round_to_nearest 64 true true F80_EXC_UNDERFLOW).
Proof. reflexivity. Qed.
Example xtract_denormal : f80_xtract (mk_f 3 0 true) default_env =
  (xp ← f80_from_int (-16444); Some (xp, mk_f (3 * 2 ^ 62) (bias 0) true, raise default_env F80_EXC_DENORMAL)).
Proof. reflexivity. Qed.

(** ** The leading bit *)

Lemma mag_pos f : finite f -> mag f <> 0 -> 0 < signif f < 2 ^ 64 /\ 0 < mag f.
Proof.
  intros Hf Hn. pose proof (mag_nonneg f Hf). pose proof (proj1 (not_iff_compat (mag_zero f Hf)) Hn). pose proof Hf as ((Hs & _) & _). lia.
Qed.

(** The exponent of a finite nonzero number is that of its leading bit. *)
Lemma exponent_code x : finite x -> mag x <> 0 -> f80_exponent x = unbias_denormal (exp x) - clz64 (signif x).
Proof.
  intros Hf Hn. unfold f80_exponent, unbias_denormal. destruct (Z.eqb_spec (exp x) EXP_DENORMAL) as [E | E]; [done |].
  pose proof (low_signif x Hf E) as Hl. destruct (mag_pos x Hf Hn) as [Hs _]. unfold clz64. rewrite (Z.log2_unique (signif x) 63) by lia. lia.
Qed.

Lemma exponent_range x : finite x -> mag x <> 0 -> - 20000 <= f80_exponent x <= unbias EXP_MAX /\ 0 <= clz64 (signif x) <= 63.
Proof.
  intros Hf Hn. rewrite (exponent_code x Hf Hn). destruct (mag_pos x Hf Hn) as [Hs _]. pose proof (log2_bounds (signif x) 64 Hs). pose proof (exp_bounds x Hf) as Hx. unfold clz64, unbias, EXP_MIN, EXP_MAX, BIAS80 in *. lia.
Qed.

Lemma mag_justified x : finite x -> mag x <> 0 -> let z := clz64 (signif x) in
  2 ^ 63 <= signif x * 2 ^ z < 2 ^ 64 /\ mag x = signif x * 2 ^ z * 2 ^ (f80_exponent x - 63 + U).
Proof.
  intros Hf Hn z. destruct (mag_pos x Hf Hn) as [Hs _]. pose proof (left_justified (signif x) 64 Hs ltac:(lia)) as Hj. destruct (exponent_range x Hf Hn) as [Hx Hz]. pose proof (low_nonneg x Hf) as Hl. split; [exact Hj |].
  rewrite (exponent_code x Hf Hn) in *. fold z in Hx, Hz |- *. unfold mag. fold (low x). rewrite <- Z.mul_assoc, <- Z.pow_add_r by (unfold low in *; lia). do 2 f_equal. unfold low. lia.
Qed.

Lemma mag_binade x : finite x -> mag x <> 0 -> 2 ^ (f80_exponent x + U) <= mag x < 2 ^ (f80_exponent x + 1 + U).
Proof.
  intros Hf Hn. destruct (mag_justified x Hf Hn) as [Hj ->]. destruct (exponent_range x Hf Hn) as [Hx _]. assert (0 <= f80_exponent x - 63 + U) as Hp by (unfold U; lia).
  replace (f80_exponent x + U) with (63 + (f80_exponent x - 63 + U)) by lia. replace (f80_exponent x + 1 + U) with (64 + (f80_exponent x - 63 + U)) by lia. rewrite !(Z.pow_add_r 2 _ (f80_exponent x - 63 + U)) by lia.
  pose proof (pow2_pos _ Hp). split; [apply Z.mul_le_mono_nonneg_r; lia | apply Z.mul_lt_mono_pos_r; lia].
Qed.

(** ** Scaling *)

(** The exact value of a scaled magnitude. *)
Definition scaled (N k : Z) : cut := if k <? 0 then rat N (2 ^ (- k)) else rat (N * 2 ^ k) 1.

#[export] Instance scaled_cut N k : Cut (scaled N k).
Proof. unfold scaled. destruct (Z.ltb_spec k 0); [apply rat_cut, pow2_pos; lia | apply rat_cut; lia]. Qed.

Definition clamp16 (k : Z) : Z := Z.max (- 0x10000) (Z.min 0x10000 k).

Section scaling.
Context (x : float80) (e : fenv).
Hypothesis Hf : finite x.
Hypothesis Hn : mag x <> 0.
Notation e64 := (set_precision e 64).
Notation run k := (u128_normalize_round (Z.shiftl (signif x) 64) (unbias_denormal (exp x) + k) (sign x) e64).

Lemma width64 : width (precision e64).
Proof using. right. by right. Qed.

Lemma scale_code k : f80_scale x k e = (fst (run (clamp16 k)), set_precision (snd (run (clamp16 k))) (precision e)).
Proof using Hf Hn.
  unfold f80_scale. rewrite (proj1 (proj2 Hf)), (finite_not_nan x Hf), (finite_not_inf x Hf), (iszero_mag x Hf), (proj2 (Z.eqb_neq _ _) Hn). cbn [negb orb].
  replace (if (if k >? 0x10000 then 0x10000 else k) <? - 0x10000 then - 0x10000 else if k >? 0x10000 then 0x10000 else k) with (clamp16 k) by (unfold clamp16; destruct (Z.gtb_spec k 0x10000); [change (0x10000 <? - 0x10000) with false; cbv iota | destruct (Z.ltb_spec k (- 0x10000))]; lia).
  by destruct (run (clamp16 k)).
Qed.

Lemma scale_small k : - 0x10000 <= k <= 0x10000 -> delivers (sign x) (scaled (mag x) k) e64 (run k).
Proof using Hf Hn.
  intros Hk. pose proof (exp_range x Hf) as Hx. pose proof (low_nonneg x Hf) as Hl. destruct (mag_pos x Hf Hn) as [Hs _]. rewrite Z.shiftl_mul_pow2 by lia.
  apply exact_delivers; [apply scaled_cut | apply width64 | lia | lia |]. intros n.
  assert (signif x * 2 ^ 64 * 2 ^ place (unbias_denormal (exp x) + k) = signif x * 2 ^ (low x + k)) as -> by (rewrite <- Z.mul_assoc, <- Z.pow_add_r by (unfold place, U; lia); do 2 f_equal; unfold place, low; lia).
  unfold scaled, mag. fold (low x). assert (0 <= low x + k) by (unfold low, U in *; lia). destruct (Z.ltb_spec k 0) as [H0 | H0]; unfold rat.
  - rewrite <- (compare_scale (signif x * 2 ^ (low x + k)) n (2 ^ (- k))) by (apply pow2_pos; lia). f_equal. rewrite <- Z.mul_assoc, <- Z.pow_add_r by lia. do 2 f_equal. lia.
  - rewrite Z.mul_1_r, <- Z.mul_assoc, <- Z.pow_add_r by lia. done.
Qed.

Lemma mag_format k : 0 <= k -> format 64 (jmin 64) (mag x * 2 ^ k).
Proof using Hf.
  intros Hk. pose proof (low_nonneg x Hf). pose proof (exp_bounds x Hf). exists (signif x), (low x + k). split; [unfold jmin, low; lia |]. split; [apply Hf |]. unfold mag. fold (low x). rewrite <- Z.mul_assoc, <- Z.pow_add_r by lia. done.
Qed.

Lemma max_finite_lt : max_finite 64 < 2 ^ (unbias EXP_MAX + 1 + U).
Proof using.
  unfold max_finite. replace (unbias EXP_MAX + 1 + U) with (64 + (64 - 64 + (unbias EXP_MAX - 63 + U))) by lia. rewrite (Z.pow_add_r 2 64) by (unfold unbias, EXP_MAX, BIAS80, U; lia).
  apply Z.mul_lt_mono_pos_r; [apply pow2_pos; unfold unbias, EXP_MAX, BIAS80, U; lia | lia].
Qed.

(** A scale of 2^16 is beyond the range whatever the operand. *)
Lemma scale_large k r : 0x10000 <= k -> delivers (sign x) (scaled (mag x) k) e64 r <-> r = overflowed (sign x) e64.
Proof using Hf Hn.
  intros Hk. assert (1 <= jmin 64 - 1) as Hj by (unfold jmin, unbias, EXP_MIN, BIAS80, U; lia). pose proof (mag_format k ltac:(lia)) as HF.
  assert (format 64 (jmin 64 - 1) (mag x * 2 ^ k)) as HF' by (destruct HF as (a & j & ? & ? & ?); exists a, j; split; [lia | done]).
  assert (scaled (mag x) k (mag x * 2 ^ k) = Eq) as Eq by (unfold scaled; rewrite (proj2 (Z.ltb_ge k 0)) by lia; unfold rat; rewrite Z.mul_1_r; apply Z.compare_refl).
  assert (max_finite 64 < mag x * 2 ^ k) as Hbig.
  { eapply Z.lt_le_trans; [apply max_finite_lt |]. destruct (exponent_range x Hf Hn) as [Hx _]. pose proof (mag_binade x Hf Hn) as [Hb _]. assert (0 <= f80_exponent x + U) by (unfold U; lia).
    apply Z.le_trans with (2 ^ (f80_exponent x + U) * 2 ^ k); [| apply Z.mul_le_mono_nonneg_r; [apply Z.pow_nonneg; lia | done]]. rewrite <- Z.pow_add_r by lia. apply Z.pow_le_mono_r; [lia |]. unfold unbias, EXP_MAX, BIAS80. lia. }
  split.
  - intros (R & T & HR & _ & H). cbn [precision set_precision rounding] in *. apply (rounds_exact _ _ _ _ _ _ (mag x * 2 ^ k)) in HR; [| lia | done | done]. subst R. by rewrite (proj2 (Z.leb_gt _ _) Hbig) in H.
  - intros ->. exists (mag x * 2 ^ k), (mag x * 2 ^ k). split; [apply rounds_self; [apply scaled_cut | cbn [precision set_precision]; lia | done | done] |]. split; [apply rounds_self; [apply scaled_cut | cbn [precision set_precision]; lia | done | done] |]. cbn [precision set_precision]. by rewrite (proj2 (Z.leb_gt _ _) Hbig).
Qed.

Lemma tiny_cut N k j t : 0 < N < 2 ^ (j + 0x10000) -> k <= - 0x10000 -> 0 <= j -> scaled N k (t * 2 ^ j) = if t <=? 0 then Gt else Lt.
Proof using.
  intros HN Hk Hj. unfold scaled. rewrite (proj2 (Z.ltb_lt k 0)) by lia. unfold rat. pose proof (pow2_pos (j - k) ltac:(lia)). assert (2 ^ (j + 0x10000) <= 2 ^ (j - k)) by (apply Z.pow_le_mono_r; lia).
  rewrite <- Z.mul_assoc, <- Z.pow_add_r by lia. replace (j + - k) with (j - k) by lia. destruct (Z.leb_spec t 0); [apply Z.compare_gt_iff; nia | apply Z.compare_lt_iff; nia].
Qed.

(** The result is the exact product rounded once, to 64 bits whatever the
    precision control says. *)
Lemma scale_delivers k : let r := f80_scale x k e in
  delivers (sign x) (scaled (mag x) k) e64 (fst r, set_precision (snd r) 64) /\ precision (snd r) = precision e.
Proof using Hf Hn.
  cbv zeta. rewrite scale_code. cbn [fst snd precision set_precision]. split; [| done].
  assert (delivers (sign x) (scaled (mag x) k) e64 (run (clamp16 k))) as Hd.
  { pose proof (scale_small (clamp16 k) ltac:(unfold clamp16; lia)) as Hs. destruct (decide (k < - 0x10000)) as [Hl | Hl]; [| destruct (decide (0x10000 < k)) as [Hh | Hh]; [| by replace (clamp16 k) with k in * by (unfold clamp16; lia)]].
    - apply delivers_agree with (scaled (mag x) (clamp16 k)); [apply width64 | | done]. intros t. cbn [precision set_precision]. replace (clamp16 k) with (- 0x10000) by (unfold clamp16; lia).
      assert (0 < mag x < 2 ^ (jmin 64 - 2 + 0x10000)) as Hm.
      { destruct (mag_pos x Hf Hn) as [_ Hm]. split; [done |]. eapply Z.lt_le_trans; [apply (mag_binade x Hf Hn) |]. apply Z.pow_le_mono_r; [lia |]. destruct (exponent_range x Hf Hn) as [Hx _]. unfold jmin, unbias, EXP_MIN, EXP_MAX, BIAS80 in *. lia. }
      assert (0 <= jmin 64 - 2) by (unfold jmin, unbias, EXP_MIN, BIAS80, U; lia). rewrite !tiny_cut by lia. done.
    - replace (clamp16 k) with 0x10000 in * by (unfold clamp16; lia). apply (scale_large 0x10000) in Hs; [| lia]. rewrite Hs. apply scale_large; [lia | done]. }
  assert (precision (snd (run (clamp16 k))) = 64) as Ep.
  { destruct Hd as (R & T & _ & _ & H). destruct (_ <=? _); [destruct H as (_ & _ & _ & ->) | rewrite H]; done. }
  destruct (run (clamp16 k)) as [f e']. cbn [fst snd] in *. destruct e' as [m p ie up ex]. cbn in Ep. subst p. exact Hd.
Qed.
End scaling.

Lemma scale_same x k k' e : finite x -> mag x <> 0 -> clamp16 k = clamp16 k' -> f80_scale x k e = f80_scale x k' e.
Proof. intros Hf Hn E. by rewrite !scale_code, E. Qed.

(** The scale FSCALE passes on is the second operand truncated, up to the clamp. *)
Definition trunc (y : float80) : Z := Z.quot (val y) (2 ^ U).

Lemma trunc_mag y : finite y -> trunc y = if sign y then - (mag y / 2 ^ U) else mag y / 2 ^ U.
Proof.
  intros Hf. pose proof (mag_nonneg y Hf). pose proof (pow2_pos U U_nonneg). unfold trunc, val. destruct (sign y); [rewrite Z.quot_opp_l by lia; f_equal |]; apply Z.quot_div_nonneg; lia.
Qed.

Lemma fscale_amount y : finite y ->
  let k := if exp y >=? bias 16 then 0x10000 else if exp y <? bias 0 then 0 else Z.shiftr (signif y) (63 - unbias (exp y)) in
  0 <= k /\ (k = mag y / 2 ^ U \/ (k = 0x10000 /\ 0x10000 <= mag y / 2 ^ U)).
Proof.
  intros Hf k. pose proof (pow2_pos U U_nonneg) as HU. pose proof (mag_nonneg y Hf) as Hm. pose proof (low_nonneg y Hf) as Hl. pose proof Hf as ((Hs & Hr) & _). pose proof U_nonneg as HU0. unfold k.
  assert (exp y <> 0 -> unbias_denormal (exp y) = unbias (exp y)) as Hu by (intros H; unfold unbias_denormal, EXP_DENORMAL; by rewrite (proj2 (Z.eqb_neq _ _) H)).
  rewrite Z.geb_leb. destruct (Z.leb_spec (bias 16) (exp y)) as [H16 | H16].
  - split; [lia |]. right. split; [done |]. apply Z.div_le_lower_bound; [done |]. assert (exp y <> 0) as He by (unfold bias, BIAS80 in *; lia). pose proof (low_signif y Hf He) as Hg. unfold mag. fold (low y).
    apply Z.le_trans with (2 ^ 63 * 2 ^ low y); [| apply Z.mul_le_mono_nonneg_r; [apply Z.pow_nonneg; lia | done]]. change 0x10000 with (2 ^ 16). rewrite <- !Z.pow_add_r by lia. apply Z.pow_le_mono_r; [lia |]. unfold low. rewrite (Hu He). unfold unbias, bias in *. lia.
  - destruct (Z.ltb_spec (exp y) (bias 0)) as [H0 | H0].
    + split; [done |]. left. symmetry. apply Z.div_small. split; [done |]. unfold mag. fold (low y). apply Z.lt_le_trans with (2 ^ 64 * 2 ^ low y); [apply Z.mul_lt_mono_pos_r; [apply pow2_pos; lia | lia] |].
      rewrite <- Z.pow_add_r by lia. apply Z.pow_le_mono_r; [lia |]. unfold low, unbias_denormal, EXP_DENORMAL, EXP_MIN, unbias, bias, BIAS80 in *. destruct (Z.eqb_spec (exp y) 0); lia.
    + assert (exp y <> 0) as He by (unfold bias, BIAS80 in *; lia). specialize (Hu He). set (s := 63 - unbias (exp y)). assert (0 <= s <= 63) as Hs' by (unfold s, unbias, bias, BIAS80 in *; lia). assert (64 <= U) as H64 by done.
      rewrite Z.shiftr_div_pow2 by lia. pose proof (pow2_pos s ltac:(lia)). split; [apply Z.div_pos; lia |]. left. unfold mag. rewrite Hu. replace (unbias (exp y) - 63 + U) with (U - s) by (unfold s; lia).
      rewrite (pow2_split s U) by lia. symmetry. apply Z.div_mul_cancel_r; [lia |]. apply Z.pow_nonzero; lia.
Qed.

(** FSCALE of finite numbers is the product with two to the power of the
    second operand truncated, however large that is, rounded once to 64 bits in
    the current mode with the flags of that rounding; the precision control is
    left alone and the truncation raises nothing. *)
Theorem f80_fscale_correct x y e : finite x -> mag x <> 0 -> finite y ->
  let e1 := if f80_isdenormal x || f80_isdenormal y then raise e F80_EXC_DENORMAL else e in
  let r := f80_fscale x y e in
  delivers (sign x) (scaled (mag x) (trunc y)) (set_precision e1 64) (fst r, set_precision (snd r) 64) /\ precision (snd r) = precision e.
Proof.
  intros Hx Hn Hy e1 r. assert (r = f80_scale x (trunc y) e1) as ->.
  { unfold r, f80_fscale. rewrite finite_handle, (finite_not_inf y Hy) by done. fold e1. cbv zeta. destruct (fscale_amount y Hy) as [H0 Hk]. cbv zeta in H0, Hk. set (k := if exp y >=? bias 16 then _ else _) in *. apply scale_same; [done | done |].
    rewrite (trunc_mag y Hy). destruct Hk as [-> | [-> Hk]]; [done |]. unfold clamp16. destruct (sign y); lia. }
  destruct (scale_delivers x e1 Hx Hn (trunc y)) as [Hd Hp]. split; [exact Hd |]. rewrite Hp. unfold e1. by destruct (_ || _).
Qed.

Lemma f80_fscale_correct_witness :
  let x := mk_f 3 0 false in let y := mk_f (2 ^ 63) (bias 0) true in
  delivers false (scaled (mag x) (trunc y)) (set_precision (raise default_env F80_EXC_DENORMAL) 64) (f80_fscale x y default_env) /\
  f80_fscale x y default_env = (mk_f 2 0 false, mk_env round_to_nearest 64 true true (Z.lor F80_EXC_DENORMAL F80_EXC_UNDERFLOW)).
Proof.
  intros x y. split; [| reflexivity]. apply (f80_fscale_correct x y default_env).
  - vm_compute. intuition discriminate.
  - unfold mag, x. apply Z.neq_mul_0. split; [discriminate | apply Z.pow_nonzero; [lia | vm_compute; discriminate]].
  - vm_compute. intuition discriminate.
Defined.

(** ** Taking apart *)

(** FXTRACT of a finite nonzero number is exact: its exponent as a number, and
    a significand in [1, 2) with its sign. *)
Lemma xtract_finite x e : finite x -> mag x <> 0 ->
  let e1 := if f80_isdenormal x then raise e F80_EXC_DENORMAL else e in
  exists xp sg, f80_xtract x e = Some (xp, sg, e1) /\ finite xp /\ val xp = f80_exponent x * 2 ^ U /\
    finite sg /\ sign sg = sign x /\ 2 ^ U <= mag sg < 2 ^ (U + 1) /\ scaled (mag sg) (f80_exponent x) (mag x) = Eq.
Proof.
  intros Hf Hn e1. destruct (exponent_range x Hf Hn) as [Hx Hz]. destruct (from_int_value (f80_exponent x)) as (xp & Exp & Fxp & Vxp); [unfold unbias, EXP_MAX, BIAS80 in Hx; lia |].
  destruct (mag_justified x Hf Hn) as [Hj Hm]. cbv zeta in Hj, Hm. set (z := clz64 (signif x)) in *. set (m := signif x * 2 ^ z) in *. exists xp, (mk_f m (bias 0) (sign x)).
  unfold f80_xtract. rewrite (proj1 (proj2 Hf)), (finite_not_nan x Hf), (finite_not_inf x Hf), (iszero_mag x Hf), (proj2 (Z.eqb_neq _ _) Hn). cbn [negb]. fold e1. rewrite Exp. cbn [mbind option_bind].
  unfold set_exp, set_signif. cbn [signif exp sign]. fold z. rewrite Z.shiftl_mul_pow2 by lia. fold m. rewrite u64_small by lia. change (u15 (bias 0)) with (bias 0).
  assert (mag (mk_f m (bias 0) (sign x)) = m * 2 ^ (U - 63)) as Em by (unfold mag; cbn [signif exp]; change (unbias_denormal (bias 0)) with 0; replace (0 - 63 + U) with (U - 63) by lia; reflexivity). assert (64 <= U) as HU by done. split; [reflexivity |]. split; [exact Fxp |]. split; [exact Vxp |]. split; [| split; [reflexivity | split]].
  - split; [split; [cbn [signif]; lia | done] |]. split; [| done]. apply (supported_normal (mk_f m (bias 0) (sign x))); [split; [cbn [signif]; lia | done] | done | cbn [signif]; lia].
  - rewrite Em. replace (2 ^ U) with (2 ^ 63 * 2 ^ (U - 63)) by (rewrite <- Z.pow_add_r by lia; f_equal; lia). replace (2 ^ (U + 1)) with (2 ^ 64 * 2 ^ (U - 63)) by (rewrite <- Z.pow_add_r by lia; f_equal; lia).
    pose proof (pow2_pos (U - 63) ltac:(lia)). split; [apply Z.mul_le_mono_nonneg_r; lia | apply Z.mul_lt_mono_pos_r; lia].
  - rewrite Em, Hm. set (k := f80_exponent x) in *. assert (0 <= k - 63 + U) by (unfold U; lia). unfold scaled. destruct (Z.ltb_spec k 0); unfold rat; apply Z.compare_eq_iff.
    + rewrite <- Z.mul_assoc, <- Z.pow_add_r by lia. do 2 f_equal. lia.
    + rewrite Z.mul_1_r, <- Z.mul_assoc, <- Z.pow_add_r by lia. do 2 f_equal. lia.
Qed.
