(* ===== verification/Float80Rem.v ===== *)
(** The exact remainder (f80_remainder_common, f80_mod and f80_rem of
    emu/float80.c; FPREM and FPREM1).

    The code subtracts scaled copies of the divisor, each step exact by
    Sterbenz's lemma ([sterbenz_format]).  [f80_remainder_correct] shows that
    what comes out is the exact remainder, of the truncated or the nearest
    quotient, and that no flag but the denormal-operand one is touched. *)

From Stdlib Require Import ZifyBool.
From S2P Require Import Prelude Rounding Float80 Float80Sound Float80Arith Float80Cmp Float80Conv Float80Scale.

(** ** The code *)

(** The saved state is the whole of it, so [f80_mode_save_] is [fenv]. *)
Definition f80_full_precision_begin (e : fenv) : fenv := set_precision (set_rounding e round_to_nearest) 64.
Definition f80_full_precision_end (saved : fenv) (inexact_too : bool) : fenv := set_inexact saved (inexact saved || inexact_too).

(** The turns of the loop for [i] from [k - 1] down to zero. *)
Fixpoint rem_loop (k : nat) (d r : float80) (quotient_odd : bool) (e : fenv) : option (float80 * bool * fenv) :=
  match k with
  | O => Some (r, quotient_odd, e)
  | S i =>
      let '(t, e) := f80_scale d (Z.of_nat i) e in
      '(lt, e) ← f80_lt r t e;
      if (lt : bool) then rem_loop i d r quotient_odd e
      else
        '(r, e) ← f80_sub r t e;
        rem_loop i d r (quotient_odd || (i =? 0)%nat) e
  end.

Definition rem_finite (x y : float80) (ieee : bool) (e : fenv) : option (float80 * fenv) :=
  let saved := e in
  let e := f80_full_precision_begin e in
  let r := f80_abs x in
  let d := f80_abs y in
  '(lt, e) ← f80_lt r d e;
  '(r, quotient_odd, e) ←
    (if (lt : bool) then Some (r, false, e)
     else rem_loop (Z.to_nat (f80_exponent r - f80_exponent d + 1)) d r false e);
  '(r, flip) ←
    (if ieee then
       '(twice_r, e) ← f80_add r r e;
       '(past, e) ← f80_lt d twice_r e;
       if past || (f80_eq twice_r d && quotient_odd) then
         '(r, e) ← f80_sub d r e;
         Some (r, true)
       else Some (r, false)
     else Some (r, false));
  Some (set_sign r (if (flip : bool) then negb (sign x) else sign x), f80_full_precision_end saved false).

Definition f80_remainder_common (x y : float80) (ieee : bool) (e : fenv) : option (float80 * fenv) :=
  if negb (f80_is_supported x) || negb (f80_is_supported y) then Some (F80_INDEFINITE, raise e F80_EXC_INVALID)
  else
    let e := if f80_issnan x || f80_issnan y then raise e F80_EXC_INVALID else e in
    if f80_isnan x then Some (quieten x, e)
    else if f80_isnan y then Some (quieten y, e)
    else if f80_isinf x || f80_iszero y then Some (F80_INDEFINITE, raise e F80_EXC_INVALID)
    else
      let e := if f80_isdenormal x || f80_isdenormal y then raise e F80_EXC_DENORMAL else e in
      if f80_iszero x || f80_isinf y then Some (x, e)
      else rem_finite x y ieee e.

Definition f80_mod (x y : float80) (e : fenv) : option (float80 * fenv) := f80_remainder_common x y false e.
Definition f80_rem (x y : float80) (e : fenv) : option (float80 * fenv) := f80_remainder_common x y true e.

(** 5 mod 3 = 2 and 5 rem 3 = -1. *)
Example five_mod_three : f80_mod (mk_f (5 * 2 ^ 61) (bias 2) false) (mk_f (3 * 2 ^ 62) (bias 1) false) default_env = Some (mk_f (2 ^ 63) (bias 1) false, default_env).
Proof. reflexivity. Qed.
Example five_rem_three : f80_rem (mk_f (5 * 2 ^ 61) (bias 2) false) (mk_f (3 * 2 ^ 62) (bias 1) true) default_env = Some (mk_f (2 ^ 63) (bias 0) true, default_env).
Proof. reflexivity. Qed.

(** ** Exact steps *)

Definition full (e : fenv) : Prop := rounding e = round_to_nearest /\ precision e = 64.

Lemma same_full e e' : full e -> same_mode e e' -> full e'.
Proof. intros [H1 H2] [H3 H4]. split; congruence. Qed.

Lemma full_width e : full e -> width (precision e).
Proof. intros [_ ->]. right. by right. Qed.

Lemma exact_result s c {Hc : Cut c} e r v : full e -> delivers s c e r -> format 64 (jmin 64) v -> c v = Eq -> v <= max_finite 64 ->
  finite (fst r) /\ sign (fst r) = s /\ mag (fst r) = v /\ snd r = e.
Proof.
  intros [_ Hp] (R & T & HR & _ & H) HF E Hv. rewrite Hp in *. apply (rounds_exact _ _ _ _ _ _ v) in HR; [| by vm_compute | done | done]. subst R. rewrite (proj2 (Z.leb_le _ _) Hv), E, flagged_exact in H. exact H.
Qed.

Lemma rat_self v : rat v 1 v = Eq.
Proof. unfold rat. rewrite Z.mul_1_r. apply Z.compare_refl. Qed.

Lemma mag_le_max f : finite f -> mag f <= max_finite 64.
Proof.
  intros Hf. pose proof (exp_bounds f Hf) as Hx. pose proof (low_nonneg f Hf) as Hl. destruct Hf as ((Hs & _) & _). unfold mag, max_finite. fold (low f).
  apply Z.mul_le_mono_nonneg; [lia | lia | apply Z.pow_nonneg; lia | apply Z.pow_le_mono_r; [lia |]]. unfold low. lia.
Qed.

Lemma scale_exact d i e : full e -> finite d -> mag d <> 0 -> 0 <= i -> mag d * 2 ^ i <= max_finite 64 ->
  exists t, f80_scale d i e = (t, e) /\ finite t /\ sign t = sign d /\ mag t = mag d * 2 ^ i.
Proof.
  intros He Hd Hn Hi Hm. destruct (scale_delivers d e Hd Hn i) as [Hs Hp]. cbv zeta in Hs, Hp. pose proof He as [_ Hp64].
  assert (set_precision e 64 = e) as E64 by (unfold set_precision; rewrite <- Hp64; apply same_env). rewrite E64 in Hs. destruct (f80_scale d i e) as [t e']. cbn [fst snd] in *.
  destruct (exact_result _ _ _ _ (mag d * 2 ^ i) He Hs) as (F & S & M & E); [by apply mag_format | unfold scaled; rewrite (proj2 (Z.ltb_ge i 0)) by lia; apply rat_self | done |].
  exists t. split; [| done]. f_equal. cbn [snd] in E. rewrite <- E. destruct e' as [m p ie up ex]. cbn in Hp |- *. by rewrite Hp, Hp64.
Qed.

(** Sterbenz: the difference of two numbers within a factor of two. *)
Lemma sterbenz_format a b : finite a -> finite b -> mag b <= mag a <= 2 * mag b -> format 64 (jmin 64) (mag a - mag b).
Proof.
  intros Fa Fb Hab. assert (low b <= low a) as Hl by (destruct (decide (low b <= low a)); [done |]; pose proof (mag_exp_lt a b Fa Fb ltac:(lia)); lia).
  pose proof (low_nonneg b Fb). pose proof (exp_bounds b Fb). pose proof (pow2_pos (low b) ltac:(lia)) as Hq. assert (mag a = signif a * 2 ^ (low a - low b) * 2 ^ low b) as Ea by (unfold mag; fold (low a); rewrite <- Z.mul_assoc, <- Z.pow_add_r by lia; do 2 f_equal; lia).
  assert (mag b = signif b * 2 ^ low b) as Eb by done. destruct Fb as ((Hs & _) & _). rewrite Ea, Eb in *. set (ka := signif a * 2 ^ (low a - low b)) in *. clearbody ka.
  exists (ka - signif b), (low b). split; [unfold jmin, low; lia |]. split; [nia | ring].
Qed.

Lemma sub_exact a b e : full e -> finite a -> finite b -> sign a = false -> sign b = false -> mag b <= mag a <= 2 * mag b ->
  exists r, f80_sub a b e = Some (r, e) /\ finite r /\ sign r = false /\ mag r = mag a - mag b.
Proof.
  intros He Fa Fb Sa Sb Hab. pose proof (sub_delivers a b e (full_width e He) Fa Fb) as H. unfold val in H. rewrite Sa, Sb in H. cbv zeta in H. destruct (Z.eqb_spec (mag a - mag b) 0) as [E0 | E0].
  - rewrite H. rewrite andb_false_r. unfold mode_is. rewrite (proj1 He). exists (mk_f 0 0 false). split; [done |]. split; [by vm_compute |]. split; [done |]. rewrite E0. apply Z.mul_0_l.
  - destruct H as ([r e'] & -> & Hd). rewrite (proj2 (Z.ltb_ge (mag a - mag b) 0)), Z.abs_eq in Hd by lia.
    destruct (exact_result _ _ _ _ (mag a - mag b) He Hd) as (F & S & M & E); [by apply sterbenz_format | apply rat_self | pose proof (mag_le_max b Fb); lia |]. cbn [fst snd] in *. subst e'. by exists r.
Qed.

(** ** The loop *)

(** Subtracting an even multiple of the divisor leaves the parity alone. *)
Lemma quotient_step a b i : 0 < b -> (0 < i)%nat -> Z.odd ((a - b * 2 ^ Z.of_nat i) / b) = Z.odd (a / b).
Proof.
  intros Hb Hi. replace (a - b * 2 ^ Z.of_nat i) with (a + - 2 ^ Z.of_nat i * b) by ring. rewrite Z.div_add, Z.odd_add, Z.odd_opp by lia. destruct i; [lia |].
  rewrite Nat2Z.inj_succ, Z.pow_succ_r, Z.odd_mul by lia. apply xorb_false_r.
Qed.

Section loop.
Context (d : float80).
Hypothesis Hd : finite d.
Hypothesis Hs : sign d = false.
Hypothesis Hn : 0 < mag d.

Lemma rem_loop_exact k : forall r odd e, full e -> finite r -> sign r = false -> mag r < mag d * 2 ^ Z.of_nat k -> mag d * 2 ^ Z.of_nat (pred k) <= max_finite 64 ->
  exists r' e', rem_loop k d r odd e = Some (r', odd || Z.odd (mag r / mag d), e') /\ full e' /\ finite r' /\ sign r' = false /\ mag r' = mag r mod mag d.
Proof using All.
  induction k as [| i IH]; intros r odd e He Fr Sr Hlt Hmax; pose proof (mag_nonneg r Fr) as Hr0.
  { rewrite Z.mul_1_r in Hlt. exists r, e. cbn [rem_loop]. rewrite Z.div_small, Z.mod_small, orb_false_r by lia. done. }
  cbn [rem_loop pred] in *. destruct (scale_exact d (Z.of_nat i) e He Hd ltac:(lia) ltac:(lia) Hmax) as (t & -> & Ft & St & Mt).
  destruct (lt_finite r t e (proj2 He) Fr Ft) as (e1 & -> & Hm1). cbn [mbind option_bind]. pose proof (same_full e e1 He Hm1) as He1. unfold val. rewrite Sr, St, Hs.
  assert (mag d * 2 ^ Z.of_nat (pred i) <= max_finite 64) as Hmax' by (etransitivity; [| exact Hmax]; apply Z.mul_le_mono_nonneg_l; [lia | apply Z.pow_le_mono_r; lia]).
  rewrite Nat2Z.inj_succ, Z.pow_succ_r in Hlt by lia. destruct (Z.ltb_spec (mag r) (mag t)) as [Hrt | Hrt]; [by apply IH; try done; rewrite <- Mt |].
  destruct (sub_exact r t e1 He1 Fr Ft Sr ltac:(congruence) ltac:(lia)) as (r1 & -> & Fr1 & Sr1 & Mr1). cbn [mbind option_bind].
  destruct (IH r1 (odd || (i =? 0)%nat) e1 He1 Fr1 Sr1 ltac:(lia) Hmax') as (r' & e' & -> & He' & Fr' & Sr' & Mr'). exists r', e'. split; [| split; [done | split; [done | split; [done |]]]].
  - do 3 f_equal. rewrite <- orb_assoc. f_equal. rewrite Mr1, Mt. destruct i as [| i].
    + rewrite Z.mul_1_r in *. cbn [Nat.eqb orb]. replace (mag r / mag d) with 1; [done |]. apply Z.div_unique with (mag r - mag d); lia.
    + cbn [Nat.eqb orb]. by rewrite quotient_step by lia.
  - rewrite Mr', Mr1, Mt. replace (mag r - mag d * 2 ^ Z.of_nat i) with (mag r + - 2 ^ Z.of_nat i * mag d) by ring. apply Z.mod_add. lia.
Qed.
End loop.

(** The turns the code takes are enough, and no scaled divisor overflows. *)
Lemma turns_enough r d : finite r -> finite d -> 0 < mag d <= mag r ->
  let k := Z.to_nat (f80_exponent r - f80_exponent d + 1) in mag r < mag d * 2 ^ Z.of_nat k /\ mag d * 2 ^ Z.of_nat (pred k) <= max_finite 64.
Proof.
  intros Fr Fd Hd k. pose proof (mag_binade r Fr ltac:(lia)) as Br. pose proof (mag_binade d Fd ltac:(lia)) as Bd. destruct (exponent_range r Fr ltac:(lia)) as [Xr _]. destruct (exponent_range d Fd ltac:(lia)) as [Xd _].
  set (xr := f80_exponent r) in *. set (xd := f80_exponent d) in *. assert (0 <= xd + U) as HU by (unfold U; lia).
  assert (xd <= xr) as Hle. { destruct (decide (xd <= xr)); [done |]. assert (2 ^ (xr + 1 + U) <= 2 ^ (xd + U)) by (apply Z.pow_le_mono_r; lia). lia. }
  replace (Z.of_nat k) with (xr - xd + 1) by lia. replace (Z.of_nat (pred k)) with (xr - xd) by lia. split.
  - eapply Z.lt_le_trans; [apply Br |]. apply Z.le_trans with (2 ^ (xd + U) * 2 ^ (xr - xd + 1)); [rewrite <- Z.pow_add_r by lia; apply Z.pow_le_mono_r; lia | apply Z.mul_le_mono_nonneg_r; [apply Z.pow_nonneg; lia | lia]].
  - destruct (mag_justified d Fd ltac:(lia)) as [Hj Em]. fold xd in Em. rewrite Em, <- Z.mul_assoc, <- Z.pow_add_r by (unfold U; lia). unfold max_finite.
    apply Z.mul_le_mono_nonneg; [lia | lia | apply Z.pow_nonneg; lia | apply Z.pow_le_mono_r; lia].
Qed.

(** ** FPREM1's last step *)

Lemma xval_zero s : xval (mk_f 0 0 s) = 0.
Proof. rewrite xval_finite by (by vm_compute). unfold val, mag. cbn [signif sign]. rewrite Z.mul_0_l. by destruct s. Qed.

Lemma xval_inf : xval (mk_f (2 ^ 63) EXP_SPECIAL false) = big.
Proof. reflexivity. Qed.

(** The remainder doubled compares with the divisor as it should, even when the
    double overflows to infinity. *)
Lemma twice_compare r d e : full e -> finite r -> finite d -> sign r = false -> sign d = false ->
  exists t e', f80_add r r e = Some (t, e') /\ full e' /\ (exists e2, f80_lt d t e' = Some (mag d <? 2 * mag r, e2) /\ same_mode e' e2) /\ f80_eq t d = (2 * mag r =? mag d).
Proof.
  intros He Fr Fd Sr Sd. pose proof (mag_nonneg r Fr) as H0. pose proof (mag_le_max d Fd) as Hd. pose proof (add_delivers r r e (full_width e He) Fr Fr) as H. unfold val in H. rewrite Sr in H. cbv zeta in H.
  assert (ordered d) as Od by (destruct Fd as (? & ? & Hn); split; [done |]; split; [done |]; unfold f80_isnan; by rewrite (proj2 (Z.eqb_neq _ _) Hn)).
  assert (forall t e', full e' -> ordered t -> (mag d <? xval t) = (mag d <? 2 * mag r) -> (xval t =? mag d) = (2 * mag r =? mag d) ->
    full e' /\ (exists e2, f80_lt d t e' = Some (mag d <? 2 * mag r, e2) /\ same_mode e' e2) /\ f80_eq t d = (2 * mag r =? mag d)) as Hcmp.
  { intros t e' He' Ot E1 E2. assert (xval d = mag d) as Ed by (rewrite (xval_finite d Fd); unfold val; by rewrite Sd). split; [done |]. split.
    - destruct (lt_ordered d t e' (proj2 He') Od Ot) as (e2 & -> & Hm). exists e2. by rewrite Ed, E1.
    - by rewrite (eq_correct t d Ot Od), Ed. }
  destruct (Z.eqb_spec (mag r + mag r) 0) as [E0 | E0].
  - rewrite H. eexists _, e. split; [done |]. assert (f80_iszero r = true) as Ez by (rewrite (iszero_mag r Fr); lia). rewrite Ez. cbn [andb eqb]. apply Hcmp; [done | by vm_compute | |]; rewrite xval_zero; lia.
  - destruct H as ([t e'] & -> & Hdv). rewrite (proj2 (Z.ltb_ge _ 0)), Z.abs_eq in Hdv by lia. exists t, e'. split; [done |]. replace (mag r + mag r) with (mag r * 2 ^ 1) in Hdv by lia. pose proof (same_full _ _ He (delivers_mode _ _ _ _ Hdv)) as He'. cbn [snd] in He'.
    destruct (decide (mag r * 2 ^ 1 <= max_finite 64)) as [Hm | Hm].
    + destruct (exact_result _ _ _ _ (mag r * 2 ^ 1) He Hdv) as (F & S & M & _); [by apply mag_format | apply rat_self | done |]. cbn [fst] in *. assert (xval t = mag r * 2 ^ 1) as Ex by (rewrite (xval_finite t F); unfold val; by rewrite S).
      apply Hcmp; [done | destruct F as (? & ? & Hn); split; [done |]; split; [done |]; unfold f80_isnan; by rewrite (proj2 (Z.eqb_neq _ _) Hn) | |]; rewrite Ex; lia.
    + destruct Hdv as (R & T & HR & _ & H). rewrite (proj2 He) in *. apply (rounds_exact _ _ _ _ _ _ (mag r * 2 ^ 1)) in HR; [| by vm_compute | by apply mag_format | apply rat_self]. subst R.
      rewrite (proj2 (Z.leb_gt _ _)) in H by lia. unfold overflowed in H. rewrite (proj1 He) in H. cbn [direct] in H. injection H as -> _. pose proof (val_big d Fd) as Hb. unfold val in Hb. rewrite Sd in Hb. apply Hcmp; [done | by vm_compute | |]; rewrite xval_inf; lia.
Qed.

(** ** The whole *)

Section whole.
Context (x y : float80) (ieee : bool) (e : fenv).
Hypothesis Fx : finite x.
Hypothesis Fy : finite y.
Hypothesis Hy : mag y <> 0.
Notation a := (mag x).
Notation b := (mag y).

(** Whether FPREM1 takes the next quotient. *)
Definition up : bool := ieee && ((b <? 2 * (a mod b)) || ((2 * (a mod b) =? b) && Z.odd (a / b))).

Lemma b_pos : 0 < b /\ 0 <= a mod b < b /\ a = b * (a / b) + a mod b.
Proof using Fy Hy. pose proof (mag_nonneg y Fy). split; [lia |]. split; [apply Z.mod_pos_bound; lia | apply Z.div_mod; lia]. Qed.

Lemma abs_finite f : finite f -> finite (f80_abs f) /\ sign (f80_abs f) = false /\ mag (f80_abs f) = mag f.
Proof using. by destruct f. Qed.

Lemma rem_finite_exact : a <> 0 ->
  exists r, rem_finite x y ieee e = Some (r, e) /\ finite r /\ sign r = xorb up (sign x) /\ mag r = if up then b - a mod b else a mod b.
Proof using All.
  intros Hx. destruct b_pos as (Hb & Hm & Hdm). pose proof (mag_nonneg x Fx) as Ha. unfold rem_finite. destruct (abs_finite x Fx) as (Fr & Sr & Mr), (abs_finite y Fy) as (Fd & Sd & Md). set (r := f80_abs x) in *. set (d := f80_abs y) in *. clearbody r d.
  set (e0 := f80_full_precision_begin e). assert (full e0) as H0 by done. destruct (lt_finite r d e0 (proj2 H0) Fr Fd) as (e1 & -> & H1). pose proof (same_full e0 e1 H0 H1) as He1. cbn [mbind option_bind]. unfold val. rewrite Sr, Sd, Mr, Md.
  assert (exists r1 e2, (if a <? b then Some (r, false, e1) else rem_loop (Z.to_nat (f80_exponent r - f80_exponent d + 1)) d r false e1) = Some (r1, Z.odd (a / b), e2) /\
    full e2 /\ finite r1 /\ sign r1 = false /\ mag r1 = a mod b) as (r1 & e2 & -> & He2 & Fr1 & Sr1 & Mr1).
  { destruct (Z.ltb_spec a b) as [Hlt | Hge]; [exists r, e1; rewrite Z.div_small, Z.mod_small by lia; done |]. rewrite <- Mr, <- Md in *. destruct (turns_enough r d Fr Fd ltac:(lia)) as [T1 T2].
    destruct (rem_loop_exact d Fd Sd ltac:(lia) _ r false e1 He1 Fr Sr T1 T2) as (r1 & e2 & -> & H). by exists r1, e2. }
  cbn [mbind option_bind]. assert (f80_full_precision_end e false = e) as -> by (unfold f80_full_precision_end, set_inexact; rewrite orb_false_r; apply same_env). unfold up. destruct ieee; cbn [andb].
  - destruct (twice_compare r1 d e2 He2 Fr1 Fd Sr1 Sd) as (t & e3 & Et & He3 & (e4 & El & H4) & Eq). rewrite Et. cbn [mbind option_bind]. rewrite El. cbn [mbind option_bind]. rewrite Eq. rewrite Md, Mr1. destruct (_ || _) eqn:Eu; cbn [xorb].
    + destruct (sub_exact d r1 e4 (same_full _ _ He3 H4) Fd Fr1 Sd Sr1) as (r2 & -> & Fr2 & Sr2 & Mr2); [rewrite Md, Mr1; lia |]. cbn [mbind option_bind]. exists (set_sign r2 (negb (sign x))). split; [done |]. split; [by destruct r2 |]. split; [done |]. rewrite <- Mr1, <- Md, <- Mr2. done.
    + cbn [mbind option_bind]. exists (set_sign r1 (sign x)). split; [done |]. split; [by destruct r1 |]. split; [by destruct (sign x) | exact Mr1].
  - cbn [mbind option_bind xorb]. exists (set_sign r1 (sign x)). split; [done |]. split; [by destruct r1 |]. split; [by destruct (sign x) | exact Mr1].
Qed.
End whole.

(** For finite operands and a nonzero divisor FPREM and FPREM1 return the
    exact remainder x - q y, whatever the rounding mode and precision: with the
    quotient truncated (FPREM), or the nearest integer to it, even in a tie
    (FPREM1).  A zero remainder has the dividend's sign, and no flag changes
    but the one for a denormal operand.  The loop always finishes. *)
Theorem f80_remainder_correct x y ieee e : finite x -> finite y -> mag y <> 0 ->
  let e1 := if f80_isdenormal x || f80_isdenormal y then raise e F80_EXC_DENORMAL else e in
  exists r q, f80_remainder_common x y ieee e = Some (r, e1) /\ finite r /\ val r = val x - q * val y /\ (mag r = 0 -> sign r = sign x) /\
    if ieee then 2 * mag r <= mag y /\ (2 * mag r = mag y -> Z.even q = true) else q = Z.quot (val x) (val y) /\ sign r = sign x.
Proof.
  intros Fx Fy Hy e1. destruct (b_pos x y Fy Hy) as (Hb & Hm & Hdm). pose proof (mag_nonneg x Fx) as Ha.
  assert (f80_remainder_common x y ieee e = if mag x =? 0 then Some (x, e1) else rem_finite x y ieee e1) as ->.
  { unfold f80_remainder_common, f80_issnan. rewrite (proj1 (proj2 Fx)), (proj1 (proj2 Fy)), !finite_not_nan, !finite_not_inf, !iszero_mag by done. rewrite (proj2 (Z.eqb_neq _ _) Hy). cbn [negb orb andb]. rewrite orb_false_r. done. }
  assert (forall u : bool, exists q, (if xorb u (sign x) then - (if u then mag y - mag x mod mag y else mag x mod mag y) else (if u then mag y - mag x mod mag y else mag x mod mag y)) = val x - q * val y /\
    Z.even q = Z.even (mag x / mag y + Z.b2z u) /\ (u = false -> q = Z.quot (val x) (val y))) as Hq.
  { intros u. exists (if xorb (sign x) (sign y) then - (mag x / mag y + Z.b2z u) else mag x / mag y + Z.b2z u). rewrite <- (Z.quot_div_nonneg (mag x) (mag y)) in * by lia. unfold val. split; [| split].
    - destruct u, (sign x), (sign y); cbn [xorb Z.b2z]; lia.
    - destruct (xorb (sign x) (sign y)); [apply Z.even_opp | done].
    - intros ->. rewrite Z.add_0_r. destruct (sign x), (sign y); cbn [xorb]; rewrite ?Z.quot_opp_opp, ?Z.quot_opp_l, ?Z.quot_opp_r by lia; done. }
  destruct (Z.eqb_spec (mag x) 0) as [E0 | E0].
  - exists x, 0. rewrite Z.mul_0_l, Z.sub_0_r, E0. split; [done |]. split; [done |]. split; [done |]. split; [done |]. destruct ieee; [split; [lia | done] |]. split; [| done]. unfold val. rewrite E0. replace (if sign x then - 0 else 0) with 0 by (by destruct (sign x)). symmetry. apply Z.quot_0_l. clear - Hy. destruct (sign y); lia.
  - destruct (rem_finite_exact x y ieee e1 Fx Fy Hy E0) as (r & -> & Fr & Sr & Mr). destruct (Hq (up x y ieee)) as (q & Eq & Ev & Et). exists r, q. split; [done |]. split; [done |]. split; [unfold val at 1; by rewrite Sr, Mr |].
    unfold up in *. split; [| destruct ieee; cbn [andb] in *].
    + rewrite Sr, Mr. destruct (_ && _); [lia | by destruct (sign x)].
    + rewrite Ev, Mr, Z.even_add. rewrite <- (Z.negb_odd (mag x / mag y)). clear - Hm Hb. destruct (Z.ltb_spec (mag y) (2 * (mag x mod mag y))), (Z.eqb_spec (2 * (mag x mod mag y)) (mag y)), (Z.odd (mag x / mag y)); cbn [orb andb Z.b2z negb]; (split; [lia | intros E; first [reflexivity | exfalso; lia]]).
    + split; [by apply Et |]. rewrite Sr. by destruct (sign x).
Qed.

(** 5 rem -3: the quotient nearest to -5/3 is -2. *)
Lemma f80_remainder_correct_witness : let x := mk_f (5 * 2 ^ 61) (bias 2) false in let y := mk_f (3 * 2 ^ 62) (bias 1) true in
  exists r q, f80_remainder_common x y true default_env = Some (r, default_env) /\ finite r /\ val r = val x - q * val y /\ (mag r = 0 -> sign r = sign x) /\
    2 * mag r <= mag y /\ (2 * mag r = mag y -> Z.even q = true).
Proof.
  intros x y. apply (f80_remainder_correct x y true default_env).
  - vm_compute. intuition discriminate.
  - vm_compute. intuition discriminate.
  - unfold mag, y. apply Z.neq_mul_0. split; [discriminate | apply Z.pow_nonzero; [lia | vm_compute; discriminate]].
Defined.
