(* ===== verification/Float80Root.v ===== *)
(** The square root (f80_u128_isqrt and f80_sqrt of emu/float80.c).

    The code starts from the host's double-precision square root, corrects it
    once through the remainder, and counts up or down to the exact integer
    root.  The host's doubles are modelled too, so that [isqrt_exact] says the
    conversions back to integers stay in range as well; [f80_sqrt_correct] is
    correct rounding in every mode and precision. *)

From Stdlib Require Import ZifyBool.
From S2P Require Import Prelude Rounding Float80 Float80Sound Float80Arith Float80Scale.

(** ** Doubles of the host *)

(** A finite double is its value in units of 2^-1075, half the smallest
    denormal.  The operations round to nearest, ties to even; nothing here
    comes near overflow. *)
Definition d_unit : Z := 2 ^ 1075.

(** The double nearest to [N / D] units. *)
Definition d_round (N D : Z) : Z :=
  let j := Z.max 1 (Z.log2 (N / D) - 52) in
  let k := N / (D * 2 ^ j) in
  let mid := (2 * k + 1) * (D * 2 ^ (j - 1)) in
  (if (N >? mid) || ((N =? mid) && Z.odd k) then k + 1 else k) * 2 ^ j.

(** The double nearest to the root of [N] squared units. *)
Definition d_root (N : Z) : Z :=
  let j := Z.max 1 (Z.log2 (Z.sqrt N) - 52) in
  let k := Z.sqrt N / 2 ^ j in
  let mid := (2 * k + 1) * 2 ^ (j - 1) in
  (if (N >? mid * mid) || ((N =? mid * mid) && Z.odd k) then k + 1 else k) * 2 ^ j.

Definition d_of_int (n : Z) : Z := d_round (n * d_unit) 1.
Definition d_sqrt (x : Z) : Z := d_root (x * d_unit).
Definition d_double (x : Z) : Z := d_round (2 * x) 1.
Definition d_div (x y : Z) : Z := if x <? 0 then - d_round (- x * d_unit) y else d_round (x * d_unit) y.

(** Conversions truncate; out of range they are undefined. *)
Definition d_to_int64 (x : Z) : option Z := let i := Z.quot x d_unit in if (- 2 ^ 63 <=? i) && (i <? 2 ^ 63) then Some i else None.
Definition d_to_uint64 (x : Z) : option Z := let i := Z.quot x d_unit in if (0 <=? i) && (i <? 2 ^ 64) then Some i else None.

(** Signed addition is undefined when it overflows. *)
Definition int64_add (a b : Z) : option Z := if (- 2 ^ 63 <=? a + b) && (a + b <? 2 ^ 63) then Some (a + b) else None.

Example d_third : d_div (d_of_int 1) (d_of_int 3) = 0x15555555555555 * 2 ^ (1075 - 54).
Proof. vm_compute. reflexivity. Qed.
Example d_sqrt2 : d_sqrt (d_of_int 2) = 0x16a09e667f3bcd * 2 ^ (1075 - 52).
Proof. vm_compute. reflexivity. Qed.

(** ** Loops *)

(** At most [p] turns of a loop: [step] is [None] when its condition fails.  The
    answer is on the right when the loop has ended. *)
Section while.
Context {A : Type} (step : A -> option A).

Definition turn (a : A) : A + A := match step a with Some a' => inl a' | None => inr a end.
Definition then_do (f : A -> A + A) (x : A + A) : A + A := match x with inl a => f a | inr a => inr a end.

Fixpoint while (p : positive) (a : A) : A + A :=
  match p with
  | xH => turn a
  | xO p => then_do (while p) (while p a)
  | xI p => then_do (while p) (then_do (while p) (turn a))
  end.

Context (I : A -> Prop) (mu : A -> Z).
Hypothesis step_ok : forall a a', I a -> step a = Some a' -> I a' /\ 0 <= mu a' < mu a.

Definition after (n : Z) (a : A) (x : A + A) : Prop :=
  match x with inl a' => I a' /\ 0 <= mu a' <= mu a - n | inr a' => I a' /\ step a' = None end.

Lemma then_do_after n m f a x : (forall a, I a -> after m a (f a)) -> after n a x -> after (n + m) a (then_do f x).
Proof using. intros Hf. destruct x as [b | b]; [| done]. intros [Ib Hb]. cbn [then_do]. specialize (Hf b Ib). destruct (f b); [| done]. cbn [after] in *. destruct Hf. split; [done | lia]. Qed.

Lemma while_after p : forall a, I a -> after (Zpos p) a (while p a).
Proof using step_ok.
  assert (forall a, I a -> after 1 a (turn a)) as H1. { intros a Ia. unfold turn. destruct (step a) as [a' |] eqn:E; cbn [after]; [destruct (step_ok a a' Ia E); split; [done | lia] | done]. }
  induction p as [p IH | p IH |]; intros a Ia; cbn [while]; [| | by apply H1].
  - replace (Zpos p~1) with (1 + Zpos p + Zpos p) by lia. apply then_do_after; [done |]. apply then_do_after; [done | by apply H1].
  - replace (Zpos p~0) with (Zpos p + Zpos p) by lia. apply then_do_after; [done | by apply IH].
Qed.

(** A loop whose measure is below the number of turns ends. *)
Lemma while_ends p a : I a -> mu a < Zpos p -> exists a', while p a = inr a' /\ I a' /\ step a' = None.
Proof using step_ok. intros Ia Hm. pose proof (while_after p a Ia) as H. destruct (while p a) as [a' | a']; cbn [after] in H; [lia | by exists a']. Qed.
End while.

(** ** The integer root *)

#[local] Strategy 100 [while].

(** 2^64 turns are more than a counter of that width can take. *)
Definition u64_turns : positive := 18446744073709551616.

Definition isqrt_down (n : Z) : Z -> option Z := fun r => if r * r >? n then Some (r - 1) else None.
Definition isqrt_up (n : Z) : Z -> option Z := fun r => if negb (r =? u64 (-1)) && ((r + 1) * (r + 1) <=? n) then Some (r + 1) else None.

Definition ended {A} (x : A + A) : option A := match x with inl _ => None | inr a => Some a end.

(** The estimate the two loops start from. *)
Definition isqrt_estimate (n : Z) : option Z :=
  let d := d_sqrt (d_of_int n) in
  r ← (if d >=? d_of_int 18446744073709551615 then Some (u64 (-1)) else d_to_uint64 d);
  if negb (r =? 0) then
    let sq := r * r in
    let e := if sq >? n then - d_of_int (sq - n) else d_of_int (n - sq) in
    delta ← d_to_int64 (d_div e (d_double (d_of_int r)));
    if (delta >? 0) && (r >? u64 (-1) - u64 delta) then Some (u64 (-1))
    else
      r' ← int64_add (s64 r) delta;
      Some (u64 r')
  else Some r.

(** The two loops, and the remainder. *)
Definition isqrt_finish (turns : positive) (n r : Z) : option (Z * Z) :=
  r ← ended (while (isqrt_down n) turns r);
  r ← ended (while (isqrt_up n) turns r);
  Some (r, n - r * r).

(** The root and the remainder. *)
Definition f80_u128_isqrt (n : Z) : option (Z * Z) :=
  if n =? 0 then Some (0, 0)
  else
    r ← isqrt_estimate n;
    isqrt_finish u64_turns n r.

Definition f80_sqrt (x : float80) (e : fenv) : option (float80 * fenv) :=
  if negb (f80_is_supported x) then Some (F80_INDEFINITE, raise e F80_EXC_INVALID)
  else if f80_iszero x then Some (x, e)
  else if f80_isnan x then
    if f80_issnan x then Some (quieten x, raise e F80_EXC_INVALID) else Some (x, e)
  else if sign x then Some (F80_INDEFINITE, raise e F80_EXC_INVALID)
  else if f80_isinf x then Some (x, e)
  else
    let e := if f80_isdenormal x then raise e F80_EXC_DENORMAL else e in
    let lz := clz64 (signif x) in
    let m := u64 (Z.shiftl (signif x) lz) in
    let E := unbias_denormal (exp x) - 63 - lz in
    let n := if negb (Z.land E 1 =? 0) then Z.shiftl m 63 else Z.shiftl m 64 in
    let half := if negb (Z.land E 1 =? 0) then Z.quot (E - 63) 2 else Z.quot (E - 64) 2 in
    '(r, rem) ← f80_u128_isqrt n;
    let sg := Z.shiftl r 64 in
    let sg := if negb (rem =? 0) then Z.lor sg (if rem >? r then Z.shiftl 3 62 else 1) else sg in
    Some (u128_normalize_round sg (half + 63) false e).

Example sqrt_of_two : f80_sqrt (mk_f (2 ^ 63) (bias 1) false) default_env = Some (mk_f 0xb504f333f9de6484 (bias 0) false, set_inexact default_env true).
Proof. vm_compute. reflexivity. Qed.
Example sqrt_of_four : f80_sqrt (mk_f (2 ^ 63) (bias 2) false) default_env = Some (mk_f (2 ^ 63) (bias 1) false, default_env).
Proof. vm_compute. reflexivity. Qed.

(** ** The host's doubles are accurate *)

(** The relative error of a rounding is at most [1 / eps]. *)
Definition eps : Z := 2 ^ 52.

Lemma quantum_error v k r q : 0 < q -> k * q <= v < (k + 1) * q -> (r = k \/ r = k + 1) -> 2 ^ 52 * q <= v -> 2 ^ 52 * Z.abs (r * q - v) <= v /\ k * q <= r * q.
Proof. intros Hq Hv Hr H52. assert (Z.abs (r * q - v) <= q) by (destruct Hr as [-> | ->]; lia). split; [lia |]. destruct Hr as [-> | ->]; lia. Qed.

Lemma d_round_error N D : 0 < D -> 2 ^ 53 * D <= N ->
  let R := d_round N D in eps * Z.abs (R * D - N) <= N /\ forall m, 53 <= m -> 2 ^ m * D <= N -> 2 ^ m <= R.
Proof.
  intros HD HN R. unfold R, d_round. assert (2 ^ 53 <= N / D) as Hq by (apply Z.div_le_lower_bound; lia). pose proof (Z.log2_spec (N / D) ltac:(lia)) as Hl. assert (53 <= Z.log2 (N / D)) as Hl53 by (apply Z.log2_le_pow2; lia).
  set (l := Z.log2 (N / D)) in *. rewrite Z.max_r by lia. set (j := l - 52). pose proof (pow2_pos j ltac:(lia)) as Pj. set (k := N / (D * 2 ^ j)). set (u := orb _ _). assert (exists r, (if u then k + 1 else k) = r /\ (r = k \/ r = k + 1)) as (r & -> & Hr) by (destruct u; eauto).
  assert (k * (D * 2 ^ j) <= N < (k + 1) * (D * 2 ^ j)) as Hk by (pose proof (Z.div_mod N (D * 2 ^ j) ltac:(lia)); pose proof (Z.mod_pos_bound N (D * 2 ^ j) ltac:(nia)); unfold k; lia).
  assert (2 ^ l * D <= N) as HlN by (pose proof (Z.mul_div_le N D HD); nia). assert (2 ^ l = 2 ^ 52 * 2 ^ j) as El by (rewrite <- Z.pow_add_r by lia; f_equal; lia).
  destruct (quantum_error N k r (D * 2 ^ j) ltac:(nia) Hk Hr ltac:(nia)) as [He Hge]. split; [unfold eps; replace (r * 2 ^ j * D) with (r * (D * 2 ^ j)) by ring; exact He |].
  intros m Hm HmN. apply Z.le_trans with (2 ^ l).
  - apply Z.pow_le_mono_r; [lia |]. apply Z.log2_le_pow2; [lia |]. apply Z.div_le_lower_bound; lia.
  - rewrite El. apply Z.mul_le_mono_nonneg_r; [lia |]. assert (2 ^ 52 <= k) by (apply Z.div_le_lower_bound; nia). lia.
Qed.

Lemma d_root_error N : 2 ^ 106 <= N ->
  let R := d_root N in let s := Z.sqrt N in eps * Z.abs (R - s) <= s /\ forall m, 53 <= m -> 2 ^ m <= s -> 2 ^ m <= R.
Proof.
  intros HN R s. unfold R, d_root. fold s. assert (2 ^ 53 <= s) as Hs by (apply Z.sqrt_le_square; lia). pose proof (Z.log2_spec s ltac:(lia)) as Hl. assert (53 <= Z.log2 s) as Hl53 by (apply Z.log2_le_pow2; lia).
  set (l := Z.log2 s) in *. rewrite Z.max_r by lia. set (j := l - 52). pose proof (pow2_pos j ltac:(lia)) as Pj. set (k := s / 2 ^ j). set (u := orb _ _). assert (exists r, (if u then k + 1 else k) = r /\ (r = k \/ r = k + 1)) as (r & -> & Hr) by (destruct u; eauto).
  assert (k * 2 ^ j <= s < (k + 1) * 2 ^ j) as Hk by (pose proof (Z.div_mod s (2 ^ j) ltac:(lia)); pose proof (Z.mod_pos_bound s (2 ^ j) Pj); unfold k; lia). assert (2 ^ l = 2 ^ 52 * 2 ^ j) as El by (rewrite <- Z.pow_add_r by lia; f_equal; lia).
  destruct (quantum_error s k r (2 ^ j) Pj Hk Hr ltac:(lia)) as [He Hge]. split; [exact He |]. intros m Hm Hms. apply Z.le_trans with (2 ^ l); [apply Z.pow_le_mono_r; [lia |]; apply Z.log2_le_pow2; lia |].
  rewrite El. apply Z.mul_le_mono_nonneg_r; [lia |]. assert (2 ^ 52 <= k) by (apply Z.div_le_lower_bound; lia). lia.
Qed.

Lemma unit_pos : 2 ^ 1000 <= d_unit.
Proof. by vm_compute. Qed.

(** For the numbers of this code, in the units of the result. *)
Lemma d_of_int_error n : 1 <= n -> eps * Z.abs (d_of_int n - n * d_unit) <= n * d_unit.
Proof.
  intros Hn. destruct (d_round_error (n * d_unit) 1 ltac:(lia)) as [H _]; [pose proof unit_pos; assert (2 ^ 53 <= 2 ^ 1000) by (by vm_compute); nia |]. unfold d_of_int. by rewrite Z.mul_1_r in H.
Qed.

Lemma d_of_int_pos n : (1 <= n -> 0 < d_of_int n) /\ (n = 0 -> d_of_int n = 0).
Proof.
  split; [| by intros ->]. intros Hn. pose proof (d_of_int_error n Hn) as H. pose proof unit_pos. assert (0 < 2 ^ 1000) by (apply pow2_pos; lia). assert (0 < n * d_unit) by (apply Z.mul_pos_pos; lia). change eps with (2 ^ 52) in H. lia.
Qed.

(** ** The estimate is close *)

Lemma square_le a b : 0 <= a <= b -> a * a <= b * b.
Proof. intros H. apply Z.mul_le_mono_nonneg; lia. Qed.

(** The error of the converted operand and of its root, put together. *)
Lemma root_error n W X s D : 0 < W -> 0 < n -> eps * Z.abs (X - n * W) <= n * W -> s * s <= X * W < (s + 1) * (s + 1) -> eps <= s -> eps * Z.abs (D - s) <= s ->
  eps ^ 3 * (D * D) <= (eps + 1) ^ 3 * (n * (W * W)) /\ (eps - 1) ^ 3 * (n * (W * W)) <= eps * (eps + 1) ^ 2 * (D * D).
Proof.
  intros HW Hn HX Hs Hes HD. assert (2 <= eps) as He by (by vm_compute). generalize dependent eps. intros P HX HsP HDs HP.
  assert (0 < n * W) by nia. assert ((P - 1) * (n * W) <= P * X <= (P + 1) * (n * W)) as [X1 X2] by lia. assert ((P - 1) * s <= P * D <= (P + 1) * s) as [D1 D2] by lia.
  assert (0 <= (P - 1) * s) as H0 by (apply Z.mul_nonneg_nonneg; lia). assert (0 <= (P - 1) * (P - 1)) as Q0 by (apply Z.mul_nonneg_nonneg; lia). assert (0 <= (P + 1) * (P + 1)) as Q1 by lia.
  pose proof (square_le (P * D) ((P + 1) * s) ltac:(lia)) as S1. pose proof (square_le ((P - 1) * s) (P * D) ltac:(lia)) as S2. pose proof (square_le (P * (s + 1)) ((P + 1) * s) ltac:(lia)) as S3.
  assert ((P + 1) * (P + 1) * (s * s) <= (P + 1) * (P + 1) * (X * W)) as S6 by (apply Z.mul_le_mono_nonneg_l; lia). assert (P * P * (X * W) <= (P + 1) * (P + 1) * (s * s)) as S7.
  { apply Z.le_trans with (P * P * ((s + 1) * (s + 1))); [apply Z.mul_le_mono_nonneg_l; lia | lia]. }
  split.
  - replace (P ^ 3 * (D * D)) with (P * (P * D * (P * D))) by ring. apply Z.le_trans with (P * ((P + 1) * (P + 1) * (X * W))); [apply Z.mul_le_mono_nonneg_l; lia |].
    replace (P * ((P + 1) * (P + 1) * (X * W))) with ((P + 1) * (P + 1) * W * (P * X)) by ring. replace ((P + 1) ^ 3 * (n * (W * W))) with ((P + 1) * (P + 1) * W * ((P + 1) * (n * W))) by ring. apply Z.mul_le_mono_nonneg_l; [apply Z.mul_nonneg_nonneg; lia | done].
  - assert ((P - 1) * (P - 1) * (X * W) <= (P + 1) * (P + 1) * (D * D)) as S5.
    { apply Z.mul_le_mono_pos_l with (P * P); [apply Z.mul_pos_pos; lia |]. apply Z.le_trans with ((P - 1) * (P - 1) * ((P + 1) * (P + 1) * (s * s))).
      - replace (P * P * ((P - 1) * (P - 1) * (X * W))) with ((P - 1) * (P - 1) * (P * P * (X * W))) by ring. by apply Z.mul_le_mono_nonneg_l.
      - replace ((P - 1) * (P - 1) * ((P + 1) * (P + 1) * (s * s))) with ((P + 1) * (P + 1) * ((P - 1) * s * ((P - 1) * s))) by ring. replace (P * P * ((P + 1) * (P + 1) * (D * D))) with ((P + 1) * (P + 1) * (P * D * (P * D))) by ring. by apply Z.mul_le_mono_nonneg_l. }
    apply Z.le_trans with (P * ((P - 1) * (P - 1) * (X * W))).
    + replace ((P - 1) ^ 3 * (n * (W * W))) with ((P - 1) * (P - 1) * W * ((P - 1) * (n * W))) by ring. replace (P * ((P - 1) * (P - 1) * (X * W))) with ((P - 1) * (P - 1) * W * (P * X)) by ring. apply Z.mul_le_mono_nonneg_l; [apply Z.mul_nonneg_nonneg; lia | done].
    + replace (P * (P + 1) ^ 2 * (D * D)) with (P * ((P + 1) * (P + 1) * (D * D))) by ring. apply Z.mul_le_mono_nonneg_l; lia.
Qed.

Lemma up_num n q : 0 < n < 2 ^ 128 -> eps ^ 3 * q <= (eps + 1) ^ 3 * n -> q - n <= 2 ^ 80.
Proof. intros Hn E. let a := eval vm_compute in (eps ^ 3) in change (eps ^ 3) with a in E. let a := eval vm_compute in ((eps + 1) ^ 3) in change ((eps + 1) ^ 3) with a in E. lia. Qed.

Lemma down_num n r : 0 < n < 2 ^ 128 -> 0 <= r < 2 ^ 64 -> (eps - 1) ^ 3 * n <= eps * (eps + 1) ^ 2 * ((r + 1) * (r + 1)) -> n - r * r <= 2 ^ 80.
Proof.
  intros Hn Hr E. let a := eval vm_compute in ((eps - 1) ^ 3) in change ((eps - 1) ^ 3) with a in E. let a := eval vm_compute in (eps * (eps + 1) ^ 2) in change (eps * (eps + 1) ^ 2) with a in E.
  assert ((r + 1) * (r + 1) = r * r + 2 * r + 1) as E2 by ring. rewrite E2 in E. assert (0 <= r * r) by (apply Z.mul_nonneg_nonneg; lia). generalize dependent (r * r). intros q. lia.
Qed.

(** A floor [r] of the root is off by little in the square. *)
Lemma square_error n W D r : 0 < W -> 0 < n < 2 ^ 128 -> 0 <= r < 2 ^ 64 -> eps ^ 3 * (D * D) <= (eps + 1) ^ 3 * (n * (W * W)) -> (eps - 1) ^ 3 * (n * (W * W)) <= eps * (eps + 1) ^ 2 * (D * D) -> 0 <= D ->
  (r * W <= D -> r * r - n <= 2 ^ 80) /\ (D <= (r + 1) * W -> n - r * r <= 2 ^ 80).
Proof.
  intros HW Hn Hr H1 H2 HD. pose proof (Z.mul_pos_pos W W HW HW) as HWW. split; intros H.
  - assert (eps ^ 3 * (r * r) <= (eps + 1) ^ 3 * n) as E; [| by apply up_num]. apply Z.mul_le_mono_pos_r with (W * W); [done |]. pose proof (square_le (r * W) D ltac:(nia)). etransitivity; [| rewrite <- Z.mul_assoc; exact H1].
    replace (eps ^ 3 * (r * r) * (W * W)) with (eps ^ 3 * (r * W * (r * W))) by ring. apply Z.mul_le_mono_nonneg_l; [by vm_compute | done].
  - assert ((eps - 1) ^ 3 * n <= eps * (eps + 1) ^ 2 * ((r + 1) * (r + 1))) as E; [| by apply down_num]. apply Z.mul_le_mono_pos_r with (W * W); [done |]. pose proof (square_le D ((r + 1) * W) ltac:(lia)). etransitivity; [rewrite <- Z.mul_assoc; exact H2 |].
    replace (eps * (eps + 1) ^ 2 * ((r + 1) * (r + 1)) * (W * W)) with (eps * (eps + 1) ^ 2 * ((r + 1) * W * ((r + 1) * W))) by ring. apply Z.mul_le_mono_nonneg_l; [by vm_compute | done].
Qed.

(** The root of the converted operand, truncated. *)
Lemma first_estimate n : 2 ^ 126 <= n < 2 ^ 128 ->
  let d := d_sqrt (d_of_int n) in
  exists r, (if d >=? d_of_int 18446744073709551615 then Some (u64 (-1)) else d_to_uint64 d) = Some r /\ 2 ^ 63 <= r < 2 ^ 64 /\ Z.abs (n - r * r) <= 2 ^ 80.
Proof.
  intros Hn d. pose proof unit_pos as HW. assert (0 < 2 ^ 1000) as HW0 by (apply pow2_pos; lia). assert (d_of_int 18446744073709551615 = 2 ^ 64 * d_unit) as -> by (vm_compute; reflexivity).
  pose proof (d_of_int_error n ltac:(lia)) as HX. assert (2 ^ 1201 <= d_of_int n) as HX1. { apply (d_round_error (n * d_unit) 1 ltac:(lia)); [nia | lia |]. rewrite Z.mul_1_r. change (2 ^ 1201) with (2 ^ 126 * d_unit). apply Z.mul_le_mono_nonneg_r; lia. }
  unfold d, d_sqrt, d_to_uint64. set (X := d_of_int n) in *. assert ((2 ^ 1138) * (2 ^ 1138) <= X * d_unit) as HN by (change (2 ^ 1138 * 2 ^ 1138) with (2 ^ 1201 * d_unit); apply Z.mul_le_mono_nonneg_r; lia).
  assert (2 ^ 106 <= 2 ^ 1138 * 2 ^ 1138) as H106 by (by vm_compute). destruct (d_root_error (X * d_unit) ltac:(lia)) as [HD HD1]. cbv zeta in HD, HD1. pose proof (Z.sqrt_spec (X * d_unit) ltac:(lia)) as Hs. cbv zeta in Hs. set (s := Z.sqrt (X * d_unit)) in *.
  assert (2 ^ 1138 <= s) as Hs1 by (apply Z.sqrt_le_square; first [exact HN | lia | by vm_compute]). assert (eps <= 2 ^ 1138) as He by (by vm_compute). specialize (HD1 1138 ltac:(lia) Hs1). set (D := d_root (X * d_unit)) in *.
  destruct (root_error n d_unit X s D ltac:(lia) ltac:(lia) HX ltac:(lia) ltac:(lia) HD) as [R1 R2]. assert (2 ^ 63 * d_unit <= D) as HD2 by (change (2 ^ 63 * d_unit) with (2 ^ 1138); exact HD1).
  clear d. clearbody D s X. generalize dependent d_unit. intros W. intros. clear dependent X. assert (0 < W) as HWp by lia.
  destruct (Z.geb_spec D (2 ^ 64 * W)) as [Hc | Hc].
  - exists (u64 (-1)). split; [done |]. change (u64 (-1)) with (2 ^ 64 - 1) in *. split; [lia |].
    destruct (square_error n W D (2 ^ 64 - 1) HWp ltac:(lia) ltac:(lia) R1 R2 ltac:(lia)) as [B1 _]. specialize (B1 ltac:(lia)). lia.
  - assert (2 ^ 63 <= Z.quot D W < 2 ^ 64) as Hq. { rewrite Z.quot_div_nonneg by lia. split; [apply Z.div_le_lower_bound; lia | apply Z.div_lt_upper_bound; lia]. }
    exists (Z.quot D W). split; [| split; [done |]].
    { rewrite (proj2 (andb_true_iff _ _)) by lia. done. }
    pose proof (Z.mul_div_le D W HWp) as E1. pose proof (Z.mul_succ_div_gt D W HWp) as E2. rewrite <- Z.quot_div_nonneg in E1, E2 by lia. destruct (square_error n W D (Z.quot D W) HWp ltac:(lia) ltac:(lia) R1 R2 ltac:(lia)) as [B1 B2]. specialize (B1 ltac:(lia)). specialize (B2 ltac:(lia)). lia.
Qed.

(** ** The correction *)

(** The bound on the quotient with the errors of its operands and its own. *)
Lemma quotient_bound P W t r h X E F Q : 2 ^ 20 <= P -> 0 < W -> 0 <= t <= 2 ^ 80 -> 2 ^ 63 <= r -> 0 <= h -> t <= 2 * r * h -> 0 < F ->
  (P - 1) * (r * W) <= P * X -> (P - 1) * (2 * X) <= P * F -> P * E <= (P + 1) * (t * W) -> P * (Q * F) <= (P + 1) * (E * W) -> Q < (h + 1) * W.
Proof.
  intros HP HW Ht Hr Hh Htr HF HX HFX HE HQ. destruct (Z.lt_ge_cases Q ((h + 1) * W)) as [| Hge]; [done | exfalso].
  assert (P * ((h + 1) * F) <= (P + 1) * E) as H1.
  { apply Z.mul_le_mono_pos_r with W; [done |]. etransitivity; [| rewrite <- Z.mul_assoc; exact HQ]. replace (P * ((h + 1) * F) * W) with (P * ((h + 1) * W * F)) by ring. apply Z.mul_le_mono_nonneg_l; [lia |]. apply Z.mul_le_mono_nonneg_r; lia. }
  assert ((P - 1) * (P - 1) * (2 * (r * W)) <= P * (P * F)) as H2.
  { apply Z.le_trans with (P * ((P - 1) * (2 * X))); [| apply Z.mul_le_mono_nonneg_l; lia]. replace ((P - 1) * (P - 1) * (2 * (r * W))) with (2 * (P - 1) * ((P - 1) * (r * W))) by ring. replace (P * ((P - 1) * (2 * X))) with (2 * (P - 1) * (P * X)) by ring. apply Z.mul_le_mono_nonneg_l; lia. }
  assert ((h + 1) * ((P - 1) * (P - 1) * (2 * r)) <= (P + 1) * (P + 1) * t) as H3.
  { apply Z.mul_le_mono_pos_r with W; [done |]. apply Z.mul_le_mono_pos_r with P; [lia |]. apply Z.le_trans with (P * ((P + 1) * (P * E))).
    - apply Z.le_trans with ((h + 1) * (P * (P * (P * F)))); [| apply Z.le_trans with (P * P * (P * ((h + 1) * F))); [lia |]; apply Z.le_trans with (P * P * ((P + 1) * E)); [apply Z.mul_le_mono_nonneg_l; [apply Z.mul_nonneg_nonneg; lia | lia] | lia]].
      replace ((h + 1) * ((P - 1) * (P - 1) * (2 * r)) * W * P) with ((h + 1) * (P * ((P - 1) * (P - 1) * (2 * (r * W))))) by ring. apply Z.mul_le_mono_nonneg_l; [lia |]. apply Z.mul_le_mono_nonneg_l; lia.
    - replace ((P + 1) * (P + 1) * t * W * P) with (P * ((P + 1) * ((P + 1) * (t * W)))) by ring. apply Z.mul_le_mono_nonneg_l; [lia |]. apply Z.mul_le_mono_nonneg_l; lia. }
  assert ((P + 1) * (P + 1) * t <= (P - 1) * (P - 1) * (2 * r * h) + 4 * P * (2 ^ 16 * (2 * r))) as H4.
  { replace ((P + 1) * (P + 1) * t) with ((P - 1) * (P - 1) * t + 4 * P * t) by ring. apply Z.add_le_mono; (apply Z.mul_le_mono_nonneg_l; [first [lia | apply Z.mul_nonneg_nonneg; lia] | lia]). }
  assert ((2 * r) * ((P - 1) * (P - 1)) <= (2 * r) * (2 ^ 18 * P)) as H5 by lia. apply Z.mul_le_mono_pos_l in H5; [| lia]. assert (2 ^ 20 * P <= P * P) by (apply Z.mul_le_mono_nonneg_r; lia). clear - H H5 HP. lia.
Qed.

Lemma d_round_0 D : 0 < D -> d_round 0 D = 0.
Proof.
  intros HD. unfold d_round. rewrite (Z.div_0_l D) by lia. change (Z.max 1 (Z.log2 0 - 52)) with 1. rewrite Z.div_0_l by lia. change (Z.odd 0) with false. rewrite andb_false_r, orb_false_r. change (2 ^ (1 - 1)) with 1. destruct (Z.gtb_spec 0 ((2 * 0 + 1) * (D * 1))); [lia | done].
Qed.

Lemma d_quotient t r h : 0 <= t <= 2 ^ 80 -> 2 ^ 63 <= r < 2 ^ 64 -> 0 <= h -> t <= 2 * r * h ->
  let Q := d_round (d_of_int t * d_unit) (d_double (d_of_int r)) in 0 <= Q < (h + 1) * d_unit.
Proof.
  intros Ht Hr Hh Htr Q. pose proof unit_pos as HW. assert (2 ^ 200 <= 2 ^ 1000) as H200 by (apply Z.pow_le_mono_r; lia). pose proof (d_of_int_error r ltac:(lia)) as HX. set (X := d_of_int r) in *.
  assert (eps = 2 ^ 52) as HP by done. set (P := eps) in *. clearbody P. assert (r * d_unit <= 2 * X <= 3 * (r * d_unit)) as HX' by (assert (0 < r * d_unit) by (apply Z.mul_pos_pos; lia); lia).
  assert (2 ^ 63 * d_unit <= r * d_unit <= 2 ^ 64 * d_unit) as Hru by (split; apply Z.mul_le_mono_nonneg_r; lia).
  destruct (d_round_error (2 * X) 1 ltac:(lia) ltac:(lia)) as [HF _]. fold (d_double X) in HF. rewrite Z.mul_1_r in HF. change eps with (2 ^ 52) in HF. rewrite <- HP in HF. set (F := d_double X) in *. assert (2 ^ 60 * d_unit <= F <= 2 ^ 70 * d_unit) as HF' by lia.
  destruct (Z.eq_dec t 0) as [-> | Ht0].
  { assert (Q = 0) as -> by (unfold Q; change (d_of_int 0) with 0; rewrite Z.mul_0_l; apply d_round_0; lia).
    split; [lia |]. apply Z.mul_pos_pos; lia. }
  pose proof (d_of_int_error t ltac:(lia)) as HE. change eps with (2 ^ 52) in HE. rewrite <- HP in HE. set (E := d_of_int t) in *. assert (d_unit <= t * d_unit) as Htu by (rewrite <- (Z.mul_1_l d_unit) at 1; apply Z.mul_le_mono_nonneg_r; lia). assert (d_unit <= 2 * E) as HE' by lia.
  assert (2 ^ 53 * F <= E * d_unit) as HEF.
  { apply Z.mul_le_mono_pos_l with 2; [lia |]. apply Z.le_trans with (d_unit * d_unit); [| rewrite Z.mul_assoc; apply Z.mul_le_mono_nonneg_r; lia]. apply Z.le_trans with (2 ^ 200 * d_unit); [lia |]. apply Z.mul_le_mono_nonneg_r; lia. }
  destruct (d_round_error (E * d_unit) F ltac:(lia) HEF) as [HQ HQ0]. fold Q in HQ, HQ0. change eps with (2 ^ 52) in HQ. rewrite <- HP in HQ. specialize (HQ0 53 ltac:(lia) HEF). split; [lia |].
  apply (quotient_bound P d_unit t r h X E F Q); lia.
Qed.

Lemma trunc_range Q h : 0 <= Q < (h + 1) * d_unit -> 0 <= Z.quot Q d_unit <= h /\ Z.quot (- Q) d_unit = - Z.quot Q d_unit.
Proof.
  intros HQ. pose proof unit_pos. assert (0 < 2 ^ 1000) by (apply pow2_pos; lia). split; [| apply Z.quot_opp_l; lia]. rewrite Z.quot_div_nonneg by lia. split; [apply Z.div_pos; lia |]. apply Z.lt_succ_r, Z.div_lt_upper_bound; lia.
Qed.

(** The estimate is always a 64-bit number, and nothing on the way to it is
    undefined, where the root has its leading bit at the top. *)
Lemma estimate_defined n : 2 ^ 126 <= n < 2 ^ 128 -> exists r, isqrt_estimate n = Some r /\ 0 <= r < 2 ^ 64.
Proof.
  intros Hn. destruct (first_estimate n Hn) as (r & Hr & Hrr & Herr). unfold isqrt_estimate. cbv zeta in *. rewrite Hr. cbn [mbind option_bind]. rewrite (proj2 (Z.eqb_neq r 0)) by lia. cbn [negb].
  assert (s64 r = r - 2 ^ 64) as Es by (unfold s64, swrap; rewrite Z.mod_small by lia; change (64 - 1) with 63; destruct (Z.ltb_spec r (2 ^ 63)); lia). change (u64 (-1)) with (2 ^ 64 - 1).
  destruct (Z.gtb_spec (r * r) n) as [Hgt | Hle].
  - assert (0 <= r * r - n <= 2 ^ 80) as Ht by lia. destruct (trunc_range _ _ (d_quotient (r * r - n) r (2 ^ 17) Ht Hrr ltac:(lia) ltac:(lia))) as [Hq Eq].
    destruct (trunc_range _ _ (d_quotient (r * r - n) r (r - 2 ^ 63) Ht Hrr ltac:(lia) ltac:(nia))) as [Hg _].
    set (Q := d_round _ _) in *. 
    assert (d_div (- d_of_int (r * r - n)) (d_double (d_of_int r)) = - Q) as -> by (unfold d_div; pose proof (d_of_int_pos (r * r - n)); rewrite (proj2 (Z.ltb_lt _ 0)), Z.opp_involutive by lia; done).
    unfold d_to_int64. rewrite Eq. set (q := Z.quot Q d_unit) in *. rewrite (proj2 (andb_true_iff _ _)) by lia. cbn [mbind option_bind]. replace (- q >? 0) with false by lia. cbn [andb].
    unfold int64_add. rewrite Es, (proj2 (andb_true_iff _ _)) by lia. cbn [mbind option_bind]. eexists. split; [done |]. apply (wrap_range 64); lia.
  - assert (0 <= n - r * r <= 2 ^ 80) as Ht by lia. destruct (trunc_range _ _ (d_quotient (n - r * r) r (2 ^ 17) Ht Hrr ltac:(lia) ltac:(lia))) as [Hq Eq]. set (Q := d_round _ _) in *.
    assert (d_div (d_of_int (n - r * r)) (d_double (d_of_int r)) = Q) as -> by (unfold d_div; pose proof (d_of_int_pos (n - r * r)); rewrite (proj2 (Z.ltb_ge _ 0)) by lia; done).
    unfold d_to_int64. set (q := Z.quot Q d_unit) in *. rewrite (proj2 (andb_true_iff _ _)) by lia. cbn [mbind option_bind]. rewrite (u64_small q) by lia. destruct ((q >? 0) && (r >? 2 ^ 64 - 1 - q)) eqn:Ec; [eexists; split; [done | lia] |].
    unfold int64_add. rewrite Es, (proj2 (andb_true_iff _ _)) by lia. cbn [mbind option_bind]. eexists. split; [done |]. apply (wrap_range 64); lia.
Qed.

(** ** The loops find the root *)

Lemma loops_exact p n r : Zpos p = 2 ^ 64 -> 0 <= n < 2 ^ 128 -> 0 <= r < 2 ^ 64 ->
  isqrt_finish p n r = Some (Z.sqrt n, n - Z.sqrt n * Z.sqrt n).
Proof.
  intros Hp Hn Hr. unfold isqrt_finish. destruct (while_ends (isqrt_down n) (fun r => 0 <= r < 2 ^ 64) (fun r => r)) with (p := p) (a := r) as (r1 & -> & Hr1 & Hd); [| done | rewrite Hp; lia |].
  { unfold isqrt_down. intros a a' Ha. destruct (Z.gtb_spec (a * a) n) as [H | H]; [| done]. intros [= <-]. assert (a <> 0) by (intros ->; lia). lia. }
  cbn [ended mbind option_bind]. unfold isqrt_down in Hd. destruct (Z.gtb_spec (r1 * r1) n) as [H | Hle]; [done |].
  destruct (while_ends (isqrt_up n) (fun r => 0 <= r < 2 ^ 64 /\ r * r <= n) (fun r => 2 ^ 64 - 1 - r)) with (p := p) (a := r1) as (r2 & -> & [Hr2 Hle2] & Hu); [| done | rewrite Hp; lia |].
  { unfold isqrt_up. change (u64 (-1)) with (2 ^ 64 - 1). intros a a' [Ha _]. destruct (_ && _) eqn:E; [| done]. intros [= <-]. lia. }
  cbn [ended mbind option_bind]. unfold isqrt_up in Hu. change (u64 (-1)) with (2 ^ 64 - 1) in Hu. assert (Z.sqrt n = r2) as ->; [| done]. apply Z.sqrt_unique. split; [done |].
  destruct (Z.eqb_spec r2 (2 ^ 64 - 1)) as [-> | Hne]; [lia |]. cbn [negb andb] in Hu. destruct (Z.leb_spec ((r2 + 1) * (r2 + 1)) n); [done |]. lia.
Qed.

(** The root of a 128-bit number with its leading bit in the top two is exact. *)
Lemma isqrt_exact n : 2 ^ 126 <= n < 2 ^ 128 -> f80_u128_isqrt n = Some (Z.sqrt n, n - Z.sqrt n * Z.sqrt n).
Proof.
  intros Hn. unfold f80_u128_isqrt. rewrite (proj2 (Z.eqb_neq n 0)) by lia. destruct (estimate_defined n Hn) as (r & -> & Hr). cbn [mbind option_bind]. apply loops_exact; [reflexivity | lia | lia].
Qed.

(** Just below 2^126 the correction subtracts from the smallest signed number,
    which C leaves undefined; f80_sqrt never asks for such a root. *)
Example isqrt_signed_overflow : isqrt_estimate (2 ^ 126 - 2 ^ 72) = None /\ f80_u128_isqrt (2 ^ 126) = Some (2 ^ 63, 0).
Proof. split; vm_compute; reflexivity. Qed.

(** ** Rounding the root *)

(** The half bit and the sticky bit the code puts below the integer root. *)
Lemma root_stands n h S : 0 < n -> 0 <= h -> let r := Z.sqrt n in let rem := n - r * r in
  S = r * 2 ^ 64 + (if rem =? 0 then 0 else if rem >? r then 3 * 2 ^ 62 else 1) -> stands 63 (root (n * 2 ^ (2 * (h + 64)))) S h.
Proof.
  intros Hn Hh r rem HS t. pose proof (Z.sqrt_spec n ltac:(lia)) as Hs. cbv zeta in Hs. fold r in Hs. pose proof (Z.sqrt_nonneg n) as Hr. fold r in Hr. pose proof (pow2_pos h Hh) as Ph.
  assert ((S ?= t * 2 ^ 63) = if t <? 0 then Gt else (n * 4 ?= t * t)) as ->.
  { assert (0 <= rem <= 2 * r) as Hrem by lia. assert (n = r * r + rem) as En by lia. clearbody rem r. subst S n. set (b := if rem =? 0 then _ else _). assert (0 <= b < 2 ^ 64 /\ (b = 0 <-> rem = 0) /\ (b ?= 2 ^ 63) = (rem * 2 ?= 2 * r + 1)) as (Hb & Hb0 & Hb1).
    { unfold b. destruct (Z.eqb_spec rem 0) as [-> | H0]; [split; [lia | split; [tauto |]]; symmetry; apply Z.compare_lt_iff; lia |]. destruct (Z.gtb_spec rem r); (split; [lia | split; [lia |]]); symmetry; [apply Z.compare_gt_iff | apply Z.compare_lt_iff]; lia. }
    clearbody b. destruct (Z.ltb_spec t 0); [apply Z.compare_gt_iff; lia |]. destruct (Z.lt_total t (2 * r)) as [Hl | [-> | Hg]].
    - rewrite (proj2 (Z.compare_gt_iff _ _)) by lia. symmetry. apply Z.compare_gt_iff. pose proof (square_le (t + 1) (2 * r) ltac:(lia)). lia.
    - replace ((r * r + rem) * 4) with (2 * r * (2 * r) + rem * 4) by ring. replace (r * 2 ^ 64 + b) with (2 * r * 2 ^ 63 + b) by lia. rewrite <- (Z.add_0_r (2 * r * 2 ^ 63)) at 2. rewrite <- (Z.add_0_r (2 * r * (2 * r))) at 2. rewrite !Z.add_compare_mono_l.
      destruct (decide (rem = 0)) as [E | E]; [rewrite (proj2 Hb0 E), E; done |]. rewrite !(proj2 (Z.compare_gt_iff _ 0)) by lia. done.
    - destruct (decide (t = 2 * r + 1)) as [-> | Hg2].
      + replace ((2 * r + 1) * 2 ^ 63) with (r * 2 ^ 64 + 2 ^ 63) by lia. replace ((r * r + rem) * 4) with (4 * (r * r) + rem * 4) by ring. replace ((2 * r + 1) * (2 * r + 1)) with (4 * (r * r) + (4 * r + 1)) by ring. rewrite !Z.add_compare_mono_l, Hb1.
        destruct (Z.compare_spec (rem * 2) (2 * r + 1)); symmetry; [lia | apply Z.compare_lt_iff; lia | apply Z.compare_gt_iff; lia].
      + rewrite (proj2 (Z.compare_lt_iff _ _)) by lia. symmetry. apply Z.compare_lt_iff. pose proof (square_le (2 * r + 2) t ltac:(lia)). lia. }
  unfold root. assert ((t * 2 ^ (63 + h) <? 0) = (t <? 0)) as ->. { pose proof (pow2_pos (63 + h) ltac:(lia)). destruct (Z.ltb_spec t 0), (Z.ltb_spec (t * 2 ^ (63 + h)) 0); try done; nia. }
  destruct (t <? 0); [done |]. rewrite <- (compare_scale (n * 4) (t * t) (2 ^ (2 * (63 + h)))) by (apply pow2_pos; lia). f_equal.
  - rewrite <- Z.mul_assoc. f_equal. change 4 with (2 ^ 2). rewrite <- Z.pow_add_r by lia. f_equal. lia.
  - replace (2 * (63 + h)) with ((63 + h) + (63 + h)) by lia. rewrite (Z.pow_add_r 2 (63 + h) (63 + h)) by lia. generalize (2 ^ (63 + h)). intros q. ring.
Qed.

(** The integer under the root and the power of two outside it. *)
Lemma radicand x : finite x -> mag x <> 0 ->
  let lz := clz64 (signif x) in let m := signif x * 2 ^ lz in let E := unbias_denormal (exp x) - 63 - lz in
  let n := if negb (Z.land E 1 =? 0) then Z.shiftl m 63 else Z.shiftl m 64 in
  let half := if negb (Z.land E 1 =? 0) then Z.quot (E - 63) 2 else Z.quot (E - 64) 2 in
  2 ^ 126 <= n < 2 ^ 128 /\ mag x * 2 ^ U = n * 2 ^ (2 * (half + U)) /\ - 16000 <= half + 63 <= 16000.
Proof.
  intros Hf Hn lz m E n half. destruct (mag_justified x Hf Hn) as [Hj Hm]. fold lz in Hj, Hm. fold m in Hj, Hm. pose proof (exponent_code x Hf Hn) as Ex. fold lz in Ex. destruct (exponent_range x Hf Hn) as [Hx _]. replace (f80_exponent x - 63) with E in Hm by (unfold E; lia).
  assert (- 20063 <= E <= 16383 - 63) as HE by (unfold E, unbias, EXP_MAX, BIAS80 in *; lia). assert (0 <= E + U) as HEU by (unfold U; lia). assert (64 <= U) as HU by done.
  assert (exists z, n = m * 2 ^ z /\ 63 <= z <= 64 /\ 2 * half = E - z) as (z & En & Hz & Eh).
  { unfold n, half. rewrite land_1. pose proof (Zodd_even_bool E) as Hpar. destruct (Z.odd E) eqn:Eo; cbn [Z.b2z Z.eqb negb].
    - exists 63. rewrite Z.shiftl_mul_pow2 by lia. split; [done |]. split; [lia |]. apply Z.odd_spec in Eo as [k Ek]. replace (E - 63) with ((k - 31) * 2) by lia. rewrite Z.quot_mul by lia. lia.
    - exists 64. rewrite Z.shiftl_mul_pow2 by lia. split; [done |]. split; [lia |]. rewrite <- Z.negb_even in Eo. apply negb_false_iff, Z.even_spec in Eo as [k Ek]. replace (E - 64) with ((k - 32) * 2) by lia. rewrite Z.quot_mul by lia. lia. }
  split; [| split; [| lia]].
  - rewrite En. assert (2 ^ 63 <= 2 ^ z <= 2 ^ 64) by (split; apply Z.pow_le_mono_r; lia). clear - Hj H. clearbody m. split; [apply Z.le_trans with (2 ^ 63 * 2 ^ 63); [lia | apply Z.mul_le_mono_nonneg; lia] |]. apply Z.lt_le_trans with (2 ^ 64 * 2 ^ z); [apply Z.mul_lt_mono_pos_r; lia | lia].
  - rewrite Hm, En, <- !Z.mul_assoc, <- !Z.pow_add_r by lia. do 2 f_equal. lia.
Qed.

Lemma sqrt_delivers x e : width (precision e) -> finite x -> mag x <> 0 -> sign x = false ->
  let e1 := if f80_isdenormal x then raise e F80_EXC_DENORMAL else e in
  exists r, f80_sqrt x e = Some r /\ delivers false (root (mag x * 2 ^ U)) e1 r.
Proof.
  intros Hw Hf Hn Hs e1. unfold f80_sqrt. rewrite (proj1 (proj2 Hf)), (iszero_mag x Hf), (proj2 (Z.eqb_neq _ _) Hn), (finite_not_nan x Hf), Hs, (finite_not_inf x Hf). cbn [negb]. fold e1.
  destruct (mag_justified x Hf Hn) as [Hj _]. destruct (exponent_range x Hf Hn) as [_ Hlz]. destruct (radicand x Hf Hn) as (Hn' & Em & Hh). cbv zeta in *. set (lz := clz64 (signif x)) in *. rewrite !(Z.shiftl_mul_pow2 (signif x)), (u64_small (signif x * 2 ^ lz)) by lia.
  set (E := unbias_denormal (exp x) - 63 - lz) in *. set (n := if negb (Z.land E 1 =? 0) then Z.shiftl _ 63 else _) in *. set (half := if negb (Z.land E 1 =? 0) then Z.quot (E - 63) 2 else _) in *. clearbody n half. rewrite (isqrt_exact n Hn'). cbn [mbind option_bind].
  set (r := Z.sqrt n). set (rem := n - r * r). eexists. split; [reflexivity |]. assert (width (precision e1)) as Hw1 by (unfold e1; by destruct (f80_isdenormal x)).
  assert (2 ^ 63 <= r < 2 ^ 64) as Hr. { split; [apply Z.sqrt_le_square; lia |]. apply Z.sqrt_lt_square; lia. }
  assert ((if negb (rem =? 0) then Z.lor (Z.shiftl r 64) (if rem >? r then Z.shiftl 3 62 else 1) else Z.shiftl r 64) = r * 2 ^ 64 + (if rem =? 0 then 0 else if rem >? r then 3 * 2 ^ 62 else 1)) as ->.
  { rewrite Z.shiftl_mul_pow2 by lia. destruct (rem =? 0); cbn [negb]; [lia |]. change (Z.shiftl 3 62) with (3 * 2 ^ 62). destruct (rem >? r); apply lor_disjoint; lia. }
  rewrite Em. assert (Cut (root (n * 2 ^ (2 * (half + U))))) as Hc by (apply root_cut, Z.mul_nonneg_nonneg; [lia | apply Z.pow_nonneg; lia]). apply (normal_delivers (root (n * 2 ^ (2 * (half + U)))) false e1 Hw1 63); [| lia | unfold unbias, EXP_MIN, EXP_MAX, BIAS80; lia |].
  - destruct (rem =? 0); [lia |]. destruct (rem >? r); lia.
  - replace (place (half + 63)) with (half - 64 + U) by (unfold place; lia). replace (2 * (half + U)) with (2 * (half - 64 + U + 64)) by lia. apply root_stands; [lia | unfold U; lia | done].
Qed.

(** C29: the square root of a finite positive number is the exact root rounded
    once, in the current mode and precision, with the flags of that rounding;
    it is never too large or too small, and nothing the code computes on the
    way, the host's double-precision estimate included, is undefined. *)
Theorem f80_sqrt_correct x e : width (precision e) -> finite x -> mag x <> 0 -> sign x = false ->
  let e1 := if f80_isdenormal x then raise e F80_EXC_DENORMAL else e in
  exists r, f80_sqrt x e = Some r /\ delivers false (root (mag x * 2 ^ U)) e1 r.
Proof. exact (sqrt_delivers x e). Qed.

Lemma f80_sqrt_correct_witness : let x := mk_f 3 0 false in
  exists r, f80_sqrt x default_env = Some r /\ delivers false (root (mag x * 2 ^ U)) (raise default_env F80_EXC_DENORMAL) r.
Proof.
  intros x. apply (f80_sqrt_correct x default_env).
  - right. right. reflexivity.
  - vm_compute. intuition discriminate.
  - unfold mag, x. apply Z.neq_mul_0. split; [discriminate | apply Z.pow_nonzero; [lia | vm_compute; discriminate]].
  - reflexivity.
Defined.
