(* ===== verification/Float80Log.v ===== *)
(** Logarithms (f80_log2, f80_log2p1 and the series under them, of
    emu/float80.c), and that the arithmetic is closed.

    [good] numbers are in range and supported.  Every operation returns a good
    number from any operands in range and never fails an assertion
    ([add_good], [mul_good], [div_good]); so do the logarithms, whose loop is
    bounded ([log2_good], [log2p1_good]), and they leave the rounding mode and
    precision as they found them. *)

From Stdlib Require Import ZifyBool.
From S2P Require Import Prelude Rounding Float80 Float80Sound Float80Arith Float80Cmp Float80Conv Float80Rem.

(** ** The code *)

Definition f80_lte (a b : float80) (e : fenv) : option (bool * fenv) :=
  '(lt, e) ← f80_lt a b e;
  Some (lt || f80_eq a b, e).

Definition f80_gt (a b : float80) (e : fenv) : option (bool * fenv) :=
  '(lte, e) ← f80_lte a b e;
  Some (negb lte, e).

(** The turns of the series for [k], [k + 2], ... *)
Fixpoint ln_series (turns : nat) (k : Z) (t2 sum power : float80) (e : fenv) : option (float80 * fenv) :=
  match turns with
  | O => Some (sum, e)
  | S turns =>
      let '(power, e) := f80_mul power t2 e in
      ki ← f80_from_int k;
      let '(term, e) := f80_div power ki e in
      '(next, e) ← f80_add sum term e;
      if f80_eq next sum then Some (sum, e) else ln_series turns (k + 2) t2 next power e
  end.

(** [k] is 3, 5, ..., 399. *)
Definition f80_ln_atanh (num den : float80) (e : fenv) : option (float80 * fenv) :=
  let '(t, e) := f80_div num den e in
  let '(t2, e) := f80_mul t t e in
  '(sum, e) ← ln_series 199 3 t2 t t e;
  f80_add sum sum e.

Definition f80_log2e_ := mk_f 0xb8aa3b295c17f0bc 0x3fff false.
Definition f80_sqrt2_ := mk_f 0xb504f333f9de6484 0x3fff false.

(** The finite positive case, [x] not 1. *)
Definition log2_finite (x one : float80) (e : fenv) : option (float80 * fenv) :=
  let e := if f80_isdenormal x then raise e F80_EXC_DENORMAL else e in
  let saved := e in
  let e := f80_full_precision_begin e in
  let '(m, xp) :=
    if f80_isdenormal x then
      let shift := clz64 (signif x) in
      (set_signif x (Z.shiftl (signif x) shift), unbias EXP_MIN - shift)
    else (x, unbias (exp x)) in
  let m := set_exp m (bias 0) in
  '(gt, e) ← f80_gt m f80_sqrt2_ e;
  let '(m, xp) := if (gt : bool) then (set_exp m (bias (-1)), xp + 1) else (m, xp) in
  '(num, e) ← f80_sub m one e;
  '(den, e) ← f80_add m one e;
  '(ln_m, e) ← f80_ln_atanh num den e;
  xi ← f80_from_int xp;
  let '(frac, e) := f80_mul ln_m f80_log2e_ e in
  '(res, e) ← f80_add xi frac e;
  Some (res, f80_full_precision_end saved true).

Definition f80_log2 (x : float80) (e : fenv) : option (float80 * fenv) :=
  zero ← f80_from_int 0;
  one ← f80_from_int 1;
  if negb (f80_is_supported x) then Some (F80_INDEFINITE, raise e F80_EXC_INVALID)
  else if f80_isnan x then
    if f80_issnan x then Some (quieten x, raise e F80_EXC_INVALID) else Some (x, e)
  else if f80_iszero x then Some (f80_neg F80_INF, raise e F80_EXC_DIVZERO)
  else if sign x then Some (F80_INDEFINITE, raise e F80_EXC_INVALID)
  else if f80_isinf x then Some (x, e)
  else if f80_eq x one then Some (zero, e)
  else log2_finite x one e.

Definition log2p1_finite (x : float80) (e : fenv) : option (float80 * fenv) :=
  let e := if f80_isdenormal x then raise e F80_EXC_DENORMAL else e in
  let saved := e in
  let e := f80_full_precision_begin e in
  '(res, e) ←
    (if exp x <? bias (-64) then Some (f80_mul x f80_log2e_ e)
     else
       two ← f80_from_int 2;
       '(den, e) ← f80_add two x e;
       '(ln, e) ← f80_ln_atanh x den e;
       Some (f80_mul ln f80_log2e_ e));
  let e := f80_full_precision_end saved true in
  Some (res, if f80_isdenormal res then raise e F80_EXC_UNDERFLOW else e).

Definition f80_log2p1 (x : float80) (e : fenv) : option (float80 * fenv) :=
  if negb (f80_is_supported x) then Some (F80_INDEFINITE, raise e F80_EXC_INVALID)
  else if f80_isnan x then
    if f80_issnan x then Some (quieten x, raise e F80_EXC_INVALID) else Some (x, e)
  else
    minus_one ← f80_from_int (-1);
    if f80_eq x minus_one then Some (f80_neg F80_INF, raise e F80_EXC_DIVZERO)
    else
      '(lt, e) ← f80_lt x minus_one e;
      if (lt : bool) then Some (F80_INDEFINITE, raise e F80_EXC_INVALID)
      else if f80_isinf x || f80_iszero x then Some (x, e)
      else log2p1_finite x e.

(** log2 8 = 3 and log2 10, whose 64-bit value is the constant FLDL2T loads. *)
Example log2_of_eight : f80_log2 (mk_f (2 ^ 63) (bias 3) false) default_env = Some (mk_f (3 * 2 ^ 62) (bias 1) false, set_inexact default_env true).
Proof. vm_compute. reflexivity. Qed.
Example log2_of_ten : f80_log2 (mk_f (10 * 2 ^ 60) (bias 3) false) default_env = Some (mk_f 0xd49a784bcd1b8afe (bias 1) false, set_inexact default_env true).
Proof. vm_compute. reflexivity. Qed.

(** ** Closure *)

Definition good (f : float80) : Prop := in_range f /\ f80_is_supported f = true.

(** The operation answers, with a good number, and the modes as they were. *)
Definition yields (e : fenv) (r : float80 * fenv) : Prop := good (fst r) /\ same_mode e (snd r).
Definition answers (e : fenv) (x : option (float80 * fenv)) : Prop := exists r, x = Some r /\ yields e r.

Lemma same_mode_refl e : same_mode e e.
Proof. done. Qed.
Lemma same_mode_trans e1 e2 e3 : same_mode e1 e2 -> same_mode e2 e3 -> same_mode e1 e3.
Proof. intros [H1 H2] [H3 H4]. split; congruence. Qed.
Lemma same_width e e' : same_mode e e' -> width (precision e) -> width (precision e').
Proof. by intros [_ ->]. Qed.
Lemma raise_mode e x : same_mode e (raise e x).
Proof. done. Qed.

#[export] Hint Resolve same_mode_refl raise_mode same_width : x87.

Lemma finite_good f : finite f -> good f.
Proof. intros (H1 & H2 & _). by split. Qed.

Lemma delivers_good s c e r : width (precision e) -> delivers s c e r -> yields e r.
Proof.
  intros Hw Hd. split; [| by apply (delivers_mode s c)]. split; [| by apply (delivers_supported c s e Hw)]. destruct Hd as (R & T & _ & _ & H). destruct (_ <=? _); [apply H | subst r].
  unfold overflowed. destruct Hw as [-> | [-> | ->]]; by destruct (direct (rounding e) s); vm_compute.
Qed.

Lemma quieten_good f : in_range f -> in_range (quieten f) /\ f80_is_supported (quieten f) = f80_is_supported f.
Proof.
  intros [Hs He]. split.
  - split; [| done]. cbn [signif quieten]. assert (0 <= Z.lor (signif f) QUIET_BIT) as H0 by (apply Z.lor_nonneg; split; [lia | done]). split; [done |]. destruct (decide (Z.lor (signif f) QUIET_BIT = 0)) as [-> | Hn]; [lia |].
    apply Z.log2_lt_pow2; [lia |]. rewrite Z.log2_lor by (lia || done). change (Z.log2 QUIET_BIT) with 62. destruct (decide (signif f = 0)) as [-> | Hs0]; [done |]. pose proof (proj1 (Z.log2_lt_pow2 (signif f) 64 ltac:(lia)) ltac:(lia)). lia.
  - unfold f80_is_supported, quieten. cbn [exp signif]. rewrite Z.shiftr_lor. change (Z.shiftr QUIET_BIT 63) with 0. by rewrite Z.lor_0_r.
Qed.

Lemma handle_good a b e r : in_range a -> in_range b -> handle_nans a b e = Some r -> yields e r.
Proof.
  intros Ra Rb. unfold handle_nans. destruct (f80_is_supported a) eqn:Sa, (f80_is_supported b) eqn:Sb; cbn [negb orb]; try (intros [= <-]; by vm_compute).
  destruct (quieten_good a Ra) as [Qa QSa], (quieten_good b Rb) as [Qb QSb]. set (snan := f80_issnan a || f80_issnan b).
  assert (forall f (c : bool), in_range f -> f80_is_supported f = true -> good (if c then quieten f else f)) as Hq by (intros f c Rf Sf; destruct c; [destruct (quieten_good f Rf); split; congruence | done]).
  pose proof (Hq a (snan && f80_isnan a) Ra Sa) as Ga. pose proof (Hq b (snan && f80_isnan b) Rb Sb) as Gb. set (a' := if snan && f80_isnan a then _ else _) in *. set (b' := if snan && f80_isnan b then _ else _) in *.
  assert (same_mode e (if snan then raise e F80_EXC_INVALID else e)) by (by destruct snan).
  destruct (f80_isnan a' && f80_isnan b' && sign a' && negb (sign b')); [intros [= <-]; by split |]. destruct (f80_isnan a'); [intros [= <-]; by split |]. destruct (f80_isnan b'); [intros [= <-]; by split | done].
Qed.

(** Past [handle_nans] the operands compare. *)
Lemma handle_none a b e : in_range a -> in_range b -> handle_nans a b e = None -> ordered a /\ ordered b.
Proof.
  intros Ra Rb. unfold handle_nans. destruct (f80_is_supported a) eqn:Sa, (f80_is_supported b) eqn:Sb; cbn [negb orb]; try done.
  assert (forall f (c : bool), f80_isnan (if c && f80_isnan f then quieten f else f) = f80_isnan f) as Hn.
  { intros f c. destruct (f80_isnan f) eqn:E; rewrite ?andb_true_r, ?andb_false_r; [destruct c; [| done] | done]. unfold f80_isnan, quieten in *. cbn [exp signif]. apply andb_true_iff in E as [-> _].
    change (Z.shiftr (u64 (-1)) 1) with (2 ^ 63 - 1). rewrite land_low by lia. apply negb_true_iff, Z.eqb_neq. intros E. apply (f_equal (fun x => Z.testbit x 62)) in E.
    rewrite Z.mod_pow2_bits_low, Z.lor_spec, Z.bits_0 in E by lia. change (Z.testbit QUIET_BIT 62) with true in E. by rewrite orb_true_r in E. }
  rewrite !Hn. destruct (f80_isnan a) eqn:Na; [by destruct (_ && _) |]. cbn [andb]. destruct (f80_isnan b) eqn:Nb; [done |]. by split.
Qed.

Lemma ordered_good f : ordered f -> good f.
Proof. intros (H1 & H2 & _). by split. Qed.

Lemma consts_good s : good F80_NAN /\ good F80_INDEFINITE /\ good (set_sign F80_INF s) /\ good (mk_f 0 0 s).
Proof. destruct s; by vm_compute. Qed.

Section closed.
Context (a b : float80) (e : fenv).
Hypothesis Ra : in_range a.
Hypothesis Rb : in_range b.
Hypothesis Hw : width (precision e).

Lemma add_good : answers e (f80_add a b e).
Proof using All.
  unfold f80_add. destruct (handle_nans a b e) as [r |] eqn:Eh; [exists r; split; [done |]; by apply (handle_good a b) |]. destruct (handle_none a b e Ra Rb Eh) as [Oa Ob].
  destruct (ordered_cases a Oa) as [Fa | [Ia _]], (ordered_cases b Ob) as [Fb | [Ib _]].
  - pose proof (add_delivers a b e Hw Fa Fb) as H. unfold f80_add in H. rewrite Eh in H. cbv zeta in H. destruct (val a + val b =? 0).
    + rewrite H. eexists. split; [done |]. split; [apply consts_good | done].
    + destruct H as (r & -> & Hd). exists r. split; [done |]. by apply (delivers_good _ _ e r Hw Hd).
  - rewrite (finite_not_inf a Fa), Ib. cbn [orb andb]. eexists. split; [done |]. split; [by apply ordered_good | done].
  - rewrite (finite_not_inf b Fb), Ia. cbn [orb andb]. eexists. split; [done |]. split; [by apply ordered_good | done].
  - rewrite Ia, Ib. cbn [orb andb]. destruct (negb _); (eexists; split; [done |]; split; [| done]); [apply (consts_good true) | by apply ordered_good].
Qed.

Lemma mul_good : yields e (f80_mul a b e).
Proof using All.
  unfold f80_mul. destruct (handle_nans a b e) as [r |] eqn:Eh; [by apply (handle_good a b) |]. destruct (handle_none a b e Ra Rb Eh) as [Oa Ob].
  destruct (f80_isinf a || f80_isinf b) eqn:Ei; [destruct (f80_iszero a || f80_iszero b); (split; [apply (consts_good (xorb (sign a) (sign b))) | done]) |]. apply orb_false_iff in Ei as [Ia Ib].
  destruct (ordered_cases a Oa) as [Fa | [? _]]; [| congruence]. destruct (ordered_cases b Ob) as [Fb | [? _]]; [| congruence].
  pose proof (mul_delivers a b e Hw Fa Fb) as H. unfold f80_mul in H. rewrite Eh, Ia, Ib in H. by apply (delivers_good _ _ _ _ Hw H).
Qed.

Lemma div_good : yields e (f80_div a b e).
Proof using All.
  unfold f80_div. destruct (handle_nans a b e) as [r |] eqn:Eh; [by apply (handle_good a b) |]. destruct (handle_none a b e Ra Rb Eh) as [Oa Ob].
  destruct (ordered_cases a Oa) as [Fa | [Ia Za]], (ordered_cases b Ob) as [Fb | [Ib Zb]].
  2,3,4: rewrite ?(finite_not_inf a Fa), ?(finite_not_inf b Fb), ?Ia, ?Ib; repeat case_match; (split; [cbn [fst]; first [apply (consts_good true) | apply consts_good] | done]).
  destruct (decide (mag b = 0)) as [Eb | Eb].
  - rewrite (finite_not_inf a Fa), (finite_not_inf b Fb), (iszero_mag b Fb), Eb. cbn [Z.eqb andb orb]. repeat case_match; (split; [cbn [fst]; first [apply (consts_good true) | apply consts_good] | done]).
  - pose proof (div_delivers a b e Hw Fa Fb Eb) as H. unfold f80_div in H. rewrite Eh in H. by apply (delivers_good _ _ _ _ Hw H).
Qed.
End closed.

Lemma neg_range f : in_range f -> in_range (f80_neg f).
Proof. by destruct f. Qed.

Lemma sub_good a b e : in_range a -> in_range b -> width (precision e) -> answers e (f80_sub a b e).
Proof. intros Ra Rb Hw. apply add_good; [done | by apply neg_range | done]. Qed.

Lemma lt_good a b e : in_range a -> in_range b -> width (precision e) -> exists c e', f80_lt a b e = Some (c, e') /\ same_mode e e'.
Proof.
  intros Ra Rb Hw. unfold f80_lt. destruct (f80_uncomparable a b); [by exists false, e |]. destruct (_ && _ && _); [by exists false, e |]. destruct (_ && _); [by exists false, e |].
  destruct (sub_good a b e Ra Rb Hw) as ([f e'] & -> & _ & Hm). cbn [mbind option_bind]. by eexists _, e'.
Qed.

Lemma gt_good a b e : in_range a -> in_range b -> width (precision e) -> exists c e', f80_gt a b e = Some (c, e') /\ same_mode e e'.
Proof. intros Ra Rb Hw. unfold f80_gt, f80_lte. destruct (lt_good a b e Ra Rb Hw) as (c & e' & -> & Hm). cbn [mbind option_bind]. by eexists _, e'. Qed.

Lemma int_good i : - 2 ^ 63 <= i < 2 ^ 63 -> exists f, f80_from_int i = Some f /\ good f.
Proof. intros Hi. destruct (from_int_value i Hi) as (f & Hf & Ff & _). exists f. split; [done | by apply finite_good]. Qed.

Lemma ln_series_good turns : forall k t2 sum power e, 0 <= k <= 1000 - 2 * Z.of_nat turns -> good t2 -> good sum -> good power -> width (precision e) -> answers e (ln_series turns k t2 sum power e).
Proof.
  induction turns as [| turns IH]; intros k t2 sum power e Hk Gt Gs Gp Hw; cbn [ln_series]; [by eexists |].
  destruct (f80_mul power t2 e) as [p1 e1] eqn:E1. pose proof (mul_good power t2 e (proj1 Gp) (proj1 Gt) Hw) as [Gp1 M1]. rewrite E1 in Gp1, M1. cbn [fst snd] in *. destruct (int_good k ltac:(lia)) as (ki & -> & Gk). cbn [mbind option_bind].
  pose proof (same_width _ _ M1 Hw) as Hw1. destruct (f80_div p1 ki e1) as [t e2] eqn:E2. pose proof (div_good p1 ki e1 (proj1 Gp1) (proj1 Gk) Hw1) as [Gt1 M2]. rewrite E2 in Gt1, M2. cbn [fst snd] in *. pose proof (same_width _ _ M2 Hw1) as Hw2.
  destruct (add_good sum t e2 (proj1 Gs) (proj1 Gt1) Hw2) as ([n e3] & -> & Gn & M3). cbn [mbind option_bind fst snd] in *. pose proof (same_mode_trans _ _ _ (same_mode_trans _ _ _ M1 M2) M3) as M. destruct (f80_eq n sum); [by eexists |].
  destruct (IH (k + 2) t2 n p1 e3 ltac:(lia) Gt Gn Gp1 (same_width _ _ M Hw)) as (r & -> & Gr & Mr). exists r. split; [done |]. split; [done |]. by apply same_mode_trans with e3.
Qed.

Lemma ln_atanh_good num den e : good num -> good den -> width (precision e) -> answers e (f80_ln_atanh num den e).
Proof.
  intros Gn Gd Hw. unfold f80_ln_atanh. destruct (f80_div num den e) as [t e1] eqn:E1. pose proof (div_good num den e (proj1 Gn) (proj1 Gd) Hw) as [Gt M1]. rewrite E1 in Gt, M1. cbn [fst snd] in *. pose proof (same_width _ _ M1 Hw) as Hw1.
  destruct (f80_mul t t e1) as [t2 e2] eqn:E2. pose proof (mul_good t t e1 (proj1 Gt) (proj1 Gt) Hw1) as [Gt2 M2]. rewrite E2 in Gt2, M2. cbn [fst snd] in *. pose proof (same_width _ _ M2 Hw1) as Hw2.
  destruct (ln_series_good 199 3 t2 t t e2 ltac:(lia) Gt2 Gt Gt Hw2) as ([s e3] & -> & Gs & M3). cbn [mbind option_bind fst snd] in *. pose proof (same_mode_trans _ _ _ (same_mode_trans _ _ _ M1 M2) M3) as M.
  destruct (add_good s s e3 (proj1 Gs) (proj1 Gs) (same_width _ _ M Hw)) as (r & -> & Gr & Mr). exists r. split; [done |]. split; [done |]. by apply same_mode_trans with e3.
Qed.

Lemma full_precision_end_mode e b : same_mode e (f80_full_precision_end e b).
Proof. done. Qed.

Lemma raise_if_mode e (c : bool) x : same_mode e (if c then raise e x else e).
Proof. by destruct c. Qed.

Lemma set_exp_range f x : in_range f -> in_range (set_exp f x).
Proof. intros [H _]. split; [done |]. apply (wrap_range 15). lia. Qed.

Lemma log2_finite_good x one e : finite x -> mag x <> 0 -> good one -> answers e (log2_finite x one e).
Proof.
  intros Fx Hn Go. unfold log2_finite. set (e0 := if f80_isdenormal x then raise _ _ else _). assert (same_mode e e0) as M0 by apply raise_if_mode. set (eb := f80_full_precision_begin e0). assert (width (precision eb)) as Hwb by (right; by right).
  set (mx := if f80_isdenormal x then (_, _) else _). assert (in_range (fst mx) /\ - 20000 <= snd mx <= 20000) as [Rm Hx].
  { unfold mx. pose proof (exp_range x Fx) as Hxr. assert (signif x <> 0) as Hs by (by rewrite <- (mag_zero x Fx)). pose proof Fx as ((Hsr & He) & _). pose proof (log2_bounds (signif x) 64 ltac:(lia)) as Hl. unfold f80_isdenormal, unbias_denormal in *.
    destruct (exp x =? EXP_DENORMAL); cbn [andb]; [rewrite (proj2 (Z.eqb_neq _ _) Hs); cbn [negb] |]; cbn [fst snd]; unfold clz64, set_signif, unbias, EXP_MIN, BIAS80 in *; (split; [split; [cbn [signif]; try done; apply (wrap_range 64); lia | done] | lia]). }
  destruct mx as [m xp]. cbn [fst snd] in *. assert (in_range (set_exp m (bias 0))) as Rm' by (by apply set_exp_range). destruct (gt_good (set_exp m (bias 0)) f80_sqrt2_ eb Rm' ltac:(by vm_compute) Hwb) as (c & e1 & -> & M1). cbn [mbind option_bind].
  set (mx2 := if c then _ else _). assert (in_range (fst mx2) /\ - 20001 <= snd mx2 <= 20001) as [Rm2 Hx2] by (unfold mx2; destruct c; cbn [fst snd]; (split; [by repeat apply set_exp_range | lia])). destruct mx2 as [m2 xp2]. cbn [fst snd] in *. pose proof (same_width _ _ M1 Hwb) as Hw1.
  destruct (sub_good m2 one e1 Rm2 (proj1 Go) Hw1) as ([num e2] & -> & Gn & M2). cbn [mbind option_bind fst snd] in *. pose proof (same_width _ _ M2 Hw1) as Hw2. destruct (add_good m2 one e2 Rm2 (proj1 Go) Hw2) as ([den e3] & -> & Gd & M3). cbn [mbind option_bind fst snd] in *. pose proof (same_width _ _ M3 Hw2) as Hw3.
  destruct (ln_atanh_good num den e3 Gn Gd Hw3) as ([ln e4] & -> & Gl & M4). cbn [mbind option_bind fst snd] in *. pose proof (same_width _ _ M4 Hw3) as Hw4. destruct (int_good xp2 ltac:(lia)) as (xi & -> & Gx). cbn [mbind option_bind].
  destruct (f80_mul ln f80_log2e_ e4) as [fr e5] eqn:E5. pose proof (mul_good ln f80_log2e_ e4 (proj1 Gl) ltac:(by vm_compute) Hw4) as [Gf M5]. rewrite E5 in Gf, M5. cbn [fst snd] in *. destruct (add_good xi fr e5 (proj1 Gx) (proj1 Gf) (same_width _ _ M5 Hw4)) as ([r e6] & -> & Gr & _). cbn [mbind option_bind fst snd] in *.
  eexists. split; [done |]. split; [done |]. exact M0.
Qed.

Lemma in_range_ordered x : in_range x -> f80_is_supported x = true -> f80_isnan x = false -> ordered x.
Proof. done. Qed.

(** The loops end and nothing fails, whatever the operand. *)
Lemma log2_good x e : in_range x -> width (precision e) -> answers e (f80_log2 x e).
Proof.
  intros Rx Hw. unfold f80_log2. destruct (int_good 0 ltac:(lia)) as (zero & -> & Gz). destruct (int_good 1 ltac:(lia)) as (one & -> & Go). cbn [mbind option_bind]. destruct (f80_is_supported x) eqn:Sx; cbn [negb]; [| eexists; split; [done |]; split; [apply (consts_good true) | done]].
  destruct (quieten_good x Rx) as [Qx QSx]. destruct (f80_isnan x) eqn:Nx; [destruct (f80_issnan x); (eexists; split; [done |]; split; [split; cbn [fst]; congruence | done]) |]. destruct (f80_iszero x) eqn:Zx; [eexists; split; [done |]; by vm_compute |].
  destruct (sign x); [eexists; split; [done |]; split; [apply (consts_good true) | done] |]. destruct (f80_isinf x) eqn:Ix; [by eexists |]. destruct (f80_eq x one); [by eexists |]. destruct (ordered_cases x ltac:(done)) as [Fx | [? _]]; [| congruence].
  apply log2_finite_good; [done | | done]. rewrite (iszero_mag x Fx) in Zx. lia.
Qed.

Lemma log2p1_good x e : in_range x -> width (precision e) -> answers e (f80_log2p1 x e).
Proof.
  intros Rx Hw. unfold f80_log2p1. destruct (f80_is_supported x) eqn:Sx; cbn [negb]; [| eexists; split; [done |]; split; [apply (consts_good true) | done]].
  destruct (quieten_good x Rx) as [Qx QSx]. destruct (f80_isnan x) eqn:Nx; [destruct (f80_issnan x); (eexists; split; [done |]; split; [split; cbn [fst]; congruence | done]) |].
  destruct (int_good (-1) ltac:(lia)) as (mo & -> & Gm). cbn [mbind option_bind]. destruct (f80_eq x mo); [eexists; split; [done |]; by vm_compute |].
  destruct (lt_good x mo e Rx (proj1 Gm) Hw) as (c & e1 & -> & M1). cbn [mbind option_bind]. destruct c; [eexists; split; [done |]; split; [apply (consts_good true) | exact M1] |]. destruct (_ || _); [by eexists |].
  unfold log2p1_finite. set (e0 := if f80_isdenormal x then raise _ _ else _). assert (same_mode e1 e0) as M0 by apply raise_if_mode. set (eb := f80_full_precision_begin e0). assert (width (precision eb)) as Hwb by (right; by right).
  assert (exists r, (if exp x <? bias (-64) then Some (f80_mul x f80_log2e_ eb) else two ← f80_from_int 2; '(den, e) ← f80_add two x eb; '(ln, e) ← f80_ln_atanh x den e; Some (f80_mul ln f80_log2e_ e)) = Some r /\ good (fst r)) as ([r er] & -> & Gr).
  { destruct (_ <? _); [eexists; split; [done |]; apply mul_good; [done | by vm_compute | done] |]. destruct (int_good 2 ltac:(lia)) as (two & -> & G2). cbn [mbind option_bind]. destruct (add_good two x eb (proj1 G2) Rx Hwb) as ([den e2] & -> & Gd & M2). cbn [mbind option_bind fst snd] in *.
    destruct (ln_atanh_good x den e2 ltac:(done) Gd (same_width _ _ M2 Hwb)) as ([ln e3] & -> & Gl & M3). cbn [mbind option_bind fst snd] in *. eexists. split; [done |]. apply mul_good; [apply Gl | by vm_compute | eauto with x87]. }
  cbn [mbind option_bind fst snd] in *. eexists. split; [done |]. split; [done |]. cbn [snd]. apply same_mode_trans with e1; [done |]. apply same_mode_trans with e0; [done |]. by destruct (f80_isdenormal r).
Qed.

(** The comparison with -1 is outside the part whose flags are put back, so the
    rounding of x + 1 shows: nothing here rounds up but that. *)
Example log2p1_leaks_rounded_up :
  rounded_up <$> (snd <$> f80_log2p1 (mk_f (3 * 2 ^ 62) (bias (-64)) false) default_env) = Some true.
Proof. vm_compute. reflexivity. Qed.
