(* ===== verification/Fpu.v ===== *)
(** The x87 floating-point unit (emu/fpu.c and the state it works on in
    emu/cpu.h).

    One definition per helper of the interpreter.  The status and control words
    are 16-bit numbers with the fields the code names; [env c] is the state of
    float80.c, which the code keeps in thread-local variables.  A pointer to
    memory is the value there, passed in or returned.  [None] is a failed
    assertion or an undefined operation. *)

From S2P Require Import Prelude Rounding Float80 Float80Fast Float80Conv Float80Scale Float80Rem Float80Root Float80Log.

(** ** State *)

Record cpu := mk_cpu {
  fp : list float80;
  fsw : Z;
  x87_valid : Z;
  fcw : Z;
  zf : bool; pf : bool; cf : bool;
  res : Z; zf_res : bool; pf_res : bool;
  mxcsr : Z;
  xmm : list (list Z);
  env : fenv
}.

Definition set_fp (c : cpu) (x : list float80) : cpu := mk_cpu x (fsw c) (x87_valid c) (fcw c) (zf c) (pf c) (cf c) (res c) (zf_res c) (pf_res c) (mxcsr c) (xmm c) (env c).
Definition set_fsw (c : cpu) (x : Z) : cpu := mk_cpu (fp c) x (x87_valid c) (fcw c) (zf c) (pf c) (cf c) (res c) (zf_res c) (pf_res c) (mxcsr c) (xmm c) (env c).
Definition set_x87_valid (c : cpu) (x : Z) : cpu := mk_cpu (fp c) (fsw c) x (fcw c) (zf c) (pf c) (cf c) (res c) (zf_res c) (pf_res c) (mxcsr c) (xmm c) (env c).
Definition set_fcw (c : cpu) (x : Z) : cpu := mk_cpu (fp c) (fsw c) (x87_valid c) x (zf c) (pf c) (cf c) (res c) (zf_res c) (pf_res c) (mxcsr c) (xmm c) (env c).
Definition set_flags (c : cpu) (z p y : bool) : cpu := mk_cpu (fp c) (fsw c) (x87_valid c) (fcw c) z p y (res c) false false (mxcsr c) (xmm c) (env c).
Definition set_mxcsr (c : cpu) (x : Z) : cpu := mk_cpu (fp c) (fsw c) (x87_valid c) (fcw c) (zf c) (pf c) (cf c) (res c) (zf_res c) (pf_res c) x (xmm c) (env c).
Definition set_xmm (c : cpu) (x : list (list Z)) : cpu := mk_cpu (fp c) (fsw c) (x87_valid c) (fcw c) (zf c) (pf c) (cf c) (res c) (zf_res c) (pf_res c) (mxcsr c) x (env c).
Definition set_env (c : cpu) (x : fenv) : cpu := mk_cpu (fp c) (fsw c) (x87_valid c) (fcw c) (zf c) (pf c) (cf c) (res c) (zf_res c) (pf_res c) (mxcsr c) (xmm c) x.

(** ** Bit fields *)

(** [w] bits of a word from bit [lo], read and written. *)
Definition field (lo w x : Z) : Z := Z.land (Z.shiftr x lo) (Z.ones w).
Definition put (lo w v x : Z) : Z := Z.lor (Z.ldiff x (Z.shiftl (Z.ones w) lo)) (Z.shiftl (Z.land v (Z.ones w)) lo).

Definition IE := 0.
Definition DE := 1.
Definition ZE := 2.
Definition OE := 3.
Definition UE := 4.
Definition PE := 5.
Definition STF := 6.
Definition ES := 7.
Definition C0 := 8.
Definition C1 := 9.
Definition C2 := 10.
Definition C3 := 14.
Definition BUSY := 15.

Definition top (c : cpu) : Z := field 11 3 (fsw c).
Definition set_top (c : cpu) (x : Z) : cpu := set_fsw c (put 11 3 x (fsw c)).
Definition set_bit (i : Z) (b : bool) (c : cpu) : cpu := set_fsw c (put i 1 (Z.b2z b) (fsw c)).

(** The control word's precision and rounding. *)
Definition pc (c : cpu) : Z := field 8 2 (fcw c).
Definition rc (c : cpu) : Z := field 10 2 (fcw c).

(** ** The register stack *)

Definition slot (i : Z) (c : cpu) : nat := Z.to_nat ((top c + i) mod 8).
Definition ST (i : Z) (c : cpu) : float80 := nth (slot i c) (fp c) F80_ZERO.
Definition set_ST (i : Z) (f : float80) (c : cpu) : cpu := set_fp c (<[slot i c := f]> (fp c)).

Definition fpu_push (f : float80) (c : cpu) : cpu :=
  let c := set_top c (top c - 1) in
  let c := set_ST 0 f c in
  set_x87_valid c (Z.lor (x87_valid c) (Z.shiftl 1 (top c))).

Definition fpu_pop (c : cpu) : cpu :=
  let c := set_x87_valid c (Z.ldiff (x87_valid c) (Z.shiftl 1 (top c))) in
  set_top c (top c + 1).

Definition fpu_xch (i : Z) (c : cpu) : cpu :=
  let tmp := ST 0 c in
  set_ST i tmp (set_ST 0 (ST i c) c).

Definition fpu_incstp (c : cpu) : cpu := set_top c (top c + 1).
Definition fpu_decstp (c : cpu) : cpu := set_top c (top c - 1).

(** ** Around an operation *)

Definition FPU_BEGIN (c : cpu) : cpu := set_env c (mk_env (rounding (env c)) (precision (env c)) false false 0).
Definition FPU_END_FLAGS (c : cpu) : cpu := set_fsw c (Z.lor (fsw c) (Z.lor (Z.land (exceptions (env c)) 0x1f) (if inexact (env c) then 0x20 else 0))).
Definition FPU_END (c : cpu) : cpu := let c := FPU_END_FLAGS c in set_bit C1 (rounded_up (env c)) c.

(** An operation on float80's state, run on this one's. *)
Definition lift {A} (op : fenv -> option (A * fenv)) (c : cpu) : option (A * cpu) :=
  '(x, e) ← op (env c);
  Some (x, set_env c e).

(** FPU_BEGIN, an operation into ST([dst]), FPU_END. *)
Definition into (dst : Z) (op : fenv -> option (float80 * fenv)) (c : cpu) : option cpu :=
  '(f, c) ← lift op (FPU_BEGIN c);
  Some (FPU_END (set_ST dst f c)).

Definition pure {A} (op : fenv -> A * fenv) : fenv -> option (A * fenv) := fun e => Some (op e).
Definition exact {A} (x : option A) : fenv -> option (A * fenv) := fun e => y ← x; Some (y, e).

(** ** Control *)

Definition f80_precision_from_pc (x : Z) : Z := if x =? 0 then 24 else if x =? 2 then 53 else 64.
Definition mode_of (x : Z) : f80_rounding_mode := if x =? 0 then round_to_nearest else if x =? 1 then round_down else if x =? 2 then round_up else round_chop.

Definition fpu_sync_control (c : cpu) : cpu :=
  set_env c (set_precision (set_rounding (env c) (mode_of (rc c))) (f80_precision_from_pc (pc c))).

Definition fpu_stcw16 (c : cpu) : Z := fcw c.
Definition fpu_stsw16 (c : cpu) : Z := fsw c.
Definition fpu_ldcw16 (i : Z) (c : cpu) : cpu := fpu_sync_control (set_fcw c (u16 i)).

Definition fpu_init (c : cpu) : cpu := fpu_sync_control (set_x87_valid (set_fsw (set_fcw c 0x037f) 0) 0).

Definition fpu_clex (c : cpu) : cpu :=
  set_bit PE false (set_bit UE false (set_bit OE false (set_bit ZE false (set_bit DE false (set_bit IE false (set_bit ES false (set_bit STF false (set_bit BUSY false c)))))))).

(** ** Loads *)

Inductive fpu_const := fconst_one | fconst_log2t | fconst_log2e | fconst_pi | fconst_log2 | fconst_ln2 | fconst_zero.

Definition fpu_consts (k : fpu_const) : float80 :=
  match k with
  | fconst_one => mk_f 0x8000000000000000 0x3fff false
  | fconst_log2t => mk_f 0xd49a784bcd1b8afe 0x4000 false
  | fconst_log2e => mk_f 0xb8aa3b295c17f0bc 0x3fff false
  | fconst_pi => mk_f 0xc90fdaa22168c235 0x4000 false
  | fconst_log2 => mk_f 0x9a209a84fbcff799 0x3ffd false
  | fconst_ln2 => mk_f 0xb17217f7d1cf79ac 0x3ffe false
  | fconst_zero => mk_f 0 0 false
  end.

Definition fpu_ld (i : Z) (c : cpu) : cpu := fpu_push (ST i c) c.
Definition fpu_ldc (k : fpu_const) (c : cpu) : cpu := fpu_push (fpu_consts k) c.

(** fpu_ild16, fpu_ild32 and fpu_ild64, which differ in the width of [i]. *)
Definition fpu_ild (i : Z) (c : cpu) : option cpu :=
  f ← f80_from_int i;
  Some (fpu_push f c).

Definition fpu_ldm32 (bits : Z) (c : cpu) : option cpu :=
  '(f, c) ← lift (f80_from_float bits) (FPU_BEGIN c);
  Some (FPU_END (fpu_push f c)).
Definition fpu_ldm64 (bits : Z) (c : cpu) : option cpu :=
  '(f, c) ← lift (f80_from_double bits) (FPU_BEGIN c);
  Some (FPU_END (fpu_push f c)).

(** The ten bytes of a register in memory. *)
Definition signExp (f : float80) : Z := exp f + Z.shiftl (Z.b2z (sign f)) 15.
Definition with_signExp (s x : Z) : float80 := mk_f s (Z.land x 0x7fff) (Z.testbit x 15).
Definition f80_bytes (f : float80) : list Z := map (fun i => Z.land (Z.shiftr (signif f + Z.shiftl (signExp f) 64) (8 * i)) 0xff) (seqZ 0 10).
Definition f80_of_bytes (l : list Z) : float80 :=
  let x := foldr (fun b acc => b + Z.shiftl acc 8) 0 l in
  with_signExp (Z.land x (Z.ones 64)) (Z.shiftr x 64).

Definition fpu_ldm80 (l : list Z) (c : cpu) : cpu := fpu_push (f80_of_bytes l) c.

(** ** Stores *)

Definition fpu_st (i : Z) (c : cpu) : cpu := set_ST i (ST 0 c) c.

Definition fpu_fit_int (r min max : Z) (e : fenv) : Z * fenv :=
  if (r <? min) || (r >? max) then (min, set_rounded_up (set_inexact (raise e F80_EXC_INVALID) false) false) else (r, e).

(** fpu_ist16 and fpu_ist32 with the bounds of the width, fpu_ist64. *)
Definition fpu_ist (w : Z) (c : cpu) : option (Z * cpu) :=
  '(i, c) ← lift (pure (fun e => let '(r, e) := f80_to_int (ST 0 c) e in fpu_fit_int r (- 2 ^ (w - 1)) (2 ^ (w - 1) - 1) e)) (FPU_BEGIN c);
  Some (i, FPU_END c).
Definition fpu_ist64 (c : cpu) : option (Z * cpu) :=
  '(i, c) ← lift (pure (f80_to_int (ST 0 c))) (FPU_BEGIN c);
  Some (i, FPU_END c).

(** The same with truncation. *)
Definition chopped {A} (f : cpu -> option (A * cpu)) (c : cpu) : option (A * cpu) :=
  let old_mode := rounding (env c) in
  '(i, c) ← f (set_env c (set_rounding (env c) round_chop));
  Some (i, set_env c (set_rounding (env c) old_mode)).
Definition fpu_istt (w : Z) (c : cpu) : option (Z * cpu) := chopped (fpu_ist w) c.
Definition fpu_istt64 (c : cpu) : option (Z * cpu) := chopped fpu_ist64 c.

Definition fpu_stm32 (c : cpu) : option (Z * cpu) :=
  '(f, c) ← lift (pure (f80_to_float (ST 0 c))) (FPU_BEGIN c);
  Some (f, FPU_END c).
Definition fpu_stm64 (c : cpu) : option (Z * cpu) :=
  '(f, c) ← lift (pure (f80_to_double (ST 0 c))) (FPU_BEGIN c);
  Some (f, FPU_END c).
Definition fpu_stm80 (c : cpu) : list Z := f80_bytes (ST 0 c).

(** ** Conditional moves *)

(** The flags are lazy: while [zf_res] is set ZF is that of [res]. *)
Definition ZF (c : cpu) : bool := if zf_res c then res c =? 0 else zf c.
Definition parity8 (x : Z) : bool := foldr (fun i b => xorb (Z.testbit x i) b) false (seqZ 0 8).
Definition PF (c : cpu) : bool := if pf_res c then negb (parity8 (Z.land (res c) 0xff)) else pf c.
Definition CF (c : cpu) : bool := cf c.

Definition FCMOVcc (cond : cpu -> bool) (i : Z) (c : cpu) : cpu := if cond c then set_ST 0 (ST i c) c else c.
Definition fpu_cmovb := FCMOVcc CF.
Definition fpu_cmove := FCMOVcc ZF.
Definition fpu_cmovbe := FCMOVcc (fun c => CF c || ZF c).
Definition fpu_cmovu := FCMOVcc PF.
Definition fpu_cmovnb := FCMOVcc (fun c => negb (CF c)).
Definition fpu_cmovne := FCMOVcc (fun c => negb (ZF c)).
Definition fpu_cmovnbe := FCMOVcc (fun c => negb (CF c || ZF c)).
Definition fpu_cmovnu := FCMOVcc (fun c => negb (PF c)).

(** ** Mathematics *)

Definition fpu_prem (c : cpu) : option cpu :=
  '(f, c) ← lift (f80_mod (ST 0 c) (ST 1 c)) (FPU_BEGIN c);
  Some (set_bit C2 false (FPU_END_FLAGS (set_ST 0 f c))).
Definition fpu_prem1 (c : cpu) : option cpu :=
  '(f, c) ← lift (f80_rem (ST 0 c) (ST 1 c)) (FPU_BEGIN c);
  Some (set_bit C2 false (FPU_END_FLAGS (set_ST 0 f c))).

Definition fpu_scale (c : cpu) : option cpu := into 0 (pure (f80_fscale (ST 0 c) (ST 1 c))) c.
Definition fpu_rndint (c : cpu) : option cpu :=
  if f80_isinf (ST 0 c) || f80_isnan (ST 0 c) then Some c else into 0 (f80_round (ST 0 c)) c.
Definition fpu_sqrt (c : cpu) : option cpu :=
  c ← into 0 (f80_sqrt (ST 0 c)) c;
  Some (set_bit C1 false c).

Definition fpu_yl2x (c : cpu) : option cpu :=
  let c := fpu_sync_control c in
  c ← into 1 (fun e => '(l, e) ← f80_log2 (ST 0 c) e; Some (f80_mul (ST 1 c) l e)) c;
  Some (fpu_pop c).
Definition fpu_yl2xp1 (c : cpu) : option cpu :=
  let c := fpu_sync_control c in
  c ← into 1 (fun e => '(l, e) ← f80_log2p1 (ST 0 c) e; Some (f80_mul (ST 1 c) l e)) c;
  Some (fpu_pop c).

Definition fpu_abs (c : cpu) : cpu := set_ST 0 (f80_abs (ST 0 c)) c.
Definition fpu_chs (c : cpu) : cpu := set_ST 0 (f80_neg (ST 0 c)) c.

Definition fpu_xtract (c : cpu) : option cpu :=
  let c := FPU_BEGIN c in
  '(xp, sg, e) ← f80_xtract (ST 0 c) (env c);
  let c := FPU_END (set_env c e) in
  Some (fpu_push sg (set_ST 0 xp c)).

Definition fpu_xam (c : cpu) : cpu :=
  let f := ST 0 c in
  let outflags :=
    if negb (f80_is_supported f) then 0
    else if f80_isnan f then 1
    else if f80_isinf f then 3
    else if f80_iszero f then 4
    else if f80_isdenormal f then 6
    else 2 in
  set_bit C3 (Z.testbit outflags 2) (set_bit C2 (Z.testbit outflags 1) (set_bit C0 (Z.testbit outflags 0) (set_bit C1 (sign f) c))).

(** ** Comparison *)

Definition fpu_compare_invalid (a b : float80) (quiet : bool) (c : cpu) : cpu :=
  if negb (f80_is_supported a) || negb (f80_is_supported b) || f80_issnan a || f80_issnan b || (negb quiet && (f80_isnan a || f80_isnan b))
  then set_bit IE true c else c.

Definition fpu_comparei (x : float80) (c : cpu) : option cpu :=
  '(lt, c) ← lift (f80_lt (ST 0 c) x) c;
  if f80_uncomparable (ST 0 c) x then Some (set_flags c true true true) else Some (set_flags c (f80_eq (ST 0 c) x) false lt).

Definition fpu_compare (x : float80) (c : cpu) : option cpu :=
  let c := set_bit C1 false (set_bit C2 false c) in
  '(lt, c) ← lift (f80_lt (ST 0 c) x) c;
  let c := set_bit C3 (f80_eq (ST 0 c) x) (set_bit C0 lt c) in
  if f80_uncomparable (ST 0 c) x then Some (set_bit C3 true (set_bit C2 true (set_bit C0 true c))) else Some c.

Definition fpu_com (i : Z) (c : cpu) : option cpu := let x := ST i c in fpu_compare x (fpu_compare_invalid (ST 0 c) x false c).
Definition fpu_ucom (i : Z) (c : cpu) : option cpu := let x := ST i c in fpu_compare x (fpu_compare_invalid (ST 0 c) x true c).
Definition fpu_comi (i : Z) (c : cpu) : option cpu := let x := ST i c in fpu_comparei x (fpu_compare_invalid (ST 0 c) x false c).
Definition fpu_ucomi (i : Z) (c : cpu) : option cpu := let x := ST i c in fpu_comparei x (fpu_compare_invalid (ST 0 c) x true c).

Definition fpu_comm (load : fenv -> option (float80 * fenv)) (c : cpu) : option cpu :=
  '(x, c) ← lift load (FPU_BEGIN c);
  let c := FPU_END_FLAGS c in
  fpu_compare x (fpu_compare_invalid (ST 0 c) x false c).
Definition fpu_comm32 (bits : Z) : cpu -> option cpu := fpu_comm (f80_from_float bits).
Definition fpu_comm64 (bits : Z) : cpu -> option cpu := fpu_comm (f80_from_double bits).

(** fpu_icom16 and fpu_icom32. *)
Definition fpu_icom (i : Z) (c : cpu) : option cpu :=
  x ← f80_from_int i;
  fpu_compare x c.
Definition fpu_tst (c : cpu) : option cpu :=
  let x := fpu_consts fconst_zero in fpu_compare x (fpu_compare_invalid (ST 0 c) x false c).

(** ** Arithmetic, with the fast paths first *)

Definition fpu_fast_precision (c : cpu) : Z := if negb (rc c =? 0) then 0 else if pc c =? 0 then 24 else if pc c =? 2 then 53 else 64.

(** fpu_fast_add, fpu_fast_mul and fpu_fast_div: [None] is "declined". *)
Definition fpu_fast (op : float80 -> float80 -> Z -> option (float80 * bool * bool)) (a b : float80) (dst : Z) (c : cpu) : option cpu :=
  let p := fpu_fast_precision c in
  if p =? 0 then None
  else
    '(r, ix, up) ← op a b p;
    let c := set_ST dst r c in
    let c := if (ix : bool) then set_fsw c (Z.lor (fsw c) 0x20) else c in
    Some (set_bit C1 up c).

(** The general operation of each fast path. *)
Definition f80_op (op : arith) (sub : bool) (a b : float80) : fenv -> option (float80 * fenv) :=
  match op with
  | Add => if sub then f80_sub a b else f80_add a b
  | Mul => pure (f80_mul a b)
  | Div => pure (f80_div a b)
  end.

(** Both, as every arithmetic helper has them; a subtraction's fast path is the
    addition of the negated operand. *)
Definition fpu_arith (op : arith) (sub : bool) (a b : float80) (dst : Z) (c : cpu) : option cpu :=
  match fpu_fast (fast op) a (if sub then f80_neg b else b) dst c with
  | Some c => Some c
  | None => into dst (f80_op op sub a b) c
  end.

Definition fpu_add (srci dsti : Z) (c : cpu) : option cpu := fpu_arith Add false (ST dsti c) (ST srci c) dsti c.
Definition fpu_sub (srci dsti : Z) (c : cpu) : option cpu := fpu_arith Add true (ST dsti c) (ST srci c) dsti c.
Definition fpu_subr (srci dsti : Z) (c : cpu) : option cpu := fpu_arith Add true (ST srci c) (ST dsti c) dsti c.
Definition fpu_mul (srci dsti : Z) (c : cpu) : option cpu := fpu_arith Mul false (ST dsti c) (ST srci c) dsti c.
Definition fpu_div (srci dsti : Z) (c : cpu) : option cpu := fpu_arith Div false (ST dsti c) (ST srci c) dsti c.
Definition fpu_divr (srci dsti : Z) (c : cpu) : option cpu := fpu_arith Div false (ST srci c) (ST dsti c) dsti c.

(** With an integer from memory, 16 or 32 bits. *)
Definition fpu_iadd (i : Z) (c : cpu) : option cpu := x ← f80_from_int i; fpu_arith Add false (ST 0 c) x 0 c.
Definition fpu_isub (i : Z) (c : cpu) : option cpu := x ← f80_from_int i; fpu_arith Add true (ST 0 c) x 0 c.
Definition fpu_isubr (i : Z) (c : cpu) : option cpu := x ← f80_from_int i; fpu_arith Add true x (ST 0 c) 0 c.
Definition fpu_imul (i : Z) (c : cpu) : option cpu := x ← f80_from_int i; fpu_arith Mul false (ST 0 c) x 0 c.
Definition fpu_idiv (i : Z) (c : cpu) : option cpu := x ← f80_from_int i; fpu_arith Div false (ST 0 c) x 0 c.
Definition fpu_idivr (i : Z) (c : cpu) : option cpu := x ← f80_from_int i; fpu_arith Div false x (ST 0 c) 0 c.

(** With a float or double from memory.  It is loaded for the fast path, which
    leaves its flags in float80's state, and again for the general one.
    [rev] is a reversed operation. *)
Definition fpu_arithm (op : arith) (sub rev : bool) (load : fenv -> option (float80 * fenv)) (c : cpu) : option cpu :=
  let a x := if rev then x else ST 0 c in
  let b x := if rev then ST 0 c else x in
  '(x, c) ← lift load c;
  match fpu_fast (fast op) (a x) (if sub then f80_neg (b x) else b x) 0 c with
  | Some c => Some c
  | None => into 0 (fun e => '(x, e) ← load e; f80_op op sub (a x) (b x) e) c
  end.

Definition fpu_addm32 (bits : Z) := fpu_arithm Add false false (f80_from_float bits).
Definition fpu_subm32 (bits : Z) := fpu_arithm Add true false (f80_from_float bits).
Definition fpu_subrm32 (bits : Z) := fpu_arithm Add true true (f80_from_float bits).
Definition fpu_mulm32 (bits : Z) := fpu_arithm Mul false false (f80_from_float bits).
Definition fpu_divm32 (bits : Z) := fpu_arithm Div false false (f80_from_float bits).
Definition fpu_divrm32 (bits : Z) := fpu_arithm Div false true (f80_from_float bits).
Definition fpu_addm64 (bits : Z) := fpu_arithm Add false false (f80_from_double bits).
Definition fpu_subm64 (bits : Z) := fpu_arithm Add true false (f80_from_double bits).
Definition fpu_subrm64 (bits : Z) := fpu_arithm Add true true (f80_from_double bits).
Definition fpu_mulm64 (bits : Z) := fpu_arithm Mul false false (f80_from_double bits).
Definition fpu_divm64 (bits : Z) := fpu_arithm Div false false (f80_from_double bits).
Definition fpu_divrm64 (bits : Z) := fpu_arithm Div false true (f80_from_double bits).

(** ** Transcendentals through the host's library *)

Definition fpu_transcendental_inexact (result : float80) (c : cpu) : cpu :=
  if negb (f80_iszero result) && negb (f80_isnan result) then set_bit PE true c else c.

(** |arg| >= 2^63, of a double's bits. *)
Definition fpu_trig_out_of_range (arg : Z) (c : cpu) : bool * cpu :=
  let m := Z.land arg (Z.ones 63) in
  if (m >=? Z.shiftl 0x43e 52) && (m <=? Z.shiftl 0x7ff 52) then (true, set_bit C2 true c) else (false, set_bit C2 false c).

(** What the C library computes, on the bits of doubles: 2^x - 1, and so on. *)
Record libm := mk_libm { m_2xm1 : Z -> Z; m_atan2 : Z -> Z -> Z; m_sin : Z -> Z; m_cos : Z -> Z; m_tan : Z -> Z }.

Section transcendental.
Context (L : libm).

Definition fpu_2xm1 (c : cpu) : option cpu :=
  let c := fpu_sync_control c in
  '(x, c) ← lift (pure (f80_to_double (ST 0 c))) c;
  '(f, c) ← lift (f80_from_double (m_2xm1 L x)) c;
  Some (fpu_transcendental_inexact f (set_ST 0 f c)).

Definition fpu_patan (c : cpu) : option cpu :=
  let c := fpu_sync_control c in
  '(y, c) ← lift (pure (f80_to_double (ST 1 c))) c;
  '(x, c) ← lift (pure (f80_to_double (ST 0 c))) c;
  '(f, c) ← lift (f80_from_double (m_atan2 L y x)) c;
  Some (fpu_pop (fpu_transcendental_inexact f (set_ST 1 f c))).

(** FSIN, FCOS and FPTAN up to the push. *)
Definition fpu_trig (fn : Z -> Z) (after : cpu -> cpu) (c : cpu) : option cpu :=
  let c := fpu_sync_control c in
  '(arg, c) ← lift (pure (f80_to_double (ST 0 c))) c;
  let '(out, c) := fpu_trig_out_of_range arg c in
  if (out : bool) then Some c
  else
    '(f, c) ← lift (f80_from_double (fn arg)) c;
    Some (after (fpu_transcendental_inexact f (set_ST 0 f c))).

Definition fpu_sin : cpu -> option cpu := fpu_trig (m_sin L) (fun c => c).
Definition fpu_cos : cpu -> option cpu := fpu_trig (m_cos L) (fun c => c).
Definition fpu_ptan : cpu -> option cpu := fpu_trig (m_tan L) (fpu_push (fpu_consts fconst_one)).

Definition fpu_sincos (c : cpu) : option cpu :=
  let c := fpu_sync_control c in
  '(arg, c) ← lift (pure (f80_to_double (ST 0 c))) c;
  let '(out, c) := fpu_trig_out_of_range arg c in
  if (out : bool) then Some c
  else
    '(f, c) ← lift (f80_from_double (m_sin L arg)) c;
    let c := fpu_transcendental_inexact f (set_ST 0 f c) in
    '(g, c) ← lift (f80_from_double (m_cos L arg)) c;
    Some (set_bit PE true (fpu_push g c)).
End transcendental.

(** ** Saving and restoring *)

Record fpu_env32 := mk_env32 { control : Z; status : Z; tag : Z; ip : Z; ip_selector : Z; operand : Z; operand_selector : Z }.
Record fpu_state32 := mk_state32 { senv : fpu_env32; regs : list (list Z) }.

Definition fpu_stenv32 (c : cpu) : fpu_env32 := mk_env32 (fcw c) (fsw c) 0 0 0 0 0.
Definition fpu_ldenv32 (v : fpu_env32) (c : cpu) : cpu := fpu_sync_control (set_fsw (set_fcw c (u16 (control v))) (u16 (status v))).

Definition fpu_save32 (c : cpu) : fpu_state32 := mk_state32 (fpu_stenv32 c) (map (fun i => f80_bytes (ST i c)) (seqZ 0 8)).
Definition fpu_restore32 (s : fpu_state32) (c : cpu) : cpu :=
  foldl (fun c i => set_ST i (f80_of_bytes (nth (Z.to_nat i) (regs s) [])) c) (fpu_ldenv32 (senv s) c) (seqZ 0 8).

(** emu/fxsave.h. *)
Record fxsave_area := mk_area { a_fcw : Z; a_fsw : Z; a_ftw : Z; a_mxcsr : Z; a_mxcsr_mask : Z; a_st : list (list Z * Z); a_xmm : list (list Z) }.

Definition x87_tag_of (c : cpu) (i : Z) : Z :=
  if Z.land (x87_valid c) (Z.shiftl 1 i) =? 0 then 3
  else
    let v := nth (Z.to_nat i) (fp c) F80_ZERO in
    let x := Z.land (signExp v) 0x7fff in
    if x =? 0 then (if signif v =? 0 then 1 else 2)
    else if (x =? 0x7fff) || (Z.shiftr (signif v) 63 =? 0) then 2
    else 0.

Definition x87_full_tag (c : cpu) : Z := foldl (fun tag i => Z.lor tag (u16 (Z.shiftl (x87_tag_of c i) (2 * i)))) 0 (seqZ 0 8).
Definition x87_valid_from_full_tag (tag : Z) : Z :=
  foldl (fun valid i => if negb (Z.land (Z.shiftr tag (2 * i)) 3 =? 3) then Z.lor valid (Z.shiftl 1 i) else valid) 0 (seqZ 0 8).

(** The significand as four words, the exponent and sign as one. *)
Definition fpxreg (f : float80) : list Z * Z := (map (fun j => u16 (Z.shiftr (signif f) (16 * j))) (seqZ 0 4), signExp f).
Definition of_fpxreg (r : list Z * Z) : float80 :=
  with_signExp (foldl (fun acc j => Z.lor acc (Z.shiftl (nth (Z.to_nat j) (fst r) 0) (16 * j))) 0 (seqZ 0 4)) (snd r).

Definition fxsave_fill (xmm_count : nat) (c : cpu) : fxsave_area :=
  mk_area (fcw c) (fsw c) (x87_valid c) (mxcsr c) 0xffff
    (map (fun i => fpxreg (nth (Z.to_nat (Z.land (top c + i) 7)) (fp c) F80_ZERO)) (seqZ 0 8))
    (take xmm_count (xmm c) ++ replicate (16 - xmm_count) [0; 0; 0; 0]).

Definition fxsave_restore (xmm_count : nat) (a : fxsave_area) (c : cpu) : cpu :=
  let c := fpu_ldcw16 (a_fcw a) c in
  let c := set_mxcsr (set_x87_valid (set_fsw c (a_fsw a)) (a_ftw a)) (a_mxcsr a) in
  let c := foldl (fun c i => set_fp c (<[Z.to_nat (Z.land (top c + i) 7) := of_fpxreg (nth (Z.to_nat i) (a_st a) ([], 0))]> (fp c))) c (seqZ 0 8) in
  set_xmm c (take xmm_count (a_xmm a) ++ drop xmm_count (xmm c)).

(** ** What a run looks like *)

Definition cpu0 : cpu := fpu_init (mk_cpu (replicate 8 F80_ZERO) 0 0 0 false false false 0 false false 0x1f80 (replicate 16 [0; 0; 0; 0]) default_env).

(** 1/3: FLD1, FILD 3, FDIVP leave 1/3 with PE and C1. *)
Example one_third : (c ← fpu_ild 3 (fpu_ldc fconst_one cpu0); c ← fpu_div 0 1 c; let c := fpu_pop c in Some (ST 0 c, fsw c, x87_valid c)) =
  Some (mk_f 0xaaaaaaaaaaaaaaab (bias (-2)) false, 0x3a20, 0x80).
Proof. vm_compute. reflexivity. Qed.
