(* ===== verification/FpuSound.v ===== *)
(** The x87 state is well formed and stays so.

    [wf]: eight registers that hold 80-bit numbers, words of their width, and
    float80's rounding mode and precision those of the control word.
    [fpu_run_wf] runs any sequence of the helpers of emu/fpu.c from such a
    state: none fails an assertion or computes something undefined, and the
    state is well formed again. *)

From Stdlib Require Import ZifyBool.
From S2P Require Import Prelude Rounding Float80 Float80Sound Float80Arith Float80Fast Float80Cmp Float80Conv Float80Ieee Float80Scale Float80Rem Float80Root Float80Log Fpu.

(** ** Bit fields *)

Lemma below_bits x n : 0 <= n -> 0 <= x -> (forall m, n <= m -> Z.testbit x m = false) -> x < 2 ^ n.
Proof.
  intros Hn Hx H. destruct (decide (x = 0)) as [-> | Hx0]; [apply pow2_pos; lia |]. apply Z.log2_lt_pow2; [lia |]. destruct (Z.lt_ge_cases (Z.log2 x) n) as [| Hge]; [done |]. exfalso. specialize (H _ Hge). rewrite Z.bit_log2 in H by lia. done.
Qed.

Lemma high_bits x n m : 0 <= x < 2 ^ n -> n <= m -> Z.testbit x m = false.
Proof. intros Hx Hm. destruct (decide (x = 0)) as [-> | Hx0]; [apply Z.bits_0 |]. apply Z.bits_above_log2; [lia |]. apply Z.lt_le_trans with n; [apply Z.log2_lt_pow2; lia | done]. Qed.

Lemma lor_range a b n : 0 <= n -> 0 <= a < 2 ^ n -> 0 <= b < 2 ^ n -> 0 <= Z.lor a b < 2 ^ n.
Proof.
  intros Hn Ha Hb. assert (0 <= Z.lor a b) as H0 by (apply Z.lor_nonneg; lia). split; [done |]. apply below_bits; [done | done |]. intros m Hm. by rewrite Z.lor_spec, (high_bits a n m), (high_bits b n m) by done.
Qed.

Lemma ldiff_range a b n : 0 <= a < 2 ^ n -> 0 <= n -> 0 <= Z.ldiff a b < 2 ^ n.
Proof.
  intros Ha Hn. assert (0 <= Z.ldiff a b) as H0 by (apply Z.ldiff_nonneg; lia). split; [done |]. apply below_bits; [done | done |]. intros m Hm. by rewrite Z.ldiff_spec, (high_bits a n m) by done.
Qed.

Lemma field_range lo w x : 0 <= w -> 0 <= field lo w x < 2 ^ w.
Proof. intros Hw. unfold field. rewrite Z.land_ones by done. apply Z.mod_pos_bound, pow2_pos. done. Qed.

Lemma put_range lo w v x n : 0 <= lo -> 0 <= w -> lo + w <= n -> 0 <= x < 2 ^ n -> 0 <= put lo w v x < 2 ^ n.
Proof.
  intros Hl Hw Hn Hx. apply lor_range; [lia | by apply ldiff_range; [| lia] |]. rewrite Z.shiftl_mul_pow2, Z.land_ones by lia. pose proof (Z.mod_pos_bound v (2 ^ w) (pow2_pos w Hw)). pose proof (pow2_pos lo Hl). split; [apply Z.mul_nonneg_nonneg; lia |].
  apply Z.lt_le_trans with (2 ^ w * 2 ^ lo); [apply Z.mul_lt_mono_pos_r; lia |]. rewrite <- Z.pow_add_r by lia. apply Z.pow_le_mono_r; lia.
Qed.

Lemma put_bits lo w v x m : 0 <= lo -> 0 <= w -> 0 <= m -> Z.testbit (put lo w v x) m = if (lo <=? m) && (m <? lo + w) then Z.testbit v (m - lo) else Z.testbit x m.
Proof.
  intros Hl Hw Hm. unfold put. rewrite Z.lor_spec, Z.ldiff_spec, !Z.shiftl_spec, Z.land_spec by done. destruct (Z.leb_spec lo m) as [H1 | H1]; cbn [andb].
  - rewrite Z.testbit_ones by done. rewrite (proj2 (Z.leb_le 0 (m - lo))) by lia. cbn [andb]. destruct (Z.ltb_spec m (lo + w)).
    + rewrite (proj2 (Z.ltb_lt (m - lo) w)) by lia. cbn [negb]. by rewrite andb_false_r, andb_true_r.
    + rewrite (proj2 (Z.ltb_ge (m - lo) w)) by lia. cbn [negb]. by rewrite andb_true_r, andb_false_r, orb_false_r.
  - rewrite !(Z.testbit_neg_r _ (m - lo)) by lia. cbn [negb andb]. by rewrite andb_true_r, orb_false_r.
Qed.

Lemma field_bits lo w x m : 0 <= lo -> 0 <= w -> 0 <= m -> Z.testbit (field lo w x) m = (m <? w) && Z.testbit x (m + lo).
Proof. intros Hl Hw Hm. unfold field. rewrite Z.land_spec, Z.testbit_ones, Z.shiftr_spec by done. rewrite (proj2 (Z.leb_le 0 m) Hm). apply andb_comm. Qed.

Lemma field_put lo w v x : 0 <= lo -> 0 <= w -> field lo w (put lo w v x) = v mod 2 ^ w.
Proof.
  intros Hl Hw. apply Z.bits_inj'. intros m Hm. rewrite field_bits, put_bits by lia. replace (m + lo - lo) with m by lia. rewrite (proj2 (Z.leb_le lo (m + lo))) by lia. rewrite <- Z.land_ones, Z.land_spec, Z.testbit_ones, (proj2 (Z.leb_le 0 m) Hm) by done. cbn [andb].
  destruct (Z.ltb_spec m w); [rewrite (proj2 (Z.ltb_lt (m + lo) (lo + w))) by lia; by rewrite andb_true_r | by rewrite andb_false_r].
Qed.

Lemma field_put_other lo w v x lo' w' : 0 <= lo -> 0 <= w -> 0 <= lo' -> 0 <= w' -> lo' + w' <= lo \/ lo + w <= lo' -> field lo' w' (put lo w v x) = field lo' w' x.
Proof.
  intros Hl Hw Hl' Hw' Hd. apply Z.bits_inj'. intros m Hm. rewrite !field_bits, put_bits by lia. destruct (Z.ltb_spec m w'); [| done]. cbn [andb]. destruct (Z.leb_spec lo (m + lo')), (Z.ltb_spec (m + lo') (lo + w)); try done; lia.
Qed.

(** ** Well-formed states *)

Definition synced (c : cpu) : Prop := rounding (env c) = mode_of (rc c) /\ precision (env c) = f80_precision_from_pc (pc c).

Record wf (c : cpu) : Prop := mk_wf {
  wf_length : length (fp c) = 8%nat;
  wf_regs : Forall in_range (fp c);
  wf_fsw : 0 <= fsw c < 2 ^ 16;
  wf_valid : 0 <= x87_valid c < 2 ^ 8;
  wf_fcw : 0 <= fcw c < 2 ^ 16;
  wf_synced : synced c
}.

Lemma top_range c : 0 <= top c < 8.
Proof. apply (field_range 11 3). lia. Qed.

Lemma slot_lt i c : (slot i c < 8)%nat.
Proof. unfold slot. pose proof (Z.mod_pos_bound (top c + i) 8). lia. Qed.

Lemma precision_width x : width (f80_precision_from_pc x).
Proof. unfold f80_precision_from_pc, width. repeat case_match; tauto. Qed.

Lemma wf_width c : wf c -> width (precision (env c)).
Proof. intros H. destruct (wf_synced c H) as [_ ->]. apply precision_width. Qed.

Lemma ST_range i c : wf c -> in_range (ST i c).
Proof.
  intros H. unfold ST. pose proof (slot_lt i c) as Hs. rewrite <- (wf_length c H) in Hs. destruct (lookup_lt_is_Some_2 (fp c) (slot i c) Hs) as [f Hf]. rewrite (nth_lookup_Some _ _ _ _ Hf). by apply (Forall_lookup_1 _ _ _ _ (wf_regs c H) Hf).
Qed.

Lemma wf_set_ST i f c : wf c -> in_range f -> wf (set_ST i f c).
Proof. intros [] Hf. split; try done; cbn [fp set_ST set_fp]; [by rewrite length_insert | by apply Forall_insert]. Qed.

Lemma wf_set_fsw c x : wf c -> 0 <= x < 2 ^ 16 -> wf (set_fsw c x).
Proof. intros [] Hx. by split. Qed.

Lemma wf_put_bit i b c : wf c -> 0 <= i < 16 -> wf (set_bit i b c).
Proof. intros H Hi. apply wf_set_fsw; [done |]. apply put_range; [lia | lia | lia | apply H]. Qed.

Lemma wf_set_top c x : wf c -> wf (set_top c x).
Proof. intros H. apply wf_set_fsw; [done |]. apply put_range; [lia | lia | lia | apply H]. Qed.

Lemma wf_set_valid c x : wf c -> 0 <= x < 2 ^ 8 -> wf (set_x87_valid c x).
Proof. intros [] Hx. by split. Qed.

Lemma wf_set_env c e : wf c -> same_mode (env c) e -> wf (set_env c e).
Proof. intros [H1 H2 H3 H4 H5 [H6 H7]] [M1 M2]. split; try done. split; cbn [env set_env]; [rewrite M1; exact H6 | rewrite M2; exact H7]. Qed.

Lemma wf_begin c : wf c -> wf (FPU_BEGIN c).
Proof. intros H. by apply wf_set_env. Qed.

Lemma end_flags_range c : 0 <= fsw c < 2 ^ 16 -> 0 <= fsw (FPU_END_FLAGS c) < 2 ^ 16.
Proof.
  intros H. apply lor_range; [lia | done |]. apply lor_range; [lia | | by destruct (inexact (env c))]. change 0x1f with (Z.ones 5). rewrite Z.land_ones by lia. pose proof (Z.mod_pos_bound (exceptions (env c)) (2 ^ 5)). lia.
Qed.

Lemma wf_end_flags c : wf c -> wf (FPU_END_FLAGS c).
Proof. intros H. apply wf_set_fsw; [done |]. apply end_flags_range, H. Qed.

Lemma wf_end c : wf c -> wf (FPU_END c).
Proof. intros H. apply wf_put_bit; [by apply wf_end_flags | unfold C1; lia]. Qed.

Lemma wf_push f c : wf c -> in_range f -> wf (fpu_push f c).
Proof.
  intros H Hf. unfold fpu_push. set (c1 := set_ST 0 f (set_top c (top c - 1))). assert (wf c1) as H1 by (apply wf_set_ST; [by apply wf_set_top | done]). apply wf_set_valid; [done |]. apply lor_range; [lia | apply H1 |].
  pose proof (top_range c1). rewrite Z.shiftl_1_l. split; [apply Z.pow_nonneg; lia | apply Z.pow_lt_mono_r; lia].
Qed.

Lemma wf_pop c : wf c -> wf (fpu_pop c).
Proof. intros H. apply wf_set_top, wf_set_valid; [done |]. apply ldiff_range; [apply H | lia]. Qed.

Lemma wf_sync c : length (fp c) = 8%nat -> Forall in_range (fp c) -> 0 <= fsw c < 2 ^ 16 -> 0 <= x87_valid c < 2 ^ 8 -> 0 <= fcw c < 2 ^ 16 -> wf (fpu_sync_control c).
Proof. by split. Qed.

Lemma wf_synced_control c : wf c -> wf (fpu_sync_control c).
Proof. intros []. by apply wf_sync. Qed.

Lemma wf_set_flags c z p y : wf c -> wf (set_flags c z p y).
Proof. intros []. by split. Qed.

Create HintDb fpu.
#[export] Hint Resolve ST_range wf_set_ST wf_begin wf_end_flags wf_end wf_push wf_pop wf_synced_control wf_set_top wf_set_flags wf_width : fpu.
#[export] Hint Extern 2 (wf (set_bit _ _ _)) => apply wf_put_bit; [| by vm_compute] : fpu.

(** ** The operations of float80.c, closed *)

Lemma shift_round_mode i sh s e : same_mode e (snd (u128_shift_right_round i sh s e)).
Proof. unfold u128_shift_right_round. repeat case_match; done. Qed.

Lemma to_int_good f e : - 2 ^ 63 <= fst (f80_to_int f e) < 2 ^ 63 /\ same_mode e (snd (f80_to_int f e)).
Proof.
  unfold f80_to_int. destruct (_ || _); [done |]. unfold f80_shift_right. pose proof (shift_round_mode (signif f) (bias 63 - exp f) (sign f) e) as Hm. destruct (u128_shift_right_round _ _ _ e) as [x e']. cbn [snd] in Hm. cbv zeta. destruct (_ >? _); [split; [by vm_compute | exact Hm] |].
  split; [| exact Hm]. apply (swrap_range 64). lia.
Qed.

Lemma to_ieee_mode f fb eb e : same_mode e (snd (f80_to_ieee f fb eb e)).
Proof.
  unfold f80_to_ieee. destruct (negb _); [done |]. destruct (_ =? _); [destruct (f80_isinf f); [done |]; by destruct (f80_issnan f) |]. destruct (f80_iszero f); [done |]. unfold ieee_finite.
  set (sh := if _ <? _ then _ else _). pose proof (shift_round_mode (u64 (Z.shiftl (signif f) (clz64 (signif f)))) sh (sign f) (set_inexact e false)) as Hm. destruct (u128_shift_right_round _ _ _ _) as [r e']. cbn [snd] in Hm. repeat case_match; cbn [snd] in *; simplify_eq; done.
Qed.

Lemma load_good fb eb b e : ieee_format fb eb -> 0 <= b < 2 ^ (fb + eb + 1) -> answers e (from_ieee fb eb b e).
Proof.
  intros Hfmt Hb. destruct (decide (bits_exp fb eb b = ieee_special eb)) as [Es | Es].
  - eexists. split; [by apply load_special |]. split; [| by destruct (signalling fb eb b)]. cbn [fst]. destruct (parts_range fb eb Hfmt b) as [_ Hfr]. pose proof (format_bounds fb eb Hfmt) as (Hf & _). assert (2 ^ fb = 2 * 2 ^ (fb - 1)) as Ep by (rewrite <- pow2_succ by lia; f_equal; lia).
    set (y := if signalling fb eb b then _ else _). assert (0 <= y < 2 ^ fb) as Hy by (unfold y, signalling; destruct (_ && _) eqn:Eq; lia). destruct (widened_range fb eb Hfmt y Hy) as [Hw _]. clearbody y.
    split; [split; [cbn [signif]; lia | done] |]. apply (supported_normal (mk_f (2 ^ 63 + widened fb y) EXP_SPECIAL (bits_sign fb eb b))); [split; [cbn [signif]; lia | done] | done | cbn [signif]; lia].
  - destruct (load_finite fb eb Hfmt b e Hb Es) as (f & Hf & Ff & _). eexists. split; [done |]. split; [by apply finite_good | apply raise_if_mode].
Qed.

Lemma double_good b e : 0 <= b < 2 ^ 64 -> answers e (f80_from_double b e).
Proof. intros Hb. rewrite from_double_code. apply load_good; [by right | done]. Qed.
Lemma float_good b e : 0 <= b < 2 ^ 32 -> answers e (f80_from_float b e).
Proof. intros Hb. rewrite from_float_code. apply load_good; [by left | done]. Qed.

(** A NaN operand, quieted or not, is good. *)
Lemma nan_good x (c : bool) : good x -> good (if c then quieten x else x).
Proof. intros [Rx Sx]. destruct c; [| done]. destruct (quieten_good x Rx). split; congruence. Qed.

Lemma good_ordered x : good x -> f80_isnan x = false -> ordered x.
Proof. by intros []. Qed.

Lemma remainder_good x y ieee e : in_range x -> in_range y -> answers e (f80_remainder_common x y ieee e).
Proof.
  intros Rx Ry. unfold f80_remainder_common. destruct (f80_is_supported x) eqn:Sx, (f80_is_supported y) eqn:Sy; cbn [negb orb]; try (eexists; split; [done |]; split; [apply (consts_good true) | done]).
  assert (good x /\ good y) as [Gx Gy] by done. set (e1 := if f80_issnan x || f80_issnan y then raise _ _ else e). assert (same_mode e e1) as M1 by apply raise_if_mode. destruct (f80_isnan x) eqn:Nx; [eexists; split; [done |]; split; [apply (nan_good x true Gx) | done] |].
  destruct (f80_isnan y) eqn:Ny; [eexists; split; [done |]; split; [apply (nan_good y true Gy) | done] |]. destruct (f80_isinf x || f80_iszero y) eqn:E1; [eexists; split; [done |]; split; [apply (consts_good true) | done] |]. set (e2 := if f80_isdenormal x || f80_isdenormal y then raise _ _ else e1).
  assert (same_mode e e2) as M2 by (apply same_mode_trans with e1; [done | apply raise_if_mode]). destruct (f80_iszero x || f80_isinf y) eqn:E2; [by eexists |]. apply orb_false_iff in E1 as [Ix Zy], E2 as [Zx Iy].
  destruct (ordered_cases x (good_ordered x Gx Nx)) as [Fx | [? _]]; [| congruence]. destruct (ordered_cases y (good_ordered y Gy Ny)) as [Fy | [? _]]; [| congruence]. rewrite (iszero_mag x Fx) in Zx. rewrite (iszero_mag y Fy) in Zy.
  destruct (rem_finite_exact x y ieee e2 Fx Fy ltac:(lia) ltac:(lia)) as (r & -> & Fr & _). eexists. split; [done |]. split; [by apply finite_good | done].
Qed.

Lemma scale_good x k e : in_range x -> yields e (f80_scale x k e).
Proof.
  intros Rx. unfold f80_scale. destruct (f80_is_supported x) eqn:Sx; cbn [negb orb]; [| split; [apply (consts_good true) | done]]. destruct (f80_isnan x) eqn:Nx; [split; [apply (consts_good true) | done] |]. destruct (f80_isinf x || f80_iszero x) eqn:E; [done |].
  apply orb_false_iff in E as [Ix Zx]. destruct (ordered_cases x ltac:(done)) as [Fx | [? _]]; [| congruence]. assert (mag x <> 0) as Hn by (rewrite (iszero_mag x Fx) in Zx; lia). destruct (scale_delivers x e Fx Hn k) as [Hd Hp]. unfold f80_scale in Hd, Hp. rewrite Sx, Nx, Ix, Zx in Hd, Hp. cbn [negb orb] in Hd, Hp.
  destruct (delivers_good _ _ _ _ (width64 e) Hd) as [Gr [Mr _]]. split; [exact Gr |]. split; [exact Mr | exact Hp].
Qed.

Lemma fscale_good x y e : in_range x -> in_range y -> yields e (f80_fscale x y e).
Proof.
  intros Rx Ry. unfold f80_fscale. destruct (handle_nans x y e) as [r |] eqn:Eh; [by apply (handle_good x y) |]. destruct (handle_none x y e Rx Ry Eh) as [Ox Oy]. set (e1 := if f80_isdenormal x || f80_isdenormal y then raise _ _ else e). assert (same_mode e e1) as M1 by apply raise_if_mode.
  destruct (f80_isinf y).
  - destruct (if sign y then f80_isinf x else f80_iszero x); [split; [apply (consts_good true) | done] |]. destruct (f80_iszero x || f80_isinf x); [split; [by apply ordered_good | done] |]. split; [| done]. destruct (sign y), (sign x); by vm_compute.
  - cbv zeta. set (k := if _ >=? _ then _ else _). destruct (scale_good x (if sign y then - k else k) e1 Rx) as [G M]. split; [done |]. by apply same_mode_trans with e1.
Qed.

Lemma round_good x e : in_range x -> f80_isnan x = false -> f80_isinf x = false -> answers e (f80_round x e).
Proof.
  intros Rx Nx Ix. destruct (f80_is_supported x) eqn:Sx; [| unfold f80_round; rewrite Sx; eexists; split; [done |]; split; [apply (consts_good true) | done]]. destruct (ordered_cases x ltac:(done)) as [Fx | [? _]]; [| congruence].
  destruct (round_finite x e Fx) as (R & r & _ & -> & Fr & _ & _ & Er). exists r. split; [done |]. split; [by apply finite_good |]. by rewrite Er.
Qed.

Lemma sqrt_good x e : in_range x -> width (precision e) -> answers e (f80_sqrt x e).
Proof.
  intros Rx Hw. destruct (f80_is_supported x) eqn:Sx; [| unfold f80_sqrt; rewrite Sx; eexists; split; [done |]; split; [apply (consts_good true) | done]]. destruct (f80_isnan x) eqn:Nx, (f80_iszero x) eqn:Zx, (sign x) eqn:Sg, (f80_isinf x) eqn:Ix;
    try (unfold f80_sqrt; rewrite Sx, ?Zx, ?Nx, ?Sg, ?Ix; cbn [negb]; try (destruct (f80_issnan x)); (eexists; split; [done |]; split; [first [by apply (nan_good x true) | done | apply (consts_good true)] | done])).
  destruct (ordered_cases x ltac:(done)) as [Fx | [? _]]; [| congruence]. destruct (sqrt_delivers x e Hw Fx) as (r & -> & Hd); [rewrite (iszero_mag x Fx) in Zx; lia | done |]. exists r. split; [done |].
  set (e1 := if f80_isdenormal x then _ else _) in Hd. assert (same_mode e e1) as M1 by apply raise_if_mode. destruct (delivers_good _ _ e1 r (same_width _ _ M1 Hw) Hd) as [G M]. split; [done |]. by apply same_mode_trans with e1.
Qed.

Lemma xtract_good x e : in_range x -> exists xp sg e', f80_xtract x e = Some (xp, sg, e') /\ good xp /\ good sg /\ same_mode e e'.
Proof.
  intros Rx. destruct (f80_is_supported x) eqn:Sx; [| unfold f80_xtract; rewrite Sx; eexists _, _, _; split; [done |]; by vm_compute]. assert (good x) as Gx by done.
  destruct (f80_isnan x) eqn:Nx; [unfold f80_xtract; rewrite Sx, Nx; cbn [negb]; pose proof (nan_good x true Gx); destruct (f80_issnan x); by eexists _, _, _ |]. destruct (f80_isinf x) eqn:Ix; [unfold f80_xtract; rewrite Sx, Nx, Ix; eexists _, _, _; split; [done |]; split; [by vm_compute | done] |].
  destruct (f80_iszero x) eqn:Zx; [unfold f80_xtract; rewrite Sx, Nx, Ix, Zx; eexists _, _, _; split; [done |]; split; [by vm_compute | done] |]. destruct (ordered_cases x ltac:(done)) as [Fx | [? _]]; [| congruence].
  destruct (xtract_finite x e Fx) as (xp & sg & -> & Fxp & _ & Fsg & _); [rewrite (iszero_mag x Fx) in Zx; lia |]. eexists _, _, _. split; [done |]. split; [by apply finite_good |]. split; [by apply finite_good | apply raise_if_mode].
Qed.

(** ** Operations lifted to the machine *)

(** An operation that always answers, with something that satisfies [P], and
    leaves the modes alone. *)
Definition total {A} (P : A -> Prop) (op : fenv -> option (A * fenv)) : Prop :=
  forall e, width (precision e) -> exists x e', op e = Some (x, e') /\ P x /\ same_mode e e'.

Definition ok (x : option cpu) : Prop := exists c, x = Some c /\ wf c.

Lemma answers_total op : (forall e, width (precision e) -> answers e (op e)) -> total in_range op.
Proof. intros H e Hw. destruct (H e Hw) as ([x e'] & -> & [Gx _] & M). by exists x, e'. Qed.

Lemma yields_total op : (forall e, width (precision e) -> yields e (op e)) -> total in_range (pure op).
Proof. intros H. apply answers_total. intros e Hw. eexists. split; [done |]. by apply H. Qed.

Lemma pure_total {A} (P : A -> Prop) op : (forall e, P (fst (op e)) /\ same_mode e (snd (op e))) -> total P (pure op).
Proof. intros H e Hw. destruct (H e) as [HP HM]. unfold pure. destruct (op e) as [x e']. by exists x, e'. Qed.

Lemma bind_total {A B} (P : A -> Prop) (Q : B -> Prop) op f : total P op -> (forall x, P x -> total Q (f x)) -> total Q (fun e => '(x, e) ← op e; f x e).
Proof.
  intros H1 H2 e Hw. destruct (H1 e Hw) as (x & e1 & -> & Px & M1). cbn [mbind option_bind]. destruct (H2 x Px e1 (same_width _ _ M1 Hw)) as (y & e2 & -> & Qy & M2). exists y, e2. split; [done |]. split; [done |]. by apply same_mode_trans with e1.
Qed.

Lemma lift_total {A} (P : A -> Prop) op c : wf c -> total P op -> exists x e', lift op c = Some (x, set_env c e') /\ P x /\ same_mode (env c) e' /\ wf (set_env c e').
Proof.
  intros Hc Ht. destruct (Ht (env c) (wf_width c Hc)) as (x & e' & Ho & Px & M). exists x, e'. unfold lift. rewrite Ho. cbn [mbind option_bind]. split; [done |]. split; [done |]. split; [done |]. by apply wf_set_env.
Qed.

Lemma into_ok dst op c : wf c -> total in_range op -> ok (into dst op c).
Proof.
  intros Hc Ht. unfold into. destruct (lift_total in_range op (FPU_BEGIN c) (wf_begin c Hc) Ht) as (f & e' & -> & Rf & _ & Hw). cbn [mbind option_bind]. eexists. split; [done |]. auto with fpu.
Qed.

Section ops.
Context (a b : float80).
Hypothesis Ra : in_range a.
Hypothesis Rb : in_range b.

Lemma add_total : total in_range (f80_add a b).
Proof using All. apply answers_total. intros e. by apply add_good. Qed.
Lemma sub_total : total in_range (f80_sub a b).
Proof using All. apply answers_total. intros e. by apply sub_good. Qed.
Lemma mul_total : total in_range (pure (f80_mul a b)).
Proof using All. apply yields_total. intros e. by apply mul_good. Qed.
Lemma div_total : total in_range (pure (f80_div a b)).
Proof using All. apply yields_total. intros e. by apply div_good. Qed.
Lemma arith_total op s : total in_range (f80_op op s a b).
Proof using All. destruct op; [destruct s; [apply sub_total | apply add_total] | apply mul_total | apply div_total]. Qed.
Lemma lt_total : total (fun _ => True) (f80_lt a b).
Proof using All. intros e Hw. destruct (lt_good a b e Ra Rb Hw) as (x & e' & H & M). by exists x, e'. Qed.
End ops.

(** ** The fast paths do not show *)

Lemma fast_synced c : wf c -> fpu_fast_precision c <> 0 -> rounding (env c) = round_to_nearest /\ precision (env c) = fpu_fast_precision c.
Proof.
  intros Hc. destruct (wf_synced c Hc) as [-> ->]. unfold fpu_fast_precision, mode_of, f80_precision_from_pc. destruct (rc c =? 0); [| done]. by intros _.
Qed.

Lemma same_cpu c1 c2 : fp c1 = fp c2 -> fsw c1 = fsw c2 -> x87_valid c1 = x87_valid c2 -> fcw c1 = fcw c2 -> (zf c1, pf c1, cf c1) = (zf c2, pf c2, cf c2) -> (res c1, zf_res c1, pf_res c1) = (res c2, zf_res c2, pf_res c2) ->
  mxcsr c1 = mxcsr c2 -> xmm c1 = xmm c2 -> env c1 = env c2 -> c1 = c2.
Proof. destruct c1, c2. simpl. congruence. Qed.

(** A fast path's state is the general one's, but for float80's flags, which
    the next operation clears. *)
Lemma fast_state op s a b dst c c1 : wf c -> in_range a -> in_range b -> (s = true -> op = Add) ->
  fpu_fast (fast op) a (if s then f80_neg b else b) dst c = Some c1 -> exists c2, into dst (f80_op op s a b) c = Some c2 /\ c1 = set_env c2 (env c).
Proof.
  intros Hc Ra Rb Hs. unfold fpu_fast. destruct (Z.eqb_spec (fpu_fast_precision c) 0) as [| Hp]; [done |]. destruct (fast_synced c Hc Hp) as [Hm Ep]. set (b' := if s then f80_neg b else b). assert (in_range b') as Rb' by (unfold b'; destruct s; [by apply neg_range | done]).
  destruct (fast op a b' (fpu_fast_precision c)) as [[[r ix] up] |] eqn:Ef; [| done]. cbn [mbind option_bind]. intros [= <-]. set (e0 := env (FPU_BEGIN c)).
  assert (f80_op op s a b e0 = Some (r, after_fast e0 ix up)) as Eg.
  { transitivity (general op a b' e0); [destruct op; [by destruct s | ..]; (destruct s; [by specialize (Hs eq_refl) | done]) |]. apply fast_general; [done | done | by apply (wf_width c) | exact Hm |]. unfold e0. cbn [precision env FPU_BEGIN set_env]. by rewrite Ep. }
  unfold into, lift. fold e0. rewrite Eg. cbn [mbind option_bind]. eexists. split; [done |]. apply same_cpu; try (by destruct ix). cbn [fsw set_bit set_fsw set_env FPU_END FPU_END_FLAGS env set_ST set_fp FPU_BEGIN after_fast exceptions inexact rounded_up e0]. change (Z.land 0 0x1f) with 0. cbn [orb]. rewrite Z.lor_0_l.
  destruct ix; cbn [fsw set_fsw set_ST set_fp]; [done | by rewrite Z.lor_0_r].
Qed.

Lemma arith_general op s a b dst c : wf c -> in_range a -> in_range b -> (s = true -> op = Add) ->
  exists c2 e', into dst (f80_op op s a b) c = Some c2 /\ wf c2 /\ same_mode (env c) e' /\ fpu_arith op s a b dst c = Some (set_env c2 e').
Proof.
  intros Hc Ra Rb Hs. destruct (into_ok dst (f80_op op s a b) c Hc (arith_total a b Ra Rb op s)) as (c2 & E2 & H2). unfold fpu_arith. destruct (fpu_fast _ _ _ _ _) as [c1 |] eqn:Ef.
  - destruct (fast_state op s a b dst c c1 Hc Ra Rb Hs Ef) as (c2' & E2' & ->). rewrite E2 in E2'. injection E2' as <-. by exists c2, (env c).
  - exists c2, (env c2). split; [done |]. split; [done |]. split; [| rewrite E2; by destruct c2]. destruct (wf_synced c Hc) as [M1 M2], (wf_synced c2 H2) as [M3 M4]. assert (fcw c2 = fcw c) as Ew. { unfold into, lift in E2. destruct (f80_op op s a b _) as [[f e'] |]; [| done]. cbn [mbind option_bind] in E2. by injection E2 as <-. }
    unfold rc, pc in *. rewrite Ew in M3, M4. split; congruence.
Qed.

(** ** Each helper *)

Lemma arith_ok op s a b dst c : wf c -> in_range a -> in_range b -> (s = true -> op = Add) -> ok (fpu_arith op s a b dst c).
Proof.
  intros Hc Ra Rb Hs. destruct (arith_general op s a b dst c Hc Ra Rb Hs) as (c2 & e' & E2 & H2 & M & ->). eexists. split; [done |]. apply wf_set_env; [done |]. destruct (wf_synced c Hc) as [M1 M2], (wf_synced c2 H2) as [M3 M4]. destruct M as [M5 M6].
  assert (fcw c2 = fcw c) as Ew. { unfold into, lift in E2. destruct (f80_op op s a b _) as [[f e''] |]; [| done]. cbn [mbind option_bind] in E2. by injection E2 as <-. }
  unfold rc, pc in *. rewrite Ew in M3, M4. split; congruence.
Qed.

Lemma arithm_ok op s rev load c : wf c -> total in_range load -> (s = true -> op = Add) -> ok (fpu_arithm op s rev load c).
Proof.
  intros Hc Ht Hs. unfold fpu_arithm. destruct (lift_total in_range load c Hc Ht) as (x & e' & -> & Rx & _ & Hw). cbn [mbind option_bind]. set (c1 := set_env c e') in *. change (ST 0 c) with (ST 0 c1). clearbody c1. pose proof (ST_range 0 c1 Hw) as R0.
  set (a := if rev then x else ST 0 c1). set (b := if rev then ST 0 c1 else x). assert (in_range a /\ in_range b) as [Ra Rb] by (unfold a, b; by destruct rev). destruct (fpu_fast _ _ _ _ _) as [c2 |] eqn:Ef.
  - destruct (fast_state op s a b 0 c1 c2 Hw Ra Rb Hs Ef) as (c3 & E3 & ->). pose proof (arith_ok op s a b 0 c1 Hw Ra Rb Hs) as (c4 & E4 & H4). unfold fpu_arith in E4. rewrite Ef in E4. injection E4 as <-. by eexists.
  - apply into_ok; [done |]. apply bind_total with in_range; [done |]. intros y Ry. apply arith_total; by destruct rev.
Qed.

Lemma compare_ok x c : wf c -> in_range x -> ok (fpu_compare x c).
Proof.
  intros Hc Rx. unfold fpu_compare. set (c1 := set_bit C1 false _). assert (wf c1) as H1 by (unfold c1; auto with fpu). destruct (lift_total (fun _ => True) (f80_lt (ST 0 c1) x) c1 H1) as (lt & e' & -> & _ & _ & Hw); [apply lt_total; auto with fpu |]. cbn [mbind option_bind].
  destruct (f80_uncomparable _ _); (eexists; split; [done |]; auto 8 with fpu).
Qed.

Lemma comparei_ok x c : wf c -> in_range x -> ok (fpu_comparei x c).
Proof.
  intros Hc Rx. unfold fpu_comparei. destruct (lift_total (fun _ => True) (f80_lt (ST 0 c) x) c Hc) as (lt & e' & -> & _ & _ & Hw); [apply lt_total; auto with fpu |]. cbn [mbind option_bind]. destruct (f80_uncomparable _ _); (eexists; split; [done |]; auto with fpu).
Qed.

Lemma wf_compare_invalid a b q c : wf c -> wf (fpu_compare_invalid a b q c).
Proof. intros Hc. unfold fpu_compare_invalid. destruct (_ || _); auto with fpu. Qed.

Lemma comm_ok load c : wf c -> total in_range load -> ok (fpu_comm load c).
Proof.
  intros Hc Ht. unfold fpu_comm. destruct (lift_total in_range load (FPU_BEGIN c) (wf_begin c Hc) Ht) as (x & e' & -> & Rx & _ & Hw). cbn [mbind option_bind]. apply compare_ok; [| done]. apply wf_compare_invalid. auto with fpu.
Qed.

(** A helper that stores: everything but the flags and float80's state stays. *)
Definition stores_only (c c' : cpu) : Prop :=
  fp c' = fp c /\ 0 <= fsw c' < 2 ^ 16 /\ x87_valid c' = x87_valid c /\ fcw c' = fcw c /\ same_mode (env c) (env c').

Lemma store_parts {A} op (c : cpu) : width (precision (env c)) -> 0 <= fsw c < 2 ^ 16 -> total (fun _ : A => True) op ->
  exists x c', ('(x, c) ← lift op (FPU_BEGIN c); Some (x, FPU_END c)) = Some (x, c') /\ stores_only c c'.
Proof.
  intros Hw Hs Ht. destruct (Ht (env (FPU_BEGIN c)) Hw) as (x & e' & Eo & _ & M). unfold lift. rewrite Eo. cbn [mbind option_bind]. eexists _, _. split; [done |]. split; [done |]. split; [| split; [done | split; [done | exact M]]].
  apply put_range; [done | done | done |]. apply (end_flags_range (set_env (FPU_BEGIN c) e')). done.
Qed.

Lemma stores_only_wf c c' : wf c -> stores_only c c' -> wf c'.
Proof. intros [H1 H2 H3 H4 H5 [H6 H7]] (E1 & E2 & E3 & E4 & [E5 E6]). split; [by rewrite E1 | by rewrite E1 | done | by rewrite E3 | by rewrite E4 |]. unfold synced, rc, pc in *. rewrite E4. split; congruence. Qed.

Lemma to_int_total f : total (fun _ => True) (pure (f80_to_int f)).
Proof. apply pure_total. intros e. split; [done | apply to_int_good]. Qed.

Lemma fit_total f min max : total (fun _ => True) (pure (fun e => let '(r, e) := f80_to_int f e in fpu_fit_int r min max e)).
Proof.
  apply pure_total. intros e. split; [done |]. pose proof (proj2 (to_int_good f e)) as M. destruct (f80_to_int f e) as [r e']. cbn [snd] in M. unfold fpu_fit_int. by destruct (_ || _).
Qed.

Lemma chopped_ok {A} (f : cpu -> option (A * cpu)) c : wf c -> (forall c, width (precision (env c)) -> 0 <= fsw c < 2 ^ 16 -> exists x c', f c = Some (x, c') /\ stores_only c c') ->
  exists x c', chopped f c = Some (x, c') /\ stores_only c c'.
Proof.
  intros Hc Hf. unfold chopped. destruct (Hf (set_env c (set_rounding (env c) round_chop)) (wf_width c Hc) (wf_fsw c Hc)) as (x & c' & -> & E1 & E2 & E3 & E4 & E5 & E6). cbn [mbind option_bind]. eexists _, _. split; [done |]. split; [exact E1 |]. split; [exact E2 |]. split; [exact E3 |]. split; [exact E4 |]. split; [done | exact E6].
Qed.

Lemma ist_parts w c : width (precision (env c)) -> 0 <= fsw c < 2 ^ 16 -> exists x c', fpu_ist w c = Some (x, c') /\ stores_only c c'.
Proof. intros Hw Hs. apply store_parts; [done | done | apply fit_total]. Qed.
Lemma ist64_parts c : width (precision (env c)) -> 0 <= fsw c < 2 ^ 16 -> exists x c', fpu_ist64 c = Some (x, c') /\ stores_only c c'.
Proof. intros Hw Hs. apply store_parts; [done | done | apply to_int_total]. Qed.

Lemma ild_ok i c : wf c -> - 2 ^ 63 <= i < 2 ^ 63 -> ok (fpu_ild i c).
Proof. intros Hc Hi. unfold fpu_ild. destruct (int_good i Hi) as (f & -> & [Rf _]). eexists. split; [done |]. auto with fpu. Qed.

Lemma push_ok load c : wf c -> total in_range load -> ok ('(f, c) ← lift load (FPU_BEGIN c); Some (FPU_END (fpu_push f c))).
Proof. intros Hc Ht. destruct (lift_total in_range load (FPU_BEGIN c) (wf_begin c Hc) Ht) as (x & e' & -> & Rx & _ & Hw). eexists. split; [done |]. auto with fpu. Qed.

Lemma float_total b : 0 <= b < 2 ^ 32 -> total in_range (f80_from_float b).
Proof. intros Hb. apply answers_total. intros e _. by apply float_good. Qed.
Lemma double_total b : 0 <= b < 2 ^ 64 -> total in_range (f80_from_double b).
Proof. intros Hb. apply answers_total. intros e _. by apply double_good. Qed.

Lemma remainder_ok ieee c : wf c -> ok ('(f, c) ← lift (f80_remainder_common (ST 0 c) (ST 1 c) ieee) (FPU_BEGIN c); Some (set_bit C2 false (FPU_END_FLAGS (set_ST 0 f c)))).
Proof.
  intros Hc. destruct (lift_total in_range (f80_remainder_common (ST 0 c) (ST 1 c) ieee) (FPU_BEGIN c) (wf_begin c Hc)) as (x & e' & -> & Rx & _ & Hw); [apply answers_total; intros e _; apply remainder_good; auto with fpu |]. eexists. split; [done |]. auto with fpu.
Qed.

Lemma log_ok (log : float80 -> fenv -> option (float80 * fenv)) c : (forall x e, in_range x -> width (precision e) -> answers e (log x e)) -> wf c ->
  ok (let c := fpu_sync_control c in c ← into 1 (fun e => '(l, e) ← log (ST 0 c) e; Some (f80_mul (ST 1 c) l e)) c; Some (fpu_pop c)).
Proof.
  intros Hlog Hc. cbv zeta. pose proof (wf_synced_control c Hc) as H1. set (c1 := fpu_sync_control c) in *. clearbody c1.
  destruct (into_ok 1 (fun e => '(l, e) ← log (ST 0 c1) e; Some (f80_mul (ST 1 c1) l e)) c1 H1) as (c2 & -> & H2); [| eexists; split; [done | auto with fpu]].
  apply (bind_total in_range in_range (log (ST 0 c1)) (fun l e => Some (f80_mul (ST 1 c1) l e))); [apply answers_total; intros e Hw; apply Hlog; auto with fpu |]. intros x Rx. apply (mul_total (ST 1 c1) x); auto with fpu.
Qed.

Lemma xtract_ok c : wf c -> ok (fpu_xtract c).
Proof.
  intros Hc. unfold fpu_xtract. destruct (xtract_good (ST 0 (FPU_BEGIN c)) (env (FPU_BEGIN c))) as (xp & sg & e' & -> & [Rx _] & [Rs _] & M); [auto with fpu |]. cbn [mbind option_bind]. eexists. split; [done |]. apply wf_push; [| done]. apply wf_set_ST; [| done]. apply wf_end, wf_set_env; [auto with fpu | exact M].
Qed.

Lemma rndint_ok c : wf c -> ok (fpu_rndint c).
Proof.
  intros Hc. unfold fpu_rndint. destruct (f80_isinf (ST 0 c)) eqn:Ei, (f80_isnan (ST 0 c)) eqn:En; try (by eexists). apply into_ok; [done |]. apply answers_total. intros e _. apply round_good; auto with fpu.
Qed.

Lemma sqrt_ok c : wf c -> ok (fpu_sqrt c).
Proof. intros Hc. unfold fpu_sqrt. destruct (into_ok 0 (f80_sqrt (ST 0 c)) c Hc) as (c2 & -> & H2); [apply answers_total; intros e Hw; apply sqrt_good; auto with fpu |]. eexists. split; [done | auto with fpu]. Qed.

(** ** Transcendentals *)

(** A library that returns doubles. *)
Definition libm_ok (L : libm) : Prop :=
  (forall x, 0 <= m_2xm1 L x < 2 ^ 64) /\ (forall y x, 0 <= m_atan2 L y x < 2 ^ 64) /\ (forall x, 0 <= m_sin L x < 2 ^ 64) /\ (forall x, 0 <= m_cos L x < 2 ^ 64) /\ (forall x, 0 <= m_tan L x < 2 ^ 64).

Lemma to_double_total f : total (fun _ => True) (pure (f80_to_double f)).
Proof. apply pure_total. intros e. split; [done | apply to_ieee_mode]. Qed.
Lemma to_float_total f : total (fun _ => True) (pure (f80_to_float f)).
Proof. apply pure_total. intros e. split; [done |]. unfold f80_to_float. pose proof (to_ieee_mode f 23 8 e) as M. by destruct (f80_to_ieee f 23 8 e). Qed.

Lemma wf_transcendental f c : wf c -> wf (fpu_transcendental_inexact f c).
Proof. intros Hc. unfold fpu_transcendental_inexact. destruct (_ && _); auto with fpu. Qed.
Lemma wf_out_of_range x c : wf c -> wf (snd (fpu_trig_out_of_range x c)).
Proof. intros Hc. unfold fpu_trig_out_of_range. destruct (_ && _); cbn [snd]; auto with fpu. Qed.
#[export] Hint Resolve wf_transcendental wf_out_of_range wf_compare_invalid : fpu.

(** The next operation of a transcendental: run it and keep the state well formed. *)
Ltac lift_next H T := let x := fresh "x" in let e := fresh "e" in let R := fresh "R" in let W := fresh "W" in
  match goal with |- context [lift ?op ?c] => destruct (lift_total _ op c H T) as (x & e & -> & R & _ & W) end; cbn [mbind option_bind].

Lemma trig_ok fn after c : wf c -> (forall x, 0 <= fn x < 2 ^ 64) -> (forall c, wf c -> wf (after c)) -> ok (fpu_trig fn after c).
Proof.
  intros Hc Hfn Haf. unfold fpu_trig. pose proof (wf_synced_control c Hc) as H1. lift_next H1 (to_double_total (ST 0 (fpu_sync_control c))). pose proof (wf_out_of_range x _ W) as H2. destruct (fpu_trig_out_of_range x _) as [out c2]. cbn [snd] in H2. destruct out; [by eexists |].
  lift_next H2 (double_total _ (Hfn x)). eexists. split; [done |]. auto with fpu.
Qed.

Section libm_helpers.
Context (L : libm).
Hypothesis HL : libm_ok L.

Lemma f2xm1_ok c : wf c -> ok (fpu_2xm1 L c).
Proof using All.
  intros Hc. unfold fpu_2xm1. pose proof (wf_synced_control c Hc) as H1. lift_next H1 (to_double_total (ST 0 (fpu_sync_control c))). lift_next W (double_total _ (proj1 HL x)). eexists. split; [done |]. auto with fpu.
Qed.

Lemma patan_ok c : wf c -> ok (fpu_patan L c).
Proof using All.
  intros Hc. unfold fpu_patan. pose proof (wf_synced_control c Hc) as H1. set (c1 := fpu_sync_control c) in *. clearbody c1. lift_next H1 (to_double_total (ST 1 c1)). set (c2 := set_env c1 e) in *. clearbody c2. lift_next W (to_double_total (ST 0 c2)). destruct HL as (_ & Ha & _). lift_next W0 (double_total _ (Ha x x0)). eexists. split; [done |]. auto with fpu.
Qed.

Lemma sincos_ok c : wf c -> ok (fpu_sincos L c).
Proof using All.
  intros Hc. destruct HL as (_ & _ & Hs & Hcos & _). unfold fpu_sincos. pose proof (wf_synced_control c Hc) as H1. lift_next H1 (to_double_total (ST 0 (fpu_sync_control c))). pose proof (wf_out_of_range x _ W) as H2. destruct (fpu_trig_out_of_range x _) as [out c2]. cbn [snd] in H2. destruct out; [by eexists |].
  lift_next H2 (double_total _ (Hs x)). assert (wf (fpu_transcendental_inexact x0 (set_ST 0 x0 (set_env c2 e0)))) as H3 by auto with fpu. lift_next H3 (double_total _ (Hcos x)). eexists. split; [done |]. auto with fpu.
Qed.
End libm_helpers.

(** ** Restoring *)

Lemma with_signExp_range s x : 0 <= s < 2 ^ 64 -> in_range (with_signExp s x).
Proof. intros Hs. split; [done |]. cbn [exp with_signExp]. change 0x7fff with (Z.ones 15). rewrite Z.land_ones by lia. apply Z.mod_pos_bound. lia. Qed.

Lemma of_bytes_range l : in_range (f80_of_bytes l).
Proof. apply with_signExp_range. rewrite Z.land_ones by lia. apply Z.mod_pos_bound. lia. Qed.

Lemma of_fpxreg_range r : Forall (fun w => 0 <= w < 2 ^ 16) (fst r) -> in_range (of_fpxreg r).
Proof.
  intros Hr. apply with_signExp_range. assert (forall n, 0 <= nth n (fst r) 0 < 2 ^ 16) as Hn. { intros n. destruct (nth_in_or_default n (fst r) 0) as [Hin | ->]; [| lia]. rewrite Forall_forall in Hr. apply Hr. by apply list_elem_of_In. }
  change (seqZ 0 4) with [0; 1; 2; 3]. cbn [foldl]. assert (forall j, 0 <= j <= 3 -> 0 <= Z.shiftl (nth (Z.to_nat j) (fst r) 0) (16 * j) < 2 ^ 64) as Hsh.
  { intros j Hj. specialize (Hn (Z.to_nat j)). rewrite Z.shiftl_mul_pow2 by lia. pose proof (pow2_pos (16 * j) ltac:(lia)). split; [apply Z.mul_nonneg_nonneg; lia |]. apply Z.lt_le_trans with (2 ^ 16 * 2 ^ (16 * j)); [apply Z.mul_lt_mono_pos_r; lia |]. rewrite <- Z.pow_add_r by lia. apply Z.pow_le_mono_r; lia. }
  repeat apply lor_range; try lia; apply Hsh; lia.
Qed.

Lemma foldl_wf {A} (f : cpu -> A -> cpu) l : (forall c x, wf c -> wf (f c x)) -> forall c, wf c -> wf (foldl f c l).
Proof. intros Hf. induction l as [| x l IH]; intros c Hc; cbn [foldl]; auto. Qed.

Lemma u16_range x : 0 <= u16 x < 2 ^ 16.
Proof. apply (wrap_range 16). lia. Qed.

Lemma wf_ldenv v c : wf c -> wf (fpu_ldenv32 v c).
Proof. intros []. apply wf_sync; try done; apply u16_range. Qed.

Lemma wf_restore s c : wf c -> wf (fpu_restore32 s c).
Proof. intros Hc. apply foldl_wf; [intros; apply wf_set_ST; [done | apply of_bytes_range] | by apply wf_ldenv]. Qed.

(** A saved area with every field in range. *)
Definition area_ok (a : fxsave_area) : Prop :=
  0 <= a_fcw a < 2 ^ 16 /\ 0 <= a_fsw a < 2 ^ 16 /\ 0 <= a_ftw a < 2 ^ 8 /\ Forall (fun r : list Z * Z => Forall (fun w => 0 <= w < 2 ^ 16) (fst r)) (a_st a).

Lemma wf_fxrestore n a c : wf c -> area_ok a -> wf (fxsave_restore n a c).
Proof.
  intros [] (H1 & H2 & H3 & H4). unfold fxsave_restore. set (c1 := set_mxcsr _ _). assert (wf c1) as W1 by (split; try done; apply u16_range). set (c2 := foldl _ c1 (seqZ 0 8)). assert (wf c2) as W2; [| by destruct W2; split].
  apply foldl_wf; [| done]. intros c' i Hw. assert (in_range (of_fpxreg (nth (Z.to_nat i) (a_st a) ([], 0)))) as Hr.
  { apply of_fpxreg_range. destruct (nth_in_or_default (Z.to_nat i) (a_st a) ([], 0)) as [Hin | ->]; [| constructor]. rewrite Forall_forall in H4. apply H4. by apply list_elem_of_In. }
  destruct Hw. split; try done; cbn [fp set_fp]; [by rewrite length_insert | by apply Forall_insert].
Qed.

(** ** Any sequence of instructions *)

Inductive aop := OAdd | OSub | OSubr | OMul | ODiv | ODivr.
Inductive ccode := cb | ce | cbe | cu | cnb | cne | cnbe | cnu.

Inductive insn :=
  | Enter | Pop | Xch (i : Z) | Incstp | Decstp
  | Ld (i : Z) | Ldc (k : fpu_const) | Ild (i : Z) | Ldm32 (b : Z) | Ldm64 (b : Z) | Ldm80 (l : list Z)
  | St (i : Z) | Ist (w : Z) | Ist64 | Istt (w : Z) | Istt64 | Stm32 | Stm64
  | Cmov (k : ccode) (i : Z)
  | Prem | Prem1 | Scale | Rndint | Sqrt | Yl2x | Yl2xp1 | F2xm1 | Abs | Chs | Xtract | Xam
  | Com (i : Z) | Ucom (i : Z) | Comi (i : Z) | Ucomi (i : Z) | Comm32 (b : Z) | Comm64 (b : Z) | Icom (i : Z) | Tst
  | Arith (o : aop) (src dst : Z) | Iarith (o : aop) (i : Z) | Arithm32 (o : aop) (b : Z) | Arithm64 (o : aop) (b : Z)
  | Patan | Sin | Cos | Ptan | Sincos
  | Ldcw (i : Z) | Ldenv (v : fpu_env32) | Restore (s : fpu_state32) | Fxrstor (n : nat) (a : fxsave_area) | Init | Clex.

(** Memory operands of the width the instruction has. *)
Definition operands_ok (i : insn) : Prop :=
  match i with
  | Ild x => - 2 ^ 63 <= x < 2 ^ 63
  | Icom x | Iarith _ x => - 2 ^ 31 <= x < 2 ^ 31
  | Ldm32 b | Comm32 b | Arithm32 _ b => 0 <= b < 2 ^ 32
  | Ldm64 b | Comm64 b | Arithm64 _ b => 0 <= b < 2 ^ 64
  | Fxrstor _ a => area_ok a
  | _ => True
  end.

Definition cmov (k : ccode) : Z -> cpu -> cpu :=
  match k with
  | cb => fpu_cmovb | ce => fpu_cmove | cbe => fpu_cmovbe | cu => fpu_cmovu | cnb => fpu_cmovnb | cne => fpu_cmovne | cnbe => fpu_cmovnbe | cnu => fpu_cmovnu
  end.
Definition arith_reg (o : aop) : Z -> Z -> cpu -> option cpu :=
  match o with OAdd => fpu_add | OSub => fpu_sub | OSubr => fpu_subr | OMul => fpu_mul | ODiv => fpu_div | ODivr => fpu_divr end.
Definition arith_int (o : aop) : Z -> cpu -> option cpu :=
  match o with OAdd => fpu_iadd | OSub => fpu_isub | OSubr => fpu_isubr | OMul => fpu_imul | ODiv => fpu_idiv | ODivr => fpu_idivr end.
Definition arith_m32 (o : aop) : Z -> cpu -> option cpu :=
  match o with OAdd => fpu_addm32 | OSub => fpu_subm32 | OSubr => fpu_subrm32 | OMul => fpu_mulm32 | ODiv => fpu_divm32 | ODivr => fpu_divrm32 end.
Definition arith_m64 (o : aop) : Z -> cpu -> option cpu :=
  match o with OAdd => fpu_addm64 | OSub => fpu_subm64 | OSubr => fpu_subrm64 | OMul => fpu_mulm64 | ODiv => fpu_divm64 | ODivr => fpu_divrm64 end.

(** The state after one; a store's value is dropped. *)
Definition exec (L : libm) (i : insn) (c : cpu) : option cpu :=
  match i with
  | Enter => Some (fpu_sync_control c) | Pop => Some (fpu_pop c) | Xch i => Some (fpu_xch i c) | Incstp => Some (fpu_incstp c) | Decstp => Some (fpu_decstp c)
  | Ld i => Some (fpu_ld i c) | Ldc k => Some (fpu_ldc k c) | Ild x => fpu_ild x c | Ldm32 b => fpu_ldm32 b c | Ldm64 b => fpu_ldm64 b c | Ldm80 l => Some (fpu_ldm80 l c)
  | St i => Some (fpu_st i c) | Ist w => snd <$> fpu_ist w c | Ist64 => snd <$> fpu_ist64 c | Istt w => snd <$> fpu_istt w c | Istt64 => snd <$> fpu_istt64 c
  | Stm32 => snd <$> fpu_stm32 c | Stm64 => snd <$> fpu_stm64 c
  | Cmov k i => Some (cmov k i c)
  | Prem => fpu_prem c | Prem1 => fpu_prem1 c | Scale => fpu_scale c | Rndint => fpu_rndint c | Sqrt => fpu_sqrt c | Yl2x => fpu_yl2x c | Yl2xp1 => fpu_yl2xp1 c
  | F2xm1 => fpu_2xm1 L c | Abs => Some (fpu_abs c) | Chs => Some (fpu_chs c) | Xtract => fpu_xtract c | Xam => Some (fpu_xam c)
  | Com i => fpu_com i c | Ucom i => fpu_ucom i c | Comi i => fpu_comi i c | Ucomi i => fpu_ucomi i c | Comm32 b => fpu_comm32 b c | Comm64 b => fpu_comm64 b c | Icom x => fpu_icom x c | Tst => fpu_tst c
  | Arith o s d => arith_reg o s d c | Iarith o x => arith_int o x c | Arithm32 o b => arith_m32 o b c | Arithm64 o b => arith_m64 o b c
  | Patan => fpu_patan L c | Sin => fpu_sin L c | Cos => fpu_cos L c | Ptan => fpu_ptan L c | Sincos => fpu_sincos L c
  | Ldcw x => Some (fpu_ldcw16 x c) | Ldenv v => Some (fpu_ldenv32 v c) | Restore s => Some (fpu_restore32 s c) | Fxrstor n a => Some (fxsave_restore n a c)
  | Init => Some (fpu_init c) | Clex => Some (fpu_clex c)
  end.

Fixpoint run (L : libm) (l : list insn) (c : cpu) : option cpu :=
  match l with [] => Some c | i :: l => c ← exec L i c; run L l c end.

Lemma fmap_ok {A} (x : option (A * cpu)) c : wf c -> (exists y c', x = Some (y, c') /\ stores_only c c') -> ok (snd <$> x).
Proof. intros Hc (y & c' & -> & Hs). eexists. split; [done |]. by apply (stores_only_wf c). Qed.

Lemma exec_simple c c' : wf c' -> c = Some c' -> ok c.
Proof. intros H ->. by eexists. Qed.

Lemma wf_xch i c : wf c -> wf (fpu_xch i c).
Proof. intros Hc. apply wf_set_ST; [apply wf_set_ST; auto with fpu | auto with fpu]. Qed.

Lemma const_range k : in_range (fpu_consts k).
Proof. by destruct k; vm_compute. Qed.

Lemma wf_cmov k i c : wf c -> wf (cmov k i c).
Proof. intros Hc. assert (forall cond, wf (FCMOVcc cond i c)) as H by (intros cond; unfold FCMOVcc; destruct (cond c); auto with fpu). destruct k; apply H. Qed.

Lemma abs_range f : in_range f -> in_range (f80_abs f).
Proof. by destruct f. Qed.

Lemma arith_reg_ok o s d c : wf c -> ok (arith_reg o s d c).
Proof. intros Hc. destruct o; (apply arith_ok; [done | auto with fpu | auto with fpu | done]). Qed.

Lemma arith_int_ok o x c : wf c -> - 2 ^ 31 <= x < 2 ^ 31 -> ok (arith_int o x c).
Proof.
  intros Hc Hx. assert (forall f : float80 -> option cpu, (forall y, in_range y -> ok (f y)) -> ok (y ← f80_from_int x; f y)) as H by (intros f Hf; destruct (int_good x ltac:(lia)) as (y & -> & [Ry _]); by apply Hf).
  destruct o; (apply H; intros y Ry; apply arith_ok; [done | auto with fpu | auto with fpu | done]).
Qed.

Lemma arith_m32_ok o b c : wf c -> 0 <= b < 2 ^ 32 -> ok (arith_m32 o b c).
Proof. intros Hc Hb. pose proof (float_total b Hb) as Ht. destruct o; (apply arithm_ok; [exact Hc | exact Ht | intros E; first [discriminate E | reflexivity]]). Qed.

Lemma arith_m64_ok o b c : wf c -> 0 <= b < 2 ^ 64 -> ok (arith_m64 o b c).
Proof. intros Hc Hb. pose proof (double_total b Hb) as Ht. destruct o; (apply arithm_ok; [exact Hc | exact Ht | intros E; first [discriminate E | reflexivity]]). Qed.

(** Instructions that only move things about. *)
Definition moves (i : insn) (c : cpu) : option cpu :=
  match i with
  | Enter => Some (fpu_sync_control c) | Pop => Some (fpu_pop c) | Xch i => Some (fpu_xch i c) | Incstp => Some (fpu_incstp c) | Decstp => Some (fpu_decstp c)
  | Ld i => Some (fpu_ld i c) | Ldc k => Some (fpu_ldc k c) | Ldm80 l => Some (fpu_ldm80 l c) | St i => Some (fpu_st i c) | Cmov k i => Some (cmov k i c)
  | Abs => Some (fpu_abs c) | Chs => Some (fpu_chs c) | Xam => Some (fpu_xam c)
  | Ldcw x => Some (fpu_ldcw16 x c) | Ldenv v => Some (fpu_ldenv32 v c) | Restore s => Some (fpu_restore32 s c) | Fxrstor n a => Some (fxsave_restore n a c)
  | Init => Some (fpu_init c) | Clex => Some (fpu_clex c)
  | _ => None
  end.

Lemma moves_wf i c c' : operands_ok i -> wf c -> moves i c = Some c' -> wf c'.
Proof.
  intros Hi Hc. pose proof (wf_length c Hc). pose proof (wf_regs c Hc). pose proof (wf_fsw c Hc). pose proof (wf_valid c Hc). destruct i; try discriminate; intros [= <-]; cbn [operands_ok] in Hi.
  - by apply wf_synced_control.
  - by apply wf_pop.
  - by apply wf_xch.
  - by apply wf_set_top.
  - by apply wf_set_top.
  - apply wf_push; [done | by apply ST_range].
  - apply wf_push; [done | apply const_range].
  - apply wf_push; [done | apply of_bytes_range].
  - apply wf_set_ST; [done | by apply ST_range].
  - by apply wf_cmov.
  - apply wf_set_ST; [done | by apply abs_range, ST_range].
  - apply wf_set_ST; [done | by apply neg_range, ST_range].
  - unfold fpu_xam. auto with fpu.
  - apply wf_sync; try done. apply u16_range.
  - by apply wf_ldenv.
  - by apply wf_restore.
  - by apply wf_fxrestore.
  - by apply wf_sync.
  - unfold fpu_clex. auto 12 with fpu.
Qed.

Lemma exec_ok L i c : libm_ok L -> operands_ok i -> wf c -> ok (exec L i c).
Proof.
  intros HL Hi Hc. pose proof (wf_width c Hc) as Hw. pose proof (wf_fsw c Hc) as Hf. destruct (moves i c) as [c' |] eqn:Em; [exists c'; split; [by destruct i | by apply (moves_wf i c)] |].
  destruct i; try discriminate Em; clear Em; cbn [exec operands_ok] in *.
  - by apply ild_ok.
  - by apply push_ok, float_total.
  - by apply push_ok, double_total.
  - by apply (fmap_ok _ c), ist_parts.
  - by apply (fmap_ok _ c), ist64_parts.
  - apply (fmap_ok _ c); [done |]. apply chopped_ok; [done | apply ist_parts].
  - apply (fmap_ok _ c); [done |]. apply chopped_ok; [done | apply ist64_parts].
  - apply (fmap_ok _ c); [done |]. apply store_parts; [done | done | apply to_float_total].
  - apply (fmap_ok _ c); [done |]. apply store_parts; [done | done | apply to_double_total].
  - by apply remainder_ok.
  - by apply remainder_ok.
  - apply into_ok; [done |]. apply yields_total. intros e _. apply fscale_good; by apply ST_range.
  - by apply rndint_ok.
  - by apply sqrt_ok.
  - exact (log_ok f80_log2 c log2_good Hc).
  - exact (log_ok f80_log2p1 c log2p1_good Hc).
  - by apply f2xm1_ok.
  - by apply xtract_ok.
  - apply compare_ok; [by apply wf_compare_invalid | by apply ST_range].
  - apply compare_ok; [by apply wf_compare_invalid | by apply ST_range].
  - apply comparei_ok; [by apply wf_compare_invalid | by apply ST_range].
  - apply comparei_ok; [by apply wf_compare_invalid | by apply ST_range].
  - by apply comm_ok, float_total.
  - by apply comm_ok, double_total.
  - unfold fpu_icom. destruct (int_good i ltac:(lia)) as (x & -> & [Rx _]). by apply compare_ok.
  - apply compare_ok; [by apply wf_compare_invalid | apply const_range].
  - by apply arith_reg_ok.
  - by apply arith_int_ok.
  - by apply arith_m32_ok.
  - by apply arith_m64_ok.
  - by apply patan_ok.
  - destruct HL as (_ & _ & Hsin & _). exact (trig_ok (m_sin L) (fun c => c) c Hc Hsin (fun c H => H)).
  - destruct HL as (_ & _ & _ & Hcos & _). exact (trig_ok (m_cos L) (fun c => c) c Hc Hcos (fun c H => H)).
  - destruct HL as (_ & _ & _ & _ & Htan). apply (trig_ok (m_tan L) (fpu_push (fpu_consts fconst_one)) c Hc Htan). intros c' H'. apply wf_push; [done | apply const_range].
  - by apply sincos_ok.
Qed.

(** C30: any sequence of x87 helpers, with memory operands of their width and a
    library that returns doubles, runs to the end from a well-formed state: no
    assertion fails, nothing undefined is computed, the registers hold 80-bit
    numbers, the words keep their width, and float80's rounding mode and
    precision are those of the control word. *)
Theorem fpu_run_wf L l c : libm_ok L -> Forall operands_ok l -> wf c -> exists c', run L l c = Some c' /\ wf c'.
Proof.
  intros HL Hl. revert c. induction Hl as [| i l Hi Hl IH]; intros c Hc; cbn [run]; [by exists c |]. destruct (exec_ok L i c HL Hi Hc) as (c1 & -> & H1). by apply IH.
Qed.

Lemma cpu0_wf : wf cpu0.
Proof. apply wf_sync; cbn [fp fsw x87_valid fcw set_x87_valid set_fsw set_fcw]; [done | | lia | lia | lia]. apply Forall_replicate. by vm_compute. Qed.

(** FLD1, FILD -2, FSQRT, FYL2XP1, FPREM from the state after FNINIT. *)
Lemma fpu_run_wf_witness :
  let L := mk_libm (fun _ => 0) (fun _ _ => 0) (fun _ => 0) (fun _ => 0) (fun _ => 0) in
  exists c', run L [Ldc fconst_one; Ild (-2); Sqrt; Yl2xp1; Ldm32 0x00000001; Prem] cpu0 = Some c' /\ wf c'.
Proof.
  apply fpu_run_wf.
  - repeat split; simpl; lia.
  - repeat constructor; simpl; lia.
  - exact cpu0_wf.
Defined.
