(* ===== verification/FpuState.v ===== *)
(** What the x87 helpers do to the state a program sees.

    [fpu_fast_invisible]: the fast paths of the arithmetic leave what the
    general operations leave.  [fpu_com_codes]: the condition codes of a
    comparison.  [fpu_stack]: pushes and pops.  [fpu_save_roundtrip]: the saved
    areas of FXSAVE and FNSAVE and the tag word hold the state, save what
    FNSAVE's area drops ([fnsave_forgets_tags]). *)

From Stdlib Require Import ZifyBool.
From S2P Require Import Prelude Rounding Float80 Float80Sound Float80Arith Float80Fast Float80Cmp Float80Conv Float80Ieee Float80Rem Float80Log Fpu FpuSound.

(** ** Fast paths *)

Definition kind_of (o : aop) : arith * bool * bool :=
  match o with OAdd => (Add, false, false) | OSub => (Add, true, false) | OSubr => (Add, true, true) | OMul => (Mul, false, false) | ODiv => (Div, false, false) | ODivr => (Div, false, true) end.

(** The arithmetic without its fast path: the general operation of float80.c
    between FPU_BEGIN and FPU_END, into register [dst]. *)
Definition slow (o : aop) (a b : float80) (dst : Z) (c : cpu) : option cpu :=
  let '(op, sub, rev) := kind_of o in
  into dst (if rev then f80_op op sub b a else f80_op op sub a b) c.

(** The fast paths do not show: every addition, subtraction, multiplication
    and division of registers, and of a register and an integer, leaves the
    registers, the status word and everything else as the general operation
    does, in every well-formed state; only float80's own flags, which the next
    operation clears, may differ. *)
Theorem fpu_fast_invisible o c : wf c ->
  (forall src dst, exists c2 e', slow o (ST dst c) (ST src c) dst c = Some c2 /\ arith_reg o src dst c = Some (set_env c2 e') /\ same_mode (env c) e') /\
  (forall i, - 2 ^ 31 <= i < 2 ^ 31 -> exists x c2 e', f80_from_int i = Some x /\ slow o (ST 0 c) x 0 c = Some c2 /\ arith_int o i c = Some (set_env c2 e') /\ same_mode (env c) e').
Proof.
  intros Hc. assert (forall op s a b dst, in_range a -> in_range b -> (s = true -> op = Add) -> exists c2 e', into dst (f80_op op s a b) c = Some c2 /\ fpu_arith op s a b dst c = Some (set_env c2 e') /\ same_mode (env c) e') as H.
  { intros op s a b dst Ra Rb Hs. destruct (arith_general op s a b dst c Hc Ra Rb Hs) as (c2 & e' & E1 & _ & M & E2). by exists c2, e'. }
  split.
  - intros src dst. pose proof (ST_range src c Hc) as R1. pose proof (ST_range dst c Hc) as R2. destruct o; (apply H; [done | done | intros E; first [discriminate E | reflexivity]]).
  - intros i Hi. destruct (int_good i ltac:(lia)) as (x & Ex & [Rx _]). pose proof (ST_range 0 c Hc) as R0. exists x.
    assert (exists c2 e', slow o (ST 0 c) x 0 c = Some c2 /\ (x ← f80_from_int i; match kind_of o with (op, sub, rev) => if rev then fpu_arith op sub x (ST 0 c) 0 c else fpu_arith op sub (ST 0 c) x 0 c end) = Some (set_env c2 e') /\ same_mode (env c) e') as (c2 & e' & E1 & E2 & M).
    { rewrite Ex. cbn [mbind option_bind]. destruct o; (apply H; [done | done | intros E; first [discriminate E | reflexivity]]). }
    exists c2, e'. split; [done |]. split; [done |]. split; [| done]. rewrite <- E2. by destruct o.
Qed.

Lemma fpu_fast_invisible_witness : exists c2 e', slow ODiv (ST 0 cpu0) (ST 1 cpu0) 0 cpu0 = Some c2 /\ arith_reg ODiv 1 0 cpu0 = Some (set_env c2 e') /\ same_mode (env cpu0) e'.
Proof. apply (proj1 (fpu_fast_invisible ODiv cpu0 cpu0_wf)). Defined.

(** A float operand is widened before the fast path sees it: the smallest float
    denormal is a normal number of 80 bits, the fast path takes it, and the
    denormal-operand flag the load raised is lost.  The general path keeps it. *)
Example denormal_operand_lost : let c := fpu_ldc fconst_one cpu0 in
  (fsw <$> fpu_mulm32 1 c) = Some 0x3800 /\
  (fsw <$> into 0 (fun e => '(x, e) ← f80_from_float 1 e; Some (f80_mul (ST 0 c) x e)) c) = Some 0x3802.
Proof. vm_compute. split; reflexivity. Qed.

(** FRNDINT of a signalling NaN neither quiets it nor raises IE, though
    f80_round would do both: the helper returns before calling it. *)
Example rndint_snan_ignored : let c := fpu_push (mk_f 0xa000000000000000 0x7fff false) cpu0 in
  fpu_rndint c = Some c /\ f80_round (ST 0 c) default_env = Some (mk_f 0xe000000000000000 0x7fff false, raise default_env F80_EXC_INVALID).
Proof. vm_compute. split; reflexivity. Qed.

(** ** Condition codes *)

Definition bit (i : Z) (c : cpu) : bool := Z.testbit (fsw c) i.

Lemma bit_set i b c j : 0 <= i -> 0 <= j -> bit j (set_bit i b c) = if j =? i then b else bit j c.
Proof.
  intros Hi Hj. unfold bit, set_bit. cbn [fsw set_fsw]. rewrite put_bits by lia. destruct (Z.eqb_spec j i) as [-> | Hn].
  - rewrite (proj2 (Z.leb_le i i)), (proj2 (Z.ltb_lt i (i + 1))) by lia. cbn [andb]. rewrite Z.sub_diag. by destruct b.
  - destruct (Z.leb_spec i j), (Z.ltb_spec j (i + 1)); try done; lia.
Qed.

Lemma ST_set_bit i b c k : i < 11 \/ 13 < i -> 0 <= i -> ST k (set_bit i b c) = ST k c.
Proof. intros Hi H0. unfold ST, slot, top, set_bit. cbn [fp fsw set_fsw]. by rewrite field_put_other by lia. Qed.

(** Whether a comparison is an invalid operation. *)
Definition cmp_invalid (a b : float80) (quiet : bool) : bool :=
  negb (f80_is_supported a) || negb (f80_is_supported b) || f80_issnan a || f80_issnan b || (negb quiet && (f80_isnan a || f80_isnan b)).

Lemma compare_codes x c : wf c -> precision (env c) = 64 -> in_range x ->
  exists c', fpu_compare x c = Some c' /\ fp c' = fp c /\
    (bit C3 c', bit C2 c', bit C0 c', bit C1 c') = (if f80_uncomparable (ST 0 c) x then (true, true, true, false) else (xval (ST 0 c) =? xval x, false, xval (ST 0 c) <? xval x, false)) /\
    (forall j, 0 <= j < 8 -> bit j c' = bit j c).
Proof.
  intros Hc Hp Rx. unfold fpu_compare. set (c1 := set_bit C1 false (set_bit C2 false c)). assert (ST 0 c1 = ST 0 c) as E0 by (unfold c1; rewrite !ST_set_bit by (unfold C1, C2; lia); done). unfold lift. cbn [env c1 set_bit set_fsw]. rewrite E0. pose proof (ST_range 0 c Hc) as R0.
  assert (exists lt e', f80_lt (ST 0 c) x (env c) = Some (lt, e') /\ (f80_uncomparable (ST 0 c) x = false -> lt = (xval (ST 0 c) <? xval x) /\ f80_eq (ST 0 c) x = (xval (ST 0 c) =? xval x))) as (lt & e' & -> & Hlt).
  { destruct (f80_uncomparable (ST 0 c) x) eqn:Eu; [unfold f80_lt; rewrite Eu; by eexists _, _ |]. unfold f80_uncomparable in Eu. rewrite !orb_false_iff, !negb_false_iff in Eu. destruct Eu as (((Sa & Sb) & Na) & Nb). assert (ordered (ST 0 c) /\ ordered x) as [Oa Ob] by done.
    destruct (lt_ordered (ST 0 c) x (env c) Hp Oa Ob) as (e' & -> & _). eexists _, _. split; [done |]. intros _. split; [done | by apply eq_correct]. }
  cbn [mbind option_bind]. set (c2 := set_env c1 e'). assert (forall k b c', ST k (set_bit C0 b c') = ST k c') as EC0 by (intros; apply ST_set_bit; unfold C0; lia). assert (forall k b c', ST k (set_bit C3 b c') = ST k c') as EC3 by (intros; apply ST_set_bit; unfold C3; lia). rewrite EC3, EC0. change (ST 0 c2) with (ST 0 c1). rewrite E0.
  assert (forall j, 0 <= j < 8 -> bit j c2 = bit j c) as Hb2 by (intros j Hj; change (bit j c2) with (bit j c1); unfold c1; rewrite !bit_set by (unfold C1, C2; lia); destruct (Z.eqb_spec j C1), (Z.eqb_spec j C2); unfold C1, C2 in *; lia || done).
  assert (bit C1 c2 = false /\ bit C2 c2 = false) as [B1 B2] by (split; [change (bit C1 c2) with (bit C1 c1) | change (bit C2 c2) with (bit C2 c1)]; unfold c1; by rewrite !bit_set by (unfold C1, C2; lia)).
  destruct (f80_uncomparable (ST 0 c) x).
  - eexists. split; [done |]. split; [done |]. split; [rewrite !bit_set by (unfold C0, C1, C2, C3; lia); unfold C0, C1, C2, C3 in *; cbn [Z.eqb Pos.eqb]; by rewrite B1 |]. intros j Hj. rewrite !bit_set by (unfold C0, C2, C3; lia). rewrite !(proj2 (Z.eqb_neq j _)) by (unfold C0, C2, C3; lia). by apply Hb2.
  - destruct (Hlt eq_refl) as [-> ->]. eexists. split; [done |]. split; [done |]. split; [rewrite !bit_set by (unfold C0, C1, C2, C3; lia); unfold C0, C1, C2, C3 in *; cbn [Z.eqb Pos.eqb]; by rewrite B1, B2 |]. intros j Hj. rewrite !bit_set by (unfold C0, C3; lia). rewrite !(proj2 (Z.eqb_neq j _)) by (unfold C0, C3; lia). by apply Hb2.
Qed.

(** With the precision control at 64 bits FCOM and FUCOM set C3, C2 and C0
    to the order of the two registers' values, or all three when there is none,
    clear C1, raise IE exactly for an invalid comparison (any NaN for FCOM, a
    signalling one for FUCOM), and change no register and no other flag. *)
Theorem fpu_com_codes i (quiet : bool) c : wf c -> precision (env c) = 64 ->
  let a := ST 0 c in let b := ST i c in
  exists c', (if quiet then fpu_ucom i c else fpu_com i c) = Some c' /\ fp c' = fp c /\
    (bit C3 c', bit C2 c', bit C0 c', bit C1 c') = (if f80_uncomparable a b then (true, true, true, false) else (xval a =? xval b, false, xval a <? xval b, false)) /\
    bit IE c' = bit IE c || cmp_invalid a b quiet /\ (forall j, 0 < j < 8 -> bit j c' = bit j c).
Proof.
  intros Hc Hp a b. assert ((if quiet then fpu_ucom i c else fpu_com i c) = fpu_compare b (fpu_compare_invalid a b quiet c)) as -> by (by destruct quiet). pose proof (wf_compare_invalid a b quiet c Hc) as H1. unfold fpu_compare_invalid in *. fold (cmp_invalid a b quiet) in *.
  assert (exists c1, (if cmp_invalid a b quiet then set_bit IE true c else c) = c1 /\ ST 0 c1 = a /\ fp c1 = fp c /\ precision (env c1) = 64 /\ forall j, 0 <= j < 8 -> bit j c1 = if j =? IE then bit IE c || cmp_invalid a b quiet else bit j c) as (c1 & E1 & E2 & E3 & E4 & E5).
  { eexists. split; [done |]. destruct (cmp_invalid a b quiet); [split; [apply ST_set_bit; unfold IE; lia |]; split; [done |]; split; [done |]; intros j Hj; rewrite bit_set by (unfold IE; lia); by rewrite orb_true_r | split; [done |]; split; [done |]; split; [done |]; intros j _; destruct (Z.eqb_spec j IE) as [-> | _]; by rewrite ?orb_false_r]. }
  rewrite E1 in *. destruct (compare_codes b c1 H1 E4 (ST_range i c Hc)) as (c' & -> & F1 & F2 & F3). rewrite E2 in F2. exists c'. split; [done |]. split; [congruence |]. split; [done |]. split; [rewrite (F3 IE), (E5 IE) by (unfold IE; lia); done |]. intros j Hj. rewrite F3, E5 by lia. by rewrite (proj2 (Z.eqb_neq j IE)) by (unfold IE; lia).
Qed.

Lemma fpu_com_codes_witness : let c := fpu_ldc fconst_pi (fpu_ldc fconst_one cpu0) in
  exists c', fpu_com 1 c = Some c' /\ fp c' = fp c /\
    (bit C3 c', bit C2 c', bit C0 c', bit C1 c') = (if f80_uncomparable (ST 0 c) (ST 1 c) then (true, true, true, false) else (xval (ST 0 c) =? xval (ST 1 c), false, xval (ST 0 c) <? xval (ST 1 c), false)) /\
    bit IE c' = bit IE c || cmp_invalid (ST 0 c) (ST 1 c) false /\ (forall j, 0 < j < 8 -> bit j c' = bit j c).
Proof.
  intros c. apply (fpu_com_codes 1 false c).
  - apply wf_push; [apply wf_push; [exact cpu0_wf | apply const_range] | apply const_range].
  - reflexivity.
Defined.

(** ** The stack *)

Lemma top_set_top c x : top (set_top c x) = x mod 8.
Proof. unfold top, set_top. cbn [fsw set_fsw]. by rewrite field_put by lia. Qed.

Lemma ST_set_ST i j f c : length (fp c) = 8%nat -> ST j (set_ST i f c) = if (top c + j) mod 8 =? (top c + i) mod 8 then f else ST j c.
Proof.
  intros Hl. unfold ST. change (slot j (set_ST i f c)) with (slot j c). cbn [fp set_ST set_fp]. pose proof (slot_lt i c) as Hi. rewrite !nth_lookup. destruct (Z.eqb_spec ((top c + j) mod 8) ((top c + i) mod 8)) as [E | E].
  - assert (slot j c = slot i c) as -> by (unfold slot; by rewrite E). by rewrite list_lookup_insert_eq by lia.
  - assert (slot i c <> slot j c) by (unfold slot; pose proof (Z.mod_pos_bound (top c + j) 8); pose proof (Z.mod_pos_bound (top c + i) 8); lia). by rewrite list_lookup_insert_ne by done.
Qed.

Lemma push_parts f c : let c' := fpu_push f c in top c' = (top c - 1) mod 8 /\ fp c' = <[Z.to_nat ((top c - 1) mod 8) := f]> (fp c) /\ x87_valid c' = Z.lor (x87_valid c) (Z.shiftl 1 ((top c - 1) mod 8)).
Proof.
  cbv zeta. unfold fpu_push. set (c1 := set_top c (top c - 1)). assert (top c1 = (top c - 1) mod 8) as Et by apply top_set_top. change (top (set_ST 0 f c1)) with (top c1). split; [exact Et |]. cbn [fp x87_valid set_x87_valid set_ST set_fp]. split; [| by rewrite Et].
  unfold slot. rewrite Et, Z.add_0_r, Z.mod_mod by lia. done.
Qed.

(** A push makes its value ST(0) and moves the other registers down one,
    FXCH swaps two registers and twice is nothing, and a pop after a push gives
    back the stack as it was, the slot the value was in marked empty. *)
Theorem fpu_stack f c : wf c ->
  (let c' := fpu_push f c in ST 0 c' = f /\ (forall i, 0 <= i < 7 -> ST (i + 1) c' = ST i c) /\ Z.testbit (x87_valid c') (top c') = true) /\
  (let c' := fpu_pop (fpu_push f c) in top c' = top c /\ (forall i, 0 <= i < 7 -> ST i c' = ST i c) /\ Z.testbit (x87_valid c') ((top c - 1) mod 8) = false) /\
  (forall i, let c' := fpu_xch i c in ST 0 c' = ST i c /\ ST i c' = ST 0 c /\ fp (fpu_xch i c') = fp c).
Proof.
  intros Hc. pose proof (wf_length c Hc) as Hl. pose proof (top_range c) as Ht. assert (forall i j, 0 <= i < 8 -> 0 <= j < 8 -> i <> j -> (top c + i) mod 8 <> (top c + j) mod 8) as Hne.
  { intros i j Hi Hj Hij E. pose proof (Z.div_mod (top c + i) 8 ltac:(lia)). pose proof (Z.div_mod (top c + j) 8 ltac:(lia)). lia. }
  assert (forall i, 0 <= i < 7 -> (top c + i) mod 8 <> (top c - 1) mod 8) as Hlast by (intros i Hi; replace ((top c - 1) mod 8) with ((top c + 7) mod 8) by (rewrite <- (Z.mod_add (top c - 1) 1 8) by lia; f_equal; lia); apply Hne; lia).
  pose proof (Z.mod_pos_bound (top c - 1) 8 ltac:(lia)) as Hm. destruct (push_parts f c) as (P1 & P2 & P3). cbv zeta in P1, P2, P3. split; [| split].
  - cbv zeta. unfold ST, slot. rewrite P1, P2, P3. split; [| split].
    + rewrite Z.add_0_r, Z.mod_mod, nth_lookup, list_lookup_insert_eq by lia. done.
    + intros i Hi. replace (((top c - 1) mod 8 + (i + 1)) mod 8) with ((top c + i) mod 8) by (rewrite Z.add_mod_idemp_l by lia; f_equal; lia). rewrite !nth_lookup, list_lookup_insert_ne; [done |]. specialize (Hlast i Hi). pose proof (Z.mod_pos_bound (top c + i) 8). lia.
    + rewrite Z.lor_spec, Z.shiftl_spec, Z.sub_diag by lia. apply orb_true_r.
  - cbv zeta. unfold fpu_pop. set (c1 := fpu_push f c) in *. set (c2 := set_x87_valid c1 _). change (top c2) with (top c1). assert (top (set_top c2 (top c1 + 1)) = top c) as Et by (rewrite top_set_top, P1, Z.add_mod_idemp_l by lia; replace (top c - 1 + 1) with (top c) by lia; by apply Z.mod_small). split; [exact Et |]. split.
    + intros i Hi. unfold ST, slot. rewrite Et. change (fp (set_top c2 (top c1 + 1))) with (fp c1). rewrite P2, !nth_lookup, list_lookup_insert_ne; [done |]. specialize (Hlast i Hi). pose proof (Z.mod_pos_bound (top c + i) 8). lia.
    + change (x87_valid (set_top c2 (top c1 + 1))) with (Z.ldiff (x87_valid c1) (Z.shiftl 1 (top c1))). rewrite P1, Z.ldiff_spec, Z.shiftl_spec, Z.sub_diag by lia. apply andb_false_r.
  - intros i. cbv zeta. assert (forall c, wf c -> ST 0 (fpu_xch i c) = ST i c /\ ST i (fpu_xch i c) = ST 0 c) as Hx.
    { intros c0 H0. pose proof (wf_length c0 H0) as L0. unfold fpu_xch. set (c1 := set_ST 0 (ST i c0) c0). assert (length (fp c1) = 8%nat) as L1 by (unfold c1; cbn [fp set_ST set_fp]; by rewrite length_insert). rewrite !(ST_set_ST i _ _ c1) by done. change (top c1) with (top c0). rewrite Z.eqb_refl. split; [| done].
      destruct (Z.eqb_spec ((top c0 + 0) mod 8) ((top c0 + i) mod 8)) as [E | E]; [unfold ST, slot; by rewrite E |]. unfold c1. rewrite ST_set_ST by done. by rewrite Z.eqb_refl. }
    destruct (Hx c Hc) as [E1 E2]. split; [done |]. split; [done |]. unfold fpu_xch at 1. rewrite E1, E2. cbn [fp set_ST set_fp]. change (slot i (set_ST 0 (ST 0 c) (fpu_xch i c))) with (slot i c). change (slot 0 (fpu_xch i c)) with (slot 0 c). unfold fpu_xch. cbn [fp set_ST set_fp]. change (slot i (set_ST 0 (ST i c) c)) with (slot i c).
    apply list_eq. intros k. assert (forall j, fp c !! slot j c = Some (ST j c)) as Hj by (intros j; pose proof (slot_lt j c) as Hs; destruct (lookup_lt_is_Some_2 (fp c) (slot j c) ltac:(lia)) as [g Hg]; rewrite Hg; unfold ST; by rewrite (nth_lookup_Some _ _ _ _ Hg)).
    pose proof (slot_lt 0 c). pose proof (slot_lt i c). destruct (decide (slot i c = k)) as [<- | N1]; [rewrite list_lookup_insert_eq by (rewrite !length_insert; lia); by rewrite Hj |]. rewrite list_lookup_insert_ne by done. destruct (decide (slot 0 c = k)) as [<- | N2]; [rewrite list_lookup_insert_eq by (rewrite !length_insert; lia); by rewrite Hj |]. by rewrite !list_lookup_insert_ne by done.
Qed.

Lemma fpu_stack_witness : let c' := fpu_pop (fpu_push F80_INF cpu0) in top c' = top cpu0 /\ (forall i, 0 <= i < 7 -> ST i c' = ST i cpu0) /\ Z.testbit (x87_valid c') ((top cpu0 - 1) mod 8) = false.
Proof. apply (fpu_stack F80_INF cpu0 cpu0_wf). Defined.

(** ** Saved areas *)

Lemma signExp_parts f : in_range f -> 0 <= signExp f < 2 ^ 16 /\ Z.land (signExp f) 0x7fff = exp f /\ Z.testbit (signExp f) 15 = sign f.
Proof.
  intros [_ He]. unfold signExp. rewrite Z.shiftl_mul_pow2 by lia. rewrite Z.add_comm, <- lor_disjoint by lia. assert (0 <= Z.b2z (sign f) <= 1) as Hb by (destruct (sign f); simpl; lia). split; [rewrite lor_disjoint by lia; lia |]. split.
  - change 0x7fff with (2 ^ 15 - 1). rewrite lor_disjoint, land_low by lia. rewrite Z.add_comm, Z.mod_add by lia. apply Z.mod_small. done.
  - rewrite Z.lor_spec, (high_bits (exp f) 15) by lia. rewrite <- Z.shiftl_mul_pow2, Z.shiftl_spec, orb_false_r by lia. by destruct (sign f).
Qed.

Lemma with_signExp_same f : in_range f -> with_signExp (signif f) (signExp f) = f.
Proof. intros Hf. destruct (signExp_parts f Hf) as (_ & E1 & E2). unfold with_signExp. rewrite E1, E2. by destruct f. Qed.

Lemma words_same s : 0 <= s < 2 ^ 64 -> foldl (fun acc j => Z.lor acc (Z.shiftl (nth (Z.to_nat j) (map (fun j => u16 (Z.shiftr s (16 * j))) (seqZ 0 4)) 0) (16 * j))) 0 (seqZ 0 4) = s.
Proof.
  intros Hs. change (seqZ 0 4) with [0; 1; 2; 3]. cbn [map foldl]. change (Z.to_nat 0) with 0%nat. change (Z.to_nat 1) with 1%nat. change (Z.to_nat 2) with 2%nat. change (Z.to_nat 3) with 3%nat. cbn [nth]. rewrite Z.lor_0_l. apply Z.bits_inj'. intros m Hm.
  assert (forall j, 0 <= j -> Z.testbit (Z.shiftl (u16 (Z.shiftr s (16 * j))) (16 * j)) m = (16 * j <=? m) && (m <? 16 * j + 16) && Z.testbit s m) as Hw.
  { intros j Hj. rewrite Z.shiftl_spec by done. unfold u16, wrap. rewrite Z.testbit_mod_pow2 by lia. destruct (Z.leb_spec (16 * j) m) as [H1 | H1]; [| by rewrite Z.testbit_neg_r, andb_false_r by lia]. rewrite Z.shiftr_spec by lia. replace (m - 16 * j + 16 * j) with m by lia. cbn [andb]. f_equal. lia. }
  rewrite !Z.lor_spec, !Hw by lia. destruct (Z.testbit s m) eqn:Eb; [| by rewrite !andb_false_r]. assert (m < 64) by (destruct (Z.lt_ge_cases m 64) as [| Hge]; [done |]; by rewrite (high_bits s 64 m Hs Hge) in Eb). lia.
Qed.

Lemma fpxreg_same f : in_range f -> of_fpxreg (fpxreg f) = f.
Proof. intros Hf. unfold of_fpxreg, fpxreg. cbn [fst snd]. rewrite words_same by apply Hf. by apply with_signExp_same. Qed.

(** Little-endian bytes. *)
Lemma bytes_same n : forall x k, 0 <= x -> 0 <= k -> foldr (fun b acc => b + Z.shiftl acc 8) 0 (map (fun i => Z.land (Z.shiftr x (8 * i)) 0xff) (seqZ k (Z.of_nat n))) = (x / 2 ^ (8 * k)) mod 2 ^ (8 * Z.of_nat n).
Proof.
  induction n as [| n IH]; intros x k Hx Hk; [change (seqZ k (Z.of_nat 0)) with (@nil Z); cbn [map foldr]; by rewrite Z.mod_1_r |]. rewrite seqZ_cons by lia. replace (Z.pred (Z.of_nat (S n))) with (Z.of_nat n) by lia. cbn [map foldr]. rewrite <- Z.add_1_r, IH by lia.
  rewrite Z.shiftl_mul_pow2, Z.shiftr_div_pow2 by lia. change 0xff with (2 ^ 8 - 1). rewrite land_low by lia. replace (8 * (k + 1)) with (8 * k + 8) by lia. rewrite Z.pow_add_r, <- Z.div_div by (lia || (pose proof (pow2_pos (8 * k)); lia)).
  replace (8 * Z.of_nat (S n)) with (8 + 8 * Z.of_nat n) by lia. rewrite (Z.pow_add_r 2 8) by lia. pose proof (pow2_pos (8 * Z.of_nat n) ltac:(lia)). rewrite Z.rem_mul_r by lia. lia.
Qed.

Lemma f80_bytes_same f : in_range f -> f80_of_bytes (f80_bytes f) = f.
Proof.
  intros Hf. destruct (signExp_parts f Hf) as (He & _). unfold f80_of_bytes, f80_bytes. pose proof Hf as (Hs & _). rewrite Z.shiftl_mul_pow2 by lia. rewrite (bytes_same 10) by lia. change (2 ^ (8 * 0)) with 1. rewrite Z.div_1_r, Z.mod_small by lia.
  rewrite Z.land_ones, Z.shiftr_div_pow2, Z.mod_add, Z.div_add, Z.mod_small, Z.div_small, Z.add_0_l by lia. by apply with_signExp_same.
Qed.

(** Writing the eight registers in stack order, from any old contents. *)
Lemma refill {A} (d : A) (t : Z) (new old : list A) : 0 <= t < 8 -> length new = 8%nat -> length old = 8%nat ->
  foldl (fun l i => <[Z.to_nat ((t + i) mod 8) := nth (Z.to_nat ((t + i) mod 8)) new d]> l) old (seqZ 0 8) = new.
Proof.
  intros Ht Hn Ho. do 9 (destruct new as [| ? new]; try discriminate Hn). do 9 (destruct old as [| ? old]; try discriminate Ho).
  assert (t = 0 \/ t = 1 \/ t = 2 \/ t = 3 \/ t = 4 \/ t = 5 \/ t = 6 \/ t = 7) as Hc by lia. repeat destruct Hc as [-> | Hc]; try subst t; reflexivity.
Qed.

Lemma foldl_fp {A} (g : cpu -> A -> cpu) (h : list float80 -> A -> list float80) (P : cpu -> Prop) l : (forall c x, P c -> P (g c x) /\ fp (g c x) = h (fp c) x) -> forall c, P c -> P (foldl g c l) /\ fp (foldl g c l) = foldl h (fp c) l.
Proof. intros H. induction l as [| x l IH]; intros c Hc; cbn [foldl]; [done |]. destruct (H c x Hc) as [P1 E1]. rewrite <- E1. by apply IH. Qed.

Lemma foldl_ext_in {A B} (f g : A -> B -> A) l : (forall a b, In b l -> f a b = g a b) -> forall a, foldl f a l = foldl g a l.
Proof. induction l as [| b l IH]; intros H a; cbn [foldl]; [done |]. rewrite (H a b) by (by left). apply IH. intros a' b' Hb. apply H. by right. Qed.

Lemma nth_map_seqZ {A} (g : Z -> A) d i : 0 <= i < 8 -> nth (Z.to_nat i) (map g (seqZ 0 8)) d = g i.
Proof. intros Hi. assert (i = 0 \/ i = 1 \/ i = 2 \/ i = 3 \/ i = 4 \/ i = 5 \/ i = 6 \/ i = 7) as Hc by lia. repeat destruct Hc as [-> | Hc]; try subst i; reflexivity. Qed.

Lemma nth_range c i : wf c -> in_range (nth i (fp c) F80_ZERO).
Proof. intros Hc. destruct (nth_in_or_default i (fp c) F80_ZERO) as [Hin | ->]; [| by vm_compute]. pose proof (wf_regs c Hc) as H. rewrite Forall_forall in H. apply H. by apply list_elem_of_In. Qed.

Lemma in_seqZ8 i : In i (seqZ 0 8) -> 0 <= i < 8.
Proof. change (seqZ 0 8) with [0; 1; 2; 3; 4; 5; 6; 7]. simpl. lia. Qed.

(** Only the registers differ. *)
Definition but_fp (c1 c : cpu) : Prop := c = set_fp c1 (fp c).

Lemma fxsave_same n c c' : wf c -> wf c' -> let r := fxsave_restore n (fxsave_fill n c) c' in
  fp r = fp c /\ fsw r = fsw c /\ x87_valid r = x87_valid c /\ fcw r = fcw c /\ mxcsr r = mxcsr c /\ env r = env (fpu_ldcw16 (fcw c) c') /\ ((n <= 16)%nat -> length (xmm c) = 16%nat -> xmm r = take n (xmm c) ++ drop n (xmm c')).
Proof.
  intros Hc Hc'. cbv zeta. unfold fxsave_restore, fxsave_fill. cbn [a_fcw a_fsw a_ftw a_mxcsr a_st a_xmm]. set (c1 := set_mxcsr _ _). set (st := map _ (seqZ 0 8)). set (g := fun (x : cpu) (i : Z) => set_fp x _).
  destruct (foldl_fp g (fun l i => <[Z.to_nat (Z.land (top c1 + i) 7) := of_fpxreg (nth (Z.to_nat i) st ([], 0))]> l) (but_fp c1) (seqZ 0 8)) with (c := c1) as [HP HF].
  { intros x i Hx. unfold but_fp in Hx. rewrite Hx. done. }
  { by unfold but_fp, c1. }
  set (c2 := foldl g c1 (seqZ 0 8)) in *. unfold but_fp in HP. assert (fp c2 = fp c) as E.
  { rewrite HF, <- (refill F80_ZERO (top c) (fp c) (fp c1) (top_range c) (wf_length c Hc) (wf_length c' Hc')). apply foldl_ext_in. intros l i Hi%in_seqZ8. change (top c1) with (top c). change 7 with (2 ^ 3 - 1). rewrite land_low by lia. change (2 ^ 3) with 8. f_equal. unfold st. rewrite nth_map_seqZ by done. change 7 with (2 ^ 3 - 1). rewrite land_low by lia. apply fpxreg_same. by apply nth_range. }
  rewrite HP. cbn [fp fsw x87_valid fcw mxcsr env xmm set_xmm set_fp]. split; [exact E |]. split; [done |]. split; [done |]. split; [apply u16_small; apply Hc |]. split; [done |]. split; [done |]. intros Hn Hx. f_equal. rewrite take_app_le by (rewrite length_take; lia). by rewrite take_take, Nat.min_id.
Qed.

Lemma fnsave_same c c' : wf c -> wf c' -> let r := fpu_restore32 (fpu_save32 c) c' in fp r = fp c /\ fsw r = fsw c /\ fcw r = fcw c /\ x87_valid r = x87_valid c'.
Proof.
  intros Hc Hc'. cbv zeta. unfold fpu_restore32, fpu_save32. cbn [senv regs]. set (c1 := fpu_ldenv32 _ c'). assert (fsw c1 = fsw c) as E1 by (apply u16_small, Hc). assert (top c1 = top c) as Et by (unfold top; by rewrite E1). set (bs := map _ (seqZ 0 8)). set (g := fun (x : cpu) (i : Z) => set_ST i _ x).
  destruct (foldl_fp g (fun l i => <[Z.to_nat ((top c1 + i) mod 8) := f80_of_bytes (nth (Z.to_nat i) bs [])]> l) (but_fp c1) (seqZ 0 8)) with (c := c1) as [HP HF].
  { intros x i Hx. unfold but_fp in Hx. rewrite Hx. done. }
  { done. }
  set (c2 := foldl g c1 (seqZ 0 8)) in *. unfold but_fp in HP. assert (fp c2 = fp c) as E.
  { rewrite HF, <- (refill F80_ZERO (top c) (fp c) (fp c1) (top_range c) (wf_length c Hc) (wf_length c' Hc')). apply foldl_ext_in. intros l i Hi%in_seqZ8. rewrite Et. f_equal. unfold bs. rewrite nth_map_seqZ by done. apply f80_bytes_same. by apply nth_range. }
  rewrite HP. cbn [fp fsw x87_valid fcw set_fp]. split; [exact E |]. split; [exact E1 |]. split; [apply u16_small, Hc | done].
Qed.

(** ** The tag word *)

Lemma land_bit v i : 0 <= i -> (Z.land v (Z.shiftl 1 i) =? 0) = negb (Z.testbit v i).
Proof.
  intros Hi. destruct (Z.testbit v i) eqn:E; cbn [negb].
  - apply Z.eqb_neq. intros E0. apply (f_equal (fun x => Z.testbit x i)) in E0. rewrite Z.land_spec, E, Z.shiftl_spec, Z.sub_diag, Z.bits_0 in E0 by lia. done.
  - apply Z.eqb_eq, Z.bits_inj'. intros m Hm. rewrite Z.land_spec, Z.shiftl_spec, Z.bits_0 by done. destruct (decide (m = i)) as [-> | Hn]; [by rewrite E |]. destruct (Z.lt_ge_cases m i); [by rewrite (Z.testbit_neg_r 1) by lia; apply andb_false_r |]. rewrite (high_bits 1 1 (m - i)) by lia. apply andb_false_r.
Qed.

Lemma tag_parts c i : 0 <= i -> 0 <= x87_tag_of c i < 4 /\ negb (x87_tag_of c i =? 3) = Z.testbit (x87_valid c) i.
Proof. intros Hi. unfold x87_tag_of. rewrite land_bit by done. destruct (Z.testbit (x87_valid c) i); cbn [negb]; [| split; [lia | done]]. repeat case_match; (split; [lia | done]). Qed.

Lemma tag_append acc t i : 0 <= acc < 4 ^ i -> 0 <= t < 4 -> 0 <= i <= 7 -> Z.lor acc (u16 (Z.shiftl t (2 * i))) = acc + t * 4 ^ i.
Proof.
  intros Ha Ht Hi. change 4 with (2 ^ 2) in *. rewrite <- Z.pow_mul_r in * by lia. rewrite Z.shiftl_mul_pow2 by lia. assert (2 ^ (2 * i) <= 2 ^ 14) by (apply Z.pow_le_mono_r; lia). rewrite u16_small by (pose proof (pow2_pos (2 * i)); nia). rewrite Z.lor_comm, lor_disjoint by lia. lia.
Qed.

Lemma valid_same v : 0 <= v < 256 -> foldl (fun valid i => if Z.testbit v i then Z.lor valid (Z.shiftl 1 i) else valid) 0 (seqZ 0 8) = v.
Proof.
  intros Hv. assert (forallb (fun v => foldl (fun valid i => if Z.testbit v i then Z.lor valid (Z.shiftl 1 i) else valid) 0 (seqZ 0 8) =? v) (seqZ 0 256) = true) as H by (vm_compute; reflexivity).
  rewrite forallb_forall in H. apply Z.eqb_eq, H, list_elem_of_In, elem_of_seqZ. lia.
Qed.

Lemma full_tag_same c : 0 <= x87_valid c < 2 ^ 8 -> x87_valid_from_full_tag (x87_full_tag c) = x87_valid c.
Proof.
  intros Hv. transitivity (foldl (fun valid i => if Z.testbit (x87_valid c) i then Z.lor valid (Z.shiftl 1 i) else valid) 0 (seqZ 0 8)); [| by apply valid_same]. apply foldl_ext_in. intros valid i Hi%in_seqZ8. rewrite <- (proj2 (tag_parts c i ltac:(lia))).
  assert (Z.land (Z.shiftr (x87_full_tag c) (2 * i)) 3 = x87_tag_of c i) as ->; [| done].
  unfold x87_full_tag. change (seqZ 0 8) with [0; 1; 2; 3; 4; 5; 6; 7]. cbn [foldl]. assert (forall j, 0 <= j -> 0 <= x87_tag_of c j < 4) as Ht by (intros j Hj; by apply tag_parts).
  pose proof (Ht 0 ltac:(lia)). pose proof (Ht 1 ltac:(lia)). pose proof (Ht 2 ltac:(lia)). pose proof (Ht 3 ltac:(lia)). pose proof (Ht 4 ltac:(lia)). pose proof (Ht 5 ltac:(lia)). pose proof (Ht 6 ltac:(lia)). pose proof (Ht 7 ltac:(lia)).
  rewrite Z.lor_0_l. rewrite (u16_small (Z.shiftl (x87_tag_of c 0) (2 * 0))) by (rewrite Z.shiftl_mul_pow2; lia). rewrite Z.shiftl_mul_pow2 by lia. change (2 ^ (2 * 0)) with 1. rewrite Z.mul_1_r.
  rewrite (tag_append _ (x87_tag_of c 1) 1) by lia. change (4 ^ 1) with 4. rewrite (tag_append _ (x87_tag_of c 2) 2) by lia. change (4 ^ 2) with 16. rewrite (tag_append _ (x87_tag_of c 3) 3) by lia. change (4 ^ 3) with 64. rewrite (tag_append _ (x87_tag_of c 4) 4) by lia. change (4 ^ 4) with 256. rewrite (tag_append _ (x87_tag_of c 5) 5) by lia. change (4 ^ 5) with 1024. rewrite (tag_append _ (x87_tag_of c 6) 6) by lia. change (4 ^ 6) with 4096. rewrite (tag_append _ (x87_tag_of c 7) 7) by lia. change (4 ^ 7) with 16384. rewrite Z.shiftr_div_pow2 by lia. match goal with |- Z.land ?x 3 = _ => change (Z.land x 3) with (Z.land x (2 ^ 2 - 1)) end. rewrite land_low by lia.
  assert (i = 0 \/ i = 1 \/ i = 2 \/ i = 3 \/ i = 4 \/ i = 5 \/ i = 6 \/ i = 7) as Hc by lia. change (2 ^ 2) with 4.
  repeat destruct Hc as [-> | Hc]; try subst i; (match goal with |- (_ / ?d) mod _ = _ => let v := eval vm_compute in d in change d with v end; clear Ht; Z.to_euclidean_division_equations; lia).
Qed.



(** After FNINIT every register is empty, tags 11 each; FNSTENV stores zero, all
    valid, and FRSTOR does not look at it. *)
Example fnsave_forgets_tags : tag (fpu_stenv32 cpu0) = 0 /\ x87_full_tag cpu0 = 0xffff /\
  (let c := fpu_ldc fconst_one cpu0 in x87_valid (fpu_restore32 (fpu_save32 c) cpu0) = 0 /\ x87_valid c = 0x80).
Proof. vm_compute. repeat split; reflexivity. Qed.
