(* ===== verification/Pids.v ===== *)
(** * The pid table and pid namespaces (kernel/task.c, kernel/pid_ns.h)

    One table of pids for the machine: a slot holds the task of that number and
    the process groups and sessions that go by it.  A pid namespace gives the
    tasks in it, and in those below it, numbers of their own.  Tasks, thread
    groups, namespaces and terminals are objects at addresses; a use of an
    address that is not there, a NULL dereference and a failed assertion are
    [None].  Every operation here runs under pids_lock.

    A slot's two list heads start zeroed and are initialised when a task first
    takes the slot: a slot that is in the map has been.  The links of an
    intrusive list are the list of its members. *)

From S2P Require Import Prelude.

(** [1 << 15]. *)
Definition MAX_PID := 32768.
Definition PID_MAX_LIMIT := 4 * 1024 * 1024.
Definition PID_NS_MAX_LEVEL := 32.
Definition PID_NS_NO_PID := 0x7fffffff.

(** ** Objects *)

(** The fields of [struct task] these files use; [t_sighand]: it is not NULL. *)
Record task := mk_task {
  t_pid : Z; t_tgid : Z; t_group : Z; t_parent : option Z;
  t_pid_ns : option Z; t_pid_ns_for_children : option Z;
  t_zombie : bool; t_exiting : bool; t_did_exec : bool; t_sighand : bool }.

(** [struct tgroup]. *)
Record tgroup := mk_tgroup {
  g_leader : Z; g_sid : Z; g_pgid : Z; g_tty : option Z;
  g_threads : list Z; g_traced_zombies : Z; g_child_subreaper : bool }.

(** [struct pid]. *)
Record pid := mk_pid { p_task : option Z; p_session : list Z; p_pgroup : list Z; p_numbered : option Z }.

(** [struct pid_namespace]; the arrays hold 0 where the map has nothing. *)
Record pid_namespace := mk_ns {
  n_parent : option Z; n_level : Z; n_init_pid : Z; n_dead : bool;
  n_nr_of : gmap Z Z; n_by_nr : gmap Z Z; n_last_nr : Z }.

(** A terminal's session and foreground group, and whether it was hung up. *)
Record tty := mk_tty { y_session : Z; y_fg_group : Z; y_hung_up : bool; y_pseudo : bool }.

Record kernel := mk_kernel {
  k_pids : gmap Z pid; k_last_allocated_pid : Z; k_pid_max : Z;
  k_tasks : gmap Z task; k_groups : gmap Z tgroup; k_nss : gmap Z pid_namespace; k_ttys : gmap Z tty }.

Definition set_pids k x := mk_kernel x (k_last_allocated_pid k) (k_pid_max k) (k_tasks k) (k_groups k) (k_nss k) (k_ttys k).
Definition set_last_allocated_pid k x := mk_kernel (k_pids k) x (k_pid_max k) (k_tasks k) (k_groups k) (k_nss k) (k_ttys k).
Definition set_pid_max k x := mk_kernel (k_pids k) (k_last_allocated_pid k) x (k_tasks k) (k_groups k) (k_nss k) (k_ttys k).
Definition set_tasks k x := mk_kernel (k_pids k) (k_last_allocated_pid k) (k_pid_max k) x (k_groups k) (k_nss k) (k_ttys k).
Definition set_groups k x := mk_kernel (k_pids k) (k_last_allocated_pid k) (k_pid_max k) (k_tasks k) x (k_nss k) (k_ttys k).
Definition set_nss k x := mk_kernel (k_pids k) (k_last_allocated_pid k) (k_pid_max k) (k_tasks k) (k_groups k) x (k_ttys k).
Definition set_ttys k x := mk_kernel (k_pids k) (k_last_allocated_pid k) (k_pid_max k) (k_tasks k) (k_groups k) (k_nss k) x.

Definition set_p_task p x := mk_pid x (p_session p) (p_pgroup p) (p_numbered p).
Definition set_p_session p x := mk_pid (p_task p) x (p_pgroup p) (p_numbered p).
Definition set_p_pgroup p x := mk_pid (p_task p) (p_session p) x (p_numbered p).
Definition set_p_numbered p x := mk_pid (p_task p) (p_session p) (p_pgroup p) x.
Definition set_nrs n nr_of by_nr := mk_ns (n_parent n) (n_level n) (n_init_pid n) (n_dead n) nr_of by_nr (n_last_nr n).
Definition set_last_nr n x := mk_ns (n_parent n) (n_level n) (n_init_pid n) (n_dead n) (n_nr_of n) (n_by_nr n) x.
Definition set_init_pid n x := mk_ns (n_parent n) (n_level n) x (n_dead n) (n_nr_of n) (n_by_nr n) (n_last_nr n).

Definition alter_pid k id f := set_pids k (alter f id (k_pids k)).
Definition put_task k a t := set_tasks k (<[a := t]> (k_tasks k)).
Definition put_group k g x := set_groups k (<[g := x]> (k_groups k)).
Definition put_ns k n x := set_nss k (<[n := x]> (k_nss k)).

(** ** The table *)

Definition task_pid_wrap (k : kernel) : Z := if k_pid_max k <? MAX_PID then k_pid_max k else MAX_PID.

Definition task_set_pid_max (k : kernel) (value : Z) : Z * kernel :=
  if (value <? 301) || (value >? PID_MAX_LIMIT) then (_EINVAL, k) else (0, set_pid_max k value).

(** kthreadd is the one synthetic kernel thread. *)
Definition pid_is_kthread (id : Z) : bool := id =? 2.

Definition zeroed_pid : pid := mk_pid None [] [] None.
Definition pid_at (k : kernel) (id : Z) : pid := default zeroed_pid (k_pids k !! id).

Definition pid_empty (p : pid) : bool :=
  match p_task p, p_session p, p_pgroup p with None, [], [] => true | _, _, _ => false end.

(** The slot found is answered by its number. *)
Definition pid_get_global (k : kernel) (id : Z) : option Z :=
  if u32 id >=? MAX_PID + 1 then None
  else if pid_empty (pid_at k (u32 id)) then None
  else Some (u32 id).

Definition pid_get_task_zombie_global (k : kernel) (id : Z) : option Z :=
  match pid_get_global k id with Some p => p_task (pid_at k p) | None => None end.

Definition zombie (k : kernel) (a : Z) : bool := match k_tasks k !! a with Some t => t_zombie t | None => false end.

Definition pid_get_task_global (k : kernel) (id : Z) : option Z :=
  match pid_get_task_zombie_global k id with
  | Some a => if zombie k a then None else Some a
  | None => None
  end.

(** ** Namespaces *)

(** The walks up the namespaces: [for (ns = from; ns != NULL; ns = ns->parent)]. *)
Fixpoint ns_up (fuel : nat) (nss : gmap Z pid_namespace) (from : option Z) : list Z :=
  match fuel, from with
  | S fuel, Some n => match nss !! n with Some x => n :: ns_up fuel nss (n_parent x) | None => [] end
  | _, _ => []
  end.
Definition ns_fuel : nat := 33.
Definition ups (k : kernel) (from : option Z) : list Z := ns_up ns_fuel (k_nss k) from.

Fixpoint pid_ns_in_from (fuel : nat) (nss : gmap Z pid_namespace) (ns ancestor : option Z) : bool :=
  match fuel with
  | O => false
  | S fuel =>
      if decide (ns = ancestor) then true
      else match ns with
           | None => false
           | Some n => match nss !! n with Some x => pid_ns_in_from fuel nss (n_parent x) ancestor | None => false end
           end
  end.
Definition pid_ns_in (k : kernel) (ns ancestor : option Z) : bool := pid_ns_in_from (S ns_fuel) (k_nss k) ns ancestor.

Definition entry (m : gmap Z Z) (i : Z) : Z := default 0 (m !! i).

(** [mem]: the three allocations succeed; [a]: where the namespace is. *)
Definition pid_ns_new (k : kernel) (parent : option Z) (mem : bool) (a : Z) : (Z + Z) * kernel :=
  let level := match parent with Some p => match k_nss k !! p with Some x => n_level x | None => 0 end | None => 0 end in
  if (match parent with Some _ => true | None => false end) && (level >=? PID_NS_MAX_LEVEL) then (inr _EINVAL, k)
  else if negb mem then (inr _ENOMEM, k)
  else (inl a, put_ns k a (mk_ns parent (match parent with Some _ => level + 1 | None => 1 end) 0 false ∅ ∅ 0)).

(** One namespace's part of taking back a pid's number. *)
Definition ns_unnumber (id : Z) (n : pid_namespace) : pid_namespace :=
  let nr := entry (n_nr_of n) id in
  let by_nr := if (nr >? 0) && (nr <=? MAX_PID) && (entry (n_by_nr n) nr =? id) then <[nr := 0]> (n_by_nr n) else n_by_nr n in
  set_nrs n (<[id := 0]> (n_nr_of n)) by_nr.

Definition unnumber_in (id : Z) (k : kernel) (n : Z) : kernel :=
  match k_nss k !! n with Some x => put_ns k n (ns_unnumber id x) | None => k end.

Definition pid_ns_unnumber (k : kernel) (id : Z) : kernel :=
  if id >? MAX_PID then k
  else match p_numbered (pid_at k id) with
       | None => k
       | Some innermost => foldl (unnumber_in id) (alter_pid k id (fun p => set_p_numbered p None)) (ups k (Some innermost))
       end.

Definition pid_ns_unnumber_if_empty (k : kernel) (id : Z) : kernel :=
  if (u32 id <=? MAX_PID) && pid_empty (pid_at k (u32 id)) then pid_ns_unnumber k (u32 id) else k.

(** The search of pid_ns_next_nr, [tries] turns being left. *)
Fixpoint next_nr_from (tries : nat) (pids : Z -> pid) (limit : Z) (n : pid_namespace) : Z * pid_namespace :=
  match tries with
  | O => (0, n)
  | S tries =>
      let nr := n_last_nr n + 1 in
      let nr := if nr >=? limit then 1 else nr in
      let n := set_last_nr n nr in
      let holder := entry (n_by_nr n) nr in
      if (holder =? 0) || negb (entry (n_nr_of n) holder =? nr) || pid_empty (pids holder) then (nr, n)
      else next_nr_from tries pids limit n
  end.
Definition pid_ns_next_nr (k : kernel) (n : pid_namespace) : Z * pid_namespace :=
  next_nr_from (Z.to_nat (task_pid_wrap k - 1)) (pid_at k) (task_pid_wrap k) n.

(** Undoing what a failing call numbered, in one namespace. *)
Definition ns_undo (id : Z) (n : pid_namespace) : pid_namespace :=
  let was := entry (n_nr_of n) id in
  let by_nr := if (was >? 0) && (entry (n_by_nr n) was =? id) then <[was := 0]> (n_by_nr n) else n_by_nr n in
  set_nrs n (<[id := 0]> (n_nr_of n)) by_nr.

(** The loop of pid_ns_number_task over the namespaces left, [dones] numbered. *)
Fixpoint number_in (k : kernel) (id : Z) (dones todo : list Z) : Z * kernel :=
  match todo with
  | [] => (0, k)
  | n :: todo =>
      match k_nss k !! n with
      | None => (0, k)
      | Some x =>
          let '(nr, x) := pid_ns_next_nr k x in
          if nr =? 0 then
            (_EAGAIN, foldl (fun k d => match k_nss k !! d with Some y => put_ns k d (ns_undo id y) | None => k end) (put_ns k n x) dones)
          else number_in (put_ns k n (set_nrs x (<[id := nr]> (n_nr_of x)) (<[nr := id]> (n_by_nr x)))) id (dones ++ [n]) todo
      end
  end.

Definition pid_ns_number_task (k : kernel) (id : Z) (ns : option Z) : Z * kernel :=
  if u32 id >? MAX_PID then (_EINVAL, k)
  else
    let k := pid_ns_unnumber k (u32 id) in
    match ns with
    | None => (0, k)
    | Some _ =>
        let '(err, k) := number_in k (u32 id) [] (ups k ns) in
        if err <? 0 then (err, k) else (0, alter_pid k (u32 id) (fun p => set_p_numbered p ns))
    end.

Definition nss_at (k : kernel) (n : Z) : pid_namespace := default (mk_ns None 0 0 false ∅ ∅ 0) (k_nss k !! n).

Definition pid_ns_shown (k : kernel) (viewer : option Z) (id : Z) : Z :=
  match viewer with
  | None => id
  | Some v => if id <=? 0 then id else if id <=? MAX_PID then entry (n_nr_of (nss_at k v)) id else 0
  end.

Definition pid_ns_global (k : kernel) (viewer : option Z) (id : Z) : Z :=
  match viewer with
  | None => id
  | Some v =>
      if id <=? 0 then id
      else if id >? MAX_PID then PID_NS_NO_PID
      else
        let machine := entry (n_by_nr (nss_at k v)) id in
        if (machine <=? 0) || (machine >? MAX_PID) || negb (entry (n_nr_of (nss_at k v)) machine =? id) then PID_NS_NO_PID
        else machine
  end.

Definition task_ns (k : kernel) (a : Z) : option Z := match k_tasks k !! a with Some t => t_pid_ns t | None => None end.

Definition task_visible (k : kernel) (a : Z) (viewer : option Z) : bool := pid_ns_in k (task_ns k a) viewer.

Definition task_is_init_seen_from_inside (k : kernel) (a : Z) (viewer : option Z) : bool :=
  match k_tasks k !! a with
  | Some t =>
      match t_pid_ns t with
      | Some n => (t_tgid t =? n_init_pid (nss_at k n)) && pid_ns_in k viewer (Some n)
      | None => false
      end
  | None => false
  end.

Definition leader_of (k : kernel) (g : Z) : option Z := match k_groups k !! g with Some x => Some (g_leader x) | None => None end.

(** The task whose namespace says who may see a slot. *)
Definition slot_holder (k : kernel) (p : pid) : option Z :=
  match p_task p with
  | Some a => Some a
  | None =>
      match p_pgroup p with
      | g :: _ => leader_of k g
      | [] => match p_session p with g :: _ => leader_of k g | [] => None end
      end
  end.

Definition pid_slot_visible (k : kernel) (p : pid) (viewer : option Z) : bool :=
  match slot_holder k p with Some a => task_visible k a viewer | None => false end.

Definition pid_get (k : kernel) (viewer : option Z) (id : Z) : option Z :=
  match viewer with
  | None => pid_get_global k id
  | Some _ =>
      match pid_get_global k (pid_ns_global k viewer (s32 id)) with
      | Some p => if pid_slot_visible k (pid_at k p) viewer then Some p else None
      | None => None
      end
  end.

Definition current_pid_shown_or_zero (k : kernel) (viewer : option Z) (id : Z) : Z :=
  match viewer with
  | None => id
  | Some _ =>
      if id <=? 0 then id
      else match pid_get_global k id with
           | Some p => if pid_slot_visible k (pid_at k p) viewer then pid_ns_shown k viewer id else 0
           | None => 0
           end
  end.

Definition pid_get_task_zombie (k : kernel) (viewer : option Z) (id : Z) : option Z :=
  match pid_get k viewer id with Some p => p_task (pid_at k p) | None => None end.

Definition pid_get_task (k : kernel) (viewer : option Z) (id : Z) : option Z :=
  match pid_get_task_zombie k viewer id with
  | Some a => if zombie k a then None else Some a
  | None => None
  end.
