(* ===== verification/Groups.v ===== *)
(** * Process groups and sessions (kernel/group.c, and the parts of kernel/task.c,
      fork.c, exit.c, exec.c and signal.c that make, leave and walk them)

    A process is in one process group and one session: its thread group is on
    the list of each, kept by the pid the group or session goes by, and names
    both by number.  [cur] is the calling task, [current]. *)

From S2P Require Import Prelude Pids.

(** ** Lists of thread groups *)

Definition without (g : Z) (l : list Z) : list Z := filter (fun x => x <> g) l.

(** [list_remove(&g->pgroup)] and [list_remove(&g->session)]: off whatever list
    the node is on. *)
Definition pgroup_unlink (k : kernel) (g : Z) : kernel :=
  set_pids k ((fun p => set_p_pgroup p (without g (p_pgroup p))) <$> k_pids k).
Definition session_unlink (k : kernel) (g : Z) : kernel :=
  set_pids k ((fun p => set_p_session p (without g (p_session p))) <$> k_pids k).

(** [list_add(&pid->pgroup, &g->pgroup)], whose head must have been initialised. *)
Definition pgroup_link (k : kernel) (id g : Z) : option kernel :=
  _ ← k_pids k !! id; Some (alter_pid k id (fun p => set_p_pgroup p (g :: p_pgroup p))).
Definition session_link (k : kernel) (id g : Z) : option kernel :=
  _ ← k_pids k !! id; Some (alter_pid k id (fun p => set_p_session p (g :: p_session p))).

(** [list_add(&old->pgroup, &new->pgroup)] with a member for head: after it. *)
Fixpoint insert_after (old new : Z) (l : list Z) : list Z :=
  match l with
  | [] => []
  | x :: l => if x =? old then x :: new :: l else x :: insert_after old new l
  end.
Definition in_pgroup (k : kernel) (g : Z) : Prop := map_Exists (fun _ p => g ∈ p_pgroup p) (k_pids k).
Definition in_session (k : kernel) (g : Z) : Prop := map_Exists (fun _ p => g ∈ p_session p) (k_pids k).
#[export] Instance in_pgroup_dec k g : Decision (in_pgroup k g).
Proof. apply map_Exists_dec. intros i p. apply (decide_rel elem_of). Defined.
#[export] Instance in_session_dec k g : Decision (in_session k g).
Proof. apply map_Exists_dec. intros i p. apply (decide_rel elem_of). Defined.

Definition pgroup_link_after (k : kernel) (old new : Z) : option kernel :=
  if decide (in_pgroup k old) then Some (set_pids k ((fun p => set_p_pgroup p (insert_after old new (p_pgroup p))) <$> k_pids k)) else None.
Definition session_link_after (k : kernel) (old new : Z) : option kernel :=
  if decide (in_session k old) then Some (set_pids k ((fun p => set_p_session p (insert_after old new (p_session p))) <$> k_pids k)) else None.

Definition set_t_group t x := mk_task (t_pid t) (t_tgid t) x (t_parent t) (t_pid_ns t) (t_pid_ns_for_children t) (t_zombie t) (t_exiting t) (t_did_exec t) (t_sighand t).
Definition set_t_tgid t x := mk_task (t_pid t) x (t_group t) (t_parent t) (t_pid_ns t) (t_pid_ns_for_children t) (t_zombie t) (t_exiting t) (t_did_exec t) (t_sighand t).
Definition set_t_pid t x := mk_task x (t_tgid t) (t_group t) (t_parent t) (t_pid_ns t) (t_pid_ns_for_children t) (t_zombie t) (t_exiting t) (t_did_exec t) (t_sighand t).
Definition set_t_parent t x := mk_task (t_pid t) (t_tgid t) (t_group t) x (t_pid_ns t) (t_pid_ns_for_children t) (t_zombie t) (t_exiting t) (t_did_exec t) (t_sighand t).
Definition set_t_pid_ns t x := mk_task (t_pid t) (t_tgid t) (t_group t) (t_parent t) x (t_pid_ns_for_children t) (t_zombie t) (t_exiting t) (t_did_exec t) (t_sighand t).
Definition set_t_for_children t x := mk_task (t_pid t) (t_tgid t) (t_group t) (t_parent t) (t_pid_ns t) x (t_zombie t) (t_exiting t) (t_did_exec t) (t_sighand t).
Definition set_t_flags t z e d s := mk_task (t_pid t) (t_tgid t) (t_group t) (t_parent t) (t_pid_ns t) (t_pid_ns_for_children t) z e d s.
Definition set_g_ids x sid pgid := mk_tgroup (g_leader x) sid pgid (g_tty x) (g_threads x) (g_traced_zombies x) (g_child_subreaper x).
Definition set_g_tty x t := mk_tgroup (g_leader x) (g_sid x) (g_pgid x) t (g_threads x) (g_traced_zombies x) (g_child_subreaper x).
Definition set_g_threads x l := mk_tgroup (g_leader x) (g_sid x) (g_pgid x) (g_tty x) l (g_traced_zombies x) (g_child_subreaper x).
Definition set_g_leader x a := mk_tgroup a (g_sid x) (g_pgid x) (g_tty x) (g_threads x) (g_traced_zombies x) (g_child_subreaper x).

(** [sid == leader->pid]. *)
Definition tgroup_is_session_leader (k : kernel) (x : tgroup) : option bool :=
  l ← k_tasks k !! g_leader x; Some (g_sid x =? t_pid l).

(** ** setpgid, getpgid, getsid *)

(** The checks of sys_setpgid once the process [a] and its slot [p] are found:
    the slot of the group to join, or an error. *)
Definition setpgid_check (k : kernel) (cur : Z) (viewer : option Z) (id pgid p a : Z) : option (Z + Z) :=
  c ← k_tasks k !! cur;
  t ← k_tasks k !! a;
  x ← k_groups k !! t_group t;
  let joined :=
    if id =? pgid then Some (inl p)
    else match pid_get k viewer pgid with
         | None => Some (inr _EPERM)
         | Some gp =>
             match p_pgroup (pid_at k gp) with
             | [] => Some (inr _EPERM)
             | first :: _ =>
                 y ← k_groups k !! first;
                 Some (if negb (g_sid x =? g_sid y) then inr _EPERM else inl gp)
             end
         end in
  j ← joined;
  match j with
  | inr err => Some (inr err)
  | inl gp =>
      if negb (a =? cur) && negb (bool_decide (t_parent t = Some cur)) then Some (inr _ESRCH)
      else if negb (a =? cur) && t_did_exec t then Some (inr _EACCES)
      else
        lead ← tgroup_is_session_leader k x;
        if (lead : bool) then Some (inr _EPERM) else Some (inl gp)
  end.

Definition sys_setpgid (k : kernel) (cur id pgid : Z) : option (Z * kernel) :=
  c ← k_tasks k !! cur;
  let viewer := t_pid_ns c in
  let id := if id =? 0 then s32 (pid_ns_shown k viewer (t_pid c)) else id in
  let pgid := if pgid =? 0 then id else pgid in
  if pgid <? 0 then Some (_EINVAL, k)
  else match pid_get k viewer id with
       | None => Some (_ESRCH, k)
       | Some p =>
           match p_task (pid_at k p) with
           | None => Some (_ESRCH, k)
           | Some a =>
               r ← setpgid_check k cur viewer id pgid p a;
               match r with
               | inr err => Some (err, k)
               | inl gp =>
                   t ← k_tasks k !! a;
                   x ← k_groups k !! t_group t;
                   let machine_pgid := pid_ns_global k viewer pgid in
                   if negb (g_pgid x =? machine_pgid) then
                     let k := pgroup_unlink k (t_group t) in
                     let k := pid_ns_unnumber_if_empty k (g_pgid x) in
                     let k := put_group k (t_group t) (set_g_ids x (g_sid x) machine_pgid) in
                     k ← pgroup_link k gp (t_group t);
                     Some (0, k)
                   else Some (0, k)
               end
           end
       end.

(** The calls that ask for a process's group or session: [field] of its thread
    group, as the caller knows the number. *)
Definition get_group_id (field : tgroup -> Z) (k : kernel) (cur id : Z) : option Z :=
  c ← k_tasks k !! cur;
  match (if id =? 0 then Some cur else pid_get_task k (t_pid_ns c) id) with
  | None => Some _ESRCH
  | Some a => t ← k_tasks k !! a; x ← k_groups k !! t_group t; Some (pid_ns_shown k (t_pid_ns c) (field x))
  end.
Definition sys_getpgid := get_group_id g_pgid.
Definition sys_getsid := get_group_id g_sid.

(** ** Sessions *)

Definition task_leave_session (k : kernel) (a : Z) : option kernel :=
  t ← k_tasks k !! a;
  x ← k_groups k !! t_group t;
  let last_session_group :=
    match pid_get_global k (g_sid x) with Some p => (length (p_session (pid_at k p)) <=? 1)%nat | None => true end in
  let k := session_unlink k (t_group t) in
  let k := pid_ns_unnumber_if_empty k (g_sid x) in
  match g_tty x with
  | None => Some k
  | Some y =>
      let k := if last_session_group then set_ttys k (alter (fun d => mk_tty 0 (y_fg_group d) (y_hung_up d) (y_pseudo d)) y (k_ttys k)) else k in
      Some (put_group k (t_group t) (set_g_tty x None))
  end.

(** Is there a parent in another group of the session? *)
Definition rescuer (k : kernel) (pgid sid g : Z) : option bool :=
  x ← k_groups k !! g;
  l ← k_tasks k !! g_leader x;
  match t_parent l with
  | None => Some false
  | Some b =>
      p ← k_tasks k !! b;
      if t_group p =? g then Some false
      else y ← k_groups k !! t_group p; Some (negb (g_pgid y =? pgid) && (g_sid y =? sid))
  end.
Fixpoint orphaned_in (k : kernel) (pgid sid : Z) (l : list Z) : option bool :=
  match l with
  | [] => Some true
  | g :: l => r ← rescuer k pgid sid g; if (r : bool) then Some false else orphaned_in k pgid sid l
  end.
Definition pgroup_is_orphaned (k : kernel) (pgid sid : Z) : option bool :=
  match pid_get_global k pgid with
  | None => Some true
  | Some p => orphaned_in k pgid sid (p_pgroup (pid_at k p))
  end.

Definition task_setsid (k : kernel) (a : Z) : option (Z * kernel) :=
  t ← k_tasks k !! a;
  x ← k_groups k !! t_group t;
  l ← k_tasks k !! g_leader x;
  let new_sid := t_pid l in
  if (g_pgid x =? new_sid) || (g_sid x =? new_sid) then Some (_EPERM, k)
  else
    k ← task_leave_session k a;
    p ← pid_get_global k new_sid;
    k ← session_link k p (t_group t);
    let k := pgroup_unlink k (t_group t) in
    let k := pid_ns_unnumber_if_empty k (g_pgid x) in
    k ← pgroup_link k p (t_group t);
    x ← k_groups k !! t_group t;
    Some (new_sid, put_group k (t_group t) (set_g_ids x new_sid new_sid)).

Definition sys_setsid (k : kernel) (cur : Z) : option (Z * kernel) :=
  c ← k_tasks k !! cur;
  '(sid, k) ← task_setsid k cur;
  Some (pid_ns_shown k (t_pid_ns c) sid, k).

Definition tgroup_restore_ids (k : kernel) (a sid pgid : Z) : option kernel :=
  t ← k_tasks k !! a;
  x ← k_groups k !! t_group t;
  let g := t_group t in
  let '(spid, sid) := match pid_get_global k sid with Some p => (Some p, sid) | None => (pid_get_global k (t_pid t), t_pid t) end in
  let '(gpid, pgid) := match pid_get_global k pgid with Some p => (Some p, pgid) | None => (pid_get_global k (t_pid t), t_pid t) end in
  k ← match spid with
      | Some p => k ← session_link (session_unlink k g) p g; Some (put_group k g (set_g_ids x sid (g_pgid x)))
      | None => Some k
      end;
  x ← k_groups k !! g;
  match gpid with
  | Some p => k ← pgroup_link (pgroup_unlink k g) p g; Some (put_group k g (set_g_ids x (g_sid x) pgid))
  | None => Some k
  end.
