(* ===== verification/Procs.v ===== *)
(** * Processes come and go (kernel/task.c, fork.c, exit.c, exec.c), and who a
      group signal or a terminal reaches (kernel/signal.c, fs/tty.c)

    What clone, exit, wait and execve do to the pid table, the lists of Groups.v
    and the namespaces of Pids.v, in the parts pids_lock makes.  What else they
    do (memory, files, signals, accounting) touches none of this. *)

From S2P Require Import Prelude Pids Groups.

(** ** Creating a task *)

(** The loop that looks for a free pid, [turns] being left: [None] for one that
    goes on for ever. *)
Fixpoint alloc_pid (turns : nat) (k : kernel) (last : Z) : option Z :=
  match turns with
  | O => None
  | S turns =>
      let last := u32 (last + 1) in
      let last := if last >=? task_pid_wrap k then 1 else last in
      if negb (pid_empty (pid_at k last)) || pid_is_kthread last then alloc_pid turns k last else Some last
  end.

(** The pid task_create_pid_ takes: [inr tt] when a chosen one is refused. *)
Definition create_pid (k : kernel) (want_pid : Z) : option (Z + unit) :=
  if negb (want_pid =? 0) then
    if (u32 want_pid >=? task_pid_wrap k) || negb (pid_empty (pid_at k want_pid)) || pid_is_kthread want_pid then Some (inr tt)
    else Some (inl want_pid)
  else id ← alloc_pid (Z.to_nat (task_pid_wrap k)) k (k_last_allocated_pid k); Some (inl id).

(** The new task, a copy of its parent with what task_create_pid_ resets. *)
Definition new_task (parent : option (Z * task)) (id : Z) : task :=
  match parent with
  | Some (a, t) => mk_task id (t_tgid t) (t_group t) (Some a) None None false false false (t_sighand t)
  | None => mk_task id 0 0 None None None false false false false
  end.

(** [b]: where the struct is; it is [None] when malloc fails. *)
Definition task_create_pid_ (k : kernel) (parent : option Z) (want_pid : Z) (b : option Z) : option (option Z * kernel) :=
  match b with
  | None => Some (None, k)
  | Some b =>
      pt ← match parent with Some a => t ← k_tasks k !! a; Some (Some (a, t)) | None => Some None end;
      r ← create_pid k want_pid;
      match r with
      | inr _ => Some (None, k)
      | inl id =>
          let k := set_last_allocated_pid k id in
          let k := pid_ns_unnumber k id in
          let k := set_pids k (<[id := mk_pid (Some b) [] [] None]> (k_pids k)) in
          Some (Some b, put_task k b (new_task pt id))
      end
  end.

(** ** clone *)

(** CLONE_PARENT: the new task is its creator's sibling. *)
Definition clone_parent (k : kernel) (cur b : Z) : option kernel :=
  c ← k_tasks k !! cur; p ← t_parent c; _ ← k_tasks k !! p; t ← k_tasks k !! b; Some (put_task k b (set_t_parent t (Some p))).

(** copy_task's choice of a pid namespace for the task [t] that [c] makes, or an
    error.  [thread] and [newpid] are the flags; [mem] and [a] as for
    pid_ns_new. *)
Definition choose_pid_ns (k : kernel) (c t : task) (thread newpid mem : bool) (a : Z) : (option Z + Z) * kernel :=
  let into := match t_pid_ns_for_children c with Some n => Some n | None => t_pid_ns c end in
  if thread then (inl (t_pid_ns c), k)
  else if newpid then
    match pid_ns_new k into mem a with
    | (inr err, k) => (inr err, k)
    | (inl n, k) => (inl (Some n), put_ns k n (set_init_pid (nss_at k n) (t_pid t)))
    end
  else match into with
       | None => (inl None, k)
       | Some n =>
           if n_dead (nss_at k n) then (inr _ENOMEM, k)
           else (inl (Some n), if n_init_pid (nss_at k n) =? 0 then put_ns k n (set_init_pid (nss_at k n) (t_pid t)) else k)
       end.

(** And the task's numbers there. *)
Definition copy_pid_ns (k : kernel) (cur b : Z) (thread newpid mem : bool) (a : Z) : option (Z * kernel) :=
  c ← k_tasks k !! cur;
  t ← k_tasks k !! b;
  let '(ns, k) := choose_pid_ns k c t thread newpid mem a in
  match ns with
  | inr err => Some (err, k)
  | inl ns =>
      let k := put_task k b (set_t_pid_ns t ns) in
      match ns with
      | None => Some (0, k)
      | Some _ => Some (pid_ns_number_task k (t_pid t) ns)
      end
  end.

(** tgroup_copy: the ids are those of the moment; the group has no threads yet
    and, the copied links aside, is on no list. *)
Definition tgroup_copy (x : tgroup) : tgroup :=
  mk_tgroup (g_leader x) (g_sid x) (g_pgid x) (g_tty x) [] 0 false.

(** copy_task joins the lists: with a new thread group [new] at its address, or
    as a thread of the old one. *)
Definition clone_link (k : kernel) (old b : Z) (new : option (Z * tgroup)) : option kernel :=
  t ← k_tasks k !! b;
  match new with
  | Some (g, x) =>
      k ← pgroup_link_after k old g;
      k ← session_link_after k old g;
      let k := put_task k b (set_t_tgid (set_t_group t g) (t_pid t)) in
      Some (put_group k g (mk_tgroup b (g_sid x) (g_pgid x) (g_tty x) (b :: g_threads x) (g_traced_zombies x) (g_child_subreaper x)))
  | None =>
      x ← k_groups k !! t_group t;
      Some (put_group k (t_group t) (set_g_threads x (b :: g_threads x)))
  end.

(** copy_task's fail_unlink_group. *)
Definition fail_unlink_group (k : kernel) (b : Z) (new : option Z) : option kernel :=
  t ← k_tasks k !! b;
  x ← k_groups k !! t_group t;
  let k := put_group k (t_group t) (set_g_threads x (without b (g_threads x))) in
  match new with
  | Some g => Some (session_unlink (pgroup_unlink k g) g)
  | None => Some k
  end.

Definition pid_ns_forget_init (k : kernel) (ns : option Z) (id : Z) : kernel :=
  match ns with
  | None => k
  | Some n =>
      let k := pid_ns_unnumber k id in
      let x := nss_at k n in
      if n_init_pid x =? id then put_ns k n (set_last_nr (set_init_pid x 0) 0) else k
  end.

(** The task's namespace is forgotten first, in the error path of copy_task and
    in task_never_ran_destroy. *)
Definition forget_ns (k : kernel) (b : Z) : option kernel :=
  t ← k_tasks k !! b;
  Some (pid_ns_forget_init (put_task k b (set_t_pid_ns t None)) (t_pid_ns t) (t_pid t)).

Definition task_unlink_locked (k : kernel) (a : Z) : option kernel :=
  t ← k_tasks k !! a;
  let k := put_task k a (set_t_flags t (t_zombie t) true (t_did_exec t) (t_sighand t)) in
  match pid_get_global k (t_pid t) with
  | None => Some k
  | Some p => Some (pid_ns_unnumber_if_empty (alter_pid k p (fun p => set_p_task p None)) (t_pid t))
  end.

(** task_never_ran_destroy up to where it leaves pids_lock; forget_ns follows. *)
Definition task_never_ran_destroy (k : kernel) (a : Z) : option kernel :=
  t ← k_tasks k !! a;
  x ← k_groups k !! t_group t;
  parent_group ← match t_parent t with Some p => pt ← k_tasks k !! p; Some (t_group pt) | None => Some (t_group t) end;
  let k := put_group k (t_group t) (set_g_threads x (without a (g_threads x))) in
  let k := if t_group t =? parent_group then k else session_unlink (pgroup_unlink k (t_group t)) (t_group t) in
  task_unlink_locked k a.

(** construct_task, once the task is made: a process with a session of its own,
    then its signal handlers. *)
Definition construct_group (k : kernel) (b g : Z) : option kernel :=
  t ← k_tasks k !! b;
  let k := put_group k g (mk_tgroup b 0 0 None [b] 0 false) in
  let k := put_task k b (set_t_tgid (set_t_group t g) (t_pid t)) in
  '(_, k) ← task_setsid k b;
  t ← k_tasks k !! b;
  Some (put_task k b (set_t_flags t (t_zombie t) (t_exiting t) (t_did_exec t) true)).

(** ** exit and wait *)

(** exit_tgroup: the task leaves its group; is the group dead? *)
Definition exit_tgroup (k : kernel) (a : Z) : option (bool * kernel) :=
  t ← k_tasks k !! a;
  x ← k_groups k !! t_group t;
  let l := without a (g_threads x) in
  Some (bool_decide (l = []), put_group k (t_group t) (set_g_threads x l)).

Definition release_process_locked (k : kernel) (leader : Z) : option kernel :=
  t ← k_tasks k !! leader;
  k ← task_leave_session k leader;
  x ← k_groups k !! t_group t;
  let k := pgroup_unlink k (t_group t) in
  let k := pid_ns_unnumber_if_empty k (g_pgid x) in
  task_unlink_locked k leader.

(** exit.c's own test for an orphaned group, over the tasks of the table. *)
Definition keeps_group (k : kernel) (pgid : Z) (ignore : option Z) (sid a : Z) : bool :=
  match k_tasks k !! a with
  | Some t =>
      match k_groups k !! t_group t, t_parent t with
      | Some x, Some p =>
          match k_tasks k !! p with
          | Some pt =>
              match k_groups k !! t_group pt with
              | Some y =>
                  negb (bool_decide (ignore = Some a)) && negb (t_exiting t) && negb (t_zombie t) && (g_leader x =? a) && (g_pgid x =? pgid) && (g_sid x =? sid) &&
                  negb (bool_decide (ignore = Some p)) && negb (t_tgid pt =? 1) && (g_sid y =? sid) && negb (g_pgid y =? pgid)
              | None => false
              end
          | None => false
          end
      | _, _ => false
      end
  | None => false
  end.
Definition pgrp_is_orphaned_locked (k : kernel) (pgid : Z) (ignore : option Z) (sid : Z) : bool :=
  negb (existsb (fun '(_, p) => match p_task p with Some a => keeps_group k pgid ignore sid a | None => false end) (map_to_list (k_pids k))).

(** The ancestor walk of find_new_parent, [depth] left. *)
Fixpoint subreaper_above (depth : nat) (k : kernel) (ns : option Z) (ancestor : option Z) : option (option Z) :=
  match depth, ancestor with
  | O, _ | _, None => Some None
  | S depth, Some a =>
      t ← k_tasks k !! a;
      if negb (bool_decide (t_pid_ns t = ns)) then Some None
      else
        let x := k_groups k !! t_group t in
        if (match x with Some x => g_child_subreaper x | None => false end) && negb (t_exiting t) && negb (t_zombie t) then Some (Some a)
        else if (match x with Some x => g_leader x =? a | None => false end) && bool_decide (t_parent t = Some a) then Some None
        else subreaper_above depth k ns (t_parent t)
  end.

Fixpoint init_above (k : kernel) (g : Z) (nss : list Z) : option (option Z) :=
  match nss with
  | [] => Some (pid_get_task_global k 1)
  | n :: nss =>
      match pid_get_task_global k (n_init_pid (nss_at k n)) with
      | Some i => t ← k_tasks k !! i; if negb (t_group t =? g) && negb (t_exiting t) then Some (Some i) else init_above k g nss
      | None => init_above k g nss
      end
  end.

Fixpoint first_staying (k : kernel) (l : list Z) : option (option Z) :=
  match l with
  | [] => Some None
  | b :: l => t ← k_tasks k !! b; if negb (t_exiting t) then Some (Some b) else first_staying k l
  end.

Definition find_new_parent (k : kernel) (a : Z) : option (option Z) :=
  t ← k_tasks k !! a;
  x ← k_groups k !! t_group t;
  s ← first_staying k (g_threads x);
  match s with
  | Some b => Some (Some b)
  | None =>
      l ← k_tasks k !! g_leader x;
      r ← subreaper_above (Z.to_nat MAX_PID) k (t_pid_ns t) (t_parent l);
      match r with
      | Some b => Some (Some b)
      | None => init_above k (t_group t) (ups k (t_pid_ns t))
      end
  end.

(** ** execve takes over the leader's identity (the end of exec_de_thread) *)

(** [exiting_parent]: what decides whether the captured parent still counts. *)
Definition exec_take_over (k : kernel) (cur : Z) (inherit_parent : option Z) : option kernel :=
  c ← k_tasks k !! cur;
  x ← k_groups k !! t_group c;
  let leader := g_leader x in
  let k := match pid_get_global k (t_pid c) with
           | Some own =>
               if bool_decide (p_task (pid_at k own) = Some cur)
               then pid_ns_unnumber_if_empty (alter_pid k own (fun p => set_p_task p None)) (t_pid c)
               else k
           | None => k
           end in
  l ← k_tasks k !! leader;
  let k := match pid_get_global k (t_pid l) with Some p => alter_pid k p (fun p => set_p_task p (Some cur)) | None => k end in
  let usable := match inherit_parent with
                | Some p => negb (p =? cur) && negb (match k_tasks k !! p with Some t => t_exiting t | None => false end)
                | None => false
                end in
  let new_parent := if usable then inherit_parent else pid_get_task_global k 1 in
  let parent := match new_parent with Some p => if p =? cur then t_parent c else Some p | None => t_parent c end in
  let k := put_task k cur (set_t_parent (set_t_pid c (t_pid l)) parent) in
  let k := put_group k (t_group c) (set_g_leader x cur) in
  Some (put_task k leader (set_t_pid l 0)).

(** ** Group signals *)

Definition tgroup_live_locked (k : kernel) (x : tgroup) : bool :=
  existsb (fun b => match k_tasks k !! b with Some t => negb (t_exiting t) && negb (t_zombie t) && t_sighand t | None => false end) (g_threads x).

(** The leaders send_group_signal sends to, and kill_group likewise. *)
Definition group_targets (k : kernel) (p : Z) : list Z :=
  omap (fun g => x ← k_groups k !! g; if tgroup_live_locked k x then Some (g_leader x) else None) (p_pgroup (pid_at k p)).

Definition send_group_signal (k : kernel) (pgid : Z) : Z + list Z :=
  match pid_get_global k pgid with None => inl _ESRCH | Some p => inr (group_targets k p) end.

(** kill_group: [machine] says whose number [pgid] is; a group none of whose
    members live is signalled all the same.  What each send answers is [send]. *)
Definition kill_group (k : kernel) (viewer : option Z) (pgid : Z) (machine : bool) (send : Z -> Z) : Z * list Z :=
  match (if machine then pid_get_global k pgid else pid_get k viewer pgid) with
  | None => (_ESRCH, [])
  | Some p =>
      let targets := group_targets k p in
      let skipped := (length (p_pgroup (pid_at k p)) - length targets)%nat in
      if bool_decide (targets = []) && (skipped =? 0)%nat then (_ESRCH, [])
      else
        (foldl (fun err a => if send a =? 0 then 0 else if negb (err =? 0) && negb (send a =? _ESRCH) then send a else err)
               (if (skipped =? 0)%nat then _ESRCH else 0) targets,
         targets)
  end.
