(* ===== verification/Ctty.v ===== *)
(** * Controlling terminals (fs/tty.c, and the hangup of kernel/exit.c)

    Which session a terminal controls, and which processes have it for their
    controlling terminal.  Terminals' reference counts and devices are not here;
    [hup] is the group a hangup goes on to signal, 0 for none. *)

From S2P Require Import Prelude Pids Groups Procs.

Definition set_y_session d x := mk_tty x (y_fg_group d) (y_hung_up d) (y_pseudo d).
Definition set_y_fg_group d x := mk_tty (y_session d) x (y_hung_up d) (y_pseudo d).
Definition put_tty k y d := set_ttys k (<[y := d]> (k_ttys k)).

Definition tty_set_controlling_locked (k : kernel) (g : Z) (x : tgroup) (y : Z) (d : tty) : kernel :=
  match g_tty x with
  | Some _ => k
  | None => put_tty (put_group k g (set_g_tty x (Some y))) y (mk_tty (g_sid x) (g_pgid x) (y_hung_up d) (y_pseudo d))
  end.

(** What opening a terminal other than a pty's master without O_NOCTTY does. *)
Definition tty_open_controlling (k : kernel) (cur y : Z) : option kernel :=
  c ← k_tasks k !! cur;
  x ← k_groups k !! t_group c;
  d ← k_ttys k !! y;
  lead ← tgroup_is_session_leader k x;
  Some (if (y_session d =? 0) && lead then tty_set_controlling_locked k (t_group c) x y d else k).

(** The members of a session lose the terminal. *)
Definition session_drop_tty (k : kernel) (y : Z) (l : list Z) : kernel :=
  foldl (fun k g => match k_groups k !! g with
                    | Some x => if bool_decide (g_tty x = Some y) then put_group k g (set_g_tty x None) else k
                    | None => k
                    end) k l.

Definition tiocspgrp (k : kernel) (cur y pgid : Z) : option (Z * kernel) :=
  c ← k_tasks k !! cur;
  x ← k_groups k !! t_group c;
  d ← k_ttys k !! y;
  if negb (bool_decide (g_tty x = Some y)) || negb (g_sid x =? y_session d) then Some (_ENOTTY, k)
  else if pgid <? 0 then Some (_EINVAL, k)
  else match pid_get k (t_pid_ns c) pgid with
       | None => Some (_ESRCH, k)
       | Some p =>
           match p_pgroup (pid_at k p) with
           | [] => Some (_ESRCH, k)
           | first :: _ =>
               m ← k_groups k !! first;
               if negb (g_sid m =? y_session d) then Some (_EPERM, k)
               else Some (0, put_tty k y (set_y_fg_group d (pid_ns_global k (t_pid_ns c) pgid)))
           end
       end.

Definition tiocsctty (k : kernel) (cur y : Z) (force : Z) (superuser : bool) : option (Z * kernel) :=
  c ← k_tasks k !! cur;
  x ← k_groups k !! t_group c;
  d ← k_ttys k !! y;
  lead ← tgroup_is_session_leader k x;
  if (lead : bool) && (g_sid x =? y_session d) then Some (0, k)
  else if negb lead || bool_decide (g_tty x <> None) then Some (_EPERM, k)
  else if negb (y_session d =? 0) then
    if (force =? 1) && superuser then
      p ← pid_get_global k (y_session d);
      Some (0, tty_set_controlling_locked (session_drop_tty k y (p_session (pid_at k p))) (t_group c) x y d)
    else Some (_EPERM, k)
  else Some (0, tty_set_controlling_locked k (t_group c) x y d).

Definition tiocnotty (k : kernel) (cur y : Z) : option (Z * Z * kernel) :=
  c ← k_tasks k !! cur;
  x ← k_groups k !! t_group c;
  d ← k_ttys k !! y;
  if negb (bool_decide (g_tty x = Some y)) then Some (_ENOTTY, 0, k)
  else
    lead ← tgroup_is_session_leader k x;
    let '(hup, k) :=
      if (lead : bool) then
        let k := match pid_get_global k (y_session d) with Some p => session_drop_tty k y (p_session (pid_at k p)) | None => k end in
        (y_fg_group d, put_tty k y (mk_tty 0 0 (y_hung_up d) (y_pseudo d)))
      else (0, k) in
    x ← k_groups k !! t_group c;
    Some (0, hup, if bool_decide (g_tty x = Some y) then put_group k (t_group c) (set_g_tty x None) else k).

(** A session leader's process is gone: the session loses its terminal, which is
    hung up unless it is a pty. *)
Definition exit_hangup_session_tty (k : kernel) (leader : Z) : option (Z * kernel) :=
  l ← k_tasks k !! leader;
  x ← k_groups k !! t_group l;
  match g_tty x with
  | None => Some (0, k)
  | Some y =>
      if negb (g_sid x =? t_pid l) then Some (0, k)
      else match pid_get_global k (g_sid x) with
           | None => Some (0, k)
           | Some p =>
               let k := session_drop_tty k y (p_session (pid_at k p)) in
               d ← k_ttys k !! y;
               Some (y_fg_group d, put_tty k y (mk_tty 0 0 (y_hung_up d || negb (y_pseudo d)) (y_pseudo d)))
           end
  end.

(** tty_check_change: may the caller touch the terminal?  [blocked]: it ignores
    or blocks the signal.  Answers the error and the group to stop, 0 for none. *)
Definition tty_check_change_locked (k : kernel) (cur y : Z) (sigttin blocked : bool) : option (Z * Z) :=
  c ← k_tasks k !! cur;
  x ← k_groups k !! t_group c;
  d ← k_ttys k !! y;
  if bool_decide (g_tty x = Some y) && negb (y_fg_group d =? 0) && negb (g_pgid x =? y_fg_group d) then
    if blocked then Some (if sigttin then _EIO else 0, 0)
    else
      orphaned ← pgroup_is_orphaned k (g_pgid x) (g_sid x);
      Some (if (orphaned : bool) then (_EIO, 0) else (_ERESTART, g_pgid x))
  else Some (0, 0).
