(* ===== verification/ProcWorld.v ===== *)
(** * Processes, interleaved

    The machine's processes as a state machine: each event is a stretch of the
    code run under pids_lock, [step] runs it, and [ready] says when the code
    does.  A clone takes several stretches; where it has come to is its
    [stage].  [step] is [None] for a NULL dereference, a failed assertion and a
    loop that does not end. *)

From S2P Require Import Prelude Pids Groups Procs Ctty.

Inductive stage :=
| Created
| Numbered
| Copied (x : tgroup)
| Linked
| Failing
| Failed
| NeverRan.

(** A task being made: who makes it ([None]: construct_task, for nobody), and
    whether as a thread. *)
Record clone := mk_clone { c_parent : option Z; c_thread : bool; c_stage : stage }.

Record world := mk_world { w_k : kernel; w_clones : gmap Z clone }.

Definition boot : world := mk_world (mk_kernel ∅ 0 MAX_PID ∅ ∅ ∅ ∅) ∅.

Inductive event :=
| ECreate (caller parent : option Z) (want b : Z)
| ECloneParent (b : Z)
| ENs (b : Z) (thread newpid mem : bool) (n : Z)
| ECopy (b : Z)
| ELink (b g : Z)
| EFailEarly (b : Z)
| EFailLate (b : Z)
| EForget (b : Z)
| EDestroy (b : Z)
| EStart (b : Z)
| ENeverRan (b : Z)
| EBuild (b g : Z)
| ESetpgid (a id pgid : Z)
| ESetsid (a : Z)
| ERestore (a sid pgid : Z)
| EExiting (a : Z)
| EExit (a : Z) (traced : bool)
| EZombie (l : Z)
| EUnlink (a : Z)
| ERelease (l : Z)
| EReparent (a b : Z)
| EExec (a : Z) (inherit_parent : option Z)
| EDidExec (a : Z)
| EUnshare (a : Z) (mem : bool) (n : Z)
| ESetns (a : Z) (n : option Z)
| ENsDead (n : Z)
| EPidMax (value : Z)
| ENewTty (y : Z) (pseudo : bool)
| EOpenTty (a y : Z)
| ESctty (a y force : Z) (superuser : bool)
| ESpgrp (a y pgid : Z)
| ENotty (a y : Z).

Definition set_stage (w : world) (b : Z) (s : stage) (k : kernel) : world :=
  mk_world k (alter (fun c => mk_clone (c_parent c) (c_thread c) s) b (w_clones w)).
Definition done (w : world) (b : Z) (k : kernel) : world := mk_world k (delete b (w_clones w)).
Definition on_task (k : kernel) (a : Z) (f : task -> task) : option kernel := t ← k_tasks k !! a; Some (put_task k a (f t)).

(** What do_exit does once the exiting task has the lock. *)
Definition exit_locked (k : kernel) (a : Z) (traced : bool) : option kernel :=
  t ← k_tasks k !! a;
  x ← k_groups k !! t_group t;
  let traced := traced && negb (g_leader x =? a) in
  let k := put_task k a (set_t_flags t (t_zombie t || traced) (t_exiting t) (t_did_exec t) false) in
  '(group_dead, k) ← exit_tgroup k a;
  x ← k_groups k !! t_group t;
  let k := if traced then put_group k (t_group t) (mk_tgroup (g_leader x) (g_sid x) (g_pgid x) (g_tty x) (g_threads x) (g_traced_zombies x + 1) (g_child_subreaper x)) else k in
  if (group_dead : bool) then '(_, k) ← exit_hangup_session_tty k (g_leader x); Some k else Some k.

(** A thread leaves the table, from do_exit or release_thread_locked. *)
Definition thread_unlink (k : kernel) (a : Z) : option kernel :=
  t ← k_tasks k !! a;
  x ← k_groups k !! t_group t;
  let k := if t_zombie t then put_group k (t_group t) (mk_tgroup (g_leader x) (g_sid x) (g_pgid x) (g_tty x) (g_threads x) (g_traced_zombies x - 1) (g_child_subreaper x)) else k in
  task_unlink_locked k a.

Definition group_of (k : kernel) (a : Z) : option (Z * tgroup) :=
  t ← k_tasks k !! a; x ← k_groups k !! t_group t; Some (t_group t, x).

Definition step (w : world) (e : event) : option world :=
  let k := w_k w in
  match e with
  | ECreate caller parent want b =>
      '(r, k) ← task_create_pid_ k parent want (Some b);
      Some (match r with Some b => mk_world k (<[b := mk_clone caller false Created]> (w_clones w)) | None => mk_world k (w_clones w) end)
  | ECloneParent b =>
      c ← w_clones w !! b; a ← c_parent c; k ← clone_parent k a b; Some (mk_world k (w_clones w))
  | ENs b thread newpid mem n =>
      c ← w_clones w !! b; a ← c_parent c;
      '(err, k) ← copy_pid_ns k a b thread newpid mem n;
      Some (mk_world k (<[b := mk_clone (Some a) thread (if err <? 0 then Failing else Numbered)]> (w_clones w)))
  | ECopy b => '(_, x) ← group_of k b; Some (set_stage w b (Copied (tgroup_copy x)) k)
  | ELink b g =>
      c ← w_clones w !! b;
      t ← k_tasks k !! b;
      k ← clone_link k (t_group t) b (match c_stage c with Copied x => Some (g, x) | _ => None end);
      Some (set_stage w b Linked k)
  | EFailEarly b => c ← w_clones w !! b; Some (set_stage w b (match c_stage c with Created => Failed | _ => Failing end) k)
  | EFailLate b =>
      c ← w_clones w !! b;
      t ← k_tasks k !! b;
      k ← fail_unlink_group k b (if c_thread c then None else Some (t_group t));
      Some (set_stage w b Failing k)
  | EForget b =>
      c ← w_clones w !! b;
      k ← forget_ns k b;
      Some (match c_stage c with NeverRan => done w b k | _ => set_stage w b Failed k end)
  | EDestroy b => k ← task_unlink_locked k b; Some (done w b k)
  | EStart b => Some (done w b k)
  | ENeverRan b => k ← task_never_ran_destroy k b; Some (set_stage w b NeverRan k)
  | EBuild b g => k ← construct_group k b g; Some (done w b k)
  | ESetpgid a id pgid => '(_, k) ← sys_setpgid k a id pgid; Some (mk_world k (w_clones w))
  | ESetsid a => '(_, k) ← sys_setsid k a; Some (mk_world k (w_clones w))
  | ERestore a sid pgid => k ← tgroup_restore_ids k a sid pgid; Some (mk_world k (w_clones w))
  | EExiting a => k ← on_task k a (fun t => set_t_flags t (t_zombie t) true (t_did_exec t) (t_sighand t)); Some (mk_world k (w_clones w))
  | EExit a traced => k ← exit_locked k a traced; Some (mk_world k (w_clones w))
  | EZombie l => k ← on_task k l (fun t => set_t_flags t true (t_exiting t) (t_did_exec t) (t_sighand t)); Some (mk_world k (w_clones w))
  | EUnlink a => k ← thread_unlink k a; Some (mk_world k (w_clones w))
  | ERelease l => k ← release_process_locked k l; Some (mk_world k (w_clones w))
  | EReparent a b => p ← find_new_parent k a; k ← on_task k b (fun t => set_t_parent t p); Some (mk_world k (w_clones w))
  | EExec a inherit_parent => k ← exec_take_over k a inherit_parent; Some (mk_world k (w_clones w))
  | EDidExec a => k ← on_task k a (fun t => set_t_flags t (t_zombie t) (t_exiting t) true (t_sighand t)); Some (mk_world k (w_clones w))
  | EUnshare a mem n =>
      t ← k_tasks k !! a;
      let below := match t_pid_ns_for_children t with Some m => Some m | None => t_pid_ns t end in
      match pid_ns_new k below mem n with
      | (inr _, k) => Some (mk_world k (w_clones w))
      | (inl n, k) => k ← on_task k a (fun t => set_t_for_children t (Some n)); Some (mk_world k (w_clones w))
      end
  | ESetns a n =>
      k ← on_task k a (fun t => set_t_for_children t (if bool_decide (n = t_pid_ns t) then None else n)); Some (mk_world k (w_clones w))
  | ENsDead n => x ← k_nss k !! n; Some (mk_world (put_ns k n (mk_ns (n_parent x) (n_level x) (n_init_pid x) true (n_nr_of x) (n_by_nr x) (n_last_nr x))) (w_clones w))
  | EPidMax value => Some (mk_world (snd (task_set_pid_max k value)) (w_clones w))
  | ENewTty y pseudo => Some (mk_world (put_tty k y (mk_tty 0 0 false pseudo)) (w_clones w))
  | EOpenTty a y => k ← tty_open_controlling k a y; Some (mk_world k (w_clones w))
  | ESctty a y force su => '(_, k) ← tiocsctty k a y force su; Some (mk_world k (w_clones w))
  | ESpgrp a y pgid => '(_, k) ← tiocspgrp k a y pgid; Some (mk_world k (w_clones w))
  | ENotty a y => '(_, _, k) ← tiocnotty k a y; Some (mk_world k (w_clones w))
  end.

Definition run (w : world) (es : list event) : option world := foldl (fun w e => w ← w; step w e) (Some w) es.

(** ** When the code does what *)

Section Ready.
Context (w : world).
Notation k := (w_k w).

Definition in_threads (a : Z) : Prop := exists g x, group_of k a = Some (g, x) /\ a ∈ g_threads x.
Definition listed (a : Z) : Prop := exists t, k_tasks k !! a = Some t /\ p_task (pid_at k (t_pid t)) = Some a.
Definition busy (a : Z) : Prop := exists b c, w_clones w !! b = Some c /\ c_parent c = Some a.
Definition is_exiting (a : Z) : bool := match k_tasks k !! a with Some t => t_exiting t | None => true end.

(** A task that is running its own code: started, not exiting, and not in the
    middle of making another. *)
Definition running (a : Z) : Prop := in_threads a /\ is_exiting a = false /\ w_clones w !! a = None /\ ~ busy a.

Definition at_stage (b : Z) (P : clone -> Prop) : Prop := exists c, w_clones w !! b = Some c /\ P c.

Definition for_children (a : Z) : option Z := t ← k_tasks k !! a; t_pid_ns_for_children t.

Definition ready (e : event) : Prop :=
  match e with
  | ECreate caller parent want b =>
      k_tasks k !! b = None /\ w_clones w !! b = None /\ in_s 32 want /\ create_pid k want <> None /\
      match caller with
      | Some a => running a /\ parent = Some a
      | None => match parent with Some p => in_threads p /\ w_clones w !! p = None | None => k_tasks k = ∅ end
      end
  | ECloneParent b => at_stage b (fun c => c_stage c = Created /\ c_parent c <> None)
  | ENs b thread newpid mem n =>
      k_nss k !! n = None /\
      at_stage b (fun c => c_stage c = Created /\
        exists a, c_parent c = Some a /\ (thread = true -> newpid = false /\ for_children a = None))
  | ECopy b => at_stage b (fun c => c_stage c = Numbered /\ c_thread c = false)
  | ELink b g =>
      k_groups k !! g = None /\
      at_stage b (fun c => match c_stage c with Copied _ => c_thread c = false | Numbered => c_thread c = true | _ => False end)
  | EFailEarly b => at_stage b (fun c => match c_stage c with Created | Numbered | Copied _ => True | _ => False end)
  | EFailLate b | EStart b | ENeverRan b => at_stage b (fun c => c_stage c = Linked)
  | EForget b => at_stage b (fun c => c_stage c = Failing \/ c_stage c = NeverRan)
  | EDestroy b => at_stage b (fun c => c_stage c = Failed)
  | EBuild b g => k_groups k !! g = None /\ at_stage b (fun c => c_stage c = Created /\ c_parent c = None)
  | ESetpgid a id pgid => running a /\ in_s 32 id /\ in_s 32 pgid
  | ERestore a sid pgid => running a /\ in_s 32 sid /\ in_s 32 pgid /\ exists g x, group_of k a = Some (g, x) /\ g_tty x = None
  | ESetsid a | EExiting a | EDidExec a => running a
  | EExit a _ => in_threads a /\ is_exiting a = true /\ w_clones w !! a = None /\ ~ busy a
  | EZombie l => exists g x, group_of k l = Some (g, x) /\ g_leader x = l /\ g_threads x = [] /\ w_clones w !! l = None
  | EUnlink a =>
      listed a /\ w_clones w !! a = None /\
      exists g x, group_of k a = Some (g, x) /\ a ∉ g_threads x /\ g_leader x <> a
  | ERelease l =>
      listed l /\ w_clones w !! l = None /\ zombie k l = true /\
      exists g x, group_of k l = Some (g, x) /\ g_leader x = l /\ g_threads x = [] /\ g_traced_zombies x = 0 /\
        (forall b t, listed b -> k_tasks k !! b = Some t -> t_group t = g -> w_clones w !! b = None -> b = l)
  | EReparent a b => in_threads a /\ is_exiting a = true /\ exists t, k_tasks k !! b = Some t /\ t_parent t = Some a
  | EExec a inherit_parent => running a /\ match inherit_parent with Some p => is_Some (k_tasks k !! p) | None => True end /\ exists g x, group_of k a = Some (g, x) /\ g_leader x <> a /\ g_threads x = [a]
  | EUnshare a _ n => running a /\ k_nss k !! n = None
  | ESetns a n => running a /\ pid_ns_in k n (task_ns k a) = true /\ match n with Some m => is_Some (k_nss k !! m) | None => True end
  | ENsDead n => is_Some (k_nss k !! n)
  | EPidMax _ => True
  | ENewTty y _ => k_ttys k !! y = None
  | EOpenTty a y | ESctty a y _ _ | ESpgrp a y _ | ENotty a y => running a /\ is_Some (k_ttys k !! y)
  end.
End Ready.
