(* ===== verification/ProcLinks.v ===== *)
(** * The lists of process groups and sessions agree with the processes

    The lists that hang off the pid table name exactly the processes whose
    thread groups name the pid, over every run of [ProcWorld] in which four
    races the code has do not happen ([calm]); none of its pointers is stale and
    no assertion fails. *)

From S2P Require Import Prelude Pids Groups Procs Ctty ProcWorld.

(** ** What a slot holds *)

Definition tk (k : kernel) (id : Z) : option Z := p_task (pid_at k id).
Definition sn (k : kernel) (id : Z) : list Z := p_session (pid_at k id).
Definition pg (k : kernel) (id : Z) : list Z := p_pgroup (pid_at k id).

Lemma pid_at_alter k id f j : is_Some (k_pids k !! id) -> pid_at (alter_pid k id f) j = if decide (j = id) then f (pid_at k id) else pid_at k j.
Proof.
  intros [p Hp]. unfold pid_at, alter_pid. simpl. destruct (decide (j = id)) as [-> | Hne].
  - by rewrite lookup_alter_eq, Hp.
  - by rewrite lookup_alter_ne by congruence.
Qed.

Lemma pid_at_fmap k f j : f zeroed_pid = zeroed_pid -> pid_at (set_pids k (f <$> k_pids k)) j = f (pid_at k j).
Proof. intros Hz. unfold pid_at. simpl. rewrite lookup_fmap. by destruct (k_pids k !! j). Qed.

Lemma in_slot_some k id : pid_at k id <> zeroed_pid -> is_Some (k_pids k !! id).
Proof. unfold pid_at. destruct (k_pids k !! id); [by eexists | done]. Qed.

Lemma tk_some k id b : tk k id = Some b -> is_Some (k_pids k !! id).
Proof. intros H. apply in_slot_some. intros E. unfold tk in H. by rewrite E in H. Qed.
Lemma pg_some k id g : g ∈ pg k id -> is_Some (k_pids k !! id).
Proof. intros H. apply in_slot_some. intros E. unfold pg in H. rewrite E in H. by apply not_elem_of_nil in H. Qed.
Lemma sn_some k id g : g ∈ sn k id -> is_Some (k_pids k !! id).
Proof. intros H. apply in_slot_some. intros E. unfold sn in H. rewrite E in H. by apply not_elem_of_nil in H. Qed.

Lemma elem_without g x l : x ∈ without g l <-> x <> g /\ x ∈ l.
Proof. unfold without. rewrite list_elem_of_filter. done. Qed.
Lemma nodup_without g l : NoDup l -> NoDup (without g l).
Proof. apply NoDup_filter. Qed.

Lemma elem_insert_after old new x l : x ∈ insert_after old new l <-> x ∈ l \/ (x = new /\ old ∈ l).
Proof.
  induction l as [| y l IH]; simpl; [set_solver |]. destruct (y =? old) eqn:E; to_prop; subst.
  - rewrite !elem_of_cons. set_solver.
  - rewrite !elem_of_cons, IH. naive_solver.
Qed.
Lemma nodup_insert_after old new l : NoDup l -> new ∉ l -> NoDup (insert_after old new l).
Proof.
  induction l as [| y l IH]; simpl; intros Hd Hn; [constructor |]. apply NoDup_cons in Hd as [Hy Hd]. apply not_elem_of_cons in Hn as [Hne Hn].
  destruct (y =? old) eqn:E; [rewrite !NoDup_cons, elem_of_cons; naive_solver |].
  rewrite NoDup_cons, elem_insert_after. naive_solver.
Qed.

Lemma map_exists_pg k g : in_pgroup k g <-> exists id, g ∈ pg k id.
Proof.
  unfold in_pgroup, pg, pid_at. unfold map_Exists. split.
  - intros (id & p & Hp & Hg). exists id. by rewrite Hp.
  - intros (id & Hg). destruct (k_pids k !! id) as [p |] eqn:Hp; simpl in Hg; [by exists id, p | by apply not_elem_of_nil in Hg].
Qed.
Lemma map_exists_sn k g : in_session k g <-> exists id, g ∈ sn k id.
Proof.
  unfold in_session, sn, pid_at. unfold map_Exists. split.
  - intros (id & p & Hp & Hg). exists id. by rewrite Hp.
  - intros (id & Hg). destruct (k_pids k !! id) as [p |] eqn:Hp; simpl in Hg; [by exists id, p | by apply not_elem_of_nil in Hg].
Qed.

(** ** Kernels that hold the same tasks and lists *)

Record same_view (k k' : kernel) : Prop := mk_same {
  v_tk : forall id, tk k' id = tk k id;
  v_sn : forall id, sn k' id = sn k id;
  v_pg : forall id, pg k' id = pg k id;
  v_tasks : k_tasks k' = k_tasks k;
  v_groups : k_groups k' = k_groups k;
  v_ttys : k_ttys k' = k_ttys k;
  v_last : k_last_allocated_pid k' = k_last_allocated_pid k;
  v_max : k_pid_max k' = k_pid_max k }.

#[export] Instance same_view_refl : Reflexive same_view.
Proof. by constructor. Qed.
#[export] Instance same_view_trans : Transitive same_view.
Proof. intros a b c [] []; constructor; intros; congruence. Qed.

Lemma same_numbered k id n : same_view k (alter_pid k id (fun p => set_p_numbered p n)).
Proof.
  destruct (k_pids k !! id) eqn:E.
  - assert (is_Some (k_pids k !! id)) as Hs by (rewrite E; by eexists).
    constructor; intros; unfold tk, sn, pg; simpl; try done; rewrite pid_at_alter by done; by destruct (decide _) as [-> |].
  - constructor; intros; unfold tk, sn, pg, pid_at, alter_pid; simpl; try done;
      (destruct (decide (id0 = id)) as [-> |]; [by rewrite lookup_alter_eq, E | by rewrite lookup_alter_ne by congruence]).
Qed.

Lemma same_put_ns k n x : same_view k (put_ns k n x).
Proof. by constructor. Qed.

Lemma same_fold_ns {A} (f : kernel -> A -> kernel) (l : list A) k :
  (forall k a, same_view k (f k a)) -> same_view k (foldl f k l).
Proof. intros Hf. revert k. induction l as [| a l IH]; intros k; simpl; [done |]. etrans; [apply Hf | apply IH]. Qed.

Lemma same_unnumber k id : same_view k (pid_ns_unnumber k id).
Proof.
  unfold pid_ns_unnumber. destruct (id >? MAX_PID); [done |]. destruct (p_numbered _) as [n |]; [| done].
  etrans; [apply (same_numbered k id None) |]. apply same_fold_ns. intros k' m. unfold unnumber_in.
  destruct (k_nss k' !! m); [apply same_put_ns | done].
Qed.

Lemma same_unnumber_if_empty k id : same_view k (pid_ns_unnumber_if_empty k id).
Proof. unfold pid_ns_unnumber_if_empty. destruct (_ && _); [apply same_unnumber | done]. Qed.

Lemma same_number_in k id dones todo : same_view k (snd (number_in k id dones todo)).
Proof.
  revert k dones. induction todo as [| n todo IH]; intros k dones; simpl; [done |].
  destruct (k_nss k !! n) as [x |]; [| done]. destruct (pid_ns_next_nr k x) as [nr x']. destruct (nr =? 0); simpl.
  - etrans; [apply same_put_ns |]. apply same_fold_ns. intros k' m. destruct (k_nss k' !! m); [apply same_put_ns | done].
  - etrans; [apply same_put_ns | apply IH].
Qed.

Lemma same_number_task k id ns : same_view k (snd (pid_ns_number_task k id ns)).
Proof.
  unfold pid_ns_number_task. destruct (u32 id >? MAX_PID); [done |]. destruct ns as [n |]; [| apply same_unnumber].
  pose proof (same_number_in (pid_ns_unnumber k (u32 id)) (u32 id) [] (ups (pid_ns_unnumber k (u32 id)) (Some n))) as Hn.
  destruct (number_in _ _ _ _) as [err k']. simpl in Hn. destruct (err <? 0); simpl.
  - etrans; [apply same_unnumber | done].
  - etrans; [apply same_unnumber |]. etrans; [done |]. apply same_numbered.
Qed.

(** ** Joining and leaving lists *)

Lemma unlink_pg k g id : pg (pgroup_unlink k g) id = without g (pg k id).
Proof. unfold pg, pgroup_unlink. by rewrite pid_at_fmap. Qed.
Lemma unlink_pg_sn k g id : sn (pgroup_unlink k g) id = sn k id.
Proof. unfold sn, pgroup_unlink. by rewrite pid_at_fmap. Qed.
Lemma unlink_pg_tk k g id : tk (pgroup_unlink k g) id = tk k id.
Proof. unfold tk, pgroup_unlink. by rewrite pid_at_fmap. Qed.
Lemma unlink_sn k g id : sn (session_unlink k g) id = without g (sn k id).
Proof. unfold sn, session_unlink. by rewrite pid_at_fmap. Qed.
Lemma unlink_sn_pg k g id : pg (session_unlink k g) id = pg k id.
Proof. unfold pg, session_unlink. by rewrite pid_at_fmap. Qed.
Lemma unlink_sn_tk k g id : tk (session_unlink k g) id = tk k id.
Proof. unfold tk, session_unlink. by rewrite pid_at_fmap. Qed.
#[export] Hint Rewrite unlink_pg unlink_pg_sn unlink_pg_tk unlink_sn unlink_sn_pg unlink_sn_tk : procs.

Lemma is_some_unlink k g id : is_Some (k_pids k !! id) -> is_Some (k_pids (pgroup_unlink k g) !! id).
Proof. intros [p Hp]. simpl. rewrite lookup_fmap, Hp. by eexists. Qed.

Lemma pgroup_link_some k id g : is_Some (k_pids k !! id) -> exists k', pgroup_link k id g = Some k' /\
  (forall j, pg k' j = if decide (j = id) then g :: pg k j else pg k j) /\ (forall j, sn k' j = sn k j) /\ (forall j, tk k' j = tk k j) /\
  k_tasks k' = k_tasks k /\ k_groups k' = k_groups k /\ k_last_allocated_pid k' = k_last_allocated_pid k /\ k_pid_max k' = k_pid_max k /\
  (forall j, is_Some (k_pids k !! j) -> is_Some (k_pids k' !! j)) /\ k_ttys k' = k_ttys k.
Proof.
  intros Hs. pose proof Hs as [p Hp]. unfold pgroup_link. rewrite Hp. simpl. eexists. split; [done |].
  repeat split; try done; intros j; try (simpl; by rewrite lookup_alter_is_Some); unfold pg, sn, tk; rewrite pid_at_alter by done; by destruct (decide _) as [-> |].
Qed.
Lemma session_link_some k id g : is_Some (k_pids k !! id) -> exists k', session_link k id g = Some k' /\
  (forall j, sn k' j = if decide (j = id) then g :: sn k j else sn k j) /\ (forall j, pg k' j = pg k j) /\ (forall j, tk k' j = tk k j) /\
  k_tasks k' = k_tasks k /\ k_groups k' = k_groups k /\ k_last_allocated_pid k' = k_last_allocated_pid k /\ k_pid_max k' = k_pid_max k /\
  (forall j, is_Some (k_pids k !! j) -> is_Some (k_pids k' !! j)) /\ k_ttys k' = k_ttys k.
Proof.
  intros Hs. pose proof Hs as [p Hp]. unfold session_link. rewrite Hp. simpl. eexists. split; [done |].
  repeat split; try done; intros j; try (simpl; by rewrite lookup_alter_is_Some); unfold pg, sn, tk; rewrite pid_at_alter by done; by destruct (decide _) as [-> |].
Qed.

(** ** The lists name the groups that name them *)

Definition linked (k : kernel) (g : Z) : Prop := exists id, g ∈ pg k id.

Record lists_ok (k : kernel) : Prop := mk_lists {
  lo_pg : forall id g, g ∈ pg k id -> exists x, k_groups k !! g = Some x /\ g_pgid x = id;
  lo_sn : forall id g, g ∈ sn k id -> exists x, k_groups k !! g = Some x /\ g_sid x = id;
  lo_both : forall g, (exists id, g ∈ sn k id) <-> linked k g;
  lo_pg_nodup : forall id, NoDup (pg k id);
  lo_sn_nodup : forall id, NoDup (sn k id);
  lo_range : forall id, pg k id <> [] \/ sn k id <> [] -> 0 < id <= MAX_PID }.

Lemma linked_at k g x : lists_ok k -> k_groups k !! g = Some x -> linked k g -> g ∈ pg k (g_pgid x).
Proof. intros Hok Hx [id Hg]. destruct (lo_pg k Hok id g Hg) as (y & Hy & <-). congruence. Qed.
Lemma linked_session k g x : lists_ok k -> k_groups k !! g = Some x -> linked k g -> g ∈ sn k (g_sid x).
Proof. intros Hok Hx Hl. apply (lo_both k Hok) in Hl as [id Hg]. destruct (lo_sn k Hok id g Hg) as (y & Hy & <-). congruence. Qed.
Lemma linked_group k g : lists_ok k -> linked k g -> exists x, k_groups k !! g = Some x.
Proof. intros Hok [id Hg]. destruct (lo_pg k Hok id g Hg) as (x & Hx & _). by exists x. Qed.

(** A group moves to, or joins, the lists of the ids it now has. *)
Record entered (k k' : kernel) (g : Z) (x : tgroup) : Prop := mk_entered {
  en_pg : forall id h, h ∈ pg k' id <-> (h = g /\ id = g_pgid x) \/ (h <> g /\ h ∈ pg k id);
  en_sn : forall id h, h ∈ sn k' id <-> (h = g /\ id = g_sid x) \/ (h <> g /\ h ∈ sn k id);
  en_pg_nodup : forall id, NoDup (pg k' id);
  en_sn_nodup : forall id, NoDup (sn k' id);
  en_group : k_groups k' !! g = Some x;
  en_groups : forall h, h <> g -> k_groups k' !! h = k_groups k !! h }.

Lemma not_nil_elem {A} (l : list A) : l <> [] <-> exists a, a ∈ l.
Proof. destruct l; split; [done | intros [a Ha]; by apply not_elem_of_nil in Ha | intros _; eexists; by left | done]. Qed.

Lemma entered_linked k k' g x h : entered k k' g x -> linked k' h <-> h = g \/ (h <> g /\ linked k h).
Proof.
  intros He. unfold linked. setoid_rewrite (en_pg _ _ _ _ He). split.
  - intros (id & [[-> _] | [Hne Hh]]); [by left | right; eauto].
  - intros [-> | [Hne [id Hh]]]; [by exists (g_pgid x); left | exists id; by right].
Qed.

Lemma lists_enter k k' g x : lists_ok k -> entered k k' g x -> 0 < g_pgid x <= MAX_PID -> 0 < g_sid x <= MAX_PID -> lists_ok k'.
Proof.
  intros Hok He Hp Hs. constructor.
  - intros id h Hh. apply (en_pg _ _ _ _ He) in Hh as [[-> ->] | [Hne Hh]]; [exists x; split; [apply (en_group _ _ _ _ He) | done] |].
    rewrite (en_groups _ _ _ _ He h Hne). by apply (lo_pg k Hok).
  - intros id h Hh. apply (en_sn _ _ _ _ He) in Hh as [[-> ->] | [Hne Hh]]; [exists x; split; [apply (en_group _ _ _ _ He) | done] |].
    rewrite (en_groups _ _ _ _ He h Hne). by apply (lo_sn k Hok).
  - intros h. rewrite (entered_linked k k' g x h He), <- (lo_both k Hok h). setoid_rewrite (en_sn _ _ _ _ He). split.
    + intros (id & [[-> _] | [Hne Hh]]); [by left | right; eauto].
    + intros [-> | [Hne [id Hh]]]; [by exists (g_sid x); left | exists id; by right].
  - apply (en_pg_nodup _ _ _ _ He).
  - apply (en_sn_nodup _ _ _ _ He).
  - intros id [Hn | Hn]; apply not_nil_elem in Hn as [h Hh].
    + apply (en_pg _ _ _ _ He) in Hh as [[-> ->] | [_ Hh]]; [done |]. apply (lo_range k Hok). left. apply not_nil_elem. eauto.
    + apply (en_sn _ _ _ _ He) in Hh as [[-> ->] | [_ Hh]]; [done |]. apply (lo_range k Hok). right. apply not_nil_elem. eauto.
Qed.

(** A group leaves both its lists. *)
Record left_lists (k k' : kernel) (g : Z) : Prop := mk_left {
  le_pg : forall id, pg k' id = without g (pg k id);
  le_sn : forall id, sn k' id = without g (sn k id);
  le_groups : forall h, h <> g -> k_groups k' !! h = k_groups k !! h }.

Lemma left_linked k k' g h : left_lists k k' g -> linked k' h <-> h <> g /\ linked k h.
Proof.
  intros Hl. unfold linked. setoid_rewrite (le_pg _ _ _ Hl). setoid_rewrite elem_without. naive_solver.
Qed.

Lemma lists_leave k k' g : lists_ok k -> left_lists k k' g -> lists_ok k'.
Proof.
  intros Hok Hl. constructor.
  - intros id h Hh. rewrite (le_pg _ _ _ Hl) in Hh. apply elem_without in Hh as [Hne Hh].
    rewrite (le_groups _ _ _ Hl h Hne). by apply (lo_pg k Hok).
  - intros id h Hh. rewrite (le_sn _ _ _ Hl) in Hh. apply elem_without in Hh as [Hne Hh].
    rewrite (le_groups _ _ _ Hl h Hne). by apply (lo_sn k Hok).
  - intros h. rewrite (left_linked _ _ _ h Hl), <- (lo_both k Hok h). setoid_rewrite (le_sn _ _ _ Hl). setoid_rewrite elem_without. naive_solver.
  - intros id. rewrite (le_pg _ _ _ Hl). apply nodup_without, (lo_pg_nodup k Hok).
  - intros id. rewrite (le_sn _ _ _ Hl). apply nodup_without, (lo_sn_nodup k Hok).
  - intros id Hn. apply (lo_range k Hok). rewrite (le_pg _ _ _ Hl), (le_sn _ _ _ Hl), !not_nil_elem in Hn.
    rewrite !not_nil_elem. setoid_rewrite elem_without in Hn. naive_solver.
Qed.

(** Nothing about the lists changes but what no list is about. *)
Lemma lists_same k k' : lists_ok k -> (forall id, pg k' id = pg k id) -> (forall id, sn k' id = sn k id) ->
  (forall g x, k_groups k !! g = Some x -> exists y, k_groups k' !! g = Some y /\ g_pgid y = g_pgid x /\ g_sid y = g_sid x) -> lists_ok k'.
Proof.
  intros Hok Hpg Hsn Hg. constructor.
  - intros id g Hin. rewrite Hpg in Hin. destruct (lo_pg k Hok id g Hin) as (x & Hx & <-).
    destruct (Hg g x Hx) as (y & Hy & <- & _). by exists y.
  - intros id g Hin. rewrite Hsn in Hin. destruct (lo_sn k Hok id g Hin) as (x & Hx & <-).
    destruct (Hg g x Hx) as (y & Hy & _ & <-). by exists y.
  - intros g. unfold linked. setoid_rewrite Hpg. setoid_rewrite Hsn. apply (lo_both k Hok).
  - intros id. rewrite Hpg. apply (lo_pg_nodup k Hok).
  - intros id. rewrite Hsn. apply (lo_sn_nodup k Hok).
  - intros id Hn. rewrite Hpg, Hsn in Hn. by apply (lo_range k Hok).
Qed.

(** ** The table holds the processes, and the half-made ones *)

Definition leads (k : kernel) (b : Z) : Prop := exists g x, k_groups k !! g = Some x /\ linked k g /\ g_leader x = b.
Definition idle (k : kernel) (b : Z) : Prop := (forall g x, k_groups k !! g = Some x -> b ∉ g_threads x) /\ ~ leads k b.

Definition clone_ok (k : kernel) (b : Z) (c : clone) : Prop :=
  exists t, k_tasks k !! b = Some t /\
  match c_stage c with
  | NeverRan => idle k b /\ tk k (t_pid t) <> Some b
  | Failing | Failed => idle k b /\ tk k (t_pid t) = Some b
  | Linked => exists x, k_groups k !! t_group t = Some x /\ b ∈ g_threads x /\
      (c_thread c = false -> g_leader x = b /\ g_threads x = [b] /\ forall a s, k_tasks k !! a = Some s -> t_group s = t_group t -> a = b) /\
      (c_thread c = true -> g_leader x <> b /\ exists a, c_parent c = Some a /\ a ∈ g_threads x)
  | s => idle k b /\ tk k (t_pid t) = Some b /\
      (forall a, c_parent c = Some a -> exists ta x, k_tasks k !! a = Some ta /\ t_group ta = t_group t /\ k_groups k !! t_group t = Some x /\ a ∈ g_threads x) /\
      (c_parent c = None -> s = Created)
  end.

(** A thread of its group still: it has not exited. *)
Definition alive (k : kernel) (a : Z) : Prop := exists t x, k_tasks k !! a = Some t /\ k_groups k !! t_group t = Some x /\ a ∈ g_threads x.

Record procs_ok (k : kernel) (cl : gmap Z clone) : Prop := mk_procs {
  po_listed : forall id b, tk k id = Some b -> 0 < id <= MAX_PID /\ exists t, k_tasks k !! b = Some t /\ t_pid t = id;
  po_parent : forall a t p, k_tasks k !! a = Some t -> t_parent t = Some p -> is_Some (k_tasks k !! p);
  po_leader : forall g x, k_groups k !! g = Some x -> linked k g ->
    exists t, k_tasks k !! g_leader x = Some t /\ t_group t = g /\ tk k (t_pid t) = Some (g_leader x);
  po_threads : forall g x b, k_groups k !! g = Some x -> b ∈ g_threads x ->
    linked k g /\ exists t, k_tasks k !! b = Some t /\ t_group t = g /\ tk k (t_pid t) = Some b;
  po_groups : forall b t, k_tasks k !! b = Some t -> is_Some (k_groups k !! t_group t) \/ forall a, is_Some (k_tasks k !! a) -> a = b;
  po_tasks : forall b t, k_tasks k !! b = Some t -> tk k (t_pid t) = Some b -> cl !! b = None -> linked k (t_group t);
  po_clones : forall b c, cl !! b = Some c -> clone_ok k b c;
  po_busy : forall b c a, cl !! b = Some c -> c_parent c = Some a -> cl !! a = None /\ alive k a }.

(** Where there is a thread, every task has a thread group. *)
Lemma task_group_some k cl : procs_ok k cl -> (exists g x a, k_groups k !! g = Some x /\ a ∈ g_threads x) -> forall b t, k_tasks k !! b = Some t -> is_Some (k_groups k !! t_group t).
Proof.
  intros Hp (g & x & a & Hx & Ha) b t Ht. destruct (po_groups _ _ Hp b t Ht) as [H | H]; [done |].
  destruct (po_threads _ _ Hp g x a Hx Ha) as (_ & s & Hs & E & _). assert (a = b) as -> by (apply H; by exists s). exists x. congruence.
Qed.

(** What the search for a pid starts from. *)
Definition alloc_ok (k : kernel) : Prop := 0 <= k_last_allocated_pid k <= MAX_PID /\ 301 <= k_pid_max k.

Record links_ok (w : world) : Prop := mk_links {
  lk_lists : lists_ok (w_k w); lk_procs : procs_ok (w_k w) (w_clones w); lk_alloc : alloc_ok (w_k w) }.

(** ** Changes neither part is about *)

Definition task_like (t t' : task) : Prop := t_pid t' = t_pid t /\ t_group t' = t_group t.
Definition group_like (x y : tgroup) : Prop := g_leader y = g_leader x /\ g_sid y = g_sid x /\ g_pgid y = g_pgid x /\ g_threads y = g_threads x.

Record soft (k k' : kernel) : Prop := mk_soft {
  so_tk : forall id, tk k' id = tk k id;
  so_sn : forall id, sn k' id = sn k id;
  so_pg : forall id, pg k' id = pg k id;
  so_tasks : forall a, option_Forall2 task_like (k_tasks k !! a) (k_tasks k' !! a);
  so_parent : forall a t p, k_tasks k' !! a = Some t -> t_parent t = Some p ->
    is_Some (k_tasks k !! p) \/ exists s, k_tasks k !! a = Some s /\ t_parent s = Some p;
  so_groups : forall g, option_Forall2 group_like (k_groups k !! g) (k_groups k' !! g);
  so_last : k_last_allocated_pid k' = k_last_allocated_pid k;
  so_max : k_pid_max k' = k_pid_max k }.

Lemma opt_like {A} (R : A -> A -> Prop) o o' x : option_Forall2 R o o' -> o = Some x -> exists y, o' = Some y /\ R x y.
Proof. intros H ->. inversion H; subst. eauto. Qed.
Lemma opt_like_inv {A} (R : A -> A -> Prop) o o' y : option_Forall2 R o o' -> o' = Some y -> exists x, o = Some x /\ R x y.
Proof. intros H ->. inversion H; subst. eauto. Qed.
Lemma opt_refl {A} (R : A -> A -> Prop) (o : option A) : (forall x, R x x) -> option_Forall2 R o o.
Proof. intros H. destruct o; by constructor. Qed.

Lemma task_like_refl t : task_like t t.
Proof. done. Qed.
Lemma group_like_refl x : group_like x x.
Proof. done. Qed.
#[export] Instance task_like_trans : Transitive task_like.
Proof. intros s t u [] []. split; congruence. Qed.
#[export] Instance group_like_trans : Transitive group_like.
Proof. intros x y z (? & ? & ? & ?) (? & ? & ? & ?). repeat split; congruence. Qed.
#[export] Hint Resolve task_like_refl group_like_refl opt_refl : procs.

Lemma soft_view k k' : same_view k k' -> soft k k'.
Proof.
  intros [Htk Hsn Hpg Ht Hg Hty Hla Hmx]. constructor; try done.
  - intros a. rewrite Ht. auto with procs.
  - intros a t p. rewrite Ht. eauto.
  - intros g. rewrite Hg. auto with procs.
Qed.

Lemma soft_trans k1 k2 k3 : soft k1 k2 -> soft k2 k3 -> soft k1 k3.
Proof.
  intros A B. constructor.
  - intros id. by rewrite (so_tk _ _ B), (so_tk _ _ A).
  - intros id. by rewrite (so_sn _ _ B), (so_sn _ _ A).
  - intros id. by rewrite (so_pg _ _ B), (so_pg _ _ A).
  - intros a. etrans; [apply (so_tasks _ _ A) | apply (so_tasks _ _ B)].
  - intros a t p Ht Hp. destruct (so_parent _ _ B a t p Ht Hp) as [[s Hs] | (s & Hs & Hsp)].
    + left. destruct (opt_like_inv _ _ _ _ (so_tasks _ _ A p) Hs) as (r & Hr & _). by exists r.
    + by apply (so_parent _ _ A a s p).
  - intros g. etrans; [apply (so_groups _ _ A) | apply (so_groups _ _ B)].
  - by rewrite (so_last _ _ B), (so_last _ _ A).
  - by rewrite (so_max _ _ B), (so_max _ _ A).
Qed.

Lemma soft_put_task k a t t' : k_tasks k !! a = Some t -> task_like t t' ->
  (forall p, t_parent t' = Some p -> is_Some (k_tasks k !! p) \/ t_parent t = Some p) -> soft k (put_task k a t').
Proof.
  intros Ht Hl Hp. constructor; try done.
  - intros b. simpl. destruct (decide (b = a)) as [-> | Hne]; [rewrite lookup_insert_eq, Ht; by constructor | rewrite lookup_insert_ne by congruence; auto with procs].
  - intros b s p Hs Hsp. simpl in Hs. destruct (decide (b = a)) as [-> | Hne].
    + rewrite lookup_insert_eq in Hs. simplify_eq. destruct (Hp p Hsp) as [H | H]; [by left | right; eauto].
    + rewrite lookup_insert_ne in Hs by congruence. right. eauto.
  - intros g. simpl. auto with procs.
Qed.

Lemma soft_put_group k g x y : k_groups k !! g = Some x -> group_like x y -> soft k (put_group k g y).
Proof.
  intros Hx Hl. constructor; try done.
  - intros a. simpl. auto with procs.
  - intros a t p Ht Hp. right. eauto.
  - intros h. simpl. destruct (decide (h = g)) as [-> | Hne]; [rewrite lookup_insert_eq, Hx; by constructor | rewrite lookup_insert_ne by congruence; auto with procs].
Qed.

(** And the terminals as they were. *)
Record quiet (k k' : kernel) : Prop := mk_quiet {
  qu_soft : soft k k';
  qu_ttys : k_ttys k' = k_ttys k;
  qu_tty : forall g, option_Forall2 (fun x y => g_tty y = g_tty x) (k_groups k !! g) (k_groups k' !! g) }.

Lemma quiet_view k k' : same_view k k' -> quiet k k'.
Proof.
  intros H. constructor; [by apply soft_view | by apply (v_ttys _ _ H) |]. intros g. rewrite (v_groups _ _ H). by apply opt_refl.
Qed.

Lemma option_forall2_trans {A} (R : A -> A -> Prop) (x y z : option A) : (forall a b c, R a b -> R b c -> R a c) -> option_Forall2 R x y -> option_Forall2 R y z -> option_Forall2 R x z.
Proof. intros HR H1 H2. destruct H1; inversion H2; subst; constructor. eauto. Qed.

Lemma quiet_trans k1 k2 k3 : quiet k1 k2 -> quiet k2 k3 -> quiet k1 k3.
Proof.
  intros [A1 A2 A3] [B1 B2 B3]. constructor; [by apply (soft_trans k1 k2) | congruence |]. intros g.
  eapply option_forall2_trans; [| apply A3 | apply B3]. simpl. congruence.
Qed.

Lemma quiet_put_task k a t t' : k_tasks k !! a = Some t -> task_like t t' ->
  (forall p, t_parent t' = Some p -> is_Some (k_tasks k !! p) \/ t_parent t = Some p) -> quiet k (put_task k a t').
Proof.
  intros Ht Hl Hp. constructor; [by apply (soft_put_task k a t) | done |]. intros g. by apply opt_refl.
Qed.

(** The processes depend on less: the ids may change. *)
Definition crew_like (x y : tgroup) : Prop := g_leader y = g_leader x /\ g_threads y = g_threads x.

Record alike (k k' : kernel) : Prop := mk_alike {
  al_tk : forall id, tk k' id = tk k id;
  al_linked : forall g, linked k' g <-> linked k g;
  al_tasks : forall a, option_Forall2 task_like (k_tasks k !! a) (k_tasks k' !! a);
  al_parent : forall a t p, k_tasks k' !! a = Some t -> t_parent t = Some p ->
    is_Some (k_tasks k !! p) \/ exists s, k_tasks k !! a = Some s /\ t_parent s = Some p;
  al_groups : forall g, option_Forall2 crew_like (k_groups k !! g) (k_groups k' !! g) }.

Lemma soft_linked k k' g : soft k k' -> linked k' g <-> linked k g.
Proof. intros H. unfold linked. by setoid_rewrite (so_pg _ _ H). Qed.

Lemma soft_alike k k' : soft k k' -> alike k k'.
Proof.
  intros H. constructor; [apply (so_tk _ _ H) | intros g; by apply soft_linked | apply (so_tasks _ _ H) | apply (so_parent _ _ H) |].
  intros g. destruct (so_groups _ _ H g) as [x y (? & _ & _ & ?) |]; by constructor.
Qed.

Lemma alike_idle k k' b : alike k k' -> idle k b -> idle k' b.
Proof.
  intros H [Ht Hl]. split.
  - intros g y Hy. destruct (opt_like_inv _ _ _ _ (al_groups _ _ H g) Hy) as (x & Hx & (_ & ->)). by apply (Ht g).
  - intros (g & y & Hy & Hlk & <-). apply Hl. destruct (opt_like_inv _ _ _ _ (al_groups _ _ H g) Hy) as (x & Hx & (-> & _)).
    exists g, x. by rewrite <- (al_linked _ _ H g).
Qed.

Lemma alike_alive k k' a : alike k k' -> alive k a -> alive k' a.
Proof.
  intros H (t & x & Ht & Hx & Hin). destruct (opt_like _ _ _ _ (al_tasks _ _ H a) Ht) as (t' & Ht' & _ & Eg). destruct (opt_like _ _ _ _ (al_groups _ _ H _) Hx) as (x' & Hx' & _ & Et).
  exists t', x'. by rewrite Eg, Et.
Qed.

Lemma alike_clone k k' b c : alike k k' -> clone_ok k b c -> clone_ok k' b c.
Proof.
  intros H (t & Ht & Hc). destruct (opt_like _ _ _ _ (al_tasks _ _ H b) Ht) as (t' & Ht' & Epid & Egrp). exists t'. split; [done |].
  assert (forall a, (exists ta x, k_tasks k !! a = Some ta /\ t_group ta = t_group t /\ k_groups k !! t_group t = Some x /\ a ∈ g_threads x) ->
    exists ta x, k_tasks k' !! a = Some ta /\ t_group ta = t_group t /\ k_groups k' !! t_group t = Some x /\ a ∈ g_threads x) as Hal.
  { intros a (ta & x & Hta & Eta & Hx & Hin). destruct (opt_like _ _ _ _ (al_tasks _ _ H a) Hta) as (ta' & Hta' & _ & Ega).
    destruct (opt_like _ _ _ _ (al_groups _ _ H _) Hx) as (x' & Hx' & (_ & Ethr)). exists ta', x'. rewrite Ega, Ethr. done. }
  destruct (c_stage c); rewrite ?Epid, ?Egrp, ?(al_tk _ _ H); try (destruct Hc as (Hi & Htk & Ha & Hn); split; [by apply (alike_idle k) |]; by auto).
  - destruct Hc as (x & Hx & Hin & Hp & Hth). destruct (opt_like _ _ _ _ (al_groups _ _ H _) Hx) as (x' & Hx' & (El & Et)).
    exists x'. rewrite El, Et. split; [done |]. split; [done |]. split; [| done]. intros E. destruct (Hp E) as (H1 & H2 & H3). split; [done |]. split; [done |]. intros a s' Hs' Es.
    destruct (opt_like_inv _ _ _ _ (al_tasks _ _ H a) Hs') as (s & Hs & _ & Egs). apply (H3 a s Hs). congruence.
  - destruct Hc as [Hi Htk]. split; [by apply (alike_idle k) | done].
  - destruct Hc as [Hi Htk]. split; [by apply (alike_idle k) | done].
  - destruct Hc as [Hi Htk]. split; [by apply (alike_idle k) | done].
Qed.

Lemma alike_procs k k' cl : alike k k' -> procs_ok k cl -> procs_ok k' cl.
Proof.
  intros H Hok. constructor.
  - intros id b. rewrite (al_tk _ _ H). intros Hb. destruct (po_listed k cl Hok id b Hb) as (Hr & t & Ht & <-). split; [done |].
    destruct (opt_like _ _ _ _ (al_tasks _ _ H b) Ht) as (t' & Ht' & E & _). eauto.
  - intros a t p Ht Hp. assert (is_Some (k_tasks k !! p)) as [s Hs].
    { destruct (al_parent _ _ H a t p Ht Hp) as [Hs | (s & Hs & Hsp)]; [done | by apply (po_parent k cl Hok a s)]. }
    destruct (opt_like _ _ _ _ (al_tasks _ _ H p) Hs) as (s' & Hs' & _). by exists s'.
  - intros g y Hy Hl. destruct (opt_like_inv _ _ _ _ (al_groups _ _ H g) Hy) as (x & Hx & (-> & _)). rewrite (al_linked _ _ H g) in Hl.
    destruct (po_leader k cl Hok g x Hx Hl) as (t & Ht & Eg & Etk). destruct (opt_like _ _ _ _ (al_tasks _ _ H _) Ht) as (t' & Ht' & Ep & Eg').
    exists t'. rewrite Ep, Eg', (al_tk _ _ H). done.
  - intros g y b Hy Hb. destruct (opt_like_inv _ _ _ _ (al_groups _ _ H g) Hy) as (x & Hx & (_ & Et)). rewrite Et in Hb.
    destruct (po_threads k cl Hok g x b Hx Hb) as (Hl & t & Ht & Eg & Etk). rewrite (al_linked _ _ H g). split; [done |].
    destruct (opt_like _ _ _ _ (al_tasks _ _ H _) Ht) as (t' & Ht' & Ep & Eg'). exists t'. rewrite Ep, Eg', (al_tk _ _ H). done.
  - intros b t' Ht'. destruct (opt_like_inv _ _ _ _ (al_tasks _ _ H b) Ht') as (t & Ht & _ & ->). destruct (po_groups k cl Hok b t Ht) as [[z Hz] | Ho].
    + left. destruct (opt_like _ _ _ _ (al_groups _ _ H _) Hz) as (z' & Hz' & _). by exists z'.
    + right. intros a [s' Hs']. destruct (opt_like_inv _ _ _ _ (al_tasks _ _ H a) Hs') as (s & Hs & _). apply Ho. by exists s.
  - intros b t' Ht' Htk Hc. destruct (opt_like_inv _ _ _ _ (al_tasks _ _ H b) Ht') as (t & Ht & Ep & ->). rewrite Ep, (al_tk _ _ H) in Htk.
    rewrite (al_linked _ _ H). by apply (po_tasks k cl Hok b).
  - intros b c Hb. by apply (alike_clone k), (po_clones k cl Hok).
  - intros b c a Hb Ha. destruct (po_busy k cl Hok b c a Hb Ha) as [Hn Hal]. split; [done |]. by apply (alike_alive k).
Qed.

Lemma soft_lists k k' : soft k k' -> lists_ok k -> lists_ok k'.
Proof.
  intros H Hok. apply (lists_same k); [done | apply (so_pg _ _ H) | apply (so_sn _ _ H) |]. intros g x Hx.
  destruct (opt_like _ _ _ _ (so_groups _ _ H g) Hx) as (y & Hy & (_ & Es & Ep & _)). eauto.
Qed.

Lemma soft_links k k' cl : soft k k' -> links_ok (mk_world k cl) -> links_ok (mk_world k' cl).
Proof.
  intros H [Hl Hp Ha]. split; [by apply (soft_lists k) | by apply (alike_procs k); [apply soft_alike |] |]. unfold alloc_ok in *. simpl in *.
  by rewrite (so_last _ _ H), (so_max _ _ H).
Qed.
