(* ===== verification/ProcSound.v ===== *)
(** * Every event of [ProcWorld] keeps lists and processes together

    For each operation of Groups.v, Procs.v and Ctty.v: it runs through, and
    what it leaves of [links_ok] (ProcLinks.v). *)

From S2P Require Import Prelude Pids Groups Procs Ctty ProcWorld ProcLinks.

(** ** A group moves between lists *)

Record moved (k k' : kernel) (g : Z) (x x' : tgroup) : Prop := mk_moved {
  mv_entered : entered k k' g x';
  mv_crew : crew_like x x';
  mv_tk : forall id, tk k' id = tk k id;
  mv_tasks : k_tasks k' = k_tasks k;
  mv_last : k_last_allocated_pid k' = k_last_allocated_pid k;
  mv_max : k_pid_max k' = k_pid_max k;
  mv_pgid : 0 < g_pgid x' <= MAX_PID;
  mv_sid : 0 < g_sid x' <= MAX_PID }.

Lemma moved_links k k' g x x' cl : links_ok (mk_world k cl) -> k_groups k !! g = Some x -> linked k g -> moved k k' g x x' -> links_ok (mk_world k' cl).
Proof.
  intros [Hl Hp Ha] Hx Hg Hm. simpl in *. split; simpl.
  - apply (lists_enter k k' g x'); [done | apply (mv_entered _ _ _ _ _ Hm) | apply (mv_pgid _ _ _ _ _ Hm) | apply (mv_sid _ _ _ _ _ Hm)].
  - apply (alike_procs k); [| done]. pose proof (mv_entered _ _ _ _ _ Hm) as He. constructor.
    + apply (mv_tk _ _ _ _ _ Hm).
    + intros h. rewrite (entered_linked _ _ _ _ h He). destruct (decide (h = g)) as [-> | Hne]; tauto.
    + intros a. rewrite (mv_tasks _ _ _ _ _ Hm). auto with procs.
    + intros a t p. rewrite (mv_tasks _ _ _ _ _ Hm). eauto.
    + intros h. destruct (decide (h = g)) as [-> | Hne].
      * rewrite Hx, (en_group _ _ _ _ He). constructor. apply (mv_crew _ _ _ _ _ Hm).
      * rewrite (en_groups _ _ _ _ He h Hne). apply opt_refl. done.
  - unfold alloc_ok in *. by rewrite (mv_last _ _ _ _ _ Hm), (mv_max _ _ _ _ _ Hm).
Qed.

(** A slot that holds something is found under its own number. *)
Lemma pid_get_global_spec k id p : pid_get_global k id = Some p -> p = u32 id /\ 0 <= p <= MAX_PID /\ pid_empty (pid_at k p) = false.
Proof.
  unfold pid_get_global. destruct (u32 id >=? MAX_PID + 1) eqn:E1; [done |]. destruct (pid_empty _) eqn:E2; [done |]. intros [= <-].
  to_prop. split; [done |]. split; [| done]. pose proof (wrap_range 32 id ltac:(lia)) as Hr. unfold u32, in_u in *. lia.
Qed.
Lemma pid_get_global_found k id : 0 < id <= MAX_PID -> pid_empty (pid_at k id) = false -> pid_get_global k id = Some id.
Proof.
  intros Hr He. unfold pid_get_global. unfold MAX_PID in *. rewrite (u32_small id) by lia.
  destruct (id >=? _) eqn:E; [to_prop; lia |]. by rewrite He.
Qed.

Lemma pid_empty_false k id : pid_empty (pid_at k id) = false <-> tk k id <> None \/ sn k id <> [] \/ pg k id <> [].
Proof. unfold pid_empty, tk, sn, pg. destruct (p_task _), (p_session _), (p_pgroup _); naive_solver. Qed.

Lemma slot_range k cl id : links_ok (mk_world k cl) -> pid_empty (pid_at k id) = false -> 0 < id <= MAX_PID.
Proof.
  intros [Hl Hp _] He. apply pid_empty_false in He as [He | [He | He]].
  - destruct (tk k id) as [b |] eqn:E; [| done]. by destruct (po_listed _ _ Hp id b E).
  - apply (lo_range _ Hl). by right.
  - apply (lo_range _ Hl). by left.
Qed.

Lemma tk_not_empty k id b : tk k id = Some b -> pid_empty (pid_at k id) = false.
Proof. intros H. apply pid_empty_false. left. by rewrite H. Qed.

(** Taking a group off its lists, whether or not its numbers go back too. *)
Lemma unnumber_slot k id j : is_Some (k_pids k !! j) -> is_Some (k_pids (pid_ns_unnumber_if_empty k id) !! j).
Proof.
  intros Hj. unfold pid_ns_unnumber_if_empty. destruct (_ && _); [| done]. unfold pid_ns_unnumber. destruct (_ >? _); [done |].
  destruct (p_numbered _) as [n |]; [| done]. set (k0 := alter_pid _ _ _).
  assert (is_Some (k_pids k0 !! j)) as H0 by (unfold k0; simpl; by rewrite lookup_alter_is_Some).
  clearbody k0. generalize (ups k (Some n)). intros l. revert k0 H0. induction l as [| m l IH]; intros k0 H0; simpl; [done |].
  apply IH. unfold unnumber_in. by destruct (k_nss k0 !! m).
Qed.

Lemma leave_session_spec k a t x : k_tasks k !! a = Some t -> k_groups k !! t_group t = Some x ->
  exists k', task_leave_session k a = Some k' /\
    (forall id, sn k' id = without (t_group t) (sn k id)) /\ (forall id, pg k' id = pg k id) /\ (forall id, tk k' id = tk k id) /\
    k_tasks k' = k_tasks k /\ k_groups k' !! t_group t = Some (set_g_tty x None) /\ (forall h, h <> t_group t -> k_groups k' !! h = k_groups k !! h) /\
    k_last_allocated_pid k' = k_last_allocated_pid k /\ k_pid_max k' = k_pid_max k /\
    (forall id, is_Some (k_pids k !! id) -> is_Some (k_pids k' !! id)).
Proof.
  intros Ht Hx. unfold task_leave_session. rewrite Ht. simpl. rewrite Hx. simpl. set (lastg := match pid_get_global k (g_sid x) with Some p => _ | None => _ end).
  clearbody lastg. set (k0 := session_unlink k (t_group t)). pose proof (same_unnumber_if_empty k0 (g_sid x)) as V.
  assert (forall id, is_Some (k_pids k !! id) -> is_Some (k_pids (pid_ns_unnumber_if_empty k0 (g_sid x)) !! id)) as Hs.
  { intros id [p Hp]. apply unnumber_slot. unfold k0. simpl. rewrite lookup_fmap, Hp. by eexists. }
  set (k1 := pid_ns_unnumber_if_empty k0 (g_sid x)) in *. clearbody k1.
  assert (forall id, sn k1 id = without (t_group t) (sn k id)) as A1 by (intros id; rewrite (v_sn _ _ V); apply unlink_sn).
  assert (forall id, pg k1 id = pg k id) as A2 by (intros id; rewrite (v_pg _ _ V); apply unlink_sn_pg).
  assert (forall id, tk k1 id = tk k id) as A3 by (intros id; rewrite (v_tk _ _ V); apply unlink_sn_tk).
  assert (k_groups k1 = k_groups k) as A4 by apply (v_groups _ _ V).
  destruct (g_tty x) as [y |] eqn:Ey; (eexists; split; [done |]).
  - destruct lastg; (split; [exact A1 | split; [exact A2 | split; [exact A3 |]]]); simpl; rewrite A4;
      (repeat split; [apply (v_tasks _ _ V) | by rewrite lookup_insert_eq | intros h Hne; by rewrite lookup_insert_ne by congruence
        | apply (v_last _ _ V) | apply (v_max _ _ V) | done]).
  - assert (set_g_tty x None = x) as -> by (destruct x; simpl in *; by subst).
    rewrite A4. repeat split; [done | done | done | apply (v_tasks _ _ V) | done | apply (v_last _ _ V) | apply (v_max _ _ V) | done].
Qed.

(** A list the group was put at the head of, once off the one it was on. *)
Lemma relinked_elem (g id id' h : Z) l : h ∈ (if decide (id' = id) then g :: without g l else without g l) <-> (h = g /\ id' = id) \/ (h <> g /\ h ∈ l).
Proof.
  destruct (decide (id' = id)) as [-> | Hne]; rewrite ?elem_of_cons, elem_without; [| naive_solver].
  destruct (decide (h = g)) as [-> |]; naive_solver.
Qed.
Lemma relinked_nodup (g id id' : Z) l : NoDup l -> NoDup (if decide (id' = id) then g :: without g l else without g l).
Proof. intros Hl. destruct (decide _); [constructor; [rewrite elem_without; naive_solver |] |]; by apply nodup_without. Qed.

Lemma entered_relinked k k' g x : lists_ok k ->
  (forall id, pg k' id = if decide (id = g_pgid x) then g :: without g (pg k id) else without g (pg k id)) ->
  (forall id, sn k' id = if decide (id = g_sid x) then g :: without g (sn k id) else without g (sn k id)) ->
  k_groups k' !! g = Some x -> (forall h, h <> g -> k_groups k' !! h = k_groups k !! h) -> entered k k' g x.
Proof.
  intros Hok Hp Hs Hx Hg. constructor; try done; intros id; rewrite ?Hp, ?Hs; try (intros h; apply relinked_elem);
    apply relinked_nodup; [apply (lo_pg_nodup _ Hok) | apply (lo_sn_nodup _ Hok)].
Qed.

Lemma session_kept k g x id h : lists_ok k -> k_groups k !! g = Some x -> linked k g ->
  h ∈ sn k id <-> (h = g /\ id = g_sid x) \/ (h <> g /\ h ∈ sn k id).
Proof.
  intros Hok Hx Hl. pose proof (linked_session k g x Hok Hx Hl) as Hin. destruct (decide (h = g)) as [-> | Hne]; [| naive_solver].
  split; [| naive_solver]. intros H. left. split; [done |]. destruct (lo_sn k Hok id g H) as (y & Hy & <-). congruence.
Qed.

Lemma setsid_spec k a t x lt : lists_ok k -> k_tasks k !! a = Some t -> k_groups k !! t_group t = Some x ->
  k_tasks k !! g_leader x = Some lt -> tk k (t_pid lt) = Some (g_leader x) -> 0 < t_pid lt <= MAX_PID ->
  exists r k', task_setsid k a = Some (r, k') /\
    ((k' = k /\ (g_pgid x = t_pid lt \/ g_sid x = t_pid lt)) \/
     (moved k k' (t_group t) x (set_g_ids (set_g_tty x None) (t_pid lt) (t_pid lt)) /\ g_sid x <> t_pid lt /\
      exists k1, task_leave_session k a = Some k1 /\ k_ttys k' = k_ttys k1)).
Proof.
  intros Hok Ht Hx Hlt Htk Hr. unfold task_setsid. rewrite Ht. simpl. rewrite Hx. simpl. rewrite Hlt. simpl.
  destruct (_ || _) eqn:E; [exists _EPERM, k; split; [done |]; left; split; [done |]; apply orb_true_iff in E as [E | E]; to_prop; auto |].
  destruct (leave_session_spec k a t x Ht Hx) as (k1 & El1 & S1 & P1 & T1 & K1 & X1 & G1 & L1 & M1 & I1). rewrite El1. simpl.
  rewrite (pid_get_global_found k1 (t_pid lt)); [| done | apply (tk_not_empty k1 _ (g_leader x)); by rewrite T1]. simpl.
  destruct (session_link_some k1 (t_pid lt) (t_group t)) as (k2 & -> & S2 & P2 & T2 & K2 & X2 & L2 & M2 & _ & Y2); [apply I1; by apply (tk_some k _ (g_leader x)) |]. simpl.
  set (k3 := pgroup_unlink k2 (t_group t)). pose proof (same_unnumber_if_empty k3 (g_pgid x)) as V. set (k4 := pid_ns_unnumber_if_empty k3 (g_pgid x)) in *. clearbody k4.
  assert (forall id, pg k4 id = without (t_group t) (pg k id)) as P4 by (intros id; rewrite (v_pg _ _ V); unfold k3; by rewrite unlink_pg, P2, P1).
  assert (forall id, sn k4 id = if decide (id = t_pid lt) then t_group t :: without (t_group t) (sn k id) else without (t_group t) (sn k id)) as S4
    by (intros id; rewrite (v_sn _ _ V); unfold k3; by rewrite unlink_pg_sn, S2, S1).
  assert (forall id, tk k4 id = tk k id) as T4 by (intros id; rewrite (v_tk _ _ V); unfold k3; by rewrite unlink_pg_tk, T2, T1).
  destruct (pgroup_link_some k4 (t_pid lt) (t_group t)) as (k5 & -> & P5 & S5 & T5 & K5 & X5 & L5 & M5 & _ & Y5); [apply (tk_some k4 _ (g_leader x)); by rewrite T4 |]. simpl.
  assert (k_groups k5 = k_groups k1) as X51 by (rewrite X5, (v_groups _ _ V); unfold k3; simpl; by rewrite X2).
  rewrite X51, X1. simpl. eexists _, _. split; [done |]. right. to_prop. split; [| split; [done | exists k1; split; [done | simpl; rewrite Y5, (v_ttys _ _ V); done]]]. constructor; try done; simpl.
  - apply entered_relinked; [done | | | |].
    + intros id. change (pg k5 id = if decide (id = t_pid lt) then t_group t :: without (t_group t) (pg k id) else without (t_group t) (pg k id)). rewrite P5, P4. done.
    + intros id. change (sn k5 id = if decide (id = t_pid lt) then t_group t :: without (t_group t) (sn k id) else without (t_group t) (sn k id)). by rewrite S5, S4.
    + simpl. by rewrite lookup_insert_eq.
    + intros h Hne. simpl. rewrite lookup_insert_ne by congruence. rewrite X51. by apply G1.
  - intros id. change (tk k5 id = tk k id). by rewrite T5, T4.
  - rewrite K5, (v_tasks _ _ V). unfold k3. simpl. by rewrite K2.
  - rewrite L5, (v_last _ _ V). unfold k3. simpl. by rewrite L2.
  - rewrite M5, (v_max _ _ V). unfold k3. simpl. by rewrite M2.
Qed.

(** ** setpgid *)

Lemma pid_get_spec k viewer id p : in_s 32 id -> 0 <= id -> pid_get k viewer id = Some p ->
  p = pid_ns_global k viewer id /\ pid_empty (pid_at k p) = false.
Proof.
  intros Hs Hid. unfold pid_get. destruct viewer as [v |].
  - destruct (pid_get_global _ _) as [q |] eqn:E; [| done]. destruct (pid_slot_visible _ _ _); [| done]. intros [= <-].
    apply pid_get_global_spec in E as (-> & Hr & He). unfold s32 in *. rewrite swrap_small in * by (done || lia). split; [| done].
    revert Hr. unfold pid_ns_global. destruct (id <=? 0) eqn:E0; [to_prop; assert (id = 0) as -> by lia; done |].
    destruct (id >? MAX_PID); [intros Hr; exfalso; revert Hr; vm_compute; naive_solver |]. set (m := entry _ _).
    destruct (_ || _) eqn:Em; [intros Hr; exfalso; revert Hr; vm_compute; naive_solver |]. intros _. to_prop. apply u32_small. unfold MAX_PID in *. lia.
  - intros E. apply pid_get_global_spec in E as (-> & _ & He). unfold in_s in Hs. simpl in Hs. rewrite u32_small in * by lia. done.
Qed.

(** What a caller may aim setpgid at: itself, or a child that is not half made. *)
Definition whole (cl : gmap Z clone) (b : Z) : Prop :=
  match cl !! b with Some c => c_stage c <> Failing /\ c_stage c <> Failed /\ c_parent c <> None | None => True end.

Lemma whole_linked k cl b t : procs_ok k cl -> k_tasks k !! b = Some t -> tk k (t_pid t) = Some b -> whole cl b -> linked k (t_group t).
Proof.
  intros Hp Ht Htk Hw. unfold whole in Hw. destruct (cl !! b) as [c |] eqn:E; [| by apply (po_tasks _ _ Hp b)].
  destruct (po_clones _ _ Hp b c E) as (t' & Ht' & Hc). simplify_eq. destruct Hw as (Hf & Hd & Hpa).
  assert (forall a, c_parent c = Some a -> (forall a, c_parent c = Some a -> exists ta x, k_tasks k !! a = Some ta /\ t_group ta = t_group t /\ k_groups k !! t_group t = Some x /\ a ∈ g_threads x) -> linked k (t_group t)) as Hal.
  { intros a Ha H. destruct (H a Ha) as (ta & x & _ & _ & Hx & Hin). by apply (po_threads _ _ Hp _ x a). }
  destruct (c_parent c) as [a |] eqn:Ea; [| done]. destruct (c_stage c); try done; try (destruct Hc as (_ & _ & Hc & _); by apply (Hal a)).
  - destruct Hc as (x & Hx & Hin & _). by apply (po_threads _ _ Hp _ x b).
  - by destruct Hc as [_ Hc].
Qed.

Lemma setpgid_check_spec k cl cur tc viewer id pgid p a :
  links_ok (mk_world k cl) -> k_tasks k !! cur = Some tc -> tk k p = Some a ->
  (exists g x c, k_groups k !! g = Some x /\ c ∈ g_threads x) -> pid_empty (pid_at k p) = false ->
  (forall b t, k_tasks k !! b = Some t -> b = cur \/ t_parent t = Some cur -> whole cl b) ->
  in_s 32 pgid -> 0 <= pgid -> (id = pgid -> p = pid_ns_global k viewer pgid) ->
  exists r, setpgid_check k cur viewer id pgid p a = Some r /\
    forall gp, r = inl gp -> gp = pid_ns_global k viewer pgid /\ pid_empty (pid_at k gp) = false /\
      exists t x lt, k_tasks k !! a = Some t /\ t_pid t = p /\ k_groups k !! t_group t = Some x /\ linked k (t_group t) /\
        (a = cur \/ t_parent t = Some cur) /\ k_tasks k !! g_leader x = Some lt /\ g_sid x <> t_pid lt /\
        (id <> pgid -> exists first y, first ∈ pg k gp /\ k_groups k !! first = Some y /\ g_sid y = g_sid x).
Proof.
  intros [Hl Hp _] Hc Htk Hg He Hw Hs Hpos Hsame. simpl in *. unfold setpgid_check. rewrite Hc. simpl.
  destruct (po_listed _ _ Hp p a Htk) as (_ & t & Ht & Epid). rewrite Ht. simpl.
  destruct (task_group_some _ _ Hp Hg a t Ht) as [x Hx]. rewrite Hx. simpl.
  set (joined := if id =? pgid then _ else _).
  assert (exists j, joined = Some j /\ forall gp, j = inl gp -> gp = pid_ns_global k viewer pgid /\ pid_empty (pid_at k gp) = false /\
    (id <> pgid -> exists first y, first ∈ pg k gp /\ k_groups k !! first = Some y /\ g_sid y = g_sid x)) as (j & -> & Hj).
  { unfold joined. destruct (id =? pgid) eqn:Eid; [to_prop; subst; eexists; split; [done |]; intros gp [= <-]; auto; split; [auto | split; [done | done]] |].
    destruct (pid_get k viewer pgid) as [q |] eqn:Eq; [| by eexists]. apply pid_get_spec in Eq as (-> & Hq); [| done | done].
    destruct (p_pgroup _) as [| first rest] eqn:Epg; [by eexists |].
    assert (first ∈ pg k (pid_ns_global k viewer pgid)) as Hin by (unfold pg; rewrite Epg; by left).
    destruct (lo_pg k Hl _ first Hin) as (y & Hy & _). rewrite Hy. simpl. eexists. split; [done |].
    intros gp. destruct (g_sid x =? g_sid y) eqn:Es; simpl; [intros [= <-] | done]. to_prop. split; [done |]. split; [done |]. intros _. by exists first, y. }
  simpl. destruct j as [gp | err]; [| by eexists].
  destruct (negb (a =? cur) && negb (bool_decide (t_parent t = Some cur))) eqn:E1; [by eexists |].
  destruct (negb (a =? cur) && t_did_exec t) eqn:E2; [by eexists |].
  assert (a = cur \/ t_parent t = Some cur) as Hkin.
  { apply andb_false_iff in E1 as [E1 | E1]; apply negb_false_iff in E1; [left; by to_prop | right; by apply bool_decide_eq_true in E1]. }
  assert (linked k (t_group t)) as Hln by (subst p; apply (whole_linked k cl a t Hp Ht Htk), (Hw a t Ht Hkin)).
  destruct (po_leader _ _ Hp _ x Hx Hln) as (lt & Hlt & _ & _). unfold tgroup_is_session_leader. rewrite Hlt. simpl.
  destruct (g_sid x =? t_pid lt) eqn:E3; [by eexists |]. eexists. split; [done |]. intros q [= <-].
  destruct (Hj gp eq_refl) as (-> & Hne & Hse). split; [done |]. split; [done |]. to_prop. exists t, x, lt. repeat split; try done.
Qed.

(** One list changed, the session kept. *)
Lemma moved_pgroup k g x p : lists_ok k -> k_groups k !! g = Some x -> linked k g ->
  0 < p <= MAX_PID -> pid_empty (pid_at k p) = false -> forall old,
  exists k', pgroup_link (put_group (pid_ns_unnumber_if_empty (pgroup_unlink k g) old) g (set_g_ids x (g_sid x) p)) p g = Some k' /\
    moved k k' g x (set_g_ids x (g_sid x) p) /\ k_ttys k' = k_ttys k.
Proof.
  intros Hok Hx Hln Hr He old. set (k0 := pgroup_unlink k g). pose proof (same_unnumber_if_empty k0 old) as V.
  assert (is_Some (k_pids (pid_ns_unnumber_if_empty k0 old) !! p)) as Hs.
  { apply unnumber_slot. apply is_some_unlink, in_slot_some. intros E. by rewrite E in He. }
  set (k1 := pid_ns_unnumber_if_empty k0 old) in *. clearbody k1.
  destruct (pgroup_link_some (put_group k1 g (set_g_ids x (g_sid x) p)) p g Hs) as (k2 & -> & P2 & S2 & T2 & K2 & X2 & L2 & M2 & _ & Y2).
  eexists. split; [done |]. split; [| rewrite Y2; apply (v_ttys _ _ V)]. constructor; try done; simpl.
  - constructor.
    + intros id h. rewrite P2. change (pg (put_group k1 g _) id) with (pg k1 id). rewrite (v_pg _ _ V). unfold k0. rewrite unlink_pg. apply relinked_elem.
    + intros id h. rewrite S2. change (sn (put_group k1 g _) id) with (sn k1 id). rewrite (v_sn _ _ V). unfold k0. rewrite unlink_pg_sn. exact (session_kept k g x id h Hok Hx Hln).
    + intros id. rewrite P2. change (pg (put_group k1 g _) id) with (pg k1 id). rewrite (v_pg _ _ V). unfold k0. rewrite unlink_pg. apply relinked_nodup, (lo_pg_nodup _ Hok).
    + intros id. rewrite S2. change (sn (put_group k1 g _) id) with (sn k1 id). rewrite (v_sn _ _ V). unfold k0. rewrite unlink_pg_sn. apply (lo_sn_nodup _ Hok).
    + rewrite X2. simpl. by rewrite lookup_insert_eq.
    + intros h Hne. rewrite X2. simpl. rewrite lookup_insert_ne by congruence. by rewrite (v_groups _ _ V).
  - intros id. rewrite T2. change (tk (put_group k1 g _) id) with (tk k1 id). rewrite (v_tk _ _ V). apply unlink_pg_tk.
  - rewrite K2. apply (v_tasks _ _ V).
  - rewrite L2. apply (v_last _ _ V).
  - rewrite M2. apply (v_max _ _ V).
  - apply (lo_range _ Hok). right. apply not_nil_elem. exists g. by apply linked_session.
Qed.

Lemma setpgid_spec k cl cur tc id pgid : links_ok (mk_world k cl) -> k_tasks k !! cur = Some tc ->
  (exists g x c, k_groups k !! g = Some x /\ c ∈ g_threads x) ->
  (forall b t, k_tasks k !! b = Some t -> b = cur \/ t_parent t = Some cur -> whole cl b) ->
  in_s 32 id -> in_s 32 pgid ->
  exists r k', sys_setpgid k cur id pgid = Some (r, k') /\
    (k' = k \/ exists a t x lt p, k_tasks k !! a = Some t /\ k_groups k !! t_group t = Some x /\ linked k (t_group t) /\ r = 0 /\
      (a = cur \/ t_parent t = Some cur) /\ tk k (t_pid t) = Some a /\ k_tasks k !! g_leader x = Some lt /\ g_sid x <> t_pid lt /\
      (p = t_pid t \/ exists first y, first ∈ pg k p /\ k_groups k !! first = Some y /\ g_sid y = g_sid x) /\
      moved k k' (t_group t) x (set_g_ids x (g_sid x) p) /\ k_ttys k' = k_ttys k).
Proof.
  intros Hok Hc Hg Hw Hid Hpg. unfold sys_setpgid. rewrite Hc. simpl. set (id' := if id =? 0 then _ else id).
  assert (in_s 32 id') as Hid' by (unfold id'; destruct (id =? 0); [apply swrap_range; lia | done]). set (pgid' := if pgid =? 0 then id' else pgid).
  assert (in_s 32 pgid') as Hpg' by (unfold pgid'; by destruct (pgid =? 0)). clearbody id' pgid'.
  destruct (pgid' <? 0) eqn:E0; [eexists _, _; split; [done | by left] |]. to_prop.
  destruct (pid_get k (t_pid_ns tc) id') as [p |] eqn:Ep; [| eexists _, _; split; [done | by left]].
  destruct (p_task (pid_at k p)) as [a |] eqn:Ea; [| eexists _, _; split; [done | by left]].
  assert (id' = pgid' -> p = pid_ns_global k (t_pid_ns tc) pgid') as Hsame by (intros ->; by apply pid_get_spec in Ep as [-> _]).
  destruct (setpgid_check_spec k cl cur tc (t_pid_ns tc) id' pgid' p a Hok Hc Ea Hg (tk_not_empty k p a Ea) Hw Hpg' E0 Hsame) as (r & -> & Hr). simpl.
  destruct r as [gp | err]; [| eexists _, _; split; [done | by left]].
  destruct (Hr gp eq_refl) as (-> & Hne & t & x & lt & Ht & Etp & Hx & Hln & Hkin & Hlt & Hns & Hjoin). rewrite Ht. simpl. rewrite Hx. simpl.
  destruct (g_pgid x =? _) eqn:Eq; simpl; [eexists _, _; split; [done | by left] |].
  set (gp := pid_ns_global k (t_pid_ns tc) pgid') in *. pose proof (slot_range k cl gp Hok Hne) as Hgr.
  destruct (moved_pgroup k (t_group t) x gp (lk_lists _ Hok) Hx Hln Hgr Hne (g_pgid x)) as (k' & -> & Hm & Hty). simpl.
  eexists _, _. split; [done |]. right. exists a, t, x, lt, gp. subst p. do 8 (split; [done |]). split; [| done].
  destruct (decide (id' = pgid')) as [E | E]; [left; by rewrite (Hsame E) | right; by apply Hjoin].
Qed.

Lemma restore_spec k cl a t x sid pgid : links_ok (mk_world k cl) -> k_tasks k !! a = Some t -> tk k (t_pid t) = Some a ->
  k_groups k !! t_group t = Some x -> linked k (t_group t) -> in_s 32 sid -> in_s 32 pgid ->
  exists k' x', tgroup_restore_ids k a sid pgid = Some k' /\ moved k k' (t_group t) x x' /\ g_tty x' = g_tty x /\ k_ttys k' = k_ttys k.
Proof.
  intros Hok Ht Htk Hx Hln Hs Hp. unfold tgroup_restore_ids. rewrite Ht. simpl. rewrite Hx. simpl.
  assert (pid_get_global k (t_pid t) = Some (t_pid t)) as Hown.
  { apply pid_get_global_found; [| by apply (tk_not_empty k _ a)]. by destruct (po_listed _ _ (lk_procs _ Hok) (t_pid t) a Htk). }
  assert (forall n, exists p n', (match pid_get_global k n with Some p => (Some p, n) | None => (pid_get_global k (t_pid t), t_pid t) end) = (Some p, n') /\
    (in_s 32 n -> p = n') /\ 0 < p <= MAX_PID /\ pid_empty (pid_at k p) = false) as Hfind.
  { intros n. destruct (pid_get_global k n) as [q |] eqn:E.
    - apply pid_get_global_spec in E as (-> & Hq & He). exists (u32 n), n. pose proof (slot_range k cl _ Hok He) as Hr. split; [done |]. split; [| done].
      intros Hn. unfold u32, wrap, in_s, MAX_PID in *. simpl in Hn. destruct (decide (0 <= n)); [apply Z.mod_small; lia |].
      exfalso. rewrite <- (Z.mod_add n 1 (2 ^ 32)) in Hr by lia. rewrite Z.mod_small in Hr by lia. lia.
    - rewrite Hown. exists (t_pid t), (t_pid t). split; [done |]. split; [done |]. apply pid_get_global_spec in Hown as (_ & _ & He).
      split; [by apply (slot_range k cl) | done]. }
  destruct (Hfind sid) as (sp & sid' & -> & Es & Hsr & Hse). destruct (Hfind pgid) as (gp & pgid' & -> & Eg & Hgr & Hge). rewrite <- Es, <- Eg by done. clear Es Eg.
  simpl. assert (is_Some (k_pids k !! sp) /\ is_Some (k_pids k !! gp)) as [Isp Igp].
  { split; apply in_slot_some; [intros E; by rewrite E in Hse | intros E; by rewrite E in Hge]. }
  assert (forall j, is_Some (k_pids k !! j) -> is_Some (k_pids (session_unlink k (t_group t)) !! j)) as I0 by (intros j; simpl; by rewrite lookup_fmap, fmap_is_Some).
  destruct (session_link_some (session_unlink k (t_group t)) sp (t_group t) (I0 sp Isp)) as (k1 & -> & S1 & P1 & T1 & K1 & X1 & L1 & M1 & I1 & Y1).
  simpl. rewrite lookup_insert_eq. simpl. set (k2 := put_group k1 _ _).
  destruct (pgroup_link_some (pgroup_unlink k2 (t_group t)) gp (t_group t)) as (k3 & -> & P3 & S3 & T3 & K3 & X3 & L3 & M3 & _ & Y3).
  { apply is_some_unlink. simpl. by apply I1, I0. }
  eexists _, (set_g_ids x sp gp). split; [done |]. split; [| split; [done | simpl; by rewrite Y3]]. constructor; try done; simpl.
  - apply entered_relinked; [apply Hok | | | |].
    + intros id. simpl. change (pg (put_group k3 _ _) id) with (pg k3 id). rewrite P3, unlink_pg. change (pg k2 id) with (pg k1 id). by rewrite P1, unlink_sn_pg.
    + intros id. simpl. change (sn (put_group k3 _ _) id) with (sn k3 id). rewrite S3, unlink_pg_sn. change (sn k2 id) with (sn k1 id). by rewrite S1, unlink_sn.
    + simpl. by rewrite lookup_insert_eq.
    + intros h Hne. simpl. rewrite lookup_insert_ne by congruence. rewrite X3. simpl. rewrite lookup_insert_ne by congruence. by rewrite X1.
  - intros id. change (tk (put_group k3 _ _) id) with (tk k3 id). rewrite T3, unlink_pg_tk. change (tk k2 id) with (tk k1 id). by rewrite T1, unlink_sn_tk.
  - rewrite K3. simpl. by rewrite K1.
  - rewrite L3. simpl. by rewrite L1.
  - rewrite M3. simpl. by rewrite M1.
Qed.

(** ** The clones' stages *)

(** What the clones may turn into without the kernel changing. *)
Lemma procs_clones k cl cl' : procs_ok k cl ->
  (forall b c, cl' !! b = Some c -> clone_ok k b c) ->
  (forall b c a, cl' !! b = Some c -> c_parent c = Some a -> cl' !! a = None /\ alive k a) ->
  (forall b t, cl' !! b = None -> cl !! b <> None -> k_tasks k !! b = Some t -> tk k (t_pid t) = Some b -> linked k (t_group t)) ->
  procs_ok k cl'.
Proof.
  intros Hp Hc Hb Ht. constructor; [apply (po_listed _ _ Hp) | apply (po_parent _ _ Hp) | apply (po_leader _ _ Hp) | apply (po_threads _ _ Hp) | apply (po_groups _ _ Hp) | | done | done].
  intros b t Hbt Htk Hn. destruct (cl !! b) as [c |] eqn:E; [apply (Ht b); [done | by rewrite E | done | done] | by apply (po_tasks _ _ Hp b)].
Qed.

(** One clone moves on. *)
Lemma procs_stage k cl b c s : procs_ok k cl -> cl !! b = Some c -> clone_ok k b (mk_clone (c_parent c) (c_thread c) s) ->
  procs_ok k (alter (fun c => mk_clone (c_parent c) (c_thread c) s) b cl).
Proof.
  intros Hp Hb Hc. apply (procs_clones k cl); [done | | |].
  - intros d e Hd. destruct (decide (d = b)) as [-> | Hne]; [rewrite lookup_alter_eq, Hb in Hd; simpl in Hd; by simplify_eq |].
    rewrite lookup_alter_ne in Hd by congruence. by apply (po_clones _ _ Hp).
  - intros d e a Hd Ha. assert (exists e', cl !! d = Some e' /\ c_parent e' = Some a) as (e' & He' & Ha').
    { destruct (decide (d = b)) as [-> | Hne]; [rewrite lookup_alter_eq, Hb in Hd; simpl in Hd; simplify_eq; eauto | rewrite lookup_alter_ne in Hd by congruence; eauto]. }
    destruct (po_busy _ _ Hp d e' a He' Ha') as [Hn Hs]. split; [| done]. destruct (decide (a = b)) as [-> | Hne]; [congruence | by rewrite lookup_alter_ne by congruence].
  - intros d t Hd Hn. exfalso. destruct (decide (d = b)) as [-> | Hne]; [by rewrite lookup_alter_eq, Hb in Hd | rewrite lookup_alter_ne in Hd by congruence; done].
Qed.

Lemma procs_done k cl b : procs_ok k cl ->
  (forall t, k_tasks k !! b = Some t -> tk k (t_pid t) = Some b -> linked k (t_group t)) -> procs_ok k (delete b cl).
Proof.
  intros Hp Hb. apply (procs_clones k cl); [done | | |].
  - intros d e Hd. apply lookup_delete_Some in Hd as [_ Hd]. by apply (po_clones _ _ Hp).
  - intros d e a Hd Ha. apply lookup_delete_Some in Hd as [_ Hd]. destruct (po_busy _ _ Hp d e a Hd Ha) as [Hn Hs]. split; [| done]. apply lookup_delete_None. by right.
  - intros d t Hd Hn Ht Htk. apply lookup_delete_None in Hd as [<- | Hd]; [by apply Hb | done].
Qed.

(** ** Creating a task *)

Lemma alloc_pid_spec n k last id : 0 <= last <= MAX_PID -> 301 <= k_pid_max k -> alloc_pid n k last = Some id ->
  0 < id < MAX_PID /\ pid_empty (pid_at k id) = true.
Proof.
  intros Hl Hm. revert last Hl. induction n as [| n IH]; intros last Hl; simpl; [done |].
  rewrite u32_small by (unfold MAX_PID in *; lia).
  assert (301 <= task_pid_wrap k <= MAX_PID) as Hw by (unfold task_pid_wrap, MAX_PID in *; destruct (_ <? _) eqn:E; to_prop; lia).
  set (next := if last + 1 >=? task_pid_wrap k then 1 else last + 1). assert (0 < next < MAX_PID) as Hn.
  { unfold next. destruct (_ >=? _) eqn:E; to_prop; unfold MAX_PID in *; lia. }
  destruct (negb _ || _) eqn:E; [apply IH; lia |]. intros [= <-]. to_prop. done.
Qed.

Lemma create_pid_spec k want id : alloc_ok k -> in_s 32 want -> create_pid k want = Some (inl id) -> 0 < id <= MAX_PID /\ pid_empty (pid_at k id) = true.
Proof.
  intros [Hl Hm] Hs. unfold create_pid. destruct (want =? 0) eqn:E0; simpl.
  - destruct (alloc_pid _ k _) as [i |] eqn:E; [| done]. intros [= <-]. apply alloc_pid_spec in E; [| done | done]. split; [lia | apply E].
  - destruct (_ || _ || _) eqn:E; [done |]. intros [= <-]. to_prop.
    assert (task_pid_wrap k <= MAX_PID) as Hw by (unfold task_pid_wrap; destruct (_ <? _) eqn:Ew; to_prop; lia).
    unfold u32, wrap, in_s, MAX_PID in *. simpl in Hs. destruct (decide (0 <= want)); [rewrite Z.mod_small in * by lia; split; [lia | done] |].
    exfalso. rewrite <- (Z.mod_add want 1 (2 ^ 32)) in * by lia. rewrite Z.mod_small in * by lia. lia.
Qed.

Lemma pid_empty_true k id : pid_empty (pid_at k id) = true -> tk k id = None /\ sn k id = [] /\ pg k id = [].
Proof. unfold pid_empty, tk, sn, pg. destruct (p_task _), (p_session _), (p_pgroup _); naive_solver. Qed.

(** The slot a new task takes. *)
Lemma create_view k id b t : pid_empty (pid_at k id) = true ->
  let k' := put_task (set_pids (pid_ns_unnumber (set_last_allocated_pid k id) id)
                       (<[id := mk_pid (Some b) [] [] None]> (k_pids (pid_ns_unnumber (set_last_allocated_pid k id) id)))) b t in
  (forall j, tk k' j = if decide (j = id) then Some b else tk k j) /\ (forall j, sn k' j = sn k j) /\ (forall j, pg k' j = pg k j) /\
  k_tasks k' = <[b := t]> (k_tasks k) /\ k_groups k' = k_groups k /\ k_last_allocated_pid k' = id /\ k_pid_max k' = k_pid_max k.
Proof.
  intros He. apply pid_empty_true in He as (_ & Hsn & Hpg). pose proof (same_unnumber (set_last_allocated_pid k id) id) as V.
  set (k1 := pid_ns_unnumber _ id) in *. clearbody k1. intros k'.
  assert (forall j, pid_at k' j = if decide (j = id) then mk_pid (Some b) [] [] None else pid_at k1 j) as Hat.
  { intros j. unfold pid_at. simpl. destruct (decide (j = id)) as [-> |]; [by rewrite lookup_insert_eq | by rewrite lookup_insert_ne by congruence]. }
  pose proof (v_tk _ _ V) as Vt. pose proof (v_sn _ _ V) as Vs. pose proof (v_pg _ _ V) as Vp. unfold tk, sn, pg in *.
  repeat split; intros; simpl; rewrite ?Hat; try (destruct (decide (j = id)) as [-> |]; simpl); try done.
  all: first [by rewrite Vt | by rewrite Hsn | by rewrite Vs | by rewrite Hpg | by rewrite Vp | by rewrite (v_tasks _ _ V) | by rewrite (v_groups _ _ V) | by rewrite (v_last _ _ V) | by rewrite (v_max _ _ V)].
Qed.

(** Nobody points at a task that does not exist. *)
Lemma fresh_idle k cl b : lists_ok k -> procs_ok k cl -> k_tasks k !! b = None -> idle k b.
Proof.
  intros Hl Hp Hb. split.
  - intros g x Hx Hin. destruct (po_threads _ _ Hp g x b Hx Hin) as (_ & t & Ht & _). congruence.
  - intros (g & x & Hx & Hln & <-). destruct (po_leader _ _ Hp g x Hx Hln) as (t & Ht & _). congruence.
Qed.

Lemma idle_groups k k' b : (forall g, linked k' g <-> linked k g) -> k_groups k' = k_groups k -> idle k b -> idle k' b.
Proof.
  intros Hln Hg [H1 H2]. split; [intros g x; rewrite Hg; apply H1 |]. intros (g & x & Hx & Hl & <-). apply H2. exists g, x. by rewrite <- Hg, <- Hln.
Qed.

Lemma create_procs k k' cl b t id c : lists_ok k -> procs_ok k cl -> k_tasks k !! b = None -> cl !! b = None ->
  tk k id = None -> 0 < id <= MAX_PID -> t_pid t = id ->
  (forall j, tk k' j = if decide (j = id) then Some b else tk k j) -> (forall j, pg k' j = pg k j) ->
  k_tasks k' = <[b := t]> (k_tasks k) -> k_groups k' = k_groups k ->
  (forall p, t_parent t = Some p -> is_Some (k_tasks k !! p)) -> c_stage c = Created ->
  (k_tasks k = ∅ \/ exists g x a, k_groups k !! g = Some x /\ a ∈ g_threads x) ->
  ((exists g x a, k_groups k !! g = Some x /\ a ∈ g_threads x) -> is_Some (k_groups k !! t_group t) /\
     (forall b' t' x', k_tasks k !! b' = Some t' -> k_groups k !! t_group t' = Some x' -> g_threads x' = [b'] -> g_leader x' = b' -> cl !! b' <> None -> t_group t' <> t_group t)) ->
  (forall a, c_parent c = Some a -> cl !! a = None /\ a <> b /\ exists ta x, k_tasks k !! a = Some ta /\ t_group ta = t_group t /\ k_groups k !! t_group t = Some x /\ a ∈ g_threads x) ->
  procs_ok k' (<[b := c]> cl).
Proof.
  intros Hl Hp Hb Hcb Hid Hr Epid Htk Hpg Hta Hg Hpar Hst Hsome Hal Hc.
  assert (forall h, linked k' h <-> linked k h) as Hln by (intros h; unfold linked; by setoid_rewrite Hpg).
  assert (forall a s, k_tasks k !! a = Some s -> k_tasks k' !! a = Some s) as Hold by (intros a s Hs; rewrite Hta, lookup_insert_ne by congruence; done).
  assert (forall a s, k_tasks k !! a = Some s -> tk k (t_pid s) = Some a -> tk k' (t_pid s) = Some a) as Hkeep.
  { intros a s Hs Hk. rewrite Htk. destruct (decide _) as [E |]; [congruence | done]. }
  assert (idle k' b) as Hib by (apply (idle_groups k); [done | done | by apply (fresh_idle k cl)]).
  constructor.
  - intros j a. rewrite Htk. destruct (decide (j = id)) as [-> |]; [intros [= <-]; split; [done |]; exists t; by rewrite Hta, lookup_insert_eq |].
    intros Ha. destruct (po_listed _ _ Hp j a Ha) as (Hj & s & Hs & Es). eauto.
  - intros a s p Hs Hsp. rewrite Hta in Hs. assert (is_Some (k_tasks k !! p)) as [q Hq].
    { destruct (decide (a = b)) as [-> | Hne]; [rewrite lookup_insert_eq in Hs; simplify_eq; auto | rewrite lookup_insert_ne in Hs by congruence; by apply (po_parent _ _ Hp a s)]. }
    exists q. auto.
  - intros g x Hx Hlg. rewrite Hg in Hx. rewrite Hln in Hlg. destruct (po_leader _ _ Hp g x Hx Hlg) as (s & Hs & Es & Hk). exists s. auto.
  - intros g x a Hx Ha. rewrite Hg in Hx. destruct (po_threads _ _ Hp g x a Hx Ha) as (Hlg & s & Hs & Es & Hk). rewrite Hln. split; [done |]. exists s. auto.
  - intros a s Hs. rewrite Hg. destruct Hsome as [Hem | Hex].
    { right. intros d [r Hd]. rewrite Hta, Hem in Hd, Hs. apply lookup_insert_Some in Hd as [[-> _] | [_ Hd]]; apply lookup_insert_Some in Hs as [[-> _] | [_ Hs]]; try done; by rewrite lookup_empty in *. }
    left. rewrite Hta in Hs. destruct (decide (a = b)) as [-> | Hne]; [rewrite lookup_insert_eq in Hs; simplify_eq; by apply Hal |].
    rewrite lookup_insert_ne in Hs by congruence. by apply (task_group_some _ _ Hp Hex a).
  - intros a s Hs Hk Hn. apply lookup_insert_None in Hn as [Hn Hne]. rewrite Hta, lookup_insert_ne in Hs by congruence.
    rewrite Htk in Hk. rewrite Hln. destruct (decide _); [simplify_eq; done |]. by apply (po_tasks _ _ Hp a).
  - intros a d Ha. destruct (decide (a = b)) as [-> | Hne].
    + rewrite lookup_insert_eq in Ha. simplify_eq. exists t. rewrite Hta, lookup_insert_eq, Hst. split; [done |]. split; [done |].
      split; [rewrite Htk; by destruct (decide _) |]. split; [| done]. intros a Ha. destruct (Hc a Ha) as (_ & _ & ta & x & Hta' & Eg & Hx & Hin).
      exists ta, x. rewrite Hg. split; [rewrite lookup_insert_ne by congruence; done | done].
    + rewrite lookup_insert_ne in Ha by congruence. destruct (po_clones _ _ Hp a d Ha) as (s & Hs & Hd). exists s. split; [auto |].
      assert (idle k a -> idle k' a) as Hi by by apply idle_groups.
      destruct (c_stage d).
      1-3: destruct Hd as (H1 & H2 & H3 & H4); split; [auto |]; split; [auto |]; split; [| done]; intros p Hpa; destruct (H3 p Hpa) as (tp & y & Htp & Eg & Hy & Hin);
        exists tp, y; rewrite Hg; auto.
      * destruct Hd as (y & Hy & Hin & H1 & H2).
        assert (exists g x a, k_groups k !! g = Some x /\ a ∈ g_threads x) as Hex by (exists (t_group s), y, a; done).
        destruct (Hal Hex) as [_ Hno]. exists y. rewrite Hg. split; [done |]. split; [done |]. split; [| done]. intros Hth. destruct (H1 Hth) as (H3 & H4 & H5).
        split; [done |]. split; [done |]. intros a' s' Hs' Es. rewrite Hta in Hs'. destruct (decide (a' = b)) as [-> | Hne']; [| rewrite lookup_insert_ne in Hs' by congruence; by apply (H5 a' s')].
        rewrite lookup_insert_eq in Hs'. injection Hs' as <-. exfalso. apply (Hno a s y Hs Hy H4 H3); [by rewrite Ha | done].
      * destruct Hd as [H1 H2]. auto.
      * destruct Hd as [H1 H2]. auto.
      * destruct Hd as [H1 H2]. split; [auto |]. rewrite Htk. destruct (decide _); [congruence | done].
  - intros a d p Ha Hd. destruct (decide (a = b)) as [-> | Hne].
    + rewrite lookup_insert_eq in Ha. simplify_eq. destruct (Hc p Hd) as (H1 & H2 & tp & y & Htp & Egt & Hy & Hin). rewrite <- Egt in Hy. split; [by rewrite lookup_insert_ne by congruence |].
      exists tp, y. rewrite Hg. auto.
    + rewrite lookup_insert_ne in Ha by congruence. destruct (po_busy _ _ Hp a d p Ha Hd) as [Hn (s & y & Hs & Hy)].
      split; [rewrite lookup_insert_ne by congruence; done | exists s, y; rewrite Hg; auto].
Qed.

Lemma in_threads_facts w a : links_ok w -> in_threads w a -> exists t x, k_tasks (w_k w) !! a = Some t /\ k_groups (w_k w) !! t_group t = Some x /\
  a ∈ g_threads x /\ linked (w_k w) (t_group t) /\ tk (w_k w) (t_pid t) = Some a /\ 0 < t_pid t <= MAX_PID.
Proof.
  intros [Hl Hp _] (g & x & Hg & Hin). unfold group_of in Hg. destruct (k_tasks (w_k w) !! a) as [t |] eqn:Ht; [| done]. simpl in Hg.
  destruct (k_groups (w_k w) !! t_group t) as [y |] eqn:Hy; [| done]. simpl in Hg. simplify_eq.
  destruct (po_threads _ _ Hp _ x a Hy Hin) as (Hln & s & Hs & _ & Hk). simplify_eq.
  destruct (po_listed _ _ Hp _ a Hk) as [Hr _]. by exists t, x.
Qed.

Lemma create_links w caller parent want b : links_ok w -> ready w (ECreate caller parent want b) ->
  exists w', step w (ECreate caller parent want b) = Some w' /\ links_ok w'.
Proof.
  intros Hok (Hb & Hcb & Hs & Hcr & Hcase). unfold step, task_create_pid_. cbn [mbind option_bind].
  assert (exists pt, match parent with Some a => t ← k_tasks (w_k w) !! a; Some (Some (a, t)) | None => Some None end = Some pt /\
    match pt with Some (a, t) => parent = Some a /\ k_tasks (w_k w) !! a = Some t | None => parent = None end) as (pt & -> & Hpt).
  { destruct parent as [a |]; [| by exists None]. assert (in_threads w a) as Hin by (destruct caller as [c |]; [destruct Hcase as [[H _] [= ->]]; done | apply Hcase]).
    destruct (in_threads_facts w a Hok Hin) as (t & x & Ht & _). exists (Some (a, t)). by rewrite Ht. }
  cbn [mbind option_bind]. destruct (create_pid (w_k w) want) as [[id | []] |] eqn:Ecr; [| eexists; split; [done | by destruct w] | done]. cbn [mbind option_bind].
  eexists. split; [done |]. destruct (create_pid_spec _ want id (lk_alloc _ Hok) Hs Ecr) as [Hr He].
  destruct (create_view (w_k w) id b (new_task pt id) He) as (Htk & Hsn & Hpg & Hta & Hg & Hla & Hmx).
  pose proof (pid_empty_true _ _ He) as (Hid & _ & _). destruct Hok as [Hl Hp [Ha1 Ha2]]. set (k' := put_task _ _ _) in *. clearbody k'. split; simpl.
  - apply (lists_same (w_k w)); [done | done | done |]. intros g x Hx. exists x. by rewrite Hg.
  - apply (create_procs (w_k w) k' (w_clones w) b (new_task pt id) id (mk_clone caller false Created)); try done.
    + destruct pt as [[a t] |]; [done | done].
    + intros p Hpp. destruct pt as [[a t] |]; simpl in Hpp; [| done]. injection Hpp as <-. destruct Hpt as [_ Ht]. by rewrite Ht.
    + destruct pt as [[a t] |]; [right | left; destruct caller as [c |]; [by destruct Hcase as [_ ?]; subst | by subst]]. destruct Hpt as [-> Ht].
      assert (in_threads w a) as Hin by (destruct caller as [c |]; [destruct Hcase as [[H _] [= ->]]; done | apply Hcase]).
      destruct (in_threads_facts w a (mk_links w Hl Hp (conj Ha1 Ha2)) Hin) as (t' & y & _ & Hy & Hiny & _). by exists (t_group t'), y, a.
    + intros (g & x & a & Hx & Ha). destruct pt as [[p t] |].
      * destruct Hpt as [-> Ht]. assert (in_threads w p /\ w_clones w !! p = None) as [Hin Hcl].
        { destruct caller as [c |]; [destruct Hcase as [(H & _ & H2 & _) [= ->]]; done | apply Hcase]. }
        destruct (in_threads_facts w p (mk_links w Hl Hp (conj Ha1 Ha2)) Hin) as (t' & y & Ht' & Hy & Hiny & _). simplify_eq. simpl. rewrite Hy. split; [done |].
        intros b' t' x' Hb' Hx' E1 E2 Hn E. rewrite E in Hx'. simplify_eq. rewrite E1, list_elem_of_singleton in Hiny. by subst.
      * exfalso. assert (k_tasks (w_k w) = ∅) as Hem by (destruct caller; [by destruct Hcase as [_ ?]; subst | by subst]).
        destruct (po_threads _ _ Hp g x a Hx Ha) as (_ & s & Hs' & _). by rewrite Hem in Hs'.
    + intros a [= ->]. destruct Hcase as [(Hin & _ & Hcl & _) ->]. split; [done |]. destruct pt as [[p t] |]; [| done]. destruct Hpt as [[= <-] Ht].
      split; [intros ->; congruence |]. destruct (in_threads_facts w a (mk_links w Hl Hp (conj Ha1 Ha2)) Hin) as (t' & y & Ht' & Hy & Hiny & _). simplify_eq.
      by exists t, y.
  - split; [rewrite Hla; lia | by rewrite Hmx].
Qed.

(** ** Operations that touch neither the lists nor who is in the table *)

#[export] Instance soft_refl : Reflexive soft.
Proof. intros k. by apply soft_view. Qed.
#[export] Instance soft_transitive : Transitive soft.
Proof. intros k1 k2 k3. apply soft_trans. Qed.

#[export] Instance quiet_refl : Reflexive quiet.
Proof. intros k. by apply quiet_view. Qed.
#[export] Instance quiet_transitive : Transitive quiet.
Proof. intros k1 k2 k3. apply quiet_trans. Qed.

Lemma soft_set_ttys k x : soft k (set_ttys k x).
Proof. constructor; try done; [intros a | intros a t p | intros g]; simpl; eauto with procs. Qed.
Lemma quiet_put_ns k n x : quiet k (put_ns k n x).
Proof. apply quiet_view, same_put_ns. Qed.
Lemma quiet_number_task k id ns : quiet k (snd (pid_ns_number_task k id ns)).
Proof. apply quiet_view, same_number_task. Qed.
Lemma quiet_unnumber k id : quiet k (pid_ns_unnumber k id).
Proof. apply quiet_view, same_unnumber. Qed.
#[export] Hint Resolve quiet_put_ns quiet_number_task quiet_unnumber : procs.

Lemma quiet_task k a t t' : k_tasks k !! a = Some t -> task_like t t' -> t_parent t' = t_parent t -> quiet k (put_task k a t').
Proof. intros Ht Hl Hp. apply (quiet_put_task k a t); [done | done |]. intros p. rewrite Hp. by right. Qed.

Lemma quiet_pid_ns_new k parent mem n : quiet k (snd (pid_ns_new k parent mem n)).
Proof. unfold pid_ns_new. destruct (_ && _); [done |]. destruct mem; simpl; [apply quiet_put_ns | done]. Qed.

Lemma copy_pid_ns_quiet k a b thread newpid mem n ta t : k_tasks k !! a = Some ta -> k_tasks k !! b = Some t ->
  exists err k', copy_pid_ns k a b thread newpid mem n = Some (err, k') /\ quiet k k'.
Proof.
  intros Ha Hb. unfold copy_pid_ns. rewrite Ha. cbn [mbind option_bind]. rewrite Hb. cbn [mbind option_bind]. unfold choose_pid_ns.
  set (into := match t_pid_ns_for_children ta with Some n => Some n | None => t_pid_ns ta end).
  set (r := if thread then _ else _). assert (exists o k1, r = (o, k1) /\ quiet k k1 /\ k_tasks k1 = k_tasks k) as (o & k1 & -> & Hs & Et).
  { unfold r. destruct thread; [by eexists _, _ |]. destruct newpid.
    - pose proof (quiet_pid_ns_new k into mem n) as Hn. assert (k_tasks (snd (pid_ns_new k into mem n)) = k_tasks k) as Ht.
      { unfold pid_ns_new. destruct (_ && _); [done |]. by destruct mem. }
      destruct (pid_ns_new k into mem n) as [[m | err] k1]; simpl in *; eexists _, _; (split; [done |]); [split; [etrans; [exact Hn | apply quiet_put_ns] | done] | done].
    - destruct into as [m |]; [| by eexists _, _]. destruct (n_dead _); [by eexists _, _ |]. eexists _, _. split; [done |].
      destruct (_ =? 0); [split; [apply quiet_put_ns | done] | done]. }
  destruct o as [ns | err]; [| by eexists _, _].
  assert (quiet k (put_task k1 b (set_t_pid_ns t ns))) as Hp by (etrans; [exact Hs |]; apply (quiet_task k1 b t); [by rewrite Et | done | done]).
  destruct ns as [m |]; [| by eexists _, _]. pose proof (quiet_number_task (put_task k1 b (set_t_pid_ns t (Some m))) (t_pid t) (Some m)) as Hnum.
  destruct (pid_ns_number_task _ _ _) as [err k2]. eexists _, _. split; [done |]. by etrans; [exact Hp |].
Qed.

Lemma forget_ns_quiet k b t : k_tasks k !! b = Some t -> exists k', forget_ns k b = Some k' /\ quiet k k'.
Proof.
  intros Hb. unfold forget_ns. rewrite Hb. simpl. eexists. split; [done |]. etrans; [apply (quiet_task k b t (set_t_pid_ns t None)); done |].
  unfold pid_ns_forget_init. destruct (t_pid_ns t) as [n |]; [| done]. etrans; [apply quiet_unnumber |]. destruct (_ =? _); [apply quiet_put_ns | done].
Qed.

Lemma session_drop_soft k y l : soft k (session_drop_tty k y l).
Proof.
  revert k. induction l as [| g l IH]; intros k; simpl; [done |]. etrans; [| apply IH]. destruct (k_groups k !! g) as [x |] eqn:Hx; [| done].
  destruct (bool_decide _); [by apply (soft_put_group k g x) | done].
Qed.

Lemma session_drop_tasks k y l : k_tasks (session_drop_tty k y l) = k_tasks k /\ k_ttys (session_drop_tty k y l) = k_ttys k.
Proof.
  revert k. induction l as [| g l IH]; intros k; simpl; [done |]. destruct (IH (match k_groups k !! g with
    | Some x => if bool_decide (g_tty x = Some y) then put_group k g (set_g_tty x None) else k | None => k end)) as [-> ->].
  destruct (k_groups k !! g); [| done]. by destruct (bool_decide _).
Qed.

Lemma soft_controlling k g x y d : k_groups k !! g = Some x -> soft k (tty_set_controlling_locked k g x y d).
Proof.
  intros Hx. unfold tty_set_controlling_locked. destruct (g_tty x); [done |]. etrans; [by apply (soft_put_group k g x (set_g_tty x (Some y))) | apply soft_set_ttys].
Qed.

(** Dropping the terminal leaves a group its own, if it has none. *)
Lemma session_drop_group k y l g x : k_groups k !! g = Some x -> exists x', k_groups (session_drop_tty k y l) !! g = Some x' /\ group_like x x' /\ (g_tty x = None -> x' = x).
Proof.
  revert k x. induction l as [| h l IH]; intros k x Hx; simpl; [by exists x |]. destruct (k_groups k !! h) as [z |] eqn:Hz; [| by apply IH].
  destruct (bool_decide (g_tty z = Some y)) eqn:E; [| by apply IH]. apply bool_decide_eq_true in E. destruct (decide (h = g)) as [-> | Hne].
  - simplify_eq. destruct (IH (put_group k g (set_g_tty x None)) (set_g_tty x None)) as (x' & Hx' & Hl & _); [simpl; by rewrite lookup_insert_eq |].
    exists x'. split; [done |]. split; [destruct Hl as (? & ? & ? & ?); done | congruence].
  - destruct (IH (put_group k h (set_g_tty z None)) x) as (x' & Hx' & Hl & Hn); [simpl; by rewrite lookup_insert_ne by congruence |]. by exists x'.
Qed.

Lemma running_facts w a : links_ok w -> running w a -> exists t x lt, k_tasks (w_k w) !! a = Some t /\ k_groups (w_k w) !! t_group t = Some x /\
  a ∈ g_threads x /\ linked (w_k w) (t_group t) /\ tk (w_k w) (t_pid t) = Some a /\
  k_tasks (w_k w) !! g_leader x = Some lt /\ t_group lt = t_group t /\ tk (w_k w) (t_pid lt) = Some (g_leader x) /\ 0 < t_pid lt <= MAX_PID.
Proof.
  intros Hok [Hin _]. destruct (in_threads_facts w a Hok Hin) as (t & x & Ht & Hx & Ha & Hln & Hk & _).
  destruct (po_leader _ _ (lk_procs _ Hok) _ x Hx Hln) as (lt & Hlt & Eg & Hlk). destruct (po_listed _ _ (lk_procs _ Hok) _ _ Hlk) as [Hr _].
  by exists t, x, lt.
Qed.

Lemma leader_test k x lt : k_tasks k !! g_leader x = Some lt -> tgroup_is_session_leader k x = Some (g_sid x =? t_pid lt).
Proof. intros H. unfold tgroup_is_session_leader. by rewrite H. Qed.

Lemma on_task_quiet k a f t : k_tasks k !! a = Some t -> task_like t (f t) -> (forall p, t_parent (f t) = Some p -> is_Some (k_tasks k !! p) \/ t_parent t = Some p) ->
  exists k', on_task k a f = Some k' /\ quiet k k'.
Proof. intros Ht Hl Hp. unfold on_task. rewrite Ht. simpl. eexists. split; [done |]. by apply (quiet_put_task k a t). Qed.

Lemma open_tty_soft k a y t x lt d : k_tasks k !! a = Some t -> k_groups k !! t_group t = Some x -> k_tasks k !! g_leader x = Some lt -> k_ttys k !! y = Some d ->
  exists k', tty_open_controlling k a y = Some k' /\ soft k k'.
Proof.
  intros Ht Hx Hlt Hd. unfold tty_open_controlling. rewrite Ht. simpl. rewrite Hx. simpl. rewrite Hd. simpl. rewrite (leader_test k x lt Hlt). simpl.
  eexists. split; [done |]. destruct (_ && _); [by apply soft_controlling | done].
Qed.

Lemma spgrp_soft k a y pgid t x d : lists_ok k -> k_tasks k !! a = Some t -> k_groups k !! t_group t = Some x -> k_ttys k !! y = Some d ->
  exists r k', tiocspgrp k a y pgid = Some (r, k') /\ soft k k'.
Proof.
  intros Hok Ht Hx Hd. unfold tiocspgrp. rewrite Ht. simpl. rewrite Hx. simpl. rewrite Hd. simpl.
  destruct (_ || _); [by eexists _, _ |]. destruct (pgid <? 0); [by eexists _, _ |]. destruct (pid_get k (t_pid_ns t) pgid) as [p |]; [| by eexists _, _].
  destruct (p_pgroup (pid_at k p)) as [| first rest] eqn:E; [by eexists _, _ |].
  destruct (lo_pg k Hok p first) as (m & Hm & _); [unfold pg; rewrite E; by left |]. rewrite Hm. simpl.
  destruct (negb _); eexists _, _; (split; [done |]); [done | apply soft_set_ttys].
Qed.

Lemma sctty_soft k a y force su t x lt d : k_tasks k !! a = Some t -> k_groups k !! t_group t = Some x -> k_tasks k !! g_leader x = Some lt -> k_ttys k !! y = Some d ->
  (y_session d <> 0 -> pid_get_global k (y_session d) <> None) ->
  exists r k', tiocsctty k a y force su = Some (r, k') /\ soft k k'.
Proof.
  intros Ht Hx Hlt Hd Hs. unfold tiocsctty. rewrite Ht. simpl. rewrite Hx. simpl. rewrite Hd. simpl. rewrite (leader_test k x lt Hlt). simpl.
  destruct (_ && _); [by eexists _, _ |]. destruct (negb _ || bool_decide (g_tty x <> None)) eqn:E; [by eexists _, _ |]. apply orb_false_iff in E as [_ E]. apply bool_decide_eq_false in E.
  assert (g_tty x = None) as En by (destruct (g_tty x); [exfalso; by apply E | done]).
  destruct (y_session d =? 0) eqn:E0; simpl; [eexists _, _; split; [done | by apply soft_controlling] |]. to_prop.
  destruct (_ && _); [| by eexists _, _]. destruct (pid_get_global k (y_session d)) as [p |] eqn:Ep; [| by destruct (Hs E0)]. simpl.
  eexists _, _. split; [done |]. etrans; [apply session_drop_soft |].
  destruct (session_drop_group k y (p_session (pid_at k p)) (t_group t) x Hx) as (x' & Hx' & _ & Hn). rewrite (Hn En) in Hx'. by apply soft_controlling.
Qed.

Lemma notty_soft k a y t x lt d : k_tasks k !! a = Some t -> k_groups k !! t_group t = Some x -> k_tasks k !! g_leader x = Some lt -> k_ttys k !! y = Some d ->
  exists r h k', tiocnotty k a y = Some (r, h, k') /\ soft k k'.
Proof.
  intros Ht Hx Hlt Hd. unfold tiocnotty. rewrite Ht. simpl. rewrite Hx. simpl. rewrite Hd. simpl. destruct (negb _); [by eexists _, _, _ |].
  rewrite (leader_test k x lt Hlt). simpl. set (r := if g_sid x =? t_pid lt then _ else _).
  assert (exists h k1 x1, r = (h, k1) /\ soft k k1 /\ k_groups k1 !! t_group t = Some x1) as (h & k1 & x1 & -> & Hs & Hx1).
  { unfold r. destruct (_ =? _); [| by exists 0, k, x]. destruct (pid_get_global k (y_session d)) as [p |]; [| by eexists _, _, x; split; [done | split; [apply soft_set_ttys | done]]].
    destruct (session_drop_group k y (p_session (pid_at k p)) (t_group t) x Hx) as (x' & Hx' & _). eexists _, _, x'. split; [done |].
    split; [etrans; [apply session_drop_soft | apply soft_set_ttys] | done]. }
  rewrite Hx1. simpl. eexists _, _, _. split; [done |]. destruct (bool_decide _); [| done]. etrans; [exact Hs |]. by apply (soft_put_group k1 (t_group t) x1).
Qed.

Lemma hangup_soft k l t x : k_tasks k !! l = Some t -> k_groups k !! t_group t = Some x ->
  (forall y, g_tty x = Some y -> is_Some (k_ttys k !! y)) ->
  exists h k', exit_hangup_session_tty k l = Some (h, k') /\ soft k k'.
Proof.
  intros Ht Hx Hy. unfold exit_hangup_session_tty. rewrite Ht. simpl. rewrite Hx. simpl. destruct (g_tty x) as [y |]; [| by eexists _, _].
  destruct (negb _); [by eexists _, _ |]. destruct (pid_get_global _ _) as [p |]; [| by eexists _, _].
  destruct (Hy y eq_refl) as [d Hd]. destruct (session_drop_tasks k y (p_session (pid_at k p))) as [_ Htt]. rewrite Htt, Hd. simpl.
  eexists _, _. split; [done |]. etrans; [apply session_drop_soft | apply soft_set_ttys].
Qed.

(** ** A process is born *)

Lemma newborn_procs k k' cl cl' c b t t' g x : lists_ok k -> procs_ok k cl -> cl !! b = Some c -> k_tasks k !! b = Some t -> tk k (t_pid t) = Some b -> idle k b ->
  k_groups k !! g = None -> entered k k' g x -> g_leader x = b -> g_threads x = [b] ->
  (forall id, tk k' id = tk k id) -> k_tasks k' = <[b := t']> (k_tasks k) -> t_pid t' = t_pid t -> t_group t' = g -> t_parent t' = t_parent t ->
  (forall a s, a <> b -> k_tasks k !! a = Some s -> is_Some (k_groups k !! t_group s)) ->
  (forall d, d <> b -> cl' !! d = cl !! d) ->
  (cl' !! b = None \/ cl' !! b = Some (mk_clone (c_parent c) false Linked)) ->
  procs_ok k' cl'.
Proof.
  intros Hl Hp Hc Ht Hk [Hi1 Hi2] Hg He El Eth Htk Hta Epid Egrp Epar Hgr Hcl Hcb.
  assert (forall h, h <> g -> k_groups k' !! h = k_groups k !! h) as Hgo by apply (en_groups _ _ _ _ He).
  pose proof (en_group _ _ _ _ He) as Hgx.
  assert (forall h, linked k' h <-> h = g \/ linked k h) as Hln.
  { intros h. rewrite (entered_linked _ _ _ _ h He). split; [tauto |]. intros [-> | Hh]; [by left |]. right. split; [| done]. intros ->.
    destruct (linked_group k g Hl Hh) as [y Hy]. congruence. }
  assert (forall a s, a <> b -> k_tasks k !! a = Some s -> k_tasks k' !! a = Some s) as Hold by (intros a s Hne Hs; by rewrite Hta, lookup_insert_ne by congruence).
  assert (k_tasks k' !! b = Some t') as Hb' by by rewrite Hta, lookup_insert_eq.
  assert (forall h y, h <> g -> k_groups k !! h = Some y -> linked k h -> g_leader y <> b) as Hlead by (intros h y _ Hy Hh E; apply Hi2; by exists h, y).
  constructor.
  - intros id a. rewrite Htk. intros Ha. destruct (po_listed _ _ Hp id a Ha) as (Hr & s & Hs & <-). split; [done |].
    destruct (decide (a = b)) as [-> | Hne]; [exists t'; simplify_eq; done | eauto].
  - intros a s p Hs Hsp. assert (exists s0, k_tasks k !! a = Some s0 /\ t_parent s0 = Some p) as (s0 & Hs0 & Hp0).
    { rewrite Hta in Hs. destruct (decide (a = b)) as [-> | Hne]; [rewrite lookup_insert_eq in Hs; simplify_eq; exists t; by rewrite <- Epar | rewrite lookup_insert_ne in Hs by congruence; eauto]. }
    destruct (po_parent _ _ Hp a s0 p Hs0 Hp0) as [q Hq]. destruct (decide (p = b)) as [-> |]; [by exists t' | exists q; auto].
  - intros h y Hy Hh. destruct (decide (h = g)) as [-> | Hne]; [rewrite Hgx in Hy; simplify_eq; exists t'; by rewrite Epid, Htk |].
    rewrite Hgo in Hy by done. apply Hln in Hh as [-> | Hh]; [done |]. destruct (po_leader _ _ Hp h y Hy Hh) as (s & Hs & Es & Hks).
    exists s. rewrite Htk. split; [apply Hold; [by apply (Hlead h) | done] | done].
  - intros h y a Hy Ha. destruct (decide (h = g)) as [-> | Hne].
    + rewrite Hgx in Hy. simplify_eq. rewrite Eth, list_elem_of_singleton in Ha. subst a. split; [apply Hln; by left |]. exists t'. by rewrite Epid, Htk.
    + rewrite Hgo in Hy by done. destruct (po_threads _ _ Hp h y a Hy Ha) as (Hh & s & Hs & Es & Hks). split; [apply Hln; by right |].
      exists s. rewrite Htk. split; [apply Hold; [intros ->; by apply (Hi1 h y) | done] | done].
  - intros a s Hs. left. rewrite Hta in Hs. destruct (decide (a = b)) as [-> | Hne]; [rewrite lookup_insert_eq in Hs; simplify_eq; by exists x |].
    rewrite lookup_insert_ne in Hs by congruence. destruct (Hgr a s Hne Hs) as [y Hy]. exists y. rewrite Hgo; [done | congruence].
  - intros a s Hs Hks Hn. destruct (decide (a = b)) as [-> | Hne]; [simplify_eq; apply Hln; by left |].
    rewrite Hta, lookup_insert_ne in Hs by congruence. apply Hln. right. rewrite Htk in Hks. rewrite Hcl in Hn by done. by apply (po_tasks _ _ Hp a).
  - intros a d Ha. destruct (decide (a = b)) as [-> | Hne].
    { destruct Hcb as [Hcb | Hcb]; rewrite Hcb in Ha; simplify_eq. exists t'. split; [done |]. simpl. exists x. rewrite Hgx, Eth. split; [done |]. split; [by left |]. split; [| done]. intros _. split; [done |]. split; [done |].
      intros a s Hs Es. destruct (decide (a = g_leader x)) as [-> | Hne]; [done |]. exfalso. rewrite Hta, lookup_insert_ne in Hs by congruence. destruct (Hgr a s Hne Hs) as [y Hy]. congruence. }
    rewrite Hcl in Ha by done. destruct (po_clones _ _ Hp a d Ha) as (s & Hs & Hd). exists s. split; [by apply Hold |].
    assert (idle k a -> idle k' a) as Hidle.
    { intros [H1 H2]. split.
      - intros h y Hy. destruct (decide (h = g)) as [-> | Hneh]; [rewrite Hgx in Hy; simplify_eq; by rewrite Eth, list_elem_of_singleton | rewrite Hgo in Hy by done; by apply (H1 h)].
      - intros (h & y & Hy & Hh & Ey). destruct (decide (h = g)) as [-> | Hneh]; [rewrite Hgx in Hy; simplify_eq; congruence |].
        rewrite Hgo in Hy by done. apply Hln in Hh as [-> | Hh]; [done |]. apply H2. by exists h, y. }
    assert (forall y, k_groups k !! t_group s = Some y -> k_groups k' !! t_group s = Some y) as Hsame by (intros y Hy; rewrite Hgo; [done | congruence]).
    rewrite Htk. destruct (c_stage d).
    1-3: destruct Hd as (H1 & H2 & H3 & H4); split; [auto |]; split; [done |]; split; [| done]; intros p Hpa; destruct (H3 p Hpa) as (tp & y & Htp & Eg & Hy & Hin);
      destruct (po_busy _ _ Hp a d p Ha Hpa) as [Hpn _]; exists tp, y; split; [apply Hold; [congruence | done] | auto].
    + destruct Hd as (y & Hy & Hin & H1 & H2). exists y. split; [auto |]. split; [done |]. split; [| done]. intros Hth. destruct (H1 Hth) as (H3 & H4 & H5).
      split; [done |]. split; [done |]. intros a' s' Hs' Es. rewrite Hta in Hs'. destruct (decide (a' = b)) as [-> | Hne']; [| rewrite lookup_insert_ne in Hs' by congruence; by apply (H5 a' s')].
      rewrite lookup_insert_eq in Hs'. injection Hs' as <-. exfalso. congruence.
    + destruct Hd. auto.
    + destruct Hd. auto.
    + destruct Hd. auto.
  - intros a d p Ha Hpa. assert (exists d', cl !! a = Some d' /\ c_parent d' = Some p) as (d' & Hd' & Hpd').
    { destruct (decide (a = b)) as [-> | Hne]; [destruct Hcb as [E | E]; rewrite E in Ha; simplify_eq; eauto | rewrite Hcl in Ha by done; eauto]. }
    destruct (po_busy _ _ Hp a d' p Hd' Hpd') as [Hn (s & y & Hs & Hy & Hin)]. assert (p <> b) as Hne by congruence. rewrite Hcl by done. split; [done |]. exists s, y.
    split; [auto |]. split; [rewrite Hgo by congruence; done | done].
Qed.
