(* ===== verification/ProcLeave.v ===== *)
(** * A task leaves: its thread group, the table, or both

    What exit, wait and a clone that fails have in common: a task goes off its
    thread group's list, or out of its slot, and its group may go off the lists
    of process groups and sessions. *)

From S2P Require Import Prelude Pids Groups Procs Ctty ProcWorld ProcLinks ProcSound.

(** [a] leaves; [gone]: its slot too; [left]: the group off its lists. *)
Definition crew_less (a : Z) (x y : tgroup) : Prop := g_leader y = g_leader x /\ g_threads y = without a (g_threads x).

Record shrunk (k k' : kernel) (a : Z) (gone : bool) (left : option Z) : Prop := mk_shrunk {
  sh_tk : forall id, tk k' id = if gone && bool_decide (tk k id = Some a) then None else tk k id;
  sh_linked : forall h, linked k' h <-> linked k h /\ left <> Some h;
  sh_tasks : forall b, option_Forall2 task_like (k_tasks k !! b) (k_tasks k' !! b);
  sh_parent : forall b t p, k_tasks k' !! b = Some t -> t_parent t = Some p ->
    is_Some (k_tasks k !! p) \/ exists s, k_tasks k !! b = Some s /\ t_parent s = Some p;
  sh_groups : forall g, option_Forall2 (crew_less a) (k_groups k !! g) (k_groups k' !! g) }.

Section Shrunk.
Context (k k' : kernel) (cl cl' : gmap Z clone) (a : Z) (gone : bool) (left : option Z).
Context (Hp : procs_ok k cl) (Hs : shrunk k k' a gone left).
Context (Hcl : forall d, d <> a -> cl' !! d = cl !! d).

Lemma shrunk_tk id b : b <> a -> tk k id = Some b -> tk k' id = Some b.
Proof. intros Hne H. rewrite (sh_tk _ _ _ _ _ Hs), H. rewrite bool_decide_eq_false_2 by congruence. by rewrite andb_false_r. Qed.
Lemma shrunk_tk_inv id b : tk k' id = Some b -> tk k id = Some b /\ (b = a -> gone = false).
Proof.
  rewrite (sh_tk _ _ _ _ _ Hs). destruct gone; simpl; [| done]. case_bool_decide as E; [done |]. intros H. split; [done | congruence].
Qed.

Lemma shrunk_idle b : idle k b -> idle k' b.
Proof.
  intros [H1 H2]. split.
  - intros g y Hy Hb. destruct (opt_like_inv _ _ _ _ (sh_groups _ _ _ _ _ Hs g) Hy) as (x & Hx & _ & Et). rewrite Et in Hb. apply elem_without in Hb as [_ Hb]. by apply (H1 g x).
  - intros (g & y & Hy & Hl & E). destruct (opt_like_inv _ _ _ _ (sh_groups _ _ _ _ _ Hs g) Hy) as (x & Hx & El & _). apply H2. exists g, x.
    apply (sh_linked _ _ _ _ _ Hs) in Hl as [Hl _]. split; [done |]. split; [done |]. congruence.
Qed.

Lemma without_single (b : Z) : b <> a -> without a [b] = [b].
Proof. intros Hne. unfold without. by rewrite filter_cons_True. Qed.

Lemma shrunk_clone d c : d <> a -> c_parent c <> Some a -> clone_ok k d c -> clone_ok k' d c.
Proof.
  intros Hne Hpa (t & Ht & Hc). destruct (opt_like _ _ _ _ (sh_tasks _ _ _ _ _ Hs d) Ht) as (t' & Ht' & Epid & Egrp). exists t'. split; [done |].
  assert (forall p, c_parent c = Some p -> (exists ta x, k_tasks k !! p = Some ta /\ t_group ta = t_group t /\ k_groups k !! t_group t = Some x /\ p ∈ g_threads x) ->
    exists ta x, k_tasks k' !! p = Some ta /\ t_group ta = t_group t /\ k_groups k' !! t_group t = Some x /\ p ∈ g_threads x) as Hal.
  { intros p Hpp (ta & x & Hta & Eta & Hx & Hin). destruct (opt_like _ _ _ _ (sh_tasks _ _ _ _ _ Hs p) Hta) as (ta' & Hta' & _ & Ega).
    destruct (opt_like _ _ _ _ (sh_groups _ _ _ _ _ Hs _) Hx) as (x' & Hx' & _ & Ethr). exists ta', x'. rewrite Ega, Ethr, elem_without. naive_solver. }
  destruct (c_stage c); rewrite ?Epid, ?Egrp.
  1-3: destruct Hc as (Hi & Htk & Ha & Hn); split; [by apply shrunk_idle |]; split; [by apply shrunk_tk |]; split; [| done]; intros p Hpp; by apply Hal, Ha.
  - destruct Hc as (x & Hx & Hin & Hpr & Hth). destruct (opt_like _ _ _ _ (sh_groups _ _ _ _ _ Hs _) Hx) as (x' & Hx' & El & Et).
    exists x'. rewrite El, Et, elem_without. split; [done |]. split; [done |]. split.
    2: { intros E. destruct (Hth E) as (H1 & p & H2 & H3). split; [done |]. exists p. rewrite elem_without. naive_solver. }
    intros E. destruct (Hpr E) as (H1 & -> & H3).
    split; [done |]. split; [by apply without_single |]. intros b s' Hs' Es.
    destruct (opt_like_inv _ _ _ _ (sh_tasks _ _ _ _ _ Hs b) Hs') as (s & Hss & _ & Egs). apply (H3 b s Hss). congruence.
  - destruct Hc as [Hi Htk]. split; [by apply shrunk_idle | by apply shrunk_tk].
  - destruct Hc as [Hi Htk]. split; [by apply shrunk_idle | by apply shrunk_tk].
  - destruct Hc as [Hi Htk]. split; [by apply shrunk_idle |]. intros H. by apply shrunk_tk_inv in H as [H _].
Qed.

Lemma shrunk_procs :
  (forall c, cl' !! a = Some c -> clone_ok k' a c /\ exists c0, cl !! a = Some c0 /\ c_parent c = c_parent c0) ->
  (forall t, cl' !! a = None -> gone = false -> k_tasks k !! a = Some t -> tk k (t_pid t) = Some a -> linked k' (t_group t)) ->
  (forall d c, cl !! d = Some c -> c_parent c <> Some a) ->
  (gone = true -> forall g x, k_groups k !! g = Some x -> linked k' g -> g_leader x <> a) ->
  (forall g x, left = Some g -> k_groups k !! g = Some x -> forall b, b ∈ g_threads x -> b = a) ->
  (forall g b t, left = Some g -> b <> a -> k_tasks k !! b = Some t -> t_group t = g -> tk k (t_pid t) = Some b -> cl !! b <> None) ->
  procs_ok k' cl'.
Proof.
  intros Hown Hnone Hbusy Hlead Hleft Hlast. constructor.
  - intros id b Hb. apply shrunk_tk_inv in Hb as [Hb _]. destruct (po_listed _ _ Hp id b Hb) as (Hr & t & Ht & <-). split; [done |].
    destruct (opt_like _ _ _ _ (sh_tasks _ _ _ _ _ Hs b) Ht) as (t' & Ht' & E & _). eauto.
  - intros b t p Ht Hpp. assert (is_Some (k_tasks k !! p)) as [s Hss].
    { destruct (sh_parent _ _ _ _ _ Hs b t p Ht Hpp) as [Hss | (s & Hss & Hsp)]; [done | by apply (po_parent _ _ Hp b s)]. }
    destruct (opt_like _ _ _ _ (sh_tasks _ _ _ _ _ Hs p) Hss) as (s' & Hs' & _). by exists s'.
  - intros g y Hy Hl. destruct (opt_like_inv _ _ _ _ (sh_groups _ _ _ _ _ Hs g) Hy) as (x & Hx & El & _). pose proof Hl as Hl'. apply (sh_linked _ _ _ _ _ Hs) in Hl as [Hl _].
    destruct (po_leader _ _ Hp g x Hx Hl) as (t & Ht & Eg & Etk). destruct (opt_like _ _ _ _ (sh_tasks _ _ _ _ _ Hs _) Ht) as (t' & Ht' & Ep & Eg').
    rewrite El. exists t'. rewrite Ep, Eg'. split; [done |]. split; [done |]. rewrite (sh_tk _ _ _ _ _ Hs), Etk. destruct gone eqn:Ego; simpl; [| done].
    rewrite bool_decide_eq_false_2; [done |]. intros [= E]. by apply (Hlead eq_refl g x Hx Hl').
  - intros g y b Hy Hb. destruct (opt_like_inv _ _ _ _ (sh_groups _ _ _ _ _ Hs g) Hy) as (x & Hx & _ & Et). rewrite Et in Hb. apply elem_without in Hb as [Hne Hb].
    destruct (po_threads _ _ Hp g x b Hx Hb) as (Hl & t & Ht & Eg & Etk). split; [apply (sh_linked _ _ _ _ _ Hs); split; [done |]; intros E; by apply Hne, (Hleft g x E Hx) |].
    destruct (opt_like _ _ _ _ (sh_tasks _ _ _ _ _ Hs _) Ht) as (t' & Ht' & Ep & Eg'). exists t'. rewrite Ep, Eg'. split; [done |]. split; [done |]. by apply shrunk_tk.
  - intros d t' Ht'. destruct (opt_like_inv _ _ _ _ (sh_tasks _ _ _ _ _ Hs d) Ht') as (t & Ht & _ & ->). destruct (po_groups _ _ Hp d t Ht) as [[z Hz] | Ho].
    + left. destruct (opt_like _ _ _ _ (sh_groups _ _ _ _ _ Hs _) Hz) as (z' & Hz' & _). by exists z'.
    + right. intros b [s' Hs']. destruct (opt_like_inv _ _ _ _ (sh_tasks _ _ _ _ _ Hs b) Hs') as (s & Hss & _). apply Ho. by exists s.
  - intros b t' Ht' Htk Hn. destruct (opt_like_inv _ _ _ _ (sh_tasks _ _ _ _ _ Hs b) Ht') as (t & Ht & Ep & Eg). rewrite Ep in Htk. rewrite Eg. apply shrunk_tk_inv in Htk as [Htk Hgo].
    destruct (decide (b = a)) as [-> | Hne]; [by apply Hnone; [| apply Hgo | |] |]. rewrite Hcl in Hn by done. apply (sh_linked _ _ _ _ _ Hs).
    split; [by apply (po_tasks _ _ Hp b) |]. intros E. by apply (Hlast (t_group t) b t E Hne Ht).
  - intros b c Hb. destruct (decide (b = a)) as [-> | Hne]; [by apply Hown |]. rewrite Hcl in Hb by done. apply shrunk_clone; [done | by apply (Hbusy b) | by apply (po_clones _ _ Hp)].
  - intros b c p Hb Hpp. assert (cl !! p = None /\ alive k p /\ p <> a) as (Hn & (s & z & Hss & Hz & Hin) & Hne).
    { destruct (decide (b = a)) as [-> | Hne].
      - destruct (Hown c Hb) as (_ & c0 & Hc0 & E). rewrite E in Hpp. destruct (po_busy _ _ Hp a c0 p Hc0 Hpp) as [Hn Hss]. split; [done |]. split; [done | congruence].
      - rewrite Hcl in Hb by done. destruct (po_busy _ _ Hp b c p Hb Hpp) as [Hn Hss]. split; [done |]. split; [done |]. intros ->. by apply (Hbusy b c Hb). }
    rewrite Hcl by done. split; [done |]. destruct (opt_like _ _ _ _ (sh_tasks _ _ _ _ _ Hs p) Hss) as (s' & Hs' & _ & Eg).
    destruct (opt_like _ _ _ _ (sh_groups _ _ _ _ _ Hs _) Hz) as (z' & Hz' & _ & Et). exists s', z'. rewrite Eg, Et, elem_without. done.
Qed.
End Shrunk.

(** ** Steps of leaving *)

Section Steps.
Context (k : kernel) (cl : gmap Z clone) (Hp : procs_ok k cl).

Lemma without_out a l : a ∉ l -> without a l = l.
Proof.
  induction l as [| b l IH]; [done |]. intros H. apply not_elem_of_cons in H as [Hne H]. unfold without in *. rewrite filter_cons_True by congruence. by rewrite IH.
Qed.

(** A task is in no thread group but its own. *)
Lemma threads_elsewhere a t g x : k_tasks k !! a = Some t -> g <> t_group t -> k_groups k !! g = Some x -> a ∉ g_threads x.
Proof. intros Ht Hne Hx Ha. destruct (po_threads _ _ Hp g x a Hx Ha) as (_ & s & Hs & E & _). congruence. Qed.

Lemma slot_unique a t id : k_tasks k !! a = Some t -> tk k id = Some a -> id = t_pid t.
Proof. intros Ht H. destruct (po_listed _ _ Hp id a H) as (_ & s & Hs & E). congruence. Qed.

(** The thread group at [a]'s, less [a]. *)
Lemma shrunk_threads a t x y : k_tasks k !! a = Some t -> k_groups k !! t_group t = Some x -> crew_less a x y ->
  shrunk k (put_group k (t_group t) y) a false None.
Proof.
  intros Ht Hx Hy. constructor; [done | | | |].
  - intros h. split; [done | by intros []].
  - intros b. simpl. auto with procs.
  - intros b s p Hb. eauto.
  - intros g. simpl. destruct (decide (g = t_group t)) as [-> | Hne]; [rewrite lookup_insert_eq, Hx; by constructor |]. rewrite lookup_insert_ne by congruence.
    destruct (k_groups k !! g) as [z |] eqn:Hz; constructor. split; [done |]. by rewrite without_out by by apply (threads_elsewhere a t g z).
Qed.

Lemma shrunk_none a t : k_tasks k !! a = Some t -> (forall x, k_groups k !! t_group t = Some x -> a ∉ g_threads x) -> shrunk k k a false None.
Proof.
  intros Ht Hx. constructor; [done | | | |].
  - intros h. split; [done | by intros []].
  - intros b. auto with procs.
  - intros b s p Hb. eauto.
  - intros g. destruct (k_groups k !! g) as [z |] eqn:Hz; constructor. split; [done |]. rewrite without_out; [done |].
    destruct (decide (g = t_group t)) as [-> | Hne]; [by apply Hx | by apply (threads_elsewhere a t g z)].
Qed.
End Steps.

Lemma shrunk_soft k k1 k2 a go l : shrunk k k1 a go l -> soft k1 k2 -> shrunk k k2 a go l.
Proof.
  intros [Htk Hln Hta Hpa Hgr] S. constructor.
  - intros id. by rewrite (so_tk _ _ S), Htk.
  - intros h. by rewrite (soft_linked _ _ h S), Hln.
  - intros b. etrans; [apply Hta | apply (so_tasks _ _ S)].
  - intros b t p Ht Hpp. destruct (so_parent _ _ S b t p Ht Hpp) as [[s Hs] | (s & Hs & Hsp)].
    + left. destruct (opt_like_inv _ _ _ _ (Hta p) Hs) as (r & Hr & _). by exists r.
    + by apply (Hpa b s p).
  - intros g. specialize (Hgr g). pose proof (so_groups _ _ S g) as Hg. destruct Hgr as [x y [L1 L2] |]; inversion Hg as [? z (E1 & _ & _ & E2) |]; subst; constructor.
    split; congruence.
Qed.

(** A group off its lists. *)
Lemma shrunk_left k k1 k2 a go g : shrunk k k1 a go None -> left_lists k1 k2 g -> (forall id, tk k2 id = tk k1 id) -> k_tasks k2 = k_tasks k1 ->
  (exists x y, k_groups k1 !! g = Some x /\ k_groups k2 !! g = Some y /\ crew_like x y) -> shrunk k k2 a go (Some g).
Proof.
  intros [Htk Hln Hta Hpa Hgr] Hl Ht Hts (x & y & Hx & Hy & Ecl). constructor.
  - intros id. by rewrite Ht, Htk.
  - intros h. rewrite (left_linked _ _ _ h Hl), Hln. naive_solver.
  - intros b. by rewrite Hts.
  - intros b t p. rewrite Hts. apply Hpa.
  - intros h. destruct (decide (h = g)) as [-> | Hne]; [| rewrite (le_groups _ _ _ Hl h Hne); apply Hgr].
    specialize (Hgr g). rewrite Hy. rewrite Hx in Hgr. inversion Hgr as [x0 ? [E1 E2] |]; subst. constructor. destruct Ecl. split; congruence.
Qed.

(** A task out of its slot. *)
Record unlinked (k k' : kernel) (a : Z) (t : task) : Prop := mk_unlinked {
  ul_tk : forall id, tk k' id = if decide (id = t_pid t) then None else tk k id;
  ul_pg : forall id, pg k' id = pg k id;
  ul_sn : forall id, sn k' id = sn k id;
  ul_tasks : k_tasks k' = <[a := set_t_flags t (t_zombie t) true (t_did_exec t) (t_sighand t)]> (k_tasks k);
  ul_groups : k_groups k' = k_groups k;
  ul_ttys : k_ttys k' = k_ttys k;
  ul_last : k_last_allocated_pid k' = k_last_allocated_pid k;
  ul_max : k_pid_max k' = k_pid_max k }.

Lemma unlink_spec k a t : k_tasks k !! a = Some t -> tk k (t_pid t) = Some a -> 0 < t_pid t <= MAX_PID ->
  exists k', task_unlink_locked k a = Some k' /\ unlinked k k' a t.
Proof.
  intros Ht Hk Hr. unfold task_unlink_locked. rewrite Ht. simpl. set (k1 := put_task _ _ _).
  rewrite (pid_get_global_found k1 (t_pid t) Hr) by by apply (tk_not_empty k _ a). set (k2 := alter_pid k1 _ _). pose proof (same_unnumber_if_empty k2 (t_pid t)) as V.
  eexists. split; [done |]. assert (forall j, pid_at k2 j = if decide (j = t_pid t) then set_p_task (pid_at k (t_pid t)) None else pid_at k j) as Hat
    by (intros j; apply (pid_at_alter k1), (tk_some k _ a Hk)).
  constructor; try (intros id; rewrite ?(v_tk _ _ V), ?(v_pg _ _ V), ?(v_sn _ _ V); unfold tk, pg, sn; rewrite Hat; by destruct (decide _) as [-> |]).
  - apply (v_tasks _ _ V).
  - apply (v_groups _ _ V).
  - apply (v_ttys _ _ V).
  - apply (v_last _ _ V).
  - apply (v_max _ _ V).
Qed.

Lemma shrunk_unlinked k k1 k2 a t go l cl : procs_ok k cl -> shrunk k k1 a go l -> k_tasks k1 !! a = Some t -> unlinked k1 k2 a t -> (forall s, k_tasks k !! a = Some s -> t_pid s = t_pid t) ->
  tk k (t_pid t) = Some a -> shrunk k k2 a true l.
Proof.
  intros Hp [Htk Hln Hta Hpa Hgr] Ht U Hs Hk. constructor.
  - intros id. rewrite (ul_tk _ _ _ _ U), Htk. simpl. destruct (decide (id = t_pid t)) as [-> | Hne]; [by rewrite bool_decide_eq_true_2 |].
    rewrite bool_decide_eq_false_2; [by rewrite andb_false_r |]. intros E. destruct (po_listed _ _ Hp id a E) as (_ & s & Hss & <-). by apply Hne, Hs.
  - intros h. rewrite <- Hln. unfold linked. by setoid_rewrite (ul_pg _ _ _ _ U).
  - intros b. rewrite (ul_tasks _ _ _ _ U). destruct (decide (b = a)) as [-> | Hne]; [rewrite lookup_insert_eq | by rewrite lookup_insert_ne by congruence].
    specialize (Hta a). rewrite Ht in Hta. inversion Hta as [? ? [] |]; subst. by constructor.
  - intros b s p. rewrite (ul_tasks _ _ _ _ U). destruct (decide (b = a)) as [-> | Hne]; [rewrite lookup_insert_eq | rewrite lookup_insert_ne by congruence; apply Hpa].
    intros [= <-] Hpp. by apply (Hpa a t).
  - intros g. rewrite (ul_groups _ _ _ _ U). apply Hgr.
Qed.

Lemma unlinked_lists k k' a t : lists_ok k -> unlinked k k' a t -> lists_ok k'.
Proof. intros H U. apply (lists_same k); [done | apply (ul_pg _ _ _ _ U) | apply (ul_sn _ _ _ _ U) |]. intros g x Hx. exists x. by rewrite (ul_groups _ _ _ _ U). Qed.

(** ** What leaving leaves *)

Record departs (k k' : kernel) (a : Z) (gone : bool) (left : option Z) : Prop := mk_departs {
  dp_shrunk : shrunk k k' a gone left;
  dp_lists : lists_ok k';
  dp_tty : forall g x, k_groups k !! g = Some x -> left <> Some g -> exists y, k_groups k' !! g = Some y /\ g_tty y = g_tty x /\ g_sid y = g_sid x;
  dp_last : k_last_allocated_pid k' = k_last_allocated_pid k;
  dp_max : k_pid_max k' = k_pid_max k }.

Lemma departs_links k k' cl cl' a gone left : links_ok (mk_world k cl) -> departs k k' a gone left -> procs_ok k' cl' -> links_ok (mk_world k' cl').
Proof. intros [_ _ Ha] D Hp. split; [apply (dp_lists _ _ _ _ _ D) | done |]. unfold alloc_ok in *. simpl in *. by rewrite (dp_last _ _ _ _ _ D), (dp_max _ _ _ _ _ D). Qed.

Section Departures.
Context (k : kernel) (cl : gmap Z clone) (Hok : links_ok (mk_world k cl)).
Notation Hp := (lk_procs _ Hok).
Context (a : Z) (t : task) (x : tgroup) (Ht : k_tasks k !! a = Some t) (Hx : k_groups k !! t_group t = Some x).

Lemma departs_threads y : crew_less a x y -> g_pgid y = g_pgid x -> g_sid y = g_sid x -> g_tty y = g_tty x -> departs k (put_group k (t_group t) y) a false None.
Proof.
  intros Hy Ep Es Et. assert (forall g z, k_groups k !! g = Some z -> exists z', k_groups (put_group k (t_group t) y) !! g = Some z' /\ g_pgid z' = g_pgid z /\ g_sid z' = g_sid z /\ g_tty z' = g_tty z) as Hg.
  { intros g z Hz. simpl. destruct (decide (g = t_group t)) as [-> | Hne]; [rewrite lookup_insert_eq; simplify_eq; eauto | rewrite lookup_insert_ne by congruence; eauto]. }
  constructor; try done; [by apply (shrunk_threads k cl Hp a t x) | |].
  - apply (lists_same k); [apply Hok | done | done |]. intros g z Hz. destruct (Hg g z Hz) as (z' & ? & ? & ? & _). eauto.
  - intros g z Hz _. destruct (Hg g z Hz) as (z' & ? & ? & ? & ?). eauto.
Qed.

Lemma departs_off k1 g : departs k k1 a false None -> g = t_group t -> departs k (session_unlink (pgroup_unlink k1 g) g) a false (Some g).
Proof.
  intros [S L T La Mx] ->. assert (left_lists k1 (session_unlink (pgroup_unlink k1 (t_group t)) (t_group t)) (t_group t)) as Hl.
  { constructor; [| | done]; intros id; by autorewrite with procs. }
  constructor; [| by apply (lists_leave k1 _ (t_group t)) | | done | done].
  - apply (shrunk_left k k1 _ a false (t_group t) S Hl); [intros id; by autorewrite with procs | done |].
    destruct (T _ x Hx ltac:(done)) as (y & Hy & _). exists y, y. by split_and!.
  - intros g z Hz _. destruct (T g z Hz ltac:(done)) as (z' & ? & ? & ?). eauto.
Qed.

Lemma departs_slot k1 k2 t1 left : departs k k1 a false left -> k_tasks k1 !! a = Some t1 -> tk k (t_pid t) = Some a -> unlinked k1 k2 a t1 -> departs k k2 a true left.
Proof.
  intros [S L T La Mx] Ht1 Hk U. assert (t_pid t1 = t_pid t) as E by (destruct (opt_like _ _ _ _ (sh_tasks _ _ _ _ _ S a) Ht) as (s & Hs & E & _); congruence).
  constructor; [| by apply (unlinked_lists k1 k2 a t1) | | |].
  - apply (shrunk_unlinked k k1 k2 a t1 false left cl Hp S Ht1 U); [intros s Hs; congruence | congruence].
  - intros g z. rewrite (ul_groups _ _ _ _ U). apply T.
  - by rewrite (ul_last _ _ _ _ U).
  - by rewrite (ul_max _ _ _ _ U).
Qed.

(** copy_task's late failure. *)
Lemma fail_unlink_spec (thread : bool) : exists k', fail_unlink_group k a (if thread then None else Some (t_group t)) = Some k' /\
  departs k k' a false (if thread then None else Some (t_group t)) /\ k_ttys k' = k_ttys k /\ k_tasks k' = k_tasks k.
Proof.
  unfold fail_unlink_group. rewrite Ht. simpl. rewrite Hx. simpl. pose proof (departs_threads (set_g_threads x (without a (g_threads x))) ltac:(done) eq_refl eq_refl eq_refl) as D.
  destruct thread; eexists; (split; [done |]); split; try done. by apply departs_off.
Qed.

Context (Hk : tk k (t_pid t) = Some a).
Lemma own_range : 0 < t_pid t <= MAX_PID.
Proof. by destruct (po_listed _ _ Hp _ a Hk). Qed.

Lemma departs_pid k1 left t1 : departs k k1 a false left -> k_tasks k1 !! a = Some t1 -> tk k1 (t_pid t1) = Some a /\ 0 < t_pid t1 <= MAX_PID.
Proof.
  intros D Ht1. destruct (opt_like _ _ _ _ (sh_tasks _ _ _ _ _ (dp_shrunk _ _ _ _ _ D) a) Ht) as (s & Hs & E & _). simplify_eq.
  rewrite E. split; [rewrite (sh_tk _ _ _ _ _ (dp_shrunk _ _ _ _ _ D)); done | apply own_range].
Qed.

Lemma departs_unlink k1 t1 left : departs k k1 a false left -> k_tasks k1 !! a = Some t1 -> exists k2, task_unlink_locked k1 a = Some k2 /\ departs k k2 a true left /\ k_ttys k2 = k_ttys k1.
Proof.
  intros D Ht1. destruct (departs_pid k1 left t1 D Ht1) as [Hk1 Hr1]. destruct (unlink_spec k1 a t1 Ht1 Hk1 Hr1) as (k2 & E & U).
  exists k2. split; [done |]. split; [by apply (departs_slot k1 k2 t1) | apply (ul_ttys _ _ _ _ U)].
Qed.

(** task_never_ran_destroy. *)
Lemma never_ran_spec (thread : bool) : (exists p pt, t_parent t = Some p /\ k_tasks k !! p = Some pt /\ (t_group pt = t_group t <-> thread = true)) ->
  exists k', task_never_ran_destroy k a = Some k' /\ departs k k' a true (if thread then None else Some (t_group t)) /\ k_ttys k' = k_ttys k.
Proof.
  intros (p & pt & Epar & Hpt & Hth). unfold task_never_ran_destroy. rewrite Ht. simpl. rewrite Hx. simpl. rewrite Epar. simpl. rewrite Hpt. simpl.
  pose proof (departs_threads (set_g_threads x (without a (g_threads x))) ltac:(done) eq_refl eq_refl eq_refl) as D. set (k1 := put_group _ _ _) in *.
  assert (departs k (if t_group t =? t_group pt then k1 else session_unlink (pgroup_unlink k1 (t_group t)) (t_group t)) a false (if thread then None else Some (t_group t))) as D1.
  { destruct (t_group t =? t_group pt) eqn:E; to_prop; destruct thread; try done; [naive_solver | naive_solver | by apply departs_off]. }
  set (k2 := if t_group t =? t_group pt then _ else _) in *. assert (k_tasks k2 = k_tasks k /\ k_ttys k2 = k_ttys k) as [E1 E2] by (unfold k2; by destruct (_ =? _)).
  clearbody k2. destruct (departs_unlink k2 t _ D1) as (k3 & -> & D3 & E3); [by rewrite E1 |]. exists k3. split; [done |]. split; [done | congruence].
Qed.

(** A thread, or a task that never had a group, goes out of the table. *)
Lemma alone_unlink_spec : (forall y, k_groups k !! t_group t = Some y -> a ∉ g_threads y) -> exists k', task_unlink_locked k a = Some k' /\ departs k k' a true None /\ k_ttys k' = k_ttys k.
Proof.
  intros Hn. apply (departs_unlink k t None); [| done]. constructor; try done; [| apply Hok | eauto].
  by apply (shrunk_none k cl Hp a t Ht).
Qed.

Lemma thread_unlink_spec : a ∉ g_threads x -> exists k', thread_unlink k a = Some k' /\ departs k k' a true None /\ k_ttys k' = k_ttys k.
Proof.
  intros Hn. unfold thread_unlink. rewrite Ht. simpl. rewrite Hx. simpl. destruct (t_zombie t); [| apply alone_unlink_spec; congruence].
  set (y := mk_tgroup _ _ _ _ _ _ _). destruct (departs_unlink (put_group k (t_group t) y) t None) as (k' & -> & D & E); [| done | by exists k'].
  apply departs_threads; try done. split; [done |]. simpl. by rewrite without_out.
Qed.

(** release_process_locked. *)
Lemma release_spec : g_threads x = [] -> exists k1 k', task_leave_session k a = Some k1 /\ release_process_locked k a = Some k' /\ departs k k' a true (Some (t_group t)) /\ k_ttys k' = k_ttys k1.
Proof.
  intros Hn. unfold release_process_locked. rewrite Ht. simpl. destruct (leave_session_spec k a t x Ht Hx) as (k1 & -> & S1 & P1 & T1 & K1 & X1 & G1 & L1 & M1 & I1).
  simpl. rewrite X1. simpl. pose proof (same_unnumber_if_empty (pgroup_unlink k1 (t_group t)) (g_pgid x)) as V. set (k2 := pid_ns_unnumber_if_empty _ _) in *. clearbody k2.
  assert (left_lists k k2 (t_group t)) as Hl.
  { constructor.
    - intros id. by rewrite (v_pg _ _ V), unlink_pg, P1.
    - intros id. by rewrite (v_sn _ _ V), unlink_pg_sn, S1.
    - intros h Hne. rewrite (v_groups _ _ V). by apply G1. }
  assert (k_tasks k2 = k_tasks k) as Ek by (rewrite (v_tasks _ _ V); done).
  assert (departs k k2 a false (Some (t_group t))) as D.
  { constructor; [| apply (lists_leave k _ (t_group t)); [apply Hok | done] | | rewrite (v_last _ _ V); done | rewrite (v_max _ _ V); done].
    - apply (shrunk_left k k k2 a false (t_group t)); [apply (shrunk_none k cl Hp a t Ht) | done | | done |].
      + intros y Hy. assert (y = x) as -> by congruence. rewrite Hn. apply not_elem_of_nil.
      + intros id. by rewrite (v_tk _ _ V), unlink_pg_tk, T1.
      + eexists _, _. split; [done |]. split; [rewrite (v_groups _ _ V); done |]. done.
    - intros g z Hz Hne. exists z. rewrite (v_groups _ _ V). simpl. rewrite G1 by congruence. done. }
  destruct (departs_unlink k2 t (Some (t_group t)) D) as (k3 & -> & D3 & E3); [by rewrite Ek |].
  exists k1, k3. split; [done |]. split; [done |]. split; [done |]. rewrite E3. apply (v_ttys _ _ V).
Qed.
End Departures.
