(* ===== verification/ProcTty.v ===== *)
(** * A terminal controls one session

    Every process that has a terminal for its own is in the session the terminal
    says it controls, and a terminal that controls a session is had by the
    session's leader, which is alive. *)

From S2P Require Import Prelude Pids Groups Procs Ctty ProcWorld ProcLinks ProcSound ProcLeave.

(** The leader of a session, alive, whose terminal is [y].  [dying] is a group
    whose last thread has left and whose hangup is still to come. *)
Record heads (k : kernel) (cl : gmap Z clone) (dying : option Z) (g : Z) (x : tgroup) (y : Z) : Prop := mk_heads {
  hd_group : k_groups k !! g = Some x;
  hd_linked : linked k g;
  hd_tty : g_tty x = Some y;
  hd_leader : exists t, k_tasks k !! g_leader x = Some t /\ g_sid x = t_pid t;
  hd_alive : g_threads x <> [] \/ dying = Some g;
  hd_done : cl !! g_leader x = None }.

Record ttys_ok (k : kernel) (cl : gmap Z clone) (dying : option Z) : Prop := mk_ttys {
  tt_session : forall g x y, k_groups k !! g = Some x -> linked k g -> g_tty x = Some y -> exists d, k_ttys k !! y = Some d /\ y_session d = g_sid x;
  tt_leader : forall y d, k_ttys k !! y = Some d -> y_session d <> 0 -> exists g x, heads k cl dying g x y /\ y_session d = g_sid x }.

(** ** Steps that leave the terminals alone *)

Lemma ttys_keep k k' cl cl' dying dying' : ttys_ok k cl dying -> k_ttys k' = k_ttys k ->
  (forall g x' y, k_groups k' !! g = Some x' -> linked k' g -> g_tty x' = Some y ->
    exists h x, k_groups k !! h = Some x /\ linked k h /\ g_tty x = Some y /\ g_sid x = g_sid x') ->
  (forall g x y, heads k cl dying g x y -> exists x', heads k' cl' dying' g x' y /\ g_sid x' = g_sid x) -> ttys_ok k' cl' dying'.
Proof.
  intros [Hs Hl] E Hb Hf. constructor; rewrite E.
  - intros g x' y Hx' Hln Hy. destruct (Hb g x' y Hx' Hln Hy) as (h & x & Hx & Hlh & Hyx & <-). by apply (Hs h).
  - intros y d Hd Hn. destruct (Hl y d Hd Hn) as (g & x & Hh & Ed). destruct (Hf g x y Hh) as (x' & Hh' & Es). exists g, x'. split; [done |]. congruence.
Qed.

Lemma ttys_quiet k k' cl cl' : quiet k k' -> (forall b, cl !! b = None -> cl' !! b = None) -> ttys_ok k cl None -> ttys_ok k' cl' None.
Proof.
  intros [S Et Hy] Hcl H. apply (ttys_keep k k' cl cl' None None H Et).
  - intros g x' y Hx' Hln Hyy. specialize (Hy g). destruct (opt_like_inv _ _ _ _ (so_groups _ _ S g) Hx') as (x & Hx & (_ & Es & _)). rewrite Hx, Hx' in Hy. inversion Hy; subst.
    exists g, x. rewrite (soft_linked _ _ g S) in Hln. split_and!; congruence.
  - intros g x y [Hx Hln Hyy (t & Ht & Est) Ha Hd]. destruct (opt_like _ _ _ _ (so_groups _ _ S g) Hx) as (x' & Hx' & (El & Es & _ & Eth)).
    specialize (Hy g). rewrite Hx, Hx' in Hy. inversion Hy; subst. destruct (opt_like _ _ _ _ (so_tasks _ _ S _) Ht) as (t' & Ht' & Ep & _).
    exists x'. split; [| done]. constructor; [done | by apply (soft_linked _ _ g S) | congruence | | by rewrite Eth | rewrite El; auto].
    exists t'. rewrite El. split; [done | congruence].
Qed.

(** Moves that keep the session and the terminal. *)
Lemma ttys_moved k k' cl g x x' : moved k k' g x x' -> k_groups k !! g = Some x -> linked k g -> g_tty x' = g_tty x -> (g_tty x = None \/ g_sid x' = g_sid x) ->
  k_ttys k' = k_ttys k -> ttys_ok k cl None -> ttys_ok k' cl None.
Proof.
  intros M Hx Hln Et Es Ey H. pose proof (mv_entered _ _ _ _ _ M) as He. apply (ttys_keep k k' cl cl None None H Ey).
  - intros h z y Hz Hlz Hy. destruct (decide (h = g)) as [-> | Hne].
    + rewrite (en_group _ _ _ _ He) in Hz. simplify_eq. exists g, x. split_and!; try done; [congruence | destruct Es; congruence].
    + rewrite (en_groups _ _ _ _ He h Hne) in Hz. apply (entered_linked _ _ _ _ h He) in Hlz. exists h, z. split_and!; try done. naive_solver.
  - intros h z y [Hz Hlz Hy (t & Ht & Est) Ha Hd]. destruct (decide (h = g)) as [-> | Hne].
    + assert (z = x) as -> by congruence. destruct (mv_crew _ _ _ _ _ M) as [El Eth]. exists x'.
      assert (g_sid x' = g_sid x) as Esx by (destruct Es; congruence). split; [| done]. constructor.
      * apply (en_group _ _ _ _ He).
      * apply (entered_linked _ _ _ _ _ He). by left.
      * congruence.
      * exists t. rewrite El, (mv_tasks _ _ _ _ _ M). split; [done | congruence].
      * by rewrite Eth.
      * by rewrite El.
    + exists z. split; [| done]. constructor; try done.
      * by rewrite (en_groups _ _ _ _ He h Hne).
      * apply (entered_linked _ _ _ _ _ He). by right.
      * exists t. by rewrite (mv_tasks _ _ _ _ _ M).
Qed.

(** Departures that keep the terminals. *)
Lemma ttys_departs k k' cl cl' a gone left dying' : departs k k' a gone left -> k_ttys k' = k_ttys k ->
  (forall b, cl !! b = None -> cl' !! b = None) ->
  (forall g x, left = Some g -> k_groups k !! g = Some x -> g_threads x = [] \/ cl !! g_leader x <> None) ->
  (forall g x, k_groups k !! g = Some x -> left <> Some g -> g_threads x <> [] -> cl !! g_leader x = None -> without a (g_threads x) <> [] \/ dying' = Some g) ->
  ttys_ok k cl None -> ttys_ok k' cl' dying'.
Proof.
  intros [S _ T _ _] Ey Hcl Hl Hal H. apply (ttys_keep k k' cl cl' None dying' H Ey).
  - intros g x' y Hx' Hln Hy. apply (sh_linked _ _ _ _ _ S) in Hln as [Hln Hne]. destruct (opt_like_inv _ _ _ _ (sh_groups _ _ _ _ _ S g) Hx') as (x & Hx & _).
    destruct (T g x Hx Hne) as (z & Hz & Etz & Esz). simplify_eq. exists g, x. split_and!; congruence.
  - intros g x y [Hx Hln Hy (t & Ht & Est) [Ha | Ha] Hd]; [| done]. assert (left <> Some g) as Hne by (intros E; destruct (Hl g x E Hx); done).
    destruct (T g x Hx Hne) as (z & Hz & Etz & Esz). destruct (opt_like _ _ _ _ (sh_groups _ _ _ _ _ S g) Hx) as (z' & Hz' & El & Eth). simplify_eq.
    destruct (opt_like _ _ _ _ (sh_tasks _ _ _ _ _ S _) Ht) as (t' & Ht' & Ep & _). exists z. split; [| done]. constructor.
    + done.
    + by apply (sh_linked _ _ _ _ _ S).
    + congruence.
    + exists t'. rewrite El. split; [done | congruence].
    + rewrite Eth. by apply (Hal g x).
    + rewrite El. auto.
Qed.

(** ** Steps that touch one terminal *)

Definition tty_of (y : Z) (o : option Z) : Prop := o = None \/ o = Some y.
Definition retty (y : Z) (x x' : tgroup) : Prop := g_tty x' = g_tty x \/ (tty_of y (g_tty x) /\ tty_of y (g_tty x')).

#[export] Instance retty_refl y : Reflexive (retty y).
Proof. intros x. by left. Qed.
#[export] Instance retty_trans y : Transitive (retty y).
Proof. intros a b c [E1 | [A1 B1]] [E2 | [A2 B2]]; unfold retty; rewrite ?E1, ?E2; try (by left); right; split; congruence. Qed.

Lemma retty_other y y' x x' : retty y x x' -> y' <> y -> g_tty x' = Some y' <-> g_tty x = Some y'.
Proof. intros [E | [[E1 | E1] [E2 | E2]]] Hne; rewrite ?E, ?E1, ?E2; split; congruence. Qed.

Lemma ttys_touch k k' cl y d' dying : soft k k' -> k_ttys k' = <[y := d']> (k_ttys k) ->
  (forall g, option_Forall2 (retty y) (k_groups k !! g) (k_groups k' !! g)) ->
  (forall g x', k_groups k' !! g = Some x' -> linked k' g -> g_tty x' = Some y -> y_session d' = g_sid x') ->
  (y_session d' <> 0 -> exists g x', heads k' cl None g x' y /\ y_session d' = g_sid x') ->
  (forall g x, dying = Some g -> k_groups k !! g = Some x -> tty_of y (g_tty x)) ->
  ttys_ok k cl dying -> ttys_ok k' cl None.
Proof.
  intros S Ey Hr Hb Hc Hdy [Hs Hl]. constructor; rewrite Ey.
  - intros g x' y' Hx' Hln Hy'. destruct (decide (y' = y)) as [-> | Hne]; [rewrite lookup_insert_eq; eauto |]. rewrite lookup_insert_ne by congruence.
    destruct (opt_like_inv _ _ _ _ (so_groups _ _ S g) Hx') as (x & Hx & (_ & Es & _)). specialize (Hr g). rewrite Hx, Hx' in Hr. inversion Hr; subst.
    rewrite Es. apply (Hs g x y' Hx); [by apply (soft_linked _ _ g S) | by apply (retty_other y y' x x')].
  - intros y' d Hd Hn. destruct (decide (y' = y)) as [-> | Hne]; [rewrite lookup_insert_eq in Hd; simplify_eq; by apply Hc |]. rewrite lookup_insert_ne in Hd by congruence.
    destruct (Hl y' d Hd Hn) as (g & x & [Hx Hln Hyy (t & Ht & Est) Ha Hdn] & Ed). destruct (opt_like _ _ _ _ (so_groups _ _ S g) Hx) as (x' & Hx' & (El & Es & _ & Eth)).
    specialize (Hr g). rewrite Hx, Hx' in Hr. inversion Hr; subst. destruct (opt_like _ _ _ _ (so_tasks _ _ S _) Ht) as (t' & Ht' & Ep & _).
    exists g, x'. split; [| congruence]. constructor; [done | by apply (soft_linked _ _ g S) | by apply (retty_other y y' x x') | | | by rewrite El].
    + exists t'. rewrite El. split; [done | congruence].
    + rewrite Eth. destruct Ha as [Ha | Ha]; [by left |]. exfalso. destruct (Hdy g x Ha Hx); congruence.
Qed.

(** The members of a session drop the terminal. *)
Lemma drop_retty k y l g : option_Forall2 (retty y) (k_groups k !! g) (k_groups (session_drop_tty k y l) !! g).
Proof.
  revert k. induction l as [| h l IH]; intros k; simpl; [by apply opt_refl |]. eapply option_forall2_trans; [apply retty_trans | | apply IH].
  destruct (k_groups k !! h) as [z |] eqn:Hz; [| by apply opt_refl]. case_bool_decide as E; [| by apply opt_refl]. simpl.
  destruct (decide (g = h)) as [-> | Hne]; [rewrite lookup_insert_eq, Hz; constructor; right; split; [by right | by left] | rewrite lookup_insert_ne by congruence; by apply opt_refl].
Qed.

Lemma drop_kept k y l g : (forall z, k_groups k !! g = Some z -> g_tty z <> Some y) -> forall z, k_groups (session_drop_tty k y l) !! g = Some z -> g_tty z <> Some y.
Proof.
  revert k. induction l as [| h l IH]; intros k H; simpl; [done |]. apply IH. intros z. destruct (k_groups k !! h) as [w |] eqn:Hw; [| apply H].
  case_bool_decide; [| apply H]. simpl. destruct (decide (g = h)) as [-> | Hne]; [rewrite lookup_insert_eq; by intros [= <-] | rewrite lookup_insert_ne by congruence; apply H].
Qed.

Lemma drop_dropped k y l g z : g ∈ l -> k_groups (session_drop_tty k y l) !! g = Some z -> g_tty z <> Some y.
Proof.
  revert k. induction l as [| h l IH]; intros k Hin; simpl; [by apply not_elem_of_nil in Hin |]. apply elem_of_cons in Hin as [-> | Hin]; [| by apply IH].
  apply drop_kept. intros w. destruct (k_groups k !! h) as [v |] eqn:Hv; [| congruence]. case_bool_decide as E; simpl; [rewrite lookup_insert_eq; by intros [= <-] | congruence].
Qed.

(** Once the session has dropped it, no process has the terminal. *)
Lemma tty_dropped k cl y d l dying g z : lists_ok k -> ttys_ok k cl dying -> k_ttys k !! y = Some d -> l = sn k (y_session d) ->
  k_groups (session_drop_tty k y l) !! g = Some z -> linked k g -> g_tty z <> Some y.
Proof.
  intros Hl [Hs _] Hd -> Hz Hln Hy. destruct (decide (g ∈ sn k (y_session d))) as [Hin | Hn]; [by apply (drop_dropped k y _ g z Hin Hz) |].
  revert Hy. apply (drop_kept k y (sn k (y_session d)) g); [| done]. intros x Hx Hy. apply Hn.
  destruct (Hs g x y Hx Hln Hy) as (d' & Hd' & Es). simplify_eq. rewrite Es. by apply linked_session.
Qed.

Lemma linked_found k g x : lists_ok k -> k_groups k !! g = Some x -> linked k g -> pid_get_global k (g_sid x) = Some (g_sid x).
Proof.
  intros Hl Hx Hln. pose proof (linked_session k g x Hl Hx Hln) as Hin. assert (sn k (g_sid x) <> []) as Hn by (apply not_nil_elem; eauto).
  apply pid_get_global_found; [apply (lo_range _ Hl); by right |]. apply pid_empty_false. by right; left.
Qed.

Lemma linked_sid k g x : lists_ok k -> k_groups k !! g = Some x -> linked k g -> g_sid x <> 0.
Proof. intros Hl Hx Hln. assert (0 < g_sid x <= MAX_PID) as Hr; [| lia]. apply (lo_range _ Hl). right. apply not_nil_elem. exists g. by apply linked_session. Qed.

(** A session leader, alive and made. *)
Definition fit (k : kernel) (cl : gmap Z clone) (g : Z) (x : tgroup) : Prop :=
  k_groups k !! g = Some x /\ linked k g /\ (exists t, k_tasks k !! g_leader x = Some t /\ g_sid x = t_pid t) /\ g_threads x <> [] /\ cl !! g_leader x = None.

(** The leader takes a terminal nobody else in the table has. *)
Lemma ttys_take k cl g x y d : lists_ok k -> fit k cl g x -> g_tty x = None -> k_ttys k !! y = Some d ->
  (forall h z, k_groups k !! h = Some z -> linked k h -> g_tty z <> Some y) ->
  (forall h z y', k_groups k !! h = Some z -> linked k h -> g_tty z = Some y' -> exists d, k_ttys k !! y' = Some d /\ y_session d = g_sid z) ->
  (forall y' d, y' <> y -> k_ttys k !! y' = Some d -> y_session d <> 0 -> exists g x, heads k cl None g x y' /\ y_session d = g_sid x) ->
  ttys_ok (tty_set_controlling_locked k g x y d) cl None.
Proof.
  intros Hl (Hx & Hln & (t & Ht & Est) & Ha & Hd) Hn Hy Hno Hs Hh. unfold tty_set_controlling_locked. rewrite Hn. constructor; simpl.
  - intros h z y' Hz Hlh Hyz. change (linked k h) in Hlh. destruct (decide (h = g)) as [-> | Hne].
    + rewrite lookup_insert_eq in Hz. simplify_eq. simpl in Hyz. simplify_eq. rewrite lookup_insert_eq. by eexists.
    + rewrite lookup_insert_ne in Hz by congruence. assert (y' <> y) as Hney by (intros ->; by apply (Hno h z)). rewrite lookup_insert_ne by congruence. by apply (Hs h).
  - intros y' d' Hd' Hn'. destruct (decide (y' = y)) as [-> | Hney].
    + rewrite lookup_insert_eq in Hd'. simplify_eq. simpl. exists g, (set_g_tty x (Some y)). split; [| done]. constructor; try done; simpl; [by rewrite lookup_insert_eq | by exists t | by left].
    + rewrite lookup_insert_ne in Hd' by congruence. destruct (Hh y' d' Hney Hd' Hn') as (h & z & [H1 H2 H3 H4 H5 H6] & Ed). assert (h <> g) as Hne by congruence.
      exists h, z. split; [| done]. constructor; try done. simpl. by rewrite lookup_insert_ne by congruence.
Qed.

(** The session gives the terminal up. *)
Lemma ttys_given_up k cl y d d' dying k1 : lists_ok k -> ttys_ok k cl dying -> k_ttys k !! y = Some d ->
  (forall g x, dying = Some g -> k_groups k !! g = Some x -> tty_of y (g_tty x)) ->
  k1 = put_tty (session_drop_tty k y (sn k (y_session d))) y d' -> y_session d' = 0 -> ttys_ok k1 cl None.
Proof.
  intros Hl Hty Hd Hdy -> E0. set (l := sn k (y_session d)). destruct (session_drop_tasks k y l) as [Ek Ey].
  apply (ttys_touch k _ cl y d' dying); [etrans; [apply (session_drop_soft k y l) | apply soft_set_ttys] | simpl; by rewrite Ey | apply (drop_retty k y l) | | | done | done].
  - intros g z Hz Hlz Hyz. exfalso. simpl in Hz. apply (tty_dropped k cl y d l dying g z Hl Hty Hd eq_refl Hz); [| done]. by apply (soft_linked _ _ g (session_drop_soft k y l)).
  - congruence.
Qed.

(** The last thread has left: the hangup. *)
Lemma hangup_ttys k cl l t x : lists_ok k -> ttys_ok k cl (Some (t_group t)) -> k_tasks k !! l = Some t -> k_groups k !! t_group t = Some x -> linked k (t_group t) -> g_leader x = l ->
  forall h k', exit_hangup_session_tty k l = Some (h, k') -> ttys_ok k' cl None.
Proof.
  intros Hl Hty Ht Hx Hln El h k'. unfold exit_hangup_session_tty. rewrite Ht. simpl. rewrite Hx. simpl.
  assert (g_tty x = None \/ g_sid x <> t_pid t -> ttys_ok k cl None) as Hidle.
  { intros Hc. apply (ttys_keep k k cl cl (Some (t_group t)) None Hty eq_refl); [by intros g z y ? ? ?; exists g, z |]. intros g z y [H1 H2 H3 (s & H4 & H5) H6 H7]. exists z. split; [| done].
    constructor; try done; [by exists s |]. left. destruct H6 as [H6 | [= E]]; [done |]. exfalso. subst g. simplify_eq. destruct Hc; congruence. }
  destruct (g_tty x) as [y |] eqn:Ey; [| intros [= _ <-]; auto]. destruct (g_sid x =? t_pid t) eqn:Es; simpl; to_prop; [| intros [= _ <-]; auto].
  destruct (tt_session _ _ _ Hty _ x y Hx Hln Ey) as (d & Hd & Eds). rewrite (linked_found k _ x Hl Hx Hln).
  fold (sn k (g_sid x)). rewrite <- Eds. destruct (session_drop_tasks k y (sn k (y_session d))) as [_ Htt]. rewrite Htt, Hd. simpl. intros [= _ <-].
  apply (ttys_given_up k cl y d (mk_tty 0 0 (y_hung_up d || negb (y_pseudo d)) (y_pseudo d)) (Some (t_group t))); try done. intros g z [= <-] Hz. simplify_eq. by right.
Qed.

(** ** The terminal calls of a process *)

Section Calls.
Context (k : kernel) (cl : gmap Z clone) (Hl : lists_ok k) (Hty : ttys_ok k cl None).
Context (a : Z) (t : task) (x : tgroup) (lt : task) (y : Z) (d : tty).
Context (Ht : k_tasks k !! a = Some t) (Hx : k_groups k !! t_group t = Some x) (Hln : linked k (t_group t)).
Context (Hlt : k_tasks k !! g_leader x = Some lt) (Hal : g_threads x <> []) (Hcl : cl !! g_leader x = None) (Hd : k_ttys k !! y = Some d).

Lemma fit_self : g_sid x = t_pid lt -> fit k cl (t_group t) x.
Proof. intros E. split_and!; try done. by exists lt. Qed.

Lemma open_ttys k' : tty_open_controlling k a y = Some k' -> ttys_ok k' cl None.
Proof.
  unfold tty_open_controlling. rewrite Ht. simpl. rewrite Hx. simpl. rewrite Hd. simpl. rewrite (leader_test k x lt Hlt). simpl. intros [= <-].
  destruct (_ && _) eqn:E; [| done]. to_prop. destruct (g_tty x) as [y' |] eqn:Ey; [unfold tty_set_controlling_locked; by rewrite Ey |].
  apply ttys_take; try done; [by apply fit_self | | apply Hty | by intros y' d' _; apply Hty].
  intros h z Hz Hlz Hyz. destruct (tt_session _ _ _ Hty h z y Hz Hlz Hyz) as (d' & Hd' & Es). simplify_eq. apply (linked_sid k h z); [done | done | done | congruence].
Qed.

(** One terminal's foreground group changes. *)
Lemma ttys_same_session d' : y_session d' = y_session d -> ttys_ok (put_tty k y d') cl None.
Proof.
  intros Es. apply (ttys_touch k _ cl y d' None); [apply soft_set_ttys | done | intros g; by apply opt_refl | | | done | done].
  - intros g z Hz Hlz Hyz. destruct (tt_session _ _ _ Hty g z y Hz Hlz Hyz) as (d0 & Hd0 & E). congruence.
  - rewrite Es. intros Hn. destruct (tt_leader _ _ _ Hty y d Hd Hn) as (g & z & [? ? ? ? ? ?] & E). by exists g, z.
Qed.

Lemma spgrp_ttys pgid r k' : tiocspgrp k a y pgid = Some (r, k') -> ttys_ok k' cl None.
Proof.
  unfold tiocspgrp. rewrite Ht. simpl. rewrite Hx. simpl. rewrite Hd. simpl. destruct (_ || _); [by intros [= <- <-] |]. destruct (pgid <? 0); [by intros [= <- <-] |].
  destruct (pid_get k (t_pid_ns t) pgid) as [p |]; [| by intros [= <- <-]]. destruct (p_pgroup (pid_at k p)) as [| first rest]; [by intros [= <- <-] |].
  destruct (k_groups k !! first) as [m |]; [| done]. simpl. destruct (negb _); intros [= <- <-]; [done |]. by apply ttys_same_session.
Qed.

Lemma sctty_ttys force su r k' : tiocsctty k a y force su = Some (r, k') -> ttys_ok k' cl None.
Proof.
  unfold tiocsctty. rewrite Ht. simpl. rewrite Hx. simpl. rewrite Hd. simpl. rewrite (leader_test k x lt Hlt). simpl. destruct (_ && _); [by intros [= <- <-] |].
  destruct (negb (g_sid x =? t_pid lt) || bool_decide (g_tty x <> None)) eqn:E; [by intros [= <- <-] |]. apply orb_false_iff in E as [E1 E2]. apply bool_decide_eq_false in E2.
  assert (g_tty x = None) as En by (destruct (g_tty x); [exfalso; by apply E2 | done]). to_prop. pose proof (fit_self E1) as Hf.
  destruct (y_session d =? 0) eqn:E0; simpl; to_prop.
  - intros [= <- <-]. apply ttys_take; try done; [| apply Hty | by intros y' d' _; apply Hty].
    intros h z Hz Hlz Hyz. destruct (tt_session _ _ _ Hty h z y Hz Hlz Hyz) as (d' & Hd' & Es). simplify_eq. apply (linked_sid k h z); [done | done | done | congruence].
  - destruct (_ && _); [| by intros [= <- <-]]. destruct (tt_leader _ _ _ Hty y d Hd E0) as (g & z & [Hz Hlz _ _ _ _] & Es).
    rewrite Es, (linked_found k g z Hl Hz Hlz). simpl. intros [= <- <-]. fold (sn k (g_sid z)). rewrite <- Es. set (k1 := session_drop_tty k y (sn k (y_session d))).
    pose proof (session_drop_soft k y (sn k (y_session d))) as S. destruct (session_drop_tasks k y (sn k (y_session d))) as [Ek Ey]. fold k1 in S, Ek, Ey.
    destruct (session_drop_group k y (sn k (y_session d)) (t_group t) x Hx) as (x' & Hx' & _ & Hn). rewrite (Hn En) in Hx'. fold k1 in Hx'.
    assert (forall h w, k_groups k1 !! h = Some w -> linked k1 h -> g_tty w <> Some y) as Hno.
    { intros h w Hw Hlw. apply (soft_linked _ _ h S) in Hlw. by apply (tty_dropped k cl y d (sn k (y_session d)) None h w). }
    apply ttys_take; try done.
    + by apply (soft_lists k).
    + split_and!; try done; [by apply (soft_linked _ _ _ S) |]. exists lt. by rewrite Ek.
    + by rewrite Ey.
    + intros h w y' Hw Hlw Hyw. rewrite Ey. assert (y' <> y) as Hne by (intros ->; by apply (Hno h w)).
      destruct (opt_like_inv _ _ _ _ (drop_retty k y (sn k (y_session d)) h) Hw) as (v & Hv & Hr). destruct (opt_like _ _ _ _ (so_groups _ _ S h) Hv) as (w' & Hw' & (_ & Esw & _)). simplify_eq.
      rewrite Esw. apply (tt_session _ _ _ Hty h v y' Hv); [by apply (soft_linked _ _ h S) | by apply (retty_other y y' v w)].
    + intros y' d' Hne Hd' Hn'. rewrite Ey in Hd'. destruct (tt_leader _ _ _ Hty y' d' Hd' Hn') as (h & v & [H1 H2 H3 (s & H4 & H5) H6 H7] & Ed).
      destruct (opt_like _ _ _ _ (so_groups _ _ S h) H1) as (w & Hw & (El & Esw & _ & Eth)). destruct (opt_like _ _ _ _ (drop_retty k y (sn k (y_session d)) h) H1) as (w' & Hw' & Hr). fold k1 in Hw'. simplify_eq.
      exists h, w. split; [| congruence]. constructor; [done | by apply (soft_linked _ _ h S) | by apply (retty_other y y' v w) | | by rewrite Eth | by rewrite El].
      exists s. rewrite El, Ek. split; [done | congruence].
Qed.

(** The caller gives the terminal up, not being the one the session has it by. *)
Lemma ttys_untty : g_sid x <> t_pid lt -> ttys_ok (put_group k (t_group t) (set_g_tty x None)) cl None.
Proof.
  intros Hne. apply (ttys_keep k (put_group k (t_group t) (set_g_tty x None)) cl cl None None Hty eq_refl).
  - intros g z y' Hz Hlz Hyz. simpl in Hz. destruct (decide (g = t_group t)) as [-> | Hg]; [rewrite lookup_insert_eq in Hz; by simplify_eq |].
    rewrite lookup_insert_ne in Hz by congruence. by exists g, z.
  - intros g z y' [H1 H2 H3 (s & H4 & H5) H6 H7]. assert (g <> t_group t) as Hg by (intros ->; congruence). exists z. split; [| done]. constructor; try done; [simpl; by rewrite lookup_insert_ne by congruence | by exists s].
Qed.

Lemma notty_ttys r h k' : tiocnotty k a y = Some (r, h, k') -> ttys_ok k' cl None.
Proof.
  unfold tiocnotty. rewrite Ht. simpl. rewrite Hx. simpl. rewrite Hd. simpl. case_bool_decide as Ey; simpl; [| by intros [= _ <- <-]].
  rewrite (leader_test k x lt Hlt). simpl. destruct (tt_session _ _ _ Hty _ x y Hx Hln Ey) as (d0 & Hd0 & Es). simplify_eq.
  destruct (g_sid x =? t_pid lt) eqn:El; to_prop.
  - rewrite Es, (linked_found k _ x Hl Hx Hln). fold (sn k (g_sid x)). rewrite <- Es. set (k1 := put_tty (session_drop_tty k y (sn k (y_session d))) y (mk_tty 0 0 (y_hung_up d) (y_pseudo d))).
    pose proof (ttys_given_up k cl y d _ None k1 Hl Hty Hd ltac:(done) eq_refl eq_refl) as H1. destruct (session_drop_group k y (sn k (y_session d)) (t_group t) x Hx) as (x1 & Hx1 & _). simpl. rewrite Hx1. simpl.
    intros [= _ _ <-]. case_bool_decide as E1; [| done]. exfalso. by apply (tty_dropped k cl y d (sn k (y_session d)) None (t_group t) x1 Hl Hty Hd eq_refl Hx1 Hln).
  - simpl. rewrite Hx. simpl. rewrite bool_decide_eq_true_2 by done. intros [= _ _ <-]. by apply ttys_untty.
Qed.
End Calls.

(** ** Leaving a session *)

Definition left_ttys (k : kernel) (x : tgroup) : gmap Z tty :=
  match g_tty x with
  | Some y => if (length (sn k (g_sid x)) <=? 1)%nat then alter (fun d => mk_tty 0 (y_fg_group d) (y_hung_up d) (y_pseudo d)) y (k_ttys k) else k_ttys k
  | None => k_ttys k
  end.

Lemma leave_session_ttys k a t x k' : lists_ok k -> k_tasks k !! a = Some t -> k_groups k !! t_group t = Some x -> linked k (t_group t) ->
  task_leave_session k a = Some k' -> k_ttys k' = left_ttys k x.
Proof.
  intros Hl Ht Hx Hln. unfold task_leave_session, left_ttys. rewrite Ht. simpl. rewrite Hx. simpl. rewrite (linked_found k _ x Hl Hx Hln). fold (sn k (g_sid x)).
  pose proof (same_unnumber_if_empty (session_unlink k (t_group t)) (g_sid x)) as V. set (k1 := pid_ns_unnumber_if_empty _ _) in *. assert (k_ttys k1 = k_ttys k) as E by apply (v_ttys _ _ V).
  destruct (g_tty x) as [y |]; [| intros [= <-]; done]. destruct (_ <=? 1)%nat; intros [= <-]; simpl; by rewrite E.
Qed.

Lemma one_member (l : list Z) g h : (length l <=? 1)%nat = true -> g ∈ l -> h ∈ l -> g = h.
Proof. intros Hn. apply Nat.leb_le in Hn. destruct l as [| z [| w l]]; simpl in Hn; [intros H; by apply not_elem_of_nil in H | rewrite !list_elem_of_singleton; congruence | lia]. Qed.

Lemma ttys_left k k' cl cl' g x : lists_ok k -> ttys_ok k cl None -> k_groups k !! g = Some x -> linked k g ->
  (g_threads x = [] \/ forall t, k_tasks k !! g_leader x = Some t -> g_sid x <> t_pid t) ->
  k_ttys k' = left_ttys k x ->
  (forall h z, k_groups k' !! h = Some z -> linked k' h -> g_tty z <> None -> h <> g /\ exists v, k_groups k !! h = Some v /\ linked k h /\ g_tty v = g_tty z /\ g_sid v = g_sid z) ->
  (forall h z y, h <> g -> heads k cl None h z y -> exists v, heads k' cl' None h v y /\ g_sid v = g_sid z) ->
  ttys_ok k' cl' None.
Proof.
  intros Hl [Hs Hh] Hx Hln Hno Ey Hb Hf. constructor; rewrite Ey.
  - intros h z y Hz Hlz Hy. destruct (Hb h z Hz Hlz ltac:(congruence)) as (Hne & v & Hv & Hlv & Et & Es). rewrite Hy in Et. destruct (Hs h v y Hv Hlv Et) as (d & Hd & Ed).
    exists d. split; [| congruence]. unfold left_ttys. destruct (g_tty x) as [y' |] eqn:Ex; [| done]. destruct (_ <=? 1)%nat eqn:E1; [| done].
    destruct (decide (y = y')) as [-> | Hny]; [| by rewrite lookup_alter_ne by congruence]. exfalso. destruct (Hs g x y' Hx Hln Ex) as (d' & Hd' & Ed'). simplify_eq.
    apply Hne, (one_member _ h g E1); [| by apply linked_session]. rewrite <- Ed', Ed. by apply linked_session.
  - intros y d Hd Hn. assert (k_ttys k !! y = Some d) as Hd0.
    { unfold left_ttys in Hd. destruct (g_tty x) as [y' |]; [| done]. destruct (_ <=? 1)%nat; [| done]. destruct (decide (y = y')) as [-> | Hny]; [| by rewrite lookup_alter_ne in Hd by congruence].
      rewrite lookup_alter_eq in Hd. destruct (k_ttys k !! y') as [d0 |]; simpl in Hd; [by simplify_eq | done]. }
    destruct (Hh y d Hd0 Hn) as (h & z & Hhd & Ed). destruct (decide (h = g)) as [-> | Hne].
    { exfalso. destruct Hhd as [H1 H2 H3 (s & H4 & H5) [H6 | H6] H7]; [| done]. assert (z = x) as -> by congruence. destruct Hno as [Hno | Hno]; [done | by apply (Hno s)]. }
    destruct (Hf h z y Hne Hhd) as (v & Hv & Es). exists h, v. split; [done | congruence].
Qed.

Lemma setsid_ttys k k' cl a t x x' k1 : lists_ok k -> ttys_ok k cl None -> k_tasks k !! a = Some t -> k_groups k !! t_group t = Some x -> linked k (t_group t) ->
  moved k k' (t_group t) x x' -> g_tty x' = None -> (forall lt, k_tasks k !! g_leader x = Some lt -> g_sid x <> t_pid lt) ->
  task_leave_session k a = Some k1 -> k_ttys k' = k_ttys k1 -> ttys_ok k' cl None.
Proof.
  intros Hl Hty Ht Hx Hln M En Hno E1 Ey. pose proof (mv_entered _ _ _ _ _ M) as He.
  apply (ttys_left k k' cl cl (t_group t) x); try done; [by right | by rewrite Ey; apply (leave_session_ttys k a t) | |].
  - intros h z Hz Hlz Hyz. assert (h <> t_group t) as Hne by (intros ->; rewrite (en_group _ _ _ _ He) in Hz; congruence). split; [done |]. exists z.
    rewrite (en_groups _ _ _ _ He h Hne) in Hz. split_and!; try done. apply (entered_linked _ _ _ _ h He) in Hlz. naive_solver.
  - intros h z y Hne [H1 H2 H3 (s & H4 & H5) H6 H7]. exists z. split; [| done]. constructor; try done; [by rewrite (en_groups _ _ _ _ He h Hne) | apply (entered_linked _ _ _ _ h He); by right |].
    exists s. by rewrite (mv_tasks _ _ _ _ _ M).
Qed.

Lemma release_ttys k k' cl a t x k1 : lists_ok k -> ttys_ok k cl None -> k_tasks k !! a = Some t -> k_groups k !! t_group t = Some x -> linked k (t_group t) -> g_threads x = [] ->
  departs k k' a true (Some (t_group t)) -> task_leave_session k a = Some k1 -> k_ttys k' = k_ttys k1 ->
  (forall h z, k_groups k !! h = Some z -> a ∉ g_threads z) -> ttys_ok k' cl None.
Proof.
  intros Hl Hty Ht Hx Hln Hn [S _ T _ _] E1 Ey Hout.
  apply (ttys_left k k' cl cl (t_group t) x); try done; [by left | by rewrite Ey; apply (leave_session_ttys k a t) | |].
  - intros h z Hz Hlz Hyz. apply (sh_linked _ _ _ _ _ S) in Hlz as [Hlz Hne]. destruct (opt_like_inv _ _ _ _ (sh_groups _ _ _ _ _ S h) Hz) as (v & Hv & _).
    split; [congruence |]. destruct (T h v Hv Hne) as (z' & Hz' & Et & Es). exists v. split_and!; congruence.
  - intros h z y Hne [H1 H2 H3 (s & H4 & H5) [H6 | H6] H7]; [| done]. assert (Some (t_group t) <> Some h) as Hne' by congruence. destruct (T h z H1 Hne') as (v & Hv & Et & Es).
    destruct (opt_like _ _ _ _ (sh_groups _ _ _ _ _ S h) H1) as (v' & Hv' & El & Eth). assert (v' = v) as -> by congruence.
    destruct (opt_like _ _ _ _ (sh_tasks _ _ _ _ _ S _) H4) as (s' & Hs' & Ep & _). exists v. split; [| done]. constructor; [done | by apply (sh_linked _ _ _ _ _ S) | congruence | | | by rewrite El].
    + exists s'. rewrite El. split; [done | congruence].
    + left. rewrite Eth, without_out; [done |]. by apply (Hout h z).
Qed.

(** ** A new process *)
Lemma newborn_ttys k k' cl cl' g x : entered k k' g x -> k_groups k !! g = None -> ttys_ok k cl None -> k_ttys k' = k_ttys k -> lists_ok k ->
  (forall y, g_tty x = Some y -> exists h z, k_groups k !! h = Some z /\ linked k h /\ g_tty z = Some y /\ g_sid z = g_sid x) ->
  (forall h z s, k_groups k !! h = Some z -> linked k h -> cl !! g_leader z = None -> k_tasks k !! g_leader z = Some s -> k_tasks k' !! g_leader z = Some s /\ cl' !! g_leader z = None) ->
  ttys_ok k' cl' None.
Proof.
  intros He Hg H Ey Hl Hx Hkeep. apply (ttys_keep k k' cl cl' None None H Ey).
  - intros h z y Hz Hlz Hy. destruct (decide (h = g)) as [-> | Hne]; [rewrite (en_group _ _ _ _ He) in Hz; simplify_eq; by apply Hx |].
    rewrite (en_groups _ _ _ _ He h Hne) in Hz. exists h, z. split_and!; try done. apply (entered_linked _ _ _ _ h He) in Hlz. naive_solver.
  - intros h z y [H1 H2 H3 (s & H4 & H5) H6 H7]. assert (h <> g) as Hne by congruence. destruct (Hkeep h z s H1 H2 H7 H4) as [H4' H7']. exists z. split; [| done].
    constructor; try done; [by rewrite (en_groups _ _ _ _ He h Hne) | apply (entered_linked _ _ _ _ h He); by right | by exists s].
Qed.
