(* ===== verification/ProcEnter.v ===== *)
(** * A task joins: a new process, a new thread, a new leader

    clone's last step, construct_task, and the end of execve, where the thread
    that called it becomes its process's leader. *)

From S2P Require Import Prelude Pids Groups Procs Ctty ProcWorld ProcLinks ProcSound ProcLeave ProcTty.

(** ** clone links a process *)

Lemma link_after_view k old g : linked k old -> (exists id, old ∈ sn k id) -> exists k1 k2,
  pgroup_link_after k old g = Some k1 /\ session_link_after k1 old g = Some k2 /\
  (forall id, pg k2 id = insert_after old g (pg k id)) /\ (forall id, sn k2 id = insert_after old g (sn k id)) /\ (forall id, tk k2 id = tk k id) /\
  k_tasks k2 = k_tasks k /\ k_groups k2 = k_groups k /\ k_ttys k2 = k_ttys k /\ k_last_allocated_pid k2 = k_last_allocated_pid k /\ k_pid_max k2 = k_pid_max k.
Proof.
  intros Hp Hs. unfold pgroup_link_after, session_link_after. destruct (decide (in_pgroup k old)) as [_ | Hn]; [| by exfalso; apply Hn, map_exists_pg].
  eexists _, _. split; [done |]. set (k1 := set_pids k _).
  assert (forall id, pid_at k1 id = set_p_pgroup (pid_at k id) (insert_after old g (pg k id))) as V1 by (intros id; unfold k1; by rewrite pid_at_fmap).
  destruct (decide (in_session k1 old)) as [_ | Hn].
  - split; [done |]. repeat split; intros id; unfold pg, sn, tk; rewrite pid_at_fmap by done; by rewrite V1.
  - exfalso. apply Hn, map_exists_sn. destruct Hs as [id Hid]. exists id. unfold sn. by rewrite V1.
Qed.

Lemma entered_after k k' old y g x : lists_ok k -> k_groups k !! old = Some y -> linked k old -> k_groups k !! g = None ->
  g_pgid x = g_pgid y -> g_sid x = g_sid y ->
  (forall id, pg k' id = insert_after old g (pg k id)) -> (forall id, sn k' id = insert_after old g (sn k id)) ->
  k_groups k' = <[g := x]> (k_groups k) -> entered k k' g x.
Proof.
  intros Hl Hy Hln Hg Ep Es Hpg Hsn Hgr.
  assert (forall id, g ∉ pg k id) as Np by (intros id H; destruct (lo_pg k Hl id g H) as (z & Hz & _); congruence).
  assert (forall id, g ∉ sn k id) as Ns by (intros id H; destruct (lo_sn k Hl id g H) as (z & Hz & _); congruence).
  assert (forall id, old ∈ pg k id <-> id = g_pgid x) as Op.
  { intros id. split; [| intros ->; rewrite Ep; by apply linked_at]. intros H. destruct (lo_pg k Hl id old H) as (z & Hz & <-). congruence. }
  assert (forall id, old ∈ sn k id <-> id = g_sid x) as Os.
  { intros id. split; [| intros ->; rewrite Es; by apply linked_session]. intros H. destruct (lo_sn k Hl id old H) as (z & Hz & <-). congruence. }
  constructor.
  - intros id h. rewrite Hpg, elem_insert_after, Op. destruct (decide (h = g)) as [-> |]; [| naive_solver]. specialize (Np id). naive_solver.
  - intros id h. rewrite Hsn, elem_insert_after, Os. destruct (decide (h = g)) as [-> |]; [| naive_solver]. specialize (Ns id). naive_solver.
  - intros id. rewrite Hpg. apply nodup_insert_after; [apply (lo_pg_nodup _ Hl) | done].
  - intros id. rewrite Hsn. apply nodup_insert_after; [apply (lo_sn_nodup _ Hl) | done].
  - by rewrite Hgr, lookup_insert_eq.
  - intros h Hne. by rewrite Hgr, lookup_insert_ne by congruence.
Qed.

Lemma clone_link_process k cl b c t y g : links_ok (mk_world k cl) -> cl !! b = Some c -> k_tasks k !! b = Some t -> tk k (t_pid t) = Some b -> idle k b ->
  k_groups k !! t_group t = Some y -> linked k (t_group t) -> k_groups k !! g = None -> c_thread c = false ->
  (forall d s, d <> b -> k_tasks k !! d = Some s -> is_Some (k_groups k !! t_group s)) ->
  exists k' x, clone_link k (t_group t) b (Some (g, tgroup_copy y)) = Some k' /\
    links_ok (mk_world k' (alter (fun c => mk_clone (c_parent c) (c_thread c) Linked) b cl)) /\ entered k k' g x /\
    g_sid x = g_sid y /\ g_tty x = g_tty y /\ k_ttys k' = k_ttys k /\ (forall d, d <> b -> k_tasks k' !! d = k_tasks k !! d).
Proof.
  intros [Hl Hp Ha] Hc Ht Hk Hi Hy Hln Hg Hth Hgr. unfold clone_link. rewrite Ht. cbn [mbind option_bind].
  destruct (link_after_view k (t_group t) g Hln) as (k1 & k2 & -> & Ek2 & P2 & S2 & T2 & K2 & G2 & Y2 & L2 & M2); [by apply (lo_both k Hl) |].
  cbn [mbind option_bind]. rewrite Ek2. cbn [mbind option_bind]. set (x := mk_tgroup b _ _ _ _ _ _). eexists _, x. split; [done |]. set (k' := put_group _ g x).
  assert (entered k k' g x) as He by (apply (entered_after k k' (t_group t) y); try done; simpl; by rewrite G2).
  assert (k_tasks k' = <[b := set_t_tgid (set_t_group t g) (t_pid t)]> (k_tasks k)) as Hta by (simpl; by rewrite K2).
  split; [| split_and!; [done | done | done | simpl; by rewrite Y2 | intros d Hd; by rewrite Hta, lookup_insert_ne by congruence]].
  split; simpl.
  - apply (lists_enter k k' g x); [done | done | |]; simpl; apply (lo_range _ Hl); rewrite !not_nil_elem;
      [left; exists (t_group t); by apply linked_at | right; exists (t_group t); by apply linked_session].
  - apply (newborn_procs k k' cl _ c b t (set_t_tgid (set_t_group t g) (t_pid t)) g x); try done.
    + intros d Hd. by rewrite lookup_alter_ne by congruence.
    + right. rewrite lookup_alter_eq, Hc. simpl. by rewrite Hth.
  - unfold alloc_ok in *. simpl in *. by rewrite L2, M2.
Qed.

(** ** clone links a thread *)

Lemma clone_link_thread k cl b c t x : links_ok (mk_world k cl) -> cl !! b = Some c -> k_tasks k !! b = Some t -> tk k (t_pid t) = Some b -> idle k b ->
  k_groups k !! t_group t = Some x -> linked k (t_group t) -> c_thread c = true -> (exists a, c_parent c = Some a /\ a ∈ g_threads x) ->
  (forall d e s, cl !! d = Some e -> c_stage e = Linked -> c_thread e = false -> k_tasks k !! d = Some s -> t_group s <> t_group t) ->
  let k' := put_group k (t_group t) (set_g_threads x (b :: g_threads x)) in
  links_ok (mk_world k' (alter (fun c => mk_clone (c_parent c) (c_thread c) Linked) b cl)).
Proof.
  intros [Hl Hp Ha] Hc Ht Hk [Hi1 Hi2] Hx Hln Hth (pa & Epa & Hpain) Hdist k'. cbn [w_k w_clones] in Hl, Hp, Ha.
  assert (forall g z, k_groups k' !! g = Some z -> exists y, k_groups k !! g = Some y /\ g_leader z = g_leader y /\ g_pgid z = g_pgid y /\ g_sid z = g_sid y /\
    forall a, a ∈ g_threads z <-> a ∈ g_threads y \/ (a = b /\ g = t_group t)) as Hback.
  { intros g z Hz. simpl in Hz. destruct (decide (g = t_group t)) as [-> | Hne]; [rewrite lookup_insert_eq in Hz; simplify_eq; exists x; split_and!; try done; intros a; simpl; rewrite elem_of_cons; naive_solver |].
    rewrite lookup_insert_ne in Hz by congruence. exists z. split_and!; try done. naive_solver. }
  assert (forall g y, k_groups k !! g = Some y -> exists z, k_groups k' !! g = Some z) as Hfwd.
  { intros g y Hy. simpl. destruct (decide (g = t_group t)) as [-> | Hne]; [rewrite lookup_insert_eq; by eexists | rewrite lookup_insert_ne by congruence; by eexists]. }
  assert (forall a, alive k a -> alive k' a) as Hal.
  { intros a (s & y & Hs & Hy & Hin). destruct (Hfwd _ y Hy) as [z Hz]. exists s, z. split_and!; try done. destruct (Hback _ z Hz) as (y' & Hy' & _ & _ & _ & Hm). assert (y' = y) as -> by congruence. apply Hm. by left. }
  assert (g_leader x <> b) as Hnl by (intros E; apply Hi2; by exists (t_group t), x).
  split; simpl; [| | done].
  - apply (lists_same k); [done | done | done |]. intros g y Hy. destruct (Hfwd g y Hy) as [z Hz]. destruct (Hback g z Hz) as (y' & Hy' & _ & Ep & Es & _). simplify_eq. by exists z.
  - constructor.
    + apply (po_listed _ _ Hp).
    + apply (po_parent _ _ Hp).
    + intros g z Hz Hlz. destruct (Hback g z Hz) as (y & Hy & -> & _). by apply (po_leader _ _ Hp g y).
    + intros g z a Hz Hin. destruct (Hback g z Hz) as (y & Hy & _ & _ & _ & Hm). destruct (proj1 (Hm a) Hin) as [Hy' | [-> ->]]; [by apply (po_threads _ _ Hp g y) | split; [done | by exists t]].
    + intros a s Hs. destruct (po_groups _ _ Hp a s Hs) as [[y Hy] | Ho]; [left; destruct (Hfwd _ y Hy) as [z Hz]; by exists z | by right].
    + intros a s Hs Hks Hn. apply (po_tasks _ _ Hp a s Hs Hks). destruct (decide (a = b)) as [-> | Hne]; [by rewrite lookup_alter_eq, Hc in Hn | by rewrite lookup_alter_ne in Hn by congruence].
    + intros a e Hae. destruct (decide (a = b)) as [-> | Hne].
      { rewrite lookup_alter_eq, Hc in Hae. simpl in Hae. simplify_eq. exists t. split; [done |]. simpl. eexists. rewrite lookup_insert_eq. split; [done |]. split; [by left |]. rewrite Hth. split; [done |]. intros _. split; [done |]. exists pa. split; [done | by right]. }
      rewrite lookup_alter_ne in Hae by congruence. destruct (po_clones _ _ Hp a e Hae) as (s & Hs & He). exists s. split; [done |].
      assert (idle k a -> idle k' a) as Hidle.
      { intros [H1 H2]. split.
        - intros g z Hz. destruct (Hback g z Hz) as (y & Hy & _ & _ & _ & Hm). rewrite Hm. intros [H | [-> _]]; [by apply (H1 g y) | done].
        - intros (g & z & Hz & Hlz & E). destruct (Hback g z Hz) as (y & Hy & El & _). apply H2. exists g, y. split_and!; try done. congruence. }
      destruct (c_stage e) eqn:Ese.
      1-3: destruct He as (H1 & H2 & H3 & H4); split; [auto |]; split; [done |]; split; [| done]; intros p Hpa; destruct (H3 p Hpa) as (tp & y & Htp & Eg & Hy & Hin);
        destruct (Hfwd _ y Hy) as [z Hz]; destruct (Hback _ z Hz) as (y' & Hy' & _ & _ & _ & Hm); assert (y' = y) as -> by congruence; exists tp, z; split_and!; try done; apply Hm; by left.
      * destruct He as (y & Hy & Hin & H1 & H2). assert (c_thread e = false -> t_group s <> t_group t) as Hd by (intros E; by apply (Hdist a e s)).
        destruct (Hfwd _ y Hy) as [z Hz]. destruct (Hback _ z Hz) as (y' & Hy' & El & _ & _ & Hm). simplify_eq. exists z. split; [done |]. split; [apply Hm; by left |].
        split; [| rewrite El; intros E; destruct (H2 E) as (H3 & p & H4 & H5); split; [done |]; exists p; split; [done |]; apply Hm; by left]. intros E. destruct (H1 E) as (H3 & H4 & H5). simpl in Hz. rewrite lookup_insert_ne in Hz by (symmetry; auto). simplify_eq. done.
      * destruct He. auto.
      * destruct He. auto.
      * destruct He. auto.
    + intros a e p Hae Hpa. assert (exists e', cl !! a = Some e' /\ c_parent e' = Some p) as (e' & He' & Hpe').
      { destruct (decide (a = b)) as [-> | Hne]; [rewrite lookup_alter_eq, Hc in Hae; simpl in Hae; simplify_eq; eauto | rewrite lookup_alter_ne in Hae by congruence; eauto]. }
      destruct (po_busy _ _ Hp a e' p He' Hpe') as [Hn Hap]. split; [| auto]. destruct (decide (p = b)) as [-> | Hne]; [congruence | by rewrite lookup_alter_ne by congruence].
Qed.

(** ** construct_task builds a process *)

Lemma leave_session_no_tty k a t x k' : k_tasks k !! a = Some t -> k_groups k !! t_group t = Some x -> g_tty x = None -> task_leave_session k a = Some k' -> k_ttys k' = k_ttys k.
Proof.
  intros Ht Hx Hn. unfold task_leave_session. rewrite Ht. simpl. rewrite Hx. simpl. rewrite Hn. intros [= <-].
  apply (v_ttys _ _ (same_unnumber_if_empty (session_unlink k (t_group t)) (g_sid x))).
Qed.

Lemma construct_spec k cl b c t g : links_ok (mk_world k cl) -> cl !! b = Some c -> k_tasks k !! b = Some t -> tk k (t_pid t) = Some b -> idle k b ->
  k_groups k !! g = None -> (forall d s, d <> b -> k_tasks k !! d = Some s -> is_Some (k_groups k !! t_group s)) ->
  exists k' x, construct_group k b g = Some k' /\ links_ok (mk_world k' (delete b cl)) /\ entered k k' g x /\ g_tty x = None /\
    k_ttys k' = k_ttys k /\ (forall d, d <> b -> k_tasks k' !! d = k_tasks k !! d).
Proof.
  intros Hok Hc Ht Hk Hi Hg Hgr. pose proof Hok as [Hl Hp Ha]. cbn [w_k w_clones] in Hl, Hp, Ha. destruct (po_listed _ _ Hp _ b Hk) as [Hr _].
  unfold construct_group. rewrite Ht. cbn [mbind option_bind]. set (x0 := mk_tgroup b 0 0 None [b] 0 false). set (t' := set_t_tgid (set_t_group t g) (t_pid t)).
  set (k2 := put_task (put_group k g x0) b t'). assert (lists_ok k2) as Hl2.
  { apply (lists_same k); [done | done | done |]. intros h z Hz. exists z. simpl. rewrite lookup_insert_ne by congruence. done. }
  assert (k_tasks k2 !! b = Some t') as Ht2 by (simpl; by rewrite lookup_insert_eq). assert (k_groups k2 !! t_group t' = Some x0) as Hx2 by (simpl; by rewrite lookup_insert_eq).
  destruct (setsid_spec k2 b t' x0 t' Hl2 Ht2 Hx2 Ht2 Hk Hr) as (r & k' & -> & [[_ [E | E]] | (M & _ & k1 & E1 & Ey)]); [simpl in E; lia | simpl in E; lia |].
  cbn [mbind option_bind]. set (x := set_g_ids (set_g_tty x0 None) (t_pid t') (t_pid t')) in *. pose proof (mv_entered _ _ _ _ _ M) as He2.
  assert (entered k k' g x) as He.
  { constructor; [apply (en_pg _ _ _ _ He2) | apply (en_sn _ _ _ _ He2) | apply (en_pg_nodup _ _ _ _ He2) | apply (en_sn_nodup _ _ _ _ He2) | apply (en_group _ _ _ _ He2) |].
    intros h Hne. rewrite (en_groups _ _ _ _ He2 h Hne). simpl. by rewrite lookup_insert_ne by congruence. }
  assert (k_tasks k' = <[b := t']> (k_tasks k)) as Hta by apply (mv_tasks _ _ _ _ _ M). assert (k_tasks k' !! b = Some t') as Hb' by by rewrite Hta, lookup_insert_eq. rewrite Hb'. cbn [mbind option_bind].
  eexists _, x. split; [done |]. set (k3 := put_task k' b _). assert (quiet k' k3) as Q by by apply (quiet_task k' b t').
  assert (entered k k3 g x) as He3 by (constructor; apply He).
  split; [| split_and!; [done | done | rewrite (qu_ttys _ _ Q), Ey; by rewrite (leave_session_no_tty k2 b t' x0 k1 Ht2 Hx2 eq_refl E1) | intros d Hd; simpl; by rewrite Hta, !lookup_insert_ne by congruence]].
  apply (soft_links k'); [apply Q |]. split; simpl.
  - apply (lists_enter k k' g x); [done | done | done | done].
  - apply (newborn_procs k k' cl _ c b t t' g x); try done.
    + intros id. by rewrite (mv_tk _ _ _ _ _ M).
    + intros d Hd. by rewrite lookup_delete_ne by congruence.
    + left. by rewrite lookup_delete_eq.
  - unfold alloc_ok in *. by rewrite (mv_last _ _ _ _ _ M), (mv_max _ _ _ _ _ M).
Qed.

(** ** Who inherits a child *)

Lemma first_staying_some k l : (forall b, b ∈ l -> is_Some (k_tasks k !! b)) -> exists r, first_staying k l = Some r /\ forall p, r = Some p -> is_Some (k_tasks k !! p).
Proof.
  induction l as [| b l IH]; intros H; simpl; [by exists None |]. destruct (H b ltac:(by left)) as [t Ht]. rewrite Ht. simpl.
  destruct (negb (t_exiting t)); [exists (Some b); split; [done |]; intros p [= <-]; by exists t |]. apply IH. intros d Hd. apply H. by right.
Qed.

Lemma global_task_some k cl id b : procs_ok k cl -> pid_get_task_global k id = Some b -> is_Some (k_tasks k !! b).
Proof.
  intros Hp. unfold pid_get_task_global, pid_get_task_zombie_global. destruct (pid_get_global k id) as [p |]; [| done]. destruct (p_task (pid_at k p)) as [d |] eqn:E; [| done].
  destruct (zombie k d); [done |]. intros [= <-]. destruct (po_listed _ _ Hp p d E) as (_ & t & Ht & _). by exists t.
Qed.

Lemma subreaper_some k cl ns n a : procs_ok k cl -> (forall p, a = Some p -> is_Some (k_tasks k !! p)) ->
  exists r, subreaper_above n k ns a = Some r /\ forall p, r = Some p -> is_Some (k_tasks k !! p).
Proof.
  intros Hp. revert a. induction n as [| n IH]; intros a Ha; simpl; [by exists None |]. destruct a as [a |]; [| by exists None].
  destruct (Ha a eq_refl) as [t Ht]. rewrite Ht. simpl. destruct (negb (bool_decide _)); [by exists None |]. destruct (_ && _ && _); [exists (Some a); split; [done |]; intros p [= <-]; by exists t |].
  destruct (_ && _); [by exists None |]. apply IH. intros p Hpp. by apply (po_parent _ _ Hp a t).
Qed.

Lemma init_above_some k cl g l : procs_ok k cl -> exists r, init_above k g l = Some r /\ forall p, r = Some p -> is_Some (k_tasks k !! p).
Proof.
  intros Hp. induction l as [| n l IH]; simpl; [eexists; split; [done |]; intros p; by apply (global_task_some k cl) |].
  destruct (pid_get_task_global k _) as [i |] eqn:E; [| done]. destruct (global_task_some k cl _ i Hp E) as [t Ht]. rewrite Ht. simpl.
  destruct (_ && _); [exists (Some i); split; [done |]; intros p [= <-]; by exists t | done].
Qed.

Lemma find_new_parent_some k cl a t x : procs_ok k cl -> k_tasks k !! a = Some t -> k_groups k !! t_group t = Some x -> linked k (t_group t) ->
  exists r, find_new_parent k a = Some r /\ forall p, r = Some p -> is_Some (k_tasks k !! p).
Proof.
  intros Hp Ht Hx Hln. unfold find_new_parent. generalize (Z.to_nat MAX_PID). intros n. rewrite Ht. cbn [mbind option_bind]. rewrite Hx. cbn [mbind option_bind].
  destruct (first_staying_some k (g_threads x)) as (r & -> & Hr); [intros b Hb; destruct (po_threads _ _ Hp _ x b Hx Hb) as (_ & s & Hs & _); by exists s |]. cbn [mbind option_bind].
  destruct r as [b |]; [by exists (Some b) |]. destruct (po_leader _ _ Hp _ x Hx Hln) as (lt & Hlt & _). rewrite Hlt. cbn [mbind option_bind].
  destruct (subreaper_some k cl (t_pid_ns t) n (t_parent lt) Hp) as (r & -> & Hr'); [intros p Hpp; by apply (po_parent _ _ Hp (g_leader x) lt) |]. cbn [mbind option_bind].
  destruct r as [b |]; [by exists (Some b) |]. by apply (init_above_some k cl).
Qed.

(** ** execve from a thread: it becomes the leader *)

Record promoted (k k' : kernel) (cur : Z) (c : task) (x : tgroup) (lt : task) (parent : option Z) : Prop := mk_promoted {
  pm_tk : forall id, tk k' id = if decide (id = t_pid lt) then Some cur else if decide (id = t_pid c) then None else tk k id;
  pm_pg : forall id, pg k' id = pg k id;
  pm_sn : forall id, sn k' id = sn k id;
  pm_tasks : k_tasks k' = <[g_leader x := set_t_pid lt 0]> (<[cur := set_t_parent (set_t_pid c (t_pid lt)) parent]> (k_tasks k));
  pm_groups : k_groups k' = <[t_group c := set_g_leader x cur]> (k_groups k);
  pm_ttys : k_ttys k' = k_ttys k;
  pm_last : k_last_allocated_pid k' = k_last_allocated_pid k;
  pm_max : k_pid_max k' = k_pid_max k;
  pm_parent : forall p, parent = Some p -> is_Some (k_tasks k !! p) }.

Section Exec.
Context (k : kernel) (cl : gmap Z clone) (Hok : links_ok (mk_world k cl)).
Context (cur : Z) (c : task) (x : tgroup) (lt : task).
Context (Hc : k_tasks k !! cur = Some c) (Hx : k_groups k !! t_group c = Some x) (Hln : linked k (t_group c)) (Hth : g_threads x = [cur]) (Hne : g_leader x <> cur).
Context (Hlt : k_tasks k !! g_leader x = Some lt) (Hgl : t_group lt = t_group c) (Htkl : tk k (t_pid lt) = Some (g_leader x)) (Htkc : tk k (t_pid c) = Some cur).
Context (Hcl : cl !! cur = None) (Hbusy : forall d e, cl !! d = Some e -> c_parent e <> Some cur).

Lemma exec_view inherit_parent : (forall p, inherit_parent = Some p -> is_Some (k_tasks k !! p)) ->
  exists k' parent, exec_take_over k cur inherit_parent = Some k' /\ promoted k k' cur c x lt parent.
Proof.
  intros Hin. pose proof (lk_procs _ Hok) as Hp. cbn [w_k w_clones] in Hp. destruct (po_listed _ _ Hp _ _ Htkl) as [Hrl _]. destruct (po_listed _ _ Hp _ _ Htkc) as [Hrc _].
  assert (t_pid lt <> t_pid c) as Hpid by (intros E; congruence). unfold exec_take_over. rewrite Hc. cbn [mbind option_bind]. rewrite Hx. cbn [mbind option_bind].
  rewrite (pid_get_global_found k (t_pid c) Hrc) by by apply (tk_not_empty k _ cur). rewrite bool_decide_eq_true_2 by done.
  set (k0 := alter_pid k (t_pid c) _). pose proof (same_unnumber_if_empty k0 (t_pid c)) as V. assert (forall id, is_Some (k_pids k !! id) -> is_Some (k_pids (pid_ns_unnumber_if_empty k0 (t_pid c)) !! id)) as Hs.
  { intros id Hid. apply unnumber_slot. unfold k0. simpl. by rewrite lookup_alter_is_Some. }
  set (k1 := pid_ns_unnumber_if_empty k0 (t_pid c)) in *. clearbody k1.
  assert (forall id, pid_at k0 id = if decide (id = t_pid c) then set_p_task (pid_at k (t_pid c)) None else pid_at k id) as H0 by (intros id; apply pid_at_alter, (tk_some k _ cur Htkc)).
  assert (forall id, tk k1 id = if decide (id = t_pid c) then None else tk k id) as T1 by (intros id; rewrite (v_tk _ _ V); unfold tk; rewrite H0; by destruct (decide _)).
  assert (k_tasks k1 = k_tasks k) as K1 by apply (v_tasks _ _ V). rewrite K1, Hlt. cbn [mbind option_bind].
  assert (tk k1 (t_pid lt) = Some (g_leader x)) as Tl by (rewrite T1; by destruct (decide (t_pid lt = t_pid c))).
  rewrite (pid_get_global_found k1 (t_pid lt) Hrl) by by apply (tk_not_empty k1 _ (g_leader x)). set (k2 := alter_pid k1 (t_pid lt) _).
  assert (forall id, pid_at k2 id = if decide (id = t_pid lt) then set_p_task (pid_at k1 (t_pid lt)) (Some cur) else pid_at k1 id) as H2 by (intros id; apply pid_at_alter, (tk_some k1 _ _ Tl)).
  assert (forall id, tk k2 id = if decide (id = t_pid lt) then Some cur else if decide (id = t_pid c) then None else tk k id) as T2.
  { intros id. unfold tk at 1. rewrite H2. destruct (decide (id = t_pid lt)); [done |]. apply T1. }
  set (new_parent := if (match inherit_parent with Some p => _ | None => false end) then _ else _).
  assert (forall p, new_parent = Some p -> is_Some (k_tasks k !! p)) as Hnp.
  { intros p. unfold new_parent. destruct (match inherit_parent with Some p => _ | None => false end); [apply Hin |]. unfold pid_get_task_global, pid_get_task_zombie_global.
    destruct (pid_get_global k2 1) as [q |]; [| done]. change (p_task (pid_at k2 q)) with (tk k2 q). rewrite T2. destruct (decide _); [destruct (zombie _ _); [done | intros [= <-]; by exists c] |].
    destruct (decide _); [done |]. destruct (tk k q) as [d |] eqn:Ed; [| done]. destruct (zombie _ _); [done |]. intros [= <-]. destruct (po_listed _ _ Hp q d Ed) as (_ & s & Hs' & _). by exists s. }
  eexists _, _. split; [done |]. constructor; try (intros id); simpl.
  - apply T2.
  - change (pg k2 id = pg k id). unfold pg at 1. rewrite H2. transitivity (pg k1 id); [by destruct (decide (id = t_pid lt)) as [-> |] |]. rewrite (v_pg _ _ V). unfold pg. rewrite H0. by destruct (decide _) as [-> |].
  - change (sn k2 id = sn k id). unfold sn at 1. rewrite H2. transitivity (sn k1 id); [by destruct (decide (id = t_pid lt)) as [-> |] |]. rewrite (v_sn _ _ V). unfold sn. rewrite H0. by destruct (decide _) as [-> |].
  - by rewrite K1.
  - by rewrite (v_groups _ _ V).
  - apply (v_ttys _ _ V).
  - apply (v_last _ _ V).
  - apply (v_max _ _ V).
  - destruct new_parent as [q |] eqn:Eq; [destruct (q =? cur); [| intros [= <-]; by apply Hnp] |]; intros Hpc; by apply (po_parent _ _ Hp cur c).
Qed.

Context (k' : kernel) (parent : option Z) (P : promoted k k' cur c x lt parent).
Notation Hp := (lk_procs _ Hok).

Lemma exec_leader_made : cl !! g_leader x = None.
Proof.
  destruct (cl !! g_leader x) as [e |] eqn:E; [| done]. exfalso. destruct (po_clones _ _ Hp _ e E) as (s & Hs & He). assert (s = lt) as -> by (simpl in Hs; congruence).
  assert (leads k (g_leader x)) as Hl by by exists (t_group c), x. destruct (c_stage e); try (by destruct He as [[_ Hi] _]).
  destruct He as (y & Hy & Hin & _). assert (y = x) as -> by (simpl in Hy; congruence). rewrite Hth, list_elem_of_singleton in Hin. done.
Qed.

Lemma exec_task d s : d <> cur -> d <> g_leader x -> k_tasks k !! d = Some s -> k_tasks k' !! d = Some s.
Proof. intros H1 H2 Hs. by rewrite (pm_tasks _ _ _ _ _ _ _ P), !lookup_insert_ne by congruence. Qed.
Lemma exec_task_inv d s' : k_tasks k' !! d = Some s' ->
  exists s, k_tasks k !! d = Some s /\ t_group s' = t_group s /\ ((d = cur /\ s' = set_t_parent (set_t_pid c (t_pid lt)) parent) \/ (d = g_leader x /\ s' = set_t_pid lt 0) \/ (d <> cur /\ d <> g_leader x /\ s' = s)).
Proof.
  rewrite (pm_tasks _ _ _ _ _ _ _ P). destruct (decide (d = g_leader x)) as [-> | H1]; [rewrite lookup_insert_eq; intros [= <-]; exists lt; naive_solver |]. rewrite lookup_insert_ne by congruence.
  destruct (decide (d = cur)) as [-> | H2]; [rewrite lookup_insert_eq; intros [= <-]; exists c; naive_solver |]. rewrite lookup_insert_ne by congruence. intros Hs. exists s'. naive_solver.
Qed.
Lemma exec_some d : is_Some (k_tasks k' !! d) <-> is_Some (k_tasks k !! d).
Proof.
  split; [intros [s' Hs']; destruct (exec_task_inv d s' Hs') as (s & Hs & _); by exists s |]. intros [s Hs]. rewrite (pm_tasks _ _ _ _ _ _ _ P).
  destruct (decide (d = g_leader x)) as [-> | H1]; [rewrite lookup_insert_eq; by eexists |]. rewrite lookup_insert_ne by congruence.
  destruct (decide (d = cur)) as [-> | H2]; [rewrite lookup_insert_eq; by eexists |]. rewrite lookup_insert_ne by congruence. by exists s.
Qed.
Lemma exec_cur : k_tasks k' !! cur = Some (set_t_parent (set_t_pid c (t_pid lt)) parent).
Proof. by rewrite (pm_tasks _ _ _ _ _ _ _ P), lookup_insert_ne, lookup_insert_eq by congruence. Qed.
Lemma exec_slot_cur : tk k' (t_pid lt) = Some cur.
Proof. rewrite (pm_tk _ _ _ _ _ _ _ P). by destruct (decide _). Qed.
Lemma exec_slot id d : d <> cur -> d <> g_leader x -> tk k id = Some d -> tk k' id = Some d.
Proof. intros H1 H2 H. rewrite (pm_tk _ _ _ _ _ _ _ P). destruct (decide _); [congruence |]. destruct (decide _); [congruence | done]. Qed.
Lemma exec_slot_inv id d : tk k' id = Some d -> (d = cur /\ id = t_pid lt) \/ (d <> cur /\ d <> g_leader x /\ tk k id = Some d).
Proof.
  rewrite (pm_tk _ _ _ _ _ _ _ P). destruct (decide (id = t_pid lt)) as [-> | Hl]; [intros [= <-]; by left |]. destruct (decide (id = t_pid c)) as [| Hi]; [done |].
  intros H. right. destruct (po_listed _ _ Hp id d H) as (_ & s & Hs & E). simpl in Hs. split_and!; [congruence | congruence | done].
Qed.
Lemma exec_linked h : linked k' h <-> linked k h.
Proof. unfold linked. by setoid_rewrite (pm_pg _ _ _ _ _ _ _ P). Qed.
Lemma exec_group h z : k_groups k' !! h = Some z -> exists y, k_groups k !! h = Some y /\ g_threads z = g_threads y /\ g_tty z = g_tty y /\ g_sid z = g_sid y /\ g_pgid z = g_pgid y /\
  ((h = t_group c /\ y = x /\ g_leader z = cur) \/ (h <> t_group c /\ z = y)).
Proof.
  rewrite (pm_groups _ _ _ _ _ _ _ P). destruct (decide (h = t_group c)) as [-> | Hh]; [rewrite lookup_insert_eq; intros [= <-]; exists x; naive_solver | rewrite lookup_insert_ne by congruence; intros Hz; exists z; naive_solver].
Qed.
Lemma exec_group_some h y : k_groups k !! h = Some y -> exists z, k_groups k' !! h = Some z /\ g_threads z = g_threads y /\ g_tty z = g_tty y /\ g_sid z = g_sid y /\ g_pgid z = g_pgid y.
Proof.
  intros Hy. rewrite (pm_groups _ _ _ _ _ _ _ P). destruct (decide (h = t_group c)) as [-> | Hh]; [rewrite lookup_insert_eq; eexists; split; [done |]; simpl; naive_solver congruence | rewrite lookup_insert_ne by congruence; exists y; naive_solver].
Qed.
(** Neither the leader nor the caller is in another group. *)
Lemma exec_foreign h y d s : k_tasks k !! d = Some s -> t_group s = h -> h <> t_group c -> k_groups k !! h = Some y -> d <> cur /\ d <> g_leader x.
Proof. intros Hs E Hh Hy. split; intros ->; congruence. Qed.

Lemma exec_idle d : d <> cur -> idle k d -> idle k' d.
Proof.
  intros Hd [H1 H2]. split.
  - intros h z Hz. destruct (exec_group h z Hz) as (y & Hy & -> & _). by apply (H1 h).
  - intros (h & z & Hz & Hl & E). destruct (exec_group h z Hz) as (y & Hy & _ & _ & _ & _ & [(_ & _ & E') | [_ ->]]); [congruence |]. apply H2. exists h, y. by rewrite <- exec_linked.
Qed.

Lemma exec_alive d : alive k d -> alive k' d.
Proof.
  intros (s & y & Hs & Hy & Hin). destruct (exec_group_some _ y Hy) as (z & Hz & Et & _). assert (exists s', k_tasks k' !! d = Some s') as [s' Hs'] by (apply exec_some; by exists s).
  destruct (exec_task_inv d s' Hs') as (s0 & Hs0 & Eg & _). assert (s0 = s) as -> by congruence. exists s', z. by rewrite Eg, Et.
Qed.

Lemma exec_clone d e : cl !! d = Some e -> clone_ok k d e -> clone_ok k' d e.
Proof.
  intros Hd (s & Hs & He). pose proof exec_leader_made as Hlm. assert (d <> cur) as H1 by congruence. assert (d <> g_leader x) as H2 by congruence. exists s. split; [by apply exec_task |].
  assert (forall p, c_parent e = Some p -> (exists ta y, k_tasks k !! p = Some ta /\ t_group ta = t_group s /\ k_groups k !! t_group s = Some y /\ p ∈ g_threads y) ->
    exists ta y, k_tasks k' !! p = Some ta /\ t_group ta = t_group s /\ k_groups k' !! t_group s = Some y /\ p ∈ g_threads y) as Hal.
  { intros p Hpp (ta & y & Hta & Eta & Hy & Hin). destruct (exec_group_some _ y Hy) as (z & Hz & Et & _). assert (p <> cur) as Hpc by (intros ->; by apply (Hbusy d e)).
    assert (p <> g_leader x) as Hpl.
    { intros ->. assert (t_group s = t_group c) as E by congruence. rewrite E in Hy. assert (y = x) as -> by congruence. rewrite Hth, list_elem_of_singleton in Hin. congruence. }
    exists ta, z. split_and!; [by apply exec_task | done | done | by rewrite Et]. }
  destruct (c_stage e).
  1-3: destruct He as (Hi & Htk & Ha & Hn); split; [by apply exec_idle |]; split; [by apply exec_slot |]; split; [| done]; intros p Hpp; by apply Hal, Ha.
  - destruct He as (y & Hy & Hin & Hpr & Hthr). destruct (exec_group_some _ y Hy) as (z & Hz & Et & _).
    assert (t_group s <> t_group c) as Hg.
    { intros E. rewrite E in Hy. assert (y = x) as -> by congruence. rewrite Hth, list_elem_of_singleton in Hin. congruence. }
    destruct (exec_group _ z Hz) as (y' & Hy' & _ & _ & _ & _ & [(E & _) | [_ ->]]); [done |]. assert (y' = y) as -> by congruence. exists y. split; [done |]. split; [done |]. split; [| done].
    intros E. destruct (Hpr E) as (H3 & H4 & H5). split; [done |]. split; [done |]. intros a s' Hs' Es. destruct (exec_task_inv a s' Hs') as (s0 & Hs0 & Eg & _). apply (H5 a s0 Hs0). congruence.
  - destruct He as [Hi Htk]. split; [by apply exec_idle | by apply exec_slot].
  - destruct He as [Hi Htk]. split; [by apply exec_idle | by apply exec_slot].
  - destruct He as [Hi Htk]. split; [by apply exec_idle |]. intros H. by apply exec_slot_inv in H as [[E _] | (_ & _ & H)].
Qed.

Lemma exec_links : links_ok (mk_world k' cl).
Proof.
  destruct (po_listed _ _ Hp _ _ Htkl) as [Hrl _]. pose proof (lk_alloc _ Hok) as Ha. split; simpl.
  - apply (lists_same k); [apply Hok | apply (pm_pg _ _ _ _ _ _ _ P) | apply (pm_sn _ _ _ _ _ _ _ P) |]. intros h y Hy. destruct (exec_group_some h y Hy) as (z & Hz & _ & _ & Es & Ep). by exists z.
  - constructor.
    + intros id d Hd. apply exec_slot_inv in Hd as [[-> ->] | (H1 & H2 & Hd)]; [split; [done |]; eexists; split; [apply exec_cur | done] |].
      destruct (po_listed _ _ Hp id d Hd) as (Hr & s & Hs & E). split; [done |]. exists s. split; [by apply exec_task | done].
    + intros d s' p Hs' Hpp. apply exec_some. destruct (exec_task_inv d s' Hs') as (s & Hs & _ & [[-> ->] | [[-> ->] | (_ & _ & ->)]]).
      * by apply (pm_parent _ _ _ _ _ _ _ P).
      * by apply (po_parent _ _ Hp (g_leader x) lt).
      * by apply (po_parent _ _ Hp d s).
    + intros h z Hz Hl. apply exec_linked in Hl. destruct (exec_group h z Hz) as (y & Hy & _ & _ & _ & _ & [(-> & _ & E) | [Hh ->]]).
      * rewrite E. eexists. split; [apply exec_cur |]. split; [done | apply exec_slot_cur].
      * destruct (po_leader _ _ Hp h y Hy Hl) as (s & Hs & Eg & Hk). destruct (exec_foreign h y (g_leader y) s Hs Eg Hh Hy). exists s. split_and!; [by apply exec_task | done | by apply exec_slot].
    + intros h z d Hz Hd. rewrite exec_linked. destruct (exec_group h z Hz) as (y & Hy & Et & _ & _ & _ & Hcase). rewrite Et in Hd. destruct (po_threads _ _ Hp h y d Hy Hd) as (Hl & s & Hs & Eg & Hk). split; [done |].
      destruct Hcase as [(-> & -> & _) | [Hh _]].
      * rewrite Hth, list_elem_of_singleton in Hd. subst d. eexists. split; [apply exec_cur |]. split; [done | apply exec_slot_cur].
      * destruct (exec_foreign h y d s Hs Eg Hh Hy). exists s. split_and!; [by apply exec_task | done | by apply exec_slot].
    + intros d s' Hs'. destruct (exec_task_inv d s' Hs') as (s & Hs & -> & _). destruct (po_groups _ _ Hp d s Hs) as [[y Hy] | Ho]; [left; destruct (exec_group_some _ y Hy) as (z & Hz & _); by exists z |].
      right. intros a Ha'. apply Ho. by apply exec_some.
    + intros d s' Hs' Hk Hn. destruct (exec_task_inv d s' Hs') as (s & Hs & -> & Hcase). rewrite exec_linked. destruct Hcase as [[-> ->] | [[-> ->] | (H1 & H2 & ->)]].
      * assert (s = c) as -> by (simpl in *; congruence). done.
      * simpl in Hk. apply exec_slot_inv in Hk as [[E _] | (_ & E & _)]; congruence.
      * apply exec_slot_inv in Hk as [[E _] | (_ & _ & Hk)]; [congruence |]. by apply (po_tasks _ _ Hp d).
    + intros d e Hd. apply exec_clone; [done |]. by apply (po_clones _ _ Hp).
    + intros d e p Hd Hpp. destruct (po_busy _ _ Hp d e p Hd Hpp) as [Hn Hal]. split; [done |]. by apply exec_alive.
  - unfold alloc_ok in *. simpl in *. by rewrite (pm_last _ _ _ _ _ _ _ P), (pm_max _ _ _ _ _ _ _ P).
Qed.

Lemma exec_ttys : ttys_ok k cl None -> ttys_ok k' cl None.
Proof.
  intros H. apply (ttys_keep k k' cl cl None None H); [apply (pm_ttys _ _ _ _ _ _ _ P) | |].
  - intros h z y Hz Hl Hy. destruct (exec_group h z Hz) as (v & Hv & _ & Et & Es & _). exists h, v. rewrite <- exec_linked. split_and!; congruence.
  - intros h v y [H1 H2 H3 (s & H4 & H5) H6 H7]. destruct (exec_group_some h v H1) as (z & Hz & Et & Ety & Es & _). exists z. split; [| done].
    destruct (exec_group h z Hz) as (v' & Hv' & _ & _ & _ & _ & [(-> & -> & E) | [Hh ->]]).
    + assert (v = x) as -> by congruence. constructor; [done | by apply exec_linked | congruence | | by rewrite Et | by rewrite E].
      eexists. rewrite E. split; [apply exec_cur |]. simpl. congruence.
    + assert (v' = v) as -> by congruence. constructor; [done | by apply exec_linked | done | | done | done].
      destruct (po_leader _ _ Hp h v H1 H2) as (s' & Hs' & Eg & _). assert (s' = s) as -> by (simpl in *; congruence). destruct (exec_foreign h v _ s H4 Eg Hh H1).
      exists s. split; [by apply exec_task | done].
Qed.
End Exec.
