(* ===== verification/ProcStep.v ===== *)
(** * What the table, the lists and the terminals are over every run

    [world_ok] holds of the boot state and every event keeps it, whatever the
    interleaving, but for four races, which [calm] rules out; ProcRaces.v shows
    three of them to be there. *)

From S2P Require Import Prelude Pids Groups Procs Ctty ProcWorld ProcLinks ProcSound ProcLeave ProcTty ProcEnter.

(** CLONE_PARENT looks at its caller's parent again, having checked before it had
    the lock that there is one: not calm when the caller lost it between.
    A clone's process group and session are copied, pids_lock is left, and the
    clone is linked after its parent: not calm when a setpgid came between.
    Nor is a setpgid on a child that is being given up, nor giving up a thread
    made with CLONE_PARENT. *)
Definition calm (w : world) (e : event) : Prop :=
  match e with
  | ECloneParent b => forall c a t, w_clones w !! b = Some c -> c_parent c = Some a -> k_tasks (w_k w) !! a = Some t -> t_parent t <> None
  | ELink b _ => forall c x, w_clones w !! b = Some c -> c_stage c = Copied x -> exists g y, group_of (w_k w) b = Some (g, y) /\ x = tgroup_copy y
  | ESetpgid a _ _ => forall b t, k_tasks (w_k w) !! b = Some t -> t_parent t = Some a -> whole (w_clones w) b
  | ENeverRan b => forall c t, w_clones w !! b = Some c -> k_tasks (w_k w) !! b = Some t ->
      exists p pt, t_parent t = Some p /\ k_tasks (w_k w) !! p = Some pt /\ (t_group pt = t_group t <-> c_thread c = true)
  | _ => True
  end.

Record world_ok (w : world) : Prop := mk_ok { wo_links : links_ok w; wo_ttys : ttys_ok (w_k w) (w_clones w) None }.

Definition sound (w : world) (e : event) : Prop := exists w', step w e = Some w' /\ world_ok w'.

Lemma quiet_world k k' cl : world_ok (mk_world k cl) -> quiet k k' -> world_ok (mk_world k' cl).
Proof. intros [Hl Ht] Q. split; [apply (soft_links k); [apply Q | done] | by apply (ttys_quiet k k' cl)]. Qed.

(** ** Clones move on *)

Lemma ttys_clones k cl cl' : ttys_ok k cl None -> (forall b, cl !! b = None -> cl' !! b = None) -> ttys_ok k cl' None.
Proof. intros H Hc. by apply (ttys_quiet k k cl cl'). Qed.

Lemma alter_none (f : clone -> clone) (b : Z) (cl : gmap Z clone) d : cl !! d = None -> alter f b cl !! d = None.
Proof. intros H. by rewrite lookup_alter_None. Qed.
Lemma delete_none (b : Z) (cl : gmap Z clone) d : cl !! d = None -> delete b cl !! d = None.
Proof. intros H. apply lookup_delete_None. by right. Qed.
#[export] Hint Resolve alter_none delete_none : procs.

Lemma stage_world k cl b c s : world_ok (mk_world k cl) -> cl !! b = Some c -> clone_ok k b (mk_clone (c_parent c) (c_thread c) s) -> world_ok (set_stage (mk_world k cl) b s k).
Proof.
  intros [[Hl Hp Ha] Ht] Hb Hc. split; [split; [done | by apply (procs_stage _ _ _ c) | done] |]. apply (ttys_clones k cl); [done |]. simpl. auto with procs.
Qed.
Lemma done_world k cl b : world_ok (mk_world k cl) -> (forall t, k_tasks k !! b = Some t -> tk k (t_pid t) = Some b -> linked k (t_group t)) -> world_ok (done (mk_world k cl) b k).
Proof.
  intros [[Hl Hp Ha] Ht] Hc. split; [split; [done | by apply procs_done | done] |]. apply (ttys_clones k cl); [done |]. simpl. auto with procs.
Qed.

(** What a clone not yet linked is: its task, and its parent's thread group. *)
Definition early (s : stage) : bool := match s with Created | Numbered | Copied _ => true | _ => false end.

Lemma early_ok k b c t : clone_ok k b c -> early (c_stage c) = true -> k_tasks k !! b = Some t ->
  idle k b /\ tk k (t_pid t) = Some b /\
  (forall a, c_parent c = Some a -> exists ta x, k_tasks k !! a = Some ta /\ t_group ta = t_group t /\ k_groups k !! t_group t = Some x /\ a ∈ g_threads x) /\ (c_parent c = None -> c_stage c = Created).
Proof. intros (s & Hs & H) E Ht. assert (s = t) as -> by congruence. by destruct (c_stage c). Qed.

Lemma early_clone k b c c' t : clone_ok k b c -> early (c_stage c) = true -> k_tasks k !! b = Some t -> c_parent c' = c_parent c ->
  (early (c_stage c') = true /\ (c_parent c = None -> c_stage c' = Created)) \/ c_stage c' = Failing \/ c_stage c' = Failed -> clone_ok k b c'.
Proof.
  intros Hc E Ht Ep Hst. destruct (early_ok k b c t Hc E Ht) as (H1 & H2 & H3 & H4). exists t. split; [done |].
  destruct Hst as [[E' Hn] | [-> | ->]]; [| done | done]. rewrite Ep. by destruct (c_stage c').
Qed.

Lemma at_stage_task w b P : links_ok w -> at_stage w b P -> exists c t, w_clones w !! b = Some c /\ P c /\ clone_ok (w_k w) b c /\ k_tasks (w_k w) !! b = Some t.
Proof. intros Hok (c & Hc & HP). pose proof (po_clones _ _ (lk_procs _ Hok) b c Hc) as Hcl. pose proof Hcl as (t & Ht & _). by exists c, t. Qed.

(** A running task's group is led by a task that is made. *)
Lemma leader_made k cl a t x : procs_ok k cl -> k_tasks k !! a = Some t -> k_groups k !! t_group t = Some x -> linked k (t_group t) -> a ∈ g_threads x -> cl !! a = None -> cl !! g_leader x = None.
Proof.
  intros Hp Ht Hx Hln Ha Hn. destruct (cl !! g_leader x) as [e |] eqn:E; [| done]. exfalso. destruct (po_clones _ _ Hp _ e E) as (s & Hs & He).
  assert (leads k (g_leader x)) as Hl by by exists (t_group t), x. destruct (c_stage e); try (by destruct He as [[_ Hi] _]).
  destruct (po_leader _ _ Hp _ x Hx Hln) as (s' & Hs' & Eg & _). assert (s' = s) as -> by congruence. destruct He as (y & Hy & Hin & H1 & H2). assert (y = x) as -> by congruence.
  destruct (c_thread e); [by destruct (H2 eq_refl) |]. destruct (H1 eq_refl) as (_ & H4 & _). rewrite H4, list_elem_of_singleton in Ha. congruence.
Qed.

(** ** The events of a clone *)

Lemma create_sound w caller parent want b : world_ok w -> ready w (ECreate caller parent want b) -> sound w (ECreate caller parent want b).
Proof.
  intros [Hl Hty] Hr. destruct (create_links w caller parent want b Hl Hr) as (w' & Es & Hl'). exists w'. split; [done |]. split; [done |].
  destruct Hr as (Hb & Hcb & Hs & _). revert Es. unfold step, task_create_pid_. cbn [mbind option_bind].
  destruct (match parent with Some a => t ← k_tasks (w_k w) !! a; Some (Some (a, t)) | None => Some None end) as [pt |]; [| done]. cbn [mbind option_bind].
  destruct (create_pid (w_k w) want) as [[id | []] |] eqn:Ecr; [| by intros [= <-]; destruct w | done]. cbn [mbind option_bind]. intros [= <-]. simpl.
  destruct (create_pid_spec _ want id (lk_alloc _ Hl) Hs Ecr) as [_ He]. destruct (create_view (w_k w) id b (new_task pt id) He) as (_ & _ & Hpg & Hta & Hg & _).
  set (k' := put_task _ _ _) in *. assert (k_ttys k' = k_ttys (w_k w)) as Ey by apply (v_ttys _ _ (same_unnumber (set_last_allocated_pid (w_k w) id) id)). clearbody k'.
  assert (forall h, linked k' h <-> linked (w_k w) h) as Hln by (intros h; unfold linked; by setoid_rewrite Hpg).
  apply (ttys_keep (w_k w) k' (w_clones w) _ None None Hty Ey).
  - intros g x y. rewrite Hg, Hln. intros Hx Hlx Hyx. by exists g, x.
  - intros g x y [H1 H2 H3 (t & H4 & H5) H6 H7]. exists x. split; [| done]. assert (g_leader x <> b) as Hne by congruence.
    constructor; [by rewrite Hg | by apply Hln | done | | done | by rewrite lookup_insert_ne by congruence]. exists t. by rewrite Hta, lookup_insert_ne by congruence.
Qed.

Lemma clone_parent_sound w b : world_ok w -> ready w (ECloneParent b) -> calm w (ECloneParent b) -> sound w (ECloneParent b).
Proof.
  intros Hok Hr Hcalm. pose proof Hok as [Hl Hty]. destruct (at_stage_task w b _ Hl Hr) as (c & t & Hc & (_ & Hpa) & _ & Ht). unfold sound, step. rewrite Hc. cbn [mbind option_bind].
  destruct (c_parent c) as [a |] eqn:Ea; [| done]. cbn [mbind option_bind]. destruct (po_busy _ _ (lk_procs _ Hl) b c a Hc Ea) as [_ (ta & _ & Hta & _)].
  unfold clone_parent. rewrite Hta. cbn [mbind option_bind].
  destruct (t_parent ta) as [p |] eqn:Ep; [| by destruct (Hcalm c a ta Hc Ea Hta)]. destruct (po_parent _ _ (lk_procs _ Hl) a ta p Hta Ep) as [pt Hpt]. cbn [mbind option_bind]. rewrite Hpt. cbn [mbind option_bind]. rewrite Ht. cbn [mbind option_bind]. eexists. split; [done |]. destruct w as [k cl]. apply (quiet_world k); [done |].
  apply (quiet_put_task k b t); [done | done |]. intros q [= <-]. left. by exists pt.
Qed.

Lemma ns_sound w b thread newpid mem n : world_ok w -> ready w (ENs b thread newpid mem n) -> sound w (ENs b thread newpid mem n).
Proof.
  intros Hok (_ & Hr). pose proof Hok as [Hl Hty]. destruct (at_stage_task w b _ Hl Hr) as (c & t & Hc & (Est & a & Ea & _) & Hcl & Ht). unfold sound, step. rewrite Hc. cbn [mbind option_bind]. rewrite Ea. cbn [mbind option_bind].
  destruct (po_busy _ _ (lk_procs _ Hl) b c a Hc Ea) as [Hna (ta & _ & Hta & _)]. destruct (copy_pid_ns_quiet (w_k w) a b thread newpid mem n ta t Hta Ht) as (err & k' & -> & Q). cbn [mbind option_bind].
  eexists. split; [done |]. destruct w as [k cl]. simpl in *. destruct (quiet_world k k' cl Hok Q) as [[Hl' Hp' Ha'] Hty']. cbn [w_k w_clones] in *. set (c' := mk_clone _ _ _).
  assert (b <> a) as Hne by congruence. destruct (opt_like _ _ _ _ (so_tasks _ _ (qu_soft _ _ Q) b) Ht) as (t' & Ht' & _). pose proof (po_clones _ _ Hp' b c Hc) as Hcl'.
  split; [split; [done | | done] |]; cbn [w_k w_clones].
  - apply (procs_clones k' cl); [done | | |].
    + intros d e Hd. destruct (decide (d = b)) as [-> | Hnd]; [rewrite lookup_insert_eq in Hd; injection Hd as <- | rewrite lookup_insert_ne in Hd by congruence; by apply (po_clones _ _ Hp')].
      apply (early_clone k' b c c' t'); [done | by rewrite Est | done | done |]. unfold c'. simpl. destruct (err <? 0); [by right; left | left; split; [done | congruence]].
    + intros d e p Hd Hpp. destruct (decide (d = b)) as [-> | Hnd].
      * rewrite lookup_insert_eq in Hd. injection Hd as <-. injection Hpp as <-. destruct (po_busy _ _ Hp' b c a Hc Ea) as [_ Hal]. split; [| done]. by rewrite lookup_insert_ne by congruence.
      * rewrite lookup_insert_ne in Hd by congruence. destruct (po_busy _ _ Hp' d e p Hd Hpp) as [Hn Hal]. split; [| done]. rewrite lookup_insert_ne; [done | congruence].
    + intros d s Hd Hn. exfalso. apply lookup_insert_None in Hd as [Hd _]. done.
  - apply (ttys_clones k' cl); [done |]. intros d Hd. assert (d <> b) by congruence. by rewrite lookup_insert_ne by congruence.
Qed.

Lemma copy_sound w b : world_ok w -> ready w (ECopy b) -> sound w (ECopy b).
Proof.
  intros Hok Hr. pose proof Hok as [Hl Hty]. destruct (at_stage_task w b _ Hl Hr) as (c & t & Hc & (Est & Hth) & Hcl & Ht). unfold sound, step, group_of. rewrite Ht. cbn [mbind option_bind].
  destruct (early_ok _ b c t Hcl ltac:(by rewrite Est) Ht) as (_ & _ & Hpa & Hno). destruct (c_parent c) as [a |] eqn:Ea; [| by rewrite Hno in Est].
  destruct (Hpa a eq_refl) as (ta & x & _ & _ & Hx & _). rewrite Hx. cbn [mbind option_bind]. eexists. split; [done |]. destruct w as [k cl]. apply (stage_world k cl b c); [done | done |].
  apply (early_clone k b c _ t); [done | by rewrite Est | done | done |]. left. split; [done | congruence].
Qed.

(** The group a clone is to join, or to be linked after, is on the lists. *)
Lemma early_group k cl b c t a : procs_ok k cl -> clone_ok k b c -> early (c_stage c) = true -> k_tasks k !! b = Some t -> c_parent c = Some a ->
  idle k b /\ tk k (t_pid t) = Some b /\ exists x, k_groups k !! t_group t = Some x /\ linked k (t_group t) /\ a ∈ g_threads x.
Proof.
  intros Hp Hcl E Ht Ea. destruct (early_ok _ b c t Hcl E Ht) as (H1 & H2 & H3 & _). split; [done |]. split; [done |]. destruct (H3 a Ea) as (ta & x & _ & _ & Hx & Hin). exists x.
  split; [done |]. split; [| done]. by destruct (po_threads _ _ Hp _ x a Hx Hin).
Qed.

Lemma other_groups k cl b : procs_ok k cl -> is_Some (k_tasks k !! b) -> forall d s, d <> b -> k_tasks k !! d = Some s -> is_Some (k_groups k !! t_group s).
Proof. intros Hp Hb d s Hne Hs. destruct (po_groups _ _ Hp d s Hs) as [H | H]; [done |]. by destruct Hne; symmetry; apply H. Qed.

(** A leader that is made is not the task being made. *)
Lemma newborn_leaders k k' (cl cl' : gmap Z clone) b (c : clone) : cl !! b = Some c -> (forall d, d <> b -> k_tasks k' !! d = k_tasks k !! d) -> (forall d, d <> b -> cl' !! d = cl !! d) ->
  forall (h : Z) z s, k_groups k !! h = Some z -> linked k h -> cl !! g_leader z = None -> k_tasks k !! g_leader z = Some s -> k_tasks k' !! g_leader z = Some s /\ cl' !! g_leader z = None.
Proof. intros Hc Hta Hcl h z s _ _ Hn Hs. assert (g_leader z <> b) as Hne by congruence. by rewrite Hta, Hcl. Qed.

Lemma link_sound w b g : world_ok w -> ready w (ELink b g) -> calm w (ELink b g) -> sound w (ELink b g).
Proof.
  intros Hok (Hg & Hr) Hcalm. pose proof Hok as [Hl Hty]. destruct (at_stage_task w b _ Hl Hr) as (c & t & Hc & Hst & Hcl & Ht). simpl in Hcalm.
  assert (early (c_stage c) = true /\ c_stage c <> Created) as [E Ecr] by by destruct (c_stage c). destruct (c_parent c) as [a |] eqn:Ea; [| by destruct (early_ok _ b c t Hcl E Ht) as (_ & _ & _ & H); destruct Ecr; auto].
  destruct (early_group _ _ b c t a (lk_procs _ Hl) Hcl E Ht Ea) as (Hi & Hk & y & Hy & Hln & Hin). unfold sound, step. rewrite Hc. cbn [mbind option_bind]. rewrite Ht. cbn [mbind option_bind].
  destruct w as [k cl]. cbn [w_k w_clones] in *. pose proof (lk_procs _ Hl) as Hp. cbn [w_k w_clones] in Hp. destruct (c_stage c) as [| | x | | | |] eqn:Est; try done.
  - unfold clone_link. rewrite Ht. cbn [mbind option_bind]. rewrite Hy. cbn [mbind option_bind]. eexists. split; [done |]. split.
    + apply (clone_link_thread k cl b c t y); try done; [by exists a |]. intros d e s Hd Es Eth Hs E'. destruct (po_clones _ _ Hp d e Hd) as (s' & Hs' & He). assert (s' = s) as -> by congruence. rewrite Es in He.
      destruct He as (z & Hz & _ & H1 & _). destruct (H1 Eth) as (_ & H2 & _). rewrite E' in Hz. assert (z = y) as -> by congruence. rewrite H2, list_elem_of_singleton in Hin. subst a.
      destruct (po_busy _ _ Hp b c d Hc Ea) as [Hn _]. congruence.
    + simpl. apply (ttys_keep k _ cl _ None None Hty); [done | |].
      * intros h z v Hz Hlz Hv. simpl in Hz. destruct (decide (h = t_group t)) as [-> | Hne]; [rewrite lookup_insert_eq in Hz; simplify_eq; by exists (t_group t), y | rewrite lookup_insert_ne in Hz by congruence; by exists h, z].
      * intros h z v [H1 H2 H3 (s & H4 & H5) H6 H7]. simpl. destruct (decide (h = t_group t)) as [-> | Hne].
        -- assert (z = y) as -> by congruence. eexists (set_g_threads y _). split; [| done]. constructor; try done; [simpl; by rewrite lookup_insert_eq | by exists s | by left | by apply alter_none].
        -- exists z. split; [| done]. constructor; try done; [simpl; by rewrite lookup_insert_ne by congruence | by exists s | by apply alter_none].
  - destruct (Hcalm c x Hc Est) as (h & z & Hz & ->). unfold group_of in Hz. cbn [w_k] in Hz. rewrite Ht in Hz. cbn [mbind option_bind] in Hz. rewrite Hy in Hz. simpl in Hz. simplify_eq.
    destruct (clone_link_process k cl b c t z g Hl Hc Ht Hk Hi Hy Hln Hg Hst (other_groups k cl b Hp (mk_is_Some _ _ Ht))) as (k' & x & -> & Hl' & He & Es & Ety & Ey & Hta). cbn [mbind option_bind].
    eexists. split; [done |]. split; [done |]. simpl. apply (newborn_ttys k k' cl _ g x); try done; [apply Hl | |].
    + intros v Hv. exists (t_group t), z. split_and!; congruence.
    + apply (newborn_leaders k k' cl _ b c); try done. intros d Hd. by rewrite lookup_alter_ne by congruence.
Qed.

Lemma build_sound w b g : world_ok w -> ready w (EBuild b g) -> sound w (EBuild b g).
Proof.
  intros Hok (Hg & Hr). pose proof Hok as [Hl Hty]. destruct (at_stage_task w b _ Hl Hr) as (c & t & Hc & (Est & Hpa) & Hcl & Ht). destruct (early_ok _ b c t Hcl ltac:(by rewrite Est) Ht) as (Hi & Hk & _).
  destruct w as [k cl]. cbn [w_k w_clones] in *. unfold sound, step. cbn [w_k].
  destruct (construct_spec k cl b c t g Hl Hc Ht Hk Hi Hg (other_groups k cl b (lk_procs _ Hl) (mk_is_Some _ _ Ht))) as (k' & x & -> & Hl' & He & Ety & Ey & Hta). cbn [mbind option_bind].
  eexists. split; [done |]. split; [done |]. simpl. apply (newborn_ttys k k' cl _ g x); try done; [apply Hl | congruence |].
  apply (newborn_leaders k k' cl _ b c); try done. intros d Hd. by rewrite lookup_delete_ne by congruence.
Qed.

(** ** A clone is given up *)

Lemma fail_early_sound w b : world_ok w -> ready w (EFailEarly b) -> sound w (EFailEarly b).
Proof.
  intros Hok Hr. pose proof Hok as [Hl Hty]. destruct (at_stage_task w b _ Hl Hr) as (c & t & Hc & Hst & Hcl & Ht). unfold sound, step. rewrite Hc. cbn [mbind option_bind].
  eexists. split; [done |]. destruct w as [k cl]. apply (stage_world k cl b c); [done | done |].
  apply (early_clone k b c _ t); [done | by destruct (c_stage c) | done | done |]. right. simpl. destruct (c_stage c); auto.
Qed.

(** A linked clone is off the lists it was on, and is what it was before. *)
Lemma linked_clone_departs k k' cl b c t gone s : world_ok (mk_world k cl) -> cl !! b = Some c -> c_stage c = Linked -> k_tasks k !! b = Some t ->
  departs k k' b gone (if c_thread c then None else Some (t_group t)) -> k_ttys k' = k_ttys k -> s = (if gone then NeverRan else Failing) ->
  world_ok (mk_world k' (alter (fun c => mk_clone (c_parent c) (c_thread c) s) b cl)).
Proof.
  intros [Hl Hty] Hc Est Ht D Ey Es. pose proof (dp_shrunk _ _ _ _ _ D) as S. pose proof (lk_procs _ Hl) as Hp. cbn [w_k w_clones] in *. pose proof (po_clones _ _ Hp b c Hc) as (t0 & Ht0 & Hcl). simplify_eq.
  rewrite Est in Hcl. destruct Hcl as (x & Hx & Hin & Hpr & Hth). destruct (po_threads _ _ Hp _ x b Hx Hin) as (Hln & t1 & Ht1 & _ & Hk). simplify_eq.
  assert (forall d e, cl !! d = Some e -> c_parent e <> Some b) as Hbusy by (intros d e Hd Hpe; destruct (po_busy _ _ Hp d e b Hd Hpe); congruence).
  assert (forall g z, k_groups k !! g = Some z -> linked k' g -> g_leader z <> b) as Hlead.
  { intros g z Hz Hlg E. apply (sh_linked _ _ _ _ _ S) in Hlg as [Hlg Hne]. destruct (po_leader _ _ Hp g z Hz Hlg) as (s & Hs & Eg & _). subst b. simplify_eq. destruct (c_thread c); [by destruct (Hth eq_refl) | done]. }
  assert (idle k' b) as Hidle.
  { split.
    - intros g z Hz Hb. destruct (opt_like_inv _ _ _ _ (sh_groups _ _ _ _ _ S g) Hz) as (y & Hy & _ & Et). rewrite Et in Hb. by apply elem_without in Hb as [].
    - intros (g & z & Hz & Hlg & E). destruct (opt_like_inv _ _ _ _ (sh_groups _ _ _ _ _ S g) Hz) as (y & Hy & El & _). apply (Hlead g y Hy Hlg). congruence. }
  destruct (opt_like _ _ _ _ (sh_tasks _ _ _ _ _ S b) Ht) as (t' & Ht' & Ep & _).
  split.
  - apply (departs_links k k' cl _ b gone _ Hl D). apply (shrunk_procs k k' cl _ b gone _ Hp S); try done.
    + intros d Hd. by rewrite lookup_alter_ne by congruence.
    + intros c' Hc'. rewrite lookup_alter_eq, Hc in Hc'. simpl in Hc'. injection Hc' as <-. split; [| by exists c]. exists t'. split; [done |]. cbn [c_stage].
      destruct gone; subst; (split; [done |]); rewrite Ep, (sh_tk _ _ _ _ _ S), Hk; [by rewrite bool_decide_eq_true_2 | done].
    + intros s' Hn. by rewrite lookup_alter_eq, Hc in Hn.
    + intros g z E Hz d Hd. destruct (c_thread c); [done |]. injection E as <-. simplify_eq. destruct (Hpr eq_refl) as (_ & E' & _). rewrite E', list_elem_of_singleton in Hd. done.
    + intros g d sd E Hne Hsd Eg Hkd. destruct (c_thread c); [done |]. injection E as <-. destruct (Hpr eq_refl) as (_ & _ & E'). exfalso. by apply Hne, (E' d sd).
  - apply (ttys_departs k k' cl _ b gone _ None D Ey); [cbn [w_clones]; auto with procs | | | done].
    + intros g z E Hz. destruct (c_thread c); [done |]. injection E as <-. simplify_eq. right. destruct (Hpr eq_refl) as (-> & _). congruence.
    + intros g z Hz Hne Hnt Hn. left. destruct (decide (b ∈ g_threads z)) as [Hb | Hb]; [| by rewrite without_out]. destruct (po_threads _ _ Hp g z b Hz Hb) as (_ & s1 & Hs1 & Eg & _). simplify_eq.
      destruct (c_thread c); [| done]. destruct (Hth eq_refl) as (_ & p & Epa & Hpin). intros E. apply (not_elem_of_nil (A := Z) p). rewrite <- E. apply elem_without. split; [| done]. intros ->. by apply (Hbusy b c).
Qed.

Lemma linked_clone_facts k cl b c t : procs_ok k cl -> clone_ok k b c -> c_stage c = Linked -> k_tasks k !! b = Some t -> exists x, k_groups k !! t_group t = Some x /\ linked k (t_group t) /\ tk k (t_pid t) = Some b.
Proof.
  intros Hp (t0 & Ht0 & Hcl) Est Ht. simplify_eq. rewrite Est in Hcl. destruct Hcl as (x & Hx & Hin & _). destruct (po_threads _ _ Hp _ x b Hx Hin) as (Hln & t1 & Ht1 & _ & Hk). simplify_eq. by exists x.
Qed.

Lemma fail_late_sound w b : world_ok w -> ready w (EFailLate b) -> sound w (EFailLate b).
Proof.
  intros Hok Hr. pose proof Hok as [Hl Hty]. destruct (at_stage_task w b _ Hl Hr) as (c & t & Hc & Est & Hcl & Ht). destruct w as [k cl]. cbn [w_k w_clones] in *.
  destruct (linked_clone_facts k cl b c t (lk_procs _ Hl) Hcl Est Ht) as (x & Hx & _). unfold sound, step. cbn [w_k w_clones]. rewrite Hc. cbn [mbind option_bind]. rewrite Ht. cbn [mbind option_bind].
  destruct (fail_unlink_spec k cl Hl b t x Ht Hx (c_thread c)) as (k' & -> & D & Ey & _). cbn [mbind option_bind]. eexists. split; [done |]. by apply (linked_clone_departs k k' cl b c t false).
Qed.

Lemma never_ran_sound w b : world_ok w -> ready w (ENeverRan b) -> calm w (ENeverRan b) -> sound w (ENeverRan b).
Proof.
  intros Hok Hr Hcalm. pose proof Hok as [Hl Hty]. destruct (at_stage_task w b _ Hl Hr) as (c & t & Hc & Est & Hcl & Ht). destruct w as [k cl]. cbn [w_k w_clones] in *.
  destruct (linked_clone_facts k cl b c t (lk_procs _ Hl) Hcl Est Ht) as (x & Hx & _ & Hk). unfold sound, step. cbn [w_k w_clones].
  destruct (never_ran_spec k cl Hl b t x Ht Hx Hk (c_thread c) (Hcalm c t Hc Ht)) as (k' & -> & D & Ey). cbn [mbind option_bind]. eexists. split; [done |]. by apply (linked_clone_departs k k' cl b c t true).
Qed.

Lemma forget_sound w b : world_ok w -> ready w (EForget b) -> sound w (EForget b).
Proof.
  intros Hok Hr. pose proof Hok as [Hl Hty]. destruct (at_stage_task w b _ Hl Hr) as (c & t & Hc & Hst & _ & Ht). destruct w as [k cl]. cbn [w_k w_clones] in *. unfold sound, step. cbn [w_k w_clones]. rewrite Hc. cbn [mbind option_bind].
  destruct (forget_ns_quiet k b t Ht) as (k' & -> & Q). cbn [mbind option_bind]. eexists. split; [done |]. pose proof (quiet_world k k' cl Hok Q) as Hok'.
  destruct (po_clones _ _ (lk_procs _ (wo_links _ Hok')) b c Hc) as (t' & Ht' & Hcl). cbn [w_k] in *. destruct Hst as [Est | Est]; rewrite Est in *.
  - apply (stage_world k' cl b c); [done | done |]. by exists t'.
  - apply (done_world k' cl); [done |]. intros s Hs Hk. destruct Hcl as [_ Hn]. simplify_eq.
Qed.

Lemma start_sound w b : world_ok w -> ready w (EStart b) -> sound w (EStart b).
Proof.
  intros Hok Hr. pose proof Hok as [Hl Hty]. destruct (at_stage_task w b _ Hl Hr) as (c & t & Hc & Est & Hcl & Ht). destruct w as [k cl]. cbn [w_k w_clones] in *. eexists. split; [done |].
  apply (done_world k cl); [done |]. intros s Hs _. assert (s = t) as -> by congruence. by destruct (linked_clone_facts k cl b c t (lk_procs _ Hl) Hcl Est Ht) as (x & _ & H & _).
Qed.

(** A task nobody leads or lists goes out of its slot. *)
Lemma slot_departs k k' cl cl' a t : world_ok (mk_world k cl) -> k_tasks k !! a = Some t -> departs k k' a true None -> k_ttys k' = k_ttys k -> idle k a -> cl' = delete a cl ->
  (forall d e, cl !! d = Some e -> c_parent e <> Some a) -> world_ok (mk_world k' cl').
Proof.
  intros [Hl Hty] Ht D Ey [Hi1 Hi2] -> Hbusy. pose proof (lk_procs _ Hl) as Hp. cbn [w_k w_clones] in *. split.
  - apply (departs_links k k' cl _ a true _ Hl D). apply (shrunk_procs k k' cl _ a true None Hp (dp_shrunk _ _ _ _ _ D)); try done.
    + intros d Hd. by rewrite lookup_delete_ne by congruence.
    + intros c'. by rewrite lookup_delete_eq.
    + intros _ g x Hx Hlg E. apply Hi2. exists g, x. apply (sh_linked _ _ _ _ _ (dp_shrunk _ _ _ _ _ D)) in Hlg as [Hlg _]. done.
  - apply (ttys_departs k k' cl _ a true None None D Ey); [cbn [w_clones]; auto with procs | done | | done]. intros g x Hx _ Hn _. left. by rewrite without_out by by apply (Hi1 g).
Qed.

Lemma destroy_sound w b : world_ok w -> ready w (EDestroy b) -> sound w (EDestroy b).
Proof.
  intros Hok Hr. pose proof Hok as [Hl Hty]. destruct (at_stage_task w b _ Hl Hr) as (c & t & Hc & Est & (t0 & Ht0 & Hcl) & Ht). destruct w as [k cl]. cbn [w_k w_clones] in *. assert (t0 = t) as -> by congruence. rewrite Est in Hcl. destruct Hcl as [Hi Hk].
  unfold sound, step. cbn [w_k]. destruct (alone_unlink_spec k cl Hl b t Ht Hk) as (k' & -> & D & Ey); [intros y Hy; by apply (proj1 Hi (t_group t)) |]. cbn [mbind option_bind]. eexists. split; [done |].
  apply (slot_departs k k' cl _ b t); try done. intros d e Hd Hpe. destruct (po_busy _ _ (lk_procs _ Hl) d e b Hd Hpe) as [Hn _]. simpl in Hn. congruence.
Qed.

(** ** Groups and sessions change *)

Lemma running_world k cl a : world_ok (mk_world k cl) -> running (mk_world k cl) a -> exists t x lt, k_tasks k !! a = Some t /\ k_groups k !! t_group t = Some x /\
  a ∈ g_threads x /\ linked k (t_group t) /\ tk k (t_pid t) = Some a /\ k_tasks k !! g_leader x = Some lt /\ t_group lt = t_group t /\ tk k (t_pid lt) = Some (g_leader x) /\
  0 < t_pid lt <= MAX_PID /\ cl !! a = None /\ cl !! g_leader x = None /\ (forall d e, cl !! d = Some e -> c_parent e <> Some a).
Proof.
  intros [Hl _] Hr. destruct (running_facts _ a Hl Hr) as (t & x & lt & Ht & Hx & Ha & Hln & Hk & Hlt & Eg & Hkl & Hrl). cbn [w_k] in *. destruct Hr as (_ & _ & Hn & Hb). cbn [w_clones] in *.
  exists t, x, lt. split_and!; try done; try lia; [by apply (leader_made k cl a t x (lk_procs _ Hl)) |]. intros d e Hd He. apply Hb. by exists d, e.
Qed.

Lemma setpgid_sound w a id pgid : world_ok w -> ready w (ESetpgid a id pgid) -> calm w (ESetpgid a id pgid) -> sound w (ESetpgid a id pgid).
Proof.
  intros Hok (Hr & Hid & Hpg) Hcalm. destruct w as [k cl]. simpl in Hcalm. destruct (running_world k cl a Hok Hr) as (t & x & lt & Ht & Hx & Ha & _ & _ & _ & _ & _ & _ & Hn & _). pose proof Hok as [Hl Hty].
  destruct (setpgid_spec k cl a t id pgid Hl Ht) as (r & k' & E & Hcase); [by exists (t_group t), x, a | | done | done |].
  { intros b s Hs [-> | Hpa]; [unfold whole; by rewrite Hn | by apply (Hcalm b s)]. }
  unfold sound, step. cbn [w_k]. rewrite E. cbn [mbind option_bind]. eexists. split; [done |]. destruct Hcase as [-> | (b & s & z & ls & p & Hs & Hz & Hlz & _ & _ & _ & _ & _ & _ & M & Ey)]; [done |].
  split; [by apply (moved_links k k' (t_group s) z (set_g_ids z (g_sid z) p) cl) |]. cbn [w_k w_clones]. apply (ttys_moved k k' cl (t_group s) z _ M); try done. by right.
Qed.

Lemma setsid_sound w a : world_ok w -> ready w (ESetsid a) -> sound w (ESetsid a).
Proof.
  intros Hok Hr. destruct w as [k cl]. destruct (running_world k cl a Hok Hr) as (t & x & lt & Ht & Hx & Ha & Hln & _ & Hlt & _ & Hkl & Hrl & _). pose proof Hok as [Hl Hty].
  destruct (setsid_spec k a t x lt (lk_lists _ Hl) Ht Hx Hlt Hkl Hrl) as (r & k' & E & Hcase). unfold sound, step, sys_setsid. cbn [w_k]. rewrite Ht. cbn [mbind option_bind]. rewrite E. cbn [mbind option_bind].
  eexists. split; [done |]. destruct Hcase as [[-> _] | (M & Hne & k1 & E1 & Ey)]; [done |]. split; [by eapply (moved_links k k' (t_group t) x _ cl) |]. cbn [w_k w_clones].
  apply (setsid_ttys k k' cl a t x _ k1 (lk_lists _ Hl) Hty Ht Hx Hln M); try done. congruence.
Qed.

Lemma restore_sound w a sid pgid : world_ok w -> ready w (ERestore a sid pgid) -> sound w (ERestore a sid pgid).
Proof.
  intros Hok (Hr & Hs & Hp & g & y & Hg & Hn). destruct w as [k cl]. destruct (running_world k cl a Hok Hr) as (t & x & lt & Ht & Hx & Ha & Hln & Hk & _). pose proof Hok as [Hl Hty].
  unfold group_of in Hg. cbn [w_k] in Hg. rewrite Ht in Hg. simpl in Hg. rewrite Hx in Hg. simpl in Hg. simplify_eq.
  destruct (restore_spec k cl a t y sid pgid Hl Ht Hk Hx Hln Hs Hp) as (k' & x' & E & M & Et & Ey). unfold sound, step. cbn [w_k]. rewrite E. cbn [mbind option_bind]. eexists. split; [done |].
  split; [by apply (moved_links k k' (t_group t) y x' cl) |]. apply (ttys_moved k k' cl (t_group t) y x' M); try done. by left.
Qed.

(** ** A process exits and is collected *)

Lemma task_sound k cl a t f : world_ok (mk_world k cl) -> k_tasks k !! a = Some t -> task_like t (f t) ->
  (forall p, t_parent (f t) = Some p -> is_Some (k_tasks k !! p) \/ t_parent t = Some p) -> exists k', on_task k a f = Some k' /\ world_ok (mk_world k' cl).
Proof. intros Hok Ht Hl Hp. destruct (on_task_quiet k a f t Ht Hl Hp) as (k' & E & Q). exists k'. split; [done |]. by apply (quiet_world k). Qed.

Lemma group_of_facts k a g x : group_of k a = Some (g, x) -> exists t, k_tasks k !! a = Some t /\ g = t_group t /\ k_groups k !! t_group t = Some x.
Proof.
  unfold group_of. destruct (k_tasks k !! a) as [t |]; [| done]. cbn [mbind option_bind]. destruct (k_groups k !! t_group t) as [y |] eqn:E; [| done]. cbn [mbind option_bind]. intros [= <- <-]. by exists t.
Qed.

Lemma reparent_sound w a b : world_ok w -> ready w (EReparent a b) -> sound w (EReparent a b).
Proof.
  intros Hok (Hin & _ & s & Hs & Hsp). destruct w as [k cl]. pose proof Hok as [Hl _]. destruct (in_threads_facts _ a Hl Hin) as (t & x & Ht & Hx & Ha & Hln & _). cbn [w_k] in *.
  unfold sound, step. cbn [w_k]. destruct (find_new_parent_some k cl a t x (lk_procs _ Hl) Ht Hx Hln) as (r & -> & Hr). cbn [mbind option_bind].
  destruct (task_sound k cl b s (fun t => set_t_parent t r) Hok Hs) as (k' & -> & Hok'); [done | intros p Hpp; left; by apply Hr |]. cbn [mbind option_bind]. by eexists.
Qed.

Lemma unlink_sound w a : world_ok w -> ready w (EUnlink a) -> sound w (EUnlink a).
Proof.
  intros Hok ((s & Hs & Hk) & Hn & g & x & Hg & Hout & Hnl). destruct w as [k cl]. pose proof Hok as [Hl _]. cbn [w_k w_clones] in *. destruct (group_of_facts k a g x Hg) as (t & Ht & -> & Hx). assert (s = t) as -> by congruence.
  pose proof (lk_procs _ Hl) as Hp. cbn [w_k w_clones] in Hp. destruct (thread_unlink_spec k cl Hl a t x Ht Hx Hk Hout) as (k' & E & D & Ey). unfold sound, step. cbn [w_k]. rewrite E. cbn [mbind option_bind]. eexists. split; [done |].
  apply (slot_departs k k' cl _ a t); try done; [| by rewrite delete_id |].
  - split; [intros h z Hz; destruct (decide (h = t_group t)) as [-> | Hne]; [congruence | by apply (threads_elsewhere k cl Hp a t h z)] |].
    intros (h & z & Hz & Hlz & Ez). destruct (po_leader _ _ Hp h z Hz Hlz) as (s & Hss & Eg & _). rewrite Ez in Hss. assert (s = t) as -> by congruence. subst h. congruence.
  - intros d e Hd Hpe. destruct (po_busy _ _ Hp d e a Hd Hpe) as [_ (s & z & Hss & Hz & Hin)]. assert (s = t) as -> by congruence. assert (z = x) as -> by congruence. done.
Qed.

(** The thread is off its group's list: what the hangup finds. *)
Lemma exit_departs k cl a t x y : world_ok (mk_world k cl) -> k_tasks k !! a = Some t -> k_groups k !! t_group t = Some x -> a ∈ g_threads x -> linked k (t_group t) ->
  cl !! a = None -> (forall d e, cl !! d = Some e -> c_parent e <> Some a) ->
  crew_less a x y -> g_pgid y = g_pgid x -> g_sid y = g_sid x -> g_tty y = g_tty x ->
  let k' := put_group k (t_group t) y in
  links_ok (mk_world k' cl) /\ ttys_ok k' cl (if bool_decide (g_threads y = []) then Some (t_group t) else None) /\ linked k' (t_group t).
Proof.
  intros [Hl Hty] Ht Hx Ha Hln Hn Hbusy Hy Ep Es Et k'. pose proof (lk_procs _ Hl) as Hp. cbn [w_k w_clones] in *.
  pose proof (departs_threads k cl Hl a t x Ht Hx y Hy Ep Es Et) as D. split_and!; [| | done].
  - apply (departs_links k k' cl cl a false None Hl D). apply (shrunk_procs k k' cl cl a false None Hp (dp_shrunk _ _ _ _ _ D)); try done; [congruence |].
    intros s _ _ Hs _. assert (s = t) as -> by congruence. done.
  - apply (ttys_departs k k' cl cl a false None _ D); try done. intros g z Hz _ Hnz _. destruct (decide (g = t_group t)) as [-> | Hne].
    + assert (z = x) as -> by congruence. destruct Hy as [_ <-]. case_bool_decide; [by right | by left].
    + left. rewrite without_out; [done |]. by apply (threads_elsewhere k cl Hp a t g z).
Qed.

Lemma exit_sound w a traced : world_ok w -> ready w (EExit a traced) -> sound w (EExit a traced).
Proof.
  intros Hok (Hin & _ & Hn & Hb). destruct w as [k cl]. pose proof Hok as [Hl _]. destruct (in_threads_facts _ a Hl Hin) as (t & x & Ht & Hx & Ha & Hln & _). cbn [w_k w_clones] in *.
  unfold sound, step, exit_locked. cbn [w_k]. rewrite Ht. cbn [mbind option_bind]. rewrite Hx. cbn [mbind option_bind]. set (tr := traced && negb (g_leader x =? a)).
  set (t1 := set_t_flags t _ _ _ _). set (k1 := put_task k a t1). assert (world_ok (mk_world k1 cl)) as Hok1 by (apply (quiet_world k); [done | by apply (quiet_task k a t)]).
  assert (k_tasks k1 !! a = Some t1) as Ht1 by (simpl; by rewrite lookup_insert_eq). unfold exit_tgroup. rewrite Ht1. cbn [mbind option_bind]. change (t_group t1) with (t_group t).
  change (k_groups k1) with (k_groups k). rewrite Hx. cbn [mbind option_bind]. set (x1 := set_g_threads x (without a (g_threads x))). simpl k_groups. rewrite lookup_insert_eq. cbn [mbind option_bind].
  set (y := if tr then mk_tgroup (g_leader x1) (g_sid x1) (g_pgid x1) (g_tty x1) (g_threads x1) (g_traced_zombies x1 + 1) (g_child_subreaper x1) else x1).
  set (k3 := if tr then _ else _). assert (k3 = put_group k1 (t_group t) y) as E3.
  { unfold k3, y. destruct tr; [| done]. unfold put_group, set_groups. simpl. by rewrite insert_insert_eq. }
  assert (g_threads y = without a (g_threads x) /\ g_leader y = g_leader x /\ g_pgid y = g_pgid x /\ g_sid y = g_sid x /\ g_tty y = g_tty x) as (Y1 & Y2 & Y3 & Y4 & Y5) by (unfold y; by destruct tr).
  destruct (exit_departs k1 cl a t1 x y Hok1 Ht1 Hx Ha Hln Hn) as (Hl3 & Hty3 & Hln3); [intros d e Hd He; apply Hb; by exists d, e | done | done | done | done |].
  change (t_group t1) with (t_group t) in *. rewrite <- E3 in *. rewrite Y1 in Hty3. case_bool_decide as Ed; [| by eexists].
  assert (k_groups k3 !! t_group t = Some y) as Hy3 by (rewrite E3; simpl; by rewrite lookup_insert_eq).
  destruct (po_leader _ _ (lk_procs _ Hl3) _ y Hy3 Hln3) as (lt & Hlt & Eg & _). cbn [w_k] in Hlt. rewrite Y2 in Hlt. change (g_leader x1) with (g_leader x).
  destruct (hangup_soft k3 (g_leader x) lt y Hlt) as (h & k' & E & S); [by rewrite Eg | |].
  { intros v Hv. destruct (tt_session _ _ _ Hty3 _ y v Hy3 Hln3 Hv) as (d & Hd & _). by exists d. }
  rewrite E. cbn [mbind option_bind]. eexists. split; [done |]. split; [by apply (soft_links k3) |]. cbn [w_k w_clones].
  apply (hangup_ttys k3 cl (g_leader x) lt y (lk_lists _ Hl3)) with (h := h); try done; by rewrite Eg.
Qed.

Lemma release_sound w l : world_ok w -> ready w (ERelease l) -> sound w (ERelease l).
Proof.
  intros Hok ((s & Hs & Hk) & Hn & _ & g & x & Hg & El & Hnt & _ & Hlast). destruct w as [k cl]. pose proof Hok as [Hl Hty]. cbn [w_k w_clones] in *. destruct (group_of_facts k l g x Hg) as (t & Ht & -> & Hx). assert (s = t) as -> by congruence.
  pose proof (lk_procs _ Hl) as Hp. cbn [w_k w_clones] in Hp. destruct (release_spec k cl Hl l t x Ht Hx Hk Hnt) as (k1 & k' & E1 & E & D & Ey). unfold sound, step. cbn [w_k]. rewrite E. cbn [mbind option_bind]. eexists. split; [done |].
  assert (linked k (t_group t)) as Hln by by apply (po_tasks _ _ Hp l).
  assert (forall h z, k_groups k !! h = Some z -> l ∉ g_threads z) as Hout.
  { intros h z Hz. destruct (decide (h = t_group t)) as [-> | Hne]; [assert (z = x) as -> by congruence; rewrite Hnt; apply not_elem_of_nil | by apply (threads_elsewhere k cl Hp l t h z)]. }
  split.
  - apply (departs_links k k' cl cl l true _ Hl D). apply (shrunk_procs k k' cl cl l true _ Hp (dp_shrunk _ _ _ _ _ D)); try done; [congruence | | | |].
    + intros d e Hd Hpe. destruct (po_busy _ _ Hp d e l Hd Hpe) as [_ (s & z & Hss & Hz & Hin)]. by apply (Hout _ z Hz).
    + intros _ h z Hz Hlz Ez. apply (sh_linked _ _ _ _ _ (dp_shrunk _ _ _ _ _ D)) in Hlz as [Hlz Hne]. destruct (po_leader _ _ Hp h z Hz Hlz) as (s & Hss & Eg & _). congruence.
    + intros h z [= <-] Hz b Hb. assert (z = x) as -> by congruence. rewrite Hnt in Hb. by apply not_elem_of_nil in Hb.
    + intros h b s [= <-] Hne Hsb Eg Hkb Hcb. apply Hne, (Hlast b s); try done. by exists s.
  - cbn [w_k w_clones]. by apply (release_ttys k k' cl l t x k1 (lk_lists _ Hl) Hty Ht Hx Hln Hnt D E1 Ey).
Qed.

Lemma exec_sound w a inh : world_ok w -> ready w (EExec a inh) -> sound w (EExec a inh).
Proof.
  intros Hok (Hr & Hinh & g & y & Hg & Hnl & Hthr). destruct w as [k cl]. destruct (running_world k cl a Hok Hr) as (t & x & lt & Ht & Hx & Ha & Hln & Hk & Hlt & Eg & Hkl & _ & Hn & _ & Hbusy). pose proof Hok as [Hl Hty].
  cbn [w_k w_clones] in *. destruct (group_of_facts k a g y Hg) as (t0 & Ht0 & -> & Hy). assert (t0 = t) as -> by congruence. assert (y = x) as -> by congruence.
  destruct (exec_view k cl Hl a t x lt Ht Hx Hnl Hlt Hkl Hk inh) as (k' & p & E & P); [destruct inh; [by intros q [= <-] | done] |].
  unfold sound, step. cbn [w_k]. rewrite E. cbn [mbind option_bind]. eexists. split; [done |]. split.
  - by apply (exec_links k cl Hl a t x lt Ht Hx Hln Hthr Hnl Hlt Eg Hkl Hk Hn Hbusy k' p P).
  - by apply (exec_ttys k cl Hl a t x lt Ht Hx Hnl Hlt Eg Hn k' p P).
Qed.

(** ** Namespaces, the pid limit and the terminals *)

Lemma unshare_sound w a mem n : world_ok w -> ready w (EUnshare a mem n) -> sound w (EUnshare a mem n).
Proof.
  intros Hok (Hr & _). destruct w as [k cl]. destruct (running_world k cl a Hok Hr) as (t & x & lt & Ht & _). unfold sound, step. cbn [w_k]. rewrite Ht. cbn [mbind option_bind].
  set (below := match t_pid_ns_for_children t with Some m => Some m | None => t_pid_ns t end). pose proof (quiet_pid_ns_new k below mem n) as Q.
  assert (k_tasks (snd (pid_ns_new k below mem n)) = k_tasks k) as Et by (unfold pid_ns_new; destruct (_ && _); [done |]; by destruct mem).
  destruct (pid_ns_new k below mem n) as [[m | err] k1]; simpl in Q, Et; pose proof (quiet_world k k1 cl Hok Q) as Hok1; [| by eexists].
  destruct (task_sound k1 cl a t (fun t => set_t_for_children t (Some m)) Hok1) as (k' & -> & Hok'); [by rewrite Et | done | intros p Hp; by right |]. by eexists.
Qed.

Lemma setns_sound w a n : world_ok w -> ready w (ESetns a n) -> sound w (ESetns a n).
Proof.
  intros Hok (Hr & _). destruct w as [k cl]. destruct (running_world k cl a Hok Hr) as (t & x & lt & Ht & _). unfold sound, step. cbn [w_k].
  destruct (task_sound k cl a t (fun t => set_t_for_children t (if bool_decide (n = t_pid_ns t) then None else n)) Hok Ht) as (k' & -> & Hok'); [done | intros p Hp; by right |]. by eexists.
Qed.

Lemma flags_sound k cl a t z e d s : world_ok (mk_world k cl) -> k_tasks k !! a = Some t ->
  exists k', on_task k a (fun t => set_t_flags t (z t) (e t) (d t) (s t)) = Some k' /\ world_ok (mk_world k' cl).
Proof. intros Hok Ht. apply (task_sound k cl a t); [done | done | done |]. intros p Hp. by right. Qed.

Lemma pid_max_sound w v : world_ok w -> sound w (EPidMax v).
Proof.
  intros [[Hl Hp [Ha1 Ha2]] Hty]. destruct w as [k cl]. unfold sound, step. eexists. split; [done |]. unfold task_set_pid_max. destruct (_ || _) eqn:E; [done |]. apply orb_false_iff in E as [E _]. to_prop. simpl.
  split; [split; [by apply (lists_same k); [| | | eauto] | | split; [done | simpl; lia]] |]; cbn [w_k w_clones] in *.
  - apply (alike_procs k); [| done]. constructor; try done; [intros a; apply opt_refl; auto with procs | eauto | intros g; by apply opt_refl].
  - apply (ttys_keep k _ cl cl None None Hty); [done | by intros g x y ? ? ?; exists g, x |]. intros g x y [H1 H2 H3 (s & H4 & H5) H6 H7]. exists x. split; [| done]. constructor; try done. by exists s.
Qed.

Lemma new_tty_sound w y p : world_ok w -> ready w (ENewTty y p) -> sound w (ENewTty y p).
Proof.
  intros Hok Hr. destruct w as [k cl]. pose proof Hok as [Hl Hty]. cbn [w_k w_clones] in *. eexists. split; [done |]. split; [apply (soft_links k); [apply soft_set_ttys | done] |]. cbn [w_k w_clones].
  constructor; simpl.
  - intros g x v Hx Hln Hv. destruct (tt_session _ _ _ Hty g x v Hx Hln Hv) as (d & Hd & E). exists d. rewrite lookup_insert_ne; [done |]. intros ->. simpl in Hr. congruence.
  - intros v d Hd Hn. destruct (decide (v = y)) as [-> | Hne]; [rewrite lookup_insert_eq in Hd; by simplify_eq |]. rewrite lookup_insert_ne in Hd by congruence.
    destruct (tt_leader _ _ _ Hty v d Hd Hn) as (g & x & [H1 H2 H3 (s & H4 & H5) H6 H7] & E). exists g, x. split; [| done]. constructor; try done. by exists s.
Qed.

Section Terminal.
Context (k : kernel) (cl : gmap Z clone) (a y : Z) (Hok : world_ok (mk_world k cl)) (Hr : running (mk_world k cl) a) (Hy : is_Some (k_ttys k !! y)).

Lemma terminal_facts : exists t x lt d, k_tasks k !! a = Some t /\ k_groups k !! t_group t = Some x /\ linked k (t_group t) /\ k_tasks k !! g_leader x = Some lt /\
  g_threads x <> [] /\ cl !! g_leader x = None /\ k_ttys k !! y = Some d.
Proof.
  destruct (running_world k cl a Hok Hr) as (t & x & lt & Ht & Hx & Ha & Hln & _ & Hlt & _ & _ & _ & _ & Hn & _). destruct Hy as [d Hd]. exists t, x, lt, d. split_and!; try done. intros E. rewrite E in Ha. by apply not_elem_of_nil in Ha.
Qed.

Lemma open_sound : sound (mk_world k cl) (EOpenTty a y).
Proof.
  destruct terminal_facts as (t & x & lt & d & Ht & Hx & Hln & Hlt & Hal & Hn & Hd). destruct (open_tty_soft k a y t x lt d Ht Hx Hlt Hd) as (k' & E & S). pose proof Hok as [Hl Hty].
  unfold sound, step. cbn [w_k]. rewrite E. eexists. split; [done |]. split; [by apply (soft_links k) | by apply (open_ttys k cl (lk_lists _ Hl) Hty a t x lt y d Ht Hx Hln Hlt Hal Hn Hd)].
Qed.

Lemma sctty_sound force su : sound (mk_world k cl) (ESctty a y force su).
Proof.
  destruct terminal_facts as (t & x & lt & d & Ht & Hx & Hln & Hlt & Hal & Hn & Hd). pose proof Hok as [Hl Hty].
  destruct (sctty_soft k a y force su t x lt d Ht Hx Hlt Hd) as (r & k' & E & S).
  { intros Hs. destruct (tt_leader _ _ _ Hty y d Hd Hs) as (g & z & [H1 H2 _ _ _ _] & ->). by rewrite (linked_found k g z (lk_lists _ Hl) H1 H2). }
  unfold sound, step. cbn [w_k]. rewrite E. eexists. split; [done |]. split; [by apply (soft_links k) | by apply (sctty_ttys k cl (lk_lists _ Hl) Hty a t x lt y d Ht Hx Hln Hlt Hal Hn Hd force su r)].
Qed.

Lemma spgrp_sound pgid : sound (mk_world k cl) (ESpgrp a y pgid).
Proof.
  destruct terminal_facts as (t & x & lt & d & Ht & Hx & Hln & Hlt & Hal & Hn & Hd). pose proof Hok as [Hl Hty]. destruct (spgrp_soft k a y pgid t x d (lk_lists _ Hl) Ht Hx Hd) as (r & k' & E & S).
  unfold sound, step. cbn [w_k]. rewrite E. eexists. split; [done |]. split; [by apply (soft_links k) | by apply (spgrp_ttys k cl Hty a t x y d Ht Hx Hd pgid r)].
Qed.

Lemma notty_sound : sound (mk_world k cl) (ENotty a y).
Proof.
  destruct terminal_facts as (t & x & lt & d & Ht & Hx & Hln & Hlt & Hal & Hn & Hd). pose proof Hok as [Hl Hty]. destruct (notty_soft k a y t x lt d Ht Hx Hlt Hd) as (r & h & k' & E & S).
  unfold sound, step. cbn [w_k]. rewrite E. eexists. split; [done |]. split; [by apply (soft_links k) | by apply (notty_ttys k cl (lk_lists _ Hl) Hty a t x lt y d Ht Hx Hln Hlt Hd r h)].
Qed.
End Terminal.

(** ** Every event *)

Lemma step_sound w e : world_ok w -> ready w e -> calm w e -> sound w e.
Proof.
  intros Hok Hr Hc. destruct e.
  - by apply create_sound.
  - by apply clone_parent_sound.
  - by apply ns_sound.
  - by apply copy_sound.
  - by apply link_sound.
  - by apply fail_early_sound.
  - by apply fail_late_sound.
  - by apply forget_sound.
  - by apply destroy_sound.
  - by apply start_sound.
  - by apply never_ran_sound.
  - by apply build_sound.
  - by apply setpgid_sound.
  - by apply setsid_sound.
  - by apply restore_sound.
  - destruct w as [k cl]. destruct (running_world k cl a Hok Hr) as (t & x & lt & Ht & _). unfold sound, step. cbn [w_k].
    destruct (flags_sound k cl a t t_zombie (fun _ => true) t_did_exec t_sighand Hok Ht) as (k' & -> & H). by eexists.
  - by apply exit_sound.
  - destruct w as [k cl]. destruct Hr as (g & x & Hg & _). destruct (group_of_facts k l g x Hg) as (t & Ht & _). unfold sound, step. cbn [w_k].
    destruct (flags_sound k cl l t (fun _ => true) t_exiting t_did_exec t_sighand Hok Ht) as (k' & -> & H). by eexists.
  - by apply unlink_sound.
  - by apply release_sound.
  - by apply reparent_sound.
  - by apply exec_sound.
  - destruct w as [k cl]. destruct (running_world k cl a Hok Hr) as (t & x & lt & Ht & _). unfold sound, step. cbn [w_k].
    destruct (flags_sound k cl a t t_zombie t_exiting (fun _ => true) t_sighand Hok Ht) as (k' & -> & H). by eexists.
  - by apply unshare_sound.
  - by apply setns_sound.
  - destruct w as [k cl]. destruct Hr as [x Hx]. unfold sound, step. cbn [w_k] in *. rewrite Hx. eexists. split; [done |]. apply (quiet_world k); [done | apply quiet_put_ns].
  - by apply pid_max_sound.
  - by apply new_tty_sound.
  - destruct w as [k cl], Hr. by apply open_sound.
  - destruct w as [k cl], Hr. by apply sctty_sound.
  - destruct w as [k cl], Hr. by apply spgrp_sound.
  - destruct w as [k cl], Hr. by apply notty_sound.
Qed.

(** The worlds the machine gets to. *)
Inductive reachable : world -> Prop :=
| reach_boot : reachable boot
| reach_step w e w' : reachable w -> ready w e -> calm w e -> step w e = Some w' -> reachable w'.

Lemma boot_ok : world_ok boot.
Proof.
  assert (forall id, pid_at (w_k boot) id = zeroed_pid) as H0 by done. assert (forall g, ~ linked (w_k boot) g) as Hn by (intros g [id Hg]; unfold pg in Hg; rewrite H0 in Hg; by apply not_elem_of_nil in Hg).
  split; [split; [| | done] |].
  - assert (forall g id, g ∉ sn (w_k boot) id) as Hs by (intros g id Hg; unfold sn in Hg; rewrite H0 in Hg; by apply not_elem_of_nil in Hg). constructor.
    + intros id g Hg. destruct (Hn g). by exists id.
    + intros id g Hg. by destruct (Hs g id).
    + intros g. split; [intros [id Hg]; by destruct (Hs g id) | intros Hg; by destruct (Hn g)].
    + intros id. constructor.
    + intros id. constructor.
    + intros id [H | H]; by destruct H.
  - constructor; intros; unfold tk in *; rewrite ?H0 in *; done.
  - constructor; intros; done.
Qed.

Lemma reachable_ok w : reachable w -> world_ok w.
Proof.
  induction 1 as [| w e w' _ Hok Hr Hc Hs]; [apply boot_ok |]. destruct (step_sound w e Hok Hr Hc) as (w2 & Hs2 & Hok2). congruence.
Qed.
