(* ===== verification/ProcClaims.v ===== *)
(** * What the process table promises

    The theorems about processes, process groups, sessions and controlling
    terminals, over every world the machine gets to ([ProcStep.reachable]). *)

From S2P Require Import Prelude Pids Groups Procs Ctty ProcWorld ProcLinks ProcSound ProcLeave ProcTty ProcEnter ProcStep.

(** A process: a thread group whose leader is in the table and is not half made. *)
Definition process (w : world) (g : Z) (x : tgroup) : Prop :=
  k_groups (w_k w) !! g = Some x /\
  exists t, k_tasks (w_k w) !! g_leader x = Some t /\ t_group t = g /\ p_task (pid_at (w_k w) (t_pid t)) = Some (g_leader x) /\
    match w_clones w !! g_leader x with Some c => c_stage c = Linked | None => True end.

Lemma process_linked w g x : links_ok w -> k_groups (w_k w) !! g = Some x -> process w g x <-> linked (w_k w) g.
Proof.
  intros [Hl Hp _] Hx. split.
  - intros (_ & t & Ht & <- & Hk & Hc). destruct (w_clones w !! g_leader x) as [c |] eqn:E; [| by apply (po_tasks _ _ Hp (g_leader x))].
    destruct (po_clones _ _ Hp _ c E) as (s & Hs & Hcl). rewrite Hc in Hcl. destruct Hcl as (y & Hy & Hin & _). assert (s = t) as -> by congruence. by destruct (po_threads _ _ Hp _ y _ Hy Hin).
  - intros Hln. split; [done |]. destruct (po_leader _ _ Hp g x Hx Hln) as (t & Ht & Eg & Hk). exists t. split_and!; try done. destruct (w_clones w !! g_leader x) as [c |] eqn:E; [| done].
    destruct (po_clones _ _ Hp _ c E) as (s & _ & Hcl). assert (leads (w_k w) (g_leader x)) as Hld by by exists g, x. destruct (c_stage c); try done; by destruct Hcl as [[_ Hi] _].
Qed.

Lemma member_pg w id g : links_ok w -> g ∈ pg (w_k w) id <-> exists x, process w g x /\ g_pgid x = id.
Proof.
  intros Hok. split.
  - intros Hg. destruct (lo_pg _ (lk_lists _ Hok) id g Hg) as (x & Hx & E). exists x. split; [| done]. apply (process_linked w g x Hok Hx). by exists id.
  - intros (x & Hp & <-). pose proof Hp as [Hx _]. apply (process_linked w g x Hok Hx) in Hp. apply linked_at; [apply Hok | done | done].
Qed.
Lemma member_sn w id g : links_ok w -> g ∈ sn (w_k w) id <-> exists x, process w g x /\ g_sid x = id.
Proof.
  intros Hok. split.
  - intros Hg. destruct (lo_sn _ (lk_lists _ Hok) id g Hg) as (x & Hx & E). exists x. split; [| done]. apply (process_linked w g x Hok Hx). apply (lo_both _ (lk_lists _ Hok)). by exists id.
  - intros (x & Hp & <-). pose proof Hp as [Hx _]. apply (process_linked w g x Hok Hx) in Hp. apply linked_session; [apply Hok | done | done].
Qed.

(** ** Looking worlds over by computation *)

Definition runs (w : world) (a : Z) : bool :=
  match group_of (w_k w) a with Some (_, x) => bool_decide (a ∈ g_threads x) | None => false end &&
  negb (is_exiting w a) && bool_decide (w_clones w !! a = None) && bool_decide (map_Forall (fun _ c => c_parent c <> Some a) (w_clones w)).

Lemma runs_running w a : runs w a = true -> running w a.
Proof.
  unfold runs. destruct (group_of (w_k w) a) as [[g x] |] eqn:E; [| done]. intros H. apply andb_true_iff in H as [H H4]. apply andb_true_iff in H as [H H3]. apply andb_true_iff in H as [H1 H2].
  apply bool_decide_eq_true in H1, H3, H4. apply negb_true_iff in H2. split_and!; [by exists g, x | done | done |]. intros (b & c & Hb & Hc). by apply (H4 b c).
Qed.

(** One step more, its readiness shown. *)
Lemma reach_next w e : reachable w -> ready w e -> calm w e -> forall w', step w e = Some w' -> reachable w'.
Proof. intros Hr H1 H2 w' Hs. by apply (reach_step w e). Qed.

(** ** A machine with two processes, to look at

    init, at 10 with its thread group at 20; a child forked at 11 and 21, in a
    group of its own; a terminal at 30, init's. *)

Definition after (w : world) (e : event) : world := default boot (step w e).

Definition demo1 : world := Eval vm_compute in after boot (ECreate None None 0 10).
Definition demo2 : world := Eval vm_compute in after demo1 (EBuild 10 20).
Definition demo3 : world := Eval vm_compute in after demo2 (ECreate (Some 10) (Some 10) 0 11).
Definition demo4 : world := Eval vm_compute in after demo3 (ENs 11 false false true 40).
Definition demo5 : world := Eval vm_compute in after demo4 (ECopy 11).
Definition demo6 : world := Eval vm_compute in after demo5 (ELink 11 21).
Definition demo7 : world := Eval vm_compute in after demo6 (EStart 11).
Definition demo8 : world := Eval vm_compute in after demo7 (ENewTty 30 false).
Definition demo9 : world := Eval vm_compute in after demo8 (EOpenTty 10 30).

Lemma demo1_reachable : reachable demo1.
Proof.
  apply (reach_step boot (ECreate None None 0 10)); [constructor | | done | by vm_compute]. simpl. by split_and!.
Qed.
Lemma demo2_reachable : reachable demo2.
Proof.
  apply (reach_step demo1 (EBuild 10 20)); [apply demo1_reachable | | done | by vm_compute]. split; [done |]. eexists. by split; [vm_compute |].
Qed.
Lemma demo3_reachable : reachable demo3.
Proof.
  apply (reach_step demo2 (ECreate (Some 10) (Some 10) 0 11)); [apply demo2_reachable | | done | by vm_compute].
  split_and!; try done. apply runs_running. by vm_compute.
Qed.
Lemma demo4_reachable : reachable demo4.
Proof.
  apply (reach_step demo3 (ENs 11 false false true 40)); [apply demo3_reachable | | done | by vm_compute].
  split; [done |]. eexists. split; [by vm_compute |]. split; [done |]. exists 10. by split.
Qed.
Lemma demo5_reachable : reachable demo5.
Proof.
  apply (reach_step demo4 (ECopy 11)); [apply demo4_reachable | | done | by vm_compute]. eexists. by split; [vm_compute |].
Qed.
Lemma demo6_reachable : reachable demo6.
Proof.
  apply (reach_step demo5 (ELink 11 21)); [apply demo5_reachable | | | by vm_compute].
  - split; [done |]. eexists. by split; [vm_compute |].
  - intros c x Hc. vm_compute in Hc. injection Hc as <-. simpl. intros [= <-]. eexists _, _. split; by vm_compute.
Qed.
Lemma demo7_reachable : reachable demo7.
Proof.
  apply (reach_step demo6 (EStart 11)); [apply demo6_reachable | | done | by vm_compute]. eexists. by split; [vm_compute |].
Qed.
Lemma demo8_reachable : reachable demo8.
Proof. apply (reach_step demo7 (ENewTty 30 false)); [apply demo7_reachable | done | done | by vm_compute]. Qed.
Lemma demo9_reachable : reachable demo9.
Proof.
  apply (reach_step demo8 (EOpenTty 10 30)); [apply demo8_reachable | | done | by vm_compute]. split; [| by eexists]. apply runs_running. by vm_compute.
Qed.

(** ** Nothing goes wrong *)



(** ** The lists are the processes *)



(** ** Group signals *)

(** A process with a thread left to take a signal. *)
Definition takes_signals (k : kernel) (x : tgroup) : Prop :=
  exists b t, b ∈ g_threads x /\ k_tasks k !! b = Some t /\ t_exiting t = false /\ t_zombie t = false /\ t_sighand t = true.

Lemma live_spec k x : tgroup_live_locked k x = true <-> takes_signals k x.
Proof.
  unfold tgroup_live_locked, takes_signals. rewrite existsb_exists. split.
  - intros (b & Hb & H). destruct (k_tasks k !! b) as [t |] eqn:E; [| done]. to_prop. exists b, t. split_and!; try done. by apply list_elem_of_In.
  - intros (b & t & Hb & Ht & E1 & E2 & E3). exists b. split; [by apply list_elem_of_In |]. by rewrite Ht, E1, E2, E3.
Qed.

Lemma live_threads k x : tgroup_live_locked k x = true -> exists a, a ∈ g_threads x.
Proof. unfold tgroup_live_locked. rewrite existsb_exists. intros (a & Ha & _). exists a. by apply list_elem_of_In. Qed.

Lemma live_process w g x : links_ok w -> k_groups (w_k w) !! g = Some x -> tgroup_live_locked (w_k w) x = true -> linked (w_k w) g.
Proof. intros Hok Hx Hl. destruct (live_threads _ x Hl) as [a Ha]. by destruct (po_threads _ _ (lk_procs _ Hok) g x a Hx Ha). Qed.

Lemma targets_spec w id a : links_ok w ->
  a ∈ group_targets (w_k w) id <-> exists g x, k_groups (w_k w) !! g = Some x /\ g_pgid x = id /\ tgroup_live_locked (w_k w) x = true /\ g_leader x = a.
Proof.
  intros Hok. unfold group_targets. rewrite list_elem_of_omap. fold (pg (w_k w) id). split.
  - intros (g & Hg & Hx). destruct (lo_pg _ (lk_lists _ Hok) id g Hg) as (x & Ex & Ei). rewrite Ex in Hx. simpl in Hx. destruct (tgroup_live_locked (w_k w) x) eqn:El; [| done]. injection Hx as <-. by exists g, x.
  - intros (g & x & Hx & <- & Hl & <-). exists g. split; [apply linked_at; [apply Hok | done | by apply (live_process w g x)] |]. rewrite Hx. simpl. by rewrite Hl.
Qed.

Lemma omap_nodup {A B} (f : A -> option B) l : NoDup l -> (forall x y z, f x = Some z -> f y = Some z -> x = y) -> NoDup (omap f l).
Proof.
  intros Hn Hf. induction Hn as [| x l Hx Hn IH]; simpl; [constructor |]. destruct (f x) as [z |] eqn:E; [| done]. constructor; [| done].
  intros Hz. apply list_elem_of_omap in Hz as (y & Hy & Ey). by rewrite (Hf x y z E Ey) in Hx.
Qed.

Lemma targets_nodup w id : links_ok w -> NoDup (group_targets (w_k w) id).
Proof.
  intros Hok. apply omap_nodup; [apply (lo_pg_nodup _ (lk_lists _ Hok)) |]. intros g h a Hg Hh.
  assert (forall g, (x ← k_groups (w_k w) !! g; if tgroup_live_locked (w_k w) x then Some (g_leader x) else None) = Some a -> exists t, k_tasks (w_k w) !! a = Some t /\ t_group t = g) as Hown.
  { intros i Hi. destruct (k_groups (w_k w) !! i) as [x |] eqn:Ex; [| done]. simpl in Hi. destruct (tgroup_live_locked (w_k w) x) eqn:El; [| done]. injection Hi as <-.
    destruct (po_leader _ _ (lk_procs _ Hok) i x Ex (live_process w i x Hok Ex El)) as (t & Ht & Eg & _). by exists t. }
  destruct (Hown g Hg) as (t & Ht & <-). destruct (Hown h Hh) as (s & Hs & <-). congruence.
Qed.

Lemma slot_of_number w pgid p : links_ok w -> in_s 32 pgid -> pid_get_global (w_k w) pgid = Some p -> p = pgid.
Proof.
  intros Hok Hs E. apply pid_get_global_spec in E as (Ep & Hp & He). pose proof (slot_range (w_k w) (w_clones w) p ltac:(by destruct w) He) as Hrp. subst p. unfold u32, wrap, in_s, MAX_PID in *. simpl in Hs.
  destruct (decide (0 <= pgid)); [apply Z.mod_small; lia |]. exfalso. rewrite <- (Z.mod_add pgid 1 (2 ^ 32)) in Hrp by lia. rewrite Z.mod_small in Hrp by lia. lia.
Qed.

Lemma no_slot_no_process w pgid : links_ok w -> pid_get_global (w_k w) pgid = None -> forall g x, process w g x -> g_pgid x <> pgid.
Proof.
  intros Hok E g x Hp <-. pose proof Hp as [Hx _]. apply (process_linked w g x Hok Hx) in Hp. pose proof (linked_at _ g x (lk_lists _ Hok) Hx Hp) as Hin.
  assert (pg (w_k w) (g_pgid x) <> []) as Hne by (apply not_nil_elem; eauto). rewrite (pid_get_global_found (w_k w) (g_pgid x)) in E; [done | apply (lo_range _ (lk_lists _ Hok)); by left |].
  apply pid_empty_false. by right; right.
Qed.



(** ** Orphaned process groups *)

(** The leader's parent is in another group of the session: it can resume the
    process. *)
Definition guarded (w : world) (pgid sid g : Z) (x : tgroup) : Prop :=
  exists lt p pt y, k_tasks (w_k w) !! g_leader x = Some lt /\ t_parent lt = Some p /\ k_tasks (w_k w) !! p = Some pt /\ t_group pt <> g /\
    k_groups (w_k w) !! t_group pt = Some y /\ g_pgid y <> pgid /\ g_sid y = sid.

Lemma linked_parent_group w g x p pt : links_ok w -> k_groups (w_k w) !! g = Some x -> linked (w_k w) g -> k_tasks (w_k w) !! p = Some pt -> is_Some (k_groups (w_k w) !! t_group pt).
Proof.
  intros [_ Hp _] Hx Hln Hpt. destruct (po_leader _ _ Hp g x Hx Hln) as (lt & Hlt & Eg & _). destruct (po_groups _ _ Hp p pt Hpt) as [H | H]; [done |].
  assert (g_leader x = p) as E by (apply H; by exists lt). assert (lt = pt) as -> by congruence. exists x. congruence.
Qed.

Lemma rescuer_spec w pgid sid g x : links_ok w -> k_groups (w_k w) !! g = Some x -> linked (w_k w) g ->
  exists b, rescuer (w_k w) pgid sid g = Some b /\ (b = true <-> guarded w pgid sid g x).
Proof.
  intros Hok Hx Hln. pose proof (lk_procs _ Hok) as Hp. destruct (po_leader _ _ Hp g x Hx Hln) as (lt & Hlt & Eg & _). unfold rescuer. rewrite Hx. cbn [mbind option_bind]. rewrite Hlt. cbn [mbind option_bind].
  destruct (t_parent lt) as [p |] eqn:Epa; [| exists false; split; [done |]; split; [done |]; intros (lt' & p & pt & y & ? & ? & _); congruence].
  destruct (po_parent _ _ Hp _ lt p Hlt Epa) as [pt Hpt]. rewrite Hpt. cbn [mbind option_bind].
  destruct (t_group pt =? g) eqn:Egg; to_prop; [exists false; split; [done |]; split; [done |]; intros (lt' & p' & pt' & y & ? & ? & ? & ? & _); congruence |].
  destruct (linked_parent_group w g x p pt Hok Hx Hln Hpt) as [y Hy]. rewrite Hy. cbn [mbind option_bind]. eexists. split; [done |]. rewrite andb_true_iff, negb_true_iff, Z.eqb_neq, Z.eqb_eq. split.
  - intros [H1 H2]. by exists lt, p, pt, y.
  - intros (lt' & p' & pt' & y' & ? & ? & ? & _ & ? & ? & ?). by simplify_eq.
Qed.

Lemma orphaned_in_spec w pgid sid l : links_ok w -> (forall g, g ∈ l -> linked (w_k w) g) ->
  exists b, orphaned_in (w_k w) pgid sid l = Some b /\ (b = true <-> forall g x, g ∈ l -> k_groups (w_k w) !! g = Some x -> ~ guarded w pgid sid g x).
Proof.
  intros Hok. induction l as [| g l IH]; intros Hl; simpl; [exists true; split; [done |]; split; [intros _ g x Hg; by apply not_elem_of_nil in Hg | done] |].
  destruct (linked_group _ g (lk_lists _ Hok) (Hl g ltac:(by left))) as [x Hx]. destruct (rescuer_spec w pgid sid g x Hok Hx (Hl g ltac:(by left))) as (r & -> & Hr). cbn [mbind option_bind].
  destruct r; [exists false; split; [done |]; split; [done |]; intros H; exfalso; apply (H g x); [by left | done | by apply Hr] |].
  destruct (IH ltac:(intros h Hh; apply Hl; by right)) as (b & -> & Hb). exists b. split; [done |]. rewrite Hb. split.
  - intros H h y Hh Hy. apply elem_of_cons in Hh as [-> | Hh]; [| by apply (H h)]. simplify_eq. intros Hg. by apply Hr in Hg.
  - intros H h y Hh. apply (H h). by right.
Qed.

(** Pgroup_is_orphaned, which walks a list under pids_lock, answers for the
    group what POSIX says: no process of it has its leader's parent in another
    group of the same session. *)
Theorem orphaned_is_unguarded (w : world) (pgid sid : Z) : reachable w -> in_s 32 pgid ->
  exists b, pgroup_is_orphaned (w_k w) pgid sid = Some b /\ (b = true <-> forall g x, process w g x -> g_pgid x = pgid -> ~ guarded w pgid sid g x).
Proof.
  intros Hr Hs. destruct (reachable_ok w Hr) as [Hok _]. unfold pgroup_is_orphaned. destruct (pid_get_global (w_k w) pgid) as [p |] eqn:E.
  - pose proof (slot_of_number w pgid p Hok Hs E) as ->. destruct (orphaned_in_spec w pgid sid (pg (w_k w) pgid) Hok) as (b & Eb & Hb); [intros g Hg; by exists pgid |].
    exists b. split; [done |]. rewrite Hb. split.
    + intros H g x Hp Eg. apply (H g x); [apply (member_pg w pgid g Hok); by exists x | apply Hp].
    + intros H g x Hg Hx. apply (member_pg w pgid g Hok) in Hg as (y & Hp & Ey). pose proof Hp as [Hy _]. simplify_eq. by apply (H g x).
  - exists true. split; [done |]. split; [| done]. intros _ g x Hp Eg. exfalso. by apply (no_slot_no_process w pgid Hok E g x).
Qed.

Lemma orphaned_is_unguarded_witness : exists b, pgroup_is_orphaned (w_k demo9) 1 1 = Some b /\
  (b = true <-> forall g x, process demo9 g x -> g_pgid x = 1 -> ~ guarded demo9 1 1 g x).
Proof. apply (orphaned_is_unguarded demo9 1 1 demo9_reachable). done. Defined.

(** ** Controlling terminals *)



(** ** The search for a pid *)

(** A pid a new task could have. *)
Definition spare (k : kernel) (id : Z) : Prop := 0 < id < task_pid_wrap k /\ pid_is_kthread id = false /\ pid_empty (pid_at k id) = true.

Definition next_pid (k : kernel) (last : Z) : Z := if last + 1 >=? task_pid_wrap k then 1 else last + 1.

Lemma alloc_step n k last : 0 <= last <= MAX_PID ->
  alloc_pid (S n) k last = if negb (pid_empty (pid_at k (next_pid k last))) || pid_is_kthread (next_pid k last) then alloc_pid n k (next_pid k last) else Some (next_pid k last).
Proof. intros Hl. cbn [alloc_pid]. rewrite u32_small by (unfold MAX_PID in *; lia). done. Qed.

Lemma next_pid_range k last : alloc_ok k -> 0 <= last <= MAX_PID -> 0 < next_pid k last < task_pid_wrap k /\ task_pid_wrap k <= MAX_PID.
Proof. intros [_ Hm] Hl. unfold next_pid, task_pid_wrap, MAX_PID in *. destruct (k_pid_max k <? 32768) eqn:E1; to_prop; destruct (_ >=? _) eqn:E2; to_prop; lia. Qed.

(** How many turns the search takes to come to [id]. *)
Definition turns_to (k : kernel) (id last : Z) : Z := if last <? id then id - last else if last <? task_pid_wrap k then task_pid_wrap k - 1 - last + id else id.

Lemma turns_next k id last : 0 < id < task_pid_wrap k -> 0 <= last -> next_pid k last <> id -> turns_to k id (next_pid k last) = turns_to k id last - 1.
Proof.
  intros Hi Hl. unfold turns_to, next_pid.
  destruct (last + 1 >=? task_pid_wrap k) eqn:E1; to_prop; intros Hne; destruct (last <? id) eqn:E2; to_prop; destruct (last <? task_pid_wrap k) eqn:E3; to_prop;
    (destruct (_ <? id) eqn:E4; to_prop; [| destruct (_ <? task_pid_wrap k) eqn:E5; to_prop]); lia.
Qed.

Lemma alloc_found k id : alloc_ok k -> spare k id -> forall n last, 0 <= last <= MAX_PID -> turns_to k id last <= Z.of_nat n -> exists id', alloc_pid n k last = Some id'.
Proof.
  intros Ha (Hi & Hk & He) n. induction n as [| n IH]; intros last Hl Ht.
  - exfalso. unfold turns_to in Ht. destruct (last <? id) eqn:E1; to_prop; [lia |]. destruct (last <? task_pid_wrap k) eqn:E2; to_prop; lia.
  - rewrite alloc_step by done. destruct (next_pid_range k last Ha Hl) as [Hr Hw]. destruct (_ || _) eqn:E; [| by eexists]. apply IH; [lia |].
    assert (next_pid k last <> id) as Hne by (intros E'; rewrite E', Hk, He in E; done). rewrite turns_next by (done || lia). lia.
Qed.

Lemma alloc_spare k n : alloc_ok k -> forall last id, 0 <= last <= MAX_PID -> alloc_pid n k last = Some id -> spare k id.
Proof.
  intros Ha. induction n as [| n IH]; intros last id Hl; [done |]. rewrite alloc_step by done. destruct (next_pid_range k last Ha Hl) as [Hr Hw].
  destruct (_ || _) eqn:E; [apply IH; lia |]. intros [= <-]. to_prop. done.
Qed.

(** Task_create_ finds a pid whenever there is one to find, within one turn
    of the numbers, and the pid is free; when there is none, its loop, which
    holds pids_lock, has no end. *)
Theorem pid_search_ends (w : world) : reachable w ->
  (forall spared, spare (w_k w) spared -> exists id, create_pid (w_k w) 0 = Some (inl id) /\ spare (w_k w) id) /\
  ((forall id, ~ spare (w_k w) id) -> forall turns, alloc_pid turns (w_k w) (k_last_allocated_pid (w_k w)) = None).
Proof.
  intros Hr. destruct (reachable_ok w Hr) as [Hok _]. pose proof (lk_alloc _ Hok) as Ha. pose proof Ha as [Hl _]. split.
  - intros spared Hs. destruct (alloc_found (w_k w) spared Ha Hs (Z.to_nat (task_pid_wrap (w_k w))) (k_last_allocated_pid (w_k w)) Hl) as [id E].
    { pose proof (proj1 Hs) as Hi. unfold turns_to. destruct (_ <? spared) eqn:E1; to_prop; [lia |]. destruct (_ <? task_pid_wrap _) eqn:E2; to_prop; lia. }
    exists id. unfold create_pid. cbn [Z.eqb negb]. rewrite E. split; [done |]. by apply (alloc_spare (w_k w) _ Ha _ id Hl) in E.
  - intros Hno n. destruct (alloc_pid n (w_k w) _) as [id |] eqn:E; [| done]. exfalso. by apply (Hno id), (alloc_spare (w_k w) n Ha _ id Hl).
Qed.

Lemma pid_search_ends_witness : exists id, create_pid (w_k demo9) 0 = Some (inl id) /\ spare (w_k demo9) id.
Proof. apply (proj1 (pid_search_ends demo9 demo9_reachable) 4). by vm_compute. Defined.
