(* ===== verification/ProcRaces.v ===== *)
(** * What can go wrong between processes

    Runs of the events of ProcWorld.v, each ready when it comes, that end in
    states the rest of the code does not expect: the races ProcStep.v sets
    aside, and the answers setsid and setpgid give that Linux does not. *)

From S2P Require Import Prelude Pids Groups Procs Ctty ProcWorld ProcLinks ProcSound ProcStep ProcClaims.

(** ** Runs whose events are ready *)

Definition staged (w : world) (b : Z) (f : clone -> bool) : bool := match w_clones w !! b with Some c => f c | None => false end.
Definition is_created (s : stage) : bool := match s with Created => true | _ => false end.
Definition is_numbered (s : stage) : bool := match s with Numbered => true | _ => false end.
Definition is_linked (s : stage) : bool := match s with Linked => true | _ => false end.
Definition given_up (s : stage) : bool := match s with Failing | NeverRan => true | _ => false end.
Definition is_failed (s : stage) : bool := match s with Failed => true | _ => false end.
Definition fits (v : Z) : bool := bool_decide (in_s 32 v).

(** Is this event, one of those the runs below are made of, ready? *)
Definition readyb (w : world) (e : event) : bool :=
  let k := w_k w in
  match e with
  | ECreate caller parent want b =>
      bool_decide (k_tasks k !! b = None) && bool_decide (w_clones w !! b = None) && fits want && bool_decide (is_Some (create_pid k want)) &&
      match caller with
      | Some a => runs w a && bool_decide (parent = Some a)
      | None => match parent with Some _ => false | None => bool_decide (k_tasks k = ∅) end
      end
  | ECloneParent b => staged w b (fun c => is_created (c_stage c) && bool_decide (is_Some (c_parent c)))
  | ENs b thread newpid _ n =>
      bool_decide (k_nss k !! n = None) &&
      staged w b (fun c => is_created (c_stage c) && match c_parent c with Some a => negb thread || (negb newpid && bool_decide (for_children w a = None)) | None => false end)
  | ECopy b => staged w b (fun c => is_numbered (c_stage c) && negb (c_thread c))
  | ELink b g => bool_decide (k_groups k !! g = None) && staged w b (fun c => match c_stage c with Copied _ => negb (c_thread c) | Numbered => c_thread c | _ => false end)
  | EFailEarly b => staged w b (fun c => early (c_stage c))
  | EFailLate b | EStart b | ENeverRan b => staged w b (fun c => is_linked (c_stage c))
  | EForget b => staged w b (fun c => given_up (c_stage c))
  | EDestroy b => staged w b (fun c => is_failed (c_stage c))
  | EBuild b g => bool_decide (k_groups k !! g = None) && staged w b (fun c => is_created (c_stage c) && bool_decide (c_parent c = None))
  | ESetpgid a id pgid => runs w a && fits id && fits pgid
  | ESetsid a => runs w a
  | EPidMax _ => true
  | _ => false
  end.

Lemma staged_at w b f (P : clone -> Prop) : staged w b f = true -> (forall c, f c = true -> P c) -> at_stage w b P.
Proof. unfold staged, at_stage. destruct (w_clones w !! b) as [c |]; [| done]. intros Hf HP. exists c. auto. Qed.

Lemma event_ready w e : readyb w e = true -> ready w e.
Proof.
  destruct e; simpl; unfold fits; try done; intros H; repeat match goal with H : _ && _ = true |- _ => apply andb_true_iff in H as [? ?] end;
    repeat match goal with H : bool_decide _ = true |- _ => apply bool_decide_eq_true in H end.
  - split_and!; try done; [by apply not_eq_None_Some |]. destruct caller as [a |]; [apply andb_true_iff in H0 as [? ?]; split; [by apply runs_running | by eapply bool_decide_eq_true_1] |].
    destruct parent; [done |]. by apply bool_decide_eq_true in H0.
  - apply (staged_at w b _ _ H). intros c Hc. apply andb_true_iff in Hc as [Hs Hp]. apply bool_decide_eq_true, not_eq_None_Some in Hp. split; [by destruct (c_stage c) | done].
  - split; [done |]. apply (staged_at w b _ _ H0). intros c Hc. apply andb_true_iff in Hc as [Hs Hp]. split; [by destruct (c_stage c) |]. destruct (c_parent c) as [a |]; [| done]. exists a. split; [done |].
    intros ->. simpl in Hp. apply andb_true_iff in Hp as [Hp1 Hp2]. apply negb_true_iff in Hp1. by apply bool_decide_eq_true in Hp2.
  - apply (staged_at w b _ _ H). intros c Hc. apply andb_true_iff in Hc as [Hs Hp]. apply negb_true_iff in Hp. split; [by destruct (c_stage c) | done].
  - split; [done |]. apply (staged_at w b _ _ H0). intros c Hc. destruct (c_stage c); try done. by apply negb_true_iff.
  - apply (staged_at w b _ _ H). intros c Hc. by destruct (c_stage c).
  - apply (staged_at w b _ _ H). intros c Hc. by destruct (c_stage c).
  - apply (staged_at w b _ _ H). intros c Hc. destruct (c_stage c); try done; [by left | by right].
  - apply (staged_at w b _ _ H). intros c Hc. by destruct (c_stage c).
  - apply (staged_at w b _ _ H). intros c Hc. by destruct (c_stage c).
  - apply (staged_at w b _ _ H). intros c Hc. by destruct (c_stage c).
  - split; [done |]. apply (staged_at w b _ _ H0). intros c Hc. apply andb_true_iff in Hc as [Hs Hp]. apply bool_decide_eq_true in Hp. split; [by destruct (c_stage c) | done].
  - split_and!; [by apply runs_running | done | done].
  - by apply runs_running.
Qed.

(** The worlds of any run at all. *)
Inductive occurs : world -> Prop :=
| occurs_boot : occurs boot
| occurs_step w e w' : occurs w -> ready w e -> step w e = Some w' -> occurs w'.

Fixpoint run_ready (w : world) (es : list event) : option world :=
  match es with
  | [] => Some w
  | e :: es => if readyb w e then w' ← step w e; run_ready w' es else None
  end.

Lemma run_ready_occurs es w w' : occurs w -> run_ready w es = Some w' -> occurs w'.
Proof.
  revert w. induction es as [| e es IH]; intros w Hw; simpl; [by intros [= <-] |]. destruct (readyb w e) eqn:E; [| done]. destruct (step w e) as [w1 |] eqn:Es; [| done]. simpl.
  apply IH. apply (occurs_step w e); [done | by apply event_ready | done].
Qed.

Definition fork (p c g : Z) : list event := [ECreate (Some p) (Some p) 0 c; ENs c false false true 40; ECopy c; ELink c g; EStart c].
Definition thread (p c : Z) : list event := [ECreate (Some p) (Some p) 0 c; ENs c true false true 40; ELink c 0; EStart c].
Definition init : list event := [ECreate None None 0 10; EBuild 10 20].

Definition group_ids (k : kernel) (g : Z) : option (Z * Z) := x ← k_groups k !! g; Some (g_pgid x, g_sid x).

(** ** setsid from a process whose pid still names a group

    A child makes a group of its own, forks into it, goes back to its parent's
    group and calls setsid.  Linux refuses, since a process group of that
    number exists; task_setsid looks only at the caller's own group.  The group
    is then in two sessions. *)
Theorem setsid_splits_group : exists w, occurs w /\
  p_pgroup (pid_at (w_k w) 3) = [21; 22] /\ group_ids (w_k w) 21 = Some (3, 3) /\ group_ids (w_k w) 22 = Some (3, 1).
Proof.
  eexists. split; [apply (run_ready_occurs (init ++ fork 10 11 21 ++ [ESetpgid 11 0 0] ++ fork 11 12 22 ++ [ESetpgid 11 0 1; ESetsid 11]) boot); [constructor | by vm_compute] |]. by vm_compute.
Qed.

(** ** setpgid while a child is being forked

    copy_task copies its parent's group and session, leaves the lock, and then
    links the child after its parent.  When the parent is moved between, the
    child is on the list of the new group and names the old one. *)
Theorem fork_misses_setpgid : exists w, occurs w /\
  p_pgroup (pid_at (w_k w) 1) = [20] /\ p_pgroup (pid_at (w_k w) 3) = [21; 22] /\ group_ids (w_k w) 22 = Some (1, 1).
Proof.
  eexists. split; [apply (run_ready_occurs (init ++ fork 10 11 21 ++ [ECreate (Some 11) (Some 11) 0 12; ENs 12 false false true 40; ECopy 12; ESetpgid 10 3 3; ELink 12 22; EStart 12]) boot); [constructor | by vm_compute] |].
  by vm_compute.
Qed.

(** ** setpgid(0, 0) from a thread

    The group is named by the thread's number, not by its process's. *)
Theorem thread_names_group : exists w, occurs w /\ p_task (pid_at (w_k w) 4) = Some 12 /\ leader_of (w_k w) 21 = Some 11 /\ group_ids (w_k w) 21 = Some (4, 1).
Proof.
  eexists. split; [apply (run_ready_occurs (init ++ fork 10 11 21 ++ thread 11 12 ++ [ESetpgid 12 0 0]) boot); [constructor | by vm_compute] |]. by vm_compute.
Qed.

(** ** setpgid on a child another thread forked *)
Theorem threads_child_refused : exists w, occurs w /\ is_Some (k_tasks (w_k w) !! 13) /\ sys_setpgid (w_k w) 11 5 5 = Some (_ESRCH, w_k w).
Proof.
  eexists. split; [apply (run_ready_occurs (init ++ fork 10 11 21 ++ thread 11 12 ++ fork 12 13 23) boot); [constructor | by vm_compute] |]. split; [by eexists | by vm_compute].
Qed.

(** ** setpgid on a clone that is being given up

    A CLONE_PARENT child is its maker's parent's, which may call setpgid on it
    while copy_task fails: the group it has left the lists with is linked again,
    and is then freed. *)
Theorem failed_clone_relinked : exists w, occurs w /\ p_pgroup (pid_at (w_k w) 4) = [22] /\ (x ← k_groups (w_k w) !! 22; Some (g_threads x)) = Some [] /\
  (c ← w_clones w !! 12; Some (c_stage c)) = Some Failing.
Proof.
  eexists. split; [apply (run_ready_occurs (init ++ fork 10 11 21 ++ [ECreate (Some 11) (Some 11) 0 12; ECloneParent 12; ENs 12 false false true 40; ECopy 12; ELink 12 22; EFailLate 12; ESetpgid 10 4 4]) boot); [constructor | by vm_compute] |].
  by vm_compute.
Qed.

(** ** A thread with CLONE_PARENT that never ran

    task_never_ran_destroy takes a task whose parent is in another thread group
    for a process, and takes the group of the process the thread was made in
    off its lists: no group signal reaches that process any more. *)
Theorem never_ran_unlinks_live : exists w, occurs w /\ (x ← k_groups (w_k w) !! 21; Some (g_pgid x, g_threads x)) = Some (1, [11]) /\
  p_pgroup (pid_at (w_k w) 1) = [20] /\ send_group_signal (w_k w) 1 = inr [10].
Proof.
  eexists. split; [apply (run_ready_occurs (init ++ fork 10 11 21 ++ [ECreate (Some 11) (Some 11) 0 12; ECloneParent 12; ENs 12 true false true 40; ELink 12 0; ENeverRan 12]) boot); [constructor | by vm_compute] |].
  by vm_compute.
Qed.

(** ** Two answers to one question

    A child of init that has made a group of its own is orphaned for the exit
    path, which does not count init, and not for the terminal's. *)
Theorem orphan_tests_disagree : exists w, occurs w /\ group_ids (w_k w) 21 = Some (3, 1) /\
  pgrp_is_orphaned_locked (w_k w) 3 None 1 = true /\ pgroup_is_orphaned (w_k w) 3 1 = Some false.
Proof.
  eexists. split; [apply (run_ready_occurs (init ++ fork 10 11 21 ++ [ESetpgid 11 0 0]) boot); [constructor | by vm_compute] |]. by vm_compute.
Qed.
