(* ===== verification/PidNums.v ===== *)
(** * The numbers of a pid namespace

    In each namespace the pids in use there have numbers that are all different,
    and the two tables that map one way and the other agree. *)

From S2P Require Import Prelude Pids Groups Procs Ctty ProcWorld ProcLinks ProcSound.

(** ** What the tables hold *)

Definition nr (k : kernel) (n id : Z) : Z := entry (n_nr_of (nss_at k n)) id.
Definition held (k : kernel) (n v : Z) : Z := entry (n_by_nr (nss_at k n)) v.
Definition nm (k : kernel) (id : Z) : option Z := p_numbered (pid_at k id).
Definition full (k : kernel) (id : Z) : Prop := pid_empty (pid_at k id) = false.

Lemma entry_insert m i v j : entry (<[i := v]> m) j = if decide (j = i) then v else entry m j.
Proof. unfold entry. destruct (decide (j = i)) as [-> |]; [by rewrite lookup_insert_eq | by rewrite lookup_insert_ne by congruence]. Qed.

Lemma nss_at_put k n x m : nss_at (put_ns k n x) m = if decide (m = n) then x else nss_at k m.
Proof. unfold nss_at. simpl. destruct (decide (m = n)) as [-> |]; [by rewrite lookup_insert_eq | by rewrite lookup_insert_ne by congruence]. Qed.

(** The tree of namespaces, and how deep each is. *)
Definition place (x : pid_namespace) : option Z * Z := (n_parent x, n_level x).
Definition same_tree (a b : gmap Z pid_namespace) : Prop := forall n, place <$> b !! n = place <$> a !! n.

#[export] Instance same_tree_refl : Reflexive same_tree.
Proof. by intros a n. Qed.
#[export] Instance same_tree_trans : Transitive same_tree.
Proof. intros a b c H1 H2 n. by rewrite H2. Qed.

Lemma tree_at a b n x : same_tree a b -> a !! n = Some x -> exists y, b !! n = Some y /\ n_parent y = n_parent x /\ n_level y = n_level x.
Proof. intros H Hx. specialize (H n). rewrite Hx in H. destruct (b !! n) as [y |]; [| done]. unfold place in H. simpl in H. injection H as E1 E2. by exists y. Qed.
Lemma tree_sym a b : same_tree a b -> same_tree b a.
Proof. intros H n. by rewrite H. Qed.
Lemma tree_some a b n : same_tree a b -> is_Some (b !! n) <-> is_Some (a !! n).
Proof. intros H. split; intros [x Hx]; [apply tree_sym in H |]; destruct (tree_at _ _ n x H Hx) as (y & Hy & _); by exists y. Qed.

Lemma ns_up_tree f a b from : same_tree a b -> ns_up f b from = ns_up f a from.
Proof.
  intros H. revert from. induction f as [| f IH]; intros from; [done |]. simpl. destruct from as [n |]; [| done].
  destruct (a !! n) as [x |] eqn:E; [destruct (tree_at a b n x H E) as (y & -> & -> & _); by rewrite IH |].
  destruct (b !! n) as [y |] eqn:E'; [| done]. destruct (tree_at b a n y (tree_sym _ _ H) E') as (x & Hx & _). congruence.
Qed.
Lemma ups_tree k k' from : same_tree (k_nss k) (k_nss k') -> ups k' from = ups k from.
Proof. apply ns_up_tree. Qed.

Lemma same_tree_put a n x y : a !! n = Some x -> n_parent y = n_parent x -> n_level y = n_level x -> same_tree a (<[n := y]> a).
Proof. intros Hx E1 E2 m. destruct (decide (m = n)) as [-> |]; [rewrite lookup_insert_eq, Hx; simpl; unfold place; congruence | by rewrite lookup_insert_ne by congruence]. Qed.

Lemma ns_up_some f a from n : n ∈ ns_up f a from -> is_Some (a !! n).
Proof.
  revert from. induction f as [| f IH]; intros from; simpl; [intros H; by apply not_elem_of_nil in H |]. destruct from as [m |]; [| intros H; by apply not_elem_of_nil in H].
  destruct (a !! m) as [x |] eqn:E; [| intros H; by apply not_elem_of_nil in H]. intros H. apply elem_of_cons in H as [-> | H]; [by exists x | by apply (IH (n_parent x))].
Qed.

(** ** The invariant *)

(** Namespaces hang off one another, to the depth pid_ns_new allows. *)
Definition tree_ok (a : gmap Z pid_namespace) : Prop :=
  forall n x, a !! n = Some x -> 1 <= n_level x <= PID_NS_MAX_LEVEL /\ forall p, n_parent x = Some p -> exists y, a !! p = Some y /\ n_level x = n_level y + 1.

Record nums_ok (k : kernel) : Prop := mk_nums {
  nu_tree : tree_ok (k_nss k);
  nu_last : forall n x, k_nss k !! n = Some x -> 0 <= n_last_nr x;
  nu_named : forall n id, nr k n id <> 0 -> 0 < nr k n id <= MAX_PID /\ exists m, nm k id = Some m /\ n ∈ ups k (Some m);
  nu_inv : forall n id, full k id -> nr k n id <> 0 -> held k n (nr k n id) = id;
  nu_all : forall id m n, nm k id = Some m -> n ∈ ups k (Some m) -> nr k n id <> 0;
  nu_ns : forall id m, nm k id = Some m -> id <= MAX_PID /\ is_Some (k_nss k !! m) }.

Lemma tree_keep a b : same_tree a b -> tree_ok a -> tree_ok b.
Proof.
  intros Ht H n x Hx. destruct (tree_at b a n x (tree_sym _ _ Ht) Hx) as (x0 & Hx0 & E1 & E2). destruct (H n x0 Hx0) as [Hr Hp]. rewrite <- E2, <- E1. split; [done |].
  intros p Hpp. destruct (Hp p Hpp) as (y & Hy & El). destruct (tree_at a b p y Ht Hy) as (y' & Hy' & _ & E). exists y'. split; [done | lia].
Qed.

(** Numbers as they were, in slots that hold no more than they did. *)
Record frozen (k k' : kernel) : Prop := mk_frozen {
  fz_nr : forall n j, nr k' n j = nr k n j;
  fz_held : forall n v, held k' n v = held k n v;
  fz_nm : forall j, nm k' j = nm k j;
  fz_tree : same_tree (k_nss k) (k_nss k');
  fz_last : forall n x, k_nss k' !! n = Some x -> 0 <= n_last_nr x \/ exists y, k_nss k !! n = Some y /\ n_last_nr x = n_last_nr y;
  fz_full : forall j, full k' j -> full k j }.

Lemma frozen_nums k k' : frozen k k' -> nums_ok k -> nums_ok k'.
Proof.
  intros F Hok. pose proof (fun m => ups_tree k k' (Some m) (fz_tree _ _ F)) as U. constructor.
  - apply (tree_keep (k_nss k)), Hok. apply (fz_tree _ _ F).
  - intros n x Hx. destruct (fz_last _ _ F n x Hx) as [H | (y & Hy & ->)]; [done | by apply (nu_last _ Hok n)].
  - intros n id. rewrite (fz_nr _ _ F), (fz_nm _ _ F). intros H. destruct (nu_named _ Hok n id H) as (Hr & m & Hm & Hin). split; [done |]. exists m. by rewrite U.
  - intros n id Hf. rewrite (fz_nr _ _ F), (fz_held _ _ F). by apply (nu_inv _ Hok), (fz_full _ _ F).
  - intros id m n. rewrite (fz_nr _ _ F), (fz_nm _ _ F), U. apply (nu_all _ Hok).
  - intros id m. rewrite (fz_nm _ _ F), (tree_some _ _ m (fz_tree _ _ F)). apply (nu_ns _ Hok).
Qed.

(** A slot that was not numbered comes into use. *)
Lemma filled_nums k k' id : nums_ok k -> nm k id = None -> k_nss k' = k_nss k -> (forall j, nm k' j = nm k j) -> (forall j, full k' j -> full k j \/ j = id) -> nums_ok k'.
Proof.
  intros Hok Hid En Hn Hf. assert (forall n j, nr k' n j = nr k n j) as N by (intros n j; unfold nr, nss_at; by rewrite En). assert (forall n v, held k' n v = held k n v) as H by (intros n v; unfold held, nss_at; by rewrite En).
  assert (forall from, ups k' from = ups k from) as U by (intros from; unfold ups; by rewrite En).
  constructor; rewrite ?En; try apply Hok; intros n j; rewrite ?N, ?H, ?Hn, ?U; try apply Hok.
  - setoid_rewrite U. apply (nu_named _ Hok).
  - intros Hj Hne. destruct (Hf j Hj) as [Hj' | ->]; [by apply (nu_inv _ Hok) |]. destruct (nu_named _ Hok n id Hne) as (_ & m & Hm & _). congruence.
  - intros m. rewrite N. apply (nu_all _ Hok).
Qed.

(** ** Taking a pid's numbers back *)

(** What both ns_unnumber and ns_undo do to one namespace. *)
Record cleared (id : Z) (x y : pid_namespace) : Prop := mk_cleared {
  cd_nr : forall j, entry (n_nr_of y) j = if decide (j = id) then 0 else entry (n_nr_of x) j;
  cd_by : forall v, entry (n_by_nr y) v = entry (n_by_nr x) v \/ (entry (n_by_nr x) v = id /\ entry (n_by_nr y) v = 0);
  cd_parent : n_parent y = n_parent x; cd_level : n_level y = n_level x; cd_last : n_last_nr y = n_last_nr x }.

Lemma cleared_with id x (b : bool) v : (b = true -> entry (n_by_nr x) v = id) ->
  cleared id x (set_nrs x (<[id := 0]> (n_nr_of x)) (if b then <[v := 0]> (n_by_nr x) else n_by_nr x)).
Proof.
  intros Hb. constructor; simpl; try done; [intros j; apply entry_insert |]. intros w. destruct b; [| by left]. rewrite entry_insert. destruct (decide (w = v)) as [-> |]; [right; auto | by left].
Qed.
Lemma unnumber_clears id x : cleared id x (ns_unnumber id x).
Proof. apply cleared_with. intros H. to_prop. lia. Qed.
Lemma undo_clears id x : cleared id x (ns_undo id x).
Proof. apply cleared_with. intros H. to_prop. lia. Qed.

(** One operation on each of a list of namespaces. *)
Record wiped (id : Z) (l : list Z) (k k' : kernel) : Prop := mk_wiped {
  wp_nr : forall n j, nr k' n j = if decide (j = id /\ n ∈ l) then 0 else nr k n j;
  wp_held : forall n v, held k' n v = held k n v \/ (held k n v = id /\ held k' n v = 0);
  wp_tree : same_tree (k_nss k) (k_nss k');
  wp_last : forall n x, k_nss k' !! n = Some x -> exists y, k_nss k !! n = Some y /\ n_last_nr x = n_last_nr y;
  wp_pids : k_pids k' = k_pids k }.

Lemma wipe_fold id (f : pid_namespace -> pid_namespace) l k : (forall x, cleared id x (f x)) ->
  wiped id l k (foldl (fun k n => match k_nss k !! n with Some x => put_ns k n (f x) | None => k end) k l).
Proof.
  intros Hf. revert k. induction l as [| n l IH]; intros k; simpl.
  { constructor; try done; [| by left | eauto]. intros n j. destruct (decide _) as [[_ H] |]; [by apply not_elem_of_nil in H | done]. }
  set (k1 := match k_nss k !! n with Some x => put_ns k n (f x) | None => k end). specialize (IH k1). set (k2 := foldl _ k1 l) in *. clearbody k2.
  assert (forall m j, nr k1 m j = if decide (j = id /\ m = n) then 0 else nr k m j) as N1.
  { intros m j. unfold nr, k1. destruct (k_nss k !! n) as [x |] eqn:E.
    - rewrite nss_at_put. destruct (decide (m = n)) as [-> |]; [| by destruct (decide _) as [[? ?] |]]. rewrite (cd_nr _ _ _ (Hf x)). unfold nss_at. rewrite E. simpl.
      destruct (decide (j = id)); [rewrite decide_True by done | rewrite decide_False by naive_solver]; done.
    - destruct (decide _) as [[-> ->] |]; [| done]. unfold nss_at. rewrite E. done. }
  assert (forall m v, held k1 m v = held k m v \/ (held k m v = id /\ held k1 m v = 0)) as H1.
  { intros m v. unfold held, k1. destruct (k_nss k !! n) as [x |] eqn:E; [| by left]. rewrite nss_at_put. destruct (decide (m = n)) as [-> |]; [| by left]. unfold nss_at. rewrite E. apply (cd_by _ _ _ (Hf x)). }
  constructor.
  - intros m j. rewrite (wp_nr _ _ _ _ IH), N1. repeat case_decide; try done; exfalso; set_solver.
  - intros m v. destruct (wp_held _ _ _ _ IH m v) as [-> | [E2 E3]]; [apply H1 |]. destruct (H1 m v) as [E1 | [E1 E4]]; [right; split; congruence | right; by split].
  - etrans; [| apply (wp_tree _ _ _ _ IH)]. unfold k1. destruct (k_nss k !! n) as [x |] eqn:E; [| done]. apply (same_tree_put _ n x); [done | apply (cd_parent _ _ _ (Hf x)) | apply (cd_level _ _ _ (Hf x))].
  - intros m x Hx. destruct (wp_last _ _ _ _ IH m x Hx) as (y & Hy & ->). unfold k1 in Hy. destruct (k_nss k !! n) as [z |] eqn:E; [| by exists y]. simpl in Hy.
    destruct (decide (m = n)) as [-> |]; [rewrite lookup_insert_eq in Hy; injection Hy as <-; exists z; split; [done | apply (cd_last _ _ _ (Hf z))] | rewrite lookup_insert_ne in Hy by congruence; by exists y].
  - rewrite (wp_pids _ _ _ _ IH). unfold k1. by destruct (k_nss k !! n).
Qed.

(** Only [id]'s numbers may be different. *)
Record renumbered (id : Z) (k k' : kernel) : Prop := mk_renumbered {
  rn_nr : forall n j, j <> id -> nr k' n j = nr k n j;
  rn_nm : forall j, j <> id -> nm k' j = nm k j;
  rn_tree : same_tree (k_nss k) (k_nss k');
  rn_last : forall n x, k_nss k' !! n = Some x -> 0 <= n_last_nr x;
  rn_held : forall n j, j <> id -> full k j -> nr k n j <> 0 -> held k' n (nr k n j) = j;
  rn_full : forall j, full k' j <-> full k j }.

(** It is enough to look at [id]. *)
Lemma renumbered_nums id k k' : nums_ok k -> renumbered id k k' ->
  (forall n, nr k' n id <> 0 -> 0 < nr k' n id <= MAX_PID /\ held k' n (nr k' n id) = id) ->
  (forall n, nr k' n id <> 0 <-> exists m, nm k' id = Some m /\ n ∈ ups k (Some m)) ->
  (forall m, nm k' id = Some m -> id <= MAX_PID /\ is_Some (k_nss k !! m)) -> nums_ok k'.
Proof.
  intros Hok R H1 H2 H3. pose proof (fun m => ups_tree k k' (Some m) (rn_tree _ _ _ R)) as U. constructor.
  - apply (tree_keep (k_nss k)), Hok. apply (rn_tree _ _ _ R).
  - apply (rn_last _ _ _ R).
  - intros n j Hne. destruct (decide (j = id)) as [-> | Hj].
    + split; [by apply H1 |]. apply H2 in Hne as (m & Hm & Hin). exists m. by rewrite U.
    + rewrite (rn_nr _ _ _ R n j Hj) in *. destruct (nu_named _ Hok n j Hne) as (Hr & m & Hm & Hin). split; [done |]. exists m. by rewrite (rn_nm _ _ _ R j Hj), U.
  - intros n j Hf Hne. destruct (decide (j = id)) as [-> | Hj]; [by apply H1 |]. rewrite (rn_nr _ _ _ R n j Hj) in *. apply (rn_held _ _ _ R); [done | | done]. by apply (rn_full _ _ _ R).
  - intros j m n Hm Hin. rewrite U in Hin. destruct (decide (j = id)) as [-> | Hj]; [apply H2; by exists m |]. rewrite (rn_nr _ _ _ R n j Hj). rewrite (rn_nm _ _ _ R j Hj) in Hm. by apply (nu_all _ Hok j m).
  - intros j m Hm. rewrite (tree_some _ _ m (rn_tree _ _ _ R)). destruct (decide (j = id)) as [-> | Hj]; [by apply H3 |]. rewrite (rn_nm _ _ _ R j Hj) in Hm. by apply (nu_ns _ Hok).
Qed.

Lemma full_view k k' id : same_view k k' -> full k' id <-> full k id.
Proof. intros V. unfold full. rewrite !pid_empty_false, (v_tk _ _ V), (v_sn _ _ V), (v_pg _ _ V). done. Qed.

Lemma nm_none k id n : nums_ok k -> nm k id = None -> nr k n id = 0.
Proof. intros Hok E. destruct (decide (nr k n id = 0)) as [| Hne]; [done |]. destruct (nu_named _ Hok n id Hne) as (_ & m & Hm & _). congruence. Qed.

Lemma renumbered_refl id k : nums_ok k -> renumbered id k k.
Proof. intros Hok. constructor; try done; [apply (nu_last _ Hok) | intros n j _; apply (nu_inv _ Hok)]. Qed.

(** Nothing is numbered above the table. *)
Lemma unnumber_spec k id : nums_ok k ->
  let k' := pid_ns_unnumber k id in nums_ok k' /\ renumbered id k k' /\ nm k' id = None.
Proof.
  intros Hok k'. pose proof (same_unnumber k id) as V. fold k' in V. unfold k', pid_ns_unnumber in *. destruct (id >? MAX_PID) eqn:E1.
  { split; [done |]. split; [by apply renumbered_refl |]. destruct (nm k id) as [m |] eqn:Em; [| done]. destruct (nu_ns _ Hok id m Em). to_prop. lia. }
  fold (nm k id) in *. destruct (nm k id) as [m |] eqn:Em; [| split; [done | split; [by apply renumbered_refl | done]]]. set (k0 := alter_pid k id _) in *.
  pose proof (wipe_fold id (ns_unnumber id) (ups k (Some m)) k0 (unnumber_clears id)) as W. fold (unnumber_in id) in W. set (k2 := foldl _ k0 _) in *.
  assert (forall j, nm k2 j = if decide (j = id) then None else nm k j) as Hnm.
  { intros j. unfold nm, pid_at. rewrite (wp_pids _ _ _ _ W). unfold k0, alter_pid. simpl. destruct (decide (j = id)) as [-> |]; [rewrite lookup_alter_eq; by destruct (k_pids k !! id) | by rewrite lookup_alter_ne by congruence]. }
  assert (nm k2 id = None) as Hid by by rewrite Hnm, decide_True.
  assert (forall n, nr k2 n id = 0) as Hz.
  { intros n. rewrite (wp_nr _ _ _ _ W). case_decide as Hc; [done |]. change (nr k n id = 0). destruct (decide (nr k n id = 0)) as [| Hne]; [done |]. destruct (nu_named _ Hok n id Hne) as (_ & m' & Hm' & Hin). simplify_eq. naive_solver. }
  assert (renumbered id k k2) as R.
  { constructor.
    - intros n j Hne. rewrite (wp_nr _ _ _ _ W). by rewrite decide_False by naive_solver.
    - intros j Hne. rewrite Hnm. by rewrite decide_False.
    - apply (wp_tree _ _ _ _ W).
    - intros n x Hx. destruct (wp_last _ _ _ _ W n x Hx) as (y & Hy & ->). by apply (nu_last _ Hok n).
    - intros n j Hj Hf Hne. pose proof (nu_inv _ Hok n j Hf Hne) as E. destruct (wp_held _ _ _ _ W n (nr k n j)) as [E' | [E' _]]; change (held k0 n (nr k n j)) with (held k n (nr k n j)) in E'; congruence.
    - intros j. by apply full_view. }
  split; [| done]. apply (renumbered_nums id k k2 Hok R); [intros n; by rewrite Hz | | by rewrite Hid]. intros n. rewrite Hz, Hid. split; [done | by intros (? & ? & _)].
Qed.

(** ** Giving a pid its numbers *)

(** The number chosen is not one a pid in use has. *)
Lemma next_nr_from_spec tries pids limit x v x' : limit <= MAX_PID -> 0 <= n_last_nr x -> next_nr_from tries pids limit x = (v, x') ->
  (exists l, x' = set_last_nr x l /\ 0 <= l) /\
  (v <> 0 -> 0 < v <= MAX_PID /\ forall j, j <> 0 -> entry (n_by_nr x) v = j -> entry (n_nr_of x) j = v -> pid_empty (pids j) = true).
Proof.
  intros Hlim. revert x. induction tries as [| tries IH]; intros x Hl; cbn [next_nr_from]; [intros [= <- <-]; split; [exists (n_last_nr x); by destruct x | done] |].
  set (w := if n_last_nr x + 1 >=? limit then 1 else n_last_nr x + 1). assert (0 < w <= MAX_PID) as Hw by (unfold w, MAX_PID in *; destruct (_ >=? _) eqn:E; to_prop; lia).
  destruct (_ || _) eqn:E; intros Er.
  - injection Er as <- <-. split; [exists w; split; [done | lia] |]. intros _. split; [done |]. intros j Hj Hby Hnr. simpl in E. rewrite Hby, Hnr, Z.eqb_refl in E. destruct (j =? 0) eqn:E0; [to_prop; lia |]. done.
  - destruct (IH (set_last_nr x w) ltac:(simpl; lia) Er) as [(l & -> & Hl') H]. split; [by exists l | done].
Qed.

Section Number.
Context (k : kernel) (id : Z) (Hok : nums_ok k) (Hnone : nm k id = None) (Hpos : forall j, full k j -> j <> 0).

(** Part of the way through pid_ns_number_task: [id] has a number in [dones]. *)
Record midway (dones : list Z) (k1 : kernel) : Prop := mk_midway {
  mw_nr : forall n j, j <> id -> nr k1 n j = nr k n j;
  mw_out : forall n, n ∉ dones -> nr k1 n id = 0;
  mw_in : forall n, n ∈ dones -> 0 < nr k1 n id <= MAX_PID /\ held k1 n (nr k1 n id) = id;
  mw_held : forall n j, j <> id -> full k j -> nr k n j <> 0 -> held k1 n (nr k n j) = j;
  mw_tree : same_tree (k_nss k) (k_nss k1);
  mw_last : forall n x, k_nss k1 !! n = Some x -> 0 <= n_last_nr x;
  mw_pids : k_pids k1 = k_pids k }.

Lemma midway_start : midway [] k.
Proof. constructor; try done; [intros n _; by apply nm_none | intros n Hn; by apply not_elem_of_nil in Hn | intros n j _; apply (nu_inv _ Hok) | apply (nu_last _ Hok)]. Qed.

Lemma midway_on dones k1 n x v x' : midway dones k1 -> n ∉ dones -> k_nss k1 !! n = Some x -> pid_ns_next_nr k1 x = (v, x') -> v <> 0 ->
  midway (dones ++ [n]) (put_ns k1 n (set_nrs x' (<[id := v]> (n_nr_of x')) (<[v := id]> (n_by_nr x')))).
Proof.
  clear Hok Hnone. intros M Hn Hx Ev Hv. unfold pid_ns_next_nr in Ev. apply next_nr_from_spec in Ev as [(l & -> & Hl) H]; [| unfold task_pid_wrap; destruct (_ <? _) eqn:E; to_prop; unfold MAX_PID in *; lia | by apply (mw_last _ _ M n)].
  destruct (H Hv) as [Hr Hfree]. set (k2 := put_ns k1 n _).
  assert (forall m j, nr k2 m j = if decide (m = n /\ j = id) then v else nr k1 m j) as N2.
  { intros m j. unfold nr, k2. rewrite nss_at_put. destruct (decide (m = n)) as [-> |]; [| by rewrite decide_False by naive_solver]. simpl. rewrite entry_insert. unfold nss_at. rewrite Hx. simpl.
    destruct (decide (j = id)); [by rewrite decide_True | by rewrite decide_False by naive_solver]. }
  assert (forall m w, held k2 m w = if decide (m = n /\ w = v) then id else held k1 m w) as H2.
  { intros m w. unfold held, k2. rewrite nss_at_put. destruct (decide (m = n)) as [-> |]; [| by rewrite decide_False by naive_solver]. simpl. rewrite entry_insert. unfold nss_at. rewrite Hx. simpl.
    destruct (decide (w = v)); [by rewrite decide_True | by rewrite decide_False by naive_solver]. }
  constructor.
  - intros m j Hj. rewrite N2, decide_False by naive_solver. by apply (mw_nr _ _ M).
  - intros m Hm. rewrite N2, decide_False by set_solver. apply (mw_out _ _ M). set_solver.
  - intros m Hm. destruct (decide (m = n)) as [-> |]; [rewrite N2, decide_True by done; rewrite H2, decide_True by done; done |].
    rewrite N2, decide_False by naive_solver. rewrite H2, decide_False by naive_solver. apply (mw_in _ _ M). set_solver.
  - intros m j Hj Hf Hne. pose proof (mw_held _ _ M m j Hj Hf Hne) as E. rewrite H2. destruct (decide (m = n /\ nr k m j = v)) as [[-> Ew] |]; [| done]. exfalso.
    assert (pid_empty (pid_at k1 j) = true) as He.
    { apply Hfree; [by apply Hpos | | ]; [unfold held, nss_at in E; rewrite Hx in E; simpl in E; by rewrite <- Ew |]. rewrite <- (mw_nr _ _ M n j Hj) in Ew. unfold nr, nss_at in Ew. rewrite Hx in Ew. done. }
    unfold pid_at in He. rewrite (mw_pids _ _ M) in He. unfold full, pid_at in Hf. congruence.
  - etrans; [apply (mw_tree _ _ M) |]. by apply (same_tree_put _ n x).
  - intros m y Hy. unfold k2 in Hy. simpl in Hy. destruct (decide (m = n)) as [-> |]; [rewrite lookup_insert_eq in Hy; by injection Hy as <- | rewrite lookup_insert_ne in Hy by congruence; by apply (mw_last _ _ M m)].
  - apply (mw_pids _ _ M).
Qed.

(** A namespace that has no number left undoes what was done. *)
Lemma midway_undo dones k1 n x v x' : midway dones k1 -> k_nss k1 !! n = Some x -> pid_ns_next_nr k1 x = (v, x') ->
  midway [] (foldl (fun k d => match k_nss k !! d with Some y => put_ns k d (ns_undo id y) | None => k end) (put_ns k1 n x') dones).
Proof.
  clear Hok Hnone Hpos. intros M Hx Ev. unfold pid_ns_next_nr in Ev. apply next_nr_from_spec in Ev as [(l & -> & Hl) _]; [| unfold task_pid_wrap; destruct (_ <? _) eqn:E; to_prop; unfold MAX_PID in *; lia | by apply (mw_last _ _ M n)].
  pose proof (wipe_fold id (ns_undo id) dones (put_ns k1 n (set_last_nr x l)) (undo_clears id)) as W. set (k2 := put_ns k1 n _) in *. set (k3 := foldl _ k2 dones) in *. clearbody k3.
  assert (forall m, n_nr_of (nss_at k2 m) = n_nr_of (nss_at k1 m) /\ n_by_nr (nss_at k2 m) = n_by_nr (nss_at k1 m)) as E2.
  { intros m. unfold k2. rewrite nss_at_put. destruct (decide (m = n)) as [-> |]; [| done]. unfold nss_at. by rewrite Hx. }
  assert (forall m j, nr k2 m j = nr k1 m j) as N2 by (intros m j; unfold nr; by destruct (E2 m) as [-> _]). assert (forall m w, held k2 m w = held k1 m w) as H2 by (intros m w; unfold held; by destruct (E2 m) as [_ ->]).
  constructor.
  - intros m j Hj. rewrite (wp_nr _ _ _ _ W), decide_False by naive_solver. rewrite N2. by apply (mw_nr _ _ M).
  - intros m _. rewrite (wp_nr _ _ _ _ W). case_decide as Hc; [done |]. rewrite N2. apply (mw_out _ _ M). naive_solver.
  - intros m Hm. by apply not_elem_of_nil in Hm.
  - intros m j Hj Hf Hne. pose proof (mw_held _ _ M m j Hj Hf Hne) as E. destruct (wp_held _ _ _ _ W m (nr k m j)) as [E' | [E' _]]; rewrite H2 in E'; congruence.
  - etrans; [apply (mw_tree _ _ M) |]. etrans; [| apply (wp_tree _ _ _ _ W)]. by apply (same_tree_put _ n x).
  - intros m y Hy. destruct (wp_last _ _ _ _ W m y Hy) as (z & Hz & ->). unfold k2 in Hz. simpl in Hz. destruct (decide (m = n)) as [-> |]; [rewrite lookup_insert_eq in Hz; by injection Hz as <- | rewrite lookup_insert_ne in Hz by congruence; by apply (mw_last _ _ M m)].
  - rewrite (wp_pids _ _ _ _ W). apply (mw_pids _ _ M).
Qed.

Lemma number_in_spec todo : forall dones k1, midway dones k1 -> NoDup (dones ++ todo) -> (forall n, n ∈ todo -> is_Some (k_nss k !! n)) ->
  exists err k2, number_in k1 id dones todo = (err, k2) /\ ((err = _EAGAIN /\ midway [] k2) \/ (err = 0 /\ midway (dones ++ todo) k2)).
Proof.
  induction todo as [| n todo IH]; intros dones k1 M Hd Hs; simpl; [exists 0, k1; rewrite app_nil_r; auto |].
  destruct (proj2 (tree_some _ _ n (mw_tree _ _ M)) (Hs n ltac:(by left))) as [x Hx]. rewrite Hx. destruct (pid_ns_next_nr k1 x) as [v x'] eqn:Ev. destruct (v =? 0) eqn:E0.
  - eexists _, _. split; [done |]. left. split; [done |]. by apply (midway_undo dones k1 n x v).
  - to_prop. assert (n ∉ dones) as Hn by (apply NoDup_app in Hd as (_ & Hd & _); intros H; apply (Hd n H); by left).
    destruct (IH (dones ++ [n]) _ (midway_on dones k1 n x v x' M Hn Hx Ev E0)) as (err & k2 & -> & H); [by rewrite <- app_assoc | intros m Hm; apply Hs; by right |].
    rewrite <- app_assoc in H. by exists err, k2.
Qed.

Lemma midway_renumbered dones k1 k2 : midway dones k1 -> k_nss k2 = k_nss k1 -> (forall j, j <> id -> nm k2 j = nm k j) -> (forall j, full k2 j <-> full k j) -> renumbered id k k2.
Proof.
  intros M E Hn Hf. assert (forall n j, nr k2 n j = nr k1 n j) as N by (intros n j; unfold nr, nss_at; by rewrite E). assert (forall n v, held k2 n v = held k1 n v) as H by (intros n v; unfold held, nss_at; by rewrite E).
  constructor; try done; [intros n j; rewrite N; apply (mw_nr _ _ M) | rewrite E; apply (mw_tree _ _ M) | rewrite E; apply (mw_last _ _ M) | intros n j; rewrite H; apply (mw_held _ _ M)].
Qed.
End Number.

(** ** The walk up the namespaces *)

(** Levels go down on the way up. *)
Lemma ns_up_level f a n x m : tree_ok a -> a !! n = Some x -> m ∈ ns_up f a (n_parent x) -> exists y, a !! m = Some y /\ n_level y < n_level x.
Proof.
  intros Ht. revert n x. induction f as [| f IH]; intros n x Hx; simpl; [intros H; by apply not_elem_of_nil in H |].
  destruct (n_parent x) as [p |] eqn:Ep; [| intros H; by apply not_elem_of_nil in H]. destruct (proj2 (Ht n x Hx) p Ep) as (y & Hy & El). rewrite Hy.
  intros H. apply elem_of_cons in H as [-> | H]; [exists y; split; [done | lia] |]. destruct (IH p y Hy H) as (z & Hz & Hl). exists z. split; [done | lia].
Qed.

Lemma ns_up_nodup f a from : tree_ok a -> NoDup (ns_up f a from).
Proof.
  intros Ht. revert from. induction f as [| f IH]; intros from; simpl; [constructor |]. destruct from as [n |]; [| constructor]. destruct (a !! n) as [x |] eqn:Ex; [| constructor]. constructor; [| apply IH].
  intros H. destruct (ns_up_level f a n x n Ht Ex H) as (y & Hy & Hl). assert (y = x) as -> by congruence. lia.
Qed.

(** The fuel is enough: pid_ns_in finds what the walk meets. *)
Lemma in_from_up f a from v : pid_ns_in_from (S f) a from (Some v) = true -> is_Some (a !! v) -> v ∈ ns_up (S f) a from.
Proof.
  revert from. induction f as [| f IH]; intros from; cbn [pid_ns_in_from ns_up]; (destruct (decide (from = Some v)) as [-> | _]; [intros _ [x ->]; by left |]); (destruct from as [n |]; [| done]); (destruct (a !! n) as [x |]; [| done]); [done |].
  intros H Hv. right. by apply IH.
Qed.
Lemma up_in_from f a from v : v ∈ ns_up f a from -> pid_ns_in_from f a from (Some v) = true.
Proof.
  revert from. induction f as [| f IH]; intros from; cbn [pid_ns_in_from ns_up]; [intros H; by apply not_elem_of_nil in H |]. destruct (decide (from = Some v)) as [| Hne]; [done |].
  destruct from as [n |]; [| intros H; by apply not_elem_of_nil in H]. destruct (a !! n) as [x |]; [| intros H; by apply not_elem_of_nil in H]. intros H. apply elem_of_cons in H as [-> | H]; [done | by apply IH].
Qed.

Lemma up_short f a from : tree_ok a -> (forall n x, from = Some n -> a !! n = Some x -> n_level x <= Z.of_nat f) -> ns_up (S f) a from = ns_up f a from.
Proof.
  intros Ht. revert from. induction f as [| f IH]; intros from Hl.
  { simpl. destruct from as [n |]; [| done]. destruct (a !! n) as [x |] eqn:E; [| done]. destruct (Ht n x E) as [Hr _]. specialize (Hl n x eq_refl E). lia. }
  cbn [ns_up]. destruct from as [n |]; [| done]. destruct (a !! n) as [x |] eqn:E; [| done]. f_equal. apply (IH (n_parent x)).
  intros p y Hp Hy. destruct (proj2 (Ht n x E) p Hp) as (z & Hz & El). specialize (Hl n x eq_refl E). assert (z = y) as -> by congruence. lia.
Qed.

Lemma pid_ns_in_ups k from v : nums_ok k -> is_Some (k_nss k !! v) -> pid_ns_in k from (Some v) = true <-> v ∈ ups k from.
Proof.
  intros Hok Hv. assert (ns_up (S ns_fuel) (k_nss k) from = ups k from) as E.
  { apply up_short; [apply Hok |]. intros n x _ Hx. destruct (nu_tree _ Hok n x Hx) as [Hr _]. unfold PID_NS_MAX_LEVEL, ns_fuel in *. lia. }
  unfold pid_ns_in. split; [intros H; rewrite <- E; by apply in_from_up | rewrite <- E; apply up_in_from].
Qed.

(** ** pid_ns_number_task and pid_ns_new *)

Lemma number_task_spec k id m b : nums_ok k -> (forall j, full k j -> 0 < j <= MAX_PID) -> tk k id = Some b -> is_Some (k_nss k !! m) ->
  exists err k', pid_ns_number_task k id (Some m) = (err, k') /\ nums_ok k' /\ renumbered id k k' /\
    ((err = 0 /\ nm k' id = Some m) \/ (err < 0 /\ nm k' id = None)).
Proof.
  intros Hok Hpos Hk Hm. assert (0 < id <= MAX_PID) as Hr by (apply Hpos; by apply (tk_not_empty k id b)). unfold pid_ns_number_task. assert (u32 id = id) as -> by (unfold MAX_PID in *; apply u32_small; lia).
  destruct (id >? MAX_PID) eqn:Eid; [to_prop; lia |]. destruct (unnumber_spec k id Hok) as (Hok0 & R0 & Hn0). set (k0 := pid_ns_unnumber k id) in *.
  pose proof (same_unnumber k id) as V0. fold k0 in V0. assert (forall j, full k0 j -> j <> 0) as Hpos0 by (intros j Hf; apply (rn_full _ _ _ R0), Hpos in Hf; lia).
  assert (is_Some (k_nss k0 !! m)) as Hm0 by by apply (tree_some _ _ m (rn_tree _ _ _ R0)).
  destruct (number_in_spec k0 id Hpos0 (ups k0 (Some m)) [] k0 (midway_start k0 id Hok0 Hn0)) as (err & k1 & E & Hcase); [apply ns_up_nodup, Hok0 | apply ns_up_some |].
  pose proof (same_number_in k0 id [] (ups k0 (Some m))) as V1. rewrite E in V1 |- *. simpl in V1.
  assert (forall k2, renumbered id k0 k2 -> renumbered id k k2) as Rt.
  { intros k2 R2. constructor.
    - intros n j Hj. by rewrite (rn_nr _ _ _ R2), (rn_nr _ _ _ R0).
    - intros j Hj. by rewrite (rn_nm _ _ _ R2), (rn_nm _ _ _ R0).
    - etrans; [apply (rn_tree _ _ _ R0) | apply (rn_tree _ _ _ R2)].
    - apply (rn_last _ _ _ R2).
    - intros n j Hj Hf Hne. rewrite <- (rn_nr _ _ _ R0 n j Hj) in *. apply (rn_held _ _ _ R2); [done | by apply (rn_full _ _ _ R0) | done].
    - intros j. by rewrite (rn_full _ _ _ R2), (rn_full _ _ _ R0). }
  assert (forall dones, midway k0 id dones k1 -> forall j, nm k1 j = nm k0 j) as Hnm by (intros dones M j; unfold nm, pid_at; by rewrite (mw_pids _ _ _ _ M)).
  destruct Hcase as [[-> M] | [-> M]]; cbn [app] in M.
  - eexists _, _. split; [done |]. assert (renumbered id k0 k1) as R1 by (apply (midway_renumbered k0 id [] k1 k1 M); [done | intros j _; by apply (Hnm []) | intros j; by apply full_view]).
    split; [| split; [by apply Rt | right; split; [done | by rewrite (Hnm [] M)]]]. pose proof (fun n => mw_out _ _ _ _ M n (not_elem_of_nil n)) as Hz.
    apply (renumbered_nums id k0 k1 Hok0 R1); [intros n; by rewrite Hz | | by rewrite (Hnm [] M), Hn0]. intros n. rewrite Hz, (Hnm [] M), Hn0. split; [done | by intros (? & ? & _)].
  - eexists _, _. split; [done |]. set (k2 := alter_pid k1 id _). assert (same_view k1 k2) as V2 by apply same_numbered.
    assert (is_Some (k_pids k1 !! id)) as Hs by (apply (tk_some _ _ b); by rewrite (v_tk _ _ V1), (v_tk _ _ V0)).
    assert (forall j, nm k2 j = if decide (j = id) then Some m else nm k0 j) as Hnm2.
    { intros j. unfold nm, k2. rewrite pid_at_alter by done. destruct (decide (j = id)); [done |]. apply (Hnm _ M). }
    assert (renumbered id k0 k2) as R2 by (apply (midway_renumbered k0 id _ k1 k2 M); [done | intros j Hj; by rewrite Hnm2, decide_False | intros j; apply full_view; by etrans]).
    assert (nm k2 id = Some m) as Hid by by rewrite Hnm2, decide_True.
    split; [| split; [by apply Rt | left; done]].
    apply (renumbered_nums id k0 k2 Hok0 R2).
    + intros n Hne. destruct (decide (n ∈ ups k0 (Some m))) as [Hin | Hin]; [apply (mw_in _ _ _ _ M n Hin) | by destruct Hne; apply (mw_out _ _ _ _ M)].
    + intros n. change (nr k2 n id) with (nr k1 n id). rewrite Hid. split.
      * intros Hne. exists m. split; [done |]. destruct (decide (n ∈ ups k0 (Some m))) as [Hin | Hin]; [done | by destruct Hne; apply (mw_out _ _ _ _ M)].
      * intros (m' & [= <-] & Hin). destruct (mw_in _ _ _ _ M n Hin) as [H _]. lia.
    + rewrite Hid. intros m' [= <-]. split; [lia | done].
Qed.

(** A new namespace is a leaf: no walk that was there meets it. *)
Lemma new_ns_nums k parent mem a n k' : nums_ok k -> k_nss k !! a = None -> match parent with Some p => is_Some (k_nss k !! p) | None => True end ->
  pid_ns_new k parent mem a = (inl n, k') -> nums_ok k' /\ n = a /\ is_Some (k_nss k' !! a) /\ (forall m, is_Some (k_nss k !! m) -> is_Some (k_nss k' !! m)) /\ k_pids k' = k_pids k /\ k_tasks k' = k_tasks k /\ k_groups k' = k_groups k.
Proof.
  intros Hok Ha Hp. unfold pid_ns_new. set (level := match parent with Some p => _ | None => _ end). destruct (_ && _) eqn:El; [done |]. destruct mem; [| done]. simpl. intros [= <- <-].
  set (x := mk_ns _ _ _ _ _ _ _). set (k' := put_ns k a x).
  assert (forall m y, k_nss k !! m = Some y -> k_nss k' !! m = Some y) as Hold by (intros m y Hy; simpl; rewrite lookup_insert_ne by congruence; done).
  assert (forall m j, nr k' m j = nr k m j) as N.
  { intros m j. unfold nr, k'. rewrite nss_at_put. destruct (decide (m = a)) as [-> |]; [| done]. unfold nss_at. by rewrite Ha. }
  assert (forall m v, held k' m v = held k m v) as H.
  { intros m v. unfold held, k'. rewrite nss_at_put. destruct (decide (m = a)) as [-> |]; [| done]. unfold nss_at. by rewrite Ha. }
  assert (forall f from, match from with Some m => is_Some (k_nss k !! m) | None => True end -> ns_up f (k_nss k') from = ns_up f (k_nss k) from) as U.
  { induction f as [| f IH]; intros from Hf; [done |]. cbn [ns_up]. destruct from as [m |]; [| done]. destruct Hf as [y Hy]. rewrite (Hold m y Hy), Hy. f_equal. apply IH. destruct (n_parent y) as [p |] eqn:Ep; [| done].
    destruct (proj2 (nu_tree _ Hok m y Hy) p Ep) as (z & Hz & _). by exists z. }
  assert (forall q, is_Some (k_nss k !! q) -> ups k' (Some q) = ups k (Some q)) as U2 by (intros q Hq; by apply (U ns_fuel (Some q))).
  split_and!; try done; [| simpl; rewrite lookup_insert_eq; by eexists | intros m [y Hy]; exists y; by apply Hold]. constructor.
  - intros m y Hy. simpl in Hy. destruct (decide (m = a)) as [-> | Hne].
    + rewrite lookup_insert_eq in Hy. injection Hy as <-. simpl. destruct parent as [p |]; [| unfold PID_NS_MAX_LEVEL; split; [lia | done]]. destruct Hp as [z Hz].
      unfold level in *. rewrite Hz in *. simpl in El. destruct (nu_tree _ Hok p z Hz) as [Hr _]. to_prop. split; [lia |]. intros q [= <-]. exists z. split; [by apply Hold | done].
    + rewrite lookup_insert_ne in Hy by congruence. destruct (nu_tree _ Hok m y Hy) as [Hr Hpp]. split; [done |]. intros p Ep. destruct (Hpp p Ep) as (z & Hz & E). exists z. split; [by apply Hold | done].
  - intros m y Hy. simpl in Hy. destruct (decide (m = a)) as [-> | Hne]; [rewrite lookup_insert_eq in Hy; by injection Hy as <- | rewrite lookup_insert_ne in Hy by congruence; by apply (nu_last _ Hok m)].
  - intros m id. rewrite N. intros Hne. destruct (nu_named _ Hok m id Hne) as (Hr & q & Hq & Hin). split; [done |]. exists q. split; [done |]. rewrite U2; [done |]. by destruct (nu_ns _ Hok id q Hq).
  - intros m id Hf. rewrite N, H. by apply (nu_inv _ Hok).
  - intros id q m Hq. rewrite N, U2; [apply (nu_all _ Hok id q m Hq) | by destruct (nu_ns _ Hok id q Hq)].
  - intros id q Hq. destruct (nu_ns _ Hok id q Hq) as [Hr [y Hy]]. split; [done |]. exists y. by apply Hold.
Qed.
