(* ===== verification/PidSeen.v ===== *)
(** * The numbers over every run

    Every event of ProcWorld.v keeps the tables of the pid namespaces
    ([nums_ok], PidNums.v) and, but for one more race, has each task known by
    numbers of its own namespace and those above it. *)

From S2P Require Import Prelude Pids Groups Procs Ctty ProcWorld ProcLinks ProcSound ProcLeave ProcTty ProcEnter ProcStep PidNums.

(** ** Changes that leave the numbers of what stays *)

Record kin (k' : kernel) (t t' : task) : Prop := mk_kin {
  kn_pid : t_pid t' = t_pid t; kn_group : t_group t' = t_group t; kn_ns : t_pid_ns t' = t_pid_ns t;
  kn_children : forall m, t_pid_ns_for_children t' = Some m -> is_Some (k_nss k' !! m) \/ t_pid_ns_for_children t = Some m }.

Record eased (k k' : kernel) : Prop := mk_eased {
  ea_nums : nums_ok k -> nums_ok k';
  ea_nm : forall j, tk k' j <> None -> nm k' j = nm k j;
  ea_tk : forall j a, tk k' j = Some a -> tk k j = Some a;
  ea_ns : forall n, is_Some (k_nss k !! n) -> is_Some (k_nss k' !! n);
  ea_tasks : forall a t', k_tasks k' !! a = Some t' -> exists t, k_tasks k !! a = Some t /\ kin k' t t';
  ea_groups : forall g y, k_groups k' !! g = Some y -> exists x, k_groups k !! g = Some x /\ g_leader y = g_leader x /\ forall a, a ∈ g_threads y -> a ∈ g_threads x }.

Lemma kin_refl k t : kin k t t.
Proof. constructor; auto. Qed.
#[export] Hint Resolve kin_refl : procs.

#[export] Instance eased_refl : Reflexive eased.
Proof. intros k. constructor; eauto with procs. Qed.
#[export] Instance eased_trans : Transitive eased.
Proof.
  intros a b c H1 H2. constructor.
  - intros H. by apply (ea_nums _ _ H2), (ea_nums _ _ H1).
  - intros j Hj. rewrite (ea_nm _ _ H2 j Hj). apply (ea_nm _ _ H1). destruct (tk c j) as [d |] eqn:E; [| done]. by rewrite (ea_tk _ _ H2 j d E).
  - intros j d Hd. by apply (ea_tk _ _ H1), (ea_tk _ _ H2).
  - intros n Hn. by apply (ea_ns _ _ H2), (ea_ns _ _ H1).
  - intros d t2 Ht2. destruct (ea_tasks _ _ H2 d t2 Ht2) as (t1 & Ht1 & [A1 A2 A3 A4]). destruct (ea_tasks _ _ H1 d t1 Ht1) as (t0 & Ht0 & [B1 B2 B3 B4]). exists t0. split; [done |].
    constructor; try congruence. intros m Hm. destruct (A4 m Hm) as [H | H]; [by left |]. destruct (B4 m H) as [H' | H']; [left; by apply (ea_ns _ _ H2) | by right].
  - intros g y Hy. destruct (ea_groups _ _ H2 g y Hy) as (x & Hx & E1 & S1). destruct (ea_groups _ _ H1 g x Hx) as (z & Hz & E2 & S2). exists z. split; [done |]. split; [congruence | auto].
Qed.

(** What changes only the lists of the slots, and the groups on them. *)
Record relisted (k k' : kernel) : Prop := mk_relisted {
  rl_nss : k_nss k' = k_nss k;
  rl_tasks : k_tasks k' = k_tasks k;
  rl_nm : forall j, nm k' j = nm k j;
  rl_tk : forall j, tk k' j = tk k j;
  rl_groups : forall g y, k_groups k' !! g = Some y -> exists x, k_groups k !! g = Some x /\ g_leader y = g_leader x /\ forall a, a ∈ g_threads y -> a ∈ g_threads x }.

#[export] Instance relisted_refl : Reflexive relisted.
Proof. intros k. constructor; eauto. Qed.
#[export] Instance relisted_trans : Transitive relisted.
Proof.
  intros a b c [A1 A2 A3 A4 A5] [B1 B2 B3 B4 B5]. constructor; try congruence. 
  intros g y Hy. destruct (B5 g y Hy) as (x & Hx & E1 & S1). destruct (A5 g x Hx) as (z & Hz & E2 & S2). exists z. split; [done |]. split; [congruence | auto].
Qed.

Lemma relisted_eased k k' : relisted k k' -> (forall j, full k' j -> full k j) -> eased k k'.
Proof.
  intros [En Et Hn Ht Hg] Hf. constructor; try done; rewrite ?En, ?Et; try done; [| intros j a; by rewrite Ht | intros a t H; exists t; auto with procs].
  apply frozen_nums. constructor; try done; unfold nr, held, nss_at; intros; rewrite ?En in *; eauto; done.
Qed.

Lemma full_iff k j : full k j <-> tk k j <> None \/ sn k j <> [] \/ pg k j <> [].
Proof. apply pid_empty_false. Qed.

Lemma nm_fmap k f j : (forall p, p_numbered (f p) = p_numbered p) -> nm (set_pids k (f <$> k_pids k)) j = nm k j.
Proof. intros Hf. unfold nm, pid_at. simpl. rewrite lookup_fmap. destruct (k_pids k !! j); [simpl; apply Hf | done]. Qed.
Lemma nm_alter k id f j : (forall p, p_numbered (f p) = p_numbered p) -> nm (alter_pid k id f) j = nm k j.
Proof. intros Hf. unfold nm, pid_at, alter_pid. simpl. destruct (decide (j = id)) as [-> |]; [rewrite lookup_alter_eq; destruct (k_pids k !! id); [simpl; apply Hf | done] | by rewrite lookup_alter_ne by congruence]. Qed.

Lemma relisted_fmap k f : (forall p, p_numbered (f p) = p_numbered p /\ p_task (f p) = p_task p) -> relisted k (set_pids k (f <$> k_pids k)).
Proof.
  intros Hf. constructor; try done; [intros j; apply nm_fmap, Hf | | intros g y Hy; by exists y]. intros j. unfold tk, pid_at. simpl. rewrite lookup_fmap. destruct (k_pids k !! j); [simpl; apply Hf | done].
Qed.
Lemma relisted_alter k id f : (forall p, p_numbered (f p) = p_numbered p /\ p_task (f p) = p_task p) -> relisted k (alter_pid k id f).
Proof.
  intros Hf. constructor; try done; [intros j; apply nm_alter, Hf | | intros g y Hy; by exists y]. intros j. unfold tk, pid_at, alter_pid. simpl.
  destruct (decide (j = id)) as [-> |]; [rewrite lookup_alter_eq; destruct (k_pids k !! id); [simpl; apply Hf | done] | by rewrite lookup_alter_ne by congruence].
Qed.
Lemma relisted_link k id g k' : pgroup_link k id g = Some k' \/ session_link k id g = Some k' -> relisted k k' /\ (forall j, full k' j -> full k j \/ j = id) /\ full k' id.
Proof.
  assert (forall f, is_Some (k_pids k !! id) -> (forall p, p_numbered (f p) = p_numbered p /\ p_task (f p) = p_task p /\ pid_empty (f p) = false) ->
    relisted k (alter_pid k id f) /\ (forall j, full (alter_pid k id f) j -> full k j \/ j = id) /\ full (alter_pid k id f) id) as H.
  { intros f Hs Hf. split; [apply relisted_alter; intros p; by destruct (Hf p) as (? & ? & _) |]. unfold full. setoid_rewrite pid_at_alter; [| done | done]. split; [intros j; destruct (decide (j = id)); auto |]. rewrite decide_True by done. apply Hf. }
  intros [E | E]; unfold pgroup_link, session_link in E; (destruct (k_pids k !! id) as [p |] eqn:Ep; [| done]); simpl in E; injection E as <-; (apply H; [by exists p |]); intros q; unfold pid_empty; simpl; by destruct (p_task q), (p_session q).
Qed.

Lemma without_nil g l : without g l <> [] -> l <> [].
Proof. by intros H ->. Qed.
Lemma full_pgroup_unlink k g j : full (pgroup_unlink k g) j -> full k j.
Proof. rewrite !full_iff. autorewrite with procs. intros [H | [H | H]]; try apply without_nil in H; auto. Qed.
Lemma full_session_unlink k g j : full (session_unlink k g) j -> full k j.
Proof. rewrite !full_iff. autorewrite with procs. intros [H | [H | H]]; try apply without_nil in H; auto. Qed.

Lemma eased_pgroup_unlink k g : eased k (pgroup_unlink k g).
Proof. apply relisted_eased; [by apply relisted_fmap | apply full_pgroup_unlink]. Qed.
Lemma eased_session_unlink k g : eased k (session_unlink k g).
Proof. apply relisted_eased; [by apply relisted_fmap | apply full_session_unlink]. Qed.

(** A group goes on the list of a slot that is in use. *)
Lemma eased_link k id g k' : pgroup_link k id g = Some k' \/ session_link k id g = Some k' -> full k id -> eased k k'.
Proof. intros H Hf. destruct (relisted_link k id g k' H) as (R & F & _). apply relisted_eased; [done |]. intros j Hj. by destruct (F j Hj) as [| ->]. Qed.

Lemma eased_link_after k k' old g : pgroup_link_after k old g = Some k' \/ session_link_after k old g = Some k' -> eased k k'.
Proof.
  assert (forall l : list Z, insert_after old g l <> [] -> l <> []) as Hi by (intros l H ->; done).
  intros [H | H]; unfold pgroup_link_after, session_link_after in H; (destruct (decide _); [| done]); injection H as <-; (apply relisted_eased; [by apply relisted_fmap |]); intros j;
    rewrite !full_iff; unfold tk, sn, pg; rewrite !pid_at_fmap by done; simpl; (intros [H | [H | H]]; try apply Hi in H; auto).
Qed.

Lemma eased_put_task k a t t' : k_tasks k !! a = Some t -> kin k t t' -> eased k (put_task k a t').
Proof.
  intros Ht Hk. constructor; try done; [apply frozen_nums; constructor; try done; intros n x Hx; right; by exists x | | intros g y Hy; by exists y].
  intros b s Hs. simpl in Hs. destruct (decide (b = a)) as [-> | Hne]; [rewrite lookup_insert_eq in Hs; injection Hs as <-; exists t; split; [done |]; by destruct Hk | rewrite lookup_insert_ne in Hs by congruence; exists s; auto with procs].
Qed.
Lemma eased_put_group k g x y : k_groups k !! g = Some x -> g_leader y = g_leader x -> (forall a, a ∈ g_threads y -> a ∈ g_threads x) -> eased k (put_group k g y).
Proof.
  intros Hx El Hs. constructor; try done; [apply frozen_nums; constructor; try done; intros n z Hz; right; by exists z | intros a t Ht; exists t; auto with procs |].
  intros h z Hz. simpl in Hz. destruct (decide (h = g)) as [-> | Hne]; [rewrite lookup_insert_eq in Hz; injection Hz as <-; by exists x | rewrite lookup_insert_ne in Hz by congruence; by exists z].
Qed.
Lemma eased_set_ttys k y : eased k (set_ttys k y).
Proof. constructor; try done; [apply frozen_nums; constructor; try done; intros n z Hz; right; by exists z | intros a t Ht; exists t; auto with procs | intros g z Hz; by exists z]. Qed.
Lemma eased_set_max k v : eased k (set_pid_max k v).
Proof. constructor; try done; [apply frozen_nums; constructor; try done; intros n z Hz; right; by exists z | intros a t Ht; exists t; auto with procs | intros g z Hz; by exists z]. Qed.

(** A namespace's own fields. *)
Lemma eased_put_ns k n x y : k_nss k !! n = Some x -> place y = place x -> n_nr_of y = n_nr_of x -> n_by_nr y = n_by_nr x -> (n_last_nr y = n_last_nr x \/ n_last_nr y = 0) -> eased k (put_ns k n y).
Proof.
  intros Hx Ep En Eb El. injection Ep as E1 E2. assert (same_tree (k_nss k) (k_nss (put_ns k n y))) as T by by apply (same_tree_put _ n x).
  assert (forall m, n_nr_of (nss_at (put_ns k n y) m) = n_nr_of (nss_at k m) /\ n_by_nr (nss_at (put_ns k n y) m) = n_by_nr (nss_at k m)) as E.
  { intros m. rewrite nss_at_put. destruct (decide (m = n)) as [-> |]; [| done]. unfold nss_at. by rewrite Hx. }
  constructor; try done.
  - apply frozen_nums. constructor; try done; [intros m j; unfold nr; by destruct (E m) as [-> _] | intros m v; unfold held; by destruct (E m) as [_ ->] |].
    intros m z Hz. simpl in Hz. destruct (decide (m = n)) as [-> | Hne]; [rewrite lookup_insert_eq in Hz; injection Hz as <-; destruct El as [-> | ->]; [right; by exists x | by left] | rewrite lookup_insert_ne in Hz by congruence; right; by exists z].
  - intros m Hm. by apply (tree_some _ _ m T).
  - intros a t Ht. exists t. auto with procs.
  - intros g z Hz. by exists z.
Qed.

Lemma unnumber_frame k id : (forall j, j <> id -> nm (pid_ns_unnumber k id) j = nm k j) /\ same_tree (k_nss k) (k_nss (pid_ns_unnumber k id)).
Proof.
  unfold pid_ns_unnumber. destruct (id >? MAX_PID); [done |]. destruct (p_numbered _) as [m |]; [| done]. set (k0 := alter_pid k id _).
  pose proof (wipe_fold id (ns_unnumber id) (ups k (Some m)) k0 (unnumber_clears id)) as W. fold (unnumber_in id) in W. split; [| apply (wp_tree _ _ _ _ W)].
  intros j Hj. unfold nm, pid_at. rewrite (wp_pids _ _ _ _ W). unfold k0, alter_pid. simpl. by rewrite lookup_alter_ne by congruence.
Qed.

Lemma eased_unnumber k id : tk k id = None -> eased k (pid_ns_unnumber k id).
Proof.
  intros Hn. pose proof (same_unnumber k id) as V. destruct (unnumber_frame k id) as [F T]. constructor.
  - intros H. by destruct (unnumber_spec k id H).
  - intros j Hj. apply F. intros ->. by rewrite (v_tk _ _ V) in Hj.
  - intros j a. by rewrite (v_tk _ _ V).
  - intros n. apply (tree_some _ _ n T).
  - intros a t. rewrite (v_tasks _ _ V). intros Ht. exists t. auto with procs.
  - intros g y. rewrite (v_groups _ _ V). intros Hy. by exists y.
Qed.
Lemma eased_unnumber_if_empty k id : eased k (pid_ns_unnumber_if_empty k id).
Proof.
  unfold pid_ns_unnumber_if_empty. destruct (_ && _) eqn:E; [| done]. apply andb_true_iff in E as [_ E]. apply eased_unnumber. destruct (tk k (u32 id)) as [b |] eqn:Eb; [| done]. apply tk_not_empty in Eb. congruence.
Qed.

Lemma eased_slot_out k id : eased k (alter_pid k id (fun p => set_p_task p None)).
Proof.
  destruct (k_pids k !! id) as [p |] eqn:Ep.
  - assert (is_Some (k_pids k !! id)) as Hs by by exists p. set (k' := alter_pid k id _). assert (forall j, nm k' j = nm k j) as N by (intros j; by apply nm_alter).
    constructor; try done; [| | intros a t Ht; exists t; auto with procs | intros g y Hy; by exists y].
    + apply frozen_nums. constructor; try done; [intros n x Hx; right; by exists x |]. intros j. unfold full, k'. rewrite pid_at_alter by done. destruct (decide (j = id)) as [-> |]; [| done]. by destruct (pid_at k id) as [[] [] [] ?].
    + intros j a. unfold tk, k'. rewrite pid_at_alter by done. by destruct (decide _).
  - assert (alter_pid k id (fun p => set_p_task p None) = k) as -> by (unfold alter_pid; rewrite alter_id; [by destruct k |]; intros q Hq; congruence). done.
Qed.

Lemma eased_new_ns k parent mem a n k' : k_nss k !! a = None -> match parent with Some p => is_Some (k_nss k !! p) | None => True end -> pid_ns_new k parent mem a = (inl n, k') -> eased k k' /\ n = a /\ is_Some (k_nss k' !! a) /\ k_tasks k' = k_tasks k.
Proof.
  intros Ha Hp E. assert (exists x, k' = put_ns k a x /\ n = a) as (x & -> & ->).
  { unfold pid_ns_new in E. destruct (_ && _); [done |]. destruct mem; [| done]. injection E as <- <-. by eexists. }
  split; [| split; [done | split; [simpl; rewrite lookup_insert_eq; by eexists | done]]]. constructor; try done.
  - intros H. by destruct (new_ns_nums k parent mem a a _ H Ha Hp E).
  - intros m [y Hy]. exists y. simpl. rewrite lookup_insert_ne by congruence. done.
  - intros b t Ht. exists t. auto with procs.
  - intros g z Hz. by exists z.
Qed.

(** ** The operations *)

Lemma eased_leave_session k a k' : task_leave_session k a = Some k' -> eased k k'.
Proof.
  unfold task_leave_session. destruct (k_tasks k !! a) as [t |]; [| done]. simpl. destruct (k_groups k !! t_group t) as [x |] eqn:Hx; [| done]. simpl.
  set (k1 := pid_ns_unnumber_if_empty (session_unlink k (t_group t)) (g_sid x)). assert (eased k k1) as E1 by (etrans; [apply eased_session_unlink | apply eased_unnumber_if_empty]).
  assert (k_groups k1 = k_groups k) as G1 by apply (v_groups (session_unlink k (t_group t)) k1 (same_unnumber_if_empty _ _)). destruct (g_tty x) as [y |]; intros [= <-]; [| done]. etrans; [exact E1 |].
  destruct (match pid_get_global k (g_sid x) with Some p => _ | None => _ end); [etrans; [apply eased_set_ttys |] |]; apply (eased_put_group _ (t_group t) x); try done; simpl; by rewrite G1.
Qed.

Lemma found_full k id p : pid_get_global k id = Some p -> full k p.
Proof. intros H. by apply pid_get_global_spec in H as (_ & _ & ?). Qed.

Lemma eased_setsid k a r k' : task_setsid k a = Some (r, k') -> eased k k'.
Proof.
  unfold task_setsid. destruct (k_tasks k !! a) as [t |]; [| done]. simpl. destruct (k_groups k !! t_group t) as [x |]; [| done]. simpl. destruct (k_tasks k !! g_leader x) as [l |]; [| done]. simpl.
  destruct (_ || _); [by intros [= _ <-] |]. destruct (task_leave_session k a) as [k1 |] eqn:E1; [| done]. simpl. destruct (pid_get_global k1 (t_pid l)) as [p |] eqn:Ep; [| done]. simpl.
  destruct (session_link k1 p (t_group t)) as [k2 |] eqn:E2; [| done]. simpl. set (k3 := pgroup_unlink k2 (t_group t)). set (k4 := pid_ns_unnumber_if_empty k3 (g_pgid x)).
  destruct (pgroup_link k4 p (t_group t)) as [k5 |] eqn:E5; [| done]. simpl. destruct (k_groups k5 !! t_group t) as [x5 |] eqn:E6; [| done]. simpl. intros [= _ <-].
  assert (full k4 p) as F4.
  { apply (full_view k3); [apply same_unnumber_if_empty |]. apply full_iff. right. left. unfold k3. rewrite unlink_pg_sn. unfold session_link in E2. destruct (k_pids k1 !! p) as [q |] eqn:Eq; [| done]. simpl in E2. injection E2 as <-.
    unfold sn. rewrite pid_at_alter by by exists q. rewrite decide_True by done. done. }
  etrans; [by apply (eased_leave_session k a) |]. etrans; [apply (eased_link k1 p (t_group t)); [by right | by apply (found_full _ _ _ Ep)] |]. etrans; [apply eased_pgroup_unlink |]. etrans; [apply eased_unnumber_if_empty |].
  etrans; [apply (eased_link k4 p (t_group t)); [by left | done] |]. by apply (eased_put_group k5 _ x5).
Qed.

Lemma relisted_put_group k g x y : k_groups k !! g = Some x -> g_leader y = g_leader x -> (forall a, a ∈ g_threads y -> a ∈ g_threads x) -> relisted k (put_group k g y).
Proof.
  intros Hx El Hs. constructor; try done. intros h z Hz. simpl in Hz. destruct (decide (h = g)) as [-> | Hne]; [rewrite lookup_insert_eq in Hz; injection Hz as <-; by exists x | rewrite lookup_insert_ne in Hz by congruence; by exists z].
Qed.

Lemma eased_restore k a sid pgid k' : tgroup_restore_ids k a sid pgid = Some k' -> eased k k'.
Proof.
  unfold tgroup_restore_ids. destruct (k_tasks k !! a) as [t |]; [| done]. simpl. destruct (k_groups k !! t_group t) as [x |] eqn:Hx; [| done]. simpl.
  assert (forall id, exists p i, match pid_get_global k id with Some p => (Some p, id) | None => (pid_get_global k (t_pid t), t_pid t) end = (p, i) /\ forall q, p = Some q -> full k q) as Hfind.
  { intros id. destruct (pid_get_global k id) as [p |] eqn:E; [exists (Some p), id; split; [done |]; intros q [= <-]; by apply (found_full k id) |]. eexists _, _. split; [done |]. intros q Hq. by apply (found_full k (t_pid t)). }
  destruct (Hfind sid) as (sp & si & -> & Hsp). destruct (Hfind pgid) as (gp & gi & -> & Hgp). clear Hfind.
  set (m := match sp with Some p => _ | None => _ end). destruct m as [k1 |] eqn:E1; [| done]. simpl.
  assert (relisted k k1 /\ forall j, full k1 j -> full k j) as [R1 F1].
  { unfold m in E1. destruct sp as [p |]; [| by injection E1 as <-]. destruct (session_link _ p (t_group t)) as [k0 |] eqn:E0; [| done]. simpl in E1. injection E1 as <-.
    destruct (relisted_link _ p (t_group t) k0 (or_intror E0)) as (R & F & _). assert (relisted k k0) as R0 by (etrans; [| exact R]; by apply relisted_fmap). split.
    - etrans; [exact R0 |]. assert (k_groups k0 = k_groups k) as G0 by (unfold session_link in E0; destruct (_ !! p); [| done]; simpl in E0; by injection E0 as <-). apply (relisted_put_group k0 _ x); try done. by rewrite G0.
    - intros j Hj. destruct (F j Hj) as [H | ->]; [by apply full_session_unlink in H | by apply Hsp]. }
  clear E1. clearbody m. destruct (k_groups k1 !! t_group t) as [y |] eqn:Hy; [| done]. simpl. destruct gp as [p |]; [| intros [= <-]; by apply relisted_eased].
  destruct (pgroup_link _ p (t_group t)) as [k2 |] eqn:E2; [| done]. simpl. intros [= <-]. destruct (relisted_link _ p (t_group t) k2 (or_introl E2)) as (R & F & _). apply relisted_eased.
  - etrans; [exact R1 |]. etrans; [by apply (relisted_fmap k1 (fun p => set_p_pgroup p (without (t_group t) (p_pgroup p)))) |]. etrans; [exact R |].
    apply (relisted_put_group k2 _ y); try done. unfold pgroup_link in E2. destruct (_ !! p); [| done]. simpl in E2. by injection E2 as <-.
  - intros j Hj. destruct (F j Hj) as [H | ->]; [by apply F1, full_pgroup_unlink with (g := t_group t) | by apply Hgp].
Qed.

Lemma eased_setpgid k cl cur tc id pgid r k' : links_ok (mk_world k cl) -> k_tasks k !! cur = Some tc -> (exists g x c, k_groups k !! g = Some x /\ c ∈ g_threads x) ->
  (forall b t, k_tasks k !! b = Some t -> b = cur \/ t_parent t = Some cur -> whole cl b) -> in_s 32 id -> in_s 32 pgid -> sys_setpgid k cur id pgid = Some (r, k') -> eased k k'.
Proof.
  intros Hok Hc Hg Hw Hid Hpg. unfold sys_setpgid. rewrite Hc. simpl. set (id' := if id =? 0 then _ else id).
  assert (in_s 32 id') as Hid' by (unfold id'; destruct (id =? 0); [apply swrap_range; lia | done]). set (pgid' := if pgid =? 0 then id' else pgid).
  assert (in_s 32 pgid') as Hpg' by (unfold pgid'; by destruct (pgid =? 0)). clearbody id' pgid'. destruct (pgid' <? 0) eqn:E0; [by intros [= _ <-] |]. to_prop.
  destruct (pid_get k (t_pid_ns tc) id') as [p |] eqn:Ep; [| by intros [= _ <-]]. destruct (p_task (pid_at k p)) as [a |] eqn:Ea; [| by intros [= _ <-]].
  assert (id' = pgid' -> p = pid_ns_global k (t_pid_ns tc) pgid') as Hsame by (intros ->; by apply pid_get_spec in Ep as [-> _]).
  destruct (setpgid_check_spec k cl cur tc (t_pid_ns tc) id' pgid' p a Hok Hc Ea Hg (tk_not_empty k p a Ea) Hw Hpg' E0 Hsame) as (j & -> & Hr). simpl. destruct j as [gp | err]; [| by intros [= _ <-]].
  destruct (Hr gp eq_refl) as (-> & Hne & t & x & lt & Ht & _ & Hx & _). rewrite Ht. simpl. rewrite Hx. simpl. destruct (g_pgid x =? _) eqn:Eq; simpl; [by intros [= _ <-] |]. to_prop.
  set (gp := pid_ns_global k (t_pid_ns tc) pgid') in *. set (k1 := pgroup_unlink k (t_group t)). set (k2 := pid_ns_unnumber_if_empty k1 (g_pgid x)). set (k3 := put_group k2 _ _).
  destruct (pgroup_link k3 gp (t_group t)) as [k4 |] eqn:E4; [| done]. simpl. intros [= _ <-]. pose proof (same_unnumber_if_empty k1 (g_pgid x)) as V2. fold k2 in V2.
  etrans; [apply (eased_pgroup_unlink k (t_group t)) |]. etrans; [apply (eased_unnumber_if_empty k1 (g_pgid x)) |]. etrans; [apply (eased_put_group k2 (t_group t) x (set_g_ids x (g_sid x) gp)); [by rewrite (v_groups _ _ V2) | done | done] |].
  apply (eased_link k3 gp (t_group t)); [by left |]. change (full k2 gp). apply (full_view k1 k2 gp V2). apply full_iff. apply full_iff in Hne as [H | [H | H]]; unfold k1; autorewrite with procs; [by left | by right; left | right; right].
  apply not_nil_elem in H as [h Hh]. apply not_nil_elem. exists h. apply elem_without. split; [| done]. intros ->. destruct (lo_pg _ (lk_lists _ Hok) gp _ Hh) as (y & Hy & Eg). simpl in Hy. congruence.
Qed.

Lemma kin_flags k t z e d s : kin k t (set_t_flags t z e d s).
Proof. constructor; auto. Qed.
#[export] Hint Resolve kin_flags : procs.
Lemma eased_on_task k a f k' : (forall t, k_tasks k !! a = Some t -> kin k t (f t)) -> on_task k a f = Some k' -> eased k k'.
Proof. intros Hf. unfold on_task. destruct (k_tasks k !! a) as [t |] eqn:Ht; [| done]. simpl. intros [= <-]. apply (eased_put_task k a t); auto. Qed.

Lemma eased_unlink_locked k a k' : task_unlink_locked k a = Some k' -> eased k k'.
Proof.
  unfold task_unlink_locked. destruct (k_tasks k !! a) as [t |] eqn:Ht; [| done]. simpl. set (k1 := put_task k a _). assert (eased k k1) as E1 by (apply (eased_put_task k a t); auto with procs).
  destruct (pid_get_global k1 (t_pid t)) as [p |]; intros [= <-]; [| done]. etrans; [exact E1 |]. etrans; [apply (eased_slot_out k1 p) | apply eased_unnumber_if_empty].
Qed.

Lemma eased_without k g x a : k_groups k !! g = Some x -> eased k (put_group k g (set_g_threads x (without a (g_threads x)))).
Proof. intros Hx. apply (eased_put_group k g x); [done | done |]. intros b Hb. simpl in Hb. by apply elem_without in Hb as []. Qed.

Lemma eased_off k g : eased k (session_unlink (pgroup_unlink k g) g).
Proof. etrans; [apply eased_pgroup_unlink | apply eased_session_unlink]. Qed.

Lemma eased_fail_unlink k b new k' : fail_unlink_group k b new = Some k' -> eased k k'.
Proof.
  unfold fail_unlink_group. destruct (k_tasks k !! b) as [t |]; [| done]. simpl. destruct (k_groups k !! t_group t) as [x |] eqn:Hx; [| done]. simpl.
  destruct new as [g |]; intros [= <-]; [etrans; [| apply eased_off] |]; by apply eased_without.
Qed.

Lemma eased_never_ran k a k' : task_never_ran_destroy k a = Some k' -> eased k k'.
Proof.
  unfold task_never_ran_destroy. destruct (k_tasks k !! a) as [t |]; [| done]. simpl. destruct (k_groups k !! t_group t) as [x |] eqn:Hx; [| done]. simpl.
  destruct (match t_parent t with Some p => _ | None => _ end) as [pg |]; [| done]. simpl. intros H. apply eased_unlink_locked in H. etrans; [by apply eased_without |].
  etrans; [| exact H]. destruct (_ =? _); [done | apply eased_off].
Qed.

Lemma eased_thread_unlink k a k' : thread_unlink k a = Some k' -> eased k k'.
Proof.
  unfold thread_unlink. destruct (k_tasks k !! a) as [t |]; [| done]. simpl. destruct (k_groups k !! t_group t) as [x |] eqn:Hx; [| done]. simpl. intros H. apply eased_unlink_locked in H. etrans; [| exact H].
  destruct (t_zombie t); [by apply (eased_put_group k _ x) | done].
Qed.

Lemma eased_release k l k' : release_process_locked k l = Some k' -> eased k k'.
Proof.
  unfold release_process_locked. destruct (k_tasks k !! l) as [t |]; [| done]. simpl. destruct (task_leave_session k l) as [k1 |] eqn:E1; [| done]. simpl. destruct (k_groups k1 !! t_group t) as [x |]; [| done]. simpl.
  intros H. apply eased_unlink_locked in H. etrans; [by apply (eased_leave_session k l) |]. etrans; [apply eased_pgroup_unlink |]. etrans; [apply eased_unnumber_if_empty | exact H].
Qed.

(** ** Terminals *)

Lemma eased_drop k y l : eased k (session_drop_tty k y l).
Proof.
  revert k. induction l as [| g l IH]; intros k; simpl; [done |]. etrans; [| apply IH]. destruct (k_groups k !! g) as [x |] eqn:Hx; [| done]. destruct (bool_decide _); [by apply (eased_put_group k g x) | done].
Qed.
Lemma eased_controlling k g x y d z : k_groups k !! g = Some z -> crew_like z x -> eased k (tty_set_controlling_locked k g x y d).
Proof. intros Hz [E1 E2]. unfold tty_set_controlling_locked. destruct (g_tty x); [done |]. etrans; [apply (eased_put_group k g z (set_g_tty x (Some y))); [done | done | simpl; by rewrite E2] | apply eased_set_ttys]. Qed.

Lemma eased_hangup k l h k' : exit_hangup_session_tty k l = Some (h, k') -> eased k k'.
Proof.
  unfold exit_hangup_session_tty. destruct (k_tasks k !! l) as [t |]; [| done]. simpl. destruct (k_groups k !! t_group t) as [x |]; [| done]. simpl. destruct (g_tty x) as [y |]; [| by intros [= _ <-]].
  destruct (negb _); [by intros [= _ <-] |]. destruct (pid_get_global _ _) as [p |]; [| by intros [= _ <-]]. destruct (k_ttys _ !! y) as [d |]; [| done]. simpl. intros [= _ <-]. etrans; [apply eased_drop | apply eased_set_ttys].
Qed.
Lemma eased_exit k a traced k' : exit_locked k a traced = Some k' -> eased k k'.
Proof.
  unfold exit_locked, exit_tgroup. destruct (k_tasks k !! a) as [t |] eqn:Ht; [| done]. simpl. destruct (k_groups k !! t_group t) as [x |] eqn:Hx; [| done]. simpl. rewrite lookup_insert_eq. simpl. rewrite Hx. simpl. rewrite lookup_insert_eq. simpl.
  set (k1 := put_task k a _). set (k2 := put_group k1 _ _). set (k3 := if traced && negb (g_leader x =? a) then _ else k2).
  assert (eased k k3) as E3.
  { etrans; [apply (eased_put_task k a t); auto with procs |]. etrans; [by apply (eased_without k1 (t_group t) x a) |]. unfold k3. destruct (_ && _); [| done]. apply (eased_put_group k2 _ (set_g_threads x (without a (g_threads x)))); [simpl; by rewrite lookup_insert_eq | done | done]. }
  destruct (bool_decide _); [| by intros [= <-]]. destruct (exit_hangup_session_tty k3 _) as [[h k4] |] eqn:E4; [| done]. simpl. intros [= <-]. etrans; [exact E3 | by apply (eased_hangup k3 (g_leader x) h)].
Qed.

Lemma eased_open k a y k' : tty_open_controlling k a y = Some k' -> eased k k'.
Proof.
  unfold tty_open_controlling. destruct (k_tasks k !! a) as [t |]; [| done]. simpl. destruct (k_groups k !! t_group t) as [x |] eqn:Hx; [| done]. simpl. destruct (k_ttys k !! y) as [d |]; [| done]. simpl.
  destruct (tgroup_is_session_leader k x) as [lead |]; [| done]. simpl. intros [= <-]. destruct (_ && _); [by apply (eased_controlling k _ x y d x) | done].
Qed.
Lemma eased_spgrp k a y pgid r k' : tiocspgrp k a y pgid = Some (r, k') -> eased k k'.
Proof.
  unfold tiocspgrp. destruct (k_tasks k !! a) as [t |]; [| done]. simpl. destruct (k_groups k !! t_group t) as [x |]; [| done]. simpl. destruct (k_ttys k !! y) as [d |]; [| done]. simpl.
  destruct (_ || _); [by intros [= _ <-] |]. destruct (_ <? _); [by intros [= _ <-] |]. destruct (pid_get k _ pgid) as [p |]; [| by intros [= _ <-]]. destruct (p_pgroup _) as [| first l]; [by intros [= _ <-] |].
  destruct (k_groups k !! first) as [m |]; [| done]. simpl. destruct (negb _); intros [= _ <-]; [done | apply eased_set_ttys].
Qed.
Lemma eased_sctty k a y force su r k' : tiocsctty k a y force su = Some (r, k') -> eased k k'.
Proof.
  unfold tiocsctty. destruct (k_tasks k !! a) as [t |]; [| done]. simpl. destruct (k_groups k !! t_group t) as [x |] eqn:Hx; [| done]. simpl. destruct (k_ttys k !! y) as [d |]; [| done]. simpl.
  destruct (tgroup_is_session_leader k x) as [lead |]; [| done]. simpl. destruct (_ && _); [by intros [= _ <-] |]. destruct (negb lead || _); [by intros [= _ <-] |].
  destruct (negb _); [| intros [= _ <-]; by apply (eased_controlling k _ x y d x)]. destruct (_ && _); [| by intros [= _ <-]]. destruct (pid_get_global k (y_session d)) as [p |]; [| done]. simpl. intros [= _ <-].
  etrans; [apply eased_drop |]. destruct (session_drop_group k y (p_session (pid_at k p)) (t_group t) x Hx) as (x' & Hx' & (E1 & _ & _ & E4) & _). apply (eased_controlling _ _ x y d x'); done.
Qed.
Lemma eased_notty k a y r h k' : tiocnotty k a y = Some (r, h, k') -> eased k k'.
Proof.
  unfold tiocnotty. destruct (k_tasks k !! a) as [t |]; [| done]. simpl. destruct (k_groups k !! t_group t) as [x |]; [| done]. simpl. destruct (k_ttys k !! y) as [d |]; [| done]. simpl.
  destruct (negb _); [by intros [= _ _ <-] |]. destruct (tgroup_is_session_leader k x) as [lead |]; [| done]. simpl. set (r1 := if lead then _ else _). assert (eased k (snd r1)) as E1.
  { unfold r1. destruct lead; [| done]. simpl. etrans; [| apply eased_set_ttys]. destruct (pid_get_global _ _); [apply eased_drop | done]. }
  destruct r1 as [h1 k1]. simpl in E1. destruct (k_groups k1 !! t_group t) as [z |] eqn:Hz; [| done]. simpl. intros [= _ _ <-]. etrans; [exact E1 |]. destruct (bool_decide _); [by apply (eased_put_group k1 _ z) | done].
Qed.
