(* ===== verification/PidViews.v ===== *)
(** * Who is known by what number, over every run

    [tabled]: the tables of the namespaces agree.  [owned]: each task that is
    made is numbered in its own namespace and those above.  Every event of
    ProcWorld.v keeps the first; the second too, but for a clone given up late
    whose slot went to another task meanwhile. *)

From S2P Require Import Prelude Pids Groups Procs Ctty ProcWorld ProcLinks ProcSound ProcLeave ProcTty ProcEnter ProcStep PidNums PidSeen.

Record tabled (w : world) : Prop := mk_tabled {
  tb_nums : nums_ok (w_k w);
  tb_tasks : forall a t m, k_tasks (w_k w) !! a = Some t -> t_pid_ns t = Some m \/ t_pid_ns_for_children t = Some m -> is_Some (k_nss (w_k w) !! m) }.

(** Not on its way out before it ran. *)
Definition settled (cl : gmap Z clone) (a : Z) : Prop := forall c, cl !! a = Some c -> match c_stage c with Failing | Failed | NeverRan => False | _ => True end.
Definition joining (cl : gmap Z clone) (a : Z) : Prop := exists c, cl !! a = Some c /\ c_thread c = true /\ c_stage c = Numbered.
Definition created (cl : gmap Z clone) (a : Z) : Prop := exists c, cl !! a = Some c /\ c_stage c = Created.

Record owned (w : world) : Prop := mk_owned {
  ow_slot : forall a t, k_tasks (w_k w) !! a = Some t -> tk (w_k w) (t_pid t) = Some a -> settled (w_clones w) a -> nm (w_k w) (t_pid t) = t_pid_ns t;
  ow_share : forall a t x lt, k_tasks (w_k w) !! a = Some t -> k_groups (w_k w) !! t_group t = Some x -> k_tasks (w_k w) !! g_leader x = Some lt ->
    a ∈ g_threads x \/ joining (w_clones w) a -> t_pid_ns t = t_pid_ns lt;
  ow_new : forall a t, k_tasks (w_k w) !! a = Some t -> created (w_clones w) a -> t_pid_ns t = None }.

(** A clone given up once it was linked leaves its slot first, and its numbers
    with pids_lock taken again: not steady when the slot has a new task. *)
Definition steady (w : world) (e : event) : Prop :=
  match e with
  | EForget b => forall c t, w_clones w !! b = Some c -> c_stage c = NeverRan -> k_tasks (w_k w) !! b = Some t -> tk (w_k w) (t_pid t) = None
  | _ => True
  end.

Definition keeps (w : world) (e : event) (w' : world) : Prop := (tabled w -> tabled w') /\ (tabled w -> owned w -> steady w e -> owned w').

(** ** Eased kernels *)

Lemma eased_tabled k k' cl cl' : eased k k' -> tabled (mk_world k cl) -> tabled (mk_world k' cl').
Proof.
  intros E [Hn Ht]. split; [by apply (ea_nums _ _ E) |]. cbn [w_k] in *. intros a t' m Ht' Hm. destruct (ea_tasks _ _ E a t' Ht') as (t & Hta & [_ _ E3 E4]).
  destruct Hm as [Hm | Hm]; [apply (ea_ns _ _ E), (Ht a t m Hta); left; congruence |]. destruct (E4 m Hm) as [H | H]; [done |]. apply (ea_ns _ _ E), (Ht a t m Hta). by right.
Qed.

Lemma eased_owned k k' cl cl' : eased k k' -> (forall a t, k_tasks k' !! a = Some t -> tk k' (t_pid t) = Some a -> settled cl' a -> settled cl a) ->
  (forall a, joining cl' a -> joining cl a) -> (forall a, created cl' a -> created cl a) -> owned (mk_world k cl) -> owned (mk_world k' cl').
Proof.
  intros E Hs Hj Hc [H1 H2 H3]. split; cbn [w_k w_clones] in *.
  - intros a t' Ht' Hk Hset. destruct (ea_tasks _ _ E a t' Ht') as (t & Ht & [E1 _ E3 _]). rewrite (ea_nm _ _ E) by by rewrite Hk. pose proof (Hs a t' Ht' Hk Hset) as Hset'. apply (ea_tk _ _ E) in Hk. rewrite E1, E3 in *. by apply (H1 a).
  - intros a t' y lt' Ht' Hy Hlt' Hin. destruct (ea_tasks _ _ E a t' Ht') as (t & Ht & [_ E2 E3 _]). destruct (ea_groups _ _ E _ y Hy) as (x & Hx & El & Hth). rewrite El in Hlt'. destruct (ea_tasks _ _ E _ lt' Hlt') as (lt & Hlt & [_ _ E3' _]).
    rewrite E3, E3'. rewrite E2 in Hx. apply (H2 a t x lt Ht Hx Hlt). destruct Hin as [Hin | Hin]; [left; auto | right; auto].
  - intros a t' Ht' Hcr. destruct (ea_tasks _ _ E a t' Ht') as (t & Ht & [_ _ E3 _]). rewrite E3. apply (H3 a t Ht). auto.
Qed.

Lemma eased_keeps k k' cl e : eased k k' -> keeps (mk_world k cl) e (mk_world k' cl).
Proof. intros E. split; [by apply eased_tabled |]. intros _ Ho _. by apply (eased_owned k k' cl cl). Qed.

(** A clone goes on to its next stage. *)
Lemma stage_look (cl : gmap Z clone) (b : Z) s (a : Z) c : alter (fun c => mk_clone (c_parent c) (c_thread c) s) b cl !! a = Some c ->
  (a <> b /\ cl !! a = Some c) \/ (a = b /\ exists d, cl !! b = Some d /\ c = mk_clone (c_parent d) (c_thread d) s).
Proof.
  destruct (decide (a = b)) as [-> | Hne]; [rewrite lookup_alter_eq; destruct (cl !! b) as [d |]; [| done]; simpl; intros [= <-]; right; split; [done |]; by exists d | rewrite lookup_alter_ne by congruence; auto].
Qed.

Lemma eased_stage k k' cl b c s e : eased k k' -> cl !! b = Some c -> s <> Numbered -> s <> Created -> (match s with Failing | Failed | NeverRan => True | _ => settled cl b end) ->
  keeps (mk_world k cl) e (set_stage (mk_world k cl) b s k').
Proof.
  intros E Hb Hs1 Hs2 Hset. split; [by apply eased_tabled |]. intros _ Ho _. apply (eased_owned k k' cl); [done | | | | done]; cbn [w_clones].
  - intros a t _ _ Ha. destruct (decide (a = b)) as [-> | Hne]; [| intros d Hd; apply Ha; by rewrite lookup_alter_ne by congruence].
    specialize (Ha (mk_clone (c_parent c) (c_thread c) s)). rewrite lookup_alter_eq, Hb in Ha. specialize (Ha eq_refl). simpl in Ha. by destruct s.
  - intros a (d & Hd & Hth & Hst). apply stage_look in Hd as [[_ Hd] | [-> (d' & Hd' & ->)]]; [by exists d | done].
  - intros a (d & Hd & Hst). apply stage_look in Hd as [[_ Hd] | [-> (d' & Hd' & ->)]]; [by exists d | done].
Qed.

(** It is done: made, or off the table. *)
Lemma eased_done k k' cl b e : eased k k' -> settled cl b \/ (forall j, tk k' j <> Some b) -> keeps (mk_world k cl) e (done (mk_world k cl) b k').
Proof.
  intros E Hb. split; [by apply eased_tabled |]. intros _ Ho _. apply (eased_owned k k' cl); [done | | | | done]; cbn [w_clones].
  - intros a t _ Hk Ha. destruct (decide (a = b)) as [-> | Hne]; [destruct Hb as [H | H]; [done | by destruct (H (t_pid t))] |]. intros d Hd. apply Ha. by rewrite lookup_delete_ne by congruence.
  - intros a (d & Hd & H). apply lookup_delete_Some in Hd as [_ Hd]. by exists d.
  - intros a (d & Hd & H). apply lookup_delete_Some in Hd as [_ Hd]. by exists d.
Qed.

(** ** One task's namespace and numbers *)

(** A task that shares its leader's namespace is in a group that is listed. *)
Lemma share_linked k cl a t x : procs_ok k cl -> k_tasks k !! a = Some t -> k_groups k !! t_group t = Some x -> a ∈ g_threads x \/ joining cl a -> linked k (t_group t).
Proof.
  intros Hp Ht Hx [Hin | (c & Hc & _ & Est)]; [by destruct (po_threads _ _ Hp _ x a Hx Hin) |]. pose proof (po_clones _ _ Hp a c Hc) as Hcl. assert (early (c_stage c) = true) as E by by rewrite Est.
  destruct (c_parent c) as [p |] eqn:Ep; [by destruct (early_group k cl a c t p Hp Hcl E Ht Ep) as (_ & _ & y & _ & H & _) |]. destruct (early_ok k a c t Hcl E Ht) as (_ & _ & _ & H). by rewrite Est in H; specialize (H Ep).
Qed.

Lemma owned_but k k' cl cl' b : procs_ok k cl -> owned (mk_world k cl) -> (forall a, a <> b -> k_tasks k' !! a = k_tasks k !! a) -> k_groups k' = k_groups k ->
  (forall a j, a <> b -> tk k' j = Some a -> tk k j = Some a /\ nm k' j = nm k j) -> idle k b -> (forall a, a <> b -> cl' !! a = cl !! a) ->
  (forall t, k_tasks k' !! b = Some t -> (created cl' b -> t_pid_ns t = None) /\ (tk k' (t_pid t) = Some b -> settled cl' b -> nm k' (t_pid t) = t_pid_ns t) /\
    (joining cl' b -> forall x lt, k_groups k !! t_group t = Some x -> linked k (t_group t) -> k_tasks k' !! g_leader x = Some lt -> t_pid_ns t = t_pid_ns lt)) ->
  (joining cl' b -> forall t, k_tasks k' !! b = Some t -> linked k (t_group t)) ->
  owned (mk_world k' cl').
Proof.
  intros Hp [H1 H2 H3] Hta Hg Hslot [Hi1 Hi2] Hcl Hb Hbl. split; cbn [w_k w_clones] in *.
  - intros a t Ht Hk Hset. destruct (decide (a = b)) as [-> | Hne]; [by apply Hb |]. destruct (Hslot a _ Hne Hk) as [Hk' ->]. rewrite Hta in Ht by done. apply (H1 a t Ht Hk'). intros c Hc. apply Hset. by rewrite Hcl.
  - intros a t x lt Ht Hx Hlt Hin. rewrite Hg in Hx. destruct (decide (a = b)) as [-> | Hne].
    + destruct Hin as [Hin | Hin]; [by destruct (Hi1 _ x Hx) |]. destruct (Hb t Ht) as (_ & _ & H). by apply (H Hin x lt Hx (Hbl Hin t Ht)).
    + rewrite Hta in Ht by done. assert (a ∈ g_threads x \/ joining cl a) as Hin' by (destruct Hin as [| (c & Hc & H)]; [by left | right; exists c; by rewrite <- Hcl]).
      assert (g_leader x <> b) as Hl by (intros E; apply Hi2; exists (t_group t), x; split_and!; [done | by apply (share_linked k cl a t x) | done]). rewrite Hta in Hlt by done. by apply (H2 a t x lt).
  - intros a t Ht (c & Hc & Est). destruct (decide (a = b)) as [-> | Hne]; [destruct (Hb t Ht) as [H _]; apply H; by exists c |]. rewrite Hta in Ht by done. apply (H3 a t Ht). exists c. by rewrite <- Hcl.
Qed.

Lemma create_keeps w caller parent want b w' : world_ok w -> ready w (ECreate caller parent want b) -> step w (ECreate caller parent want b) = Some w' -> keeps w (ECreate caller parent want b) w'.
Proof.
  intros [Hl _] (Hb & Hcb & Hs & _) Es. destruct w as [k cl]. cbn [w_k w_clones] in *. revert Es. unfold step, task_create_pid_. cbn [mbind option_bind w_k w_clones].
  destruct (match parent with Some a => t ← k_tasks k !! a; Some (Some (a, t)) | None => Some None end) as [pt |]; [| done]. cbn [mbind option_bind].
  destruct (create_pid k want) as [[id | []] |] eqn:Ecr; [| intros [= <-]; by apply eased_keeps | done]. cbn [mbind option_bind]. intros [= <-].
  destruct (create_pid_spec _ want id (lk_alloc _ Hl) Hs Ecr) as [_ He]. cbn [w_k] in *. set (k1 := set_last_allocated_pid k id). set (k2 := pid_ns_unnumber k1 id). set (k3 := set_pids k2 _). set (k' := put_task k3 b _).
  pose proof (same_unnumber k1 id) as V. destruct (unnumber_frame k1 id) as [F T]. fold k2 in V, F, T. assert (forall t, t = new_task pt id -> t_pid t = id /\ t_pid_ns t = None /\ t_pid_ns_for_children t = None) as Hnew by (intros t ->; by destruct pt as [[] |]).
  assert (forall j, pid_at k' j = if decide (j = id) then mk_pid (Some b) [] [] None else pid_at k2 j) as P.
  { intros j. unfold pid_at. simpl. destruct (decide (j = id)) as [-> |]; [by rewrite lookup_insert_eq | by rewrite lookup_insert_ne by congruence]. }
  assert (forall j, j <> id -> tk k' j = tk k j /\ nm k' j = nm k j) as Hj.
  { intros j Hne. unfold tk, nm. rewrite P, decide_False by done. split; [apply (v_tk _ _ V) | by apply F]. }
  assert (k_tasks k2 = k_tasks k) as Ht2 by apply (v_tasks _ _ V).
  assert (forall a, a <> b -> k_tasks k' !! a = k_tasks k !! a) as Hta by (intros a Hne; simpl; by rewrite lookup_insert_ne, Ht2 by congruence).
  split.
  - intros [Hn Htn]. cbn [w_k] in *. assert (nums_ok k1) as Hn1 by (apply (frozen_nums k); [| done]; constructor; try done; intros n x Hx; right; by exists x).
    destruct (unnumber_spec k1 id Hn1) as (Hn2 & _ & Hid). fold k2 in Hn2, Hid. split; cbn [w_k].
    + apply (filled_nums k2 k' id); try done; intros j; unfold nm, full; rewrite P; destruct (decide (j = id)) as [-> |]; auto.
    + intros a t m Ht Hm. assert (is_Some (k_nss k !! m)) as Hs'; [| by apply (tree_some _ _ m T)]. destruct (decide (a = b)) as [-> | Hne]; [| rewrite Hta in Ht by done; by apply (Htn a t m)].
      simpl in Ht. rewrite lookup_insert_eq in Ht. injection Ht as <-. destruct (Hnew _ eq_refl) as (_ & E1 & E2). destruct Hm; congruence.
  - intros _ Ho _. pose proof (lk_procs _ Hl) as Hp. cbn [w_k w_clones] in Hp. apply (owned_but k k' cl _ b Hp Ho Hta); [apply (v_groups _ _ V) | | | | |].
    + intros a j Hne Hk. assert (j <> id) as Hji by (intros ->; unfold tk in Hk; rewrite P, decide_True in Hk by done; by injection Hk as ->). destruct (Hj j Hji) as [E ->]. by rewrite <- E.
    + split; [intros g x Hx Hin; destruct (po_threads _ _ Hp g x b Hx Hin) as (_ & t & Ht & _); congruence |]. intros (g & x & Hx & Hln & E). destruct (po_leader _ _ Hp g x Hx Hln) as (t & Ht & _). congruence.
    + intros a Hne. by rewrite lookup_insert_ne by congruence.
    + intros t Ht. simpl in Ht. rewrite lookup_insert_eq in Ht. injection Ht as <-. destruct (Hnew _ eq_refl) as (E1 & E2 & _). split; [done |]. split; [intros _ _; unfold nm; by rewrite P, E1, decide_True |].
      intros (c & Hc & _ & Est). rewrite lookup_insert_eq in Hc. by injection Hc as <-.
    + intros (c & Hc & _ & Est). rewrite lookup_insert_eq in Hc. by injection Hc as <-.
Qed.

(** ** Namespaces chosen and forgotten *)

Lemma eased_set_init k n i : is_Some (k_nss k !! n) -> eased k (put_ns k n (set_init_pid (nss_at k n) i)).
Proof. intros [x Hx]. unfold nss_at. rewrite Hx. by apply (eased_put_ns k n x); [| | | | left]. Qed.

(** copy_task chooses a namespace that is there, and changes nothing else. *)
Lemma choose_ns_spec k a c t thread newpid mem n : tabled (mk_world k ∅) -> k_tasks k !! a = Some c -> k_nss k !! n = None -> exists r k1, choose_pid_ns k c t thread newpid mem n = (r, k1) /\ eased k k1 /\ same_view k k1 /\
  match r with inl (Some m) => is_Some (k_nss k1 !! m) | inl None => True | inr err => err < 0 end /\ (thread = true -> r = inl (t_pid_ns c)).
Proof.
  intros [_ Htn] Hc Hn. cbn [w_k] in Htn. unfold choose_pid_ns. set (into := match t_pid_ns_for_children c with Some m => Some m | None => t_pid_ns c end).
  assert (forall m, into = Some m -> is_Some (k_nss k !! m)) as Hinto by (intros m Hm; apply (Htn a c m Hc); unfold into in Hm; destruct (t_pid_ns_for_children c); auto).
  destruct thread; [exists (inl (t_pid_ns c)), k; split_and!; try done; destruct (t_pid_ns c) as [m |] eqn:Em; [apply (Htn a c m Hc); by left | done] |]. destruct newpid.
  - destruct (pid_ns_new k into mem n) as [[m | err] k1] eqn:E.
    + assert (exists x, k1 = put_ns k n x) as [x Ex] by (unfold pid_ns_new in E; destruct (_ && _); [done |]; destruct mem; [| done]; injection E as <- <-; by eexists).
      destruct (eased_new_ns k into mem n m k1 Hn) as (E1 & -> & Hs & Ht); [destruct into; [by apply Hinto | done] | done |]. eexists _, _. split; [done |]. split; [etrans; [exact E1 | by apply eased_set_init] |].
      subst k1. split; [by constructor |]. split_and!; try done. simpl. rewrite lookup_insert_eq. by eexists.
    + exists (inr err), k1. split; [done |]. unfold pid_ns_new in E. destruct (_ && _); [injection E as <- <-; done |]. destruct mem; [done |]. injection E as <- <-. done.
  - destruct into as [m |]; [| exists (inl None), k; done]. specialize (Hinto m eq_refl). destruct (n_dead _); [by exists (inr _ENOMEM), k |]. eexists _, _. split; [done |]. destruct (_ =? 0); [| done].
    split; [by apply eased_set_init |]. split; [apply same_put_ns |]. split_and!; try done. simpl. rewrite lookup_insert_eq. by eexists.
Qed.

Lemma tabled_clones k cl cl' : tabled (mk_world k cl) -> tabled (mk_world k cl').
Proof. by intros [H1 H2]. Qed.

(** A task's new namespace, and the numbers that go with it. *)
Lemma numbered_spec k b t ns cl : tabled (mk_world k cl) -> (forall j, full k j -> 0 < j <= MAX_PID) -> k_tasks k !! b = Some t -> tk k (t_pid t) = Some b -> match ns with Some m => is_Some (k_nss k !! m) | None => True end ->
  let k2 := put_task k b (set_t_pid_ns t ns) in
  exists err k3, (match ns with None => (0, k2) | Some _ => pid_ns_number_task k2 (t_pid t) ns end) = (err, k3) /\ tabled (mk_world k3 cl) /\ same_view k2 k3 /\
    (forall j, j <> t_pid t -> nm k3 j = nm k j) /\ ((err = 0 /\ (ns = None -> nm k3 (t_pid t) = nm k (t_pid t)) /\ (ns <> None -> nm k3 (t_pid t) = ns)) \/ err < 0).
Proof.
  intros [Hn Htn] Hpos Hb Hk Hns k2. cbn [w_k] in *. assert (nums_ok k2) as Hn2 by (apply (frozen_nums k); [| done]; constructor; try done; intros n x Hx; right; by exists x).
  assert (forall a s m, k_tasks k2 !! a = Some s -> t_pid_ns s = Some m \/ t_pid_ns_for_children s = Some m -> is_Some (k_nss k !! m)) as Htn2.
  { intros a s m Hs Hm. simpl in Hs. destruct (decide (a = b)) as [-> | Hne]; [| rewrite lookup_insert_ne in Hs by congruence; by apply (Htn a s)]. rewrite lookup_insert_eq in Hs. injection Hs as <-. destruct Hm as [Hm | Hm]; [simpl in Hm; by subst ns | apply (Htn b t m Hb); by right]. }
  destruct ns as [m |]; [| exists 0, k2; split_and!; try done; left; split_and!; done].
  destruct (number_task_spec k2 (t_pid t) m b Hn2 Hpos Hk Hns) as (err & k3 & E & Hn3 & R & Hcase). pose proof (same_number_task k2 (t_pid t) (Some m)) as V. rewrite E in V |- *. simpl in V.
  exists err, k3. split; [done |]. split; [| split; [done |]].
  - split; [done |]. cbn [w_k]. intros a s q. rewrite (v_tasks _ _ V). intros Hs Hq. apply (tree_some _ _ q (rn_tree _ _ _ R)). by apply (Htn2 a s).
  - split; [apply (rn_nm _ _ _ R) |]. destruct Hcase as [[-> Hm] | [He _]]; [left; split_and!; done | by right].
Qed.

Lemma ns_keeps w b thread newpid mem n w' : world_ok w -> ready w (ENs b thread newpid mem n) -> step w (ENs b thread newpid mem n) = Some w' -> keeps w (ENs b thread newpid mem n) w'.
Proof.
  intros [Hl _] (Hn & Hr) Es. destruct (at_stage_task w b _ Hl Hr) as (c & t & Hc & (Est & a & Ea & _) & Hcl & Ht). destruct (early_ok _ b c t Hcl ltac:(by rewrite Est) Ht) as (Hi & Hk & Hpa & _).
  destruct (Hpa a Ea) as (ta & x & Hta & Eg & Hx & Hain). destruct w as [k cl]. cbn [w_k w_clones] in *. unfold step in Es. cbn [w_k w_clones] in Es. rewrite Hc in Es. cbn [mbind option_bind] in Es. rewrite Ea in Es. cbn [mbind option_bind] in Es.
  unfold copy_pid_ns in Es. rewrite Hta in Es. cbn [mbind option_bind] in Es. rewrite Ht in Es. cbn [mbind option_bind] in Es. enough (tabled (mk_world k cl) -> tabled w' /\ (owned (mk_world k cl) -> owned w')) as H by (split; [by intros Htb; apply H | by intros Htb Ho _; apply H]).
  intros Htb. destruct (choose_ns_spec k a ta t thread newpid mem n (tabled_clones _ _ _ Htb) Hta Hn) as (r & k1 & Ec & E1 & V1 & Hr1 & Hth). rewrite Ec in Es. clear Ec.
  pose proof (eased_tabled k k1 cl cl E1 Htb) as Htb1. assert (k_tasks k1 !! b = Some t) as Ht1 by by rewrite (v_tasks _ _ V1). assert (forall j, full k1 j -> 0 < j <= MAX_PID) as Hpos by (intros j Hj; apply (slot_range k cl j Hl), (full_view k k1 j V1), Hj).
  assert (forall a' s, a' <> b -> (<[b := s]> cl : gmap Z clone) !! a' = cl !! a') as Hcl' by (intros a' s Hne; by rewrite lookup_insert_ne by congruence).
  destruct r as [ns | err]; cbn [mbind option_bind] in Es.
  2: { injection Es as <-. destruct (err <? 0) eqn:Ee; [| to_prop; lia]. split; [by apply tabled_clones with cl |]. set (c' := mk_clone _ _ _). apply (eased_owned k k1 cl); [done | | |]; cbn [w_clones].
    - intros a' s _ _ Hs. destruct (decide (a' = b)) as [-> | Hne]; [by destruct (Hs c'); rewrite lookup_insert_eq | intros d Hd; apply Hs; by rewrite Hcl'].
    - intros a' (d & Hd & H). destruct (decide (a' = b)) as [-> | Hne]; [rewrite lookup_insert_eq in Hd; injection Hd as <-; by destruct H | exists d; by rewrite <- (Hcl' a' c')].
    - intros a' (d & Hd & H). destruct (decide (a' = b)) as [-> | Hne]; [rewrite lookup_insert_eq in Hd; by injection Hd as <- | exists d; by rewrite <- (Hcl' a' c')]. }
  destruct (numbered_spec k1 b t ns cl Htb1 Hpos Ht1 ltac:(by rewrite (v_tk _ _ V1)) ltac:(by destruct ns)) as (err & k3 & E3 & Htb3 & V3 & Hnm & Hcase). set (k2 := put_task k1 b (set_t_pid_ns t ns)) in *.
  assert (match ns with Some _ => Some (pid_ns_number_task k2 (t_pid t) ns) | None => Some (0, k2) end = Some (err, k3)) as Es3 by (destruct ns; by rewrite E3). rewrite Es3 in Es. cbn [mbind option_bind] in Es. injection Es as <-. clear Es3 E3.
  split; [by apply tabled_clones with cl |]. intros Ho. pose proof (eased_owned k k1 cl cl E1 ltac:(done) ltac:(done) ltac:(done) Ho) as Ho1. pose proof (alike_procs k k1 cl (soft_alike _ _ (soft_view _ _ V1)) (lk_procs _ Hl)) as Hp1.
  assert (k_tasks k3 = <[b := set_t_pid_ns t ns]> (k_tasks k1)) as Ht3 by apply (v_tasks _ _ V3). assert (forall j, tk k3 j = tk k1 j) as Hk3 by (intros j; apply (v_tk _ _ V3)).
  assert (linked k1 (t_group t)) as Hln by (unfold linked; setoid_rewrite (v_pg _ _ V1); by destruct (po_threads _ _ (lk_procs _ Hl) _ x a Hx Hain)).
  apply (owned_but k1 k3 cl _ b Hp1 Ho1); [intros a' Hne; by rewrite Ht3, lookup_insert_ne by congruence | apply (v_groups _ _ V3) | | by apply (alike_idle k k1 b (soft_alike _ _ (soft_view _ _ V1))) | intros a' Hne; by apply Hcl' | |].
  - intros a' j Hne Hj. rewrite Hk3 in Hj. split; [done |]. apply Hnm. intros ->. rewrite (v_tk _ _ V1) in Hj. congruence.
  - intros s Hs. rewrite Ht3, lookup_insert_eq in Hs. injection Hs as <-. change (t_pid (set_t_pid_ns t ns)) with (t_pid t). change (t_group (set_t_pid_ns t ns)) with (t_group t). cbn [t_pid_ns]. split_and!.
    + intros (d & Hd & H). rewrite lookup_insert_eq in Hd. injection Hd as <-. simpl in H. by destruct (err <? 0).
    + intros _ Hset. specialize (Hset _ ltac:(apply lookup_insert_eq)). simpl in Hset. destruct (err <? 0) eqn:Ee; [done |]. to_prop. destruct Hcase as [(_ & H1 & H2) | H]; [| lia]. change (nm k3 (t_pid t) = ns). destruct ns as [m |]; [by apply H2 |].
      rewrite H1 by done. pose proof (ow_slot _ Ho1 b t Ht1) as Hs1. cbn [w_k w_clones] in Hs1. rewrite Hs1; [apply (ow_new _ Ho1 b t Ht1); by exists c | by rewrite (v_tk _ _ V1) | intros d Hd; rewrite Hc in Hd; injection Hd as <-; by rewrite Est].
    + intros (d & Hd & Hdt & _) y lt Hy _ Hlt. rewrite lookup_insert_eq in Hd. injection Hd as <-. simpl in Hdt. specialize (Hth Hdt). injection Hth as ->. change (t_pid_ns ta = t_pid_ns lt).
      assert (y = x) as -> by (rewrite (v_groups _ _ V1) in Hy; congruence). assert (g_leader x <> b) as Hlb by (intros E; apply (proj2 Hi); exists (t_group t), x; split_and!; [done | | done]; by destruct (po_threads _ _ (lk_procs _ Hl) _ x a Hx Hain)).
      rewrite Ht3, lookup_insert_ne in Hlt by congruence. apply (ow_share _ Ho1 a ta x lt); cbn [w_k]; [by rewrite (v_tasks _ _ V1) | by rewrite (v_groups _ _ V1), Eg | done | by left].
  - intros _ s Hs. rewrite Ht3, lookup_insert_eq in Hs. injection Hs as <-. done.
Qed.

Lemma forget_init_spec k ns id cl : let k' := pid_ns_forget_init k ns id in same_view k k' /\ (forall j, j <> id -> nm k' j = nm k j) /\
  (tabled (mk_world k cl) -> match ns with Some n => is_Some (k_nss k !! n) | None => True end -> tabled (mk_world k' cl)).
Proof.
  unfold pid_ns_forget_init. destruct ns as [n |]; [| done]. destruct (unnumber_frame k id) as [F T]. pose proof (same_unnumber k id) as V. set (k2 := pid_ns_unnumber k id) in *.
  split; [destruct (_ =? _); [etrans; [exact V | apply same_put_ns] | done] |]. split; [intros j Hj; destruct (_ =? _); by apply F |].
  intros [Hn Htn] Hs. assert (tabled (mk_world k2 cl)) as Htb.
  { split; [by destruct (unnumber_spec k id Hn) |]. cbn [w_k] in *. intros a t m. rewrite (v_tasks _ _ V). intros Ht Hm. apply (tree_some _ _ m T). by apply (Htn a t). }
  destruct (_ =? _); [| done]. apply (eased_tabled k2 _ cl cl); [| done]. apply (tree_some _ _ n T) in Hs as [x Hx]. unfold nss_at. rewrite Hx. apply (eased_put_ns k2 n x); try done. by right.
Qed.

Lemma forget_keeps w b w' : world_ok w -> ready w (EForget b) -> step w (EForget b) = Some w' -> keeps w (EForget b) w'.
Proof.
  intros [Hl _] Hr Es. destruct (at_stage_task w b _ Hl Hr) as (c & t & Hc & Hst & (t0 & Ht0 & Hcl) & Ht). assert (t0 = t) as -> by congruence. clear Ht0. destruct w as [k cl]. cbn [w_k w_clones] in *.
  unfold step in Es. cbn [w_k w_clones] in Es. rewrite Hc in Es. cbn [mbind option_bind] in Es. unfold forget_ns in Es. rewrite Ht in Es. cbn [mbind option_bind] in Es. set (k1 := put_task k b (set_t_pid_ns t None)) in *. set (k' := pid_ns_forget_init k1 (t_pid_ns t) (t_pid t)) in *.
  assert (idle k b) as Hi by (destruct Hst as [E | E]; rewrite E in Hcl; apply Hcl). pose proof (lk_procs _ Hl) as Hp. cbn [w_k w_clones] in Hp.
  assert (exists cl', w' = mk_world k' cl' /\ (forall a, a <> b -> cl' !! a = cl !! a) /\ (forall d, cl' !! b = Some d -> c_stage d = Failed) /\ (cl' !! b = None -> c_stage c = NeverRan)) as (cl' & -> & Hcl1 & Hcl2 & Hcl3).
  { destruct Hst as [E | E]; rewrite E in Es; injection Es as <-; eexists; (split; [done |]); cbn [w_clones].
    - split; [intros a Hne; by rewrite lookup_alter_ne by congruence |]. rewrite lookup_alter_eq, Hc. simpl. split; [by intros d [= <-] | done].
    - split; [intros a Hne; by rewrite lookup_delete_ne by congruence |]. by rewrite lookup_delete_eq. }
  destruct (forget_init_spec k1 (t_pid_ns t) (t_pid t) cl') as (V & Hnm & Htb). fold k' in V, Hnm, Htb. split.
  - intros Hw. pose proof Hw as [Hn Htn]. cbn [w_k] in *. apply Htb; [| destruct (t_pid_ns t) as [n |] eqn:En; [apply (Htn b t n Ht); by left | done]].
    split; cbn [w_k]; [apply (frozen_nums k); [| done]; constructor; try done; intros n x Hx; right; by exists x |].
    intros a s m Hs Hm. simpl in Hs. destruct (decide (a = b)) as [-> | Hne]; [rewrite lookup_insert_eq in Hs; injection Hs as <-; destruct Hm as [| Hm]; [done | apply (Htn b t m Ht); by right] | rewrite lookup_insert_ne in Hs by congruence; by apply (Htn a s)].
  - intros _ Ho Hst'. simpl in Hst'. apply (owned_but k k' cl cl' b Hp Ho); try done.
    + intros a Hne. rewrite (v_tasks _ _ V). simpl. by rewrite lookup_insert_ne by congruence.
    + apply (v_groups _ _ V).
    + intros a j Hne Hj. rewrite (v_tk _ _ V) in Hj. change (tk k j = Some a) in Hj. split; [done |]. apply Hnm. intros ->. destruct Hst as [E | E]; rewrite E in Hcl; [destruct Hcl; congruence |]. rewrite (Hst' c t Hc E Ht) in Hj. done.
    + intros s Hs. rewrite (v_tasks _ _ V) in Hs. simpl in Hs. rewrite lookup_insert_eq in Hs. injection Hs as <-. change (t_pid (set_t_pid_ns t None)) with (t_pid t). split; [done |]. split.
      * intros Hk Hset. exfalso. destruct (cl' !! b) as [d |] eqn:Ed; [specialize (Hset d Ed); by rewrite (Hcl2 d eq_refl) in Hset |]. rewrite (Hcl3 eq_refl) in Hcl. destruct Hcl as [_ Hcl]. apply Hcl. by rewrite (v_tk _ _ V) in Hk.
      * intros (d & Hd & _ & E). rewrite (Hcl2 d Hd) in E. done.
    + intros (d & Hd & _ & E). rewrite (Hcl2 d Hd) in E. done.
Qed.

(** ** A task in its group *)

(** A task gets a group of its own. *)
Lemma born_tabled k cl b t t' g x : tabled (mk_world k cl) -> k_tasks k !! b = Some t -> t_pid_ns t' = t_pid_ns t -> t_pid_ns_for_children t' = t_pid_ns_for_children t -> tabled (mk_world (put_group (put_task k b t') g x) cl).
Proof.
  intros [Hn Htn] Ht E1 E2. cbn [w_k] in *. split; cbn [w_k]; [apply (frozen_nums k); [| done]; constructor; try done; intros n z Hz; right; by exists z |].
  intros a s m Hs Hm. simpl in Hs. destruct (decide (a = b)) as [-> | Hne]; [rewrite lookup_insert_eq in Hs; injection Hs as <-; apply (Htn b t m Ht); by rewrite E1, E2 in Hm | rewrite lookup_insert_ne in Hs by congruence; by apply (Htn a s)].
Qed.
Lemma born_owned k cl b t t' g x : owned (mk_world k cl) -> k_tasks k !! b = Some t -> t_pid t' = t_pid t -> t_pid_ns t' = t_pid_ns t -> t_group t' = g -> g_leader x = b ->
  (forall d s, d <> b -> k_tasks k !! d = Some s -> t_group s <> g) -> owned (mk_world (put_group (put_task k b t') g x) cl).
Proof.
  intros [H1 H2 H3] Ht E1 E2 Eg El Hg. set (k' := put_group _ g x). assert (forall a s', k_tasks k' !! a = Some s' -> exists s, k_tasks k !! a = Some s /\ t_pid s' = t_pid s /\ t_pid_ns s' = t_pid_ns s /\ (a <> b -> s' = s)) as Hb.
  { intros a s' Hs. simpl in Hs. destruct (decide (a = b)) as [-> | Hne]; [rewrite lookup_insert_eq in Hs; injection Hs as <-; by exists t | rewrite lookup_insert_ne in Hs by congruence; by exists s']. }
  split; cbn [w_k w_clones] in *.
  - intros a s' Hs' Hk Hset. destruct (Hb a s' Hs') as (s & Hs & E & E' & _). rewrite E, E' in *. by apply (H1 a s).
  - intros a s' z lt' Hs' Hz Hlt' Hin. destruct (Hb a s' Hs') as (s & Hs & _ & E & Hsame). destruct (decide (a = b)) as [-> | Hne].
    + assert (t_group s' = g) as Eg' by (simpl in Hs'; rewrite lookup_insert_eq in Hs'; by injection Hs' as <-). rewrite Eg' in Hz. simpl in Hz. rewrite lookup_insert_eq in Hz. injection Hz as <-. congruence.
    + rewrite (Hsame Hne) in *. simpl in Hz. rewrite lookup_insert_ne in Hz by (symmetry; by apply (Hg a)). destruct (Hb _ lt' Hlt') as (lt & Hlt & _ & -> & _). by apply (H2 a s z lt).
  - intros a s' Hs' Hc. destruct (Hb a s' Hs') as (s & Hs & _ & -> & _). by apply (H3 a s).
Qed.

(** A thread joins its parent's. *)
Lemma joined_owned k cl b t x : owned (mk_world k cl) -> k_tasks k !! b = Some t -> k_groups k !! t_group t = Some x -> joining cl b -> owned (mk_world (put_group k (t_group t) (set_g_threads x (b :: g_threads x))) cl).
Proof.
  intros [H1 H2 H3] Ht Hx Hj. split; cbn [w_k w_clones] in *; [done | | done]. intros a s z lt Hs Hz Hlt Hin. simpl in Hz. destruct (decide (t_group s = t_group t)) as [E | Hne].
  - rewrite E, lookup_insert_eq in Hz. injection Hz as <-. apply (H2 a s x lt Hs); [by rewrite E | done |]. destruct Hin as [Hin | Hin]; [| by right]. simpl in Hin. apply elem_of_cons in Hin as [-> | Hin]; [by right | by left].
  - rewrite lookup_insert_ne in Hz by congruence. by apply (H2 a s z lt).
Qed.

(** The clone is linked. *)

Lemma link_keeps w b g w' : world_ok w -> ready w (ELink b g) -> step w (ELink b g) = Some w' -> keeps w (ELink b g) w'.
Proof.
  intros [Hl _] (Hg & Hr) Es. destruct (at_stage_task w b _ Hl Hr) as (c & t & Hc & Hst & Hcl & Ht). destruct w as [k cl]. cbn [w_k w_clones] in *. pose proof (lk_procs _ Hl) as Hp. cbn [w_k w_clones] in Hp.
  unfold step in Es. cbn [w_k w_clones] in Es. rewrite Hc in Es. cbn [mbind option_bind] in Es. rewrite Ht in Es. cbn [mbind option_bind] in Es. destruct (clone_link _ _ _ _) as [k' |] eqn:E; [| done]. cbn [mbind option_bind] in Es. injection Es as <-.
  assert (settled cl b) as Hset by (intros d Hd; assert (d = c) as -> by congruence; by destruct (c_stage c)).
  assert ((tabled (mk_world k cl) -> tabled (mk_world k' cl)) /\ (owned (mk_world k cl) -> owned (mk_world k' cl))) as [H1 H2].
  { unfold clone_link in E. rewrite Ht in E. cbn [mbind option_bind] in E. destruct (c_stage c) as [| | x | | | |] eqn:Est; try done.
    - destruct (k_groups k !! t_group t) as [y |] eqn:Hy; [| done]. cbn [mbind option_bind] in E. injection E as <-. split; [| intros Ho; apply joined_owned; try done; by exists c].
      intros [Hn Htn]. split; [| done]. cbn [w_k] in *. apply (frozen_nums k); [| done]. constructor; try done. intros n z Hz. right. by exists z.
    - destruct (pgroup_link_after k (t_group t) g) as [k1 |] eqn:E1; [| done]. cbn [mbind option_bind] in E. destruct (session_link_after k1 (t_group t) g) as [k2 |] eqn:E2; [| done]. cbn [mbind option_bind] in E. injection E as <-.
      assert (eased k k2) as Ea by (etrans; [apply (eased_link_after k k1 (t_group t) g); by left | apply (eased_link_after k1 k2 (t_group t) g); by right]).
      assert (k_tasks k2 = k_tasks k) as K2 by (unfold pgroup_link_after, session_link_after in *; repeat (destruct (decide _); [| done]); by injection E1 as <-; injection E2 as <-).
      split; intros Ho; [apply (born_tabled k2 cl b t); [by apply (eased_tabled k k2 cl cl) | by rewrite K2 | done | done] |].
      apply (born_owned k2 cl b t); try done; [by apply (eased_owned k k2 cl cl) | by rewrite K2 |]. intros d s Hne Hs. rewrite K2 in Hs. destruct (other_groups k cl b Hp (mk_is_Some _ _ Ht) d s Hne Hs) as [y Hy]. congruence. }
  destruct (eased_stage k' k' cl b c Linked (ELink b g)) as [_ H]; [done | done | done | done | done |]. split; [intros Hw; by apply tabled_clones with cl, H1 |]. intros Hw Ho _. apply H; [by apply H1 | by apply H2 | done].
Qed.

Lemma build_keeps w b g w' : world_ok w -> ready w (EBuild b g) -> step w (EBuild b g) = Some w' -> keeps w (EBuild b g) w'.
Proof.
  intros [Hl _] (Hg & Hr) Es. destruct (at_stage_task w b _ Hl Hr) as (c & t & Hc & (Est & _) & Hcl & Ht). destruct w as [k cl]. cbn [w_k w_clones] in *. pose proof (lk_procs _ Hl) as Hp. cbn [w_k w_clones] in Hp.
  unfold step, construct_group in Es. cbn [w_k w_clones] in Es. rewrite Ht in Es. cbn [mbind option_bind] in Es. set (x := mk_tgroup b 0 0 None [b] 0 false) in *. set (t' := set_t_tgid (set_t_group t g) (t_pid t)) in *. change (put_task (put_group k g x) b t') with (put_group (put_task k b t') g x) in Es.
  set (k1 := put_group _ g x) in *. destruct (task_setsid k1 b) as [[r k2] |] eqn:E2; [| done]. cbn [mbind option_bind] in Es. destruct (k_tasks k2 !! b) as [t2 |] eqn:Ht2; [| done]. cbn [mbind option_bind] in Es. injection Es as <-.
  assert (eased k1 (put_task k2 b (set_t_flags t2 (t_zombie t2) (t_exiting t2) (t_did_exec t2) true))) as Ea by (etrans; [by apply (eased_setsid k1 b r) | apply (eased_put_task k2 b t2); auto with procs]). set (k3 := put_task k2 b _) in *.
  assert (settled cl b) as Hset by (intros d Hd; assert (d = c) as -> by congruence; by rewrite Est).
  assert (tabled (mk_world k cl) -> tabled (mk_world k1 cl)) as H1 by (intros Hw; by apply (born_tabled k cl b t t' g x)). destruct (eased_done k1 k3 cl b (EBuild b g) Ea (or_introl Hset)) as [K1 K2].
  split; [intros Hw; by apply K1, H1 |]. intros Hw Ho _. apply K2; [by apply H1 | | done]. apply (born_owned k cl b t); try done. intros d s Hne Hs. destruct (other_groups k cl b Hp (mk_is_Some _ _ Ht) d s Hne Hs) as [y Hy]. congruence.
Qed.

(** ** execve from a thread *)

Lemma exec_numbers k cur inh k' c cl : exec_take_over k cur inh = Some k' -> k_tasks k !! cur = Some c -> (tabled (mk_world k cl) -> nums_ok k') /\ (forall j, j <> u32 (t_pid c) -> nm k' j = nm k j) /\ (forall n, is_Some (k_nss k !! n) -> is_Some (k_nss k' !! n)).
Proof.
  intros E Hc. unfold exec_take_over in E. rewrite Hc in E. cbn [mbind option_bind] in E. destruct (k_groups k !! t_group c) as [x |]; [| done]. cbn [mbind option_bind] in E.
  set (k1 := match pid_get_global k (t_pid c) with Some own => _ | None => k end) in *.
  assert (eased k k1 /\ forall j, j <> u32 (t_pid c) -> nm k1 j = nm k j) as [E1 N1].
  { unfold k1. destruct (pid_get_global k (t_pid c)) as [own |]; [| done]. destruct (bool_decide _); [| done]. split; [etrans; [apply (eased_slot_out k own) | apply eased_unnumber_if_empty] |].
    intros j Hj. unfold pid_ns_unnumber_if_empty. destruct (_ && _); [rewrite (proj1 (unnumber_frame _ _)) by done |]; by apply nm_alter. }
  clearbody k1. destruct (k_tasks k1 !! g_leader x) as [l |]; [| done]. cbn [mbind option_bind] in E. set (k2 := match pid_get_global k1 (t_pid l) with Some p => _ | None => k1 end) in *.
  assert (frozen k1 k2) as F2.
  { unfold k2. destruct (pid_get_global k1 (t_pid l)) as [p |] eqn:Ep; [| constructor; try done; intros n z Hz; right; by exists z].
    constructor; try done; [intros j; by apply nm_alter | intros n z Hz; right; by exists z |]. intros j Hj. destruct (decide (j = p)) as [-> | Hne]; [by apply (found_full k1 (t_pid l)) |].
    unfold full, pid_at, alter_pid in *. simpl in Hj. by rewrite lookup_alter_ne in Hj by congruence. }
  clearbody k2. injection E as <-. split; [| split].
  - intros [Hn _]. apply (frozen_nums k2); [constructor; try done; intros n z Hz; right; by exists z |]. by apply (frozen_nums k1), (ea_nums _ _ E1).
  - intros j Hj. change (nm k2 j = nm k j). rewrite (fz_nm _ _ F2). by apply N1.
  - intros n Hn. change (is_Some (k_nss k2 !! n)). apply (tree_some _ _ n (fz_tree _ _ F2)), (ea_ns _ _ E1), Hn.
Qed.

Lemma exec_keeps w a inh w' : world_ok w -> ready w (EExec a inh) -> step w (EExec a inh) = Some w' -> keeps w (EExec a inh) w'.
Proof.
  intros Hok (Hr & Hinh & g & y & Hg & Hnl & Hthr) Es. destruct w as [k cl]. destruct (running_world k cl a Hok Hr) as (c & x & lt & Hc & Hx & Ha & Hln & Hk & Hlt & Eg & Hkl & Hrl & Hn & Hnm & Hbusy). pose proof Hok as [Hl _].
  cbn [w_k w_clones] in *. destruct (group_of_facts k a g y Hg) as (t0 & Ht0 & -> & Hy). assert (t0 = c) as -> by congruence. assert (y = x) as -> by congruence.
  destruct (exec_view k cl Hl a c x lt Hc Hx Hnl Hlt Hkl Hk inh) as (k' & p & E & P); [destruct inh; [by intros q [= <-] | done] |]. unfold step in Es. cbn [w_k] in Es. rewrite E in Es. cbn [mbind option_bind] in Es. injection Es as <-.
  destruct (exec_numbers k a inh k' c cl E Hc) as (Hnums & Hnm' & Hns). assert (u32 (t_pid c) = t_pid c) as Eu by (destruct (po_listed _ _ (lk_procs _ Hl) _ _ Hk) as [H _]; unfold MAX_PID in H; apply u32_small; lia). rewrite Eu in Hnm'.
  assert (forall d s', k_tasks k' !! d = Some s' -> exists s, k_tasks k !! d = Some s /\ t_group s' = t_group s /\ t_pid_ns s' = t_pid_ns s /\ t_pid_ns_for_children s' = t_pid_ns_for_children s) as Hb.
  { intros d s' Hs'. destruct (exec_task_inv k a c x lt Hc Hlt k' p P d s' Hs') as (s & Hs & E' & H). exists s. split; [done |]. split; [done |]. destruct H as [[-> ->] | [[-> ->] | (_ & _ & ->)]]; simpl; split; congruence. }
  split.
  - intros Hw. split; cbn [w_k]; [by apply Hnums |]. intros d s' m Hs' Hm. destruct (Hb d s' Hs') as (s & Hs & _ & E1 & E2). apply Hns, (tb_tasks _ Hw d s m Hs). by rewrite <- E1, <- E2.
  - intros _ [H1 H2 H3] _. cbn [w_k w_clones] in *. assert (t_pid_ns c = t_pid_ns lt) as Ens by (apply (H2 a c x lt Hc Hx Hlt); by left). split; cbn [w_k w_clones].
    + intros d s' Hs' Hk' Hset. destruct (exec_slot_inv k cl Hl a c x lt Hc Hlt k' p P (t_pid s') d Hk') as [[-> Ep] | (Hd1 & Hd2 & Hkd)].
      * destruct (exec_task_inv k a c x lt Hc Hlt k' p P a s' Hs') as (s & Hs & _ & H). destruct (Hb a s' Hs') as (s2 & Hs2 & _ & E1 & _). rewrite E1, Ep. assert (s2 = c) as -> by congruence. rewrite Hnm' by congruence. rewrite Ens. apply (H1 (g_leader x) lt Hlt Hkl). intros d Hd. congruence.
      * destruct (exec_task_inv k a c x lt Hc Hlt k' p P d s' Hs') as (s & Hs & _ & [[-> _] | [[-> _] | (_ & _ & ->)]]); [done | done |]. rewrite Hnm' by congruence. by apply (H1 d s).
    + intros d s' z lt' Hs' Hz Hlt' Hin. destruct (Hb d s' Hs') as (s & Hs & Egs & -> & _). destruct (Hb _ lt' Hlt') as (l0 & Hl0 & _ & -> & _).
      destruct (exec_group k a c x lt Hx k' p P (t_group s') z Hz) as (y & Hy' & Eth & _ & _ & _ & [(Eh & -> & El) | (_ & ->)]).
      * rewrite El in Hl0. assert (l0 = c) as -> by congruence. rewrite Ens. apply (H2 d s x lt Hs); [congruence | done | by rewrite <- Eth].
      * rewrite Egs in Hy'. by apply (H2 d s y l0).
    + intros d s' Hs' Hcr. destruct (Hb d s' Hs') as (s & Hs & _ & -> & _). by apply (H3 d s).
Qed.

(** ** Every event *)

Lemma unshare_keeps w a mem n w' : ready w (EUnshare a mem n) -> step w (EUnshare a mem n) = Some w' -> keeps w (EUnshare a mem n) w'.
Proof.
  intros (_ & Hn) Es. destruct w as [k cl]. unfold step in Es. cbn [w_k w_clones] in *. destruct (k_tasks k !! a) as [t |] eqn:Ht; [| done]. cbn [mbind option_bind] in Es.
  set (below := match t_pid_ns_for_children t with Some m => Some m | None => t_pid_ns t end) in *.
  assert (tabled (mk_world k cl) -> eased k (w_k w') /\ w_clones w' = cl) as H.
  { intros Hw. destruct (pid_ns_new k below mem n) as [[m | err] k1] eqn:E.
    - destruct (eased_new_ns k below mem n m k1 Hn) as (E1 & -> & Hs & T1); [destruct below as [m' |] eqn:Eb; [apply (tb_tasks _ Hw a t m' Ht); unfold below in Eb; destruct (t_pid_ns_for_children t); auto | done] | done |].
      destruct (on_task k1 a _) as [k2 |] eqn:E2; [| done]. cbn [mbind option_bind] in Es. injection Es as <-. split; [| done]. etrans; [exact E1 |]. apply (eased_on_task k1 a _ k2) in E2; [done |]. intros s _. constructor; try done. simpl. intros m [= <-]. by left.
    - injection Es as <-. split; [| done]. unfold pid_ns_new in E. destruct (_ && _); [by injection E as _ <- |]. destruct mem; [done |]. by injection E as _ <-. }
  destruct w' as [k' cl']. cbn [w_k w_clones] in H. split.
  - intros Hw. destruct (H Hw) as [E ->]. by apply (eased_tabled k k' cl cl).
  - intros Hw Ho _. destruct (H Hw) as [E ->]. by apply (eased_owned k k' cl cl).
Qed.

Lemma destroy_keeps w b w' : world_ok w -> ready w (EDestroy b) -> step w (EDestroy b) = Some w' -> keeps w (EDestroy b) w'.
Proof.
  intros [Hl _] Hr Es. destruct (at_stage_task w b _ Hl Hr) as (c & t & Hc & Est & (t0 & Ht0 & Hcl) & Ht). destruct w as [k cl]. cbn [w_k w_clones] in *. assert (t0 = t) as -> by congruence. rewrite Est in Hcl. destruct Hcl as [Hi Hk].
  unfold step in Es. cbn [w_k] in Es. destruct (alone_unlink_spec k cl Hl b t Ht Hk) as (k' & E & D & _); [intros y Hy; by apply (proj1 Hi (t_group t)) |]. rewrite E in Es. cbn [mbind option_bind] in Es. injection Es as <-.
  apply eased_done; [by apply (eased_unlink_locked k b) |]. right. intros j. rewrite (sh_tk _ _ _ _ _ (dp_shrunk _ _ _ _ _ D)). simpl. by destruct (bool_decide_reflect (tk k j = Some b)).
Qed.

(** An event that is an operation on the kernel alone. *)
Lemma eased_op k cl (o : option kernel) e w' : o ≫= (fun k => Some (mk_world k cl)) = Some w' -> (forall k', o = Some k' -> eased k k') -> keeps (mk_world k cl) e w'.
Proof. intros (k' & -> & [= <-])%bind_Some H. by apply eased_keeps, H. Qed.

Lemma step_keeps w e w' : world_ok w -> ready w e -> calm w e -> step w e = Some w' -> keeps w e w'.
Proof.
  intros Hok Hr Hc Es. pose proof Hok as [Hl _]. destruct w as [k cl]. destruct e.
  - by apply create_keeps.
  - simpl in Es. destruct (cl !! b) as [c |]; [| done]. simpl in Es. destruct (c_parent c) as [a |]; [| done]. simpl in Es. unfold clone_parent in Es. destruct (k_tasks k !! a) as [ta |]; [| done]. simpl in Es. destruct (t_parent ta) as [p |]; [| done]. simpl in Es.
    destruct (k_tasks k !! p) as [pt |]; [| done]. simpl in Es. destruct (k_tasks k !! b) as [t |] eqn:Ht; [| done]. simpl in Es. injection Es as <-. apply eased_keeps, (eased_put_task k b t); [done |]. constructor; auto.
  - by apply ns_keeps.
  - destruct (at_stage_task _ b _ Hl Hr) as (c & t & Hcl & (Est & _) & _). simpl in Es, Hcl. destruct (group_of k b) as [[g x] |]; [| done]. simpl in Es. injection Es as <-. apply (eased_stage k k cl b c); try done. simpl. intros d Hd. assert (d = c) as -> by congruence. by rewrite Est.
  - by apply link_keeps.
  - destruct (at_stage_task _ b _ Hl Hr) as (c & t & Hcl & _). simpl in Es, Hcl. rewrite Hcl in Es. simpl in Es. injection Es as <-. apply (eased_stage k k cl b c); try done; by destruct (c_stage c).
  - destruct (at_stage_task _ b _ Hl Hr) as (c & t & Hcl & _ & _ & Ht). simpl in Es, Hcl, Ht. rewrite Hcl in Es. simpl in Es. rewrite Ht in Es. simpl in Es. destruct (fail_unlink_group k b _) as [k' |] eqn:E; [| done]. simpl in Es. injection Es as <-.
    apply (eased_stage k k' cl b c); try done. by eapply (eased_fail_unlink k b).
  - by apply forget_keeps.
  - by apply destroy_keeps.
  - destruct (at_stage_task _ b _ Hl Hr) as (c & t & Hcl & Est & _). simpl in Es, Hcl. injection Es as <-. apply eased_done; [done |]. left. intros d Hd. assert (d = c) as -> by congruence. by rewrite Est.
  - destruct (at_stage_task _ b _ Hl Hr) as (c & t & Hcl & Est & _). simpl in Es, Hcl. destruct (task_never_ran_destroy k b) as [k' |] eqn:E; [| done]. simpl in Es. injection Es as <-. apply (eased_stage k k' cl b c); try done. by apply (eased_never_ran k b).
  - by apply build_keeps.
  - destruct Hr as (Hr & Hid & Hpg). destruct (running_world k cl a Hok Hr) as (t & x & lt & Ht & Hx & Ha & _ & _ & _ & _ & _ & _ & Hn & _). simpl in Es, Hc. destruct (sys_setpgid k a id pgid) as [[r k'] |] eqn:E; [| done]. simpl in Es. injection Es as <-.
    apply eased_keeps, (eased_setpgid k cl a t id pgid r); try done; [by exists (t_group t), x, a |]. intros b s Hs [-> | Hpa]; [unfold whole; by rewrite Hn | by apply (Hc b s)].
  - simpl in Es. unfold sys_setsid in Es. destruct (k_tasks k !! a); [| done]. simpl in Es. destruct (task_setsid k a) as [[r k'] |] eqn:E; [| done]. simpl in Es. injection Es as <-. by apply eased_keeps, (eased_setsid k a r).
  - apply (eased_op k cl _ _ _ Es), eased_restore.
  - apply (eased_op k cl _ _ _ Es). intros k'. apply eased_on_task. auto with procs.
  - apply (eased_op k cl _ _ _ Es), eased_exit.
  - apply (eased_op k cl _ _ _ Es). intros k'. apply eased_on_task. auto with procs.
  - apply (eased_op k cl _ _ _ Es), eased_thread_unlink.
  - apply (eased_op k cl _ _ _ Es), eased_release.
  - simpl in Es. destruct (find_new_parent k a) as [p |]; [| done]. simpl in Es. destruct (on_task k b _) as [k' |] eqn:E; [| done]. simpl in Es. injection Es as <-. apply eased_keeps. apply (eased_on_task k b _ k') in E; [done |]. intros t _. constructor; auto.
  - by apply exec_keeps.
  - apply (eased_op k cl _ _ _ Es). intros k'. apply eased_on_task. auto with procs.
  - by apply unshare_keeps.
  - destruct Hr as (_ & _ & Hs). simpl in Es, Hs. destruct (on_task k a _) as [k' |] eqn:E; [| done]. simpl in Es. injection Es as <-. apply eased_keeps. apply (eased_on_task k a _ k') in E; [done |]. intros t _. constructor; try done. simpl.
    destruct (bool_decide _); [done |]. intros m ->. by left.
  - destruct Hr as [x Hx]. simpl in Es, Hx. rewrite Hx in Es. simpl in Es. injection Es as <-. apply eased_keeps, (eased_put_ns k n x); try done. by left.
  - simpl in Es. injection Es as <-. apply eased_keeps. unfold task_set_pid_max. destruct (_ || _); [done | apply eased_set_max].
  - simpl in Es. injection Es as <-. apply eased_keeps, eased_set_ttys.
  - apply (eased_op k cl _ _ _ Es), eased_open.
  - simpl in Es. destruct (tiocsctty k a y force superuser) as [[r k'] |] eqn:E; [| done]. simpl in Es. injection Es as <-. by apply eased_keeps, (eased_sctty k a y force superuser r).
  - simpl in Es. destruct (tiocspgrp k a y pgid) as [[r k'] |] eqn:E; [| done]. simpl in Es. injection Es as <-. by apply eased_keeps, (eased_spgrp k a y pgid r).
  - simpl in Es. destruct (tiocnotty k a y) as [[[r h] k'] |] eqn:E; [| done]. simpl in Es. injection Es as <-. by apply eased_keeps, (eased_notty k a y r h).
Qed.

Lemma boot_tabled : tabled boot.
Proof. split; [constructor; intros; done | done]. Qed.
Lemma boot_owned : owned boot.
Proof. split; intros; done. Qed.

Lemma reachable_tabled w : reachable w -> tabled w.
Proof. induction 1 as [| w e w' Hr IH Hre Hc Hs]; [apply boot_tabled |]. by apply (step_keeps w e w' (reachable_ok w Hr) Hre Hc Hs). Qed.

(** The runs without that race. *)
Inductive steadily : world -> Prop :=
| steady_boot : steadily boot
| steady_step w e w' : steadily w -> ready w e -> calm w e -> steady w e -> step w e = Some w' -> steadily w'.

Lemma steadily_reachable w : steadily w -> reachable w.
Proof. induction 1 as [| w e w' _ IH Hre Hc _ Hs]; [constructor | by apply (reach_step w e)]. Qed.
Lemma steadily_owned w : steadily w -> owned w.
Proof.
  induction 1 as [| w e w' Hr IH Hre Hc Hst Hs]; [apply boot_owned |]. apply steadily_reachable in Hr. apply (step_keeps w e w' (reachable_ok w Hr) Hre Hc Hs); [by apply reachable_tabled | done | done].
Qed.
