(* ===== verification/PidClaims.v ===== *)
(** * What the numbers of a pid namespace promise

    Over every world the machine gets to: a number names one pid and back, and
    a task is found by the number it is shown by, by those who may see it and
    nobody else. *)

From S2P Require Import Prelude Pids Groups Procs Ctty ProcWorld ProcLinks ProcSound ProcStep ProcClaims ProcRaces PidNums PidSeen PidViews.

(** ** Numbers and pids *)

Lemma shown_nr k v id : 0 < id <= MAX_PID -> pid_ns_shown k (Some v) id = nr k v id.
Proof. intros Hr. unfold pid_ns_shown. destruct (id <=? 0) eqn:E; [to_prop; lia |]. destruct (id <=? MAX_PID) eqn:E2; [done | to_prop; lia]. Qed.

Lemma shown_global k v id : nums_ok k -> full k id -> 0 < id <= MAX_PID -> nr k v id <> 0 -> 0 < nr k v id <= MAX_PID /\ pid_ns_global k (Some v) (nr k v id) = id.
Proof.
  intros Hn Hf Hr Hne. destruct (nu_named _ Hn v id Hne) as [Hv _]. split; [done |]. unfold pid_ns_global. destruct (_ <=? 0) eqn:E1; [to_prop; lia |]. destruct (_ >? MAX_PID) eqn:E2; [to_prop; lia |].
  pose proof (nu_inv _ Hn v id Hf Hne) as Hh. unfold held in Hh. rewrite Hh. change (entry (n_nr_of (nss_at k v)) id) with (nr k v id). rewrite Z.eqb_refl. destruct (id <=? 0) eqn:E3; [to_prop; lia |]. destruct (id >? MAX_PID) eqn:E4; [to_prop; lia |]. done.
Qed.

Lemma global_shown k v i : 0 < i -> pid_ns_global k (Some v) i <> PID_NS_NO_PID -> 0 < pid_ns_global k (Some v) i <= MAX_PID /\ nr k v (pid_ns_global k (Some v) i) = i.
Proof.
  intros Hi. unfold pid_ns_global. destruct (i <=? 0) eqn:E1; [to_prop; lia |]. destruct (i >? MAX_PID); [done |]. destruct (_ || _) eqn:E2; [done |]. intros _. to_prop. split; [lia | done].
Qed.

(** C15: in each pid namespace numbers and the pids in use are one to one: a pid
    in use that has a number there is the pid that number stands for, and the
    pid a number stands for has that number.  So no two tasks, process groups
    or sessions go by one number, whatever was created, killed, numbered, given
    up half way or renumbered before. *)
Theorem pid_numbers_roundtrip w v : reachable w ->
  (forall id, pid_empty (pid_at (w_k w) id) = false -> pid_ns_shown (w_k w) (Some v) id <> 0 ->
    0 < pid_ns_shown (w_k w) (Some v) id <= MAX_PID /\ pid_ns_global (w_k w) (Some v) (pid_ns_shown (w_k w) (Some v) id) = id) /\
  (forall i, 0 < i -> pid_ns_global (w_k w) (Some v) i <> PID_NS_NO_PID -> pid_ns_shown (w_k w) (Some v) (pid_ns_global (w_k w) (Some v) i) = i).
Proof.
  intros Hr. pose proof (tb_nums _ (reachable_tabled w Hr)) as Hn. split.
  - intros id Hf. destruct w as [k cl]. pose proof (slot_range k cl id (wo_links _ (reachable_ok _ Hr)) Hf) as Hid. rewrite shown_nr by done. by apply shown_global.
  - intros i Hi Hne. destruct (global_shown _ v i Hi Hne) as [Hr' E]. by rewrite shown_nr.
Qed.

(** ** Looking a task up *)

Lemma visible_up k a t v : nums_ok k -> is_Some (k_nss k !! v) -> k_tasks k !! a = Some t -> task_visible k a (Some v) = true <-> v ∈ ups k (t_pid_ns t).
Proof. intros Hn Hv Ht. unfold task_visible, task_ns. rewrite Ht. by apply pid_ns_in_ups. Qed.

Lemma zombie_lookup k cl v a t i : links_ok (mk_world k cl) -> k_tasks k !! a = Some t -> in_s 32 i -> pid_get_task_zombie k (Some v) i = Some a ->
  0 < i /\ pid_ns_global k (Some v) i = t_pid t /\ task_visible k a (Some v) = true.
Proof.
  intros Hl Ht Hi. unfold pid_get_task_zombie, pid_get, s32. rewrite swrap_small by (done || lia). destruct (pid_get_global k _) as [p |] eqn:E; [| done]. destruct (pid_slot_visible _ _ _) eqn:Ev; [| done].
  intros Hk. destruct (po_listed _ _ (lk_procs _ Hl) p a Hk) as (Hp & s & Hs & Ep). cbn [w_k] in Hs. assert (s = t) as -> by congruence. apply pid_get_global_spec in E as (E & _ & _).
  unfold pid_slot_visible, slot_holder in Ev. rewrite Hk in Ev. unfold pid_ns_global in *. unfold in_s in Hi. simpl in Hi. destruct (i <=? 0) eqn:E0.
  - to_prop. exfalso. unfold u32, wrap, MAX_PID in *. destruct (decide (i = 0)) as [-> |]; [rewrite Z.mod_0_l in E by lia; lia |]. rewrite <- (Z.mod_add i 1 (2 ^ 32)) in E by lia. rewrite Z.mod_small in E by lia. lia.
  - to_prop. split; [done |]. split; [| done]. destruct (i >? MAX_PID); [exfalso; revert Hp; rewrite E; vm_compute; naive_solver |]. destruct (_ || _) eqn:E2; [exfalso; revert Hp; rewrite E; vm_compute; naive_solver |].
    to_prop. rewrite u32_small in E by (unfold MAX_PID in *; lia). congruence.
Qed.


(** ** A machine with a namespace, to look at

    init, and a child it made with CLONE_NEWPID: pid 3, number 1 in the
    namespace at 40. *)

#[export] Instance tgroup_eq_dec : EqDecision tgroup.
Proof. solve_decision. Defined.

(** Is this event calm and steady, being one the run below is made of? *)
Definition calmb (w : world) (e : event) : bool :=
  match e with
  | ECreate _ _ _ _ | ENs _ _ _ _ _ | ECopy _ | EStart _ | EBuild _ _ => true
  | ELink b _ => staged w b (fun c => match c_stage c with Copied x => match group_of (w_k w) b with Some (_, y) => bool_decide (x = tgroup_copy y) | None => false end | _ => true end)
  | _ => false
  end.
Lemma event_calm w e : calmb w e = true -> calm w e /\ steady w e.
Proof.
  destruct e; try done. simpl. unfold staged. intros H. split; [| done]. intros c x Hc Hx. rewrite Hc, Hx in H. destruct (group_of (w_k w) b) as [[h y] |]; [| done]. apply bool_decide_eq_true in H as ->. by exists h, y.
Qed.

Fixpoint run_calm (w : world) (es : list event) : option world :=
  match es with
  | [] => Some w
  | e :: es => if readyb w e && calmb w e then w' ← step w e; run_calm w' es else None
  end.
Lemma run_calm_steadily es w w' : steadily w -> run_calm w es = Some w' -> steadily w'.
Proof.
  revert w. induction es as [| e es IH]; intros w Hw; simpl; [by intros [= <-] |]. destruct (readyb w e && calmb w e) eqn:E; [| done]. apply andb_true_iff in E as [E1 E2]. destruct (step w e) as [w1 |] eqn:Es; [| done]. simpl.
  apply IH. destruct (event_calm w e E2). apply (steady_step w e); [done | by apply event_ready | done | done | done].
Qed.

Definition newpid (p c g n : Z) : list event := [ECreate (Some p) (Some p) 0 c; ENs c false true true n; ECopy c; ELink c g; EStart c].
Definition spaces : world := Eval vm_compute in default boot (run_calm boot (init ++ newpid 10 11 21 40)).
Lemma spaces_steadily : steadily spaces.
Proof. apply (run_calm_steadily (init ++ newpid 10 11 21 40) boot); [constructor | by vm_compute]. Qed.

Lemma pid_numbers_roundtrip_witness : 0 < 1 <= MAX_PID /\ pid_ns_global (w_k spaces) (Some 40) 1 = 3.
Proof. exact (proj1 (pid_numbers_roundtrip spaces 40 (steadily_reachable _ spaces_steadily)) 3 ltac:(by vm_compute) ltac:(by vm_compute)). Defined.


(** ** A task's numbers taken by one that never ran

    task_never_ran_destroy takes its task off the table, leaves pids_lock, and
    in pid_ns_forget_init takes the numbers of that pid back a second time.  By
    then the pid may be another task's: here pid 4, once pid_max has been set to
    301 and the pids up to it were used.  The new task, init of a namespace of
    its own, is in that namespace and has no number there. *)
Definition spin (i : nat) : list event := let b := 1000 + Z.of_nat i in [ECreate (Some 11) (Some 11) 0 b; EFailEarly b; EDestroy b].
Definition taken : list event :=
  init ++ fork 10 11 21 ++ [EPidMax 301; ECreate (Some 10) (Some 10) 0 12; ENs 12 false true true 40; ECopy 12; ELink 12 22; ENeverRan 12] ++
  concat (map spin (seq 0 296)) ++ newpid 11 13 23 41 ++ [EForget 12].

Theorem never_ran_unnumbers_other : exists w, occurs w /\ (t ← k_tasks (w_k w) !! 13; Some (t_pid t, t_pid_ns t)) = Some (4, Some 41) /\ p_task (pid_at (w_k w) 4) = Some 13 /\
  task_visible (w_k w) 13 (Some 41) = true /\ pid_ns_shown (w_k w) (Some 41) 4 = 0 /\ pid_get_task (w_k w) (Some 41) 1 = None.
Proof.
  assert ((fun w => (t ← k_tasks (w_k w) !! 13; Some (t_pid t, t_pid_ns t), p_task (pid_at (w_k w) 4), task_visible (w_k w) 13 (Some 41), pid_ns_shown (w_k w) (Some 41) 4, pid_get_task (w_k w) (Some 41) 1))
    <$> run_ready boot taken = Some (Some (4, Some 41), Some 13, true, 0, None)) as E by (vm_compute; reflexivity).
  apply fmap_Some in E as (w & Hw & E). exists w. split; [apply (run_ready_occurs taken boot); [constructor | done] |]. clear Hw. injection E as E1 E2 E3 E4 E5. split_and!; symmetry; assumption.
Qed.
