(* ===== verification/Futex.v ===== *)
(** * Futexes (kernel/futex.c)

    A futex is an object in a hash table, found by its key, with the queue of
    the calls asleep on it.  A call that sleeps is a [futex_wait]: the C code has
    it on the stack of the sleeping thread and links it into the queue, so here
    it is an object at an address, and stays there once it is dead ([w_magic]).
    Everything runs under futex_lock but the sleeps: an operation that sleeps is
    the pieces between.  A failed assertion and a use of an object that is not
    there are [None].

    A futex word is a place in [s_words]; where a guest address leads, and what
    shared memory it is in, is what emu/memory.c says when the call asks
    ([word], [None] for a fault, and [id]).  Times are nanoseconds. *)

From S2P Require Import Prelude.
#[local] Open Scope c_scope.

Definition FUTEX_WAIT_ := 0.
Definition FUTEX_WAKE_ := 1.
Definition FUTEX_REQUEUE_ := 3.
Definition FUTEX_CMP_REQUEUE_ := 4.
Definition FUTEX_WAKE_OP_ := 5.
Definition FUTEX_LOCK_PI_ := 6.
Definition FUTEX_UNLOCK_PI_ := 7.
Definition FUTEX_TRYLOCK_PI_ := 8.
Definition FUTEX_WAIT_BITSET_ := 9.
Definition FUTEX_WAKE_BITSET_ := 10.
Definition FUTEX_CMP_REQUEUE_PI_ := 12.
Definition FUTEX_LOCK_PI2_ := 13.
Definition FUTEX_PRIVATE_FLAG_ := 128.
Definition FUTEX_CLOCK_REALTIME_ := 256.
Definition FUTEX_CMD_MASK_ := u32 (Z.lnot (FUTEX_PRIVATE_FLAG_ .| FUTEX_CLOCK_REALTIME_)).
Definition FUTEX_WAITERS_ := 0x80000000.
Definition FUTEX_OWNER_DIED_ := 0x40000000.
Definition FUTEX_TID_MASK_ := 0x3fffffff.
Definition all_bits := 0xffffffff.
Definition _ERESTART_NOINTR := -513.

(** ** Objects *)

Record futex_key := mk_key { fk_kind : Z; fk_object0 : Z; fk_object1 : Z; fk_offset : Z }.

(** [struct futex]; the queues list waits by address. *)
Record futex := mk_futex {
  f_refcount : Z; f_key : futex_key; f_queue : list Z; f_pi_queue : list Z; f_pi_owner : Z; f_wake_seq : Z }.

(** [struct futex_wait]; [w_linked]: its list node is not null. *)
Record futex_wait := mk_wait {
  w_magic : bool; w_futex : Z; w_bitset : Z; w_interrupted : bool; w_linked : bool; w_tid : Z; w_pi_owned : bool }.

(** A task's [futex_restart_*] fields. *)
Record park := mk_park { r_futex : option Z; r_uaddr : Z; r_wake_seq : Z; r_timed : bool; r_deadline : Z; r_timeout : Z }.

Record state := mk_state {
  s_futexes : gmap Z futex; s_hash : gmap Z (list Z); s_waits : gmap Z futex_wait;
  s_parks : gmap Z park; s_pi_waiting : Z; s_words : gmap Z Z }.

Definition set_refcount x r := mk_futex r (f_key x) (f_queue x) (f_pi_queue x) (f_pi_owner x) (f_wake_seq x).
Definition set_queues x q p := mk_futex (f_refcount x) (f_key x) q p (f_pi_owner x) (f_wake_seq x).
Definition set_pi_owner x o := mk_futex (f_refcount x) (f_key x) (f_queue x) (f_pi_queue x) o (f_wake_seq x).
Definition set_wake_seq x n := mk_futex (f_refcount x) (f_key x) (f_queue x) (f_pi_queue x) (f_pi_owner x) n.
Definition set_linked v b := mk_wait (w_magic v) (w_futex v) (w_bitset v) (w_interrupted v) b (w_tid v) (w_pi_owned v).
Definition set_w_futex v f := mk_wait (w_magic v) f (w_bitset v) (w_interrupted v) (w_linked v) (w_tid v) (w_pi_owned v).
Definition set_magic v b := mk_wait b (w_futex v) (w_bitset v) (w_interrupted v) (w_linked v) (w_tid v) (w_pi_owned v).
Definition set_interrupted v b := mk_wait (w_magic v) (w_futex v) (w_bitset v) b (w_linked v) (w_tid v) (w_pi_owned v).
Definition set_pi_owned v b := mk_wait (w_magic v) (w_futex v) (w_bitset v) (w_interrupted v) (w_linked v) (w_tid v) b.

Definition set_futexes s x := mk_state x (s_hash s) (s_waits s) (s_parks s) (s_pi_waiting s) (s_words s).
Definition set_hash s x := mk_state (s_futexes s) x (s_waits s) (s_parks s) (s_pi_waiting s) (s_words s).
Definition set_waits s x := mk_state (s_futexes s) (s_hash s) x (s_parks s) (s_pi_waiting s) (s_words s).
Definition set_parks s x := mk_state (s_futexes s) (s_hash s) (s_waits s) x (s_pi_waiting s) (s_words s).
Definition set_pi_waiting s x := mk_state (s_futexes s) (s_hash s) (s_waits s) (s_parks s) x (s_words s).
Definition set_words s x := mk_state (s_futexes s) (s_hash s) (s_waits s) (s_parks s) (s_pi_waiting s) x.

Definition put_futex s f x := set_futexes s (<[f := x]> (s_futexes s)).
Definition put_wait s w v := set_waits s (<[w := v]> (s_waits s)).
Definition put_park s cur p := set_parks s (<[cur := p]> (s_parks s)).
Definition bucket s (b : Z) : list Z := default [] (s_hash s !! b).
Definition put_bucket s b l := set_hash s (<[b := l]> (s_hash s)).
Definition no_park : park := mk_park None 0 0 false 0 0.
Definition park_of s (cur : Z) : park := default no_park (s_parks s !! cur).

(** ** Keys *)

(** What emu/memory.c says of a page that is shared memory. *)
Record mem_shared_id := mk_id { id_kind : Z; id_object0 : Z; id_object1 : Z; id_index : Z }.

Definition PAGE_BITS := 12.
Definition PGOFFSET (addr : Z) := addr .& (2 ^ PAGE_BITS - 1).

Definition futex_shared_key (addr : Z) (id : option mem_shared_id) : option futex_key :=
  match id with
  | Some i => Some (mk_key (id_kind i) (id_object0 i) (id_object1 i) (u64 (Z.shiftl (id_index i) PAGE_BITS) .| PGOFFSET addr))
  | None => None
  end.

Definition FUTEX_KEY_PRIVATE := 0.

Definition futex_key_of (mem addr op : Z) (id : option mem_shared_id) : futex_key :=
  let private := mk_key FUTEX_KEY_PRIVATE mem 0 addr in
  if has_flag op FUTEX_PRIVATE_FLAG_ then private
  else match futex_shared_key addr id with Some k => k | None => private end.

Definition futex_key_equal (a b : futex_key) : bool :=
  (fk_kind a =? fk_kind b) && (fk_object0 a =? fk_object0 b) && (fk_object1 a =? fk_object1 b) && (fk_offset a =? fk_offset b).

Definition futex_key_hash (k : futex_key) : Z :=
  let mix := 0x9e3779b97f4a7c15 in
  let h := u64 (Z.lxor (fk_offset k) (fk_kind k) * mix) in
  let h := u64 (Z.lxor h (fk_object0 k) * mix) in
  let h := u64 (Z.lxor h (fk_object1 k) * mix) in
  Z.shiftr h (64 - 12).

(** ** The table *)

Fixpoint find_futex (s : state) (key : futex_key) (l : list Z) : option (option Z) :=
  match l with
  | [] => Some None
  | f :: l => x ← s_futexes s !! f; if futex_key_equal (f_key x) key then Some (Some f) else find_futex s key l
  end.

(** [new]: where malloc puts a new futex, [None] when it has no memory. *)
Definition futex_get_unlocked (s : state) (key : futex_key) (new : option Z) : option (option Z * state) :=
  let b := futex_key_hash key in
  found ← find_futex s key (bucket s b);
  match found with
  | Some f => x ← s_futexes s !! f; Some (Some f, put_futex s f (set_refcount x (u32 (f_refcount x + 1))))
  | None =>
      match new with
      | None => Some (None, s)
      | Some f => Some (Some f, put_bucket (put_futex s f (mk_futex 1 key [] [] 0 0)) b (f :: bucket s b))
      end
  end.

Definition drop (a : Z) (l : list Z) : list Z := filter (fun x => x <> a) l.

Definition futex_put_unlocked (s : state) (f : Z) : option state :=
  x ← s_futexes s !! f;
  let r := u32 (f_refcount x - 1) in
  if r =? 0 then
    match f_queue x, f_pi_queue x with
    | [], [] =>
        let b := futex_key_hash (f_key x) in
        Some (put_bucket (set_futexes s (delete f (s_futexes s))) b (drop f (bucket s b)))
    | _, _ => None
    end
  else Some (put_futex s f (set_refcount x r)).

(** ** Words *)

Definition word_at (s : state) (l : Z) : Z := default 0 (s_words s !! l).
Definition store (s : state) (l v : Z) : state := set_words s (<[l := v]> (s_words s)).

Definition futex_load (s : state) (word : option Z) : option Z := match word with Some l => Some (word_at s l) | None => None end.

Definition futex_cas (s : state) (word : option Z) (expected desired : Z) : Z * state :=
  match word with
  | None => (_EFAULT, s)
  | Some l => if word_at s l =? expected then (0, store s l desired) else (_EAGAIN, s)
  end.

(** ** Queues *)

(** [list_remove(&wait->queue)]: off the queue of the futex the wait is on. *)
Definition dequeue (s : state) (w : Z) : option state :=
  v ← s_waits s !! w;
  x ← s_futexes s !! w_futex v;
  Some (put_wait (put_futex s (w_futex v) (set_queues x (drop w (f_queue x)) (drop w (f_pi_queue x)))) w (set_linked v false)).
Definition dequeue_safe (s : state) (w : Z) : option state :=
  v ← s_waits s !! w; if w_linked v then dequeue s w else Some s.

(** The loops that wake: over the waits [l] of a queue, [woken] so far; [mask]
    is the bits to match, where the loop looks at them. *)
Fixpoint wake_queue (s : state) (l : list Z) (mask : option Z) (max woken : Z) : option (Z * state) :=
  match l with
  | [] => Some (woken, s)
  | w :: l =>
      if woken >=? max then Some (woken, s)
      else
        v ← s_waits s !! w;
        if match mask with Some m => w_bitset v .& m =? 0 | None => false end then wake_queue s l mask max woken
        else
          s ← dequeue s w;
          wake_queue s l mask max (if w_magic v then u32 (woken + 1) else woken)
  end.

Fixpoint requeue_loop (s : state) (f target : Z) (l : list Z) (max requeued : Z) : option (Z * state) :=
  match l with
  | [] => Some (requeued, s)
  | w :: l =>
      if requeued >=? max then Some (requeued, s)
      else
        v ← s_waits s !! w;
        if negb (w_magic v) then s ← dequeue s w; requeue_loop s f target l max requeued
        else if target =? f then requeue_loop s f target l max (u32 (requeued + 1))
        else
          s ← dequeue s w;
          x ← s_futexes s !! f;
          y ← s_futexes s !! target;
          if negb (f_refcount x >? 1) then None
          else
            let s := put_futex s f (set_refcount x (u32 (f_refcount x - 1))) in
            let s := put_futex s target (set_refcount (set_queues y (f_queue y ++ [w]) (f_pi_queue y)) (u32 (f_refcount y + 1))) in
            let s := put_wait s w (set_linked (set_w_futex v target) true) in
            requeue_loop s f target l max (u32 (requeued + 1))
  end.
Definition futex_requeue_waiters (s : state) (f target max : Z) : option (Z * state) :=
  x ← s_futexes s !! f; requeue_loop s f target (f_queue x) max 0.

(** ** FUTEX_WAIT *)

Definition futex_clear_restart_park_locked (s : state) (cur : Z) : option state :=
  let p := park_of s cur in
  s ← match r_futex p with Some f => futex_put_unlocked s f | None => Some s end;
  Some (put_park s cur (mk_park None (r_uaddr p) (r_wake_seq p) false (r_deadline p) (r_timeout p))).
Definition futex_release_restart_park (s : state) (cur : Z) : option state :=
  match r_futex (park_of s cur) with Some _ => futex_clear_restart_park_locked s cur | None => Some s end.

(** The restart of a wait that was interrupted, [f] being the futex this call
    found: [inr] when a wake came meanwhile; else whether the parked wait was
    timed, its deadline and its timeout. *)
Definition resume_park (s : state) (cur f : Z) : option ((bool * Z * Z + unit) * state) :=
  let p := park_of s cur in
  match r_futex p with
  | None => Some (inl (false, 0, 0), s)
  | Some g =>
      if g =? f then
        s ← futex_put_unlocked s f;
        let s := put_park s cur (mk_park None (r_uaddr p) (r_wake_seq p) false (r_deadline p) (r_timeout p)) in
        x ← s_futexes s !! f;
        if negb (f_wake_seq x =? r_wake_seq p) then s ← futex_put_unlocked s f; Some (inr tt, s)
        else Some (inl (r_timed p, r_deadline p, r_timeout p), s)
      else s ← futex_clear_restart_park_locked s cur; Some (inl (false, 0, 0), s)
  end.

(** A call returns, or is asleep until its deadline (0 if it has none). *)
Inductive entered := Returns (r : Z) | Asleep (deadline : Z).

(** futex_wait_masked up to its first sleep; [w]: where its [futex_wait] is. *)
Definition futex_wait_enter (s : state) (cur : Z) (key : futex_key) (word : option Z) (val : Z) (timeout : option Z) (bitset now : Z)
    (new : option Z) (w : Z) : option (entered * state) :=
  '(g, s) ← futex_get_unlocked s key new;
  match g with
  | None => Some (Returns _ENOMEM, s)
  | Some f =>
      '(r, s) ← resume_park s cur f;
      match r with
      | inr _ => Some (Returns 0, s)
      | inl (timed, deadline, resumed) =>
          match futex_load s word with
          | None => s ← futex_put_unlocked s f; Some (Returns _EFAULT, s)
          | Some tmp =>
              if negb (tmp =? val) then s ← futex_put_unlocked s f; Some (Returns _EAGAIN, s)
              else
                let deadline := match timeout with
                                | Some t => if timed && (resumed =? t) then deadline else now + t
                                | None => 0
                                end in
                x ← s_futexes s !! f;
                let s := put_futex s f (set_queues x (f_queue x ++ [w]) (f_pi_queue x)) in
                Some (Asleep deadline, put_wait s w (mk_wait true f bitset false true 0 false))
          end
      end
  end.

(** The top of the loop: the answer, if it is not to sleep (again).  [pending]: a
    signal is. *)
Definition wait_top (v : futex_wait) (timeout : option Z) (deadline now : Z) (pending : bool) : option Z :=
  if negb (w_linked v) then Some 0
  else match timeout with
       | Some _ => if deadline - now >? 0 then None else Some (if pending then _EINTR else _ETIMEDOUT)
       | None => None
       end.

(** The rest of it, after a sleep that ended with [err]. *)
Definition wait_slept (v : futex_wait) (err : Z) (pending : bool) : option Z :=
  if w_interrupted v || pending then Some _EINTR
  else if err =? _EINTR then None
  else if negb (w_linked v) then Some 0
  else if negb (err =? _ETIMEDOUT) && negb (err =? 0) then Some err
  else None.

(** The end of futex_wait_masked, out of the loop with [err]. *)
Definition futex_wait_leave (s : state) (cur uaddr w : Z) (timeout : option Z) (deadline err : Z) : option (Z * state) :=
  v ← s_waits s !! w;
  s ← dequeue_safe s w;
  v' ← s_waits s !! w;
  let s := put_wait s w (set_magic v' false) in
  if err =? _EINTR then
    x ← s_futexes s !! w_futex v;
    let p := park_of s cur in
    let '(timed, dl, tm) := match timeout with Some t => (true, deadline, t) | None => (false, r_deadline p, r_timeout p) end in
    Some (_EINTR, put_park s cur (mk_park (Some (w_futex v)) uaddr (f_wake_seq x) timed dl tm))
  else s ← futex_put_unlocked s (w_futex v); Some (err, s).

(** What sys_futex_common makes of the answer; [restart]: the signal restarts
    the call. *)
Definition futex_wait_answer (s : state) (cur r : Z) (restart : bool) : option (Z * state) :=
  if r =? _EINTR then
    if restart then Some (_ERESTART, s) else s ← futex_release_restart_park s cur; Some (r, s)
  else Some (r, s).

(** ** Waking *)

(** [key2]: of the futex to requeue to, for FUTEX_REQUEUE. *)
Definition futex_wakelike (s : state) (key : futex_key) (key2 : option futex_key) (wake_max requeue_max wake_mask : Z) (new new2 : option Z) : option (Z * state) :=
  '(g, s) ← futex_get_unlocked s key new;
  match g with
  | None => Some (0, s)
  | Some f =>
      '(g2, s) ← match key2 with Some k => '(g2, s) ← futex_get_unlocked s k new2; Some (Some g2, s) | None => Some (None, s) end;
      match g2 with
      | Some None => s ← futex_put_unlocked s f; Some (_ENOMEM, s)
      | _ =>
          x ← s_futexes s !! f;
          let s := put_futex s f (set_wake_seq x (u64 (f_wake_seq x + 1))) in
          '(woken, s) ← wake_queue s (f_queue x) (Some wake_mask) wake_max 0;
          '(woken, s) ← match g2 with
                         | Some (Some f2) =>
                             '(n, s) ← futex_requeue_waiters s f f2 requeue_max;
                             s ← futex_put_unlocked s f2;
                             Some (u32 (woken + n), s)
                         | _ => Some (woken, s)
                         end;
          s ← futex_put_unlocked s f;
          Some (s32 woken, s)
      end
  end.

Definition futex_wake (s : state) (key : futex_key) (wake_max : Z) (new : option Z) : option (Z * state) :=
  futex_wakelike s key None wake_max 0 all_bits new None.

(** Two futexes, as FUTEX_WAKE_OP and the requeues with a comparison take them. *)
Definition get_two (s : state) (key1 key2 : futex_key) (new1 new2 : option Z) : option ((Z * Z + Z) * state) :=
  '(g1, s) ← futex_get_unlocked s key1 new1;
  match g1 with
  | None => Some (inr _ENOMEM, s)
  | Some f1 =>
      '(g2, s) ← futex_get_unlocked s key2 new2;
      match g2 with
      | None => s ← futex_put_unlocked s f1; Some (inr _ENOMEM, s)
      | Some f2 => Some (inl (f1, f2), s)
      end
  end.
Definition put_two (s : state) (f1 f2 : Z) : option state := s ← futex_put_unlocked s f2; futex_put_unlocked s f1.

Definition futex_op_sign_extend12 (v : Z) : Z :=
  let v := v .& 0xfff in
  s32 (if has_flag v 0x800 then v .| 0xfffff000 else v).

(** The word FUTEX_WAKE_OP leaves, from the one it found. *)
Definition futex_apply_word_op (op oparg oldval : Z) : Z :=
  if op =? 0 then oparg
  else if op =? 1 then s32 (oldval + oparg)
  else if op =? 2 then oldval .| oparg
  else if op =? 3 then oldval .& Z.lnot oparg
  else Z.lxor oldval oparg.

Definition wake_op_compare (cmp oldval cmparg : Z) : bool :=
  if cmp =? 0 then oldval =? cmparg
  else if cmp =? 1 then negb (oldval =? cmparg)
  else if cmp =? 2 then oldval <? cmparg
  else if cmp =? 3 then oldval <=? cmparg
  else if cmp =? 4 then oldval >? cmparg
  else oldval >=? cmparg.

Definition futex_wake_op (s : state) (key1 key2 : futex_key) (word2 : option Z) (wake_max wake_max2 encoded_op : Z) (new1 new2 : option Z) : option (Z * state) :=
  let raw_op := (Z.shiftr encoded_op 28) .& 0xf in
  let cmp := (Z.shiftr encoded_op 24) .& 0xf in
  let oparg := futex_op_sign_extend12 (Z.shiftr encoded_op 12) in
  let cmparg := futex_op_sign_extend12 encoded_op in
  let op := raw_op .& Z.lnot 8 in
  if (op >? 4) || (cmp >? 5) then Some (_ENOSYS, s)
  else
    let oparg := if has_flag raw_op 8 then s32 (Z.shiftl 1 (oparg .& 31)) else oparg in
    '(r, s) ← get_two s key1 key2 new1 new2;
    match r with
    | inr err => Some (err, s)
    | inl (f1, f2) =>
        match word2 with
        | None => s ← put_two s f1 f2; Some (_EFAULT, s)
        | Some l =>
            let oldval := s32 (word_at s l) in
            let s := store s l (u32 (futex_apply_word_op op oparg oldval)) in
            x ← s_futexes s !! f1;
            '(woken, s) ← wake_queue s (f_queue x) None wake_max 0;
            '(woken, s) ← (if wake_op_compare cmp oldval cmparg then
                             x ← s_futexes s !! f2;
                             '(woken2, s) ← wake_queue s (f_queue x) None wake_max2 0;
                             Some (u32 (woken + woken2), s)
                           else Some (woken, s));
            s ← put_two s f1 f2;
            Some (s32 woken, s)
        end
    end.

Definition futex_cmp_requeue (s : state) (key1 key2 : futex_key) (word1 : option Z) (val val2 val3 : Z) (new1 new2 : option Z) : option (Z * state) :=
  '(r, s) ← get_two s key1 key2 new1 new2;
  match r with
  | inr err => Some (err, s)
  | inl (f1, f2) =>
      '(err, s) ← match futex_load s word1 with
                   | None => Some (_EFAULT, s)
                   | Some tmp =>
                       if negb (tmp =? val3) then Some (_EAGAIN, s)
                       else
                         x ← s_futexes s !! f1;
                         '(woken, s) ← wake_queue s (f_queue x) None val 0;
                         '(n, s) ← futex_requeue_waiters s f1 f2 val2;
                         Some (s32 (woken + n), s)
                   end;
      s ← put_two s f1 f2;
      Some (err, s)
  end.

(** The thread priorities it sets are the host's. *)
Definition futex_cmp_requeue_pi (s : state) (key1 key2 : futex_key) (word1 : option Z) (val val2 : Z) (new1 new2 : option Z) : option (Z * state) :=
  '(r, s) ← get_two s key1 key2 new1 new2;
  match r with
  | inr err => Some (err, s)
  | inl (f1, f2) =>
      '(err, s) ← match futex_load s word1 with
                   | None => Some (_EFAULT, s)
                   | Some tmp =>
                       if negb (tmp =? val) then Some (_EAGAIN, s)
                       else '(n, s) ← futex_requeue_waiters s f1 f2 val2; Some (s32 n, s)
                   end;
      s ← put_two s f1 f2;
      Some (err, s)
  end.

(** ** Locks that know their owner *)

(** The first live waiter but [self], and the dead ones before it dropped. *)
Fixpoint pi_first (s : state) (l : list Z) (self : option Z) : option (option Z * state) :=
  match l with
  | [] => Some (None, s)
  | w :: l =>
      v ← s_waits s !! w;
      if negb (w_magic v) then s ← dequeue s w; pi_first s l self
      else if bool_decide (Some w <> self) then Some (Some w, s)
      else pi_first s l self
  end.
Definition futex_pi_first_waiter (s : state) (f : Z) (self : option Z) : option (option Z * state) :=
  x ← s_futexes s !! f; pi_first s (f_pi_queue x) self.

(** futex_lock_pi up to its loop. *)
Definition lock_pi_start (s : state) (key : futex_key) (tid : Z) (timeout : option Z) (now : Z) (new : option Z) (w : Z) : option (entered * state) :=
  '(g, s) ← futex_get_unlocked s key new;
  match g with
  | None => Some (Returns _ENOMEM, s)
  | Some f => Some (Asleep (match timeout with Some t => now + t | None => 0 end), put_wait s w (mk_wait true f all_bits false false tid false))
  end.

(** How a piece of the loop ends: out of it with an answer, at its top again,
    with the lock left to ask whether the owner is alive, or asleep. *)
Inductive pi_next := PiDone (err : Z) | PiAgain | PiAsk (owner val : Z) | PiSleep.

(** From the top of the loop.  A compare-and-swap that fails goes round without
    having done anything, so here the word is loaded and swapped in one. *)
Definition lock_pi_look (s : state) (word : option Z) (w : Z) (queued trylock : bool) : option (pi_next * state) :=
  v ← s_waits s !! w;
  if w_pi_owned v then Some (PiDone 0, s)
  else match futex_load s word with
       | None => Some (PiDone _EFAULT, s)
       | Some val =>
           let owner := val .& FUTEX_TID_MASK_ in
           if owner =? 0 then
             let want := w_tid v .| (val .& FUTEX_OWNER_DIED_) in
             '(other, s) ← (if queued then Some (Some w, s) else futex_pi_first_waiter s (w_futex v) (Some w));
             let want := match other with Some _ => want .| FUTEX_WAITERS_ | None => want end in
             let '(err, s) := futex_cas s word val want in
             Some (if err =? _EAGAIN then PiAgain else PiDone err, s)
           else if owner =? w_tid v then Some (PiDone _EDEADLK, s)
           else
             let '(err, s) := if has_flag val FUTEX_WAITERS_ then (0, s) else futex_cas s word val (val .| FUTEX_WAITERS_) in
             if err =? _EAGAIN then Some (PiAgain, s)
             else if err <? 0 then Some (PiDone err, s)
             else if trylock then Some (PiDone _EAGAIN, s)
             else Some (PiAsk owner (val .| FUTEX_WAITERS_), s)
       end.

(** With the lock again, the owner being [alive] or not; [queued] is the local
    of that name, answered as it then is. *)
Definition lock_pi_asked (s : state) (word : option Z) (w : Z) (queued : bool) (owner val : Z) (alive : bool) (timeout : option Z) (deadline now : Z) :
    option (pi_next * bool * state) :=
  v ← s_waits s !! w;
  x ← s_futexes s !! w_futex v;
  if w_pi_owned v then Some (PiAgain, queued, s)
  else if negb alive then
    match futex_load s word with
    | None => Some (PiDone _EFAULT, queued, s)
    | Some now =>
        if negb (now =? val) then Some (PiAgain, queued, s)
        else if negb queued && negb (f_pi_owner x =? owner) then Some (PiDone _ESRCH, queued, s)
        else
          let '(err, s) := futex_cas s word val ((w_tid v .| FUTEX_OWNER_DIED_) .| FUTEX_WAITERS_) in
          Some (if err =? _EAGAIN then PiAgain else PiDone err, queued, s)
    end
  else
    let s := put_futex s (w_futex v) (set_pi_owner x owner) in
    let s := if queued then s
             else set_pi_waiting (put_wait (put_futex s (w_futex v) (set_queues (set_pi_owner x owner) (f_queue x) (f_pi_queue x ++ [w]))) w (set_linked v true))
                                 (u32 (s_pi_waiting s + 1)) in
    Some (if match timeout with Some _ => negb (deadline - now >? 0) | None => false end then PiDone _ETIMEDOUT else PiSleep, true, s).

Definition lock_pi_slept (v : futex_wait) (pending : bool) : pi_next :=
  if w_pi_owned v then PiAgain else if w_interrupted v || pending then PiDone _ERESTART_NOINTR else PiAgain.

Definition lock_pi_leave (s : state) (w : Z) (queued : bool) (err : Z) : option (Z * state) :=
  v ← s_waits s !! w;
  s ← (if queued then
         s ← (if w_pi_owned v then Some s else dequeue_safe s w);
         Some (set_pi_waiting s (u32 (s_pi_waiting s - 1)))
       else Some s);
  v' ← s_waits s !! w;
  let s := put_wait s w (set_magic v' false) in
  s ← futex_put_unlocked s (w_futex v);
  Some (err, s).

Definition futex_unlock_pi (s : state) (key : futex_key) (word : option Z) (tid : Z) (new : option Z) : option (Z * state) :=
  '(g, s) ← futex_get_unlocked s key new;
  match g with
  | None => Some (_ENOMEM, s)
  | Some f =>
      '(err, s) ← match futex_load s word with
                   | None => Some (_EFAULT, s)
                   | Some val =>
                       if negb (val .& FUTEX_TID_MASK_ =? tid) then Some (_EPERM, s)
                       else
                         '(next, s) ← futex_pi_first_waiter s f None;
                         match next with
                         | None => let '(err, s) := futex_cas s word val 0 in Some (err, s)
                         | Some n =>
                             nv ← s_waits s !! n;
                             let '(err, s) := futex_cas s word val (w_tid nv .| FUTEX_WAITERS_) in
                             if err =? 0 then
                               s ← dequeue s n;
                               nv' ← s_waits s !! n;
                               let s := put_wait s n (set_pi_owned nv' true) in
                               x ← s_futexes s !! f;
                               Some (err, put_futex s f (set_pi_owner x (w_tid nv)))
                             else Some (err, s)
                         end
                   end;
      s ← futex_put_unlocked s f;
      Some (err, s)
  end.

(** The owner of [tid] exits: the waits notified, one on each lock it owned. *)
Fixpoint exit_pi_bucket (s : state) (l : list Z) (tid : Z) : option (list Z * state) :=
  match l with
  | [] => Some ([], s)
  | f :: l =>
      x ← s_futexes s !! f;
      if negb (f_pi_owner x =? tid) then exit_pi_bucket s l tid
      else
        '(next, s) ← futex_pi_first_waiter s f None;
        '(ns, s) ← exit_pi_bucket s l tid;
        Some (match next with Some n => n :: ns | None => ns end, s)
  end.
Fixpoint exit_pi_buckets (s : state) (bs : list Z) (tid : Z) : option (list Z * state) :=
  match bs with
  | [] => Some ([], s)
  | b :: bs => '(ns, s) ← exit_pi_bucket s (bucket s b) tid; '(ms, s) ← exit_pi_buckets s bs tid; Some (ns ++ ms, s)
  end.
Definition FUTEX_HASH_SIZE := Z.shiftl 1 12.
Definition futex_exit_pi (s : state) (tid : Z) : option (list Z * state) :=
  if s_pi_waiting s =? 0 then Some ([], s) else exit_pi_buckets s (seqZ 0 FUTEX_HASH_SIZE) tid.

(** ** Robust lists *)

(** What a lock word its dying owner still holds becomes. *)
Definition robust_mark (tid uval : Z) : option Z :=
  if negb (uval .& FUTEX_TID_MASK_ =? u32 tid) then None else Some ((uval .& FUTEX_WAITERS_) .| FUTEX_OWNER_DIED_).

(** robust_handle_death: the word is read and written with user_get and user_put,
    and whoever runs between them runs between [robust_get] and [robust_put].
    The key is the one futex_wake takes, a shared one. *)
Definition robust_get (s : state) (word : option Z) (tid : Z) : option Z := uval ← futex_load s word; robust_mark tid uval.
Definition robust_put (s : state) (key : futex_key) (word : option Z) (nval : Z) (pi : bool) (new : option Z) : option state :=
  match word with
  | None => Some s
  | Some l =>
      let s := store s l nval in
      if negb pi && has_flag nval FUTEX_WAITERS_ then '(_, s) ← futex_wake s key 1 new; Some s else Some s
  end.

Definition ROBUST_LIST_LIMIT : nat := 2048.

Definition robust_futex_addr (entry offset : Z) (is64 : bool) : Z :=
  let sum := u64 (entry + u64 offset) in if is64 then sum else sum .& 0xffffffff.

(** The walk of the list, over guest memory [M]: [read m addr n] is its
    little-endian number of [n] bytes, [death m addr pi] is robust_handle_death. *)
Section Walk.
Context {M : Type} (read : M -> Z -> Z -> option Z) (death : M -> Z -> bool -> M).

Definition robust_read (m : M) (addr : Z) (is64 : bool) : option Z := read m addr (if is64 then 8 else 4).
Definition link_entry (link : Z) : Z := link .& Z.lnot 1.
Definition link_pi (link : Z) : bool := has_flag link 1.

(** The loop, [limit] left; the flag says that it came to its end. *)
Fixpoint robust_walk (limit : nat) (m : M) (head : Z) (is64 : bool) (offset pending entry : Z) (pi : bool) : bool * M :=
  if entry =? head then (true, m)
  else match limit with
       | O => (true, m)
       | S limit =>
           let next := robust_read m entry is64 in
           let m := if entry =? pending then m else death m (robust_futex_addr entry offset is64) pi in
           match next with
           | None => (false, m)
           | Some next => robust_walk limit m head is64 offset pending (link_entry next) (link_pi next)
           end
       end.

Definition futex_exit_robust_list (m : M) (head : Z) (is64 : bool) : M :=
  if head =? 0 then m
  else
    let word := if is64 then 8 else 4 in
    match robust_read m head is64, robust_read m (head + word) is64, robust_read m (head + 2 * word) is64 with
    | Some entry, Some offset_raw, Some pending =>
        let offset := if is64 then s64 offset_raw else s32 offset_raw in
        let '(ended, m) := robust_walk ROBUST_LIST_LIMIT m head is64 offset (link_entry pending) (link_entry entry) (link_pi entry) in
        if ended && negb (link_entry pending =? 0) then death m (robust_futex_addr (link_entry pending) offset is64) (link_pi pending) else m
    | _, _, _ => m
    end.
End Walk.

(** The answer, and the task's robust_list after it. *)
Definition robust_list_head_size (amd64 : bool) : Z := if amd64 then 24 else 12.
Definition sys_set_robust_list_common (old robust_list len : Z) (amd64 : bool) : Z * Z :=
  if negb (len =? robust_list_head_size amd64) then (_EINVAL, old) else (0, robust_list).

(** [task]: the task the pid is of; [put]: whether user_put can write there.  The
    answer, and what is written to [robust_list_ptr] and to [len_ptr]. *)
Definition sys_get_robust_list_common (cur pid : Z) (task : option Z) (robust_list : Z) (robust_list_ptr len_ptr : Z) (put : Z -> bool) (amd64 : bool) : Z * option Z * option Z :=
  let is_current := (pid =? 0) || bool_decide (task = Some cur) in
  if negb is_current then (_EPERM, None, None)
  else if negb (put robust_list_ptr) then (_EFAULT, None, None)
  else if negb (put len_ptr) then (_EFAULT, Some robust_list, None)
  else (0, Some robust_list, Some (robust_list_head_size amd64)).

(** ** The call *)

(** What sys_futex_common goes on to do. *)
Inductive request :=
| RError (err : Z)
| RWait (val : Z) (timeout : option Z) (bitset : Z)
| RWake (wake_max wake_mask : Z)
| RRequeue (wake_max requeue_max : Z)
| RCmpRequeue (val val2 val3 : Z)
| RWakeOp (wake_max wake_max2 encoded_op : Z)
| RLockPi (timeout : option Z) (trylock : bool)
| RUnlockPi
| RCmpRequeuePi (val val2 : Z).

Definition NSEC := 1000000000.

(** [guest]: the seconds and nanoseconds user_get reads, [None] for a fault. *)
Definition futex_read_timeout (guest : option (Z * Z)) : Z + Z :=
  match guest with
  | None => inr _EFAULT
  | Some (sec, nsec) => if (sec <? 0) || (nsec <? 0) || (nsec >=? NSEC) then inr _EINVAL else inl (sec * NSEC + nsec)
  end.

(** An absolute deadline, as the time left at [now]. *)
Definition time_left (deadline now : Z) : Z := Z.max 0 (deadline - now).

Definition sys_futex_common (uaddr op val timeout_or_val2 uaddr2 val3 : Z) (guest : option (Z * Z)) (realtime_now monotonic_now : Z) : request :=
  let cmd := op .& FUTEX_CMD_MASK_ in
  let two := (cmd =? FUTEX_REQUEUE_) || (cmd =? FUTEX_CMP_REQUEUE_) || (cmd =? FUTEX_WAKE_OP_) in
  let pi := (cmd =? FUTEX_LOCK_PI_) || (cmd =? FUTEX_UNLOCK_PI_) || (cmd =? FUTEX_TRYLOCK_PI_) in
  let lock := (cmd =? FUTEX_LOCK_PI_) || (cmd =? FUTEX_LOCK_PI2_) in
  let wait := (cmd =? FUTEX_WAIT_) || (cmd =? FUTEX_WAIT_BITSET_) in
  let clock := if has_flag op FUTEX_CLOCK_REALTIME_ then realtime_now else monotonic_now in
  if negb (uaddr mod 4 =? 0) then RError _EINVAL
  else if two && negb (uaddr2 mod 4 =? 0) then RError _EINVAL
  else if pi && has_flag op FUTEX_CLOCK_REALTIME_ then RError _ENOSYS
  else
    let timeout :=
      if (lock || wait) && negb (timeout_or_val2 =? 0) then
        match futex_read_timeout guest with
        | inr err => inr err
        | inl t =>
            inl (Some (if lock then time_left t (if cmd =? FUTEX_LOCK_PI_ then realtime_now else clock)
                       else if cmd =? FUTEX_WAIT_BITSET_ then time_left t clock
                       else t))
        end
      else inl None in
    match timeout with
    | inr err => RError err
    | inl timeout =>
        if cmd =? FUTEX_WAIT_ then RWait val timeout all_bits
        else if cmd =? FUTEX_WAKE_ then RWake val all_bits
        else if cmd =? FUTEX_REQUEUE_ then RRequeue val (u32 timeout_or_val2)
        else if cmd =? FUTEX_CMP_REQUEUE_ then RCmpRequeue val (u32 timeout_or_val2) val3
        else if cmd =? FUTEX_WAKE_OP_ then RWakeOp val (u32 timeout_or_val2) val3
        else if lock then RLockPi timeout false
        else if cmd =? FUTEX_UNLOCK_PI_ then RUnlockPi
        else if cmd =? FUTEX_TRYLOCK_PI_ then RLockPi None true
        else if cmd =? FUTEX_WAIT_BITSET_ then if val3 =? 0 then RError _EINVAL else RWait val timeout val3
        else if cmd =? FUTEX_WAKE_BITSET_ then if val3 =? 0 then RError _EINVAL else RWake val val3
        else if cmd =? FUTEX_CMP_REQUEUE_PI_ then RCmpRequeuePi val (u32 timeout_or_val2)
        else RError _ENOSYS
    end.
