(* ===== verification/FutexSound.v ===== *)
(** * References, table and queues of futexes (kernel/futex.c)

    [sound s held]: a futex counts the calls asleep on it, the tasks parked on it
    and the references the operation in progress has ([held]); a key is one
    futex, in its bucket; a queue holds live waits of its futex, each once, and a
    wait that is linked is on a queue.  The steps all the operations are made of
    are shown not to fail and to keep this. *)

From Stdlib Require Import ZifyBool.
From S2P Require Import Prelude Counts Futex.

Opaque futex_key_hash.

Definition live_on (f : Z) (v : futex_wait) : nat := if w_magic v && (w_futex v =? f) then 1 else 0.
Definition parked_on (f : Z) (p : park) : nat := if decide (r_futex p = Some f) then 1 else 0.
Definition refs (s : state) (held : list Z) (f : Z) : nat := (msum (live_on f) (s_waits s) + msum (parked_on f) (s_parks s) + occ f held)%nat.

(** The calls asleep and the tasks parked. *)
Definition live (v : futex_wait) : nat := if w_magic v then 1 else 0.
Definition parked (p : park) : nat := match r_futex p with Some _ => 1 | None => 0 end.
Definition total (s : state) : nat := (msum live (s_waits s) + msum parked (s_parks s))%nat.

Definition queues (x : futex) : list Z := f_queue x ++ f_pi_queue x.
Definition on_queue (s : state) (f w : Z) (v : futex_wait) : Prop :=
  s_waits s !! w = Some v /\ w_magic v = true /\ w_linked v = true /\ w_futex v = f /\ w_pi_owned v = false.

Record sound (s : state) (held : list Z) : Prop := mk_sound {
  so_refs : forall f, match s_futexes s !! f with
                      | Some x => f_refcount x = Z.of_nat (refs s held f) /\ (0 < refs s held f)%nat
                      | None => refs s held f = 0%nat
                      end;
  so_total : Z.of_nat (total s + length held) < 2 ^ 32;
  so_filed : forall f x, s_futexes s !! f = Some x -> f ∈ bucket s (futex_key_hash (f_key x));
  so_bucket : forall b f, f ∈ bucket s b -> exists x, s_futexes s !! f = Some x /\ futex_key_hash (f_key x) = b;
  so_key : forall f g x y, s_futexes s !! f = Some x -> s_futexes s !! g = Some y -> f_key x = f_key y -> f = g;
  so_queued : forall f x w, s_futexes s !! f = Some x -> w ∈ queues x -> exists v, on_queue s f w v;
  so_once : forall f x, s_futexes s !! f = Some x -> NoDup (queues x);
  so_linked : forall w v, s_waits s !! w = Some v -> w_linked v = true -> exists x, s_futexes s !! w_futex v = Some x /\ w ∈ queues x;
  so_seq : forall f x, s_futexes s !! f = Some x -> 0 <= f_wake_seq x < 2 ^ 64 }.

(** ** Counting *)

Lemma futex_refs_total s held f : (refs s held f <= total s + length held)%nat.
Proof.
  unfold refs, total. pose proof (occ_le f held).
  assert (msum (live_on f) (s_waits s) <= msum live (s_waits s))%nat by (apply msum_le; intros ? v _; unfold live_on, live; by destruct (w_magic v), (w_futex v =? f); simpl; lia).
  assert (msum (parked_on f) (s_parks s) <= msum parked (s_parks s))%nat; [| lia].
  apply msum_le. intros ? p _. unfold parked_on, parked. destruct (decide (r_futex p = Some f)) as [-> |]; [done |]. destruct (r_futex p); lia.
Qed.

Lemma refs_held s held f g : refs s (g :: held) f = ((if decide (g = f) then 1 else 0) + refs s held f)%nat.
Proof. unfold refs. rewrite occ_cons. lia. Qed.

(** An entry of a map replaced, or put where there was none. *)
Lemma msum_put {A} (h : A -> nat) (m : gmap Z A) i y :
  (msum h (<[i := y]> m) + match m !! i with Some x => h x | None => 0 end = msum h m + h y)%nat.
Proof. destruct (m !! i) as [x |] eqn:E; [by apply msum_update | rewrite msum_fresh by done; lia]. Qed.

Lemma sound_here s held f x : sound s held -> s_futexes s !! f = Some x -> f_refcount x = Z.of_nat (refs s held f) /\ (0 < refs s held f)%nat.
Proof. intros S E. pose proof (so_refs _ _ S f) as H. by rewrite E in H. Qed.
Lemma sound_there s held f : sound s held -> (0 < refs s held f)%nat -> exists x, s_futexes s !! f = Some x.
Proof. intros S Hp. pose proof (so_refs _ _ S f) as H. destruct (s_futexes s !! f) as [x |]; [by exists x | lia]. Qed.
Lemma sound_held s held f : sound s (f :: held) -> exists x, s_futexes s !! f = Some x.
Proof. intros S. apply (sound_there _ _ _ S). rewrite refs_held, decide_True by done. lia. Qed.
Lemma live_refs s held w v : s_waits s !! w = Some v -> w_magic v = true -> (0 < msum (live_on (w_futex v)) (s_waits s) <= refs s held (w_futex v))%nat.
Proof.
  intros E M. pose proof (msum_at (live_on (w_futex v)) _ _ _ E) as H. unfold live_on at 1 in H. rewrite M, Z.eqb_refl in H. simpl in H. unfold refs. lia.
Qed.
Lemma sound_live s held w v : sound s held -> s_waits s !! w = Some v -> w_magic v = true -> exists x, s_futexes s !! w_futex v = Some x.
Proof. intros S E M. apply (sound_there _ _ _ S). pose proof (live_refs s held w v E M). lia. Qed.
Lemma sound_parked s held cur f : sound s held -> r_futex (park_of s cur) = Some f -> exists x, s_futexes s !! f = Some x.
Proof.
  intros S. unfold park_of. destruct (s_parks s !! cur) as [p |] eqn:E; [simpl | done]. intros R. apply (sound_there _ _ _ S).
  pose proof (msum_at (parked_on f) _ _ _ E) as H. unfold parked_on at 1 in H. rewrite decide_True in H by done. unfold refs. lia.
Qed.
Lemma linked_on_queue s held w v : sound s held -> s_waits s !! w = Some v -> w_linked v = true -> on_queue s (w_futex v) w v.
Proof.
  intros S E L. destruct (so_linked _ _ S w v E L) as (x & Ex & Hw). destruct (so_queued _ _ S _ x w Ex Hw) as (v' & E' & ?).
  unfold on_queue in *. naive_solver congruence.
Qed.

#[export] Instance sound_perm s : Proper ((≡ₚ) ==> iff) (sound s).
Proof.
  assert (forall h h', h ≡ₚ h' -> sound s h -> sound s h') as H; [| intros h h' E; split; apply H; done].
  intros h h' E [H1 H2 H3 H4 H5 H6 H7 H8 H9]. split; try done.
  - intros f. specialize (H1 f). unfold refs in *. assert (occ f h' = occ f h) as -> by (by rewrite E). done.
  - by rewrite <- E.
Qed.

(** What is not in [sound] may change. *)
Lemma sound_store s held l v : sound s held -> sound (store s l v) held.
Proof. intros [H1 H2 H3 H4 H5 H6 H7 H8 H9]. by split. Qed.
Lemma sound_pi_waiting s held n : sound s held -> sound (set_pi_waiting s n) held.
Proof. intros [H1 H2 H3 H4 H5 H6 H7 H8 H9]. by split. Qed.

(** A map after an insertion, at the key or not. *)
Ltac at_key k j :=
  destruct (decide (j = k)) as [-> |];
  [rewrite ?lookup_insert_eq in *; simplify_eq | rewrite ?lookup_insert_ne in * by congruence].

(** ** The table *)

(** A futex changed where it stands, and the references with it. *)
Lemma sound_put_futex s held held' f x x' : sound s held -> s_futexes s !! f = Some x -> f_key x' = f_key x -> queues x' = queues x ->
  0 <= f_wake_seq x' < 2 ^ 64 -> f_refcount x' = Z.of_nat (refs s held' f) -> (0 < refs s held' f)%nat ->
  (forall g, g <> f -> refs s held' g = refs s held g) -> Z.of_nat (total s + length held') < 2 ^ 32 -> sound (put_futex s f x') held'.
Proof.
  intros [H1 H2 H3 H4 H5 H6 H7 H8 H9] Ef Ek Eq Hs Hr Hp Ho Ht. split; simpl; try done.
  - intros g. change (refs (put_futex s f x') held' g) with (refs s held' g). at_key f g; [done |]. rewrite (Ho g) by done. apply H1.
  - intros g y Ey. at_key f g; [rewrite Ek |]; by apply H3.
  - intros b g Hg. destruct (H4 b g Hg) as (y & Ey & Eb). at_key f g; [exists x'; by rewrite Ek | by exists y].
  - intros g h y z Ey Ez E. at_key f g; at_key f h; [done | eapply (H5 _ _ x z) | eapply (H5 _ _ y x) | by apply (H5 _ _ y z)]; congruence.
  - intros g y w Ey Hw. at_key f g; [rewrite Eq in Hw; by apply (H6 _ x) | by apply (H6 _ y)].
  - intros g y Ey. at_key f g; [rewrite Eq; by apply (H7 f) | by apply (H7 g)].
  - intros w v Ew Hl. destruct (H8 w v Ew Hl) as (y & Ey & Hw). destruct (decide (w_futex v = f)) as [E |].
    + exists x'. rewrite E, lookup_insert_eq, Eq. rewrite E in Ey. by simplify_eq.
    + exists y. by rewrite lookup_insert_ne.
  - intros g y Ey. at_key f g; [done | by apply (H9 g)].
Qed.

(** The owner it remembers, and its wake counter. *)
Lemma sound_tweak s held f x o n : sound s held -> s_futexes s !! f = Some x -> 0 <= n < 2 ^ 64 ->
  sound (put_futex s f (mk_futex (f_refcount x) (f_key x) (f_queue x) (f_pi_queue x) o n)) held.
Proof.
  intros S E Hn. destruct (sound_here _ _ _ _ S E) as [Hr Hp]. by apply (sound_put_futex s held held f x); try done; apply (so_total _ _ S).
Qed.

Lemma futex_key_equal_eq a b : futex_key_equal a b = true <-> a = b.
Proof. destruct a, b. unfold futex_key_equal. simpl. split; [intros H; to_prop; congruence | intros [= -> -> -> ->]; by rewrite !Z.eqb_refl]. Qed.

(** The futex of a key, if there is one. *)
Definition at_key_of (s : state) (key : futex_key) (f : Z) (x : futex) : Prop := s_futexes s !! f = Some x /\ f_key x = key.

Lemma find_futex_spec s key l : Forall (fun f => is_Some (s_futexes s !! f)) l ->
  exists r, find_futex s key l = Some r /\
    match r with
    | Some f => f ∈ l /\ exists x, at_key_of s key f x
    | None => forall f x, f ∈ l -> ~ at_key_of s key f x
    end.
Proof.
  induction l as [| f l IH]; intros Hl; simpl; [exists None; split; [done |]; intros f x Hf; by apply not_elem_of_nil in Hf |].
  apply Forall_cons in Hl as [[x Ex] Hl]. rewrite Ex. simpl. destruct (futex_key_equal (f_key x) key) eqn:Ek.
  - apply futex_key_equal_eq in Ek. exists (Some f). split; [done |]. split; [set_solver |]. by exists x.
  - destruct (IH Hl) as (r & -> & Hr). exists r. split; [done |]. destruct r as [g |].
    + destruct Hr as [Hg Hx]. split; [set_solver | done].
    + intros g y Hg [Ey K]. apply elem_of_cons in Hg as [-> |]; [| by apply (Hr g y)].
      apply not_true_iff_false in Ek. apply Ek, futex_key_equal_eq. congruence.
Qed.

Lemma sound_find s held key : sound s held ->
  exists r, find_futex s key (bucket s (futex_key_hash key)) = Some r /\
    match r with Some f => exists x, at_key_of s key f x | None => forall f x, ~ at_key_of s key f x end.
Proof.
  intros S. destruct (find_futex_spec s key (bucket s (futex_key_hash key))) as (r & Er & Hr).
  { apply Forall_forall. intros f Hf. destruct (so_bucket _ _ S _ f Hf) as (x & Ex & _). by exists x. }
  exists r. split; [done |]. destruct r as [f |]; [by destruct Hr as [_ ?] |]. intros f x [Ex <-]. by eapply Hr; [apply (so_filed _ _ S) |].
Qed.

(** What getting and putting a futex leaves alone: everything but the table, and
    all of a futex but its count. *)
Definition body (x : futex) := (f_key x, f_queue x, f_pi_queue x, f_pi_owner x, f_wake_seq x).
Record calm (s s' : state) : Prop := mk_calm {
  ca_waits : s_waits s' = s_waits s;
  ca_parks : s_parks s' = s_parks s;
  ca_pi : s_pi_waiting s' = s_pi_waiting s;
  ca_words : s_words s' = s_words s;
  ca_body : forall f x x', s_futexes s !! f = Some x -> s_futexes s' !! f = Some x' -> body x' = body x }.

Lemma calm_refl s : calm s s.
Proof. split; congruence. Qed.
Lemma calm_total s s' : calm s s' -> total s' = total s.
Proof. intros [E1 E2 _ _ _]. unfold total. by rewrite E1, E2. Qed.
Lemma calm_refs s s' held f : calm s s' -> refs s' held f = refs s held f.
Proof. intros [E1 E2 _ _ _]. unfold refs. by rewrite E1, E2. Qed.
Lemma calm_park s s' cur : calm s s' -> park_of s' cur = park_of s cur.
Proof. intros [_ E _ _ _]. unfold park_of. by rewrite E. Qed.

(** [new] is where malloc may put a futex. *)
Definition fresh (s : state) (new : option Z) : Prop := match new with Some f => s_futexes s !! f = None | None => True end.
Definition room (s : state) (held : list Z) : Prop := Z.of_nat (total s + length held) < 2 ^ 32.

Lemma calm_put_futex s f x r : s_futexes s !! f = Some x -> calm s (put_futex s f (set_refcount x r)).
Proof. intros E. split; try done. intros g y y' Ey Ey'. simpl in Ey'. at_key f g; [done | congruence]. Qed.

Lemma sound_new s held f key : sound s held -> s_futexes s !! f = None -> (forall g x, ~ at_key_of s key g x) -> room s (f :: held) ->
  sound (put_bucket (put_futex s f (mk_futex 1 key [] [] 0 0)) (futex_key_hash key) (f :: bucket s (futex_key_hash key))) (f :: held).
Proof.
  intros S Ef Hk Hr. pose proof S as [H1 H2 H3 H4 H5 H6 H7 H8 H9].
  assert (forall b, bucket (put_bucket (put_futex s f (mk_futex 1 key [] [] 0 0)) (futex_key_hash key) (f :: bucket s (futex_key_hash key))) b =
          if decide (b = futex_key_hash key) then f :: bucket s b else bucket s b) as Hb.
  { intros b. unfold bucket at 1. simpl. destruct (decide (b = futex_key_hash key)) as [-> |]; [by rewrite lookup_insert_eq | by rewrite lookup_insert_ne]. }
  split; simpl; try done.
  - intros g. specialize (H1 g). change (refs (put_bucket _ _ _) (f :: held) g) with (refs s (f :: held) g). rewrite refs_held.
    at_key f g; [| by rewrite decide_False]. rewrite Ef in H1. rewrite decide_True, H1 by done. simpl. lia.
  - intros g y Ey. rewrite Hb. at_key f g; [rewrite decide_True by done; set_solver |]. apply H3 in Ey.
    destruct (decide _); set_solver.
  - intros b g. rewrite Hb. intros Hg. at_key f g.
    + exists (mk_futex 1 key [] [] 0 0). split; [done |]. simpl. destruct (decide _) as [-> |]; [done |]. destruct (H4 b f Hg) as (y & Ey & _). congruence.
    + apply H4. destruct (decide _); set_solver.
  - intros g h y z Ey Ez E. at_key f g; at_key f h; [done | by destruct (Hk h z) | by destruct (Hk g y) | by apply (H5 _ _ y z)].
  - intros g y w Ey Hw. at_key f g; [by apply not_elem_of_nil in Hw | by apply (H6 _ y)].
  - intros g y Ey. at_key f g; [constructor | by apply (H7 g)].
  - intros w v Ew Hl. destruct (H8 w v Ew Hl) as (y & Ey & Hw). exists y. split; [| done]. rewrite lookup_insert_ne; congruence.
  - intros g y Ey. at_key f g; [simpl; lia | by apply (H9 g)].
Qed.

Lemma get_sound s held key new : sound s held -> fresh s new -> Z.of_nat (total s + S (length held)) < 2 ^ 32 ->
  exists g s', futex_get_unlocked s key new = Some (g, s') /\ calm s s' /\ (forall h, s_futexes s !! h = None -> Some h <> new -> s_futexes s' !! h = None) /\
    match g with
    | Some f => sound s' (f :: held) /\ exists x, at_key_of s' key f x
    | None => s' = s /\ new = None /\ forall f x, ~ at_key_of s key f x
    end.
Proof.
  intros S Hf Hr. unfold futex_get_unlocked. destruct (sound_find s held key S) as (r & -> & Hk). simpl.
  destruct r as [f |].
  - destruct Hk as (x & Ex & Ek). rewrite Ex. simpl. destruct (sound_here _ _ _ _ S Ex) as [Hx Hp].
    pose proof (futex_refs_total s held f). exists (Some f). eexists. split; [done |]. split; [by apply calm_put_futex |].
    split; [intros h Hh _; simpl; rewrite lookup_insert_ne; congruence |].
    split; [| exists (set_refcount x (u32 (f_refcount x + 1))); split; [simpl; by rewrite lookup_insert_eq | done]].
    apply (sound_put_futex s held (f :: held) f x); try done; simpl; [by apply (so_seq _ _ S f) | | |].
    + rewrite refs_held, decide_True by done. rewrite u32_small; lia.
    + rewrite refs_held. lia.
    + intros g Hg. rewrite refs_held, decide_False; [done | congruence].
  - destruct new as [f |]; [| exists None, s; split; [done | split; [apply calm_refl | split; [by intros | done]]]].
    exists (Some f). eexists. split; [done |]. split; [| split; [| split; [by apply sound_new |]]].
    + split; try done. intros g y y' Ey Ey'. simpl in Ey', Hf. at_key f g; congruence.
    + intros h Hh Hn. simpl. rewrite lookup_insert_ne; congruence.
    + exists (mk_futex 1 key [] [] 0 0). split; [simpl; by rewrite lookup_insert_eq | done].
Qed.

Lemma drop_elem a w l : w ∈ drop a l <-> w ∈ l /\ w <> a.
Proof. unfold drop. rewrite list_elem_of_filter. tauto. Qed.

Lemma sound_delete s held f x : sound s (f :: held) -> s_futexes s !! f = Some x -> refs s held f = 0%nat ->
  sound (put_bucket (set_futexes s (delete f (s_futexes s))) (futex_key_hash (f_key x)) (drop f (bucket s (futex_key_hash (f_key x))))) held.
Proof.
  intros [H1 H2 H3 H4 H5 H6 H7 H8 H9] Ef Hz.
  assert (forall b g, g ∈ bucket (put_bucket (set_futexes s (delete f (s_futexes s))) (futex_key_hash (f_key x)) (drop f (bucket s (futex_key_hash (f_key x))))) b <->
          g ∈ bucket s b /\ g <> f) as Hb.
  { intros b g. unfold bucket at 1. simpl. destruct (decide (b = futex_key_hash (f_key x))) as [-> | Hb]; [rewrite lookup_insert_eq; apply drop_elem |].
    rewrite lookup_insert_ne by done. split; [| by intros [? _]]. intros Hg. split; [done |]. intros ->. destruct (H4 b f Hg) as (y & Ey & E). congruence. }
  split; simpl.
  - intros g. change (refs (put_bucket _ _ _) held g) with (refs s held g). specialize (H1 g). rewrite refs_held in H1.
    destruct (decide (f = g)) as [<- | Hg]; [by rewrite lookup_delete_eq | by rewrite lookup_delete_ne].
  - change (total (put_bucket _ _ _)) with (total s). simpl in H2. lia.
  - intros g y Ey. apply lookup_delete_Some in Ey as [Hg Ey]. apply Hb. split; [by apply H3 | done].
  - intros b g Hg. apply Hb in Hg as [Hg Hf]. destruct (H4 b g Hg) as (y & Ey & E). exists y. by rewrite lookup_delete_ne.
  - intros g h y z Ey Ez E. apply lookup_delete_Some in Ey as [_ Ey], Ez as [_ Ez]. by apply (H5 _ _ y z).
  - intros g y w Ey Hw. apply lookup_delete_Some in Ey as [_ Ey]. by apply (H6 _ y).
  - intros g y Ey. apply lookup_delete_Some in Ey as [_ Ey]. by apply (H7 g).
  - intros w v Ew Hl. destruct (H8 w v Ew Hl) as (y & Ey & Hw). exists y. split; [| done]. rewrite lookup_delete_ne; [done |]. intros E.
    destruct (H6 _ y w Ey Hw) as (v' & Ew' & M & _). assert (v' = v) as -> by congruence.
    pose proof (live_refs s held w v Ew M). rewrite <- E in *. lia.
  - intros g y Ey. apply lookup_delete_Some in Ey as [_ Ey]. by apply (H9 g).
Qed.

Lemma put_sound s held f : sound s (f :: held) ->
  exists s', futex_put_unlocked s f = Some s' /\ calm s s' /\ sound s' held /\ (forall h, s_futexes s !! h = None -> s_futexes s' !! h = None).
Proof.
  intros S. destruct (sound_held _ _ _ S) as (x & Ex). destruct (sound_here _ _ _ _ S Ex) as [Hx Hp].
  pose proof (futex_refs_total s (f :: held) f) as Ht. pose proof (so_total _ _ S) as Hr. rewrite refs_held, decide_True in Hx, Hp, Ht by done.
  unfold futex_put_unlocked. rewrite Ex. simpl. rewrite u32_small by (simpl in *; lia).
  destruct (f_refcount x - 1 =? 0) eqn:E; to_prop.
  - assert (refs s held f = 0%nat) as Hz by lia. assert (queues x = []) as Hq.
    { apply elem_of_nil_inv. intros w Hw. destruct (so_queued _ _ S f x w Ex Hw) as (v & Ew & M & _ & <- & _). pose proof (live_refs s held w v Ew M). lia. }
    apply app_eq_nil in Hq as [-> ->]. eexists. split; [done |]. split; [| split; [by apply sound_delete |]].
    + split; try done. intros g y y' Ey Ey'. simpl in Ey'. apply lookup_delete_Some in Ey' as [_ Ey']. congruence.
    + intros h Hh. simpl. by apply lookup_delete_None; right.
  - eexists. split; [done |]. split; [by apply calm_put_futex |]. split; [| intros h Hh; simpl; rewrite lookup_insert_ne; congruence].
    apply (sound_put_futex s (f :: held) held f x); try done; simpl; [by apply (so_seq _ _ S f) | lia | lia | | simpl in *; lia].
    intros g Hg. rewrite refs_held, decide_False; [done | congruence].
Qed.

(** ** Queues *)

(** A wait changed, but not what it counts for. *)
Lemma refs_put_wait s held w v v' f : s_waits s !! w = Some v -> w_magic v' = w_magic v -> w_futex v' = w_futex v -> refs (put_wait s w v') held f = refs s held f.
Proof. intros E M F. unfold refs. simpl. rewrite (msum_same _ _ w v v' E); [done |]. unfold live_on. by rewrite M, F. Qed.
Lemma total_put_wait s w v v' : s_waits s !! w = Some v -> w_magic v' = w_magic v -> total (put_wait s w v') = total s.
Proof. intros E M. unfold total. simpl. rewrite (msum_same _ _ w v v' E); [done |]. unfold live. by rewrite M. Qed.

Definition off (s : state) (w : Z) (v : futex_wait) (x : futex) : state :=
  put_wait (put_futex s (w_futex v) (set_queues x (drop w (f_queue x)) (drop w (f_pi_queue x)))) w (set_linked v false).

Lemma queues_drop w x : queues (set_queues x (drop w (f_queue x)) (drop w (f_pi_queue x))) = drop w (queues x).
Proof. unfold queues, drop. simpl. by rewrite filter_app. Qed.

Lemma sound_off s held w v x : sound s held -> s_waits s !! w = Some v -> w_magic v = true -> s_futexes s !! w_futex v = Some x -> sound (off s w v x) held.
Proof.
  intros [H1 H2 H3 H4 H5 H6 H7 H8 H9] Ew M Ef. unfold off. set (x' := set_queues x _ _).
  assert (queues x' = drop w (queues x)) as Eq by apply queues_drop.
  assert (f_key x' = f_key x /\ f_refcount x' = f_refcount x /\ f_wake_seq x' = f_wake_seq x) as (Ek & Er & Es) by done. clearbody x'.
  assert (forall f y, f <> w_futex v -> s_futexes s !! f = Some y -> w ∉ queues y) as Hne.
  { intros f y Hf Ey Hw. destruct (H6 f y w Ey Hw) as (v0 & E0 & _ & _ & F & _). congruence. }
  split; simpl.
  - intros f. rewrite (refs_put_wait _ _ _ v) by done. change (refs (put_futex s (w_futex v) x') held f) with (refs s held f).
    specialize (H1 f). at_key (w_futex v) f; [by rewrite Ef, <- Er in H1 | done].
  - by rewrite (total_put_wait _ _ v).
  - intros f y Ey. at_key (w_futex v) f; [rewrite Ek |]; by apply H3.
  - intros b f Hf. destruct (H4 b f Hf) as (y & Ey & E). at_key (w_futex v) f; [exists x'; by rewrite Ek | by exists y].
  - intros f g y z Ey Ez E. at_key (w_futex v) f; at_key (w_futex v) g; [done | eapply (H5 _ _ x z) | eapply (H5 _ _ y x) | by apply (H5 _ _ y z)]; congruence.
  - intros f y u Ey Hu. assert (u <> w /\ exists z, s_futexes s !! f = Some z /\ u ∈ queues z) as (Hn & z & Ez & Hz).
    { at_key (w_futex v) f; [rewrite Eq, drop_elem in Hu; naive_solver |]. split; [| by exists y]. intros ->. by apply (Hne f y). }
    destruct (H6 f z u Ez Hz) as (v0 & E0 & ?). exists v0. split; [simpl; by rewrite lookup_insert_ne | done].
  - intros f y Ey. at_key (w_futex v) f; [rewrite Eq; apply NoDup_filter |]; by eapply H7.
  - intros u v0 Eu L. at_key w u. destruct (H8 u v0 Eu L) as (y & Ey & Hu).
    destruct (decide (w_futex v0 = w_futex v)) as [E |]; [| exists y; by rewrite lookup_insert_ne].
    exists x'. rewrite E, lookup_insert_eq, Eq, drop_elem. rewrite E, Ef in Ey. by simplify_eq.
  - intros f y Ey. at_key (w_futex v) f; [rewrite Es; by apply (H9 (w_futex v) x) | by apply (H9 f)].
Qed.

Lemma dequeue_sound s held w v : sound s held -> s_waits s !! w = Some v -> w_magic v = true ->
  exists x, s_futexes s !! w_futex v = Some x /\ dequeue s w = Some (off s w v x) /\ sound (off s w v x) held.
Proof.
  intros S Ew M. destruct (sound_live _ _ _ _ S Ew M) as (x & Ex). exists x. split; [done |]. split; [| by apply sound_off].
  unfold dequeue. rewrite Ew. simpl. by rewrite Ex.
Qed.

(** A live wait that is on no queue put at the back of one. *)
Lemma sound_on s held w v x x' : sound s held -> s_waits s !! w = Some v -> w_magic v = true -> w_linked v = false -> w_pi_owned v = false ->
  s_futexes s !! w_futex v = Some x -> f_key x' = f_key x -> f_refcount x' = f_refcount x -> f_wake_seq x' = f_wake_seq x ->
  queues x' ≡ₚ w :: queues x -> sound (put_wait (put_futex s (w_futex v) x') w (set_linked v true)) held.
Proof.
  intros S Ew M L P Ef Ek Er Es Eq. pose proof S as [H1 H2 H3 H4 H5 H6 H7 H8 H9].
  assert (forall f y, s_futexes s !! f = Some y -> w ∉ queues y) as Hn.
  { intros f y Ey Hw. destruct (H6 f y w Ey Hw) as (v0 & E0 & _ & L0 & _). congruence. }
  split; simpl.
  - intros f. rewrite (refs_put_wait _ _ _ v) by done. change (refs (put_futex s (w_futex v) x') held f) with (refs s held f).
    specialize (H1 f). at_key (w_futex v) f; [by rewrite Ef, <- Er in H1 | done].
  - by rewrite (total_put_wait _ _ v).
  - intros f y Ey. at_key (w_futex v) f; [rewrite Ek |]; by apply H3.
  - intros b f Hf. destruct (H4 b f Hf) as (y & Ey & E). at_key (w_futex v) f; [exists x'; by rewrite Ek | by exists y].
  - intros f g y z Ey Ez E. at_key (w_futex v) f; at_key (w_futex v) g; [done | eapply (H5 _ _ x z) | eapply (H5 _ _ y x) | by apply (H5 _ _ y z)]; congruence.
  - intros f y u Ey Hu. at_key w u.
    + at_key (w_futex v) f; [| by destruct (Hn f y)]. exists (set_linked v true). split; [simpl; by rewrite lookup_insert_eq | done].
    + assert (exists z, s_futexes s !! f = Some z /\ u ∈ queues z) as (z & Ez & Hz).
      { at_key (w_futex v) f; [rewrite Eq in Hu; set_solver | by exists y]. }
      destruct (H6 f z u Ez Hz) as (v0 & E0 & ?). exists v0. split; [simpl; by rewrite lookup_insert_ne | done].
  - intros f y Ey. at_key (w_futex v) f; [rewrite Eq; constructor; [by apply (Hn (w_futex v)) |] |]; by eapply H7.
  - intros u v0 Eu L0. at_key w u; [exists x'; simpl; rewrite lookup_insert_eq, Eq; set_solver |]. destruct (H8 u v0 Eu L0) as (y & Ey & Hu).
    destruct (decide (w_futex v0 = w_futex v)) as [E |]; [| exists y; by rewrite lookup_insert_ne].
    exists x'. rewrite E, lookup_insert_eq, Eq. rewrite E, Ef in Ey. simplify_eq. set_solver.
  - intros f y Ey. at_key (w_futex v) f; [rewrite Es; by apply (H9 (w_futex v) x) | by apply (H9 f)].
Qed.
