(* ===== verification/FutexSteps.v ===== *)
(** * The operations on futexes keep them sound (kernel/futex.c)

    Each operation, run from a sound state with the references it was given,
    ends in one; and what it does to the waits and the parked tasks of others is
    little ([gentle]). *)

From Stdlib Require Import ZifyBool.
From S2P Require Import Prelude Counts Futex FutexSound.

(** Waits stay where they are, live or dead as they were, and are only unlinked;
    parks stay, and a futex a task is parked on keeps its key, its wake counter
    going on by [adv] of it. *)
Record gentle (adv : futex_key -> Z) (s s' : state) : Prop := mk_gentle {
  ge_parks : s_parks s' = s_parks s;
  ge_total : total s' = total s;
  ge_pi : s_pi_waiting s' = s_pi_waiting s;
  ge_wait : forall u v, s_waits s !! u = Some v ->
    exists v', s_waits s' !! u = Some v' /\ w_magic v' = w_magic v /\ w_tid v' = w_tid v /\ (w_linked v' = true -> w_linked v = true);
  ge_none : forall u, s_waits s !! u = None -> s_waits s' !! u = None;
  ge_seq : forall cur f x, r_futex (park_of s cur) = Some f -> s_futexes s !! f = Some x ->
    exists x', s_futexes s' !! f = Some x' /\ f_key x' = f_key x /\ u64 (f_wake_seq x') = u64 (f_wake_seq x + adv (f_key x)) }.

Definition none (_ : futex_key) : Z := 0.

Lemma gentle_ext adv adv' s s' : (forall k, adv k = adv' k) -> gentle adv s s' -> gentle adv' s s'.
Proof. intros E [H1 H2 H3 H4 H5 H6]. split; try done. intros cur f x Hc Hx. rewrite <- E. by apply (H6 cur). Qed.
Lemma gentle_refl s : gentle none s s.
Proof. split; try done; [intros u v E; by exists v |]. intros cur f x _ E. exists x. by rewrite Z.add_0_r. Qed.
Lemma gentle_trans a b s1 s2 s3 : gentle a s1 s2 -> gentle b s2 s3 -> gentle (fun k => a k + b k) s1 s3.
Proof.
  intros [H1 H2 H3 H4 H6 H5] [G1 G2 G3 G4 G6 G5]. split; [congruence | congruence | congruence | | auto |].
  - intros u v E. destruct (H4 u v E) as (v1 & E1 & M1 & T1 & L1). destruct (G4 u v1 E1) as (v2 & E2 & M2 & T2 & L2). exists v2. naive_solver congruence.
  - intros cur f x Hc E. destruct (H5 cur f x Hc E) as (x1 & E1 & K1 & S1). destruct (G5 cur f x1) as (x2 & E2 & K2 & S2); [by unfold park_of in *; rewrite H1 | done |].
    exists x2. split; [done |]. split; [congruence |]. rewrite S2, K1. unfold u64, wrap in *. by rewrite <- Zplus_mod_idemp_l, S1, Zplus_mod_idemp_l, Z.add_assoc.
Qed.
Lemma gentle_none s1 s2 s3 : gentle none s1 s2 -> gentle none s2 s3 -> gentle none s1 s3.
Proof. intros H G. eapply gentle_ext; [| by apply (gentle_trans _ _ _ _ _ H G)]. done. Qed.

Lemma gentle_calm s s' held : calm s s' -> sound s' held -> gentle none s s'.
Proof.
  intros C S. pose proof C as [E1 E2 E3 _ Eb]. split; [done | by apply calm_total | done | rewrite E1; intros u v E; by exists v | by rewrite E1 |].
  intros cur f x Hc E. rewrite <- (calm_park _ _ cur C) in Hc. destruct (sound_parked _ _ _ _ S Hc) as (x' & E'). specialize (Eb f x x' E E') as B.
  unfold body in B. exists x'. rewrite Z.add_0_r. naive_solver congruence.
Qed.
Lemma gentle_store s l v : gentle none s (store s l v).
Proof. split; try done; [intros u z E; by exists z |]. intros cur f x _ E. exists x. by rewrite Z.add_0_r. Qed.

(** A futex changed, not in its key. *)
Lemma gentle_put_futex adv s f x x' : s_futexes s !! f = Some x -> f_key x' = f_key x -> f_wake_seq x' = u64 (f_wake_seq x + adv (f_key x)) \/ f_wake_seq x' = f_wake_seq x /\ adv (f_key x) = 0 ->
  (forall g y, g <> f -> s_futexes s !! g = Some y -> adv (f_key y) = 0) -> gentle adv s (put_futex s f x').
Proof.
  intros Ef Ek Es Ho. split; try done; [intros u v E; by exists v |]. intros cur g y _ Ey. simpl. destruct (decide (g = f)) as [-> | Hg].
  - exists x'. rewrite lookup_insert_eq. simplify_eq. split; [done |]. split; [done |]. destruct Es as [-> | [-> ->]]; [| by rewrite Z.add_0_r].
    unfold u64, wrap. by rewrite Zmod_mod.
  - exists y. rewrite lookup_insert_ne, (Ho g), Z.add_0_r by done. done.
Qed.
Lemma gentle_same s f x x' : s_futexes s !! f = Some x -> f_key x' = f_key x -> f_wake_seq x' = f_wake_seq x -> gentle none s (put_futex s f x').
Proof. intros Ef Ek Es. apply (gentle_put_futex none s f x); auto. Qed.
Lemma gentle_put_wait s w v v' : s_waits s !! w = Some v -> w_magic v' = w_magic v -> w_tid v' = w_tid v -> (w_linked v' = true -> w_linked v = true) -> gentle none s (put_wait s w v').
Proof.
  intros E M T L. split; try done; [by rewrite (total_put_wait s w v) | | |].
  - intros u z Ez. simpl. at_key w u; [by exists v' | by exists z].
  - intros u Eu. simpl. rewrite lookup_insert_ne; congruence.
  - intros cur f x _ Ex. exists x. by rewrite Z.add_0_r.
Qed.
Lemma gentle_off s w v x : s_waits s !! w = Some v -> s_futexes s !! w_futex v = Some x -> gentle none s (off s w v x).
Proof. intros Ew Ex. unfold off. eapply gentle_none; [| by apply (gentle_put_wait _ w v)]; by apply (gentle_same s (w_futex v) x). Qed.

(** ** Waking *)

(** The first [n] of a list that [ok]. *)
Fixpoint pick (ok : Z -> bool) (n : nat) (l : list Z) : list Z :=
  match n, l with
  | O, _ | _, [] => []
  | S n', w :: l => if ok w then w :: pick ok n' l else pick ok n l
  end.

Definition without (P l : list Z) : list Z := filter (fun w => w ∉ P) l.
Definition unlink (P : list Z) (m : gmap Z futex_wait) : gmap Z futex_wait := fold_left (fun m w => alter (fun v => set_linked v false) w m) P m.

(** The waits [P] of futex [f], which is [x], off its queues. *)
Definition taken (s : state) (f : Z) (x : futex) (P : list Z) : state :=
  set_waits (put_futex s f (set_queues x (without P (f_queue x)) (without P (f_pi_queue x)))) (unlink P (s_waits s)).

Lemma without_none l : without [] l = l.
Proof. unfold without. induction l as [| w l IH]; [done |]. rewrite filter_cons_True by apply not_elem_of_nil. by f_equal. Qed.
Lemma without_cons w P l : without P (drop w l) = without (w :: P) l.
Proof.
  unfold without, drop. rewrite list_filter_filter. apply list_filter_iff. intros u. set_solver.
Qed.
Lemma taken_nil s f x : s_futexes s !! f = Some x -> taken s f x [] = s.
Proof. intros E. unfold taken, put_futex, set_waits. rewrite !without_none. destruct x. unfold set_queues. simpl. rewrite insert_id by done. by destruct s. Qed.
Lemma taken_cons s f x w v P : s_waits s !! w = Some v -> w_futex v = f ->
  taken (off s w v x) f (set_queues x (drop w (f_queue x)) (drop w (f_pi_queue x))) P = taken s f x (w :: P).
Proof.
  intros Ew <-. unfold taken, off, put_futex, put_wait, set_waits, set_futexes. simpl. rewrite !without_cons, insert_insert_eq. f_equal.
  unfold unlink. simpl. f_equal. apply map_eq. intros u. at_key w u; [by rewrite lookup_alter_eq, Ew | by rewrite lookup_alter_ne].
Qed.

Lemma pick_nil ok n : pick ok n [] = [].
Proof. by destruct n. Qed.
Lemma pick_elem ok n l w : w ∈ pick ok n l -> w ∈ l /\ ok w = true.
Proof.
  revert n. induction l as [| u l IH]; intros [| n]; simpl; try (intros H; by apply not_elem_of_nil in H).
  destruct (ok u) eqn:E; [rewrite elem_of_cons; intros [-> | H]; [set_solver |] | intros H]; apply IH in H; set_solver.
Qed.
Lemma pick_nodup ok n l : NoDup l -> NoDup (pick ok n l).
Proof.
  revert n. induction l as [| u l IH]; intros [| n] H; simpl; try apply NoDup_nil_2. apply NoDup_cons in H as [Hu H].
  destruct (ok u); [| by apply IH]. apply NoDup_cons. split; [| by apply IH]. intros H'. by apply pick_elem in H' as [? _].
Qed.
Lemma pick_length ok n l : (length (pick ok n l) <= n)%nat /\ (length (pick ok n l) <= length l)%nat.
Proof. revert n. induction l as [| u l IH]; intros [| n]; simpl; try lia. destruct (ok u); simpl; [pose proof (IH n) | pose proof (IH (S n))]; lia. Qed.
Lemma pick_ext ok ok' n l : (forall w, w ∈ l -> ok w = ok' w) -> pick ok n l = pick ok' n l.
Proof.
  revert n. induction l as [| u l IH]; intros [| n] H; simpl; try done. rewrite (H u), !IH; [done | | |]; set_solver.
Qed.

Lemma unlink_lookup P m u : unlink P m !! u = (fun v => if bool_decide (u ∈ P) then set_linked v false else v) <$> m !! u.
Proof.
  unfold unlink. revert m. induction P as [| w P IH]; intros m; simpl; [by destruct (m !! u) |]. rewrite IH.
  destruct (decide (u = w)) as [-> | Hne]; [rewrite lookup_alter_eq | rewrite lookup_alter_ne by done]; destruct (m !! _) as [v |]; try done; simpl; f_equal.
  - rewrite (bool_decide_eq_true_2 (w ∈ w :: P)) by set_solver. by case_bool_decide.
  - assert (u ∈ w :: P <-> u ∈ P) by set_solver. by rewrite (bool_decide_ext _ _ H).
Qed.

(** The bits a wait is waiting on match. *)
Definition matches (s : state) (mask : option Z) (w : Z) : bool :=
  match s_waits s !! w, mask with
  | Some v, Some m => negb (w_bitset v .& m =? 0)
  | Some _, None => true
  | None, _ => false
  end.

Lemma msum_nodup {A} (h : A -> nat) (m : gmap Z A) l : NoDup l -> (forall w, w ∈ l -> exists v, m !! w = Some v /\ (0 < h v)%nat) -> (length l <= msum h m)%nat.
Proof.
  revert m. induction l as [| w l IH]; intros m N H; simpl; [lia |]. apply NoDup_cons in N as [Hw N]. destruct (H w) as (v & E & Hv); [set_solver |].
  rewrite (msum_delete h m w v E). enough (length l <= msum h (delete w m))%nat by lia. apply IH; [done |]. intros u Hu.
  destruct (H u) as (z & Ez & Hz); [set_solver |]. exists z. rewrite lookup_delete_ne; [done | set_solver].
Qed.

(** A queue is no longer than the calls asleep. *)
Lemma queue_length s held f x l : sound s held -> s_futexes s !! f = Some x -> NoDup l -> (forall w, w ∈ l -> w ∈ queues x) -> Z.of_nat (length l) < 2 ^ 32.
Proof.
  intros S E N H. assert (length l <= msum (live_on f) (s_waits s))%nat.
  { apply msum_nodup; [done |]. intros w Hw. destruct (so_queued _ _ S f x w E (H w Hw)) as (v & Ev & M & _ & F & _). exists v. split; [done |].
    unfold live_on. rewrite M, F, Z.eqb_refl. simpl. lia. }
  pose proof (futex_refs_total s held f). pose proof (so_total _ _ S). unfold refs in *. lia.
Qed.

Lemma wake_queue_spec s held f x l mask max woken : sound s held -> s_futexes s !! f = Some x -> NoDup l -> (forall w, w ∈ l -> w ∈ queues x) ->
  0 <= woken -> woken + Z.of_nat (length l) < 2 ^ 32 ->
  let P := pick (matches s mask) (Z.to_nat (max - woken)) l in
  wake_queue s l mask max woken = Some (woken + Z.of_nat (length P), taken s f x P) /\ sound (taken s f x P) held /\ gentle none s (taken s f x P).
Proof.
  revert s x woken. induction l as [| w l IH]; intros s x woken S Ex N Hl H0 Hb; cbv zeta.
  { simpl wake_queue. rewrite pick_nil, taken_nil, Z.add_0_r by done. split; [done |]. split; [done | apply gentle_refl]. }
  simpl. apply NoDup_cons in N as [Hw N]. destruct (so_queued _ _ S f x w Ex) as (v & Ev & M & L & F & _); [apply Hl; set_solver |].
  destruct (woken >=? max) eqn:Em; to_prop.
  { replace (Z.to_nat (max - woken)) with O by lia. simpl. rewrite taken_nil, Z.add_0_r by done. split; [done |]. split; [done | apply gentle_refl]. }
  destruct (Z.to_nat (max - woken)) as [| n] eqn:En; [lia |]. rewrite Ev. simpl.
  replace (matches s mask w) with (negb match mask with Some m => w_bitset v .& m =? 0 | None => false end) by (unfold matches; rewrite Ev; by destruct mask).
  destruct (match mask with Some m => w_bitset v .& m =? 0 | None => false end); simpl.
  - rewrite <- En. apply IH; try done; [set_solver | simpl in Hb; lia].
  - destruct (dequeue_sound s held w v S Ev M) as (x0 & Ex0 & -> & S1). rewrite F, Ex in Ex0. injection Ex0 as <-. rewrite M. simpl.
    rewrite u32_small by (simpl in Hb; lia). set (s1 := off s w v x) in *.
    specialize (IH s1 (set_queues x (drop w (f_queue x)) (drop w (f_pi_queue x))) (woken + 1) S1).
    assert (s_futexes s1 !! f = Some (set_queues x (drop w (f_queue x)) (drop w (f_pi_queue x)))) as E1 by (unfold s1, off; simpl; by rewrite F, lookup_insert_eq).
    destruct IH as (Hr & Hs & Hg); [done | done | | lia | simpl in Hb; lia |].
    { intros u Hu. rewrite queues_drop, drop_elem. split; [apply Hl; set_solver | set_solver]. }
    replace (Z.to_nat (max - (woken + 1))) with n in * by lia.
    assert (forall u, matches s1 mask u = matches s mask u) as Hm by (intros u; unfold matches, s1, off; simpl; at_key w u; [by rewrite Ev; destruct mask | done]).
    rewrite (pick_ext _ (matches s mask)) in Hr, Hs, Hg by (intros; apply Hm). unfold s1 in Hr, Hs, Hg. rewrite (taken_cons s f x w v _ Ev F) in Hr, Hs, Hg. fold s1 in Hr, Hg.
    rewrite Hr. split; [f_equal; apply (f_equal (fun n => (n, _))); simpl; lia |]. split; [done |]. eapply gentle_none; [apply gentle_off; by rewrite ?F | done].
Qed.

(** ** Requeueing *)

Lemma live_on_live f v : w_magic v = true -> live_on f v = if decide (w_futex v = f) then 1%nat else 0%nat.
Proof. intros M. unfold live_on. rewrite M. simpl. destruct (decide (w_futex v = f)) as [-> |]; [by rewrite Z.eqb_refl | by rewrite (proj2 (Z.eqb_neq _ _))]. Qed.

(** The references of a live wait that goes over from [f] to [t]. *)
Lemma refs_redirect s held w v t g : s_waits s !! w = Some v -> w_magic v = true ->
  (refs (put_wait s w (set_w_futex v t)) held g + (if decide (w_futex v = g) then 1 else 0) = refs s held g + (if decide (t = g) then 1 else 0))%nat.
Proof.
  intros E M. unfold refs. simpl. pose proof (msum_update (live_on g) _ w v (set_w_futex v t) E) as H. rewrite !live_on_live in H by done. simpl in H. lia.
Qed.

Lemma sound_redirect s held w v t x y : sound s held -> s_waits s !! w = Some v -> w_magic v = true -> w_linked v = false -> w_futex v <> t ->
  w_futex v ∈ held -> s_futexes s !! w_futex v = Some x -> s_futexes s !! t = Some y ->
  1 < f_refcount x < 2 ^ 32 /\ 0 <= f_refcount y + 1 < 2 ^ 32 /\
  sound (put_wait (put_futex (put_futex s (w_futex v) (set_refcount x (f_refcount x - 1))) t (set_refcount y (f_refcount y + 1))) w (set_w_futex v t)) held.
Proof.
  intros S Ew M L Ht Hf Ex Ey. set (f := w_futex v) in *. destruct (sound_here _ _ _ _ S Ex) as [Rx _]. destruct (sound_here _ _ _ _ S Ey) as [Ry _].
  assert (1 < refs s held f)%nat as H1 by (apply occ_elem in Hf; pose proof (live_refs s held w v Ew M); unfold refs in *; fold f in H; lia).
  assert (forall g, refs (put_wait s w (set_w_futex v t)) held g + (if decide (f = g) then 1 else 0) = refs s held g + (if decide (t = g) then 1 else 0))%nat as Hr by (intros g; by apply refs_redirect).
  assert (total (put_wait s w (set_w_futex v t)) = total s) as Et by (by apply (total_put_wait s w v)).
  pose proof (futex_refs_total (put_wait s w (set_w_futex v t)) held t) as Hb. rewrite Et in Hb. pose proof (Hr t) as Hrt. pose proof (Hr f) as Hrf.
  rewrite decide_False, (decide_True (P := t = t)) in Hrt by done. rewrite decide_True, (decide_False (P := t = f)) in Hrf by done.
  pose proof (so_total _ _ S) as Hs. pose proof (futex_refs_total s held f). split; [lia |]. split; [lia |].
  pose proof S as [G1 G2 G3 G4 G5 G6 G7 G8 G9].
  assert (forall g z, <[t := set_refcount y (f_refcount y + 1)]> (<[f := set_refcount x (f_refcount x - 1)]> (s_futexes s)) !! g = Some z ->
    exists z0, s_futexes s !! g = Some z0 /\ body z = body z0) as Back.
  { intros g z Ez. at_key t g; [by exists y |]. at_key f g; [by exists x | by exists z]. }
  assert (forall g z, s_futexes s !! g = Some z -> exists z', <[t := set_refcount y (f_refcount y + 1)]> (<[f := set_refcount x (f_refcount x - 1)]> (s_futexes s)) !! g = Some z' /\ body z' = body z) as Forth.
  { intros g z Ez. at_key t g; [eexists; split; [done |]; by simplify_eq |]. at_key f g; [eexists; split; [done |]; by simplify_eq | by exists z]. }
  unfold body in *. split; simpl.
  - intros g. change (refs (put_wait (put_futex (put_futex s _ _) _ _) w (set_w_futex v t)) held g) with (refs (put_wait s w (set_w_futex v t)) held g).
    specialize (Hr g). specialize (G1 g). at_key t g; [simpl; lia |]. at_key f g; [simpl; lia |].
    rewrite !decide_False in Hr by congruence. destruct (s_futexes s !! g); lia.
  - by rewrite (total_put_wait _ w v).
  - intros g z Ez. destruct (Back g z Ez) as (z0 & E0 & B). replace (f_key z) with (f_key z0) by congruence. by apply G3.
  - intros b g Hg. destruct (G4 b g Hg) as (z & Ez & Eb). destruct (Forth g z Ez) as (z' & E' & B). exists z'. split; [done | congruence].
  - intros g h z1 z2 E1 E2 E. destruct (Back g z1 E1) as (a1 & A1 & B1), (Back h z2 E2) as (a2 & A2 & B2). apply (G5 _ _ a1 a2); congruence.
  - intros g z u Ez Hu. destruct (Back g z Ez) as (z0 & E0 & B). unfold queues in Hu. replace (f_queue z ++ f_pi_queue z) with (queues z0) in Hu by (unfold queues; congruence).
    destruct (G6 g z0 u E0 Hu) as (v0 & Ev0 & O). exists v0. split; [simpl; rewrite lookup_insert_ne; [done |] | done]. intros ->. destruct O as (_ & L0 & _). congruence.
  - intros g z Ez. destruct (Back g z Ez) as (z0 & E0 & B). unfold queues. replace (f_queue z ++ f_pi_queue z) with (queues z0) by (unfold queues; congruence). by apply (G7 g).
  - intros u v0 Eu L0. at_key w u; [simpl in L0; congruence |]. destruct (G8 u v0 Eu L0) as (z & Ez & Hu). destruct (Forth _ z Ez) as (z' & E' & B). exists z'. split; [done |].
    unfold queues. by replace (f_queue z' ++ f_pi_queue z') with (queues z) by (unfold queues; congruence).
  - intros g z Ez. destruct (Back g z Ez) as (z0 & E0 & B). replace (f_wake_seq z) with (f_wake_seq z0) by congruence. by apply (G9 g).
Qed.

Definition redirect (t : Z) (M : list Z) (m : gmap Z futex_wait) : gmap Z futex_wait :=
  fold_left (fun m w => alter (fun v => set_linked (set_w_futex v t) true) w m) M m.

(** The waits [M] of [f], which is [x], at the back of the queue of [t], which is [y]. *)
Definition left_by (x : futex) (M : list Z) : futex :=
  set_refcount (set_queues x (without M (f_queue x)) (without M (f_pi_queue x))) (f_refcount x - Z.of_nat (length M)).
Definition joined_by (y : futex) (M : list Z) : futex :=
  set_refcount (set_queues y (f_queue y ++ M) (f_pi_queue y)) (f_refcount y + Z.of_nat (length M)).
Definition moved (s : state) (f : Z) (x : futex) (t : Z) (y : futex) (M : list Z) : state :=
  set_waits (put_futex (put_futex s f (left_by x M)) t (joined_by y M)) (redirect t M (s_waits s)).

Lemma moved_nil s f x t y : f <> t -> s_futexes s !! f = Some x -> s_futexes s !! t = Some y -> moved s f x t y [] = s.
Proof.
  intros Hne Ex Ey. unfold moved, put_futex, set_waits, set_futexes, left_by, joined_by. rewrite !without_none, app_nil_r. simpl. rewrite Z.sub_0_r, Z.add_0_r.
  destruct x, y. unfold set_refcount, set_queues. simpl. rewrite insert_id by (rewrite insert_id; done). rewrite insert_id by done. by destruct s.
Qed.
Lemma moved_cons s f x t y w M : f <> t -> moved (moved s f x t y [w]) f (left_by x [w]) t (joined_by y [w]) M = moved s f x t y (w :: M).
Proof.
  intros Hne. unfold moved, put_futex, set_waits, set_futexes. simpl. f_equal.
  rewrite (insert_insert_ne _ f t) by done. rewrite !insert_insert_eq. unfold left_by, joined_by, set_refcount, set_queues. simpl.
  rewrite !Nat2Z.inj_succ, <- app_assoc. simpl. f_equal; [f_equal; lia |]. f_equal. f_equal; [lia | |];
    rewrite <- without_cons; unfold drop, without; rewrite list_filter_filter, list_filter_filter; apply list_filter_iff; set_solver.
Qed.

Lemma gentle_moved s f x t y w v : s_waits s !! w = Some v -> w_linked v = true -> f <> t -> s_futexes s !! f = Some x -> s_futexes s !! t = Some y -> gentle none s (moved s f x t y [w]).
Proof.
  intros Ew L Hne Ex Ey. eapply gentle_none; [by apply (gentle_same s f x (left_by x [w])) |]. eapply gentle_none; [apply (gentle_same _ t y (joined_by y [w])); [simpl; by rewrite lookup_insert_ne | done | done] |].
  replace (moved s f x t y [w]) with (put_wait (put_futex (put_futex s f (left_by x [w])) t (joined_by y [w])) w (set_linked (set_w_futex v t) true)); [by apply (gentle_put_wait _ w v) |].
  unfold moved, put_wait, set_waits. simpl. f_equal. apply map_eq. intros u. at_key w u; [by rewrite lookup_alter_eq, Ew | by rewrite lookup_alter_ne].
Qed.

Lemma without_one w l : without [w] l = drop w l.
Proof. by rewrite <- without_cons, without_none. Qed.
Lemma redirect_one t w v m : m !! w = Some v -> redirect t [w] m = <[w := set_linked (set_w_futex v t) true]> m.
Proof. intros E. apply map_eq. intros u. unfold redirect. simpl. at_key w u; [by rewrite lookup_alter_eq, E | by rewrite lookup_alter_ne]. Qed.

(** One wait moved, as the loop of futex_requeue_waiters does it. *)
Lemma sound_moved s held w v f x t y : sound s held -> on_queue s f w v -> f <> t -> f ∈ held -> s_futexes s !! f = Some x -> s_futexes s !! t = Some y ->
  1 < f_refcount x < 2 ^ 32 /\ 0 <= f_refcount y + 1 < 2 ^ 32 /\ sound (moved s f x t y [w]) held.
Proof.
  intros S (Ew & M & L & F & P) Hne Hf Ex Ey. set (x1 := set_queues x (drop w (f_queue x)) (drop w (f_pi_queue x))).
  assert (sound (off s w v x) held) as S1 by (apply sound_off; by rewrite ?F).
  set (s1 := off s w v x) in *. assert (s_futexes s1 !! f = Some x1) as Ex1 by (unfold s1, off; simpl; by rewrite F, lookup_insert_eq).
  assert (s_futexes s1 !! t = Some y) as Ey1 by (unfold s1, off; simpl; rewrite F, lookup_insert_ne; done).
  destruct (sound_redirect s1 held w (set_linked v false) t x1 y S1) as (Hx & Hy & S2); simpl; rewrite ?F; try done; [by rewrite lookup_insert_eq | by rewrite lookup_insert_eq | by rewrite lookup_insert_ne |].
  split; [done |]. split; [done |]. simpl in S2. rewrite F in S2. apply (sound_on _ _ w (set_w_futex (set_linked v false) t) (set_refcount y (f_refcount y + 1)) (joined_by y [w])) in S2; simpl; try done.
  - replace (moved s f x t y [w]) with (put_wait (put_futex (put_wait (put_futex (put_futex s1 f (set_refcount x1 (f_refcount x - 1))) t (set_refcount y (f_refcount y + 1))) w
      (set_w_futex (set_linked v false) t)) t (joined_by y [w])) w (set_linked (set_w_futex (set_linked v false) t) true)); [done |].
    unfold moved. rewrite (redirect_one t w v) by done. unfold s1, off, put_wait, put_futex, set_waits, set_futexes. simpl. rewrite F, !insert_insert_eq.
    unfold left_by. by rewrite !without_one.
  - by rewrite lookup_insert_eq.
  - by rewrite lookup_insert_eq.
  - unfold queues. simpl. rewrite <- app_assoc, (Permutation_app_comm (f_queue y)). simpl. by rewrite (Permutation_app_comm (f_pi_queue y)).
Qed.

Lemma requeue_step s held w v f x t y l max n : sound s held -> on_queue s f w v -> f <> t -> f ∈ held -> s_futexes s !! f = Some x -> s_futexes s !! t = Some y -> n < max ->
  requeue_loop s f t (w :: l) max n = requeue_loop (moved s f x t y [w]) f t l max (u32 (n + 1)).
Proof.
  intros S O Hne Hf Ex Ey Hn. destruct (sound_moved s held w v f x t y S O Hne Hf Ex Ey) as (Hx & Hy & _). destruct O as (Ew & M & L & F & P).
  cbn [requeue_loop]. destruct (n >=? max) eqn:E; to_prop; [lia |]. rewrite Ew. cbn [mbind option_bind]. rewrite M. cbn [negb].
  rewrite (proj2 (Z.eqb_neq t f)) by done. unfold dequeue. rewrite Ew. cbn [mbind option_bind]. rewrite F, Ex. cbn [mbind option_bind].
  simpl. rewrite lookup_insert_eq, lookup_insert_ne, Ey by done. simpl. rewrite !u32_small by lia.
  destruct (f_refcount x >? 1) eqn:E1; to_prop; [simpl | lia].
  f_equal. unfold moved. rewrite (redirect_one t w v) by done. unfold put_wait, put_futex, set_waits, set_futexes. simpl. rewrite !insert_insert_eq.
  unfold left_by. by rewrite !without_one.
Qed.

Lemma requeue_spec s held f x t y l max n : sound s held -> f <> t -> f ∈ held -> s_futexes s !! f = Some x -> s_futexes s !! t = Some y ->
  NoDup l -> (forall w, w ∈ l -> w ∈ queues x) -> 0 <= n -> n + Z.of_nat (length l) < 2 ^ 32 ->
  let M := take (Z.to_nat (max - n)) l in
  requeue_loop s f t l max n = Some (n + Z.of_nat (length M), moved s f x t y M) /\ sound (moved s f x t y M) held /\ gentle none s (moved s f x t y M).
Proof.
  intros S Hne Hf. revert s x y n S. induction l as [| w l IH]; intros s x y n S Ex Ey N Hl H0 Hb; cbv zeta.
  { rewrite take_nil. simpl length. rewrite moved_nil, Z.add_0_r by done. split; [done |]. split; [done | apply gentle_refl]. }
  apply NoDup_cons in N as [Hw N]. destruct (so_queued _ _ S f x w Ex) as (v & O); [apply Hl; set_solver |].
  destruct (decide (max <= n)) as [Hm | Hm].
  { replace (Z.to_nat (max - n)) with 0%nat by lia. simpl take. simpl length. rewrite moved_nil, Z.add_0_r by done.
    split; [| split; [done | apply gentle_refl]]. simpl. destruct (n >=? max) eqn:E; [done | to_prop; lia]. }
  rewrite (requeue_step s held w v f x t y) by (done || lia). destruct (sound_moved s held w v f x t y S O Hne Hf Ex Ey) as (_ & _ & S1).
  simpl length in Hb. rewrite u32_small by lia. specialize (IH (moved s f x t y [w]) (left_by x [w]) (joined_by y [w]) (n + 1) S1).
  destruct IH as (Hr & Hs & Hg); [| | done | | lia | lia |].
  { simpl. rewrite lookup_insert_ne by done. by rewrite lookup_insert_eq. }
  { simpl. by rewrite lookup_insert_eq. }
  { intros u Hu. unfold queues, left_by. simpl. rewrite !without_one. assert (u ∈ queues x) as Hq by (apply Hl; set_solver). unfold queues in Hq.
    rewrite elem_of_app in *. rewrite !drop_elem. set_solver. }
  rewrite moved_cons in Hr, Hs, Hg by done. destruct (Z.to_nat (max - n)) as [| k] eqn:Ek; [lia |]. replace (Z.to_nat (max - (n + 1))) with k in * by lia.
  simpl take. rewrite Hr. split; [f_equal; apply (f_equal (fun n => (n, _))); simpl; lia |]. split; [done |].
  destruct O as (Ew & _ & L & _). eapply gentle_none; [by apply (gentle_moved s f x t y w v) | done].
Qed.

(** Onto the same futex: nothing moves. *)
Lemma requeue_self s held f x l max n : sound s held -> s_futexes s !! f = Some x -> (forall w, w ∈ l -> w ∈ queues x) -> 0 <= n -> n + Z.of_nat (length l) < 2 ^ 32 ->
  requeue_loop s f f l max n = Some (n + Z.of_nat (length (take (Z.to_nat (max - n)) l)), s).
Proof.
  intros S Ex. revert n. induction l as [| w l IH]; intros n Hl H0 Hb; simpl; [rewrite take_nil, Z.add_0_r; done |].
  destruct (n >=? max) eqn:E; to_prop; [replace (Z.to_nat (max - n)) with 0%nat by lia; simpl; by rewrite Z.add_0_r |].
  destruct (so_queued _ _ S f x w Ex) as (v & Ew & M & _); [apply Hl; set_solver |]. rewrite Ew. simpl. rewrite M. simpl. rewrite Z.eqb_refl.
  simpl length in Hb. rewrite u32_small by lia. rewrite IH by (set_solver || lia). destruct (Z.to_nat (max - n)) as [| k] eqn:Ek; [lia |].
  replace (Z.to_nat (max - (n + 1))) with k by lia. f_equal. apply (f_equal (fun n => (n, s))). simpl. lia.
Qed.

(** ** The operations *)

#[export] Instance futex_key_eq_dec : EqDecision futex_key.
Proof. solve_decision. Defined.

(** The wake counter of [key]'s futex goes on by one. *)
Definition bump (key k : futex_key) : Z := if decide (k = key) then 1 else 0.

Definition fresh2 (s : state) (new1 new2 : option Z) : Prop := fresh s new1 /\ fresh s new2 /\ (new1 = new2 -> new1 = None).
Definition roomy (s : state) : Prop := Z.of_nat (total s + 2) < 2 ^ 32.

Lemma roomy_1 s : roomy s -> Z.of_nat (total s + 1) < 2 ^ 32.
Proof. unfold roomy. lia. Qed.

Lemma fresh_after s s' new1 new2 : fresh2 s new1 new2 -> (forall h, s_futexes s !! h = None -> Some h <> new1 -> s_futexes s' !! h = None) -> fresh s' new2.
Proof.
  intros (_ & F2 & Hne) H. destruct new2 as [g |]; [| done]. simpl in *. apply H; [done |]. intros <-. by specialize (Hne eq_refl).
Qed.

(** A futex put back, and what was done before. *)
Lemma put_gentle adv s0 s held f : gentle adv s0 s -> sound s (f :: held) -> exists s', futex_put_unlocked s f = Some s' /\ sound s' held /\ gentle adv s0 s'.
Proof.
  intros G S. destruct (put_sound s held f S) as (s' & E & C & S' & _). exists s'. split; [done |]. split; [done |].
  eapply gentle_ext; [| apply (gentle_trans _ _ _ _ _ G (gentle_calm _ _ _ C S'))]. intros k. unfold none. lia.
Qed.

Lemma get_gentle adv s0 s held key new : gentle adv s0 s -> sound s held -> fresh s new -> Z.of_nat (total s + S (length held)) < 2 ^ 32 ->
  exists g s', futex_get_unlocked s key new = Some (g, s') /\ (forall h, s_futexes s !! h = None -> Some h <> new -> s_futexes s' !! h = None) /\ calm s s' /\
    match g with
    | Some f => sound s' (f :: held) /\ gentle adv s0 s' /\ exists x, at_key_of s' key f x
    | None => s' = s /\ forall f x, ~ at_key_of s key f x
    end.
Proof.
  intros G S F R. destruct (get_sound s held key new S F R) as (g & s' & E & C & H & Hg). exists g, s'. split; [done |]. split; [done |]. split; [done |].
  destruct g as [f |]; [| naive_solver]. destruct Hg as [S' Hx]. split; [done |]. split; [| done].
  eapply gentle_ext; [| apply (gentle_trans _ _ _ _ _ G (gentle_calm _ _ _ C S'))]. intros k. unfold none. lia.
Qed.

Lemma sound_in s held f : sound s held -> f ∈ held -> exists x, s_futexes s !! f = Some x.
Proof. intros S H. apply (sound_there _ _ _ S). apply occ_elem in H. unfold refs. lia. Qed.

(** A queue woken. *)
Lemma wake_gentle adv s0 s held f x mask max : gentle adv s0 s -> sound s held -> s_futexes s !! f = Some x ->
  exists n s', wake_queue s (f_queue x) mask max 0 = Some (n, s') /\ sound s' held /\ gentle adv s0 s'.
Proof.
  intros G S E. pose proof (so_once _ _ S f x E) as N. apply NoDup_app in N as (N & _ & _).
  assert (forall w, w ∈ f_queue x -> w ∈ queues x) as Hq by (unfold queues; set_solver).
  destruct (wake_queue_spec s held f x (f_queue x) mask max 0 S E N Hq) as (Hr & S' & G'); [lia | rewrite Z.add_0_l; by apply (queue_length s held f x) |].
  do 2 eexists. split; [done |]. split; [done |]. eapply gentle_ext; [| apply (gentle_trans _ _ _ _ _ G G')]. intros k. unfold none. lia.
Qed.

Lemma requeue_gentle adv s0 s held f t max : gentle adv s0 s -> sound s held -> f ∈ held -> t ∈ held ->
  exists n s', futex_requeue_waiters s f t max = Some (n, s') /\ sound s' held /\ gentle adv s0 s'.
Proof.
  intros G S Hf Ht. destruct (sound_in _ _ _ S Hf) as (x & Ex). destruct (sound_in _ _ _ S Ht) as (y & Ey).
  unfold futex_requeue_waiters. rewrite Ex. simpl. pose proof (so_once _ _ S f x Ex) as N. apply NoDup_app in N as (N & _ & _).
  assert (forall w, w ∈ f_queue x -> w ∈ queues x) as Hq by (unfold queues; set_solver). pose proof (queue_length s held f x _ S Ex N Hq).
  destruct (decide (f = t)) as [<- | Hne]; [rewrite (requeue_self s held f x) by (done || lia); by eexists _, s |].
  destruct (requeue_spec s held f x t y (f_queue x) max 0 S Hne Hf Ex Ey N Hq) as (Hr & S' & G'); [lia | lia |].
  do 2 eexists. split; [done |]. split; [done |]. eapply gentle_ext; [| apply (gentle_trans _ _ _ _ _ G G')]. intros k. unfold none. lia.
Qed.

(** No futex of that key: nobody is parked on one. *)
Lemma gentle_absent s key : (forall f x, ~ at_key_of s key f x) -> gentle (bump key) s s.
Proof.
  intros H. split; try done; [intros u v E; by exists v |]. intros cur f x _ E. exists x. unfold bump.
  rewrite decide_False, Z.add_0_r; [done |]. intros K. by apply (H f x).
Qed.

Lemma gentle_bump s held key f x : sound s held -> at_key_of s key f x -> gentle (bump key) s (put_futex s f (set_wake_seq x (u64 (f_wake_seq x + 1)))).
Proof.
  intros S [E K]. apply (gentle_put_futex _ s f x); [done | done | left; unfold bump; by rewrite decide_True |].
  intros g y Hg Ey. unfold bump. apply decide_False. intros K'. apply Hg. apply (so_key _ _ S g f y x); congruence.
Qed.
Lemma sound_bump s held f x : sound s held -> s_futexes s !! f = Some x -> sound (put_futex s f (set_wake_seq x (u64 (f_wake_seq x + 1)))) held.
Proof. intros S E. apply sound_tweak; [done | done |]. unfold u64, wrap. apply Z.mod_pos_bound. lia. Qed.

Lemma calm_roomy s s' k n : calm s s' -> Z.of_nat (total s + k) < n -> Z.of_nat (total s' + k) < n.
Proof. intros C. by rewrite (calm_total _ _ C). Qed.

(** The rest of futex_wakelike, with the futex [f] of [key] and perhaps another in hand. *)
Lemma wakelike_rest s0 s key f x f2 wake_max requeue_max mask held : gentle none s0 s -> sound s held -> at_key_of s key f x -> held = match f2 with Some f2 => [f2; f] | None => [f] end ->
  exists r s', (let s := put_futex s f (set_wake_seq x (u64 (f_wake_seq x + 1))) in
          '(woken, s) ← wake_queue s (f_queue x) (Some mask) wake_max 0;
          '(woken, s) ← match f2 with
                         | Some f2 => '(n, s) ← futex_requeue_waiters s f f2 requeue_max; s ← futex_put_unlocked s f2; Some (u32 (woken + n), s)
                         | None => Some (woken, s)
                         end;
          s ← futex_put_unlocked s f; Some (s32 woken, s)) = Some (r, s') /\ sound s' [] /\ gentle (bump key) s0 s'.
Proof.
  intros G S K Eh. pose proof K as [E Ek]. cbv zeta. set (x1 := set_wake_seq x _). set (s1 := put_futex s f x1).
  assert (sound s1 held) as S1 by by apply sound_bump. assert (gentle (bump key) s0 s1) as G1.
  { eapply gentle_ext; [| apply (gentle_trans _ _ _ _ _ G (gentle_bump s held key f x S K))]. intros k. unfold none. lia. }
  change (f_queue x) with (f_queue x1). destruct (wake_gentle _ s0 s1 held f x1 (Some mask) wake_max G1 S1) as (n & s2 & -> & S2 & G2); [unfold s1; simpl; by rewrite lookup_insert_eq |].
  cbn [mbind option_bind]. destruct f2 as [f2 |]; subst held; simpl.
  - destruct (requeue_gentle _ s0 s2 [f2; f] f f2 requeue_max G2 S2) as (m & s3 & -> & S3 & G3); [set_solver | set_solver |]. simpl.
    destruct (put_gentle _ s0 s3 [f] f2 G3 S3) as (s4 & -> & S4 & G4). simpl. destruct (put_gentle _ s0 s4 [] f G4 S4) as (s5 & -> & S5 & G5). simpl.
    by do 2 eexists.
  - destruct (put_gentle _ s0 s2 [] f G2 S2) as (s5 & -> & S5 & G5). simpl. by do 2 eexists.
Qed.

Lemma wakelike_gentle s key key2 wake_max requeue_max mask new new2 : sound s [] -> roomy s -> fresh2 s new new2 ->
  exists r s', futex_wakelike s key key2 wake_max requeue_max mask new new2 = Some (r, s') /\ sound s' [] /\
    (gentle (bump key) s s' \/ gentle none s s' /\ key2 <> None).
Proof.
  intros S R F. unfold futex_wakelike. destruct (get_gentle none s s [] key new (gentle_refl s) S (proj1 F) (roomy_1 _ R)) as (g & s1 & -> & N1 & C1 & H1). simpl.
  destruct g as [f |]; [| destruct H1 as [-> H1]; exists 0, s; split; [done |]; split; [done |]; left; by apply gentle_absent].
  destruct H1 as (S1 & G1 & x & K1). pose proof (fresh_after s s1 new new2 F N1) as F2. destruct key2 as [k2 |]; simpl.
  - assert (Z.of_nat (total s1 + 2) < 2 ^ 32) as R1 by by apply (calm_roomy s).
    destruct (get_gentle none s s1 [f] k2 new2 G1 S1 F2 R1) as (g2 & s2 & -> & N2 & C2 & H2). simpl. destruct g2 as [f2 |].
    + destruct H2 as (S2 & G2 & y & K2). destruct (sound_in _ _ f S2) as (x2 & Ex2); [set_solver |]. rewrite Ex2. simpl.
      assert (at_key_of s2 key f x2) as K by (destruct K1 as [Ex1 <-]; split; [done |]; pose proof (ca_body _ _ C2 f x x2 Ex1 Ex2) as B; unfold body in B; congruence).
      destruct (wakelike_rest s s2 key f x2 (Some f2) wake_max requeue_max mask [f2; f] G2 S2 K eq_refl) as (r & s' & E & S' & G'). simpl in E.
      exists r, s'. split; [exact E |]. by split; [| left].
    + destruct H2 as [-> _]. destruct (put_gentle none s s1 [] f G1 S1) as (s' & -> & S' & G'). simpl. do 2 eexists. split; [done |]. split; [done |]. by right.
  - destruct K1 as [Ex K]. rewrite Ex. simpl.
    destruct (wakelike_rest s s1 key f x None wake_max requeue_max mask [f] G1 S1 (conj Ex K) eq_refl) as (r & s' & E & S' & G'). simpl in E.
    exists r, s'. split; [exact E |]. by split; [| left].
Qed.

(** Two futexes taken. *)
Lemma get_two_gentle s key1 key2 new1 new2 : sound s [] -> roomy s -> fresh2 s new1 new2 ->
  exists r s', get_two s key1 key2 new1 new2 = Some (r, s') /\ gentle none s s' /\ sound s' (match r with inl (f1, f2) => [f2; f1] | inr _ => [] end).
Proof.
  intros S R F. unfold get_two. destruct (get_gentle none s s [] key1 new1 (gentle_refl s) S (proj1 F) (roomy_1 _ R)) as (g & s1 & -> & N1 & C1 & H1). simpl.
  destruct g as [f |]; [| destruct H1 as [-> _]; do 2 eexists; split; [done |]; split; [apply gentle_refl | done]].
  destruct H1 as (S1 & G1 & _). pose proof (fresh_after s s1 new1 new2 F N1) as F2. assert (Z.of_nat (total s1 + 2) < 2 ^ 32) as R1 by by apply (calm_roomy s).
  destruct (get_gentle none s s1 [f] key2 new2 G1 S1 F2 R1) as (g2 & s2 & -> & N2 & C2 & H2). simpl. destruct g2 as [f2 |].
  - destruct H2 as (S2 & G2 & _). by do 2 eexists.
  - destruct H2 as [-> _]. destruct (put_gentle none s s1 [] f G1 S1) as (s' & -> & S' & G'). simpl. by do 2 eexists.
Qed.
Lemma put_two_gentle adv s0 s f1 f2 : gentle adv s0 s -> sound s [f2; f1] -> exists s', put_two s f1 f2 = Some s' /\ sound s' [] /\ gentle adv s0 s'.
Proof. intros G S. unfold put_two. destruct (put_gentle _ _ _ _ _ G S) as (s1 & -> & S1 & G1). simpl. by apply put_gentle. Qed.

Lemma wake_op_gentle s key1 key2 word2 wake_max wake_max2 op new1 new2 : sound s [] -> roomy s -> fresh2 s new1 new2 ->
  exists r s', futex_wake_op s key1 key2 word2 wake_max wake_max2 op new1 new2 = Some (r, s') /\ sound s' [] /\ gentle none s s'.
Proof.
  intros S R F. unfold futex_wake_op. destruct (_ || _); [do 2 eexists; split; [done |]; split; [done | apply gentle_refl] |].
  set (oparg := if has_flag _ 8 then _ else _). clearbody oparg.
  destruct (get_two_gentle s key1 key2 new1 new2 S R F) as ([[f1 f2] | err] & s1 & -> & G1 & S1); cbn [mbind option_bind]; [| by do 2 eexists].
  destruct word2 as [l |]; [| destruct (put_two_gentle none s s1 f1 f2 G1 S1) as (s2 & -> & S2 & G2); cbn [mbind option_bind]; by do 2 eexists].
  match goal with |- context [store s1 l ?a] => set (s2 := store s1 l a) end.
  assert (sound s2 [f2; f1]) as S2 by by apply sound_store. assert (gentle none s s2) as G2 by (eapply gentle_none; [exact G1 | apply gentle_store]).
  destruct (sound_in s2 _ f1 S2) as (x & Ex); [set_solver |]. change (s_futexes s1 !! f1) with (s_futexes s2 !! f1). rewrite Ex. cbn [mbind option_bind].
  destruct (wake_gentle none s s2 _ f1 x None wake_max G2 S2 Ex) as (n & s3 & -> & S3 & G3). cbn [mbind option_bind].
  destruct (wake_op_compare _ _ _); cbn [mbind option_bind].
  - destruct (sound_in s3 _ f2 S3) as (y & Ey); [set_solver |]. rewrite Ey. cbn [mbind option_bind].
    destruct (wake_gentle none s s3 _ f2 y None wake_max2 G3 S3 Ey) as (m & s4 & -> & S4 & G4). cbn [mbind option_bind].
    destruct (put_two_gentle none s s4 f1 f2 G4 S4) as (s5 & -> & S5 & G5). cbn [mbind option_bind]. by do 2 eexists.
  - destruct (put_two_gentle none s s3 f1 f2 G3 S3) as (s5 & -> & S5 & G5). cbn [mbind option_bind]. by do 2 eexists.
Qed.

Lemma cmp_requeue_gentle s key1 key2 word1 val val2 val3 new1 new2 : sound s [] -> roomy s -> fresh2 s new1 new2 ->
  exists r s', futex_cmp_requeue s key1 key2 word1 val val2 val3 new1 new2 = Some (r, s') /\ sound s' [] /\ gentle none s s'.
Proof.
  intros S R F. unfold futex_cmp_requeue. destruct (get_two_gentle s key1 key2 new1 new2 S R F) as ([[f1 f2] | err] & s1 & -> & G1 & S1); simpl; [| by do 2 eexists].
  destruct (put_two_gentle none s s1 f1 f2 G1 S1) as (s2 & E2 & S2 & G2).
  destruct (futex_load s1 word1) as [tmp |]; simpl; [| rewrite E2; simpl; by do 2 eexists].
  destruct (tmp =? val3); simpl; [| rewrite E2; simpl; by do 2 eexists]. clear s2 E2 S2 G2.
  destruct (sound_in s1 _ f1 S1) as (x & Ex); [set_solver |]. rewrite Ex. simpl.
  destruct (wake_gentle none s s1 _ f1 x None val G1 S1 Ex) as (n & s3 & -> & S3 & G3). simpl.
  destruct (requeue_gentle none s s3 _ f1 f2 val2 G3 S3) as (m & s4 & -> & S4 & G4); [set_solver | set_solver |]. simpl.
  destruct (put_two_gentle none s s4 f1 f2 G4 S4) as (s5 & -> & S5 & G5). simpl. by do 2 eexists.
Qed.

Lemma cmp_requeue_pi_gentle s key1 key2 word1 val val2 new1 new2 : sound s [] -> roomy s -> fresh2 s new1 new2 ->
  exists r s', futex_cmp_requeue_pi s key1 key2 word1 val val2 new1 new2 = Some (r, s') /\ sound s' [] /\ gentle none s s'.
Proof.
  intros S R F. unfold futex_cmp_requeue_pi. destruct (get_two_gentle s key1 key2 new1 new2 S R F) as ([[f1 f2] | err] & s1 & -> & G1 & S1); simpl; [| by do 2 eexists].
  destruct (put_two_gentle none s s1 f1 f2 G1 S1) as (s2 & E2 & S2 & G2).
  destruct (futex_load s1 word1) as [tmp |]; simpl; [| rewrite E2; simpl; by do 2 eexists].
  destruct (tmp =? val); simpl; [| rewrite E2; simpl; by do 2 eexists]. clear s2 E2 S2 G2.
  destruct (requeue_gentle none s s1 _ f1 f2 val2 G1 S1) as (m & s4 & -> & S4 & G4); [set_solver | set_solver |]. simpl.
  destruct (put_two_gentle none s s4 f1 f2 G4 S4) as (s5 & -> & S5 & G5). simpl. by do 2 eexists.
Qed.

(** ** Owners *)

(** A wait changed where it is, not in what it is linked to. *)
Lemma sound_tweak_wait s held w v v' : sound s held -> s_waits s !! w = Some v -> w_magic v' = w_magic v -> w_futex v' = w_futex v -> w_linked v' = w_linked v ->
  (w_linked v = true -> w_pi_owned v' = false) -> sound (put_wait s w v') held.
Proof.
  intros [H1 H2 H3 H4 H5 H6 H7 H8 H9] E M F L P. split; try done.
  - intros f. simpl. rewrite (refs_put_wait s held w v) by done. apply H1.
  - by rewrite (total_put_wait s w v).
  - intros f x u Ex Hu. destruct (H6 f x u Ex Hu) as (v0 & E0 & M0 & L0 & F0 & P0). unfold on_queue. simpl. at_key w u; [| by exists v0].
    exists v'. simplify_eq. rewrite M, L, F. repeat split; auto.
  - intros u v0 Eu L0. simpl in *. at_key w u; [rewrite F; apply (H8 w); congruence | by apply H8].
Qed.

(** The first of a list that is not [self]. *)
Fixpoint first_but (self : option Z) (l : list Z) : option Z :=
  match l with [] => None | w :: l => if bool_decide (Some w <> self) then Some w else first_but self l end.
Lemma first_but_elem self l w : first_but self l = Some w -> w ∈ l.
Proof. induction l as [| u l IH]; simpl; [done |]. case_bool_decide; [intros [= ->] | intros E; apply IH in E]; set_solver. Qed.

Lemma pi_first_waiter s held f x self : sound s held -> s_futexes s !! f = Some x -> futex_pi_first_waiter s f self = Some (first_but self (f_pi_queue x), s).
Proof.
  intros S E. unfold futex_pi_first_waiter. rewrite E. simpl. assert (forall w, w ∈ f_pi_queue x -> w ∈ queues x) as Hq by (unfold queues; set_solver).
  induction (f_pi_queue x) as [| w l IH]; simpl; [done |]. destruct (so_queued _ _ S f x w E) as (v & Ev & M & _); [apply Hq; set_solver |].
  rewrite Ev. simpl. rewrite M. simpl. case_bool_decide; [done |]. apply IH. set_solver.
Qed.

Lemma exit_pi_same s held tid : sound s held -> exists ns, futex_exit_pi s tid = Some (ns, s).
Proof.
  intros S. unfold futex_exit_pi. destruct (s_pi_waiting s =? 0); [by eexists |]. generalize (seqZ 0 FUTEX_HASH_SIZE). intros bs.
  assert (forall l, (forall f, f ∈ l -> is_Some (s_futexes s !! f)) -> exists ns, exit_pi_bucket s l tid = Some (ns, s)) as Hb.
  { intros l. induction l as [| f l IH]; intros Hl; simpl; [by eexists |]. destruct (Hl f) as [x Ex]; [set_solver |]. destruct IH as [ns E]; [set_solver |]. rewrite Ex. simpl.
    destruct (negb _); [by eexists |]. rewrite (pi_first_waiter s held f x None S Ex). simpl. rewrite E. simpl. by eexists. }
  induction bs as [| b bs IH]; simpl; [by eexists |]. destruct (Hb (bucket s b)) as [ns ->]; [intros f Hf; destruct (so_bucket _ _ S b f Hf) as (x & -> & _); by eexists |]. simpl.
  destruct IH as [ms ->]. simpl. by eexists.
Qed.

Lemma gentle_pi_owner s f x o : s_futexes s !! f = Some x -> gentle none s (put_futex s f (set_pi_owner x o)).
Proof. intros E. by apply (gentle_same s f x). Qed.
Lemma sound_pi_owner s held f x o : sound s held -> s_futexes s !! f = Some x -> sound (put_futex s f (set_pi_owner x o)) held.
Proof. intros S E. apply sound_tweak; [done | done | by apply (so_seq _ _ S f)]. Qed.

(** The lock handed to [n]. *)
Lemma hand_over s0 s held f x n : gentle none s0 s -> sound s held -> s_futexes s !! f = Some x -> n ∈ f_pi_queue x ->
  exists nv s', s_waits s !! n = Some nv /\
    (s ← dequeue s n; nv' ← s_waits s !! n; let s := put_wait s n (set_pi_owned nv' true) in x ← s_futexes s !! f; Some (put_futex s f (set_pi_owner x (w_tid nv)))) = Some s' /\
    sound s' held /\ gentle none s0 s'.
Proof.
  intros G S E Hn. destruct (so_queued _ _ S f x n E) as (v & Ev & M & L & F & P); [unfold queues; set_solver |].
  destruct (dequeue_sound s held n v S Ev M) as (x1 & E1 & Ed & S1). exists v. eexists. split; [done |]. rewrite Ed. simpl. rewrite lookup_insert_eq. simpl. rewrite F, lookup_insert_eq. simpl.
  split; [done |]. set (s1 := off s n v x1) in *.
  assert (gentle none s0 s1) as G1 by (eapply gentle_none; [exact G | by apply gentle_off]).
  assert (s_waits s1 !! n = Some (set_linked v false)) as Ev1 by (unfold s1, off; simpl; by rewrite lookup_insert_eq).
  assert (sound (put_wait s1 n (set_pi_owned (set_linked v false) true)) held) as S2 by by apply (sound_tweak_wait s1 held n (set_linked v false)).
  assert (gentle none s0 (put_wait s1 n (set_pi_owned (set_linked v false) true))) as G2 by (eapply gentle_none; [exact G1 | by apply (gentle_put_wait _ n (set_linked v false))]).
  assert (s_futexes (put_wait s1 n (set_pi_owned (set_linked v false) true)) !! f = Some (set_queues x1 (drop n (f_queue x1)) (drop n (f_pi_queue x1)))) as E2
    by (unfold s1, off; simpl; by rewrite F, lookup_insert_eq).
  split; [by apply (sound_pi_owner _ _ _ _ (w_tid v) S2 E2) | eapply gentle_none; [exact G2 | by apply (gentle_pi_owner _ _ _ (w_tid v) E2)]].
Qed.

Lemma unlock_pi_gentle s key word tid new : sound s [] -> roomy s -> fresh s new ->
  exists r s', futex_unlock_pi s key word tid new = Some (r, s') /\ sound s' [] /\ gentle none s s'.
Proof.
  intros S R F. unfold futex_unlock_pi. destruct (get_gentle none s s [] key new (gentle_refl s) S F (roomy_1 _ R)) as (g & s1 & -> & N1 & C1 & H1). simpl.
  destruct g as [f |]; [| destruct H1 as [-> H1]; by do 2 eexists; split; [| split; [| apply gentle_refl]]].
  destruct H1 as (S1 & G1 & x & Ex & _). destruct (put_gentle none s s1 [] f G1 S1) as (s2 & E2 & S2 & G2).
  destruct (futex_load s1 word) as [val |]; simpl; [| rewrite E2; simpl; by do 2 eexists].
  destruct (val .& FUTEX_TID_MASK_ =? tid); simpl; [| rewrite E2; simpl; by do 2 eexists].
  rewrite (pi_first_waiter s1 [f] f x None S1 Ex). simpl. destruct (first_but None (f_pi_queue x)) as [n |] eqn:En.
  - apply first_but_elem in En. destruct (so_queued _ _ S1 f x n Ex) as (nv & Env & _); [unfold queues; set_solver |]. rewrite Env. simpl.
    unfold futex_cas. destruct word as [l |]; simpl; [| rewrite E2; simpl; by do 2 eexists].
    destruct (word_at s1 l =? val); simpl; [| rewrite E2; simpl; by do 2 eexists]. set (s3 := store s1 l _).
    destruct (hand_over s s3 [f] f x n) as (nv' & s4 & Env' & E4 & S4 & G4); [eapply gentle_none; [exact G1 | apply gentle_store] | by apply sound_store | done | done |].
    change (s_waits s3) with (s_waits s1) in Env'. rewrite Env in Env'. injection Env' as <-. destruct (dequeue s3 n) as [s5 |]; simpl in *; [| done].
    destruct (s_waits s5 !! n) as [nv' |]; simpl in *; [| done]. destruct (s_futexes s5 !! f) as [x5 |]; simpl in *; [| done]. injection E4 as <-.
    destruct (put_gentle none s _ [] f G4 S4) as (s6 & -> & S6 & G6). simpl. by do 2 eexists.
  - unfold futex_cas. destruct word as [l |]; simpl; [| rewrite E2; simpl; by do 2 eexists].
    destruct (word_at s1 l =? val); simpl; [| rewrite E2; simpl; by do 2 eexists].
    destruct (put_gentle none s (store s1 l 0) [] f) as (s3 & -> & S3 & G3); [eapply gentle_none; [exact G1 | apply gentle_store] | by apply sound_store |]. simpl. by do 2 eexists.
Qed.

(** ** Waits that begin and end, tasks that park *)

(** References that change hands. *)
Lemma sound_swap s s' held held' : sound s held -> s_futexes s' = s_futexes s -> s_hash s' = s_hash s -> (forall f, refs s' held' f = refs s held f) ->
  (total s' + length held' = total s + length held)%nat ->
  (forall w v, w_linked v = true -> s_waits s' !! w = Some v <-> s_waits s !! w = Some v) -> sound s' held'.
Proof.
  intros [H1 H2 H3 H4 H5 H6 H7 H8 H9] Ef Eh Er Et Ew. split; unfold bucket in *; rewrite ?Ef, ?Eh; try done.
  - intros f. rewrite Er. apply H1.
  - by rewrite Et.
  - intros f x w Ex Hw. destruct (H6 f x w Ex Hw) as (v & Ev & M & L & O). exists v. split; [by apply Ew | done].
  - intros w v Ev L. apply H8; [by apply Ew | done].
Qed.

(** Not a wait in use. *)
Definition idle (s : state) (w : Z) : Prop := forall v, s_waits s !! w = Some v -> w_magic v = false.

Lemma idle_unlinked s held w v : sound s held -> idle s w -> s_waits s !! w = Some v -> w_linked v = false.
Proof. intros S I E. destruct (w_linked v) eqn:L; [| done]. destruct (linked_on_queue _ _ _ _ S E L) as (_ & M & _). specialize (I v E). congruence. Qed.

Lemma sound_born s held w v : sound s (w_futex v :: held) -> idle s w -> w_magic v = true -> w_linked v = false -> sound (put_wait s w v) held.
Proof.
  intros S I M L. apply (sound_swap s _ (w_futex v :: held)); try done.
  - intros f. rewrite refs_held. unfold refs. simpl. pose proof (msum_put (live_on f) (s_waits s) w v) as H. rewrite (live_on_live f v M) in H.
    destruct (s_waits s !! w) as [v0 |] eqn:E; [unfold live_on at 2 in H; rewrite (I v0 E) in H; simpl in H |]; lia.
  - unfold total. simpl. pose proof (msum_put live (s_waits s) w v) as H. unfold live at 4 in H. rewrite M in H.
    destruct (s_waits s !! w) as [v0 |] eqn:E; [unfold live at 2 in H; rewrite (I v0 E) in H |]; lia.
  - intros u z Lz. simpl. at_key w u; [| done]. split; [intros E; congruence |]. intros E. pose proof (idle_unlinked _ _ _ _ S I E). congruence.
Qed.

Lemma sound_dies s held w v : sound s held -> s_waits s !! w = Some v -> w_magic v = true -> w_linked v = false -> sound (put_wait s w (set_magic v false)) (w_futex v :: held).
Proof.
  intros S E M L. apply (sound_swap s _ held); try done.
  - intros f. rewrite refs_held. unfold refs. simpl. pose proof (msum_update (live_on f) (s_waits s) w v (set_magic v false) E) as H. rewrite (live_on_live f v M) in H.
    unfold live_on at 3 in H. simpl in H. lia.
  - unfold total. simpl. pose proof (msum_update live (s_waits s) w v (set_magic v false) E) as H. unfold live at 2 4 in H. simpl in H. rewrite M in H. lia.
  - intros u z Lz. simpl. at_key w u; [split; intros E'; simplify_eq; simpl in *; congruence | done].
Qed.

Lemma msum_park (h : park -> nat) s cur p : h no_park = 0%nat -> (msum h (<[cur := p]> (s_parks s)) + h (park_of s cur) = msum h (s_parks s) + h p)%nat.
Proof. intros H0. pose proof (msum_put h (s_parks s) cur p) as H. unfold park_of. destruct (s_parks s !! cur); simpl in *; lia. Qed.

Lemma sound_park s held cur f p : sound s (f :: held) -> r_futex (park_of s cur) = None -> r_futex p = Some f -> sound (put_park s cur p) held.
Proof.
  intros S N P. apply (sound_swap s _ (f :: held)); try done.
  - intros g. rewrite refs_held. unfold refs. simpl. pose proof (msum_park (parked_on g) s cur p eq_refl) as H. unfold parked_on at 2 4 in H. rewrite N, P in H.
    rewrite (decide_False (P := None = Some g)) in H by done. destruct (decide (Some f = Some g)), (decide (f = g)); try congruence; lia.
  - unfold total. simpl. pose proof (msum_park parked s cur p eq_refl) as H. unfold parked at 2 4 in H. rewrite N, P in H. lia.
Qed.
Lemma sound_unpark s held cur f p : sound s held -> r_futex (park_of s cur) = Some f -> r_futex p = None -> sound (put_park s cur p) (f :: held).
Proof.
  intros S P N. apply (sound_swap s _ held); try done.
  - intros g. rewrite refs_held. unfold refs. simpl. pose proof (msum_park (parked_on g) s cur p eq_refl) as H. unfold parked_on at 2 4 in H. rewrite N, P in H.
    rewrite (decide_False (P := None = Some g)) in H by done. destruct (decide (Some f = Some g)), (decide (f = g)); try congruence; lia.
  - unfold total. simpl. pose proof (msum_park parked s cur p eq_refl) as H. unfold parked at 2 4 in H. rewrite N, P in H. lia.
Qed.
Lemma sound_repark s held cur p : sound s held -> r_futex p = r_futex (park_of s cur) -> sound (put_park s cur p) held.
Proof.
  intros S E. apply (sound_swap s _ held); try done.
  - intros g. unfold refs. simpl. pose proof (msum_park (parked_on g) s cur p eq_refl) as H. unfold parked_on at 2 4 in H. rewrite E in H. lia.
  - unfold total. simpl. pose proof (msum_park parked s cur p eq_refl) as H. unfold parked at 2 4 in H. rewrite E in H. lia.
Qed.
