(* ===== verification/FutexWorld.v ===== *)
(** * Futex calls, interleaved

    The calls in progress and the state they share, as a state machine: an event
    is a stretch of the code run under futex_lock (or the guest's store to a word),
    [step] runs it, and [ready] says when the code does: a task is in one call at
    a time, a wait is put where no wait in use is, malloc gives memory that is not
    in use, and a sleep ends with 0, _ETIMEDOUT or _EINTR, as wait_for does.  [step] answers what the call returns, if it does then; it is
    [None] for a failed assertion and for an object used that is not there. *)

From S2P Require Import Prelude Counts Futex.

(** Where futex_lock_pi has come to: the top of its loop, asking whether the
    owner is alive, or asleep. *)
Inductive stage := Looking | Asking (owner val : Z) | Sleeping.

Inductive call :=
| CWait (w uaddr : Z) (timeout : option Z) (deadline : Z)
| CPi (w : Z) (queued trylock : bool) (timeout : option Z) (deadline : Z) (at_ : stage).

Definition call_wait (c : call) : Z := match c with CWait w _ _ _ | CPi w _ _ _ _ _ => w end.
Definition call_queued (c : call) : bool := match c with CWait _ _ _ _ => false | CPi _ q _ _ _ _ => q end.

Record world := mk_world { w_state : state; w_calls : gmap Z call }.

Definition boot : world := mk_world (mk_state ∅ ∅ ∅ ∅ 0 ∅) ∅.

Inductive event :=
| EWait (cur uaddr : Z) (key : futex_key) (word : option Z) (val : Z) (timeout : option Z) (bitset now : Z) (new : option Z) (w : Z)
| ETop (cur now : Z) (pending restart : bool)
| ESlept (cur err : Z) (pending restart : bool)
| EInterrupt (cur : Z)
| EWakelike (key : futex_key) (key2 : option futex_key) (wake_max requeue_max wake_mask : Z) (new new2 : option Z)
| EWakeOp (key1 key2 : futex_key) (word2 : option Z) (wake_max wake_max2 encoded_op : Z) (new1 new2 : option Z)
| ECmpRequeue (key1 key2 : futex_key) (word1 : option Z) (val val2 val3 : Z) (new1 new2 : option Z)
| ECmpRequeuePi (key1 key2 : futex_key) (word1 : option Z) (val val2 : Z) (new1 new2 : option Z)
| ELockPi (cur : Z) (key : futex_key) (tid : Z) (trylock : bool) (timeout : option Z) (now : Z) (new : option Z) (w : Z)
| ELook (cur : Z) (word : option Z)
| EAsked (cur : Z) (word : option Z) (alive : bool) (now : Z)
| EPiSlept (cur : Z) (pending : bool)
| EUnlockPi (key : futex_key) (word : option Z) (tid : Z) (new : option Z)
| EExitPi (tid : Z)
| ERelease (cur : Z)
| ERobust (key : futex_key) (word : option Z) (nval : Z) (pi : bool) (new : option Z)
| EStore (l v : Z).

Definition answer := (option Z * world)%type.
Definition shared (W : world) (r : option (Z * state)) : option answer := '(n, s) ← r; Some (Some n, mk_world s (w_calls W)).

(** Out of futex_wait_masked's loop with [err], and back to the guest. *)
Definition finish_wait (W : world) (cur w uaddr : Z) (timeout : option Z) (deadline err : Z) (restart : bool) : option answer :=
  '(r, s) ← futex_wait_leave (w_state W) cur uaddr w timeout deadline err;
  '(r, s) ← futex_wait_answer s cur r restart;
  Some (Some r, mk_world s (delete cur (w_calls W))).

(** A piece of futex_lock_pi's loop is over, having come to [next]. *)
Definition pi_goes (s : state) (W : world) (cur w : Z) (queued trylock : bool) (timeout : option Z) (deadline : Z) (next : pi_next) : option answer :=
  let stay st := Some (None, mk_world s (<[cur := CPi w queued trylock timeout deadline st]> (w_calls W))) in
  match next with
  | PiDone err => '(r, s) ← lock_pi_leave s w queued err; Some (Some r, mk_world s (delete cur (w_calls W)))
  | PiAgain => stay Looking
  | PiAsk owner val => stay (Asking owner val)
  | PiSleep => stay Sleeping
  end.

Definition step (W : world) (e : event) : option answer :=
  let s := w_state W in
  match e with
  | EWait cur uaddr key word val timeout bitset now new w =>
      '(r, s) ← futex_wait_enter s cur key word val timeout bitset now new w;
      match r with
      | Returns r => '(r, s) ← futex_wait_answer s cur r false; Some (Some r, mk_world s (w_calls W))
      | Asleep deadline => Some (None, mk_world s (<[cur := CWait w uaddr timeout deadline]> (w_calls W)))
      end
  | ETop cur now pending restart =>
      match w_calls W !! cur with
      | Some (CWait w uaddr timeout deadline) =>
          v ← s_waits s !! w;
          match wait_top v timeout deadline now pending with
          | Some err => finish_wait W cur w uaddr timeout deadline err restart
          | None => Some (None, W)
          end
      | _ => None
      end
  | ESlept cur err pending restart =>
      match w_calls W !! cur with
      | Some (CWait w uaddr timeout deadline) =>
          v ← s_waits s !! w;
          match wait_slept v err pending with
          | Some err => finish_wait W cur w uaddr timeout deadline err restart
          | None => Some (None, W)
          end
      | _ => None
      end
  | EInterrupt cur =>
      c ← w_calls W !! cur; v ← s_waits s !! call_wait c;
      Some (None, mk_world (put_wait s (call_wait c) (set_interrupted v true)) (w_calls W))
  | EWakelike key key2 wake_max requeue_max wake_mask new new2 => shared W (futex_wakelike s key key2 wake_max requeue_max wake_mask new new2)
  | EWakeOp key1 key2 word2 wake_max wake_max2 encoded_op new1 new2 => shared W (futex_wake_op s key1 key2 word2 wake_max wake_max2 encoded_op new1 new2)
  | ECmpRequeue key1 key2 word1 val val2 val3 new1 new2 => shared W (futex_cmp_requeue s key1 key2 word1 val val2 val3 new1 new2)
  | ECmpRequeuePi key1 key2 word1 val val2 new1 new2 => shared W (futex_cmp_requeue_pi s key1 key2 word1 val val2 new1 new2)
  | ELockPi cur key tid trylock timeout now new w =>
      '(r, s) ← lock_pi_start s key tid timeout now new w;
      match r with
      | Returns r => Some (Some r, mk_world s (w_calls W))
      | Asleep deadline => Some (None, mk_world s (<[cur := CPi w false trylock timeout deadline Looking]> (w_calls W)))
      end
  | ELook cur word =>
      match w_calls W !! cur with
      | Some (CPi w queued trylock timeout deadline Looking) =>
          '(next, s) ← lock_pi_look s word w queued trylock; pi_goes s W cur w queued trylock timeout deadline next
      | _ => None
      end
  | EAsked cur word alive now =>
      match w_calls W !! cur with
      | Some (CPi w queued trylock timeout deadline (Asking owner val)) =>
          '(next, queued, s) ← lock_pi_asked s word w queued owner val alive timeout deadline now; pi_goes s W cur w queued trylock timeout deadline next
      | _ => None
      end
  | EPiSlept cur pending =>
      match w_calls W !! cur with
      | Some (CPi w queued trylock timeout deadline Sleeping) =>
          v ← s_waits s !! w; pi_goes s W cur w queued trylock timeout deadline (lock_pi_slept v pending)
      | _ => None
      end
  | EUnlockPi key word tid new => shared W (futex_unlock_pi s key word tid new)
  | EExitPi tid => '(_, s) ← futex_exit_pi s tid; Some (None, mk_world s (w_calls W))
  | ERelease cur => s ← futex_release_restart_park s cur; Some (None, mk_world s (w_calls W))
  | ERobust key word nval pi new => s ← robust_put s key word nval pi new; Some (None, mk_world s (w_calls W))
  | EStore l v => Some (None, mk_world (store s l v) (w_calls W))
  end.

(** ** When *)

Definition is_fresh (s : state) (new : option Z) : bool := match new with Some f => bool_decide (s_futexes s !! f = None) | None => true end.
Definition are_fresh (s : state) (new1 new2 : option Z) : bool := is_fresh s new1 && is_fresh s new2 && (bool_decide (new1 <> new2) || bool_decide (new1 = None)).
Definition is_idle (s : state) (w : Z) : bool := match s_waits s !! w with Some v => negb (w_magic v) | None => true end.
Definition no_call (W : world) (cur : Z) : bool := bool_decide (w_calls W !! cur = None).

Definition ready (W : world) (e : event) : bool :=
  let s := w_state W in
  match e with
  | EWait cur _ _ _ _ _ _ _ new w | ELockPi cur _ _ _ _ _ new w => no_call W cur && is_idle s w && is_fresh s new
  | ETop cur _ _ _ => match w_calls W !! cur with Some (CWait _ _ _ _) => true | _ => false end
  | ESlept cur err _ _ => match w_calls W !! cur with Some (CWait _ _ _ _) => (err =? 0) || (err =? _ETIMEDOUT) || (err =? _EINTR) | _ => false end
  | EInterrupt cur => negb (no_call W cur)
  | EWakelike _ _ _ _ _ new new2 | EWakeOp _ _ _ _ _ _ new new2 | ECmpRequeue _ _ _ _ _ _ new new2 | ECmpRequeuePi _ _ _ _ _ new new2 => are_fresh s new new2
  | ELook cur _ => match w_calls W !! cur with Some (CPi _ _ _ _ _ Looking) => true | _ => false end
  | EAsked cur _ _ _ => match w_calls W !! cur with Some (CPi _ _ _ _ _ (Asking _ _)) => true | _ => false end
  | EPiSlept cur _ => match w_calls W !! cur with Some (CPi _ _ _ _ _ Sleeping) => true | _ => false end
  | EUnlockPi _ _ _ new | ERobust _ _ _ _ new => is_fresh s new
  | ERelease cur => no_call W cur
  | EExitPi _ | EStore _ _ => true
  end.

(** The calls asleep and the tasks parked, and those a 32-bit count leaves room for. *)
Definition sleepers (s : state) : nat :=
  (msum (fun v => if w_magic v then 1 else 0)%nat (s_waits s) + msum (fun p => match r_futex p with Some _ => 1 | None => 0 end)%nat (s_parks s))%nat.
Definition few (s : state) : bool := Z.of_nat (sleepers s + 2) <? 2 ^ 32.

(** The events happen one after the other, each when it can; the answers. *)
Fixpoint run (W : world) (es : list event) : option (list (option Z) * world) :=
  match es with
  | [] => Some ([], W)
  | e :: es => '(r, W) ← step W e; '(rs, W) ← run W es; Some (r :: rs, W)
  end.
Fixpoint orderly (W : world) (es : list event) : bool :=
  match es with
  | [] => true
  | e :: es => ready W e && few (w_state W) && match step W e with Some (_, W) => orderly W es | None => true end
  end.
