(* ===== verification/FutexSafe.v ===== *)
(** * Futex calls never go wrong

    [good W]: the futexes are sound, every call in progress has its own live wait
    and every live wait its call, a task in FUTEX_WAIT is not parked, and the
    number of PI waiters is right.  Every event that is ready keeps this. *)

From Stdlib Require Import ZifyBool.
From S2P Require Import Prelude Counts Futex FutexSound FutexSteps FutexWorld.

(** What a call of task [cur] with its wait at [w] leaves alone of the others. *)
Record minds (cur w : Z) (adv : futex_key -> Z) (s s' : state) : Prop := mk_minds {
  mi_park : forall c, c <> cur -> park_of s' c = park_of s c;
  mi_wait : forall u v, u <> w -> s_waits s !! u = Some v ->
    exists v', s_waits s' !! u = Some v' /\ w_magic v' = w_magic v /\ w_tid v' = w_tid v /\ (w_linked v' = true -> w_linked v = true);
  mi_none : forall u, u <> w -> s_waits s !! u = None -> s_waits s' !! u = None;
  mi_seq : forall c f x, c <> cur -> r_futex (park_of s c) = Some f -> s_futexes s !! f = Some x ->
    exists x', s_futexes s' !! f = Some x' /\ f_key x' = f_key x /\ u64 (f_wake_seq x') = u64 (f_wake_seq x + adv (f_key x)) }.

Definition queued_call (c : call) : nat := if call_queued c then 1 else 0.

Record good (W : world) : Prop := mk_good {
  go_sound : sound (w_state W) [];
  go_call : forall cur c, w_calls W !! cur = Some c ->
    exists v, s_waits (w_state W) !! call_wait c = Some v /\ w_magic v = true /\ (forall w q t tm d st, c = CPi w q t tm d st -> q = false -> w_linked v = false);
  go_own : forall cur cur' c c', w_calls W !! cur = Some c -> w_calls W !! cur' = Some c' -> call_wait c = call_wait c' -> cur = cur';
  go_live : forall w v, s_waits (w_state W) !! w = Some v -> w_magic v = true -> exists cur c, w_calls W !! cur = Some c /\ call_wait c = w;
  go_park : forall cur w u t d, w_calls W !! cur = Some (CWait w u t d) -> r_futex (park_of (w_state W) cur) = None;
  go_pi : s_pi_waiting (w_state W) = u32 (Z.of_nat (msum queued_call (w_calls W))) }.

Lemma good_boot : good boot.
Proof.
  split; try (intros; simpl in *; rewrite lookup_empty in *; done); [| done]. split; try (intros; simpl in *; rewrite lookup_empty in *; done).
  - vm_compute. done.
  - intros b f. unfold bucket. simpl. rewrite lookup_empty. simpl. intros H. by apply not_elem_of_nil in H.
Qed.

Lemma minds_gentle cur w adv s s' : gentle adv s s' -> minds cur w adv s s'.
Proof.
  intros [H1 H2 H3 H4 H5 H6]. split; [| by intros; apply H4 | by intros; apply H5 | by intros; apply (H6 c)]. intros c _. unfold park_of. by rewrite H1.
Qed.
Lemma minds_trans cur w a b s1 s2 s3 : minds cur w a s1 s2 -> minds cur w b s2 s3 -> minds cur w (fun k => a k + b k) s1 s3.
Proof.
  intros [H1 H2 H3 H4] [G1 G2 G3 G4]. split; [| | auto |].
  - intros c Hc. rewrite G1, H1; done.
  - intros u v Hu E. destruct (H2 u v Hu E) as (v1 & E1 & M1 & T1 & L1). destruct (G2 u v1 Hu E1) as (v2 & E2 & M2 & T2 & L2). exists v2. naive_solver congruence.
  - intros c f x Hc P E. destruct (H4 c f x Hc P E) as (x1 & E1 & K1 & S1). destruct (G4 c f x1 Hc) as (x2 & E2 & K2 & S2); [by rewrite H1 | done |].
    exists x2. split; [done |]. split; [congruence |]. rewrite S2, K1. unfold u64, wrap in *. by rewrite <- Zplus_mod_idemp_l, S1, Zplus_mod_idemp_l, Z.add_assoc.
Qed.
Lemma minds_none cur w s1 s2 s3 : minds cur w none s1 s2 -> minds cur w none s2 s3 -> minds cur w none s1 s3.
Proof. intros H G. apply (minds_trans _ _ _ _ _ _ _ H G). Qed.
Lemma minds_wait cur w s v : minds cur w none s (put_wait s w v).
Proof.
  split; [done | | |]; simpl; [intros u z Hu E; exists z; by rewrite lookup_insert_ne | intros u Hu E; by rewrite lookup_insert_ne |].
  intros c f x _ _ E. exists x. by rewrite Z.add_0_r.
Qed.
Lemma minds_park cur w s p : minds cur w none s (put_park s cur p).
Proof.
  split; simpl; [| intros u v _ E; by exists v | done | intros c f x _ _ E; exists x; by rewrite Z.add_0_r].
  intros c Hc. unfold park_of. simpl. by rewrite lookup_insert_ne.
Qed.
Lemma minds_ext cur w s s' s'' : minds cur w none s s' -> s_parks s'' = s_parks s' -> s_waits s'' = s_waits s' -> s_futexes s'' = s_futexes s' -> minds cur w none s s''.
Proof. intros [H1 H2 H3 H4] E1 E2 E3. split; unfold park_of in *; rewrite ?E1, ?E2, ?E3; done. Qed.

(** Calls that share the state and leave it alone. *)
Lemma good_gentle W adv s' : good W -> sound s' [] -> gentle adv (w_state W) s' -> good (mk_world s' (w_calls W)).
Proof.
  intros [H1 H2 H3 H4 H5 H6] S [G1 G2 G3 G4 G5 G6]. split; simpl; try done.
  - intros cur c Ec. destruct (H2 cur c Ec) as (v & Ev & M & L). destruct (G4 _ v Ev) as (v' & Ev' & M' & _ & L'). exists v'. split; [done |]. split; [congruence |].
    intros w q t tm d st E Eq. specialize (L _ _ _ _ _ _ E Eq). destruct (w_linked v'); [| done]. rewrite L' in L by done. done.
  - intros w v Ev M. destruct (s_waits (w_state W) !! w) as [v0 |] eqn:E0; [| apply G5 in E0; congruence]. destruct (G4 w v0 E0) as (v' & Ev' & M' & _). apply (H4 w v0); congruence.
  - intros cur w u t d Ec. unfold park_of. rewrite G1. by eapply H5.
  - by rewrite G3.
Qed.

(** A call of task [cur] goes on from one piece to the next. *)
Lemma good_minds W cur w adv s' calls' : good W -> minds cur w adv (w_state W) s' -> sound s' [] ->
  (forall c, c <> cur -> calls' !! c = w_calls W !! c) ->
  (forall c x, c <> cur -> w_calls W !! c = Some x -> call_wait x <> w) ->
  (forall x, w_calls W !! cur = Some x -> call_wait x = w) ->
  match calls' !! cur with
  | Some x => call_wait x = w /\ exists v, s_waits s' !! w = Some v /\ w_magic v = true /\
      match x with CWait _ _ _ _ => r_futex (park_of s' cur) = None | CPi _ q _ _ _ _ => q = false -> w_linked v = false end
  | None => idle s' w
  end ->
  s_pi_waiting s' = u32 (Z.of_nat (msum queued_call calls')) -> good (mk_world s' calls').
Proof.
  intros [H1 H2 H3 H4 H5 H6] [G1 G2 G3 G4] S Eo Hw Ho Hc Hp. split; simpl; try done.
  - intros c x Ex. destruct (decide (c = cur)) as [-> | Hne].
    + rewrite Ex in Hc. destruct Hc as (Ew & v & Ev & M & P). exists v. split; [by rewrite Ew |]. split; [done |]. intros; subst. auto.
    + rewrite Eo in Ex by done. destruct (H2 c x Ex) as (v & Ev & M & L). destruct (G2 _ v (Hw c x Hne Ex) Ev) as (v' & Ev' & M' & _ & L'). exists v'. split; [done |]. split; [congruence |].
      intros w' q t tm d st E Eq. specialize (L _ _ _ _ _ _ E Eq). destruct (w_linked v'); [| done]. rewrite L' in L by done. done.
  - intros c c' x x' Ex Ex' E. destruct (decide (c = cur)) as [-> | Hc1], (decide (c' = cur)) as [-> | Hc2]; [done | | | rewrite !Eo in * by done; by apply (H3 _ _ x x')].
    + rewrite Ex in Hc. rewrite Eo in Ex' by done. destruct Hc as [Ew _]. specialize (Hw c' x' Hc2 Ex'). congruence.
    + rewrite Ex' in Hc. rewrite Eo in Ex by done. destruct Hc as [Ew _]. specialize (Hw c x Hc1 Ex). congruence.
  - intros u v Ev M. destruct (decide (u = w)) as [-> | Hu].
    + destruct (calls' !! cur) as [x |] eqn:Ex; [exists cur, x; naive_solver |]. specialize (Hc v Ev). congruence.
    + destruct (s_waits (w_state W) !! u) as [v0 |] eqn:E0; [| apply G3 in E0; congruence]. destruct (G2 u v0 Hu E0) as (v' & Ev' & M' & _).
      destruct (H4 u v0) as (c & x & Ex & Ew); [done | congruence |]. exists c, x. split; [| done]. rewrite Eo; [done |]. intros ->. specialize (Ho x Ex). congruence.
  - intros c w' u t d Ex. destruct (decide (c = cur)) as [-> | Hne]; [rewrite Ex in Hc; naive_solver |]. rewrite G1 by done. rewrite Eo in Ex by done. by eapply H5.
Qed.

(** ** FUTEX_WAIT *)

Lemma put_park_commute s cur p f : futex_put_unlocked (put_park s cur p) f = (fun s => put_park s cur p) <$> futex_put_unlocked s f.
Proof.
  unfold futex_put_unlocked. simpl. destruct (s_futexes s !! f) as [x |]; simpl; [| done]. destruct (u32 (f_refcount x - 1) =? 0); [| done].
  by destruct (f_queue x), (f_pi_queue x).
Qed.

(** What a call does to the rest when it only gives up its park. *)
Definition unparks (cur : Z) (s s' : state) : Prop :=
  r_futex (park_of s' cur) = None /\ (forall w, minds cur w none s s') /\ s_waits s' = s_waits s /\ s_pi_waiting s' = s_pi_waiting s.

Lemma park_of_put s cur p : park_of (put_park s cur p) cur = p.
Proof. unfold park_of. simpl. by rewrite lookup_insert_eq. Qed.

Lemma calm_minds s s' held cur w : calm s s' -> sound s' held -> minds cur w none s s'.
Proof. intros C S. by apply minds_gentle, (gentle_calm s s' held). Qed.

Lemma unparks_put cur s s1 held p : calm s s1 -> sound s1 held -> r_futex p = None -> unparks cur s (put_park s1 cur p).
Proof.
  intros C S P. split; [by rewrite park_of_put |]. split; [intros w; eapply minds_none; [by eapply calm_minds | apply minds_park] |].
  destruct C as [E1 _ E3 _ _]. by rewrite <- E1, <- E3.
Qed.

Lemma clear_park_sound s held cur f : sound s held -> r_futex (park_of s cur) = Some f ->
  exists s', futex_clear_restart_park_locked s cur = Some s' /\ sound s' held /\ unparks cur s s'.
Proof.
  intros S P. unfold futex_clear_restart_park_locked. rewrite P. set (p := mk_park None _ _ _ _ _).
  pose proof (sound_unpark s held cur f p S P eq_refl) as S1. destruct (put_sound _ held f S1) as (s2 & E & C & S2 & _). rewrite put_park_commute in E.
  destruct (futex_put_unlocked s f) as [s1 |] eqn:Ep; simpl in *; [| done]. injection E as <-. exists (put_park s1 cur p). split; [done |]. split; [done |].
  destruct C as [E1 E2 E3 E4 E5]. simpl in *. split; [by rewrite park_of_put |]. split; [| done]. intros w. split.
  - intros c Hc. unfold park_of. simpl. rewrite lookup_insert_ne by done. assert (<[cur := p]> (s_parks s1) !! c = <[cur := p]> (s_parks s) !! c) as H by (by rewrite E2).
    rewrite !lookup_insert_ne in H by done. by rewrite H.
  - intros u v _ Ev. exists v. simpl. by rewrite E1.
  - intros u _ Eu. simpl. by rewrite E1.
  - intros c g x Hc Pc Ex. assert (r_futex (park_of (put_park s1 cur p) c) = Some g) as Pc'.
    { unfold park_of in *. simpl. rewrite lookup_insert_ne by done. assert (<[cur := p]> (s_parks s1) !! c = <[cur := p]> (s_parks s) !! c) as H by (by rewrite E2).
      rewrite !lookup_insert_ne in H by done. by rewrite H. }
    destruct (sound_parked _ _ _ _ S2 Pc') as (x' & Ex'). simpl in Ex'. exists x'. split; [done |]. pose proof (E5 g x x' Ex Ex') as B. unfold body in B. rewrite Z.add_0_r. naive_solver congruence.
Qed.

Lemma resume_sound s cur f : sound s [f] ->
  exists r s', resume_park s cur f = Some (r, s') /\ unparks cur s s' /\ sound s' (match r with inl _ => [f] | inr _ => [] end).
Proof.
  intros S. unfold resume_park. destruct (r_futex (park_of s cur)) as [g |] eqn:P; [| exists (inl (false, 0, 0)), s; split; [done |]; split; [| done]; split; [done |]; split; [| done]; intros w; apply minds_gentle, gentle_refl].
  destruct (g =? f) eqn:E; to_prop; [subst g |].
  - destruct (put_sound s [] f S) as (s1 & -> & C & S1 & _). simpl. set (p := mk_park None _ _ _ _ _).
    pose proof (unparks_put cur s s1 [] p C S1 eq_refl) as U. rewrite <- (calm_park _ _ cur C) in P. pose proof (sound_unpark s1 [] cur f p S1 P eq_refl) as S2.
    destruct (sound_held _ _ _ S2) as (x & Ex). simpl in Ex. rewrite Ex. simpl. destruct (f_wake_seq x =? _); simpl; [by do 2 eexists |].
    destruct (put_sound _ [] f S2) as (s3 & -> & C3 & S3 & _). simpl. do 2 eexists. split; [done |]. split; [| done]. destruct U as (U1 & U2 & U3 & U4).
    split; [by rewrite (calm_park _ _ cur C3) |]. split; [intros w; eapply minds_none; [apply U2 | by eapply calm_minds] |]. destruct C3 as [E1 _ E3 _ _]. by rewrite E1, E3.
  - destruct (clear_park_sound s [f] cur g S P) as (s1 & -> & S1 & U). simpl. by do 2 eexists.
Qed.

(** A wait made and put on a queue of the futex the call holds. *)
Lemma sound_enqueue s held f x x' w v : sound s (f :: held) -> idle s w -> s_futexes s !! f = Some x -> w_magic v = true -> w_linked v = false -> w_pi_owned v = false -> w_futex v = f ->
  f_key x' = f_key x -> f_refcount x' = f_refcount x -> f_wake_seq x' = f_wake_seq x -> queues x' ≡ₚ w :: queues x -> sound (put_wait (put_futex s f x') w (set_linked v true)) held.
Proof.
  intros S I E M L P <- Ek Er Es Eq. pose proof (sound_born s held w v S I M L) as S1.
  pose proof (sound_on (put_wait s w v) held w v x x' S1 (lookup_insert_eq _ _ _) M L P E Ek Er Es Eq) as S2.
  replace (put_wait (put_futex s (w_futex v) x') w (set_linked v true)) with (put_wait (put_futex (put_wait s w v) (w_futex v) x') w (set_linked v true)); [done |].
  unfold put_wait, put_futex, set_waits, set_futexes. simpl. by rewrite insert_insert_eq.
Qed.

Lemma queue_back w x : queues (set_queues x (f_queue x ++ [w]) (f_pi_queue x)) ≡ₚ w :: queues x.
Proof. unfold queues. simpl. rewrite <- app_assoc. simpl. by rewrite <- Permutation_middle. Qed.
Lemma pi_queue_back w x : queues (set_queues x (f_queue x) (f_pi_queue x ++ [w])) ≡ₚ w :: queues x.
Proof. unfold queues. simpl. rewrite app_assoc. by rewrite (Permutation_app_comm _ [w]). Qed.

Lemma enter_sound s cur key word val timeout bitset now new w : sound s [] -> fresh s new -> roomy s -> idle s w ->
  exists r s', futex_wait_enter s cur key word val timeout bitset now new w = Some (r, s') /\ sound s' [] /\ minds cur w none s s' /\ s_pi_waiting s' = s_pi_waiting s /\
    match r with
    | Returns r => r <> _EINTR /\ s_waits s' = s_waits s
    | Asleep _ => r_futex (park_of s' cur) = None /\ exists v, s_waits s' !! w = Some v /\ w_magic v = true
    end.
Proof.
  intros S F R I. unfold futex_wait_enter. destruct (get_sound s [] key new S F (roomy_1 _ R)) as (g & s1 & -> & C1 & _ & H1). simpl.
  destruct g as [f |]; [| destruct H1 as [-> _]; do 2 eexists; split; [done |]; split; [done |]; split; [apply minds_gentle, gentle_refl | done]].
  destruct H1 as [S1 _]. destruct (resume_sound s1 cur f S1) as (r & s2 & -> & (U1 & U2 & U3 & U4) & S2). simpl.
  assert (minds cur w none s s2) as M2 by (eapply minds_none; [by eapply calm_minds | apply U2]). destruct C1 as [W1 _ P1 _ _]. rewrite P1 in U4. rewrite W1 in U3.
  destruct r as [[[timed dl] tm] | []]; [| by do 2 eexists]. destruct (put_sound s2 [] f S2) as (s3 & E3 & C3 & S3 & _).
  assert (minds cur w none s s3 /\ s_pi_waiting s3 = s_pi_waiting s /\ s_waits s3 = s_waits s) as (M3 & P3 & W3).
  { split; [eapply minds_none; [exact M2 | by eapply calm_minds] |]. destruct C3 as [E _ E' _ _]. by rewrite E, E'. }
  destruct (futex_load s2 word) as [tmp |]; simpl; [| rewrite E3; simpl; do 2 eexists; split; [done |]; split; [done |]; split; done].
  destruct (tmp =? val); simpl; [| rewrite E3; simpl; do 2 eexists; split; [done |]; split; [done |]; split; done].
  destruct (sound_held _ _ _ S2) as (x & Ex). rewrite Ex. simpl. do 2 eexists. split; [done |]. split; [| split; [| split; [done |]]].
  - apply (sound_enqueue s2 [] f x _ w (mk_wait true f bitset false false 0 false)); try done; [intros v; rewrite U3; apply I | apply queue_back].
  - eapply minds_none; [exact M2 |]. eapply minds_none; [| apply minds_wait]. by apply minds_gentle, (gentle_same s2 f x).
  - split; [done |]. eexists. simpl. by rewrite lookup_insert_eq.
Qed.

Lemma dequeue_safe_sound s held w v : sound s held -> s_waits s !! w = Some v -> w_magic v = true ->
  exists s', dequeue_safe s w = Some s' /\ sound s' held /\ gentle none s s' /\ s_waits s' !! w = Some (set_linked v false).
Proof.
  intros S E M. unfold dequeue_safe. rewrite E. simpl. destruct (w_linked v) eqn:L.
  - destruct (dequeue_sound s held w v S E M) as (x & Ex & -> & S'). eexists. split; [done |]. split; [done |]. split; [by apply gentle_off |]. simpl. by rewrite lookup_insert_eq.
  - exists s. split; [done |]. split; [done |]. split; [apply gentle_refl |]. rewrite E. destruct v. simpl in *. by subst.
Qed.

Lemma leave_sound s cur uaddr w timeout deadline err v : sound s [] -> s_waits s !! w = Some v -> w_magic v = true -> r_futex (park_of s cur) = None ->
  exists r s', futex_wait_leave s cur uaddr w timeout deadline err = Some (r, s') /\ sound s' [] /\ minds cur w none s s' /\ s_pi_waiting s' = s_pi_waiting s /\ idle s' w.
Proof.
  intros S E M P. unfold futex_wait_leave. rewrite E. simpl. destruct (dequeue_safe_sound s [] w v S E M) as (s1 & -> & S1 & G1 & E1). simpl. rewrite E1. simpl.
  pose proof (sound_dies s1 [] w _ S1 E1 M eq_refl) as S2. simpl in S2. set (s2 := put_wait s1 w _) in *.
  assert (minds cur w none s s2) as M2 by (eapply minds_none; [by apply minds_gentle | apply minds_wait]).
  assert (idle s2 w) as I2 by (intros v2; unfold s2; simpl; rewrite lookup_insert_eq; intros E2; by simplify_eq).
  assert (s_pi_waiting s2 = s_pi_waiting s) as P2 by (unfold s2; simpl; by destruct G1).
  destruct (err =? _EINTR) eqn:Ee.
  - destruct (sound_held _ _ _ S2) as (x & Ex). unfold s2 in Ex. simpl in Ex. rewrite Ex. simpl.
    set (q := match timeout with Some t => _ | None => _ end). destruct q as [[timed dl] tm]. do 2 eexists. split; [done |].
    split; [eapply sound_park; [exact S2 | | done] |]; [unfold s2; unfold park_of in *; simpl; by rewrite (ge_parks _ _ _ G1) |].
    split; [eapply minds_none; [exact M2 | apply minds_park] | done].
  - destruct (put_sound s2 [] _ S2) as (s3 & -> & C3 & S3 & _). simpl. do 2 eexists. split; [done |]. split; [done |]. split; [eapply minds_none; [exact M2 | by eapply calm_minds] |].
    destruct C3 as [EW _ EP _ _]. split; [by rewrite EP |]. unfold idle. by rewrite EW.
Qed.

Lemma release_park_sound s cur : sound s [] -> exists s', futex_release_restart_park s cur = Some s' /\ sound s' [] /\ (forall w, minds cur w none s s') /\ s_waits s' = s_waits s /\ s_pi_waiting s' = s_pi_waiting s.
Proof.
  intros S. unfold futex_release_restart_park. destruct (r_futex (park_of s cur)) as [f |] eqn:P.
  - destruct (clear_park_sound s [] cur f S P) as (s' & E & S' & _ & H). by exists s'.
  - exists s. split; [done |]. split; [done |]. split; [| done]. intros w. apply minds_gentle, gentle_refl.
Qed.
Lemma answer_sound s cur r restart : sound s [] ->
  exists r' s', futex_wait_answer s cur r restart = Some (r', s') /\ sound s' [] /\ (forall w, minds cur w none s s') /\ s_waits s' = s_waits s /\ s_pi_waiting s' = s_pi_waiting s.
Proof.
  intros S. assert (forall w, minds cur w none s s) as Hm by (intros w; apply minds_gentle, gentle_refl). unfold futex_wait_answer.
  destruct (r =? _EINTR); [| by do 2 eexists]. destruct restart; [by do 2 eexists |]. destruct (release_park_sound s cur S) as (s' & -> & H). simpl. by do 2 eexists.
Qed.

(** ** Locks that know their owner *)

Lemma start_pi_sound s cur key tid timeout now new w : sound s [] -> fresh s new -> roomy s -> idle s w ->
  exists r s', lock_pi_start s key tid timeout now new w = Some (r, s') /\ sound s' [] /\ minds cur w none s s' /\ s_pi_waiting s' = s_pi_waiting s /\
    match r with Returns _ => s_waits s' = s_waits s | Asleep _ => exists v, s_waits s' !! w = Some v /\ w_magic v = true /\ w_linked v = false end.
Proof.
  intros S F R I. unfold lock_pi_start. destruct (get_sound s [] key new S F (roomy_1 _ R)) as (g & s1 & -> & C1 & _ & H1). simpl.
  destruct g as [f |]; [| destruct H1 as [-> _]; do 2 eexists; split; [done |]; split; [done |]; split; [apply minds_gentle, gentle_refl | done]].
  destruct H1 as [S1 _]. do 2 eexists. split; [done |]. pose proof C1 as [EW _ EP _ _]. split; [| split; [| split; [done |]]].
  - apply sound_born; try done. intros v. rewrite EW. apply I.
  - eapply minds_none; [by eapply calm_minds | apply minds_wait].
  - eexists. simpl. by rewrite lookup_insert_eq.
Qed.

Lemma cas_gentle s word a b : let '(_, s') := futex_cas s word a b in gentle none s s' /\ (forall held, sound s held -> sound s' held).
Proof.
  unfold futex_cas. destruct word as [l |]; [destruct (word_at s l =? a) |]; (split; [try apply gentle_refl; apply gentle_store |]); intros; try done; by apply sound_store.
Qed.

Lemma look_gentle s word w queued trylock v : sound s [] -> s_waits s !! w = Some v -> w_magic v = true ->
  exists next s', lock_pi_look s word w queued trylock = Some (next, s') /\ sound s' [] /\ gentle none s s'.
Proof.
  intros S E M. unfold lock_pi_look. rewrite E. simpl. assert (forall n, exists next s', Some (n : pi_next, s) = Some (next, s') /\ sound s' [] /\ gentle none s s') as Same.
  { intros n. exists n, s. split; [done |]. split; [done | apply gentle_refl]. }
  destruct (w_pi_owned v); [apply Same |]. destruct (futex_load s word) as [val |]; [| apply Same].
  destruct (val .& FUTEX_TID_MASK_ =? 0).
  - destruct (sound_live _ _ _ _ S E M) as (x & Ex). set (o := if queued then _ else _).
    assert (exists other, o = Some (other, s)) as (other & ->) by (unfold o; destruct queued; [by eexists | rewrite (pi_first_waiter s [] _ x _ S Ex); by eexists]).
    simpl. set (want := match other with Some _ => _ | None => _ end). pose proof (cas_gentle s word val want) as H. destruct (futex_cas s word val want) as [err s']. destruct H as [G S'].
    do 2 eexists. split; [done |]. split; [by apply S' | done].
  - destruct (_ =? w_tid v); [apply Same |]. set (r := if has_flag val FUTEX_WAITERS_ then _ else _).
    assert (let '(_, s') := r in gentle none s s' /\ sound s' []) as H.
    { unfold r. destruct (has_flag val FUTEX_WAITERS_); [split; [apply gentle_refl | done] |]. pose proof (cas_gentle s word val (val .| FUTEX_WAITERS_)) as H.
      destruct (futex_cas _ _ _ _) as [err s']. destruct H as [G S']. split; [done | by apply S']. }
    destruct r as [err s']. destruct H as [G S']. destruct (err =? _EAGAIN); [by do 2 eexists |]. destruct (err <? 0); [by do 2 eexists |]. destruct trylock; by do 2 eexists.
Qed.

(** The number of PI waiters, as [queued] goes from one to the other. *)
Definition pi_counts (s s' : state) (queued queued' : bool) : Prop :=
  s_pi_waiting s' = if queued' && negb queued then u32 (s_pi_waiting s + 1) else if queued && negb queued' then u32 (s_pi_waiting s - 1) else s_pi_waiting s.

Lemma pi_counts_same s s' q : s_pi_waiting s' = s_pi_waiting s -> pi_counts s s' q q.
Proof. intros E. unfold pi_counts. by destruct q. Qed.

Lemma asked_sound s cur word w queued owner val alive timeout deadline now v : sound s [] -> s_waits s !! w = Some v -> w_magic v = true -> (queued = false -> w_linked v = false) ->
  exists next queued' s', lock_pi_asked s word w queued owner val alive timeout deadline now = Some (next, queued', s') /\ sound s' [] /\ minds cur w none s s' /\ pi_counts s s' queued queued' /\
    exists v', s_waits s' !! w = Some v' /\ w_magic v' = true /\ (queued' = false -> w_linked v' = false).
Proof.
  intros S E M L. unfold lock_pi_asked. destruct (sound_live _ _ _ _ S E M) as (x & Ex). rewrite E. simpl. rewrite Ex. simpl.
  assert (forall n s', gentle none s s' -> sound s' [] -> s_waits s' = s_waits s -> exists next queued' s'', Some (n : pi_next, queued, s') = Some (next, queued', s'') /\ sound s'' [] /\ minds cur w none s s'' /\ pi_counts s s'' queued queued' /\
    exists v', s_waits s'' !! w = Some v' /\ w_magic v' = true /\ (queued' = false -> w_linked v' = false)) as Same.
  { intros n s' G S' W. exists n, queued, s'. split; [done |]. split; [done |]. split; [by apply minds_gentle |]. split; [by apply pi_counts_same; destruct G |]. exists v. by rewrite W. }
  pose proof (fun n => Same n s (gentle_refl s) S eq_refl) as Same0. destruct (w_pi_owned v) eqn:Po; [apply Same0 |]. destruct alive; simpl.
  - set (s1 := put_futex s (w_futex v) (set_pi_owner x owner)). assert (sound s1 []) as S1 by by apply sound_pi_owner. assert (gentle none s s1) as G1 by by apply gentle_pi_owner.
    destruct queued; [apply (Same _ s1 G1 S1 eq_refl) |]. do 3 eexists. split; [done |]. split; [| split; [| split; [done |]]].
    + apply sound_pi_waiting. specialize (L eq_refl). pose proof (sound_on s1 [] w v (set_pi_owner x owner) (set_queues (set_pi_owner x owner) (f_queue x) (f_pi_queue x ++ [w])) S1 E M L Po) as S2.
      apply S2; try done; [unfold s1; simpl; by rewrite lookup_insert_eq | apply (pi_queue_back w (set_pi_owner x owner))].
    + eapply minds_ext with (s' := put_wait (put_futex s1 (w_futex v) _) w _); [| done | done | done]. eapply minds_none; [by apply minds_gentle |]. eapply minds_none; [| apply minds_wait].
      apply minds_gentle, (gentle_same s1 _ (set_pi_owner x owner)); [unfold s1; simpl; by rewrite lookup_insert_eq | done | done].
    + eexists. simpl. rewrite lookup_insert_eq. done.
  - destruct (futex_load s word) as [cur_val |]; [| apply Same0]. destruct (cur_val =? val); simpl; [| apply Same0]. destruct (negb queued && _); [apply Same0 |].
    unfold futex_cas. destruct word as [l |]; [| apply Same0]. destruct (word_at s l =? val); [| apply Same0]. apply Same; [apply gentle_store | by apply sound_store | done].
Qed.

Lemma asked_queued s word w owner val alive timeout deadline now next q s' : lock_pi_asked s word w true owner val alive timeout deadline now = Some (next, q, s') -> q = true.
Proof.
  unfold lock_pi_asked. destruct (s_waits s !! w) as [v |]; simpl; [| done]. destruct (s_futexes s !! w_futex v) as [x |]; simpl; [| done].
  destruct (w_pi_owned v); [congruence |]. destruct alive; simpl; [congruence |]. destruct (futex_load s word) as [n |]; [| congruence].
  destruct (n =? val); simpl; [| congruence]. destruct (futex_cas _ _ _ _). congruence.
Qed.

Lemma leave_pi_sound s cur w queued err v : sound s [] -> s_waits s !! w = Some v -> w_magic v = true -> (queued = false -> w_linked v = false) ->
  exists r s', lock_pi_leave s w queued err = Some (r, s') /\ sound s' [] /\ minds cur w none s s' /\ pi_counts s s' queued false /\ idle s' w.
Proof.
  intros S E M L. unfold lock_pi_leave. rewrite E. simpl.
  assert (exists s1, (if queued then s ← (if w_pi_owned v then Some s else dequeue_safe s w); Some (set_pi_waiting s (u32 (s_pi_waiting s - 1))) else Some s) = Some s1 /\
    sound s1 [] /\ minds cur w none s s1 /\ pi_counts s s1 queued false /\ s_waits s1 !! w = Some (set_linked v false)) as (s1 & -> & S1 & M1 & P1 & E1).
  { assert (w_linked v = false -> s_waits s !! w = Some (set_linked v false)) as Hl by (intros Hl; rewrite E; destruct v; simpl in *; by subst).
    destruct queued; simpl; [destruct (w_pi_owned v) eqn:Po |].
    - simpl. eexists. split; [done |]. split; [by apply sound_pi_waiting |]. split; [by apply (minds_ext _ _ s s); try done; apply minds_gentle, gentle_refl |]. split; [done |]. apply Hl.
      destruct (w_linked v) eqn:Lk; [| done]. destruct (linked_on_queue _ _ _ _ S E Lk) as (_ & _ & _ & _ & Pf). congruence.
    - destruct (dequeue_safe_sound s [] w v S E M) as (s1 & -> & S1 & G1 & E1). simpl. eexists. split; [done |]. split; [by apply sound_pi_waiting |].
      split; [apply (minds_ext _ _ s s1); try done; by apply minds_gentle |]. split; [unfold pi_counts; simpl; by rewrite (ge_pi _ _ _ G1) | done].
    - exists s. split; [done |]. split; [done |]. split; [apply minds_gentle, gentle_refl |]. split; [done |]. auto. }
  simpl. rewrite E1. simpl. pose proof (sound_dies s1 [] w _ S1 E1 M eq_refl) as S2. simpl in S2. destruct (put_sound _ [] _ S2) as (s3 & -> & C3 & S3 & _). simpl.
  do 2 eexists. split; [done |]. split; [done |]. split; [eapply minds_none; [exact M1 |]; eapply minds_none; [apply minds_wait | by eapply calm_minds] |].
  destruct C3 as [EW _ EP _ _]. split; [unfold pi_counts in *; by rewrite EP |]. intros v3. rewrite EW. simpl. rewrite lookup_insert_eq. intros E3. by simplify_eq.
Qed.
