(* ===== verification/FutexTrace.v ===== *)
(** * Futex calls, event by event

    Every event that is ready is run without failing and keeps [good]; and a
    task parked for a restart keeps its park and its futex while others run, the
    futex's counter going on by the wakes. *)

From Stdlib Require Import ZifyBool.
From S2P Require Import Prelude Counts Futex FutexSound FutexSteps FutexWorld FutexSafe.

(** Whose call an event is of, for the calls that have state of their own. *)
Definition actor (e : event) : option Z :=
  match e with
  | EWait cur _ _ _ _ _ _ _ _ _ | ETop cur _ _ _ | ESlept cur _ _ _ | ELockPi cur _ _ _ _ _ _ _ | ELook cur _ | EAsked cur _ _ _ | EPiSlept cur _ | ERelease cur => Some cur
  | _ => None
  end.

(** How much an event can, and must, advance the wake counter of key [k]. *)
Definition at_most (e : event) (k : futex_key) : Z :=
  match e with EWakelike key _ _ _ _ _ _ | ERobust key _ _ _ _ => bump key k | _ => 0 end.
Definition at_least (e : event) (k : futex_key) : Z :=
  match e with EWakelike key None _ _ _ _ _ => bump key k | _ => 0 end.

(** Task [c] stays parked as it was, and its futex's counter goes on by [adv]. *)
Definition keeps (adv : futex_key -> Z) (c : Z) (s s' : state) : Prop :=
  park_of s' c = park_of s c /\
  forall f x, r_futex (park_of s c) = Some f -> s_futexes s !! f = Some x ->
    exists x', s_futexes s' !! f = Some x' /\ f_key x' = f_key x /\ u64 (f_wake_seq x') = u64 (f_wake_seq x + adv (f_key x)).

Definition fine (W : world) (e : event) (a : option answer) : Prop :=
  exists r W' adv, a = Some (r, W') /\ good W' /\ (forall k, at_least e k <= adv k <= at_most e k) /\ forall c, actor e <> Some c -> keeps adv c (w_state W) (w_state W').

Lemma keeps_gentle adv c s s' : gentle adv s s' -> keeps adv c s s'.
Proof. intros [H1 _ _ _ _ H6]. split; [unfold park_of; by rewrite H1 | intros f x; apply H6]. Qed.
Lemma keeps_minds cur w adv c s s' : minds cur w adv s s' -> Some cur <> Some c -> keeps adv c s s'.
Proof. intros [H1 _ _ H4] Hne. split; [apply H1; congruence | intros f x; apply H4; congruence]. Qed.

Lemma fine_gentle W e r s' adv : good W -> sound s' [] -> gentle adv (w_state W) s' -> (forall k, at_least e k <= adv k <= at_most e k) -> fine W e (Some (r, mk_world s' (w_calls W))).
Proof. intros H S G A. exists r, (mk_world s' (w_calls W)), adv. split; [done |]. split; [by eapply good_gentle |]. split; [done |]. intros c _. by apply keeps_gentle. Qed.

(** An event of task [cur], which ends in a good world. *)
Lemma fine_minds W e cur w r s' calls' : good (mk_world s' calls') -> minds cur w none (w_state W) s' -> actor e = Some cur -> (forall k, at_least e k <= 0 <= at_most e k) -> fine W e (Some (r, mk_world s' calls')).
Proof. intros H M A B. exists r, (mk_world s' calls'), none. split; [done |]. split; [done |]. split; [done |]. intros c Hc. simpl. rewrite A in Hc. by eapply keeps_minds. Qed.

Lemma is_fresh_spec s new : is_fresh s new = true -> fresh s new.
Proof. unfold is_fresh. destruct new; [| done]. simpl. intros H. by apply bool_decide_eq_true in H. Qed.
Lemma are_fresh_spec s new1 new2 : are_fresh s new1 new2 = true -> fresh2 s new1 new2.
Proof.
  unfold are_fresh. intros H. apply andb_true_iff in H as [H H3]. apply andb_true_iff in H as [H1 H2]. split; [by apply is_fresh_spec |]. split; [by apply is_fresh_spec |].
  intros E. apply orb_true_iff in H3 as [H3 | H3]; apply bool_decide_eq_true in H3; [done | done].
Qed.
Lemma is_idle_spec s w : is_idle s w = true -> idle s w.
Proof. unfold is_idle, idle. intros H v E. rewrite E in H. by apply negb_true_iff in H. Qed.
Lemma few_spec s : few s = true -> roomy s.
Proof. unfold few, roomy. intros H. apply Z.ltb_lt in H. exact H. Qed.
Lemma no_call_spec W cur : no_call W cur = true -> w_calls W !! cur = None.
Proof. unfold no_call. intros H. by apply bool_decide_eq_true in H. Qed.

(** ** Calls that begin *)

Lemma idle_not_call W c x w : good W -> idle (w_state W) w -> w_calls W !! c = Some x -> call_wait x <> w.
Proof. intros G I E <-. destruct (go_call _ G c x E) as (v & Ev & M & _). specialize (I v Ev). congruence. Qed.

(** A call that returns at once, having changed nothing of the waits. *)
Lemma good_same W cur s' : good W -> (forall w, minds cur w none (w_state W) s') -> sound s' [] -> s_waits s' = s_waits (w_state W) -> s_pi_waiting s' = s_pi_waiting (w_state W) ->
  w_calls W !! cur = None -> good (mk_world s' (w_calls W)).
Proof.
  intros [H1 H2 H3 H4 H5 H6] M S EW EP N. split; simpl; rewrite ?EW, ?EP; try done. intros c w u t d Ec. destruct (M 0) as [HP _ _ _]. rewrite HP; [by eapply H5 | congruence].
Qed.

(** A call that returned before it had a wait. *)
Lemma good_returns W cur w s' : good W -> minds cur w none (w_state W) s' -> sound s' [] -> s_waits s' = s_waits (w_state W) -> s_pi_waiting s' = s_pi_waiting (w_state W) ->
  w_calls W !! cur = None -> idle (w_state W) w -> good (mk_world s' (w_calls W)).
Proof.
  intros G M S EW EP N I. apply (good_minds W cur w none); try done.
  - intros c y _ Ey. by apply (idle_not_call W c).
  - intros y Ey. congruence.
  - rewrite N. intros v. rewrite EW. apply I.
  - rewrite EP. apply (go_pi _ G).
Qed.

Lemma good_begins W cur w adv s' x : good W -> minds cur w adv (w_state W) s' -> sound s' [] -> idle (w_state W) w -> w_calls W !! cur = None -> call_wait x = w -> call_queued x = false ->
  (exists v, s_waits s' !! w = Some v /\ w_magic v = true /\ match x with CWait _ _ _ _ => r_futex (park_of s' cur) = None | CPi _ q _ _ _ _ => q = false -> w_linked v = false end) ->
  s_pi_waiting s' = s_pi_waiting (w_state W) -> good (mk_world s' (<[cur := x]> (w_calls W))).
Proof.
  intros G M S I N Ex Q Hv EP. apply (good_minds W cur w adv); try done.
  - intros c Hc. by rewrite lookup_insert_ne.
  - intros c y _ Ey. by apply (idle_not_call W c).
  - intros y Ey. congruence.
  - by rewrite lookup_insert_eq.
  - rewrite EP, (go_pi _ G), msum_fresh by done. unfold queued_call at 2. by rewrite Q.
Qed.

(** A call that returns: its wait is in use no more. *)
Lemma good_ends W cur w adv s' x : good W -> minds cur w adv (w_state W) s' -> sound s' [] -> w_calls W !! cur = Some x -> call_wait x = w -> idle s' w ->
  s_pi_waiting s' = (if call_queued x then u32 (s_pi_waiting (w_state W) - 1) else s_pi_waiting (w_state W)) -> good (mk_world s' (delete cur (w_calls W))).
Proof.
  intros G M S Ex Ew I EP. apply (good_minds W cur w adv); try done.
  - intros c Hc. by rewrite lookup_delete_ne.
  - intros c y Hc Ey E. apply Hc. apply (go_own _ G c cur y x); congruence.
  - intros y Ey. congruence.
  - by rewrite lookup_delete_eq.
  - rewrite EP, (go_pi _ G), (msum_delete queued_call (w_calls W) cur x Ex). unfold queued_call at 1 3. destruct (call_queued x); [| done].
    unfold u32, wrap. rewrite Zminus_mod_idemp_l. f_equal. lia.
Qed.

(** A call that goes on. *)
Lemma good_stays W cur w adv s' x y : good W -> minds cur w adv (w_state W) s' -> sound s' [] -> w_calls W !! cur = Some x -> call_wait x = w -> call_wait y = w ->
  (exists v, s_waits s' !! w = Some v /\ w_magic v = true /\ match y with CWait _ _ _ _ => r_futex (park_of s' cur) = None | CPi _ q _ _ _ _ => q = false -> w_linked v = false end) ->
  pi_counts (w_state W) s' (call_queued x) (call_queued y) -> good (mk_world s' (<[cur := y]> (w_calls W))).
Proof.
  intros G M S Ex Ew Ey Hv EP. apply (good_minds W cur w adv); try done.
  - intros c Hc. by rewrite lookup_insert_ne.
  - intros c z Hc Ez E. apply Hc. apply (go_own _ G c cur z x); congruence.
  - intros z Ez. congruence.
  - by rewrite lookup_insert_eq.
  - unfold pi_counts in EP. rewrite EP, (go_pi _ G). pose proof (msum_update queued_call (w_calls W) cur x y Ex) as H. unfold queued_call at 2 4 in H.
    destruct (call_queued x), (call_queued y); simpl; unfold u32, wrap; rewrite ?Zplus_mod_idemp_l, ?Zminus_mod_idemp_l; f_equal; lia.
Qed.

(** ** The events *)

Lemma fine_wait W cur uaddr key word val timeout bitset now new w : good W -> roomy (w_state W) -> w_calls W !! cur = None -> idle (w_state W) w -> fresh (w_state W) new ->
  fine W (EWait cur uaddr key word val timeout bitset now new w) (step W (EWait cur uaddr key word val timeout bitset now new w)).
Proof.
  intros G R N I F. cbn [step]. destruct (enter_sound (w_state W) cur key word val timeout bitset now new w (go_sound _ G) F R I) as (r & s1 & -> & S1 & M1 & P1 & H1).
  cbn [mbind option_bind]. destruct r as [r | deadline].
  - destruct H1 as [Hr W1]. unfold futex_wait_answer. rewrite (proj2 (Z.eqb_neq r _EINTR)) by done. cbn [mbind option_bind]. eapply fine_minds; [| exact M1 | done | done].
    by apply (good_returns W cur w).
  - destruct H1 as (Pk & v & Ev & M). eapply fine_minds; [| exact M1 | done | done]. apply (good_begins W cur w none); try done. by exists v.
Qed.

Lemma fine_finish W e cur w uaddr timeout deadline err restart : good W -> w_calls W !! cur = Some (CWait w uaddr timeout deadline) -> actor e = Some cur -> (forall k, at_least e k <= 0 <= at_most e k) ->
  fine W e (finish_wait W cur w uaddr timeout deadline err restart).
Proof.
  intros G Ec A B. unfold finish_wait. destruct (go_call _ G cur _ Ec) as (v & Ev & M & _). simpl in Ev.
  destruct (leave_sound (w_state W) cur uaddr w timeout deadline err v (go_sound _ G) Ev M (go_park _ G _ _ _ _ _ Ec)) as (r & s1 & -> & S1 & M1 & P1 & I1). cbn [mbind option_bind].
  destruct (answer_sound s1 cur r restart S1) as (r' & s2 & -> & S2 & M2 & W2 & P2). cbn [mbind option_bind].
  assert (minds cur w none (w_state W) s2) as M3 by (eapply minds_none; [exact M1 | apply M2]). eapply fine_minds; [| exact M3 | done | done].
  apply (good_ends W cur w none s2 (CWait w uaddr timeout deadline)); try done; [unfold idle; by rewrite W2 | simpl; congruence].
Qed.

Lemma fine_stay W e cur : good W -> actor e = Some cur -> (forall k, at_least e k <= 0 <= at_most e k) -> fine W e (Some (None, W)).
Proof.
  intros G A B. exists None, W, none. split; [done |]. split; [done |]. split; [done |]. intros c _. apply keeps_gentle, gentle_refl.
Qed.

(** A piece of futex_lock_pi that ended in [s1]. *)
Lemma fine_pi W e cur w queued queued' trylock timeout deadline st next s1 v : good W -> w_calls W !! cur = Some (CPi w queued trylock timeout deadline st) ->
  sound s1 [] -> minds cur w none (w_state W) s1 -> pi_counts (w_state W) s1 queued queued' -> s_waits s1 !! w = Some v -> w_magic v = true -> (queued' = false -> w_linked v = false) ->
  (queued = true -> queued' = true) -> actor e = Some cur -> (forall k, at_least e k <= 0 <= at_most e k) -> fine W e (pi_goes s1 W cur w queued' trylock timeout deadline next).
Proof.
  intros G Ec S1 M1 P1 Ev Mv L Hq A B. unfold pi_goes. destruct next as [err | | owner val |];
    try (eapply fine_minds; [| exact M1 | done | done]; apply (good_stays W cur w none s1 (CPi w queued trylock timeout deadline st)); try done; by exists v).
  destruct (leave_pi_sound s1 cur w queued' err v S1 Ev Mv L) as (r & s2 & -> & S2 & M2 & P2 & I2). cbn [mbind option_bind].
  assert (minds cur w none (w_state W) s2) as M3 by (eapply minds_none; [exact M1 | exact M2]). eapply fine_minds; [| exact M3 | done | done].
  apply (good_ends W cur w none s2 (CPi w queued trylock timeout deadline st)); try done. simpl. unfold pi_counts in *. rewrite P2.
  destruct queued, queued'; simpl in *; rewrite ?P1; try done.
  rewrite (go_pi _ G). unfold u32, wrap. rewrite Zminus_mod_idemp_l. rewrite Z.add_simpl_r. by rewrite Zmod_mod.
Qed.

Lemma fine_shared W e op r s' adv : good W -> op = Some (r, s') -> sound s' [] -> gentle adv (w_state W) s' -> (forall k, at_least e k <= adv k <= at_most e k) -> fine W e (shared W op).
Proof. intros G -> S H A. unfold shared. simpl. by eapply fine_gentle. Qed.

Lemma bump_range key k : 0 <= bump key k <= 1.
Proof. unfold bump. destruct (decide (k = key)); lia. Qed.

Lemma fine_wakelike W key key2 wake_max requeue_max mask new new2 : good W -> roomy (w_state W) -> fresh2 (w_state W) new new2 ->
  fine W (EWakelike key key2 wake_max requeue_max mask new new2) (step W (EWakelike key key2 wake_max requeue_max mask new new2)).
Proof.
  intros G R F. cbn [step]. destruct (wakelike_gentle (w_state W) key key2 wake_max requeue_max mask new new2 (go_sound _ G) R F) as (r & s' & E & S & [H | [H K]]).
  - eapply fine_shared; [done | exact E | done | exact H |]. intros k. simpl. pose proof (bump_range key k). destruct key2; lia.
  - eapply fine_shared; [done | exact E | done | exact H |]. intros k. simpl. pose proof (bump_range key k). destruct key2; [unfold none; lia | done].
Qed.

Lemma fine_robust W key word nval pi new : good W -> roomy (w_state W) -> fresh (w_state W) new -> fine W (ERobust key word nval pi new) (step W (ERobust key word nval pi new)).
Proof.
  intros G R F. cbn [step]. unfold robust_put. pose proof (go_sound _ G) as S.
  assert (forall k, 0 <= none k <= bump key k) as B by (intros k; pose proof (bump_range key k); unfold none; lia).
  destruct word as [l |]; [| cbn [mbind option_bind]; apply (fine_gentle W _ _ _ none G S (gentle_refl _)); exact B].
  set (s1 := store (w_state W) l nval). assert (sound s1 []) as S1 by by apply sound_store. pose proof (gentle_store (w_state W) l nval) as G1.
  destruct (negb pi && has_flag nval FUTEX_WAITERS_); [| cbn [mbind option_bind]; apply (fine_gentle W _ _ _ none G S1 G1); exact B].
  unfold futex_wake. destruct (wakelike_gentle s1 key None 1 0 all_bits new None S1 R) as (r & s' & -> & S' & [H | [_ K]]); [| | done].
  - split; [done |]. split; [done |]. intros ->. done.
  - cbn [mbind option_bind]. eapply (fine_gentle W _ _ _ _ G S'); [apply (gentle_trans _ _ _ _ _ G1 H) |]. intros k. cbn [at_least at_most]. pose proof (bump_range key k). unfold none. lia.
Qed.

Lemma fine_lock W cur key tid trylock timeout now new w : good W -> roomy (w_state W) -> w_calls W !! cur = None -> idle (w_state W) w -> fresh (w_state W) new ->
  fine W (ELockPi cur key tid trylock timeout now new w) (step W (ELockPi cur key tid trylock timeout now new w)).
Proof.
  intros G R N I F. cbn [step]. destruct (start_pi_sound (w_state W) cur key tid timeout now new w (go_sound _ G) F R I) as (r & s1 & -> & S1 & M1 & P1 & H1).
  cbn [mbind option_bind]. destruct r as [r | deadline].
  - eapply fine_minds; [| exact M1 | done | done]. by apply (good_returns W cur w).
  - destruct H1 as (v & Ev & M & L). eapply fine_minds; [| exact M1 | done | done]. apply (good_begins W cur w none); try done. by exists v.
Qed.

Lemma fine_look W cur word w queued trylock timeout deadline : good W -> w_calls W !! cur = Some (CPi w queued trylock timeout deadline Looking) -> fine W (ELook cur word) (step W (ELook cur word)).
Proof.
  intros G Ec. cbn [step]. rewrite Ec. destruct (go_call _ G cur _ Ec) as (v & Ev & M & L). simpl in Ev. specialize (L _ _ _ _ _ _ eq_refl).
  destruct (look_gentle (w_state W) word w queued trylock v (go_sound _ G) Ev M) as (next & s1 & -> & S1 & G1). cbn [mbind option_bind].
  destruct (ge_wait _ _ _ G1 w v Ev) as (v' & Ev' & M' & _ & L'). apply (fine_pi W _ cur w queued queued trylock timeout deadline Looking next s1 v'); try done.
  - by apply minds_gentle.
  - apply pi_counts_same. by destruct G1.
  - congruence.
  - intros Q. specialize (L Q). destruct (w_linked v'); [| done]. rewrite L' in L by done. done.
Qed.

Lemma fine_asked W cur word alive now w queued trylock timeout deadline owner val : good W -> w_calls W !! cur = Some (CPi w queued trylock timeout deadline (Asking owner val)) ->
  fine W (EAsked cur word alive now) (step W (EAsked cur word alive now)).
Proof.
  intros G Ec. cbn [step]. rewrite Ec. destruct (go_call _ G cur _ Ec) as (v & Ev & M & L). simpl in Ev. specialize (L _ _ _ _ _ _ eq_refl).
  destruct (asked_sound (w_state W) cur word w queued owner val alive timeout deadline now v (go_sound _ G) Ev M L) as (next & queued' & s1 & E & S1 & M1 & P1 & v' & Ev' & M' & L').
  rewrite E. cbn [mbind option_bind]. eapply (fine_pi W _ cur w queued queued'); try done. intros ->. by apply asked_queued in E.
Qed.

Lemma fine_pi_slept W cur pending w queued trylock timeout deadline : good W -> w_calls W !! cur = Some (CPi w queued trylock timeout deadline Sleeping) -> fine W (EPiSlept cur pending) (step W (EPiSlept cur pending)).
Proof.
  intros G Ec. cbn [step]. rewrite Ec. destruct (go_call _ G cur _ Ec) as (v & Ev & M & L). simpl in Ev. specialize (L _ _ _ _ _ _ eq_refl). rewrite Ev. cbn [mbind option_bind].
  eapply (fine_pi W _ cur w queued queued); try done; [by apply go_sound | apply minds_gentle, gentle_refl | by apply pi_counts_same].
Qed.

Lemma fine_release W cur : good W -> w_calls W !! cur = None -> fine W (ERelease cur) (step W (ERelease cur)).
Proof.
  intros G N. cbn [step]. destruct (release_park_sound (w_state W) cur (go_sound _ G)) as (s' & -> & S' & M & EW & EP). cbn [mbind option_bind].
  eapply fine_minds with (w := 0); [by apply (good_same W cur) | apply M | done | done].
Qed.

Lemma step_fine W e : good W -> ready W e = true -> few (w_state W) = true -> fine W e (step W e).
Proof.
  intros G H F. apply few_spec in F as R. pose proof (go_sound _ G) as S. destruct e; cbn [ready] in H.
  - apply andb_true_iff in H as [H H3]. apply andb_true_iff in H as [H1 H2]. apply fine_wait; [done | done | by apply no_call_spec | by apply is_idle_spec | by apply is_fresh_spec].
  - cbn [step]. destruct (w_calls W !! cur) as [[w uaddr timeout deadline | ? ? ? ? ? ?] |] eqn:Ec; try done. destruct (go_call _ G cur _ Ec) as (v & Ev & M & _). simpl in Ev. rewrite Ev.
    cbn [mbind option_bind]. destruct (wait_top v timeout deadline now pending); [by apply fine_finish | by eapply fine_stay].
  - cbn [step]. destruct (w_calls W !! cur) as [[w uaddr timeout deadline | ? ? ? ? ? ?] |] eqn:Ec; try done. destruct (go_call _ G cur _ Ec) as (v & Ev & M & _). simpl in Ev. rewrite Ev.
    cbn [mbind option_bind]. destruct (wait_slept v err pending); [by apply fine_finish | by eapply fine_stay].
  - cbn [step]. unfold no_call in H. apply negb_true_iff, bool_decide_eq_false in H. destruct (w_calls W !! cur) as [c |] eqn:Ec; [| done]. destruct (go_call _ G cur _ Ec) as (v & Ev & M & _).
    cbn [mbind option_bind]. rewrite Ev. cbn [mbind option_bind]. apply (fine_gentle W _ _ _ none); [done | | by apply (gentle_put_wait _ _ v) | done].
    apply (sound_tweak_wait _ _ _ v); try done. intros L. by destruct (linked_on_queue _ _ _ _ S Ev L) as (_ & _ & _ & _ & ?).
  - apply fine_wakelike; [done | done | by apply are_fresh_spec].
  - cbn [step]. apply are_fresh_spec in H. destruct (wake_op_gentle (w_state W) key1 key2 word2 wake_max wake_max2 encoded_op new1 new2 S R H) as (r & s' & E & S' & H'). by eapply fine_shared.
  - cbn [step]. apply are_fresh_spec in H. destruct (cmp_requeue_gentle (w_state W) key1 key2 word1 val val2 val3 new1 new2 S R H) as (r & s' & E & S' & H'). by eapply fine_shared.
  - cbn [step]. apply are_fresh_spec in H. destruct (cmp_requeue_pi_gentle (w_state W) key1 key2 word1 val val2 new1 new2 S R H) as (r & s' & E & S' & H'). by eapply fine_shared.
  - apply andb_true_iff in H as [H H3]. apply andb_true_iff in H as [H1 H2]. apply fine_lock; [done | done | by apply no_call_spec | by apply is_idle_spec | by apply is_fresh_spec].
  - destruct (w_calls W !! cur) as [[| w queued trylock timeout deadline []] |] eqn:Ec; try done. by eapply fine_look.
  - destruct (w_calls W !! cur) as [[| w queued trylock timeout deadline []] |] eqn:Ec; try done. by eapply fine_asked.
  - destruct (w_calls W !! cur) as [[| w queued trylock timeout deadline []] |] eqn:Ec; try done. by eapply fine_pi_slept.
  - cbn [step]. apply is_fresh_spec in H. destruct (unlock_pi_gentle (w_state W) key word tid new S R H) as (r & s' & E & S' & H'). by eapply fine_shared.
  - cbn [step]. destruct (exit_pi_same (w_state W) [] tid S) as [ns ->]. cbn [mbind option_bind]. apply (fine_gentle W _ _ _ none); [done | done | apply gentle_refl | done].
  - apply fine_release; [done | by apply no_call_spec].
  - apply fine_robust; [done | done | by apply is_fresh_spec].
  - cbn [step]. apply (fine_gentle W _ _ _ none); [done | by apply sound_store | apply gentle_store | done].
Qed.
