(* ===== verification/FutexClaims.v ===== *)
(** * Futexes: what is promised (kernel/futex.c) *)

From Stdlib Require Import ZifyBool.
From S2P Require Import Prelude Counts Futex FutexSound FutexSteps FutexWorld FutexSafe FutexTrace.

Lemma run_good W es : good W -> orderly W es = true -> exists rs W', run W es = Some (rs, W') /\ good W'.
Proof.
  revert W. induction es as [| e es IH]; intros W G O; simpl; [by exists [], W |]. simpl in O. apply andb_true_iff in O as [H O]. apply andb_true_iff in H as [H F].
  destruct (step_fine W e G H F) as (r & W1 & adv & E & G1 & _). rewrite E in O |- *. destruct (IH W1 G1 O) as (rs & W' & E' & G'). simpl. rewrite E'. simpl. by do 2 eexists.
Qed.

(** With nobody asleep and nobody parked the table is empty. *)
Lemma good_quiet W : good W -> w_calls W = ∅ -> (forall c, r_futex (park_of (w_state W) c) = None) -> s_futexes (w_state W) = ∅.
Proof.
  intros G Hc Hp. apply map_empty. intros f. pose proof (so_refs _ _ (go_sound _ G) f) as H. destruct (s_futexes (w_state W) !! f) as [x |]; [| done]. destruct H as [_ H]. exfalso.
  unfold refs in H. destruct (decide (0 < msum (live_on f) (s_waits (w_state W)))%nat) as [L | L].
  - apply msum_pos in L as (w & v & Ev & L). unfold live_on in L. destruct (w_magic v) eqn:M; [| simpl in L; lia]. destruct (go_live _ G w v Ev M) as (cur & c & Ec & _). rewrite Hc in Ec. done.
  - assert (0 < msum (parked_on f) (s_parks (w_state W)))%nat as P by (unfold occ in H; simpl in H; lia). apply msum_pos in P as (c & p & Ep & P).
    specialize (Hp c). unfold park_of in Hp. rewrite Ep in Hp. simpl in Hp. unfold parked_on in P. rewrite Hp in P. simpl in P. lia.
Qed.

(** C16: However FUTEX_WAIT, FUTEX_WAKE, the requeues, FUTEX_WAKE_OP, PI locks and
    unlocks, signals, restarts, exits of owners and stores to the words
    interleave, no assertion of kernel/futex.c fails and no freed futex or dead
    wait is used; each futex counts exactly the calls asleep on it and the tasks
    parked on it for a restart, a key has one futex, queues hold the live waits
    that say they are on them, each once, and the count of PI waiters is right
    ([good]); and when no call is left in progress and no task parked, the
    table is empty: nothing leaks. *)
Theorem futexes_safe es : orderly boot es = true ->
  exists rs W, run boot es = Some (rs, W) /\ good W /\
    (w_calls W = ∅ -> (forall c, r_futex (park_of (w_state W) c) = None) -> s_futexes (w_state W) = ∅).
Proof. intros O. destruct (run_good boot es good_boot O) as (rs & W & E & G). exists rs, W. split; [done |]. split; [done |]. by apply good_quiet. Qed.

(** ** FUTEX_WAKE *)

Lemma pick_take ok n l : pick ok n l = take n (filter (fun w => ok w = true) l).
Proof.
  revert n. induction l as [| w l IH]; intros n; [by rewrite pick_nil; destruct n |]. destruct n as [| n]; [done |]. cbn [pick]. rewrite filter_cons.
  destruct (ok w) eqn:E; [rewrite decide_True by done; simpl; by rewrite IH | rewrite decide_False by congruence; apply IH].
Qed.

Lemma without_disjoint P l : (forall w, w ∈ l -> w ∉ P) -> without P l = l.
Proof.
  intros H. unfold without. induction l as [| w l IH]; [done |]. rewrite filter_cons_True by (apply H; set_solver). f_equal. apply IH. set_solver.
Qed.

(** The waits of [f]'s queue that a wake takes. *)
Definition woken (s : state) (x : futex) (max mask : Z) : list Z := take (Z.to_nat max) (filter (fun w => matches s (Some mask) w = true) (f_queue x)).

Lemma woken_pick s x max mask : woken s x max mask = pick (matches s (Some mask)) (Z.to_nat max) (f_queue x).
Proof. unfold woken. by rewrite pick_take. Qed.

Lemma find_at s held key f x : sound s held -> at_key_of s key f x -> find_futex s key (bucket s (futex_key_hash key)) = Some (Some f).
Proof.
  intros S [E K]. destruct (sound_find s held key S) as ([g |] & -> & H); [| by destruct (H f x)]. destruct H as (y & Ey & Ky). do 2 f_equal. apply (so_key _ _ S g f y x); congruence.
Qed.

(** A futex taken once more. *)
Lemma sound_got s f x : sound s [] -> s_futexes s !! f = Some x -> Z.of_nat (total s + 1) < 2 ^ 32 -> sound (put_futex s f (set_refcount x (f_refcount x + 1))) [f].
Proof.
  intros S E R. destruct (sound_here _ _ _ _ S E) as [Hr Hp]. apply (sound_put_futex s [] [f] f x); try done; simpl; [by apply (so_seq _ _ S f) | rewrite refs_held, decide_True by done; lia | rewrite refs_held; lia |].
  intros g Hg. rewrite refs_held, decide_False; [done | congruence].
Qed.

Lemma wake_exact s key f x max mask new : sound s [] -> roomy s -> at_key_of s key f x ->
  let P := woken s x max mask in
  futex_wakelike s key None max 0 mask new None =
    Some (s32 (Z.of_nat (length P)),
          set_waits (put_futex s f (mk_futex (f_refcount x) key (without P (f_queue x)) (f_pi_queue x) (f_pi_owner x) (u64 (f_wake_seq x + 1)))) (unlink P (s_waits s))).
Proof.
  intros S R K P. pose proof K as [E Ek]. destruct (sound_here _ _ _ _ S E) as [Hr Hp]. pose proof (futex_refs_total s [] f) as Ht. unfold roomy in R. simpl in Ht.
  unfold futex_wakelike, futex_get_unlocked. rewrite (find_at s [] key f x S K). simpl. rewrite E. simpl. rewrite lookup_insert_eq. simpl. rewrite u32_small by lia.
  set (x1 := set_wake_seq _ _). set (s1 := put_futex _ f x1).
  assert (s1 = put_futex s f x1) as E1 by (unfold s1, put_futex, set_futexes; simpl; by rewrite insert_insert_eq).
  assert (sound s1 [f]) as S1.
  { rewrite E1. apply (sound_put_futex s [] [f] f x); try done; unfold x1; simpl; [apply (wrap_range 64); lia | rewrite refs_held, decide_True by done; lia | rewrite refs_held; lia | |].
    - intros g Hg. rewrite refs_held, decide_False; [done | congruence].
    - lia. }
  assert (s_futexes s1 !! f = Some x1) as Ex1 by (rewrite E1; simpl; by rewrite lookup_insert_eq).
  pose proof (so_once _ _ S f x E) as N. apply NoDup_app in N as (N & Nd & _). assert (forall w, w ∈ f_queue x -> w ∈ queues x1) as Hq by (unfold queues; simpl; set_solver).
  pose proof (queue_length s1 [f] f x1 (f_queue x) S1 Ex1 N Hq) as Hl.
  destruct (wake_queue_spec s1 [f] f x1 (f_queue x) (Some mask) max 0 S1 Ex1 N Hq) as (Hw & _ & _); [lia | lia |]. rewrite Z.sub_0_r, Z.add_0_l in Hw.
  replace (matches s1 (Some mask)) with (matches s (Some mask)) in Hw by done. rewrite <- (woken_pick s x max mask) in Hw. fold P in Hw.
  rewrite Hw. cbn [mbind option_bind].
  unfold futex_put_unlocked, taken. simpl. rewrite lookup_insert_eq. simpl. rewrite Z.add_simpl_r, u32_small by lia. destruct (f_refcount x =? 0) eqn:Z0; to_prop; [lia |]. simpl.
  f_equal. f_equal. unfold put_futex, set_futexes, set_waits, set_refcount. simpl. rewrite !insert_insert_eq, Ek. do 3 f_equal. apply without_disjoint.
  intros w Hw1 Hw2. unfold P in Hw2. rewrite woken_pick in Hw2. apply pick_elem in Hw2 as [Hw2 _]. by apply (Nd w).
Qed.

Lemma drop_absent w l : w ∉ l -> drop w l = l.
Proof. intros H. unfold drop. induction l as [| u l IH]; [done |]. rewrite filter_cons_True by set_solver. f_equal. apply IH. set_solver. Qed.

Lemma wake_absent s key max mask new : sound s [] -> fresh s new -> (forall f x, ~ at_key_of s key f x) ->
  exists s', futex_wakelike s key None max 0 mask new None = Some (0, s') /\ s_futexes s' = s_futexes s /\ s_waits s' = s_waits s.
Proof.
  intros S F H. unfold futex_wakelike, futex_get_unlocked. destruct (sound_find s [] key S) as ([g |] & -> & Hg); [destruct Hg as (y & K); by destruct (H g y) |]. simpl.
  destruct new as [f |]; simpl; [| by exists s]. rewrite lookup_insert_eq. simpl. unfold futex_put_unlocked. simpl. rewrite lookup_insert_eq. simpl. eexists. split; [done |]. split; [| done]. simpl.
  rewrite insert_insert_eq. by apply delete_insert_id.
Qed.

(** C18: FUTEX_WAKE and FUTEX_WAKE_BITSET, in any state the calls can reach: the
    waiters taken off the queue are the first [max], in the order they came, of
    those whose bits match; the answer is their number, the others keep their
    order, waiters for PI locks are not touched, and nothing else changes but the
    wake counter.  With no futex of that key it answers 0 and leaves no object. *)
Theorem wake_takes_first es rs W key max mask new : orderly boot es = true -> run boot es = Some (rs, W) -> few (w_state W) = true -> is_fresh (w_state W) new = true ->
  let s := w_state W in
  (forall f x, s_futexes s !! f = Some x -> f_key x = key ->
    let P := take (Z.to_nat max) (filter (fun w => matches s (Some mask) w = true) (f_queue x)) in
    futex_wakelike s key None max 0 mask new None =
      Some (s32 (Z.of_nat (length P)),
            set_waits (put_futex s f (mk_futex (f_refcount x) key (without P (f_queue x)) (f_pi_queue x) (f_pi_owner x) (u64 (f_wake_seq x + 1)))) (unlink P (s_waits s)))) /\
  ((forall f x, s_futexes s !! f = Some x -> f_key x <> key) ->
    exists s', futex_wakelike s key None max 0 mask new None = Some (0, s') /\ s_futexes s' = s_futexes s /\ s_waits s' = s_waits s).
Proof.
  intros O R F N s. destruct (run_good boot es good_boot O) as (rs' & W' & E' & G). rewrite R in E'. injection E' as <- <-. split.
  - intros f x Ex K. apply (wake_exact s key f x max mask new); [apply go_sound, G | by apply few_spec | done].
  - intros H. apply wake_absent; [apply go_sound, G | by apply is_fresh_spec |]. intros f x [Ex K]. by apply (H f x).
Qed.

(** ** FUTEX_UNLOCK_PI *)

Lemma unlock_exact s key f x l tid new : sound s [] -> roomy s -> at_key_of s key f x -> word_at s l .& FUTEX_TID_MASK_ = tid ->
  match f_pi_queue x with
  | [] => futex_unlock_pi s key (Some l) tid new = Some (0, store s l 0)
  | n :: rest => exists nv s', s_waits s !! n = Some nv /\ futex_unlock_pi s key (Some l) tid new = Some (0, s') /\
      s' = put_wait (put_futex (store s l (w_tid nv .| FUTEX_WAITERS_)) f (mk_futex (f_refcount x) key (f_queue x) rest (w_tid nv) (f_wake_seq x))) n (set_pi_owned (set_linked nv false) true) /\
      forall word queued trylock, lock_pi_look s' word n queued trylock = Some (PiDone 0, s')
  end.
Proof.
  intros S R K Ht. pose proof K as [E Ek]. destruct (sound_here _ _ _ _ S E) as [Hr Hp]. pose proof (futex_refs_total s [] f) as Hb. unfold roomy in R. simpl in Hb.
  unfold futex_unlock_pi, futex_get_unlocked. rewrite (find_at s [] key f x S K). simpl. rewrite E. simpl. rewrite u32_small by lia.
  set (x1 := set_refcount x (f_refcount x + 1)). pose proof (sound_got s f x S E ltac:(lia)) as S1. fold x1 in S1. set (s1 := put_futex s f x1) in *.
  assert (s_futexes s1 !! f = Some x1) as E1 by (unfold s1; simpl; by rewrite lookup_insert_eq). change (word_at s1 l) with (word_at s l). rewrite Ht, Z.eqb_refl. simpl.
  rewrite (pi_first_waiter s1 [f] f x1 None S1 E1). simpl. assert (forall s2, s_futexes s2 = <[f := x1]> (s_futexes s) -> futex_put_unlocked s2 f = Some (put_futex s2 f x)) as Back.
  { intros s2 E2. unfold futex_put_unlocked. rewrite E2, lookup_insert_eq. simpl. rewrite Z.add_simpl_r, u32_small by lia. destruct (f_refcount x =? 0) eqn:Z0; to_prop; [lia |]. by destruct x. }
  destruct (f_pi_queue x) as [| n rest] eqn:Eq; simpl.
  - rewrite Z.eqb_refl. simpl. rewrite Back by done. simpl. f_equal. f_equal. unfold store, put_futex, set_futexes, set_words. simpl. by rewrite insert_insert_eq, insert_id.
  - destruct (so_queued _ _ S f x n E) as (nv & Env & M & L & Fn & Po); [unfold queues; rewrite Eq; set_solver |]. simpl. rewrite Env. simpl. rewrite Z.eqb_refl. simpl.
    unfold dequeue. simpl. rewrite Env. simpl. rewrite Fn, lookup_insert_eq. simpl. rewrite lookup_insert_eq. simpl. rewrite lookup_insert_eq. simpl.
    pose proof (so_once _ _ S f x E) as N. unfold queues in N. rewrite Eq in N. apply NoDup_app in N as (N1 & Nd & N2). apply NoDup_cons in N2 as [N3 N2].
    assert (drop n (f_queue x) = f_queue x) as D1 by (apply drop_absent; intros H; apply (Nd n H); set_solver).
    assert (drop n (n :: rest) = rest) as D2 by (unfold drop; rewrite filter_cons_False by tauto; by apply drop_absent).
    rewrite Eq, D1, D2. exists nv. eexists. split; [done |]. unfold futex_put_unlocked. simpl. rewrite lookup_insert_eq. simpl. rewrite Z.add_simpl_r, u32_small by lia.
    destruct (f_refcount x =? 0) eqn:Z0; to_prop; [lia |]. simpl. split; [done |]. split.
    + unfold put_wait, put_futex, store, set_waits, set_futexes, set_words, set_refcount. simpl. by rewrite !insert_insert_eq, Ek.
    + intros word queued trylock. unfold lock_pi_look. simpl. rewrite lookup_insert_eq. done.
Qed.


(** ** Restarts *)

Fixpoint least (es : list event) (k : futex_key) : Z := match es with [] => 0 | e :: es => at_least e k + least es k end.

Lemma at_most_1 e k : 0 <= at_least e k /\ at_most e k <= 1.
Proof. destruct e; simpl; try lia; [destruct key2 |]; pose proof (bump_range key k); lia. Qed.

Lemma run_keeps W es rs W' c f x : good W -> orderly W es = true -> run W es = Some (rs, W') -> Forall (fun e => actor e <> Some c) es ->
  r_futex (park_of (w_state W) c) = Some f -> s_futexes (w_state W) !! f = Some x ->
  exists n x', good W' /\ park_of (w_state W') c = park_of (w_state W) c /\ s_futexes (w_state W') !! f = Some x' /\ f_key x' = f_key x /\
    u64 (f_wake_seq x') = u64 (f_wake_seq x + n) /\ least es (f_key x) <= n <= Z.of_nat (length es).
Proof.
  revert W rs x. induction es as [| e es IH]; intros W rs x G O E A P Ex; simpl in E.
  { injection E as <- <-. exists 0, x. rewrite Z.add_0_r. split; [done |]. do 3 (split; [done |]). split; [done |]. simpl. lia. }
  simpl in O. apply andb_true_iff in O as [H O]. apply andb_true_iff in H as [H F]. apply Forall_cons in A as [A1 A].
  destruct (step_fine W e G H F) as (r & W1 & adv & E1 & G1 & B & K). rewrite E1 in O, E. simpl in E. destruct (run W1 es) as [[rs1 W2] |] eqn:E2; [| done]. simpl in E. injection E as <- <-.
  destruct (K c A1) as [K1 K2]. destruct (K2 f x P Ex) as (x1 & Ex1 & Ek1 & Es1). rewrite <- K1 in P.
  destruct (IH W1 rs1 x1 G1 O E2 A P Ex1) as (n & x' & G' & Pk & Ex' & Ek' & Es' & Hn). exists (adv (f_key x) + n), x'. split; [done |]. split; [congruence |]. split; [done |]. split; [congruence |].
  split; [rewrite Es'; unfold u64, wrap in *; by rewrite <- Zplus_mod_idemp_l, Es1, Zplus_mod_idemp_l, Z.add_assoc |].
  rewrite Ek1 in Hn. specialize (B (f_key x)). pose proof (at_most_1 e (f_key x)). simpl length. simpl least. lia.
Qed.

Lemma put_park_parked s cur f x1 s1 held : calm s s1 -> sound s1 held -> r_futex (park_of s cur) = Some f -> s_futexes s !! f = Some x1 -> exists x2, s_futexes s1 !! f = Some x2 /\ f_wake_seq x2 = f_wake_seq x1.
Proof.
  intros C S P E. rewrite <- (calm_park _ _ cur C) in P. destruct (sound_parked _ _ _ _ S P) as (x2 & E2). exists x2. split; [done |]. pose proof (ca_body _ _ C f x1 x2 E E2) as B. unfold body in B. congruence.
Qed.

(** A restart that finds the counter gone on is a wake. *)
Lemma enter_woken s cur key word val timeout bitset now new w f x : sound s [] -> fresh s new -> roomy s -> at_key_of s key f x -> r_futex (park_of s cur) = Some f ->
  f_wake_seq x <> r_wake_seq (park_of s cur) -> exists s', futex_wait_enter s cur key word val timeout bitset now new w = Some (Returns 0, s').
Proof.
  intros S F R K P Hs. unfold futex_wait_enter. destruct (get_sound s [] key new S F (roomy_1 _ R)) as (g & s1 & Eg & C1 & _ & H1).
  assert (g = Some f) as ->. { unfold futex_get_unlocked in Eg. rewrite (find_at s [] key f x S K) in Eg. destruct K as [Ex _]. simpl in Eg. rewrite Ex in Eg. simpl in Eg. congruence. }
  rewrite Eg. cbn [mbind option_bind]. destruct H1 as [S1 _]. unfold resume_park. rewrite (calm_park _ _ cur C1), P, Z.eqb_refl. destruct (put_sound s1 [] f S1) as (s2 & -> & C2 & S2 & _).
  cbn [mbind option_bind]. set (p := mk_park None _ _ _ _ _).
  destruct K as [Ex _]. destruct (put_park_parked s cur f x s1 [f] C1 S1 P Ex) as (x1 & Ex1 & Q1).
  assert (r_futex (park_of s1 cur) = Some f) as P1 by (by rewrite (calm_park _ _ cur C1)).
  destruct (put_park_parked s1 cur f x1 s2 [] C2 S2 P1 Ex1) as (x2 & Ex2 & Q2). assert (r_futex (park_of s2 cur) = Some f) as P2 by (by rewrite (calm_park _ _ cur C2)).
  pose proof (sound_unpark s2 [] cur f p S2 P2 eq_refl) as S3. simpl. rewrite Ex2. simpl. destruct (f_wake_seq x2 =? _) eqn:E; to_prop; [congruence |]. simpl.
  destruct (put_sound _ [] f S3) as (s4 & -> & _). simpl. by eexists.
Qed.

(** A wait interrupted that is to be restarted has parked with the counter as it is. *)
Lemma finish_parks W cur w uaddr timeout deadline err W1 v : good W -> w_calls W !! cur = Some (CWait w uaddr timeout deadline) -> s_waits (w_state W) !! w = Some v -> err <> _ERESTART ->
  finish_wait W cur w uaddr timeout deadline err true = Some (Some _ERESTART, W1) ->
  exists x x1, s_futexes (w_state W) !! w_futex v = Some x /\ r_futex (park_of (w_state W1) cur) = Some (w_futex v) /\ s_futexes (w_state W1) !! w_futex v = Some x1 /\ f_key x1 = f_key x /\
    r_wake_seq (park_of (w_state W1) cur) = f_wake_seq x1.
Proof.
  intros G Ec Ev Hne. destruct (go_call _ G cur _ Ec) as (v' & Ev' & M & _). simpl in Ev'. rewrite Ev in Ev'. injection Ev' as <-. pose proof (go_sound _ G) as S.
  destruct (sound_live _ _ _ _ S Ev M) as (x & Ex). unfold finish_wait, futex_wait_leave. rewrite Ev. cbn [mbind option_bind].
  assert (exists s1 x1, dequeue_safe (w_state W) w = Some s1 /\ s_waits s1 !! w = Some (set_linked v false) /\ s_futexes s1 !! w_futex v = Some x1 /\ f_key x1 = f_key x /\ sound s1 []) as (s1 & x1 & -> & E1 & Ex1 & Ek & S1).
  { destruct (dequeue_safe_sound (w_state W) [] w v S Ev M) as (s1 & E1 & S1 & _ & Ew1). destruct (sound_live _ _ _ _ S1 Ew1 M) as (x1 & Ex1). exists s1, x1.
    split; [done |]. split; [done |]. split; [done |]. split; [| done]. simpl in Ex1. unfold dequeue_safe in E1. rewrite Ev in E1. simpl in E1. destruct (w_linked v); [| congruence].
    unfold dequeue in E1. rewrite Ev in E1. simpl in E1. rewrite Ex in E1. simpl in E1. injection E1 as <-. simpl in Ex1. rewrite lookup_insert_eq in Ex1. by injection Ex1 as <-. }
  cbn [mbind option_bind]. rewrite E1. cbn [mbind option_bind]. destruct (err =? _EINTR) eqn:Ee.
  - simpl. rewrite Ex1. simpl. set (q := match timeout with Some t => _ | None => _ end). destruct q as [[timed dl] tm]. simpl. intros H. injection H as <-. exists x, x1. simpl. rewrite park_of_put. simpl. done.
  - destruct (futex_put_unlocked _ _) as [s2 |]; cbn [mbind option_bind]; [| done]. unfold futex_wait_answer. rewrite Ee. cbn [mbind option_bind]. congruence.
Qed.

Lemma wait_ends v timeout deadline now pending err : wait_top v timeout deadline now pending = Some err -> err <> _ERESTART.
Proof. unfold wait_top. intros H. destruct (negb (w_linked v)); [by injection H as <- |]. destruct timeout; [| done]. destruct (_ >? 0); [done |]. by destruct pending; injection H as <-. Qed.
Lemma sleep_ends v e pending err : (e =? 0) || (e =? _ETIMEDOUT) || (e =? _EINTR) = true -> wait_slept v e pending = Some err -> err <> _ERESTART.
Proof.
  unfold wait_slept. intros He H. destruct (w_interrupted v || pending); [by injection H as <- |]. destruct (e =? _EINTR) eqn:E1; [done |]. destruct (negb (w_linked v)); [by injection H as <- |].
  destruct (e =? _ETIMEDOUT) eqn:E2, (e =? 0) eqn:E3; simpl in *; done.
Qed.

(** Without a restart the answer is not the one that restarts. *)
Lemma finish_plain W cur w uaddr timeout deadline err W1 : err <> _ERESTART -> finish_wait W cur w uaddr timeout deadline err false <> Some (Some _ERESTART, W1).
Proof.
  intros Hne. unfold finish_wait. destruct (futex_wait_leave _ _ _ _ _ _ _) as [[r s] |] eqn:El; cbn [mbind option_bind]; [| done].
  assert (r = err) as ->.
  { unfold futex_wait_leave in El. destruct (s_waits _ !! w); simpl in El; [| done]. destruct (dequeue_safe _ _) as [s1 |]; simpl in El; [| done]. destruct (s_waits s1 !! w); simpl in El; [| done].
    destruct (err =? _EINTR) eqn:E; to_prop; [| destruct (futex_put_unlocked _ _); simpl in El; congruence]. destruct (s_futexes s1 !! _); simpl in El; [| done].
    destruct timeout; simpl in El; congruence. }
  unfold futex_wait_answer. destruct (err =? _EINTR) eqn:E; cbn [mbind option_bind]; [| congruence]. to_prop. destruct (futex_release_restart_park s cur); simpl; [| done]. subst. done.
Qed.

Lemma restart_parks W e cur w uaddr timeout deadline W1 v : good W -> w_calls W !! cur = Some (CWait w uaddr timeout deadline) -> s_waits (w_state W) !! w = Some v ->
  actor e = Some cur -> ready W e = true -> step W e = Some (Some _ERESTART, W1) ->
  exists x x1, s_futexes (w_state W) !! w_futex v = Some x /\ r_futex (park_of (w_state W1) cur) = Some (w_futex v) /\ s_futexes (w_state W1) !! w_futex v = Some x1 /\ f_key x1 = f_key x /\
    r_wake_seq (park_of (w_state W1) cur) = f_wake_seq x1.
Proof.
  intros G Ec Ev A Rd Es. destruct e; simpl in A; try done; injection A as ->; cbn [ready] in Rd; unfold no_call in Rd; rewrite ?Ec in Rd; try done; cbn [step] in Es; rewrite Ec, Ev in Es; cbn [mbind option_bind] in Es.
  - destruct (wait_top v timeout deadline now pending) as [err |] eqn:Et; [| done]. apply wait_ends in Et. destruct restart; [by apply (finish_parks W cur w uaddr timeout deadline err) | by apply finish_plain in Es].
  - destruct (wait_slept v err pending) as [err' |] eqn:Et; [| done]. apply sleep_ends in Et; [| done]. destruct restart; [by apply (finish_parks W cur w uaddr timeout deadline err') | by apply finish_plain in Es].
Qed.

Lemma seq_moved a b n : 0 <= a < 2 ^ 64 -> 0 <= b < 2 ^ 64 -> u64 b = u64 (a + n) -> 0 < n < 2 ^ 64 -> b <> a.
Proof. intros Ha Hb E Hn ->. rewrite u64_small in E by lia. unfold u64, wrap in E. pose proof (Z.div_mod (a + n) (2 ^ 64) ltac:(lia)). nia. Qed.

Lemma least_pos es k : (exists max mask new1 new2, EWakelike k None max 0 mask new1 new2 ∈ es) -> 1 <= least es k.
Proof.
  intros (max & mask & new1 & new2 & H). assert (forall es, 0 <= least es k) as H0 by (intros l; induction l as [| e l IH]; simpl; [lia |]; pose proof (at_most_1 e k); lia).
  induction es as [| e es IH]; [by apply not_elem_of_nil in H |]. apply elem_of_cons in H as [<- | H]; simpl; [unfold bump; rewrite decide_True by done; pose proof (H0 es); lia |].
  pose proof (at_most_1 e k). specialize (IH H). lia.
Qed.

(** C17: FUTEX_WAIT interrupted by a signal that restarts it: a FUTEX_WAKE of the
    same word made by others before the call is made again is not lost, whatever
    else happens meanwhile (waits and wakes of others, requeues, futexes made and
    freed, stores to the word): the call made again returns 0 at once.  (Fewer
    than 2^64 events, or the 64-bit counter could come round.) *)
Theorem restart_keeps_wake es0 rs0 W0 cur w uaddr timeout deadline v x e W1 es rs W2 uaddr' word val timeout' bitset now new w' :
  orderly boot es0 = true -> run boot es0 = Some (rs0, W0) ->
  w_calls W0 !! cur = Some (CWait w uaddr timeout deadline) -> s_waits (w_state W0) !! w = Some v -> s_futexes (w_state W0) !! w_futex v = Some x ->
  actor e = Some cur -> ready W0 e = true -> few (w_state W0) = true -> step W0 e = Some (Some _ERESTART, W1) ->
  orderly W1 es = true -> run W1 es = Some (rs, W2) -> Forall (fun e => actor e <> Some cur) es ->
  (exists max mask new1 new2, EWakelike (f_key x) None max 0 mask new1 new2 ∈ es) -> Z.of_nat (length es) < 2 ^ 64 ->
  ready W2 (EWait cur uaddr' (f_key x) word val timeout' bitset now new w') = true -> few (w_state W2) = true ->
  exists W3, step W2 (EWait cur uaddr' (f_key x) word val timeout' bitset now new w') = Some (Some 0, W3).
Proof.
  intros O0 R0 Ec Ev Ex A Rd F Es O R Al (max & mask & new1 & new2 & Hw) Hl Rd2 F2. destruct (run_good boot es0 good_boot O0) as (rs' & W' & E' & G0). rewrite R0 in E'. injection E' as <- <-.
  destruct (restart_parks W0 e cur w uaddr timeout deadline W1 v G0 Ec Ev A Rd Es) as (x0 & x1 & Ex0 & P1 & Ex1 & Ek & Q1).
  rewrite Ex in Ex0. injection Ex0 as <-. destruct (step_fine W0 e G0 Rd F) as (r & W1' & adv & E1 & G1 & _). rewrite Es in E1. injection E1 as <- <-.
  destruct (run_keeps W1 es rs W2 cur (w_futex v) x1 G1 O R Al P1 Ex1) as (n & x2 & G2 & P2 & Ex2 & Ek2 & Q2 & Hn). rewrite Ek in Hn.
  pose proof (least_pos es (f_key x) ltac:(by do 4 eexists)) as H1. pose proof (so_seq _ _ (go_sound _ G1) _ _ Ex1) as Hs1. pose proof (so_seq _ _ (go_sound _ G2) _ _ Ex2) as Hs2.
  cbn [ready] in Rd2. apply andb_true_iff in Rd2 as [_ Hf]. cbn [step].
  destruct (enter_woken (w_state W2) cur (f_key x) word val timeout' bitset now new w' (w_futex v) x2) as (s3 & ->).
  - apply go_sound, G2.
  - by apply is_fresh_spec.
  - by apply few_spec.
  - split; [done | congruence].
  - by rewrite P2.
  - rewrite P2, Q1. apply (seq_moved _ _ n); done || lia.
  - simpl. by eexists.
Qed.

(** ** Witnesses *)

Module Demo.
Definition key : futex_key := mk_key FUTEX_KEY_PRIVATE 0x1000 0 0x5000.
Definition wait_ (cur f w : Z) : event := EWait cur 0x5000 key (Some 5) 7 None all_bits 0 (Some f) w.
Definition wake_ (n f : Z) : event := EWakelike key None n 0 all_bits (Some f) None.
Definition three : list event := [EStore 5 7; wait_ 1 100 1000; wait_ 2 101 2000; wait_ 3 101 3000].
Definition after (W : world) (es : list event) : world := match run W es with Some (_, W) => W | None => boot end.
Definition interrupt : event := ESlept 1 _EINTR true true.
End Demo.

(** Three waits, a wake of two and a wake of one, and everybody returns. *)
Lemma futexes_safe_witness :
  exists rs W, run boot (Demo.three ++ [Demo.wake_ 2 101; ETop 1 0 false false; ESlept 2 0 false false; Demo.wake_ 1 101; ESlept 3 0 false false]) = Some (rs, W) /\ s_futexes (w_state W) = ∅.
Proof.
  destruct (futexes_safe (Demo.three ++ [Demo.wake_ 2 101; ETop 1 0 false false; ESlept 2 0 false false; Demo.wake_ 1 101; ESlept 3 0 false false])) as (rs & W & E & _ & H); [by vm_compute |].
  exists rs, W. split; [done |]. vm_compute in E. injection E as <- <-. by apply H.
Defined.

Lemma wake_takes_first_witness :
  exists s', futex_wakelike (w_state (Demo.after boot Demo.three)) Demo.key None 2 0 all_bits (Some 101) None = Some (2, s') /\ option_map f_queue (s_futexes s' !! 100) = Some [3000].
Proof.
  destruct (wake_takes_first Demo.three [None; None; None; None] (Demo.after boot Demo.three) Demo.key 2 all_bits (Some 101)) as [H _]; try by vm_compute.
  eexists. rewrite (H 100 (mk_futex 3 Demo.key [1000; 2000; 3000] [] 0 0)); [| by vm_compute | done]. by vm_compute.
Defined.

Lemma restart_keeps_wake_witness :
  let W1 := Demo.after boot [EStore 5 7; Demo.wait_ 1 100 1000; Demo.interrupt] in
  exists W3, step (Demo.after W1 [Demo.wake_ 1 101]) (Demo.wait_ 1 101 1000) = Some (Some 0, W3).
Proof.
  intros W1. apply (restart_keeps_wake [EStore 5 7; Demo.wait_ 1 100 1000] [None; None] (Demo.after boot [EStore 5 7; Demo.wait_ 1 100 1000]) 1 1000 0x5000 None 0
    (mk_wait true 100 all_bits false true 0 false) (mk_futex 1 Demo.key [1000] [] 0 0) Demo.interrupt W1 [Demo.wake_ 1 101] [Some 0]); try by vm_compute.
  - by repeat constructor.
  - exists 1, all_bits, (Some 101), None. apply list_elem_of_singleton. done.
Defined.

