(* ===== verification/FutexRobust.v ===== *)
(** * Robust lists at exit, and the wakes that are lost (kernel/futex.c) *)

From S2P Require Import Prelude Futex FutexWorld.

(** ** The walk of the list *)

Section Robust.
Context {M : Type} (read : M -> Z -> Z -> option Z) (death : M -> Z -> bool -> M) (is64 : bool) (head : Z).

(** The entries that [link] leads to, each with the bit that says it is a PI
    lock's, back to the head. *)
Fixpoint chain (m : M) (link : Z) (l : list (Z * bool)) : Prop :=
  match l with
  | [] => link_entry link = head
  | (e, pi) :: l => link_entry link = e /\ link_pi link = pi /\ e <> head /\ exists next, robust_read read m e is64 = Some next /\ chain m next l
  end.

(** The locks are not where the links are. *)
Definition apart (l : list (Z * bool)) : Prop := forall m addr pi e, e ∈ l.*1 -> robust_read read (death m addr pi) e is64 = robust_read read m e is64.

Definition handle (offset pending : Z) (m : M) (x : Z * bool) : M :=
  if x.1 =? pending then m else death m (robust_futex_addr x.1 offset is64) x.2.

Lemma apart_tail x l : apart (x :: l) -> apart l.
Proof. intros H m addr pi e He. apply H. set_solver. Qed.

Lemma chain_death m addr pi link l : apart l -> chain m link l -> chain (death m addr pi) link l.
Proof.
  revert link. induction l as [| [e p] l IH]; intros link A; simpl; [done |]. intros (H1 & H2 & H3 & next & H4 & H5). repeat split; try done. exists next.
  rewrite A by set_solver. split; [done |]. apply IH; [by eapply apart_tail | done].
Qed.

Lemma walk_chain limit m offset pending link l : apart l -> chain m link l ->
  robust_walk read death limit m head is64 offset pending (link_entry link) (link_pi link) = (true, fold_left (handle offset pending) (take limit l) m).
Proof.
  revert limit m link. induction l as [| [e p] l IH]; intros limit m link A; simpl.
  - intros ->. rewrite take_nil. simpl. destruct limit; simpl; by rewrite Z.eqb_refl.
  - intros (<- & <- & Hne & next & Hn & Hc). destruct limit as [| limit]; simpl; rewrite (proj2 (Z.eqb_neq _ _)) by done; [done |]. rewrite Hn. unfold handle at 2. simpl.
    apply apart_tail in A. rewrite <- (IH limit _ next A); [| destruct (_ =? pending); [done | by apply chain_death]]. by destruct (_ =? pending).
Qed.

End Robust.


(** ** Wakes that are lost *)

Definition word_key : futex_key := mk_key FUTEX_KEY_PRIVATE 0x1000 0 0x5000.
Definition other_key : futex_key := mk_key FUTEX_KEY_PRIVATE 0x1000 0 0x6000.
Definition waits_at (cur : Z) (f w : Z) : event := EWait cur 0x5000 word_key (Some 5) 7 None all_bits 0 (Some f) w.
Definition answers (es : list event) : option (list (option Z)) := r ← run boot es; Some r.1.

(** A waiter that FUTEX_WAKE has taken off the queue, and counted, finds a signal
    before it finds that: it answers _EINTR, parks with the counter the wake has
    already advanced, and its restart sleeps again.  The wake is lost. *)
Theorem wake_lost_to_signal :
  let es := [EStore 5 7; waits_at 1 100 1000; EWakelike word_key None 1 0 all_bits (Some 101) None; ESlept 1 0 true true; waits_at 1 101 1000] in
  orderly boot es = true /\ answers es = Some [None; None; Some 1; Some _ERESTART; None].
Proof. by vm_compute. Qed.

(** FUTEX_CMP_REQUEUE, and FUTEX_WAKE_OP, do not advance the counter: a task
    parked for a restart sleeps again, where FUTEX_WAKE would have let it go. *)
Theorem parked_misses_wake_op :
  let es e := [EStore 5 7; waits_at 1 100 1000; ESlept 1 _EINTR true true; e; waits_at 1 103 1000] in
  let wake_op := EWakeOp word_key other_key (Some 6) 1 0 0 (Some 101) (Some 102) in
  let cmp_requeue := ECmpRequeue word_key other_key (Some 5) 1 0 7 (Some 101) (Some 102) in
  let wake := EWakelike word_key None 1 0 all_bits (Some 101) None in
  orderly boot (es wake_op) = true /\ answers (es wake_op) = Some [None; None; Some _ERESTART; Some 0; None] /\
  orderly boot (es cmp_requeue) = true /\ answers (es cmp_requeue) = Some [None; None; Some _ERESTART; Some 0; None] /\
  orderly boot (es wake) = true /\ answers (es wake) = Some [None; None; Some _ERESTART; Some 0; Some 0].
Proof. by vm_compute. Qed.

(** A dying owner's lock is read and written apart: a waiter that marks the word
    and goes to sleep between the two is overwritten, and nobody wakes it. *)
Theorem robust_mark_lost :
  let tid := 7 in let before := [EStore 5 tid] in
  exists W nval, run boot before = Some ([None], W) /\ robust_get (w_state W) (Some 5) tid = Some nval /\
    let meanwhile := [EStore 5 (tid .| FUTEX_WAITERS_); EWait 1 0x5000 word_key (Some 5) (tid .| FUTEX_WAITERS_) None all_bits 0 (Some 100) 1000; ERobust word_key (Some 5) nval false (Some 101)] in
    exists W', run W meanwhile = Some ([None; None; None], W') /\ has_flag (word_at (w_state W') 5) FUTEX_WAITERS_ = false /\
      s_waits (w_state W') !! 1000 = Some (mk_wait true 100 all_bits false true 0 false).
Proof. eexists _, _. split; [vm_compute; reflexivity |]. split; [vm_compute; reflexivity |]. eexists. split; [vm_compute; reflexivity |]. by vm_compute. Qed.
